(* ===== verification/_CoqProject ===== *)
-Q . S2P
Prelude.v
CNum.v
Geometry.v
LayoutBox.v
Alignment.v
LayoutTree.v
Shortcut.v
CString.v
ShortcutManager.v
ButtonBox.v
Item.v
SelectionWidget.v
WidgetTree.v
Dialog.v
TableItem.v
Property.v
PropertyClasses.v
Threads.v
Menu.v
StringTree.v
FSize.v
EventHandler.v
RadioButtons.v
ValueWidgets.v
WordWrapper.v
Config.v
SelectionClasses.v
InputField.v
Position.v
Pad.v
Text.v
Curses.v
TextPad.v
RichText.v
RichLinks.v
NodeTree.v
Focus.v
TreeLines.v
TreePad.v
Zypp.v
PkgStatus.v
PkgQt.v
RestApi.v
DiskSpace.v
Log.v
Loader.v
InputLoop.v
DateTime.v
Wizard.v
TableSort.v
MenuBar.v
ComboBox.v
