(* ===== verification/Prelude.v ===== *)
(** * A verification library for libyui

    libyui is a widget abstraction library: an application builds a tree of
    widgets inside dialogs, the library lays the tree out, keeps the items and
    the selection of list-like widgets, assigns keyboard shortcuts and delivers
    events, and a UI plug-in (Qt, NCurses) draws the result and reads the
    input. This library models the core of the base library under
    src/libyui/src, large parts of the text mode plug-in
    (src/libyui-ncurses/src), the handling of packages in the package selectors
    of both plug-ins (src/libyui-ncurses-pkg/src, src/libyui-qt-pkg/src) and the
    REST API for test programs (src/libyui-rest-api/src).

    ** The parts and how they interact

    - A dialog ([YDialog]) is the root of a widget tree. Opening it checks the
      shortcuts of the tree ([YShortcutManager]) and lays it out: it takes its
      preferred size and passes it down with [setSize()], which every
      container ([YLayoutBox], [YAlignment], [YButtonBox], ...) implements by
      computing sizes and positions of its children.
    - The widgets form a tree of heap objects ([YWidget] with its children
      manager); destructors delete subtrees.
    - Selection widgets ([YSelectionWidget]) own trees of items ([YItem],
      [YTreeItem], [YTableItem] with its cells).
    - [waitForEvent()] and [pollEvent()] filter what the plug-in delivers; a
      plug-in can keep the latest event in a [YSimpleEventHandler].
    - The application and the user interface can run in two threads, which
      signal each other through a pair of pipes ([YUI]).
    - Applications read and change widgets by name and value through their
      property sets ([YPropertySet], [setProperty()], [getProperty()]).
    - In the text mode the widgets of a dialog are nodes of a tree ([tnode]), of
      which one has the keyboard focus ([NCDialog]). Texts, trees and tables
      draw into pads ([NCPad]), of which a part is in a window of the terminal
      library; the editor, the formatted text and the tree move their pads by
      keys.
    - The package selectors change the pool of the package management library:
      keys and cycles choose a status, licences are shown before a package is
      marked, and the selector is left when the solver and all licences are
      settled. After each change both selectors check the disk space.
    - The REST API finds widgets by label, id and class and operates them with
      the setters above.

    ** Files

    - Prelude.v: tactics, the hint database [yui], lemmas on lists, sums and
      running positions, exceptions ([YUIException], [result], [let?]) and
      undefined behaviour ([outcome], [let!]).
    - CNum.v: the C++ numbers the layout uses: the range and the division of
      [int], and the IEEE 754 double a quotient of two [int] values is rounded
      to.
    - Geometry.v: YTypes.h and YBothDim.h: dimensions, pairs, rectangles.
    - LayoutBox.v, Module [YLayoutBox]: YLayoutBox.cc. [calcPrimaryGeometry] has
      one definition per branch ([distribute] and [childShare] when there is
      enough space, [cutSizes] with [initialSizes], [lossPass] and [lossLoop]
      when there is not), [setSize] composes them with the secondary dimension
      and the mirrored layout.
    - Alignment.v: Modules [YAlignment] (YAlignment.cc), [YSpacing], [YSquash],
      [YSingleChildContainerWidget].
    - LayoutTree.v: trees of these widgets, the dispatch of the virtual size
      functions ([snapshot]) and the recursion of [setSize()] ([layout]).
    - Shortcut.v, Module [YShortcut]: YShortcut.cc: finding, removing and setting
      the shortcut marker in a label, and the object with its caches.
    - ShortcutManager.v, Module [YShortcutManager]: YShortcutManager.cc: collecting
      the shortcuts of a dialog, detecting and resolving conflicts.
    - ButtonBox.v: Modules [YPushButton] (roles and function keys) and
      [YButtonBox] (YButtonBox.cc: order, sanity check, layout policy).
    - Item.v, Module [YItem] and SelectionWidget.v, Module [YSelectionWidget]:
      items with addresses, adding, searching, selecting.
    - WidgetTree.v: Modules [YChildrenManager] (YChildrenManager.h) and [YWidget]
      (YWidget.cc): the widget heap, constructors, destructors, searches.
    - Dialog.v: Modules [YEvent] and [YDialog] (YDialog.cc, YEventFilter.cc): the
      dialog stack, event filters, opening, the event loop.
    - TableItem.v: Modules [YTableHeader] and [YTableItem].
    - Property.v: Modules [YProperty], [YPropertyValue], [YPropertySet]
      (YProperty.cc) and [PropertyAccess], what every [setProperty()] and
      [getProperty()] does with a table of branches; PropertyClasses.v has these
      tables for every widget class.
    - Threads.v, Module [YUIThreads]: the two threads of YUI.cc as step
      relations.
    - Menu.v, Module [YMenuWidget]: YMenuWidget.cc, YMenuBar.cc, YMenuButton.cc,
      YMenuItem.cc: numbering, lookup, shortcuts inside of menus.
    - StringTree.v, Module [YStringTree]: YStringTree.cc, TreeItem.h,
      YTransText.h: trees of translated texts.
    - FSize.v: FSize.cc: sizes with units.
    - EventHandler.v, Module [YSimpleEventHandler]: YSimpleEventHandler.cc.
    - RadioButtons.v, Module [YRadioButton]: YRadioButton.cc, YRadioButtonGroup.cc,
      NCRadioButton.cc, NCRadioButtonGroup.cc.
    - ValueWidgets.v: Modules [YIntField] (with NCIntField.cc), [YProgressBar]
      (with NCProgressBar.cc), [YDownloadProgress], [YBarGraph],
      [YMultiProgressMeter], [YLogView].
    - WordWrapper.v, Module [NCWordWrapper]: NCWordWrapper.cc.
    - Config.v: Modules [YCommandLine], [YSettings], [YPath].
    - SelectionClasses.v: Modules [YItemSelector] (with
      NCCustomStatusItemSelector.cc) and [YComboBox].
    - InputField.v, Module [NCInputField]: NCInputField.cc: keys, cursor and the
      visible part of the text; DateTime.v: Modules [NCInputTextBase], [Masked],
      [NCTimeField], [NCDateField]: NCInputTextBase.cc, NCDateField.cc,
      NCTimeField.cc; ComboBox.v, Module [NCComboBox]: NCComboBox.cc.
    - Position.v, Module [Wpos]: position.h; Pad.v: Modules [NCScrollbar],
      [NCPad], [NCPadWidget] (NCPad.cc, NCPadWidget.cc): the visible part of a
      pad, scrolling, paging.
    - Text.v, Module [NCtext]: NCtext.cc: lines of a text. Curses.v: the windows
      of the terminal library as a type class with laws and a table of cells
      that satisfies them.
    - TextPad.v, Module [NCTextPad]: NCTextPad.cc: the editor, whose text is in
      the cells of a pad.
    - RichText.v, Module [NCRichText]: NCRichText.cc: drawing text with tags and
      entities; RichLinks.v: its links and keys.
    - NodeTree.v, Module [Tnode]: tnode.h; Focus.v, Module [NCDialog]: the
      keyboard focus of NCDialog.cc and NCWidget.cc; InputLoop.v, Module
      [NCInput]: its input loop, with NCtoY2Event.cc.
    - TreeLines.v, Module [NCTableLine]: NCTableItem.cc: the lines of a tree;
      TreePad.v, Module [NCTreePad]: NCTablePadBase.cc, NCTreePad.cc, NCTree.cc:
      the cursor and the visible lines; TableSort.v, Module [NCTableSort]:
      NCTableSort.cc, NCTable.cc: sorting tables.
    - MenuBar.v: Modules [NCHotkey], [CyclicContainer], [NCMenuBar]: the hot keys
      of NCstring.cc, CyclicContainer.h, NCMenuBar.cc, NCPopupMenu.cc.
    - Zypp.v: the package management library as a type class [Zypp] with the
      laws [ZyppLaws] and [PickLaws] and an instance; PkgStatus.v, Module
      [NCPkg]: NCPkgStatusStrategy.cc, NCPkgTable.cc, NCPackageSelector.cc;
      PkgQt.v, Module [YQPkg]: YQPkgObjList.cc, YQPkgList.cc,
      YQPkgVersionsView.cc, YQPackageSelectorBase.cc.
    - RestApi.v: Modules [YWidgetFinder] and [YRest]: YWidgetFinder.cc,
      YHttpServer.cc, YHttpWidgetsActionHandler.cc, YTableActionHandler.cc.
    - DiskSpace.v: Module [WarningRange] and the checks of
      NCPkgPopupDiskspace.cc and YQPkgDiskUsageList.cc.
    - Log.v, Module [YUILog]: YUILog.cc: the log of several threads.
    - Loader.v: Modules [YEnvVar] and [YUILoader]: YEnvVar.cc, YUILoader.cc,
      YUIPlugin.cc: which plug-in is loaded. CString.v: [atoi()].
    - Wizard.v, Module [YQWizard]: YQWizard.cc: the steps, tree, menus and
      buttons of wizards.

    ** Conventions

    Definitions keep the names of the C++ functions. [int] is [Z] with the
    truncating division of C++; where products can leave its range they are
    wrapped ([int_mul]) and the theorems ask for the bound ([boxFits], which
    holds for all sizes and weights up to 2^15, [small_boxFits]). Strings are lists of characters. An exception is
    a value ([result], or [outcome] where following a freed pointer is a
    possible outcome as well). Pointers are numbers: addresses in a finite map
    (widgets, dialogs, filters, cells), item addresses inside a tree, or
    indices into a list of children. Output to the log is left out, and calls
    into the UI plug-in appear as results (rectangles) or in a trace.

    ** What the theorems show

    - Layout: as long as no product overflows, in a box that is given at least
      its preferred size the children use exactly the space, respect weights and do not overlap; with less
      space the loss is distributed exactly and the loop terminates; children
      lie inside their parent through the whole tree ([layout_contained]), and
      a dialog of its preferred size cuts no widget ([preferred_uncut]).
    - Shortcuts: the index loops agree with simple recursive definitions, a set
      marker is found again, the caches agree with the label; after the check
      all shortcuts of a dialog are different ([shortcuts_unique]), a widget is
      left without one only if all its characters are taken
      ([shortcuts_not_wasted]), the choice follows the documented priorities.
    - Button boxes: the order of the buttons for each desktop convention, the
      layout when there is enough space and when there is not.
    - Selection: at most one item is selected in a single-selection widget, what
      adding and selecting does to every item, the searches.
    - Widget tree: in every reachable heap the pointers agree, and deleting a
      widget returns without touching freed memory and frees exactly its
      subtree.
    - Dialogs: the stack holds exactly the existing dialogs in every reachable
      state; what each way to delete dialogs leaves; which event
      [waitForEvent()] returns, with the calls that prepare the dialog, and that
      it loses none, while [pollEvent()] does; events of destroyed widgets are
      excluded, since the check for them is not defined
      ([stale_event_undefined]).
    - Tables: labels come back at their index; when cells are freed once, and
      the way to free one twice.
    - Properties: for every widget class, which exception or setter an access
      leads to, that the value has the declared type, and that a value that was
      set comes back; with the classes for which it does not.
    - Threads: application and user interface code never run at the same time
      exactly if the application waits again after an interrupted wait
      ([mutual_exclusion], [interrupted_wait_unsafe]); then every call is made
      once and in order, every request is answered and the shutdown completes.
    - Menus and trees: the shortcuts of a menu are different, indices and paths
      find their items, string trees stay sorted and give back the path that
      was added.
    - Event handler: it refines a slot for the latest event and owns its memory.
    - Radio buttons: in every reachable state a group has at most one checked
      button, which it reports.
    - Input fields: no key and no setter reaches outside of the text; in fields
      of three cells or more, for characters of one column, the cursor is
      visible ([cursor_visible]), number
      fields hold numbers, passwords are hidden, typed text is the value. Date
      and time fields keep their form with the cursor on a digit
      ([masked_keys]), and a time stays valid ([time_valid]). Combo boxes stay
      in their text ([combo_safe]), and choosing an entry selects it
      ([combo_choice]).
    - Values: fields, bars and logs stay within their limits; wrapped lines are
      not too long, lose nothing and are broken as late as possible; sizes are
      rounded; arguments, settings and files are found again.
    - Pads: what is in the window is the part of the pad at its position
      ([pad_view]), and no key leaves the pad.
    - Editor: every key does to the cells what it does to a text with a cursor
      ([textpad_refines]), and the text comes back.
    - Formatted text: drawing ends ([rich_drawn]), words and preformatted lines
      appear in order, as long as the pad is not higher than its limit
      ([pad_limit]); the armed link is visible ([links_armed]) and the keys
      reach every link ([links_reached]).
    - Focus: nodes can be moved and walked through in both directions; from the
      new dialog on, while widgets are made, laid out and deleted, at most one
      widget has the focus and no freed one ([focus_single]), and the key goes
      round all widgets that can have it ([focus_cycles]). Whatever is typed,
      the input loop returns, or waits where it is meant to, and keeps the focus
      in order ([input_orderly]); keys that the dialog does not take reach the widget with the focus ([keys_delivered]) until there is an
      event ([input_result]).
    - Menus of the text mode: the hot key of a label in UTF-8 is the character at
      whose first byte the shortcut manager has found the shortcut
      ([hotkey_agrees]); no keys leave the menus, and
      what is chosen can be seen ([menus_safe]) and is enabled
      ([enabled_chosen]); the walk through the entries can be taken back
      ([cyclic_inverse]).
    - Trees: the lines on the pad are the visible items, keys do to them what
      they do to the tree ([tree_keys]), and each item gets its line
      ([tree_drawn]). Tables are sorted on all levels, by the column whose number
      is the line chosen in the popup, and their lines are the items in that
      order ([table_order]).
    - Packages: no package is marked without its licence having been confirmed
      ([licence_respected]); the OK buttons end, and leave a pool in which all
      licences are settled ([ok_button], [accept_settles]); both selectors
      cycle through the same status values ([cycles_agree]).
    - Disk space: the user is warned only when it is due, and whenever it is due
      but for a repetition after a single check ([disk_warnings],
      [not_warned_again]), and
      both selectors warn alike ([same_warnings]).
    - REST API: a request for an action is answered, changes nothing but the
      widget it names, and nothing at all if it fails ([rest_action]), apart from
      actions on item selectors, which are not defined
      ([selector_undefined]); all other requests change nothing ([rest_read_only]).
    - Log and loader: the lines of every thread that is registered are logged
      with the place they were written for, however the steps of the threads
      are interleaved ([threads_logged], [registration_race]);
      the settings name the plug-in that has made the UI ([ui_loaded]).
    - Wizards: which step is shown as the current one, by its state and by the
      class of its labels ([steps_shown]), also in
      wizards that copy the steps ([copies_agree]); menu entries are answered
      and tree items selected ([menu_answers], [tree_selection]).

    Theorems about defects and limits state what the code does: [primary_cut_margins_lost],
    [relnotes_button_lost], [layout_leaves_box], [two_items_selected],
    [limitLength_ignores_limit], [poll_event], [cell_in_two_items],
    [partition_splitter_value], [multi_selection_box_icon_path],
    [context_menu_unknown], [find_wrong_level], [non_menu_item_undefined],
    [same_translation_merged], [negative_size_rounded_wrong],
    [focus_wraps_nowhere], [int_field_distance_overflow],
    [progress_limit_not_raised], [meter_index_unchecked], [log_limit_wrong],
    [wrap_zero_width], [path_subdir_not_found], [path_prog_dir_wrong],
    [custom_status_minus_one], [cycle_invalid_status], [input_limit_exceeded],
    [narrow_field_cursor], [textpad_limit_exceeded], [last_line_not_broken],
    [one_column_endless], [attributes_left], [pre_end_missed],
    [wide_overwritten], [numeric_entities], [last_item_cut], [half_shown],
    [graphics_stale], [accepted_unlicensed], [refused_version_installed],
    [key_misfit], [protected_lost], [protected_counted], [checked_twice],
    [row_wrong_level], [not_warned_again], [little_missing],
    [rest_fallback_misnamed], [null_file_undefined], [empty_line_flushed],
    [resize_ends_timeout], [timeout_swallowed], [no_such_day],
    [refused_digit_stays], [cursor_jumps], [negative_time],
    [step_lost_in_heading], [classes_lost], [submenu_missing], [notes_return],
    [dates_unsorted], [disabled_chosen], [only_disabled_chosen],
    [disabled_menu_opened], [no_menu_undefined], [empty_menu_undefined],
    [underscore_taken], [limit_ignored], [cut_not_stored], [marker_lost],
    [index_stale], [weights_overflow], [stale_event_undefined],
    [interrupted_wait_unsafe], [wide_cursor], [value_over_limit],
    [selector_undefined], [registration_race], [zero_cuts], [umlaut_hotkey],
    [column_shifted], [child_line].

    ** Fuel

    Loops over containers are structural. [lossLoop] has the missing space as
    fuel, since every pass but the last takes at least one pixel; the shortcut
    resolution is bounded by the number of shortcuts; destructors and searches
    in the widget heap are bounded by the number of live widgets, which bounds
    the height of a tree; loops over the dialog stack and the filter list by
    their lengths; the walk of a radio button up to its group by its address,
    since parents are created before their children; the loops over a text by
    its length; paths in a string tree by the number of its items; the file
    search by the depth of the directories; walks through the nodes of a dialog
    and the lines of a tree by their number; scrolling and arming a link by the
    depth at which nothing changes any more; the loops of the OK buttons by the
    number of packages that are not locked, since each refused licence locks
    one. In each case a theorem shows that this is enough. The event loop is
    bounded by the inputs: without an acceptable one it is still waiting; the
    input loop of the text mode takes a reading in each turn ([getch_reads]).

    ** What is not modelled

    The Qt plug-in apart from its wizards, the Qt graph and most of the menus,
    filters and descriptions of the package selectors are calls of external
    libraries that draw and read input; of the text mode plug-in the same holds
    for its windows, its styles, its other popups and the columns of tables.
    The sockets of the REST API and the conversion to JSON are those of
    libmicrohttpd and jsoncpp. The application object and the icon loader are
    glue to the plug-in and to the system; the dialog spy, the wizard base class
    and display widgets hold attributes only, which are covered by their
    property tables. The check of a date is that of the boost library. Context
    menus and macro recording are left out. *)

From Stdlib Require Export ZArith Lia.
From stdpp Require Export base list numbers strings sets relations tactics.

#[export] Set Warnings "-clear-no-such-hyp,-register-all".
#[global] Open Scope Z_scope.

(** ** Automation *)

Create HintDb yui.

(** Case analysis on every boolean comparison of integers in the goal. *)
Ltac zcase_step :=
  match goal with
  | |- context [?a <? ?b] => destruct (Z.ltb_spec a b)
  | |- context [?a <=? ?b] => destruct (Z.leb_spec a b)
  | |- context [?a >? ?b] => rewrite (Z.gtb_ltb a b)
  | |- context [?a >=? ?b] => rewrite (Z.geb_leb a b)
  | |- context [?a =? ?b] => destruct (Z.eqb_spec a b)
  end.
Ltac zcases := repeat zcase_step.

(** The same in one hypothesis. *)
Ltac zcase_step_in H :=
  match type of H with
  | context [?a <? ?b] => destruct (Z.ltb_spec a b)
  | context [?a <=? ?b] => destruct (Z.leb_spec a b)
  | context [?a >? ?b] => rewrite (Z.gtb_ltb a b) in H
  | context [?a >=? ?b] => rewrite (Z.geb_leb a b) in H
  | context [?a =? ?b] => destruct (Z.eqb_spec a b)
  end.
Ltac zcases_in H := repeat zcase_step_in H.

(** Closed arithmetic side conditions by evaluation. *)
Ltac zeval :=
  lazymatch goal with
  | |- _ /\ _ => split; zeval
  | |- ?a <= ?b => apply Z.leb_le; vm_compute; reflexivity
  | |- ?a < ?b => apply Z.ltb_lt; vm_compute; reflexivity
  | |- ?G =>
      let G' := eval hnf in G in
      lazymatch G' with
      | _ /\ _ => split; zeval
      | _ => vm_compute; reflexivity
      end
  end.

(** Closed conditions on all elements of a concrete list. *)
Ltac all_eval := repeat (constructor; [zeval|]); constructor.

(** ** Lists *)

Lemma Forall_map_intro {A B} (P : A -> Prop) (Q : B -> Prop) (f : A -> B) l :
  (forall x, P x -> Q (f x)) -> Forall P l -> Forall Q (map f l).
Proof. intros HPQ. induction 1; constructor; auto. Qed.

Lemma Forall_at {A} (P : A -> Prop) l x : Forall P l -> x ∈ l -> P x.
Proof. intros HF Hin. rewrite list_elem_of_In in Hin. by eapply List.Forall_forall. Qed.

Lemma Forall2_strengthen {A B} (R S : A -> B -> Prop) (Q : B -> Prop) l k :
  (forall a b, Q b -> R a b -> S a b) -> Forall Q k -> Forall2 R l k -> Forall2 S l k.
Proof. intros HRS HQ HR. induction HR; inversion HQ; subst; constructor; auto. Qed.

Lemma Forall2_map_self {A B} (R : B -> A -> Prop) (f : A -> B) l :
  (forall x, x ∈ l -> R (f x) x) -> Forall2 R (map f l) l.
Proof.
  induction l as [|x l IH]; intros Hl; simpl; constructor; [apply Hl; left|].
  apply IH. intros; apply Hl; by right.
Qed.

Lemma Forall_choose {A B} (P : A -> B -> Prop) l :
  Forall (fun x => exists y, P x y) l -> exists k, Forall2 P l k.
Proof.
  induction 1 as [|x l [y Hy] _ [k Hk]]; [by exists []|]. exists (y :: k). by constructor.
Qed.

Lemma Forall2_map_eq {A B C} (f : A -> C) (g : B -> C) l k :
  Forall2 (fun a b => f a = g b) l k -> map f l = map g k.
Proof. induction 1 as [|a b l k E _ IH]; simpl; [done|]. by rewrite E, IH. Qed.

Lemma Forall2_flat_map_eq {A B C} (f : A -> list C) (g : B -> list C) l k :
  Forall2 (fun a b => f a = g b) l k -> flat_map f l = flat_map g k.
Proof. induction 1 as [|a b l k E _ IH]; simpl; [done|]. by rewrite E, IH. Qed.

Lemma snoc_app {A} (l : list A) x k : l ++ x :: k = (l ++ [x]) ++ k.
Proof. by rewrite <- app_assoc. Qed.

Lemma list_filter_ext_in {A} (P Q : A -> Prop) `{!forall x, Decision (P x)}
    `{!forall x, Decision (Q x)} (l : list A) :
  (forall x, x ∈ l -> P x <-> Q x) -> filter P l = filter Q l.
Proof.
  induction l as [|x l IH]; intros HPQ; [done|]. rewrite !filter_cons, IH by (intros; apply HPQ; by right).
  pose proof (HPQ x ltac:(left)) as Hx. repeat case_decide; tauto.
Qed.

Lemma filter_length_mono {A} (P Q : A -> Prop) `{!forall x, Decision (P x)}
    `{!forall x, Decision (Q x)} (l : list A) :
  (forall x, P x -> Q x) -> (length (filter P l) <= length (filter Q l))%nat.
Proof.
  intros HPQ. induction l as [|x l IH]; [done|]. rewrite !filter_cons.
  destruct (decide (P x)) as [Hp|]; [rewrite (decide_True _ _ (HPQ x Hp)); simpl; lia|].
  destruct (decide (Q x)); simpl; lia.
Qed.

Lemma filter_length_strict {A} (P Q : A -> Prop) `{!forall x, Decision (P x)}
    `{!forall x, Decision (Q x)} (l : list A) (y : A) :
  (forall x, P x -> Q x) -> y ∈ l -> ~ P y -> Q y ->
  (length (filter P l) < length (filter Q l))%nat.
Proof.
  intros HPQ Hy Hp Hq. induction Hy as [y l|y x l Hy IH]; rewrite !filter_cons.
  - rewrite (decide_False _ _ Hp), (decide_True _ _ Hq). simpl.
    pose proof (filter_length_mono P Q l HPQ). lia.
  - specialize (IH Hp Hq).
    destruct (decide (P x)) as [Hx|]; [rewrite (decide_True _ _ (HPQ x Hx)); simpl; lia|].
    destruct (decide (Q x)); simpl; lia.
Qed.

Lemma list_filter_keep {A} (P : A -> Prop) `{!forall x, Decision (P x)} (l : list A) :
  (forall x, x ∈ l -> P x) -> filter P l = l.
Proof.
  induction l as [|x l IH]; intros HP; [done|].
  rewrite filter_cons, decide_True, IH by set_solver. done.
Qed.

Lemma list_filter_drop {A} (P : A -> Prop) `{!forall x, Decision (P x)} (l : list A) :
  (forall x, x ∈ l -> ~ P x) -> filter P l = [].
Proof.
  induction l as [|x l IH]; intros HP; [done|].
  rewrite filter_cons, decide_False, IH by set_solver. done.
Qed.

(** The elements with a flag are as many as their indices. *)
Lemma count_indices {A} (f : A -> bool) (l : list A) :
  length (filter (fun x => f x = true) l) =
  length (filter (fun i => f <$> l !! i = Some true) (seq 0 (length l))).
Proof.
  induction l as [|x l IH] using rev_ind; [done|].
  rewrite list.filter_app, !length_app, Nat.add_1_r, seq_S, list.filter_app, length_app, IH.
  f_equal.
  - f_equal. apply list_filter_ext_in. intros i Hi%elem_of_seq. by rewrite lookup_app_l by lia.
  - simpl. rewrite !filter_cons, lookup_app_r, Nat.sub_diag by lia. simpl. destruct (f x); done.
Qed.

(** A search loop with an early return. *)
Section first_some.
Context {A B : Type} (f : A -> option B).
Fixpoint firstSome (l : list A) : option B :=
  match l with
  | [] => None
  | x :: l' => match f x with Some y => Some y | None => firstSome l' end
  end.
End first_some.

(** If each search returns the first element of a list, so does the loop. *)
Lemma firstSome_head {A B} (f : A -> option B) (g : A -> list B) l :
  Forall (fun x => f x = head (g x)) l -> firstSome f l = head (flat_map g l).
Proof.
  induction 1 as [|x l E _ IH]; simpl; [done|]. rewrite E. by destruct (g x).
Qed.

(** ** Integer sums *)

(** The accumulation loops [int total = 0; for ( ... ) total += x;]. *)
Fixpoint sumZ (l : list Z) : Z :=
  match l with
  | [] => 0
  | x :: l' => x + sumZ l'
  end.

Lemma sumZ_app l1 l2 : sumZ (l1 ++ l2) = sumZ l1 + sumZ l2.
Proof. induction l1; simpl; lia. Qed.

Lemma sumZ_nonneg l : Forall (fun x => 0 <= x) l -> 0 <= sumZ l.
Proof. induction 1; simpl; lia. Qed.

Lemma sumZ_rev l : sumZ (rev l) = sumZ l.
Proof. induction l; simpl; [done|]. rewrite sumZ_app. simpl. lia. Qed.

Lemma sumZ_permutation l1 l2 : l1 ≡ₚ l2 -> sumZ l1 = sumZ l2.
Proof. induction 1; simpl; lia. Qed.

Lemma sumZ_const {A} (c : Z) (l : list A) : sumZ (map (fun _ => c) l) = c * Z.of_nat (length l).
Proof. induction l; cbn [map sumZ length]; lia. Qed.

Lemma sumZ_all_zero l : Forall (fun x => x = 0) l -> sumZ l = 0.
Proof. induction 1; simpl; lia. Qed.

Lemma sumZ_fmap_add {A} (f g : A -> Z) l :
  sumZ (map (fun x => f x + g x) l) = sumZ (map f l) + sumZ (map g l).
Proof. induction l; simpl; lia. Qed.

Lemma sumZ_fmap_le {A} (f g : A -> Z) l :
  (forall x, x ∈ l -> f x <= g x) -> sumZ (map f l) <= sumZ (map g l).
Proof.
  induction l as [|a l IH]; simpl; intros H; [lia|].
  assert (f a <= g a) by (apply H; left).
  assert (sumZ (map f l) <= sumZ (map g l)); [|lia].
  apply IH. intros; apply H; by right.
Qed.

Lemma sumZ_fmap_lt {A} (f g : A -> Z) l y :
  (forall x, x ∈ l -> f x <= g x) -> y ∈ l -> f y < g y -> sumZ (map f l) < sumZ (map g l).
Proof.
  intros Hle Hin Hlt. apply list_elem_of_split in Hin as (l1 & l2 & ->).
  rewrite !map_app, !sumZ_app. simpl.
  assert (sumZ (map f l1) <= sumZ (map g l1)) by (apply sumZ_fmap_le; set_solver).
  assert (sumZ (map f l2) <= sumZ (map g l2)) by (apply sumZ_fmap_le; set_solver). lia.
Qed.

Lemma sumZ_fmap_ext {A} (f g : A -> Z) l :
  (forall x, x ∈ l -> f x = g x) -> sumZ (map f l) = sumZ (map g l).
Proof.
  intros H. apply Z.le_antisymm; apply sumZ_fmap_le; intros x Hx; rewrite (H x Hx); lia.
Qed.

Lemma sumZ_fmap_mul {A} (c : Z) (f : A -> Z) l :
  sumZ (map (fun x => c * f x) l) = c * sumZ (map f l).
Proof. induction l; simpl; lia. Qed.

Lemma sumZ_elem_le x l :
  Forall (fun y => 0 <= y) l -> x ∈ l -> x <= sumZ l.
Proof.
  induction 1 as [|y l Hy Hl IH]; intros Hin; [by apply elem_of_nil in Hin|].
  pose proof (sumZ_nonneg _ Hl). apply elem_of_cons in Hin as [->|Hin]; simpl; [lia|].
  specialize (IH Hin). lia.
Qed.

(** A maximum loop is at least its start value and every element. *)
Lemma fold_max_ge {A} (f : A -> Z) (g : Z -> A -> Z) l m :
  (forall m x, m <= g m x /\ f x <= g m x) ->
  m <= fold_left g l m /\ forall x, x ∈ l -> f x <= fold_left g l m.
Proof.
  intros Hg. revert m; induction l as [|x l IH]; intros m; simpl; [split; [lia|set_solver]|].
  destruct (IH (g m x)) as [H1 H2], (Hg m x). split; [lia|].
  intros y [->|Hin]%elem_of_cons; [lia|auto].
Qed.

#[export] Hint Resolve sumZ_nonneg : yui.

(** ** Running positions *)

(** [pos] before each element of a loop that does
    [childPos[i] = pos; pos += childSize[i];]. *)
Fixpoint positions (pos : Z) (sizes : list Z) : list Z :=
  match sizes with
  | [] => []
  | s :: rest => pos :: positions (pos + s) rest
  end.

Lemma length_positions pos sizes : length (positions pos sizes) = length sizes.
Proof. revert pos; induction sizes; intros; simpl; auto. Qed.

Lemma positions_lookup pos sizes i :
  (i < length sizes)%nat ->
  positions pos sizes !! i = Some (pos + sumZ (take i sizes)).
Proof.
  revert pos i; induction sizes as [|s sizes IH]; intros pos [|i] Hi; simpl in *; try lia.
  - f_equal; lia.
  - rewrite IH by lia. f_equal; lia.
Qed.

(** Two intervals at different places of such a list never overlap. *)
Lemma positions_disjoint pos sizes i j pi pj si :
  Forall (fun s => 0 <= s) sizes ->
  (i < j)%nat ->
  positions pos sizes !! i = Some pi -> positions pos sizes !! j = Some pj ->
  sizes !! i = Some si ->
  pi + si <= pj.
Proof.
  revert pos i j; induction sizes as [|s sizes IH]; intros pos i j Hnn Hij Hi Hj Hs;
    [done|].
  apply Forall_cons_iff in Hnn as [Hs0 Hnn].
  destruct j as [|j]; [lia|]. destruct i as [|i]; simpl in *; simplify_eq.
  - assert (j < length sizes)%nat.
    { rewrite <- (length_positions (pi + si)). by eapply lookup_lt_Some. }
    rewrite positions_lookup in Hj by done. simplify_eq.
    assert (0 <= sumZ (take j sizes)) by (apply sumZ_nonneg, Forall_take; done). lia.
  - eapply (IH (pos + s) i j); eauto with lia.
Qed.

Lemma sumZ_take_le i sizes :
  Forall (fun s => 0 <= s) sizes -> sumZ (take i sizes) <= sumZ sizes.
Proof.
  intros H. rewrite <- (take_drop i sizes) at 2. rewrite sumZ_app.
  assert (0 <= sumZ (drop i sizes)) by (apply sumZ_nonneg, Forall_drop; done). lia.
Qed.

(** Each interval of such a list lies between the start and the total. *)
Lemma positions_inside pos sizes i p s :
  Forall (fun s => 0 <= s) sizes ->
  positions pos sizes !! i = Some p -> sizes !! i = Some s ->
  pos <= p /\ p + s <= pos + sumZ sizes.
Proof.
  intros Hnn Hp Hs. pose proof (lookup_lt_Some _ _ _ Hs) as Hlt.
  rewrite positions_lookup in Hp by done. simplify_eq.
  assert (0 <= sumZ (take i sizes)) by (apply sumZ_nonneg, Forall_take; done).
  pose proof (sumZ_take_le (S i) sizes Hnn) as Hle.
  rewrite (take_S_r _ _ _ Hs), sumZ_app in Hle. simpl in Hle. lia.
Qed.

(** ** Exceptions

    The library reports misuse by throwing. [YUIException] lists the exception
    classes of YUIException.h that the modelled code throws, each with the
    message the code passes to it; a function that may throw returns a
    [result]. *)
Inductive YUIException : Type :=
| YUIGenericException (msg : string)
| YUINullPointerException
| YUIInvalidWidgetException
| YUIWidgetNotFoundException (msg : string)
| YUINoDialogException
| YUIDialogStackingOrderException
| YUIUnknownPropertyException (name : string)
| YUIPropertyTypeMismatchException (name : string)
| YUISetReadOnlyPropertyException (name : string)
| YUITooManyChildrenException
| YUIInvalidChildException
| YUIInvalidDimensionException
| YUIIndexOutOfRangeException (index validMin validMax : Z)
| YUIButtonRoleMismatchException (msg : string)
| YUICantLoadAnyUIException
| YUIPluginException (name : string).

Inductive result (A : Type) : Type :=
| Ok (a : A)
| Throw (e : YUIException).
Arguments Ok {A} a.
Arguments Throw {A} e.

Definition rbind {A B : Type} (m : result A) (k : A -> result B) : result B :=
  match m with
  | Ok a => k a
  | Throw e => Throw e
  end.

Declare Scope yui_scope.
Delimit Scope yui_scope with yui.
Notation "'let?' x ':=' m 'in' k" := (rbind m (fun x => k))
  (at level 10, x pattern, m at level 100, k at level 200) : yui_scope.
#[global] Open Scope yui_scope.

Lemma rbind_ok {A B} (m : result A) (k : A -> result B) b :
  rbind m k = Ok b <-> exists a, m = Ok a /\ k a = Ok b.
Proof. destruct m as [a|e]; simpl; split; [|intros (? & ? & ?)| |intros (? & ? & ?)]; naive_solver. Qed.

(** A loop [for ( x : l ) body] over a container, threading the state and
    stopping at the first exception. *)
Fixpoint rfold {A S : Type} (body : S -> A -> result S) (l : list A) (s : S) : result S :=
  match l with
  | [] => Ok s
  | x :: l' => let? s' := body s x in rfold body l' s'
  end.

Lemma rfold_app {A S} (body : S -> A -> result S) l1 l2 s :
  rfold body (l1 ++ l2) s = (let? s' := rfold body l1 s in rfold body l2 s').
Proof.
  revert s; induction l1 as [|x l1 IH]; intros s; simpl; [done|].
  destruct (body s x); simpl; auto.
Qed.

(** An invariant of the loop body is an invariant of the loop. *)
Lemma rfold_invariant {A S} (P : S -> Prop) (body : S -> A -> result S) l s s' :
  (forall s x s', x ∈ l -> P s -> body s x = Ok s' -> P s') ->
  P s -> rfold body l s = Ok s' -> P s'.
Proof.
  revert s; induction l as [|x l IH]; intros s Hb Hs H; simpl in H; [by simplify_eq|].
  destruct (body s x) as [s1|e] eqn:E; simpl in H; [|done].
  eapply (IH s1); eauto.
  - intros; eapply Hb; eauto; by right.
  - eapply Hb; eauto; by left.
Qed.

(** ** Outcomes

    The result of code that follows pointers or reads raw memory: a value, an
    exception, undefined behaviour (following a pointer to freed memory, an
    element that is not there, a member that was never initialised), or not
    enough fuel for the recursion. *)
Inductive outcome (A : Type) : Type :=
| Done (a : A)
| Throws (e : YUIException)
| Undefined
| NoFuel.
Arguments Done {A} a.
Arguments Throws {A} e.
Arguments Undefined {A}.
Arguments NoFuel {A}.

Definition obind {A B : Type} (m : outcome A) (k : A -> outcome B) : outcome B :=
  match m with
  | Done a => k a
  | Throws e => Throws e
  | Undefined => Undefined
  | NoFuel => NoFuel
  end.
Notation "'let!' x ':=' m 'in' k" := (obind m (fun x => k))
  (at level 10, x pattern, m at level 100, k at level 200) : yui_scope.

Definition lift {A : Type} (r : result A) : outcome A :=
  match r with
  | Ok a => Done a
  | Throw e => Throws e
  end.

(** A loop over a list that threads the state. *)
Section ofold.
Context {A S : Type} (body : S -> A -> outcome S).
Fixpoint ofold (l : list A) (s : S) : outcome S :=
  match l with
  | [] => Done s
  | x :: l' => let! s' := body s x in ofold l' s'
  end.
End ofold.
