(* ===== verification/CNum.v ===== *)
(** * The C++ numbers the library computes with

    [int] values are integers; [fits_int] states that a value is in the range
    of a 32-bit [int] (signed overflow is undefined, so the theorems about
    bounds show that it does not happen). Division truncates towards zero
    ([Z.quot]). [double_quot] is the IEEE 754 double that
    [( (double) p ) / w] yields for [int] operands: both conversions are
    exact, and the quotient is rounded to a 53-bit significand, ties to
    even. *)

From S2P Require Import Prelude.

Definition INT_MIN : Z := - 2 ^ 31.
Definition INT_MAX : Z := 2 ^ 31 - 1.

Definition fits_int (z : Z) : Prop := INT_MIN <= z <= INT_MAX.

#[global] Instance fits_int_dec z : Decision (fits_int z).
Proof. unfold fits_int. apply _. Defined.

(** The conversion of a wider integer to [int]: modulo [2 ^ 32], as the
    compilers define it. *)
Definition to_int (z : Z) : Z := (z + 2 ^ 31) mod 2 ^ 32 - 2 ^ 31.

Lemma to_int_fits z : fits_int (to_int z).
Proof.
  unfold fits_int, to_int, INT_MIN, INT_MAX. pose proof (Z.mod_pos_bound (z + 2 ^ 31) (2 ^ 32)). lia.
Qed.

Lemma to_int_id z : fits_int z -> to_int z = z.
Proof. unfold fits_int, to_int, INT_MIN, INT_MAX. intros. rewrite Z.mod_small; lia. Qed.

(** The product of two [int] values, as the compiled code computes it: modulo
    [2 ^ 32]. (The standard leaves an overflow undefined; the theorems about
    the layout state the bounds under which there is none.) *)
Definition int_mul (a b : Z) : Z := to_int (a * b).

Lemma int_mul_fits a b : fits_int (a * b) -> int_mul a b = a * b.
Proof. apply to_int_id. Qed.

(** Arithmetic of [unsigned] wraps around. *)
Definition u32 (z : Z) : Z := z mod 2 ^ 32.

Lemma u32_id z : 0 <= z < 2 ^ 32 -> u32 z = z.
Proof. apply Z.mod_small. Qed.

(** ** Truncating division *)

Lemma quot_floor a b : 0 <= a -> 0 < b -> Z.quot a b = a / b.
Proof. intros. apply Z.quot_div_nonneg; lia. Qed.

Lemma quot_nonneg a b : 0 <= a -> 0 < b -> 0 <= Z.quot a b.
Proof. intros. rewrite quot_floor by lia. apply Z.div_pos; lia. Qed.

Lemma quot_mul_le a b : 0 <= a -> 0 < b -> b * Z.quot a b <= a.
Proof. intros. rewrite quot_floor by lia. apply Z.mul_div_le; lia. Qed.

Lemma quot_mul_gt a b : 0 <= a -> 0 < b -> a < b * Z.quot a b + b.
Proof.
  intros. rewrite quot_floor by lia.
  pose proof (Z.mul_succ_div_gt a b). lia.
Qed.

Lemma quot_le_self a b : 0 <= a -> 0 < b -> Z.quot a b <= a.
Proof. intros. pose proof (quot_mul_le a b). pose proof (quot_nonneg a b). nia. Qed.

#[export] Hint Resolve quot_nonneg quot_mul_le quot_mul_gt quot_le_self : yui.

(** ** Doubles that are quotients of two ints *)

(** The double with significand [dmant] and value [dmant * 2 ^ (- dshift)]. *)
Record double := Double { dmant : Z; dshift : Z }.

Definition double_zero : double := Double 0 0.

(** The scale for which the quotient [p / w] has a 53-bit integer part. *)
Definition double_scale (p w : Z) : Z :=
  let k := 52 + Z.log2 w - Z.log2 p in
  if p * 2 ^ k / w <? 2 ^ 52 then k + 1 else k.

(** Round [n / w] to the nearest integer, ties to even. *)
Definition round_even (n w : Z) : Z :=
  let q := n / w in
  let r := n mod w in
  if 2 * r <? w then q
  else if w <? 2 * r then q + 1
  else if Z.even q then q else q + 1.

Definition double_quot_pos (p w : Z) : double :=
  let k := double_scale p w in
  Double (round_even (p * 2 ^ k) w) k.

(** [( (double) p ) / w] for [w <> 0]. *)
Definition double_quot (p w : Z) : double :=
  let p' := if w <? 0 then - p else p in
  let w' := Z.abs w in
  if p' =? 0 then double_zero
  else if p' <? 0
       then let d := double_quot_pos (- p') w' in Double (- dmant d) (dshift d)
       else double_quot_pos p' w'.

(** [a > b] on doubles. *)
Definition double_gt (a b : double) : bool :=
  dmant b * 2 ^ dshift a <? dmant a * 2 ^ dshift b.

(** [(int) a]: conversion truncates towards zero. *)
Definition double_to_int (a : double) : Z := Z.quot (dmant a) (2 ^ dshift a).

Example double_quot_third :
  double_quot 1 3 = Double 6004799503160661 54.
Proof. reflexivity. Qed.

Example double_quot_exact : double_quot (-6) 4 = Double (- 6755399441055744) 52.
Proof. reflexivity. Qed.

(** *** Correctness of the comparison of ratios *)

Lemma double_scale_spec p w :
  0 < p < 2 ^ 31 -> 0 < w < 2 ^ 31 ->
  let k := double_scale p w in
  0 <= k /\ 2 ^ 52 * w <= p * 2 ^ k < 2 ^ 53 * w.
Proof.
  intros Hp Hw. unfold double_scale. cbv zeta.
  pose proof (Z.log2_spec p ltac:(lia)) as [Hp1 Hp2].
  pose proof (Z.log2_spec w ltac:(lia)) as [Hw1 Hw2].
  pose proof (Z.log2_nonneg p). pose proof (Z.log2_nonneg w).
  assert (Z.log2 p < 31) by (apply Z.log2_lt_pow2; lia).
  set (lp := Z.log2 p) in *. set (lw := Z.log2 w) in *.
  set (k := 52 + lw - lp). assert (0 <= k) by (unfold k; lia).
  assert (Elo : 2 ^ lp * 2 ^ k = 2 ^ 51 * 2 ^ Z.succ lw).
  { rewrite <- !Z.pow_add_r by lia. f_equal. unfold k. lia. }
  assert (Ehi : 2 ^ Z.succ lp * 2 ^ k = 2 ^ 53 * 2 ^ lw).
  { rewrite <- !Z.pow_add_r by lia. f_equal. unfold k. lia. }
  assert (0 < 2 ^ k) by (apply Z.pow_pos_nonneg; lia).
  assert (p * 2 ^ k < 2 ^ 53 * w) by nia.
  assert (2 ^ 51 * w < p * 2 ^ k) by nia.
  destruct (Z.ltb_spec (p * 2 ^ k / w) (2 ^ 52)) as [Hlt|Hge].
  - rewrite Z.pow_add_r by lia. change (2 ^ 1) with 2.
    assert (p * 2 ^ k < 2 ^ 52 * w); [|lia].
    destruct (Z.lt_ge_cases (p * 2 ^ k) (2 ^ 52 * w)) as [?|Hc]; [done|].
    assert (2 ^ 52 <= p * 2 ^ k / w) by (apply Z.div_le_lower_bound; lia). lia.
  - split; [done|]. split; [|done].
    pose proof (Z.mul_div_le (p * 2 ^ k) w ltac:(lia)). nia.
Qed.

(** The scale depends on the ratio only. *)
Lemma double_scale_unique p1 w1 k1 p2 w2 k2 :
  0 < p1 -> 0 < w1 -> 0 < p2 -> 0 < w2 -> 0 <= k1 -> 0 <= k2 ->
  p1 * w2 = p2 * w1 ->
  2 ^ 52 * w1 <= p1 * 2 ^ k1 -> p2 * 2 ^ k2 < 2 ^ 53 * w2 -> k2 <= k1.
Proof.
  intros Hp1 Hw1 Hp2 Hw2 Hk1 Hk2 E Hlo Hhi.
  destruct (Z.le_gt_cases k2 k1) as [?|Hlt]; [done|exfalso].
  assert (H : 2 * 2 ^ k1 <= 2 ^ k2).
  { rewrite <- Z.pow_succ_r by lia. apply Z.pow_le_mono_r; lia. }
  assert (2 ^ 53 * w1 * w2 <= p1 * w2 * 2 ^ k2) by nia.
  nia.
Qed.

Lemma round_even_near n w : 0 < w -> 2 * Z.abs (round_even n w * w - n) <= w.
Proof.
  intros Hw. unfold round_even.
  pose proof (Z.div_mod n w ltac:(lia)) as E. pose proof (Z.mod_pos_bound n w Hw) as Hr.
  set (q := n / w) in *. set (r := n mod w) in *.
  zcases; [nia|nia|]. destruct (Z.even q); nia.
Qed.

Lemma round_even_ratio n1 w1 n2 w2 :
  0 < w1 -> 0 < w2 -> n1 * w2 = n2 * w1 -> round_even n1 w1 = round_even n2 w2.
Proof.
  intros H1 H2 E. unfold round_even.
  assert (Eq : n1 / w1 = n2 / w2).
  { rewrite <- (Z.div_mul_cancel_r n1 w1 w2) by lia.
    rewrite <- (Z.div_mul_cancel_r n2 w2 w1) by lia.
    rewrite E. f_equal. lia. }
  pose proof (Z.div_mod n1 w1 ltac:(lia)) as E1. pose proof (Z.div_mod n2 w2 ltac:(lia)) as E2.
  rewrite Eq in *. set (q := n2 / w2) in *.
  set (r1 := n1 mod w1) in *. set (r2 := n2 mod w2) in *.
  assert (Er : r1 * w2 = r2 * w1) by nia.
  zcases; try done; nia.
Qed.

Definition ratio_small (p1 w1 p2 w2 : Z) : Prop := p1 * w2 < 2 ^ 52 /\ p2 * w1 < 2 ^ 52.

Lemma double_gt_of_gt p1 w1 p2 w2 :
  0 < p1 < 2 ^ 31 -> 0 < w1 < 2 ^ 31 -> 0 < p2 < 2 ^ 31 -> 0 < w2 < 2 ^ 31 ->
  ratio_small p1 w1 p2 w2 -> p2 * w1 < p1 * w2 ->
  double_gt (double_quot_pos p1 w1) (double_quot_pos p2 w2) = true.
Proof.
  intros Hp1 Hw1 Hp2 Hw2 [Hs1 Hs2] Hgt.
  unfold double_gt, double_quot_pos. simpl dmant. simpl dshift. apply Z.ltb_lt.
  destruct (double_scale_spec p1 w1) as (Hk1 & Hlo1 & _); [done..|].
  destruct (double_scale_spec p2 w2) as (Hk2 & Hlo2 & _); [done..|].
  set (k1 := double_scale p1 w1) in *. set (k2 := double_scale p2 w2) in *.
  pose proof (round_even_near (p1 * 2 ^ k1) w1 ltac:(lia)) as Hn1.
  pose proof (round_even_near (p2 * 2 ^ k2) w2 ltac:(lia)) as Hn2.
  set (m1 := round_even _ w1) in *. set (m2 := round_even _ w2) in *.
  assert (0 < 2 ^ k1) by (apply Z.pow_pos_nonneg; lia).
  assert (0 < 2 ^ k2) by (apply Z.pow_pos_nonneg; lia).
  set (a := 2 ^ k1) in *. set (b := 2 ^ k2) in *.
  assert (G1 : 2 * (p1 * a) - w1 <= 2 * (m1 * w1)) by lia.
  assert (G2 : 2 * (m2 * w2) <= 2 * (p2 * b) + w2) by lia.
  (* the two rounding errors together are smaller than the gap *)
  assert (S1 : w1 * w2 < a).
  { assert (2 ^ 52 * (w1 * w2) <= (p1 * w2) * a) by nia.
    assert ((p1 * w2) * a < 2 ^ 52 * a) by nia. lia. }
  assert (S2 : w1 * w2 < b).
  { assert (2 ^ 52 * (w1 * w2) <= (p2 * w1) * b) by nia.
    assert ((p2 * w1) * b < 2 ^ 52 * b) by nia. lia. }
  assert (L1 : (2 * (p1 * a) - w1) * (w2 * b) <= 2 * (m1 * w1) * (w2 * b)) by nia.
  assert (L2 : 2 * (m2 * w2) * (w1 * a) <= (2 * (p2 * b) + w2) * (w1 * a)) by nia.
  assert (Hab : 0 < a * b) by nia.
  assert (L3 : (p2 * w1 + 1) * (a * b) <= p1 * w2 * (a * b)) by nia.
  assert (L4 : w1 * w2 * (a + b) < 2 * (a * b)) by nia.
  assert (Hww : 0 < w1 * w2) by nia.
  assert (2 * (w1 * w2) * (m2 * a) < 2 * (w1 * w2) * (m1 * b)) by nia.
  nia.
Qed.

Lemma double_quot_pos_ratio p1 w1 p2 w2 :
  0 < p1 < 2 ^ 31 -> 0 < w1 < 2 ^ 31 -> 0 < p2 < 2 ^ 31 -> 0 < w2 < 2 ^ 31 ->
  p1 * w2 = p2 * w1 -> double_quot_pos p1 w1 = double_quot_pos p2 w2.
Proof.
  intros Hp1 Hw1 Hp2 Hw2 E. unfold double_quot_pos.
  destruct (double_scale_spec p1 w1) as (Hk1 & Hlo1 & Hhi1); [done..|].
  destruct (double_scale_spec p2 w2) as (Hk2 & Hlo2 & Hhi2); [done..|].
  assert (Ek : double_scale p1 w1 = double_scale p2 w2).
  { apply Z.le_antisymm; [apply (double_scale_unique p2 w2 _ p1 w1)|
                          apply (double_scale_unique p1 w1 _ p2 w2)]; lia. }
  rewrite Ek. f_equal. apply round_even_ratio; [lia..|]. nia.
Qed.

(** Comparing two ratios of non-negative ints as doubles is comparing them by
    cross-multiplication, as long as the cross products stay below 2^52. *)
Lemma double_gt_cross p1 w1 p2 w2 :
  0 <= p1 < 2 ^ 31 -> 0 < w1 < 2 ^ 31 -> 0 <= p2 < 2 ^ 31 -> 0 < w2 < 2 ^ 31 ->
  ratio_small p1 w1 p2 w2 ->
  double_gt (double_quot p1 w1) (double_quot p2 w2) = (p2 * w1 <? p1 * w2).
Proof.
  intros Hp1 Hw1 Hp2 Hw2 Hs. unfold double_quot.
  rewrite (proj2 (Z.ltb_ge w1 0)), (proj2 (Z.ltb_ge w2 0)) by lia.
  rewrite !Z.abs_eq by lia.
  assert (Hpos : forall p w, 0 < p < 2 ^ 31 -> 0 < w < 2 ^ 31 -> 0 < dmant (double_quot_pos p w)).
  { intros p w Hp Hw. unfold double_quot_pos; simpl.
    destruct (double_scale_spec p w) as (Hk & Hlo & _); [done..|].
    pose proof (round_even_near (p * 2 ^ double_scale p w) w ltac:(lia)). nia. }
  destruct (Z.eqb_spec p1 0) as [->|N1]; destruct (Z.eqb_spec p2 0) as [->|N2].
  - reflexivity.
  - rewrite (proj2 (Z.ltb_ge p2 0)) by lia.
    specialize (Hpos p2 w2 ltac:(lia) Hw2). unfold double_gt.
    change (dmant double_zero) with 0. change (2 ^ dshift double_zero) with 1.
    rewrite (proj2 (Z.ltb_ge (p2 * w1) _)) by nia. apply Z.ltb_ge. nia.
  - rewrite (proj2 (Z.ltb_ge p1 0)) by lia.
    specialize (Hpos p1 w1 ltac:(lia) Hw1). unfold double_gt.
    change (dmant double_zero) with 0. change (2 ^ dshift double_zero) with 1.
    rewrite (proj2 (Z.ltb_lt _ (p1 * w2))) by nia. apply Z.ltb_lt. nia.
  - rewrite (proj2 (Z.ltb_ge p1 0)), (proj2 (Z.ltb_ge p2 0)) by lia.
    destruct (Z.ltb_spec (p2 * w1) (p1 * w2)) as [Hgt|Hle].
    + apply double_gt_of_gt; auto; lia.
    + destruct (Z.eq_dec (p1 * w2) (p2 * w1)) as [E|NE].
      * rewrite (double_quot_pos_ratio p1 w1 p2 w2) by lia.
        unfold double_gt. apply Z.ltb_irrefl.
      * assert (H : double_gt (double_quot_pos p2 w2) (double_quot_pos p1 w1) = true).
        { apply double_gt_of_gt; [lia..| |lia]. destruct Hs; split; lia. }
        unfold double_gt in *. apply Z.ltb_lt in H. apply Z.ltb_ge. lia.
Qed.

(** A proper fraction of non-negative ints is below one as a double too, so
    its conversion to [int] is zero. *)
Lemma double_to_int_fraction p w :
  0 <= p < w -> w < 2 ^ 31 -> double_to_int (double_quot p w) = 0.
Proof.
  intros Hp Hw. unfold double_quot.
  rewrite (proj2 (Z.ltb_ge w 0)), Z.abs_eq by lia.
  destruct (Z.eqb_spec p 0) as [->|N]; [reflexivity|].
  rewrite (proj2 (Z.ltb_ge p 0)) by lia.
  unfold double_to_int, double_quot_pos; simpl.
  destruct (double_scale_spec p w) as (Hk & Hlo & Hhi); [lia..|].
  set (k := double_scale p w) in *.
  pose proof (round_even_near (p * 2 ^ k) w ltac:(lia)) as Hn.
  set (m := round_even _ w) in *.
  assert (0 < 2 ^ k) by (apply Z.pow_pos_nonneg; lia).
  set (a := 2 ^ k) in *.
  assert (w < a).
  { assert (2 ^ 52 * w <= (w - 1) * a) by nia. assert ((w - 1) * a < 2 ^ 31 * a) by nia. lia. }
  apply Z.quot_small. split; [nia|]. nia.
Qed.
