(* ===== verification/Geometry.v ===== *)
(** * Dimensions, alignments and the widget interface of the layout engine

    The types of YTypes.h and YBothDim.h, and the part of the YWidget
    interface that layout containers use of their children: the containers
    never look at a child's class except through [dynamic_cast] to YSpacing
    and YAlignment. *)

From S2P Require Import Prelude.

Inductive YUIDimension : Type := YD_HORIZ | YD_VERT.

Inductive YAlignmentType : Type :=
| YAlignUnchanged
| YAlignBegin
| YAlignEnd
| YAlignCenter.

#[global] Instance YUIDimension_eq_dec : EqDecision YUIDimension.
Proof. solve_decision. Defined.
#[global] Instance YAlignmentType_eq_dec : EqDecision YAlignmentType.
Proof. solve_decision. Defined.

(** [dim == YD_HORIZ ? YD_VERT : YD_HORIZ]. *)
Definition otherDim (d : YUIDimension) : YUIDimension :=
  match d with YD_HORIZ => YD_VERT | YD_VERT => YD_HORIZ end.

Record YBothDim (A : Type) : Type := BothDim { vert : A; hor : A }.
Arguments BothDim {A} vert hor.
Arguments vert {A} _.
Arguments hor {A} _.

(** [operator[]]; both dimensions are valid, so it never throws. *)
Definition bothDim {A} (b : YBothDim A) (d : YUIDimension) : A :=
  match d with YD_HORIZ => hor b | YD_VERT => vert b end.

Definition setBothDim {A} (b : YBothDim A) (d : YUIDimension) (x : A) : YBothDim A :=
  match d with
  | YD_HORIZ => BothDim (vert b) x
  | YD_VERT => BothDim x (hor b)
  end.

Lemma bothDim_set_same {A} (b : YBothDim A) d x : bothDim (setBothDim b d x) d = x.
Proof. by destruct d. Qed.

Lemma bothDim_set_other {A} (b : YBothDim A) d x :
  bothDim (setBothDim b d x) (otherDim d) = bothDim b (otherDim d).
Proof. by destruct d. Qed.

(** Where [setSize( w, h )] followed by [moveChild( child, x, y )] puts a
    child, relative to its parent. *)
Record Rect : Type := mkRect { rx : Z; ry : Z; rw : Z; rh : Z }.

Definition rect_inside (w h : Z) (r : Rect) : Prop :=
  0 <= rx r /\ rx r + rw r <= w /\ 0 <= ry r /\ ry r + rh r <= h.

Definition rect_nonneg (r : Rect) : Prop := 0 <= rw r /\ 0 <= rh r.

Definition rects_disjoint (r1 r2 : Rect) : Prop :=
  rx r1 + rw r1 <= rx r2 \/ rx r2 + rw r2 <= rx r1 \/
  ry r1 + rh r1 <= ry r2 \/ ry r2 + rh r2 <= ry r1.

Lemma rects_disjoint_sym r1 r2 : rects_disjoint r1 r2 -> rects_disjoint r2 r1.
Proof. unfold rects_disjoint. lia. Qed.

(** What a layout container asks of a child. *)
Class YWidgetOps (W : Type) : Type := {
  preferredSize : W -> YUIDimension -> Z;
  stretchable : W -> YUIDimension -> bool;
  weight : W -> YUIDimension -> Z;
  (** [dynamic_cast<YSpacing *> (w) != 0] *)
  isSpacing : W -> bool;
  (** [dynamic_cast<YAlignment *> (w)] and its [totalMargins()] *)
  alignmentMargins : W -> option (YUIDimension -> Z)
}.

Definition hasWeight {W} `{YWidgetOps W} (w : W) (d : YUIDimension) : bool :=
  weight w d >? 0.

(** What a well-formed child promises to its container: no negative sizes or
    weights, and the margins of an alignment are part of its size. *)
Class LayoutLaws (W : Type) `{YWidgetOps W} (P : W -> Prop) : Prop := {
  pref_nonneg w d : P w -> 0 <= preferredSize w d;
  weight_nonneg w d : P w -> 0 <= weight w d;
  margins_nonneg w d m : P w -> alignmentMargins w = Some m -> 0 <= m d;
  margins_pref w d m : P w -> alignmentMargins w = Some m -> m d <= preferredSize w d
}.

#[export] Hint Resolve pref_nonneg weight_nonneg margins_nonneg margins_pref : yui.

(** A snapshot of the answers one child gives; the simplest implementation of
    the interface. *)
Record ChildAttrs : Type := {
  caPref : YBothDim Z;
  caStretch : YBothDim bool;
  caWeight : YBothDim Z;
  caSpacing : bool;
  caMargins : option (YBothDim Z)
}.

#[global] Instance ChildAttrs_ops : YWidgetOps ChildAttrs := {
  preferredSize c d := bothDim (caPref c) d;
  stretchable c d := bothDim (caStretch c) d;
  weight c d := bothDim (caWeight c) d;
  isSpacing := caSpacing;
  alignmentMargins c := bothDim <$> caMargins c
}.

Definition childAttrs_okb (c : ChildAttrs) : bool :=
  let ok d :=
    (0 <=? bothDim (caPref c) d) && (0 <=? bothDim (caWeight c) d) &&
    match caMargins c with
    | Some m => (0 <=? bothDim m d) && (bothDim m d <=? bothDim (caPref c) d)
    | None => true
    end in
  ok YD_HORIZ && ok YD_VERT.

#[global] Instance ChildAttrs_laws : LayoutLaws ChildAttrs (fun c => childAttrs_okb c = true).
Proof.
  assert (Hok : forall c d, childAttrs_okb c = true ->
    0 <= bothDim (caPref c) d /\ 0 <= bothDim (caWeight c) d /\
    forall m, caMargins c = Some m -> 0 <= bothDim m d <= bothDim (caPref c) d).
  { intros c d. unfold childAttrs_okb.
    destruct d; rewrite !andb_true_iff, !Z.leb_le; intros [[[? ?] Hm1] [[? ?] Hm2]];
      (split; [done|]; split; [done|]); intros m E; rewrite E in Hm1, Hm2;
      rewrite andb_true_iff, !Z.leb_le in Hm1, Hm2; lia. }
  split; simpl; intros w d.
  - apply Hok.
  - apply Hok.
  - intros m Hw E. destruct (Hok w d Hw) as (_ & _ & Hm).
    destruct (caMargins w) as [b|]; simplify_eq/=. by apply Hm.
  - intros m Hw E. destruct (Hok w d Hw) as (_ & _ & Hm).
    destruct (caMargins w) as [b|]; simplify_eq/=. by apply Hm.
Qed.

Lemma childAttrs_ok_intro (c : ChildAttrs) :
  (forall d, 0 <= bothDim (caPref c) d) -> (forall d, 0 <= bothDim (caWeight c) d) ->
  (forall m d, caMargins c = Some m -> 0 <= bothDim m d <= bothDim (caPref c) d) ->
  childAttrs_okb c = true.
Proof.
  intros Hp Hw Hm. unfold childAttrs_okb.
  rewrite !andb_true_iff, !Z.leb_le. repeat split; auto;
    destruct (caMargins c) as [m|]; auto; rewrite andb_true_iff, !Z.leb_le; by apply Hm.
Qed.

(** A child without special class: size, stretchability and weight along both
    dimensions. *)
Definition plainChild (w h : Z) (hs vs : bool) (hw vw : Z) : ChildAttrs :=
  {| caPref := BothDim h w; caStretch := BothDim vs hs; caWeight := BothDim vw hw;
     caSpacing := false; caMargins := None |}.

Definition spacingChild (w h : Z) (hs vs : bool) : ChildAttrs :=
  {| caPref := BothDim h w; caStretch := BothDim vs hs; caWeight := BothDim 0 0;
     caSpacing := true; caMargins := None |}.

Definition alignmentChild (w h mw mh : Z) : ChildAttrs :=
  {| caPref := BothDim h w; caStretch := BothDim false false; caWeight := BothDim 0 0;
     caSpacing := false; caMargins := Some (BothDim mh mw) |}.
