(* ===== verification/LayoutBox.v ===== *)
(** * YLayoutBox: distributing space among the children of a box

    Models src/libyui/src/YLayoutBox.cc. A box lays its children out along its
    primary dimension. Children with a weight share the space the others
    leave, in proportion to their weights; without weights the stretchable
    children share it; if there is not enough space the children without
    weight are cut.

    The operations take the children through [YWidgetOps], so the theorems
    hold for any widget class that satisfies [LayoutLaws]. *)

From S2P Require Import Prelude CNum Geometry.

Module YLayoutBox.
Section Box.
Context {W : Type} `{YWidgetOps W}.
Variable primary : YUIDimension.

Definition secondary : YUIDimension := otherDim primary.

Definition childrenMaxPreferredSize (children : list W) (d : YUIDimension) : Z :=
  fold_left (fun maxPreferredSize c => Z.max (preferredSize c d) maxPreferredSize) children 0.

Definition childrenTotalWeight (children : list W) (d : YUIDimension) : Z :=
  sumZ (map (fun c => weight c d) children).

Definition totalNonWeightedChildrenPreferredSize (children : list W) (d : YUIDimension) : Z :=
  sumZ (map (fun c => if hasWeight c d then 0 else preferredSize c d) children).

Definition countIf (p : W -> bool) (children : list W) : Z :=
  sumZ (map (fun c => if p c then 1 else 0) children).

Definition countNonWeightedChildren (children : list W) (d : YUIDimension) : Z :=
  countIf (fun c => negb (hasWeight c d)) children.

Definition countStretchableChildren (children : list W) (d : YUIDimension) : Z :=
  countIf (fun c => negb (hasWeight c d) && stretchable c d) children.

Definition isLayoutStretch (c : W) (d : YUIDimension) : bool :=
  isSpacing c && stretchable c d.

Definition countLayoutStretchChildren (children : list W) (d : YUIDimension) : Z :=
  countIf (fun c => negb (hasWeight c d) && isLayoutStretch c d) children.

(** The loop keeps the best child so far and its ratio of preferred size and
    weight. *)
Definition dominatingStep (acc : option W * double) (child : W) : option W * double :=
  let '(dominatingChild, dominatingRatio) := acc in
  if weight child primary =? 0 then acc
  else
    let ratio := double_quot (preferredSize child primary) (weight child primary) in
    if double_gt ratio dominatingRatio then (Some child, ratio) else acc.

Definition findDominatingChild (children : list W) : option W :=
  fst (fold_left dominatingStep children (None, double_zero)).

Definition boxPreferredSize (children : list W) (d : YUIDimension) : Z :=
  if decide (d = secondary) then childrenMaxPreferredSize children d
  else
    let size :=
      match findDominatingChild children with
      | Some dominatingChild =>
          Z.quot (int_mul (preferredSize dominatingChild primary)
                          (childrenTotalWeight children primary))
                 (weight dominatingChild primary)
      | None => 0
      end in
    size + totalNonWeightedChildrenPreferredSize children primary.

Definition boxStretchable (children : list W) (d : YUIDimension) : bool :=
  existsb (fun c => stretchable c d || hasWeight c d) children.

(** ** Enough space *)

(** The quantities computed before the loop over the children. *)
Record distribution : Type := {
  distributableSize : Z;
  totalWeight : Z;
  nonWeightedExtra : Z;
  rubberBandExtra : Z
}.

Definition distribute (children : list W) (newSize : Z) : distribution :=
  let distributable := newSize - totalNonWeightedChildrenPreferredSize children primary in
  let total := childrenTotalWeight children primary in
  if total <=? 0 then
    let stretchableChildren := countStretchableChildren children primary in
    {| distributableSize := distributable;
       totalWeight := total;
       nonWeightedExtra :=
         if stretchableChildren >? 0 then Z.quot distributable stretchableChildren else 0;
       rubberBandExtra := 0 |}
  else
    let surplusSize := newSize - boxPreferredSize children primary in
    let rubberBands := countLayoutStretchChildren children primary in
    if (surplusSize >? 0) && (rubberBands >? 0) then
      let extra := Z.quot surplusSize rubberBands in
      {| distributableSize := distributable - extra * rubberBands;
         totalWeight := total;
         nonWeightedExtra := 0;
         rubberBandExtra := extra |}
    else
      {| distributableSize := distributable;
         totalWeight := total;
         nonWeightedExtra := 0;
         rubberBandExtra := 0 |}.

(** The size one child gets. *)
Definition childShare (ds : distribution) (child : W) : Z :=
  if hasWeight child primary then
    Z.quot (int_mul (distributableSize ds) (weight child primary)) (totalWeight ds)
  else
    preferredSize child primary
    + (if stretchable child primary then nonWeightedExtra ds else 0)
    + (if isLayoutStretch child primary then rubberBandExtra ds else 0).

(** ** Not enough space *)

(** Total margins of the alignments among the children without weight. *)
Definition reducibleMargins (children : list W) : Z :=
  sumZ (map (fun c =>
    if hasWeight c primary then 0
    else match alignmentMargins c with Some m => m primary | None => 0 end) children).

(** "Calculate initial sizes". The cast in [(int) marginScale * margins]
    binds tighter than the product, so the scale is truncated first. *)
Fixpoint initialSizes (marginScale : double) (remainingMargins : Z) (children : list W)
  : list Z :=
  match children with
  | [] => []
  | c :: rest =>
      if hasWeight c primary then 0 :: initialSizes marginScale remainingMargins rest
      else
        match alignmentMargins c with
        | None => preferredSize c primary :: initialSizes marginScale remainingMargins rest
        | Some m =>
            let stripped := preferredSize c primary - m primary in
            if remainingMargins >? 0 then
              let margins := double_to_int marginScale * m primary in
              (stripped + margins)
                :: initialSizes marginScale (remainingMargins - margins) rest
            else stripped :: initialSizes marginScale remainingMargins rest
        end
  end.

(** One run of the inner [for] loop of "Distribute loss"; it ends early when
    nothing is missing any more. *)
Fixpoint lossPass (childSize : list Z) (tooSmall loserCount dividedLoss : Z)
  : list Z * Z * Z :=
  match childSize with
  | [] => ([], tooSmall, loserCount)
  | s :: rest =>
      if tooSmall >? 0 then
        if s <? dividedLoss then
          if s >? 0 then
            let tooSmall' := tooSmall - s in
            let loserCount' := loserCount - 1 in
            let dividedLoss' :=
              if loserCount' >? 0 then Z.max (Z.quot tooSmall' loserCount') 1
              else dividedLoss in
            let '(rest', t, l) := lossPass rest tooSmall' loserCount' dividedLoss' in
            (0 :: rest', t, l)
          else
            let '(rest', t, l) := lossPass rest tooSmall loserCount dividedLoss in
            (s :: rest', t, l)
        else
          let '(rest', t, l) :=
            lossPass rest (tooSmall - dividedLoss) loserCount dividedLoss in
          (s - dividedLoss :: rest', t, l)
      else (s :: rest, tooSmall, loserCount)
  end.

(** The [while] loop, [None] when the fuel runs out. *)
Fixpoint lossLoop (fuel : nat) (childSize : list Z)
    (tooSmall loserCount oldTooSmall oldLoserCount : Z) : option (list Z) :=
  if (tooSmall >? 0) && (loserCount >? 0) then
    match fuel with
    | O => None
    | S fuel' =>
        let dividedLoss := Z.max (Z.quot tooSmall loserCount) 1 in
        let '(childSize', tooSmall', loserCount') :=
          lossPass childSize tooSmall loserCount dividedLoss in
        if (oldTooSmall =? tooSmall') && (oldLoserCount =? loserCount')
        then Some childSize'
        else lossLoop fuel' childSize' tooSmall' loserCount' tooSmall' loserCount'
    end
  else Some childSize.

Definition distributeLoss (childSize : list Z) (tooSmall loserCount : Z) : list Z :=
  default childSize
    (lossLoop (S (Z.to_nat tooSmall)) childSize tooSmall loserCount tooSmall loserCount).

Definition cutSizes (children : list W) (missing : Z) : list Z :=
  let totalMargins := reducibleMargins children in
  let loserCount := countNonWeightedChildren children primary in
  if totalMargins >? missing then
    let remainingMargins := totalMargins - missing in
    let marginScale := double_quot remainingMargins totalMargins in
    distributeLoss (initialSizes marginScale remainingMargins children) 0 loserCount
  else
    distributeLoss (initialSizes double_zero 0 children) (missing - totalMargins) loserCount.

(** ** Geometry *)

Definition primarySizes (children : list W) (newSize : Z) : list Z :=
  let distributable := newSize - totalNonWeightedChildrenPreferredSize children primary in
  if distributable >=? 0 then map (childShare (distribute children newSize)) children
  else cutSizes children (- distributable).

Definition calcPrimaryGeometry (children : list W) (newSize : Z) : list Z * list Z :=
  let childSize := primarySizes children newSize in
  (childSize, positions 0 childSize).

Definition secondaryGeometry (newSize : Z) (child : W) : Z * Z :=
  let preferred := preferredSize child secondary in
  if stretchable child secondary || (newSize <? preferred) || (preferred =? 0)
  then (newSize, 0)
  else (preferred, Z.quot (newSize - preferred) 2).

Definition calcSecondaryGeometry (children : list W) (newSize : Z) : list Z * list Z :=
  (map (fun c => fst (secondaryGeometry newSize c)) children,
   map (fun c => snd (secondaryGeometry newSize c)) children).

(** [x_pos[i] = newWidth - x_pos[i] - widths[i]] for every child. *)
Definition mirror (newWidth : Z) (widths x_pos : list Z) : list Z :=
  zip_with (fun x w => newWidth - x - w) x_pos widths.

Fixpoint doResize (width height x_pos y_pos : list Z) : list Rect :=
  match width, height, x_pos, y_pos with
  | w :: width', h :: height', x :: x_pos', y :: y_pos' =>
      mkRect x y w h :: doResize width' height' x_pos' y_pos'
  | _, _, _, _ => []
  end.

(** [YLayoutBox::setSize()]: the rectangle of every child, in order. *)
Definition setSize (reverseLayout : bool) (children : list W) (newWidth newHeight : Z)
  : list Rect :=
  let '((widths, x_pos), (heights, y_pos)) :=
    match primary with
    | YD_HORIZ =>
        (calcPrimaryGeometry children newWidth, calcSecondaryGeometry children newHeight)
    | YD_VERT =>
        (calcSecondaryGeometry children newWidth, calcPrimaryGeometry children newHeight)
    end in
  let x_pos' := if reverseLayout then mirror newWidth widths x_pos else x_pos in
  doResize widths heights x_pos' y_pos.

(** ** The range of [int]

    The products [distributableSize * weight] and [preferredSize *
    totalWeight] are the largest numbers the layout computes. They stay in the
    range of [int] for every child under the following conditions, one on the
    preferred sizes and the weights of the children and one on the size of the
    box. *)
Definition totalPreferredSize (children : list W) : Z :=
  sumZ (map (fun c => preferredSize c primary) children).

Definition prefFits (children : list W) : bool :=
  (childrenTotalWeight children primary <=? INT_MAX) &&
  (totalPreferredSize children <=? INT_MAX) &&
  forallb (fun c =>
    preferredSize c primary * childrenTotalWeight children primary + totalPreferredSize children
    <=? INT_MAX) children.

Definition sharesFit (children : list W) (newSize : Z) : bool :=
  (newSize <=? INT_MAX) && forallb (fun c => newSize * weight c primary <=? INT_MAX) children.

Definition boxFits (children : list W) (newSize : Z) : bool :=
  prefFits children && sharesFit children newSize.

(** The size along the primary dimension. *)
Definition primarySize (newWidth newHeight : Z) : Z :=
  match primary with YD_HORIZ => newWidth | YD_VERT => newHeight end.

(** ** Counting and summing over the children *)

Lemma countIf_nonneg p children : 0 <= countIf p children.
Proof. apply sumZ_nonneg, Forall_fmap, Forall_true. intros c. simpl. by destruct (p c). Qed.

Lemma sum_if_extra (p : W -> bool) (e : Z) children :
  sumZ (map (fun c => if p c then e else 0) children) = e * countIf p children.
Proof.
  unfold countIf. rewrite <- sumZ_fmap_mul. apply sumZ_fmap_ext.
  intros c _. destruct (p c); lia.
Qed.

(** ** Distributing the loss *)

Definition countPos (sizes : list Z) : Z := sumZ (map (fun s => if 0 <? s then 1 else 0) sizes).

Lemma countPos_nonneg sizes : 0 <= countPos sizes.
Proof. apply sumZ_nonneg, Forall_fmap, Forall_true. intros s. simpl. by destruct (0 <? s). Qed.

Lemma countPos_zero sizes :
  Forall (fun s => 0 <= s) sizes -> countPos sizes <= 0 -> sumZ sizes = 0.
Proof.
  induction 1 as [|s sizes Hs Hall IH]; unfold countPos in *; simpl; [done|].
  pose proof (countPos_nonneg sizes) as Hn. unfold countPos in Hn.
  destruct (Z.ltb_spec 0 s); intros; [lia|]. rewrite IH; lia.
Qed.

(** Everything a pass takes away from the sizes it takes off the missing space,
    and no size grows. *)
Lemma lossPass_conserves sizes ts lc dl sizes' ts' lc' :
  1 <= dl -> Forall (fun s => 0 <= s) sizes ->
  lossPass sizes ts lc dl = (sizes', ts', lc') ->
  sumZ sizes - sumZ sizes' = ts - ts' /\ Forall2 (fun s' s => 0 <= s' <= s) sizes' sizes.
Proof.
  intros Hdl Hnn. revert ts lc dl sizes' Hdl.
  induction Hnn as [|s sizes Hs Hnn IH]; intros ts lc dl sizes' Hdl E; simpl in E.
  { simplify_eq. split; [lia|constructor]. }
  rewrite Z.gtb_ltb in E. destruct (Z.ltb_spec 0 ts).
  2:{ simplify_eq. split; [lia|]. constructor; [lia|].
      clear -Hnn. induction Hnn; constructor; auto; lia. }
  destruct (Z.ltb_spec s dl); [rewrite Z.gtb_ltb in E; destruct (Z.ltb_spec 0 s)|].
  - destruct (lossPass sizes _ _ _) as [[r t] l] eqn:E'. simplify_eq.
    apply IH in E' as [? ?]; [|zcases; lia]. split; [simpl; lia|]. constructor; [lia|done].
  - destruct (lossPass sizes _ _ _) as [[r t] l] eqn:E'. simplify_eq.
    apply IH in E' as [? ?]; [|done]. split; [simpl; lia|]. constructor; [lia|done].
  - destruct (lossPass sizes _ _ _) as [[r t] l] eqn:E'. simplify_eq.
    apply IH in E' as [? ?]; [|done]. split; [simpl; lia|]. constructor; [lia|done].
Qed.

(** The share of the loss computed from the counters never exceeds what is
    missing in total. *)
Lemma dividedLoss_fits ts lc n :
  0 <= ts -> 0 < lc -> n <= lc ->
  let dl := Z.max (Z.quot ts lc) 1 in 1 <= dl /\ (dl = 1 \/ dl * n <= ts).
Proof.
  intros Hts Hlc Hn. simpl. split; [lia|].
  pose proof (quot_mul_le ts lc Hts Hlc). pose proof (quot_nonneg ts lc Hts Hlc).
  destruct (Z.max_spec (Z.quot ts lc) 1) as [[? ->]|[? ->]]; [by left|right; nia].
Qed.

(** A pass never takes too much, and the loser counter stays an upper bound of
    the children that still have something to lose ([n] of them come before
    the ones of this list). *)
Lemma lossPass_bounds sizes n ts lc dl sizes' ts' lc' :
  Forall (fun s => 0 <= s) sizes -> 0 <= n -> 0 <= ts -> 1 <= dl ->
  n + countPos sizes <= lc -> dl = 1 \/ dl * countPos sizes <= ts ->
  lossPass sizes ts lc dl = (sizes', ts', lc') ->
  0 <= ts' /\ n + countPos sizes' <= lc'.
Proof.
  intros Hnn. revert n ts lc dl sizes'.
  induction Hnn as [|s sizes Hs Hnn IH]; intros n ts lc dl sizes' Hn Hts Hdl Hlc Hfit E;
    simpl in E.
  { by simplify_eq. }
  unfold countPos in Hlc, Hfit; simpl in Hlc, Hfit. fold (countPos sizes) in Hlc, Hfit.
  pose proof (countPos_nonneg sizes).
  rewrite Z.gtb_ltb in E. destruct (Z.ltb_spec 0 ts).
  2:{ simplify_eq. unfold countPos; simpl. fold (countPos sizes). lia. }
  destruct (Z.ltb_spec s dl); [rewrite Z.gtb_ltb in E|]; destruct (Z.ltb_spec 0 s); try lia;
    destruct (lossPass sizes _ _ _) as [[r t] l] eqn:E'; simplify_eq;
    unfold countPos; simpl; fold (countPos r).
  - assert (dl * (1 + countPos sizes) <= ts) by lia.
    apply (IH n) in E'; [lia|lia|nia| |lia|]; rewrite Z.gtb_ltb; destruct (Z.ltb_spec 0 (lc - 1)).
    + lia.
    + lia.
    + apply (dividedLoss_fits (ts - s)); nia.
    + right. assert (countPos sizes = 0) as -> by lia. nia.
  - apply (IH n) in E'; try lia. zcases; lia.
  - apply (IH (n + (if 0 <? s - dl then 1 else 0))) in E'; try lia.
    + zcases; lia.
    + zcases; lia.
Qed.

(** A pass either makes progress or finds nothing to take. *)
Lemma lossPass_progress sizes ts lc dl sizes' ts' lc' :
  1 <= dl -> lossPass sizes ts lc dl = (sizes', ts', lc') ->
  ts' < ts \/ (sizes' = sizes /\ ts' = ts /\ lc' = lc /\ (0 < ts -> Forall (fun s => s <= 0) sizes)).
Proof.
  revert ts lc dl sizes'. induction sizes as [|s sizes IH]; intros ts lc dl sizes' Hdl E; simpl in E.
  { simplify_eq. right. naive_solver. }
  rewrite Z.gtb_ltb in E. destruct (Z.ltb_spec 0 ts).
  2:{ simplify_eq. right. repeat split; lia. }
  destruct (Z.ltb_spec s dl); [rewrite Z.gtb_ltb in E; destruct (Z.ltb_spec 0 s)|];
    destruct (lossPass sizes _ _ _) as [[r t] l] eqn:E'; simplify_eq;
    (apply IH in E'; [|zcases; lia]).
  - left. destruct E'; lia.
  - destruct E' as [?|(-> & -> & -> & Hall)]; [by left|right].
    repeat split; auto.
  - left. destruct E'; lia.
Qed.

(** The loop ends: every run of its body but the last takes something off the
    missing space. *)
Lemma lossLoop_terminates fuel sizes ts lc :
  (Z.to_nat ts < fuel)%nat -> exists r, lossLoop fuel sizes ts lc ts lc = Some r.
Proof.
  revert sizes ts lc. induction fuel as [|fuel IH]; intros sizes ts lc Hf; [lia|]. simpl.
  destruct ((ts >? 0) && (lc >? 0)) eqn:Hc; [|eauto].
  apply andb_true_iff in Hc as [Hts Hlc]. apply Z.gtb_lt in Hts, Hlc.
  destruct (lossPass sizes ts lc _) as [[sizes' ts'] lc'] eqn:E.
  apply lossPass_progress in E; [|lia].
  destruct ((ts =? ts') && (lc =? lc')) eqn:Hs; [eauto|].
  destruct E as [Hlt|(_ & -> & -> & _)]; [|by rewrite !Z.eqb_refl in Hs].
  apply IH. lia.
Qed.

Lemma Forall2_le_trans (l1 l2 l3 : list Z) :
  Forall2 (fun a b => 0 <= a <= b) l1 l2 -> Forall2 (fun a b => 0 <= a <= b) l2 l3 ->
  Forall2 (fun a b => 0 <= a <= b) l1 l3.
Proof.
  intros H1. revert l3. induction H1; intros l3 H2; inversion H2; subst; constructor; [lia|auto].
Qed.

Lemma Forall2_le_refl (l : list Z) :
  Forall (fun s => 0 <= s) l -> Forall2 (fun a b => 0 <= a <= b) l l.
Proof. induction 1; constructor; auto; lia. Qed.

Lemma Forall2_le_nonneg (l1 l2 : list Z) :
  Forall2 (fun a b => 0 <= a <= b) l1 l2 -> Forall (fun s => 0 <= s) l1.
Proof. induction 1; constructor; auto; lia. Qed.

Lemma Forall_zero_sum sizes :
  Forall (fun s => 0 <= s) sizes -> Forall (fun s => s <= 0) sizes -> sumZ sizes = 0.
Proof. induction 1; inversion 1; subst; simpl; [done|]. rewrite IHForall by done. lia. Qed.

Lemma lossLoop_correct fuel sizes ts lc r :
  Forall (fun s => 0 <= s) sizes -> 0 <= ts -> countPos sizes <= lc ->
  lossLoop fuel sizes ts lc ts lc = Some r ->
  sumZ r = Z.max 0 (sumZ sizes - ts) /\ Forall2 (fun s' s => 0 <= s' <= s) r sizes.
Proof.
  revert sizes ts lc. induction fuel as [|fuel IH]; intros sizes ts lc Hnn Hts Hlc E; simpl in E;
    pose proof (sumZ_nonneg _ Hnn) as Hsum;
    destruct ((ts >? 0) && (lc >? 0)) eqn:Hc; try discriminate.
  1,3: simplify_eq; split; [|by apply Forall2_le_refl];
    rewrite !Z.gtb_ltb in Hc; apply andb_false_iff in Hc as [Hc|Hc]; apply Z.ltb_ge in Hc;
    [lia|rewrite (countPos_zero r) by (done || lia); lia].
  apply andb_true_iff in Hc as [Hts' Hlc']. apply Z.gtb_lt in Hts', Hlc'.
  pose proof (dividedLoss_fits ts lc (countPos sizes) Hts Hlc' Hlc) as [Hd1 Hd2].
  destruct (lossPass sizes ts lc _) as [[sizes' ts'] lc'] eqn:Ep.
  pose proof (lossPass_conserves _ _ _ _ _ _ _ Hd1 Hnn Ep) as [Hcons Hle].
  pose proof (lossPass_bounds _ 0 _ _ _ _ _ _ Hnn (Z.le_refl 0) Hts Hd1 Hlc Hd2 Ep) as [Hb1 Hb2].
  pose proof (lossPass_progress _ _ _ _ _ _ _ Hd1 Ep) as Hpr.
  destruct ((ts =? ts') && (lc =? lc')) eqn:Hst.
  - simplify_eq. split; [|done].
    apply andb_true_iff in Hst as [Ht%Z.eqb_eq _].
    destruct Hpr as [?|(-> & _ & _ & Hall)]; [lia|].
    rewrite (Forall_zero_sum sizes) by auto. lia.
  - apply IH in E as [Es Ef]; [|by eapply Forall2_le_nonneg|done|lia].
    split; [lia|by eapply Forall2_le_trans].
Qed.

Lemma distributeLoss_correct sizes ts lc :
  Forall (fun s => 0 <= s) sizes -> 0 <= ts -> countPos sizes <= lc ->
  sumZ (distributeLoss sizes ts lc) = Z.max 0 (sumZ sizes - ts) /\
  Forall2 (fun s' s => 0 <= s' <= s) (distributeLoss sizes ts lc) sizes.
Proof.
  intros Hnn Hts Hlc. unfold distributeLoss.
  destruct (lossLoop_terminates (S (Z.to_nat ts)) sizes ts lc) as [r E]; [lia|].
  rewrite E. simpl. by eapply lossLoop_correct.
Qed.

(** ** Geometry of well-formed children *)

Context {P : W -> Prop} {HP : LayoutLaws W P}.

Lemma weighted_pos c : hasWeight c primary = true -> 0 < weight c primary.
Proof. unfold hasWeight. by rewrite Z.gtb_lt. Qed.

Lemma unweighted_zero c : P c -> hasWeight c primary = false -> weight c primary = 0.
Proof.
  unfold hasWeight. rewrite Z.gtb_ltb, Z.ltb_ge. intros Hc Hw.
  pose proof (weight_nonneg c primary Hc). lia.
Qed.

Lemma totalWeight_nonneg children : Forall P children -> 0 <= childrenTotalWeight children primary.
Proof.
  intros Hc. apply sumZ_nonneg. eapply Forall_map_intro; [|exact Hc]. eauto with yui.
Qed.

Lemma weight_le_total children c :
  Forall P children -> c ∈ children -> weight c primary <= childrenTotalWeight children primary.
Proof.
  intros Hc Hin. apply sumZ_elem_le; [|apply list_elem_of_fmap; eauto].
  eapply Forall_map_intro; [|exact Hc]. eauto with yui.
Qed.

Lemma nonWeightedSize_nonneg children :
  Forall P children -> 0 <= totalNonWeightedChildrenPreferredSize children primary.
Proof.
  intros Hc. apply sumZ_nonneg. eapply Forall_map_intro; [|exact Hc].
  intros c ?; simpl. destruct (hasWeight c primary); [lia|eauto with yui].
Qed.

(** *** Not enough space *)

Definition strippedSize (c : W) : Z :=
  if hasWeight c primary then 0
  else preferredSize c primary - match alignmentMargins c with Some m => m primary | None => 0 end.

Lemma strippedSize_range c : P c -> 0 <= strippedSize c <= preferredSize c primary.
Proof.
  intros Hc. unfold strippedSize. pose proof (pref_nonneg c primary Hc).
  destruct (hasWeight c primary); [lia|]. destruct (alignmentMargins c) as [m|] eqn:E; [|lia].
  pose proof (margins_nonneg c primary m Hc E). pose proof (margins_pref c primary m Hc E). lia.
Qed.

(** The scale is a proper fraction, so its truncation to [int] is zero: no
    margin is ever kept. *)
Lemma initialSizes_stripped scale rem children :
  (0 < rem -> double_to_int scale = 0) ->
  initialSizes scale rem children = map strippedSize children.
Proof.
  revert rem. induction children as [|c children IH]; intros rem Hs; [done|].
  simpl. unfold strippedSize at 1. destruct (hasWeight c primary); [by rewrite IH|].
  destruct (alignmentMargins c) as [m|]; [|by rewrite IH, Z.sub_0_r].
  destruct (Z.gtb_spec rem 0) as [Hr|Hr]; [|by rewrite IH].
  rewrite (Hs ltac:(lia)), Z.mul_0_l, Z.add_0_r, Z.sub_0_r. by rewrite IH.
Qed.

Lemma strippedSize_sum children :
  sumZ (map strippedSize children)
  = totalNonWeightedChildrenPreferredSize children primary - reducibleMargins children.
Proof.
  unfold totalNonWeightedChildrenPreferredSize, reducibleMargins.
  induction children as [|c children IH]; [done|]. simpl. rewrite IH.
  unfold strippedSize. destruct (hasWeight c primary); lia.
Qed.

Lemma strippedSize_count children :
  countPos (map strippedSize children) <= countNonWeightedChildren children primary.
Proof.
  unfold countPos, countNonWeightedChildren, countIf. rewrite map_map.
  apply sumZ_fmap_le. intros c _. unfold strippedSize.
  destruct (hasWeight c primary); simpl; [lia|]. destruct (0 <? _); lia.
Qed.

Lemma strippedSize_nonneg children :
  Forall P children -> Forall (fun s => 0 <= s) (map strippedSize children).
Proof.
  apply Forall_map_intro. intros c ?. by apply strippedSize_range.
Qed.

Lemma cutSizes_stripped children missing :
  0 < missing -> reducibleMargins children <= INT_MAX ->
  cutSizes children missing
  = distributeLoss (map strippedSize children)
      (Z.max 0 (missing - reducibleMargins children)) (countNonWeightedChildren children primary).
Proof.
  intros Hm Hi. unfold cutSizes. destruct (Z.gtb_spec (reducibleMargins children) missing).
  - rewrite initialSizes_stripped.
    + f_equal. lia.
    + intros _. apply double_to_int_fraction; [lia|]. unfold INT_MAX in Hi. lia.
  - rewrite initialSizes_stripped by lia. f_equal. lia.
Qed.

Lemma cutSizes_correct children missing :
  Forall P children -> 0 < missing -> reducibleMargins children <= INT_MAX ->
  sumZ (cutSizes children missing)
  = Z.max 0 (totalNonWeightedChildrenPreferredSize children primary
             - Z.max missing (reducibleMargins children)) /\
  Forall2 (fun s' s => 0 <= s' <= s) (cutSizes children missing) (map strippedSize children).
Proof.
  intros Hc Hm Hi. rewrite cutSizes_stripped by done.
  destruct (distributeLoss_correct (map strippedSize children)
      (Z.max 0 (missing - reducibleMargins children))
      (countNonWeightedChildren children primary)) as [Hs Hf];
    [by apply strippedSize_nonneg|lia|apply strippedSize_count|].
  split; [|done]. rewrite Hs, strippedSize_sum. lia.
Qed.

(** *** Enough space *)

Definition weightedShare (ds : distribution) (c : W) : Z :=
  if hasWeight c primary then Z.quot (distributableSize ds * weight c primary) (totalWeight ds) else 0.

Lemma childShare_sum ds children :
  (forall c, c ∈ children -> hasWeight c primary = true ->
     fits_int (distributableSize ds * weight c primary)) ->
  sumZ (map (childShare ds) children)
  = totalNonWeightedChildrenPreferredSize children primary
    + nonWeightedExtra ds * countStretchableChildren children primary
    + rubberBandExtra ds * countLayoutStretchChildren children primary
    + sumZ (map (weightedShare ds) children).
Proof.
  intros Hf. unfold countStretchableChildren, countLayoutStretchChildren.
  rewrite <- !sum_if_extra. unfold totalNonWeightedChildrenPreferredSize.
  rewrite <- !sumZ_fmap_add. apply sumZ_fmap_ext. intros c Hin. specialize (Hf c Hin).
  unfold childShare, weightedShare. destruct (hasWeight c primary); simpl.
  { rewrite int_mul_fits by auto. lia. }
  destruct (stretchable c primary), (isLayoutStretch c primary); lia.
Qed.

Lemma exists_weighted children :
  Forall P children -> 0 < childrenTotalWeight children primary ->
  exists c, c ∈ children /\ hasWeight c primary = true.
Proof.
  unfold childrenTotalWeight. induction 1 as [|c children Hcp Hc IH]; simpl; intros HW; [lia|].
  destruct (hasWeight c primary) eqn:E; [exists c; split; [left|done]|].
  rewrite (unweighted_zero c Hcp E) in HW.
  destruct IH as (c' & ? & ?); [lia|]. exists c'. split; [by right|done].
Qed.

(** Rounding takes less than one unit off a weighted child. *)
Lemma weightedShare_range ds c :
  P c -> 0 <= distributableSize ds -> 0 < totalWeight ds ->
  let exact := distributableSize ds * weight c primary in
  totalWeight ds * weightedShare ds c <= exact /\
  if hasWeight c primary then exact < totalWeight ds * weightedShare ds c + totalWeight ds
  else exact = totalWeight ds * weightedShare ds c.
Proof.
  intros Hc Hd HW exact. unfold exact, weightedShare.
  pose proof (weight_nonneg c primary Hc) as Hw.
  destruct (hasWeight c primary) eqn:Ew; [|rewrite (unweighted_zero c Hc Ew); lia].
  split; [apply quot_mul_le|apply quot_mul_gt]; nia.
Qed.

Lemma weightedShare_sum ds children :
  Forall P children -> 0 <= distributableSize ds ->
  0 < totalWeight ds -> totalWeight ds = childrenTotalWeight children primary ->
  distributableSize ds - countIf (fun c => hasWeight c primary) children
    < sumZ (map (weightedShare ds) children) <= distributableSize ds.
Proof.
  intros Hc Hd HW EW. set (D := distributableSize ds) in *. set (W' := totalWeight ds) in *.
  assert (Hub : sumZ (map (fun c => W' * weightedShare ds c) children)
                <= sumZ (map (fun c => D * weight c primary) children)).
  { apply sumZ_fmap_le. intros c Hin. apply weightedShare_range; [by eapply Forall_at|done..]. }
  destruct (exists_weighted children Hc) as (y & Hiny & Hwy); [lia|].
  assert (Hlb : sumZ (map (fun c => D * weight c primary) children)
    < sumZ (map (fun c => W' * weightedShare ds c + W' * (if hasWeight c primary then 1 else 0)) children)).
  { apply sumZ_fmap_lt with y; [intros c Hin|done|].
    - destruct (weightedShare_range ds c) as [_ Hr]; [by eapply Forall_at|done..|].
      fold D W' in Hr. destruct (hasWeight c primary); lia.
    - destruct (weightedShare_range ds y) as [_ Hr]; [by eapply Forall_at|done..|].
      fold D W' in Hr. rewrite Hwy in *. lia. }
  rewrite sumZ_fmap_add, !sumZ_fmap_mul in *.
  fold (childrenTotalWeight children primary) (countIf (fun c => hasWeight c primary) children) in *.
  rewrite <- EW in *. split; nia.
Qed.

(** *** The dominating child *)

(** Sizes and weights for which ratios of doubles compare exactly. *)
Definition small (c : W) : Prop := preferredSize c primary < 2 ^ 26 /\ weight c primary < 2 ^ 26.

Definition dominates (d c : W) : Prop :=
  preferredSize c primary * weight d primary <= preferredSize d primary * weight c primary.

Lemma findDominatingChild_weighted children d :
  findDominatingChild children = Some d -> d ∈ children /\ weight d primary <> 0.
Proof.
  unfold findDominatingChild.
  induction children as [|c children IH] using rev_ind; [done|].
  rewrite fold_left_app. simpl. destruct (fold_left _ children _) as [o r] eqn:E. simpl in *.
  rewrite elem_of_app, list_elem_of_singleton.
  destruct (Z.eqb_spec (weight c primary) 0); [naive_solver|].
  destruct (double_gt _ _); simpl; naive_solver.
Qed.

Lemma dominating_inv children :
  Forall P children -> Forall small children ->
  match fold_left dominatingStep children (None, double_zero) with
  | (None, r) =>
      r = double_zero /\
      forall c, c ∈ children -> 0 < weight c primary -> preferredSize c primary = 0
  | (Some d, r) =>
      r = double_quot (preferredSize d primary) (weight d primary) /\
      d ∈ children /\ 0 < preferredSize d primary /\ 0 < weight d primary /\
      forall c, c ∈ children -> 0 < weight c primary -> dominates d c
  end.
Proof.
  induction children as [|x children IH] using rev_ind; intros HPc HSc; [set_solver|].
  apply Forall_app in HPc as [HPc Hx%Forall_inv].
  apply Forall_app in HSc as [HSc Sx%Forall_inv].
  specialize (IH HPc HSc). rewrite fold_left_app. simpl.
  pose proof (pref_nonneg x primary Hx) as Hpx. pose proof (weight_nonneg x primary Hx) as Hwx.
  destruct Sx as [Spx Swx].
  destruct (fold_left _ children _) as [[d|] r]; simpl;
    destruct (Z.eqb_spec (weight x primary) 0) as [Ex|Nx].
  - destruct IH as (? & ? & ? & ? & Hall). repeat split; auto; [set_solver|].
    intros c [Hin| ->%list_elem_of_singleton]%elem_of_app Hc; [auto|lia].
  - destruct IH as (-> & Hin & Hpd & Hwd & Hall).
    destruct (Forall_at _ _ _ HSc Hin) as [Spd Swd].
    rewrite double_gt_cross by (unfold ratio_small; nia).
    destruct (Z.ltb_spec (preferredSize d primary * weight x primary)
                (preferredSize x primary * weight d primary)).
    + repeat split; [set_solver|nia|lia|].
      intros c [Hc| ->%list_elem_of_singleton]%elem_of_app Hwc; [|unfold dominates; lia].
      specialize (Hall c Hc Hwc). unfold dominates in *.
      pose proof (pref_nonneg c primary (Forall_at _ _ _ HPc Hc)). nia.
    + repeat split; auto; [set_solver|].
      intros c [Hc| ->%list_elem_of_singleton]%elem_of_app Hwc; [auto|unfold dominates; lia].
  - destruct IH as (-> & Hall). split; [done|].
    intros c [Hc| ->%list_elem_of_singleton]%elem_of_app Hwc; [auto|lia].
  - destruct IH as (-> & Hall). change double_zero with (double_quot 0 1).
    rewrite double_gt_cross by (unfold ratio_small; nia).
    destruct (Z.ltb_spec (0 * weight x primary) (preferredSize x primary * 1)).
    + repeat split; [set_solver|lia|lia|].
      intros c [Hc| ->%list_elem_of_singleton]%elem_of_app Hwc; [|unfold dominates; lia].
      unfold dominates. rewrite (Hall c Hc Hwc). nia.
    + split; [done|]. intros c [Hc| ->%list_elem_of_singleton]%elem_of_app Hwc; [auto|lia].
Qed.

(** *** The quantities of [calcPrimaryGeometry()] *)

Lemma prefFits_at children :
  prefFits children = true ->
  childrenTotalWeight children primary <= INT_MAX /\ totalPreferredSize children <= INT_MAX /\
  forall c, c ∈ children ->
    preferredSize c primary * childrenTotalWeight children primary + totalPreferredSize children
    <= INT_MAX.
Proof.
  unfold prefFits. rewrite !andb_true_iff, !Z.leb_le. intros [[? ?] Hf]. do 2 (split; [done|]).
  intros c Hin%list_elem_of_In. by apply (proj1 (List.forallb_forall _ _) Hf), Z.leb_le in Hin.
Qed.

Lemma sharesFit_at children newSize :
  sharesFit children newSize = true ->
  newSize <= INT_MAX /\ forall c, c ∈ children -> newSize * weight c primary <= INT_MAX.
Proof.
  unfold sharesFit. rewrite !andb_true_iff, !Z.leb_le. intros [? Hf]. split; [done|].
  intros c Hin%list_elem_of_In. by apply (proj1 (List.forallb_forall _ _) Hf), Z.leb_le in Hin.
Qed.

Lemma boxFits_inv children newSize :
  boxFits children newSize = true -> prefFits children = true /\ sharesFit children newSize = true.
Proof. unfold boxFits. by rewrite andb_true_iff. Qed.

Lemma totalPreferredSize_nonneg children : Forall P children -> 0 <= totalPreferredSize children.
Proof. intros Hc. apply sumZ_nonneg. eapply Forall_map_intro; [|exact Hc]. eauto with yui. Qed.

(** A smaller box fits where a larger one does. *)
Lemma boxFits_mono children newSize newSize' :
  Forall P children -> newSize' <= newSize ->
  boxFits children newSize = true -> boxFits children newSize' = true.
Proof.
  intros Hc Hle [Hp Hs]%boxFits_inv. unfold boxFits, sharesFit. rewrite Hp. simpl.
  apply sharesFit_at in Hs as [H1 H2]. rewrite andb_true_iff, Z.leb_le. split; [lia|].
  apply List.forallb_forall. intros c Hin%list_elem_of_In. apply Z.leb_le.
  pose proof (H2 c Hin). pose proof (weight_nonneg c primary (Forall_at _ _ _ Hc Hin)). nia.
Qed.

(** The alignment margins are part of the preferred sizes. *)
Lemma prefFits_margins children :
  Forall P children -> prefFits children = true -> reducibleMargins children <= INT_MAX.
Proof.
  intros Hc (_ & Hs & _)%prefFits_at. etransitivity; [|exact Hs].
  apply sumZ_fmap_le. intros c Hin. pose proof (Forall_at _ _ _ Hc Hin) as Hp.
  pose proof (pref_nonneg c primary Hp). destruct (hasWeight c primary); [done|].
  destruct (alignmentMargins c) as [m|] eqn:Em; [|done]. by apply (margins_pref c primary m).
Qed.

Lemma boxPreferredSize_primary children :
  Forall P children -> prefFits children = true ->
  boxPreferredSize children primary
  = match findDominatingChild children with
    | Some d => Z.quot (preferredSize d primary * childrenTotalWeight children primary)
                       (weight d primary)
    | None => 0
    end + totalNonWeightedChildrenPreferredSize children primary.
Proof.
  intros Hc (_ & _ & Hf)%prefFits_at.
  unfold boxPreferredSize, secondary. rewrite decide_False by (by destruct primary).
  destruct (findDominatingChild children) as [d|] eqn:E; [|done].
  apply findDominatingChild_weighted in E as [Hin _]. specialize (Hf d Hin).
  pose proof (pref_nonneg d primary (Forall_at _ _ _ Hc Hin)).
  pose proof (totalWeight_nonneg children Hc). pose proof (totalPreferredSize_nonneg children Hc).
  rewrite int_mul_fits; [done|]. unfold fits_int, INT_MIN. nia.
Qed.

Lemma nonWeighted_le_preferred children :
  Forall P children -> prefFits children = true ->
  totalNonWeightedChildrenPreferredSize children primary <= boxPreferredSize children primary.
Proof.
  intros Hc Hf. rewrite boxPreferredSize_primary by done.
  destruct (findDominatingChild children) as [d|] eqn:E; [|lia].
  apply findDominatingChild_weighted in E as [Hin Hw].
  pose proof (Forall_at _ _ _ Hc Hin) as Hd.
  pose proof (pref_nonneg d primary Hd). pose proof (weight_nonneg d primary Hd).
  pose proof (totalWeight_nonneg children Hc).
  assert (0 <= Z.quot (preferredSize d primary * childrenTotalWeight children primary)
                      (weight d primary)) by (apply quot_nonneg; nia). lia.
Qed.

Lemma childrenMaxPreferredSize_ge children d :
  0 <= childrenMaxPreferredSize children d /\
  forall c, c ∈ children -> preferredSize c d <= childrenMaxPreferredSize children d.
Proof.
  apply (fold_max_ge (fun c => preferredSize c d)). lia.
Qed.

Lemma boxPreferredSize_nonneg children d :
  Forall P children -> prefFits children = true -> 0 <= boxPreferredSize children d.
Proof.
  intros Hc Hf. destruct (decide (d = primary)) as [->|Hd].
  - pose proof (nonWeighted_le_preferred children Hc Hf). pose proof (nonWeightedSize_nonneg children Hc). lia.
  - unfold boxPreferredSize, secondary. rewrite decide_True by (destruct d, primary; done).
    apply childrenMaxPreferredSize_ge.
Qed.

Record distribution_ok (children : list W) (newSize : Z) (ds : distribution) : Prop := {
  ds_weight : totalWeight ds = childrenTotalWeight children primary;
  ds_nonneg : 0 <= distributableSize ds /\ 0 <= nonWeightedExtra ds /\ 0 <= rubberBandExtra ds;
  ds_rubber : rubberBandExtra ds * countLayoutStretchChildren children primary + distributableSize ds
              = newSize - totalNonWeightedChildrenPreferredSize children primary;
  ds_extra : nonWeightedExtra ds <= newSize - totalNonWeightedChildrenPreferredSize children primary;
  ds_weighted : 0 < totalWeight ds -> nonWeightedExtra ds = 0;
  ds_unweighted : totalWeight ds <= 0 ->
    rubberBandExtra ds = 0 /\
    nonWeightedExtra ds * countStretchableChildren children primary <= distributableSize ds /\
    (0 < countStretchableChildren children primary ->
     distributableSize ds < nonWeightedExtra ds * countStretchableChildren children primary
                            + countStretchableChildren children primary);
  ds_preferred : 0 < totalWeight ds -> boxPreferredSize children primary <= newSize ->
    boxPreferredSize children primary - totalNonWeightedChildrenPreferredSize children primary
    <= distributableSize ds
}.

Lemma distribute_ok children newSize :
  Forall P children -> prefFits children = true ->
  totalNonWeightedChildrenPreferredSize children primary <= newSize ->
  distribution_ok children newSize (distribute children newSize).
Proof.
  intros Hc Hf Hd. unfold distribute.
  pose proof (nonWeighted_le_preferred children Hc Hf) as Hpref.
  set (NW := totalNonWeightedChildrenPreferredSize children primary) in *.
  set (n := countStretchableChildren children primary).
  set (rb := countLayoutStretchChildren children primary).
  assert (0 <= n) by apply countIf_nonneg. assert (0 <= rb) by apply countIf_nonneg.
  destruct (Z.leb_spec (childrenTotalWeight children primary) 0).
  - pose proof (quot_mul_le (newSize - NW) n ltac:(lia)).
    pose proof (quot_mul_gt (newSize - NW) n ltac:(lia)).
    pose proof (quot_nonneg (newSize - NW) n ltac:(lia)).
    pose proof (quot_le_self (newSize - NW) n ltac:(lia)).
    destruct (Z.gtb_spec n 0); constructor; simpl; fold NW n rb; lia.
  - set (extra := Z.quot (newSize - boxPreferredSize children primary) rb).
    destruct (Z.gtb_spec (newSize - boxPreferredSize children primary) 0),
      (Z.gtb_spec rb 0); simpl; try (constructor; simpl; fold NW n rb; lia).
    pose proof (quot_mul_le (newSize - boxPreferredSize children primary) rb ltac:(lia) ltac:(lia)) as Q1.
    pose proof (quot_nonneg (newSize - boxPreferredSize children primary) rb ltac:(lia) ltac:(lia)) as Q2.
    fold extra in Q1, Q2. constructor; simpl; fold NW n rb; lia.
Qed.

Lemma weightedShare_unweighted_sum ds children :
  Forall P children -> childrenTotalWeight children primary <= 0 ->
  sumZ (map (weightedShare ds) children) = 0.
Proof.
  intros Hc HW. rewrite (sumZ_fmap_ext _ (fun _ => 0 * 0)).
  - by rewrite sumZ_fmap_mul.
  - intros c Hin. unfold weightedShare. destruct (hasWeight c primary) eqn:E; [|done].
    apply weighted_pos in E. pose proof (weight_le_total children c Hc Hin). lia.
Qed.

(** The product of the share is in the range of [int]. *)
Lemma share_fits ds children newSize c :
  Forall P children -> distribution_ok children newSize ds -> sharesFit children newSize = true ->
  c ∈ children -> fits_int (distributableSize ds * weight c primary).
Proof.
  intros Hc Hds [_ Hf]%sharesFit_at Hin. specialize (Hf c Hin).
  destruct (ds_nonneg _ _ _ Hds) as (? & _ & ?). pose proof (ds_rubber _ _ _ Hds) as Hr.
  pose proof (nonWeightedSize_nonneg children Hc).
  assert (0 <= countLayoutStretchChildren children primary) by apply countIf_nonneg.
  pose proof (weight_nonneg c primary (Forall_at _ _ _ Hc Hin)).
  assert (distributableSize ds <= newSize) by nia.
  unfold fits_int, INT_MIN, INT_MAX in *. nia.
Qed.

Lemma childShare_nonneg ds children newSize c :
  Forall P children -> distribution_ok children newSize ds -> sharesFit children newSize = true ->
  c ∈ children ->
  0 <= childShare ds c.
Proof.
  intros Hc Hds Hf Hin. pose proof (Forall_at _ _ _ Hc Hin) as Hp.
  destruct (ds_nonneg _ _ _ Hds) as (H1 & H2 & H3). unfold childShare.
  rewrite int_mul_fits by (by eapply share_fits). destruct (hasWeight c primary) eqn:E.
  - apply weighted_pos in E. pose proof (weight_le_total children c Hc Hin).
    rewrite (ds_weight _ _ _ Hds). apply quot_nonneg; nia.
  - pose proof (pref_nonneg c primary Hp).
    destruct (stretchable c primary), (isLayoutStretch c primary); lia.
Qed.

Lemma primarySizes_enough children newSize :
  totalNonWeightedChildrenPreferredSize children primary <= newSize ->
  primarySizes children newSize = map (childShare (distribute children newSize)) children.
Proof.
  intros Hd. unfold primarySizes. rewrite Z.geb_leb. by rewrite (proj2 (Z.leb_le 0 _)) by lia.
Qed.

Lemma primarySizes_cut children newSize :
  newSize < totalNonWeightedChildrenPreferredSize children primary ->
  primarySizes children newSize
  = cutSizes children (totalNonWeightedChildrenPreferredSize children primary - newSize).
Proof.
  intros Hd. unfold primarySizes. rewrite Z.geb_leb. rewrite (proj2 (Z.leb_gt 0 _)) by lia.
  f_equal. lia.
Qed.

Lemma enough_or_cut children newSize :
  totalNonWeightedChildrenPreferredSize children primary <= newSize \/
  newSize < totalNonWeightedChildrenPreferredSize children primary.
Proof. lia. Qed.

Lemma length_primarySizes children newSize :
  Forall P children -> reducibleMargins children <= INT_MAX ->
  length (primarySizes children newSize) = length children.
Proof.
  intros Hc Hi. destruct (enough_or_cut children newSize) as [Hd|Hd].
  - rewrite primarySizes_enough by done. apply length_map.
  - rewrite primarySizes_cut by done.
    destruct (cutSizes_correct children _ Hc (proj2 (Z.lt_0_sub _ _) Hd) Hi) as [_ Hf].
    apply Forall2_length in Hf. by rewrite Hf, length_map.
Qed.

Lemma primarySizes_nonneg children newSize :
  Forall P children -> boxFits children newSize = true ->
  Forall (fun s => 0 <= s) (primarySizes children newSize).
Proof.
  intros Hc [Hp Hf]%boxFits_inv. pose proof (prefFits_margins children Hc Hp) as Hi.
  destruct (enough_or_cut children newSize) as [Hd|Hd].
  - rewrite primarySizes_enough by done. apply Forall_fmap, Forall_forall. intros c Hin. simpl.
    apply (childShare_nonneg _ children newSize); [done|by apply distribute_ok|done|].
    by apply list_elem_of_In.
  - rewrite primarySizes_cut by done. eapply Forall2_le_nonneg, cutSizes_correct; [done|lia|done].
Qed.

(** The children use the box up to a rounding remainder of less than one unit
    per child that takes part in the distribution. *)
Lemma childShares_sum children newSize :
  Forall P children -> boxFits children newSize = true ->
  totalNonWeightedChildrenPreferredSize children primary <= newSize ->
  let total := sumZ (map (childShare (distribute children newSize)) children) in
  total <= newSize /\
  (0 < childrenTotalWeight children primary ->
   newSize - total < countIf (fun c => hasWeight c primary) children) /\
  (childrenTotalWeight children primary <= 0 -> 0 < countStretchableChildren children primary ->
   newSize - total < countStretchableChildren children primary).
Proof.
  intros Hc [Hp Hf]%boxFits_inv Hd total. unfold total.
  pose proof (distribute_ok children newSize Hc Hp Hd) as Hds.
  rewrite childShare_sum by (intros c Hin _; by eapply share_fits).
  set (ds := distribute children newSize) in *.
  destruct (ds_nonneg _ _ _ Hds) as (Hd0 & _ & _).
  pose proof (ds_rubber _ _ _ Hds) as Hr. pose proof (ds_weight _ _ _ Hds) as HW.
  destruct (Z.le_gt_cases (totalWeight ds) 0) as [Hw|Hw].
  - destruct (ds_unweighted _ _ _ Hds Hw) as (E0 & Hle & Hgt).
    rewrite weightedShare_unweighted_sum by (done || lia). rewrite E0 in *. lia.
  - rewrite (ds_weighted _ _ _ Hds Hw).
    pose proof (weightedShare_sum ds children Hc Hd0 Hw HW). lia.
Qed.

Lemma primarySizes_sum children newSize :
  Forall P children -> 0 <= newSize -> boxFits children newSize = true ->
  sumZ (primarySizes children newSize) <= newSize.
Proof.
  intros Hc Hn Hf. pose proof (prefFits_margins children Hc (proj1 (boxFits_inv _ _ Hf))) as Hi.
  destruct (enough_or_cut children newSize) as [Hd|Hd].
  - rewrite primarySizes_enough by done. by apply childShares_sum.
  - rewrite primarySizes_cut by done.
    destruct (cutSizes_correct children _ Hc (proj2 (Z.lt_0_sub _ _) Hd) Hi) as [-> _]. lia.
Qed.

(** The interval of child [i] along the primary dimension. *)
Lemma primary_inside children newSize i s p :
  Forall P children -> 0 <= newSize -> boxFits children newSize = true ->
  primarySizes children newSize !! i = Some s ->
  positions 0 (primarySizes children newSize) !! i = Some p ->
  0 <= s /\ 0 <= p /\ p + s <= newSize.
Proof.
  intros Hc Hn Hi Hs Hp. pose proof (primarySizes_nonneg children newSize Hc Hi) as Hnn.
  pose proof (primarySizes_sum children newSize Hc Hn Hi).
  destruct (positions_inside _ _ _ _ _ Hnn Hp Hs). split; [|lia].
  by eapply (Forall_lookup_1 (fun s => 0 <= s)).
Qed.

Lemma secondary_inside newSize c :
  P c -> 0 <= newSize ->
  let '(s, p) := secondaryGeometry newSize c in 0 <= s /\ 0 <= p /\ p + s <= newSize.
Proof.
  intros Hc Hn. unfold secondaryGeometry. pose proof (pref_nonneg c secondary Hc).
  destruct (stretchable c secondary); simpl; [lia|].
  destruct (Z.ltb_spec newSize (preferredSize c secondary)); simpl; [lia|].
  destruct (Z.eqb_spec (preferredSize c secondary) 0); [lia|].
  pose proof (quot_mul_le (newSize - preferredSize c secondary) 2).
  pose proof (quot_nonneg (newSize - preferredSize c secondary) 2). lia.
Qed.

Lemma doResize_lookup ws hs xs ys i r :
  doResize ws hs xs ys !! i = Some r ->
  ws !! i = Some (rw r) /\ hs !! i = Some (rh r) /\ xs !! i = Some (rx r) /\ ys !! i = Some (ry r).
Proof.
  revert hs xs ys i. induction ws as [|w ws IH]; intros [|h hs] [|x xs] [|y ys] i; try done.
  destruct i as [|i]; simpl; [intros [= <-]; done|apply IH].
Qed.

Lemma length_doResize n ws hs xs ys :
  length ws = n -> length hs = n -> length xs = n -> length ys = n ->
  length (doResize ws hs xs ys) = n.
Proof.
  revert n hs xs ys. induction ws as [|w ws IH]; intros n [|h hs] [|x xs] [|y ys]; simpl;
    intros; subst; auto; try discriminate.
Qed.

Lemma mirror_lookup newWidth ws xs i x :
  mirror newWidth ws xs !! i = Some x ->
  exists x0 w, xs !! i = Some x0 /\ ws !! i = Some w /\ x = newWidth - x0 - w.
Proof.
  unfold mirror. rewrite lookup_zip_with. intros Hx.
  destruct (xs !! i) as [x0|] eqn:E1; [|done]. destruct (ws !! i) as [w|] eqn:E2; [|done].
  simpl in Hx. simplify_eq. eauto 10.
Qed.

(** Along the two dimensions, the interval of child [i]. *)
Definition primaryInterval (children : list W) (newSize : Z) (i : nat) (p s : Z) : Prop :=
  primarySizes children newSize !! i = Some s /\
  positions 0 (primarySizes children newSize) !! i = Some p.

Definition secondaryInterval (children : list W) (newSize : Z) (i : nat) (p s : Z) : Prop :=
  exists c, children !! i = Some c /\ secondaryGeometry newSize c = (s, p).

Lemma calcSecondary_lookup children newSize i s p :
  (calcSecondaryGeometry children newSize).1 !! i = Some s ->
  (calcSecondaryGeometry children newSize).2 !! i = Some p ->
  secondaryInterval children newSize i p s.
Proof.
  unfold calcSecondaryGeometry, secondaryInterval. simpl. rewrite !list_lookup_fmap.
  destruct (children !! i) as [c|]; [|done]. simpl. intros [= <-] [= <-].
  exists c. split; [done|]. by destruct (secondaryGeometry newSize c).
Qed.

(** What [setSize()] does with child [i], before mirroring. *)
Lemma setSize_lookup reverseLayout children newWidth newHeight i r :
  setSize reverseLayout children newWidth newHeight !! i = Some r ->
  exists x,
    match primary with
    | YD_HORIZ => primaryInterval children newWidth i x (rw r) /\
                  secondaryInterval children newHeight i (ry r) (rh r)
    | YD_VERT => secondaryInterval children newWidth i x (rw r) /\
                 primaryInterval children newHeight i (ry r) (rh r)
    end /\ rx r = if reverseLayout then newWidth - x - rw r else x.
Proof.
  unfold setSize. destruct primary eqn:Ep; simpl; intros Hr;
    apply doResize_lookup in Hr as (Hw & Hh & Hx & Hy); destruct reverseLayout.
  1,3: apply mirror_lookup in Hx as (x0 & w & Hx & Hw' & Ex); simplify_eq; exists x0.
  3,4: exists (rx r).
  all: split; [split|done]; first [by split|by apply calcSecondary_lookup].
Qed.

Lemma primaryInterval_inside children newSize i p s :
  Forall P children -> 0 <= newSize -> boxFits children newSize = true ->
  primaryInterval children newSize i p s -> 0 <= s /\ 0 <= p /\ p + s <= newSize.
Proof. intros ? ? ? [? ?]. by eapply primary_inside. Qed.

Lemma secondaryInterval_inside children newSize i p s :
  Forall P children -> 0 <= newSize ->
  secondaryInterval children newSize i p s -> 0 <= s /\ 0 <= p /\ p + s <= newSize.
Proof.
  intros Hc Hn (c & Hl & E). pose proof (secondary_inside newSize c) as Hs. rewrite E in Hs.
  apply Hs; [|done]. by eapply (Forall_lookup_1 P).
Qed.

Lemma primaryInterval_disjoint children newSize i j p1 s1 p2 s2 :
  Forall P children -> boxFits children newSize = true -> (i < j)%nat ->
  primaryInterval children newSize i p1 s1 -> primaryInterval children newSize j p2 s2 ->
  p1 + s1 <= p2.
Proof.
  intros Hc Hi Hij [Hs1 Hp1] [Hs2 Hp2].
  apply (positions_disjoint 0 (primarySizes children newSize) i j p1 p2 s1); [|done..].
  by apply primarySizes_nonneg.
Qed.

Lemma length_setSize reverseLayout children newWidth newHeight :
  Forall P children -> reducibleMargins children <= INT_MAX ->
  length (setSize reverseLayout children newWidth newHeight) = length children.
Proof.
  intros Hc Hi. unfold setSize, calcPrimaryGeometry, calcSecondaryGeometry, mirror.
  destruct primary eqn:Ep; apply length_doResize; try destruct reverseLayout;
    rewrite ?length_zip_with, ?length_map, ?length_positions, ?length_primarySizes by done; lia.
Qed.

(** A share of the space computed for the dominating child [d] is at most one
    unit short for any child [c] that [d] dominates. *)
Lemma share_short_by_one pd wd pc wc total D :
  0 <= pd -> 0 < wd -> 0 < wc -> wc <= total -> pc * wd <= pd * wc ->
  Z.quot (pd * total) wd <= D -> pc - 1 <= Z.quot (D * wc) total.
Proof.
  intros Hpd Hwd Hwc Ht Hdom HD.
  assert (H0 : 0 <= pd * total) by nia.
  pose proof (quot_mul_gt (pd * total) wd H0 Hwd). pose proof (quot_nonneg (pd * total) wd H0 Hwd).
  assert (HD0 : 0 <= D * wc) by nia.
  pose proof (quot_mul_gt (D * wc) total HD0 ltac:(lia)) as Hs.
  set (s := Z.quot (D * wc) total) in *.
  assert (E1 : pd * total < wd * D + wd) by nia.
  assert (E2 : pd * total * wc < (wd * D + wd) * wc) by nia.
  assert (E3 : pc * wd * total <= pd * wc * total) by nia.
  assert (E4 : wd * (D * wc) < wd * (total * s + total)) by nia.
  assert (E5 : wd * (pc * total) < wd * (total * s + total + wc)) by nia.
  assert (E6 : pc * total < total * s + total + wc) by nia.
  nia.
Qed.

Lemma childShare_preferred children newSize c :
  Forall P children -> Forall small children -> boxFits children newSize = true ->
  boxPreferredSize children primary <= newSize ->
  c ∈ children ->
  let s := childShare (distribute children newSize) c in
  if hasWeight c primary then preferredSize c primary - 1 <= s else preferredSize c primary <= s.
Proof.
  intros Hc Hsm [Hfp Hf]%boxFits_inv Hn Hin s. unfold s.
  pose proof (nonWeighted_le_preferred children Hc Hfp) as Hnw.
  pose proof (distribute_ok children newSize Hc Hfp ltac:(lia)) as Hds.
  set (ds := distribute children newSize) in *.
  destruct (ds_nonneg _ _ _ Hds) as (Hd0 & Hd1 & Hd2). unfold childShare.
  rewrite int_mul_fits by (by eapply share_fits). destruct (hasWeight c primary) eqn:Ew.
  2:{ destruct (stretchable c primary), (isLayoutStretch c primary); lia. }
  apply weighted_pos in Ew. pose proof (weight_le_total children c Hc Hin).
  pose proof (ds_weight _ _ _ Hds) as HW. pose proof (ds_preferred _ _ _ Hds ltac:(lia) Hn) as Hp.
  rewrite boxPreferredSize_primary in Hp by done. rewrite HW.
  pose proof (dominating_inv children Hc Hsm) as Hdom. unfold findDominatingChild in Hp.
  destruct (fold_left _ children _) as [[d|] r]; simpl in Hp.
  - destruct Hdom as (_ & _ & Hpd & Hwd & Hall). specialize (Hall c Hin Ew).
    eapply (share_short_by_one (preferredSize d primary) (weight d primary)); try done; lia.
  - destruct Hdom as (_ & Hall). rewrite (Hall c Hin Ew).
    pose proof (quot_nonneg (distributableSize ds * weight c primary)
      (childrenTotalWeight children primary) ltac:(apply Z.mul_nonneg_nonneg; lia) ltac:(lia)). lia.
Qed.

(** The values of the [int] expressions that [calcPrimaryGeometry()] and the
    functions it calls evaluate when there is enough space. *)
Definition primaryIntermediates (children : list W) (newSize : Z) : list Z :=
  let ds := distribute children newSize in
  let total := childrenTotalWeight children primary in
  [totalNonWeightedChildrenPreferredSize children primary;
   newSize - totalNonWeightedChildrenPreferredSize children primary;
   total;
   boxPreferredSize children primary;
   newSize - boxPreferredSize children primary;
   nonWeightedExtra ds;
   rubberBandExtra ds * countLayoutStretchChildren children primary;
   distributableSize ds]
  ++ match findDominatingChild children with
     | Some d => [preferredSize d primary * total; Z.quot (preferredSize d primary * total) (weight d primary)]
     | None => []
     end
  ++ map (fun c => distributableSize ds * weight c primary) children
  ++ map (childShare ds) children
  ++ positions 0 (map (childShare ds) children).

Lemma prefs_bound children N :
  Forall P children -> sumZ (map (fun c => preferredSize c primary) children) <= N ->
  totalNonWeightedChildrenPreferredSize children primary <= N /\
  forall c, c ∈ children -> preferredSize c primary <= N.
Proof.
  intros Hc HN. split.
  - etransitivity; [|exact HN]. apply sumZ_fmap_le. intros c Hin.
    pose proof (pref_nonneg c primary (Forall_at _ _ _ Hc Hin)). destruct (hasWeight c primary); lia.
  - intros c Hin. etransitivity; [|exact HN].
    apply sumZ_elem_le; [eapply Forall_map_intro; [|exact Hc]; eauto with yui|].
    apply list_elem_of_fmap; eauto.
Qed.

Lemma boxPreferredSize_bound children :
  Forall P children -> prefFits children = true ->
  0 <= boxPreferredSize children primary <= INT_MAX /\
  forall d, findDominatingChild children = Some d ->
    0 <= preferredSize d primary * childrenTotalWeight children primary <= INT_MAX /\
    0 <= Z.quot (preferredSize d primary * childrenTotalWeight children primary) (weight d primary)
      <= INT_MAX.
Proof.
  intros Hc Hf. pose proof (prefFits_at children Hf) as (HW & Hp & Hprod).
  destruct (prefs_bound children (totalPreferredSize children) Hc ltac:(done)) as [Hnw _].
  pose proof (totalWeight_nonneg children Hc). pose proof (nonWeightedSize_nonneg children Hc).
  pose proof (totalPreferredSize_nonneg children Hc).
  assert (Hd : forall d, findDominatingChild children = Some d ->
    0 <= preferredSize d primary * childrenTotalWeight children primary
      <= INT_MAX - totalPreferredSize children /\
    0 <= Z.quot (preferredSize d primary * childrenTotalWeight children primary) (weight d primary)
      <= INT_MAX - totalPreferredSize children).
  { intros d E. apply findDominatingChild_weighted in E as [Hin Hw].
    pose proof (Forall_at _ _ _ Hc Hin) as Hd. specialize (Hprod d Hin).
    pose proof (pref_nonneg d primary Hd). pose proof (weight_nonneg d primary Hd).
    set (x := preferredSize d primary * childrenTotalWeight children primary) in *.
    set (w := weight d primary) in *. assert (0 <= x) by (unfold x; nia).
    pose proof (quot_le_self x w ltac:(lia) ltac:(lia)).
    pose proof (quot_nonneg x w ltac:(lia) ltac:(lia)). lia. }
  split; [|intros d E; specialize (Hd d E); lia]. rewrite boxPreferredSize_primary by done.
  destruct (findDominatingChild children) as [d|]; [specialize (Hd d eq_refl)|]; lia.
Qed.

(** No [int] expression of the distribution overflows. *)
Lemma primaryIntermediates_fit children newSize :
  Forall P children -> boxFits children newSize = true ->
  totalNonWeightedChildrenPreferredSize children primary <= newSize ->
  Forall fits_int (primaryIntermediates children newSize).
Proof.
  intros Hc Hf Hd. unfold primaryIntermediates. pose proof (boxFits_inv _ _ Hf) as [Hfp Hfs].
  pose proof (distribute_ok children newSize Hc Hfp Hd) as Hds.
  pose proof (childShares_sum children newSize Hc Hf Hd) as [Hsum _].
  destruct (boxPreferredSize_bound children Hc Hfp) as [Hb Hdom].
  pose proof (prefFits_at children Hfp) as (HW & _ & _). pose proof (sharesFit_at _ _ Hfs) as [Hn _].
  pose proof (totalWeight_nonneg children Hc) as HW0.
  pose proof (nonWeightedSize_nonneg children Hc) as HN0.
  set (ds := distribute children newSize) in *.
  assert (Hnn : Forall (fun s => 0 <= s) (map (childShare ds) children)).
  { apply List.Forall_map, List.Forall_forall. intros c Hin%list_elem_of_In.
    by apply (childShare_nonneg ds children newSize). }
  destruct (ds_nonneg _ _ _ Hds) as (D0 & D1 & D2).
  pose proof (ds_rubber _ _ _ Hds) as Hr. pose proof (ds_extra _ _ _ Hds) as He.
  assert (0 <= countLayoutStretchChildren children primary) by apply countIf_nonneg.
  unfold fits_int, INT_MIN, INT_MAX in *. repeat apply Forall_app_2.
  - repeat constructor; nia.
  - destruct (findDominatingChild children) as [d|]; [|constructor].
    destruct (Hdom d eq_refl). repeat constructor; lia.
  - apply List.Forall_map, List.Forall_forall. intros c Hin%list_elem_of_In.
    by apply (share_fits ds children newSize).
  - apply List.Forall_forall. intros s Hin%list_elem_of_In.
    pose proof (sumZ_elem_le s _ Hnn Hin). pose proof (Forall_at _ _ _ Hnn Hin). simpl in *. lia.
  - apply Forall_lookup_2. intros i p Hl.
    destruct (map (childShare ds) children !! i) as [s|] eqn:Es.
    + destruct (positions_inside _ _ _ _ _ Hnn Hl Es).
      pose proof (Forall_lookup_1 _ _ _ _ Hnn Es). simpl in *. lia.
    + apply lookup_lt_Some in Hl. apply lookup_ge_None in Es. rewrite length_positions in Hl. lia.
Qed.

Lemma setSize_at reverseLayout children newWidth newHeight i r :
  Forall P children -> 0 <= newWidth -> 0 <= newHeight ->
  boxFits children (primarySize newWidth newHeight) = true ->
  setSize reverseLayout children newWidth newHeight !! i = Some r ->
  rect_inside newWidth newHeight r /\ rect_nonneg r.
Proof.
  intros Hc HW HH Hi Hr. apply setSize_lookup in Hr as (x & Hg & Ex).
  unfold rect_inside, rect_nonneg, primarySize in *. destruct primary eqn:Ep; destruct Hg as [Hg1 Hg2].
  - apply primaryInterval_inside in Hg1; [|done..]. apply secondaryInterval_inside in Hg2; [|done..].
    destruct reverseLayout; lia.
  - apply primaryInterval_inside in Hg2; [|done..]. apply secondaryInterval_inside in Hg1; [|done..].
    destruct reverseLayout; lia.
Qed.

Lemma setSize_apart reverseLayout children newWidth newHeight i j r1 r2 :
  Forall P children -> boxFits children (primarySize newWidth newHeight) = true -> (i < j)%nat ->
  setSize reverseLayout children newWidth newHeight !! i = Some r1 ->
  setSize reverseLayout children newWidth newHeight !! j = Some r2 ->
  rects_disjoint r1 r2.
Proof.
  intros Hc Hi Hij H1 H2.
  apply setSize_lookup in H1 as (x1 & Hg1 & Ex1). apply setSize_lookup in H2 as (x2 & Hg2 & Ex2).
  unfold rects_disjoint, primarySize in *. destruct primary eqn:Ep; destruct Hg1 as [Ha1 Hb1], Hg2 as [Ha2 Hb2].
  - pose proof (primaryInterval_disjoint _ _ _ _ _ _ _ _ Hc Hi Hij Ha1 Ha2).
    destruct reverseLayout; lia.
  - pose proof (primaryInterval_disjoint _ _ _ _ _ _ _ _ Hc Hi Hij Hb1 Hb2). lia.
Qed.

(** Without weights, no child of a box of at least its preferred size is cut
    in either dimension. *)
Lemma primary_uncut children newSize i c p s :
  Forall P children -> prefFits children = true -> boxPreferredSize children primary <= newSize ->
  hasWeight c primary = false -> children !! i = Some c ->
  primaryInterval children newSize i p s -> preferredSize c primary <= s.
Proof.
  intros Hc Hf Hn Hw Hi [Hs _]. pose proof (nonWeighted_le_preferred children Hc Hf).
  rewrite primarySizes_enough, list_lookup_fmap, Hi in Hs by lia. simplify_eq/=.
  destruct (ds_nonneg _ _ _ (distribute_ok children newSize Hc Hf ltac:(lia))) as (_ & ? & ?).
  unfold childShare. rewrite Hw.
  destruct (stretchable c primary), (isLayoutStretch c primary); lia.
Qed.

Lemma secondary_uncut children newSize i c p s :
  childrenMaxPreferredSize children secondary <= newSize ->
  children !! i = Some c ->
  secondaryInterval children newSize i p s -> preferredSize c secondary <= s.
Proof.
  intros Hn Hi (c' & Hi' & E). rewrite Hi in Hi'. injection Hi' as <-.
  pose proof (proj2 (childrenMaxPreferredSize_ge children secondary) c
                (list_elem_of_lookup_2 _ _ _ Hi)) as Hmax.
  unfold secondaryGeometry in E.
  destruct (stretchable c secondary || _ || _); simplify_eq; lia.
Qed.

Lemma boxPreferredSize_secondary children :
  boxPreferredSize children secondary = childrenMaxPreferredSize children secondary.
Proof. unfold boxPreferredSize. by rewrite decide_True. Qed.

Lemma setSize_uncut reverseLayout children newWidth newHeight i c r :
  Forall P children -> prefFits children = true ->
  boxPreferredSize children YD_HORIZ <= newWidth -> boxPreferredSize children YD_VERT <= newHeight ->
  hasWeight c primary = false -> children !! i = Some c ->
  setSize reverseLayout children newWidth newHeight !! i = Some r ->
  preferredSize c YD_HORIZ <= rw r /\ preferredSize c YD_VERT <= rh r.
Proof.
  intros Hc Hf HW HH Hw Hi Hr. apply setSize_lookup in Hr as (x & Hg & _).
  pose proof (primary_uncut children) as Hp. pose proof (secondary_uncut children) as Hs.
  pose proof (boxPreferredSize_secondary children) as Hsec. unfold secondary in Hs, Hsec.
  destruct primary eqn:Ep; simpl in Hsec, Hs; rewrite Hsec in *; destruct Hg as [Hg1 Hg2].
  - split; [by eapply Hp|]. by eapply Hs.
  - split; [by eapply Hs|by eapply Hp].
Qed.

(** ** Properties *)

(** A box keeps its children: every child gets exactly one rectangle, of
    non-negative size and inside the box, whether or not there is enough space
    and also in the mirrored layout, as long as the products of sizes and
    weights are in the range of [int]. *)
Theorem setSize_inside (reverseLayout : bool) (children : list W) (newWidth newHeight : Z) :
  Forall P children -> 0 <= newWidth -> 0 <= newHeight ->
  boxFits children (primarySize newWidth newHeight) = true ->
  length (setSize reverseLayout children newWidth newHeight) = length children /\
  Forall (fun r => rect_inside newWidth newHeight r /\ rect_nonneg r)
         (setSize reverseLayout children newWidth newHeight).
Proof.
  intros Hc HW HH Hf. split.
  { apply length_setSize; [done|]. apply prefFits_margins; [done|]. by eapply boxFits_inv. }
  apply Forall_lookup_2. intros i r Hr. by eapply setSize_at.
Qed.

(** No two children of a box overlap. *)
Theorem setSize_disjoint (reverseLayout : bool) (children : list W) (newWidth newHeight : Z)
    (i j : nat) (r1 r2 : Rect) :
  Forall P children -> boxFits children (primarySize newWidth newHeight) = true -> i <> j ->
  setSize reverseLayout children newWidth newHeight !! i = Some r1 ->
  setSize reverseLayout children newWidth newHeight !! j = Some r2 ->
  rects_disjoint r1 r2.
Proof.
  intros Hc Hi Hij H1 H2. destruct (Nat.lt_trichotomy i j) as [Hl|[?|Hl]]; [|done|].
  - by apply (setSize_apart reverseLayout children newWidth newHeight i j).
  - apply rects_disjoint_sym. by apply (setSize_apart reverseLayout children newWidth newHeight j i).
Qed.

(** C37: When the box is large enough for its children without weight and the
    products of sizes and weights are in the range of [int] ([boxFits]), no
    [int] expression of the computation overflows, and the children use all of
    the box up to a rounding remainder: less than one unit per weighted child
    if there are weighted children, else less than one unit per stretchable
    child. *)
Theorem primary_space_used (children : list W) (newSize : Z) :
  Forall P children -> boxFits children newSize = true ->
  totalNonWeightedChildrenPreferredSize children primary <= newSize ->
  let total := sumZ (primarySizes children newSize) in
  Forall fits_int (primaryIntermediates children newSize) /\
  total <= newSize /\
  (0 < childrenTotalWeight children primary ->
   newSize - total < countIf (fun c => hasWeight c primary) children) /\
  (childrenTotalWeight children primary <= 0 -> 0 < countStretchableChildren children primary ->
   newSize - total < countStretchableChildren children primary).
Proof.
  intros Hc Hf Hd. split; [by apply primaryIntermediates_fit|].
  rewrite primarySizes_enough by done. by apply childShares_sum.
Qed.

(** When the box is too small, no child gets more than its preferred
    size, children with a weight get nothing, and if cutting the margins of
    alignments is not enough the rest of the loss is spread so that the
    children fill the box exactly. *)
Theorem primary_cut_exact (children : list W) (newSize : Z) :
  Forall P children -> 0 <= newSize ->
  newSize < totalNonWeightedChildrenPreferredSize children primary ->
  reducibleMargins children <= INT_MAX ->
  Forall2 (fun s c => 0 <= s <= if hasWeight c primary then 0 else preferredSize c primary)
          (primarySizes children newSize) children /\
  (reducibleMargins children
     <= totalNonWeightedChildrenPreferredSize children primary - newSize ->
   sumZ (primarySizes children newSize) = newSize).
Proof.
  intros Hc Hn Hd Hi. rewrite primarySizes_cut by done.
  destruct (cutSizes_correct children _ Hc (proj2 (Z.lt_0_sub _ _) Hd) Hi) as [Hs Hf].
  split; [|rewrite Hs; lia].
  apply Forall2_fmap_r in Hf. revert Hc Hf. apply Forall2_strengthen.
  intros s c Hc. simpl. pose proof (strippedSize_range c Hc). unfold strippedSize in *.
  destruct (hasWeight c primary); lia.
Qed.

(** When the margins of the alignments are more than what is missing, the
    code means to keep the rest of the margins, but it truncates the scale
    factor before multiplying: all margins are dropped and the children leave
    exactly the kept margins unused. *)
Theorem primary_cut_margins_lost (children : list W) (newSize : Z) :
  Forall P children ->
  newSize < totalNonWeightedChildrenPreferredSize children primary ->
  reducibleMargins children <= INT_MAX ->
  let missing := totalNonWeightedChildrenPreferredSize children primary - newSize in
  missing < reducibleMargins children ->
  primarySizes children newSize = map strippedSize children /\
  newSize - sumZ (primarySizes children newSize) = reducibleMargins children - missing.
Proof.
  intros Hc Hd Hi missing Hm. rewrite primarySizes_cut by done.
  rewrite cutSizes_stripped by (unfold missing in *; done || lia). fold missing.
  rewrite Z.max_l by lia. unfold distributeLoss. simpl. split; [done|].
  rewrite strippedSize_sum. unfold missing. lia.
Qed.

(** The dominating child is a weighted child with the largest ratio of
    preferred size and weight; if there is none, no weighted child wants any
    space. The comparison of doubles in the code is exact for sizes and
    weights below 2^26. *)
Theorem findDominatingChild_max (children : list W) :
  Forall P children -> Forall small children ->
  match findDominatingChild children with
  | Some d => d ∈ children /\ 0 < weight d primary /\ 0 < preferredSize d primary /\
              forall c, c ∈ children -> 0 < weight c primary -> dominates d c
  | None => forall c, c ∈ children -> 0 < weight c primary -> preferredSize c primary = 0
  end.
Proof.
  intros Hc Hs. pose proof (dominating_inv children Hc Hs) as Hi. unfold findDominatingChild.
  destruct (fold_left _ children _) as [[d|] r]; simpl; naive_solver.
Qed.

(** A box that gets at least its preferred size gives every child without
    weight at least its preferred size, and every weighted child at least its
    preferred size minus one unit of rounding. *)
Theorem preferredSize_suffices (children : list W) (newSize : Z) :
  Forall P children -> Forall small children -> boxFits children newSize = true ->
  boxPreferredSize children primary <= newSize ->
  Forall2 (fun s c =>
             if hasWeight c primary then preferredSize c primary - 1 <= s
             else preferredSize c primary <= s)
          (primarySizes children newSize) children.
Proof.
  intros Hc Hsm Hf Hn.
  pose proof (nonWeighted_le_preferred children Hc (proj1 (boxFits_inv _ _ Hf))).
  rewrite primarySizes_enough by lia. apply Forall2_map_self.
  intros c Hin. by apply (childShare_preferred children newSize c).
Qed.

(** Weights are respected: the sizes of two weighted children are in the
    ratio of their weights, up to one unit of rounding. *)
Theorem weights_respected (children : list W) (newSize : Z) (i j : nat) (ci cj : W) (si sj : Z) :
  Forall P children -> boxFits children newSize = true ->
  totalNonWeightedChildrenPreferredSize children primary <= newSize ->
  children !! i = Some ci -> children !! j = Some cj ->
  hasWeight ci primary = true -> hasWeight cj primary = true ->
  primarySizes children newSize !! i = Some si -> primarySizes children newSize !! j = Some sj ->
  si * weight cj primary < sj * weight ci primary + weight ci primary.
Proof.
  intros Hc [Hfp Hfs]%boxFits_inv Hd Hi Hj Hwi Hwj. rewrite primarySizes_enough by done.
  rewrite !list_lookup_fmap, Hi, Hj. simpl. intros [= <-] [= <-].
  pose proof (distribute_ok children newSize Hc Hfp Hd) as Hds.
  set (ds := distribute children newSize) in *.
  apply list_elem_of_lookup_2 in Hi, Hj.
  pose proof (Forall_at _ _ _ Hc Hi) as Pi. pose proof (Forall_at _ _ _ Hc Hj) as Pj.
  pose proof (weight_le_total children ci Hc Hi) as Hle.
  destruct (ds_nonneg _ _ _ Hds) as (Hd0 & _ & _). pose proof (ds_weight _ _ _ Hds) as HW.
  pose proof (weighted_pos _ Hwi) as Ti. pose proof (weighted_pos _ Hwj) as Tj.
  pose proof (weightedShare_range ds ci Pi Hd0 ltac:(lia)) as [Hi1 _].
  pose proof (weightedShare_range ds cj Pj Hd0 ltac:(lia)) as [_ Hj2].
  rewrite Hwj in Hj2. unfold weightedShare in Hi1, Hj2. rewrite Hwi in Hi1. rewrite Hwj in Hj2.
  unfold childShare. rewrite Hwi, Hwj, !int_mul_fits by (by eapply share_fits).
  set (a := Z.quot (distributableSize ds * weight ci primary) _) in *.
  set (b := Z.quot (distributableSize ds * weight cj primary) _) in *.
  assert (totalWeight ds * (a * weight cj primary)
          < totalWeight ds * (b * weight ci primary + weight ci primary)) by nia.
  nia.
Qed.


(** The loop that spreads the loss always ends: as many runs as there are
    units missing (and one more) are enough, whatever the sizes are. *)
Theorem lossLoop_total (childSize : list Z) (tooSmall loserCount : Z) :
  lossLoop (S (Z.to_nat tooSmall)) childSize tooSmall loserCount tooSmall loserCount
  = Some (distributeLoss childSize tooSmall loserCount).
Proof.
  unfold distributeLoss.
  destruct (lossLoop_terminates (S (Z.to_nat tooSmall)) childSize tooSmall loserCount) as [r ->];
    [lia|done].
Qed.

(** The condition on the products holds as long as the box, the preferred
    sizes together and the weights together stay within 2^15. *)
Theorem small_boxFits (children : list W) (newSize : Z) :
  Forall P children -> 0 <= newSize <= 2 ^ 15 -> totalPreferredSize children <= 2 ^ 15 ->
  childrenTotalWeight children primary <= 2 ^ 15 -> boxFits children newSize = true.
Proof.
  intros Hc [Hn0 Hn] Hp HW. pose proof (totalWeight_nonneg children Hc) as HW0.
  pose proof (totalPreferredSize_nonneg children Hc).
  destruct (prefs_bound children (2 ^ 15) Hc Hp) as [_ Hpref].
  unfold boxFits, prefFits, sharesFit, INT_MAX. rewrite !andb_true_iff, !Z.leb_le.
  split; [split; [lia|]|split; [lia|]]; apply List.forallb_forall; intros c Hin%list_elem_of_In;
    apply Z.leb_le; pose proof (Forall_at _ _ _ Hc Hin) as Hpc.
  - pose proof (Hpref c Hin). pose proof (pref_nonneg c primary Hpc). nia.
  - pose proof (weight_le_total children c Hc Hin). pose proof (weight_nonneg c primary Hpc). nia.
Qed.

End Box.

(** ** The properties at concrete boxes *)

(** An HBox with two weighted children, a stretchable spacing and a fixed
    child. *)
Definition sampleBox : list ChildAttrs :=
  [plainChild 30 10 false false 1 0; spacingChild 0 0 true false;
   plainChild 50 12 false true 2 0; plainChild 20 8 false false 0 0].

(** Two alignments with margins and a fixed child. *)
Definition sampleAlignments : list ChildAttrs :=
  [alignmentChild 40 10 20 0; plainChild 25 10 false false 0 0; alignmentChild 15 10 4 0].

Example sampleBox_layout :
  setSize YD_HORIZ false sampleBox 200 20
  = [mkRect 0 5 30 10; mkRect 30 0 90 20; mkRect 120 0 60 20; mkRect 180 6 20 8].
Proof. reflexivity. Qed.

Lemma setSize_inside_witness :
  length (setSize YD_HORIZ true sampleBox 200 20) = 4%nat /\
  Forall (fun r => rect_inside 200 20 r /\ rect_nonneg r) (setSize YD_HORIZ true sampleBox 200 20).
Proof.
  apply (setSize_inside YD_HORIZ (P := fun c => childAttrs_okb c = true));
    [all_eval|zeval..].
Defined.

Lemma setSize_disjoint_witness : rects_disjoint (mkRect 0 5 30 10) (mkRect 120 0 60 20).
Proof.
  apply (setSize_disjoint YD_HORIZ (P := fun c => childAttrs_okb c = true)
           false sampleBox 200 20 0 2); [all_eval|zeval|done|zeval|zeval].
Defined.

Lemma primary_space_used_witness :
  200 - sumZ (primarySizes YD_HORIZ sampleBox 200)
  < countIf (fun c => hasWeight c YD_HORIZ) sampleBox.
Proof.
  destruct (primary_space_used YD_HORIZ (P := fun c => childAttrs_okb c = true) sampleBox 200)
    as (_ & _ & Hw & _); [all_eval|zeval|zeval|]. apply Hw. zeval.
Defined.

Lemma primary_cut_exact_witness : sumZ (primarySizes YD_HORIZ sampleAlignments 50) = 50.
Proof.
  apply (primary_cut_exact YD_HORIZ (P := fun c => childAttrs_okb c = true) sampleAlignments 50);
    [all_eval|zeval..].
Defined.

Lemma primary_cut_margins_lost_witness :
  primarySizes YD_HORIZ sampleAlignments 79 = [20; 25; 11] /\
  79 - sumZ (primarySizes YD_HORIZ sampleAlignments 79) = 23.
Proof.
  destruct (primary_cut_margins_lost YD_HORIZ (P := fun c => childAttrs_okb c = true)
              sampleAlignments 79) as [E1 E2]; [all_eval|zeval..|].
  split; [rewrite E1|rewrite E2]; zeval.
Defined.

Lemma findDominatingChild_max_witness :
  findDominatingChild YD_HORIZ sampleBox = Some (plainChild 30 10 false false 1 0) /\
  forall c, c ∈ sampleBox -> 0 < weight c YD_HORIZ ->
    dominates YD_HORIZ (plainChild 30 10 false false 1 0) c.
Proof.
  assert (E : findDominatingChild YD_HORIZ sampleBox = Some (plainChild 30 10 false false 1 0))
    by zeval.
  split; [exact E|].
  pose proof (findDominatingChild_max YD_HORIZ (P := fun c => childAttrs_okb c = true) sampleBox
                ltac:(all_eval) ltac:(all_eval)) as Hd.
  rewrite E in Hd. apply Hd.
Defined.

Lemma preferredSize_suffices_witness :
  Forall2 (fun s c => if hasWeight c YD_HORIZ then preferredSize c YD_HORIZ - 1 <= s
                      else preferredSize c YD_HORIZ <= s)
          (primarySizes YD_HORIZ sampleBox 110) sampleBox.
Proof.
  apply (preferredSize_suffices YD_HORIZ (P := fun c => childAttrs_okb c = true));
    [all_eval|all_eval|zeval|zeval].
Defined.

(** The unit of rounding is really lost: with weights 1 and 2 and a dominating
    child of size 1 and weight 2, the preferred size of the box is 1 and both
    children get nothing. *)
Example preferredSize_rounding :
  let children := [plainChild 0 1 false false 1 0; plainChild 1 1 false false 2 0] in
  boxPreferredSize YD_HORIZ children YD_HORIZ = 1 /\
  primarySizes YD_HORIZ children 1 = [0; 0].
Proof. split; reflexivity. Qed.

Lemma weights_respected_witness :
  let ci := plainChild 30 10 false false 1 0 in
  let cj := plainChild 50 12 false true 2 0 in
  30 * weight cj YD_HORIZ < 60 * weight ci YD_HORIZ + weight ci YD_HORIZ.
Proof.
  apply (weights_respected YD_HORIZ (P := fun c => childAttrs_okb c = true) sampleBox 200 0 2
    (plainChild 30 10 false false 1 0) (plainChild 50 12 false true 2 0) 30 60);
    [all_eval|zeval..].
Defined.

Lemma small_boxFits_witness : boxFits YD_HORIZ sampleBox 200 = true.
Proof.
  apply (small_boxFits YD_HORIZ (P := fun c => childAttrs_okb c = true)); [all_eval|zeval..].
Defined.

(** Without the bound the products overflow: two children with a weight of
    1,000,000 each in a box of 3000, and the first gets a negative size. *)
Example weights_overflow :
  let children := [plainChild 10 10 false false 1000000 0; plainChild 10 10 false false 1000000 0] in
  boxFits YD_HORIZ children 3000 = false /\
  primarySizes YD_HORIZ children 3000 = [-647; -647] /\
  primarySizes YD_HORIZ children 2000 = [1000; 1000].
Proof. split; [|split]; vm_compute; reflexivity. Qed.

End YLayoutBox.
