(* ===== verification/Alignment.v ===== *)
(** * YSpacing, YSingleChildContainerWidget, YSquash and YAlignment

    The layout helpers with no child or one child: what they answer to the
    questions of [YWidgetOps], given the answers of their child, and where
    [setSize()] puts the child. Models src/libyui/src/YSpacing.cc,
    YSingleChildContainerWidget.cc, YSquash.cc and YAlignment.cc. *)

From S2P Require Import Prelude CNum Geometry.

Module YSpacing.

Record YSpacingPrivate : Type := { dim : YUIDimension; size : Z }.

Definition preferredWidth (s : YSpacingPrivate) : Z :=
  match dim s with YD_HORIZ => size s | YD_VERT => 0 end.

Definition preferredHeight (s : YSpacingPrivate) : Z :=
  match dim s with YD_VERT => size s | YD_HORIZ => 0 end.

(** [YSpacing::size( dim )] *)
Definition sizeIn (s : YSpacingPrivate) (d : YUIDimension) : Z :=
  if decide (d = dim s) then size s else 0.

(** The constructor: the spacing is stretchable along its own dimension only. *)
Definition initialStretch (d : YUIDimension) (stretch : bool) : YBothDim bool :=
  setBothDim (setBothDim (BothDim false false) d stretch) (otherDim d) false.

Definition widgetClass (s : YSpacingPrivate) (stretch : YBothDim bool) : string :=
  if size s >? 0 then
    match dim s with YD_HORIZ => "YHSpacing" | YD_VERT => "YVSpacing" end
  else if bothDim stretch YD_HORIZ then "YHStretch"
  else if bothDim stretch YD_VERT then "YVStretch"
  else "YSpacing".

Lemma preferred_sizeIn s :
  preferredWidth s = sizeIn s YD_HORIZ /\ preferredHeight s = sizeIn s YD_VERT.
Proof.
  unfold preferredWidth, preferredHeight, sizeIn. destruct (dim s); split; reflexivity.
Qed.

End YSpacing.

Module YSingleChildContainerWidget.
Section Single.
Context {W : Type} `{YWidgetOps W}.

(** [hasChildren()] / [firstChild()] of a single child manager. *)
Definition preferredWidth (child : option W) : Z :=
  match child with Some c => preferredSize c YD_HORIZ | None => 0 end.

Definition preferredHeight (child : option W) : Z :=
  match child with Some c => preferredSize c YD_VERT | None => 0 end.

(** [own] is the widget's own flag, [YWidget::stretchable()]. *)
Definition stretchable (own : YBothDim bool) (child : option W) (d : YUIDimension) : bool :=
  match child with Some c => Geometry.stretchable c d | None => bothDim own d end.

(** The child gets the whole size; nothing moves it. *)
Definition setSize (child : option W) (width height : Z) : option Rect :=
  match child with Some _ => Some (mkRect 0 0 width height) | None => None end.

End Single.
End YSingleChildContainerWidget.

Module YSquash.
Section Squash.
Context {W : Type} `{YWidgetOps W}.

Definition stretchable (squash : YBothDim bool) (child : option W) (d : YUIDimension) : bool :=
  match child with
  | None => false
  | Some c => negb (bothDim squash d) && Geometry.stretchable c d
  end.

Definition widgetClass (squash : YBothDim bool) : string :=
  if hor squash && vert squash then "YHVSquash"
  else if hor squash then "YHSquash"
  else if vert squash then "YVSquash"
  else "YSquash_NoSquash".

End Squash.
End YSquash.

Module YAlignment.

Record YAlignmentPrivate : Type := {
  leftMargin : Z;
  rightMargin : Z;
  topMargin : Z;
  bottomMargin : Z;
  minWidth : Z;
  minHeight : Z;
  alignment : YBothDim YAlignmentType
}.

(** The constructor: no margins, no minimum size. *)
Definition newAlignment (horAlign vertAlign : YAlignmentType) : YAlignmentPrivate :=
  {| leftMargin := 0; rightMargin := 0; topMargin := 0; bottomMargin := 0;
     minWidth := 0; minHeight := 0; alignment := BothDim vertAlign horAlign |}.

(** The setters. *)
Definition setLeftMargin (a : YAlignmentPrivate) (x : Z) : YAlignmentPrivate :=
  {| leftMargin := x; rightMargin := rightMargin a; topMargin := topMargin a; bottomMargin := bottomMargin a;
     minWidth := minWidth a; minHeight := minHeight a; alignment := alignment a |}.
Definition setRightMargin (a : YAlignmentPrivate) (x : Z) : YAlignmentPrivate :=
  {| leftMargin := leftMargin a; rightMargin := x; topMargin := topMargin a; bottomMargin := bottomMargin a;
     minWidth := minWidth a; minHeight := minHeight a; alignment := alignment a |}.
Definition setTopMargin (a : YAlignmentPrivate) (x : Z) : YAlignmentPrivate :=
  {| leftMargin := leftMargin a; rightMargin := rightMargin a; topMargin := x; bottomMargin := bottomMargin a;
     minWidth := minWidth a; minHeight := minHeight a; alignment := alignment a |}.
Definition setBottomMargin (a : YAlignmentPrivate) (x : Z) : YAlignmentPrivate :=
  {| leftMargin := leftMargin a; rightMargin := rightMargin a; topMargin := topMargin a; bottomMargin := x;
     minWidth := minWidth a; minHeight := minHeight a; alignment := alignment a |}.
Definition setMinWidth (a : YAlignmentPrivate) (x : Z) : YAlignmentPrivate :=
  {| leftMargin := leftMargin a; rightMargin := rightMargin a; topMargin := topMargin a; bottomMargin := bottomMargin a;
     minWidth := x; minHeight := minHeight a; alignment := alignment a |}.
Definition setMinHeight (a : YAlignmentPrivate) (x : Z) : YAlignmentPrivate :=
  {| leftMargin := leftMargin a; rightMargin := rightMargin a; topMargin := topMargin a; bottomMargin := bottomMargin a;
     minWidth := minWidth a; minHeight := x; alignment := alignment a |}.

(** [addChild()]: a minimum size makes the new child stretchable. *)
Definition addChild (a : YAlignmentPrivate) (childStretch : YBothDim bool) : YBothDim bool :=
  let s := if minWidth a >? 0 then setBothDim childStretch YD_HORIZ true else childStretch in
  if minHeight a >? 0 then setBothDim s YD_VERT true else s.

Definition totalMargins (a : YAlignmentPrivate) (d : YUIDimension) : Z :=
  match d with
  | YD_HORIZ => leftMargin a + rightMargin a
  | YD_VERT => topMargin a + bottomMargin a
  end.

(** The table of class names; [None] is a null pointer. *)
Definition classNames : list (list (option string)) :=
  [[Some "YAlignment_Left"; Some "YAlignment_HCenter"; Some "YAlignment_Right";
    Some "YMarginBox"; Some "YMinWidth"];
   [Some "YAlignment_Top"; Some "YAlignment_VCenter"; Some "YAlignment_Bottom";
    Some "YMarginBox"; Some "YMinHeight"];
   [None; Some "YAlignment_HVCenter"; None; Some "YAlignment"; Some "YMinSize"]].

(** The row and column picked, in the order of the code's assignments. *)
Definition classIndex (a : YAlignmentPrivate) : nat * nat :=
  let h := hor (alignment a) in
  let v := vert (alignment a) in
  let '(vIndex, hIndex) :=
    match h with
    | YAlignBegin => (0, 0)
    | YAlignEnd => (0, 2)
    | YAlignCenter => (match v with YAlignCenter => 2 | _ => 0 end, 1)
    | YAlignUnchanged =>
        match v with
        | YAlignBegin => (1, 0)
        | YAlignEnd => (1, 2)
        | YAlignCenter => (1, 1)
        | YAlignUnchanged => (2, 3)
        end
    end%nat in
  if decide (h = YAlignUnchanged /\ v = YAlignUnchanged) then
    let '(vIndex, hIndex) :=
      if (leftMargin a >? 0) || (rightMargin a >? 0) || (topMargin a >? 0) || (bottomMargin a >? 0)
      then (0, 3)%nat else (vIndex, hIndex) in
    if (minWidth a >? 0) || (minHeight a >? 0) then
      if minWidth a =? 0 then (1, 4)%nat
      else if minHeight a =? 0 then (0, 4)%nat
      else (2, 4)%nat
    else (vIndex, hIndex)
  else (vIndex, hIndex).

Definition widgetClass (a : YAlignmentPrivate) : option string :=
  let '(vIndex, hIndex) := classIndex a in
  row ← classNames !! vIndex; name ← row !! hIndex; name.

Section Alignment.
Context {W : Type} `{YWidgetOps W}.

Definition stretchable (a : YAlignmentPrivate) (child : option W) (d : YUIDimension) : bool :=
  match bothDim (alignment a) d, child with
  | YAlignUnchanged, Some c => Geometry.stretchable c d
  | _, _ => true
  end.

Definition preferredWidth (a : YAlignmentPrivate) (child : option W) : Z :=
  match child with
  | None => minWidth a
  | Some c => Z.max (minWidth a) (preferredSize c YD_HORIZ + (leftMargin a + rightMargin a))
  end.

Definition preferredHeight (a : YAlignmentPrivate) (child : option W) : Z :=
  match child with
  | None => minHeight a
  | Some c => Z.max (minHeight a) (preferredSize c YD_VERT + (topMargin a + bottomMargin a))
  end.

(** The body of the loop over the two dimensions: size, offset and total
    margin for one dimension. *)
Definition childSpace (a : YAlignmentPrivate) (child : W) (d : YUIDimension) (newSize : Z)
  : Z * Z * Z :=
  let offset := match d with YD_HORIZ => leftMargin a | YD_VERT => topMargin a end in
  let totalMargin := totalMargins a d in
  let childPreferredSize := preferredSize child d in
  if newSize >=? childPreferredSize + totalMargin then
    (if Geometry.stretchable child d &&
        (bool_decide (bothDim (alignment a) d = YAlignUnchanged) || stretchable a (Some child) d)
     then newSize - totalMargin else childPreferredSize, offset, totalMargin)
  else if newSize >=? childPreferredSize then
    if totalMargin >? 0 then
      let remaining := newSize - childPreferredSize in
      (childPreferredSize, Z.quot (remaining * offset) totalMargin, remaining)
    else (childPreferredSize, offset, totalMargin)
  else (newSize, 0, 0).

Definition childPos (a : YAlignmentPrivate) (d : YUIDimension)
    (newSize newChildSize offset totalMargin : Z) : Z :=
  match bothDim (alignment a) d with
  | YAlignCenter => Z.quot (newSize - newChildSize - totalMargin) 2
  | YAlignUnchanged | YAlignBegin => 0
  | YAlignEnd => newSize - newChildSize - totalMargin
  end + offset.

Definition placeChild (a : YAlignmentPrivate) (child : W) (d : YUIDimension) (newSize : Z) : Z * Z :=
  let '(size, offset, margin) := childSpace a child d newSize in
  (size, childPos a d newSize size offset margin).

Definition setSize (a : YAlignmentPrivate) (child : option W) (newWidth newHeight : Z)
  : option Rect :=
  match child with
  | None => None
  | Some c =>
      let '(w, x) := placeChild a c YD_HORIZ newWidth in
      let '(h, y) := placeChild a c YD_VERT newHeight in
      Some (mkRect x y w h)
  end.

Definition margins_ok (a : YAlignmentPrivate) : Prop :=
  0 <= leftMargin a /\ 0 <= rightMargin a /\ 0 <= topMargin a /\ 0 <= bottomMargin a.

(** The condition for stretching the child never depends on the alignment:
    an alignment other than "unchanged" makes the alignment itself
    stretchable. *)
Lemma stretch_condition a child d :
  (bool_decide (bothDim (alignment a) d = YAlignUnchanged) || stretchable a (Some child) d) = true.
Proof. unfold stretchable. by destruct (bothDim (alignment a) d). Qed.

Lemma placeChild_inside a child d newSize :
  margins_ok a -> 0 <= preferredSize child d -> 0 <= newSize ->
  let '(s, p) := placeChild a child d newSize in 0 <= s /\ 0 <= p /\ p + s <= newSize.
Proof.
  intros (Hl & Hr & Ht & Hb) Hp Hn. unfold placeChild, childSpace, childPos.
  set (o := match d with YD_HORIZ => leftMargin a | YD_VERT => topMargin a end).
  assert (Ho : 0 <= o <= totalMargins a d) by (unfold o, totalMargins; destruct d; lia).
  set (m := totalMargins a d) in *. rewrite !Z.geb_leb.
  assert (Hhalf : forall z, 0 <= z -> 0 <= Z.quot z 2 <= z).
  { intros z Hz. pose proof (quot_nonneg z 2 Hz). pose proof (quot_le_self z 2 Hz). lia. }
  destruct (Z.leb_spec (preferredSize child d + m) newSize).
  - rewrite stretch_condition, andb_true_r.
    set (s := if Geometry.stretchable child d then newSize - m else preferredSize child d).
    assert (0 <= s <= newSize - m) by (unfold s; destruct (Geometry.stretchable child d); lia).
    specialize (Hhalf (newSize - s - m)). destruct (bothDim (alignment a) d); lia.
  - destruct (Z.leb_spec (preferredSize child d) newSize).
    + rewrite Z.gtb_ltb. destruct (Z.ltb_spec 0 m); [|lia].
      set (r := newSize - preferredSize child d).
      assert (0 <= Z.quot (r * o) m <= r).
      { pose proof (quot_nonneg (r * o) m). pose proof (quot_mul_le (r * o) m). nia. }
      specialize (Hhalf (r - r)).
      destruct (bothDim (alignment a) d); lia.
    + specialize (Hhalf (newSize - newSize - 0)). destruct (bothDim (alignment a) d); lia.
Qed.

Lemma alignment_at a child newWidth newHeight r :
  margins_ok a -> 0 <= preferredSize child YD_HORIZ -> 0 <= preferredSize child YD_VERT ->
  0 <= newWidth -> 0 <= newHeight ->
  setSize a (Some child) newWidth newHeight = Some r ->
  rect_inside newWidth newHeight r /\ rect_nonneg r.
Proof.
  intros Hm Hpw Hph Hw Hh. unfold setSize, rect_inside, rect_nonneg.
  pose proof (placeChild_inside a child YD_HORIZ newWidth Hm Hpw Hw) as Hx.
  pose proof (placeChild_inside a child YD_VERT newHeight Hm Hph Hh) as Hy.
  destruct (placeChild a child YD_HORIZ newWidth) as [w x].
  destruct (placeChild a child YD_VERT newHeight) as [h y].
  intros [= <-]. simpl. lia.
Qed.

Lemma setSize_some a child newWidth newHeight : setSize a (Some child) newWidth newHeight <> None.
Proof. unfold setSize. by repeat case_match. Qed.

(** An alignment with non-negative margins keeps its child: the child is
    inside the alignment whatever size the alignment gets. *)
Theorem alignment_inside (a : YAlignmentPrivate) (child : W) (newWidth newHeight : Z) :
  margins_ok a -> 0 <= preferredSize child YD_HORIZ -> 0 <= preferredSize child YD_VERT ->
  0 <= newWidth -> 0 <= newHeight ->
  exists r, setSize a (Some child) newWidth newHeight = Some r /\
            rect_inside newWidth newHeight r /\ rect_nonneg r.
Proof.
  intros Hm Hpw Hph Hw Hh.
  destruct (setSize a (Some child) newWidth newHeight) as [r|] eqn:E.
  - exists r. split; [done|]. by apply (alignment_at a child).
  - by apply setSize_some in E.
Qed.

(** With enough space for the child and the margins, the child gets
    exactly its preferred size, or all the space inside the margins if it is
    stretchable; it starts at the left or top margin for "begin", ends at the
    right or bottom margin for "end", and for "center" the space left of it
    and right of it inside the margins differs by at most one unit. *)
Theorem alignment_position (a : YAlignmentPrivate) (child : W) (d : YUIDimension) (newSize : Z) :
  preferredSize child d + totalMargins a d <= newSize ->
  let '(s, p) := placeChild a child d newSize in
  let begin := match d with YD_HORIZ => leftMargin a | YD_VERT => topMargin a end in
  let free := newSize - totalMargins a d - s in
  s = (if Geometry.stretchable child d then newSize - totalMargins a d else preferredSize child d) /\
  match bothDim (alignment a) d with
  | YAlignUnchanged | YAlignBegin => p = begin
  | YAlignEnd => p = begin + free
  | YAlignCenter => 0 <= free - 2 * (p - begin) <= 1
  end.
Proof.
  intros Hn. unfold placeChild, childSpace. rewrite Z.geb_leb, (proj2 (Z.leb_le _ _) Hn).
  rewrite stretch_condition, andb_true_r. split; [done|]. unfold childPos.
  set (s := if Geometry.stretchable child d then _ else _).
  assert (0 <= newSize - s - totalMargins a d).
  { unfold s. destruct (Geometry.stretchable child d); lia. }
  pose proof (quot_mul_le (newSize - s - totalMargins a d) 2).
  pose proof (quot_mul_gt (newSize - s - totalMargins a d) 2).
  destruct (bothDim (alignment a) d); lia.
Qed.

End Alignment.

(** [widgetClass()] never returns one of the null entries of its table and
    never reads outside it. *)
Theorem widgetClass_not_null (a : YAlignmentPrivate) : exists name, widgetClass a = Some name.
Proof.
  unfold widgetClass, classIndex.
  destruct (alignment a) as [v h]. simpl.
  destruct (_ || _ || _ || _), (_ || _), (minWidth a =? 0), (minHeight a =? 0), h, v;
    simpl; try (rewrite decide_True by done); try (rewrite decide_False by naive_solver); eauto.
Qed.

Definition sampleAlignment : YAlignmentPrivate :=
  {| leftMargin := 4; rightMargin := 2; topMargin := 1; bottomMargin := 1;
     minWidth := 0; minHeight := 0; alignment := BothDim YAlignEnd YAlignCenter |}.

Lemma alignment_inside_witness :
  exists r, setSize sampleAlignment (Some (plainChild 20 20 false false 0 0)) 41 30 = Some r /\
            rect_inside 41 30 r /\ rect_nonneg r.
Proof.
  apply (alignment_inside sampleAlignment (plainChild 20 20 false false 0 0) 41 30); zeval.
Defined.

Lemma alignment_position_witness :
  let free := 41 - 6 - 20 in 0 <= free - 2 * (11 - 4) <= 1.
Proof.
  exact (proj2 (alignment_position sampleAlignment (plainChild 20 20 false false 0 0) YD_HORIZ 41
                  ltac:(zeval))).
Defined.

End YAlignment.
