(* ===== verification/LayoutTree.v ===== *)
(** * The layout of a whole widget tree

    Composes the layout classes: a tree of boxes, alignments, squashes, single
    child containers, spacings and leaves. A leaf is a widget whose size the
    UI plug-in decides ([preferredWidth()] and [preferredHeight()] of a
    button, an input field, ...); its natural size is part of the tree.
    [snapshot] is the dynamic dispatch of the virtual functions of YWidget
    (src/libyui/src/YWidget.cc): the answers of a widget, computed from the
    answers of its children. [layout] is the recursion of [setSize()]. *)

From S2P Require Import Prelude CNum Geometry LayoutBox Alignment.

(** The layout members of YWidgetPrivate. *)
Record YWidgetAttrs : Type := { stretch : YBothDim bool; weights : YBothDim Z }.

(** The initial values in the constructor of YWidgetPrivate. *)
Definition defaultAttrs : YWidgetAttrs :=
  {| stretch := BothDim false false; weights := BothDim 0 0 |}.

Definition setStretchable (a : YWidgetAttrs) (d : YUIDimension) (b : bool) : YWidgetAttrs :=
  {| stretch := setBothDim (stretch a) d b; weights := weights a |}.

Definition setDefaultStretchable (a : YWidgetAttrs) (d : YUIDimension) (b : bool) : YWidgetAttrs :=
  {| stretch := setBothDim (stretch a) d (bothDim (stretch a) d || b); weights := weights a |}.

Definition setWeight (a : YWidgetAttrs) (d : YUIDimension) (w : Z) : YWidgetAttrs :=
  {| stretch := stretch a; weights := setBothDim (weights a) d w |}.

Inductive widget : Type :=
| WLeaf (a : YWidgetAttrs) (size : YBothDim Z)
| WEmpty (a : YWidgetAttrs)
| WSpacing (a : YWidgetAttrs) (s : YSpacing.YSpacingPrivate)
| WSingle (a : YWidgetAttrs) (child : option widget)
| WSquash (a : YWidgetAttrs) (squash : YBothDim bool) (child : option widget)
| WAlignment (a : YWidgetAttrs) (al : YAlignment.YAlignmentPrivate) (child : option widget)
| WLayoutBox (a : YWidgetAttrs) (primary : YUIDimension) (children : list widget).

(** Induction over a tree, with the hypothesis for every child. *)
Section widget_ind.
Variable P : widget -> Prop.
Hypothesis Hleaf : forall a size, P (WLeaf a size).
Hypothesis Hempty : forall a, P (WEmpty a).
Hypothesis Hspacing : forall a s, P (WSpacing a s).
Hypothesis Hsingle : forall a child, option_Forall P child -> P (WSingle a child).
Hypothesis Hsquash : forall a squash child, option_Forall P child -> P (WSquash a squash child).
Hypothesis Halign : forall a al child, option_Forall P child -> P (WAlignment a al child).
Hypothesis Hbox : forall a primary children, Forall P children -> P (WLayoutBox a primary children).

Fixpoint widget_tree_ind (t : widget) : P t :=
  let opt (o : option widget) : option_Forall P o :=
    match o with
    | None => Forall_None P
    | Some c => Forall_Some P c (widget_tree_ind c)
    end in
  match t with
  | WLeaf a size => Hleaf a size
  | WEmpty a => Hempty a
  | WSpacing a s => Hspacing a s
  | WSingle a child => Hsingle a child (opt child)
  | WSquash a squash child => Hsquash a squash child (opt child)
  | WAlignment a al child => Halign a al child (opt child)
  | WLayoutBox a primary children =>
      Hbox a primary children
        ((fix all (cs : list widget) : Forall P cs :=
            match cs with
            | [] => List.Forall_nil P
            | c :: cs' => List.Forall_cons P c cs' (widget_tree_ind c) (all cs')
            end) children)
  end.
End widget_ind.

(** ** The virtual functions *)

Definition bothOf {A} (f : YUIDimension -> A) : YBothDim A := BothDim (f YD_VERT) (f YD_HORIZ).

Lemma bothDim_bothOf {A} (f : YUIDimension -> A) d : bothDim (bothOf f) d = f d.
Proof. by destruct d. Qed.

Definition attrsOf (a : YWidgetAttrs) (pref : YBothDim Z) (str : YBothDim bool) : ChildAttrs :=
  {| caPref := pref; caStretch := str; caWeight := weights a;
     caSpacing := false; caMargins := None |}.

Fixpoint snapshot (t : widget) : ChildAttrs :=
  match t with
  | WLeaf a size => attrsOf a size (stretch a)
  | WEmpty a => attrsOf a (BothDim 0 0) (stretch a)
  | WSpacing a s =>
      {| caPref := BothDim (YSpacing.preferredHeight s) (YSpacing.preferredWidth s);
         caStretch := stretch a; caWeight := weights a; caSpacing := true; caMargins := None |}
  | WSingle a child =>
      let c := match child with Some w => Some (snapshot w) | None => None end in
      attrsOf a
        (BothDim (YSingleChildContainerWidget.preferredHeight c)
                 (YSingleChildContainerWidget.preferredWidth c))
        (bothOf (YSingleChildContainerWidget.stretchable (stretch a) c))
  | WSquash a squash child =>
      let c := match child with Some w => Some (snapshot w) | None => None end in
      attrsOf a
        (BothDim (YSingleChildContainerWidget.preferredHeight c)
                 (YSingleChildContainerWidget.preferredWidth c))
        (bothOf (YSquash.stretchable squash c))
  | WAlignment a al child =>
      let c := match child with Some w => Some (snapshot w) | None => None end in
      {| caPref := BothDim (YAlignment.preferredHeight al c) (YAlignment.preferredWidth al c);
         caStretch := bothOf (YAlignment.stretchable al c);
         caWeight := weights a;
         caSpacing := false;
         caMargins := Some (bothOf (YAlignment.totalMargins al)) |}
  | WLayoutBox a primary children =>
      let cs := map snapshot children in
      attrsOf a (bothOf (YLayoutBox.boxPreferredSize primary cs))
                (bothOf (YLayoutBox.boxStretchable cs))
  end.

(** ** [setSize()] on a tree *)

(** Where the children of a widget end up, relative to the widget. *)
Inductive placed : Type := Placed (children : list (Rect * placed)).

Definition placedChildren (p : placed) : list (Rect * placed) := let 'Placed cs := p in cs.

Fixpoint layout (reverseLayout : bool) (t : widget) (newWidth newHeight : Z) : placed :=
  match t with
  | WLeaf _ _ | WEmpty _ | WSpacing _ _ => Placed []
  | WSingle _ child | WSquash _ _ child =>
      match child with
      | Some c => Placed [(mkRect 0 0 newWidth newHeight, layout reverseLayout c newWidth newHeight)]
      | None => Placed []
      end
  | WAlignment _ al child =>
      match child with
      | Some c =>
          match YAlignment.setSize al (Some (snapshot c)) newWidth newHeight with
          | Some r => Placed [(r, layout reverseLayout c (rw r) (rh r))]
          | None => Placed []
          end
      | None => Placed []
      end
  | WLayoutBox _ primary children =>
      Placed
        (zip_with (fun c r => (r, layout reverseLayout c (rw r) (rh r))) children
           (YLayoutBox.setSize primary reverseLayout (map snapshot children) newWidth newHeight))
  end.

(** [YDialog::doLayout()]: a dialog gets its preferred size. *)
Definition dialogLayout (reverseLayout : bool) (dialog : widget) : placed :=
  layout reverseLayout dialog
    (bothDim (caPref (snapshot dialog)) YD_HORIZ) (bothDim (caPref (snapshot dialog)) YD_VERT).

(** The rectangles of all widgets below a widget at ([x], [y]), in absolute
    coordinates. *)
Fixpoint absolute (x y : Z) (p : placed) : list Rect :=
  let 'Placed cs := p in
  flat_map (fun '(r, q) =>
    mkRect (x + rx r) (y + ry r) (rw r) (rh r) :: absolute (x + rx r) (y + ry r) q) cs.

(** ** Well-formed trees *)

Definition attrs_okb (a : YWidgetAttrs) : bool :=
  (0 <=? vert (weights a)) && (0 <=? hor (weights a)).

Definition alignment_okb (al : YAlignment.YAlignmentPrivate) : bool :=
  (0 <=? YAlignment.leftMargin al) && (0 <=? YAlignment.rightMargin al) &&
  (0 <=? YAlignment.topMargin al) && (0 <=? YAlignment.bottomMargin al).

(** No negative sizes, weights or margins; every alignment has its child; and
    the sizes, and the products of sizes and weights the boxes compute in a
    dialog of at most [maxWidth] x [maxHeight], are in the range of [int]. *)
Fixpoint wfb (maxWidth maxHeight : Z) (t : widget) : bool :=
  match t with
  | WLeaf a size =>
      attrs_okb a && (0 <=? vert size) && (0 <=? hor size) &&
      (vert size <=? INT_MAX) && (hor size <=? INT_MAX)
  | WEmpty a => attrs_okb a
  | WSpacing a s => attrs_okb a && (0 <=? YSpacing.size s) && (YSpacing.size s <=? INT_MAX)
  | WSingle a child | WSquash a _ child =>
      attrs_okb a && match child with Some c => wfb maxWidth maxHeight c | None => true end
  | WAlignment a al child =>
      attrs_okb a && alignment_okb al &&
      match child with
      | Some c =>
          wfb maxWidth maxHeight c &&
          (YAlignment.preferredWidth al (Some (snapshot c)) <=? INT_MAX) &&
          (YAlignment.preferredHeight al (Some (snapshot c)) <=? INT_MAX)
      | None => false
      end
  | WLayoutBox a primary children =>
      attrs_okb a && forallb (wfb maxWidth maxHeight) children &&
      YLayoutBox.boxFits primary (map snapshot children)
        (YLayoutBox.primarySize primary maxWidth maxHeight)
  end.

Abbreviation ok := (fun c => childAttrs_okb c = true).

Lemma attrs_ok_weight a d : attrs_okb a = true -> 0 <= bothDim (weights a) d.
Proof. unfold attrs_okb. rewrite andb_true_iff, !Z.leb_le. destruct d; simpl; lia. Qed.

Lemma alignment_ok_margins al : alignment_okb al = true -> YAlignment.margins_ok al.
Proof.
  unfold alignment_okb, YAlignment.margins_ok. rewrite !andb_true_iff, !Z.leb_le. naive_solver.
Qed.

Lemma alignment_ok_total al d : alignment_okb al = true -> 0 <= YAlignment.totalMargins al d.
Proof.
  intros (? & ? & ? & ?)%alignment_ok_margins. unfold YAlignment.totalMargins. destruct d; lia.
Qed.

Lemma ok_pref_nonneg (c : ChildAttrs) d : ok c -> 0 <= preferredSize c d.
Proof. apply (pref_nonneg (P := ok)). Qed.

Lemma wf_children_ok maxWidth maxHeight children :
  Forall (fun t => wfb maxWidth maxHeight t = true -> ok (snapshot t)) children ->
  forallb (wfb maxWidth maxHeight) children = true -> Forall ok (map snapshot children).
Proof.
  induction 1 as [|t children Ht Hall IH]; simpl; rewrite ?andb_true_iff; constructor; naive_solver.
Qed.

(** A well-formed tree keeps the promises of [LayoutLaws]. *)
Lemma snapshot_ok maxWidth maxHeight t : wfb maxWidth maxHeight t = true -> ok (snapshot t).
Proof.
  induction t as [a size|a|a s|a child IH|a squash child IH|a al child IH|a primary children IH]
    using widget_tree_ind; simpl; rewrite ?andb_true_iff, ?Z.leb_le.
  all: intros Hwf; apply childAttrs_ok_intro; simpl;
    [|intros d; apply attrs_ok_weight; naive_solver|try done].
  - intros []; simpl; lia.
  - intros []; simpl; lia.
  - unfold YSpacing.preferredHeight, YSpacing.preferredWidth.
    intros []; simpl; destruct (YSpacing.dim s); lia.
  - destruct IH as [|c IH]; [intros []; simpl; lia|]. destruct Hwf as [_ Hc].
    intros d. pose proof (ok_pref_nonneg _ d (IH Hc)). by destruct d.
  - destruct IH as [|c IH]; [intros []; simpl; lia|]. destruct Hwf as [_ Hc].
    intros d. pose proof (ok_pref_nonneg _ d (IH Hc)). by destruct d.
  - destruct IH as [|c IH]; [naive_solver|]. rewrite !andb_true_iff in Hwf.
    destruct Hwf as [[_ Hal] [[Hc _] _]].
    pose proof (alignment_ok_total al YD_HORIZ Hal). pose proof (alignment_ok_total al YD_VERT Hal).
    pose proof (ok_pref_nonneg _ YD_HORIZ (IH Hc)). pose proof (ok_pref_nonneg _ YD_VERT (IH Hc)).
    intros []; simpl in *; lia.
  - destruct IH as [|c IH]; [naive_solver|]. rewrite !andb_true_iff in Hwf.
    destruct Hwf as [[_ Hal] [[Hc _] _]].
    intros m d [= <-]. rewrite bothDim_bothOf. pose proof (alignment_ok_total al d Hal).
    pose proof (ok_pref_nonneg _ d (IH Hc)). destruct d; simpl in *; lia.
  - intros d. rewrite bothDim_bothOf. apply (YLayoutBox.boxPreferredSize_nonneg _ (P := ok)).
    + eapply wf_children_ok; naive_solver.
    + eapply YLayoutBox.boxFits_inv. naive_solver.
Qed.

(** ** Properties *)

#[local] Arguments YAlignment.setSize : simpl never.








(** ** Preferred sizes *)

Definition childrenOf (t : widget) : list widget :=
  match t with
  | WLeaf _ _ | WEmpty _ | WSpacing _ _ => []
  | WSingle _ child | WSquash _ _ child | WAlignment _ _ child => option_list child
  | WLayoutBox _ _ children => children
  end.

Definition attrs_weightlessb (a : YWidgetAttrs) : bool :=
  (vert (weights a) =? 0) && (hor (weights a) =? 0).

(** No widget of the tree has a weight. *)
Fixpoint weightlessb (t : widget) : bool :=
  match t with
  | WLeaf a _ | WEmpty a | WSpacing a _ => attrs_weightlessb a
  | WSingle a child | WSquash a _ child | WAlignment a _ child =>
      attrs_weightlessb a && match child with Some c => weightlessb c | None => true end
  | WLayoutBox a _ children => attrs_weightlessb a && forallb weightlessb children
  end.

(** Every widget below [t] was placed, with at least its preferred size. *)
Inductive uncut : widget -> placed -> Prop :=
| uncut_intro t cs :
    length cs = length (childrenOf t) ->
    (forall i c r q, childrenOf t !! i = Some c -> cs !! i = Some (r, q) ->
       preferredSize (snapshot c) YD_HORIZ <= rw r /\ preferredSize (snapshot c) YD_VERT <= rh r) ->
    (forall i c r q, childrenOf t !! i = Some c -> cs !! i = Some (r, q) -> uncut c q) ->
    uncut t (Placed cs).

Lemma weightless_hasWeight t d : weightlessb t = true -> hasWeight (snapshot t) d = false.
Proof.
  unfold hasWeight. destruct t; simpl; unfold attrs_weightlessb;
    rewrite ?andb_true_iff, ?Z.eqb_eq; intros Hw; rewrite Z.gtb_ltb; apply Z.ltb_ge;
    destruct d; simpl; lia.
Qed.

Lemma uncut_nil t : childrenOf t = [] -> uncut t (Placed []).
Proof. intros E. constructor; [by rewrite E|..]; intros i c r q _ E'; simpl in E'; done. Qed.

Lemma uncut_single t c r q :
  childrenOf t = [c] -> preferredSize (snapshot c) YD_HORIZ <= rw r ->
  preferredSize (snapshot c) YD_VERT <= rh r -> uncut c q -> uncut t (Placed [(r, q)]).
Proof. intros E H1 H2 Hq. constructor; rewrite E; [done|..]; intros [|i] c' r' q'; simpl; naive_solver. Qed.

Lemma alignment_uncut al c w h r :
  alignment_okb al = true ->
  YAlignment.preferredWidth al (Some (snapshot c)) <= w ->
  YAlignment.preferredHeight al (Some (snapshot c)) <= h ->
  YAlignment.setSize al (Some (snapshot c)) w h = Some r ->
  preferredSize (snapshot c) YD_HORIZ <= rw r /\ preferredSize (snapshot c) YD_VERT <= rh r.
Proof.
  intros Hal Hw Hh. unfold YAlignment.setSize, YAlignment.placeChild, YAlignment.childSpace.
  unfold YAlignment.preferredWidth, YAlignment.preferredHeight in *.
  rewrite !Z.geb_leb.
  pose proof (alignment_ok_total al YD_HORIZ Hal). pose proof (alignment_ok_total al YD_VERT Hal).
  rewrite (proj2 (Z.leb_le _ w)), (proj2 (Z.leb_le _ h)) by (simpl in *; lia).
  intros [= <-]. simpl in *. repeat case_match; lia.
Qed.

(** In a well-formed tree without weights, a widget that gets at least its
    preferred size gives every widget below it at least its preferred size. *)
Theorem preferred_uncut (reverseLayout : bool) (t : widget) (maxWidth maxHeight newWidth newHeight : Z) :
  wfb maxWidth maxHeight t = true -> weightlessb t = true ->
  preferredSize (snapshot t) YD_HORIZ <= newWidth ->
  preferredSize (snapshot t) YD_VERT <= newHeight ->
  uncut t (layout reverseLayout t newWidth newHeight).
Proof.
  revert newWidth newHeight.
  induction t as [a size|a|a s|a child IH|a squash child IH|a al child IH|a primary children IH]
    using widget_tree_ind; intros w h; simpl; rewrite ?andb_true_iff, ?Z.leb_le; intros Hwf Hwl Hw Hh;
    try (by apply uncut_nil).
  - destruct IH as [|c IH]; [by apply uncut_nil|]. eapply uncut_single; simpl; [done|done|done|naive_solver].
  - destruct IH as [|c IH]; [by apply uncut_nil|]. eapply uncut_single; simpl; [done|done|done|naive_solver].
  - destruct IH as [|c IH]; [by apply uncut_nil|]. rewrite !andb_true_iff in Hwf.
    destruct Hwf as [[_ Hal] [[Hc _] _]].
    destruct (YAlignment.setSize al (Some (snapshot c)) w h) as [r|] eqn:E;
      [|by destruct (YAlignment.setSize_some al (snapshot c) w h)].
    apply alignment_uncut in E as [? ?]; [|done..].
    eapply uncut_single; [done..|]. apply IH; naive_solver.
  - destruct Hwf as [[_ Hwf] Hi], Hwl as [_ Hwl].
    assert (Hok : Forall ok (map snapshot children)).
    { eapply wf_children_ok; [|exact Hwf]. apply List.Forall_forall. intros t _. apply snapshot_ok. }
    assert (Hat : forall i c r, children !! i = Some c ->
      YLayoutBox.setSize primary reverseLayout (map snapshot children) w h !! i = Some r ->
      wfb maxWidth maxHeight c = true /\ weightlessb c = true /\
      preferredSize (snapshot c) YD_HORIZ <= rw r /\ preferredSize (snapshot c) YD_VERT <= rh r).
    { intros i c r Hic Hr. pose proof (list_elem_of_lookup_2 _ _ _ Hic) as Hin%list_elem_of_In.
      pose proof (proj1 (List.forallb_forall _ _) Hwf c Hin).
      pose proof (proj1 (List.forallb_forall _ _) Hwl c Hin).
      split; [done|split; [done|]].
      apply (YLayoutBox.setSize_uncut primary (P := ok) reverseLayout (map snapshot children) w h i);
        [done|by eapply YLayoutBox.boxFits_inv|done|done|by apply weightless_hasWeight| |done].
      by rewrite list_lookup_fmap, Hic. }
    assert (YLayoutBox.reducibleMargins primary (map snapshot children) <= INT_MAX)
      by (apply (YLayoutBox.prefFits_margins primary (P := ok)); [done|by eapply YLayoutBox.boxFits_inv]).
    constructor; [rewrite length_zip_with, (YLayoutBox.length_setSize primary (P := ok)), length_map by done; simpl; lia|..];
      intros i c r q Hic E; rewrite lookup_zip_with in E; simpl in Hic; rewrite Hic in E;
      simpl in E; apply bind_Some in E as (r' & Hr & [= <- <-]);
      destruct (Hat i c r' Hic Hr) as (? & ? & ? & ?); [done|].
    apply (Forall_lookup_1 _ _ _ _ IH Hic); done.
Qed.

(** A dialog: a centred form with margins above a row of two buttons. *)
Definition sampleDialog : widget :=
  WSingle defaultAttrs (Some
    (WLayoutBox defaultAttrs YD_VERT
       [WAlignment defaultAttrs
          (YAlignment.Build_YAlignmentPrivate 3 4 5 6 0 0 (BothDim YAlignCenter YAlignCenter))
          (Some (WLeaf (setStretchable defaultAttrs YD_HORIZ true) (BothDim 20 80)));
        WSpacing defaultAttrs (YSpacing.Build_YSpacingPrivate YD_VERT 7);
        WLayoutBox defaultAttrs YD_HORIZ
          [WLeaf defaultAttrs (BothDim 10 30);
           WSquash defaultAttrs (BothDim true true) (Some (WLeaf defaultAttrs (BothDim 10 40)))]])).


Lemma preferred_uncut_witness :
  uncut sampleDialog (dialogLayout false sampleDialog) /\
  absolute 0 0 (dialogLayout false sampleDialog) =
    [mkRect 0 0 87 48; mkRect 0 0 87 31; mkRect 3 5 80 20; mkRect 0 31 87 7;
     mkRect 8 38 70 10; mkRect 8 38 30 10; mkRect 38 38 40 10; mkRect 38 38 40 10].
Proof. split; [apply (preferred_uncut false sampleDialog 1000 1000); zeval|vm_compute; reflexivity]. Defined.
