(* ===== verification/Shortcut.v ===== *)
(** * Keyboard shortcuts in label strings

    src/libyui/src/YShortcut.cc and YShortcut.h: a label such as
    ["&Details..."] marks its shortcut character with ['&']; ["&&"] is an
    escaped ampersand. A [std::string] is the list of its bytes. The loops of
    the code move a position through the string; each has a reference
    definition by recursion on the string, and the two are proved equal. *)

From S2P Require Import Prelude.
From Stdlib Require Import Ascii.

Abbreviation cstring := (list ascii).

(** A string literal. *)
Definition str (s : string) : cstring := String.list_ascii_of_string s.

(** The value of a [char]. The code compares characters only with ASCII
    characters, so the signedness of [char] does not matter. *)
Definition code (c : ascii) : Z := Z.of_N (N_of_ascii c).
Definition char_of (z : Z) : ascii := ascii_of_N (Z.to_N z).

Definition shortcutMarker : ascii := "&"%char.

(** ** Strings *)

(** [str.find( c, pos )]; [None] is [string::npos]. *)
Fixpoint find_char (c : ascii) (s : cstring) (pos : nat) : option nat :=
  match s with
  | [] => None
  | x :: s' =>
      match pos with
      | O => if decide (x = c) then Some O else S <$> find_char c s' O
      | S pos' => S <$> find_char c s' pos'
      end
  end.

(** [str.find_first_of( set )]. *)
Fixpoint find_first_of (set s : cstring) : option nat :=
  match s with
  | [] => None
  | x :: s' => if decide (x ∈ set) then Some O else S <$> find_first_of set s'
  end.

(** [str.erase( pos, 1 )] for a valid position. *)
Definition erase1 (s : cstring) (pos : nat) : cstring := take pos s ++ drop (S pos) s.

(** [str.insert( pos, string( 1, c ) )] for a valid position. *)
Definition insert1 (s : cstring) (pos : nat) (c : ascii) : cstring := take pos s ++ c :: drop pos s.

(** [tolower()] and [toupper()] of the C locale. *)
Definition toupper (c : ascii) : ascii :=
  if (97 <=? code c) && (code c <=? 122) then char_of (code c - 32) else c.
Definition tolower (c : ascii) : ascii :=
  if (65 <=? code c) && (code c <=? 90) then char_of (code c + 32) else c.

Module YShortcut.

(** ** Finding and removing the markers *)

(** The loop of [findShortcutPos()]; [None] is a loop that ran out of fuel. *)
Fixpoint findShortcutPos_loop (fuel : nat) (s : cstring) (pos : nat) : option (option nat) :=
  match fuel with
  | O => None
  | S fuel' =>
      match find_char shortcutMarker s pos with
      | None => Some None
      | Some pos =>
          match s !! (pos + 1)%nat with
          | Some c =>
              if decide (c = shortcutMarker) then findShortcutPos_loop fuel' s (pos + 2)
              else Some (Some pos)
          | None => Some None
          end
      end
  end.

Definition findShortcutPos (s : cstring) (pos : nat) : option nat :=
  default None (findShortcutPos_loop (S (length s)) s pos).

Definition findShortcut (s : cstring) (pos : nat) : ascii :=
  match findShortcutPos s pos with
  | None => "000"%char
  | Some pos => default "000"%char (s !! (pos + 1)%nat)
  end.

Fixpoint cleanShortcutString_loop (fuel : nat) (s : cstring) (pos : nat) : option cstring :=
  match fuel with
  | O => None
  | S fuel' =>
      match findShortcutPos s pos with
      | Some pos => cleanShortcutString_loop fuel' (erase1 s pos) pos
      | None => Some s
      end
  end.

Definition cleanShortcutString (s : cstring) : cstring :=
  default [] (cleanShortcutString_loop (S (length s)) s 0).

(** ** Shortcut characters *)

Definition isValid (c : ascii) : bool :=
  ((97 <=? code c) && (code c <=? 122)) ||
  ((65 <=? code c) && (code c <=? 90)) ||
  ((48 <=? code c) && (code c <=? 57)).

Definition normalized (c : ascii) : ascii :=
  if (97 <=? code c) && (code c <=? 122) then char_of (code c - 97 + 65)
  else if (65 <=? code c) && (code c <=? 90) then c
  else if (48 <=? code c) && (code c <=? 57) then c
  else "000"%char.

(** The new label computed by [setShortcut()], [None] if the character does
    not occur in the label. *)
Definition markedString (clean : cstring) (newShortcut : ascii) : option cstring :=
  if decide (newShortcut = "000"%char) then Some clean
  else
    match find_first_of [tolower newShortcut; toupper newShortcut] clean with
    | None => None
    | Some pos => Some (insert1 clean pos shortcutMarker)
    end.

(** The counting of [distinctShortcutChars()]: the [contained] array, one flag
    for each [char] value. *)
Definition markContained (contained : list bool) (c : ascii) : list bool :=
  if isValid c then <[Z.to_nat (code c) := true]> contained else contained.

Definition countDistinct (clean : cstring) : Z :=
  Z.of_nat (length (filter (fun b : bool => b = true)
                           (fold_left markContained clean (replicate 256 false)))).

Definition existsValid (clean : cstring) : bool := existsb isValid clean.

(** ** Shortcut objects

    A YShortcut of a widget or of an item. [target] is the string that
    [getShortcutString()] reads and [setShortcut()] writes: the shortcut
    property of the widget, or the label of the item. Every operation returns
    its value and the object with its caches updated. *)

Record YShortcut : Type := mkShortcut {
  target : cstring;
  isButton : bool;
  isWizardButton : bool;
  isMenuItem : bool;
  _shortcutString : cstring;
  _shortcutStringCached : bool;
  _cleanShortcutString : cstring;
  _cleanShortcutStringCached : bool;
  _preferred : Z;
  _shortcut : Z;
  _distinctShortcutChars : Z;
  _conflict : bool
}.

(** Both constructors; [wizardClass] is the test of [widgetClass()]. *)
Definition newShortcut (label : cstring) (button wizardClass menuItem : bool) : YShortcut :=
  mkShortcut label button (button && wizardClass) menuItem [] false [] false (-1) (-1) (-1) false.

(** A [char] stored in an [int] member, and back: [char] is signed. *)
Definition int_of (c : ascii) : Z := if code c <? 128 then code c else code c - 256.
Definition char_of_int (z : Z) : ascii := char_of (z mod 256).

Definition shortcutString (sc : YShortcut) : cstring * YShortcut :=
  if _shortcutStringCached sc then (_shortcutString sc, sc)
  else
    (target sc,
     mkShortcut (target sc) (isButton sc) (isWizardButton sc) (isMenuItem sc)
       (target sc) true (_cleanShortcutString sc) (_cleanShortcutStringCached sc)
       (_preferred sc) (_shortcut sc) (_distinctShortcutChars sc) (_conflict sc)).

Definition cleanString (sc : YShortcut) : cstring * YShortcut :=
  if _cleanShortcutStringCached sc then (_cleanShortcutString sc, sc)
  else
    let '(s, sc) := shortcutString sc in
    (cleanShortcutString s,
     mkShortcut (target sc) (isButton sc) (isWizardButton sc) (isMenuItem sc)
       (_shortcutString sc) (_shortcutStringCached sc) (cleanShortcutString s)
       (_cleanShortcutStringCached sc)
       (_preferred sc) (_shortcut sc) (_distinctShortcutChars sc) (_conflict sc)).

Definition preferred (sc : YShortcut) : ascii * YShortcut :=
  if _preferred sc <? 0 then
    let '(s, sc) := shortcutString sc in
    let c := normalized (findShortcut s 0) in
    (c,
     mkShortcut (target sc) (isButton sc) (isWizardButton sc) (isMenuItem sc)
       (_shortcutString sc) (_shortcutStringCached sc) (_cleanShortcutString sc)
       (_cleanShortcutStringCached sc)
       (int_of c) (_shortcut sc) (_distinctShortcutChars sc) (_conflict sc))
  else (char_of_int (_preferred sc), sc).

Definition shortcut (sc : YShortcut) : ascii * YShortcut :=
  if _shortcut sc <? 0 then
    let '(c, sc) := preferred sc in
    (c,
     mkShortcut (target sc) (isButton sc) (isWizardButton sc) (isMenuItem sc)
       (_shortcutString sc) (_shortcutStringCached sc) (_cleanShortcutString sc)
       (_cleanShortcutStringCached sc)
       (_preferred sc) (int_of c) (_distinctShortcutChars sc) (_conflict sc))
  else (char_of_int (_shortcut sc), sc).

Definition setShortcut (sc : YShortcut) (newShortcut : ascii) : YShortcut :=
  let '(clean, sc) := cleanString sc in
  match markedString clean newShortcut with
  | None => sc
  | Some s =>
      mkShortcut s (isButton sc) (isWizardButton sc) (isMenuItem sc)
        (_shortcutString sc) false (_cleanShortcutString sc) false
        (_preferred sc) (int_of newShortcut) (_distinctShortcutChars sc) (_conflict sc)
  end.

Definition clearShortcut (sc : YShortcut) : YShortcut := setShortcut sc "000"%char.

Definition setConflict (sc : YShortcut) (newConflictState : bool) : YShortcut :=
  mkShortcut (target sc) (isButton sc) (isWizardButton sc) (isMenuItem sc)
    (_shortcutString sc) (_shortcutStringCached sc) (_cleanShortcutString sc)
    (_cleanShortcutStringCached sc)
    (_preferred sc) (_shortcut sc) (_distinctShortcutChars sc) newConflictState.

Definition distinctShortcutChars (sc : YShortcut) : Z * YShortcut :=
  if _distinctShortcutChars sc <? 0 then
    let '(clean, sc) := cleanString sc in
    (countDistinct clean,
     mkShortcut (target sc) (isButton sc) (isWizardButton sc) (isMenuItem sc)
       (_shortcutString sc) (_shortcutStringCached sc) (_cleanShortcutString sc)
       (_cleanShortcutStringCached sc)
       (_preferred sc) (_shortcut sc) (countDistinct clean) (_conflict sc))
  else (_distinctShortcutChars sc, sc).

Definition hasValidShortcutChar (sc : YShortcut) : bool * YShortcut :=
  let '(clean, sc) := cleanString sc in (existsValid clean, sc).

(** Whatever the caller does with one object. *)
Inductive step : YShortcut -> YShortcut -> Prop :=
| step_shortcutString sc : step sc (shortcutString sc).2
| step_cleanString sc : step sc (cleanString sc).2
| step_preferred sc : step sc (preferred sc).2
| step_shortcut sc : step sc (shortcut sc).2
| step_distinct sc : step sc (distinctShortcutChars sc).2
| step_hasValid sc : step sc (hasValidShortcutChar sc).2
| step_setConflict sc b : step sc (setConflict sc b)
| step_clear sc : step sc (clearShortcut sc)
| step_set sc c : isValid c = true -> normalized c = c -> step sc (setShortcut sc c).

(** The shortcut character a label shows. *)
Definition labelShortcut (label : cstring) : ascii := normalized (findShortcut label 0).

(** ** Reference definitions *)

(** The position of the first marker in [s] that is neither escaped nor the
    last character, counted from [i]. *)
Fixpoint scanPos (s : cstring) (i : nat) : option nat :=
  match s with
  | [] => None
  | x :: r =>
      if decide (x = shortcutMarker) then
        match r with
        | [] => None
        | y :: r' => if decide (y = shortcutMarker) then scanPos r' (2 + i) else Some i
        end
      else scanPos r (1 + i)
  end.

(** The string without those markers. *)
Fixpoint unmark (s : cstring) : cstring :=
  match s with
  | [] => []
  | x :: r =>
      if decide (x = shortcutMarker) then
        match r with
        | [] => [x]
        | y :: r' => if decide (y = shortcutMarker) then x :: y :: unmark r' else y :: unmark r'
        end
      else x :: unmark r
  end.

(** Induction along the tokens of a label: ["&&"], ["&c"], a single character. *)
Lemma token_ind (P : cstring -> Prop) :
  P [] -> P [shortcutMarker] ->
  (forall r, P r -> P (shortcutMarker :: shortcutMarker :: r)) ->
  (forall y r, y <> shortcutMarker -> P r -> P (shortcutMarker :: y :: r)) ->
  (forall x r, x <> shortcutMarker -> P r -> P (x :: r)) ->
  forall s, P s.
Proof.
  intros H0 H1 H2 H3 H4 s.
  induction s as [s IH] using (well_founded_induction (Wf_nat.well_founded_ltof _ (@length ascii))).
  unfold Wf_nat.ltof in IH. destruct s as [|x r]; [done|].
  destruct (decide (x = shortcutMarker)) as [->|Hx]; [|apply H4; [done|apply IH; simpl; lia]].
  destruct r as [|y r]; [done|].
  destruct (decide (y = shortcutMarker)) as [->|Hy]; [apply H2|apply H3; [done|]];
    apply IH; simpl; lia.
Qed.

(** The reference definitions on each kind of token. *)
Lemma scanPos_escaped r i :
  scanPos (shortcutMarker :: shortcutMarker :: r) i = scanPos r (2 + i).
Proof. done. Qed.
Lemma scanPos_marked y r i : y <> shortcutMarker -> scanPos (shortcutMarker :: y :: r) i = Some i.
Proof. intros Hy. cbn [scanPos]. by rewrite decide_True, decide_False. Qed.
Lemma scanPos_plain x r i : x <> shortcutMarker -> scanPos (x :: r) i = scanPos r (1 + i).
Proof. intros Hx. cbn [scanPos]. by rewrite decide_False. Qed.
Lemma unmark_escaped r :
  unmark (shortcutMarker :: shortcutMarker :: r) = shortcutMarker :: shortcutMarker :: unmark r.
Proof. done. Qed.
Lemma unmark_marked y r : y <> shortcutMarker -> unmark (shortcutMarker :: y :: r) = y :: unmark r.
Proof. intros Hy. cbn [unmark]. by rewrite decide_True, decide_False. Qed.
Lemma unmark_plain x r : x <> shortcutMarker -> unmark (x :: r) = x :: unmark r.
Proof. intros Hx. cbn [unmark]. by rewrite decide_False. Qed.

Ltac tokens :=
  repeat first [rewrite scanPos_escaped|rewrite unmark_escaped
               |rewrite scanPos_marked by done|rewrite unmark_marked by done
               |rewrite scanPos_plain by done|rewrite unmark_plain by done].

Lemma find_char_drop c s pos :
  find_char c s pos = (fun k => pos + k)%nat <$> find_char c (drop pos s) 0.
Proof.
  revert pos; induction s as [|x s IH]; intros [|pos]; simpl; [done|done| |].
  - destruct (decide (x = c)); simpl; [done|]. by destruct (find_char c s 0).
  - rewrite IH. by destruct (find_char c (drop pos s) 0).
Qed.

Lemma find_char_spec c s :
  match find_char c s 0 with
  | None => c ∉ s
  | Some k => exists pre r, s = pre ++ c :: r /\ length pre = k /\ c ∉ pre
  end.
Proof.
  induction s as [|x s IH]; simpl; [apply not_elem_of_nil|].
  destruct (decide (x = c)) as [->|Hx].
  - exists [], s. split; [done|split; [done|apply not_elem_of_nil]].
  - destruct (find_char c s 0) as [k|]; simpl.
    + destruct IH as (pre & r & -> & <- & Hn). exists (x :: pre), r.
      split; [done|split; [done|]]. apply not_elem_of_cons; done.
    + apply not_elem_of_cons; done.
Qed.

Lemma scanPos_skip pre t i :
  shortcutMarker ∉ pre -> scanPos (pre ++ t) i = scanPos t (i + length pre).
Proof.
  revert i; induction pre as [|x pre IH]; intros i Hn; cbn [app]; [f_equal; simpl; lia|].
  apply not_elem_of_cons in Hn as [Hx Hn]. cbn [scanPos]. rewrite decide_False by done.
  rewrite IH by done. f_equal. simpl. lia.
Qed.

Lemma findShortcutPos_loop_scan fuel s pos :
  (length s - pos < fuel)%nat -> findShortcutPos_loop fuel s pos = Some (scanPos (drop pos s) pos).
Proof.
  revert pos; induction fuel as [|fuel IH]; intros pos Hf; [lia|]. cbn [findShortcutPos_loop].
  rewrite find_char_drop. pose proof (find_char_spec shortcutMarker (drop pos s)) as Hs.
  destruct (find_char shortcutMarker (drop pos s) 0) as [k|]; simpl.
  - destruct Hs as (pre & r & E & <- & Hn). rewrite E, scanPos_skip by done. cbn [scanPos].
    rewrite decide_True by done.
    assert (Hr : drop (pos + length pre + 1) s = r).
    { rewrite <- !drop_drop, E, drop_app_length. done. }
    assert (s !! (pos + length pre + 1)%nat = r !! 0%nat) as ->.
    { rewrite <- Hr, lookup_drop. f_equal. lia. }
    destruct r as [|y r]; [done|]. simpl.
    destruct (decide (y = shortcutMarker)); [|done].
    assert (Hlen : (S (S (length pre + length r)) = length s - pos)%nat).
    { rewrite <- length_drop, E, length_app. simpl. lia. }
    rewrite IH by lia. do 2 f_equal; [|lia].
    replace (pos + length pre + 2)%nat with (pos + length pre + 1 + 1)%nat by lia.
    by rewrite <- drop_drop, Hr.
  - f_equal. symmetry. rewrite <- (app_nil_r (drop pos s)). by rewrite scanPos_skip.
Qed.

Lemma findShortcutPos_scan s pos : findShortcutPos s pos = scanPos (drop pos s) pos.
Proof. unfold findShortcutPos. by rewrite findShortcutPos_loop_scan by lia. Qed.

(** The text before the first marker contains only complete tokens. *)
Lemma scanPos_split s i p :
  scanPos s i = Some p ->
  exists pre y r, s = pre ++ shortcutMarker :: y :: r /\ p = (i + length pre)%nat /\
    y <> shortcutMarker /\ unmark s = pre ++ y :: unmark r.
Proof.
  revert i; induction s as [| |r IH|y r Hy IH|x r Hx IH] using token_ind; intros i; tokens;
    [done|done|intros (pre & z & r' & -> & -> & Hz & Eu)%IH|intros [= <-]
    |intros (pre & z & r' & -> & -> & Hz & Eu)%IH].
  - exists (shortcutMarker :: shortcutMarker :: pre), z, r'. rewrite Eu. simpl.
    split; [done|split; [lia|done]].
  - exists [], y, r. split; [done|split; [simpl; lia|done]].
  - exists (x :: pre), z, r'. rewrite Eu. simpl. split; [done|split; [lia|done]].
Qed.

Lemma scanPos_none s i : scanPos s i = None -> unmark s = s.
Proof.
  revert i; induction s as [| |r IH|y r Hy IH|x r Hx IH] using token_ind; intros i; tokens;
    try done; intros E; by rewrite (IH _ E).
Qed.

Lemma cleanShortcutString_loop_unmark fuel done rest :
  (length rest < fuel)%nat ->
  cleanShortcutString_loop fuel (done ++ rest) (length done) = Some (done ++ unmark rest).
Proof.
  revert done rest; induction fuel as [|fuel IH]; intros dn rest Hf; [lia|].
  cbn [cleanShortcutString_loop]. rewrite findShortcutPos_scan, drop_app_length.
  destruct (scanPos rest (length dn)) as [p|] eqn:E; [|by rewrite (scanPos_none _ _ E)].
  apply scanPos_split in E as (pre & y & r & -> & -> & Hy & ->).
  assert (erase1 (dn ++ pre ++ shortcutMarker :: y :: r) (length dn + length pre) =
          (dn ++ pre) ++ y :: r) as ->.
  { unfold erase1. rewrite !(app_assoc dn pre), <- length_app, take_app_length.
    replace (S (length (dn ++ pre))) with (length (dn ++ pre) + 1)%nat by lia.
    by rewrite <- drop_drop, drop_app_length. }
  rewrite length_app in Hf. simpl in Hf. rewrite <- length_app, IH by (simpl; lia).
  cbn [unmark]. rewrite decide_False by done. by rewrite app_assoc.
Qed.

Lemma cleanShortcutString_unmark s : cleanShortcutString s = unmark s.
Proof.
  unfold cleanShortcutString.
  pose proof (cleanShortcutString_loop_unmark (S (length s)) [] s ltac:(lia)) as E.
  cbn [app] in E. change (length []) with 0%nat in E. by rewrite E.
Qed.

Lemma scanPos_unmark s i : scanPos (unmark s) i = None.
Proof.
  revert i; induction s as [| |r IH|y r Hy IH|x r Hx IH] using token_ind; intros i; tokens; auto.
Qed.

Lemma findShortcut_split pre y r :
  scanPos (pre ++ shortcutMarker :: y :: r) 0 = Some (length pre) ->
  findShortcut (pre ++ shortcutMarker :: y :: r) 0 = y.
Proof.
  intros E. unfold findShortcut. rewrite findShortcutPos_scan, drop_0. rewrite E.
  rewrite lookup_app_r by lia. by replace (length pre + 1 - length pre)%nat with 1%nat by lia.
Qed.

Lemma findShortcut_unmark s : findShortcut (unmark s) 0 = "000"%char.
Proof. unfold findShortcut. rewrite findShortcutPos_scan, drop_0. by rewrite scanPos_unmark. Qed.

(** A marker in front of a character of an unmarked label is its first marker,
    and removing it gives the label back. *)
Lemma insert_marker pre x r i :
  x <> shortcutMarker -> scanPos (pre ++ x :: r) i = None ->
  scanPos (pre ++ shortcutMarker :: x :: r) i = Some (i + length pre)%nat /\
  unmark (pre ++ shortcutMarker :: x :: r) = unmark (pre ++ x :: r).
Proof.
  intros Hx. revert i; induction pre as [| |t IH|y t Hy IH|y t Hy IH] using token_ind; intros i;
    cbn [app]; tokens.
  - intros _. split; [f_equal; simpl; lia|done].
  - done.
  - intros [-> ->]%IH. split; [f_equal; simpl; lia|done].
  - done.
  - intros [-> ->]%IH. split; [f_equal; simpl; lia|done].
Qed.

(** ** Characters *)

Lemma code_range c : 0 <= code c < 256.
Proof. unfold code. pose proof (N_ascii_bounded c). lia. Qed.

Lemma code_inj c d : code c = code d -> c = d.
Proof.
  unfold code. intros E. rewrite <- (ascii_N_embedding c), <- (ascii_N_embedding d). f_equal. lia.
Qed.

Lemma code_char_of z : 0 <= z < 256 -> code (char_of z) = z.
Proof. intros H. unfold code, char_of. rewrite N_ascii_embedding by lia. lia. Qed.

(** Case analysis on the class of a character, with its code. *)
Ltac char_cases c :=
  pose proof (code_range c);
  repeat match goal with
         | |- context [(?a <=? code c) && (code c <=? ?b)] =>
             destruct (Z.leb_spec a (code c)), (Z.leb_spec (code c) b); simpl; try lia
         end.

Lemma isValid_code c :
  isValid c = true <-> 97 <= code c <= 122 \/ 65 <= code c <= 90 \/ 48 <= code c <= 57.
Proof. unfold isValid. rewrite !orb_true_iff, !andb_true_iff, !Z.leb_le. lia. Qed.

Lemma normalized_code c :
  code (normalized c) =
    if isValid c then (if 97 <=? code c then code c - 32 else code c) else 0.
Proof.
  unfold normalized, isValid. char_cases c; rewrite ?code_char_of by lia; try done;
    zcases; simpl; lia.
Qed.

Lemma normalized_valid c : isValid (normalized c) = isValid c.
Proof.
  destruct (isValid c) eqn:E.
  - apply isValid_code. rewrite normalized_code, E. apply isValid_code in E. zcases; lia.
  - apply not_true_iff_false. rewrite isValid_code, normalized_code, E. lia.
Qed.

Lemma normalized_idemp c : normalized (normalized c) = normalized c.
Proof.
  apply code_inj. rewrite normalized_code, normalized_valid, normalized_code.
  destruct (isValid c) eqn:E; [|done]. apply isValid_code in E. zcases; lia.
Qed.

Lemma normalized_invalid c : isValid c = false -> normalized c = "000"%char.
Proof. intros E. apply code_inj. by rewrite normalized_code, E. Qed.

(** [setShortcut()] looks for both cases of a character. *)
Lemma code_tolower c :
  code (tolower c) = if (65 <=? code c) && (code c <=? 90) then code c + 32 else code c.
Proof. unfold tolower. char_cases c; rewrite ?code_char_of by lia; done. Qed.

Lemma code_toupper c :
  code (toupper c) = if (97 <=? code c) && (code c <=? 122) then code c - 32 else code c.
Proof. unfold toupper. char_cases c; rewrite ?code_char_of by lia; done. Qed.

Lemma code_eq c d : c = d <-> code c = code d.
Proof. split; [by intros ->|apply code_inj]. Qed.

Lemma bothCases_normalized c x :
  isValid c = true -> x ∈ [tolower c; toupper c] <-> normalized x = normalized c.
Proof.
  intros Hc. rewrite !elem_of_cons, elem_of_nil, !code_eq, code_tolower, code_toupper.
  rewrite !normalized_code, Hc. apply isValid_code in Hc. pose proof (code_range x).
  destruct (isValid x) eqn:Ex.
  - apply isValid_code in Ex. char_cases c; zcases; lia.
  - apply not_true_iff_false in Ex. rewrite isValid_code in Ex. char_cases c; zcases; lia.
Qed.

(** ** Marking a label *)

Lemma find_first_of_spec set s :
  match find_first_of set s with
  | None => forall x, x ∈ s -> x ∉ set
  | Some k => exists pre x r, s = pre ++ x :: r /\ length pre = k /\ x ∈ set
  end.
Proof.
  induction s as [|x s IH]; simpl; [intros x Hx; by apply elem_of_nil in Hx|].
  destruct (decide (x ∈ set)) as [Hx|Hx]; [by exists [], x, s|].
  destruct (find_first_of set s) as [k|]; simpl.
  - destruct IH as (pre & y & r & -> & <- & Hy). by exists (x :: pre), y, r.
  - intros y [->|Hy]%elem_of_cons; auto.
Qed.

Lemma valid_not_marker c x :
  isValid c = true -> normalized x = normalized c -> x <> shortcutMarker.
Proof.
  intros Hc E ->. rewrite <- (normalized_valid c), <- E, normalized_valid in Hc. done.
Qed.

Lemma valid_not_none c : isValid c = true -> c <> "000"%char.
Proof. by intros Hc ->. Qed.

(** What [setShortcut()] makes of an unmarked label. *)
Lemma markedString_spec u c :
  isValid c = true -> scanPos u 0 = None ->
  match markedString u c with
  | None => forall x, x ∈ u -> normalized x <> normalized c
  | Some t => normalized (findShortcut t 0) = normalized c /\ unmark t = u
  end.
Proof.
  intros Hc Hu. unfold markedString. rewrite decide_False by (by apply valid_not_none).
  pose proof (find_first_of_spec [tolower c; toupper c] u) as Hf.
  destruct (find_first_of _ u) as [k|].
  - destruct Hf as (pre & x & r & -> & <- & Hx). apply bothCases_normalized in Hx; [|done].
    unfold insert1. rewrite take_app_length, drop_app_length.
    destruct (insert_marker pre x r 0) as [Hs E]; [by eapply valid_not_marker|done|].
    rewrite findShortcut_split by done. split; [done|].
    by rewrite E, (scanPos_none _ _ Hu).
  - intros x Hx E. by apply (Hf x Hx), bothCases_normalized.
Qed.

(** ** Counting *)

Lemma length_markContained cs l : length (fold_left markContained cs l) = length l.
Proof.
  revert l; induction cs as [|c cs IH]; intros l; simpl; [done|].
  rewrite IH. unfold markContained. destruct (isValid c); [by rewrite length_insert|done].
Qed.

Lemma contained_lookup cs l i :
  (i < length l)%nat ->
  fold_left markContained cs l !! i = Some true <->
  l !! i = Some true \/ exists c, c ∈ cs /\ isValid c = true /\ Z.to_nat (code c) = i.
Proof.
  revert l; induction cs as [|c cs IH]; intros l Hi; simpl.
  - split; [auto|]. intros [?|(c & Hc & _)]; [done|by apply elem_of_nil in Hc].
  - rewrite IH by (unfold markContained; destruct (isValid c); rewrite ?length_insert; lia).
    unfold markContained. setoid_rewrite elem_of_cons. destruct (isValid c) eqn:Ec.
    2: { split; intros [?|(c' & Hc & ? & ?)]; auto; right; exists c'; auto.
         destruct Hc as [->|Hc]; [congruence|auto]. }
    rewrite list_lookup_insert_Some. split.
    + intros [[(<- & _ & _)|(_ & ?)]|(c' & ? & ? & ?)]; [right; by exists c; auto|by left|].
      right. exists c'. auto.
    + intros [?|(c' & [->|?] & ? & ?)]; [|by auto|by eauto].
      destruct (decide (Z.to_nat (code c) = i)); auto.
Qed.

Lemma countDistinct_spec clean :
  countDistinct clean = Z.of_nat (length (remove_dups (filter (fun c => isValid c = true) clean))).
Proof.
  unfold countDistinct. f_equal. rewrite (count_indices id), length_markContained, length_replicate.
  rewrite <- (length_map (fun c => Z.to_nat (code c)) (remove_dups _)).
  apply Permutation_length, NoDup_Permutation.
  - apply list.NoDup_filter, NoDup_ListNoDup, seq_NoDup.
  - apply NoDup_fmap_2_strong; [|apply NoDup_remove_dups].
    intros c d _ _ E. apply code_inj. pose proof (code_range c). pose proof (code_range d). lia.
  - intros i. rewrite list_elem_of_filter, elem_of_seq, list_elem_of_fmap, option_fmap_id.
    setoid_rewrite elem_of_remove_dups. setoid_rewrite list_elem_of_filter.
    split.
    + intros [H Hi]. rewrite contained_lookup in H by (rewrite length_replicate; lia).
      destruct H as [H|(c & ? & ? & ?)]; [|by exists c].
      apply lookup_replicate in H. naive_solver.
    + intros (c & -> & Hv & Hc). pose proof (code_range c). split; [|lia].
      rewrite contained_lookup by (rewrite length_replicate; lia). right. by exists c.
Qed.

(** ** The caches *)

(** Every filled cache holds what would be computed afresh. *)
Record coherent (sc : YShortcut) : Prop := {
  coh_string : _shortcutStringCached sc = true -> _shortcutString sc = target sc;
  coh_clean : _cleanShortcutStringCached sc = false;
  coh_distinct : 0 <= _distinctShortcutChars sc ->
    _distinctShortcutChars sc = countDistinct (unmark (target sc));
  coh_shortcut : 0 <= _shortcut sc -> _shortcut sc = int_of (labelShortcut (target sc));
  coh_preferred : _shortcut sc < 0 -> 0 <= _preferred sc ->
    _preferred sc = int_of (labelShortcut (target sc))
}.

Lemma char_of_int_of c : char_of_int (int_of c) = c.
Proof.
  unfold char_of_int, int_of. pose proof (code_range c). apply code_inj.
  rewrite code_char_of by (apply Z.mod_pos_bound; lia). zcases; [by apply Z.mod_small|].
  rewrite <- (Z.mod_unique (code c - 256) 256 (-1) (code c)); lia.
Qed.

Lemma int_of_normalized c : int_of (normalized c) = code (normalized c).
Proof.
  unfold int_of. rewrite normalized_code. destruct (isValid c) eqn:E; [|done].
  apply isValid_code in E. zcases; lia.
Qed.

Lemma coherent_new label b w m : coherent (newShortcut label b w m).
Proof. constructor; simpl; intros; try done; lia. Qed.

Lemma shortcutString_ok sc :
  coherent sc -> (shortcutString sc).1 = target sc /\ coherent (shortcutString sc).2 /\
                 target (shortcutString sc).2 = target sc.
Proof.
  intros Hc. unfold shortcutString. destruct (_shortcutStringCached sc) eqn:E.
  - split; [by apply coh_string|]. by split.
  - destruct Hc as [H1 H2 H3 H4 H5]. split; [done|]. split; [|done]. constructor; simpl; auto.
Qed.

Lemma cleanString_ok sc :
  coherent sc -> (cleanString sc).1 = unmark (target sc) /\ coherent (cleanString sc).2 /\
                 target (cleanString sc).2 = target sc.
Proof.
  intros Hc. destruct (shortcutString_ok sc Hc) as (Hs & [H1 H2 H3 H4 H5] & Ht).
  unfold cleanString. rewrite (coh_clean _ Hc).
  destruct (shortcutString sc) as [s sc1]. simpl in *. subst s.
  split; [by rewrite cleanShortcutString_unmark|]. split; [constructor; simpl; auto|done].
Qed.

(** Reading the string changes nothing else. *)
Lemma shortcutString_frame sc :
  _preferred (shortcutString sc).2 = _preferred sc /\
  _shortcut (shortcutString sc).2 = _shortcut sc /\
  _distinctShortcutChars (shortcutString sc).2 = _distinctShortcutChars sc /\
  _conflict (shortcutString sc).2 = _conflict sc.
Proof. unfold shortcutString. by destruct (_shortcutStringCached sc). Qed.

Lemma cleanString_frame sc :
  _preferred (cleanString sc).2 = _preferred sc /\
  _shortcut (cleanString sc).2 = _shortcut sc /\
  _distinctShortcutChars (cleanString sc).2 = _distinctShortcutChars sc /\
  _conflict (cleanString sc).2 = _conflict sc.
Proof.
  unfold cleanString. destruct (_cleanShortcutStringCached sc); [done|].
  pose proof (shortcutString_frame sc). by destruct (shortcutString sc).
Qed.

Lemma label_int_nonneg s : 0 <= int_of (labelShortcut s).
Proof. unfold labelShortcut. rewrite int_of_normalized. apply code_range. Qed.

Lemma preferred_ok sc :
  coherent sc -> coherent (preferred sc).2 /\ target (preferred sc).2 = target sc /\
    (_shortcut sc < 0 -> (preferred sc).1 = labelShortcut (target sc)) /\
    _shortcut (preferred sc).2 = _shortcut sc /\ 0 <= _preferred (preferred sc).2.
Proof.
  intros Hc. destruct (shortcutString_ok sc Hc) as (Hs & Hc1 & Ht).
  destruct (shortcutString_frame sc) as (Fp & Fs & Fd & Fc).
  unfold preferred. destruct (Z.ltb_spec (_preferred sc) 0).
  - destruct (shortcutString sc) as [s sc1]. simpl in *. subst s. destruct Hc1 as [H1 H2 H3 H4 H5].
    split; [|split; [done|split; [done|split; [done|apply label_int_nonneg]]]].
    constructor; simpl; auto. intros _ _. by rewrite Ht.
  - split; [done|]. split; [done|]. split; [|done]. intros Hn.
    simpl. rewrite (coh_preferred _ Hc) by done. apply char_of_int_of.
Qed.

Lemma shortcut_ok sc :
  coherent sc -> (shortcut sc).1 = labelShortcut (target sc) /\ coherent (shortcut sc).2 /\
                 target (shortcut sc).2 = target sc.
Proof.
  intros Hc. unfold shortcut. destruct (Z.ltb_spec (_shortcut sc) 0) as [Hn|Hn].
  - destruct (preferred_ok sc Hc) as (Hc1 & Ht & Hp & Es & _). specialize (Hp Hn).
    destruct (preferred sc) as [c sc1]. simpl in *. subst c. split; [done|]. split; [|done].
    destruct Hc1 as [H1 H2 H3 H4 H5]. pose proof (label_int_nonneg (target sc)).
    constructor; simpl; auto; intros; [by rewrite Ht|lia].
  - split; [|done]. simpl. rewrite (coh_shortcut _ Hc) by done. apply char_of_int_of.
Qed.

Lemma distinct_ok sc :
  coherent sc -> (distinctShortcutChars sc).1 = countDistinct (unmark (target sc)) /\
    coherent (distinctShortcutChars sc).2 /\ target (distinctShortcutChars sc).2 = target sc.
Proof.
  intros Hc. unfold distinctShortcutChars.
  destruct (Z.ltb_spec (_distinctShortcutChars sc) 0); [|by split; [apply coh_distinct|]].
  destruct (cleanString_ok sc Hc) as (Hs & [H1 H2 H3 H4 H5] & Ht).
  destruct (cleanString sc) as [s sc1]. simpl in *. subst s. split; [done|]. split; [|done].
  constructor; simpl; auto. by rewrite Ht.
Qed.

Lemma hasValid_ok sc :
  coherent sc -> (hasValidShortcutChar sc).1 = existsValid (unmark (target sc)) /\
    coherent (hasValidShortcutChar sc).2 /\ target (hasValidShortcutChar sc).2 = target sc.
Proof.
  intros Hc. unfold hasValidShortcutChar. destruct (cleanString_ok sc Hc) as (Hs & Hc1 & Ht).
  destruct (cleanString sc) as [s sc1]. simpl in *. by subst s.
Qed.

(** Writing: the new label, the text of the label and the cached preference. *)
Lemma setShortcut_ok sc c :
  coherent sc -> c = "000"%char \/ isValid c = true /\ normalized c = c ->
  let sc' := setShortcut sc c in
  coherent sc' /\ unmark (target sc') = unmark (target sc) /\ _preferred sc' = _preferred sc /\
  _conflict sc' = _conflict sc /\
  target sc' = default (target sc) (markedString (unmark (target sc)) c).
Proof.
  intros Hc Hv. destruct (cleanString_ok sc Hc) as (Hs & Hc1 & Ht).
  destruct (cleanString_frame sc) as (Fp & Fs & Fd & Fc). unfold setShortcut.
  destruct (cleanString sc) as [u sc1]. simpl in *. subst u.
  assert (Hm : match markedString (unmark (target sc)) c with
               | None => True
               | Some t => labelShortcut t = c /\ unmark t = unmark (target sc)
               end).
  { destruct Hv as [->|[Hv Hn]].
    - unfold markedString. rewrite decide_True by done. unfold labelShortcut.
      rewrite findShortcut_unmark. split; [done|]. apply (scanPos_none _ 0), scanPos_unmark.
    - pose proof (markedString_spec (unmark (target sc)) c Hv (scanPos_unmark _ _)) as H.
      destruct (markedString _ c); [|done]. unfold labelShortcut. by rewrite Hn in H. }
  destruct (markedString (unmark (target sc)) c) as [t|]; simpl.
  - destruct Hm as [Hl Hu], Hc1 as [H1 H2 H3 H4 H5]. repeat split; simpl; auto; try done.
    + intros Hd. rewrite Hu, <- Ht. by apply H3.
    + intros _. by rewrite Hl.
    + intros Hneg. rewrite <- Hl in Hneg. pose proof (label_int_nonneg t). lia.
  - by rewrite Ht.
Qed.

Lemma step_ok sc sc' :
  step sc sc' -> coherent sc -> coherent sc' /\ unmark (target sc') = unmark (target sc).
Proof.
  destruct 1; intros Hc.
  - destruct (shortcutString_ok sc Hc) as (_ & ? & ->). done.
  - destruct (cleanString_ok sc Hc) as (_ & ? & ->). done.
  - destruct (preferred_ok sc Hc) as (? & -> & _). done.
  - destruct (shortcut_ok sc Hc) as (_ & ? & ->). done.
  - destruct (distinct_ok sc Hc) as (_ & ? & ->). done.
  - destruct (hasValid_ok sc Hc) as (_ & ? & ->). done.
  - destruct Hc. split; [constructor; simpl; auto|done].
  - destruct (setShortcut_ok sc "000"%char Hc) as (? & ? & _); [by left|done].
  - destruct (setShortcut_ok sc c Hc) as (? & ? & _); [by right|done].
Qed.

Lemma reachable_ok sc sc' :
  rtc step sc sc' -> coherent sc -> coherent sc' /\ unmark (target sc') = unmark (target sc).
Proof.
  induction 1 as [sc|sc1 sc2 sc3 H _ IH]; intros Hc; [done|].
  apply step_ok in H as [Hc2 E]; [|done]. destruct (IH Hc2) as [? E']. by rewrite E', E.
Qed.

Lemma unmark_nil s : unmark s = [] <-> s = [].
Proof. split; [|by intros ->]. destruct s as [|x [|y r]]; cbn [unmark]; repeat case_decide; done. Qed.

(** ** Properties *)

(** The loop of [cleanShortcutString()] terminates and computes the label
    with exactly the unescaped markers removed. Cleaning again changes nothing,
    a cleaned label shows no shortcut, and only the empty label becomes
    empty. *)
Theorem clean_equivalent (s : cstring) (extra : nat) :
  cleanShortcutString_loop (S (length s) + extra) s 0 = Some (unmark s) /\
  cleanShortcutString s = unmark s /\
  cleanShortcutString (cleanShortcutString s) = cleanShortcutString s /\
  findShortcut (cleanShortcutString s) 0 = "000"%char /\
  (cleanShortcutString s = [] <-> s = []).
Proof.
  rewrite !cleanShortcutString_unmark.
  split; [exact (cleanShortcutString_loop_unmark (S (length s) + extra) [] s ltac:(lia))|].
  split; [done|]. split; [apply (scanPos_none _ 0), scanPos_unmark|].
  split; [apply findShortcut_unmark|apply unmark_nil].
Qed.

(** The loop of [findShortcutPos()] terminates from every start position;
    a position it returns holds a marker, and the next position exists and
    holds another character, so that [findShortcut()] reads inside the
    string. *)
Theorem find_equivalent (s : cstring) (pos extra : nat) :
  findShortcutPos_loop (S (length s) + extra) s pos = Some (scanPos (drop pos s) pos) /\
  findShortcutPos s pos = scanPos (drop pos s) pos /\
  match findShortcutPos s pos with
  | Some p => (pos <= p)%nat /\ s !! p = Some shortcutMarker /\
              s !! (p + 1)%nat = Some (findShortcut s pos) /\ findShortcut s pos <> shortcutMarker
  | None => findShortcut s pos = "000"%char
  end.
Proof.
  split; [apply findShortcutPos_loop_scan; lia|]. split; [apply findShortcutPos_scan|].
  destruct (findShortcutPos s pos) as [p|] eqn:E; [|unfold findShortcut; by rewrite E].
  pose proof E as E'. rewrite findShortcutPos_scan in E'.
  apply scanPos_split in E' as (pre & y & r & Ed & -> & Hy & _). split; [lia|].
  assert (Hl : forall k, s !! (pos + length pre + k)%nat = (shortcutMarker :: y :: r) !! k).
  { intros k. rewrite <- Nat.add_assoc, <- lookup_drop, Ed, lookup_app_r by lia. f_equal. lia. }
  assert (findShortcut s pos = y) as ->.
  { unfold findShortcut. by rewrite E, Hl. }
  rewrite <- (Nat.add_0_r (pos + length pre)) at 1. by rewrite !Hl.
Qed.

(** Marking a label for a valid character: if the character occurs in the
    text of the label, in either case, the new label shows it as its shortcut
    and has the same text; otherwise the label is left alone. *)
Theorem mark_roundtrip (s : cstring) (c : ascii) :
  isValid c = true ->
  match markedString (cleanShortcutString s) c with
  | Some t => labelShortcut t = normalized c /\ cleanShortcutString t = cleanShortcutString s /\
              exists x, x ∈ cleanShortcutString s /\ normalized x = normalized c
  | None => forall x, x ∈ cleanShortcutString s -> normalized x <> normalized c
  end.
Proof.
  intros Hc. rewrite cleanShortcutString_unmark.
  pose proof (markedString_spec (unmark s) c Hc (scanPos_unmark _ _)) as Hm.
  unfold markedString in *. rewrite decide_False in * by (by apply valid_not_none).
  pose proof (find_first_of_spec [tolower c; toupper c] (unmark s)) as Hf.
  destruct (find_first_of _ (unmark s)) as [k|]; [|done].
  rewrite cleanShortcutString_unmark. destruct Hm as [H1 H2]. split; [done|]. split; [done|].
  destruct Hf as (pre & x & r & -> & _ & Hx). exists x.
  split; [set_solver|]. by apply bothCases_normalized.
Qed.

Lemma mark_roundtrip_witness :
  markedString (cleanShortcutString (str "&Save && &Quit")) "Q"%char = Some (str "Save && &Quit") /\
  labelShortcut (str "Save && &Quit") = "Q"%char.
Proof.
  split; [reflexivity|].
  pose proof (mark_roundtrip (str "&Save && &Quit") "Q"%char eq_refl) as H.
  exact (proj1 H).
Defined.

(** [distinctShortcutChars()] counts the different valid characters of the
    text of the label, upper and lower case letters separately, and is zero
    exactly if [hasValidShortcutChar()] is false. *)
Theorem distinct_counts (clean : cstring) :
  countDistinct clean = Z.of_nat (length (remove_dups (filter (fun c => isValid c = true) clean))) /\
  (countDistinct clean = 0 <-> existsValid clean = false).
Proof.
  rewrite countDistinct_spec. split; [done|].
  unfold existsValid. rewrite <- not_true_iff_false, existsb_exists.
  setoid_rewrite <- list_elem_of_In. split.
  - intros E (c & Hin & Hv).
    assert (H : c ∈ remove_dups (filter (fun c => isValid c = true) clean)).
    { apply elem_of_remove_dups, list_elem_of_filter. done. }
    apply list_elem_of_split in H as (l1 & l2 & El). rewrite El, length_app in E.
    simpl in E. lia.
  - intros Hn. destruct (remove_dups _) as [|c l] eqn:E; [done|]. exfalso. apply Hn.
    assert (H : c ∈ c :: l) by left.
    rewrite <- E in H. apply elem_of_remove_dups, list_elem_of_filter in H as [? ?]. by exists c.
Qed.

(** The caches of a shortcut object are never stale: after any sequence of
    queries, conflict marks and (valid) assignments, every query returns what
    the current label says, and the text of the label is the original one. *)
Theorem caches_coherent (label : cstring) (button wizard menuItem : bool) (sc : YShortcut) :
  rtc step (newShortcut label button wizard menuItem) sc ->
  (shortcutString sc).1 = target sc /\
  (cleanString sc).1 = cleanShortcutString label /\
  (distinctShortcutChars sc).1 = countDistinct (cleanShortcutString label) /\
  (hasValidShortcutChar sc).1 = existsValid (cleanShortcutString label) /\
  (shortcut sc).1 = labelShortcut (target sc).
Proof.
  intros [Hc E]%reachable_ok; [|apply coherent_new]. rewrite cleanShortcutString_unmark. simpl in E.
  rewrite <- E. split; [by apply shortcutString_ok|]. split; [by apply cleanString_ok|].
  split; [by apply distinct_ok|]. split; [by apply hasValid_ok|by apply shortcut_ok].
Qed.

Lemma caches_coherent_witness :
  let sc0 := newShortcut (str "&Next >") true true false in
  let sc := setShortcut (distinctShortcutChars (preferred sc0).2).2 "X"%char in
  (shortcut sc).1 = "X"%char /\ target sc = str "Ne&xt >".
Proof.
  intros sc0 sc. split; [|vm_compute; reflexivity].
  destruct (caches_coherent (str "&Next >") true true false sc) as (_ & _ & _ & _ & E).
  - eapply rtc_l; [apply step_preferred|]. eapply rtc_l; [apply step_distinct|].
    eapply rtc_l; [apply (step_set _ "X"%char); reflexivity|apply rtc_refl].
  - rewrite E. vm_compute. reflexivity.
Defined.

End YShortcut.
