(* ===== verification/CString.v ===== *)
(** * Strings of the C library

    [atoi()], as src/libyui-rest-api/src/YHttpWidgetsActionHandler.cc and
    src/libyui/src/YUILoader.cc use it. *)
From S2P Require Import Prelude CNum Shortcut.
From Stdlib Require Import Ascii String.
Local Open Scope Z_scope.

Definition isSpace (c : ascii) : bool :=
  (code c =? 32) || ((9 <=? code c) && (code c <=? 13)).
Definition digitOf (c : ascii) : option Z :=
  if (48 <=? code c) && (code c <=? 57) then Some (code c - 48) else None.

Fixpoint digitsFrom (s : cstring) (acc : Z) : Z :=
  match s with
  | [] => acc
  | c :: s' => match digitOf c with Some d => digitsFrom s' (10 * acc + d) | None => acc end
  end.

Fixpoint skipSpaces (s : cstring) : cstring :=
  match s with
  | [] => []
  | c :: s' => if isSpace c then skipSpaces s' else s
  end.

(** [atoi()]: a number that is no [int] is undefined behaviour. *)
Definition atoi (s : cstring) : outcome Z :=
  let s := skipSpaces s in
  let n := match s with
           | c :: s' => if (c =? "-")%char then - digitsFrom s' 0
                        else if (c =? "+")%char then digitsFrom s' 0
                        else digitsFrom s 0
           | [] => 0
           end in
  if decide (fits_int n) then Done n else Undefined.

(** A string that does not start with a number is 0. *)
Lemma atoi_no_number (c : ascii) (s : cstring) :
  isSpace c = false -> digitOf c = None -> c <> "-"%char -> c <> "+"%char -> atoi (c :: s) = Done 0.
Proof.
  intros Hs Hd Hm Hp. unfold atoi. cbn [skipSpaces]. rewrite Hs.
  apply Ascii.eqb_neq in Hm. apply Ascii.eqb_neq in Hp. rewrite Hm, Hp. cbn [digitsFrom]. by rewrite Hd.
Qed.
