(* ===== verification/ShortcutManager.v ===== *)
(** * The shortcut manager of a dialog

    src/libyui/src/YShortcutManager.cc: collects the shortcuts of all widgets
    of a dialog, finds the conflicts (a character wanted more than once, or no
    valid character), and resolves them one by one, most constrained shortcut
    first. The list of conflicts holds pointers into the list of shortcuts; here
    it holds indices. Queries of shortcut objects only fill their caches, which
    never become stale (Shortcut.v), so the manager updates the objects only
    where it stores something: the cached preferred character, the conflict
    marker and the label. *)

From S2P Require Import Prelude Shortcut.
From Stdlib Require Import Ascii.
Import Shortcut.YShortcut.

Module YShortcutManager.

(** ** The widgets of a dialog *)

(** The classes that [toSelectionWidget()] and the constructors of the
    shortcut objects distinguish with [dynamic_cast]. *)
Inductive shortcutClass : Type :=
| PushButton
| DumbTab
| ItemSelector
| MenuBar
| OtherWidget.

#[global] Instance shortcutClass_eq_dec : EqDecision shortcutClass.
Proof. solve_decision. Defined.

Inductive swidget : Type :=
  SWidget (cls : shortcutClass) (widgetClass : cstring) (shortcutProperty : cstring)
          (items : list cstring) (children : list swidget).

(** [strstr( s, needle )] finds something. *)
Fixpoint strstr (s needle : cstring) : bool :=
  bool_decide (take (length needle) s = needle) ||
  match s with [] => false | _ :: s' => strstr s' needle end.

Definition toSelectionWidget (cls : shortcutClass) : bool :=
  match cls with DumbTab | ItemSelector | MenuBar => true | PushButton | OtherWidget => false end.

Definition isPushButton (cls : shortcutClass) : bool := bool_decide (cls = PushButton).

Fixpoint findShortcutWidgets1 (w : swidget) : list YShortcut :=
  let 'SWidget cls widgetClass shortcutProperty items children := w in
  let wizardClass := strstr widgetClass (str "WizardButton") in
  (if toSelectionWidget cls then
     map (fun label => newShortcut label (isPushButton cls) wizardClass (bool_decide (cls = MenuBar)))
         items
   else
     match shortcutProperty with
     | [] => []
     | _ => [newShortcut shortcutProperty (isPushButton cls) wizardClass false]
     end) ++
  flat_map findShortcutWidgets1 children.

Definition findShortcutWidgets (widgets : list swidget) : list YShortcut :=
  flat_map findShortcutWidgets1 widgets.

(** ** The manager *)

Record manager : Type := mkManager {
  _shortcutList : list YShortcut;
  _wanted : list Z;
  _used : list bool;
  _conflictCount : Z;
  _didCheck : bool
}.

(** The constructor; the arrays are not initialized before the first check. *)
Definition newManager : manager := mkManager [] [] [] 0 false.

(** [array[ (int) c ]]. *)
Definition at_char {A} `{Inhabited A} (a : list A) (c : ascii) : A := a !!! Z.to_nat (int_of c).
Definition set_char {A} (a : list A) (c : ascii) (x : A) : list A := <[Z.to_nat (int_of c) := x]> a.

(** *** Picking a character *)

Fixpoint pickCandidate (wanted : list Z) (used : list bool) (s : cstring) (candidate : ascii)
  : ascii :=
  match s with
  | [] => candidate
  | x :: s' =>
      let c := normalized x in
      if isValid c && negb (at_char used c) then
        if (at_char wanted c <? at_char wanted candidate) || negb (isValid candidate) then
          if at_char wanted c =? 0 then c
          else pickCandidate wanted used s' c
        else pickCandidate wanted used s' candidate
      else pickCandidate wanted used s' candidate
  end.

Definition candidateFor (wanted : list Z) (used : list bool) (sc : YShortcut) : ascii :=
  let candidate := (preferred sc).1 in
  if negb (isValid candidate) || at_char used candidate then
    pickCandidate wanted used (cleanString sc).1 "000"%char
  else candidate.

(** The changes of [resolveConflict()] to the shortcut and to [_used]. *)
Definition resolveShortcut (wanted : list Z) (used : list bool) (sc : YShortcut)
  : YShortcut * list bool :=
  let candidate := candidateFor wanted used sc in
  if isValid candidate then
    let sc' :=
      if decide (candidate = (preferred sc).1) then sc else setShortcut sc candidate in
    (setConflict sc' false, set_char used candidate true)
  else
    (setConflict (clearShortcut sc) false, used).

Definition resolveConflict (m : manager) (i : nat) : manager :=
  match _shortcutList m !! i with
  | None => m
  | Some sc =>
      let '(sc', used') := resolveShortcut (_wanted m) (_used m) sc in
      mkManager (<[i := sc']> (_shortcutList m)) (_wanted m) used' (_conflictCount m - 1)
                (_didCheck m)
  end.

(** *** Picking a conflict *)

(** The loop of [findShortestMenuItem()] and [findShortestWizardButton()]. *)
Fixpoint shortestLoop (eligible : YShortcut -> bool) (conflicts : list YShortcut)
    (i shortestIndex shortestLen : Z) : Z :=
  match conflicts with
  | [] => shortestIndex
  | sc :: rest =>
      if eligible sc then
        let len := (distinctShortcutChars sc).1 in
        if (shortestLen <? 0) || (len <? shortestLen)
        then shortestLoop eligible rest (i + 1) i len
        else shortestLoop eligible rest (i + 1) shortestIndex shortestLen
      else shortestLoop eligible rest (i + 1) shortestIndex shortestLen
  end.

Definition findShortestMenuItem (conflicts : list YShortcut) : Z :=
  shortestLoop isMenuItem conflicts 0 (-1) (-1).

Definition findShortestWizardButton (conflicts : list YShortcut) : Z :=
  shortestLoop isWizardButton conflicts 0 (-1) (-1).

(** The loop of [findShortestWidget()]; [best] is the object at
    [shortestIndex]. *)
Fixpoint shortestWidgetLoop (conflicts : list YShortcut) (i shortestIndex shortestLen : Z)
    (best : YShortcut) : Z :=
  match conflicts with
  | [] => shortestIndex
  | sc :: rest =>
      let currentLen := (distinctShortcutChars sc).1 in
      if currentLen <? shortestLen then shortestWidgetLoop rest (i + 1) i currentLen sc
      else if (currentLen =? shortestLen) && (isButton sc && negb (isButton best)) then
        shortestWidgetLoop rest (i + 1) i currentLen sc
      else shortestWidgetLoop rest (i + 1) shortestIndex shortestLen best
  end.

(** Only called with a conflict in the list. *)
Definition findShortestWidget (conflicts : list YShortcut) : Z :=
  match conflicts with
  | [] => 0
  | sc :: rest => shortestWidgetLoop rest 1 0 (distinctShortcutChars sc).1 sc
  end.

Definition pickConflictToResolve (conflicts : list YShortcut) : Z :=
  let prioIndex := findShortestMenuItem conflicts in
  let prioIndex := if prioIndex <? 0 then findShortestWizardButton conflicts else prioIndex in
  if prioIndex <? 0 then findShortestWidget conflicts else prioIndex.

(** *** Resolving all conflicts *)

(** The objects a list of indices refers to. *)
Definition objects (l : list YShortcut) (indices : list nat) : list YShortcut :=
  omap (fun i => l !! i) indices.

(** The loop [while ( ! conflictList.empty() )]; [None] is a loop that ran out
    of fuel. *)
Fixpoint resolveLoop (fuel : nat) (m : manager) (conflictList : list nat) : option manager :=
  match conflictList with
  | [] => Some m
  | _ =>
      match fuel with
      | O => None
      | S fuel' =>
          let prioIndex := Z.to_nat (pickConflictToResolve (objects (_shortcutList m) conflictList)) in
          match conflictList !! prioIndex with
          | None => None
          | Some i => resolveLoop fuel' (resolveConflict m i) (delete prioIndex conflictList)
          end
      end
  end.

(** The indices of the shortcuts with a conflict marker. *)
Definition conflictIndices (l : list YShortcut) : list nat :=
  filter (fun i => _conflict <$> l !! i = Some true) (seq 0 (length l)).

Definition resolveAllConflicts (m : manager) : option manager :=
  if negb (_didCheck m) then Some m
  else
    let conflictList := conflictIndices (_shortcutList m) in
    resolveLoop (length conflictList)
      (mkManager (_shortcutList m) (_wanted m) (_used m) (Z.of_nat (length conflictList)) true)
      conflictList.

(** *** Checking *)

Definition MIN_VALID_PERCENT : Z := 50.

Definition validPercent (l : list YShortcut) : Z :=
  let validCount := Z.of_nat (length (filter (fun sc => (hasValidShortcutChar sc).1 = true) l)) in
  if Z.of_nat (length l) >? 0 then Z.quot (100 * validCount) (Z.of_nat (length l)) else 0.

Definition countWanted (l : list YShortcut) : list Z :=
  fold_left (fun wanted sc => let c := (preferred sc).1 in set_char wanted c (at_char wanted c + 1))
    l (replicate 256 0).

(** The shortcut character is used more than once, or there is none although
    the label is not empty. *)
Definition isConflict (wanted : list Z) (sc : YShortcut) : bool :=
  let p := (preferred sc).1 in
  if isValid p then at_char wanted p >? 1
  else Z.of_nat (length (cleanString sc).1) >? 0.

(** The error report for one shortcut: its conflict marker, [_used] and the
    number of conflicts. *)
Definition reportShortcut (wanted : list Z) (sc : YShortcut) (used : list bool) (count : Z)
  : YShortcut * list bool * Z :=
  let bad := isConflict wanted sc in
  let sc' := if bad then setConflict sc true else sc in
  (sc', if _conflict sc' then used else set_char used (preferred sc).1 true,
   if bad then count + 1 else count).

Fixpoint reportLoop (wanted : list Z) (l : list YShortcut) (used : list bool) (count : Z)
  : list YShortcut * list bool * Z :=
  match l with
  | [] => ([], used, count)
  | sc :: rest =>
      let '(sc', used', count') := reportShortcut wanted sc used count in
      let '(rest', used'', count'') := reportLoop wanted rest used' count' in
      (sc' :: rest', used'', count'')
  end.

Definition checkShortcuts (m : manager) (dialog : list swidget) (autoResolve : bool)
  : option manager :=
  let l := findShortcutWidgets dialog in
  if validPercent l <? MIN_VALID_PERCENT then
    Some (mkManager l (_wanted m) (_used m) (_conflictCount m) (_didCheck m))
  else
    let wanted := countWanted l in
    let l := map (fun sc => (preferred sc).2) l in
    let '(l, used, count) := reportLoop wanted l (replicate 256 false) 0 in
    let m := mkManager l wanted used count true in
    if (count >? 0) && autoResolve then resolveAllConflicts m else Some m.

(** ** Arrays indexed by characters *)

(** Only normalized characters (and 0) are used as indices; they are inside the
    arrays. *)
Lemma index_range c : normalized c = c -> 0 <= int_of c < 128.
Proof.
  intros <-. rewrite int_of_normalized, normalized_code. destruct (isValid c) eqn:E; [|lia].
  apply isValid_code in E. zcases; lia.
Qed.

Lemma index_inj c d :
  normalized c = c -> normalized d = d -> Z.to_nat (int_of c) = Z.to_nat (int_of d) -> c = d.
Proof.
  intros Hc Hd E. apply index_range in Hc as ?, Hd as ?.
  rewrite <- (char_of_int_of c), <- (char_of_int_of d). f_equal. lia.
Qed.

Lemma at_set_char {A} `{Inhabited A} (a : list A) c d x :
  length a = 256%nat -> normalized c = c -> normalized d = d ->
  at_char (set_char a c x) d = if decide (d = c) then x else at_char a d.
Proof.
  intros Hl Hc Hd. apply index_range in Hc as Hr. unfold at_char, set_char.
  destruct (decide (d = c)) as [->|Hn].
  - apply list_lookup_total_insert_eq. lia.
  - apply list_lookup_total_insert_ne. intros E. by apply Hn, index_inj.
Qed.

Lemma length_set_char {A} (a : list A) c x : length (set_char a c x) = length a.
Proof. apply length_insert. Qed.

Lemma at_replicate {A} `{Inhabited A} (x : A) c :
  normalized c = c -> at_char (replicate 256 x) c = x.
Proof. intros Hc%index_range. apply lookup_total_replicate_2. lia. Qed.

Lemma normalized_nul : normalized "000"%char = "000"%char.
Proof. done. Qed.

Lemma label_normalized s : normalized (labelShortcut s) = labelShortcut s.
Proof. apply normalized_idemp. Qed.

#[local] Hint Resolve normalized_nul normalized_idemp label_normalized : yui.

(** ** Resolving one conflict *)

(** The pick loop: a valid result is unused and occurs in the text (or was the
    candidate before); no valid result means that every valid character of the
    text is in use. *)
Lemma pickCandidate_spec wanted used s cand :
  normalized cand = cand ->
  let c := pickCandidate wanted used s cand in
  normalized c = c /\
  (isValid c = true ->
     c = cand \/ at_char used c = false /\ exists x, x ∈ s /\ normalized x = c) /\
  (isValid c = false ->
     isValid cand = false /\ forall x, x ∈ s -> isValid x = true -> at_char used (normalized x) = true).
Proof.
  revert cand; induction s as [|x s IH]; intros cand Hn; cbn -[normalized isValid];
    [split; [done|split; [by left|intros; split; [done|intros y Hy; by apply elem_of_nil in Hy]]]|].
  assert (Hskip : isValid x = true -> at_char used (normalized x) = false -> isValid cand = true ->
                  let c := pickCandidate wanted used s cand in isValid c = true).
  { intros _ _ Hcand c. destruct (isValid c) eqn:Ec; [done|].
    by destruct (proj2 (proj2 (IH cand Hn)) Ec) as [? _]; congruence. }
  rewrite normalized_valid.
  destruct (isValid x && negb (at_char used (normalized x))) eqn:Ex.
  - apply andb_true_iff in Ex as [Hv Hu%negb_true_iff].
    destruct ((_ <? _) || negb (isValid cand)) eqn:Eb.
    + destruct (_ =? 0).
      * split; [auto with yui|]. rewrite normalized_valid, Hv. split; [|done].
        intros _. right. split; [done|]. exists x. split; [left|done].
      * destruct (IH (normalized x)) as (H1 & H2 & H3); [auto with yui|]. split; [done|]. split.
        -- intros Hc. right. destruct (H2 Hc) as [->|(? & y & ? & ?)].
           ++ split; [done|]. exists x. split; [left|done].
           ++ split; [done|]. exists y. split; [by right|done].
        -- intros Hc. destruct (H3 Hc) as [Hf _]. rewrite normalized_valid in Hf. congruence.
    + apply orb_false_iff in Eb as [_ Hcand%negb_false_iff].
      destruct (IH cand Hn) as (H1 & H2 & H3). split; [done|]. split.
      * intros Hc. destruct (H2 Hc) as [?|(? & y & ? & ?)]; [by left|].
        right. split; [done|]. exists y. split; [by right|done].
      * intros Hc. by rewrite Hskip in Hc.
  - destruct (IH cand Hn) as (H1 & H2 & H3). split; [done|]. split.
    + intros Hc. destruct (H2 Hc) as [?|(? & y & ? & ?)]; [by left|].
      right. split; [done|]. exists y. split; [by right|done].
    + intros Hc. destruct (H3 Hc) as [? Hall]. split; [done|].
      intros y [->|Hy]%elem_of_cons Hv; [|by apply Hall].
      rewrite Hv in Ex. by apply negb_false_iff.
Qed.

(** An object whose label was not written yet. *)
Definition untouched (sc : YShortcut) : Prop := coherent sc /\ _shortcut sc < 0.

(** The shortcut an object's label shows. *)
Definition cur (sc : YShortcut) : ascii := labelShortcut (target sc).

Lemma untouched_preferred sc : untouched sc -> (preferred sc).1 = cur sc.
Proof. intros [Hc Hs]. by apply preferred_ok. Qed.

Lemma cur_normalized sc : normalized (cur sc) = cur sc.
Proof. apply label_normalized. Qed.

#[local] Hint Resolve cur_normalized : yui.

Lemma candidateFor_spec wanted used sc :
  untouched sc ->
  let c := candidateFor wanted used sc in
  normalized c = c /\
  (isValid c = true -> at_char used c = false /\
     (c = cur sc \/ exists x, x ∈ unmark (target sc) /\ normalized x = c)) /\
  (isValid c = false ->
     forall x, x ∈ unmark (target sc) -> isValid x = true -> at_char used (normalized x) = true).
Proof.
  intros Hu. unfold candidateFor. rewrite (untouched_preferred sc Hu).
  destruct (cleanString_ok sc (proj1 Hu)) as (-> & _ & _).
  destruct (negb (isValid (cur sc)) || at_char used (cur sc)) eqn:E.
  - destruct (pickCandidate_spec wanted used (unmark (target sc)) "000"%char) as (H1 & H2 & H3);
      [done|]. split; [done|]. split; [|by intros Hc; apply H3].
    intros Hc. destruct (H2 Hc) as [Hz|(? & ?)]; [by rewrite Hz in Hc|auto].
  - apply orb_false_iff in E as [Hv%negb_false_iff Hus]. split; [auto with yui|].
    split; [auto|]. rewrite Hv. done.
Qed.

Lemma setConflict_ok sc b :
  coherent sc -> coherent (setConflict sc b) /\ target (setConflict sc b) = target sc.
Proof. intros []. split; [constructor; simpl; auto|done]. Qed.

(** [resolveConflict()] gives the shortcut an unused character of its own and
    marks it as used, or leaves it without one if there is none. *)
Lemma resolveShortcut_spec wanted used sc :
  untouched sc ->
  let '(sc', used') := resolveShortcut wanted used sc in
  coherent sc' /\ _conflict sc' = false /\ unmark (target sc') = unmark (target sc) /\
  (isValid (cur sc') = true /\ at_char used (cur sc') = false /\
     used' = set_char used (cur sc') true \/
   isValid (cur sc') = false /\ used' = used /\
     forall x, x ∈ unmark (target sc) -> isValid x = true -> at_char used (normalized x) = true).
Proof.
  intros Hu. pose proof (candidateFor_spec wanted used sc Hu) as (Hn & Hv & Hi).
  unfold resolveShortcut. set (c := candidateFor wanted used sc) in *.
  rewrite (untouched_preferred sc Hu). destruct Hu as [Hc Hs].
  destruct (isValid c) eqn:Ec.
  - destruct (Hv eq_refl) as [Hused Hfrom]. destruct (decide (c = cur sc)) as [E|Hne].
    + destruct (setConflict_ok sc false Hc) as [? Ht]. unfold cur in *. rewrite Ht.
      split; [done|]. split; [done|]. split; [done|]. left. rewrite <- E. auto.
    + destruct Hfrom as [?|(x & Hx & Ex)]; [done|].
      destruct (setShortcut_ok sc c Hc) as (Hc' & Hu' & _ & _ & Ht); [by right|].
      pose proof (markedString_spec (unmark (target sc)) c Ec (scanPos_unmark _ _)) as Hm.
      destruct (markedString (unmark (target sc)) c) as [t|]; [|exfalso; apply (Hm x Hx); congruence].
      simpl in Ht. destruct (setConflict_ok _ false Hc') as [? Ht'].
      assert (cur (setConflict (setShortcut sc c) false) = c) as ->.
      { unfold cur, labelShortcut. rewrite Ht', Ht. destruct Hm as [-> _]. done. }
      rewrite Ht'. auto 10.
  - destruct (setShortcut_ok sc "000"%char Hc) as (Hc' & Hu' & _ & _ & Ht); [by left|].
    unfold clearShortcut. destruct (setConflict_ok _ false Hc') as [? Ht']. rewrite Ht'.
    split; [done|]. split; [done|]. split; [done|]. right.
    split; [|split; [done|by apply Hi]].
    unfold cur, labelShortcut. rewrite Ht', Ht. unfold markedString. rewrite decide_True by done.
    simpl. by rewrite findShortcut_unmark.
Qed.

(** ** The state between two resolutions *)

Record inv (texts : list cstring) (m : manager) (conflictList : list nat) : Prop := {
  inv_used_length : length (_used m) = 256%nat;
  inv_coherent : Forall coherent (_shortcutList m);
  inv_nodup : NoDup conflictList;
  inv_conflicts i :
    i ∈ conflictList <-> exists sc, _shortcutList m !! i = Some sc /\ _conflict sc = true;
  inv_untouched i sc :
    _shortcutList m !! i = Some sc -> _conflict sc = true -> untouched sc;
  (** exactly the characters of the settled shortcuts are in use *)
  inv_used c :
    isValid c = true -> normalized c = c ->
    at_char (_used m) c = true <->
    exists i sc, _shortcutList m !! i = Some sc /\ _conflict sc = false /\ cur sc = c;
  inv_unique i j si sj :
    i <> j -> _shortcutList m !! i = Some si -> _shortcutList m !! j = Some sj ->
    _conflict si = false -> _conflict sj = false -> isValid (cur si) = true -> cur si <> cur sj;
  (** a settled shortcut without a character has none left *)
  inv_dropped i sc x :
    _shortcutList m !! i = Some sc -> _conflict sc = false -> isValid (cur sc) = false ->
    x ∈ unmark (target sc) -> isValid x = true -> at_char (_used m) (normalized x) = true;
  inv_texts : map (fun sc => unmark (target sc)) (_shortcutList m) = texts;
  inv_count : _conflictCount m = Z.of_nat (length conflictList)
}.

Lemma lookup_update {A} (l : list A) i x y j z :
  l !! i = Some x ->
  <[i := y]> l !! j = Some z <-> i = j /\ y = z \/ i <> j /\ l !! j = Some z.
Proof.
  intros Hi%lookup_lt_Some. rewrite list_lookup_insert_Some. naive_solver lia.
Qed.

Lemma nodup_delete_elem {A} (l : list A) k x y :
  NoDup l -> l !! k = Some x -> y ∈ delete k l <-> y ∈ l /\ y <> x.
Proof.
  intros Hnd Hk. pose proof (delete_Permutation l k x Hk) as Hp.
  assert (Hy : y ∈ l <-> y = x \/ y ∈ delete k l) by (rewrite Hp at 1; apply elem_of_cons).
  rewrite Hp in Hnd. apply list.NoDup_cons in Hnd as [Hx _]. rewrite Hy. naive_solver.
Qed.

Section resolve_step.
Context (texts : list cstring) (m : manager) (conflictList : list nat) (k i : nat).
Context (Hinv : inv texts m conflictList) (Hk : conflictList !! k = Some i).
Context (sc sc' : YShortcut) (used' : list bool).
Context (Hsc : _shortcutList m !! i = Some sc).
Context (Hcoh : coherent sc') (Hcf : _conflict sc' = false).
Context (Htext : unmark (target sc') = unmark (target sc)).
Context (Hchoice :
  isValid (cur sc') = true /\ at_char (_used m) (cur sc') = false /\
    used' = set_char (_used m) (cur sc') true \/
  isValid (cur sc') = false /\ used' = _used m /\
    forall x, x ∈ unmark (target sc) -> isValid x = true -> at_char (_used m) (normalized x) = true).

Let L' := <[i := sc']> (_shortcutList m).

#[local] Lemma step_conflict : _conflict sc = true.
Proof.
  destruct (proj1 (inv_conflicts _ _ _ Hinv i)) as (sc0 & E & ?); [by eapply list_elem_of_lookup_2|].
  congruence.
Qed.

(** A settled shortcut of the new list is the new one or was settled before. *)
#[local] Lemma step_settled j sj :
  L' !! j = Some sj -> _conflict sj = false ->
  j = i /\ sj = sc' \/ j <> i /\ _shortcutList m !! j = Some sj.
Proof. intros [[<- <-]|[? ?]]%(lookup_update _ _ _ _ _ _ Hsc) _; auto. Qed.

#[local] Lemma step_kept j sj :
  _shortcutList m !! j = Some sj -> _conflict sj = false -> L' !! j = Some sj.
Proof.
  intros Hj Hf. apply (lookup_update _ _ _ _ _ _ Hsc). right. split; [|done].
  intros E. rewrite <- E, Hsc in Hj. pose proof step_conflict. congruence.
Qed.

#[local] Lemma step_used c :
  isValid c = true -> normalized c = c ->
  at_char used' c = true <-> at_char (_used m) c = true \/ c = cur sc'.
Proof.
  intros Hv Hn. destruct Hchoice as [(Hc & Hu & ->)|(Hc & -> & _)].
  - rewrite at_set_char; [|apply (inv_used_length _ _ _ Hinv)|auto with yui|done].
    case_decide; tauto.
  - split; [by left|]. intros [?| ->]; congruence.
Qed.

#[local] Lemma step_fresh j sj :
  _shortcutList m !! j = Some sj -> _conflict sj = false -> isValid (cur sc') = true ->
  cur sj <> cur sc'.
Proof.
  intros Hj Hf Hv E. destruct Hchoice as [(_ & Hu & _)|(? & _)]; [|congruence].
  apply not_true_iff_false in Hu. apply Hu, (inv_used _ _ _ Hinv); [done|auto with yui|]. eauto.
Qed.

Lemma resolve_step_inv :
  inv texts (mkManager L' (_wanted m) used' (_conflictCount m - 1) (_didCheck m))
      (delete k conflictList).
Proof.
  pose proof Hinv as [Hl Hcohs Hnd Hcs Hun Hus Huq Hdr Htx Hct].
  constructor; simpl.
  - destruct Hchoice as [(_ & _ & ->)|(_ & -> & _)]; [by rewrite length_set_char|done].
  - by apply Forall_insert.
  - rewrite delete_Permutation in Hnd by done. by apply list.NoDup_cons in Hnd as [_ ?].
  - intros j. rewrite (nodup_delete_elem _ _ i) by done. rewrite Hcs. unfold L'.
    setoid_rewrite (lookup_update _ _ _ _ _ _ Hsc). split.
    + intros [(s0 & E & F) Hne]. exists s0. split; [right; split; [congruence|done]|done].
    + intros (s0 & [[_ <-]|[Hne E]] & F); [congruence|]. split; [by exists s0|congruence].
  - intros j sj [[<- <-]|[? ?]]%(lookup_update _ _ _ _ _ _ Hsc) Hc; [congruence|by eapply Hun].
  - intros c Hv Hn. rewrite step_used, Hus by done. split.
    + intros [(j & sj & ? & ? & ?)| ->]; [exists j, sj; split; [by apply step_kept|done]|].
      exists i, sc'. split; [|done]. apply (lookup_update _ _ _ _ _ _ Hsc). auto.
    + intros (j & sj & Hj & Hf & E). destruct (step_settled _ _ Hj Hf) as [[-> ->]|[? ?]]; eauto 10.
  - intros j1 j2 s1 s2 Hne H1 H2 F1 F2 Hv.
    destruct (step_settled _ _ H1 F1) as [[-> ->]|[? ?]], (step_settled _ _ H2 F2) as [[-> ->]|[? ?]].
    + done.
    + intros E. by eapply (step_fresh j2 s2).
    + intros E. rewrite E in Hv. by eapply (step_fresh j1 s1).
    + by eapply (Huq j1 j2).
  - intros j sj x Hj Hf Hv Hx Hvx. rewrite step_used; [|by rewrite normalized_valid|auto with yui].
    left. destruct (step_settled _ _ Hj Hf) as [[-> ->]|[? ?]]; [|by eapply Hdr].
    rewrite Htext in Hx. destruct Hchoice as [(? & _)|(_ & _ & Hall)]; [congruence|by apply Hall].
  - rewrite <- Htx. unfold L'. rewrite list_fmap_insert. apply list_insert_id.
    by rewrite list_lookup_fmap, Hsc, Htext.
  - rewrite length_delete by eauto. apply lookup_lt_Some in Hk. lia.
Qed.
End resolve_step.

Lemma resolveConflict_inv texts m conflictList k i :
  inv texts m conflictList -> conflictList !! k = Some i ->
  inv texts (resolveConflict m i) (delete k conflictList) /\
  _wanted (resolveConflict m i) = _wanted m.
Proof.
  intros Hinv Hk. destruct (proj1 (inv_conflicts _ _ _ Hinv i)) as (sc & Hsc & Hcf);
    [by eapply list_elem_of_lookup_2|].
  unfold resolveConflict. rewrite Hsc.
  pose proof (resolveShortcut_spec (_wanted m) (_used m) sc (inv_untouched _ _ _ Hinv _ _ Hsc Hcf)) as H.
  destruct (resolveShortcut (_wanted m) (_used m) sc) as [sc' used'].
  destruct H as (? & ? & ? & ?). split; [|done]. by eapply resolve_step_inv.
Qed.

(** ** Which conflict is resolved next *)

Definition chars (sc : YShortcut) : Z := (distinctShortcutChars sc).1.

Lemma chars_nonneg sc : 0 <= chars sc.
Proof.
  unfold chars, distinctShortcutChars. destruct (Z.ltb_spec (_distinctShortcutChars sc) 0); [|done].
  destruct (cleanString sc). simpl. unfold countDistinct. lia.
Qed.

(** [r] is the index of an eligible element of [l] with the fewest characters,
    or negative if there is none. *)
Definition shortest (eligible : YShortcut -> bool) (l : list YShortcut) (r : Z) : Prop :=
  r < 0 /\ (forall sc, sc ∈ l -> eligible sc = false) \/
  0 <= r /\ exists best, l !! Z.to_nat r = Some best /\ eligible best = true /\
    forall sc, sc ∈ l -> eligible sc = true -> chars best <= chars sc.

Lemma lookup_last {A} (l : list A) x : (l ++ [x]) !! length l = Some x.
Proof. by rewrite lookup_app_r, Nat.sub_diag. Qed.

Lemma elem_of_snoc {A} (l : list A) x y : y ∈ l ++ [x] <-> y ∈ l \/ y = x.
Proof. rewrite elem_of_app, elem_of_cons, elem_of_nil. tauto. Qed.

Lemma shortestLoop_spec eligible seen rest si sl :
  shortest eligible seen si -> (si < 0 -> sl < 0) ->
  (forall best, 0 <= si -> seen !! Z.to_nat si = Some best -> sl = chars best) ->
  shortest eligible (seen ++ rest) (shortestLoop eligible rest (Z.of_nat (length seen)) si sl).
Proof.
  revert seen si sl; induction rest as [|sc rest IH]; intros seen si sl Hs Hneg Hlen; simpl;
    [by rewrite app_nil_r|].
  rewrite snoc_app. replace (Z.of_nat (length seen) + 1) with (Z.of_nat (length (seen ++ [sc])))
    by (rewrite length_app; simpl; lia).
  pose proof (chars_nonneg sc). fold (chars sc).
  assert (Hkeep : (eligible sc = false \/ 0 <= si /\ sl <= chars sc) -> shortest eligible (seen ++ [sc]) si).
  { intros Hk. destruct Hs as [[Hr Hno]|(Hr & best & Hb & He & Hmin)].
    - left. split; [done|]. intros s [?| ->]%elem_of_snoc; [by apply Hno|]. naive_solver lia.
    - right. split; [done|]. exists best. split; [by apply lookup_app_l_Some|]. split; [done|].
      intros s [?| ->]%elem_of_snoc Hel; [by apply Hmin|].
      rewrite (Hlen best Hr Hb) in Hk. destruct Hk as [?|[_ ?]]; [congruence|done]. }
  assert (Hsame : forall best, 0 <= si -> (seen ++ [sc]) !! Z.to_nat si = Some best -> sl = chars best).
  { intros best Hr Hb. destruct Hs as [[? _]|(_ & b & Hb' & _)]; [lia|].
    rewrite (lookup_app_l_Some _ _ _ _ Hb') in Hb. simplify_eq. by apply Hlen. }
  destruct (eligible sc) eqn:Ee; [|apply IH; auto].
  destruct ((sl <? 0) || (chars sc <? sl)) eqn:Eb.
  - apply IH; [|lia|intros best _; by rewrite Nat2Z.id, lookup_last; intros [= <-]].
    right. split; [lia|]. exists sc. rewrite Nat2Z.id, lookup_last. split; [done|]. split; [done|].
    intros s [Hin| ->]%elem_of_snoc Hel; [|lia].
    destruct Hs as [[_ Hno]|(Hr & best & Hb & _ & Hmin)]; [by rewrite Hno in Hel|].
    specialize (Hmin s Hin Hel). rewrite (Hlen best Hr Hb) in Eb.
    apply orb_true_iff in Eb as [?%Z.ltb_lt|?%Z.ltb_lt]; pose proof (chars_nonneg best); lia.
  - apply orb_false_iff in Eb as [?%Z.ltb_ge ?%Z.ltb_ge].
    apply IH; [apply Hkeep; right; lia|done|done].
Qed.

Lemma shortestLoop_start eligible l : shortest eligible l (shortestLoop eligible l 0 (-1) (-1)).
Proof.
  apply (shortestLoop_spec eligible [] l); [|done|lia].
  left. split; [done|]. intros s Hs. by apply elem_of_nil in Hs.
Qed.

(** The index of an element with the fewest characters; among those, a button
    if there is one. *)
Definition shortestWidget (l : list YShortcut) (r : Z) (best : YShortcut) : Prop :=
  0 <= r /\ l !! Z.to_nat r = Some best /\
  forall sc, sc ∈ l -> chars best < chars sc \/
    chars best = chars sc /\ (isButton sc = true -> isButton best = true).

Lemma shortestWidgetLoop_spec seen rest si best :
  shortestWidget seen si best ->
  exists best', shortestWidget (seen ++ rest)
    (shortestWidgetLoop rest (Z.of_nat (length seen)) si (chars best) best) best'.
Proof.
  revert seen si best; induction rest as [|sc rest IH]; intros seen si best Hs; simpl;
    [exists best; by rewrite app_nil_r|].
  rewrite snoc_app. replace (Z.of_nat (length seen) + 1) with (Z.of_nat (length (seen ++ [sc])))
    by (rewrite length_app; simpl; lia). fold (chars sc).
  destruct Hs as (Hr & Hb & Hmin).
  assert (Hnew : chars sc < chars best \/
                 chars sc = chars best /\ isButton sc = true /\ isButton best = false ->
                 shortestWidget (seen ++ [sc]) (Z.of_nat (length seen)) sc).
  { intros Hc. split; [lia|]. rewrite Nat2Z.id, lookup_last. split; [done|].
    intros s [Hin| ->]%elem_of_snoc; [|by right]. destruct (Hmin s Hin) as [?|[? ?]]; [left; lia|].
    destruct Hc as [?|(? & ? & ?)]; [left; lia|]. right. split; [lia|done]. }
  destruct (Z.ltb_spec (chars sc) (chars best)); [apply IH, Hnew; auto|].
  destruct ((chars sc =? chars best) && (isButton sc && negb (isButton best))) eqn:Eb.
  - rewrite !andb_true_iff, Z.eqb_eq, negb_true_iff in Eb. apply IH, Hnew. tauto.
  - apply IH. split; [done|]. split; [by apply lookup_app_l_Some|].
    intros s [Hin| ->]%elem_of_snoc; [by apply Hmin|].
    destruct (Z.eqb_spec (chars sc) (chars best)) as [E|]; [right|left; lia].
    split; [done|]. intros Hbt. rewrite Hbt in Eb. by destruct (isButton best).
Qed.

Lemma pick_index l :
  l <> [] -> exists sc, 0 <= pickConflictToResolve l /\
    l !! Z.to_nat (pickConflictToResolve l) = Some sc.
Proof.
  intros Hl. unfold pickConflictToResolve, findShortestMenuItem, findShortestWizardButton.
  destruct (shortestLoop_start isMenuItem l) as [[Hr _]|(Hr & b & Hb & _)];
    destruct (Z.ltb_spec (shortestLoop isMenuItem l 0 (-1) (-1)) 0); try lia; cycle 1.
  { destruct (Z.ltb_spec (shortestLoop isMenuItem l 0 (-1) (-1)) 0); [lia|eauto]. }
  destruct (shortestLoop_start isWizardButton l) as [[Hr' _]|(Hr' & b & Hb & _)];
    destruct (Z.ltb_spec (shortestLoop isWizardButton l 0 (-1) (-1)) 0); try lia; eauto.
  destruct l as [|sc l]; [done|].
  destruct (shortestWidgetLoop_spec [sc] l 0 sc) as (b & ? & ? & _); [|by exists b].
  split; [done|]. split; [done|]. intros s [->|Hs]%elem_of_cons; [auto|by apply elem_of_nil in Hs].
Qed.

(** ** All conflicts are resolved *)

Lemma objects_length texts m conflictList :
  inv texts m conflictList -> length (objects (_shortcutList m) conflictList) = length conflictList.
Proof.
  intros Hinv. unfold objects.
  assert (H : Forall (fun i => is_Some (_shortcutList m !! i)) conflictList).
  { apply List.Forall_forall. intros i (sc & E & _)%list_elem_of_In%(inv_conflicts _ _ _ Hinv).
    eauto. }
  clear Hinv. induction H as [|i l [sc E] _ IH]; simpl; [done|]. rewrite E. simpl. f_equal. exact IH.
Qed.

Lemma resolveLoop_inv texts fuel m conflictList :
  inv texts m conflictList -> (length conflictList <= fuel)%nat ->
  exists m', resolveLoop fuel m conflictList = Some m' /\ inv texts m' [] /\ _wanted m' = _wanted m.
Proof.
  revert m conflictList; induction fuel as [|fuel IH]; intros m cl Hinv Hf.
  - destruct cl; [|simpl in Hf; lia]. by exists m.
  - destruct cl as [|i0 cl0]; [by exists m|]. set (cl := i0 :: cl0) in *.
    change (resolveLoop (S fuel) m cl) with
      (let k := Z.to_nat (pickConflictToResolve (objects (_shortcutList m) cl)) in
       match cl !! k with
       | None => None
       | Some i => resolveLoop fuel (resolveConflict m i) (delete k cl)
       end).
    pose proof (objects_length texts m cl Hinv) as Hlen.
    destruct (pick_index (objects (_shortcutList m) cl)) as (sc & _ & Hpick).
    { intros E. rewrite E in Hlen. done. }
    set (k := Z.to_nat _) in *. apply lookup_lt_Some in Hpick. rewrite Hlen in Hpick.
    destruct (lookup_lt_is_Some_2 cl k Hpick) as [i Hi]. cbn zeta. rewrite Hi.
    destruct (resolveConflict_inv texts m cl k i Hinv Hi) as [Hinv' Hw].
    destruct (IH _ _ Hinv') as (m' & ? & ? & ?).
    { rewrite length_delete by eauto. simpl in *. lia. }
    exists m'. by rewrite <- Hw.
Qed.

(** ** The state after the check *)

Definition fresh (sc : YShortcut) : Prop := untouched sc /\ _conflict sc = false.

Lemma fresh_new label b w mi : fresh (newShortcut label b w mi).
Proof. split; [split; [apply coherent_new|done]|done]. Qed.

Lemma fresh_preferred sc :
  fresh sc -> fresh (preferred sc).2 /\ target (preferred sc).2 = target sc.
Proof.
  intros [[Hc Hs] Hf]. destruct (preferred_ok sc Hc) as (Hc' & Ht & _ & Es & _).
  split; [|done]. split; [by split; [|rewrite Es]|].
  unfold preferred. destruct (_ <? 0); [|done].
  pose proof (shortcutString_frame sc) as (_ & _ & _ & E). by destruct (shortcutString sc); simpl in *; congruence.
Qed.

Section swidget_ind.
Variable P : swidget -> Prop.
Hypothesis Hnode : forall cls wc sp items children,
  Forall P children -> P (SWidget cls wc sp items children).
Fixpoint swidget_tree_ind (w : swidget) : P w :=
  let 'SWidget cls wc sp items children := w in
  Hnode cls wc sp items children
    ((fix all (cs : list swidget) : Forall P cs :=
        match cs with
        | [] => List.Forall_nil P
        | c :: cs' => List.Forall_cons P c cs' (swidget_tree_ind c) (all cs')
        end) children).
End swidget_ind.

Lemma flat_map_Forall {A B} (P : B -> Prop) (f : A -> list B) l :
  Forall (fun x => Forall P (f x)) l -> Forall P (flat_map f l).
Proof. induction 1; simpl; [constructor|]. by apply Forall_app. Qed.

Lemma findShortcutWidgets_fresh widgets : Forall fresh (findShortcutWidgets widgets).
Proof.
  apply flat_map_Forall, List.Forall_forall. intros w _.
  induction w as [cls wc sp items children IH] using swidget_tree_ind. simpl.
  apply Forall_app. split; [|by apply flat_map_Forall].
  destruct (toSelectionWidget cls).
  - apply List.Forall_map, List.Forall_forall. intros. apply fresh_new.
  - destruct sp; [constructor|]. constructor; [apply fresh_new|constructor].
Qed.

(** [_wanted] counts. *)
Lemma countWanted_spec l c :
  Forall untouched l -> normalized c = c ->
  length (countWanted l) = 256%nat /\
  at_char (countWanted l) c = Z.of_nat (length (filter (fun sc => cur sc = c) l)).
Proof.
  intros Hl Hc. unfold countWanted.
  assert (H : forall w, length w = 256%nat ->
    let w' := fold_left (fun wanted sc => let c := (preferred sc).1 in
                           set_char wanted c (at_char wanted c + 1)) l w in
    length w' = 256%nat /\
    at_char w' c = at_char w c + Z.of_nat (length (filter (fun sc => cur sc = c) l))).
  { induction Hl as [|sc l Hsc Hl IH]; intros w Hw; simpl; [split; [done|lia]|].
    rewrite untouched_preferred by done.
    destruct (IH (set_char w (cur sc) (at_char w (cur sc) + 1))) as [H1 H2];
      [by rewrite length_set_char|].
    split; [exact H1|]. etransitivity; [exact H2|].
    rewrite at_set_char, filter_cons by auto with yui.
    destruct (decide (cur sc = c)) as [->|]; [rewrite decide_True by done; simpl; lia|].
    by rewrite decide_False by congruence. }
  destruct (H (replicate 256 0)) as [H1 H2]; [done|].
  split; [exact H1|]. etransitivity; [exact H2|]. by rewrite at_replicate.
Qed.

Definition marked (wanted : list Z) (sc : YShortcut) : YShortcut :=
  if isConflict wanted sc then setConflict sc true else sc.

Lemma marked_conflict wanted sc : fresh sc -> _conflict (marked wanted sc) = isConflict wanted sc.
Proof. intros [_ Hf]. unfold marked. by destruct (isConflict wanted sc). Qed.

Lemma reportLoop_spec wanted l used count :
  Forall fresh l -> length used = 256%nat ->
  let '(l', used', count') := reportLoop wanted l used count in
  l' = map (marked wanted) l /\ length used' = 256%nat /\
  count' = count + Z.of_nat (length (filter (fun sc => isConflict wanted sc = true) l)) /\
  forall c, normalized c = c ->
    at_char used' c = true <->
    at_char used c = true \/ exists sc, sc ∈ l /\ isConflict wanted sc = false /\ cur sc = c.
Proof.
  intros Hl. revert used count; induction Hl as [|sc l Hsc Hl IH]; intros used count Hu; simpl.
  { repeat (split; [try done; simpl; lia|]). intros c _. split; [auto|].
    intros [?|(sc & Hin & _)]; [done|by apply elem_of_nil in Hin]. }
  fold (marked wanted sc). rewrite (marked_conflict wanted sc Hsc).
  rewrite (untouched_preferred sc (proj1 Hsc)).
  set (used1 := if isConflict wanted sc then used else set_char used (cur sc) true).
  assert (Hu1 : length used1 = 256%nat).
  { unfold used1. destruct (isConflict wanted sc); [done|by rewrite length_set_char]. }
  specialize (IH used1 (if isConflict wanted sc then count + 1 else count) Hu1).
  destruct (reportLoop wanted l used1 _) as [[l' used'] count']. destruct IH as (-> & H1 & -> & H2).
  split; [done|]. split; [done|]. split.
  { rewrite filter_cons. destruct (isConflict wanted sc); [rewrite decide_True by done|
      rewrite decide_False by done]; simpl; lia. }
  intros c Hc. rewrite H2 by done. setoid_rewrite elem_of_cons. unfold used1.
  destruct (isConflict wanted sc) eqn:Ef.
  - split; [intros [?|(s & ? & ? & ?)]; [auto|right; exists s; auto]|].
    intros [?|(s & [->|?] & ? & ?)]; [auto|congruence|right; exists s; auto].
  - rewrite at_set_char by auto with yui. case_decide; subst.
    + split; [intros _; right; exists sc; auto|auto].
    + split; [intros [?|(s & ? & ? & ?)]; [auto|right; exists s; auto]|].
      intros [?|(s & [->|?] & ? & ?)]; [auto|congruence|right; exists s; auto].
Qed.

Lemma filter_two {A} (P : A -> Prop) `{!forall x, Decision (P x)} (l : list A) i j x y :
  i <> j -> l !! i = Some x -> l !! j = Some y -> P x -> P y -> (2 <= length (filter P l))%nat.
Proof.
  revert i j x y. assert (Hlt : forall i j x y, (i < j)%nat -> l !! i = Some x -> l !! j = Some y ->
    P x -> P y -> (2 <= length (filter P l))%nat).
  { intros i j x y Hij Hi Hj Hx Hy. apply list_elem_of_split_length in Hi as (l1 & l2 & -> & ->).
    rewrite lookup_app_r in Hj by lia.
    destruct (j - length l1)%nat as [|k] eqn:E; [lia|]. simpl in Hj.
    apply list_elem_of_lookup_2, list_elem_of_split in Hj as (l3 & l4 & ->).
    rewrite list.filter_app, filter_cons, list.filter_app, filter_cons, !decide_True by done.
    rewrite !length_app. simpl. rewrite !length_app. simpl. lia. }
  intros i j x y Hij Hi Hj Hx Hy. destruct (decide (i < j)%nat); [by eapply (Hlt i j)|].
  eapply (Hlt j i); eauto. lia.
Qed.

Section check_inv.
Context (l : list YShortcut) (Hl : Forall fresh l).

Let wanted := countWanted l.
Let l1 := map (fun sc => (preferred sc).2) l.
Let l2 := map (marked wanted) l1.

#[local] Lemma l1_fresh : Forall fresh l1.
Proof. eapply Forall_map_intro; [|exact Hl]. intros sc Hsc. by apply fresh_preferred. Qed.

#[local] Lemma l1_cur : map cur l1 = map cur l.
Proof.
  unfold l1. rewrite map_map. apply map_ext_in. intros sc Hin%list_elem_of_In.
  unfold cur. f_equal. apply fresh_preferred. by apply (Forall_at fresh l).
Qed.

(** An entry of the marked list comes from a fresh object. *)
#[local] Lemma l2_lookup i sc :
  l2 !! i = Some sc ->
  exists sc0, l1 !! i = Some sc0 /\ fresh sc0 /\ sc = marked wanted sc0 /\
    _conflict sc = isConflict wanted sc0 /\ target sc = target sc0 /\ untouched sc.
Proof.
  unfold l2. rewrite list_lookup_fmap. intros (sc0 & Hi & ->)%fmap_Some. exists sc0.
  assert (Hf : fresh sc0) by (eapply Forall_lookup_1; [apply l1_fresh|done]).
  split; [done|]. split; [done|]. split; [done|]. split; [by apply marked_conflict|].
  unfold marked. destruct (isConflict wanted sc0); [|by split; [|apply Hf]].
  destruct Hf as [[Hc Hs] _]. destruct (setConflict_ok sc0 true Hc) as [Hc' Ht].
  split; [exact Ht|]. split; [exact Hc'|exact Hs].
Qed.

(** Two settled shortcuts never show the same character. *)
#[local] Lemma l2_unique i j si sj :
  i <> j -> l2 !! i = Some si -> l2 !! j = Some sj ->
  _conflict si = false -> isValid (cur si) = true -> cur si <> cur sj.
Proof.
  intros Hij (s1 & H1 & F1 & _ & C1 & T1 & _)%l2_lookup (s2 & H2 & F2 & _ & C2 & T2 & _)%l2_lookup.
  intros Hc Hv E. unfold cur in Hv, E. rewrite T1 in Hv, E. rewrite T2 in E.
  rewrite Hc in C1. symmetry in C1. unfold isConflict in C1.
  rewrite (untouched_preferred s1 (proj1 F1)) in C1. unfold cur in C1. rewrite Hv in C1.
  assert (Hu : Forall untouched l) by (eapply List.Forall_impl; [|exact Hl]; by intros ? []).
  fold (cur s1) in C1. unfold wanted in C1.
  rewrite (proj2 (countWanted_spec l (cur s1) Hu (cur_normalized s1))) in C1.
  assert (Hcur : forall k s, l1 !! k = Some s -> exists s0, l !! k = Some s0 /\ cur s0 = cur s).
  { intros k s Hk. assert (Hm : map cur l !! k = Some (cur s)).
    { rewrite <- l1_cur, list_lookup_fmap, Hk. done. }
    rewrite list_lookup_fmap in Hm. apply fmap_Some in Hm as (s0 & ? & ?). by exists s0. }
  destruct (Hcur i s1 H1) as (a & Ha & Ea), (Hcur j s2 H2) as (b & Hb & Eb).
  pose proof (filter_two (fun sc => cur sc = cur s1) l i j a b Hij Ha Hb Ea ltac:(unfold cur in *; congruence)).
  lia.
Qed.

Lemma check_inv :
  let '(l', used, count) := reportLoop wanted l1 (replicate 256 false) 0 in
  l' = l2 /\
  inv (map (fun sc => unmark (target sc)) l) (mkManager l2 wanted used count true) (conflictIndices l2).
Proof.
  pose proof (reportLoop_spec wanted l1 (replicate 256 false) 0 l1_fresh eq_refl) as H.
  destruct (reportLoop wanted l1 (replicate 256 false) 0) as [[l' used] count].
  destruct H as (-> & Hlen & Hcount & Hused). split; [done|]. constructor; simpl.
  - done.
  - apply Forall_lookup. intros i sc (_ & _ & _ & _ & _ & _ & [? _])%l2_lookup. done.
  - apply list.NoDup_filter, NoDup_ListNoDup, seq_NoDup.
  - intros i. unfold conflictIndices. rewrite list_elem_of_filter, elem_of_seq, fmap_Some.
    split; [intros [(sc & ? & ?) _]; eauto|]. intros (sc & Hi & ?).
    split; [eauto|]. apply lookup_lt_Some in Hi. lia.
  - by intros i sc (_ & _ & _ & _ & _ & _ & ?)%l2_lookup _.
  - intros c Hv Hn. rewrite Hused, at_replicate by done. split.
    + intros [?|(sc & Hin & Hc & E)]; [done|]. apply list_elem_of_lookup in Hin as [i Hi].
      assert (Hi2 : l2 !! i = Some (marked wanted sc)) by (unfold l2; by rewrite list_lookup_fmap, Hi).
      exists i, (marked wanted sc). split; [done|]. unfold marked. rewrite Hc. split; [|done].
      apply (Forall_lookup_1 _ _ _ _ l1_fresh Hi).
    + intros (i & sc & (sc0 & Hi & _ & _ & C & T & _)%l2_lookup & F & E). right. exists sc0.
      split; [by eapply list_elem_of_lookup_2|]. split; [congruence|]. unfold cur in *. congruence.
  - intros i j si sj Hij Hi Hj F1 _. by eapply l2_unique.
  - intros i sc x (sc0 & Hi & Hf & _ & C & T & Hu)%l2_lookup F Hv Hx _. exfalso.
    rewrite F in C. symmetry in C. unfold isConflict in C. unfold cur in Hv. rewrite T in *.
    rewrite (untouched_preferred sc0 (proj1 Hf)) in C. unfold cur in C. rewrite Hv in C.
    destruct (cleanString_ok sc0 (proj1 (proj1 Hf))) as (E & _). rewrite E in C.
    destruct (unmark (target sc0)); [by apply elem_of_nil in Hx|done].
  - apply list_eq. intros i. unfold l2, l1. rewrite !list_lookup_fmap.
    destruct (l !! i) as [sc|] eqn:Hi; [|done]. simpl. do 2 f_equal.
    pose proof (Forall_lookup_1 _ _ _ _ Hl Hi) as [Hf E]%fresh_preferred. rewrite <- E.
    unfold marked. by destruct (isConflict wanted _).
  - rewrite Hcount. unfold conflictIndices, l2. rewrite <- (count_indices _conflict).
    rewrite Z.add_0_l. f_equal. pose proof l1_fresh as Hf. clear -Hf.
    induction Hf as [|sc k Hsc Hf IH]; simpl; [done|]. rewrite !filter_cons, marked_conflict by done.
    case_decide; simpl; auto.
Qed.
End check_inv.

(** A check with automatic resolution ends in a state without conflicts. *)
Lemma check_final m dialog :
  let l := findShortcutWidgets dialog in
  MIN_VALID_PERCENT <= validPercent l ->
  exists m', checkShortcuts m dialog true = Some m' /\
    inv (map (fun sc => unmark (target sc)) l) m' [].
Proof.
  intros l Hp. unfold checkShortcuts. fold l.
  destruct (Z.ltb_spec (validPercent l) MIN_VALID_PERCENT); [lia|].
  pose proof (check_inv l (findShortcutWidgets_fresh dialog)) as H0.
  destruct (reportLoop _ _ _ 0) as [[l' used] count]. destruct H0 as [-> Hinv].
  pose proof (inv_count _ _ _ Hinv) as Hc. simpl in Hc.
  destruct (Z.gtb_spec count 0) as [Hgt|Hle]; simpl.
  - unfold resolveAllConflicts. simpl. rewrite <- Hc.
    destruct (resolveLoop_inv _ _ _ _ Hinv (le_n _)) as (m' & E & ? & _). eauto.
  - destruct (conflictIndices _); [eauto|simpl in Hc; lia].
Qed.

(** Shortcuts without a conflict keep their label. *)
Lemma resolveConflict_other m i j :
  i <> j -> _shortcutList (resolveConflict m i) !! j = _shortcutList m !! j.
Proof.
  intros Hij. unfold resolveConflict. destruct (_shortcutList m !! i); [|done].
  destruct (resolveShortcut _ _ _). simpl. by apply list_lookup_insert_ne.
Qed.

Lemma resolveLoop_other fuel m conflictList m' j :
  resolveLoop fuel m conflictList = Some m' -> j ∉ conflictList ->
  _shortcutList m' !! j = _shortcutList m !! j.
Proof.
  revert m conflictList; induction fuel as [|fuel IH]; intros m [|i0 cl] E Hj; simpl in E;
    [congruence|done|congruence|].
  set (k := Z.to_nat _) in E. change (match (i0 :: cl) !! k with
    | Some i => resolveLoop fuel (resolveConflict m i) (delete k (i0 :: cl)) | None => None end
    = Some m') in E.
  destruct ((i0 :: cl) !! k) as [i|] eqn:Ek; [|done].
  rewrite (IH _ _ E); [apply resolveConflict_other|].
  - intros ->. by apply Hj, (list_elem_of_lookup_2 _ k).
  - intros Hin. apply Hj. rewrite (delete_Permutation (i0 :: cl) k i Ek). by right.
Qed.

(** ** Properties *)

(** C2: [checkShortcuts()] with automatic resolution terminates; afterwards no
    two shortcuts of the dialog show the same valid character, no conflict is
    marked or counted, and the text of every label is unchanged. (The check
    gives up, leaving all labels alone, only if less than half of the labels
    contain a valid character.) *)
Theorem shortcuts_unique (m : manager) (dialog : list swidget) :
  MIN_VALID_PERCENT <= validPercent (findShortcutWidgets dialog) ->
  exists m', checkShortcuts m dialog true = Some m' /\
    (forall i j si sj, i <> j ->
       _shortcutList m' !! i = Some si -> _shortcutList m' !! j = Some sj ->
       isValid (labelShortcut (target si)) = true ->
       labelShortcut (target si) <> labelShortcut (target sj)) /\
    _conflictCount m' = 0 /\
    Forall (fun sc => _conflict sc = false) (_shortcutList m') /\
    map (fun sc => cleanShortcutString (target sc)) (_shortcutList m') =
    map (fun sc => cleanShortcutString (target sc)) (findShortcutWidgets dialog).
Proof.
  intros Hp. destruct (check_final m dialog Hp) as (m' & E & Hinv). exists m'. split; [done|].
  assert (Hno : forall i sc, _shortcutList m' !! i = Some sc -> _conflict sc = false).
  { intros i sc Hi. apply not_true_iff_false. intros Hc.
    by apply (not_elem_of_nil i), (inv_conflicts _ _ _ Hinv); eauto. }
  split; [|split; [exact (inv_count _ _ _ Hinv)|split]].
  - intros i j si sj Hij Hi Hj. by apply (inv_unique _ _ _ Hinv i j); eauto.
  - apply Forall_lookup. eauto.
  - pose proof (inv_texts _ _ _ Hinv) as Ht. setoid_rewrite cleanShortcutString_unmark. exact Ht.
Qed.

(** No shortcut is lost needlessly: if a label ends up without a valid
    shortcut, every valid character of its text is the shortcut of another
    widget or item. *)
Theorem shortcuts_not_wasted (m : manager) (dialog : list swidget) :
  MIN_VALID_PERCENT <= validPercent (findShortcutWidgets dialog) ->
  exists m', checkShortcuts m dialog true = Some m' /\
    forall i sc x,
      _shortcutList m' !! i = Some sc -> isValid (labelShortcut (target sc)) = false ->
      x ∈ cleanShortcutString (target sc) -> isValid x = true ->
      exists j sj, j <> i /\ _shortcutList m' !! j = Some sj /\
                   labelShortcut (target sj) = normalized x.
Proof.
  intros Hp. destruct (check_final m dialog Hp) as (m' & E & Hinv). exists m'. split; [done|].
  intros i sc x Hi Hv Hx Hvx. rewrite cleanShortcutString_unmark in Hx.
  assert (Hf : _conflict sc = false).
  { apply not_true_iff_false. intros Hc.
    by apply (not_elem_of_nil i), (inv_conflicts _ _ _ Hinv); eauto. }
  pose proof (inv_dropped _ _ _ Hinv i sc x Hi Hf Hv Hx Hvx) as Hu.
  apply (inv_used _ _ _ Hinv) in Hu as (j & sj & Hj & _ & Ec);
    [|by rewrite normalized_valid|apply normalized_idemp].
  exists j, sj. split; [|done]. intros ->. rewrite Hi in Hj. injection Hj as <-.
  unfold cur in Ec. rewrite Ec, normalized_valid in Hv. congruence.
Qed.

(** A label whose shortcut is valid and wanted by no other widget or item
    keeps it: the label is not changed at all. *)
Theorem shortcut_kept (m : manager) (dialog : list swidget) (i : nat) (sc0 : YShortcut) :
  MIN_VALID_PERCENT <= validPercent (findShortcutWidgets dialog) ->
  findShortcutWidgets dialog !! i = Some sc0 -> isValid (labelShortcut (target sc0)) = true ->
  length (filter (fun sc => labelShortcut (target sc) = labelShortcut (target sc0))
                 (findShortcutWidgets dialog)) = 1%nat ->
  exists m' sc, checkShortcuts m dialog true = Some m' /\
    _shortcutList m' !! i = Some sc /\ target sc = target sc0.
Proof.
  set (l := findShortcutWidgets dialog). intros Hp Hi Hv Hone.
  unfold checkShortcuts. fold l. destruct (Z.ltb_spec (validPercent l) MIN_VALID_PERCENT); [lia|].
  pose proof (findShortcutWidgets_fresh dialog) as Hl. pose proof (check_inv l Hl) as H0.
  destruct (reportLoop _ _ _ 0) as [[l' used] count]. destruct H0 as [-> Hinv].
  pose proof (Forall_lookup_1 _ _ _ _ Hl Hi) as Hf0.
  destruct (fresh_preferred sc0 Hf0) as [Hf Ht].
  assert (Hnc : isConflict (countWanted l) (preferred sc0).2 = false).
  { unfold isConflict. rewrite (untouched_preferred _ (proj1 Hf)). unfold cur. rewrite Ht, Hv.
    rewrite (proj2 (countWanted_spec l _ ltac:(eapply List.Forall_impl; [|exact Hl]; by intros ? [])
              (label_normalized _))).
    rewrite (list_filter_iff _ (fun sc => labelShortcut (target sc) = labelShortcut (target sc0))) by done.
    by rewrite Hone. }
  set (l2 := map (marked (countWanted l)) (map (fun sc => (preferred sc).2) l)) in *.
  assert (Hi2 : l2 !! i = Some (preferred sc0).2).
  { unfold l2. rewrite !list_lookup_fmap, Hi. simpl. unfold marked. by rewrite Hnc. }
  destruct (Z.gtb_spec count 0) as [Hgt|Hle]; simpl; [|by eauto].
  pose proof (inv_count _ _ _ Hinv) as Hc. simpl in Hc.
  unfold resolveAllConflicts. simpl. rewrite <- Hc.
  destruct (resolveLoop_inv _ _ _ _ Hinv (le_n _)) as (m' & E & _).
  exists m', (preferred sc0).2. split; [done|]. split; [|done].
  rewrite (resolveLoop_other _ _ _ _ i E); [done|].
  intros (sc & Hsc & Hcf)%(inv_conflicts _ _ _ Hinv). simpl in Hsc. rewrite Hi2 in Hsc.
  injection Hsc as <-. destruct Hf. congruence.
Qed.

(** The conflict resolved next is a menu item if there is one, else a
    wizard button, else any widget, and has the fewest distinct shortcut
    characters among those; among equally short widgets a button comes first.
    The index is always inside the list. *)
Theorem pick_priority (conflicts : list YShortcut) :
  conflicts <> [] ->
  exists best, 0 <= pickConflictToResolve conflicts /\
    conflicts !! Z.to_nat (pickConflictToResolve conflicts) = Some best /\
    forall sc, sc ∈ conflicts ->
      isMenuItem sc = true /\ isMenuItem best = true /\ chars best <= chars sc \/
      isMenuItem sc = false /\ isMenuItem best = true \/
      isMenuItem sc = false /\ isMenuItem best = false /\
      (isWizardButton sc = true /\ isWizardButton best = true /\ chars best <= chars sc \/
       isWizardButton sc = false /\ isWizardButton best = true \/
       isWizardButton sc = false /\ isWizardButton best = false /\
       (chars best < chars sc \/
        chars best = chars sc /\ (isButton sc = true -> isButton best = true))).
Proof.
  intros Hne. unfold pickConflictToResolve, findShortestMenuItem, findShortestWizardButton.
  destruct (shortestLoop_start isMenuItem conflicts) as [[Hr Hno]|(Hr & b & Hb & He & Hmin)].
  2: { rewrite !(proj2 (Z.ltb_ge _ 0) Hr). exists b. split; [done|]. split; [done|].
       intros sc Hsc. specialize (Hmin sc Hsc). destruct (isMenuItem sc); auto. }
  rewrite (proj2 (Z.ltb_lt _ 0) Hr).
  destruct (shortestLoop_start isWizardButton conflicts) as [[Hr' Hno']|(Hr' & b & Hb & He & Hmin)].
  2: { rewrite (proj2 (Z.ltb_ge _ 0) Hr'). exists b. split; [done|]. split; [done|].
       intros sc Hsc. specialize (Hmin sc Hsc).
       rewrite (Hno sc Hsc), (Hno b) by (by eapply list_elem_of_lookup_2).
       destruct (isWizardButton sc); auto 10. }
  rewrite (proj2 (Z.ltb_lt _ 0) Hr'). destruct conflicts as [|sc l]; [done|].
  destruct (shortestWidgetLoop_spec [sc] l 0 sc) as (b & Hp & Hb & Hmin).
  { split; [done|]. split; [done|]. intros s [->|Hs]%elem_of_cons; [auto|by apply elem_of_nil in Hs]. }
  exists b. split; [done|]. split; [done|]. intros s Hs. apply list_elem_of_lookup_2 in Hb as Hbin.
  rewrite (Hno s Hs), (Hno b Hbin), (Hno' s Hs), (Hno' b Hbin). auto 10 using Hmin.
Qed.

(** The pick loop prefers the characters that the fewest other shortcuts
    want. *)
Lemma pickCandidate_least wanted used s cand :
  Forall (fun n => 0 <= n) wanted -> normalized cand = cand ->
  isValid (pickCandidate wanted used s cand) = true ->
  (isValid cand = true ->
     at_char wanted (pickCandidate wanted used s cand) <= at_char wanted cand) /\
  forall x, x ∈ s -> isValid x = true -> at_char used (normalized x) = false ->
    at_char wanted (pickCandidate wanted used s cand) <= at_char wanted (normalized x).
Proof.
  intros Hw. assert (Hnn : forall c, 0 <= at_char wanted c).
  { intros c. unfold at_char. destruct (wanted !! Z.to_nat (int_of c)) as [n|] eqn:E.
    - rewrite (list_lookup_total_correct _ _ _ E). by apply (Forall_lookup_1 _ _ _ _ Hw E).
    - by rewrite list_lookup_total_alt, E. }
  revert cand; induction s as [|x s IH]; intros cand Hn; cbn -[normalized isValid];
    [intros; split; [lia|intros y Hy; by apply elem_of_nil in Hy]|].
  rewrite normalized_valid. destruct (isValid x && negb (at_char used (normalized x))) eqn:Ex.
  - apply andb_true_iff in Ex as [Hv Hu%negb_true_iff].
    destruct ((_ <? _) || negb (isValid cand)) eqn:Eb.
    + destruct (Z.eqb_spec (at_char wanted (normalized x)) 0) as [Ez|].
      * intros _. split; [intros; rewrite Ez; apply Hnn|]. intros. rewrite Ez. apply Hnn.
      * intros Hc. destruct (IH (normalized x) (normalized_idemp x) Hc) as [H1 H2].
        rewrite normalized_valid in H1. specialize (H1 Hv). split.
        -- intros Hcv. rewrite Hcv, orb_false_r in Eb. apply Z.ltb_lt in Eb. lia.
        -- intros y [->|Hy]%elem_of_cons; auto.
    + apply orb_false_iff in Eb as [Hge%Z.ltb_ge Hcv%negb_false_iff]. intros Hc.
      destruct (IH cand Hn Hc) as [H1 H2]. specialize (H1 Hcv). split; [auto|].
      intros y [->|Hy]%elem_of_cons; [lia|auto].
  - intros Hc. destruct (IH cand Hn Hc) as [H1 H2]. split; [done|].
    intros y [->|Hy]%elem_of_cons Hvy Huy; [|auto]. rewrite Hvy, Huy in Ex. done.
Qed.

(** [resolveConflict()] keeps a preferred character that is still free;
    otherwise it picks, among the free characters of the label, one that is
    wanted by the fewest shortcuts. *)
Theorem candidate_least_wanted (wanted : list Z) (used : list bool) (label : cstring)
    (button wizard menuItem : bool) (sc : YShortcut) :
  Forall (fun n => 0 <= n) wanted -> rtc step (newShortcut label button wizard menuItem) sc ->
  isValid (candidateFor wanted used sc) = true ->
  candidateFor wanted used sc = (preferred sc).1 \/
  forall x, x ∈ cleanShortcutString (target sc) -> isValid x = true ->
    at_char used (normalized x) = false ->
    at_char wanted (candidateFor wanted used sc) <= at_char wanted (normalized x).
Proof.
  intros Hw [Hc _]%reachable_ok; [|apply coherent_new]. unfold candidateFor.
  destruct (negb (isValid (preferred sc).1) || at_char used (preferred sc).1); [|by left].
  destruct (cleanString_ok sc Hc) as (-> & _). rewrite cleanShortcutString_unmark.
  intros Hv. right. by apply pickCandidate_least.
Qed.

(** ** Examples *)

Definition button (label : string) : swidget :=
  SWidget PushButton (str "YPushButton") (str label) [] [].

(** The example of the documentation: three buttons with the same label. *)
Definition threeOKs : list swidget := [button "&OK"; button "&OK"; button "&OK"].

Definition labels (m : manager) : list string :=
  map (fun sc => String.string_of_list_ascii (target sc)) (_shortcutList m).

Lemma shortcuts_unique_witness :
  labels <$> checkShortcuts newManager threeOKs true = Some ["&OK"; "O&K"; "OK"]%string /\
  exists m', checkShortcuts newManager threeOKs true = Some m' /\ _conflictCount m' = 0.
Proof.
  split; [vm_compute; reflexivity|].
  destruct (shortcuts_unique newManager threeOKs) as (m' & E & _ & Hc & _); [zeval|].
  exists m'. split; [exact E|exact Hc].
Defined.

Lemma shortcuts_not_wasted_witness :
  exists m' j sj, checkShortcuts newManager threeOKs true = Some m' /\ j <> 2%nat /\
    _shortcutList m' !! j = Some sj /\ labelShortcut (target sj) = "K"%char.
Proof.
  destruct (shortcuts_not_wasted newManager threeOKs) as (m' & E & H); [zeval|].
  vm_compute in E. injection E as <-.
  destruct (H 2%nat _ "K"%char eq_refl) as (j & sj & Hj & Hs & Hc).
  - vm_compute. reflexivity.
  - vm_compute. right. left.
  - reflexivity.
  - eexists. exists j, sj. split; [vm_compute; reflexivity|]. split; [exact Hj|]. split; [exact Hs|exact Hc].
Defined.

Lemma shortcut_kept_witness :
  let dialog := [button "&Quit"; button "&OK"; button "&OK"] in
  exists m' sc, checkShortcuts newManager dialog true = Some m' /\
    _shortcutList m' !! 0%nat = Some sc /\ target sc = str "&Quit".
Proof.
  intros dialog.
  apply (shortcut_kept newManager dialog 0 (newShortcut (str "&Quit") true false false));
    [zeval|vm_compute; reflexivity..].
Defined.

Lemma pick_priority_witness :
  exists best, 0 <= pickConflictToResolve (findShortcutWidgets threeOKs) /\
    findShortcutWidgets threeOKs !!
      Z.to_nat (pickConflictToResolve (findShortcutWidgets threeOKs)) = Some best.
Proof.
  destruct (pick_priority (findShortcutWidgets threeOKs)) as (best & H1 & H2 & _); [done|].
  exists best. split; [exact H1|exact H2].
Defined.

Lemma candidate_least_wanted_witness :
  let sc := newShortcut (str "&OK") true false false in
  let wanted := set_char (replicate 256 0) "O"%char 3 in
  let used := set_char (replicate 256 false) "O"%char true in
  candidateFor wanted used sc = "K"%char /\ at_char wanted "K"%char <= at_char wanted "K"%char.
Proof.
  intros sc wanted used. split; [vm_compute; reflexivity|].
  destruct (candidate_least_wanted wanted used (str "&OK") true false false sc) as [E|H].
  - unfold wanted. apply Forall_insert; [apply Forall_replicate; lia|lia].
  - apply rtc_refl.
  - vm_compute. reflexivity.
  - exfalso. vm_compute in E. discriminate E.
  - specialize (H "K"%char). replace (candidateFor wanted used sc) with "K"%char in H
      by (vm_compute; reflexivity).
    apply H; [vm_compute; right; left|reflexivity|vm_compute; reflexivity].
Defined.

End YShortcutManager.
