(* ===== verification/ButtonBox.v ===== *)
(** * Dialog buttons

    src/libyui/src/YPushButton.cc: the role of a button and its function key.
    src/libyui/src/YButtonBox.cc: a row of dialog buttons, ordered by role as
    the desktop environment wants it, and its layout. A button is identified
    by [bid], standing for its address. *)

From S2P Require Import Prelude CNum Geometry Shortcut.

Inductive YButtonRole : Type :=
| YCustomButton
| YOKButton
| YApplyButton
| YCancelButton
| YHelpButton
| YRelNotesButton
| YMaxButtonRole.

#[global] Instance YButtonRole_eq_dec : EqDecision YButtonRole.
Proof. solve_decision. Defined.

(** The value of the enumerator. *)
Definition roleIndex (r : YButtonRole) : nat :=
  match r with
  | YCustomButton => 0
  | YOKButton => 1
  | YApplyButton => 2
  | YCancelButton => 3
  | YHelpButton => 4
  | YRelNotesButton => 5
  | YMaxButtonRole => 6
  end.

Inductive YButtonOrder : Type := YKDEButtonOrder | YGnomeButtonOrder.

Module YPushButton.

(** A push button: the members the role logic uses, and the preferred size the
    UI plug-in gives it. *)
Record YPushButton : Type := mkButton {
  bid : nat;
  label : cstring;
  isHelpButton : bool;
  isRelNotesButton : bool;
  role : YButtonRole;
  functionKey : Z;
  prefWidth : Z;
  prefHeight : Z
}.

Definition hasFunctionKey (b : YPushButton) : bool := functionKey b >? 0.

Definition withRole (b : YPushButton) (r : YButtonRole) : YPushButton :=
  mkButton (bid b) (label b) (isHelpButton b) (isRelNotesButton b) r (functionKey b)
           (prefWidth b) (prefHeight b).

Definition withKey (b : YPushButton) (k : Z) : YPushButton :=
  mkButton (bid b) (label b) (isHelpButton b) (isRelNotesButton b) (role b) k
           (prefWidth b) (prefHeight b).

Definition setHelpButton (b : YPushButton) (helpButton : bool) : YPushButton :=
  mkButton (bid b) (label b) helpButton (isRelNotesButton b) YHelpButton (functionKey b)
           (prefWidth b) (prefHeight b).

Definition setRelNotesButton (b : YPushButton) (relNotesButton : bool) : YPushButton :=
  mkButton (bid b) (label b) (isHelpButton b) relNotesButton YRelNotesButton (functionKey b)
           (prefWidth b) (prefHeight b).

(** The function key is guessed from the role, unless there is one already. *)
Definition setRole (b : YPushButton) (r : YButtonRole) : YPushButton :=
  let b := withRole b r in
  if negb (hasFunctionKey b) then
    match role b with
    | YOKButton => withKey b 10
    | YCancelButton => withKey b 9
    | YApplyButton => withKey b 10
    | YHelpButton => withKey b 1
    | _ => b
    end
  else b.

(** The role is guessed from the function key, unless there is one already. *)
Definition setFunctionKey (b : YPushButton) (fkey_no : Z) : YPushButton :=
  let b := withKey b fkey_no in
  if decide (role b = YCustomButton) then
    if functionKey b =? 10 then withRole b YOKButton
    else if functionKey b =? 9 then withRole b YCancelButton
    else if functionKey b =? 1 then withRole b YHelpButton
    else b
  else b.

(** The constructor: [defaultFunctionKey] is the function key that the
    application registered for the label, 0 if none. *)
Definition newButton (bid : nat) (label : cstring) (defaultFunctionKey : Z) (w h : Z)
  : YPushButton :=
  let b := mkButton bid label false false YCustomButton 0 w h in
  if (defaultFunctionKey >? 0) && negb (hasFunctionKey b) then setFunctionKey b defaultFunctionKey
  else b.

(** [YWidget::debugLabel()] of a button. *)
Definition MAX_DEBUG_LABEL_LEN : nat := 50.

Definition debugLabel (b : YPushButton) : cstring :=
  let l := YShortcut.cleanShortcutString (label b) in
  let l := if (MAX_DEBUG_LABEL_LEN <? length l)%nat then take MAX_DEBUG_LABEL_LEN l ++ str "..." else l in
  map (fun c => if decide (c = Ascii.ascii_of_nat 10) then Ascii.ascii_of_nat 32 else c) l.

End YPushButton.
Export YPushButton (YPushButton).

Module YButtonBox.
Import YPushButton.

Record YButtonBoxLayoutPolicy : Type := mkPolicy {
  buttonOrder : YButtonOrder;
  equalSizeButtons : bool;
  addExcessSpaceToHelpButtonExtraMargin : bool;
  alignment : YBothDim YAlignmentType
}.

Definition newLayoutPolicy : YButtonBoxLayoutPolicy :=
  mkPolicy YKDEButtonOrder false false (BothDim YAlignBegin YAlignCenter).

Definition kdeLayoutPolicy : YButtonBoxLayoutPolicy :=
  let policy := newLayoutPolicy in
  mkPolicy YKDEButtonOrder false (addExcessSpaceToHelpButtonExtraMargin policy)
    (BothDim YAlignBegin YAlignCenter).

Definition gnomeLayoutPolicy : YButtonBoxLayoutPolicy :=
  mkPolicy YGnomeButtonOrder true true (BothDim YAlignBegin YAlignEnd).

Record YButtonBoxMargins : Type := mkMargins {
  left : Z;
  right : Z;
  top : Z;
  bottom : Z;
  spacing : Z;
  helpButtonExtraSpacing : Z
}.

Definition newMargins : YButtonBoxMargins := mkMargins 0 0 0 0 0 0.

(** A child of the box: [dynamic_cast<YPushButton *>] succeeds or not. *)
Inductive boxChild : Type :=
| ChildButton (b : YPushButton)
| ChildOther (prefW prefH : Z).

Record YButtonBox : Type := mkBox {
  sanityCheckRelaxed : bool;
  margins : YButtonBoxMargins;
  children : list boxChild
}.

(** The constructor takes the default margins of the class. *)
Definition newButtonBox (defaultMargins : YButtonBoxMargins) : YButtonBox :=
  mkBox false defaultMargins [].

Definition setMargins (box : YButtonBox) (m : YButtonBoxMargins) : YButtonBox :=
  mkBox (sanityCheckRelaxed box) m (children box).

Definition setSanityCheckRelaxed (box : YButtonBox) (relaxed : bool) : YButtonBox :=
  mkBox relaxed (margins box) (children box).

Definition childSize (c : boxChild) (d : YUIDimension) : Z :=
  match c, d with
  | ChildButton b, YD_HORIZ => prefWidth b
  | ChildButton b, YD_VERT => prefHeight b
  | ChildOther w _, YD_HORIZ => w
  | ChildOther _ h, YD_VERT => h
  end.

Definition childrenCount (box : YButtonBox) : Z := Z.of_nat (length (children box)).

(** ** Sizes *)

Definition maxChildSize (box : YButtonBox) (d : YUIDimension) : Z :=
  fold_left (fun maxSize c => Z.max maxSize (childSize c d)) (children box) 0.

Definition totalChildrenWidth (box : YButtonBox) : Z :=
  sumZ (map (fun c => childSize c YD_HORIZ) (children box)).

Definition findButton (box : YButtonBox) (r : YButtonRole) : option YPushButton :=
  (fix go (cs : list boxChild) : option YPushButton :=
     match cs with
     | [] => None
     | ChildButton b :: rest => if decide (role b = r) then Some b else go rest
     | ChildOther _ _ :: rest => go rest
     end) (children box).

Definition preferredWidthWith (box : YButtonBox) (equalSize : bool) : Z :=
  if childrenCount box <? 1 then 0
  else
    let width := (childrenCount box - 1) * spacing (margins box) in
    let width :=
      width + (if equalSize then maxChildSize box YD_HORIZ * childrenCount box
               else totalChildrenWidth box) in
    let width := width + left (margins box) in
    let width := width + right (margins box) in
    if negb (helpButtonExtraSpacing (margins box) =? 0) then
      match findButton box YHelpButton with
      | Some _ => width + helpButtonExtraSpacing (margins box)
      | None => width
      end
    else width.

Definition preferredWidth (policy : YButtonBoxLayoutPolicy) (box : YButtonBox) : Z :=
  preferredWidthWith box (equalSizeButtons policy).

Definition preferredHeight (box : YButtonBox) : Z :=
  maxChildSize box YD_VERT + top (margins box) + bottom (margins box).

Definition stretchable (d : YUIDimension) : bool :=
  match d with YD_HORIZ => true | YD_VERT => false end.

(** ** The order of the buttons *)

Definition byRoleMessage (b : YPushButton) : string :=
  String.string_of_list_ascii (str "Multiple buttons with that role [" ++ debugLabel b ++ str "]").

(** One round of the collecting loop: the [specialButtons] vector, indexed by
    role, and the [customButtons]. *)
Definition collectButton (st : list (option YPushButton) * list YPushButton) (c : boxChild)
  : result (list (option YPushButton) * list YPushButton) :=
  let '(specialButtons, customButtons) := st in
  match c with
  | ChildOther _ _ => Throw YUIInvalidChildException
  | ChildButton b =>
      match role b with
      | YOKButton | YCancelButton | YApplyButton | YHelpButton | YRelNotesButton =>
          match specialButtons !! roleIndex (role b) with
          | Some (Some _) => Throw (YUIButtonRoleMismatchException (byRoleMessage b))
          | _ => Ok (<[roleIndex (role b) := Some b]> specialButtons, customButtons)
          end
      | YCustomButton => Ok (specialButtons, customButtons ++ [b])
      | YMaxButtonRole => Throw (YUIButtonRoleMismatchException "Invalid button role")
      end
  end.

(** [if ( specialButtons[ r ] ) buttons.push_back( specialButtons[ r ] )]. *)
Definition special (specialButtons : list (option YPushButton)) (r : YButtonRole)
  : list YPushButton :=
  match specialButtons !! roleIndex r with
  | Some (Some b) => [b]
  | _ => []
  end.

Definition buttonsByButtonOrder (policy : YButtonBoxLayoutPolicy) (box : YButtonBox)
  : result (list YPushButton) :=
  let? (specialButtons, customButtons) :=
    rfold collectButton (children box) (replicate (roleIndex YMaxButtonRole) None, []) in
  Ok (match buttonOrder policy with
      | YKDEButtonOrder =>
          special specialButtons YOKButton ++ special specialButtons YApplyButton ++
          special specialButtons YCancelButton ++ customButtons ++
          special specialButtons YHelpButton
      | YGnomeButtonOrder =>
          special specialButtons YHelpButton ++ customButtons ++
          special specialButtons YApplyButton ++ special specialButtons YCancelButton ++
          special specialButtons YOKButton
      end).

(** ** The sanity check *)

Definition sanityStep (st : option YPushButton * option YPushButton) (c : boxChild)
  : result (option YPushButton * option YPushButton) :=
  let '(okButton, cancelButton) := st in
  match c with
  | ChildOther _ _ => Throw YUIInvalidChildException
  | ChildButton b =>
      match role b with
      | YOKButton =>
          match okButton with
          | Some _ => Throw (YUIButtonRoleMismatchException "Multiple buttons with role [OK]")
          | None => Ok (Some b, cancelButton)
          end
      | YCancelButton =>
          match cancelButton with
          | Some _ => Throw (YUIButtonRoleMismatchException "Multiple buttons with role [Cancel]")
          | None => Ok (okButton, Some b)
          end
      | _ => Ok (okButton, cancelButton)
      end
  end.

Definition sanityCheck (box : YButtonBox) : result unit :=
  let? (okButton, cancelButton) := rfold sanityStep (children box) (None, None) in
  if (childrenCount box >? 1) && negb (sanityCheckRelaxed box) then
    match okButton, cancelButton with
    | Some _, Some _ => Ok tt
    | _, _ => Throw (YUIButtonRoleMismatchException
                       "Button role mismatch: Must have both [OK] and [Cancel] roles")
    end
  else Ok tt.

(** ** The layout *)

(** Reducing the outer margins by the missing width; the rest is still
    missing. *)
Definition reduceMargins (m : YButtonBoxMargins) (missing : Z) : YButtonBoxMargins * Z :=
  if missing <=? left m + right m then
    (mkMargins (left m - Z.quot missing 2) (right m - Z.quot missing 2) (top m) (bottom m)
       (spacing m) (helpButtonExtraSpacing m), 0)
  else
    (mkMargins 0 0 (top m) (bottom m) (spacing m) (helpButtonExtraSpacing m),
     missing - left m - right m).

Definition reduceSpacing (m : YButtonBoxMargins) (count missing : Z) : YButtonBoxMargins * Z :=
  if (missing >? 0) && (count >? 1) then
    let totalSpacing := (count - 1) * spacing m in
    if missing <=? totalSpacing then
      (mkMargins (left m) (right m) (top m) (bottom m)
         (Z.quot (totalSpacing - missing) (count - 1)) (helpButtonExtraSpacing m), 0)
    else
      (mkMargins (left m) (right m) (top m) (bottom m) 0 (helpButtonExtraSpacing m),
       missing - totalSpacing)
  else (m, missing).

Definition reduceHelpSpacing (m : YButtonBoxMargins) (hasHelp : bool) (missing : Z)
  : YButtonBoxMargins * Z :=
  if (missing >? 0) && hasHelp then
    if missing <=? helpButtonExtraSpacing m then
      (mkMargins (left m) (right m) (top m) (bottom m) (spacing m)
         (helpButtonExtraSpacing m - missing), 0)
    else
      (mkMargins (left m) (right m) (top m) (bottom m) (spacing m) 0,
       missing - helpButtonExtraSpacing m)
  else (m, missing).

(** Not enough horizontal space: the margins and the width each button loses. *)
Definition shrink (m : YButtonBoxMargins) (count : Z) (hasHelp : bool) (missing : Z)
  : YButtonBoxMargins * Z :=
  let '(m, missing) := reduceMargins m missing in
  let '(m, missing) := reduceSpacing m count missing in
  let '(m, missing) := reduceHelpSpacing m hasHelp missing in
  (m, if missing >? 0 then Z.quot missing count else 0).

(** Excess horizontal space. *)
Definition grow (policy : YButtonBoxLayoutPolicy) (m : YButtonBoxMargins) (hasHelp : bool)
    (excessWidth : Z) : YButtonBoxMargins :=
  if addExcessSpaceToHelpButtonExtraMargin policy && hasHelp then
    mkMargins (left m) (right m) (top m) (bottom m) (spacing m)
      (helpButtonExtraSpacing m + excessWidth)
  else
    match bothDim (alignment policy) YD_HORIZ with
    | YAlignCenter =>
        mkMargins (left m + Z.quot excessWidth 2) (right m + Z.quot excessWidth 2) (top m) (bottom m)
          (spacing m) (helpButtonExtraSpacing m)
    | YAlignBegin | YAlignUnchanged =>
        mkMargins (left m) (right m + excessWidth) (top m) (bottom m) (spacing m)
          (helpButtonExtraSpacing m)
    | YAlignEnd =>
        mkMargins (left m + excessWidth) (right m) (top m) (bottom m) (spacing m)
          (helpButtonExtraSpacing m)
    end.

(** The margins and the width each button loses, for a box of the width
    [width] with the preferred width [prefWidth]. *)
Definition horizontalMargins (policy : YButtonBoxLayoutPolicy) (m : YButtonBoxMargins) (count : Z)
    (hasHelp : bool) (prefWidth width : Z) : YButtonBoxMargins * Z :=
  let '(m, widthLoss) :=
    if width <? prefWidth then shrink m count hasHelp (prefWidth - width) else (m, 0) in
  (if width >? prefWidth then grow policy m hasHelp (width - prefWidth) else m, widthLoss).

(** Buttons of equal size are given up if they do not fit even without any
    margins. *)
Definition effectiveEqualSize (policy : YButtonBoxLayoutPolicy) (box : YButtonBox)
    (count width : Z) : bool :=
  equalSizeButtons policy &&
  negb ((width <? preferredWidth policy box) && (width <? maxChildSize box YD_HORIZ * count)).

(** The position and height of all buttons. *)
Definition verticalLayout (policy : YButtonBoxLayoutPolicy) (m : YButtonBoxMargins)
    (buttonHeight prefHeight height : Z) : Z * Z :=
  let '(mtop, mbottom) :=
    if height <? prefHeight then
      let missing := prefHeight - height in
      if missing <? top m + bottom m
      then (top m - Z.quot missing 2, bottom m - Z.quot missing 2)
      else (0, 0)
    else (top m, bottom m) in
  let buttonHeight := if height <? buttonHeight then height else buttonHeight in
  let y_pos := mtop in
  let y_pos :=
    if height >? prefHeight then
      let excessHeight := height - buttonHeight - mtop - mbottom in
      match bothDim (alignment policy) YD_VERT with
      | YAlignBegin | YAlignUnchanged => y_pos
      | YAlignCenter => y_pos + Z.quot excessHeight 2
      | YAlignEnd => y_pos + excessHeight
      end
    else y_pos in
  (y_pos, buttonHeight).

(** The loop that places the buttons from left to right; [buttonWidth] is the
    width a button gets, [first] the first button of the row. *)
Fixpoint placeButtons (reverseLayout : bool) (width y_pos buttonHeight : Z)
    (buttonWidth : YPushButton -> Z) (isHelp : YPushButton -> bool) (m : YButtonBoxMargins)
    (first : bool) (x_pos : Z) (buttons : list YPushButton) : list (YPushButton * Rect) :=
  match buttons with
  | [] => []
  | b :: rest =>
      let x_pos := if isHelp b && negb first then x_pos + helpButtonExtraSpacing m else x_pos in
      let w := buttonWidth b in
      let x := if reverseLayout then width - x_pos - w else x_pos in
      let next := x_pos + w + spacing m in
      let next := if isHelp b then next + helpButtonExtraSpacing m else next in
      (b, mkRect x y_pos w buttonHeight) ::
      placeButtons reverseLayout width y_pos buttonHeight buttonWidth isHelp m false next rest
  end.

Definition isButton (helpButton : option YPushButton) (b : YPushButton) : bool :=
  match helpButton with Some h => (bid h =? bid b)%nat | None => false end.

Definition doLayout (policy : YButtonBoxLayoutPolicy) (reverseLayout : bool) (box : YButtonBox)
    (width height : Z) : result (list (YPushButton * Rect)) :=
  let? buttons := buttonsByButtonOrder policy box in
  match buttons with
  | [] => Ok []
  | _ =>
      let count := Z.of_nat (length buttons) in
      let helpButton := findButton box YHelpButton in
      let hasHelp := match helpButton with Some _ => true | None => false end in
      let equalSize := effectiveEqualSize policy box count width in
      let prefWidth := preferredWidthWith box equalSize in
      let '(m, widthLoss) :=
        horizontalMargins policy (margins box) count hasHelp prefWidth width in
      let '(y_pos, buttonHeight) :=
        verticalLayout policy m (maxChildSize box YD_VERT) (preferredHeight box) height in
      let buttonWidth b :=
        (if equalSize then maxChildSize box YD_HORIZ else YPushButton.prefWidth b) - widthLoss in
      Ok (placeButtons reverseLayout width y_pos buttonHeight buttonWidth (isButton helpButton) m
            true (left m) buttons)
  end.

Definition setSize (policy : YButtonBoxLayoutPolicy) (reverseLayout : bool) (box : YButtonBox)
    (newWidth newHeight : Z) : result (list (YPushButton * Rect)) :=
  let? _ := sanityCheck box in doLayout policy reverseLayout box newWidth newHeight.

(** ** The order, as a specification *)

Definition toButton (c : boxChild) : option YPushButton :=
  match c with ChildButton b => Some b | ChildOther _ _ => None end.

Definition buttonsOf (cs : list boxChild) : list YPushButton := omap toButton cs.

Definition byRole (r : YButtonRole) (cs : list boxChild) : list YPushButton :=
  filter (fun b => role b = r) (buttonsOf cs).

(** The children are buttons with a proper role, and no role other than
    "custom" occurs twice. *)
Definition wellRoled (cs : list boxChild) : Prop :=
  Forall (fun c => exists b, c = ChildButton b /\ role b <> YMaxButtonRole) cs /\
  forall r, r <> YCustomButton -> (length (byRole r cs) <= 1)%nat.

(** The order the class documentation promises. *)
Definition orderSpec (order : YButtonOrder) (cs : list boxChild) : list YPushButton :=
  match order with
  | YKDEButtonOrder =>
      byRole YOKButton cs ++ byRole YApplyButton cs ++ byRole YCancelButton cs ++
      byRole YCustomButton cs ++ byRole YHelpButton cs
  | YGnomeButtonOrder =>
      byRole YHelpButton cs ++ byRole YCustomButton cs ++ byRole YApplyButton cs ++
      byRole YCancelButton cs ++ byRole YOKButton cs
  end.

Lemma buttonsOf_app cs1 cs2 : buttonsOf (cs1 ++ cs2) = buttonsOf cs1 ++ buttonsOf cs2.
Proof. apply omap_app. Qed.

Lemma byRole_app r cs1 cs2 : byRole r (cs1 ++ cs2) = byRole r cs1 ++ byRole r cs2.
Proof. unfold byRole. by rewrite buttonsOf_app, list.filter_app. Qed.

Lemma byRole_button r b : byRole r [ChildButton b] = if decide (role b = r) then [b] else [].
Proof. unfold byRole. simpl. rewrite filter_cons, filter_nil. by case_decide. Qed.

Lemma byRole_snoc r cs b :
  byRole r (cs ++ [ChildButton b]) = byRole r cs ++ if decide (role b = r) then [b] else [].
Proof. by rewrite byRole_app, byRole_button. Qed.

Lemma wellRoled_prefix cs1 cs2 : wellRoled (cs1 ++ cs2) -> wellRoled cs1.
Proof.
  intros [Hall Hone]. apply Forall_app in Hall as [? _]. split; [done|].
  intros r Hr. specialize (Hone r Hr). rewrite byRole_app, length_app in Hone. lia.
Qed.

Lemma roleIndex_inj r1 r2 : roleIndex r1 = roleIndex r2 -> r1 = r2.
Proof. by destruct r1, r2. Qed.

(** What the collecting loop has gathered from the children [cs]. *)
Definition collected (cs : list boxChild) (st : list (option YPushButton) * list YPushButton) : Prop :=
  length st.1 = 6%nat /\ st.2 = byRole YCustomButton cs /\
  (forall r, r <> YCustomButton -> special st.1 r = byRole r cs) /\ wellRoled cs.

Lemma special_insert sp r b r' :
  length sp = 6%nat -> r <> YMaxButtonRole ->
  special (<[roleIndex r := Some b]> sp) r' = if decide (r' = r) then [b] else special sp r'.
Proof.
  intros Hl Hr. unfold special. case_decide as E.
  - subst. rewrite list_lookup_insert_eq; [done|]. rewrite Hl. destruct r; simpl; try lia. done.
  - rewrite list_lookup_insert_ne; [done|]. intros E'%roleIndex_inj. congruence.
Qed.

Lemma collected_special cs sp cu b :
  collected cs (sp, cu) -> role b <> YCustomButton -> role b <> YMaxButtonRole ->
  special sp (role b) = [] ->
  collected (cs ++ [ChildButton b]) (<[roleIndex (role b) := Some b]> sp, cu).
Proof.
  intros (Hl & Hcu & Hsp & Hall & Hone) Hc Hm Hs. simpl in *. split; simpl; [by rewrite length_insert|].
  split; [by rewrite byRole_snoc, decide_False, app_nil_r by done|].
  assert (Hr : forall r, r <> YCustomButton ->
    special (<[roleIndex (role b) := Some b]> sp) r = byRole r (cs ++ [ChildButton b])).
  { intros r Hr. rewrite special_insert, byRole_snoc by done. case_decide as E.
    - subst. rewrite <- Hsp by done. by rewrite Hs, decide_True.
    - rewrite decide_False by congruence. by rewrite app_nil_r, Hsp. }
  split; [done|]. split; [apply Forall_app; split; [done|]; constructor; [by exists b|constructor]|].
  intros r Hn. rewrite <- Hr by done. unfold special. destruct (_ !! _) as [[]|]; simpl; lia.
Qed.

Lemma collect_step cs st c :
  collected cs st ->
  match collectButton st c with
  | Ok st' => collected (cs ++ [c]) st'
  | Throw _ => ~ wellRoled (cs ++ [c])
  end.
Proof.
  destruct st as [sp cu]. intros Hcol. destruct c as [b|w h]; simpl.
  2: { intros [(_ & (b & ? & _)%Forall_inv)%Forall_app _]. done. }
  assert (Hspecial : role b <> YCustomButton -> role b <> YMaxButtonRole ->
    match (match sp !! roleIndex (role b) with
           | Some (Some _) => Throw (YUIButtonRoleMismatchException (byRoleMessage b))
           | _ => Ok (<[roleIndex (role b) := Some b]> sp, cu)
           end) with
    | Ok st' => collected (cs ++ [ChildButton b]) st'
    | Throw _ => ~ wellRoled (cs ++ [ChildButton b])
    end).
  { intros Hc Hm. pose proof (collected_special cs sp cu b Hcol Hc Hm) as Hok.
    destruct Hcol as (Hl & _ & Hsp & _). specialize (Hsp (role b) Hc). simpl in *.
    unfold special in *. destruct (sp !! roleIndex (role b)) as [[b'|]|]; auto.
    intros [_ Hone]. specialize (Hone (role b) Hc).
    rewrite byRole_snoc, <- Hsp, decide_True in Hone by done. simpl in Hone. lia. }
  destruct (role b) eqn:Er; try (by apply Hspecial).
  - destruct Hcol as (Hl & Hcu & Hsp & Hall & Hone). simpl in *. split; [done|]. simpl.
    split; [by rewrite byRole_snoc, decide_True, Hcu by done|].
    assert (Hsame : forall r, r <> YCustomButton -> byRole r (cs ++ [ChildButton b]) = byRole r cs).
    { intros r Hr. rewrite byRole_snoc, decide_False, app_nil_r by congruence. done. }
    split; [intros r Hr; rewrite Hsame by done; auto|]. split.
    + apply Forall_app. split; [done|]. constructor; [|constructor]. exists b. by rewrite Er.
    + intros r Hr. rewrite Hsame by done. auto.
  - intros [(_ & (b' & [= <-] & ?)%Forall_inv)%Forall_app _]. done.
Qed.

Lemma collect_loop cs rest st :
  collected cs st ->
  match rfold collectButton rest st with
  | Ok st' => collected (cs ++ rest) st'
  | Throw _ => ~ wellRoled (cs ++ rest)
  end.
Proof.
  revert cs st; induction rest as [|c rest IH]; intros cs st Hc; simpl; [by rewrite app_nil_r|].
  pose proof (collect_step cs st c Hc) as Hs. destruct (collectButton st c) as [st'|e]; simpl.
  - specialize (IH _ _ Hs). by rewrite <- app_assoc in IH.
  - intros Hw. apply Hs. apply (wellRoled_prefix _ rest). by rewrite <- app_assoc.
Qed.

Lemma collected_nil : collected [] (replicate 6 None, []).
Proof.
  split; [done|]. split; [done|]. split; [by intros []|]. split; [constructor|].
  intros r _. unfold byRole. simpl. lia.
Qed.

Lemma order_spec policy box :
  match buttonsByButtonOrder policy box with
  | Ok buttons => wellRoled (children box) /\ buttons = orderSpec (buttonOrder policy) (children box)
  | Throw _ => ~ wellRoled (children box)
  end.
Proof.
  unfold buttonsByButtonOrder. simpl roleIndex.
  pose proof (collect_loop [] (children box) _ collected_nil) as H.
  destruct (rfold _ _ _) as [[sp cu]|e]; simpl; [|done].
  destruct H as (_ & Hcu & Hsp & Hw). simpl in *. split; [done|].
  unfold orderSpec. rewrite Hcu, !Hsp by done. by destruct (buttonOrder policy).
Qed.

Lemma byRole_cons r b cs :
  byRole r (ChildButton b :: cs) = if decide (role b = r) then b :: byRole r cs else byRole r cs.
Proof. unfold byRole. simpl. rewrite filter_cons. by case_decide. Qed.

(** The ordered buttons are the children without the release notes button. *)
Lemma orderSpec_permutation order cs :
  Forall (fun c => exists b, c = ChildButton b /\ role b <> YMaxButtonRole) cs ->
  buttonsOf cs ≡ₚ orderSpec order cs ++ byRole YRelNotesButton cs.
Proof.
  induction 1 as [|c cs (b & -> & Hm) _ IH]; [by destruct order|].
  change (buttonsOf (ChildButton b :: cs)) with (b :: buttonsOf cs). rewrite IH.
  unfold orderSpec in *. rewrite !byRole_cons.
  destruct order, (role b) eqn:Er; simpl; rewrite <- ?app_assoc; simpl;
    rewrite <- ?Permutation_middle, <- ?app_assoc; done.
Qed.

(** *** The sanity check *)

Definition atMostOne {A} (l : list A) (o : option A) : Prop :=
  match o with None => l = [] | Some x => l = [x] end.

Lemma sanity_loop cs rest st :
  Forall (fun c => exists b, c = ChildButton b) cs ->
  atMostOne (byRole YOKButton cs) st.1 -> atMostOne (byRole YCancelButton cs) st.2 ->
  match rfold sanityStep rest st with
  | Ok st' =>
      Forall (fun c => exists b, c = ChildButton b) (cs ++ rest) /\
      atMostOne (byRole YOKButton (cs ++ rest)) st'.1 /\
      atMostOne (byRole YCancelButton (cs ++ rest)) st'.2
  | Throw _ =>
      ~ (Forall (fun c => exists b, c = ChildButton b) (cs ++ rest) /\
         (length (byRole YOKButton (cs ++ rest)) <= 1)%nat /\
         (length (byRole YCancelButton (cs ++ rest)) <= 1)%nat)
  end.
Proof.
  revert cs st; induction rest as [|c rest IH]; intros cs [ok cancel] Hall Hok Hca; simpl;
    [by rewrite app_nil_r|].
  destruct c as [b|w h]; simpl.
  2: { intros [Hf _]. apply Forall_app in Hf as [_ Hf]. apply Forall_inv in Hf as [b ?]. done. }
  assert (Hnext : forall ok' cancel',
    atMostOne (byRole YOKButton (cs ++ [ChildButton b])) ok' ->
    atMostOne (byRole YCancelButton (cs ++ [ChildButton b])) cancel' ->
    match rfold sanityStep rest (ok', cancel') with
    | Ok st' => Forall (fun c => exists b, c = ChildButton b) (cs ++ ChildButton b :: rest) /\
        atMostOne (byRole YOKButton (cs ++ ChildButton b :: rest)) st'.1 /\
        atMostOne (byRole YCancelButton (cs ++ ChildButton b :: rest)) st'.2
    | Throw _ => ~ (Forall (fun c => exists b, c = ChildButton b) (cs ++ ChildButton b :: rest) /\
        (length (byRole YOKButton (cs ++ ChildButton b :: rest)) <= 1)%nat /\
        (length (byRole YCancelButton (cs ++ ChildButton b :: rest)) <= 1)%nat)
    end).
  { intros ok' cancel' H1 H2. specialize (IH (cs ++ [ChildButton b]) (ok', cancel')).
    rewrite <- !app_assoc in IH. apply IH; [|done|done].
    apply Forall_app. split; [done|]. constructor; [by exists b|constructor]. }
  simpl in *. destruct (role b) eqn:Er; simpl; try (apply Hnext; rewrite byRole_snoc, Er; simpl;
    by rewrite app_nil_r).
  - destruct ok as [b'|]; simpl in *.
    + intros (_ & Hone & _). rewrite byRole_app, Hok, byRole_cons, decide_True in Hone by done.
      simpl in Hone. lia.
    + apply Hnext; rewrite byRole_snoc, Er; simpl; [by rewrite Hok|by rewrite app_nil_r].
  - destruct cancel as [b'|]; simpl in *.
    + intros (_ & _ & Hone). rewrite byRole_app, Hca, byRole_cons, decide_True in Hone by done.
      simpl in Hone. lia.
    + apply Hnext; rewrite byRole_snoc, Er; simpl; [by rewrite app_nil_r|by rewrite Hca].
Qed.

(** *** A row of buttons *)

(** The intervals of [l] follow each other from left to right, at least [gap]
    apart, between [x] and [limit]. *)
Fixpoint in_row (x limit gap : Z) (l : list (Z * Z)) : Prop :=
  match l with
  | [] => True
  | (p, w) :: rest => x <= p /\ p + w <= limit /\ in_row (p + w + gap) limit gap rest
  end.

Lemma in_row_weaken x x' limit gap gap' l :
  x' <= x -> gap' <= gap -> in_row x limit gap l -> in_row x' limit gap' l.
Proof.
  revert x x'; induction l as [|[p w] l IH]; intros x x' Hx Hg; simpl; [done|].
  intros (? & ? & Hr). split; [lia|]. split; [done|]. eapply IH; [|done|exact Hr]. lia.
Qed.

(** The interval of a button in reading direction. *)
Definition interval (reverseLayout : bool) (width : Z) (br : YPushButton * Rect) : Z * Z :=
  (if reverseLayout then width - rx br.2 - rw br.2 else rx br.2, rw br.2).

Section row.
Context (reverseLayout : bool) (width y_pos buttonHeight : Z).
Context (bw : YPushButton -> Z) (isHelp : YPushButton -> bool) (m : YButtonBoxMargins).

Let extra (b : YPushButton) : Z := if isHelp b then helpButtonExtraSpacing m else 0.

(** The space from the start of a row to the end of its last button. *)
Fixpoint span (first : bool) (bs : list YPushButton) : Z :=
  match bs with
  | [] => 0
  | b :: rest =>
      (if first then 0 else extra b) + bw b +
      match rest with [] => 0 | _ => spacing m + extra b + span false rest end
  end.

Context (Hsp : 0 <= spacing m) (Hex : 0 <= helpButtonExtraSpacing m).

#[local] Lemma extra_nonneg b : 0 <= extra b.
Proof. unfold extra. destruct (isHelp b); lia. Qed.

#[local] Lemma span_nonneg first bs : Forall (fun b => 0 <= bw b) bs -> 0 <= span first bs.
Proof.
  intros Hw. revert first; induction Hw as [|b bs Hb Hw IH]; intros first; [simpl; lia|]. cbn [span].
  pose proof (extra_nonneg b). pose proof (IH false). destruct first, bs; lia.
Qed.

Lemma placeButtons_row first x bs limit :
  Forall (fun b => 0 <= bw b) bs -> x + span first bs <= limit ->
  in_row x limit (spacing m)
    (map (interval reverseLayout width)
       (placeButtons reverseLayout width y_pos buttonHeight bw isHelp m first x bs)).
Proof.
  intros Hw. revert first x; induction Hw as [|b bs Hb Hw IH]; intros first x Hlim; [done|].
  cbn [placeButtons map in_row interval fst snd rx rw].
  set (x1 := if isHelp b && negb first then x + helpButtonExtraSpacing m else x).
  assert (Hx1 : x1 = x + (if first then 0 else extra b)).
  { unfold x1, extra. destruct (isHelp b), first; simpl; lia. }
  set (next := if isHelp b then _ else _).
  assert (Hnext : next = x1 + bw b + spacing m + extra b).
  { unfold next, extra. destruct (isHelp b); lia. }
  assert ((if reverseLayout then width - (if reverseLayout then width - x1 - bw b else x1) - bw b
           else (if reverseLayout then width - x1 - bw b else x1)) = x1) as ->
    by (destruct reverseLayout; lia).
  pose proof (extra_nonneg b). pose proof (span_nonneg false bs Hw).
  cbn [span] in Hlim. split; [destruct first; lia|].
  destruct bs as [|b' bs]; [split; [lia|done]|].
  split; [lia|]. eapply in_row_weaken; [|reflexivity|apply IH; lia]. lia.
Qed.

(** Without the [Help] button inside, a span is the widths and the spacings. *)
Lemma span_plain first bs :
  Forall (fun b => isHelp b = false) bs ->
  span first bs = sumZ (map bw bs) + Z.max 0 (Z.of_nat (length bs) - 1) * spacing m.
Proof.
  intros Hf. revert first; induction Hf as [|b bs Hb Hf IH]; intros first; [simpl; lia|].
  cbn [span]. unfold extra. rewrite Hb, IH. destruct first, bs; cbn [map sumZ length]; lia.
Qed.

(** The [Help] button at the start or at the end adds its extra space once. *)
Lemma span_help_first h bs :
  Forall (fun b => isHelp b = false) bs ->
  span true (h :: bs) <= sumZ (map bw (h :: bs)) + Z.of_nat (length bs) * spacing m + extra h.
Proof.
  intros Hf. cbn [span]. rewrite (span_plain false bs Hf). pose proof (extra_nonneg h).
  destruct bs; cbn [map sumZ length]; lia.
Qed.

Lemma span_snoc first bs h :
  Forall (fun b => isHelp b = false) bs ->
  span first (bs ++ [h]) =
    sumZ (map bw (bs ++ [h])) + Z.of_nat (length bs) * spacing m +
    (match bs with [] => if first then 0 else extra h | _ => extra h end).
Proof.
  intros Hf. revert first; induction Hf as [|b bs Hb Hf IH]; intros first; cbn [app span].
  - cbn [map sumZ length]. destruct first; lia.
  - rewrite IH. unfold extra at 1 2. rewrite Hb. destruct (bs ++ [h]) eqn:E; [by destruct bs|].
    rewrite <- E. cbn [map sumZ length]. destruct first, bs; simpl in *; lia.
Qed.

Lemma placeButtons_buttons first x bs :
  map fst (placeButtons reverseLayout width y_pos buttonHeight bw isHelp m first x bs) = bs.
Proof. revert first x; induction bs as [|b bs IH]; intros; simpl; [done|]. by rewrite IH. Qed.

Lemma placeButtons_rect first x bs :
  Forall (fun br => rw br.2 = bw br.1 /\ rh br.2 = buttonHeight /\ ry br.2 = y_pos)
    (placeButtons reverseLayout width y_pos buttonHeight bw isHelp m first x bs).
Proof. revert first x; induction bs as [|b bs IH]; intros; simpl; constructor; auto. Qed.

End row.

(** ** Well-formed boxes *)

Record boxOk (box : YButtonBox) : Prop := {
  ok_roles : wellRoled (children box);
  ok_ids : NoDup (map bid (buttonsOf (children box)));
  ok_sizes : Forall (fun b => 0 <= prefWidth b /\ 0 <= prefHeight b) (buttonsOf (children box));
  ok_left : 0 <= left (margins box);
  ok_right : 0 <= right (margins box);
  ok_top : 0 <= top (margins box);
  ok_bottom : 0 <= bottom (margins box);
  ok_spacing : 0 <= spacing (margins box);
  ok_extra : 0 <= helpButtonExtraSpacing (margins box)
}.

Lemma nodup_fmap_inj {A B} (f : A -> B) l x y :
  NoDup (map f l) -> x ∈ l -> y ∈ l -> f x = f y -> x = y.
Proof.
  intros Hnd [i Hi]%list_elem_of_lookup [j Hj]%list_elem_of_lookup E.
  assert (i = j) as ->; [|congruence].
  eapply NoDup_lookup; [exact Hnd|rewrite list_lookup_fmap, Hi; done|].
  rewrite list_lookup_fmap, Hj. simpl. by rewrite E.
Qed.

Lemma findButton_head box r : findButton box r = head (byRole r (children box)).
Proof.
  unfold findButton. induction (children box) as [|[b|w h] cs IH]; [done| |exact IH].
  rewrite byRole_cons. by case_decide.
Qed.

Lemma elem_byRole r cs b : b ∈ byRole r cs <-> role b = r /\ b ∈ buttonsOf cs.
Proof. unfold byRole. by rewrite list_elem_of_filter. Qed.

(** Comparing with the button found finds the buttons with the role. *)
Lemma isButton_role box b :
  boxOk box -> b ∈ buttonsOf (children box) ->
  isButton (findButton box YHelpButton) b = bool_decide (role b = YHelpButton).
Proof.
  intros Hok Hb. rewrite findButton_head. pose proof (proj2 (ok_roles _ Hok) YHelpButton) as Hone.
  assert (Hiff := elem_byRole YHelpButton (children box)).
  destruct (byRole YHelpButton (children box)) as [|h [|h' l]]; simpl in *.
  - symmetry. apply bool_decide_eq_false. intros Er. by apply (not_elem_of_nil b), Hiff.
  - destruct (proj1 (Hiff h)) as [Hrh Hh]; [left|]. apply eq_true_iff_eq.
    rewrite Nat.eqb_eq, bool_decide_eq_true. split.
    + intros E. by rewrite (nodup_fmap_inj bid _ h b (ok_ids _ Hok) Hh Hb E) in Hrh.
    + intros Er. assert (Hin : b ∈ [h]) by (by apply Hiff). apply elem_of_cons in Hin as [->|Hin]; [done|].
      by apply elem_of_nil in Hin.
  - specialize (Hone ltac:(done)). lia.
Qed.

(** The [Help] button is the first or the last of the ordered buttons. *)
Lemma order_help order box :
  boxOk box ->
  exists plain, Forall (fun b => isButton (findButton box YHelpButton) b = false) plain /\
    orderSpec order (children box) =
      match order with
      | YKDEButtonOrder => plain ++ option_list (findButton box YHelpButton)
      | YGnomeButtonOrder => option_list (findButton box YHelpButton) ++ plain
      end.
Proof.
  intros Hok.
  assert (Hplain : forall r, r <> YHelpButton ->
    Forall (fun b => isButton (findButton box YHelpButton) b = false) (byRole r (children box))).
  { intros r Hr. apply List.Forall_forall. intros b [Er Hb]%list_elem_of_In%elem_byRole.
    rewrite isButton_role by done. apply bool_decide_eq_false. congruence. }
  assert (Hhelp : byRole YHelpButton (children box) = option_list (findButton box YHelpButton)).
  { rewrite findButton_head. pose proof (proj2 (ok_roles _ Hok) YHelpButton ltac:(done)) as Hone.
    destruct (byRole YHelpButton (children box)) as [|h [|h' l]]; [done|done|simpl in Hone; lia]. }
  unfold orderSpec. rewrite Hhelp. destruct order.
  - eexists. split; [|rewrite !app_assoc; reflexivity]. rewrite !Forall_app. auto 10.
  - eexists. split; [|reflexivity]. rewrite !Forall_app. auto 10.
Qed.

Definition helpSpace (box : YButtonBox) (m : YButtonBoxMargins) : Z :=
  match findButton box YHelpButton with Some _ => helpButtonExtraSpacing m | None => 0 end.

Lemma order_span order box bw m :
  boxOk box -> 0 <= spacing m -> 0 <= helpButtonExtraSpacing m ->
  let bs := orderSpec order (children box) in
  bs <> [] ->
  span bw (isButton (findButton box YHelpButton)) m true bs <=
    sumZ (map bw bs) + (Z.of_nat (length bs) - 1) * spacing m + helpSpace box m.
Proof.
  intros Hok Hsp Hex bs Hne. destruct (order_help order box Hok) as (plain & Hp & E).
  unfold bs, helpSpace in *. rewrite E in *.
  destruct (findButton box YHelpButton) as [h|] eqn:Eh; simpl option_list in *.
  - destruct order; simpl app in *.
    + rewrite span_snoc by done. rewrite length_app. simpl length.
      destruct plain; [|destruct (isButton (Some h) h)]; lia.
    + pose proof (span_help_first bw (isButton (Some h)) m Hsp Hex h plain Hp) as Hs.
      revert Hs. cbn beta. simpl length. destruct (isButton (Some h) h); lia.
  - assert (Hl : match order with
                 | YKDEButtonOrder => plain ++ []
                 | YGnomeButtonOrder => [] ++ plain
                 end = plain) by (destruct order; [apply app_nil_r|done]).
    rewrite Hl in *. rewrite span_plain by done.
    destruct plain; [done|]. simpl length. lia.
Qed.

(** *** The preferred width *)

Definition naturalWidth (box : YButtonBox) (equalSize : bool) (b : YPushButton) : Z :=
  if equalSize then maxChildSize box YD_HORIZ else prefWidth b.

Lemma maxChildSize_ge box d :
  0 <= maxChildSize box d /\ forall c, c ∈ children box -> childSize c d <= maxChildSize box d.
Proof. apply (fold_max_ge (fun c => childSize c d)). lia. Qed.

Lemma buttonsOf_children cs b : b ∈ buttonsOf cs <-> ChildButton b ∈ cs.
Proof.
  unfold buttonsOf. rewrite list_elem_of_omap. split; [|by exists (ChildButton b)].
  intros ([b'|] & Hin & E); simpl in E; [|done]. by injection E as ->.
Qed.

Lemma elem_order order box b :
  boxOk box -> b ∈ orderSpec order (children box) -> b ∈ buttonsOf (children box).
Proof.
  intros Hok Hb. rewrite (orderSpec_permutation order _ (proj1 (ok_roles _ Hok))).
  apply elem_of_app. by left.
Qed.

(** The widths of the ordered buttons are at most those of all children. *)
Lemma order_widths order box :
  boxOk box ->
  sumZ (map prefWidth (orderSpec order (children box))) <= totalChildrenWidth box /\
  Z.of_nat (length (orderSpec order (children box))) <= childrenCount box.
Proof.
  intros Hok. pose proof (orderSpec_permutation order _ (proj1 (ok_roles _ Hok))) as Hp.
  assert (Hb : map (fun c => childSize c YD_HORIZ) (children box) =
               map prefWidth (buttonsOf (children box)) /\
               length (children box) = length (buttonsOf (children box))).
  { destruct (ok_roles _ Hok) as [Hall _]. clear -Hall.
    induction Hall as [|c cs (b & -> & _) _ [IH1 IH2]]; [done|]. simpl. by rewrite IH1, IH2. }
  destruct Hb as [Hb1 Hb2]. unfold totalChildrenWidth, childrenCount. rewrite Hb1, Hb2.
  assert (Hs : sumZ (map prefWidth (buttonsOf (children box))) =
               sumZ (map prefWidth (orderSpec order (children box))) +
               sumZ (map prefWidth (byRole YRelNotesButton (children box)))).
  { rewrite <- sumZ_app, <- map_app. apply sumZ_permutation, Permutation_map. exact Hp. }
  apply Permutation_length in Hp. rewrite length_app in Hp. split; [|lia].
  assert (0 <= sumZ (map prefWidth (byRole YRelNotesButton (children box)))); [|lia].
  apply sumZ_nonneg, List.Forall_map, List.Forall_forall. intros b [_ Hb]%list_elem_of_In%elem_byRole.
  apply (Forall_at _ _ _ (ok_sizes _ Hok) Hb).
Qed.

(** The width the ordered buttons need is at most the preferred width. *)
Lemma needed_width order box equalSize :
  boxOk box ->
  let bs := orderSpec order (children box) in
  bs <> [] ->
  left (margins box) + right (margins box) + sumZ (map (naturalWidth box equalSize) bs) +
    (Z.of_nat (length bs) - 1) * spacing (margins box) + helpSpace box (margins box)
  <= preferredWidthWith box equalSize.
Proof.
  intros Hok bs Hne. destruct (order_widths order box Hok) as [Hw Hn]. fold bs in Hw, Hn.
  assert (Hc : 1 <= Z.of_nat (length bs)) by (destruct bs; [done|simpl; lia]).
  unfold preferredWidthWith, helpSpace. destruct (Z.ltb_spec (childrenCount box) 1); [lia|].
  assert (Hsum : sumZ (map (naturalWidth box equalSize) bs) <=
    if equalSize then maxChildSize box YD_HORIZ * childrenCount box else totalChildrenWidth box).
  { destruct equalSize; [|exact Hw]. unfold naturalWidth. rewrite sumZ_const.
    pose proof (proj1 (maxChildSize_ge box YD_HORIZ)). nia. }
  pose proof (ok_spacing _ Hok). pose proof (ok_extra _ Hok).
  assert ((Z.of_nat (length bs) - 1) * spacing (margins box) <=
          (childrenCount box - 1) * spacing (margins box)) by nia.
  destruct (Z.eqb_spec (helpButtonExtraSpacing (margins box)) 0), (findButton box YHelpButton),
    equalSize; simpl; lia.
Qed.

(** *** The margins of a layout *)

Definition marginsNonneg (m : YButtonBoxMargins) : Prop :=
  0 <= left m /\ 0 <= right m /\ 0 <= spacing m /\ 0 <= helpButtonExtraSpacing m.

(** The space between the left edge and the end of the last button, for [n]
    buttons of the total width [T]. *)
Definition needed (m : YButtonBoxMargins) (n : Z) (hasHelp : bool) (T : Z) : Z :=
  left m + T + (n - 1) * spacing m + (if hasHelp then helpButtonExtraSpacing m else 0).

(** The vertical margins, which the horizontal layout does not touch. *)
Definition sameVertical (m m' : YButtonBoxMargins) : Prop := top m' = top m /\ bottom m' = bottom m.

Lemma half_bounds z : 0 <= z -> 0 <= Z.quot z 2 /\ 2 * Z.quot z 2 <= z <= 2 * Z.quot z 2 + 1.
Proof.
  intros Hz. pose proof (quot_nonneg z 2 Hz). pose proof (quot_mul_le z 2 Hz).
  pose proof (quot_mul_gt z 2 Hz). lia.
Qed.

Lemma reduceMargins_ok m n hasHelp T missing width :
  marginsNonneg m -> left m = right m -> 0 < missing ->
  needed m n hasHelp T + right m <= width + missing ->
  let '(m', rest) := reduceMargins m missing in
  marginsNonneg m' /\ sameVertical m m' /\ 0 <= rest <= missing /\
  needed m' n hasHelp T <= width + rest.
Proof.
  intros (Hl & Hr & Hs & He) Heq Hm Hn. unfold reduceMargins, needed, marginsNonneg, sameVertical in *.
  destruct (Z.leb_spec missing (left m + right m)); simpl.
  - pose proof (half_bounds missing). lia.
  - lia.
Qed.

Lemma reduceSpacing_ok m n hasHelp T missing width :
  marginsNonneg m -> 1 <= n -> 0 <= missing -> needed m n hasHelp T <= width + missing ->
  let '(m', rest) := reduceSpacing m n missing in
  marginsNonneg m' /\ sameVertical m m' /\ 0 <= rest <= missing /\
  needed m' n hasHelp T <= width + rest.
Proof.
  intros (Hl & Hr & Hs & He) Hn1 Hm Hn. unfold reduceSpacing, needed, marginsNonneg, sameVertical in *.
  destruct ((missing >? 0) && (n >? 1)) eqn:E; simpl; [|lia].
  rewrite andb_true_iff, !Z.gtb_lt in E.
  assert (0 <= (n - 1) * spacing m) by nia.
  destruct (Z.leb_spec missing ((n - 1) * spacing m)); simpl; [|lia].
  set (rest := (n - 1) * spacing m - missing) in *.
  pose proof (quot_nonneg rest (n - 1)). pose proof (quot_mul_le rest (n - 1)). lia.
Qed.

Lemma reduceHelpSpacing_ok m n hasHelp T missing width :
  marginsNonneg m -> 0 <= missing -> needed m n hasHelp T <= width + missing ->
  let '(m', rest) := reduceHelpSpacing m hasHelp missing in
  marginsNonneg m' /\ sameVertical m m' /\ 0 <= rest <= missing /\
  needed m' n hasHelp T <= width + rest.
Proof.
  intros (Hl & Hr & Hs & He) Hm Hn. unfold reduceHelpSpacing, needed, marginsNonneg, sameVertical in *.
  destruct ((missing >? 0) && hasHelp) eqn:E; simpl; [|lia].
  apply andb_true_iff in E as [_ ->].
  destruct (Z.leb_spec missing (helpButtonExtraSpacing m)); simpl; lia.
Qed.

(** What [shrink] leaves fits, up to the rounding of the last division. *)
Lemma shrink_ok m n hasHelp T missing width :
  marginsNonneg m -> left m = right m -> 1 <= n -> 0 < missing ->
  needed m n hasHelp T + right m <= width + missing ->
  let '(m', loss) := shrink m n hasHelp missing in
  marginsNonneg m' /\ sameVertical m m' /\ 0 <= loss /\ n * loss <= missing /\
  needed m' n hasHelp (T - n * loss) <= width + (n - 1).
Proof.
  intros Hm Heq Hn Hmis Hneed. unfold shrink.
  pose proof (reduceMargins_ok m n hasHelp T missing width Hm Heq Hmis Hneed) as H1.
  destruct (reduceMargins m missing) as [m1 r1]. destruct H1 as (Hm1 & [V1 V1'] & Hr1 & Hn1).
  pose proof (reduceSpacing_ok m1 n hasHelp T r1 width Hm1 Hn ltac:(lia) Hn1) as H2.
  destruct (reduceSpacing m1 n r1) as [m2 r2]. destruct H2 as (Hm2 & [V2 V2'] & Hr2 & Hn2).
  pose proof (reduceHelpSpacing_ok m2 n hasHelp T r2 width Hm2 ltac:(lia) Hn2) as H3.
  destruct (reduceHelpSpacing m2 hasHelp r2) as [m3 r3]. destruct H3 as (Hm3 & [V3 V3'] & Hr3 & Hn3).
  split; [done|]. split; [split; congruence|]. unfold needed in *. rewrite Z.gtb_ltb.
  destruct (Z.ltb_spec 0 r3); [|lia].
  pose proof (quot_nonneg r3 n). pose proof (quot_mul_le r3 n). pose proof (quot_mul_gt r3 n). lia.
Qed.

Lemma grow_ok policy m n hasHelp T excess :
  marginsNonneg m -> 0 < excess ->
  let m' := grow policy m hasHelp excess in
  marginsNonneg m' /\ sameVertical m m' /\ spacing m' = spacing m /\
  needed m' n hasHelp T <= needed m n hasHelp T + excess.
Proof.
  intros (Hl & Hr & Hs & He) Hex. unfold grow, needed, marginsNonneg, sameVertical in *.
  pose proof (half_bounds excess).
  destruct (addExcessSpaceToHelpButtonExtraMargin policy && hasHelp) eqn:E; simpl.
  - apply andb_true_iff in E as [_ ->]. lia.
  - destruct (hor (alignment policy)); simpl; lia.
Qed.

Lemma horizontalMargins_ok policy m n hasHelp T prefW width :
  marginsNonneg m -> 1 <= n -> needed m n hasHelp T + right m <= prefW ->
  prefW <= width \/ left m = right m ->
  let '(m', loss) := horizontalMargins policy m n hasHelp prefW width in
  marginsNonneg m' /\ sameVertical m m' /\ 0 <= loss /\
  (prefW <= width -> loss = 0 /\ spacing m' = spacing m /\ needed m' n hasHelp T <= width) /\
  (width < prefW -> n * loss <= prefW - width) /\
  needed m' n hasHelp (T - n * loss) <= width + (n - 1).
Proof.
  intros Hm Hn Hneed Hcase. pose proof Hm as (Hl & Hr & Hs & He). unfold horizontalMargins.
  rewrite Z.gtb_ltb. destruct (Z.ltb_spec width prefW) as [Hlt|Hge].
  - pose proof (shrink_ok m n hasHelp T (prefW - width) width Hm ltac:(lia) Hn ltac:(lia) ltac:(lia)) as H1.
    destruct (shrink m n hasHelp (prefW - width)) as [m1 loss]. destruct H1 as (? & ? & ? & ? & ?).
    destruct (Z.ltb_spec prefW width); [lia|].
    split; [done|]. split; [done|]. split; [done|]. split; [lia|]. split; [lia|done].
  - destruct (Z.ltb_spec prefW width) as [Hgt|Hle].
    + pose proof (grow_ok policy m n hasHelp T (width - prefW) Hm ltac:(lia)) as (? & ? & ? & ?).
      rewrite Z.mul_0_r, Z.sub_0_r. split; [done|]. split; [done|]. split; [lia|].
      split; [intros _; split; [done|split; [done|lia]]|]. split; lia.
    + rewrite Z.mul_0_r, Z.sub_0_r. split; [done|]. split; [done|]. split; [lia|].
      split; [intros _; split; [done|split; [done|lia]]|]. split; lia.
Qed.

Lemma verticalLayout_ok policy m bh prefH height :
  0 <= top m -> 0 <= bottom m -> 0 <= bh -> 0 <= height -> prefH = bh + top m + bottom m ->
  prefH <= height \/ top m = bottom m ->
  let '(y, h) := verticalLayout policy m bh prefH height in
  0 <= y /\ 0 <= h /\ y + h <= height /\ h = Z.min bh height.
Proof.
  intros Ht Hb Hbh Hh -> Hcase. unfold verticalLayout. rewrite Z.gtb_ltb.
  destruct (Z.ltb_spec height (bh + top m + bottom m)) as [Hlt|Hge].
  - set (missing := bh + top m + bottom m - height).
    pose proof (half_bounds missing ltac:(lia)).
    destruct (Z.ltb_spec missing (top m + bottom m)), (Z.ltb_spec height bh),
      (Z.ltb_spec (bh + top m + bottom m) height); lia.
  - destruct (Z.ltb_spec height bh); [lia|].
    destruct (Z.ltb_spec (bh + top m + bottom m) height); [|lia].
    pose proof (half_bounds (height - bh - top m - bottom m) ltac:(lia)).
    destruct (bothDim (alignment policy) YD_VERT); lia.
Qed.

Lemma naturalWidth_nonneg order box equalSize :
  boxOk box -> Forall (fun b => 0 <= naturalWidth box equalSize b) (orderSpec order (children box)).
Proof.
  intros Hok. apply List.Forall_forall. intros b Hb%list_elem_of_In. unfold naturalWidth.
  destruct equalSize; [apply maxChildSize_ge|].
  apply (Forall_at _ _ _ (ok_sizes _ Hok) (elem_order order box b Hok Hb)).
Qed.

Lemma sumZ_minus {A} (f : A -> Z) c l :
  sumZ (map (fun x => f x - c) l) = sumZ (map f l) - Z.of_nat (length l) * c.
Proof. induction l; cbn [map sumZ length]; lia. Qed.

(** A row of the ordered buttons, each losing [loss] of its natural width. *)
Lemma row_ok order reverseLayout box width y bh m loss equalSize limit :
  boxOk box -> marginsNonneg m ->
  let bs := orderSpec order (children box) in
  let hasHelp := match findButton box YHelpButton with Some _ => true | None => false end in
  let bw b := naturalWidth box equalSize b - loss in
  bs <> [] -> Forall (fun b => 0 <= bw b) bs ->
  needed m (Z.of_nat (length bs)) hasHelp
    (sumZ (map (naturalWidth box equalSize) bs) - Z.of_nat (length bs) * loss) <= limit ->
  in_row 0 limit (spacing m) (map (interval reverseLayout width)
    (placeButtons reverseLayout width y bh bw (isButton (findButton box YHelpButton)) m true (left m) bs)).
Proof.
  intros Hok (Hl & _ & Hs & He) bs hasHelp bw Hne Hbw Hneed.
  eapply in_row_weaken; [exact Hl|reflexivity|]. apply placeButtons_row; [done..|].
  pose proof (order_span order box bw m Hok Hs He Hne) as Hspan. fold bs in Hspan.
  unfold bw in Hspan at 2. rewrite sumZ_minus in Hspan. unfold needed in Hneed.
  unfold helpSpace in Hspan. unfold hasHelp in Hneed. destruct (findButton box YHelpButton); lia.
Qed.

Lemma doLayout_nonempty policy reverseLayout box width height m loss y bh :
  boxOk box ->
  let bs := orderSpec (buttonOrder policy) (children box) in
  let n := Z.of_nat (length bs) in
  let equalSize := effectiveEqualSize policy box n width in
  let hasHelp := match findButton box YHelpButton with Some _ => true | None => false end in
  bs <> [] ->
  horizontalMargins policy (margins box) n hasHelp (preferredWidthWith box equalSize) width = (m, loss) ->
  verticalLayout policy m (maxChildSize box YD_VERT) (preferredHeight box) height = (y, bh) ->
  doLayout policy reverseLayout box width height =
  Ok (placeButtons reverseLayout width y bh (fun b => naturalWidth box equalSize b - loss)
        (isButton (findButton box YHelpButton)) m true (left m) bs).
Proof.
  intros Hok bs n eqs hasHelp Hne Em Ev. unfold doLayout. pose proof (order_spec policy box) as Ho.
  destruct (buttonsByButtonOrder policy box) as [buttons|e]; [|by destruct (Ho (ok_roles _ Hok))].
  destruct Ho as [_ ->]. fold bs. cbn [rbind].
  assert (Hd : forall X : result (list (YPushButton * Rect)),
    match bs with [] => Ok [] | _ => X end = X) by (by destruct bs).
  rewrite Hd. fold n eqs hasHelp. rewrite Em, Ev. done.
Qed.

(** The whole layout: what both size theorems share. *)
Lemma doLayout_ok policy reverseLayout box width height :
  boxOk box -> 0 <= height ->
  let bs := orderSpec (buttonOrder policy) (children box) in
  let n := Z.of_nat (length bs) in
  let equalSize := effectiveEqualSize policy box n width in
  let prefW := preferredWidthWith box equalSize in
  bs <> [] ->
  prefW <= width \/ left (margins box) = right (margins box) ->
  preferredHeight box <= height \/ top (margins box) = bottom (margins box) ->
  Forall (fun b => prefW - width <= n * naturalWidth box equalSize b) bs ->
  exists out loss gap, doLayout policy reverseLayout box width height = Ok out /\
    map fst out = bs /\ 0 <= loss /\ 0 <= gap /\
    Forall (fun br => rw br.2 = naturalWidth box equalSize br.1 - loss /\
                      rh br.2 = Z.min (maxChildSize box YD_VERT) height /\
                      0 <= ry br.2 /\ ry br.2 + rh br.2 <= height) out /\
    Forall (fun b => 0 <= naturalWidth box equalSize b - loss) bs /\
    (prefW <= width -> loss = 0 /\
       in_row 0 width (spacing (margins box)) (map (interval reverseLayout width) out)) /\
    in_row 0 (width + (n - 1)) gap (map (interval reverseLayout width) out).
Proof.
  intros Hok Hh bs n eqs prefW Hne Hcase Hvcase Hwide.
  assert (Hn : 1 <= n) by (unfold n; destruct bs; [done|simpl; lia]).
  set (hasHelp := match findButton box YHelpButton with Some _ => true | None => false end).
  pose proof (needed_width (buttonOrder policy) box eqs Hok Hne) as Hneed.
  pose proof Hok as [_ _ _ Hl Hr Ht Hb Hs He].
  assert (Hneed0 : needed (margins box) n hasHelp (sumZ (map (naturalWidth box eqs) bs)) +
                   right (margins box) <= prefW).
  { unfold needed, helpSpace, hasHelp in *. fold bs n prefW in Hneed.
    destruct (findButton box YHelpButton); lia. }
  pose proof (horizontalMargins_ok policy (margins box) n hasHelp _ prefW width
    ltac:(by unfold marginsNonneg) Hn Hneed0 Hcase) as Hm.
  destruct (horizontalMargins policy (margins box) n hasHelp prefW width) as [m loss] eqn:Em.
  destruct Hm as (Hm & [Vt Vb] & Hloss & Hfit & Hcut & Hneed').
  pose proof (verticalLayout_ok policy m (maxChildSize box YD_VERT) (preferredHeight box) height
    ltac:(lia) ltac:(lia) (proj1 (maxChildSize_ge box YD_VERT)) Hh
    ltac:(unfold preferredHeight; lia) ltac:(lia)) as Hv.
  destruct (verticalLayout _ _ _ _ _) as [y bh] eqn:Ev. destruct Hv as (Hy & Hbh & Hyh & Hmin).
  assert (Hbw : Forall (fun b => 0 <= naturalWidth box eqs b - loss) bs).
  { pose proof (naturalWidth_nonneg (buttonOrder policy) box eqs Hok) as Hnn. fold bs in Hnn.
    apply List.Forall_forall. intros b Hb'%list_elem_of_In.
    pose proof (Forall_at _ _ _ Hnn Hb') as H1. pose proof (Forall_at _ _ _ Hwide Hb') as H2.
    simpl in H1, H2. destruct (Z.le_gt_cases prefW width) as [Hle|Hgt].
    - destruct (Hfit Hle) as (-> & _). lia.
    - specialize (Hcut Hgt). nia. }
  eexists _, loss, (spacing m). split; [by eapply doLayout_nonempty|].
  split; [apply placeButtons_buttons|]. split; [done|]. split; [apply Hm|]. split; [|split; [done|split]].
  - eapply List.Forall_impl; [|apply placeButtons_rect]. intros br (-> & -> & ->). split; [done|lia].
  - intros Hle. destruct (Hfit Hle) as (-> & <- & Hw). split; [done|].
    apply row_ok; [done..|]. by rewrite Z.mul_0_r, Z.sub_0_r.
  - by apply row_ok.
Qed.

(** ** Properties *)

(** The buttons come in the documented order: [OK] [Apply] [Cancel]
    [Custom...] [Help] for KDE, [Help] [Custom...] [Apply] [Cancel] [OK] for
    GNOME, custom buttons in the order of creation. The function throws exactly
    if a child is no button, a role is invalid, or a role other than "custom"
    occurs twice. *)
Theorem button_order (policy : YButtonBoxLayoutPolicy) (box : YButtonBox) :
  match buttonsByButtonOrder policy box with
  | Ok buttons => wellRoled (children box) /\ buttons = orderSpec (buttonOrder policy) (children box)
  | Throw _ => ~ wellRoled (children box)
  end.
Proof. apply order_spec. Qed.

(** No button is lost or duplicated by the ordering, except the release
    notes button: it is accepted as a child but never part of the result, so
    that [doLayout()] never gives it a size or a position. *)
Theorem relnotes_button_lost (policy : YButtonBoxLayoutPolicy) (box : YButtonBox)
    (buttons : list YPushButton) :
  buttonsByButtonOrder policy box = Ok buttons ->
  buttonsOf (children box) ≡ₚ buttons ++ byRole YRelNotesButton (children box) /\
  forall b, b ∈ buttons -> role b <> YRelNotesButton.
Proof.
  intros E. pose proof (order_spec policy box) as H. rewrite E in H. destruct H as [[Hall _] ->].
  split; [by apply orderSpec_permutation|].
  intros b Hb. unfold orderSpec in Hb.
  destruct (buttonOrder policy); rewrite !elem_of_app, !elem_byRole in Hb; intuition congruence.
Qed.

(** The sanity check passes exactly if all children are buttons, there is
    at most one [OK] and at most one [Cancel] button, and, unless the check is
    relaxed, a box with several children has both. *)
Theorem sanity_check (box : YButtonBox) :
  sanityCheck box = Ok tt <->
  Forall (fun c => exists b, c = ChildButton b) (children box) /\
  (length (byRole YOKButton (children box)) <= 1)%nat /\
  (length (byRole YCancelButton (children box)) <= 1)%nat /\
  ((1 < length (children box))%nat -> sanityCheckRelaxed box = false ->
   length (byRole YOKButton (children box)) = 1%nat /\
   length (byRole YCancelButton (children box)) = 1%nat).
Proof.
  unfold sanityCheck, childrenCount.
  pose proof (sanity_loop [] (children box) (None, None) (List.Forall_nil _) eq_refl eq_refl) as H.
  simpl app in H. destruct (rfold sanityStep (children box) (None, None)) as [[ok ca]|e]; simpl.
  2: { split; [done|]. intros (? & ? & ? & _). by destruct H. }
  destruct H as (Hall & Hok & Hca). simpl in Hok, Hca. rewrite Z.gtb_ltb.
  destruct (Z.ltb_spec 1 (Z.of_nat (length (children box)))), (sanityCheckRelaxed box), ok, ca;
    simpl in *; rewrite Hok, Hca; simpl; split; intros Hs; try done;
    try (split; [done|]; repeat split; intros; try lia; done);
    destruct Hs as (_ & _ & _ & Hboth);
    (destruct Hboth as [H1 H2]; [lia|done|first [discriminate H1|discriminate H2]]).
Qed.

(** With at least the preferred size, every button gets exactly its natural
    size (the common width of all buttons, or its own), is inside the box, and
    the buttons follow each other in order, from left to right or, in a reversed
    layout, from right to left, at least the spacing apart. *)
Theorem buttons_fit (policy : YButtonBoxLayoutPolicy) (reverseLayout : bool) (box : YButtonBox)
    (width height : Z) :
  boxOk box -> preferredWidth policy box <= width -> preferredHeight box <= height ->
  exists out, doLayout policy reverseLayout box width height = Ok out /\
    map fst out = orderSpec (buttonOrder policy) (children box) /\
    Forall (fun br => rw br.2 = naturalWidth box (equalSizeButtons policy) br.1 /\
                      rh br.2 = maxChildSize box YD_VERT /\
                      0 <= ry br.2 /\ ry br.2 + rh br.2 <= height) out /\
    in_row 0 width (spacing (margins box)) (map (interval reverseLayout width) out).
Proof.
  intros Hok Hw Hh. set (bs := orderSpec (buttonOrder policy) (children box)).
  pose proof (maxChildSize_ge box YD_VERT) as [Hmax _].
  assert (Heff : effectiveEqualSize policy box (Z.of_nat (length bs)) width = equalSizeButtons policy).
  { unfold effectiveEqualSize. destruct (Z.ltb_spec width (preferredWidth policy box)); [lia|].
    by rewrite andb_false_l, andb_true_r. }
  destruct (decide (bs = [])) as [E|Hne].
  { exists []. unfold doLayout. pose proof (order_spec policy box) as Ho.
    destruct (buttonsByButtonOrder policy box) as [buttons|e]; [|by destruct (Ho (ok_roles _ Hok))].
    destruct Ho as [_ ->]. fold bs. rewrite E. simpl. repeat split. constructor. }
  destruct (doLayout_ok policy reverseLayout box width height Hok) as
    (out & loss & gap & E & Hb & _ & _ & Hr & _ & Hfit & _); fold bs; rewrite ?Heff; [|done|by left|by left| |].
  - pose proof (ok_top _ Hok). pose proof (ok_bottom _ Hok). unfold preferredHeight in Hh. lia.
  - pose proof (naturalWidth_nonneg (buttonOrder policy) box (equalSizeButtons policy) Hok) as Hnn.
    eapply List.Forall_impl; [|exact Hnn]. cbn beta. unfold preferredWidth in Hw. intros b Hb. nia.
  - exists out. fold bs in Hr, Hfit. rewrite Heff in Hr, Hfit. destruct (Hfit Hw) as [-> Hrow].
    split; [done|]. split; [done|]. split; [|done].
    eapply List.Forall_impl; [|exact Hr]. cbn beta. intros br (H1 & H2 & H3 & H4).
    pose proof (ok_top _ Hok). pose proof (ok_bottom _ Hok). unfold preferredHeight in Hh. lia.
Qed.

(** With symmetric margins and any size, the buttons stay in order without
    overlapping, and the row overshoots the box by less than one unit per
    button, as long as no button is asked to give up more than its width. The
    buttons are never outside the box vertically. *)
Theorem buttons_cut (policy : YButtonBoxLayoutPolicy) (reverseLayout : bool) (box : YButtonBox)
    (width height : Z) :
  let bs := orderSpec (buttonOrder policy) (children box) in
  let n := Z.of_nat (length bs) in
  let equalSize := effectiveEqualSize policy box n width in
  boxOk box -> 0 <= height -> bs <> [] ->
  left (margins box) = right (margins box) -> top (margins box) = bottom (margins box) ->
  Forall (fun b => preferredWidthWith box equalSize - width <= n * naturalWidth box equalSize b) bs ->
  exists out loss, doLayout policy reverseLayout box width height = Ok out /\
    map fst out = bs /\
    Forall (fun br => rw br.2 = naturalWidth box equalSize br.1 - loss /\
                      0 <= ry br.2 /\ ry br.2 + rh br.2 <= height) out /\
    Forall (fun b => 0 <= naturalWidth box equalSize b - loss) bs /\
    in_row 0 (width + (n - 1)) 0 (map (interval reverseLayout width) out).
Proof.
  intros bs n eqs Hok Hh Hne Hlr Htb Hwide.
  destruct (doLayout_ok policy reverseLayout box width height Hok Hh Hne (or_intror Hlr)
    (or_intror Htb) Hwide) as (out & loss & gap & E & Hb & _ & Hg & Hr & Hnn & _ & Hrow).
  exists out, loss. split; [done|]. split; [done|]. split; [|split; [done|]].
  - eapply List.Forall_impl; [|exact Hr]. cbn beta. intros br (? & ? & ? & ?). auto.
  - eapply in_row_weaken; [reflexivity|exact Hg|exact Hrow].
Qed.

(** ** Examples *)

Definition sampleButton (bid : nat) (label : string) (r : YButtonRole) (w : Z) : YPushButton :=
  mkButton bid (str label) false false r 0 w 10.

Definition okButton := sampleButton 0 "&OK" YOKButton 30.
Definition cancelButton := sampleButton 1 "&Cancel" YCancelButton 50.
Definition helpButton := sampleButton 2 "&Help" YHelpButton 40.

Definition sampleBox (m : YButtonBoxMargins) (buttons : list YPushButton) : YButtonBox :=
  mkBox false m (map ChildButton buttons).

(** A box of distinct buttons is well-formed; decided by evaluation. *)
Definition boxOkb (box : YButtonBox) : bool :=
  forallb (fun c => match c with
                    | ChildButton b => negb (bool_decide (role b = YMaxButtonRole))
                    | ChildOther _ _ => false
                    end) (children box) &&
  forallb (fun r => (length (byRole r (children box)) <=? 1)%nat)
    [YOKButton; YApplyButton; YCancelButton; YHelpButton; YRelNotesButton; YMaxButtonRole] &&
  bool_decide (NoDup (map bid (buttonsOf (children box)))) &&
  forallb (fun b => (0 <=? prefWidth b) && (0 <=? prefHeight b)) (buttonsOf (children box)) &&
  forallb (Z.leb 0)
    [left (margins box); right (margins box); top (margins box); bottom (margins box);
     spacing (margins box); helpButtonExtraSpacing (margins box)].

Lemma boxOkb_ok box : boxOkb box = true -> boxOk box.
Proof.
  unfold boxOkb. rewrite !andb_true_iff. intros ((((Hall & Hone) & Hnd) & Hsz) & Hm).
  simpl in Hm. rewrite !andb_true_iff, !Z.leb_le in Hm. destruct Hm as (? & ? & ? & ? & ? & ? & _).
  constructor; try done.
  - split.
    + apply List.Forall_forall. intros c Hc. apply (proj1 (forallb_forall _ _) Hall) in Hc.
      destruct c as [b|]; [|done]. exists b. split; [done|]. by apply negb_true_iff, bool_decide_eq_false in Hc.
    + rewrite forallb_forall in Hone. intros r Hr. apply Nat.leb_le, Hone. destruct r; simpl; tauto.
  - by apply bool_decide_eq_true in Hnd.
  - apply List.Forall_forall. intros b Hb. apply (proj1 (forallb_forall _ _) Hsz) in Hb.
    rewrite andb_true_iff, !Z.leb_le in Hb. done.
Qed.

Lemma relnotes_button_lost_witness :
  let notes := sampleButton 3 "Release &Notes" YRelNotesButton 90 in
  buttonsOf (map ChildButton [okButton; notes; cancelButton]) ≡ₚ [okButton; cancelButton] ++ [notes].
Proof.
  intros notes.
  exact (proj1 (relnotes_button_lost kdeLayoutPolicy
    (sampleBox newMargins [okButton; notes; cancelButton]) [okButton; cancelButton] eq_refl)).
Defined.

Lemma buttons_fit_witness :
  exists out, doLayout gnomeLayoutPolicy false
      (sampleBox (mkMargins 3 5 1 2 4 7) [okButton; cancelButton; helpButton]) 200 20 = Ok out /\
    map (fun br => rx br.2) out = [3; 91; 145].
Proof.
  destruct (buttons_fit gnomeLayoutPolicy false
    (sampleBox (mkMargins 3 5 1 2 4 7) [okButton; cancelButton; helpButton]) 200 20)
    as (out & E & _); [by apply boxOkb_ok; vm_compute|zeval|zeval|].
  exists out. split; [exact E|]. vm_compute in E. by injection E as <-.
Defined.

Lemma buttons_cut_witness :
  exists out, doLayout kdeLayoutPolicy true
      (sampleBox (mkMargins 3 3 1 1 4 7) [okButton; cancelButton]) 61 5 = Ok out /\
    map (fun br => (rx br.2, rw br.2)) out = [(40, 21); (-1, 41)].
Proof.
  destruct (buttons_cut kdeLayoutPolicy true
    (sampleBox (mkMargins 3 3 1 1 4 7) [okButton; cancelButton]) 61 5)
    as (out & loss & E & _); [by apply boxOkb_ok; vm_compute|zeval|done|done|done|all_eval|].
  exists out. split; [exact E|]. vm_compute in E. by injection E as <-.
Defined.

(** The layout of too small boxes leaves the box in two cases. With a left
    margin smaller than the right one, half of the missing width is taken from
    each, and the first button starts left of the box. And the missing width is
    taken in equal parts from all buttons, so that a small button gets a
    negative width next to a large one. *)
Theorem layout_leaves_box :
  (let box := sampleBox (mkMargins 0 10 0 0 0 0) [okButton] in
   boxOk box /\
   doLayout kdeLayoutPolicy false box 30 10 = Ok [(okButton, mkRect (-5) 0 30 10)]) /\
  (let large := sampleButton 1 "&Cancel" YCancelButton 200 in
   let box := sampleBox newMargins [okButton; large] in
   boxOk box /\
   doLayout kdeLayoutPolicy false box 100 10 =
     Ok [(okButton, mkRect 0 0 (-35) 10); (large, mkRect (-35) 0 135 10)]).
Proof.
  split; (split; [apply boxOkb_ok|]); vm_compute; reflexivity.
Qed.

(** Roles and function keys determine each other: a key is guessed from a
    role, or a role from a key, only if there is none yet, and for [OK],
    [Cancel] and [Help] the two guesses are inverse. *)
Theorem role_key_guess (b : YPushButton) (r : YButtonRole) (k : Z) :
  (hasFunctionKey b = true -> functionKey (setRole b r) = functionKey b) /\
  (role b <> YCustomButton -> role (setFunctionKey b k) = role b) /\
  role (setRole b r) = r /\ functionKey (setFunctionKey b k) = k /\
  (role b = YCustomButton -> hasFunctionKey b = false ->
   r = YOKButton \/ r = YCancelButton \/ r = YHelpButton ->
   role (setFunctionKey b (functionKey (setRole b r))) = r).
Proof.
  unfold setRole, setFunctionKey, hasFunctionKey. simpl.
  split; [by intros ->|]. split; [by intros ?; rewrite decide_False|].
  split; [by destruct (functionKey b >? 0), r|]. split; [by repeat case_match|].
  intros Hc -> [->|[->| ->]]; simpl; by rewrite decide_True.
Qed.

End YButtonBox.
