(* ===== verification/Item.v ===== *)
(** * Items

    src/libyui/src/YItem.h, YItem.cc and YTreeItem.cc: the items of list, tree
    and table widgets. An item is a tree; [iid] stands for its address, so that
    a pointer to an item is its [iid] and a change of an item through a pointer
    is a change of the item with that [iid] wherever the collection holds
    it. *)

From S2P Require Import Prelude Shortcut.

Module YItem.

(** The members of YItem and YTreeItem. *)
Record itemData : Type := mkItem {
  iid : nat;
  label : cstring;
  iconName : cstring;
  status : Z;
  index : Z;
  parent : option nat;
  isOpenFlag : bool
}.

Inductive item : Type := Item (d : itemData) (children : list item).

Definition data (it : item) : itemData := let 'Item d _ := it in d.
Definition children (it : item) : list item := let 'Item _ cs := it in cs.

(** The constructors of a toplevel item. *)
Definition newItem (iid : nat) (label iconName : cstring) (selected : bool) : item :=
  Item (mkItem iid label iconName (if selected then 1 else 0) (-1) None false) [].

Definition newTreeItem (iid : nat) (label iconName : cstring) (isOpen : bool) : item :=
  Item (mkItem iid label iconName 0 (-1) None isOpen) [].

Definition selected (d : itemData) : bool := negb (status d =? 0).

Definition setStatus (d : itemData) (newStatus : Z) : itemData :=
  mkItem (iid d) (label d) (iconName d) newStatus (index d) (parent d) (isOpenFlag d).

Definition setSelected (d : itemData) (sel : bool) : itemData := setStatus d (if sel then 1 else 0).

Definition setIndex (d : itemData) (i : Z) : itemData :=
  mkItem (iid d) (label d) (iconName d) (status d) i (parent d) (isOpenFlag d).

Definition hasIconName (d : itemData) : bool :=
  match iconName d with [] => false | _ => true end.

Definition hasChildren (it : item) : bool := match children it with [] => false | _ => true end.

Definition isOpen (it : item) : bool := if hasChildren it then isOpenFlag (data it) else false.

Definition setOpen (d : itemData) (open : bool) : itemData :=
  mkItem (iid d) (label d) (iconName d) (status d) (index d) (parent d) open.

(** The constructor of a child item, and [YTreeItem::addChild()]. *)
Definition addChild (it : item) (child : item) : item :=
  Item (data it) (children it ++ [child]).

Definition newChildItem (it : item) (iid' : nat) (label iconName : cstring) (isOpen : bool) : item :=
  addChild it (Item (mkItem iid' label iconName 0 (-1) (Some (iid (data it))) isOpen) []).

Definition MAX_DEBUG_LABEL_LEN : nat := 32.

Definition limitLength (text : cstring) (limit : Z) : cstring :=
  if (MAX_DEBUG_LABEL_LEN <? length text)%nat then take MAX_DEBUG_LABEL_LEN text ++ str "..."
  else text.

Definition debugLabel (d : itemData) : cstring :=
  limitLength (label d) (Z.of_nat MAX_DEBUG_LABEL_LEN).

(** ** Collections *)

(** The items of a tree in the order of the recursive searches. *)
Fixpoint preorder1 (it : item) : list itemData :=
  let 'Item d cs := it in d :: flat_map preorder1 cs.

Definition preorder (l : list item) : list itemData := flat_map preorder1 l.

(** A change of all items of a collection. *)
Fixpoint mapItem (f : itemData -> itemData) (it : item) : item :=
  let 'Item d cs := it in Item (f d) (map (mapItem f) cs).

Definition mapItems (f : itemData -> itemData) (l : list item) : list item := map (mapItem f) l.

(** A change of the item a pointer refers to. *)
Definition updateItem (p : nat) (f : itemData -> itemData) (l : list item) : list item :=
  mapItems (fun d => if (iid d =? p)%nat then f d else d) l.

(** Induction over a tree of items. *)
Section item_ind.
Variable P : item -> Prop.
Hypothesis Hnode : forall d cs, Forall P cs -> P (Item d cs).
Fixpoint item_tree_ind (it : item) : P it :=
  let 'Item d cs := it in
  Hnode d cs
    ((fix all (cs : list item) : Forall P cs :=
        match cs with
        | [] => List.Forall_nil P
        | c :: cs' => List.Forall_cons P c cs' (item_tree_ind c) (all cs')
        end) cs).
End item_ind.

Lemma flat_map_map_Forall {A B C} (f : B -> list C) (g : A -> B) (h : A -> list C) l :
  Forall (fun x => f (g x) = h x) l -> flat_map f (map g l) = flat_map h l.
Proof. induction 1 as [|x l E _ IH]; simpl; [done|]. by rewrite E, IH. Qed.

Lemma map_flat_map {A B C} (f : B -> C) (g : A -> list B) l :
  map f (flat_map g l) = flat_map (fun x => map f (g x)) l.
Proof. induction l as [|x l IH]; simpl; [done|]. by rewrite map_app, IH. Qed.

Lemma preorder1_map f it : preorder1 (mapItem f it) = map f (preorder1 it).
Proof.
  induction it as [d cs IH] using item_tree_ind. simpl. f_equal.
  rewrite map_flat_map. by apply flat_map_map_Forall.
Qed.

Lemma preorder_map f l : preorder (mapItems f l) = map f (preorder l).
Proof.
  unfold preorder, mapItems. rewrite map_flat_map. apply flat_map_map_Forall.
  apply List.Forall_forall. intros it _. apply preorder1_map.
Qed.

Lemma preorder_app l1 l2 : preorder (l1 ++ l2) = preorder l1 ++ preorder l2.
Proof. apply flat_map_app. Qed.

(** [limitLength()] ignores its limit: every longer text is cut to 32
    characters and an ellipsis, even if the limit allows the whole text, and
    the result can be longer than the limit. *)
Theorem limitLength_ignores_limit (text : cstring) (limit1 limit2 : Z) :
  limitLength text limit1 = limitLength text limit2 /\
  length (limitLength text limit1) =
    (if (32 <? length text)%nat then 35%nat else length text).
Proof.
  split; [done|]. unfold limitLength, MAX_DEBUG_LABEL_LEN. destruct (Nat.ltb_spec 32 (length text)); [|done].
  rewrite length_app, length_take. change (length (str "...")) with 3%nat. lia.
Qed.

End YItem.
