(* ===== verification/SelectionWidget.v ===== *)
(** * Selection widgets

    src/libyui/src/YSelectionWidget.cc: the base class of all widgets with
    items. It owns the items, searches them, and keeps the selection: with
    [enforceSingleSelection] at most one item is selected at any time. *)

From S2P Require Import Prelude Shortcut Item.
Import Item.YItem.

Module YSelectionWidget.

Record YSelectionWidget : Type := mkWidget {
  label : cstring;
  enforceSingleSelection : bool;
  enforceInitialSelectionFlag : bool;
  recursiveSelection : bool;
  iconBasePath : cstring;
  itemCollection : list item
}.

(** The constructor. *)
Definition newSelectionWidget (label : cstring) (single recursive : bool) : result YSelectionWidget :=
  if single && recursive then
    Throw (YUIGenericException "recursiveSelection is only available for multiSelection Widgets.")
  else Ok (mkWidget label single true recursive [] []).

Definition withItems (w : YSelectionWidget) (l : list item) : YSelectionWidget :=
  mkWidget (label w) (enforceSingleSelection w) (enforceInitialSelectionFlag w)
    (recursiveSelection w) (iconBasePath w) l.

Definition deleteAllItems (w : YSelectionWidget) : YSelectionWidget := withItems w [].

Definition setLabel (w : YSelectionWidget) (newLabel : cstring) : YSelectionWidget :=
  mkWidget newLabel (enforceSingleSelection w) (enforceInitialSelectionFlag w)
    (recursiveSelection w) (iconBasePath w) (itemCollection w).

Definition setEnforceInitialSelection (w : YSelectionWidget) (newVal : bool) : YSelectionWidget :=
  if enforceSingleSelection w then
    mkWidget (label w) (enforceSingleSelection w) newVal (recursiveSelection w) (iconBasePath w)
      (itemCollection w)
  else w.

Definition enforceInitialSelection (w : YSelectionWidget) : bool :=
  enforceInitialSelectionFlag w && enforceSingleSelection w.

Definition setIconBasePath (w : YSelectionWidget) (basePath : cstring) : YSelectionWidget :=
  mkWidget (label w) (enforceSingleSelection w) (enforceInitialSelectionFlag w)
    (recursiveSelection w) basePath (itemCollection w).

(** [findIcon] is the icon loader of the application. *)
Definition iconFullPath (findIcon : cstring -> cstring) (w : YSelectionWidget) (iconName : cstring)
  : cstring :=
  let slash := Ascii.ascii_of_nat 47 in
  match iconName with
  | [] => []
  | c :: _ =>
      if decide (c = slash) then iconName
      else
        match iconBasePath w with
        | b :: _ => if decide (b = slash) then iconBasePath w ++ [slash] ++ iconName else findIcon iconName
        | [] => findIcon iconName
        end
  end.

(** ** Searching *)

Fixpoint findSelectedItem1 (it : item) : option itemData :=
  let 'Item d cs := it in
  if selected d then Some d
  else firstSome findSelectedItem1 cs.

Definition findSelectedItem (l : list item) : option itemData := firstSome findSelectedItem1 l.

Definition selectedItem (w : YSelectionWidget) : option itemData := findSelectedItem (itemCollection w).

Definition hasSelectedItem (w : YSelectionWidget) : bool :=
  match selectedItem w with Some _ => true | None => false end.

(** The accumulator is the vector [selectedItems]. *)
Fixpoint findSelectedItems1 (acc : list itemData) (it : item) : list itemData :=
  let 'Item d cs := it in
  let acc := if selected d then acc ++ [d] else acc in
  fold_left findSelectedItems1 cs acc.

Definition selectedItems (w : YSelectionWidget) : list itemData :=
  fold_left findSelectedItems1 (itemCollection w) [].

Fixpoint itemsContain1 (wanted : nat) (it : item) : bool :=
  let 'Item d cs := it in (iid d =? wanted)%nat || existsb (itemsContain1 wanted) cs.

Definition itemsContain (w : YSelectionWidget) (wanted : nat) : bool :=
  existsb (itemsContain1 wanted) (itemCollection w).

Fixpoint findItem1 (wantedItemLabel : cstring) (it : item) : option itemData :=
  let 'Item d cs := it in
  if decide (YItem.label d = wantedItemLabel) then Some d
  else firstSome (findItem1 wantedItemLabel) cs.

Definition findItem (w : YSelectionWidget) (wantedItemLabel : cstring) : option itemData :=
  firstSome (findItem1 wantedItemLabel) (itemCollection w).

Definition hasItems (w : YSelectionWidget) : bool :=
  match itemCollection w with [] => false | _ => true end.

Definition itemsCount (w : YSelectionWidget) : Z := Z.of_nat (length (itemCollection w)).

Definition firstItem (w : YSelectionWidget) : option item := head (itemCollection w).

Definition itemAt (w : YSelectionWidget) (index : Z) : option item :=
  if (index <? 0) || (index >=? itemsCount w) then None
  else itemCollection w !! Z.to_nat index.

(** ** Changing the selection *)

Fixpoint deselectItem (it : item) : item :=
  let 'Item d cs := it in Item (setSelected d false) (map deselectItem cs).

Definition deselectAllItems (w : YSelectionWidget) : YSelectionWidget :=
  withItems w (map deselectItem (itemCollection w)).

(** [item->setSelected( sel )] through a pointer. *)
Definition setSelectedAt (w : YSelectionWidget) (p : nat) (sel : bool) : YSelectionWidget :=
  withItems w (updateItem p (fun d => setSelected d sel) (itemCollection w)).

(** [addItem()]; [None] is a null pointer. *)
Definition addItem (w : YSelectionWidget) (newItem : option item) : result YSelectionWidget :=
  match newItem with
  | None => Throw YUINullPointerException
  | Some it =>
      if bool_decide (is_Some (parent (data it))) then
        Throw (YUIGenericException "Item already owned by parent item - call addItem() only for toplevel items!")
      else
        let it := Item (setIndex (data it) (itemsCount w)) (children it) in
        let w := withItems w (itemCollection w ++ [it]) in
        if enforceSingleSelection w then
          let newItemSelected :=
            if selected (data it) then Some (data it) else findSelectedItem (children it) in
          let w :=
            match newItemSelected with
            | Some d => setSelectedAt (deselectAllItems w) (iid d) true
            | None => w
            end in
          Ok (if enforceInitialSelectionFlag w && (itemsCount w =? 1)
              then setSelectedAt w (iid (data it)) true else w)
        else Ok w
  end.

Definition addItems (w : YSelectionWidget) (l : list item) : result YSelectionWidget :=
  rfold (fun w it => addItem w (Some it)) l w.

(** The item a pointer refers to, with its children. *)
Fixpoint lookupItem1 (p : nat) (it : item) : option item :=
  let 'Item d cs := it in
  if (iid d =? p)%nat then Some it
  else firstSome (lookupItem1 p) cs.

Definition lookupItem (p : nat) (l : list item) : option item := firstSome (lookupItem1 p) l.

(** The body of [selectItem()]; the recursion follows the children of the item,
    which no step of it changes. *)
Fixpoint selectTree (w : YSelectionWidget) (it : item) (sel : bool) : result YSelectionWidget :=
  let 'Item d cs := it in
  if negb (itemsContain w (iid d)) then Throw (YUIGenericException "Item does not belong to this widget")
  else
    let w :=
      if enforceSingleSelection w && sel then
        match selectedItem w with
        | Some old => setSelectedAt w (iid old) false
        | None => w
        end
      else w in
    let? w :=
      if recursiveSelection w && hasChildren it then
        rfold (fun w c => let? w := selectTree w c sel in Ok (setSelectedAt w (iid (data c)) sel)) cs w
      else Ok w in
    Ok (setSelectedAt w (iid d) sel).

(** [selectItem()] for a pointer; an item outside the widget is only looked at
    to find out that it does not belong there. *)
Definition selectItem (w : YSelectionWidget) (p : option nat) (sel : bool) : result YSelectionWidget :=
  match p with
  | None => Throw YUINullPointerException
  | Some p =>
      match lookupItem p (itemCollection w) with
      | Some it => selectTree w it sel
      | None => Throw (YUIGenericException "Item does not belong to this widget")
      end
  end.

Definition setItemStatus (w : YSelectionWidget) (p : option nat) (status : Z)
  : result YSelectionWidget :=
  selectItem w p (negb (status =? 0)).

(** ** The searches, on the list of all items *)

Definition all (w : YSelectionWidget) : list itemData := preorder (itemCollection w).
Definition ids (w : YSelectionWidget) : list nat := map iid (all w).

(** The selected items, and the pointers to them. *)
Definition selectedOf (l : list itemData) : list itemData := filter (fun d => selected d = true) l.
Definition selectedIds (w : YSelectionWidget) : list nat := map iid (selectedOf (all w)).

Lemma filter_flat_map {A B} (P : B -> Prop) `{!forall x, Decision (P x)} (f : A -> list B) l :
  filter P (flat_map f l) = flat_map (fun x => filter P (f x)) l.
Proof. induction l as [|x l IH]; simpl; [done|]. by rewrite list.filter_app, IH. Qed.

(** A search that tests an item before its children finds the first match in
    the order of [preorder]. *)
Lemma search_first (P : itemData -> Prop) `{!forall x, Decision (P x)} (f : item -> option itemData) :
  (forall d cs, f (Item d cs) = if decide (P d) then Some d else firstSome f cs) ->
  forall l, firstSome f l = head (filter P (preorder l)).
Proof.
  intros Hf l. unfold preorder. rewrite filter_flat_map. apply firstSome_head.
  apply List.Forall_forall. intros it _. induction it as [d cs IH] using item_tree_ind.
  rewrite Hf. simpl. rewrite filter_cons. case_decide; [done|].
  rewrite filter_flat_map. by apply firstSome_head.
Qed.

Lemma findSelectedItem_head l : findSelectedItem l = head (selectedOf (preorder l)).
Proof.
  apply (search_first (fun d => selected d = true)). intros d cs. simpl.
  by destruct (selected d).
Qed.

Lemma findItem_head w wanted :
  findItem w wanted = head (filter (fun d => YItem.label d = wanted) (all w)).
Proof. by apply (search_first (fun d => YItem.label d = wanted)). Qed.

Lemma findSelectedItems_fold l acc :
  fold_left findSelectedItems1 l acc = acc ++ selectedOf (preorder l).
Proof.
  assert (H : Forall (fun it => forall acc, findSelectedItems1 acc it = acc ++ selectedOf (preorder1 it)) l).
  { apply List.Forall_forall. intros it _. induction it as [d cs IH] using item_tree_ind. intros ac.
    simpl. unfold selectedOf. rewrite filter_cons.
    assert (Hl : forall ac, fold_left findSelectedItems1 cs ac =
                            ac ++ filter (fun d => selected d = true) (flat_map preorder1 cs)).
    { clear ac. induction IH as [|c cs Hc _ IHl]; intros ac; simpl; [by rewrite app_nil_r|].
      rewrite Hc, IHl, list.filter_app. by rewrite <- app_assoc. }
    rewrite Hl. destruct (selected d); [rewrite decide_True by done|by rewrite decide_False].
    by rewrite <- app_assoc. }
  revert acc; induction H as [|it l Hit _ IH]; intros acc; simpl; [by rewrite app_nil_r|].
  rewrite IH, Hit. unfold selectedOf. by rewrite list.filter_app, <- app_assoc.
Qed.

Lemma selectedItems_filter w : selectedItems w = selectedOf (all w).
Proof. apply findSelectedItems_fold. Qed.

Lemma existsb_flat_map {A B} (f : A -> bool) (g : A -> list B) (p : B -> bool) l :
  Forall (fun x => f x = existsb p (g x)) l -> existsb f l = existsb p (flat_map g l).
Proof. induction 1 as [|x l E _ IH]; simpl; [done|]. by rewrite existsb_app, E, IH. Qed.

Lemma itemsContain_ids w p : itemsContain w p = true <-> p ∈ ids w.
Proof.
  unfold itemsContain, ids, all, preorder.
  rewrite (existsb_flat_map _ preorder1 (fun d => (iid d =? p)%nat)).
  - rewrite existsb_exists, list_elem_of_fmap. setoid_rewrite <- list_elem_of_In.
    setoid_rewrite Nat.eqb_eq. split; intros (d & H1 & H2); exists d; [by split|by split].
  - apply List.Forall_forall. intros it _. induction it as [d cs IH] using item_tree_ind.
    simpl. f_equal. by apply existsb_flat_map.
Qed.

Lemma deselectItem_map it : deselectItem it = mapItem (fun d => setSelected d false) it.
Proof.
  induction it as [d cs IH] using item_tree_ind. simpl. f_equal.
  induction IH as [|c cs Hc _ IHl]; simpl; [done|]. by rewrite Hc, IHl.
Qed.

Lemma all_deselect w : all (deselectAllItems w) = map (fun d => setSelected d false) (all w).
Proof.
  unfold all, deselectAllItems. simpl. rewrite <- preorder_map. unfold mapItems. f_equal.
  apply map_ext. apply deselectItem_map.
Qed.

Lemma all_setSelectedAt w p sel :
  all (setSelectedAt w p sel) =
  map (fun d => if (iid d =? p)%nat then setSelected d sel else d) (all w).
Proof. unfold all, setSelectedAt, updateItem. simpl. apply preorder_map. Qed.

Lemma ids_setSelectedAt w p sel : ids (setSelectedAt w p sel) = ids w.
Proof.
  unfold ids. rewrite all_setSelectedAt, map_map. apply map_ext. intros d. by destruct (_ =? _)%nat.
Qed.

Lemma ids_deselect w : ids (deselectAllItems w) = ids w.
Proof. unfold ids. rewrite all_deselect, map_map. by apply map_ext. Qed.

Lemma selected_setSelected d sel : selected (setSelected d sel) = sel.
Proof. by destruct sel. Qed.

(** ** One selected item *)

Lemma selectedOf_deselect l : selectedOf (map (fun d => setSelected d false) l) = [].
Proof. induction l as [|d l IH]; [done|]. unfold selectedOf in *. simpl. by rewrite filter_cons, IH. Qed.

(** Selecting one item where no other is selected. *)
Lemma selectedIds_only l p :
  NoDup (map iid l) -> p ∈ map iid l ->
  Forall (fun d => iid d <> p -> selected d = false) l ->
  map iid (selectedOf (map (fun d => if (iid d =? p)%nat then setSelected d true else d) l)) = [p].
Proof.
  unfold selectedOf. induction l as [|d l IH]; simpl; [intros _ Hp; by apply elem_of_nil in Hp|].
  intros [Hd Hnd]%list.NoDup_cons Hp [Hsd Hs]%Forall_cons_iff. rewrite filter_cons.
  destruct (Nat.eqb_spec (iid d) p) as [<-|Hne].
  - rewrite decide_True by done. simpl. f_equal.
    assert (filter (fun d0 => selected d0 = true)
      (map (fun d0 => if (iid d0 =? iid d)%nat then setSelected d0 true else d0) l) = []) as ->; [|done].
    clear -Hd Hs. induction Hs as [|x l Hx _ IH]; [done|]. simpl in *.
    apply not_elem_of_cons in Hd as [Hne Hd]. rewrite filter_cons.
    destruct (Nat.eqb_spec (iid x) (iid d)); [congruence|].
    rewrite decide_False by (rewrite Hx by done; done). auto.
  - rewrite decide_False by (rewrite Hsd by done; done). apply IH; [done| |done].
    apply elem_of_cons in Hp as [->|Hp]; [done|done].
Qed.

(** A pointer refers to an item of the widget exactly if it is found. *)
Lemma lookupItem_spec p l :
  match lookupItem p l with
  | Some it => iid (data it) = p /\ preorder1 it ⊆ preorder l
  | None => p ∉ map iid (preorder l)
  end.
Proof.
  assert (Hone : Forall (fun it =>
    match lookupItem1 p it with
    | Some x => iid (data x) = p /\ preorder1 x ⊆ preorder1 it
    | None => p ∉ map iid (preorder1 it)
    end) l -> match lookupItem p l with
              | Some it => iid (data it) = p /\ preorder1 it ⊆ preorder l
              | None => p ∉ map iid (preorder l)
              end).
  { unfold lookupItem, preorder. induction 1 as [|it l Hit _ IH]; simpl; [apply not_elem_of_nil|].
    destruct (lookupItem1 p it); [destruct Hit; split; [done|set_solver]|].
    destruct (firstSome _ l); [destruct IH; split; [done|set_solver]|].
    rewrite map_app. set_solver. }
  apply Hone. clear Hone. apply List.Forall_forall. intros it _.
  induction it as [d cs IH] using item_tree_ind. cbn [lookupItem1].
  destruct (Nat.eqb_spec (iid d) p) as [E|Hne]; [done|].
  assert (H : match firstSome (lookupItem1 p) cs with
              | Some x => iid (data x) = p /\ preorder1 x ⊆ flat_map preorder1 cs
              | None => p ∉ map iid (flat_map preorder1 cs)
              end).
  { induction IH as [|c cs Hc _ IHl]; simpl; [apply not_elem_of_nil|].
    destruct (lookupItem1 p c); [destruct Hc; split; [done|set_solver]|].
    destruct (firstSome _ cs); [destruct IHl; split; [done|set_solver]|].
    rewrite map_app. set_solver. }
  destruct (firstSome _ cs); [destruct H; split; [done|set_solver]|]. simpl. set_solver.
Qed.

Lemma setSelectedAt_frame w p sel :
  enforceSingleSelection (setSelectedAt w p sel) = enforceSingleSelection w /\
  recursiveSelection (setSelectedAt w p sel) = recursiveSelection w /\
  enforceInitialSelectionFlag (setSelectedAt w p sel) = enforceInitialSelectionFlag w /\
  length (itemCollection (setSelectedAt w p sel)) = length (itemCollection w).
Proof. unfold setSelectedAt, updateItem, mapItems. simpl. by rewrite length_map. Qed.

(** The old selection removed before a new one is made. *)
Definition unselectOld (w : YSelectionWidget) (sel : bool) : YSelectionWidget :=
  if enforceSingleSelection w && sel then
    match selectedItem w with Some old => setSelectedAt w (iid old) false | None => w end
  else w.

Lemma unselectOld_ids w sel : ids (unselectOld w sel) = ids w.
Proof.
  unfold unselectOld. destruct (_ && _); [|done]. destruct (selectedItem w); [|done].
  apply ids_setSelectedAt.
Qed.

(** Without recursion, [selectItem()] is two assignments. *)
Lemma selectItem_flat w p sel :
  recursiveSelection w = false ->
  selectItem w (Some p) sel =
  if decide (p ∈ ids w) then Ok (setSelectedAt (unselectOld w sel) p sel)
  else Throw (YUIGenericException "Item does not belong to this widget").
Proof.
  intros Hr. unfold selectItem. pose proof (lookupItem_spec p (itemCollection w)) as H.
  destruct (lookupItem p (itemCollection w)) as [[d cs]|]; [|by rewrite decide_False].
  destruct H as [E Hsub]. simpl in E.
  assert (Hin : p ∈ ids w).
  { unfold ids, all. rewrite <- E. apply list_elem_of_fmap_2, Hsub. simpl. left. }
  rewrite decide_True by done. cbn [selectTree]. rewrite E.
  assert (itemsContain w p = true) as -> by (by apply itemsContain_ids). simpl negb. cbn iota.
  fold (unselectOld w sel).
  assert (Hr' : recursiveSelection (unselectOld w sel) = false).
  { unfold unselectOld. destruct (_ && _); [|done]. by destruct (selectedItem w). }
  by rewrite Hr'.
Qed.

(** After removing the old selection nothing is selected, if at most one item
    was. *)
Lemma unselectOld_none w :
  enforceSingleSelection w = true -> NoDup (ids w) -> (length (selectedOf (all w)) <= 1)%nat ->
  Forall (fun d => selected d = false) (all (unselectOld w true)).
Proof.
  intros Hs Hnd Hone. unfold unselectOld. rewrite Hs. simpl. unfold selectedItem.
  rewrite findSelectedItem_head. fold (all w). apply List.Forall_forall. intros d Hd%list_elem_of_In.
  assert (Hin : forall x, x ∈ selectedOf (all w) <-> selected x = true /\ x ∈ all w).
  { intros x. unfold selectedOf. by rewrite list_elem_of_filter. }
  destruct (selectedOf (all w)) as [|old [|? ?]] eqn:E; simpl in *; [| |lia].
  - apply not_true_iff_false. intros Ht. by apply (not_elem_of_nil d), Hin.
  - rewrite all_setSelectedAt in Hd. apply list_elem_of_fmap in Hd as (x & -> & Hx).
    destruct (Nat.eqb_spec (iid x) (iid old)); [apply selected_setSelected|].
    apply not_true_iff_false. intros Ht. assert (Hx' : x ∈ [old]) by (by apply Hin).
    apply elem_of_cons in Hx' as [->|Hx']; [done|by apply elem_of_nil in Hx'].
Qed.

Lemma select_true w p :
  recursiveSelection w = false -> enforceSingleSelection w = true -> NoDup (ids w) ->
  (length (selectedOf (all w)) <= 1)%nat -> p ∈ ids w ->
  selectedIds (setSelectedAt (unselectOld w true) p true) = [p].
Proof.
  intros Hr Hs Hnd Hone Hp. unfold selectedIds. rewrite all_setSelectedAt.
  pose proof (unselectOld_ids w true) as Hids. unfold ids in Hids at 1.
  apply selectedIds_only; [by rewrite Hids|by rewrite Hids|].
  eapply List.Forall_impl; [|by apply unselectOld_none]. auto.
Qed.

Lemma length_filter_map {A} (P : A -> Prop) `{!forall x, Decision (P x)} (f : A -> A) l :
  (forall x, P (f x) -> P x) -> (length (filter P (map f l)) <= length (filter P l))%nat.
Proof.
  intros Hf. induction l as [|x l IH]; simpl; [lia|]. rewrite !filter_cons. specialize (Hf x).
  repeat case_decide; simpl; tauto || lia.
Qed.

Lemma select_false w p :
  (length (selectedOf (all (setSelectedAt w p false))) <= length (selectedOf (all w)))%nat.
Proof.
  rewrite all_setSelectedAt. apply length_filter_map. intros d.
  destruct (iid d =? p)%nat; [|done]. by rewrite selected_setSelected.
Qed.

(** ** Adding items *)

(** The collection after [push_back()] and [setIndex()]. *)
Definition pushed (w : YSelectionWidget) (it : item) : YSelectionWidget :=
  withItems w (itemCollection w ++ [Item (setIndex (data it) (itemsCount w)) (children it)]).

(** The item that becomes the selected one, according to its flags. *)
Definition wanted (it : item) : option itemData := head (selectedOf (preorder1 it)).

Lemma ids_pushed w it : ids (pushed w it) = ids w ++ map iid (preorder1 it).
Proof.
  unfold ids, all, pushed. simpl. rewrite preorder_app, map_app. f_equal.
  destruct it as [d cs]. unfold preorder. simpl. by rewrite app_nil_r.
Qed.

Lemma selectedOf_app l1 l2 : selectedOf (l1 ++ l2) = selectedOf l1 ++ selectedOf l2.
Proof. apply list.filter_app. Qed.

Lemma selectedIds_pushed w it :
  selectedIds (pushed w it) = selectedIds w ++ map iid (selectedOf (preorder1 it)).
Proof.
  unfold selectedIds, all, pushed. simpl. rewrite preorder_app, selectedOf_app, map_app. f_equal.
  destruct it as [d cs]. unfold preorder. simpl. rewrite app_nil_r. unfold selectedOf.
  rewrite !filter_cons. change (selected (setIndex d (itemsCount w))) with (selected d).
  by case_decide.
Qed.

Lemma newItemSelected_wanted w it :
  iid <$> (if selected (setIndex (data it) (itemsCount w)) then Some (setIndex (data it) (itemsCount w))
           else findSelectedItem (children it)) = iid <$> wanted it.
Proof.
  destruct it as [d cs]. unfold wanted. simpl. rewrite findSelectedItem_head. unfold selectedOf.
  rewrite filter_cons. change (selected (setIndex d (itemsCount w))) with (selected d).
  destruct (selected d); [by rewrite decide_True|by rewrite decide_False].
Qed.

Lemma wanted_in_ids w it d : wanted it = Some d -> iid d ∈ ids (pushed w it).
Proof.
  intros E. unfold wanted in E. rewrite ids_pushed. apply elem_of_app. right.
  apply list_elem_of_fmap_2. destruct (selectedOf (preorder1 it)) as [|x l] eqn:Es; [done|].
  simpl in E. injection E as ->. assert (H : d ∈ selectedOf (preorder1 it)) by (rewrite Es; left).
  unfold selectedOf in H. by apply list_elem_of_filter in H as [_ ?].
Qed.

(** The selection after the new item has been considered. *)
Definition reselected (w : YSelectionWidget) (it : item) : YSelectionWidget :=
  match wanted it with
  | Some d => setSelectedAt (deselectAllItems (pushed w it)) (iid d) true
  | None => pushed w it
  end.

Lemma addItem_single w it :
  enforceSingleSelection w = true -> parent (data it) = None ->
  addItem w (Some it) =
  Ok (if enforceInitialSelectionFlag w && (itemsCount w =? 0)
      then setSelectedAt (reselected w it) (iid (data it)) true else reselected w it).
Proof.
  intros Hs Hp. unfold addItem. rewrite Hp, bool_decide_eq_false_2 by (intros [? ?]; done).
  fold (pushed w it). change (enforceSingleSelection (pushed w it)) with (enforceSingleSelection w).
  rewrite Hs. pose proof (newItemSelected_wanted w it) as Hn. cbn [data children] in *. unfold reselected.
  assert (Hcount : forall w', length (itemCollection w') = S (length (itemCollection w)) ->
    (itemsCount w' =? 1) = (itemsCount w =? 0)).
  { intros w' E. unfold itemsCount. rewrite E. zcases; lia. }
  assert (Hlen : length (itemCollection (pushed w it)) = S (length (itemCollection w))).
  { unfold pushed. simpl. rewrite length_app. simpl. lia. }
  destruct (if selected _ then _ else _) as [d|], (wanted it) as [d'|]; simpl in Hn; try done.
  - injection Hn as Hd. rewrite Hd.
    set (w1 := setSelectedAt (deselectAllItems (pushed w it)) (iid d') true).
    rewrite (Hcount w1); [by destruct (_ && _)|].
    unfold w1. destruct (setSelectedAt_frame (deselectAllItems (pushed w it)) (iid d') true) as (_ & _ & _ & ->).
    unfold deselectAllItems. simpl. by rewrite length_map.
  - rewrite (Hcount _ Hlen). by destruct (_ && _).
Qed.

Lemma reselected_ids w it : ids (reselected w it) = ids w ++ map iid (preorder1 it).
Proof.
  unfold reselected. destruct (wanted it); [rewrite ids_setSelectedAt, ids_deselect|]; apply ids_pushed.
Qed.

Lemma reselected_selected w it :
  NoDup (ids w ++ map iid (preorder1 it)) ->
  selectedIds (reselected w it) =
  match wanted it with Some d => [iid d] | None => selectedIds w end.
Proof.
  intros Hnd. unfold reselected. destruct (wanted it) as [d|] eqn:E.
  - unfold selectedIds. rewrite all_setSelectedAt. apply selectedIds_only.
    + fold (ids (deselectAllItems (pushed w it))). by rewrite ids_deselect, ids_pushed.
    + fold (ids (deselectAllItems (pushed w it))). rewrite ids_deselect. by apply (wanted_in_ids w it d).
    + rewrite all_deselect. apply List.Forall_map, List.Forall_forall. intros x _ _.
      apply selected_setSelected.
  - rewrite selectedIds_pushed. unfold wanted in E.
    destruct (selectedOf (preorder1 it)); [|done]. by rewrite app_nil_r.
Qed.

Lemma iid_in_preorder1 it : iid (data it) ∈ map iid (preorder1 it).
Proof. destruct it. simpl. left. Qed.

(** The first item of a widget that enforces an initial selection. *)
Lemma first_item_selected w it :
  NoDup (ids w ++ map iid (preorder1 it)) -> itemCollection w = [] ->
  wanted it = None \/ wanted it = Some (data it) ->
  selectedIds (setSelectedAt (reselected w it) (iid (data it)) true) = [iid (data it)].
Proof.
  intros Hnd Hw Hwt. unfold selectedIds. rewrite all_setSelectedAt.
  assert (Hids : map iid (all (reselected w it)) = ids w ++ map iid (preorder1 it))
    by apply reselected_ids.
  apply selectedIds_only; rewrite ?Hids; [done|apply elem_of_app; right; apply iid_in_preorder1|].
  pose proof (reselected_selected w it Hnd) as Hsel. apply List.Forall_forall.
  intros d Hd%list_elem_of_In Hne. apply not_true_iff_false. intros Ht.
  assert (Hin : iid d ∈ selectedIds (reselected w it)).
  { unfold selectedIds, selectedOf. apply list_elem_of_fmap_2, list_elem_of_filter. done. }
  rewrite Hsel in Hin. destruct Hwt as [E|E]; rewrite E in Hin.
  - unfold selectedIds, all in Hin. rewrite Hw in Hin. by apply elem_of_nil in Hin.
  - apply elem_of_cons in Hin as [?|Hin]; [done|by apply elem_of_nil in Hin].
Qed.

(** *** Indices *)

(** Every item knows its place in the collection. *)
Definition indexOk (w : YSelectionWidget) : Prop :=
  forall i it, itemCollection w !! i = Some it -> index (data it) = Z.of_nat i.

Lemma data_mapItem f it : data (mapItem f it) = f (data it).
Proof. by destruct it. Qed.

Lemma indexOk_map w f :
  (forall d, index (f d) = index d) -> indexOk w -> indexOk (withItems w (mapItems f (itemCollection w))).
Proof.
  intros Hf Hw i it Hi. unfold mapItems in Hi. simpl in Hi. rewrite list_lookup_fmap in Hi.
  apply fmap_Some in Hi as (it0 & H0 & ->). rewrite data_mapItem, Hf. by apply Hw.
Qed.

Lemma indexOk_setSelectedAt w p sel : indexOk w -> indexOk (setSelectedAt w p sel).
Proof. apply indexOk_map. intros d. by destruct (_ =? _)%nat. Qed.

Lemma indexOk_deselect w : indexOk w -> indexOk (deselectAllItems w).
Proof.
  intros Hw. unfold deselectAllItems. rewrite (map_ext _ _ deselectItem_map).
  by apply (indexOk_map w (fun d => setSelected d false)).
Qed.

Lemma indexOk_pushed w it : indexOk w -> indexOk (pushed w it).
Proof.
  intros Hw i it' Hi. unfold pushed in Hi. simpl in Hi. apply lookup_app_Some in Hi as [Hi|[Hge Hi]].
  - by apply Hw.
  - destruct (i - length (itemCollection w))%nat as [|k] eqn:E; [|done].
    simpl in Hi. injection Hi as <-. simpl. unfold itemsCount. lia.
Qed.

Lemma indexOk_reselected w it : indexOk w -> indexOk (reselected w it).
Proof.
  intros Hw. unfold reselected. destruct (wanted it); [|by apply indexOk_pushed].
  by apply indexOk_setSelectedAt, indexOk_deselect, indexOk_pushed.
Qed.

(** ** The operations of an application on a single-selection widget *)

(** The new item does not bring a selected child into an empty widget that
    selects its first item. *)
Definition safeAdd (w : YSelectionWidget) (it : item) : Prop :=
  enforceInitialSelectionFlag w = false \/ itemCollection w <> [] \/
  wanted it = None \/ wanted it = Some (data it).

Inductive step : YSelectionWidget -> YSelectionWidget -> Prop :=
| step_add w it w' :
    NoDup (ids w ++ map iid (preorder1 it)) -> safeAdd w it ->
    addItem w (Some it) = Ok w' -> step w w'
| step_select w p sel w' : selectItem w p sel = Ok w' -> step w w'
| step_status w p st w' : setItemStatus w p st = Ok w' -> step w w'
| step_deselect w : step w (deselectAllItems w)
| step_delete w : step w (deleteAllItems w)
| step_label w l : step w (setLabel w l)
| step_initial w b : step w (setEnforceInitialSelection w b)
| step_icons w path : step w (setIconBasePath w path).

Record inv (w : YSelectionWidget) : Prop := {
  inv_single : enforceSingleSelection w = true;
  inv_flat : recursiveSelection w = false;
  inv_ids : NoDup (ids w);
  inv_one : (length (selectedOf (all w)) <= 1)%nat;
  inv_index : indexOk w
}.

Lemma one_of_ids w l : selectedIds w = l -> (length l <= 1)%nat -> (length (selectedOf (all w)) <= 1)%nat.
Proof. intros <-. unfold selectedIds. by rewrite length_map. Qed.

Lemma inv_select w p sel w' : inv w -> selectItem w p sel = Ok w' -> inv w'.
Proof.
  intros [Hs Hf Hnd Hone Hix] E. destruct p as [p|]; [|done].
  rewrite selectItem_flat in E by done. destruct (decide (p ∈ ids w)) as [Hp|]; [|done].
  injection E as <-.
  assert (Hframe : enforceSingleSelection (unselectOld w sel) = true /\
                   recursiveSelection (unselectOld w sel) = false /\ indexOk (unselectOld w sel)).
  { unfold unselectOld. destruct (_ && _); [|done]. destruct (selectedItem w); [|done].
    split; [done|]. split; [done|]. by apply indexOk_setSelectedAt. }
  destruct Hframe as (H1 & H2 & H3). constructor; [done|done| | |by apply indexOk_setSelectedAt].
  - by rewrite ids_setSelectedAt, unselectOld_ids.
  - destruct sel.
    + eapply one_of_ids; [by apply select_true|simpl; lia].
    + etransitivity; [apply select_false|]. unfold unselectOld. by rewrite andb_false_r.
Qed.

Lemma inv_add w it w' :
  inv w -> NoDup (ids w ++ map iid (preorder1 it)) -> safeAdd w it ->
  addItem w (Some it) = Ok w' -> inv w'.
Proof.
  intros [Hs Hf Hnd Hone Hix] Hnew Hsafe E.
  destruct (parent (data it)) eqn:Ep; [unfold addItem in E; by rewrite Ep in E|].
  rewrite addItem_single in E by done. injection E as <-.
  assert (Hbase : inv (reselected w it)).
  { constructor.
    - unfold reselected. by destruct (wanted it).
    - unfold reselected. by destruct (wanted it).
    - by rewrite reselected_ids.
    - eapply one_of_ids; [by apply reselected_selected|]. destruct (wanted it); [simpl; lia|].
      unfold selectedIds. by rewrite length_map.
    - by apply indexOk_reselected. }
  destruct (enforceInitialSelectionFlag w && (itemsCount w =? 0)) eqn:Eb; [|done].
  apply andb_true_iff in Eb as [Hfl Hc%Z.eqb_eq].
  assert (Hempty : itemCollection w = []).
  { unfold itemsCount in Hc. destruct (itemCollection w); [done|simpl in Hc; lia]. }
  destruct Hbase as [B1 B2 B3 _ B5]. constructor; [done|done|by rewrite ids_setSelectedAt| |
    by apply indexOk_setSelectedAt].
  eapply one_of_ids; [apply first_item_selected; [done|done|]|simpl; lia].
  destruct Hsafe as [?|[?|?]]; [congruence|congruence|done].
Qed.

Lemma inv_step w w' : step w w' -> inv w -> inv w'.
Proof.
  destruct 1 as [w it w' Hnd Hsafe E|w p sel w' E|w p st w' E|w|w|w l|w b|w path]; intros Hi.
  - by eapply inv_add.
  - by eapply inv_select.
  - by eapply inv_select.
  - destruct Hi as [? ? ? ? ?]. constructor; [done|done|by rewrite ids_deselect| |by apply indexOk_deselect].
    rewrite all_deselect, selectedOf_deselect. simpl. lia.
  - destruct Hi. constructor; [done|done|constructor|simpl; lia|by intros i it Hit].
  - by destruct Hi.
  - destruct Hi as [Hs ? ? ? ?]. unfold setEnforceInitialSelection. by rewrite Hs.
  - by destruct Hi.
Qed.

(** ** Recursive selection *)

Definition setAll (w : YSelectionWidget) (ps : list nat) (sel : bool) : YSelectionWidget :=
  withItems w (mapItems (fun d => if decide (iid d ∈ ps) then setSelected d sel else d) (itemCollection w)).

Lemma mapItem_compose f g it : mapItem f (mapItem g it) = mapItem (fun d => f (g d)) it.
Proof.
  induction it as [d cs IH] using item_tree_ind. simpl. f_equal. rewrite map_map.
  induction IH as [|c cs Hc _ IHl]; simpl; [done|]. by rewrite Hc, IHl.
Qed.

Lemma mapItem_ext f g it : (forall d, f d = g d) -> mapItem f it = mapItem g it.
Proof.
  intros Hfg. induction it as [d cs IH] using item_tree_ind. simpl. rewrite Hfg. f_equal.
  induction IH as [|c cs Hc _ IHl]; simpl; [done|]. by rewrite Hc, IHl.
Qed.

Lemma setAll_app w ps qs sel : setAll (setAll w ps sel) qs sel = setAll w (ps ++ qs) sel.
Proof.
  unfold setAll, withItems. simpl. f_equal. unfold mapItems. rewrite map_map. apply map_ext.
  intros it. rewrite mapItem_compose. apply mapItem_ext. intros d.
  destruct (decide (iid d ∈ ps)) as [H1|H1].
  - change (iid (setSelected d sel)) with (iid d).
    rewrite (decide_True _ _ (proj2 (elem_of_app ps qs (iid d)) (or_introl H1))).
    by destruct (decide (iid d ∈ qs)).
  - destruct (decide (iid d ∈ qs)) as [H2|H2];
      [by rewrite decide_True by (apply elem_of_app; auto)|].
    rewrite decide_False; [done|]. rewrite elem_of_app. tauto.
Qed.

Lemma setSelectedAt_setAll w p sel : setSelectedAt w p sel = setAll w [p] sel.
Proof.
  unfold setSelectedAt, setAll, updateItem, mapItems. f_equal. apply map_ext. intros it.
  apply mapItem_ext. intros d. destruct (Nat.eqb_spec (iid d) p) as [->|Hne].
  - by rewrite decide_True by left.
  - rewrite decide_False; [done|]. rewrite elem_of_cons, elem_of_nil. tauto.
Qed.

Lemma setAll_absorb w ps p sel : p ∈ ps -> setAll w (ps ++ [p]) sel = setAll w ps sel.
Proof.
  intros Hp. unfold setAll, mapItems. f_equal. apply map_ext. intros it. apply mapItem_ext. intros d.
  assert (Hiff : iid d ∈ ps ++ [p] <-> iid d ∈ ps).
  { rewrite elem_of_app, elem_of_cons, elem_of_nil. split; [|tauto].
    intros [?|[->|?]]; [done|done|done]. }
  destruct (decide (iid d ∈ ps)); [by rewrite decide_True by (by apply Hiff)|].
  by rewrite decide_False by (by rewrite Hiff).
Qed.

Lemma setAll_perm w ps qs sel :
  (forall p, p ∈ ps <-> p ∈ qs) -> setAll w ps sel = setAll w qs sel.
Proof.
  intros Hiff. unfold setAll, mapItems. f_equal. apply map_ext. intros it. apply mapItem_ext. intros d.
  destruct (decide (iid d ∈ qs)); [by rewrite decide_True by (by apply Hiff)|].
  by rewrite decide_False by (by rewrite Hiff).
Qed.

Lemma ids_setAll w ps sel : ids (setAll w ps sel) = ids w.
Proof.
  unfold ids, all, setAll. simpl. rewrite preorder_map, map_map. apply map_ext.
  intros d. by destruct (decide (iid d ∈ ps)).
Qed.

(** Selecting an item that the widget contains does not throw. *)
Lemma unselect_ids (w : YSelectionWidget) (b : bool) (o : option itemData) :
  ids (if b then match o with Some old => setSelectedAt w (iid old) false | None => w end else w)
  = ids w.
Proof. destruct b, o; rewrite ?ids_setSelectedAt; done. Qed.

Lemma selectTree_ok (it : item) (sel : bool) : forall w,
  map iid (preorder1 it) ⊆ ids w ->
  exists w', selectTree w it sel = Ok w' /\ ids w' = ids w.
Proof.
  induction it as [d cs IH] using item_tree_ind. intros w Hsub. cbn [selectTree].
  assert (itemsContain w (iid d) = true) as -> by (apply itemsContain_ids, Hsub; left). cbn [negb].
  set (w1 := if enforceSingleSelection w && sel then _ else w).
  assert (E1 : ids w1 = ids w) by apply unselect_ids.
  assert (Hcs : exists w2, rfold (fun w c => let? w := selectTree w c sel in
      Ok (setSelectedAt w (iid (data c)) sel)) cs w1 = Ok w2 /\ ids w2 = ids w).
  { assert (Hin : forall c, c ∈ cs -> map iid (preorder1 c) ⊆ ids w).
    { intros c Hc p Hp. apply Hsub. simpl. right. rewrite map_flat_map.
      apply list_elem_of_In, in_flat_map. exists c. by rewrite <- !list_elem_of_In. }
    clearbody w1. clear Hsub. revert w1 E1. induction IH as [|c cs Hc _ IHl]; intros w1 E1; [by exists w1|].
    cbn [rfold]. destruct (Hc w1) as (w2 & -> & E2); [rewrite E1; apply Hin; by left|]. cbn [rbind].
    apply IHl; [intros; apply Hin; by right|]. by rewrite ids_setSelectedAt, E2. }
  destruct (recursiveSelection w1 && _); [destruct Hcs as (w2 & -> & E2)|]; cbn [rbind];
    eexists; (split; [reflexivity|]); by rewrite ids_setSelectedAt.
Qed.

Lemma selectItem_ok (w : YSelectionWidget) (p : nat) (sel : bool) :
  p ∈ ids w -> exists w', selectItem w (Some p) sel = Ok w'.
Proof.
  intros Hp. unfold selectItem. assert (Hl := lookupItem_spec p (itemCollection w)).
  destruct (lookupItem p (itemCollection w)) as [it|]; [|by destruct Hl].
  destruct (selectTree_ok it sel w) as (w' & -> & _); [|by eexists].
  destruct Hl as [_ Hsub]. intros q Hq. apply list_elem_of_fmap in Hq as (x & -> & Hx).
  apply list_elem_of_fmap_2. by apply Hsub.
Qed.

(** [selectItem()] in a recursive widget sets exactly the item and everything
    below it. *)
Lemma selectTree_recursive it sel : forall w,
  recursiveSelection w = true -> enforceSingleSelection w = false ->
  map iid (preorder1 it) ⊆ ids w ->
  selectTree w it sel = Ok (setAll w (map iid (preorder1 it)) sel).
Proof.
  induction it as [d cs IH] using item_tree_ind. intros w Hr Hs Hsub. cbn [selectTree].
  assert (itemsContain w (iid d) = true) as -> by (apply itemsContain_ids, Hsub; left).
  cbn [negb]. rewrite Hs. cbn [andb]. rewrite Hr.
  assert (Hloop : rfold (fun w c => let? w := selectTree w c sel in
                                    Ok (setSelectedAt w (iid (data c)) sel)) cs w =
                  Ok (setAll w (map iid (flat_map preorder1 cs)) sel)).
  { assert (Hsub' : map iid (flat_map preorder1 cs) ⊆ ids w).
    { intros p Hp. apply Hsub. simpl. by right. }
    clear Hsub. revert w Hr Hs Hsub'.
    induction IH as [|c cs Hc _ IHl]; intros w Hr Hs Hsub; simpl.
    - f_equal. unfold setAll, mapItems. destruct w. unfold withItems. simpl. f_equal.
      rewrite <- (map_id itemCollection0) at 1. apply map_ext. intros it.
      induction it as [d0 l IHi] using item_tree_ind. simpl. f_equal.
      induction IHi as [|x l Hx _ IHx]; simpl; [done|]. by rewrite <- Hx, <- IHx.
    - simpl in Hsub. rewrite map_app in Hsub.
      rewrite Hc by (try done; intros p Hp; apply Hsub, elem_of_app; by left). cbn [rbind].
      rewrite setSelectedAt_setAll, setAll_app, setAll_absorb by apply iid_in_preorder1.
      rewrite IHl, setAll_app, map_app; [done|done|done|].
      rewrite ids_setAll. intros p Hp. apply Hsub, elem_of_app. by right. }
  destruct cs as [|c0 cs0] eqn:Ecs; cbn [hasChildren children andb].
  - cbn [rbind]. by rewrite setSelectedAt_setAll.
  - rewrite Hloop. cbn [rbind]. rewrite setSelectedAt_setAll, setAll_app. f_equal.
    apply setAll_perm. intros p. simpl. rewrite elem_of_app, !elem_of_cons, elem_of_nil. tauto.
Qed.

(** ** The initial selection *)

Definition flat (it : item) : Prop := children it = [] /\ parent (data it) = None.

Lemma wanted_flat it : flat it -> wanted it = if selected (data it) then Some (data it) else None.
Proof.
  intros [Hc _]. destruct it as [d cs]. simpl in *. subst cs. unfold wanted, selectedOf. simpl.
  rewrite filter_cons, filter_nil. destruct (selected d); [by rewrite decide_True|by rewrite decide_False].
Qed.

Lemma preorder_flat l : Forall flat l -> preorder l = map data l.
Proof.
  induction 1 as [|it l [Hc _] _ IH]; [done|]. destruct it as [d cs]. simpl in *. subst.
  by rewrite <- IH.
Qed.

Lemma addItem_next w it w' :
  inv w -> itemCollection w <> [] -> flat it -> NoDup (ids w ++ [iid (data it)]) ->
  addItem w (Some it) = Ok w' ->
  itemCollection w' <> [] /\ ids w' = ids w ++ [iid (data it)] /\
  selectedIds w' = if selected (data it) then [iid (data it)] else selectedIds w.
Proof.
  intros Hi Hne Hf Hnd E. assert (Hpre : map iid (preorder1 it) = [iid (data it)]).
  { destruct it as [d cs], Hf as [Hc _]. simpl in *. by subst. }
  rewrite <- Hpre in Hnd. rewrite addItem_single in E; [|apply Hi|apply Hf].
  assert (Hz : (itemsCount w =? 0) = false).
  { unfold itemsCount. destruct (itemCollection w); [done|]. apply Z.eqb_neq. simpl. lia. }
  rewrite Hz, andb_false_r in E. injection E as <-.
  split; [|split; [by rewrite reselected_ids, Hpre|]].
  - assert (Hl : length (itemCollection (reselected w it)) = S (length (itemCollection w))).
    { unfold reselected. destruct (wanted it); [|unfold pushed; simpl; rewrite length_app; simpl; lia].
      unfold setSelectedAt, updateItem, mapItems, deselectAllItems, pushed. simpl.
      rewrite !length_map, length_app. simpl. lia. }
    intros E. by rewrite E in Hl.
  - rewrite reselected_selected, wanted_flat by done. by destruct (selected (data it)).
Qed.

Lemma preorder1_flat it : flat it -> map iid (preorder1 it) = [iid (data it)].
Proof. destruct it as [d cs]. intros [Hc _]. simpl in *. by subst. Qed.

Lemma addItems_next l w :
  inv w -> itemCollection w <> [] -> Forall flat l -> NoDup (ids w ++ map iid (map data l)) ->
  exists w', addItems w l = Ok w' /\
    selectedIds w' = match head (rev (map iid (selectedOf (map data l)))) with
                     | Some p => [p]
                     | None => selectedIds w
                     end.
Proof.
  intros Hi Hne Hl. revert w Hi Hne; induction Hl as [|it l Hit Hl IH]; intros w Hi Hne Hnd;
    [by exists w|].
  unfold addItems. cbn [rfold]. pose proof (addItem_single w it (inv_single _ Hi) (proj2 Hit)) as E.
  set (w1 := if _ && _ then _ else _) in E. rewrite E. cbn [rbind]. simpl in Hnd.
  assert (Hnd1 : NoDup (ids w ++ [iid (data it)])).
  { rewrite snoc_app in Hnd. by apply list.NoDup_app in Hnd as (? & _). }
  destruct (addItem_next w it w1 Hi Hne Hit Hnd1 E) as (Hne1 & Hids & Hsel).
  assert (Hi1 : inv w1).
  { eapply (inv_add w it); [done|by rewrite preorder1_flat|right; by left|done]. }
  destruct (IH w1 Hi1 Hne1) as (w' & E' & Hs'); [by rewrite Hids, <- app_assoc|].
  exists w'. split; [exact E'|]. rewrite Hs', Hsel. unfold selectedOf.
  simpl. rewrite filter_cons. destruct (selected (data it)).
  - rewrite decide_True by done. simpl. by destruct (rev (map iid _)).
  - by rewrite decide_False.
Qed.

Lemma selectedIds_unselect w p q :
  q ∈ selectedIds (setSelectedAt w p false) <-> q ∈ selectedIds w /\ q <> p.
Proof.
  unfold selectedIds, selectedOf. rewrite all_setSelectedAt, !list_elem_of_fmap.
  setoid_rewrite list_elem_of_filter. setoid_rewrite list_elem_of_fmap. split.
  - intros (d & -> & Hs & d0 & -> & Hd). destruct (Nat.eqb_spec (iid d0) p) as [E|Hne]; [done|].
    split; [by exists d0|done].
  - intros [(d & -> & Hs & Hd) Hne]. exists d. split; [done|]. split; [done|]. exists d.
    destruct (Nat.eqb_spec (iid d) p); [done|auto].
Qed.

Lemma inv_new wlabel w0 : newSelectionWidget wlabel true false = Ok w0 -> inv w0.
Proof. intros [= <-]. constructor; [done|done|constructor|simpl; lia|by intros i it Hit]. Qed.

Lemma inv_reachable w0 w : rtc step w0 w -> inv w0 -> inv w.
Proof. induction 1 as [|w1 w2 w3 H _ IH]; [done|]. intros Hi. by apply IH, (inv_step w1). Qed.

(** ** Properties *)

(** C3: At any time, at most one item of a single-selection widget is selected,
    in the whole tree of items, and every toplevel item knows its index,
    whatever the application does with the widget, as long as the first item of
    a widget that enforces an initial selection does not come with a selected
    child. *)
Theorem single_selection (wlabel : cstring) (w0 w : YSelectionWidget) :
  newSelectionWidget wlabel true false = Ok w0 -> rtc step w0 w ->
  (length (selectedItems w) <= 1)%nat /\
  forall i it, itemAt w i = Some it -> index (data it) = i.
Proof.
  intros H0 Hr. destruct (inv_reachable w0 w Hr (inv_new _ _ H0)) as [_ _ _ Hone Hix].
  rewrite selectedItems_filter. split; [done|]. intros i it. unfold itemAt.
  destruct ((i <? 0) || (i >=? itemsCount w)) eqn:E; [done|].
  apply orb_false_iff in E as [Hi%Z.ltb_ge _]. intros Hit%Hix. lia.
Qed.

(** [selectItem( item, true )] on such a widget makes the item the only
    selected one; [selectItem( item, false )] leaves it unselected; an item that
    does not belong to the widget, or no item at all, is an error. *)
Theorem select_item (w0 w : YSelectionWidget) (wlabel : cstring) (p : nat) :
  newSelectionWidget wlabel true false = Ok w0 -> rtc step w0 w ->
  (p ∈ ids w -> exists w', selectItem w (Some p) true = Ok w' /\ map iid (selectedItems w') = [p]) /\
  (p ∈ ids w -> exists w', selectItem w (Some p) false = Ok w' /\ (p ∉ map iid (selectedItems w')) /\
                           (map iid (selectedItems w') ⊆ map iid (selectedItems w))) /\
  (p ∉ ids w -> forall sel, selectItem w (Some p) sel =
     Throw (YUIGenericException "Item does not belong to this widget")) /\
  (forall sel, selectItem w None sel = Throw YUINullPointerException).
Proof.
  intros H0 Hr. destruct (inv_reachable w0 w Hr (inv_new _ _ H0)) as [Hs Hf Hnd Hone Hix].
  split; [|split; [|split; [|done]]].
  - intros Hp. rewrite selectItem_flat, decide_True by done. eexists. split; [done|].
    rewrite selectedItems_filter. by apply select_true.
  - intros Hp. rewrite selectItem_flat, decide_True by done. eexists. split; [done|].
    unfold unselectOld. rewrite andb_false_r, !selectedItems_filter, all_setSelectedAt.
    fold (selectedIds w) in *.
    assert (Hiff := selectedIds_unselect w p). unfold selectedIds at 1 in Hiff.
    setoid_rewrite all_setSelectedAt in Hiff.
    split; [by intros [_ ?]%Hiff|]. by intros q [? _]%Hiff.
  - intros Hp sel. by rewrite selectItem_flat, decide_False.
Qed.

(** Filling an empty single-selection widget with a list of simple items
    leaves exactly one of them selected: the last one that is marked as
    selected, or the first one if none is. *)
Theorem initial_selection (wlabel : cstring) (w0 : YSelectionWidget) (it : item) (l : list item) :
  newSelectionWidget wlabel true false = Ok w0 ->
  Forall flat (it :: l) -> NoDup (map iid (map data (it :: l))) ->
  exists w, addItems w0 (it :: l) = Ok w /\
    map iid (selectedItems w) =
      [default (iid (data it)) (head (rev (map iid (selectedOf (map data (it :: l))))))].
Proof.
  intros H0 [Hit Hl]%Forall_cons_iff Hnd. pose proof (inv_new _ _ H0) as Hi.
  injection H0 as <-. set (w0 := mkWidget _ _ _ _ _ _) in *.
  unfold addItems. cbn [rfold]. rewrite (addItem_single w0 it) by (try done; apply Hit).
  cbn [enforceInitialSelectionFlag w0 itemsCount itemCollection length Z.of_nat Z.eqb andb rbind].
  set (w1 := setSelectedAt (reselected w0 it) (iid (data it)) true).
  assert (Hw : wanted it = None \/ wanted it = Some (data it)).
  { rewrite wanted_flat by done. destruct (selected (data it)); auto. }
  assert (Hnd0 : NoDup (ids w0 ++ map iid (preorder1 it))).
  { rewrite preorder1_flat by done. apply list.NoDup_singleton. }
  assert (Hi1 : inv w1).
  { eapply (inv_add w0 it); [done|done|right; by right|]. by rewrite addItem_single by (try done; apply Hit). }
  assert (Hids : ids w1 = [iid (data it)]).
  { unfold w1. rewrite ids_setSelectedAt, reselected_ids, preorder1_flat by done. done. }
  destruct (addItems_next l w1 Hi1) as (w & E & Hs); [|done|by rewrite Hids|].
  { intros Ee. unfold ids, all in Hids. by rewrite Ee in Hids. }
  exists w. split; [exact E|]. rewrite selectedItems_filter. fold (selectedIds w). rewrite Hs.
  assert (Hs1 : selectedIds w1 = [iid (data it)]) by (by apply first_item_selected).
  rewrite Hs1. unfold selectedOf. simpl. rewrite filter_cons.
  destruct (selected (data it)); [rewrite decide_True by done|rewrite decide_False by done];
    simpl; by destruct (rev (map iid _)).
Qed.

(** A recursive multi-selection widget: [selectItem()] sets exactly the item
    and all items below it to the new state; everything else keeps its
    state. *)
Theorem recursive_selection (w : YSelectionWidget) (it : item) (p : nat) (sel : bool) :
  recursiveSelection w = true -> enforceSingleSelection w = false ->
  lookupItem p (itemCollection w) = Some it ->
  exists w', selectItem w (Some p) sel = Ok w' /\
    preorder (itemCollection w') =
      map (fun d => if decide (iid d ∈ map iid (preorder1 it)) then setSelected d sel else d)
          (preorder (itemCollection w)).
Proof.
  intros Hr Hs E. unfold selectItem. rewrite E.
  pose proof (lookupItem_spec p (itemCollection w)) as H. rewrite E in H. destruct H as [_ Hsub].
  rewrite selectTree_recursive by
    (try done; intros q (d & -> & Hd)%list_elem_of_fmap; apply list_elem_of_fmap_2, Hsub, Hd).
  eexists. split; [done|]. apply preorder_map.
Qed.

(** The searches agree with the list of all items in tree order:
    [selectedItem()] is the first selected one, [selectedItems()] are all
    selected ones, [findItem()] is the first one with the label, and
    [itemsContain()] is membership. *)
Theorem searches_complete (w : YSelectionWidget) (wantedLabel : cstring) (p : nat) :
  selectedItem w = head (selectedOf (preorder (itemCollection w))) /\
  selectedItems w = selectedOf (preorder (itemCollection w)) /\
  findItem w wantedLabel =
    head (filter (fun d => YItem.label d = wantedLabel) (preorder (itemCollection w))) /\
  (itemsContain w p = true <-> p ∈ map iid (preorder (itemCollection w))).
Proof.
  split; [apply findSelectedItem_head|]. split; [apply selectedItems_filter|].
  split; [apply findItem_head|apply itemsContain_ids].
Qed.

(** ** Examples *)

Definition emptyWidget : YSelectionWidget := mkWidget (str "&Items") true true false [] [].

Definition simple (iid : nat) (l : string) (sel : bool) : item := newItem iid (str l) [] sel.

(** A tree item with a selected child. *)
Definition openTree : item :=
  Item (mkItem 0 (str "Parent") [] 0 (-1) None true)
       [Item (mkItem 1 (str "Child") [] 1 (-1) (Some 0%nat) false) []].

(** The single selection is not enforced for the first item of a widget: if
    a child of it is selected, the item is selected as well, because the
    initial selection only looks at the number of items; a second item with a
    selected child is handled correctly. *)
Theorem two_items_selected :
  enforceSingleSelection emptyWidget = true /\
  (exists w, addItem emptyWidget (Some openTree) = Ok w /\
             map iid (selectedItems w) = [0%nat; 1%nat]) /\
  (exists w, addItems emptyWidget [simple 2 "First" false; openTree] = Ok w /\
             map iid (selectedItems w) = [1%nat]).
Proof.
  split; [done|]. split; eexists; (split; [vm_compute; reflexivity|vm_compute; reflexivity]).
Qed.

Lemma sample_reachable :
  exists w, addItem emptyWidget (Some (simple 0 "One" false)) = Ok w /\ rtc step emptyWidget w.
Proof.
  eexists. split; [vm_compute; reflexivity|].
  eapply rtc_l; [|apply rtc_refl]. eapply (step_add _ (simple 0 "One" false)).
  - vm_compute. repeat constructor. apply not_elem_of_nil.
  - right. right. left. reflexivity.
  - vm_compute. reflexivity.
Qed.

Lemma single_selection_witness :
  exists w, addItem emptyWidget (Some (simple 0 "One" false)) = Ok w /\
            (length (selectedItems w) <= 1)%nat.
Proof.
  destruct sample_reachable as (w & E & Hr). exists w. split; [exact E|].
  exact (proj1 (single_selection (str "&Items") emptyWidget w eq_refl Hr)).
Defined.

Lemma select_item_witness :
  exists w w', addItem emptyWidget (Some (simple 0 "One" false)) = Ok w /\
    selectItem w (Some 0%nat) true = Ok w' /\ map iid (selectedItems w') = [0%nat].
Proof.
  destruct sample_reachable as (w & E & Hr).
  destruct (proj1 (select_item emptyWidget w (str "&Items") 0 eq_refl Hr)) as (w' & E' & Hs).
  - vm_compute in E. injection E as <-. vm_compute. left.
  - exists w, w'. split; [exact E|]. split; [exact E'|exact Hs].
Defined.

Lemma initial_selection_witness :
  exists w, addItems emptyWidget [simple 0 "a" false; simple 1 "b" true; simple 2 "c" true] = Ok w /\
            map iid (selectedItems w) = [2%nat].
Proof.
  apply (initial_selection (str "&Items") emptyWidget (simple 0 "a" false)
           [simple 1 "b" true; simple 2 "c" true]);
    [reflexivity|repeat (constructor; [split; reflexivity|]); constructor|].
  apply (proj1 (bool_decide_eq_true _)). vm_compute. reflexivity.
Defined.

Lemma recursive_selection_witness :
  let w := mkWidget (str "&Items") false true true [] [openTree; simple 2 "c" false] in
  exists w', selectItem w (Some 0%nat) true = Ok w' /\
    map (fun d => selected d) (preorder (itemCollection w')) = [true; true; false].
Proof.
  intros w. destruct (recursive_selection w openTree 0 true) as (w' & E & Hp);
    [reflexivity|reflexivity|reflexivity|].
  exists w'. split; [exact E|]. rewrite Hp. vm_compute. reflexivity.
Defined.

End YSelectionWidget.
