(* ===== verification/WidgetTree.v ===== *)
(** * The widget tree: construction, destruction and searches

    Widgets are heap objects that point to their parent and, through a
    children manager, to their children (YWidget.cc, YChildrenManager.h). The
    heap is a finite map from addresses to widgets; following a pointer to an
    address that is not in the heap is the use of freed memory, an outcome of
    its own. The destructor of a widget deletes its children while it walks
    over their list; the representation predicate [rep] relates the heap to a
    tree and states exactly what is left after a deletion. *)

From S2P Require Import Prelude.
From stdpp Require Export gmap.

(** ** Children managers (YChildrenManager.h) *)
Module YChildrenManager.

Inductive ManagerClass :=
| YWidgetChildrenManager
| YSingleWidgetChildManager
| YWidgetChildrenRejector.

Record YChildrenManager := {
  managerClass : ManagerClass;
  container : nat;
  _children : list nat
}.

Definition newManager (cls : ManagerClass) (containerParent : nat) : YChildrenManager :=
  {| managerClass := cls; container := containerParent; _children := [] |}.

Definition setChildren (m : YChildrenManager) (l : list nat) : YChildrenManager :=
  {| managerClass := managerClass m; container := container m; _children := l |}.

Definition empty (m : YChildrenManager) : bool :=
  match _children m with [] => true | _ => false end.

Definition hasChildren (m : YChildrenManager) : bool := negb (empty m).

Definition contains (m : YChildrenManager) (child : nat) : bool :=
  bool_decide (child ∈ _children m).

(** [add()] is virtual: any number of children, one child, or none. *)
Definition add (m : YChildrenManager) (child : nat) : result YChildrenManager :=
  match managerClass m with
  | YWidgetChildrenManager => Ok (setChildren m (_children m ++ [child]))
  | YSingleWidgetChildManager =>
      if empty m then Ok (setChildren m (_children m ++ [child]))
      else Throw YUITooManyChildrenException
  | YWidgetChildrenRejector => Throw YUITooManyChildrenException
  end.

(** [std::list::remove()]: every element with that value. *)
Definition remove (m : YChildrenManager) (child : nat) : YChildrenManager :=
  setChildren m (filter (fun c => c <> child) (_children m)).

Definition clear (m : YChildrenManager) : YChildrenManager := setChildren m [].

(** The capacity each class keeps. *)
Definition capacityOk (m : YChildrenManager) : Prop :=
  match managerClass m with
  | YWidgetChildrenManager => True
  | YSingleWidgetChildManager => (length (_children m) <= 1)%nat
  | YWidgetChildrenRejector => _children m = []
  end.

Lemma add_children m c m' : add m c = Ok m' -> _children m' = _children m ++ [c].
Proof. unfold add. destruct (managerClass m), (empty m); intros; simplify_eq/=; done. Qed.

Lemma add_capacity m c m' : capacityOk m -> add m c = Ok m' -> capacityOk m'.
Proof.
  unfold add, capacityOk, empty. destruct m as [[] p [|x l]]; simpl; intros; simplify_eq/=; auto.
Qed.

Lemma remove_capacity m c : capacityOk m -> capacityOk (remove m c).
Proof.
  unfold capacityOk, remove. destruct m as [[] p l]; simpl; intros H; auto.
  - etrans; [apply length_filter|done].
  - by rewrite H.
Qed.

End YChildrenManager.

(** ** Widgets (YWidget.cc) *)
Module YWidget.
Import YChildrenManager.

(** IDs are compared by value ([YStringWidgetID::isEqual()], YWidgetID.cc). *)
Record YStringWidgetID := { _value : string }.

Definition isEqual (this otherID : YStringWidgetID) : bool :=
  bool_decide (_value this = _value otherID).

Definition YWIDGET_MAGIC : Z := 42.

(** The part of [YWidgetPrivate] that the tree depends on; [isYDialog] is the
    outcome of the cast to [YDialog]. *)
Record YWidget := {
  _magic : Z;
  childrenManager : YChildrenManager;
  parent : option nat;
  beingDestroyed : bool;
  enabled : bool;
  id : option YStringWidgetID;
  isYDialog : bool
}.

Abbreviation heap := (gmap nat YWidget).

Definition deref (h : heap) (a : nat) : outcome YWidget :=
  match h !! a with Some w => Done w | None => Undefined end.

Definition isValid (w : YWidget) : bool := (_magic w =? YWIDGET_MAGIC)%Z.

Definition children (w : YWidget) : list nat := _children (childrenManager w).

Definition withManager (w : YWidget) (m : YChildrenManager) : YWidget :=
  {| _magic := _magic w; childrenManager := m; parent := parent w;
     beingDestroyed := beingDestroyed w; enabled := enabled w; id := id w;
     isYDialog := isYDialog w |}.

Definition setBeingDestroyed (w : YWidget) : YWidget :=
  {| _magic := _magic w; childrenManager := childrenManager w; parent := parent w;
     beingDestroyed := true; enabled := enabled w; id := id w; isYDialog := isYDialog w |}.

Definition setEnabled (w : YWidget) (b : bool) : YWidget :=
  {| _magic := _magic w; childrenManager := childrenManager w; parent := parent w;
     beingDestroyed := beingDestroyed w; enabled := b; id := id w; isYDialog := isYDialog w |}.

Definition setId (w : YWidget) (newId : option YStringWidgetID) : YWidget :=
  {| _magic := _magic w; childrenManager := childrenManager w; parent := parent w;
     beingDestroyed := beingDestroyed w; enabled := enabled w; id := newId;
     isYDialog := isYDialog w |}.

(** [addChild()]: no duplicates, then the children manager decides. *)
Definition addChild (h : heap) (this child : nat) : outcome heap :=
  let! w := deref h this in
  if contains (childrenManager w) child then Throws YUIInvalidChildException
  else
    let! m := lift (add (childrenManager w) child) in
    Done (<[this := withManager w m]> h).

Definition removeChild (h : heap) (this child : nat) : outcome heap :=
  let! w := deref h this in
  if beingDestroyed w then Done h
  else Done (<[this := withManager w (remove (childrenManager w) child)]> h).

Definition setChildrenManager (h : heap) (this : nat) (m : YChildrenManager) : outcome heap :=
  let! w := deref h this in
  Done (<[this := withManager w m]> h).

(** The constructor of [YWidget] at the address that [operator new] returned:
    the widget starts with a manager that rejects children and adds itself to
    its parent. If that throws, the memory is released again. *)
Definition newBase (parentWidget : option nat) (this : nat) (dialog : bool) : YWidget :=
  {| _magic := YWIDGET_MAGIC; childrenManager := newManager YWidgetChildrenRejector this;
     parent := parentWidget; beingDestroyed := false; enabled := true; id := None;
     isYDialog := dialog |}.

Definition construct (h : heap) (this : nat) (parentWidget : option nat) (dialog : bool) :
    outcome heap :=
  let h1 := <[this := newBase parentWidget this dialog]> h in
  match parentWidget with
  | Some p => addChild h1 p this
  | None => Done h1
  end.

(** The constructor of a container widget then sets its children manager. *)
Definition newWidget (h : heap) (this : nat) (parentWidget : option nat) (dialog : bool)
    (cls : ManagerClass) : outcome heap :=
  let! h1 := construct h this parentWidget dialog in
  match cls with
  | YWidgetChildrenRejector => Done h1
  | _ => setChildrenManager h1 this (newManager cls this)
  end.

(** ** Destruction *)

(** [++it] on a list iterator: the element that follows in the list as it is
    at that moment. *)
Fixpoint successor (c : nat) (l : list nat) : option nat :=
  match l with
  | [] => None
  | x :: l' => if bool_decide (x = c) then head l' else successor c l'
  end.

(** [deleteChildren()]: the iterator is advanced before the child is deleted,
    since a child may remove itself from the list. [del] is the [delete]
    expression; the loop takes at most [k] turns. *)
Section delete_children.
Context (del : heap -> nat -> outcome heap).
Fixpoint deleteLoop (k : nat) (h : heap) (this : nat) (it : option nat) : outcome heap :=
  match it with
  | None => Done h
  | Some child =>
      match k with
      | O => NoFuel
      | S k' =>
          let! w := deref h this in
          let it' := successor child (children w) in
          let! cw := deref h child in
          let! h' := if isValid cw then del h child else Done h in
          deleteLoop k' h' this it'
      end
  end.

Definition deleteChildren (h : heap) (this : nat) : outcome heap :=
  let! w := deref h this in
  let! h1 := deleteLoop (length (children w)) h this (head (children w)) in
  let! w1 := deref h1 this in
  Done (<[this := withManager w1 (clear (childrenManager w1))]> h1).
End delete_children.

(** The destructor of [YWidget], after which the memory is free. [n] bounds
    the height of the tree below the widget. *)
Fixpoint deleteWidget (n : nat) (h : heap) (this : nat) : outcome heap :=
  match n with
  | O => NoFuel
  | S n' =>
      let! w := deref h this in
      if negb (isValid w) then Throws YUIInvalidWidgetException
      else
        let h1 := <[this := setBeingDestroyed w]> h in
        let! h2 := deleteChildren (deleteWidget n') h1 this in
        let! w2 := deref h2 this in
        let! h3 :=
          match parent w2 with
          | None => Done h2
          | Some p =>
              let! pw := deref h2 p in
              if beingDestroyed pw then Done h2 else removeChild h2 p this
          end in
        Done (delete this h3)
  end.

(** ** Searches *)

(** [findDialog()]: up the parents to the first dialog. *)
Fixpoint findDialog (n : nat) (h : heap) (widget : option nat) : outcome (option nat) :=
  match widget with
  | None => Done None
  | Some a =>
      match n with
      | O => NoFuel
      | S n' =>
          let! w := deref h a in
          if isYDialog w then Done (Some a) else findDialog n' h (parent w)
      end
  end.

(** The loop of [findWidget()] over the children; [rec] is the recursive call
    for a child. *)
Section find_loop.
Context (rec : nat -> outcome (option nat)) (h : heap) (i : YStringWidgetID).
Fixpoint findLoop (l : list nat) : outcome (option nat) :=
  match l with
  | [] => Done None
  | child :: l' =>
      let! cw := deref h child in
      if negb (isValid cw) then Throws YUIInvalidWidgetException
      else if match id cw with Some j => isEqual j i | None => false end
      then Done (Some child)
      else
        let! found := if hasChildren (childrenManager cw) then rec child else Done None in
        match found with
        | Some f => Done (Some f)
        | None => findLoop l'
        end
  end.
End find_loop.

Fixpoint findWidget (n : nat) (h : heap) (this : nat) (i : option YStringWidgetID)
    (doThrow : bool) : outcome (option nat) :=
  match n with
  | O => NoFuel
  | S n' =>
      match i with
      | None => if doThrow then Throws (YUIWidgetNotFoundException "Null ID") else Done None
      | Some i' =>
          let! w := deref h this in
          let! found := findLoop (fun child => findWidget n' h child i false) h i' (children w) in
          match found with
          | Some f => Done (Some f)
          | None =>
              if doThrow then Throws (YUIWidgetNotFoundException (_value i')) else Done None
          end
      end
  end.

(** [setChildrenEnabled()]: all widgets below this one. One turn of its loop
    is [enableChild]; [rec] is the recursive call. *)
Definition enableChild (rec : heap -> nat -> outcome heap) (b : bool) (h : heap) (child : nat) :
    outcome heap :=
  let! cw := deref h child in
  let! h' := if hasChildren (childrenManager cw) then rec h child else Done h in
  let! cw' := deref h' child in
  Done (<[child := setEnabled cw' b]> h').

Fixpoint setChildrenEnabled (n : nat) (h : heap) (this : nat) (b : bool) : outcome heap :=
  match n with
  | O => NoFuel
  | S n' =>
      let! w := deref h this in
      ofold (enableChild (fun h child => setChildrenEnabled n' h child b) b) (children w) h
  end.

(** ** The tree a heap represents *)

Inductive wtree := WNode (a : nat) (ts : list wtree).

Definition root (t : wtree) : nat := match t with WNode a _ => a end.

Fixpoint addrs (t : wtree) : list nat :=
  match t with WNode a ts => a :: flat_map addrs ts end.

Fixpoint height (t : wtree) : nat :=
  match t with WNode _ ts => S (foldr (fun t m => Nat.max (height t) m) 0%nat ts) end.

Definition live (w : YWidget) (par : option nat) : Prop :=
  isValid w = true /\ beingDestroyed w = false /\ parent w = par.

Fixpoint rep (h : heap) (par : option nat) (t : wtree) : Prop :=
  match t with
  | WNode a ts =>
      (exists w, h !! a = Some w /\ live w par /\ children w = map root ts) /\
      foldr (fun t P => rep h (Some a) t /\ P) True ts
  end.

(** What the deletion of a subtree leaves: its addresses are free, and its
    parent, if it is not being destroyed itself, no longer lists it. *)
Definition removeAll {A : Type} (l : list nat) (h : gmap nat A) : gmap nat A := foldr delete h l.

Definition unlink (par : option nat) (c : nat) (h : heap) : heap :=
  match par with
  | None => h
  | Some p =>
      match h !! p with
      | None => h
      | Some pw =>
          if beingDestroyed pw then h
          else <[p := withManager pw (remove (childrenManager pw) c)]> h
      end
  end.

Lemma wtree_ind' (P : wtree -> Prop) :
  (forall a ts, Forall P ts -> P (WNode a ts)) -> forall t, P t.
Proof.
  intros IH. fix go 1. intros [a ts]. apply IH. induction ts; constructor; auto.
Qed.

Lemma rep_node h par a ts :
  rep h par (WNode a ts) <->
  (exists w, h !! a = Some w /\ live w par /\ children w = map root ts) /\
  Forall (rep h (Some a)) ts.
Proof.
  simpl. apply and_iff_compat_l. induction ts as [|t ts IH]; simpl; [split; auto|].
  rewrite Forall_cons_iff, IH. done.
Qed.

Lemma root_in_addrs t : root t ∈ addrs t.
Proof. destruct t. left. Qed.

Lemma elem_of_flat_addrs x ts : x ∈ flat_map addrs ts <-> exists t, t ∈ ts /\ x ∈ addrs t.
Proof.
  rewrite list_elem_of_In, in_flat_map. split; intros (t & H1 & H2); exists t;
    rewrite list_elem_of_In in *; rewrite ?list_elem_of_In in *; done.
Qed.

Lemma lookup_removeAll {A} l (h : gmap nat A) x : removeAll l h !! x = if decide (x ∈ l) then None else h !! x.
Proof.
  induction l as [|y l IH]; simpl; [done|].
  destruct (decide (x = y)) as [->|Hne].
  - rewrite lookup_delete_eq. rewrite decide_True by left. done.
  - rewrite lookup_delete_ne, IH by done. repeat case_decide; set_solver.
Qed.

Lemma removeAll_insert {A} l p (w : A) (h : gmap nat A) :
  p ∉ l -> removeAll l (<[p := w]> h) = <[p := w]> (removeAll l h).
Proof.
  intros Hp. apply map_eq. intros x. rewrite lookup_removeAll.
  destruct (decide (x = p)) as [->|]; [rewrite decide_False by done|];
    rewrite ?lookup_insert_eq, ?lookup_insert_ne, ?lookup_removeAll by done; done.
Qed.

Lemma removeAll_app {A} l k (h : gmap nat A) : removeAll (l ++ k) h = removeAll k (removeAll l h).
Proof.
  apply map_eq. intros x. rewrite !lookup_removeAll. repeat case_decide; set_solver.
Qed.

(** The representation only depends on the addresses of the tree. *)
Lemma rep_frame h h' t : forall par,
  (forall x, x ∈ addrs t -> h' !! x = h !! x) -> rep h par t -> rep h' par t.
Proof.
  induction t as [a ts IH] using wtree_ind'. intros par Hx.
  rewrite !rep_node. intros [(w & Ha & Hl & Hc) Hts]. split.
  - exists w. rewrite Hx by left. done.
  - rewrite List.Forall_forall in *. intros t Hin. apply IH; auto.
    intros x Hxt. apply Hx. right. apply elem_of_flat_addrs. exists t.
    by rewrite list_elem_of_In.
Qed.

Lemma reps_frame h h' par ts :
  (forall x, x ∈ flat_map addrs ts -> h' !! x = h !! x) ->
  Forall (rep h par) ts -> Forall (rep h' par) ts.
Proof.
  intros Hx. rewrite !List.Forall_forall. intros H t Ht. eapply rep_frame; [|by apply H].
  intros x Hxt. apply Hx, elem_of_flat_addrs. exists t. by rewrite list_elem_of_In.
Qed.

Lemma successor_app pre r l : r ∉ pre -> successor r (pre ++ r :: l) = head l.
Proof.
  induction pre as [|x pre IH]; simpl; intros H.
  - by rewrite bool_decide_eq_true_2.
  - rewrite bool_decide_eq_false_2 by set_solver. apply IH. set_solver.
Qed.

Lemma filter_ne_app (pre : list nat) r l :
  NoDup (pre ++ r :: l) -> filter (fun c => c <> r) (pre ++ r :: l) = pre ++ l.
Proof.
  intros (H1 & H2 & [H3 _]%list.NoDup_cons)%list.NoDup_app.
  rewrite list.filter_app, filter_cons, !list_filter_keep by set_solver.
  by rewrite decide_False by auto.
Qed.

(** ** Deleting a subtree *)

(** The contract of [delete] for one subtree. *)
Definition parentOk (h : heap) (par : option nat) (t : wtree) : Prop :=
  forall p, par = Some p -> (p ∉ addrs t) /\ is_Some (h !! p).

Definition deletes (del : heap -> nat -> outcome heap) (t : wtree) : Prop :=
  forall h par, rep h par t -> NoDup (addrs t) -> parentOk h par t ->
  del h (root t) = Done (unlink par (root t) (removeAll (addrs t) h)).

(** Unlinking one child leaves a list that still ends in the other children,
    whether the parent is being destroyed or not. *)
Lemma unlink_child h p pw pre r l :
  h !! p = Some pw -> children pw = pre ++ r :: l -> NoDup (children pw) ->
  exists pre', NoDup (pre' ++ l) /\
    unlink (Some p) r h =
      <[p := withManager pw (setChildren (childrenManager pw) (pre' ++ l))]> h.
Proof.
  intros Hp Hc Hnd. simpl. rewrite Hp. destruct (beingDestroyed pw).
  - exists (pre ++ [r]). rewrite <- app_assoc. simpl. rewrite <- Hc. split; [done|].
    symmetry. apply insert_id. rewrite Hp. f_equal. destruct pw as [? [] ? ? ? ? ?]. done.
  - exists pre. rewrite Hc in Hnd. split.
    + apply list.NoDup_app in Hnd as (? & ? & ?%list.NoDup_cons).
      apply list.NoDup_app. set_solver.
    + unfold remove. fold (children pw). by rewrite Hc, filter_ne_app.
Qed.

(** The loop over the children frees all their subtrees and changes at most
    the list of the parent. *)
Lemma deleteLoop_spec del ts : forall k h p pw pre,
  (length ts <= k)%nat ->
  Forall (deletes del) ts ->
  h !! p = Some pw -> children pw = pre ++ map root ts -> NoDup (children pw) ->
  Forall (rep h (Some p)) ts ->
  NoDup (flat_map addrs ts) -> p ∉ flat_map addrs ts ->
  exists l, deleteLoop del k h p (head (map root ts)) =
    Done (<[p := withManager pw (setChildren (childrenManager pw) l)]>
            (removeAll (flat_map addrs ts) h)).
Proof.
  induction ts as [|t ts IH]; intros k h p pw pre Hk Hdel Hp Hc Hnd Hrep Hnda Hpn.
  - exists (children pw). simpl. replace (deleteLoop del k h p None) with (Done h) by by destruct k.
    f_equal. symmetry. apply insert_id. rewrite Hp. f_equal. destruct pw as [? [] ? ? ? ? ?]. done.
  - destruct k as [|k]; [simpl in Hk; lia|].
    apply Forall_cons_iff in Hdel as [Ht Hdel], Hrep as [Hr Hrep]. simpl in *.
    apply list.NoDup_app in Hnda as (Hnt & Hdis & Hnts). apply not_elem_of_app in Hpn as [Hpt Hpts].
    assert (Hroot : root t ∉ pre).
    { rewrite Hc in Hnd. apply list.NoDup_app in Hnd as (_ & H & _). set_solver. }
    unfold deref at 1. rewrite Hp. simpl. rewrite Hc, successor_app by done.
    destruct t as [a us]. apply rep_node in Hr as Hr'. destruct Hr' as [(w & Ha & Hl & _) _].
    simpl root in *. unfold deref. rewrite Ha. simpl.
    destruct Hl as (-> & _). pose proof (Ht h (Some p) Hr Hnt) as Ed. simpl root in Ed. rewrite Ed.
    2:{ intros q [= <-]. split; [done|by eexists]. }
    cbn [obind]. set (h1 := removeAll (addrs (WNode a us)) h).
    assert (Hp1 : h1 !! p = Some pw).
    { unfold h1. by rewrite lookup_removeAll, decide_False. }
    destruct (unlink_child h1 p pw pre a (map root ts) Hp1 Hc Hnd) as (pre' & Hnd' & Eu).
    simpl root. rewrite Eu.
    set (pw' := withManager pw (setChildren (childrenManager pw) (pre' ++ map root ts))).
    destruct (IH k (<[p := pw']> h1) p pw' pre') as [l El]; try done; [lia|by rewrite lookup_insert_eq| |].
    + eapply reps_frame; [|exact Hrep]. intros x Hx. rewrite lookup_insert_ne by set_solver.
      unfold h1. rewrite lookup_removeAll, decide_False; [done|]. intros Hx'. by apply (Hdis x).
    + exists l. rewrite El. f_equal. rewrite removeAll_insert, insert_insert_eq by done.
      unfold h1. by rewrite <- removeAll_app.
Qed.

Lemma NoDup_roots ts : NoDup (flat_map addrs ts) -> NoDup (map root ts).
Proof.
  induction ts as [|t ts IH]; simpl; [constructor|].
  intros (_ & Hdis & Hts)%list.NoDup_app. apply list.NoDup_cons. split; [|auto].
  intros (u & Hu & Hin)%list_elem_of_fmap. apply (Hdis (root t) (root_in_addrs t)).
  apply elem_of_flat_addrs. exists u. split; [done|]. rewrite Hu. apply root_in_addrs.
Qed.

Lemma deleteChildren_spec del h p pw ts :
  Forall (deletes del) ts ->
  h !! p = Some pw -> children pw = map root ts ->
  Forall (rep h (Some p)) ts -> NoDup (flat_map addrs ts) -> p ∉ flat_map addrs ts ->
  deleteChildren del h p =
    Done (<[p := withManager pw (clear (childrenManager pw))]> (removeAll (flat_map addrs ts) h)).
Proof.
  intros Hdel Hp Hc Hrep Hnd Hpn. unfold deleteChildren, deref at 1. rewrite Hp. simpl.
  assert (NoDup (children pw)) by (rewrite Hc; by apply NoDup_roots).
  destruct (deleteLoop_spec del ts (length (children pw)) h p pw []) as [l El]; try done.
  { by rewrite Hc, length_map. }
  rewrite Hc in El |- *. rewrite El. simpl. unfold deref. rewrite lookup_insert_eq. simpl.
  by rewrite insert_insert_eq.
Qed.

Lemma height_child t ts : t ∈ ts -> (height t <= foldr (fun t m => Nat.max (height t) m) 0 ts)%nat.
Proof. induction ts as [|u ts IH]; simpl; [set_solver|]. intros [->|H]%elem_of_cons; [lia|]. specialize (IH H). lia. Qed.

(** Deleting the root of a represented subtree frees exactly its addresses. *)
Lemma deleteWidget_spec t : forall n, (height t <= n)%nat -> deletes (deleteWidget n) t.
Proof.
  induction t as [a ts IH] using wtree_ind'. intros [|n] Hn; [simpl in Hn; lia|].
  intros h par Hrep Hnd Hpar. apply rep_node in Hrep as [(w & Ha & (Hv & Hbd & Hp) & Hc) Hts].
  simpl in Hnd. apply list.NoDup_cons in Hnd as [Han Hnd].
  simpl root. simpl deleteWidget. unfold deref at 1. rewrite Ha. simpl. rewrite Hv. simpl.
  rewrite (deleteChildren_spec (deleteWidget n) _ a (setBeingDestroyed w) ts).
  - cbn [obind]. unfold deref at 1. rewrite lookup_insert_eq. cbn [obind].
    rewrite removeAll_insert, insert_insert_eq by done. simpl parent. rewrite Hp.
    set (w' := withManager (setBeingDestroyed w) _). set (h' := removeAll (flat_map addrs ts) h).
    destruct par as [p|]; simpl.
    + destruct (Hpar p eq_refl) as [Hpn [pw Hpw]]. simpl in Hpn.
      assert (Hpw' : h' !! p = Some pw).
      { unfold h'. by rewrite lookup_removeAll, decide_False by set_solver. }
      unfold removeChild, deref. rewrite !lookup_insert_ne, Hpw' by set_solver. simpl.
      fold (removeAll (flat_map addrs ts) h). fold h'. rewrite lookup_delete_ne, Hpw' by set_solver.
      destruct (beingDestroyed pw); simpl.
      * by rewrite delete_insert_eq.
      * by rewrite delete_insert_ne, delete_insert_eq by set_solver.
    + by rewrite delete_insert_eq.
  - rewrite List.Forall_forall in IH |- *. intros t Ht. apply IH; [done|].
    rewrite <- list_elem_of_In in Ht. apply height_child in Ht. simpl in Hn. lia.
  - by rewrite lookup_insert_eq.
  - done.
  - eapply reps_frame; [|exact Hts]. intros x Hx. rewrite lookup_insert_ne by set_solver. done.
  - done.
  - done.
Qed.

(** ** Well-formed heaps

    Between two operations of the application every widget is valid, parent
    and child pointers agree and lead to live widgets, no child is listed
    twice, every children manager holds no more than its class allows, and
    the parent pointers have no cycle. *)
Definition ranked (h : heap) (rank : nat -> nat) (bound : nat) : Prop :=
  forall c w, h !! c = Some w ->
  (rank c < bound)%nat /\ forall p, parent w = Some p -> (rank p < rank c)%nat.

Record wf (h : heap) : Prop := {
  wf_live : forall a w, h !! a = Some w -> isValid w = true /\ beingDestroyed w = false;
  wf_parent : forall c w p, h !! c = Some w -> parent w = Some p ->
    exists pw, h !! p = Some pw /\ c ∈ children pw;
  wf_children : forall p pw c, h !! p = Some pw -> c ∈ children pw ->
    exists w, h !! c = Some w /\ parent w = Some p;
  wf_nodup : forall a w, h !! a = Some w -> NoDup (children w);
  wf_capacity : forall a w, h !! a = Some w -> capacityOk (childrenManager w);
  wf_ranked : exists rank bound, ranked h rank bound
}.

(** [x] is [a] or lies below it. *)
Definition parentOf (h : heap) (x y : nat) : Prop :=
  exists w, h !! x = Some w /\ parent w = Some y.
Definition below (h : heap) (a x : nat) : Prop := rtc (parentOf h) x a.

Lemma rank_below h rank bound a x :
  ranked h rank bound -> below h a x -> (rank a <= rank x)%nat.
Proof.
  intros Hr H. induction H as [|x y z (w & Hw & Hp) _ IH]; [done|].
  destruct (Hr x w Hw) as [_ Hlt]. specialize (Hlt _ Hp). lia.
Qed.

Lemma below_linear h a b x : below h a x -> below h b x -> below h a b \/ below h b a.
Proof.
  intros Ha Hb. revert b Hb. induction Ha as [x|x y a (w & Hw & Hp) Ha IH]; intros b Hb; [by right|].
  inversion Hb as [|? y' ? (w' & Hw' & Hp')]; simplify_eq; [|auto].
  left. econstructor; [by exists w|done].
Qed.

Lemma elem_of_addrs_below h t : forall par x, rep h par t -> x ∈ addrs t -> below h (root t) x.
Proof.
  induction t as [a ts IH] using wtree_ind'. intros par x [_ Hts]%rep_node Hx. simpl in *.
  apply elem_of_cons in Hx as [->|(t & Ht & Hx)%elem_of_flat_addrs]; [apply rtc_refl|].
  rewrite list_elem_of_In in Ht. rewrite List.Forall_forall in IH, Hts.
  eapply rtc_r; [by eapply IH; eauto|].
  destruct t as [b us]. destruct (proj1 (rep_node _ _ _ _) (Hts _ Ht)) as [(w & Hb & (_ & _ & Hp) & _) _].
  by exists w.
Qed.

Lemma rep_closed h t : forall par x w c,
  rep h par t -> x ∈ addrs t -> h !! x = Some w -> c ∈ children w -> c ∈ addrs t.
Proof.
  induction t as [a ts IH] using wtree_ind'. intros par x w c [(wa & Ha & _ & Hca) Hts]%rep_node Hx Hw Hc.
  simpl in *. right. apply elem_of_flat_addrs.
  apply elem_of_cons in Hx as [->|(t & Ht & Hx)%elem_of_flat_addrs].
  - simplify_eq. rewrite Hca in Hc. apply list_elem_of_fmap in Hc as (t & -> & Ht).
    exists t. split; [done|apply root_in_addrs].
  - exists t. split; [done|]. rewrite list_elem_of_In in Ht. rewrite List.Forall_forall in IH, Hts.
    by eapply IH; eauto.
Qed.

(** The addresses of a represented tree are the widgets at or below its root. *)
Lemma elem_of_addrs h par t x :
  wf h -> rep h par t -> x ∈ addrs t <-> below h (root t) x.
Proof.
  intros Hwf Ht. split; [by eapply elem_of_addrs_below|].
  intros Hb. remember (root t) as r eqn:Er. induction Hb as [x|x y r (w & Hw & Hp) _ IH].
  - subst. apply root_in_addrs.
  - destruct (wf_parent h Hwf x w y Hw Hp) as (pw & Hy & Hin).
    eapply rep_closed; eauto.
Qed.

Lemma choose_list {A B} (R : A -> B -> Prop) (l : list A) :
  (forall x, x ∈ l -> exists y, R x y) -> exists ys, Forall2 R l ys.
Proof.
  induction l as [|x l IH]; intros H; [by exists []|].
  destruct (H x) as [y Hy]; [left|]. destruct IH as [ys Hys]; [intros; apply H; by right|].
  exists (y :: ys). by constructor.
Qed.

(** Subtrees of different children of one widget have no address in common. *)
Lemma siblings_disjoint h p ts :
  wf h -> NoDup (map root ts) -> Forall (rep h (Some p)) ts ->
  Forall (fun t => NoDup (addrs t)) ts -> NoDup (flat_map addrs ts).
Proof.
  intros Hwf. induction ts as [|t ts IH]; simpl; intros Hnd Hrep Ha; [constructor|].
  apply list.NoDup_cons in Hnd as [Hr Hnd]. apply Forall_cons_iff in Hrep as [Ht Hts], Ha as [Hat Hats].
  apply list.NoDup_app. split; [done|]. split; [|auto].
  intros x Hx (u & Hu & Hxu)%elem_of_flat_addrs.
  rewrite list_elem_of_In in Hu. pose proof (proj1 (List.Forall_forall _ _) Hts u Hu) as Hru.
  apply Hr. apply list_elem_of_fmap. exists u. split; [|by rewrite list_elem_of_In].
  assert (Hne : forall t u, rep h (Some p) t -> rep h (Some p) u -> below h (root t) (root u) -> root t = root u).
  { intros [a us] [b vs] [(wa & Ha & (_ & _ & Hpa) & _) _]%rep_node [(wb & Hb & (_ & _ & Hpb) & _) _]%rep_node Hbel.
    simpl in *. inversion Hbel as [|? y ? (w' & Hw' & Hp') Hrest]; simplify_eq; [done|].
    destruct (wf_ranked h Hwf) as (rank & B & Hrk).
    pose proof (rank_below _ _ _ _ _ Hrk Hrest). destruct (Hrk a wa Ha) as [_ Hlt].
    specialize (Hlt _ Hpa). lia. }
  destruct (below_linear h (root t) (root u) x) as [H|H];
    [by eapply elem_of_addrs_below|by eapply elem_of_addrs_below|by apply Hne|symmetry; by apply Hne].
Qed.

(** Every live widget of a well-formed heap is the root of a represented tree. *)
Lemma wf_rep h a w :
  wf h -> h !! a = Some w ->
  exists t, root t = a /\ rep h (parent w) t /\ NoDup (addrs t).
Proof.
  intros Hwf. destruct (wf_ranked h Hwf) as (rank & B & Hrk).
  remember (B - rank a)%nat as m eqn:Em. revert a w Em.
  induction m as [m IH] using lt_wf_ind. intros a w Em Ha. subst m.
  destruct (choose_list (fun c t => root t = c /\ rep h (Some a) t /\ NoDup (addrs t)) (children w))
    as [ts Hts].
  { intros c Hc. destruct (wf_children h Hwf a w c Ha Hc) as (cw & Hcw & Hp).
    rewrite <- Hp. eapply IH; [|reflexivity|done].
    destruct (Hrk c cw Hcw) as [? Hlt]. specialize (Hlt _ Hp). lia. }
  assert (Hc : children w = map root ts) by (clear -Hts; induction Hts as [|? ? ? ? [] ]; simpl; f_equal; done).
  assert (Hr : Forall (rep h (Some a)) ts /\ Forall (fun t => NoDup (addrs t)) ts).
  { clear -Hts. induction Hts as [|? ? ? ? (? & ? & ?) _ []]; split; constructor; done. }
  destruct Hr as [Hr Hn]. exists (WNode a ts). split; [done|]. split.
  - apply rep_node. split; [|done]. exists w. destruct (wf_live h Hwf a w Ha). done.
  - simpl. apply list.NoDup_cons. split.
    + intros (t & Ht & Hx)%elem_of_flat_addrs. rewrite list_elem_of_In in Ht.
      pose proof (proj1 (List.Forall_forall _ _) Hr t Ht) as Hrt.
      apply (elem_of_addrs_below _ _ _ _ Hrt) in Hx. apply (rank_below _ _ _ _ _ Hrk) in Hx.
      destruct t as [b us]. apply rep_node in Hrt as [(wb & Hb & (_ & _ & Hp) & _) _].
      destruct (Hrk b wb Hb) as [_ Hlt]. specialize (Hlt _ Hp). simpl in Hx. lia.
    + eapply siblings_disjoint; eauto. rewrite <- Hc. by eapply wf_nodup.
Qed.

(** The number of live widgets bounds the height of every tree. *)
Lemma height_addrs t : (height t <= length (addrs t))%nat.
Proof.
  induction t as [a ts IH] using wtree_ind'. simpl. apply le_n_S.
  induction IH as [|t ts Ht _ IH]; simpl; [lia|]. rewrite length_app. lia.
Qed.

Lemma height_size h par t : rep h par t -> NoDup (addrs t) -> (height t <= size h)%nat.
Proof.
  intros Ht Hnd. etrans; [apply height_addrs|]. rewrite <- (size_list_to_set (C := gset nat)) by done.
  rewrite <- size_dom. apply subseteq_size. intros x Hx%elem_of_list_to_set.
  apply elem_of_dom. revert par Ht x Hx. clear Hnd. induction t as [a ts IH] using wtree_ind'.
  intros par [(w & Ha & _) Hts]%rep_node x Hx. simpl in Hx.
  apply elem_of_cons in Hx as [->|(t & Ht & Hx)%elem_of_flat_addrs]; [by eexists|].
  rewrite list_elem_of_In in Ht. rewrite List.Forall_forall in IH, Hts. eapply IH; eauto.
Qed.

(** ** Deletion in a well-formed heap *)

(** A widget without the children in [S]. *)
Definition prune (S : list nat) (w : YWidget) : YWidget :=
  withManager w (setChildren (childrenManager w) (filter (fun c => c ∉ S) (children w))).

Lemma prune_id S w : (forall c, c ∈ children w -> c ∉ S) -> prune S w = w.
Proof.
  intros H. unfold prune. rewrite list_filter_keep by done. by destruct w as [? [] ? ? ? ? ?].
Qed.

(** Removing a set of widgets that is closed under children, and every
    pointer to them, keeps the heap well-formed. *)
Lemma wf_prune h h' S :
  wf h ->
  (forall x w p, h !! x = Some w -> parent w = Some p -> p ∈ S -> x ∈ S) ->
  (forall x, h' !! x = if decide (x ∈ S) then None else prune S <$> h !! x) ->
  wf h'.
Proof.
  intros Hwf Hcl Hh'.
  assert (Hl : forall x w', h' !! x = Some w' -> exists w, h !! x = Some w /\ w' = prune S w /\ x ∉ S).
  { intros x w'. rewrite Hh'. case_decide; [done|]. intros (w & Hw & ->)%fmap_Some. eauto. }
  assert (Hi : forall x w, h !! x = Some w -> x ∉ S -> h' !! x = Some (prune S w)).
  { intros x w Hx Hn. by rewrite Hh', decide_False, Hx by done. }
  split.
  - intros a w' (w & Ha & -> & _)%Hl. exact (wf_live h Hwf a w Ha).
  - intros c w' p (w & Hc & -> & Hn)%Hl Hp. destruct (wf_parent h Hwf c w p Hc Hp) as (pw & Hpw & Hin).
    exists (prune S pw). split; [apply Hi; [done|eauto]|]. by apply list_elem_of_filter.
  - intros p w' c (pw & Hpw & -> & Hn)%Hl [Hcn Hc]%list_elem_of_filter.
    destruct (wf_children h Hwf p pw c Hpw Hc) as (w & Hw & Hp). exists (prune S w). auto.
  - intros a w' (w & Ha & -> & _)%Hl. apply list.NoDup_filter. by eapply wf_nodup.
  - intros a w' (w & Ha & -> & _)%Hl. pose proof (wf_capacity h Hwf a w Ha) as Hcap.
    unfold prune, capacityOk, children in *. destruct w as [? [[] ? l] ? ? ? ? ?]; simpl in *; auto.
    + etrans; [apply length_filter|done].
    + by subst.
  - destruct (wf_ranked h Hwf) as (rank & B & Hrk). exists rank, B.
    intros c w' (w & Hc & -> & _)%Hl. exact (Hrk c w Hc).
Qed.

(** The only child pointer into a subtree from outside is the one to its root. *)
Lemma rep_entry h par t x w c :
  wf h -> rep h par t -> h !! x = Some w -> x ∉ addrs t -> c ∈ children w -> c ∈ addrs t ->
  c = root t /\ par = Some x.
Proof.
  intros Hwf Ht Hx Hn Hc Hct. destruct (wf_children h Hwf x w c Hx Hc) as (cw & Hcw & Hp).
  destruct (decide (c = root t)) as [->|Hne].
  - split; [done|]. destruct t as [a ts]. apply rep_node in Ht as [(w' & Ha & (_ & _ & Hpar) & _) _].
    simpl in *. congruence.
  - apply (elem_of_addrs h par t) in Hct as Hb; [|done..].
    inversion Hb as [|? y ? (w' & Hw' & Hp') Hrest]; simplify_eq.
    exfalso. apply Hn. by apply (elem_of_addrs h par t).
Qed.

Lemma wf_parentOk h par t : wf h -> rep h par t -> parentOk h par t.
Proof.
  intros Hwf Ht p ->. destruct t as [a ts]. pose proof Ht as [(w & Ha & (_ & _ & Hp) & _) _]%rep_node.
  destruct (wf_parent h Hwf a w p Ha Hp) as (pw & Hpw & _). split; [|by eexists].
  intros Hx%(elem_of_addrs_below h _ _ _ Ht). destruct (wf_ranked h Hwf) as (rank & B & Hrk).
  apply (rank_below _ _ _ _ _ Hrk) in Hx. destruct (Hrk a w Ha) as [_ Hlt]. specialize (Hlt _ Hp).
  simpl in Hx. lia.
Qed.

(** Freeing a subtree and unlinking its root is pruning. *)
Lemma unlink_prune h par t x :
  wf h -> rep h par t ->
  unlink par (root t) (removeAll (addrs t) h) !! x =
    if decide (x ∈ addrs t) then None else prune (addrs t) <$> h !! x.
Proof.
  intros Hwf Ht. pose proof (wf_parentOk h par t Hwf Ht) as Hpar.
  assert (Hout : forall w, h !! x = Some w -> x ∉ addrs t -> par <> Some x -> prune (addrs t) w = w).
  { intros w Hx Hn Hne. apply prune_id. intros c Hc Hct.
    by destruct (rep_entry h par t x w c) as [_ ?]. }
  assert (Hrest : par <> Some x ->
    removeAll (addrs t) h !! x = if decide (x ∈ addrs t) then None else prune (addrs t) <$> h !! x).
  { intros Hne. rewrite lookup_removeAll. case_decide; [done|].
    destruct (h !! x) as [w|] eqn:E; [|done]. simpl. by rewrite (Hout w). }
  destruct par as [p|]; simpl; [|by apply Hrest].
  destruct (Hpar p eq_refl) as [Hpn [pw Hpw]].
  rewrite lookup_removeAll, decide_False, Hpw by done.
  destruct (wf_live h Hwf p pw Hpw) as [_ ->].
  destruct (decide (x = p)) as [->|Hxp].
  - rewrite lookup_insert_eq, decide_False, Hpw by done. simpl. unfold remove, prune.
    do 3 f_equal. apply list_filter_ext_in. intros c Hc. split.
    + intros Hne Hct. by destruct (rep_entry h (Some p) t p pw c) as [? _].
    + intros Hct ->. apply Hct, root_in_addrs.
  - rewrite lookup_insert_ne by done. apply Hrest. congruence.
Qed.

(** [delete a] with as much fuel as there are widgets. *)
Definition destroyWidget (h : heap) (a : nat) : outcome heap := deleteWidget (size h) h a.
Definition destroyChildren (h : heap) (a : nat) : outcome heap :=
  deleteChildren (deleteWidget (size h)) h a.

Lemma destroyWidget_done h a w :
  wf h -> h !! a = Some w ->
  exists t h', root t = a /\ rep h (parent w) t /\ destroyWidget h a = Done h' /\
    (forall n, (size h <= n)%nat -> deleteWidget n h a = Done h') /\
    forall x, h' !! x = if decide (x ∈ addrs t) then None else prune (addrs t) <$> h !! x.
Proof.
  intros Hwf Ha. destruct (wf_rep h a w Hwf Ha) as (t & Hr & Ht & Hnd).
  exists t, (unlink (parent w) (root t) (removeAll (addrs t) h)).
  pose proof (height_size h _ t Ht Hnd) as Hh. pose proof (wf_parentOk h _ t Hwf Ht) as Hpar.
  split; [done|]. split; [done|]. subst a. split; [by apply deleteWidget_spec|].
  split; [intros n Hn; apply deleteWidget_spec; [lia|done..]|].
  intros x. by apply unlink_prune.
Qed.

(** Deleting the children of a top-level widget first, as some destructors do,
    and then the widget itself has the same effect. *)
Lemma two_phase_delete h d w :
  wf h -> h !! d = Some w -> parent w = None ->
  exists h1 h', deleteChildren (deleteWidget (size h)) (<[d := setBeingDestroyed w]> h) d = Done h1 /\
    deleteWidget (size h) h1 d = Done h' /\ destroyWidget h d = Done h'.
Proof.
  intros Hwf Hd Hp. destruct (wf_rep h d w Hwf Hd) as ([q ts] & Hr & Ht & Hnd). simpl in Hr. subst q.
  pose proof (height_size h _ _ Ht Hnd) as Hh.
  pose proof Ht as [(w' & Hw & (Hv & _ & _) & Hc) Hts]%rep_node. simplify_eq.
  pose proof Hnd as [Hdn Hnts]%list.NoDup_cons.
  eexists _, _. split; [|split].
  - apply (deleteChildren_spec _ _ _ (setBeingDestroyed w) ts); try done.
    + apply List.Forall_forall. intros u Hu. apply deleteWidget_spec.
      rewrite <- list_elem_of_In in Hu. apply height_child in Hu. simpl in Hh. lia.
    + apply lookup_insert_eq.
    + eapply reps_frame; [|exact Hts]. intros x Hx. rewrite lookup_insert_ne by set_solver. done.
  - destruct (size h) as [|n] eqn:En; [apply map_size_empty_inv in En; subst; by rewrite lookup_empty in Hd|].
    simpl. unfold deref at 1. rewrite lookup_insert_eq. simpl.
    match goal with |- context [isValid ?x] => replace (isValid x) with true by (symmetry; exact Hv) end.
    simpl. unfold deleteChildren, deref at 1. rewrite lookup_insert_eq. simpl.
    unfold deref at 1. rewrite lookup_insert_eq. simpl. unfold deref at 1. rewrite lookup_insert_eq. simpl.
    rewrite Hp. simpl. rewrite !delete_insert_eq, removeAll_insert, delete_insert_eq by done. reflexivity.
  - pose proof (deleteWidget_spec _ _ Hh h (parent w) Ht Hnd (wf_parentOk h _ _ Hwf Ht)) as E.
    rewrite Hp in E. exact E.
Qed.

Lemma addrs_closed h par t x w p :
  wf h -> rep h par t -> h !! x = Some w -> parent w = Some p -> p ∈ addrs t -> x ∈ addrs t.
Proof.
  intros Hwf Ht Hx Hp Hin. destruct (wf_parent h Hwf x w p Hx Hp) as (pw & Hpw & Hc).
  eapply rep_closed; eauto.
Qed.

Lemma destroyWidget_wf h a h' :
  wf h -> is_Some (h !! a) -> destroyWidget h a = Done h' -> wf h'.
Proof.
  intros Hwf [w Ha] E. destruct (destroyWidget_done h a w Hwf Ha) as (t & h1 & _ & Ht & E1 & _ & Hl).
  rewrite E1 in E. simplify_eq. eapply wf_prune; [done| |done].
  intros. by eapply (addrs_closed h).
Qed.

(** A widget below another one has a parent. *)
Lemma rep_has_parent h p t x w :
  rep h (Some p) t -> x ∈ addrs t -> h !! x = Some w -> parent w <> None.
Proof.
  intros Ht Hx Hw. destruct t as [a ts]. pose proof Ht as [(wa & Ha & (_ & _ & Hpa) & _) _]%rep_node.
  apply (elem_of_addrs_below _ _ _ _ Ht) in Hx. simpl in Hx.
  inversion Hx as [|? y ? (w' & Hw' & Hp') _]; simplify_eq; congruence.
Qed.

Lemma NoDup_addrs_child ts u : u ∈ ts -> NoDup (flat_map addrs ts) -> NoDup (addrs u).
Proof.
  intros (l1 & l2 & ->)%list_elem_of_split. rewrite flat_map_app. simpl.
  by intros (_ & _ & (? & _)%list.NoDup_app)%list.NoDup_app.
Qed.

(** [deleteChildren()] on a live widget is pruning, too; only widgets that have
    a parent are freed. *)
Lemma destroyChildren_done h p :
  wf h -> is_Some (h !! p) ->
  exists S h', destroyChildren h p = Done h' /\
    (forall x, h' !! x = if decide (x ∈ S) then None else prune S <$> h !! x) /\
    (forall x w, x ∈ S -> h !! x = Some w -> parent w <> None) /\
    (forall x w q, h !! x = Some w -> parent w = Some q -> q ∈ S -> x ∈ S).
Proof.
  intros Hwf [pw Hp]. destruct (wf_rep h p pw Hwf Hp) as ([q ts] & Hr & Ht & Hnd).
  simpl in Hr, Hnd. subst q. apply list.NoDup_cons in Hnd as [Hpn Hnd].
  pose proof Ht as [(w & Hw & _ & Hc) Hts]%rep_node. simplify_eq.
  assert (Hrep : forall u, u ∈ ts -> rep h (Some p) u).
  { intros u Hu. rewrite list_elem_of_In in Hu. by eapply (proj1 (List.Forall_forall _ _) Hts). }
  eexists (flat_map addrs ts), _. split; [|split; [|split]].
  - unfold destroyChildren. apply (deleteChildren_spec (deleteWidget (size h)) h p pw ts); try done.
    apply List.Forall_forall. intros u Hu. rewrite <- list_elem_of_In in Hu.
    apply deleteWidget_spec. eapply height_size; [by apply Hrep|by eapply NoDup_addrs_child].
  - intros x. destruct (decide (x = p)) as [->|Hne].
    + rewrite lookup_insert_eq, decide_False, Hp by done. simpl. unfold prune, clear. do 3 f_equal.
      symmetry. rewrite Hc. apply list_filter_drop. intros c (u & -> & Hu)%list_elem_of_fmap Hcn.
      apply Hcn, elem_of_flat_addrs. exists u. split; [done|apply root_in_addrs].
    + rewrite lookup_insert_ne, lookup_removeAll by done. case_decide as Hx; [done|].
      destruct (h !! x) as [w|] eqn:E; [|done]. simpl. rewrite prune_id; [done|].
      intros c Hcw (u & Hu & Hcu)%elem_of_flat_addrs.
      destruct (rep_entry h (Some p) u x w c) as [_ ?]; auto; [|congruence].
      intros Hxu. apply Hx, elem_of_flat_addrs. by exists u.
  - intros x w (u & Hu & Hx)%elem_of_flat_addrs. eapply rep_has_parent; eauto.
  - intros x w q Hx Hq (u & Hu & Hqu)%elem_of_flat_addrs. apply elem_of_flat_addrs. exists u.
    split; [done|]. eapply (addrs_closed h); eauto.
Qed.

Lemma destroyChildren_wf h p h' :
  wf h -> is_Some (h !! p) -> destroyChildren h p = Done h' -> wf h'.
Proof.
  intros Hwf Hp E. destruct (destroyChildren_done h p Hwf Hp) as (S & h1 & E1 & Hl & _ & Hcl).
  rewrite E1 in E. simplify_eq. by eapply (wf_prune h _ S).
Qed.

(** ** Construction in a well-formed heap *)

Definition sameBut (w w' : YWidget) : Prop :=
  isValid w' = isValid w /\ beingDestroyed w' = beingDestroyed w /\ parent w' = parent w.

(** A new leaf [a] below [par]. *)
Lemma wf_grow h h' a par :
  wf h -> h !! a = None ->
  (forall p, par = Some p -> is_Some (h !! p)) ->
  (exists w, h' !! a = Some w /\ live w par /\ children w = [] /\ capacityOk (childrenManager w)) ->
  (forall x, x <> a -> h !! x = None -> h' !! x = None) ->
  (forall x w, h !! x = Some w -> exists w', h' !! x = Some w' /\ sameBut w w' /\
     capacityOk (childrenManager w') /\
     children w' = children w ++ (if decide (par = Some x) then [a] else [])) ->
  wf h'.
Proof.
  intros Hwf Hfree Hpar (wa & Ha & (Hva & Hba & Hpa) & Hca & Hcapa) Hnone Hold.
  assert (Hinv : forall x w', h' !! x = Some w' -> x = a /\ w' = wa \/
    exists w, x <> a /\ h !! x = Some w /\ sameBut w w' /\ capacityOk (childrenManager w') /\
      children w' = children w ++ (if decide (par = Some x) then [a] else [])).
  { intros x w' Hx. destruct (decide (x = a)) as [->|Hne]; [left; by simplify_eq|right].
    destruct (h !! x) as [w|] eqn:E; [|by rewrite Hnone in Hx].
    destruct (Hold x w E) as (w1 & Hw1 & ?). simplify_eq. eauto. }
  split.
  - intros x w' [[-> ->]|(w & _ & Hx & (Hv & Hb & _) & _)]%Hinv; [done|].
    rewrite Hv, Hb. by eapply wf_live.
  - intros c w' p [[-> ->]|(w & _ & Hx & (_ & _ & Hp) & _)]%Hinv Hcp.
    + rewrite Hpa in Hcp. destruct (Hpar p Hcp) as [pw Hpw]. destruct (Hold p pw Hpw) as (pw' & ? & _ & _ & E).
      exists pw'. rewrite E, decide_True by done. set_solver.
    + rewrite Hp in Hcp. destruct (wf_parent h Hwf c w p Hx Hcp) as (pw & Hpw & Hin).
      destruct (Hold p pw Hpw) as (pw' & ? & _ & _ & E). exists pw'. rewrite E. set_solver.
  - intros p w' c [[-> ->]|(w & _ & Hx & _ & _ & E)]%Hinv Hc; [rewrite Hca in Hc; set_solver|].
    rewrite E in Hc. apply elem_of_app in Hc as [Hc|Hc].
    + destruct (wf_children h Hwf p w c Hx Hc) as (cw & Hcw & Hp).
      destruct (Hold c cw Hcw) as (cw' & ? & (_ & _ & E') & _). exists cw'. by rewrite E'.
    + case_decide; [|set_solver]. assert (c = a) as -> by set_solver. exists wa. by rewrite Hpa.
  - intros x w' [[-> ->]|(w & _ & Hx & _ & _ & E)]%Hinv; [rewrite Hca; constructor|].
    rewrite E. apply list.NoDup_app. split; [by eapply wf_nodup|]. split; [|case_decide; repeat constructor; set_solver].
    intros y Hy Hya. case_decide; [|set_solver]. assert (y = a) as -> by set_solver.
    destruct (wf_children h Hwf x w a Hx Hy) as (? & ? & _). congruence.
  - intros x w' [[-> ->]|(w & _ & _ & _ & ? & _)]%Hinv; done.
  - destruct (wf_ranked h Hwf) as (rank & B & Hrk).
    exists (fun x => if decide (x = a) then B else rank x), (S B).
    assert (Hlt : forall p, is_Some (h !! p) -> (rank p < B)%nat /\ p <> a).
    { intros p [pw Hpw]. split; [by apply (Hrk p pw)|congruence]. }
    intros x w' [[-> ->]|(w & Hne & Hx & (_ & _ & Hp) & _)]%Hinv.
    + rewrite decide_True by done. split; [lia|]. intros p Hp. rewrite Hpa in Hp.
      destruct (Hlt p (Hpar p Hp)). by rewrite decide_False.
    + rewrite decide_False by done. destruct (Hrk x w Hx) as [? Hr]. split; [lia|]. intros p Hq.
      rewrite Hp in Hq. destruct (wf_parent h Hwf x w p Hx Hq) as (pw & Hpw & _).
      destruct (Hlt p) as [_ ?]; [by eexists|]. rewrite decide_False by done. auto.
Qed.

(** What a constructor that returns has done: a new childless widget, listed
    last by its parent. *)
Definition fresh (par : option nat) (a : nat) (dialog : bool) (cls : ManagerClass) : YWidget :=
  withManager (newBase par a dialog) (newManager cls a).

Lemma newWidget_done h a par dialog cls h' :
  h !! a = None -> (forall p, par = Some p -> is_Some (h !! p)) ->
  newWidget h a par dialog cls = Done h' ->
  match par with
  | None => h' = <[a := fresh par a dialog cls]> h
  | Some p => exists pw m, h !! p = Some pw /\ add (childrenManager pw) a = Ok m /\
      h' = <[a := fresh par a dialog cls]> (<[p := withManager pw m]> h)
  end.
Proof.
  intros Hfree Hpar E. unfold newWidget, construct in E. destruct par as [p|].
  - destruct (Hpar p eq_refl) as [pw Hpw]. assert (p <> a) by congruence.
    unfold addChild, deref in E. rewrite lookup_insert_ne, Hpw in E by done. simpl in E.
    destruct (contains (childrenManager pw) a); [done|].
    destruct (add (childrenManager pw) a) as [m|] eqn:Em; [|done]. exists pw, m.
    split; [done|]. split; [done|]. simpl in E.
    assert (Eq : <[p := withManager pw m]> (<[a := newBase (Some p) a dialog]> h) =
                 <[a := newBase (Some p) a dialog]> (<[p := withManager pw m]> h))
      by (by apply insert_insert_ne).
    rewrite Eq in E. unfold setChildrenManager, deref in E. rewrite lookup_insert_eq in E. simpl in E.
    rewrite insert_insert_eq in E. destruct cls; by simplify_eq.
  - simpl in E. unfold setChildrenManager, deref in E. rewrite lookup_insert_eq in E. simpl in E.
    rewrite insert_insert_eq in E. destruct cls; by simplify_eq.
Qed.

Lemma fresh_live par a dialog cls :
  live (fresh par a dialog cls) par /\ children (fresh par a dialog cls) = [] /\
  capacityOk (childrenManager (fresh par a dialog cls)).
Proof. split; [done|]. split; [done|]. destruct cls; cbn; auto with arith. Qed.

Lemma newWidget_wf h a par dialog cls h' :
  wf h -> h !! a = None -> (forall p, par = Some p -> is_Some (h !! p)) ->
  newWidget h a par dialog cls = Done h' -> wf h'.
Proof.
  intros Hwf Hfree Hpar E. apply newWidget_done in E; [|done..].
  assert (Hsame : forall w, capacityOk (childrenManager w) ->
    sameBut w w /\ capacityOk (childrenManager w) /\ children w = children w ++ []).
  { intros w Hw. rewrite app_nil_r. done. }
  destruct par as [p|].
  - destruct E as (pw & m & Hpw & Em & ->). assert (p <> a) by congruence.
    apply (wf_grow h _ a (Some p)); try done.
    + eexists. rewrite lookup_insert_eq. split; [done|]. apply fresh_live.
    + intros x Hx Hn. rewrite !lookup_insert_ne by congruence. done.
    + intros x w Hx. rewrite lookup_insert_ne by congruence.
      destruct (decide (x = p)) as [->|Hne].
      * eexists. rewrite lookup_insert_eq. split; [done|]. simplify_eq.
        rewrite decide_True by done. split; [done|]. split.
        -- eapply add_capacity; [|done]. by eapply wf_capacity.
        -- by apply add_children.
      * exists w. rewrite lookup_insert_ne by done. split; [done|]. rewrite decide_False by congruence.
        apply Hsame. by eapply wf_capacity.
  - subst h'. apply (wf_grow h _ a None); try done.
    + eexists. rewrite lookup_insert_eq. split; [done|]. apply fresh_live.
    + intros x Hx Hn. by rewrite lookup_insert_ne.
    + intros x w Hx. exists w. rewrite lookup_insert_ne by congruence. split; [done|].
      rewrite decide_False by done. apply Hsame. by eapply wf_capacity.
Qed.

(** ** Changes that leave the pointers alone *)

Definition sameLinks (w w' : YWidget) : Prop :=
  sameBut w w' /\ childrenManager w' = childrenManager w.

Lemma wf_relabel h h' :
  wf h -> (forall x, option_Forall2 sameLinks (h !! x) (h' !! x)) -> wf h'.
Proof.
  intros Hwf Hrel.
  assert (Hl : forall x w', h' !! x = Some w' -> exists w, h !! x = Some w /\ sameLinks w w').
  { intros x w' Hx. specialize (Hrel x). rewrite Hx in Hrel. inversion Hrel; eauto. }
  assert (Hi : forall x w, h !! x = Some w -> exists w', h' !! x = Some w' /\ sameLinks w w').
  { intros x w Hx. specialize (Hrel x). rewrite Hx in Hrel. inversion Hrel; eauto. }
  split.
  - intros x w' (w & Hx & (Hv & Hb & _) & _)%Hl. rewrite Hv, Hb. by eapply wf_live.
  - intros c w' p (w & Hx & (_ & _ & Hp) & _)%Hl Hcp. rewrite Hp in Hcp.
    destruct (wf_parent h Hwf c w p Hx Hcp) as (pw & Hpw & Hin).
    destruct (Hi p pw Hpw) as (pw' & ? & _ & E). exists pw'. unfold children. by rewrite E.
  - intros p w' c (w & Hx & _ & E)%Hl Hc. unfold children in Hc. rewrite E in Hc.
    destruct (wf_children h Hwf p w c Hx Hc) as (cw & Hcw & Hp).
    destruct (Hi c cw Hcw) as (cw' & ? & (_ & _ & E') & _). exists cw'. by rewrite E'.
  - intros x w' (w & Hx & _ & E)%Hl. unfold children. rewrite E. by eapply (wf_nodup h).
  - intros x w' (w & Hx & _ & E)%Hl. rewrite E. by eapply wf_capacity.
  - destruct (wf_ranked h Hwf) as (rank & B & Hrk). exists rank, B.
    intros x w' (w & Hx & (_ & _ & Hp) & _)%Hl. rewrite Hp. by apply Hrk.
Qed.

Definition enableAll (b : bool) (l : list nat) (h : heap) : heap :=
  foldr (alter (fun w => setEnabled w b)) h l.

Lemma lookup_enableAll b l h x :
  enableAll b l h !! x =
    if decide (x ∈ l) then (fun w => setEnabled w b) <$> h !! x else h !! x.
Proof.
  induction l as [|y l IH]; simpl; [done|]. destruct (decide (x = y)) as [->|Hne].
  - rewrite lookup_alter_eq, IH. rewrite (decide_True (P := y ∈ y :: l)) by left.
    destruct (h !! y); case_decide; done.
  - rewrite lookup_alter_ne, IH by done. repeat case_decide; set_solver.
Qed.

Lemma enableAll_app b l k h : enableAll b (l ++ k) h = enableAll b k (enableAll b l h).
Proof.
  apply map_eq. intros x. rewrite !lookup_enableAll. destruct (h !! x);
    repeat case_decide; simpl; set_solver.
Qed.

Lemma hasChildren_false w : hasChildren (childrenManager w) = false -> children w = [].
Proof. unfold hasChildren, empty, children. by destruct (_children (childrenManager w)). Qed.

(** Renaming attributes keeps the represented tree. *)
Lemma rep_enableAll b l h par t : rep h par t -> rep (enableAll b l h) par t.
Proof.
  revert par. induction t as [a ts IH] using wtree_ind'. intros par [(w & Ha & Hl & Hc) Hts]%rep_node.
  apply rep_node. split.
  - rewrite lookup_enableAll, Ha. case_decide; [exists (setEnabled w b)|exists w]; done.
  - rewrite List.Forall_forall in *. auto.
Qed.

Lemma enableChild_spec rec b h par t :
  rep h par t -> rec h (root t) = Done (enableAll b (tail (addrs t)) h) ->
  enableChild rec b h (root t) = Done (enableAll b (addrs t) h).
Proof.
  destruct t as [c us]. intros [(cw & Hcw & _ & Hcc) _]%rep_node Hrec.
  unfold enableChild, deref at 1. simpl root in *. rewrite Hcw. simpl obind.
  assert (E : (if hasChildren (childrenManager cw) then rec h c else Done h) =
              Done (enableAll b (flat_map addrs us) h)).
  { destruct (hasChildren (childrenManager cw)) eqn:Eh; [done|].
    apply hasChildren_false in Eh. rewrite Hcc in Eh. by destruct us. }
  rewrite E. simpl obind. unfold deref.
  destruct (enableAll b (flat_map addrs us) h !! c) as [w1|] eqn:Hw1.
  - simpl. f_equal. apply map_eq. intros x. destruct (decide (x = c)) as [->|].
    + by rewrite lookup_insert_eq, lookup_alter_eq, Hw1.
    + by rewrite lookup_insert_ne, lookup_alter_ne.
  - rewrite lookup_enableAll, Hcw in Hw1. by case_decide.
Qed.

Lemma setChildrenEnabled_spec b t : forall n h par, (height t <= n)%nat -> rep h par t ->
  setChildrenEnabled n h (root t) b = Done (enableAll b (tail (addrs t)) h).
Proof.
  induction t as [a ts IH] using wtree_ind'. intros [|n] h par Hn Hrep; [simpl in Hn; lia|].
  apply rep_node in Hrep as [(w & Ha & _ & Hc) Hts]. simpl. unfold deref at 1. rewrite Ha. simpl.
  rewrite Hc. clear Hc Ha. assert (Hh : forall t, t ∈ ts -> (height t <= n)%nat).
  { intros t Ht%height_child. simpl in Hn. lia. }
  clear Hn. revert h Hts. induction ts as [|t ts IHl]; intros h Hts; [done|].
  apply Forall_cons_iff in IH as [IHt IH], Hts as [Ht Hts]. simpl.
  rewrite (enableChild_spec _ b h (Some a) t); [|done|by eapply IHt; [apply Hh; left|]].
  simpl. rewrite enableAll_app. apply IHl; [done|intros; apply Hh; by right|].
  eapply List.Forall_impl; [|exact Hts]. intros u. apply rep_enableAll.
Qed.

Lemma enableAll_wf b l h : wf h -> wf (enableAll b l h).
Proof.
  intros Hwf. apply (wf_relabel h); [done|]. intros x. rewrite lookup_enableAll.
  destruct (h !! x); case_decide; constructor; done.
Qed.

(** ** Reachable heaps

    The operations of an application on the tree, in any order. *)
Inductive step : heap -> heap -> Prop :=
| step_new h a par dialog cls h' :
    h !! a = None -> (forall p, par = Some p -> is_Some (h !! p)) ->
    newWidget h a par dialog cls = Done h' -> step h h'
| step_delete h a h' :
    is_Some (h !! a) -> destroyWidget h a = Done h' -> step h h'
| step_deleteChildren h a h' :
    is_Some (h !! a) -> destroyChildren h a = Done h' -> step h h'
| step_enable h a b h' :
    is_Some (h !! a) -> setChildrenEnabled (size h) h a b = Done h' -> step h h'
| step_id h a w i :
    h !! a = Some w -> step h (<[a := setId w i]> h).

Lemma wf_empty : wf ∅.
Proof.
  split; try (intros *; rewrite lookup_empty; done).
  exists (fun _ => 0%nat), 0%nat. intros c w. by rewrite lookup_empty.
Qed.

Lemma step_wf h h' : wf h -> step h h' -> wf h'.
Proof.
  intros Hwf Hs. revert Hwf.
  destruct Hs as [? a par d c h1 Hf Hp E|? a h1 Ha E|? a h1 Ha E|? a b h1 [w Ha] E|? a w i Ha];
    intros Hwf.
  - by apply (newWidget_wf h a par d c h1).
  - by apply (destroyWidget_wf h a h1).
  - by apply (destroyChildren_wf h a h1).
  - destruct (wf_rep _ a w Hwf Ha) as (t & <- & Ht & Hnd).
    rewrite (setChildrenEnabled_spec b t _ _ (parent w)) in E; [|by eapply height_size|done].
    simplify_eq. by apply enableAll_wf.
  - apply (wf_relabel _ _ Hwf). intros x. destruct (decide (x = a)) as [->|].
    + rewrite lookup_insert_eq, Ha. by constructor.
    + rewrite lookup_insert_ne by done. destruct (_ !! x); constructor; done.
Qed.

Lemma reachable_wf h : rtc step ∅ h -> wf h.
Proof.
  intros H. remember (∅ : heap) as h0 eqn:E. assert (Hwf : wf h0) by (subst; apply wf_empty).
  clear E. induction H; [done|]. eauto using step_wf.
Qed.

(** ** Searches in a represented tree *)

Definition hasEqualId (h : heap) (i : YStringWidgetID) (x : nat) : bool :=
  match h !! x with
  | Some w => match id w with Some j => isEqual j i | None => false end
  | None => false
  end.

Definition firstWithId (h : heap) (i : YStringWidgetID) (l : list nat) : option nat :=
  head (filter (fun x => hasEqualId h i x = true) l).

Lemma firstWithId_app h i l k :
  firstWithId h i (l ++ k) =
    match firstWithId h i l with Some x => Some x | None => firstWithId h i k end.
Proof. unfold firstWithId. rewrite list.filter_app. by destruct (filter _ l). Qed.

Lemma firstWithId_cons h i x l :
  firstWithId h i (x :: l) = if hasEqualId h i x then Some x else firstWithId h i l.
Proof. unfold firstWithId. rewrite filter_cons. by destruct (hasEqualId h i x). Qed.

Lemma findLoop_spec rec h par i ts :
  Forall (rep h par) ts ->
  (forall t, t ∈ ts -> rec (root t) = Done (firstWithId h i (tail (addrs t)))) ->
  findLoop rec h i (map root ts) = Done (firstWithId h i (flat_map addrs ts)).
Proof.
  induction 1 as [|t ts Ht _ IH]; intros Hrec; [done|]. simpl flat_map.
  rewrite firstWithId_app. pose proof (Hrec t ltac:(left)) as Ert.
  destruct t as [c us]. apply rep_node in Ht as [(w & Hc & (Hv & _ & _) & Hcc) _]. simpl in Ert |- *.
  unfold deref. rewrite Hc, firstWithId_cons. unfold hasEqualId at 1. rewrite Hc. simpl. rewrite Hv. simpl.
  destruct (match id w with Some j => isEqual j i | None => false end); [done|].
  assert (E : (if hasChildren (childrenManager w) then rec c else Done None) =
              Done (firstWithId h i (flat_map addrs us))).
  { destruct (hasChildren (childrenManager w)) eqn:Eh; [done|].
    apply hasChildren_false in Eh. rewrite Hcc in Eh. by destruct us. }
  rewrite E. simpl. destruct (firstWithId h i (flat_map addrs us)); [done|].
  apply IH. intros; apply Hrec; by right.
Qed.

Definition notFound (i : YStringWidgetID) (doThrow : bool) (r : option nat) : outcome (option nat) :=
  match r with
  | Some x => Done (Some x)
  | None => if doThrow then Throws (YUIWidgetNotFoundException (_value i)) else Done None
  end.

Lemma findWidget_spec h i t : forall n par doThrow, (height t <= n)%nat -> rep h par t ->
  findWidget n h (root t) (Some i) doThrow = notFound i doThrow (firstWithId h i (tail (addrs t))).
Proof.
  induction t as [a ts IH] using wtree_ind'. intros [|n] par doThrow Hn Hrep; [simpl in Hn; lia|].
  apply rep_node in Hrep as [(w & Ha & _ & Hc) Hts]. simpl. unfold deref. rewrite Ha. simpl. rewrite Hc.
  rewrite (findLoop_spec _ _ (Some a)); [done|done|].
  intros t Ht. pose proof (height_child t ts Ht). rewrite list_elem_of_In in Ht.
  rewrite List.Forall_forall in IH, Hts. rewrite (IH t Ht n (Some a) false); [|simpl in Hn; lia|auto].
  unfold notFound. by destruct (firstWithId _ _ _).
Qed.

(** The nearest dialog on the way from [a] to its topmost ancestor. *)
Definition nearestDialog (h : heap) (a : nat) (d : option nat) : Prop :=
  match d with
  | Some d => below h d a /\ (exists dw, h !! d = Some dw /\ isYDialog dw = true) /\
      forall x xw, below h x a -> h !! x = Some xw -> isYDialog xw = true -> below h x d
  | None => forall x xw, below h x a -> h !! x = Some xw -> isYDialog xw = false
  end.

Lemma nearestDialog_parent h a w p d :
  h !! a = Some w -> isYDialog w = false -> parent w = Some p ->
  nearestDialog h p d -> nearestDialog h a d.
Proof.
  intros Ha Hd Hp H. assert (Hs : parentOf h a p) by (by exists w).
  assert (Hup : forall x xw, below h x a -> h !! x = Some xw -> isYDialog xw = true -> below h x p).
  { intros x xw Hb Hx Hxd. inversion Hb as [|? y ? (w' & Hw' & Hp') Hr]; simplify_eq; first [congruence|exact Hr]. }
  destruct d as [d|]; simpl in *.
  - destruct H as (Hb & Hdw & Hn). split; [by econstructor|]. split; [done|].
    intros x xw Hx Hxw Hxd. eauto.
  - intros x xw Hx Hxw. destruct (isYDialog xw) eqn:E; [|done].
    rewrite <- E. eapply H; eauto.
Qed.

Lemma findDialog_spec h rank B : wf h -> ranked h rank B -> forall n a w, h !! a = Some w ->
  (size (filter (fun x => (rank x <= rank a)%nat) (dom h)) <= n)%nat ->
  exists d, findDialog n h (Some a) = Done d /\ nearestDialog h a d.
Proof.
  intros Hwf Hrk. induction n as [|n IH]; intros a w Ha Hn.
  - apply Nat.le_0_r, size_empty_inv in Hn. assert (a ∈ (∅ : gset nat)) by (rewrite <- Hn; apply elem_of_filter; split; [lia|by apply elem_of_dom_2 in Ha]).
    set_solver.
  - simpl. unfold deref. rewrite Ha. simpl. destruct (isYDialog w) eqn:Ed.
    + exists (Some a). split; [done|]. split; [apply rtc_refl|]. split; [by exists w|done].
    + destruct (parent w) as [p|] eqn:Ep.
      * destruct (wf_parent h Hwf a w p Ha Ep) as (pw & Hpw & _).
        destruct (Hrk a w Ha) as [_ Hlt]. specialize (Hlt p Ep).
        destruct (IH p pw Hpw) as (d & E & Hnd).
        { enough (size (filter (fun x => (rank x <= rank p)%nat) (dom h)) <
                  size (filter (fun x => (rank x <= rank a)%nat) (dom h)))%nat by lia.
          apply subset_size. split; [set_solver by lia|]. intros Hsub.
          assert (Hin : a ∈ filter (fun x => (rank x <= rank a)%nat) (dom h))
            by (apply elem_of_filter; split; [lia|by apply elem_of_dom_2 in Ha]).
          apply Hsub, elem_of_filter in Hin as [? _]. lia. }
        exists d. split; [done|]. by eapply nearestDialog_parent.
      * exists None. destruct n; (split; [done|]); intros x xw Hb Hx;
          inversion Hb as [|? y ? (w' & Hw' & Hp') _]; simplify_eq; done.
Qed.

Lemma findDialog_done h a w n :
  wf h -> h !! a = Some w -> (size h <= n)%nat ->
  exists d, findDialog n h (Some a) = Done d /\ nearestDialog h a d.
Proof.
  intros Hwf Ha Hn. destruct (wf_ranked h Hwf) as (rank & B & Hrk).
  eapply findDialog_spec; eauto. etrans; [|exact Hn]. rewrite <- size_dom.
  apply subseteq_size. set_solver.
Qed.

Lemma prune_root h par t x w :
  wf h -> rep h par t -> h !! x = Some w -> x ∉ addrs t ->
  prune (addrs t) w = withManager w (remove (childrenManager w) (root t)).
Proof.
  intros Hwf Ht Hx Hn. unfold prune, remove. do 2 f_equal. apply list_filter_ext_in.
  intros c Hc. split.
  - intros Hcn ->. apply Hcn, root_in_addrs.
  - intros Hne Hct. by destruct (rep_entry h par t x w c) as [? _].
Qed.

(** ** The properties of the widget tree *)

(** C4: In every heap an application can reach, deleting a live widget
    returns, without an exception and without touching freed memory, and the
    number of live widgets is enough fuel for the recursion of the
    destructors. It frees exactly the widget and everything below it. All
    other widgets stay as they are, except that the deleted widget is taken
    out of its parent's children; the pointers left agree again. *)
Theorem delete_frees_subtree h a w :
  rtc step ∅ h -> h !! a = Some w ->
  exists h', (forall n, (size h <= n)%nat -> deleteWidget n h a = Done h') /\
    (forall x, below h a x -> h' !! x = None) /\
    (forall x, ~ below h a x ->
       h' !! x = (fun v => withManager v (remove (childrenManager v) a)) <$> h !! x) /\
    wf h'.
Proof.
  intros Hwf%reachable_wf Ha.
  destruct (destroyWidget_done h a w Hwf Ha) as (t & h' & <- & Ht & E & Hn & Hl).
  exists h'. split; [done|]. split; [|split].
  - intros x Hx%(elem_of_addrs h _ t x Hwf Ht). by rewrite Hl, decide_True.
  - intros x Hx. rewrite <- (elem_of_addrs h _ t x Hwf Ht) in Hx.
    rewrite Hl, decide_False by done. destruct (h !! x) as [v|] eqn:Ev; [|done]. simpl.
    by rewrite (prune_root h (parent w) t x).
  - eapply destroyWidget_wf; [done| |exact E]. by eexists.
Qed.

(** In every heap an application can reach, parent and child pointers
    agree and lead to live widgets, no widget lists a child twice, a widget
    for one child has at most one and a widget without children has none,
    and the parent pointers have no cycle. *)
Theorem tree_invariant h : rtc step ∅ h -> wf h.
Proof. apply reachable_wf. Qed.

(** A constructor call below a live parent either returns, and then the
    new widget has no children and is the last child of its parent, or the
    parent cannot take another child and it throws; nothing else can
    happen. *)
Theorem new_widget h a p pw dialog cls :
  h !! a = None -> h !! p = Some pw -> wf h ->
  newWidget h a (Some p) dialog cls =
    match add (childrenManager pw) a with
    | Ok m => Done (<[a := fresh (Some p) a dialog cls]> (<[p := withManager pw m]> h))
    | Throw e => Throws e
    end /\
  (is_Some (head (children pw)) -> managerClass (childrenManager pw) <> YWidgetChildrenManager ->
   newWidget h a (Some p) dialog cls = Throws YUITooManyChildrenException).
Proof.
  intros Hfree Hp Hwf. assert (Hpa : p <> a) by congruence.
  assert (Hnc : contains (childrenManager pw) a = false).
  { apply bool_decide_eq_false. intros Hin. destruct (wf_children h Hwf p pw a Hp Hin) as (? & ? & _).
    congruence. }
  assert (E : newWidget h a (Some p) dialog cls =
    match add (childrenManager pw) a with
    | Ok m => Done (<[a := fresh (Some p) a dialog cls]> (<[p := withManager pw m]> h))
    | Throw e => Throws e
    end).
  { unfold newWidget, construct, addChild, deref. rewrite lookup_insert_ne, Hp by done. simpl.
    rewrite Hnc. destruct (add (childrenManager pw) a) as [m|e]; [|done]. simpl.
    unfold setChildrenManager, deref.
    rewrite insert_insert_ne, lookup_insert_eq by done. simpl. rewrite insert_insert_eq.
    by destruct cls. }
  split; [done|]. intros Hne Hcls. rewrite E. pose proof (wf_capacity h Hwf p pw Hp) as Hcap.
  unfold children, capacityOk, add, empty in *. destruct (childrenManager pw) as [[] ? [|]]; simpl in *;
    done || by destruct Hne.
Qed.

(** [findDialog()] on a live widget returns: the nearest dialog among the
    widget and its ancestors, or none if there is none. *)
Theorem find_dialog h a w n :
  rtc step ∅ h -> h !! a = Some w -> (size h <= n)%nat ->
  exists d, findDialog n h (Some a) = Done d /\ nearestDialog h a d.
Proof.
  intros Hwf%reachable_wf. by apply findDialog_done.
Qed.

(** [findWidget()] returns the first widget with the ID, in depth-first
    order, among exactly the widgets below the one it is called for; if there
    is none it throws or returns 0, as the caller asked. *)
Theorem find_widget h a w i doThrow n :
  rtc step ∅ h -> h !! a = Some w -> (size h <= n)%nat ->
  exists t, rep h (parent w) t /\ root t = a /\ NoDup (addrs t) /\
    (forall x, x ∈ addrs t <-> below h a x) /\
    findWidget n h a (Some i) doThrow =
      notFound i doThrow (firstWithId h i (tail (addrs t))).
Proof.
  intros Hwf%reachable_wf Ha Hn. destruct (wf_rep h a w Hwf Ha) as (t & <- & Ht & Hnd).
  exists t. split; [done|]. split; [done|]. split; [done|].
  split; [intros x; by apply (elem_of_addrs h (parent w))|].
  eapply findWidget_spec; [|done]. etrans; [by eapply height_size|done].
Qed.

(** [setChildrenEnabled()] returns and sets the flag of exactly the
    widgets below the one it is called for. *)
Theorem set_children_enabled h a w b n :
  rtc step ∅ h -> h !! a = Some w -> (size h <= n)%nat ->
  exists h', setChildrenEnabled n h a b = Done h' /\
    (forall x, below h a x -> x <> a -> h' !! x = (fun v => setEnabled v b) <$> h !! x) /\
    (forall x, ~ below h a x \/ x = a -> h' !! x = h !! x).
Proof.
  intros Hwf%reachable_wf Ha Hn. destruct (wf_rep h a w Hwf Ha) as (t & <- & Ht & Hnd).
  eexists. split; [eapply setChildrenEnabled_spec; [|done]; etrans; [by eapply height_size|done]|].
  assert (Hin : forall x, x ∈ tail (addrs t) <-> below h (root t) x /\ x <> root t).
  { intros x. rewrite <- (elem_of_addrs h _ t x Hwf Ht). destruct t as [c us]. simpl in *.
    apply list.NoDup_cons in Hnd as [? _]. set_solver. }
  split; intros x; rewrite lookup_enableAll.
  - intros. rewrite decide_True; [done|]. by apply Hin.
  - intros Hx. rewrite decide_False; [done|]. rewrite Hin. naive_solver.
Qed.

(** ** A sample: a dialog with a box of two buttons *)

Definition ok (m : outcome heap) : heap := match m with Done h => h | _ => ∅ end.

Definition sample1 : heap := ok (newWidget ∅ 1 None true YSingleWidgetChildManager).
Definition sample2 : heap := ok (newWidget sample1 2 (Some 1%nat) false YWidgetChildrenManager).
Definition sample3 : heap := ok (newWidget sample2 3 (Some 2%nat) false YWidgetChildrenRejector).
Definition sample4 : heap := ok (newWidget sample3 4 (Some 2%nat) false YWidgetChildrenRejector).
Definition okId : YStringWidgetID := {| _value := "ok" |}.
Definition sample : heap :=
  match sample4 !! 4%nat with Some w => <[4%nat := setId w (Some okId)]> sample4 | None => ∅ end.

Lemma sampleTree_reachable : rtc step ∅ sample.
Proof.
  assert (Hnew : forall h a par d c h', h !! a = None ->
    match par with Some p => is_Some (h !! p) | None => True end ->
    newWidget h a par d c = Done h' -> step h h').
  { intros h a par d c h' ? Hp ?. eapply step_new; [done| |done]. by intros p ->. }
  eapply rtc_l; [apply (Hnew ∅ 1%nat None true YSingleWidgetChildManager sample1); vm_compute; done|].
  eapply rtc_l; [apply (Hnew sample1 2%nat (Some 1%nat) false YWidgetChildrenManager sample2);
                 vm_compute; eauto|].
  eapply rtc_l; [apply (Hnew sample2 3%nat (Some 2%nat) false YWidgetChildrenRejector sample3);
                 vm_compute; eauto|].
  eapply rtc_l; [apply (Hnew sample3 4%nat (Some 2%nat) false YWidgetChildrenRejector sample4);
                 vm_compute; eauto|].
  apply rtc_once. unfold sample. destruct (sample4 !! 4%nat) as [w|] eqn:E; [by apply step_id|done].
Qed.

Definition at_ (h : heap) (a : nat) : YWidget := default (newBase None a false) (h !! a).

Lemma delete_frees_subtree_witness :
  exists h', (forall n, (size sample <= n)%nat -> deleteWidget n sample 2 = Done h') /\
    (forall x, below sample 2 x -> h' !! x = None) /\
    (forall x, ~ below sample 2 x ->
       h' !! x = (fun v => withManager v (remove (childrenManager v) 2)) <$> sample !! x) /\
    wf h'.
Proof.
  apply (delete_frees_subtree sample 2 (at_ sample 2)); [apply sampleTree_reachable|vm_compute; reflexivity].
Defined.

Lemma tree_invariant_witness : wf sample.
Proof. apply (tree_invariant sample). apply sampleTree_reachable. Defined.

Lemma new_widget_witness :
  newWidget sample 5 (Some 1%nat) false YWidgetChildrenRejector = Throws YUITooManyChildrenException.
Proof.
  apply (new_widget sample 5 1 (at_ sample 1) false YWidgetChildrenRejector);
    [vm_compute; reflexivity|vm_compute; reflexivity|apply reachable_wf, sampleTree_reachable
    |vm_compute; eauto|vm_compute; discriminate].
Defined.

Lemma find_dialog_witness :
  exists d, findDialog 4 sample (Some 4%nat) = Done d /\ nearestDialog sample 4 d.
Proof.
  apply (find_dialog sample 4 (at_ sample 4) 4);
    [apply sampleTree_reachable|vm_compute; reflexivity|vm_compute; lia].
Defined.

Lemma find_widget_witness :
  exists t, rep sample None t /\ root t = 1%nat /\ NoDup (addrs t) /\
    (forall x, x ∈ addrs t <-> below sample 1 x) /\
    findWidget 4 sample 1 (Some okId) true =
      notFound okId true (firstWithId sample okId (tail (addrs t))).
Proof.
  apply (find_widget sample 1 (at_ sample 1) okId true 4);
    [apply sampleTree_reachable|vm_compute; reflexivity|vm_compute; lia].
Defined.

Lemma set_children_enabled_witness :
  exists h', setChildrenEnabled 4 sample 2 false = Done h' /\
    (forall x, below sample 2 x -> x <> 2%nat -> h' !! x = (fun v => setEnabled v false) <$> sample !! x) /\
    (forall x, ~ below sample 2 x \/ x = 2%nat -> h' !! x = sample !! x).
Proof.
  apply (set_children_enabled sample 2 (at_ sample 2) false 4);
    [apply sampleTree_reachable|vm_compute; reflexivity|vm_compute; lia].
Defined.

(** The search finds the second button through the box. *)
Example sample_find : findWidget 4 sample 1 (Some okId) true = Done (Some 4%nat).
Proof. vm_compute. reflexivity. Qed.

End YWidget.
