(* ===== verification/Dialog.v ===== *)
(** * Dialogs: the dialog stack, event filters and the event loop

    A model of YDialog.cc and YEventFilter.cc on top of the widget heap of
    WidgetTree.v. A [world] holds the widgets, the private data of the
    dialogs, the event filters, the events that have been created and not yet
    deleted, and the stack of dialogs. What the UI plug-in does is outside:
    the events it delivers are an input sequence, and the calls into it
    ([openInternal()], [activate()], the size calculation, the shortcut check)
    are recorded in a trace. *)

From S2P Require Import Prelude WidgetTree.
Import YChildrenManager YWidget.

(** ** Events (YEvent.h, YEvent.cc) *)
Module YEvent.

Inductive EventType :=
| NoEvent | UnknownEvent | WidgetEvent | MenuEvent | KeyEvent | CancelEvent
| TimeoutEvent | DebugEvent | SpecialKeyEvent | InvalidEvent.

(** An event; [isWidgetEvent] is the outcome of the cast to [YWidgetEvent].
    Events are identified by their serial number. *)
Record YEvent := {
  _eventType : EventType;
  isWidgetEvent : bool;
  _widget : option nat
}.

Definition isValid (e : YEvent) : bool :=
  match _eventType e with InvalidEvent => false | _ => true end.

End YEvent.

Module YDialog.
Import YEvent.

Inductive YDialogType := YMainDialog | YPopupDialog | YWizardDialog.

Inductive YDialogColorMode := YDialogNormalColor | YDialogInfoColor | YDialogWarnColor.

Record YDialogPrivate := {
  dialogType : YDialogType;
  colorMode : YDialogColorMode;
  shortcutCheckPostponed : bool;
  defaultButton : option nat;
  isOpen : bool;
  multiPassLayout : bool;
  layoutPass : Z;
  lastEvent : option nat;
  eventFilterList : list nat
}.

(** The calls that leave the modelled code, in order. *)
Inductive call :=
| CheckShortcuts (dialog : nat)
| SetSize (dialog : nat) (pass : Z)
| OpenInternal (dialog : nat)
| WaitForEventInternal (dialog : nat) (timeout_millisec : Z)
| PollEventInternal (dialog : nat)
| Activate (dialog : nat).

Record world := {
  widgets : heap;
  dialogs : gmap nat YDialogPrivate;
  filters : gmap nat nat;
  events : gmap nat YEvent;
  _nextSerial : nat;
  _dialogStack : list nat;
  trace : list call
}.

Definition setWidgets (W : world) (x : heap) : world :=
  {| widgets := x; dialogs := dialogs W; filters := filters W; events := events W;
     _nextSerial := _nextSerial W; _dialogStack := _dialogStack W; trace := trace W |}.
Definition setDialogs (W : world) (x : gmap nat YDialogPrivate) : world :=
  {| widgets := widgets W; dialogs := x; filters := filters W; events := events W;
     _nextSerial := _nextSerial W; _dialogStack := _dialogStack W; trace := trace W |}.
Definition setFilters (W : world) (x : gmap nat nat) : world :=
  {| widgets := widgets W; dialogs := dialogs W; filters := x; events := events W;
     _nextSerial := _nextSerial W; _dialogStack := _dialogStack W; trace := trace W |}.
Definition setEvents (W : world) (x : gmap nat YEvent) (s : nat) : world :=
  {| widgets := widgets W; dialogs := dialogs W; filters := filters W; events := x;
     _nextSerial := s; _dialogStack := _dialogStack W; trace := trace W |}.
Definition setStack (W : world) (x : list nat) : world :=
  {| widgets := widgets W; dialogs := dialogs W; filters := filters W; events := events W;
     _nextSerial := _nextSerial W; _dialogStack := x; trace := trace W |}.
Definition log (W : world) (c : call) : world :=
  {| widgets := widgets W; dialogs := dialogs W; filters := filters W; events := events W;
     _nextSerial := _nextSerial W; _dialogStack := _dialogStack W; trace := trace W ++ [c] |}.

Definition setPostponed (p : YDialogPrivate) (b : bool) : YDialogPrivate :=
  {| dialogType := dialogType p; colorMode := colorMode p; shortcutCheckPostponed := b;
     defaultButton := defaultButton p; isOpen := isOpen p; multiPassLayout := multiPassLayout p;
     layoutPass := layoutPass p; lastEvent := lastEvent p; eventFilterList := eventFilterList p |}.
Definition setOpen (p : YDialogPrivate) (b : bool) : YDialogPrivate :=
  {| dialogType := dialogType p; colorMode := colorMode p;
     shortcutCheckPostponed := shortcutCheckPostponed p;
     defaultButton := defaultButton p; isOpen := b; multiPassLayout := multiPassLayout p;
     layoutPass := layoutPass p; lastEvent := lastEvent p; eventFilterList := eventFilterList p |}.
Definition setLayoutPass (p : YDialogPrivate) (n : Z) : YDialogPrivate :=
  {| dialogType := dialogType p; colorMode := colorMode p;
     shortcutCheckPostponed := shortcutCheckPostponed p;
     defaultButton := defaultButton p; isOpen := isOpen p; multiPassLayout := multiPassLayout p;
     layoutPass := n; lastEvent := lastEvent p; eventFilterList := eventFilterList p |}.
Definition setMultiPass (p : YDialogPrivate) (b : bool) : YDialogPrivate :=
  {| dialogType := dialogType p; colorMode := colorMode p;
     shortcutCheckPostponed := shortcutCheckPostponed p;
     defaultButton := defaultButton p; isOpen := isOpen p; multiPassLayout := b;
     layoutPass := layoutPass p; lastEvent := lastEvent p; eventFilterList := eventFilterList p |}.
Definition setLastEvent (p : YDialogPrivate) (e : option nat) : YDialogPrivate :=
  {| dialogType := dialogType p; colorMode := colorMode p;
     shortcutCheckPostponed := shortcutCheckPostponed p;
     defaultButton := defaultButton p; isOpen := isOpen p; multiPassLayout := multiPassLayout p;
     layoutPass := layoutPass p; lastEvent := e; eventFilterList := eventFilterList p |}.
Definition setFilterList (p : YDialogPrivate) (l : list nat) : YDialogPrivate :=
  {| dialogType := dialogType p; colorMode := colorMode p;
     shortcutCheckPostponed := shortcutCheckPostponed p;
     defaultButton := defaultButton p; isOpen := isOpen p; multiPassLayout := multiPassLayout p;
     layoutPass := layoutPass p; lastEvent := lastEvent p; eventFilterList := l |}.

(** Following the [priv] pointer of a dialog. *)
Definition priv (W : world) (d : nat) : outcome YDialogPrivate :=
  match dialogs W !! d with Some p => Done p | None => Undefined end.

Definition setPriv (W : world) (d : nat) (p : YDialogPrivate) : world :=
  setDialogs W (<[d := p]> (dialogs W)).

(** ** Queries on the stack *)

Definition currentDialog (W : world) (doThrow : bool) : result (option nat) :=
  match _dialogStack W with
  | [] => if doThrow then Throw YUINoDialogException else Ok None
  | d :: _ => Ok (Some d)
  end.

Definition isTopmostDialog (W : world) (this : nat) : bool :=
  match _dialogStack W with
  | [] => false
  | d :: _ => bool_decide (d = this)
  end.

Definition openDialogsCount (W : world) : Z := Z.of_nat (length (_dialogStack W)).

Definition isMainDialog (p : YDialogPrivate) : bool :=
  match dialogType p with
  | YMainDialog => true
  | YWizardDialog => true
  | YPopupDialog => false
  end.

(** ** Event filters (YEventFilter.cc) *)

Definition addEventFilter (W : world) (this eventFilter : nat) : outcome world :=
  let! p := priv W this in
  if bool_decide (eventFilter ∈ eventFilterList p) then Done W
  else Done (setPriv W this (setFilterList p (eventFilterList p ++ [eventFilter]))).

Definition removeEventFilter (W : world) (this eventFilter : nat) : outcome world :=
  let! p := priv W this in
  Done (setPriv W this (setFilterList p (filter (fun f => f <> eventFilter) (eventFilterList p)))).

(** The constructor takes the current dialog if none is given. *)
Definition newEventFilter (W : world) (f : nat) (dialog : option nat) : outcome world :=
  let! d :=
    match dialog with
    | Some d => Done d
    | None =>
        let! cur := lift (currentDialog W true) in
        match cur with Some d => Done d | None => Undefined end
    end in
  addEventFilter (setFilters W (<[f := d]> (filters W))) d f.

Definition deleteEventFilter (W : world) (f : nat) : outcome world :=
  match filters W !! f with
  | None => Undefined
  | Some d =>
      let! W1 := removeEventFilter W d f in
      Done (setFilters W1 (delete f (filters W1)))
  end.

(** [deleteEventFilters()]: delete the last one until the list is empty. *)
Fixpoint deleteFilterLoop (n : nat) (W : world) (this : nat) : outcome world :=
  let! p := priv W this in
  match last (eventFilterList p) with
  | None => Done W
  | Some f =>
      match n with
      | O => NoFuel
      | S n' => let! W1 := deleteEventFilter W f in deleteFilterLoop n' W1 this
      end
  end.

Definition deleteEventFilters (W : world) (this : nat) : outcome world :=
  let! p := priv W this in
  deleteFilterLoop (length (eventFilterList p)) W this.

(** ** Events *)

(** [new YEvent]: the next serial number. *)
Definition newEvent (W : world) (e : YEvent) : world * nat :=
  (setEvents W (<[_nextSerial W := e]> (events W)) (S (_nextSerial W)), _nextSerial W).

Definition deleteEvent (W : world) (this : nat) (event : option nat) : outcome world :=
  let! p := priv W this in
  let W1 :=
    if bool_decide (event = lastEvent p) then setPriv W this (setLastEvent p None) else W in
  match event with
  | None => Done W1
  | Some e =>
      match events W1 !! e with
      | None => Undefined
      | Some ev =>
          if isValid ev then Done (setEvents W1 (delete e (events W1)) (_nextSerial W1))
          else Done W1
      end
  end.

(** ** Construction and destruction *)

Definition newPriv (type : YDialogType) (color : YDialogColorMode) : YDialogPrivate :=
  {| dialogType := type; colorMode := color; shortcutCheckPostponed := false;
     defaultButton := None; isOpen := false; multiPassLayout := false; layoutPass := 0;
     lastEvent := None; eventFilterList := [] |}.

(** The constructor, at address [this]; [help] and [relNotes] are the addresses
    of the two event filters it creates. *)
Definition newDialog (W : world) (this help relNotes : nat) (type : YDialogType)
    (color : YDialogColorMode) : outcome world :=
  let! h := newWidget (widgets W) this None true YSingleWidgetChildManager in
  let W1 := setPriv (setWidgets W h) this (newPriv type color) in
  let W2 := setStack W1 (this :: _dialogStack W1) in
  let! W3 := newEventFilter W2 help (Some this) in
  newEventFilter W3 relNotes (Some this).

(** The end of the destructor's body: leave the stack. *)
Definition popDialog (W : world) (this : nat) : world :=
  match _dialogStack W with
  | top :: rest =>
      if bool_decide (top = this) then
        match rest with
        | [] => setStack W []
        | next :: _ => log (setStack W rest) (Activate next)
        end
      else W
  | [] => W
  end.

(** [delete dialog]: the destructor of [YDialog], then the one of [YWidget]. *)
Definition deleteDialog (W : world) (this : nat) : outcome world :=
  let! w := deref (widgets W) this in
  let W1 := setWidgets W (<[this := setBeingDestroyed w]> (widgets W)) in
  let! p := priv W1 this in
  let! W2 :=
    match lastEvent p with
    | Some e => deleteEvent W1 this (Some e)
    | None => Done W1
    end in
  let n := size (widgets W2) in
  let! h := deleteChildren (deleteWidget n) (widgets W2) this in
  let! W3 := deleteEventFilters (setWidgets W2 h) this in
  let W4 := popDialog W3 this in
  let W5 := setDialogs W4 (delete this (dialogs W4)) in
  let! h' := deleteWidget n (widgets W5) this in
  Done (setWidgets W5 h').

(** [isValid()] reads the magic number of the widget. On a widget that has
    been deleted that is a read of freed memory. *)
Definition validWidget (W : world) (a : nat) : outcome bool :=
  match widgets W !! a with
  | Some w => Done (YWidget.isValid w)
  | None => Undefined
  end.

Definition destroy (W : world) (this : nat) (doThrow : bool) : outcome (world * bool) :=
  let! valid := validWidget W this in
  if negb valid then Throws YUIInvalidWidgetException
  else if isTopmostDialog W this then
    let! W1 := deleteDialog W this in Done (W1, true)
  else if doThrow then Throws YUIDialogStackingOrderException
  else Done (W, false).

Definition deleteTopmostDialog (W : world) (doThrow : bool) : outcome (world * bool) :=
  match _dialogStack W with
  | [] => if doThrow then Throws YUINoDialogException else Done (W, false)
  | top :: _ =>
      let! W1 := deleteDialog W top in
      Done (W1, match _dialogStack W1 with [] => false | _ => true end)
  end.

(** The loops [while ( ! _dialogStack.empty() )], with the height of the stack
    as fuel. *)
Fixpoint deleteAllLoop (n : nat) (W : world) : outcome world :=
  match _dialogStack W with
  | [] => Done W
  | top :: _ =>
      match n with
      | O => NoFuel
      | S n' => let! W1 := deleteDialog W top in deleteAllLoop n' W1
      end
  end.

Definition deleteAllDialogs (W : world) : outcome world :=
  deleteAllLoop (length (_dialogStack W)) W.

(** The result says whether the target was found; the exception is thrown only
    after all dialogs are gone. *)
Fixpoint deleteToLoop (n : nat) (W : world) (targetDialog : nat) : outcome (world * bool) :=
  match _dialogStack W with
  | [] => Done (W, false)
  | top :: _ =>
      match n with
      | O => NoFuel
      | S n' =>
          let! W1 := deleteDialog W top in
          if bool_decide (top = targetDialog) then Done (W1, true)
          else deleteToLoop n' W1 targetDialog
      end
  end.

(** Both components matter: the state that is left, and the exception. *)
Definition deleteTo (W : world) (targetDialog : nat) : outcome (world * option YUIException) :=
  let! valid := validWidget W targetDialog in
  if negb valid then Done (W, Some YUIInvalidWidgetException)
  else
    let! (W1, found) := deleteToLoop (length (_dialogStack W)) W targetDialog in
    Done (W1, if found : bool then None else Some YUIDialogStackingOrderException).

(** ** Opening *)

Definition postponeShortcutCheck (W : world) (this : nat) : outcome world :=
  let! p := priv W this in Done (setPriv W this (setPostponed p true)).

Definition requestMultiPassLayout (W : world) (this : nat) : outcome world :=
  let! p := priv W this in Done (setPriv W this (setMultiPass p true)).

Definition checkShortcuts (W : world) (this : nat) (force : bool) : outcome world :=
  let! p := priv W this in
  if shortcutCheckPostponed p && negb force then Done W
  else
    let W1 := log W (CheckShortcuts this) in
    Done (setPriv W1 this (setPostponed p false)).

Definition doLayout (W : world) (this : nat) : outcome world :=
  let! p := priv W this in
  let W1 := log (setPriv W this (setLayoutPass p 1)) (SetSize this 1) in
  let! p1 := priv W1 this in
  let W2 :=
    if multiPassLayout p1
    then log (setPriv W1 this (setLayoutPass p1 2)) (SetSize this 2) else W1 in
  let! p2 := priv W2 this in
  Done (setPriv W2 this (setLayoutPass p2 0)).

Definition open (W : world) (this : nat) : outcome world :=
  let! p := priv W this in
  if isOpen p then Done W
  else
    let! W1 := checkShortcuts W this false in
    let! W2 := doLayout W1 this in
    let W3 := log W2 (OpenInternal this) in
    let! p3 := priv W3 this in
    Done (setPriv W3 this (setOpen p3 true)).

(** ** The event loop *)

Definition filterInvalidEvents (W : world) (this : nat) (event : option nat) :
    outcome (world * option nat) :=
  match event with
  | None => Done (W, None)
  | Some e =>
      match events W !! e with
      | None => Undefined
      | Some ev =>
          match (if isWidgetEvent ev then _widget ev else None) with
          | None => Done (W, Some e)
          | Some a =>
              let! valid := validWidget W a in
              if negb valid then
                let! W1 := deleteEvent W this (Some e) in Done (W1, None)
              else
                let! d := findDialog (size (widgets W)) (widgets W) (Some a) in
                if bool_decide (d = Some this) then Done (W, Some e)
                else
                  let! W1 := deleteEvent (log W (Activate this)) this (Some e) in
                  Done (W1, None)
          end
      end
  end.

(** What an event filter does with an event: return it, return 0, or return a
    newly created event. *)
Inductive FilterAction :=
| Pass
| Consume
| Replace (ev : YEvent).

(** The two filters every dialog has: they consume the events of help and of
    release notes buttons if the text could be shown. *)
Definition buttonHandler (isButton shown : nat -> bool) (ev : YEvent) : FilterAction :=
  match _widget ev with
  | Some b => if isButton b && shown b then Consume else Pass
  | None => Pass
  end.

Section event_loop.
(** [filterEvent f] is the virtual function [filter()] of the filter at [f]. *)
Context (filterEvent : nat -> YEvent -> FilterAction).

Fixpoint callFilterLoop (l : list nat) (W : world) (this : nat) (event : option nat) :
    outcome (world * option nat) :=
  match l, event with
  | [], _ => Done (W, event)
  | _, None => Done (W, None)
  | f :: l', Some e =>
      match events W !! e with
      | None => Undefined
      | Some ev =>
          match filterEvent f ev with
          | Pass => callFilterLoop l' W this (Some e)
          | Consume =>
              let! W1 := deleteEvent W this (Some e) in callFilterLoop l' W1 this None
          | Replace ev' =>
              let '(W0, e') := newEvent W ev' in
              let! W1 := deleteEvent W0 this (Some e) in callFilterLoop l' W1 this (Some e')
          end
      end
  end.

Definition callEventFilters (W : world) (this : nat) (event : option nat) :
    outcome (world * option nat) :=
  let! p := priv W this in
  callFilterLoop (eventFilterList p) W this event.

(** What the plug-in returns: nothing, or an event it has just created. *)
Definition deliver (W : world) (input : option YEvent) : world * option nat :=
  match input with
  | None => (W, None)
  | Some ev => let '(W1, e) := newEvent W ev in (W1, Some e)
  end.

(** One turn of the loop in [waitForEvent()]. *)
Definition handleInput (W : world) (this : nat) (input : option YEvent) :
    outcome (world * option nat) :=
  let '(W0, event) := deliver W input in
  let! (W1, event1) := filterInvalidEvents W0 this event in
  callEventFilters W1 this event1.

(** The loop runs until there is an event; [inputs] is what the plug-in
    delivers, and the loop is still waiting when they are used up. *)
Fixpoint waitLoop (inputs : list (option YEvent)) (W : world) (this : nat) (timeout : Z) :
    outcome (world * nat) :=
  match inputs with
  | [] => NoFuel
  | input :: inputs' =>
      let! (W1, event) :=
        handleInput (log W (WaitForEventInternal this timeout)) this input in
      match event with
      | Some e => Done (W1, e)
      | None => waitLoop inputs' W1 this timeout
      end
  end.

Definition waitForEvent (W : world) (this : nat) (timeout_millisec : Z)
    (inputs : list (option YEvent)) : outcome (world * nat) :=
  if negb (isTopmostDialog W this) then Throws YUIDialogStackingOrderException
  else
    let timeout := if (timeout_millisec <? 0)%Z then 0%Z else timeout_millisec in
    let! p := priv W this in
    let! W1 := if isOpen p then Done W else open W this in
    let! p1 := priv W1 this in
    let! W2 := if shortcutCheckPostponed p1 then checkShortcuts W1 this true else Done W1 in
    let! p2 := priv W2 this in
    let! W3 := deleteEvent W2 this (lastEvent p2) in
    let! (W4, e) := waitLoop inputs W3 this timeout in
    let! p4 := priv W4 this in
    Done (setPriv W4 this (setLastEvent p4 (Some e)), e).

Definition pollEvent (W : world) (this : nat) (input : option YEvent) :
    outcome (world * option nat) :=
  if negb (isTopmostDialog W this) then Throws YUIDialogStackingOrderException
  else
    let! p := priv W this in
    let! W1 := if isOpen p then Done W else open W this in
    let '(W2, event) := deliver (log W1 (PollEventInternal this)) input in
    let! (W3, event1) := filterInvalidEvents W2 this event in
    let! (W4, event2) :=
      match event1 with
      | Some e => callEventFilters W3 this (Some e)
      | None => Done (W3, None)
      end in
    let! p4 := priv W4 this in
    Done (setPriv W4 this (setLastEvent p4 event2), event2).

End event_loop.

(** ** The invariant *)

(** The widget that belongs to a dialog. *)
Definition dialogWidget (W : world) (d : nat) : Prop :=
  exists w, widgets W !! d = Some w /\ isYDialog w = true /\ parent w = None.

Record inv (W : world) : Prop := {
  inv_wf : wf (widgets W);
  inv_stack : NoDup (_dialogStack W);
  inv_dialogs : forall d, d ∈ _dialogStack W <-> is_Some (dialogs W !! d);
  inv_widgets : forall d, d ∈ _dialogStack W -> dialogWidget W d;
  inv_filters : forall d p, dialogs W !! d = Some p -> NoDup (eventFilterList p);
  inv_filter_of : forall d p f, dialogs W !! d = Some p ->
    f ∈ eventFilterList p <-> filters W !! f = Some d;
  inv_filter_dialog : forall f d, filters W !! f = Some d -> is_Some (dialogs W !! d);
  inv_serial : forall e, (_nextSerial W <= e)%nat -> events W !! e = None;
  inv_valid : forall e ev, events W !! e = Some ev -> isValid ev = true;
  inv_last : forall d p e, dialogs W !! d = Some p -> lastEvent p = Some e ->
    is_Some (events W !! e);
  inv_last_inj : forall d1 d2 p1 p2 e, dialogs W !! d1 = Some p1 -> dialogs W !! d2 = Some p2 ->
    lastEvent p1 = Some e -> lastEvent p2 = Some e -> d1 = d2
}.

(** Every event that exists is the last event of a dialog, which will delete
    it: nothing is lost. *)
Definition noLeak (W : world) : Prop :=
  forall e, is_Some (events W !! e) ->
  exists d p, dialogs W !! d = Some p /\ lastEvent p = Some e.

Lemma priv_done W d p : dialogs W !! d = Some p -> priv W d = Done p.
Proof. unfold priv. by intros ->. Qed.

Lemma setPriv_lookup W d p : dialogs (setPriv W d p) !! d = Some p.
Proof. apply lookup_insert_eq. Qed.

(** ** Deleting a dialog *)

Lemma deleteFilterLoop_spec l : forall n W d p,
  (length l <= n)%nat -> dialogs W !! d = Some p -> eventFilterList p = l -> NoDup l ->
  (forall f, f ∈ l -> filters W !! f = Some d) ->
  deleteFilterLoop n W d =
    Done (setFilters (setPriv W d (setFilterList p [])) (removeAll l (filters W))).
Proof.
  induction l as [|f l IH] using rev_ind; intros n W d p Hn Hd Hl Hnd Hf.
  - destruct n; simpl; unfold priv; rewrite Hd; simpl; rewrite Hl; simpl; f_equal;
      unfold setFilters, setPriv, setDialogs; simpl;
      rewrite insert_id; [by destruct W| |by destruct W|]; rewrite Hd; f_equal; by destruct p; simplify_eq/=.
  - rewrite length_app in Hn. simpl in Hn. destruct n as [|n]; [lia|].
    simpl. unfold priv. rewrite Hd. simpl. rewrite Hl, last_snoc.
    unfold deleteEventFilter. rewrite (Hf f) by set_solver.
    unfold removeEventFilter, priv. rewrite Hd. simpl. rewrite Hl, filter_ne_app, app_nil_r by done.
    rewrite (IH n _ d (setFilterList p l)).
    + f_equal. unfold setFilters, setPriv, setDialogs. simpl. rewrite insert_insert_eq, removeAll_app.
      f_equal. apply map_eq. intros x. simpl. rewrite !lookup_removeAll.
      case_decide as Hx; destruct (decide (x = f)) as [->|];
        rewrite ?lookup_delete_eq, ?lookup_delete_ne, ?lookup_removeAll, ?decide_True, ?decide_False by done; done.
    + lia.
    + apply lookup_insert_eq.
    + done.
    + by apply list.NoDup_app in Hnd as [? _].
    + intros g Hg. simpl. apply list.NoDup_app in Hnd as (_ & Hdis & _).
      rewrite lookup_delete_ne; [apply Hf; set_solver|]. intros ->. apply (Hdis g Hg). left.
Qed.

Definition deleteOpt {A} (e : option nat) (m : gmap nat A) : gmap nat A :=
  match e with Some e => delete e m | None => m end.

(** The world after the topmost dialog is gone, with the widgets [h]. *)
Definition withoutTop (W : world) (d : nat) (p : YDialogPrivate) (h : heap) (rest : list nat) : world :=
  {| widgets := h; dialogs := delete d (dialogs W);
     filters := removeAll (eventFilterList p) (filters W);
     events := deleteOpt (lastEvent p) (events W); _nextSerial := _nextSerial W;
     _dialogStack := rest;
     trace := trace W ++ match rest with [] => [] | next :: _ => [Activate next] end |}.

Definition lastOk (W : world) (p : YDialogPrivate) : Prop :=
  forall e, lastEvent p = Some e -> exists ev, events W !! e = Some ev /\ isValid ev = true.

Lemma inv_lastOk W d p : inv W -> dialogs W !! d = Some p -> lastOk W p.
Proof.
  intros HW Hd e He. destruct (inv_last W HW d p e Hd He) as [ev Hev].
  exists ev. split; [done|]. by apply (inv_valid W HW e).
Qed.

Lemma deleteEvent_last W d p :
  dialogs W !! d = Some p -> lastOk W p ->
  deleteEvent W d (lastEvent p) =
    Done (setEvents (setPriv W d (setLastEvent p None)) (deleteOpt (lastEvent p) (events W)) (_nextSerial W)).
Proof.
  intros Hd Hok. unfold deleteEvent. rewrite (priv_done W d p Hd). cbn [obind].
  rewrite bool_decide_eq_true_2 by done. unfold lastOk in Hok.
  destruct (lastEvent p) as [e|]; [|by destruct W].
  destruct (Hok e eq_refl) as (ev & Hev & Hv). simpl. by rewrite Hev, Hv.
Qed.

Lemma deleteEventFilters_spec W d p :
  dialogs W !! d = Some p -> NoDup (eventFilterList p) ->
  (forall f, f ∈ eventFilterList p -> filters W !! f = Some d) ->
  deleteEventFilters W d =
    Done (setFilters (setPriv W d (setFilterList p [])) (removeAll (eventFilterList p) (filters W))).
Proof.
  intros Hd Hnd Hf. unfold deleteEventFilters. rewrite (priv_done W d p Hd). cbn [obind].
  by apply deleteFilterLoop_spec.
Qed.

Lemma deleteDialog_top W d rest :
  inv W -> _dialogStack W = d :: rest ->
  exists p h, dialogs W !! d = Some p /\ destroyWidget (widgets W) d = Done h /\
    deleteDialog W d = Done (withoutTop W d p h rest).
Proof.
  intros HW Hst. assert (Hin : d ∈ _dialogStack W) by (rewrite Hst; left).
  destruct (proj1 (inv_dialogs W HW d) Hin) as [p Hd].
  destruct (inv_widgets W HW d Hin) as (w & Hw & _ & Hp).
  destruct (two_phase_delete (widgets W) d w (inv_wf W HW) Hw Hp) as (h1 & h & E1 & E2 & E3).
  exists p, h. split; [done|]. split; [done|].
  unfold deleteDialog, deref at 1. rewrite Hw. cbn [obind].
  set (W1 := setWidgets W (<[d := setBeingDestroyed w]> (widgets W))).
  rewrite (priv_done W1 d p) by done. cbn [obind].
  set (W2 := setEvents (setPriv W1 d (setLastEvent p None)) (deleteOpt (lastEvent p) (events W)) (_nextSerial W)).
  assert (E : match lastEvent p with Some e => deleteEvent W1 d (Some e) | None => Done W1 end = Done W2).
  { destruct (lastEvent p) as [e|] eqn:El.
    - rewrite <- El, (deleteEvent_last W1 d p); [by rewrite El|done|]. by apply (inv_lastOk W d).
    - unfold W2, W1, setEvents, setPriv, setDialogs, setWidgets; simpl. do 2 f_equal.
      rewrite insert_id; [done|]. rewrite Hd. destruct p; simpl in *; by subst. }
  rewrite E. cbn [obind]. change (widgets W2) with (<[d := setBeingDestroyed w]> (widgets W)).
  assert (Hsz : size (<[d := setBeingDestroyed w]> (widgets W)) = size (widgets W))
    by (rewrite map_size_insert; by rewrite Hw).
  rewrite Hsz, E1. cbn [obind].
  rewrite (deleteEventFilters_spec _ d (setLastEvent p None)); [| | |].
  - cbn [obind]. unfold popDialog. simpl. rewrite Hst, bool_decide_eq_true_2 by done.
    destruct rest as [|next rest]; simpl; rewrite E2; simpl; unfold withoutTop, setWidgets; simpl;
      rewrite ?app_nil_r, !delete_insert_eq; done.
  - apply lookup_insert_eq.
  - exact (inv_filters W HW d p Hd).
  - intros f Hf. by apply (inv_filter_of W HW d p f Hd).
Qed.

(** A top-level widget survives the deletion of another widget. *)
Lemma destroyWidget_keeps h a h' x w :
  wf h -> is_Some (h !! a) -> destroyWidget h a = Done h' -> x <> a ->
  h !! x = Some w -> parent w = None ->
  exists w', h' !! x = Some w' /\ isYDialog w' = isYDialog w /\ parent w' = None.
Proof.
  intros Hwf [wa Ha] E Hne Hx Hp.
  destruct (destroyWidget_done h a wa Hwf Ha) as (t & h1 & Hr & Ht & E1 & _ & Hl).
  rewrite E1 in E. simplify_eq. rewrite Hl, decide_False.
  - rewrite Hx. by eexists.
  - intros Hin%(elem_of_addrs_below h _ _ _ Ht).
    inversion Hin as [|? y ? (w' & Hw' & Hp') _]; simplify_eq; congruence.
Qed.

Lemma inv_withoutTop W d rest p h :
  inv W -> _dialogStack W = d :: rest -> dialogs W !! d = Some p ->
  destroyWidget (widgets W) d = Done h -> inv (withoutTop W d p h rest).
Proof.
  intros HW Hst Hd Eh. pose proof (inv_stack W HW) as Hnd. rewrite Hst in Hnd.
  apply list.NoDup_cons in Hnd as [Hdr Hnd].
  assert (Hin : forall x, x ∈ rest -> x ∈ _dialogStack W) by (intros; rewrite Hst; by right).
  destruct (inv_widgets W HW d) as (wd & Hwd & _); [rewrite Hst; left|].
  assert (Hold : forall x px, delete d (dialogs W) !! x = Some px -> dialogs W !! x = Some px /\ x <> d)
    by (intros x px [? ?]%lookup_delete_Some; done).
  assert (Hev : forall x px e, delete d (dialogs W) !! x = Some px -> lastEvent px = Some e ->
    deleteOpt (lastEvent p) (events W) !! e = events W !! e).
  { intros x px e [Hx Hne]%Hold He. destruct (lastEvent p) as [e'|] eqn:Ep; [|done].
    simpl. apply lookup_delete_ne. intros ->. apply Hne. by eapply (inv_last_inj W HW). }
  assert (Hsub : forall e ev, deleteOpt (lastEvent p) (events W) !! e = Some ev -> events W !! e = Some ev).
  { intros e ev. destruct (lastEvent p); simpl; [|done]. by intros [? ?]%lookup_delete_Some. }
  split; simpl.
  - eapply destroyWidget_wf; [apply (inv_wf W HW)| |exact Eh]. by eexists.
  - done.
  - intros x. rewrite lookup_delete_is_Some, <- (inv_dialogs W HW x), Hst. set_solver.
  - intros x Hx. destruct (inv_widgets W HW x (Hin x Hx)) as (w & Hw & Hdw & Hp).
    destruct (destroyWidget_keeps (widgets W) d h x w) as (w' & ? & E & ?); try done.
    + apply (inv_wf W HW).
    + set_solver.
    + exists w'. by rewrite E.
  - intros x px [Hx _]%Hold. by eapply (inv_filters W HW).
  - intros x px f [Hx Hne]%Hold. rewrite (inv_filter_of W HW x px f Hx), lookup_removeAll.
    case_decide as Hf; [|done]. apply (inv_filter_of W HW d p f Hd) in Hf. split; [congruence|done].
  - intros f x. rewrite lookup_removeAll. case_decide as Hf; [done|]. intros Hx.
    rewrite lookup_delete_is_Some. split; [|by eapply (inv_filter_dialog W HW)].
    intros ->. apply Hf. by apply (inv_filter_of W HW x p f Hd).
  - intros e He. destruct (deleteOpt _ _ !! e) eqn:E; [|done]. apply Hsub in E.
    by rewrite (inv_serial W HW e He) in E.
  - intros e ev He%Hsub. by apply (inv_valid W HW e).
  - intros x px e Hx He. rewrite (Hev x px e) by done. apply Hold in Hx as [Hx _].
    by eapply (inv_last W HW).
  - intros d1 d2 p1 p2 e [H1 _]%Hold [H2 _]%Hold. by eapply (inv_last_inj W HW).
Qed.

(** Deleting the topmost dialog returns, keeps the invariant, and takes
    exactly that dialog off the stack. *)
Lemma deleteDialog_inv W d rest :
  inv W -> _dialogStack W = d :: rest ->
  exists W', deleteDialog W d = Done W' /\ inv W' /\ _dialogStack W' = rest /\
    dialogs W' = delete d (dialogs W) /\ destroyWidget (widgets W) d = Done (widgets W') /\
    trace W' = trace W ++ match rest with [] => [] | next :: _ => [Activate next] end /\
    (noLeak W -> noLeak W').
Proof.
  intros HW Hst. destruct (deleteDialog_top W d rest HW Hst) as (p & h & Hd & Eh & E).
  exists (withoutTop W d p h rest). split; [done|]. split; [by apply inv_withoutTop|].
  split; [done|]. split; [done|]. split; [done|]. split; [done|].
  intros Hnl e He. simpl in He |- *.
  assert (He' : is_Some (events W !! e) /\ lastEvent p <> Some e).
  { destruct (lastEvent p); simpl in He; [|done]. apply lookup_delete_is_Some in He as [? ?].
    split; [done|congruence]. }
  destruct He' as [He' Hne], (Hnl e He') as (x & q & Hq & Hl). exists x, q.
  split; [|done]. rewrite lookup_delete_ne; [done|]. intros ->. congruence.
Qed.

(** ** Deleting several dialogs *)

(** The effect on the widgets: what is below [d] is freed, freed memory stays
    free, and the trees of the other top-level widgets stay. *)
Lemma destroyWidget_effect h d w h' :
  wf h -> h !! d = Some w -> parent w = None -> destroyWidget h d = Done h' ->
  (forall y, below h d y -> h' !! y = None) /\
  (forall y, h !! y = None -> h' !! y = None) /\
  (forall x y v, h !! x = Some v -> parent v = None -> x <> d -> below h x y -> below h' x y).
Proof.
  intros Hwf Hd Hpd E. destruct (destroyWidget_done h d w Hwf Hd) as (t & h1 & Hr & Ht & E1 & _ & Hl).
  rewrite E1 in E. simplify_eq. split; [|split].
  - intros y Hy. rewrite Hl, decide_True; [done|]. by apply (elem_of_addrs h (parent w)).
  - intros y Hy. rewrite Hl, Hy. by case_decide.
  - intros x y v Hx Hp Hne Hb. induction Hb as [|y z x (vy & Hy & Hpy) Hb IH]; [apply rtc_refl|].
    eapply rtc_l; [|by apply IH]. exists (prune (addrs t) vy). split; [|done].
    rewrite Hl, decide_False, Hy; [done|]. intros Hin%(elem_of_addrs h (parent w) t y Hwf Ht).
    assert (Hxy : below h x y) by (eapply rtc_l; [by exists vy|done]).
    assert (Htop : forall a b va, h !! b = Some va -> parent va = None -> below h a b -> a = b).
    { intros a b va Hb' Hpb Hab. inversion Hab as [|? c ? (vb & Hvb & Hpvb) _]; [done|]. congruence. }
    apply Hne. destruct (below_linear h x (root t) y Hxy Hin) as [H|H]; [|symmetry]; eapply Htop; eauto.
Qed.

(** What is left after the dialogs [ds] on top of the stack are deleted. *)
Definition deletedDialogs (W W' : world) (ds rest : list nat) : Prop :=
  inv W' /\ _dialogStack W' = rest /\ dialogs W' = removeAll ds (dialogs W) /\
  (forall x y, x ∈ ds -> below (widgets W) x y -> widgets W' !! y = None) /\
  (forall y, widgets W !! y = None -> widgets W' !! y = None) /\
  (noLeak W -> noLeak W').

Lemma deletedDialogs_nil W : inv W -> deletedDialogs W W [] (_dialogStack W).
Proof. intros HW. split; [done|]. split; [done|]. split; [done|]. split; [set_solver|done]. Qed.

Lemma deletedDialogs_cons W W1 W' d ds rest :
  inv W -> _dialogStack W = d :: ds ++ rest ->
  _dialogStack W1 = ds ++ rest -> dialogs W1 = delete d (dialogs W) ->
  destroyWidget (widgets W) d = Done (widgets W1) -> (noLeak W -> noLeak W1) ->
  deletedDialogs W1 W' ds rest -> deletedDialogs W W' (d :: ds) rest.
Proof.
  intros HW Hst Hst1 Hd1 Ew Hnl (HW' & Hst' & Hd' & Hw' & Hn' & Hnl').
  destruct (inv_widgets W HW d) as (w & Hw & _ & Hp); [rewrite Hst; left|].
  destruct (destroyWidget_effect _ d w _ (inv_wf W HW) Hw Hp Ew) as (He1 & He2 & He3).
  split; [done|]. split; [done|]. split; [|split; [|split; [|auto]]].
  - rewrite Hd', Hd1. apply map_eq. intros x. simpl.
    destruct (decide (x = d)) as [->|];
      rewrite ?lookup_delete_eq, ?lookup_delete_ne, !lookup_removeAll,
        ?lookup_delete_eq, ?lookup_delete_ne by done; by case_decide.
  - intros x y [->|Hx]%elem_of_cons Hb; [by apply Hn', He1|].
    destruct (inv_widgets W HW x) as (wx & Hwx & _ & Hpx); [rewrite Hst; set_solver|].
    apply (Hw' x y Hx), (He3 x y wx); try done. intros ->.
    pose proof (inv_stack W HW) as Hnd. rewrite Hst in Hnd. apply list.NoDup_cons in Hnd as [? _].
    set_solver.
  - intros y Hy. by apply Hn', He2.
Qed.

Lemma deleteToLoop_found above : forall n W target rest,
  (length above < n)%nat -> inv W -> _dialogStack W = above ++ target :: rest ->
  exists W', deleteToLoop n W target = Done (W', true) /\
    deletedDialogs W W' (above ++ [target]) rest.
Proof.
  induction above as [|d above IH]; intros [|n] W target rest Hn HW Hst; simpl in Hn; try lia; simpl in *.
  - destruct (deleteDialog_inv W target rest HW Hst) as (W1 & E & HW1 & Hst1 & Hd1 & Ew & _ & Hnl).
    exists W1. rewrite Hst, E. cbn [obind]. rewrite bool_decide_eq_true_2 by done. split; [done|].
    eapply (deletedDialogs_cons W W1 W1 target [] rest); try done. rewrite <- Hst1.
    by apply deletedDialogs_nil.
  - destruct (deleteDialog_inv W d _ HW Hst) as (W1 & E & HW1 & Hst1 & Hd1 & Ew & _ & Hnl).
    rewrite Hst, E. cbn [obind]. rewrite bool_decide_eq_false_2.
    + destruct (IH n W1 target rest ltac:(lia) HW1 Hst1) as (W' & E' & HW'). exists W'. split; [done|].
      eapply (deletedDialogs_cons W W1); try done; rewrite <- ?app_assoc; done.
    + intros ->. pose proof (inv_stack W HW) as Hnd. rewrite Hst in Hnd.
      apply list.NoDup_cons in Hnd as [? _]. set_solver.
Qed.

Lemma deleteAll_spec ds : forall n W, (length ds <= n)%nat -> inv W -> _dialogStack W = ds ->
  (exists W', deleteAllLoop n W = Done W' /\ deletedDialogs W W' ds []) /\
  forall target, target ∉ ds ->
  exists W', deleteToLoop n W target = Done (W', false) /\ deletedDialogs W W' ds [].
Proof.
  induction ds as [|d ds IH]; intros n W Hn HW Hst.
  - pose proof (deletedDialogs_nil W HW) as H0. rewrite Hst in H0.
    split; [|intros target _]; exists W; destruct n; simpl; rewrite Hst; done.
  - simpl in Hn. destruct n as [|n]; [lia|].
    destruct (deleteDialog_inv W d ds HW Hst) as (W1 & E & HW1 & Hst1 & Hd1 & Ew & _ & Hnl).
    destruct (IH n W1 ltac:(lia) HW1 Hst1) as [(W2 & E2 & H2) Hto]. simpl. rewrite Hst, E. cbn [obind].
    assert (Hcons : forall W', deletedDialogs W1 W' ds [] -> deletedDialogs W W' (d :: ds) []).
    { intros W' H'. eapply (deletedDialogs_cons W W1); try done; by rewrite app_nil_r. }
    split; [by exists W2; auto|]. intros target Ht.
    destruct (Hto target) as (W' & E' & H'); [set_solver|]. exists W'.
    rewrite bool_decide_eq_false_2 by set_solver. auto.
Qed.

(** ** Opening a dialog *)

(** [W'] differs from [W] in the private data of one dialog and in the trace. *)
Definition touched (W W' : world) (this : nat) (p' : YDialogPrivate) : Prop :=
  widgets W' = widgets W /\ filters W' = filters W /\ events W' = events W /\
  _nextSerial W' = _nextSerial W /\ _dialogStack W' = _dialogStack W /\
  dialogs W' = <[this := p']> (dialogs W).

Definition sameEvents (p p' : YDialogPrivate) : Prop :=
  lastEvent p' = lastEvent p /\ eventFilterList p' = eventFilterList p.

Lemma inv_touched W W' this p p' :
  inv W -> dialogs W !! this = Some p -> touched W W' this p' -> sameEvents p p' -> inv W'.
Proof.
  intros HW Hd (Ew & Ef & Ee & Es & Est & Ed) [El Efl].
  assert (Hl : forall d q', dialogs W' !! d = Some q' -> exists q, dialogs W !! d = Some q /\
    lastEvent q' = lastEvent q /\ eventFilterList q' = eventFilterList q).
  { intros d q'. rewrite Ed. destruct (decide (d = this)) as [->|].
    - rewrite lookup_insert_eq. intros; simplify_eq. eauto.
    - rewrite lookup_insert_ne by done. eauto. }
  assert (Hs : forall d, is_Some (dialogs W' !! d) <-> is_Some (dialogs W !! d)).
  { intros d. rewrite Ed. destruct (decide (d = this)) as [->|].
    - rewrite lookup_insert_eq, Hd. split; by eexists.
    - by rewrite lookup_insert_ne. }
  split; unfold dialogWidget; rewrite ?Ew, ?Ef, ?Ee, ?Es, ?Est; try apply HW.
  - intros d. rewrite Hs. apply HW.
  - intros d q' (q & Hq & _ & ->)%Hl. by apply (inv_filters W HW d).
  - intros d q' f (q & Hq & _ & ->)%Hl. by apply (inv_filter_of W HW).
  - intros f d. rewrite Hs. apply HW.
  - intros d q' e (q & Hq & -> & _)%Hl. by apply (inv_last W HW d).
  - intros d1 d2 q1 q2 e (? & ? & -> & _)%Hl (? & ? & -> & _)%Hl. by apply (inv_last_inj W HW).
Qed.

Lemma doLayout_spec W this p :
  dialogs W !! this = Some p ->
  exists W', doLayout W this = Done W' /\ touched W W' this (setLayoutPass p 0) /\
    trace W' = trace W ++ SetSize this 1 :: (if multiPassLayout p then [SetSize this 2] else []).
Proof.
  intros Hd. unfold doLayout. rewrite (priv_done W this p Hd). cbn [obind].
  rewrite (priv_done _ this (setLayoutPass p 1)) by apply lookup_insert_eq. cbn [obind].
  destruct (multiPassLayout p) eqn:Em; simpl; rewrite Em.
  - rewrite (priv_done _ this (setLayoutPass (setLayoutPass p 1) 2)) by apply lookup_insert_eq.
    eexists. split; [done|]. unfold touched; simpl. rewrite !insert_insert_eq, <- app_assoc. done.
  - rewrite (priv_done _ this (setLayoutPass p 1)) by apply lookup_insert_eq.
    eexists. split; [done|]. unfold touched; simpl. rewrite !insert_insert_eq. done.
Qed.

(** [open()] on a dialog that is not open yet: check the shortcuts unless that
    is postponed, lay out, show. *)
Lemma open_spec W this p :
  dialogs W !! this = Some p ->
  exists W', open W this = Done W' /\
    touched W W' this (if isOpen p then p else setOpen (setLayoutPass p 0) true) /\
    trace W' = trace W ++
      (if isOpen p then []
       else (if shortcutCheckPostponed p then [] else [CheckShortcuts this]) ++
            SetSize this 1 :: (if multiPassLayout p then [SetSize this 2] else []) ++ [OpenInternal this]).
Proof.
  intros Hd. unfold open. rewrite (priv_done W this p Hd). cbn [obind].
  destruct (isOpen p) eqn:Eo.
  { exists W. rewrite app_nil_r. split; [done|]. split; [|done]. unfold touched.
    by rewrite insert_id. }
  unfold checkShortcuts. rewrite (priv_done W this p Hd). cbn [obind]. rewrite andb_true_r.
  set (W1 := if shortcutCheckPostponed p then W
             else setPriv (log W (CheckShortcuts this)) this (setPostponed p false)).
  assert (E : (if shortcutCheckPostponed p then Done W
               else Done (setPriv (log W (CheckShortcuts this)) this (setPostponed p false))) = Done W1)
    by (unfold W1; by destruct (shortcutCheckPostponed p)).
  cbn [negb]. rewrite E. cbn [obind].
  assert (H1 : touched W W1 this p).
  { unfold W1, touched. destruct (shortcutCheckPostponed p) eqn:Ep; simpl; rewrite ?insert_id; try done.
    rewrite Hd. f_equal. destruct p; simpl in *; by subst. }
  assert (Hd1 : dialogs W1 !! this = Some p).
  { destruct H1 as (_ & _ & _ & _ & _ & ->). apply lookup_insert_eq. }
  destruct (doLayout_spec W1 this p Hd1) as (W2 & E2 & H2 & T2). rewrite E2. cbn [obind].
  rewrite (priv_done _ this (setLayoutPass p 0)).
  2:{ destruct H2 as (_ & _ & _ & _ & _ & Hd2). simpl. rewrite Hd2. apply lookup_insert_eq. }
  eexists. split; [done|]. split.
  - destruct H1 as (? & ? & ? & ? & ? & Ed1), H2 as (? & ? & ? & ? & ? & Ed2).
    unfold touched; simpl. rewrite Ed2, Ed1, !insert_insert_eq. repeat split; congruence.
  - simpl. rewrite T2. unfold W1. destruct (shortcutCheckPostponed p); simpl; rewrite <- ?app_assoc; simpl;
      rewrite <- ?app_assoc; done.
Qed.

(** ** The response to one input *)

(** Whether [filterInvalidEvents()] lets an event of a dialog through: it has
    no widget, or its widget is valid and belongs to this dialog. *)
Definition belongs (h : heap) (this : nat) (ev : YEvent) : bool :=
  match (if isWidgetEvent ev then _widget ev else None) with
  | None => true
  | Some a =>
      match h !! a with
      | Some w => YWidget.isValid w
      | None => false
      end &&
      match findDialog (size h) h (Some a) with
      | Done (Some d) => bool_decide (d = this)
      | _ => false
      end
  end.

Section responses.
Context (filterEvent : nat -> YEvent -> FilterAction).

(** The event filters one after the other, on the event itself. *)
Fixpoint filtered (l : list nat) (ev : YEvent) : option YEvent :=
  match l with
  | [] => Some ev
  | f :: l' =>
      match filterEvent f ev with
      | Pass => filtered l' ev
      | Consume => None
      | Replace ev' => filtered l' ev'
      end
  end.

(** The event the application gets for one input of the plug-in, if any. *)
Definition response (h : heap) (l : list nat) (this : nat) (input : option YEvent) : option YEvent :=
  match input with
  | Some ev => if belongs h this ev then filtered l ev else None
  | None => None
  end.

(** Filters create valid events only. *)
Definition validFilters : Prop :=
  forall f ev ev', filterEvent f ev = Replace ev' -> isValid ev' = true.

Definition validInput (input : option YEvent) : Prop :=
  forall ev, input = Some ev -> isValid ev = true.

(** The widget of an event the plug-in delivers has not been deleted. *)
Definition liveInput (h : heap) (input : option YEvent) : Prop :=
  forall ev a, input = Some ev -> isWidgetEvent ev = true -> _widget ev = Some a -> is_Some (h !! a).

(** The calls to the plug-in while waiting for an event. *)
Definition waitCall (c : call) : Prop :=
  match c with WaitForEventInternal _ _ | Activate _ => True | _ => False end.

(** [W'] differs from [W] in the events and the trace: the events [evs] of
    [W] and, if there is one, the event [r] at [eo]. *)
Definition handled (evs : gmap nat YEvent) (W W' : world) (r : option YEvent) (eo : option nat) : Prop :=
  widgets W' = widgets W /\ dialogs W' = dialogs W /\ filters W' = filters W /\
  _dialogStack W' = _dialogStack W /\
  (forall x, (_nextSerial W' <= x)%nat -> events W' !! x = None) /\
  (exists calls, trace W' = trace W ++ calls /\ Forall waitCall calls) /\
  match r, eo with
  | Some ev, Some e => evs !! e = None /\ events W' = <[e := ev]> evs /\ isValid ev = true
  | None, None => events W' = evs
  | _, _ => False
  end.

(** The premises of a turn of the loop: the current event is not owned by the
    dialog. *)
Definition unowned (evs : gmap nat YEvent) (p : YDialogPrivate) : Prop :=
  forall x, lastEvent p = Some x -> is_Some (evs !! x).

Lemma trace_same (W W' : world) :
  trace W' = trace W -> exists calls, trace W' = trace W ++ calls /\ Forall waitCall calls.
Proof. intros ->. exists []. by rewrite app_nil_r. Qed.

Lemma deleteEvent_unowned W this p e ev evs :
  dialogs W !! this = Some p -> unowned evs p -> evs !! e = None ->
  events W !! e = Some ev -> isValid ev = true ->
  deleteEvent W this (Some e) = Done (setEvents W (delete e (events W)) (_nextSerial W)).
Proof.
  intros Hd Hu Hn He Hv. unfold deleteEvent. rewrite (priv_done W this p Hd). cbn [obind].
  rewrite bool_decide_eq_false_2.
  - by rewrite He, Hv.
  - intros E. destruct (Hu e (eq_sym E)) as [? ?]. congruence.
Qed.

Lemma callFilterLoop_none l W this : callFilterLoop filterEvent l W this None = Done (W, None).
Proof. by destruct l. Qed.

Lemma callFilterLoop_spec this p evs l : validFilters -> unowned evs p -> forall W e ev,
  dialogs W !! this = Some p -> evs !! e = None -> events W = <[e := ev]> evs ->
  isValid ev = true -> (forall x, (_nextSerial W <= x)%nat -> events W !! x = None) ->
  exists W' eo, callFilterLoop filterEvent l W this (Some e) = Done (W', eo) /\
    handled evs W W' (filtered l ev) eo.
Proof.
  intros Hvf Hu. induction l as [|f l IH]; intros W e ev Hd Hn He Hv Hs; simpl.
  - exists W, (Some e). unfold handled. repeat split; try done. by apply trace_same.
  - assert (Hlk : events W !! e = Some ev) by (rewrite He; apply lookup_insert_eq). rewrite Hlk.
    destruct (filterEvent f ev) as [| |ev'] eqn:Ef.
    + destruct (IH W e ev) as (W' & eo & E & H); eauto.
    + rewrite (deleteEvent_unowned W this p e ev evs) by done. cbn [obind].
      rewrite callFilterLoop_none. eexists _, _. split; [done|].
      repeat split; simpl; [|by apply trace_same|by rewrite He, delete_insert_id].
      intros x Hx. rewrite lookup_delete_None. auto.
    + set (W0 := setEvents W (<[_nextSerial W := ev']> (events W)) (S (_nextSerial W))).
      assert (Hne : e <> _nextSerial W).
      { intros ->. rewrite Hs in Hlk by lia. done. }
      assert (Hfree : evs !! _nextSerial W = None).
      { specialize (Hs (_nextSerial W) ltac:(lia)). rewrite He, lookup_insert_ne in Hs; done. }
      rewrite (deleteEvent_unowned W0 this p e ev evs); try done.
      2:{ unfold W0; simpl. rewrite lookup_insert_ne by done. done. }
      cbn [obind]. set (W1 := setEvents W0 _ _).
      destruct (IH W1 (_nextSerial W) ev') as (W' & eo & E & H); try done.
      * unfold W1, W0; simpl. rewrite He, insert_insert_ne, delete_insert_id by (by rewrite ?lookup_insert_ne).
        done.
      * by eapply Hvf.
      * unfold W1, W0; simpl. intros x Hx. rewrite lookup_delete_None. right.
        rewrite lookup_insert_ne by lia. apply Hs. lia.
      * exists W', eo. split; [done|]. exact H.
Qed.

Lemma filterInvalidEvents_spec W this p evs e ev :
  wf (widgets W) -> unowned evs p -> liveInput (widgets W) (Some ev) ->
  dialogs W !! this = Some p -> evs !! e = None -> events W = <[e := ev]> evs ->
  isValid ev = true -> (forall x, (_nextSerial W <= x)%nat -> events W !! x = None) ->
  exists W' eo, filterInvalidEvents W this (Some e) = Done (W', eo) /\
    if belongs (widgets W) this ev then W' = W /\ eo = Some e else handled evs W W' None eo.
Proof.
  intros Hwf Hu Hlive Hd Hn He Hv Hs. unfold filterInvalidEvents, belongs.
  assert (Hlk : events W !! e = Some ev) by (rewrite He; apply lookup_insert_eq). rewrite Hlk.
  destruct (if isWidgetEvent ev then _widget ev else None) as [a|] eqn:Ea; [|by exists W, (Some e)].
  assert (Hw : is_Some (widgets W !! a)).
  { destruct (isWidgetEvent ev) eqn:Ei; [by apply (Hlive ev)|done]. }
  assert (Hdel : forall V, widgets V = widgets W -> dialogs V = dialogs W -> filters V = filters W ->
    _dialogStack V = _dialogStack W -> events V = events W -> _nextSerial V = _nextSerial W ->
    (exists calls, trace V = trace W ++ calls /\ Forall waitCall calls) ->
    exists W', deleteEvent V this (Some e) = Done W' /\ handled evs W W' None None).
  { intros V E1 E2 E3 E4 E5 E6 E7. rewrite (deleteEvent_unowned V this p e ev evs) by first [done|congruence].
    eexists. split; [done|]. unfold handled; simpl. rewrite E5, E6.
    repeat split; try done.
    - intros x Hx. rewrite lookup_delete_None. auto.
    - by rewrite He, delete_insert_id. }
  unfold validWidget. destruct Hw as [w Hw]. rewrite Hw. cbn [obind].
  assert (Hlog : exists calls, trace (log W (Activate this)) = trace W ++ calls /\ Forall waitCall calls)
    by (exists [Activate this]; split; [done|by repeat constructor]).
  destruct (YWidget.isValid w); simpl.
  2:{ destruct (Hdel W) as (W' & -> & H); try done; [by apply trace_same|]. by exists W', None. }
  destruct (findDialog_done (widgets W) a w (size (widgets W)) Hwf Hw ltac:(lia)) as (d & -> & _).
  cbn [obind]. destruct d as [d|].
  - destruct (decide (d = this)) as [->|Hne].
    + rewrite !bool_decide_eq_true_2 by done. by exists W, (Some e).
    + rewrite !bool_decide_eq_false_2 by congruence.
      destruct (Hdel (log W (Activate this))) as (W' & -> & H); try done. by exists W', None.
  - rewrite bool_decide_eq_false_2 by done.
    destruct (Hdel (log W (Activate this))) as (W' & -> & H); try done. by exists W', None.
Qed.

Lemma handled_trans evs W W1 W' r eo :
  widgets W1 = widgets W -> dialogs W1 = dialogs W -> filters W1 = filters W ->
  _dialogStack W1 = _dialogStack W ->
  (exists calls, trace W1 = trace W ++ calls /\ Forall waitCall calls) ->
  handled evs W1 W' r eo -> handled evs W W' r eo.
Proof.
  unfold handled. intros -> -> -> -> (c1 & E1 & F1) (? & ? & ? & ? & ? & (c2 & E2 & F2) & ?).
  do 5 (split; [done|]). split; [|done]. exists (c1 ++ c2). split; [by rewrite E2, E1, app_assoc|].
  by apply Forall_app_2.
Qed.

Lemma handled_trace evs W W' r eo :
  handled evs W W' r eo -> exists calls, trace W' = trace W ++ calls /\ Forall waitCall calls.
Proof. intros (_ & _ & _ & _ & _ & H & _). exact H. Qed.

(** One turn: the response, and nothing else but the trace has changed. *)
Lemma handleInput_spec W this p input :
  validFilters -> validInput input -> liveInput (widgets W) input -> inv W ->
  dialogs W !! this = Some p ->
  exists W' eo, handleInput filterEvent W this input = Done (W', eo) /\
    handled (events W) W W' (response (widgets W) (eventFilterList p) this input) eo.
Proof.
  intros Hvf Hvi Hli HW Hd. unfold handleInput, deliver, newEvent, response. destruct input as [ev|].
  - set (W0 := setEvents W _ _). pose proof (inv_serial W HW) as Hs.
    assert (Hu : unowned (events W) p) by (intros x Hx; by apply (inv_last W HW this p)).
    assert (Hfree : events W !! _nextSerial W = None) by (apply Hs; lia).
    assert (Hs0 : forall x, (_nextSerial W0 <= x)%nat -> events W0 !! x = None).
    { intros x Hx. simpl in *. rewrite lookup_insert_ne by lia. apply Hs. lia. }
    destruct (filterInvalidEvents_spec W0 this p (events W) (_nextSerial W) ev)
      as (W1 & eo & -> & H1); try done; [apply (inv_wf W HW)|by apply Hvi|].
    cbn [obind]. change (widgets W0) with (widgets W) in H1. destruct (belongs (widgets W) this ev).
    + destruct H1 as [-> ->]. unfold callEventFilters. rewrite (priv_done W0 this p) by done. cbn [obind].
      destruct (callFilterLoop_spec this p (events W) (eventFilterList p) Hvf Hu W0 (_nextSerial W) ev)
        as (W' & eo & E & H); try done; [by apply Hvi|].
      exists W', eo. split; [done|]. by eapply handled_trans; [| | | | |exact H]; try done; apply trace_same.
    + destruct eo as [e|]; [by destruct H1 as (_ & _ & _ & _ & _ & _ & [])|].
      unfold callEventFilters. rewrite (priv_done W1 this p); [|destruct H1 as (_ & -> & _); done].
      cbn [obind]. rewrite callFilterLoop_none. exists W1, None. split; [done|].
      by eapply handled_trans; [| | | | |exact H1]; try done; apply trace_same.
  - unfold callEventFilters. cbn [filterInvalidEvents obind].
    rewrite (priv_done W this p) by done. cbn [obind].
    rewrite callFilterLoop_none. exists W, None. split; [done|]. repeat split; try done; [apply HW|by apply trace_same].
Qed.

Lemma inv_log W c : inv W -> inv (log W c).
Proof. intros []. by split. Qed.

(** Storing the response as the last event keeps the invariant. *)
Lemma inv_handled W W' this p r eo :
  inv W -> dialogs W !! this = Some p -> handled (events W) W W' r eo ->
  inv (setPriv W' this (setLastEvent p eo)).
Proof.
  intros HW Hd (Ew & Ed & Ef & Est & Hs & _ & Hr).
  assert (Hl : forall d q', <[this := setLastEvent p eo]> (dialogs W) !! d = Some q' ->
    d = this /\ q' = setLastEvent p eo \/ d <> this /\ dialogs W !! d = Some q').
  { intros d q'. destruct (decide (d = this)) as [->|].
    - rewrite lookup_insert_eq. intros; simplify_eq. by left.
    - rewrite lookup_insert_ne by done. by right. }
  assert (Hdom : forall d, is_Some (<[this := setLastEvent p eo]> (dialogs W) !! d) <-> is_Some (dialogs W !! d)).
  { intros d. rewrite lookup_insert_is_Some'. split; [|by right]. intros [<-|?]; [by eexists|done]. }
  assert (Hkeep : forall e, is_Some (events W !! e) -> is_Some (events W' !! e) /\ eo <> Some e).
  { intros e He. destruct r as [ev|], eo as [e'|]; try done; [|by rewrite Hr].
    destruct Hr as (Hfree & -> & _). assert (e' <> e) by (intros ->; rewrite Hfree in He; by destruct He).
    rewrite lookup_insert_ne by done. split; [done|congruence]. }
  split; unfold dialogWidget; simpl; rewrite ?Ew, ?Ed, ?Ef, ?Est; try apply HW.
  - intros d. rewrite Hdom. apply HW.
  - intros d q' [[-> ->]|[_ Hq]]%Hl; [exact (inv_filters W HW this p Hd)|by apply (inv_filters W HW d)].
  - intros d q' f [[-> ->]|[_ Hq]]%Hl;
      [exact (inv_filter_of W HW this p f Hd)|by apply (inv_filter_of W HW)].
  - intros f d. rewrite Hdom. apply HW.
  - done.
  - intros e ev He. destruct r as [rv|], eo as [e'|]; try done; [|rewrite Hr in He; by apply (inv_valid W HW e)].
    destruct Hr as (_ & Ee & Hv). rewrite Ee in He.
    apply lookup_insert_Some in He as [[_ <-]|[_ He]]; [done|by apply (inv_valid W HW e)].
  - intros d q' e [[-> ->]|[_ Hq]]%Hl He; [|by eapply Hkeep, (inv_last W HW d)].
    simpl in He. subst eo. destruct r as [rv|]; [|done]. destruct Hr as (_ & -> & _).
    rewrite lookup_insert_eq. by eexists.
  - intros d1 d2 q1 q2 e [[-> ->]|[_ H1]]%Hl [[-> ->]|[_ H2]]%Hl He1 He2; try done.
    + simpl in He1. by destruct (Hkeep e (inv_last W HW d2 q2 e H2 He2)).
    + simpl in He2. by destruct (Hkeep e (inv_last W HW d1 q1 e H1 He1)).
    + by eapply (inv_last_inj W HW).
Qed.

Lemma inv_handled_none W W' this p :
  inv W -> dialogs W !! this = Some p -> handled (events W) W W' None None -> inv W'.
Proof.
  intros HW Hd (Ew & Ed & Ef & Est & Hs & _ & Hr).
  split; unfold dialogWidget; rewrite ?Ew, ?Ed, ?Ef, ?Est, ?Hr; try apply HW. by rewrite <- Hr.
Qed.

Lemma waitLoop_spec this p timeout inputs : validFilters -> Forall validInput inputs -> forall W,
  Forall (liveInput (widgets W)) inputs -> inv W -> dialogs W !! this = Some p ->
  match firstSome (response (widgets W) (eventFilterList p) this) inputs with
  | None => waitLoop filterEvent inputs W this timeout = NoFuel
  | Some ev => exists W' e, waitLoop filterEvent inputs W this timeout = Done (W', e) /\
      handled (events W) W W' (Some ev) (Some e)
  end.
Proof.
  intros Hvf Hin. induction Hin as [|input inputs Hi Hin IH]; intros W Hli HW Hd; [done|].
  inversion_clear Hli as [|? ? Hl0 Hli']. cbn [firstSome waitLoop]. set (W0 := log W (WaitForEventInternal this timeout)).
  pose proof (inv_log W (WaitForEventInternal this timeout) HW) as HW0. fold W0 in HW0.
  assert (Hlog : exists calls, trace W0 = trace W ++ calls /\ Forall waitCall calls)
    by (exists [WaitForEventInternal this timeout]; split; [done|by repeat constructor]).
  destruct (handleInput_spec W0 this p input Hvf Hi Hl0 HW0 Hd) as (W1 & eo & -> & H1).
  change (widgets W0) with (widgets W) in H1. change (events W0) with (events W) in H1. cbn [obind].
  destruct (response (widgets W) (eventFilterList p) this input) as [ev|], eo as [e|];
    try (by destruct H1 as (_ & _ & _ & _ & _ & _ & [])).
  - exists W1, e. split; [done|]. by eapply handled_trans; [| | | | |exact H1].
  - pose proof H1 as (Ew & Ed & Ef & Est & _ & (cs & Et & Hcs) & Ee). simpl in Ew, Ed, Ef, Est.
    assert (HW1 : inv W1) by (by eapply (inv_handled_none W0); eauto).
    rewrite <- Ew, <- Ee in *. specialize (IH W1 Hli' HW1 ltac:(by rewrite Ed)).
    destruct (firstSome _ inputs) as [ev|]; [|done]. destruct IH as (W' & e & E & H).
    exists W', e. split; [done|]. eapply handled_trans; [| | | | |exact H]; try done.
    destruct Hlog as (cs0 & Et0 & Hcs0). exists (cs0 ++ cs).
    rewrite Et, Et0, app_assoc. split; [done|by apply Forall_app_2].
Qed.

(** Deleting an event that no dialog refers to keeps the invariant. *)
Lemma inv_deleteEvent W e :
  inv W -> (forall d q, dialogs W !! d = Some q -> lastEvent q <> Some e) ->
  inv (setEvents W (delete e (events W)) (_nextSerial W)).
Proof.
  intros HW Hun. split; simpl; try apply HW.
  - intros x Hx. rewrite lookup_delete_None. right. by apply HW.
  - intros x ev [_ Hx]%lookup_delete_Some. by apply (inv_valid W HW x).
  - intros d q x Hd Hx. rewrite lookup_delete_ne; [by apply (inv_last W HW d q)|].
    intros ->. by apply (Hun d q).
Qed.

Lemma handled_refl W : inv W -> handled (events W) W W None None.
Proof. intros HW. repeat split; try done; [apply HW|by apply trace_same]. Qed.

Lemma inv_deleteLast W this p :
  inv W -> dialogs W !! this = Some p ->
  inv (setEvents (setPriv W this (setLastEvent p None)) (deleteOpt (lastEvent p) (events W)) (_nextSerial W)).
Proof.
  intros HW Hd. pose proof (inv_handled W W this p None None HW Hd (handled_refl W HW)) as H.
  destruct (lastEvent p) as [e|] eqn:El; [|by destruct W]. apply (inv_deleteEvent _ e H).
  intros d q Hq He. simpl in Hq. apply lookup_insert_Some in Hq as [[<- <-]|[Hne Hq]]; [done|].
  apply Hne. by eapply (inv_last_inj W HW).
Qed.

(** The calls with which a dialog is shown before it waits for the first
    time: the shortcut check (unless it is postponed), one or two layout
    passes, the plug-in's own opening; then a postponed shortcut check. *)
Definition preparingCalls (p : YDialogPrivate) (this : nat) : list call :=
  (if isOpen p then []
   else (if shortcutCheckPostponed p then [] else [CheckShortcuts this]) ++
        SetSize this 1 :: (if multiPassLayout p then [SetSize this 2] else []) ++ [OpenInternal this]) ++
  (if shortcutCheckPostponed p then [CheckShortcuts this] else []).

(** The dialog is shown and its shortcuts are checked before it waits. *)
Lemma prepare_spec W this p :
  dialogs W !! this = Some p ->
  exists W1 W2 p1 p2, (if isOpen p then Done W else open W this) = Done W1 /\ priv W1 this = Done p1 /\
    (if shortcutCheckPostponed p1 then checkShortcuts W1 this true else Done W1) = Done W2 /\
    dialogs W2 !! this = Some p2 /\ touched W W1 this p1 /\ touched W W2 this p2 /\
    sameEvents p p1 /\ sameEvents p p2 /\
    isOpen p1 = true /\ isOpen p2 = true /\ shortcutCheckPostponed p2 = false /\
    trace W2 = trace W ++ preparingCalls p this.
Proof.
  intros Hd. destruct (open_spec W this p Hd) as (W1 & E1 & H1 & T1). unfold preparingCalls.
  assert (E1' : (if isOpen p then Done W else open W this) = Done W1).
  { destruct (isOpen p) eqn:Eo; [|done]. unfold open in E1. rewrite (priv_done W this p Hd) in E1.
    simpl in E1. by rewrite Eo in E1. }
  set (p1 := if isOpen p then p else setOpen (setLayoutPass p 0) true) in *.
  assert (Hs1 : sameEvents p p1 /\ isOpen p1 = true) by (unfold p1; by destruct (isOpen p) eqn:?).
  assert (Hd1 : dialogs W1 !! this = Some p1).
  { destruct H1 as (_ & _ & _ & _ & _ & ->). apply lookup_insert_eq. }
  assert (Epp : shortcutCheckPostponed p = shortcutCheckPostponed p1) by (unfold p1; by destruct (isOpen p)).
  rewrite app_assoc, <- T1, Epp.
  destruct Hs1 as [Hs1 Ho1]. destruct (shortcutCheckPostponed p1) eqn:Ep.
  - exists W1, (setPriv (log W1 (CheckShortcuts this)) this (setPostponed p1 false)), p1, (setPostponed p1 false).
    split; [done|]. split; [by apply priv_done|]. rewrite Ep. unfold checkShortcuts.
    rewrite (priv_done W1 this p1 Hd1). cbn [obind negb]. rewrite andb_false_r.
    split; [done|]. split; [apply lookup_insert_eq|]. split; [done|]. split; [|done].
    destruct H1 as (? & ? & ? & ? & ? & Ed1). unfold touched; simpl. rewrite Ed1, insert_insert_eq. done.
  - exists W1, W1, p1, p1. rewrite Ep, app_nil_r. split; [done|]. split; [by apply priv_done|]. done.
Qed.

End responses.

(** Not calling the filters without an event is an optimisation. *)
Lemma pollInput_handle filterEvent W this input r :
  handleInput filterEvent W this input = Done r ->
  (let '(W2, event) := deliver W input in
   let! (W3, event1) := filterInvalidEvents W2 this event in
   match event1 with
   | Some e => callEventFilters filterEvent W3 this (Some e)
   | None => Done (W3, None)
   end) = Done r.
Proof.
  unfold handleInput. destruct (deliver W input) as [W2 event].
  destruct (filterInvalidEvents W2 this event) as [[W3 [e|]]|e| |]; cbn [obind]; try done.
  unfold callEventFilters. destruct (priv W3 this); cbn [obind]; [|done..].
  by rewrite callFilterLoop_none.
Qed.

(** Replacing the last event of one dialog loses no event. *)
Lemma noLeak_replace W W' this p p' e ev :
  dialogs W !! this = Some p -> dialogs W' = <[this := p']> (dialogs W) -> lastEvent p' = Some e ->
  events W' = <[e := ev]> (deleteOpt (lastEvent p) (events W)) -> noLeak W -> noLeak W'.
Proof.
  intros Hd Ed El Ee Hnl x Hx. rewrite Ee in Hx. rewrite Ed. destruct (decide (x = e)) as [->|Hne].
  { exists this, p'. by rewrite lookup_insert_eq. }
  rewrite lookup_insert_ne in Hx by done.
  assert (Hx' : is_Some (events W !! x) /\ lastEvent p <> Some x).
  { destruct (lastEvent p) as [e0|]; simpl in Hx; [|done].
    apply lookup_delete_is_Some in Hx as [? ?]. split; [done|congruence]. }
  destruct Hx' as [Hx' Hlx]. destruct (Hnl x Hx') as (d & q & Hq & Hlq).
  exists d, q. split; [|done]. rewrite lookup_insert_ne; [done|]. intros ->. congruence.
Qed.

(** ** Creating dialogs, filters and widgets *)

Definition withFilter (W : world) (d f : nat) (p : YDialogPrivate) : world :=
  setPriv (setFilters W (<[f := d]> (filters W))) d (setFilterList p (eventFilterList p ++ [f])).

Lemma newEventFilter_spec W d f p :
  inv W -> dialogs W !! d = Some p -> filters W !! f = None ->
  newEventFilter W f (Some d) = Done (withFilter W d f p) /\ inv (withFilter W d f p).
Proof.
  intros HW Hd Hf.
  assert (Hfl : f ∉ eventFilterList p) by (rewrite (inv_filter_of W HW d p f Hd); congruence).
  split.
  { unfold newEventFilter, addEventFilter. cbn [obind]. rewrite (priv_done _ d p) by done. cbn [obind].
    by rewrite bool_decide_eq_false_2. }
  assert (Hl : forall x q', dialogs (withFilter W d f p) !! x = Some q' ->
    x = d /\ q' = setFilterList p (eventFilterList p ++ [f]) \/ x <> d /\ dialogs W !! x = Some q').
  { intros x q'. simpl. intros [[<- <-]|[? ?]]%lookup_insert_Some; auto. }
  assert (Hdom : forall x, is_Some (dialogs (withFilter W d f p) !! x) <-> is_Some (dialogs W !! x)).
  { intros x. simpl. rewrite lookup_insert_is_Some'. split; [|by right]. intros [<-|?]; [by eexists|done]. }
  split; try apply HW.
  - intros x. rewrite Hdom. apply HW.
  - intros x q' [[-> ->]|[_ Hq]]%Hl; [|by apply (inv_filters W HW x)]. simpl.
    apply list.NoDup_app. split; [by apply (inv_filters W HW d)|].
    split; [set_solver|apply NoDup_singleton].
  - intros x q' g [[-> ->]|[Hne Hq]]%Hl; simpl.
    + rewrite elem_of_app, list_elem_of_singleton, (inv_filter_of W HW d p g Hd), lookup_insert_Some.
      split; [|naive_solver]. intros [Hg| ->]; [right|by left]. split; [|done]. intros ->. congruence.
    + rewrite (inv_filter_of W HW x q' g Hq), lookup_insert_Some. split; [|naive_solver].
      intros Hg. right. split; [|done]. intros ->. congruence.
  - intros g x. rewrite Hdom. simpl. intros [[<- <-]|[_ Hg]]%lookup_insert_Some; [by eexists|].
    by apply (inv_filter_dialog W HW g).
  - intros x q' e [[-> ->]|[_ Hq]]%Hl; [by apply (inv_last W HW d p)|by apply (inv_last W HW x)].
  - intros d1 d2 q1 q2 e [[-> ->]|[_ H1]]%Hl [[-> ->]|[_ H2]]%Hl He1 He2; try done;
      [by apply (inv_last_inj W HW d d2 p q2 e)|by apply (inv_last_inj W HW d1 d q1 p e)
      |by apply (inv_last_inj W HW d1 d2 q1 q2 e)].
Qed.

(** The widgets may change as long as the dialogs' own widgets stay. *)
Lemma inv_setWidgets W h :
  inv W -> wf h -> (forall d, d ∈ _dialogStack W -> dialogWidget (setWidgets W h) d) ->
  inv (setWidgets W h).
Proof. intros HW Hwf Hd. split; try apply HW; done. Qed.

Lemma inv_dialog_live W d : inv W -> is_Some (dialogs W !! d) -> is_Some (widgets W !! d).
Proof.
  intros HW Hd. destruct (inv_widgets W HW d) as (w & Hw & _); [by apply (inv_dialogs W HW)|by eexists].
Qed.

Lemma newWidget_keeps h a par dialog cls h' x w :
  h !! a = None -> (forall p, par = Some p -> is_Some (h !! p)) ->
  newWidget h a par dialog cls = Done h' -> h !! x = Some w ->
  exists w', h' !! x = Some w' /\ isYDialog w' = isYDialog w /\ parent w' = parent w.
Proof.
  intros Hf Hp E Hx. apply newWidget_done in E; [|done..]. assert (x <> a) by congruence.
  destruct par as [p|]; [destruct E as (pw & m & Hpw & _ & ->)|subst]; rewrite lookup_insert_ne by done.
  - destruct (decide (x = p)) as [->|]; [|rewrite lookup_insert_ne by done; by exists w].
    rewrite lookup_insert_eq. simplify_eq. by eexists.
  - by exists w.
Qed.

(** Pushing a new dialog. *)
Lemma inv_push W this h p :
  inv W -> widgets W !! this = None ->
  newWidget (widgets W) this None true YSingleWidgetChildManager = Done h ->
  eventFilterList p = [] -> lastEvent p = None ->
  inv (setStack (setPriv (setWidgets W h) this p) (this :: _dialogStack W)).
Proof.
  intros HW Hfree E Hfl Hl.
  assert (Hnd : dialogs W !! this = None).
  { destruct (dialogs W !! this) eqn:Ed; [|done].
    destruct (inv_dialog_live W this HW) as [? ?]; [by eexists|congruence]. }
  assert (Hlk : forall x q, <[this := p]> (dialogs W) !! x = Some q ->
    x = this /\ q = p \/ x <> this /\ dialogs W !! x = Some q).
  { intros x q [[<- <-]|[? ?]]%lookup_insert_Some; auto. }
  split; simpl; try apply HW.
  - by apply (newWidget_wf (widgets W) this None true YSingleWidgetChildManager h (inv_wf W HW)).
  - apply list.NoDup_cons. split; [|apply HW]. rewrite (inv_dialogs W HW this), Hnd. by intros [].
  - intros d. rewrite elem_of_cons, lookup_insert_is_Some', (inv_dialogs W HW d). naive_solver.
  - intros d [->|Hd]%elem_of_cons.
    + apply newWidget_done in E; [|done..]. subst h. eexists. simpl. by rewrite lookup_insert_eq.
    + destruct (inv_widgets W HW d Hd) as (w & Hw & Hy & Hp).
      destruct (newWidget_keeps (widgets W) this None true YSingleWidgetChildManager h d w) as (w' & ? & ? & ?);
        try done. exists w'. simpl. split; [done|]. by split; congruence.
  - intros x q [[-> ->]|[_ Hq]]%Hlk; [rewrite Hfl; constructor|by apply (inv_filters W HW x)].
  - intros x q f [[-> ->]|[_ Hq]]%Hlk; [|by apply (inv_filter_of W HW)]. rewrite Hfl. split; [set_solver|].
    intros Hf. destruct (inv_filter_dialog W HW f this Hf). congruence.
  - intros f d Hf. rewrite lookup_insert_is_Some'. right. by apply (inv_filter_dialog W HW f).
  - intros x q e [[-> ->]|[_ Hq]]%Hlk; [congruence|by apply (inv_last W HW x)].
  - intros d1 d2 q1 q2 e [[-> ->]|[_ H1]]%Hlk [[-> ->]|[_ H2]]%Hlk; try congruence.
    by apply (inv_last_inj W HW).
Qed.

Lemma newDialog_inv W this help relNotes type color :
  inv W -> widgets W !! this = None -> filters W !! help = None -> filters W !! relNotes = None ->
  help <> relNotes ->
  exists W', newDialog W this help relNotes type color = Done W' /\ inv W' /\
    _dialogStack W' = this :: _dialogStack W /\
    dialogs W' = <[this := setFilterList (newPriv type color) [help; relNotes]]> (dialogs W) /\
    events W' = events W.
Proof.
  intros HW Hfree Hh Hr Hne. unfold newDialog.
  destruct (newWidget (widgets W) this None true YSingleWidgetChildManager) as [h|e| |] eqn:E;
    try (unfold newWidget, construct, setChildrenManager, deref in E; simpl in E;
         by rewrite lookup_insert_eq in E).
  cbn [obind]. set (W2 := setStack _ _).
  pose proof (inv_push W this h (newPriv type color) HW Hfree E eq_refl eq_refl) as HW2.
  change (inv W2) in HW2.
  destruct (newEventFilter_spec W2 this help (newPriv type color) HW2 (lookup_insert_eq _ _ _) Hh) as [-> HW3].
  cbn [obind]. set (W3 := withFilter _ _ _ _) in *.
  destruct (newEventFilter_spec W3 this relNotes (setFilterList (newPriv type color) [help]) HW3) as [-> HW4].
  - apply lookup_insert_eq.
  - simpl. by rewrite lookup_insert_ne.
  - eexists. split; [done|]. split; [done|]. simpl. rewrite !insert_insert_eq. done.
Qed.

Lemma deleteEventFilter_inv W f d :
  inv W -> filters W !! f = Some d -> exists W', deleteEventFilter W f = Done W' /\ inv W'.
Proof.
  intros HW Hf. destruct (inv_filter_dialog W HW f d Hf) as [p Hd].
  unfold deleteEventFilter, removeEventFilter. rewrite Hf, (priv_done W d p Hd). cbn [obind].
  eexists. split; [done|].
  assert (Hl : forall x q', <[d := setFilterList p (filter (fun g => g <> f) (eventFilterList p))]> (dialogs W) !! x
    = Some q' -> x = d /\ q' = setFilterList p (filter (fun g => g <> f) (eventFilterList p)) \/
                x <> d /\ dialogs W !! x = Some q').
  { intros x q' [[<- <-]|[? ?]]%lookup_insert_Some; auto. }
  split; simpl; try apply HW.
  - intros x. rewrite (inv_dialogs W HW x), lookup_insert_is_Some'. split; [by right|].
    intros [<-|?]; [by eexists|done].
  - intros x q' [[-> ->]|[_ Hq]]%Hl; [|by apply (inv_filters W HW x)]. simpl.
    apply list.NoDup_filter. by apply (inv_filters W HW d).
  - intros x q' g [[-> ->]|[Hne Hq]]%Hl; simpl.
    + rewrite list_elem_of_filter, (inv_filter_of W HW d p g Hd), lookup_delete_Some. naive_solver.
    + rewrite (inv_filter_of W HW x q' g Hq), lookup_delete_Some. split; [|tauto].
      intros Hg. split; [|done]. intros ->. congruence.
  - intros g x [_ Hg]%lookup_delete_Some. rewrite lookup_insert_is_Some'. right.
    by apply (inv_filter_dialog W HW g).
  - intros x q' e [[-> ->]|[_ Hq]]%Hl; [by apply (inv_last W HW d p)|by apply (inv_last W HW x)].
  - intros d1 d2 q1 q2 e [[-> ->]|[_ H1]]%Hl [[-> ->]|[_ H2]]%Hl He1 He2; try done;
      [by apply (inv_last_inj W HW d d2 p q2 e)|by apply (inv_last_inj W HW d1 d q1 p e)
      |by apply (inv_last_inj W HW d1 d2 q1 q2 e)].
Qed.

(** ** The two ways to get an event *)

Lemma waitForEvent_spec filterEvent W this rest p timeout inputs :
  inv W -> _dialogStack W = this :: rest -> dialogs W !! this = Some p ->
  validFilters filterEvent -> Forall validInput inputs -> Forall (liveInput (widgets W)) inputs ->
  match firstSome (response filterEvent (widgets W) (eventFilterList p) this) inputs with
  | None => waitForEvent filterEvent W this timeout inputs = NoFuel
  | Some ev => exists W' e p' calls, waitForEvent filterEvent W this timeout inputs = Done (W', e) /\
      inv W' /\ dialogs W' = <[this := p']> (dialogs W) /\
      isOpen p' = true /\ shortcutCheckPostponed p' = false /\ lastEvent p' = Some e /\
      events W' = <[e := ev]> (deleteOpt (lastEvent p) (events W)) /\
      trace W' = trace W ++ preparingCalls p this ++ calls /\ Forall waitCall calls /\
      (noLeak W -> noLeak W')
  end.
Proof.
  intros HW Hst Hd Hvf Hin Hli. unfold waitForEvent, isTopmostDialog.
  rewrite Hst, bool_decide_eq_true_2 by done. cbn [negb]. rewrite (priv_done W this p Hd). cbn [obind].
  destruct (prepare_spec W this p Hd) as (W1 & W2 & p1 & p2 & -> & E1 & E2 & Hd2 & _ & H2 & _ & Hs2 & _ & Ho2 & Hp2 & T2).
  cbn [obind]. rewrite E1. cbn [obind]. rewrite E2. cbn [obind]. rewrite (priv_done W2 this p2 Hd2). cbn [obind].
  pose proof (inv_touched W W2 this p p2 HW Hd H2 Hs2) as HW2.
  rewrite (deleteEvent_last W2 this p2 Hd2 (inv_lastOk W2 this p2 HW2 Hd2)). cbn [obind].
  set (W3 := setEvents _ _ _). pose proof (inv_deleteLast W2 this p2 HW2 Hd2) as HW3. fold W3 in HW3.
  assert (Hd3 : dialogs W3 !! this = Some (setLastEvent p2 None)) by apply lookup_insert_eq.
  destruct H2 as (Ew & Ef & Ee & Es & Est & Ed). destruct Hs2 as [El Efl].
  pose proof (waitLoop_spec filterEvent this (setLastEvent p2 None) (if (timeout <? 0)%Z then 0%Z else timeout) inputs Hvf Hin W3) as HL.
  assert (Ew3 : widgets W3 = widgets W) by done. rewrite Ew3 in HL. specialize (HL Hli HW3 Hd3).
  change (eventFilterList (setLastEvent p2 None)) with (eventFilterList p2) in HL. rewrite Efl in HL.
  destruct (firstSome _ inputs) as [ev|]; [|by rewrite HL].
  destruct HL as (W4 & e & -> & H4). cbn [obind].
  assert (Hd4 : dialogs W4 !! this = Some (setLastEvent p2 None)) by (destruct H4 as (_ & -> & _); done).
  rewrite (priv_done W4 this _ Hd4). cbn [obind].
  destruct (handled_trace _ _ _ _ _ H4) as (calls & T4 & Hc4).
  exists (setPriv W4 this (setLastEvent (setLastEvent p2 None) (Some e))), e, (setLastEvent p2 (Some e)), calls.
  split; [done|]. split; [by eapply (inv_handled W3)|].
  assert (Edn : <[this := setLastEvent p2 (Some e)]> (dialogs W4) = <[this := setLastEvent p2 (Some e)]> (dialogs W)).
  { destruct H4 as (_ & -> & _). simpl. by rewrite Ed, !insert_insert_eq. }
  split; [exact Edn|]. split; [done|]. split; [done|]. split; [done|].
  assert (Een : events W4 = <[e := ev]> (deleteOpt (lastEvent p) (events W))).
  { destruct H4 as (_ & _ & _ & _ & _ & _ & _ & -> & _). simpl. by rewrite El, Ee. }
  split; [exact Een|]. split; [simpl; by rewrite T4; simpl; rewrite T2, app_assoc|]. split; [done|].
  by apply (noLeak_replace W _ this p (setLastEvent p2 (Some e)) e ev).
Qed.

(** Only the inputs that are really read matter, and reading the event of a
    deleted widget is undefined. *)
Lemma deleteEvent_widgets W this e W' : deleteEvent W this e = Done W' -> widgets W' = widgets W.
Proof.
  unfold deleteEvent. destruct (priv W this) as [p| | |]; simpl; [|done..].
  destruct (bool_decide (e = lastEvent p)), e as [e|]; intros; simplify_eq; try done;
    repeat case_match; by simplify_eq.
Qed.

Lemma callFilterLoop_widgets filterEvent l : forall W this eo W' eo',
  callFilterLoop filterEvent l W this eo = Done (W', eo') -> widgets W' = widgets W.
Proof.
  induction l as [|f l IH]; intros W this [e|] W' eo'; simpl; intros E; try by simplify_eq.
  destruct (events W !! e) as [ev|]; [|done]. destruct (filterEvent f ev) as [| |ev'].
  - by eapply IH.
  - destruct (deleteEvent W this (Some e)) as [W1| | |] eqn:E1; simpl in E; try done.
    apply deleteEvent_widgets in E1. rewrite <- E1. by eapply IH.
  - destruct (deleteEvent _ this (Some e)) as [W1| | |] eqn:E1; simpl in E; try done.
    apply deleteEvent_widgets in E1. simpl in E1. rewrite <- E1. by eapply IH.
Qed.

Lemma filterInvalidEvents_live W this e ev W' eo :
  events W !! e = Some ev -> filterInvalidEvents W this (Some e) = Done (W', eo) ->
  liveInput (widgets W) (Some ev) /\ widgets W' = widgets W.
Proof.
  intros He. unfold filterInvalidEvents. rewrite He.
  destruct (if isWidgetEvent ev then _widget ev else None) as [a|] eqn:Ea.
  2:{ intros [= <- <-]. split; [|done]. intros ev' a [= <-] Hi Ha. rewrite Hi in Ea. congruence. }
  unfold validWidget. destruct (widgets W !! a) as [w|] eqn:Ew; simpl; [|done].
  intros E. split.
  { intros ev' a' [= <-] Hi Ha. rewrite Hi in Ea. simplify_eq. by eexists. }
  destruct (YWidget.isValid w); simpl in E.
  - destruct (findDialog _ _ _) as [d| | |]; simpl in E; try done. case_bool_decide; [by simplify_eq|].
    destruct (deleteEvent _ _ _) as [W1| | |] eqn:E1; simplify_eq/=. by apply deleteEvent_widgets in E1.
  - destruct (deleteEvent _ _ _) as [W1| | |] eqn:E1; simplify_eq/=. by apply deleteEvent_widgets in E1.
Qed.

Lemma handleInput_live filterEvent W this input W' eo :
  handleInput filterEvent W this input = Done (W', eo) ->
  liveInput (widgets W) input /\ widgets W' = widgets W.
Proof.
  unfold handleInput, deliver, newEvent. intros E.
  assert (Hcall : forall W1 eo1, callEventFilters filterEvent W1 this eo1 = Done (W', eo) ->
            widgets W' = widgets W1).
  { intros W1 eo1. unfold callEventFilters. destruct (priv W1 this); simpl; [|done..].
    apply callFilterLoop_widgets. }
  destruct input as [ev|]; [|split; [done|by apply Hcall in E]].
  set (W0 := setEvents W _ _) in E.
  destruct (filterInvalidEvents W0 this _) as [[W1 eo1]| | |] eqn:E1; simpl in E; try done.
  apply (filterInvalidEvents_live W0 this (_nextSerial W) ev) in E1 as [Hl E1]; [|apply lookup_insert_eq].
  split; [done|]. rewrite (Hcall _ _ E). done.
Qed.

Lemma waitLoop_live filterEvent this timeout inputs : Forall validInput inputs -> forall W r,
  waitLoop filterEvent inputs W this timeout = Done r ->
  exists inputs', Forall validInput inputs' /\ Forall (liveInput (widgets W)) inputs' /\
    waitLoop filterEvent inputs' W this timeout = Done r.
Proof.
  induction 1 as [|input inputs Hi Hin IH]; intros W r E; [done|]. cbn [waitLoop] in E.
  destruct (handleInput _ _ _ _) as [[W1 [e|]]| | |] eqn:E1; simpl in E; try done.
  - destruct (handleInput_live _ _ _ _ _ _ E1) as [Hl _]. exists [input].
    split; [by repeat constructor|]. split; [by repeat constructor|]. cbn [waitLoop]. by rewrite E1.
  - destruct (handleInput_live _ _ _ _ _ _ E1) as [Hl Ew]. simpl in Ew.
    destruct (IH W1 r E) as (inputs' & H1 & H2 & H3). rewrite Ew in H2. exists (input :: inputs').
    split; [by constructor|]. split; [by constructor|]. cbn [waitLoop]. by rewrite E1.
Qed.

Lemma waitForEvent_live filterEvent W this p timeout inputs r :
  dialogs W !! this = Some p -> Forall validInput inputs ->
  waitForEvent filterEvent W this timeout inputs = Done r ->
  exists inputs', Forall validInput inputs' /\ Forall (liveInput (widgets W)) inputs' /\
    waitForEvent filterEvent W this timeout inputs' = Done r.
Proof.
  intros Hd Hin. unfold waitForEvent. destruct (negb _); [done|].
  rewrite (priv_done W this p Hd). cbn [obind].
  destruct (prepare_spec W this p Hd) as (W1 & W2 & p1 & p2 & -> & E1 & E2 & Hd2 & _ & H2 & _).
  cbn [obind]. rewrite E1. cbn [obind]. rewrite E2. cbn [obind]. rewrite (priv_done W2 this p2 Hd2). cbn [obind].
  destruct (deleteEvent W2 this (lastEvent p2)) as [W3| | |] eqn:E3; cbn [obind]; [|done..]. intros E.
  apply deleteEvent_widgets in E3. destruct H2 as (Ew & _). rewrite Ew in E3.
  destruct (waitLoop _ inputs _ _ _) as [[W4 e]| | |] eqn:E4; cbn [obind] in E; [|done..].
  apply waitLoop_live in E4 as (inputs' & H1 & Hl & E4); [|done]. rewrite E3 in Hl.
  exists inputs'. split; [done|]. split; [done|]. rewrite E4. exact E.
Qed.

Lemma pollEvent_live filterEvent W this p input r :
  dialogs W !! this = Some p -> pollEvent filterEvent W this input = Done r ->
  liveInput (widgets W) input.
Proof.
  intros Hd. unfold pollEvent. destruct (negb _); [done|].
  rewrite (priv_done W this p Hd). cbn [obind].
  destruct (prepare_spec W this p Hd) as (W1 & _ & p1 & _ & -> & _ & _ & _ & (Ew & _) & _).
  cbn [obind]. destruct input as [ev|]; [|done]. unfold deliver, newEvent.
  set (W2 := setEvents _ _ _).
  destruct (filterInvalidEvents W2 this _) as [[W3 eo]| | |] eqn:E; cbn [obind]; [|done..]. intros _.
  apply (filterInvalidEvents_live W2 this _ ev) in E as [Hl _]; [|apply lookup_insert_eq].
  by rewrite <- Ew.
Qed.

Lemma pollEvent_spec filterEvent W this rest p input :
  inv W -> _dialogStack W = this :: rest -> dialogs W !! this = Some p ->
  validFilters filterEvent -> validInput input -> liveInput (widgets W) input ->
  exists W' eo p', pollEvent filterEvent W this input = Done (W', eo) /\
    inv W' /\ dialogs W' = <[this := p']> (dialogs W) /\ isOpen p' = true /\ lastEvent p' = eo /\
    match eo with Some e => events W' !! e | None => None end =
      response filterEvent (widgets W) (eventFilterList p) this input /\
    forall e, lastEvent p = Some e ->
      is_Some (events W' !! e) /\ forall d q, dialogs W' !! d = Some q -> lastEvent q <> Some e.
Proof.
  intros HW Hst Hd Hvf Hin Hli. unfold pollEvent, isTopmostDialog.
  rewrite Hst, bool_decide_eq_true_2 by done. cbn [negb]. rewrite (priv_done W this p Hd). cbn [obind].
  destruct (prepare_spec W this p Hd) as (W1 & _ & p1 & _ & -> & _ & _ & _ & H1 & _ & Hs1 & _ & Ho1 & _).
  cbn [obind]. pose proof (inv_touched W W1 this p p1 HW Hd H1 Hs1) as HW1.
  destruct H1 as (Ew & Ef & Ee & Es & Est & Ed). destruct Hs1 as [El Efl].
  set (W2 := log W1 (PollEventInternal this)). apply inv_log with (c := PollEventInternal this) in HW1. fold W2 in HW1.
  assert (Hd2 : dialogs W2 !! this = Some p1) by (simpl; rewrite Ed; apply lookup_insert_eq).
  destruct (handleInput_spec filterEvent W2 this p1 input Hvf Hin ltac:(by rewrite <- Ew in Hli) HW1 Hd2) as (W4 & eo & E & H4).
  apply pollInput_handle in E. destruct (deliver W2 input) as [W3 event].
  destruct (filterInvalidEvents W3 this event) as [[W3' event1]|? | |]; cbn [obind] in E |- *; try done.
  rewrite E. cbn [obind]. pose proof H4 as (Ew4 & Ed4 & _ & _ & _ & _ & Hr).
  rewrite (priv_done W4 this p1) by (by rewrite Ed4). cbn [obind].
  pose proof (inv_handled W2 W4 this p1 _ eo HW1 Hd2 H4) as HW4.
  exists (setPriv W4 this (setLastEvent p1 eo)), eo, (setLastEvent p1 eo).
  split; [done|]. split; [done|]. simpl. rewrite Ed4. simpl. rewrite Ed, insert_insert_eq.
  split; [done|]. split; [done|]. split; [done|].
  change (widgets W2) with (widgets W1) in Hr. change (events W2) with (events W1) in Hr.
  rewrite Ew, Efl, Ee in Hr. split.
  - clear -Hr. revert Hr. destruct (response _ _ _ _ _) as [ev|], eo as [e|]; try done.
    intros (_ & -> & _). apply lookup_insert_eq.
  - intros e He. pose proof (inv_last W HW this p e Hd He) as Hev.
    assert (Hkeep : is_Some (events W4 !! e) /\ eo <> Some e).
    { clear -Hr Hev. revert Hr.
      destruct (response _ _ _ _ _) as [ev|], eo as [e'|]; try done; [|by intros ->].
      intros (Hfree & -> & _). assert (e' <> e) by (intros ->; rewrite Hfree in Hev; by destruct Hev).
      rewrite lookup_insert_ne by done. split; [done|congruence]. }
    split; [apply Hkeep|]. intros d q [[<- <-]|[Hne Hq]]%lookup_insert_Some; [apply Hkeep|].
    intros Hl. apply Hne. by eapply (inv_last_inj W HW).
Qed.

(** ** Reachable worlds *)

Definition initial : world :=
  {| widgets := ∅; dialogs := ∅; filters := ∅; events := ∅; _nextSerial := 0;
     _dialogStack := []; trace := [] |}.

Lemma inv_initial : inv initial.
Proof.
  split; simpl; try (intros *; rewrite ?lookup_empty; done); try apply wf_empty; try constructor;
    try set_solver; intros *; rewrite lookup_empty; by intros [].
Qed.

(** What an application does with its dialogs, in any order. [poll] says
    whether [pollEvent()] is used. *)
Inductive step (poll : bool) : world -> world -> Prop :=
| step_newDialog W this help relNotes type color W' :
    widgets W !! this = None -> filters W !! help = None -> filters W !! relNotes = None ->
    help <> relNotes -> newDialog W this help relNotes type color = Done W' -> step poll W W'
| step_newWidget W a par cls h :
    widgets W !! a = None -> (forall p, par = Some p -> is_Some (widgets W !! p)) ->
    newWidget (widgets W) a par false cls = Done h -> step poll W (setWidgets W h)
| step_deleteWidget W a w h :
    widgets W !! a = Some w -> isYDialog w = false ->
    destroyWidget (widgets W) a = Done h -> step poll W (setWidgets W h)
| step_deleteChildren W a h :
    is_Some (widgets W !! a) ->
    destroyChildren (widgets W) a = Done h -> step poll W (setWidgets W h)
| step_destroy W this doThrow W' b :
    destroy W this doThrow = Done (W', b) -> step poll W W'
| step_deleteTopmost W doThrow W' b :
    deleteTopmostDialog W doThrow = Done (W', b) -> step poll W W'
| step_deleteTo W target W' e :
    deleteTo W target = Done (W', e) -> step poll W W'
| step_deleteAll W W' :
    deleteAllDialogs W = Done W' -> step poll W W'
| step_newFilter W f d W' :
    is_Some (dialogs W !! d) -> filters W !! f = None ->
    newEventFilter W f (Some d) = Done W' -> step poll W W'
| step_deleteFilter W f W' :
    is_Some (filters W !! f) -> deleteEventFilter W f = Done W' -> step poll W W'
| step_open W this W' :
    is_Some (dialogs W !! this) -> open W this = Done W' -> step poll W W'
| step_postpone W this W' :
    is_Some (dialogs W !! this) -> postponeShortcutCheck W this = Done W' -> step poll W W'
| step_wait W filterEvent this timeout inputs W' e :
    validFilters filterEvent -> Forall validInput inputs ->
    waitForEvent filterEvent W this timeout inputs = Done (W', e) -> step poll W W'
| step_poll W filterEvent this input W' e :
    poll = true -> validFilters filterEvent -> validInput input ->
    pollEvent filterEvent W this input = Done (W', e) -> step poll W W'.

Lemma topmost_inv W this : isTopmostDialog W this = true -> exists rest, _dialogStack W = this :: rest.
Proof.
  unfold isTopmostDialog. destruct (_dialogStack W) as [|d rest]; [done|].
  intros ->%bool_decide_eq_true. eauto.
Qed.

Definition good (poll : bool) (W : world) : Prop := inv W /\ (poll = false -> noLeak W).

Lemma deletedDialogs_good poll W W' ds rest :
  good poll W -> deletedDialogs W W' ds rest -> good poll W'.
Proof. intros [_ Hnl] (HW' & _ & _ & _ & _ & H). split; auto. Qed.

Lemma deleteTop_good poll W d rest W' :
  good poll W -> _dialogStack W = d :: rest -> deleteDialog W d = Done W' -> good poll W'.
Proof.
  intros [HW Hl] Hst E. destruct (deleteDialog_inv W d rest HW Hst) as (W1 & E1 & HW1 & _ & _ & _ & _ & Hnl).
  rewrite E1 in E. simplify_eq. split; auto.
Qed.

(** The widgets change, the dialogs' own widgets stay. *)
Lemma setWidgets_good poll W h :
  good poll W -> wf h ->
  (forall x w, widgets W !! x = Some w -> isYDialog w = true -> parent w = None ->
     exists w', h !! x = Some w' /\ isYDialog w' = isYDialog w /\ parent w' = None) ->
  good poll (setWidgets W h).
Proof.
  intros [HW Hnl] Hwf Hk. split; [|exact Hnl]. apply inv_setWidgets; [done|done|].
  intros d Hd. destruct (inv_widgets W HW d Hd) as (w & Hw & Hy & Hp).
  destruct (Hk d w Hw Hy Hp) as (w' & ? & ? & ?). exists w'. simpl. split; [done|]. split; congruence.
Qed.

(** Private data and trace change, events and filters stay. *)
Lemma touched_good poll W W' this p p' :
  good poll W -> dialogs W !! this = Some p -> touched W W' this p' -> sameEvents p p' -> good poll W'.
Proof.
  intros [HW Hnl] Hd Ht Hs. split; [by eapply inv_touched|]. intros Hp e He.
  destruct Ht as (_ & _ & Ee & _ & _ & Ed), Hs as [Hl _]. rewrite Ee in He.
  destruct (Hnl Hp e He) as (d & q & Hq & Hlq). rewrite Ed. destruct (decide (d = this)) as [->|].
  - exists this, p'. rewrite lookup_insert_eq. split; [done|]. congruence.
  - exists d, q. by rewrite lookup_insert_ne.
Qed.

(** Filters change, events stay. *)
Lemma sameDialogEvents_good poll W W' :
  good poll W -> inv W' -> events W' = events W ->
  (forall d q, dialogs W !! d = Some q -> exists q', dialogs W' !! d = Some q' /\ lastEvent q' = lastEvent q) ->
  good poll W'.
Proof.
  intros [_ Hnl] HW' Ee Hd. split; [done|]. intros Hp e He. rewrite Ee in He.
  destruct (Hnl Hp e He) as (d & q & Hq & Hlq). destruct (Hd d q Hq) as (q' & Hq' & E).
  exists d, q'. split; congruence.
Qed.

(** Widget operations. *)
Lemma newWidget_good poll W a par cls h :
  good poll W -> widgets W !! a = None -> (forall p, par = Some p -> is_Some (widgets W !! p)) ->
  newWidget (widgets W) a par false cls = Done h -> good poll (setWidgets W h).
Proof.
  intros HG Hf Hp E. apply setWidgets_good; [done|eapply newWidget_wf; eauto; apply HG|].
  intros x w Hx Hy Hpx. destruct (newWidget_keeps _ a par false cls h x w Hf Hp E Hx) as (w' & ? & ? & ?).
  exists w'. split; [done|]. split; congruence.
Qed.

Lemma deleteWidget_good poll W a w h :
  good poll W -> widgets W !! a = Some w -> isYDialog w = false ->
  destroyWidget (widgets W) a = Done h -> good poll (setWidgets W h).
Proof.
  intros HG Ha Hd E. pose proof (inv_wf W (proj1 HG)) as Hwf.
  apply setWidgets_good; [done|eapply destroyWidget_wf; eauto|].
  intros x v Hx Hy Hp. apply (destroyWidget_keeps (widgets W) a h x v); try done; congruence.
Qed.

Lemma deleteChildren_good poll W a h :
  good poll W -> is_Some (widgets W !! a) ->
  destroyChildren (widgets W) a = Done h -> good poll (setWidgets W h).
Proof.
  intros HG Ha E. pose proof (inv_wf W (proj1 HG)) as Hwf.
  apply setWidgets_good; [done|eapply destroyChildren_wf; eauto|]. intros x v Hx Hy Hp.
  destruct (destroyChildren_done (widgets W) a Hwf Ha) as (S & h1 & E1 & Hl & Hpar & _).
  rewrite E1 in E. simplify_eq. rewrite Hl, decide_False, Hx; [by eexists|].
  intros Hin. by apply (Hpar x v Hin Hx).
Qed.

(** Dialog operations. *)
Lemma newDialog_good poll W this help relNotes type color W' :
  good poll W -> widgets W !! this = None -> filters W !! help = None ->
  filters W !! relNotes = None -> help <> relNotes ->
  newDialog W this help relNotes type color = Done W' -> good poll W'.
Proof.
  intros HG Hf Hh Hr Hne E.
  destruct (newDialog_inv W this help relNotes type color (proj1 HG) Hf Hh Hr Hne)
    as (W1 & E1 & HW1 & _ & Ed & Ee). rewrite E1 in E. simplify_eq.
  apply (sameDialogEvents_good poll W); try done. intros d q Hq. exists q. split; [|done]. rewrite Ed.
  rewrite lookup_insert_ne; [done|]. intros ->.
  destruct (inv_dialog_live W d (proj1 HG)) as [? ?]; [by eexists|congruence].
Qed.

Lemma destroy_good poll W this doThrow W' b :
  good poll W -> destroy W this doThrow = Done (W', b) -> good poll W'.
Proof.
  intros HG E. unfold destroy in E. destruct (validWidget W this) as [[]| | |]; simpl in E; [|done..].
  destruct (isTopmostDialog W this) eqn:Et; [|destruct doThrow; by simplify_eq].
  destruct (topmost_inv W this Et) as [rest Hst].
  destruct (deleteDialog W this) as [W1|e| |] eqn:E1; simplify_eq/=. by eapply deleteTop_good.
Qed.

Lemma deleteTopmost_good poll W doThrow W' b :
  good poll W -> deleteTopmostDialog W doThrow = Done (W', b) -> good poll W'.
Proof.
  intros HG E. unfold deleteTopmostDialog in E. destruct (_dialogStack W) as [|top rest] eqn:Hst;
    [destruct doThrow; by simplify_eq|].
  destruct (deleteDialog W top) as [W1|e| |] eqn:E1; simplify_eq/=. by eapply deleteTop_good.
Qed.

Lemma deleteAll_good poll W W' :
  good poll W -> deleteAllDialogs W = Done W' -> good poll W'.
Proof.
  intros HG E. destruct (deleteAll_spec _ _ W (le_n _) (proj1 HG) eq_refl) as [(W1 & E1 & H1) _].
  unfold deleteAllDialogs in E. rewrite E1 in E. simplify_eq. by eapply deletedDialogs_good.
Qed.

Lemma deleteTo_good poll W target W' e :
  good poll W -> deleteTo W target = Done (W', e) -> good poll W'.
Proof.
  intros HG E. unfold deleteTo in E.
  destruct (validWidget W target) as [[]| | |]; simpl in E; [|by simplify_eq|done..].
  destruct (decide (target ∈ _dialogStack W)) as [Hin|Hin].
  - apply list_elem_of_split in Hin as (above & rest & Hst).
    destruct (deleteToLoop_found above (length (_dialogStack W)) W target rest) as (W1 & E1 & H1);
      [rewrite Hst, length_app; simpl; lia|apply HG|done|].
    rewrite E1 in E. simplify_eq/=. by eapply deletedDialogs_good.
  - destruct (deleteAll_spec _ _ W (le_n _) (proj1 HG) eq_refl) as [_ Hto].
    destruct (Hto target Hin) as (W1 & E1 & H1). rewrite E1 in E. simplify_eq/=.
    by eapply deletedDialogs_good.
Qed.

(** Filters, opening, waiting. *)
Lemma newFilter_good poll W f d W' :
  good poll W -> is_Some (dialogs W !! d) -> filters W !! f = None ->
  newEventFilter W f (Some d) = Done W' -> good poll W'.
Proof.
  intros HG [p Hd] Hf E. destruct (newEventFilter_spec W d f p (proj1 HG) Hd Hf) as [E1 HW1].
  rewrite E1 in E. simplify_eq. apply (sameDialogEvents_good poll W); try done.
  intros x q Hq. simpl. destruct (decide (x = d)) as [->|].
  - rewrite lookup_insert_eq. simplify_eq. by eexists.
  - rewrite lookup_insert_ne by done. by exists q.
Qed.

Lemma deleteFilter_good poll W f W' :
  good poll W -> is_Some (filters W !! f) -> deleteEventFilter W f = Done W' -> good poll W'.
Proof.
  intros HG [d Hf] E. destruct (deleteEventFilter_inv W f d (proj1 HG) Hf) as (W1 & E1 & HW1).
  pose proof E as E2. rewrite E1 in E. simplify_eq.
  destruct (inv_filter_dialog W (proj1 HG) f d Hf) as [p Hd].
  unfold deleteEventFilter, removeEventFilter in E2. rewrite Hf, (priv_done W d p Hd) in E2. simplify_eq/=.
  apply (sameDialogEvents_good poll W); try done.
  intros x q Hq. simpl. destruct (decide (x = d)) as [->|].
  - rewrite lookup_insert_eq. simplify_eq. by eexists.
  - rewrite lookup_insert_ne by done. by exists q.
Qed.

Lemma open_good poll W this W' :
  good poll W -> is_Some (dialogs W !! this) -> open W this = Done W' -> good poll W'.
Proof.
  intros HG [p Hd] E. destruct (open_spec W this p Hd) as (W1 & E1 & H1 & _). rewrite E1 in E. simplify_eq.
  eapply touched_good; eauto. by destruct (isOpen p).
Qed.

Lemma postpone_good poll W this W' :
  good poll W -> is_Some (dialogs W !! this) -> postponeShortcutCheck W this = Done W' -> good poll W'.
Proof.
  intros HG [p Hd] E. unfold postponeShortcutCheck in E. rewrite (priv_done W this p Hd) in E. simplify_eq/=.
  by eapply (touched_good poll W _ this p (setPostponed p true)).
Qed.

Lemma wait_good poll W filterEvent this timeout inputs W' e :
  good poll W -> validFilters filterEvent -> Forall validInput inputs ->
  waitForEvent filterEvent W this timeout inputs = Done (W', e) -> good poll W'.
Proof.
  intros [HW Hl] Hvf Hin E. pose proof E as E'. unfold waitForEvent in E'.
  destruct (isTopmostDialog W this) eqn:Et; [|done]. clear E'.
  destruct (topmost_inv W this Et) as [rest Hst].
  destruct (proj1 (inv_dialogs W HW this)) as [p Hd]; [rewrite Hst; left|].
  apply (waitForEvent_live _ _ _ p) in E as (inputs' & Hin' & Hli & E); [|done|done].
  pose proof (waitForEvent_spec filterEvent W this rest p timeout inputs' HW Hst Hd Hvf Hin' Hli) as H.
  destruct (firstSome _ inputs'); [|congruence].
  destruct H as (W1 & e1 & p1 & cs & E1 & HW1 & _ & _ & _ & _ & _ & _ & _ & Hnl). rewrite E1 in E. simplify_eq.
  split; auto.
Qed.

Lemma poll_good W filterEvent this input W' e :
  good true W -> validFilters filterEvent -> validInput input ->
  pollEvent filterEvent W this input = Done (W', e) -> good true W'.
Proof.
  intros [HW Hl] Hvf Hin E. pose proof E as E'. unfold pollEvent in E'.
  destruct (isTopmostDialog W this) eqn:Et; [|done]. clear E'.
  destruct (topmost_inv W this Et) as [rest Hst].
  destruct (proj1 (inv_dialogs W HW this)) as [p Hd]; [rewrite Hst; left|].
  destruct (pollEvent_spec filterEvent W this rest p input HW Hst Hd Hvf Hin
    ltac:(by eapply pollEvent_live)) as (W1 & e1 & p1 & E1 & HW1 & _).
  rewrite E1 in E. simplify_eq. by split.
Qed.

Lemma step_good poll W W' : good poll W -> step poll W W' -> good poll W'.
Proof.
  intros HG Hs. revert HG. destruct Hs; intros HG;
    [eapply (newDialog_good poll W this help relNotes)|eapply newWidget_good|eapply deleteWidget_good|eapply deleteChildren_good
    |eapply destroy_good|eapply deleteTopmost_good|eapply deleteTo_good|eapply deleteAll_good
    |eapply newFilter_good|eapply deleteFilter_good|eapply open_good|eapply postpone_good
    |eapply wait_good|subst; eapply poll_good]; eassumption.
Qed.

Lemma reachable_good poll W : rtc (step poll) initial W -> good poll W.
Proof.
  intros H. assert (H0 : good poll initial).
  { split; [apply inv_initial|]. intros _ e. simpl. rewrite lookup_empty. by intros []. }
  revert H0. induction H; eauto using step_good.
Qed.

(** ** The properties of dialogs *)

(** C6: In every world an application can reach, the stack holds exactly the
    existing dialogs, each once; each is a live top-level dialog of a
    well-formed widget heap; every event filter belongs to one existing dialog
    and is in its list once; and the last event of a dialog exists and belongs
    to no other dialog. If [pollEvent()] is not used, no event is ever lost:
    each existing event is the last event of a dialog. *)
Theorem dialog_invariant poll W :
  rtc (step poll) initial W -> inv W /\ (poll = false -> noLeak W).
Proof. apply reachable_good. Qed.

(** [deleteTo()] with a dialog of the stack returns after deleting exactly
    the dialogs from the topmost to that one, with all their widgets; the
    dialogs below it keep their state. With any other valid widget it deletes
    all dialogs and throws. *)
Theorem delete_to poll W target :
  rtc (step poll) initial W -> is_Some (widgets W !! target) ->
  exists W', match decide (target ∈ _dialogStack W) with
  | left _ => exists above rest, _dialogStack W = above ++ target :: rest /\
      deleteTo W target = Done (W', None) /\ deletedDialogs W W' (above ++ [target]) rest /\
      forall d, d ∈ rest -> dialogs W' !! d = dialogs W !! d
  | right _ => deleteTo W target = Done (W', Some YUIDialogStackingOrderException) /\
      deletedDialogs W W' (_dialogStack W) []
  end.
Proof.
  intros [HW _]%reachable_good [w Hw]. unfold deleteTo, validWidget.
  rewrite Hw. destruct (wf_live _ (inv_wf W HW) _ w Hw) as [-> _]. cbn [negb obind].
  case_decide as Hin.
  - apply list_elem_of_split in Hin as (above & rest & Hst).
    destruct (deleteToLoop_found above (length (_dialogStack W)) W target rest) as (W1 & E1 & H1);
      [rewrite Hst, length_app; simpl; lia|done|done|].
    exists W1, above, rest. rewrite E1. split; [done|]. split; [done|]. split; [done|].
    intros d Hd. destruct H1 as (_ & _ & -> & _). rewrite lookup_removeAll, decide_False; [done|].
    pose proof (inv_stack W HW) as Hnd. rewrite Hst, snoc_app in Hnd.
    apply list.NoDup_app in Hnd as (_ & Hdis & _). intros Hd'. by apply (Hdis d).
  - destruct (deleteAll_spec _ _ W (le_n _) HW eq_refl) as [_ Hto].
    destruct (Hto target Hin) as (W1 & E1 & H1). exists W1. rewrite E1. done.
Qed.

(** [deleteAllDialogs()] returns with an empty stack; no dialog and no
    event filter is left, every widget of a dialog is freed, and if no event
    was lost before, no event is left. *)
Theorem delete_all_dialogs poll W :
  rtc (step poll) initial W ->
  exists W', deleteAllDialogs W = Done W' /\ _dialogStack W' = [] /\
    dialogs W' = ∅ /\ filters W' = ∅ /\
    (forall d y, d ∈ _dialogStack W -> below (widgets W) d y -> widgets W' !! y = None) /\
    (poll = false -> events W' = ∅).
Proof.
  intros [HW Hl]%reachable_good.
  destruct (deleteAll_spec _ _ W (le_n _) HW eq_refl) as [(W1 & E1 & HW1 & Hst & _ & Hw & _ & Hnl) _].
  exists W1. split; [done|]. split; [done|].
  assert (Hd : dialogs W1 = ∅).
  { apply map_eq. intros d. rewrite lookup_empty. destruct (dialogs W1 !! d) eqn:E; [|done].
    assert (d ∈ _dialogStack W1) by (apply (inv_dialogs W1 HW1); by eexists). rewrite Hst in *. set_solver. }
  split; [done|]. split; [|split; [done|]].
  - apply map_eq. intros f. rewrite lookup_empty. destruct (filters W1 !! f) as [d|] eqn:E; [|done].
    destruct (inv_filter_dialog W1 HW1 f d E) as [? H]. by rewrite Hd, lookup_empty in H.
  - intros Hp. apply map_eq. intros e. rewrite lookup_empty. destruct (events W1 !! e) eqn:E; [|done].
    destruct (Hnl (Hl Hp) e) as (d & q & H & _); [by eexists|]. by rewrite Hd, lookup_empty in H.
Qed.

(** [destroy()] deletes a dialog only if it is the topmost one, and then
    activates the next dialog of the stack; any other dialog is left alone,
    with an exception or the result false. *)
Theorem destroy_topmost_only poll W this doThrow :
  rtc (step poll) initial W -> this ∈ _dialogStack W ->
  match _dialogStack W with
  | [] => False
  | top :: rest =>
      if decide (this = top) then
        exists W', destroy W this doThrow = Done (W', true) /\ deletedDialogs W W' [this] rest /\
          trace W' = trace W ++ match rest with [] => [] | next :: _ => [Activate next] end
      else destroy W this doThrow =
             (if doThrow then Throws YUIDialogStackingOrderException else Done (W, false))
  end.
Proof.
  intros [HW _]%reachable_good Hin. destruct (_dialogStack W) as [|top rest] eqn:Hst; [set_solver|].
  unfold destroy, validWidget, isTopmostDialog. destruct (inv_widgets W HW this) as (w & Hw & _ & _).
  { by rewrite Hst. }
  rewrite Hw, Hst. destruct (wf_live _ (inv_wf W HW) _ w Hw) as [-> _]. cbn [negb obind].
  case_decide as Ht.
  - subst top. rewrite bool_decide_eq_true_2 by done.
    destruct (deleteDialog_inv W this rest HW Hst) as (W1 & -> & HW1 & Hst1 & Hd1 & Ew & Htr & Hnl).
    exists W1. split; [done|]. split; [|done].
    apply (deletedDialogs_cons W W1 W1 this [] rest); try done. rewrite <- Hst1.
    by apply deletedDialogs_nil.
  - by rewrite bool_decide_eq_false_2.
Qed.


(** [filterInvalidEvents()] means to discard the events of widgets that have
    been destroyed meanwhile, but to find out it reads the magic number of the
    widget, in memory that has been freed. *)
Theorem stale_event_undefined filterEvent W this timeout ev a inputs :
  isTopmostDialog W this = true -> is_Some (dialogs W !! this) ->
  isWidgetEvent ev = true -> _widget ev = Some a -> widgets W !! a = None ->
  forall r, waitForEvent filterEvent W this timeout (Some ev :: inputs) <> Done r.
Proof.
  intros Ht [p Hd] Hi Hw Ha r. unfold waitForEvent. rewrite Ht. cbn [negb].
  rewrite (priv_done W this p Hd). cbn [obind].
  destruct (prepare_spec W this p Hd) as (W1 & W2 & p1 & p2 & -> & E1 & E2 & Hd2 & _ & H2 & _).
  cbn [obind]. rewrite E1. cbn [obind]. rewrite E2. cbn [obind]. rewrite (priv_done W2 this p2 Hd2). cbn [obind].
  destruct (deleteEvent W2 this (lastEvent p2)) as [W3| | |] eqn:E3; cbn [obind]; [|done..].
  apply deleteEvent_widgets in E3. destruct H2 as (Ew & _). rewrite Ew in E3. cbn [waitLoop].
  destruct (handleInput _ _ _ _) as [[W4 eo]| | |] eqn:E4; cbn [obind]; [|done..].
  apply handleInput_live in E4 as [Hl _]. destruct (Hl ev a eq_refl Hi Hw) as [w Hw'].
  simpl in Hw'. rewrite E3 in Hw'. congruence.
Qed.

(** [pollEvent()] returns what the plug-in delivers if it belongs to the
    dialog and comes through the event filters, and nothing otherwise. Unlike
    [waitForEvent()] it does not delete the previous last event: that event
    still exists and no dialog refers to it any more, so that it is lost,
    although the documentation promises its deletion. *)
Theorem poll_event poll filterEvent W this rest p input :
  rtc (step poll) initial W -> _dialogStack W = this :: rest -> dialogs W !! this = Some p ->
  validFilters filterEvent -> validInput input -> liveInput (widgets W) input ->
  exists W' eo p', pollEvent filterEvent W this input = Done (W', eo) /\
    inv W' /\ dialogs W' = <[this := p']> (dialogs W) /\ isOpen p' = true /\ lastEvent p' = eo /\
    match eo with Some e => events W' !! e | None => None end =
      response filterEvent (widgets W) (eventFilterList p) this input /\
    forall e, lastEvent p = Some e ->
      is_Some (events W' !! e) /\ forall d q, dialogs W' !! d = Some q -> lastEvent q <> Some e.
Proof. intros [HW _]%reachable_good. by apply pollEvent_spec. Qed.

(** ** A sample: a main dialog and a pop-up with a button *)

Definition okW (m : outcome world) : world := match m with Done W => W | _ => initial end.

Definition world1 : world := okW (newDialog initial 1 11 12 YMainDialog YDialogNormalColor).
Definition world2 : world := okW (newDialog world1 2 21 22 YPopupDialog YDialogNormalColor).
Definition world3 : world :=
  setWidgets world2 (ok (newWidget (widgets world2) 3 (Some 2%nat) false YWidgetChildrenRejector)).

(** The filters of the pop-up do not act on the button. *)
Definition sampleFilter (f : nat) (ev : YEvent) : FilterAction :=
  buttonHandler (fun b => bool_decide (b = 4%nat)) (fun _ => true) ev.

Definition buttonEvent : YEvent :=
  {| _eventType := WidgetEvent; isWidgetEvent := true; _widget := Some 3%nat |}.
Definition foreignEvent : YEvent :=
  {| _eventType := WidgetEvent; isWidgetEvent := true; _widget := Some 1%nat |}.
Definition sampleInputs : list (option YEvent) := [None; Some foreignEvent; Some buttonEvent].

Definition world4 : world :=
  match waitForEvent sampleFilter world3 2 0 sampleInputs with Done (W, _) => W | _ => initial end.

Lemma sampleFilter_valid : validFilters sampleFilter.
Proof.
  intros f ev ev'. unfold sampleFilter, buttonHandler. destruct (_widget ev); [|done].
  by destruct (_ && _).
Qed.

Lemma sampleInputs_valid : Forall validInput sampleInputs.
Proof. repeat constructor; intros ev E; by simplify_eq. Qed.

Lemma sampleDialogs_reachable : rtc (step false) initial world4.
Proof.
  eapply rtc_l; [apply (step_newDialog false initial 1 11 12 YMainDialog YDialogNormalColor world1);
    vm_compute; done|].
  eapply rtc_l; [apply (step_newDialog false world1 2 21 22 YPopupDialog YDialogNormalColor world2);
    vm_compute; done|].
  eapply rtc_l; [apply (step_newWidget false world2 3 (Some 2%nat) YWidgetChildrenRejector);
    [vm_compute; done|intros p [= <-]; vm_compute; eauto|vm_compute; reflexivity]|].
  apply rtc_once.
  apply (step_wait false world3 sampleFilter 2 0 sampleInputs world4 1);
    [apply sampleFilter_valid|apply sampleInputs_valid|vm_compute; reflexivity].
Qed.

Definition privOf (W : world) (d : nat) : YDialogPrivate :=
  default (newPriv YMainDialog YDialogNormalColor) (dialogs W !! d).

Lemma dialog_invariant_witness : inv world4 /\ (false = false -> noLeak world4).
Proof. apply (dialog_invariant false world4). apply sampleDialogs_reachable. Defined.

Lemma delete_to_witness :
  exists W', match decide (1%nat ∈ _dialogStack world4) with
  | left _ => exists above rest, _dialogStack world4 = above ++ 1%nat :: rest /\
      deleteTo world4 1 = Done (W', None) /\ deletedDialogs world4 W' (above ++ [1%nat]) rest /\
      forall d, d ∈ rest -> dialogs W' !! d = dialogs world4 !! d
  | right _ => deleteTo world4 1 = Done (W', Some YUIDialogStackingOrderException) /\
      deletedDialogs world4 W' (_dialogStack world4) []
  end.
Proof.
  apply (delete_to false world4 1); [apply sampleDialogs_reachable|vm_compute; eauto].
Defined.

Lemma delete_all_dialogs_witness :
  exists W', deleteAllDialogs world4 = Done W' /\ _dialogStack W' = [] /\
    dialogs W' = ∅ /\ filters W' = ∅ /\
    (forall d y, d ∈ _dialogStack world4 -> below (widgets world4) d y -> widgets W' !! y = None) /\
    (false = false -> events W' = ∅).
Proof. apply (delete_all_dialogs false world4). apply sampleDialogs_reachable. Defined.

Lemma destroy_topmost_only_witness :
  match _dialogStack world4 with
  | [] => False
  | top :: rest =>
      if decide (1%nat = top) then
        exists W', destroy world4 1 true = Done (W', true) /\ deletedDialogs world4 W' [1%nat] rest /\
          trace W' = trace world4 ++ match rest with [] => [] | next :: _ => [Activate next] end
      else destroy world4 1 true = Throws YUIDialogStackingOrderException
  end.
Proof.
  apply (destroy_topmost_only false world4 1 true); [apply sampleDialogs_reachable|].
  apply (bool_decide_unpack _). vm_compute. exact I.
Defined.



Lemma poll_event_witness :
  exists W' eo p', pollEvent sampleFilter world4 2 None = Done (W', eo) /\
    inv W' /\ dialogs W' = <[2%nat := p']> (dialogs world4) /\ isOpen p' = true /\ lastEvent p' = eo /\
    match eo with Some e => events W' !! e | None => None end = None /\
    forall e, lastEvent (privOf world4 2) = Some e ->
      is_Some (events W' !! e) /\ forall d q, dialogs W' !! d = Some q -> lastEvent q <> Some e.
Proof.
  apply (poll_event false sampleFilter world4 2 [1%nat] (privOf world4 2) None);
    [apply sampleDialogs_reachable|vm_compute; reflexivity|vm_compute; reflexivity
    |apply sampleFilter_valid|intros ev E; discriminate|intros ev a E; discriminate].
Defined.

(** The button's event is stored, so that a poll loses it. *)
Example sample_last : lastEvent (privOf world4 2) = Some 1%nat.
Proof. vm_compute. reflexivity. Qed.

End YDialog.
