(* ===== verification/TableItem.v ===== *)
(** * Table headers, table items and their cells

    YTableHeader.cc, YTableItem.cc and YTableItem.h: a table item owns a
    vector of pointers to cells, and every cell points back to its item and
    knows its column. Cells are heap objects that an application can create
    and add itself, so the model keeps them in a store and a cell can be in
    the vectors of two items. *)

From S2P Require Import Prelude Geometry Shortcut Item WidgetTree.

(** ** Table headers *)
Module YTableHeader.

Record YTableHeader := { headers : list cstring; alignments : list YAlignmentType }.

Definition newHeader : YTableHeader := {| headers := []; alignments := [] |}.

Definition addColumn (h : YTableHeader) (header : cstring) (alignment : YAlignmentType) : YTableHeader :=
  {| headers := headers h ++ [header]; alignments := alignments h ++ [alignment] |}.

Definition columns (h : YTableHeader) : Z := Z.of_nat (length (headers h)).

Definition hasColumn (h : YTableHeader) (column : Z) : bool :=
  (0 <=? column)%Z && (column <? Z.of_nat (length (headers h)))%Z.

Definition header (h : YTableHeader) (column : Z) : cstring :=
  if (0 <=? column)%Z && (column <? Z.of_nat (length (headers h)))%Z
  then default [] (headers h !! Z.to_nat column) else [].

Definition alignment (h : YTableHeader) (column : Z) : YAlignmentType :=
  if (0 <=? column)%Z && (column <? Z.of_nat (length (alignments h)))%Z
  then default YAlignBegin (alignments h !! Z.to_nat column) else YAlignBegin.

(** The columns come back in the order they were added. *)
Lemma header_addColumns (cols : list (cstring * YAlignmentType)) (column : Z) :
  let h := fold_left (fun h c => addColumn h (fst c) (snd c)) cols newHeader in
  columns h = Z.of_nat (length cols) /\
  hasColumn h column = bool_decide (0 <= column < Z.of_nat (length cols))%Z /\
  forall c, (0 <= column)%Z -> cols !! Z.to_nat column = Some c ->
    header h column = fst c /\ alignment h column = snd c.
Proof.
  intros h. assert (Hh : headers h = map fst cols /\ alignments h = map snd cols).
  { subst h. induction cols as [|c cols IH] using rev_ind; [done|].
    rewrite fold_left_app, !map_app. simpl. by destruct IH as [-> ->]. }
  destruct Hh as [Hh Ha]. unfold columns, hasColumn, header, alignment. rewrite Hh, Ha, !length_map.
  split; [done|]. split.
  { destruct (Z.leb_spec 0 column), (Z.ltb_spec column (Z.of_nat (length cols))); simpl; symmetry;
      first [apply bool_decide_eq_true_2; lia|apply bool_decide_eq_false_2; lia]. }
  intros c H0 Hc. pose proof (lookup_lt_Some _ _ _ Hc) as Hlt.
  assert (E : ((0 <=? column)%Z && (column <? Z.of_nat (length cols))%Z) = true)
    by (apply andb_true_intro; split; [by apply Z.leb_le|apply Z.ltb_lt; lia]).
  rewrite E.
  change (map fst cols) with (fst <$> cols). change (map snd cols) with (snd <$> cols).
  by rewrite !list_lookup_fmap, Hc.
Qed.

End YTableHeader.

(** ** Table items and cells *)
Module YTableItem.

Record YTableCell := {
  _label : cstring;
  _iconName : cstring;
  _sortKey : cstring;
  _parent : option nat;
  _column : Z
}.

(** The cells, and the vector [_cells] of every item. *)
Record store := { cells : gmap nat YTableCell; items : gmap nat (list nat) }.

Definition setCells (s : store) (x : gmap nat YTableCell) : store :=
  {| cells := x; items := items s |}.
Definition setItems (s : store) (x : gmap nat (list nat)) : store :=
  {| cells := cells s; items := x |}.

Definition getCell (s : store) (a : nat) : outcome YTableCell :=
  match cells s !! a with Some c => Done c | None => Undefined end.
Definition getItem (s : store) (it : nat) : outcome (list nat) :=
  match items s !! it with Some cs => Done cs | None => Undefined end.

(** The constructor of a cell without a parent. *)
Definition newCell (label iconName sortKey : cstring) : YTableCell :=
  {| _label := label; _iconName := iconName; _sortKey := sortKey; _parent := None; _column := -1 |}.

(** [reparent()]; the message of the exception also names the label. *)
Definition reparent (c : YTableCell) (parent : nat) (column : Z) : result YTableCell :=
  if match _parent c with
     | Some p => negb (bool_decide (p = parent)) && negb (_column c =? column)%Z
     | None => false
     end
  then Throw (YUIGenericException "Cannot reparent YTableCell")
  else Ok {| _label := _label c; _iconName := _iconName c; _sortKey := _sortKey c;
             _parent := Some parent; _column := column |}.

(** [addCell( YTableCell * )]: the cell is appended first, then reparented; an
    exception leaves it in the vector. The result is the state together with
    the exception, if there is one. *)
Definition addCell (s : store) (it : nat) (cell : option nat) : outcome (store * option YUIException) :=
  match cell with
  | None => Done (s, Some YUINullPointerException)
  | Some a =>
      let! cs := getItem s it in
      let s1 := setItems s (<[it := cs ++ [a]]> (items s)) in
      let! c := getCell s1 a in
      match reparent c it (Z.of_nat (length (cs ++ [a])) - 1)%Z with
      | Ok c' => Done (setCells s1 (<[a := c']> (cells s1)), None)
      | Throw e => Done (s1, Some e)
      end
  end.

(** [addCell( label, iconName, sortKey )]: a new cell at a free address. *)
Definition addNewCell (s : store) (it : nat) (label iconName sortKey : cstring) :
    outcome (store * option YUIException) :=
  let a := fresh (dom (cells s)) in
  addCell (setCells s (<[a := newCell label iconName sortKey]> (cells s))) it (Some a).

(** The index of the last label to use:
    [while ( labels[ lastLabel ].empty() && --lastLabel > 0 )]. *)
Fixpoint lastLabel (labels : list cstring) (n : nat) : nat :=
  match default [] (labels !! n) with
  | [] => match n with
          | O => O
          | S n' => if (0 <? n')%nat then lastLabel labels n' else n'
          end
  | _ => n
  end.

(** [addCells()] with its ten labels. *)
Definition addCells (s : store) (it : nat) (labels : list cstring) : outcome (store * option YUIException) :=
  ofold (fun '(s, e) label =>
           match e with
           | Some _ => Done (s, e)
           | None => addNewCell s it label [] []
           end)
        (take (S (lastLabel labels (length labels - 1))) labels) (s, None).

Definition hasCell (cs : list nat) (index : Z) : bool :=
  (0 <=? index)%Z && (index <? Z.of_nat (length cs))%Z.

Definition cell (s : store) (it : nat) (index : Z) : outcome (option nat) :=
  let! cs := getItem s it in
  Done (if hasCell cs index then cs !! Z.to_nat index else None).

Definition cellText (f : YTableCell -> cstring) (s : store) (it : nat) (index : Z) : outcome cstring :=
  let! c := cell s it index in
  match c with
  | Some a => let! c' := getCell s a in Done (f c')
  | None => Done []
  end.

Definition label : store -> nat -> Z -> outcome cstring := cellText _label.
Definition iconName : store -> nat -> Z -> outcome cstring := cellText _iconName.

Definition hasIconName (s : store) (it : nat) (index : Z) : outcome bool :=
  let! t := iconName s it index in
  Done (match t with [] => false | _ => true end).

(** [deleteCells()] *)
Definition deleteCell (s : store) (a : nat) : outcome store :=
  let! _ := getCell s a in Done (setCells s (delete a (cells s))).

Definition deleteCells (s : store) (it : nat) : outcome store :=
  let! cs := getItem s it in
  let! s1 := ofold deleteCell cs s in
  Done (setItems s1 (<[it := []]> (items s1))).

(** The destructor of an item. *)
Definition deleteItem (s : store) (it : nat) : outcome store :=
  let! s1 := deleteCells s it in
  Done (setItems s1 (delete it (items s1))).

Definition MIN_DEBUG_LABEL_LEN : nat := 20.
Definition MAX_DEBUG_LABEL_LEN : Z := 40.

(** The loop of [debugLabel()] over the indices that are left. *)
Fixpoint debugLoop (s : store) (it : nat) (indices : list nat) (txt : cstring) : outcome cstring :=
  match indices with
  | [] => Done txt
  | i :: rest =>
      let txt1 := match txt with [] => [] | _ => txt ++ str " | " end in
      let! l := label s it (Z.of_nat i) in
      let txt2 := txt1 ++ l in
      if (MIN_DEBUG_LABEL_LEN <? length txt2)%nat then Done txt2 else debugLoop s it rest txt2
  end.

Definition debugLabel (s : store) (it : nat) : outcome cstring :=
  let! cs := getItem s it in
  match cs with
  | [] => Done (str "[empty]")
  | _ =>
      let! txt := debugLoop s it (seq 0 (length cs)) [] in
      Done (YItem.limitLength txt MAX_DEBUG_LABEL_LEN)
  end.

(** ** Cells and vectors agree *)

(** Every cell of a vector exists, points to the item and knows its place. *)
Definition wfTable (s : store) : Prop :=
  forall it cs i a, items s !! it = Some cs -> cs !! i = Some a ->
  exists c, cells s !! a = Some c /\ _parent c = Some it /\ _column c = Z.of_nat i.

Lemma wfTable_owner s it1 it2 cs1 cs2 i j a :
  wfTable s -> items s !! it1 = Some cs1 -> items s !! it2 = Some cs2 ->
  cs1 !! i = Some a -> cs2 !! j = Some a -> it1 = it2 /\ i = j.
Proof.
  intros Hs H1 H2 Hi Hj. destruct (Hs it1 cs1 i a H1 Hi) as (c1 & Hc1 & Hp1 & Hn1).
  destruct (Hs it2 cs2 j a H2 Hj) as (c2 & Hc2 & Hp2 & Hn2). simplify_eq. split; [done|lia].
Qed.

Lemma wfTable_NoDup s it cs : wfTable s -> items s !! it = Some cs -> NoDup cs.
Proof.
  intros Hs Hit. apply NoDup_alt. intros i j a Hi Hj.
  by destruct (wfTable_owner s it it cs cs i j a Hs Hit Hit Hi Hj).
Qed.

Definition placed (c : YTableCell) (it : nat) (column : Z) : YTableCell :=
  {| _label := _label c; _iconName := _iconName c; _sortKey := _sortKey c;
     _parent := Some it; _column := column |}.

(** Adding a cell that has no parent yet. *)
Lemma addCell_spec s it cs a c :
  wfTable s -> items s !! it = Some cs -> cells s !! a = Some c -> _parent c = None ->
  exists s', addCell s it (Some a) = Done (s', None) /\ wfTable s' /\
    items s' = <[it := cs ++ [a]]> (items s) /\
    cells s' = <[a := placed c it (Z.of_nat (length cs))]> (cells s).
Proof.
  intros Hs Hit Ha Hp. unfold addCell, getItem. rewrite Hit. cbn [obind]. unfold getCell. simpl. rewrite Ha.
  cbn [obind]. unfold reparent. rewrite Hp. eexists. split; [done|]. simpl.
  replace (Z.of_nat (length (cs ++ [a])) - 1)%Z with (Z.of_nat (length cs)) by (rewrite length_app; simpl; lia).
  split; [|done]. intros it' cs' i b. simpl. intros Hit' Hb.
  assert (Hnew : forall it0 cs0 k, items s !! it0 = Some cs0 -> cs0 !! k = Some a -> False).
  { intros it0 cs0 k H1 H2. destruct (Hs it0 cs0 k a H1 H2) as (c0 & ? & ? & _). congruence. }
  assert (Hold : forall it0 cs0 k, items s !! it0 = Some cs0 -> cs0 !! k = Some b ->
    exists c0, <[a := placed c it (Z.of_nat (length cs))]> (cells s) !! b = Some c0 /\
      _parent c0 = Some it0 /\ _column c0 = Z.of_nat k).
  { intros it0 cs0 k H1 H2. destruct (Hs it0 cs0 k b H1 H2) as (c0 & ? & ? & ?). exists c0.
    rewrite lookup_insert_ne; [done|]. intros ->. by eapply Hnew. }
  apply lookup_insert_Some in Hit' as [[<- <-]|[_ Hit']]; [|by eapply Hold].
  apply lookup_app_Some in Hb as [Hb|[Hle Hb]]; [by eapply Hold|].
  destruct (i - length cs)%nat as [|k] eqn:Ek; [|by destruct k]. simpl in Hb. simplify_eq.
  eexists. rewrite lookup_insert_eq. split; [done|]. split; [done|]. simpl. lia.
Qed.

Lemma addNewCell_spec s it cs l icon key :
  wfTable s -> items s !! it = Some cs ->
  exists s' a, addNewCell s it l icon key = Done (s', None) /\ wfTable s' /\ cells s !! a = None /\
    items s' = <[it := cs ++ [a]]> (items s) /\
    cells s' = <[a := placed (newCell l icon key) it (Z.of_nat (length cs))]> (cells s).
Proof.
  intros Hs Hit. unfold addNewCell. set (a := fresh (dom (cells s))).
  assert (Ha : cells s !! a = None) by (apply not_elem_of_dom, is_fresh).
  set (s0 := setCells s _).
  assert (Hs0 : wfTable s0).
  { intros it' cs' i b H1 H2. destruct (Hs it' cs' i b H1 H2) as (c & Hc & ?). exists c. simpl.
    rewrite lookup_insert_ne by congruence. done. }
  destruct (addCell_spec s0 it cs a (newCell l icon key) Hs0 Hit) as (s' & E & Hs' & Hi & Hc);
    [apply lookup_insert_eq|done|].
  exists s', a. split; [done|]. split; [done|]. split; [done|]. split; [done|].
  rewrite Hc. simpl. by rewrite insert_insert_eq.
Qed.

(** The labels of a row. *)
Definition texts (s : store) (cs : list nat) : list (option cstring) :=
  map (fun a => _label <$> cells s !! a) cs.

Lemma addNewCells_spec it ls : forall s cs, wfTable s -> items s !! it = Some cs ->
  exists s' cs', ofold (fun '(s, e) l => match e with
                          | Some _ => Done (s, e)
                          | None => addNewCell s it l [] [] end) ls (s, None) = Done (s', None) /\
    wfTable s' /\ items s' = <[it := cs']> (items s) /\
    texts s' cs' = texts s cs ++ map Some ls.
Proof.
  induction ls as [|l ls IH]; intros s cs Hs Hit; simpl.
  - exists s, cs. rewrite app_nil_r. split; [done|]. split; [done|]. split; [by rewrite insert_id|done].
  - destruct (addNewCell_spec s it cs l [] [] Hs Hit) as (s1 & a & -> & Hs1 & Ha & Hi1 & Hc1). cbn [obind].
    destruct (IH s1 (cs ++ [a]) Hs1) as (s' & cs' & E & Hs' & Hi' & Ht').
    { rewrite Hi1. apply lookup_insert_eq. }
    exists s', cs'. split; [done|]. split; [done|]. rewrite Hi', Hi1, insert_insert_eq. split; [done|].
    rewrite Ht', (snoc_app (texts s cs)). f_equal. unfold texts. rewrite map_app. simpl. f_equal.
    + apply map_ext_in. intros b Hb. rewrite Hc1, lookup_insert_ne; [done|]. intros ->.
      rewrite <- list_elem_of_In in Hb. apply list_elem_of_lookup_1 in Hb as [i Hb].
      destruct (Hs it cs i b Hit Hb) as (? & ? & _). congruence.
    + by rewrite Hc1, lookup_insert_eq.
Qed.

(** All labels after the last one used are empty. *)
Lemma lastLabel_spec labels n :
  (lastLabel labels n <= n)%nat /\
  forall i, (lastLabel labels n < i <= n)%nat -> default [] (labels !! i) = [].
Proof.
  induction n as [|n [IH1 IH2]]; simpl.
  - destruct (default [] (labels !! 0%nat)); split; auto; lia.
  - destruct (default [] (labels !! S n)) as [|x l] eqn:E; [|split; [lia|intros; lia]].
    destruct (Nat.ltb_spec 0 n); split; try lia; intros i Hi.
    + destruct (decide (i = S n)) as [->|]; [done|]. apply IH2. lia.
    + assert (i = S n) as -> by lia. done.
Qed.

Lemma label_texts s it cs i :
  wfTable s -> items s !! it = Some cs ->
  label s it i = Done (if (0 <=? i)%Z then default [] (mjoin (texts s cs !! Z.to_nat i)) else []).
Proof.
  intros Hs Hit. unfold label, cellText, cell, getItem. rewrite Hit. cbn [obind]. unfold hasCell, texts.
  change (map (fun a => _label <$> cells s !! a) cs) with ((fun a => _label <$> cells s !! a) <$> cs).
  rewrite list_lookup_fmap. destruct (Z.leb_spec 0 i); [|done]. simpl.
  destruct (cs !! Z.to_nat i) as [a|] eqn:Ea.
  - pose proof (lookup_lt_Some _ _ _ Ea). rewrite (proj2 (Z.ltb_lt i (Z.of_nat (length cs)))) by lia.
    destruct (Hs it cs _ a Hit Ea) as (c & Hc & _). simpl. unfold getCell. by rewrite Hc.
  - destruct (i <? Z.of_nat (length cs))%Z; done.
Qed.

(** ** Deleting the cells of an item *)

Lemma deleteCell_loop cs : forall s, NoDup cs -> (forall a, a ∈ cs -> is_Some (cells s !! a)) ->
  ofold deleteCell cs s = Done (setCells s (YWidget.removeAll cs (cells s))).
Proof.
  induction cs as [|a cs IH]; intros s Hnd Hc; simpl; [by destruct s|].
  apply list.NoDup_cons in Hnd as [Ha Hnd]. unfold deleteCell at 1, getCell.
  destruct (Hc a) as [c Hca]; [left|]. rewrite Hca. cbn [obind]. rewrite IH; [|done|].
  - unfold setCells. simpl. do 2 f_equal. apply map_eq. intros x. rewrite YWidget.lookup_removeAll.
    destruct (decide (x = a)) as [->|].
    + rewrite !lookup_delete_eq. by case_decide.
    + by rewrite !lookup_delete_ne, YWidget.lookup_removeAll by done.
  - intros b Hb. simpl. rewrite lookup_delete_ne by set_solver. apply Hc. by right.
Qed.

Lemma deleteItem_spec s it cs :
  wfTable s -> items s !! it = Some cs ->
  exists s', deleteItem s it = Done s' /\ wfTable s' /\ items s' = delete it (items s) /\
    forall a, cells s' !! a = if decide (a ∈ cs) then None else cells s !! a.
Proof.
  intros Hs Hit. unfold deleteItem, deleteCells, getItem. rewrite Hit. cbn [obind].
  rewrite deleteCell_loop; [|by eapply wfTable_NoDup|].
  2:{ intros a [i Ha]%list_elem_of_lookup_1. destruct (Hs it cs i a Hit Ha) as (c & ? & _). by eexists. }
  cbn [obind]. eexists. split; [done|]. simpl. rewrite delete_insert_eq. split; [|split; [done|]].
  - intros it' cs' i a. simpl. intros [Hne Hit']%lookup_delete_Some Ha. rewrite YWidget.lookup_removeAll, decide_False.
    + by eapply Hs.
    + intros [j Hj]%list_elem_of_lookup_1. apply Hne.
      by destruct (wfTable_owner s it it' cs cs' j i a Hs Hit Hit' Hj Ha).
  - intros a. apply YWidget.lookup_removeAll.
Qed.

(** ** The properties of table items *)

(** [addCells()] on an item without cells returns without an exception,
    and afterwards [label( i )] is the label at position [i] of its arguments
    for every [i], although no cells are made for empty labels at the end: an
    index without a cell has the empty label. The cells agree with their
    places in the item. *)
Theorem add_cells s it labels :
  wfTable s -> items s !! it = Some [] -> length labels = 10%nat ->
  exists s', addCells s it labels = Done (s', None) /\ wfTable s' /\
    forall i, label s' it i = Done (if (0 <=? i)%Z then default [] (labels !! Z.to_nat i) else []).
Proof.
  intros Hs Hit Hlen. unfold addCells. set (n := lastLabel labels (length labels - 1)).
  destruct (addNewCells_spec it (take (S n) labels) s [] Hs Hit) as (s' & cs' & E & Hs' & Hi & Ht).
  exists s'. split; [done|]. split; [done|]. intros i.
  rewrite (label_texts s' it cs') by (try done; by rewrite Hi, lookup_insert_eq). f_equal.
  destruct (Z.leb_spec 0 i); [|done]. rewrite Ht. simpl.
  change (map Some (take (S n) labels)) with (Some <$> take (S n) labels). rewrite list_lookup_fmap.
  destruct (lastLabel_spec labels (length labels - 1)) as [Hle Hempty]. fold n in Hle, Hempty.
  destruct (decide (Z.to_nat i < S n)%nat) as [Hlt|Hge].
  - rewrite lookup_take_lt by done. by destruct (labels !! Z.to_nat i).
  - rewrite lookup_take_ge by lia. simpl. destruct (decide (Z.to_nat i <= length labels - 1)%nat).
    + symmetry. apply Hempty. lia.
    + rewrite lookup_ge_None_2 by lia. done.
Qed.

(** As long as only cells without a parent are added, an item's
    destructor returns, frees exactly the cells of the item and leaves the
    other items and their cells alone: no cell is freed twice. *)
Theorem delete_item s it cs :
  wfTable s -> items s !! it = Some cs ->
  (forall a c, cells s !! a = Some c -> _parent c = None ->
     exists s', addCell s it (Some a) = Done (s', None) /\ wfTable s') /\
  exists s', deleteItem s it = Done s' /\ wfTable s' /\ items s' = delete it (items s) /\
    forall a, cells s' !! a = if decide (a ∈ cs) then None else cells s !! a.
Proof.
  intros Hs Hit. split; [|by apply deleteItem_spec]. intros a c Ha Hp.
  destruct (addCell_spec s it cs a c Hs Hit Ha Hp) as (s' & ? & ? & _). by exists s'.
Qed.

(** Adding the first cell of one item to another item that has no cells
    yet is not refused, because [reparent()] throws only if both the parent
    and the column differ. The cell is then in both items, and deleting both
    frees it twice. *)
Theorem cell_in_two_items s it1 it2 a cs c :
  wfTable s -> items s !! it1 = Some (a :: cs) -> items s !! it2 = Some [] ->
  cells s !! a = Some c ->
  exists s1, addCell s it2 (Some a) = Done (s1, None) /\
    items s1 !! it1 = Some (a :: cs) /\ items s1 !! it2 = Some [a] /\
    (let! s2 := deleteItem s1 it1 in deleteItem s2 it2) = Undefined.
Proof.
  intros Hs H1 H2 Ha. assert (Hne : it1 <> it2) by congruence.
  destruct (Hs it1 (a :: cs) 0%nat a H1 eq_refl) as (c' & Hc' & Hp & Hcol). simplify_eq.
  unfold addCell, getItem. rewrite H2. cbn [obind]. unfold getCell at 1. simpl. rewrite Ha. cbn [obind].
  unfold reparent. rewrite Hp, Hcol. simpl. rewrite andb_false_r.
  eexists. split; [done|]. simpl. rewrite lookup_insert_ne, H1, lookup_insert_eq by done.
  split; [done|]. split; [done|].
  unfold deleteItem at 1, deleteCells, getItem. simpl. rewrite lookup_insert_ne, H1 by done. cbn [obind].
  pose proof (wfTable_NoDup s it1 _ Hs H1) as Hnd.
  rewrite deleteCell_loop; [|done|].
  2:{ intros b [i Hb]%list_elem_of_lookup_1. simpl. destruct (Hs it1 _ i b H1 Hb) as (cb & Hcb & _).
      apply lookup_insert_is_Some'. right. by eexists. }
  cbn [obind]. unfold deleteItem, deleteCells, getItem. simpl.
  rewrite lookup_delete_ne, lookup_insert_ne, lookup_insert_eq by done. cbn [obind]. simpl.
  unfold deleteCell, getCell. simpl. rewrite lookup_delete_eq. done.
Qed.

(** ** A sample *)

Definition okS (m : outcome (store * option YUIException)) : store :=
  match m with Done (s, _) => s | _ => {| cells := ∅; items := ∅ |} end.

Definition sampleStore : store := {| cells := ∅; items := {[ 1%nat := []; 2%nat := [] ]} |}.
Definition sampleLabels : list cstring :=
  [str "eth0"; []; str "up"; []; []; []; []; []; []; []].
Definition sampleRow : store := okS (addCells sampleStore 1 sampleLabels).

Lemma sampleStore_wf : wfTable sampleStore.
Proof.
  intros it cs i a Hit Hi. simpl in Hit.
  apply lookup_insert_Some in Hit as [[_ <-]|[_ [_ <-]%lookup_singleton_Some]]; by rewrite lookup_nil in Hi.
Qed.

Lemma sampleRow_wf : wfTable sampleRow.
Proof.
  destruct (addNewCells_spec 1 (take 3 sampleLabels) sampleStore [] sampleStore_wf eq_refl)
    as (s' & cs' & E & Hs' & _).
  unfold sampleRow, addCells. change (S (lastLabel sampleLabels (length sampleLabels - 1))) with 3%nat.
  rewrite E. done.
Qed.

Lemma add_cells_witness :
  exists s', addCells sampleStore 1 sampleLabels = Done (s', None) /\ wfTable s' /\
    forall i, label s' 1 i = Done (if (0 <=? i)%Z then default [] (sampleLabels !! Z.to_nat i) else []).
Proof.
  apply (add_cells sampleStore 1 sampleLabels); [apply sampleStore_wf|reflexivity|reflexivity].
Defined.

Definition rowCells (s : store) (it : nat) : list nat := default [] (items s !! it).
Definition cellAt (s : store) (a : nat) : YTableCell := default (newCell [] [] []) (cells s !! a).

Lemma delete_item_witness :
  exists s', deleteItem sampleRow 1 = Done s' /\ wfTable s' /\ items s' = delete 1%nat (items sampleRow) /\
    forall a, cells s' !! a = if decide (a ∈ rowCells sampleRow 1) then None else cells sampleRow !! a.
Proof.
  apply (delete_item sampleRow 1 (rowCells sampleRow 1)); [apply sampleRow_wf|vm_compute; reflexivity].
Defined.

Lemma cell_in_two_items_witness :
  exists s1, addCell sampleRow 2 (Some 0%nat) = Done (s1, None) /\
    items s1 !! 1%nat = Some (0%nat :: tail (rowCells sampleRow 1)) /\ items s1 !! 2%nat = Some [0%nat] /\
    (let! s2 := deleteItem s1 1 in deleteItem s2 2) = Undefined.
Proof.
  apply (cell_in_two_items sampleRow 1 2 0 (tail (rowCells sampleRow 1)) (cellAt sampleRow 0));
    [apply sampleRow_wf|vm_compute; reflexivity|vm_compute; reflexivity|vm_compute; reflexivity].
Defined.

End YTableItem.
