(* ===== verification/Property.v ===== *)
(** * Widget properties: types, property sets and their access

    src/libyui/src/YProperty.h, YProperty.cc and the property functions of
    YWidget.cc. A widget class declares its properties in [propertySet()]; a
    value that is set or returned is a [YPropertyValue], a struct with a type
    tag and one member per type, of which a constructor initialises only the
    one that fits. The access functions do not compare the tag with the member
    they read, so reading the wrong one is undefined behaviour. A widget class
    is described by what its three functions contain ([widgetClass]); the
    classes themselves are in PropertyClasses.v. *)

From S2P Require Import Prelude CNum Geometry.

(** ** Properties and values *)
Module YProperty.

Inductive YPropertyType :=
| YUnknownPropertyType
| YOtherProperty
| YStringProperty
| YBoolProperty
| YIntegerProperty.

#[global] Instance YPropertyType_eq_dec : EqDecision YPropertyType.
Proof. solve_decision. Defined.

Record YProperty := Property { name : string; type : YPropertyType; isReadOnly : bool }.

Definition typeAsStr (t : YPropertyType) : string :=
  match t with
  | YUnknownPropertyType => "<Unknown>"
  | YOtherProperty => "<Other>"
  | YStringProperty => "String"
  | YBoolProperty => "Bool"
  | YIntegerProperty => "Integer"
  end.

End YProperty.
Import YProperty.

Module YPropertyValue.

(** The members; [None] is an uninitialised one. The string member has a
    default constructor, so it is always initialised. *)
Record YPropertyValue := Value {
  vtype : YPropertyType;
  _stringVal : string;
  _boolVal : option bool;
  _integerVal : option Z }.

(** The constructors. *)
Definition of_string (s : string) : YPropertyValue := Value YStringProperty s None None.
Definition of_bool (b : bool) : YPropertyValue := Value YBoolProperty "" (Some b) None.
Definition of_integer (num : Z) : YPropertyValue := Value YIntegerProperty "" None (Some num).
Definition of_type (t : YPropertyType) : YPropertyValue := Value t "" None None.
Definition of_nothing : YPropertyValue := Value YUnknownPropertyType "" None None.

(** The access functions. *)
Definition stringVal (v : YPropertyValue) : string := _stringVal v.
Definition boolVal (v : YPropertyValue) : outcome bool :=
  match _boolVal v with Some b => Done b | None => Undefined end.
Definition integerVal (v : YPropertyValue) : outcome Z :=
  match _integerVal v with Some z => Done z | None => Undefined end.

(** [operator==]. *)
Definition eq (this other : YPropertyValue) : outcome bool :=
  if negb (bool_decide (vtype this = vtype other)) then Done false
  else
    match vtype this with
    | YStringProperty => Done (bool_decide (_stringVal this = stringVal other))
    | YBoolProperty =>
        let! a := boolVal this in let! b := boolVal other in Done (Bool.eqb a b)
    | YIntegerProperty =>
        let! a := integerVal this in let! b := integerVal other in Done (a =? b)
    | YUnknownPropertyType | YOtherProperty =>
        Throws (YUIGenericException
          (String.append "Cannot compare " (String.append (typeAsStr (vtype this)) " properties")))
    end.

Definition neq (this other : YPropertyValue) : outcome bool :=
  let! b := eq this other in Done (negb b).

(** The member that fits the type tag is initialised. *)
Definition initialised (v : YPropertyValue) : Prop :=
  match vtype v with
  | YBoolProperty => is_Some (_boolVal v)
  | YIntegerProperty => is_Some (_integerVal v)
  | _ => True
  end.

Definition simple (t : YPropertyType) : Prop :=
  t = YStringProperty \/ t = YBoolProperty \/ t = YIntegerProperty.

(** Values of a simple type that were given a value can always be compared,
    and the comparison is an equality of values of that type. *)
Lemma eq_refl_simple v : simple (vtype v) -> initialised v -> eq v v = Done true.
Proof.
  unfold eq, initialised, boolVal, integerVal. rewrite bool_decide_true by done. simpl.
  intros [-> |[-> | ->]] H; simpl.
  - by rewrite bool_decide_true.
  - destruct H as [b ->]. simpl. by rewrite Bool.eqb_reflx.
  - destruct H as [z ->]. simpl. by rewrite Z.eqb_refl.
Qed.

End YPropertyValue.
Import YPropertyValue.

(** ** Property sets *)
Module YPropertySet.

Section set.
Implicit Types (_properties : list YProperty).

Fixpoint contains _properties (propertyName : string) : bool :=
  match _properties with
  | [] => false
  | it :: rest => if bool_decide (name it = propertyName) then true else contains rest propertyName
  end.

(** The second [contains()], which checks the type as well. *)
Fixpoint containsTyped _properties (propertyName : string) (t : YPropertyType) : result bool :=
  match _properties with
  | [] => Ok false
  | it :: rest =>
      if bool_decide (name it = propertyName) then
        if isReadOnly it then Throw (YUISetReadOnlyPropertyException (name it))
        else if bool_decide (type it = t) || bool_decide (type it = YOtherProperty) then Ok true
        else Throw (YUIPropertyTypeMismatchException (name it))
      else containsTyped rest propertyName t
  end.

Definition check _properties (propertyName : string) : result unit :=
  if negb (contains _properties propertyName) then Throw (YUIUnknownPropertyException propertyName)
  else Ok tt.

Definition checkTyped _properties (propertyName : string) (t : YPropertyType) : result unit :=
  let? found := containsTyped _properties propertyName t in
  if negb found then Throw (YUIUnknownPropertyException propertyName) else Ok tt.

Definition isEmpty _properties : bool := match _properties with [] => true | _ => false end.
Definition size _properties : Z := Z.of_nat (length _properties).

Definition add _properties (prop : YProperty) : list YProperty := _properties ++ [prop].

Definition addSet _properties (otherSet : list YProperty) : list YProperty :=
  fold_left add otherSet _properties.

(** The declaration that counts for a name: the first one. *)
Definition declared _properties (propertyName : string) : option YProperty :=
  List.find (fun p => bool_decide (name p = propertyName)) _properties.

Lemma addSet_app _properties otherSet : addSet _properties otherSet = _properties ++ otherSet.
Proof.
  unfold addSet, add. revert _properties. induction otherSet as [|p l IH]; intros ps; simpl.
  - by rewrite app_nil_r.
  - by rewrite IH, <- app_assoc.
Qed.

Lemma declared_elem _properties n p : declared _properties n = Some p -> p ∈ _properties /\ name p = n.
Proof.
  intros [Hin Hn]%List.find_some. split; [by apply list_elem_of_In|].
  by apply bool_decide_eq_true in Hn.
Qed.

Lemma check_declared _properties n :
  check _properties n =
  match declared _properties n with Some _ => Ok tt | None => Throw (YUIUnknownPropertyException n) end.
Proof.
  unfold check, declared. induction _properties as [|p l IH]; [done|]. simpl.
  case_bool_decide; [done|]. apply IH.
Qed.

Lemma checkTyped_declared _properties n t :
  checkTyped _properties n t =
  match declared _properties n with
  | Some p =>
      if isReadOnly p then Throw (YUISetReadOnlyPropertyException n)
      else if decide (type p = t \/ type p = YOtherProperty) then Ok tt
      else Throw (YUIPropertyTypeMismatchException n)
  | None => Throw (YUIUnknownPropertyException n)
  end.
Proof.
  unfold checkTyped, declared. induction _properties as [|p l IH]; [done|]. simpl.
  case_bool_decide as Hn; [|apply IH]. subst. destruct (isReadOnly p); [done|].
  repeat case_bool_decide; case_decide; simpl; naive_solver.
Qed.

End set.
End YPropertySet.
Import YPropertySet.

(** ** Access to the properties of a widget *)
Module PropertyAccess.

(** Names of properties (YUISymbols.h) that [YWidget] itself uses. *)
Definition YUIProperty_ContextMenu : string := "ContextMenu".
Definition YUIProperty_DebugLabel : string := "DebugLabel".
Definition YUIProperty_Enabled : string := "Enabled".
Definition YUIProperty_HelpText : string := "HelpText".
Definition YUIProperty_HWeight : string := "HWeight".
Definition YUIProperty_HStretch : string := "HStretch".
Definition YUIProperty_ID : string := "ID".
Definition YUIProperty_Notify : string := "Notify".
Definition YUIProperty_VWeight : string := "VWeight".
Definition YUIProperty_VStretch : string := "VStretch".
Definition YUIProperty_WidgetClass : string := "WidgetClass".

(** The attributes a property function reads or writes, one per pair of
    getter and setter, with the name of the getter. The setter of [lastLine]
    is [appendLines()], of [logText] [setLogText()]. *)
Inductive attribute :=
| isEnabled | notify | notifyContextMenu | widgetClassName | helpText | debugLabel | id
| weight (dim : YUIDimension) | stretchable (dim : YUIDimension)
| label | value | text | timeout | alive | validChars | inputMaxLength | iconBasePath
| filename | expectedSize | currentFileSize | currentPercent | layoutAlgorithm | activatedNode
| minValue | maxValue | visibleItems | visibleLines | maxLines | logText | lastLine
| vScrollValue | hScrollValue | currentZone | hasMultiSelection.

#[global] Instance attribute_eq_dec : EqDecision attribute.
Proof. solve_decision. Defined.

(** The getters and setters are virtual functions of the widget, most of them
    implemented by the plug-in. *)
Record methods (W : Type) := Methods {
  fetchString : attribute -> W -> string;
  putString : attribute -> string -> W -> W;
  fetchBool : attribute -> W -> bool;
  putBool : attribute -> bool -> W -> W;
  fetchInt : attribute -> W -> Z;
  putInt : attribute -> Z -> W -> W;
  putZone : string -> bool -> W -> W;
  hasId : W -> bool }.
Arguments fetchString {W} _ _ _.
Arguments putString {W} _ _ _ _.
Arguments fetchBool {W} _ _ _.
Arguments putBool {W} _ _ _ _.
Arguments fetchInt {W} _ _ _.
Arguments putInt {W} _ _ _ _.
Arguments putZone {W} _ _ _ _.
Arguments hasId {W} _ _.

(** A branch of [setProperty()]: [return false], or a setter called with a
    member of the value. The parameter of the setter is a string, a [bool],
    an [int] (to which the [long long] of the value is converted) or a
    [long long]; [setZone] is [setCurrentZone()] with its second argument. *)
Inductive setAction :=
| needsSpecialHandling
| setString (a : attribute)
| setBool (a : attribute)
| setInt (a : attribute)
| setLong (a : attribute)
| setZone (zoom : bool).

(** A branch of [getProperty()]. *)
Inductive getAction :=
| returnOther
| getString (a : attribute)
| getBool (a : attribute)
| getInt (a : attribute).

(** The first branch whose condition [propertyName == ...] holds. *)
Definition branch {A} (branches : list (string * A)) (propertyName : string) : option A :=
  snd <$> List.find (fun b => bool_decide (fst b = propertyName)) branches.

Definition YWidget_propertySet : list YProperty :=
  [ Property YUIProperty_Enabled YBoolProperty false;
    Property YUIProperty_Notify YBoolProperty false;
    Property YUIProperty_WidgetClass YStringProperty true;
    Property YUIProperty_DebugLabel YStringProperty true;
    Property YUIProperty_ID YStringProperty true;
    Property YUIProperty_HelpText YStringProperty false;
    Property YUIProperty_HWeight YIntegerProperty false;
    Property YUIProperty_VWeight YIntegerProperty false;
    Property YUIProperty_HStretch YBoolProperty false;
    Property YUIProperty_VStretch YBoolProperty false ].

Definition YWidget_setBranches : list (string * setAction) :=
  [ (YUIProperty_Enabled, setBool isEnabled);
    (YUIProperty_Notify, setBool notify);
    (YUIProperty_HelpText, setString helpText);
    (YUIProperty_HWeight, setInt (weight YD_HORIZ));
    (YUIProperty_VWeight, setInt (weight YD_VERT));
    (YUIProperty_HStretch, setBool (stretchable YD_HORIZ));
    (YUIProperty_VStretch, setBool (stretchable YD_VERT)) ].

Definition YWidget_getBranches : list (string * getAction) :=
  [ (YUIProperty_Enabled, getBool isEnabled);
    (YUIProperty_Notify, getBool notify);
    (YUIProperty_ContextMenu, getBool notifyContextMenu);
    (YUIProperty_WidgetClass, getString widgetClassName);
    (YUIProperty_HelpText, getString helpText);
    (YUIProperty_DebugLabel, getString debugLabel);
    (YUIProperty_HWeight, getInt (weight YD_HORIZ));
    (YUIProperty_VWeight, getInt (weight YD_VERT));
    (YUIProperty_HStretch, getBool (stretchable YD_HORIZ));
    (YUIProperty_VStretch, getBool (stretchable YD_VERT)) ].

(** A widget class by the contents of its three functions: the properties it
    adds before those of [YWidget]; the [if]s of [setProperty()] that are not
    part of the chain; the chain itself, whose last [else] calls
    [YWidget::setProperty()] and either returns its result or ignores it; the
    chain of [getProperty()]. *)
Record widgetClass := {
  className : string;
  ownProperties : list YProperty;
  setIfs : list (string * setAction);
  setBranches : list (string * setAction);
  getBranches : list (string * getAction);
  returnsInherited : bool }.

(** [propertySet()], virtual. *)
Definition propertySet (c : widgetClass) : list YProperty :=
  addSet (fold_left add (ownProperties c) []) YWidget_propertySet.

Section access.
Context {W : Type} (obj : methods W).

(** One branch: the widget after it and what the function returns. *)
Definition call (act : setAction) (val : YPropertyValue) (w : W) : outcome (W * bool) :=
  match act with
  | needsSpecialHandling => Done (w, false)
  | setString a => Done (putString obj a (stringVal val) w, true)
  | setBool a => let! b := boolVal val in Done (putBool obj a b w, true)
  | setInt a => let! z := integerVal val in Done (putInt obj a (to_int z) w, true)
  | setLong a => let! z := integerVal val in Done (putInt obj a z w, true)
  | setZone zoom => Done (putZone obj (stringVal val) zoom w, true)
  end.

Definition fetch (act : getAction) (w : W) : YPropertyValue :=
  match act with
  | returnOther => of_type YOtherProperty
  | getString a => of_string (fetchString obj a w)
  | getBool a => of_bool (fetchBool obj a w)
  | getInt a => of_integer (fetchInt obj a w)
  end.

(** [YWidget::setProperty()]; [propSet] is the set of the class of the
    widget, since [propertySet()] is virtual. *)
Definition YWidget_setProperty (propSet : list YProperty) (w : W) (propertyName : string)
    (val : YPropertyValue) : outcome (W * bool) :=
  let! _ := lift (checkTyped propSet propertyName (vtype val)) in
  match branch YWidget_setBranches propertyName with
  | Some act => let! r := call act val w in Done (fst r, true)
  | None => Done (w, true)
  end.

Definition YWidget_getProperty (propSet : list YProperty) (w : W) (propertyName : string) :
    outcome YPropertyValue :=
  let! _ := lift (check propSet propertyName) in
  match branch YWidget_getBranches propertyName with
  | Some act => Done (fetch act w)
  | None =>
      if bool_decide (propertyName = YUIProperty_ID) && hasId obj w
      then Done (of_string (fetchString obj id w))
      else Done (of_bool false)
  end.

(** The independent [if]s. *)
Definition runIfs (ifs : list (string * setAction)) (propertyName : string) (val : YPropertyValue)
    (w : W) : outcome W :=
  ofold (fun w b => if bool_decide (fst b = propertyName)
                    then let! r := call (snd b) val w in Done (fst r) else Done w) ifs w.

Definition setProperty (c : widgetClass) (w : W) (propertyName : string) (val : YPropertyValue) :
    outcome (W * bool) :=
  let! _ := lift (checkTyped (propertySet c) propertyName (vtype val)) in
  let! w := runIfs (setIfs c) propertyName val w in
  match branch (setBranches c) propertyName with
  | Some act => call act val w
  | None =>
      let! r := YWidget_setProperty (propertySet c) w propertyName val in
      Done (fst r, if returnsInherited c then snd r else true)
  end.

Definition getProperty (c : widgetClass) (w : W) (propertyName : string) : outcome YPropertyValue :=
  let! _ := lift (check (propertySet c) propertyName) in
  match branch (getBranches c) propertyName with
  | Some act => Done (fetch act w)
  | None => YWidget_getProperty (propertySet c) w propertyName
  end.

End access.

(** *** When the functions of a class fit together *)

(** The type of the member a branch reads. *)
Definition actionType (act : setAction) : YPropertyType :=
  match act with
  | needsSpecialHandling => YOtherProperty
  | setString _ | setZone _ => YStringProperty
  | setBool _ => YBoolProperty
  | setInt _ | setLong _ => YIntegerProperty
  end.

Definition fetchType (act : getAction) : YPropertyType :=
  match act with
  | returnOther => YOtherProperty
  | getString _ => YStringProperty
  | getBool _ => YBoolProperty
  | getInt _ => YIntegerProperty
  end.

(** Everything [setProperty()] executes for a property. *)
Definition ifActions (c : widgetClass) (n : string) : list setAction :=
  snd <$> List.filter (fun b => bool_decide (fst b = n)) (setIfs c).

Definition setActions (c : widgetClass) (n : string) : list setAction :=
  ifActions c n ++
  match branch (setBranches c) n with
  | Some act => [act]
  | None => option_list (branch YWidget_setBranches n)
  end.

Definition isSpecial (act : setAction) : bool :=
  match act with needsSpecialHandling => true | _ => false end.

(** Every writable property has exactly one branch, which reads the member of
    the declared type. *)
Definition setterFits (c : widgetClass) (p : YProperty) : bool :=
  isReadOnly p ||
  match setActions c (name p) with
  | [act] => bool_decide (actionType act = type p)
  | _ => false
  end.

Definition setConsistent (c : widgetClass) : bool :=
  forallb (setterFits c) (propertySet c) && forallb (fun b => negb (isSpecial (snd b))) (setIfs c).

(** What [getProperty()] executes for a property. *)
Definition getActionOf (c : widgetClass) (n : string) : option getAction :=
  match branch (getBranches c) n with
  | Some act => Some act
  | None => branch YWidget_getBranches n
  end.

(** Every property but the ID has a getter of the declared type, or leaves the
    value to special handling. *)
Definition getterFits (c : widgetClass) (p : YProperty) : bool :=
  bool_decide (name p = YUIProperty_ID) ||
  match getActionOf c (name p) with
  | Some act => bool_decide (fetchType act = type p \/ fetchType act = YOtherProperty)
  | None => false
  end.

Section access_lemmas.
Context {W : Type} (obj : methods W).
Implicit Types (w : W) (c : widgetClass).

Lemma branch_elem {A} (l : list (string * A)) n a : branch l n = Some a -> (n, a) ∈ l.
Proof.
  unfold branch. intros ([m a'] & Hf & Ha)%fmap_Some. simpl in Ha. subst a'.
  apply List.find_some in Hf as [Hin Hn]. apply bool_decide_eq_true in Hn. simpl in Hn. subst.
  by apply list_elem_of_In.
Qed.

(** A branch is executed without reading an uninitialised member. *)
Lemma call_defined act val w : initialised val -> isSpecial act = false -> vtype val = actionType act ->
  exists w', call obj act val w = Done (w', true).
Proof.
  unfold initialised. intros Hi Hs Ht. rewrite Ht in Hi. destruct act; simpl in *; try done; eauto;
    unfold boolVal, integerVal; destruct Hi as [? ->]; simpl; eauto.
Qed.

Lemma call_snd act val w w' b : call obj act val w = Done (w', b) -> b = negb (isSpecial act).
Proof.
  unfold call, boolVal, integerVal. destruct act; simpl; repeat case_match; simpl; naive_solver.
Qed.

Lemma YWidget_branch_not_special n act : branch YWidget_setBranches n = Some act -> isSpecial act = false.
Proof. intros H%branch_elem. repeat (apply elem_of_cons in H as [H|H]; [by simplify_eq|]). by apply not_elem_of_nil in H. Qed.

Lemma runIfs_actions ifs n val w :
  runIfs obj ifs n val w =
  ofold (fun w act => let! r := call obj act val w in Done (fst r))
    (snd <$> List.filter (fun b => bool_decide (fst b = n)) ifs) w.
Proof.
  unfold runIfs. revert w. induction ifs as [|[m act] ifs IH]; intros w; [done|]. simpl.
  case_bool_decide; simpl; [|apply IH]. destruct (call obj act val w); simpl; auto.
Qed.

Lemma ifActions_not_special c n act : setConsistent c = true -> act ∈ ifActions c n -> isSpecial act = false.
Proof.
  intros [_ H]%andb_true_iff (b & -> & Hb)%list_elem_of_fmap.
  rewrite forallb_forall in H. apply list_elem_of_In, List.filter_In in Hb as [Hb _].
  specialize (H b Hb). by destruct (isSpecial (snd b)).
Qed.

(** With one action for a property that passes the check, [setProperty()] is
    that action. *)
Lemma setProperty_action c w n val act : setConsistent c = true ->
  setActions c n = [act] -> checkTyped (propertySet c) n (vtype val) = Ok tt ->
  setProperty obj c w n val = call obj act val w.
Proof.
  intros Hc Ha Hk. unfold setProperty. rewrite Hk. cbn [lift obind]. rewrite runIfs_actions.
  change (snd <$> List.filter _ (setIfs c)) with (ifActions c n).
  unfold setActions in Ha. destruct (ifActions c n) as [|a0 l] eqn:Ei; simpl in Ha.
  - simpl. destruct (branch (setBranches c) n) as [a|]; [by simplify_eq|].
    unfold YWidget_setProperty. rewrite Hk. cbn [lift obind].
    destruct (branch YWidget_setBranches n) as [a|] eqn:Eb; simpl in Ha; simplify_eq.
    destruct (call obj act val w) as [[w' b]| | |] eqn:Ec; simpl; try done.
    apply call_snd in Ec. rewrite (YWidget_branch_not_special n act Eb) in Ec. simpl in Ec. subst b.
    by destruct (returnsInherited c).
  - assert (isSpecial a0 = false) as Hs.
    { apply (ifActions_not_special c n); [done|]. rewrite Ei. left. }
    injection Ha as -> Hl. apply app_nil in Hl as [-> Hl]. simpl.
    destruct (call obj act val w) as [[w' b]| | |] eqn:Ec; simpl; try done.
    apply call_snd in Ec. rewrite Hs in Ec. simpl in Ec. subst b.
    destruct (branch (setBranches c) n); [done|]. unfold YWidget_setProperty. rewrite Hk. cbn [lift obind].
    destruct (branch YWidget_setBranches n); [done|]. simpl. by destruct (returnsInherited c).
Qed.

Lemma setterFits_declared c n p : setConsistent c = true -> declared (propertySet c) n = Some p ->
  isReadOnly p = false -> exists act, setActions c n = [act] /\ actionType act = type p.
Proof.
  intros [H _]%andb_true_iff [Hin <-]%declared_elem Hr. rewrite forallb_forall in H.
  apply list_elem_of_In in Hin. specialize (H p Hin). unfold setterFits in H. rewrite Hr in H. simpl in H.
  destruct (setActions c (name p)) as [|act [|]]; try done. apply bool_decide_eq_true in H. eauto.
Qed.

(** What [setProperty()] of a consistent class does, for every name and every
    value. *)
Lemma setProperty_spec c w n val : setConsistent c = true -> initialised val ->
  match declared (propertySet c) n with
  | None => setProperty obj c w n val = Throws (YUIUnknownPropertyException n)
  | Some p =>
      if isReadOnly p then setProperty obj c w n val = Throws (YUISetReadOnlyPropertyException n)
      else if decide (type p = YOtherProperty) then setProperty obj c w n val = Done (w, false)
      else if decide (type p = vtype val) then
        exists act w', setActions c n = [act] /\ call obj act val w = Done (w', true) /\
          setProperty obj c w n val = Done (w', true)
      else setProperty obj c w n val = Throws (YUIPropertyTypeMismatchException n)
  end.
Proof.
  intros Hc Hi. pose proof (checkTyped_declared (propertySet c) n (vtype val)) as Hk.
  destruct (declared (propertySet c) n) as [p|] eqn:Ed; [|by unfold setProperty; rewrite Hk].
  destruct (isReadOnly p) eqn:Er; [by unfold setProperty; rewrite Hk|].
  destruct (setterFits_declared c n p Hc Ed Er) as (act & Ha & Ht).
  destruct (decide (type p = YOtherProperty)) as [Ho|Ho].
  - rewrite decide_True in Hk by tauto. rewrite (setProperty_action c w n val act) by done.
    rewrite Ho in Ht. clear -Ht. destruct act; done.
  - destruct (decide (type p = vtype val)) as [Hv|Hv].
    + rewrite decide_True in Hk by tauto.
      destruct (call_defined act val w Hi) as [w' Hw']; [|congruence|].
      { by destruct act. }
      exists act, w'. by rewrite (setProperty_action c w n val act).
    + rewrite decide_False in Hk by tauto. unfold setProperty. by rewrite Hk.
Qed.

(** [getProperty()] throws only for a name that is not declared. *)
Lemma getProperty_spec c w n :
  match declared (propertySet c) n with
  | None => getProperty obj c w n = Throws (YUIUnknownPropertyException n)
  | Some p => getProperty obj c w n =
      match getActionOf c n with
      | Some act => Done (fetch obj act w)
      | None => if bool_decide (n = YUIProperty_ID) && hasId obj w
                then Done (of_string (fetchString obj id w)) else Done (of_bool false)
      end
  end.
Proof.
  unfold getProperty, YWidget_getProperty, getActionOf. rewrite check_declared.
  destruct (declared (propertySet c) n); [|done]. cbn [lift obind].
  by destruct (branch (getBranches c) n).
Qed.

Lemma fetch_type act w : vtype (fetch obj act w) = fetchType act.
Proof. by destruct act. Qed.

End access_lemmas.
End PropertyAccess.
