(* ===== verification/PropertyClasses.v ===== *)
(** * The properties of every widget class

    The [propertySet()], [setProperty()] and [getProperty()] of the widget
    classes under src/libyui/src, one [widgetClass] each, and what they have in
    common: for all of them but the recorded exceptions, setting a property
    never reads an uninitialised member, getting one returns a value of the
    declared type, and a value that was set is what comes back. *)

From S2P Require Import Prelude CNum Geometry Property.
Import YProperty YPropertyValue YPropertySet PropertyAccess.

Module WidgetClasses.

(** Property names (YUISymbols.h). *)
Definition YUIProperty_Alive : string := "Alive".
Definition YUIProperty_Cell : string := "Cell".
Definition YUIProperty_CurrentBranch : string := "CurrentBranch".
Definition YUIProperty_CurrentButton : string := "CurrentButton".
Definition YUIProperty_CurrentItem : string := "CurrentItem".
Definition YUIProperty_CurrentSize : string := "CurrentSize".
Definition YUIProperty_EnabledItems : string := "EnabledItems".
Definition YUIProperty_ExpectedSize : string := "ExpectedSize".
Definition YUIProperty_Filename : string := "Filename".
Definition YUIProperty_HScrollValue : string := "HScrollValue".
Definition YUIProperty_IconPath : string := "IconPath".
Definition YUIProperty_InputMaxLength : string := "InputMaxLength".
Definition YUIProperty_Item : string := "Item".
Definition YUIProperty_ItemStatus : string := "ItemStatus".
Definition YUIProperty_Items : string := "Items".
Definition YUIProperty_Label : string := "Label".
Definition YUIProperty_Labels : string := "Labels".
Definition YUIProperty_LastLine : string := "LastLine".
Definition YUIProperty_Layout : string := "Layout".
Definition YUIProperty_MaxLines : string := "MaxLines".
Definition YUIProperty_MaxValue : string := "MaxValue".
Definition YUIProperty_MinValue : string := "MinValue".
Definition YUIProperty_MultiSelection : string := "MultiSelection".
Definition YUIProperty_OpenItems : string := "OpenItems".
Definition YUIProperty_SelectedItems : string := "SelectedItems".
Definition YUIProperty_Text : string := "Text".
Definition YUIProperty_Timeout : string := "Timeout".
Definition YUIProperty_VScrollValue : string := "VScrollValue".
Definition YUIProperty_ValidChars : string := "ValidChars".
Definition YUIProperty_Value : string := "Value".
Definition YUIProperty_Values : string := "Values".
Definition YUIProperty_VisibleItems : string := "VisibleItems".
Definition YUIProperty_VisibleLines : string := "VisibleLines".

Definition YBarGraph : widgetClass := {|
  className := "YBarGraph";
  ownProperties :=
    [ Property YUIProperty_Values YOtherProperty false;
      Property YUIProperty_Labels YOtherProperty false ];
  setIfs := [];
  setBranches :=
    [ (YUIProperty_Values, needsSpecialHandling);
      (YUIProperty_Labels, needsSpecialHandling) ];
  getBranches :=
    [ (YUIProperty_Values, returnOther);
      (YUIProperty_Labels, returnOther) ];
  returnsInherited := false |}.

Definition YBusyIndicator : widgetClass := {|
  className := "YBusyIndicator";
  ownProperties :=
    [ Property YUIProperty_Timeout YIntegerProperty false;
      Property YUIProperty_Alive YBoolProperty false;
      Property YUIProperty_Label YStringProperty false ];
  setIfs := [];
  setBranches :=
    [ (YUIProperty_Timeout, setInt timeout);
      (YUIProperty_Alive, setBool alive);
      (YUIProperty_Label, setString label) ];
  getBranches :=
    [ (YUIProperty_Timeout, getInt timeout);
      (YUIProperty_Label, getString label);
      (YUIProperty_Alive, getBool alive) ];
  returnsInherited := true |}.

Definition YCheckBox : widgetClass := {|
  className := "YCheckBox";
  ownProperties :=
    [ Property YUIProperty_Value YOtherProperty false;
      Property YUIProperty_Label YStringProperty false ];
  setIfs := [];
  setBranches :=
    [ (YUIProperty_Value, needsSpecialHandling);
      (YUIProperty_Label, setString label) ];
  getBranches :=
    [ (YUIProperty_Value, returnOther);
      (YUIProperty_Label, getString label) ];
  returnsInherited := true |}.

Definition YCheckBoxFrame : widgetClass := {|
  className := "YCheckBoxFrame";
  ownProperties :=
    [ Property YUIProperty_Value YBoolProperty false;
      Property YUIProperty_Label YStringProperty false ];
  setIfs := [];
  setBranches :=
    [ (YUIProperty_Value, setBool value);
      (YUIProperty_Label, setString label) ];
  getBranches :=
    [ (YUIProperty_Value, getBool value);
      (YUIProperty_Label, getString label) ];
  returnsInherited := true |}.

Definition YComboBox : widgetClass := {|
  className := "YComboBox";
  ownProperties :=
    [ Property YUIProperty_Value YOtherProperty false;
      Property YUIProperty_Items YOtherProperty false;
      Property YUIProperty_Label YStringProperty false;
      Property YUIProperty_ValidChars YStringProperty false;
      Property YUIProperty_InputMaxLength YIntegerProperty false;
      Property YUIProperty_IconPath YStringProperty false ];
  setIfs := [];
  setBranches :=
    [ (YUIProperty_Value, needsSpecialHandling);
      (YUIProperty_Items, needsSpecialHandling);
      (YUIProperty_Label, setString label);
      (YUIProperty_ValidChars, setString validChars);
      (YUIProperty_InputMaxLength, setInt inputMaxLength);
      (YUIProperty_IconPath, setString iconBasePath) ];
  getBranches :=
    [ (YUIProperty_Value, returnOther);
      (YUIProperty_Items, returnOther);
      (YUIProperty_Label, getString label);
      (YUIProperty_ValidChars, getString validChars);
      (YUIProperty_InputMaxLength, getInt inputMaxLength);
      (YUIProperty_IconPath, getString iconBasePath) ];
  returnsInherited := true |}.

Definition YContextMenu : widgetClass := {|
  className := "YContextMenu";
  ownProperties :=
    [ Property YUIProperty_Label YStringProperty false;
      Property YUIProperty_Items YOtherProperty false;
      Property YUIProperty_IconPath YStringProperty false ];
  setIfs := [];
  setBranches :=
    [ (YUIProperty_Label, setString label);
      (YUIProperty_Items, needsSpecialHandling);
      (YUIProperty_IconPath, setString iconBasePath) ];
  getBranches :=
    [ (YUIProperty_Label, getString label);
      (YUIProperty_Items, returnOther);
      (YUIProperty_IconPath, getString iconBasePath) ];
  returnsInherited := true |}.

Definition YDownloadProgress : widgetClass := {|
  className := "YDownloadProgress";
  ownProperties :=
    [ Property YUIProperty_Label YStringProperty false;
      Property YUIProperty_Filename YStringProperty false;
      Property YUIProperty_ExpectedSize YIntegerProperty false;
      Property YUIProperty_CurrentSize YIntegerProperty true;
      Property YUIProperty_Value YIntegerProperty true ];
  setIfs :=
    [ (YUIProperty_Label, setString label);
      (YUIProperty_Filename, setString filename) ];
  setBranches :=
    [ (YUIProperty_ExpectedSize, setLong expectedSize) ];
  getBranches :=
    [ (YUIProperty_Label, getString label);
      (YUIProperty_Filename, getString filename);
      (YUIProperty_ExpectedSize, getInt expectedSize);
      (YUIProperty_CurrentSize, getInt currentFileSize);
      (YUIProperty_Value, getInt currentPercent) ];
  returnsInherited := false |}.

Definition YDumbTab : widgetClass := {|
  className := "YDumbTab";
  ownProperties :=
    [ Property YUIProperty_Value YOtherProperty false;
      Property YUIProperty_CurrentItem YOtherProperty false;
      Property YUIProperty_Items YOtherProperty false ];
  setIfs := [];
  setBranches :=
    [ (YUIProperty_Value, needsSpecialHandling);
      (YUIProperty_CurrentItem, needsSpecialHandling);
      (YUIProperty_Items, needsSpecialHandling) ];
  getBranches :=
    [ (YUIProperty_Value, returnOther);
      (YUIProperty_CurrentItem, returnOther);
      (YUIProperty_Items, returnOther) ];
  returnsInherited := true |}.

Definition YFrame : widgetClass := {|
  className := "YFrame";
  ownProperties :=
    [ Property YUIProperty_Label YStringProperty false ];
  setIfs := [];
  setBranches :=
    [ (YUIProperty_Label, setString label) ];
  getBranches :=
    [ (YUIProperty_Label, getString label) ];
  returnsInherited := true |}.

Definition YGraph : widgetClass := {|
  className := "YGraph";
  ownProperties :=
    [ Property YUIProperty_Filename YStringProperty false;
      Property YUIProperty_Layout YStringProperty false;
      Property YUIProperty_Item YStringProperty true ];
  setIfs := [];
  setBranches :=
    [ (YUIProperty_Filename, setString filename);
      (YUIProperty_Layout, setString layoutAlgorithm) ];
  getBranches :=
    [ (YUIProperty_Filename, getString filename);
      (YUIProperty_Layout, getString layoutAlgorithm);
      (YUIProperty_Item, getString activatedNode) ];
  returnsInherited := true |}.

Definition YInputField : widgetClass := {|
  className := "YInputField";
  ownProperties :=
    [ Property YUIProperty_Value YStringProperty false;
      Property YUIProperty_Label YStringProperty false;
      Property YUIProperty_ValidChars YStringProperty false;
      Property YUIProperty_InputMaxLength YIntegerProperty false ];
  setIfs := [];
  setBranches :=
    [ (YUIProperty_Value, setString value);
      (YUIProperty_Label, setString label);
      (YUIProperty_ValidChars, setString validChars);
      (YUIProperty_InputMaxLength, setInt inputMaxLength) ];
  getBranches :=
    [ (YUIProperty_Value, getString value);
      (YUIProperty_Label, getString label);
      (YUIProperty_ValidChars, getString validChars);
      (YUIProperty_InputMaxLength, getInt inputMaxLength) ];
  returnsInherited := true |}.

Definition YIntField : widgetClass := {|
  className := "YIntField";
  ownProperties :=
    [ Property YUIProperty_Value YIntegerProperty false;
      Property YUIProperty_MinValue YIntegerProperty false;
      Property YUIProperty_MaxValue YIntegerProperty false;
      Property YUIProperty_Label YStringProperty false ];
  setIfs := [];
  setBranches :=
    [ (YUIProperty_Value, setInt value);
      (YUIProperty_MinValue, setInt minValue);
      (YUIProperty_MaxValue, setInt maxValue);
      (YUIProperty_Label, setString label) ];
  getBranches :=
    [ (YUIProperty_Value, getInt value);
      (YUIProperty_MinValue, getInt minValue);
      (YUIProperty_MaxValue, getInt maxValue);
      (YUIProperty_Label, getString label) ];
  returnsInherited := true |}.

Definition YItemSelector : widgetClass := {|
  className := "YItemSelector";
  ownProperties :=
    [ Property YUIProperty_Value YOtherProperty false;
      Property YUIProperty_CurrentItem YOtherProperty false;
      Property YUIProperty_SelectedItems YOtherProperty false;
      Property YUIProperty_Items YOtherProperty false;
      Property YUIProperty_ItemStatus YOtherProperty false;
      Property YUIProperty_VisibleItems YIntegerProperty false;
      Property YUIProperty_IconPath YStringProperty false ];
  setIfs := [];
  setBranches :=
    [ (YUIProperty_Value, needsSpecialHandling);
      (YUIProperty_CurrentItem, needsSpecialHandling);
      (YUIProperty_SelectedItems, needsSpecialHandling);
      (YUIProperty_Items, needsSpecialHandling);
      (YUIProperty_ItemStatus, needsSpecialHandling);
      (YUIProperty_VisibleItems, setInt visibleItems);
      (YUIProperty_IconPath, setString iconBasePath) ];
  getBranches :=
    [ (YUIProperty_Value, returnOther);
      (YUIProperty_CurrentItem, returnOther);
      (YUIProperty_SelectedItems, returnOther);
      (YUIProperty_Items, returnOther);
      (YUIProperty_ItemStatus, returnOther);
      (YUIProperty_VisibleItems, getInt visibleItems);
      (YUIProperty_IconPath, getString iconBasePath) ];
  returnsInherited := true |}.

Definition YLabel : widgetClass := {|
  className := "YLabel";
  ownProperties :=
    [ Property YUIProperty_Label YStringProperty false;
      Property YUIProperty_Value YStringProperty false;
      Property YUIProperty_Text YStringProperty false ];
  setIfs := [];
  setBranches :=
    [ (YUIProperty_Label, setString text);
      (YUIProperty_Value, setString text);
      (YUIProperty_Text, setString text) ];
  getBranches :=
    [ (YUIProperty_Label, getString text);
      (YUIProperty_Value, getString text);
      (YUIProperty_Text, getString text) ];
  returnsInherited := true |}.

Definition YLogView : widgetClass := {|
  className := "YLogView";
  ownProperties :=
    [ Property YUIProperty_Value YStringProperty false;
      Property YUIProperty_LastLine YStringProperty false;
      Property YUIProperty_VisibleLines YIntegerProperty false;
      Property YUIProperty_MaxLines YIntegerProperty false;
      Property YUIProperty_Label YStringProperty false ];
  setIfs := [];
  setBranches :=
    [ (YUIProperty_Value, setString logText);
      (YUIProperty_LastLine, setString lastLine);
      (YUIProperty_VisibleLines, setInt visibleLines);
      (YUIProperty_MaxLines, setInt maxLines);
      (YUIProperty_Label, setString label) ];
  getBranches :=
    [ (YUIProperty_Value, getString logText);
      (YUIProperty_LastLine, getString lastLine);
      (YUIProperty_VisibleLines, getInt visibleLines);
      (YUIProperty_MaxLines, getInt maxLines);
      (YUIProperty_Label, getString label) ];
  returnsInherited := true |}.

Definition YMenuBar : widgetClass := {|
  className := "YMenuBar";
  ownProperties :=
    [ Property YUIProperty_Items YOtherProperty false;
      Property YUIProperty_EnabledItems YOtherProperty false;
      Property YUIProperty_IconPath YStringProperty false ];
  setIfs := [];
  setBranches :=
    [ (YUIProperty_Items, needsSpecialHandling);
      (YUIProperty_EnabledItems, needsSpecialHandling);
      (YUIProperty_IconPath, setString iconBasePath) ];
  getBranches :=
    [ (YUIProperty_Items, returnOther);
      (YUIProperty_EnabledItems, returnOther);
      (YUIProperty_IconPath, getString iconBasePath) ];
  returnsInherited := true |}.

Definition YMenuButton : widgetClass := {|
  className := "YMenuButton";
  ownProperties :=
    [ Property YUIProperty_Label YStringProperty false;
      Property YUIProperty_Items YOtherProperty false;
      Property YUIProperty_IconPath YStringProperty false ];
  setIfs := [];
  setBranches :=
    [ (YUIProperty_Label, setString label);
      (YUIProperty_Items, needsSpecialHandling);
      (YUIProperty_IconPath, setString iconBasePath) ];
  getBranches :=
    [ (YUIProperty_Label, getString label);
      (YUIProperty_Items, returnOther);
      (YUIProperty_IconPath, getString iconBasePath) ];
  returnsInherited := true |}.

Definition YMultiLineEdit : widgetClass := {|
  className := "YMultiLineEdit";
  ownProperties :=
    [ Property YUIProperty_Value YStringProperty false;
      Property YUIProperty_Label YStringProperty false;
      Property YUIProperty_InputMaxLength YIntegerProperty false ];
  setIfs := [];
  setBranches :=
    [ (YUIProperty_Value, setString value);
      (YUIProperty_Label, setString label);
      (YUIProperty_InputMaxLength, setInt inputMaxLength) ];
  getBranches :=
    [ (YUIProperty_Value, getString value);
      (YUIProperty_Label, getString label);
      (YUIProperty_InputMaxLength, getInt inputMaxLength) ];
  returnsInherited := true |}.

Definition YMultiProgressMeter : widgetClass := {|
  className := "YMultiProgressMeter";
  ownProperties :=
    [ Property YUIProperty_Values YOtherProperty false ];
  setIfs := [];
  setBranches :=
    [ (YUIProperty_Values, needsSpecialHandling) ];
  getBranches :=
    [ (YUIProperty_Values, returnOther) ];
  returnsInherited := false |}.

Definition YMultiSelectionBox : widgetClass := {|
  className := "YMultiSelectionBox";
  ownProperties :=
    [ Property YUIProperty_CurrentItem YOtherProperty false;
      Property YUIProperty_SelectedItems YOtherProperty false;
      Property YUIProperty_Items YOtherProperty false;
      Property YUIProperty_Label YStringProperty false;
      Property YUIProperty_IconPath YStringProperty false ];
  setIfs := [];
  setBranches :=
    [ (YUIProperty_CurrentItem, needsSpecialHandling);
      (YUIProperty_SelectedItems, needsSpecialHandling);
      (YUIProperty_Items, needsSpecialHandling);
      (YUIProperty_Label, setString label);
      (YUIProperty_IconPath, setString iconBasePath) ];
  getBranches :=
    [ (YUIProperty_CurrentItem, returnOther);
      (YUIProperty_SelectedItems, returnOther);
      (YUIProperty_Items, returnOther);
      (YUIProperty_Label, getString label) ];
  returnsInherited := true |}.

Definition YPartitionSplitter : widgetClass := {|
  className := "YPartitionSplitter";
  ownProperties :=
    [ Property YUIProperty_Value YStringProperty false ];
  setIfs := [];
  setBranches :=
    [ (YUIProperty_Value, setInt value) ];
  getBranches :=
    [ (YUIProperty_Value, getInt value) ];
  returnsInherited := true |}.

Definition YProgressBar : widgetClass := {|
  className := "YProgressBar";
  ownProperties :=
    [ Property YUIProperty_Value YIntegerProperty false;
      Property YUIProperty_Label YStringProperty false ];
  setIfs := [];
  setBranches :=
    [ (YUIProperty_Value, setInt value);
      (YUIProperty_Label, setString label) ];
  getBranches :=
    [ (YUIProperty_Value, getInt value);
      (YUIProperty_Label, getString label) ];
  returnsInherited := true |}.

Definition YPushButton : widgetClass := {|
  className := "YPushButton";
  ownProperties :=
    [ Property YUIProperty_Label YStringProperty false ];
  setIfs := [];
  setBranches :=
    [ (YUIProperty_Label, setString label) ];
  getBranches :=
    [ (YUIProperty_Label, getString label) ];
  returnsInherited := false |}.

Definition YRadioButton : widgetClass := {|
  className := "YRadioButton";
  ownProperties :=
    [ Property YUIProperty_Value YBoolProperty false;
      Property YUIProperty_Label YStringProperty false ];
  setIfs := [];
  setBranches :=
    [ (YUIProperty_Value, setBool value);
      (YUIProperty_Label, setString label) ];
  getBranches :=
    [ (YUIProperty_Value, getBool value);
      (YUIProperty_Label, getString label) ];
  returnsInherited := true |}.

Definition YRadioButtonGroup : widgetClass := {|
  className := "YRadioButtonGroup";
  ownProperties :=
    [ Property YUIProperty_Value YOtherProperty false;
      Property YUIProperty_CurrentButton YOtherProperty false ];
  setIfs := [];
  setBranches :=
    [ (YUIProperty_CurrentButton, needsSpecialHandling);
      (YUIProperty_Value, needsSpecialHandling) ];
  getBranches :=
    [ (YUIProperty_CurrentButton, returnOther);
      (YUIProperty_Value, returnOther) ];
  returnsInherited := true |}.

Definition YRichText : widgetClass := {|
  className := "YRichText";
  ownProperties :=
    [ Property YUIProperty_Value YStringProperty false;
      Property YUIProperty_Text YStringProperty false;
      Property YUIProperty_VScrollValue YStringProperty false;
      Property YUIProperty_HScrollValue YStringProperty false ];
  setIfs := [];
  setBranches :=
    [ (YUIProperty_Value, setString value);
      (YUIProperty_Text, setString value);
      (YUIProperty_VScrollValue, setString vScrollValue);
      (YUIProperty_HScrollValue, setString hScrollValue) ];
  getBranches :=
    [ (YUIProperty_Value, getString value);
      (YUIProperty_Text, getString value);
      (YUIProperty_VScrollValue, getString vScrollValue);
      (YUIProperty_HScrollValue, getString hScrollValue) ];
  returnsInherited := true |}.

Definition YSelectionBox : widgetClass := {|
  className := "YSelectionBox";
  ownProperties :=
    [ Property YUIProperty_Value YOtherProperty false;
      Property YUIProperty_CurrentItem YOtherProperty false;
      Property YUIProperty_Items YOtherProperty false;
      Property YUIProperty_Label YStringProperty false;
      Property YUIProperty_IconPath YStringProperty false ];
  setIfs := [];
  setBranches :=
    [ (YUIProperty_Value, needsSpecialHandling);
      (YUIProperty_CurrentItem, needsSpecialHandling);
      (YUIProperty_Items, needsSpecialHandling);
      (YUIProperty_Label, setString label);
      (YUIProperty_IconPath, setString iconBasePath) ];
  getBranches :=
    [ (YUIProperty_Value, returnOther);
      (YUIProperty_CurrentItem, returnOther);
      (YUIProperty_Items, returnOther);
      (YUIProperty_Label, getString label);
      (YUIProperty_IconPath, getString iconBasePath) ];
  returnsInherited := true |}.

Definition YSimpleInputField : widgetClass := {|
  className := "YSimpleInputField";
  ownProperties :=
    [ Property YUIProperty_Value YStringProperty false;
      Property YUIProperty_Label YStringProperty false ];
  setIfs := [];
  setBranches :=
    [ (YUIProperty_Value, setString value);
      (YUIProperty_Label, setString label) ];
  getBranches :=
    [ (YUIProperty_Value, getString value);
      (YUIProperty_Label, getString label) ];
  returnsInherited := true |}.

Definition YTable : widgetClass := {|
  className := "YTable";
  ownProperties :=
    [ Property YUIProperty_Value YOtherProperty false;
      Property YUIProperty_CurrentItem YOtherProperty false;
      Property YUIProperty_SelectedItems YOtherProperty false;
      Property YUIProperty_Items YOtherProperty false;
      Property YUIProperty_Cell YOtherProperty false;
      Property YUIProperty_Item YOtherProperty false;
      Property YUIProperty_IconPath YStringProperty false;
      Property YUIProperty_MultiSelection YBoolProperty true;
      Property YUIProperty_OpenItems YOtherProperty true ];
  setIfs := [];
  setBranches :=
    [ (YUIProperty_Value, needsSpecialHandling);
      (YUIProperty_CurrentItem, needsSpecialHandling);
      (YUIProperty_SelectedItems, needsSpecialHandling);
      (YUIProperty_Items, needsSpecialHandling);
      (YUIProperty_Cell, needsSpecialHandling);
      (YUIProperty_Item, needsSpecialHandling);
      (YUIProperty_IconPath, setString iconBasePath) ];
  getBranches :=
    [ (YUIProperty_Value, returnOther);
      (YUIProperty_CurrentItem, returnOther);
      (YUIProperty_SelectedItems, returnOther);
      (YUIProperty_Items, returnOther);
      (YUIProperty_Cell, returnOther);
      (YUIProperty_Item, returnOther);
      (YUIProperty_IconPath, getString iconBasePath);
      (YUIProperty_MultiSelection, getBool hasMultiSelection);
      (YUIProperty_OpenItems, returnOther) ];
  returnsInherited := true |}.

Definition YTimezoneSelector : widgetClass := {|
  className := "YTimezoneSelector";
  ownProperties :=
    [ Property YUIProperty_Value YStringProperty false;
      Property YUIProperty_CurrentItem YStringProperty false ];
  setIfs := [];
  setBranches :=
    [ (YUIProperty_Value, setZone true);
      (YUIProperty_CurrentItem, setZone false) ];
  getBranches :=
    [ (YUIProperty_Value, getString currentZone);
      (YUIProperty_CurrentItem, getString currentZone) ];
  returnsInherited := true |}.

Definition YTree : widgetClass := {|
  className := "YTree";
  ownProperties :=
    [ Property YUIProperty_Value YOtherProperty false;
      Property YUIProperty_CurrentItem YOtherProperty false;
      Property YUIProperty_CurrentBranch YOtherProperty false;
      Property YUIProperty_Items YOtherProperty false;
      Property YUIProperty_Label YStringProperty false;
      Property YUIProperty_IconPath YStringProperty false;
      Property YUIProperty_SelectedItems YOtherProperty false;
      Property YUIProperty_MultiSelection YBoolProperty true;
      Property YUIProperty_OpenItems YOtherProperty true ];
  setIfs := [];
  setBranches :=
    [ (YUIProperty_Value, needsSpecialHandling);
      (YUIProperty_CurrentItem, needsSpecialHandling);
      (YUIProperty_CurrentBranch, needsSpecialHandling);
      (YUIProperty_Items, needsSpecialHandling);
      (YUIProperty_SelectedItems, needsSpecialHandling);
      (YUIProperty_Label, setString label);
      (YUIProperty_IconPath, setString iconBasePath) ];
  getBranches :=
    [ (YUIProperty_Value, returnOther);
      (YUIProperty_CurrentItem, returnOther);
      (YUIProperty_CurrentBranch, returnOther);
      (YUIProperty_Items, returnOther);
      (YUIProperty_Label, getString label);
      (YUIProperty_IconPath, getString iconBasePath);
      (YUIProperty_SelectedItems, returnOther);
      (YUIProperty_MultiSelection, getBool hasMultiSelection);
      (YUIProperty_OpenItems, returnOther) ];
  returnsInherited := true |}.

Definition YWizard : widgetClass := {|
  className := "YWizard";
  ownProperties :=
    [ Property YUIProperty_CurrentItem YStringProperty true ];
  setIfs := [];
  setBranches := [];
  getBranches :=
    [ (YUIProperty_CurrentItem, returnOther) ];
  returnsInherited := true |}.

(** A class that overrides none of the functions. *)
Definition YWidget : widgetClass := {|
  className := "YWidget";
  ownProperties := [];
  setIfs := [];
  setBranches := [];
  getBranches := [];
  returnsInherited := true |}.

Definition widgetClasses : list widgetClass :=
  [ YWidget; YBarGraph; YBusyIndicator; YCheckBox; YCheckBoxFrame; YComboBox; YContextMenu;
    YDownloadProgress; YDumbTab; YFrame; YGraph; YInputField; YIntField; YItemSelector; YLabel;
    YLogView; YMenuBar; YMenuButton; YMultiLineEdit; YMultiProgressMeter; YMultiSelectionBox;
    YPartitionSplitter; YProgressBar; YPushButton; YRadioButton; YRadioButtonGroup; YRichText;
    YSelectionBox; YSimpleInputField; YTable; YTimezoneSelector; YTree; YWizard ].

(** ** Consistency of the classes *)

(** The attribute that setting and getting a property have in common. *)
Definition commonAttribute (act : setAction) (g : getAction) : option attribute :=
  match act, g with
  | setString a, getString b
  | setBool a, getBool b
  | setInt a, getInt b
  | setLong a, getInt b => if decide (a = b) then Some a else None
  | _, _ => None
  end.

Definition attributeOf (c : widgetClass) (n : string) : option attribute :=
  match setActions c n, getActionOf c n with
  | [act], Some g => commonAttribute act g
  | _, _ => None
  end.

(** The properties whose value comes back with another type than declared:
    an integer for a string, the value that stands for no property, and a
    value for special handling. *)
Definition otherwiseTyped (c : widgetClass) (n : string) : bool :=
  bool_decide ((className c, n) ∈
    [("YPartitionSplitter", YUIProperty_Value); ("YMultiSelectionBox", YUIProperty_IconPath);
     ("YWizard", YUIProperty_CurrentItem)]).

(** The properties whose setter does not store what the getter returns. *)
Definition notStored (c : widgetClass) (n : string) : bool :=
  bool_decide ((className c, n) ∈
    [("YMultiSelectionBox", YUIProperty_IconPath); ("YTimezoneSelector", YUIProperty_Value);
     ("YTimezoneSelector", YUIProperty_CurrentItem)]).

Definition isSimple (t : YPropertyType) : bool :=
  match t with YStringProperty | YBoolProperty | YIntegerProperty => true | _ => false end.

Definition typesFit (c : widgetClass) (p : YProperty) : bool :=
  otherwiseTyped c (name p) ||
  match getActionOf c (name p) with
  | Some act => bool_decide (fetchType act = type p)
  | None => bool_decide (name p = YUIProperty_ID) && bool_decide (type p = YStringProperty)
  end.

Definition storageFits (c : widgetClass) (p : YProperty) : bool :=
  notStored c (name p) || isReadOnly p || negb (isSimple (type p)) ||
  match attributeOf c (name p) with Some _ => true | None => false end.

(** The classes are checked by evaluation. *)
Lemma classes_setters : forallb
  (fun c => bool_decide (className c = "YPartitionSplitter") || setConsistent c) widgetClasses = true.
Proof. vm_compute. reflexivity. Qed.

Lemma classes_getters : forallb (fun c => forallb (typesFit c) (propertySet c)) widgetClasses = true.
Proof. vm_compute. reflexivity. Qed.

Lemma classes_storage : forallb (fun c => forallb (storageFits c) (propertySet c)) widgetClasses = true.
Proof. vm_compute. reflexivity. Qed.

Lemma classes_at (f : widgetClass -> bool) c : forallb f widgetClasses = true -> c ∈ widgetClasses -> f c = true.
Proof. rewrite forallb_forall, list_elem_of_In. auto. Qed.

Lemma classes_declared (f : widgetClass -> YProperty -> bool) c n p :
  forallb (fun c => forallb (f c) (propertySet c)) widgetClasses = true ->
  c ∈ widgetClasses -> declared (propertySet c) n = Some p -> f c p = true /\ name p = n.
Proof.
  intros H Hc [Hp Hn]%declared_elem. pose proof (classes_at _ c H Hc) as Hf. simpl in Hf.
  rewrite forallb_forall in Hf. split; [|done]. by apply Hf, list_elem_of_In.
Qed.

Lemma setConsistent_class c : c ∈ widgetClasses -> className c <> "YPartitionSplitter" ->
  setConsistent c = true.
Proof.
  intros Hc Hn. pose proof (classes_at _ c classes_setters Hc) as H. simpl in H.
  by rewrite bool_decide_false in H.
Qed.

(** A pair of getter and setter that stores what it is given. *)
Definition stores {W} (obj : methods W) (a : attribute) : Prop :=
  forall w, (forall s, fetchString obj a (putString obj a s w) = s) /\
    (forall b, fetchBool obj a (putBool obj a b w) = b) /\
    (forall z, fetchInt obj a (putInt obj a z w) = z).

Section classes.
Context {W : Type} (obj : methods W).
Implicit Types (w : W) (c : widgetClass).

Lemma common_roundtrip act g a val w w' : commonAttribute act g = Some a -> stores obj a ->
  vtype val = actionType act -> (forall z, _integerVal val = Some z -> fits_int z) ->
  call obj act val w = Done (w', true) -> eq (fetch obj g w') val = Done true.
Proof.
  intros Ha Hst Hv Hz Hc. destruct (Hst w) as (Hstr & Hbool & Hnum). unfold commonAttribute in Ha.
  destruct val as [t s ob oz]. simpl in *. subst t.
  destruct act, g; try done; case_decide; simplify_eq; simpl in Hc;
    unfold boolVal, integerVal in Hc; simpl in Hc; repeat case_match; simpl in Hc; simplify_eq;
    unfold eq, boolVal, integerVal, stringVal; simpl.
  - by rewrite Hstr, bool_decide_true.
  - by rewrite Hbool, Bool.eqb_reflx.
  - by rewrite Hnum, to_int_id, Z.eqb_refl by auto.
  - by rewrite Hnum, Z.eqb_refl.
Qed.

(** Setting a property, for every widget class but the partition splitter,
    every name and every value that was given a value: an unknown name, a
    read-only property and a value of another type are refused with the
    exception that says so and leave the widget alone; a property that may be
    of any type is left to special handling; any other one calls exactly one
    setter, with the member of the declared type, and no uninitialised member
    is ever read. *)
Theorem set_property c w n val : c ∈ widgetClasses -> className c <> "YPartitionSplitter" ->
  initialised val ->
  match declared (propertySet c) n with
  | None => setProperty obj c w n val = Throws (YUIUnknownPropertyException n)
  | Some p =>
      if isReadOnly p then setProperty obj c w n val = Throws (YUISetReadOnlyPropertyException n)
      else if decide (type p = YOtherProperty) then setProperty obj c w n val = Done (w, false)
      else if decide (type p = vtype val) then
        exists act w', setActions c n = [act] /\ call obj act val w = Done (w', true) /\
          setProperty obj c w n val = Done (w', true)
      else setProperty obj c w n val = Throws (YUIPropertyTypeMismatchException n)
  end.
Proof. intros Hc Hn Hi. by apply setProperty_spec; [apply setConsistent_class|]. Qed.

(** C39: Getting a declared property returns a value, and the value has the
    declared type, for every widget class and property except for three
    properties and for the ID of a widget without one. *)
Theorem get_property_type c w n p : c ∈ widgetClasses -> declared (propertySet c) n = Some p ->
  exists v, getProperty obj c w n = Done v /\
    (vtype v = type p \/ otherwiseTyped c n = true \/ (n = YUIProperty_ID /\ hasId obj w = false)).
Proof.
  intros Hc Hd. destruct (classes_declared typesFit c n p classes_getters Hc Hd) as [Hf <-].
  pose proof (getProperty_spec obj c w (name p)) as Hget. rewrite Hd in Hget.
  unfold typesFit in Hf. destruct (otherwiseTyped c (name p)) eqn:Eo; simpl in Hf.
  { rewrite Hget. repeat case_match; eauto. }
  destruct (getActionOf c (name p)) as [act|].
  - eexists. split; [done|]. rewrite fetch_type. apply bool_decide_eq_true in Hf. auto.
  - apply andb_true_iff in Hf as [Hn Ht]. rewrite Hn in Hget. apply bool_decide_eq_true in Hn, Ht.
    simpl in Hget. rewrite Hget. destruct (hasId obj w); eexists; (split; [done|]); auto.
Qed.

(** C38: A value that is set comes back: for every simple property that can be
    set there is one attribute whose setter [setProperty()] calls and whose
    getter [getProperty()] calls, so that with a setter that stores its
    argument the property set to a value is equal to that value; an integer
    has to fit an [int]. Three classes connect a property differently. *)
Theorem property_roundtrip c n p : c ∈ widgetClasses -> className c <> "YPartitionSplitter" ->
  declared (propertySet c) n = Some p ->
  isReadOnly p = false -> simple (type p) -> notStored c n = false ->
  exists a, attributeOf c n = Some a /\
    forall w val, stores obj a -> vtype val = type p -> initialised val ->
      (forall z, _integerVal val = Some z -> fits_int z) ->
      exists w' v, setProperty obj c w n val = Done (w', true) /\
        getProperty obj c w' n = Done v /\ eq v val = Done true.
Proof.
  intros Hc Hs Hd Hr Hsimple Hns.
  destruct (classes_declared storageFits c n p classes_storage Hc Hd) as [Hf <-].
  unfold storageFits in Hf. rewrite Hns, Hr in Hf. simpl in Hf.
  destruct (attributeOf c (name p)) as [a|] eqn:Ea; [|by destruct Hsimple as [E|[E|E]]; rewrite E in Hf].
  exists a. split; [done|]. intros w val Hst Hv Hi Hz.
  pose proof (setProperty_spec obj c w (name p) val (setConsistent_class c Hc Hs) Hi) as Hset.
  rewrite Hd, Hr, decide_False, decide_True in Hset
    by (try done; intros E; rewrite E in Hsimple; destruct Hsimple as [|[|]]; done).
  destruct Hset as (act & w' & Hact & Hcall & ->). exists w'.
  pose proof (getProperty_spec obj c w' (name p)) as Hget. rewrite Hd in Hget.
  unfold attributeOf in Ea. rewrite Hact in Ea. destruct (getActionOf c (name p)) as [g|]; [|done].
  exists (fetch obj g w'). split_and!; [done..|]. apply (common_roundtrip act g a val w); try done.
  destruct (setterFits_declared c (name p) p (setConsistent_class c Hc Hs) Hd Hr) as (? & ? & ?).
  congruence.
Qed.

(** The value of the partition splitter cannot be set: a string passes the
    check of the declared type and then its uninitialised integer member is
    read, an integer is refused. *)
Theorem partition_splitter_value w s z :
  setProperty obj YPartitionSplitter w YUIProperty_Value (of_string s) = Undefined /\
  setProperty obj YPartitionSplitter w YUIProperty_Value (of_integer z) =
    Throws (YUIPropertyTypeMismatchException YUIProperty_Value).
Proof. split; reflexivity. Qed.

(** The icon path of a multi selection box can be set, but getting it returns
    [false]. *)
Theorem multi_selection_box_icon_path w s :
  setProperty obj YMultiSelectionBox w YUIProperty_IconPath (of_string s) =
    Done (putString obj iconBasePath s w, true) /\
  getProperty obj YMultiSelectionBox w YUIProperty_IconPath = Done (of_bool false).
Proof. split; reflexivity. Qed.

(** The documented property [ContextMenu] is missing in [YWidget]'s set, so
    it can neither be set nor got, whatever the class. *)
Theorem context_menu_unknown c w val : c ∈ widgetClasses ->
  getProperty obj c w YUIProperty_ContextMenu = Throws (YUIUnknownPropertyException "ContextMenu") /\
  setProperty obj c w YUIProperty_ContextMenu val = Throws (YUIUnknownPropertyException "ContextMenu").
Proof.
  intros Hc. assert (declared (propertySet c) YUIProperty_ContextMenu = None) as Hd.
  { pose proof (classes_at (fun c => negb (contains (propertySet c) YUIProperty_ContextMenu))
      c ltac:(vm_compute; reflexivity) Hc) as H.
    pose proof (check_declared (propertySet c) YUIProperty_ContextMenu) as Hk. unfold check in Hk.
    simpl in H. rewrite H in Hk. by destruct (declared (propertySet c) YUIProperty_ContextMenu). }
  split; [pose proof (getProperty_spec obj c w YUIProperty_ContextMenu) as H; by rewrite Hd in H|].
  unfold setProperty. by rewrite checkTyped_declared, Hd.
Qed.

(** An integer property is converted to [int]: a value that does not fit is
    stored as another one. *)
Theorem int_property_wraps w :
  setProperty obj YIntField w YUIProperty_Value (of_integer (2 ^ 32 + 7)) =
    Done (putInt obj value 7 w, true).
Proof. reflexivity. Qed.

End classes.

(** ** Examples *)

(** A widget that stores its attributes. *)
Record sampleWidget := { strings : attribute -> string; bools : attribute -> bool; ints : attribute -> Z }.

Definition upd {A} (a : attribute) (x : A) (f : attribute -> A) : attribute -> A :=
  fun b => if decide (b = a) then x else f b.

Definition sample : methods sampleWidget := {|
  fetchString a w := strings w a;
  putString a s w := {| strings := upd a s (strings w); bools := bools w; ints := ints w |};
  fetchBool a w := bools w a;
  putBool a b w := {| strings := strings w; bools := upd a b (bools w); ints := ints w |};
  fetchInt a w := ints w a;
  putInt a z w := {| strings := strings w; bools := bools w; ints := upd a z (ints w) |};
  putZone s zoom w := {| strings := upd currentZone s (strings w); bools := bools w; ints := ints w |};
  hasId w := bool_decide (strings w id <> "") |}.

Definition blank : sampleWidget := {| strings _ := ""; bools _ := false; ints _ := 0 |}.

Lemma sample_stores a : stores sample a.
Proof. intros w. split_and!; intros; simpl; unfold upd; by rewrite decide_True. Qed.

Lemma set_property_witness :
  exists w', setProperty sample YIntField blank YUIProperty_Value (of_integer 5) = Done (w', true).
Proof.
  pose proof (set_property sample YIntField blank YUIProperty_Value (of_integer 5)
    ltac:(vm_compute; set_solver) ltac:(by vm_compute) ltac:(by eexists)) as H.
  simpl in H. destruct H as (act & w' & _ & _ & H). by exists w'.
Defined.

Lemma get_property_type_witness :
  exists v, getProperty sample YLabel blank YUIProperty_Text = Done v /\
    (vtype v = YStringProperty \/ otherwiseTyped YLabel YUIProperty_Text = true \/
     (YUIProperty_Text = YUIProperty_ID /\ hasId sample blank = false)).
Proof.
  exact (get_property_type sample YLabel blank YUIProperty_Text _ ltac:(vm_compute; set_solver) eq_refl).
Defined.

Lemma property_roundtrip_witness :
  exists w' v, setProperty sample YIntField blank YUIProperty_MinValue (of_integer 5) = Done (w', true) /\
    getProperty sample YIntField w' YUIProperty_MinValue = Done v /\ eq v (of_integer 5) = Done true.
Proof.
  destruct (property_roundtrip sample YIntField YUIProperty_MinValue
    (Property YUIProperty_MinValue YIntegerProperty false) ltac:(vm_compute; set_solver)
    ltac:(by vm_compute) eq_refl eq_refl ltac:(right; by right) eq_refl) as (a & _ & H).
  apply H; [apply sample_stores|done|by eexists|]. intros z [= <-]. vm_compute. split; discriminate.
Defined.

End WidgetClasses.
