(* ===== verification/Threads.v ===== *)
(** * The UI thread and the application thread

    The thread functions of src/libyui/src/YUI.cc. A libyui application may run
    the UI in a thread of its own. The two threads hand control to each other
    by single bytes in two pipes: the application thread (the YCP thread of the
    code) sets what is to be called, signals the UI thread and waits; the UI
    thread sits in [idleLoop()] until its pipe is readable, reads the byte, runs
    the call and answers. [shutdownThreads()] sets a flag, signals and waits for
    the last answer and for the end of the thread. One step of the model is one
    system call or one access to the shared members, in any interleaving. *)

From S2P Require Import Prelude.

Module YUIThreads.

(** ** Waiting for a byte *)

(** What [read()] of one byte reports: the byte, the end of the file, or an
    error ([EINTR], [EAGAIN], another one). *)
Inductive readResult :=
| ReadByte
| ReadEnd
| ReadInterrupted
| ReadWouldBlock
| ReadFailed.

Definition resultOf (r : readResult) : Z :=
  match r with ReadByte => 1 | ReadEnd => 0 | _ => -1 end.

(** The loop of [waitForUIThread()] and [waitForYCPThread()], over the results
    of the successive calls of [read()]; [None] if it is still reading. The
    [continue] in its body goes on to the condition [result == 0]. *)
Fixpoint waitForByte (reads : list readResult) : option bool :=
  match reads with
  | [] => None
  | r :: rest =>
      let result := resultOf r in
      if result =? 0 then waitForByte rest else Some (negb (result =? -1))
  end.

Definition waitForUIThread (reads : list readResult) : option bool := waitForByte reads.
Definition waitForYCPThread (reads : list readResult) : option bool := waitForByte reads.

(** ** The state *)

(** Where the application thread is: in application code, about to signal a
    request, waiting for the answer, about to signal the termination, waiting
    for the last answer, in [pthread_join()], and after [shutdownThreads()]. *)
Inductive YcpPc :=
| YcpRunning
| YcpSignal
| YcpWait
| YcpTermSignal
| YcpTermWait
| YcpJoin
| YcpDown.

(** Where the UI thread is in [uiThreadMainLoop()]: in [idleLoop()], in
    [waitForYCPThread()], before the test of the flag, before the call, before
    the answer, before the destructor, before the last answer, ended. *)
Inductive UiPc :=
| UiIdle
| UiWait
| UiCheck
| UiCall
| UiSignal
| UiDestroy
| UiLastSignal
| UiExited.

(** The members the threads share, with the number of bytes in the pipes; the
    requests the application has signalled and the calls the UI thread has
    made, in order; whether [uiThreadDestructor()] has run. *)
Record state := State {
  pipe_to_ui : nat;
  pipe_from_ui : nat;
  _terminate_ui_thread : bool;
  _builtinCaller : option nat;
  ycp : YcpPc;
  ui : UiPc;
  requests : list nat;
  calls : list nat;
  destroyed : bool }.

(** After [topmostConstructorHasFinished()] with threads. *)
Definition started : state := State 0 0 false None YcpRunning UiIdle [] [] false.

(** ** Steps *)

(** Updates of one thread and what it touches. *)
Definition setYcp (pc : YcpPc) (s : state) : state :=
  State (pipe_to_ui s) (pipe_from_ui s) (_terminate_ui_thread s) (_builtinCaller s) pc (ui s)
    (requests s) (calls s) (destroyed s).
Definition setUi (pc : UiPc) (s : state) : state :=
  State (pipe_to_ui s) (pipe_from_ui s) (_terminate_ui_thread s) (_builtinCaller s) (ycp s) pc
    (requests s) (calls s) (destroyed s).
Definition setPipes (to from : nat) (s : state) : state :=
  State to from (_terminate_ui_thread s) (_builtinCaller s) (ycp s) (ui s)
    (requests s) (calls s) (destroyed s).
Definition setBuiltinCaller (caller : nat) (s : state) : state :=
  State (pipe_to_ui s) (pipe_from_ui s) (_terminate_ui_thread s) (Some caller) (ycp s) (ui s)
    (requests s) (calls s) (destroyed s).
Definition setTerminate (s : state) : state :=
  State (pipe_to_ui s) (pipe_from_ui s) true (_builtinCaller s) (ycp s) (ui s)
    (requests s) (calls s) (destroyed s).
Definition addRequest (caller : nat) (s : state) : state :=
  State (pipe_to_ui s) (pipe_from_ui s) (_terminate_ui_thread s) (_builtinCaller s) (ycp s) (ui s)
    (requests s ++ [caller]) (calls s) (destroyed s).
Definition setDestroyed (s : state) : state :=
  State (pipe_to_ui s) (pipe_from_ui s) (_terminate_ui_thread s) (_builtinCaller s) (ycp s) (ui s)
    (requests s) (calls s) true.

Definition signalUIThread (s : state) : state := setPipes (S (pipe_to_ui s)) (pipe_from_ui s) s.
Definition signalYCPThread (s : state) : state := setPipes (pipe_to_ui s) (S (pipe_from_ui s)) s.

(** [read()] of the pipe to the UI thread, which does not block: the byte that
    is there, or [EAGAIN]; and of the other pipe, which blocks. Either can be
    interrupted. *)
Inductive readToUi (s : state) : readResult -> state -> Prop :=
| read_to_byte n : pipe_to_ui s = S n -> readToUi s ReadByte (setPipes n (pipe_from_ui s) s)
| read_to_empty : pipe_to_ui s = 0%nat -> readToUi s ReadWouldBlock s
| read_to_interrupted : readToUi s ReadInterrupted s.

Inductive readFromUi (s : state) : readResult -> state -> Prop :=
| read_from_byte n : pipe_from_ui s = S n -> readFromUi s ReadByte (setPipes (pipe_to_ui s) n s)
| read_from_interrupted : readFromUi s ReadInterrupted s.

(** [_builtinCaller->call()], if there is one. *)
Definition callBuiltin (s : state) : state :=
  match _builtinCaller s with
  | Some caller =>
      State (pipe_to_ui s) (pipe_from_ui s) (_terminate_ui_thread s) (_builtinCaller s) (ycp s) (ui s)
        (requests s) (calls s ++ [caller]) (destroyed s)
  | None => s
  end.

(** The two threads. [retry] says whether the application waits again when
    [waitForUIThread()] returns [false]. A [Spin] is a turn that gets nothing
    done: [idleLoop()] returns, or a wait is interrupted or finds no byte. *)
Inductive label := Work | Spin.

Section threads.
Context (retry : bool).

Inductive ycpStep (s : state) : label -> state -> Prop :=
| ycp_request caller : ycp s = YcpRunning ->
    ycpStep s Work (setYcp YcpSignal (setBuiltinCaller caller s))
| ycp_signal caller : ycp s = YcpSignal -> _builtinCaller s = Some caller ->
    ycpStep s Work (setYcp YcpWait (addRequest caller (signalUIThread s)))
| ycp_answered r s' : ycp s = YcpWait -> readFromUi s r s' -> waitForUIThread [r] = Some true ->
    ycpStep s Work (setYcp YcpRunning s')
| ycp_no_answer r s' : ycp s = YcpWait -> readFromUi s r s' -> waitForUIThread [r] = Some false ->
    ycpStep s Spin (setYcp (if retry then YcpWait else YcpRunning) s')
| ycp_terminate : ycp s = YcpRunning -> ycpStep s Work (setYcp YcpTermSignal (setTerminate s))
| ycp_term_signal : ycp s = YcpTermSignal -> ycpStep s Work (setYcp YcpTermWait (signalUIThread s))
| ycp_term_answered r s' b : ycp s = YcpTermWait -> readFromUi s r s' -> waitForUIThread [r] = Some b ->
    ycpStep s Work (setYcp YcpJoin s')
| ycp_joined : ycp s = YcpJoin -> ui s = UiExited -> ycpStep s Work (setYcp YcpDown s).

(** [uiThreadMainLoop()]. *)
Inductive uiStep (s : state) : label -> state -> Prop :=
| ui_idle_returns : ui s = UiIdle -> uiStep s Spin (setUi UiWait s)
| ui_signalled r s' : ui s = UiWait -> readToUi s r s' -> waitForYCPThread [r] = Some true ->
    uiStep s Work (setUi UiCheck s')
| ui_not_signalled r s' : ui s = UiWait -> readToUi s r s' -> waitForYCPThread [r] = Some false ->
    uiStep s Spin (setUi UiIdle s')
| ui_check : ui s = UiCheck ->
    uiStep s Work (setUi (if _terminate_ui_thread s then UiDestroy else UiCall) s)
| ui_call : ui s = UiCall -> uiStep s Work (setUi UiSignal (callBuiltin s))
| ui_signal : ui s = UiSignal -> uiStep s Work (setUi UiIdle (signalYCPThread s))
| ui_destroy : ui s = UiDestroy -> uiStep s Work (setUi UiLastSignal (setDestroyed s))
| ui_last_signal : ui s = UiLastSignal -> uiStep s Work (setUi UiExited (signalYCPThread s)).

Definition step (l : label) (s s' : state) : Prop := ycpStep s l s' \/ uiStep s l s'.

Definition anyStep (s s' : state) : Prop := exists l, step l s s'.

Definition reachable (s : state) : Prop := rtc anyStep started s.

End threads.

(** ** Safety *)

(** The application code runs, and the UI thread works on a call. *)
Definition ycpActive (s : state) : Prop :=
  ycp s = YcpRunning \/ ycp s = YcpSignal \/ ycp s = YcpTermSignal.
Definition uiActive (s : state) : Prop := ui s <> UiIdle /\ ui s <> UiWait /\ ui s <> UiExited.

(** What the UI thread does while the application thread waits for an answer:
    the byte is in the pipe to it, it is working, or the answer is in the other
    pipe. *)
Inductive serving (s : state) : Prop :=
| serving_sent caller : pipe_to_ui s = 1%nat -> pipe_from_ui s = 0%nat ->
    (ui s = UiIdle \/ ui s = UiWait) -> _builtinCaller s = Some caller ->
    requests s = calls s ++ [caller] -> serving s
| serving_working caller : pipe_to_ui s = 0%nat -> pipe_from_ui s = 0%nat ->
    (ui s = UiCheck \/ ui s = UiCall) -> _builtinCaller s = Some caller ->
    requests s = calls s ++ [caller] -> serving s
| serving_called : pipe_to_ui s = 0%nat -> pipe_from_ui s = 0%nat -> ui s = UiSignal ->
    requests s = calls s -> serving s
| serving_answered : pipe_to_ui s = 0%nat -> pipe_from_ui s = 1%nat ->
    (ui s = UiIdle \/ ui s = UiWait) -> requests s = calls s -> serving s.

(** The same for the termination. *)
Inductive ending (s : state) : Prop :=
| ending_sent : pipe_to_ui s = 1%nat -> pipe_from_ui s = 0%nat -> (ui s = UiIdle \/ ui s = UiWait) ->
    destroyed s = false -> ending s
| ending_working : pipe_to_ui s = 0%nat -> pipe_from_ui s = 0%nat ->
    (ui s = UiCheck \/ ui s = UiDestroy) -> destroyed s = false -> ending s
| ending_destroyed : pipe_to_ui s = 0%nat -> pipe_from_ui s = 0%nat -> ui s = UiLastSignal ->
    destroyed s = true -> ending s
| ending_ended : pipe_to_ui s = 0%nat -> (pipe_from_ui s <= 1)%nat -> ui s = UiExited ->
    destroyed s = true -> ending s.

Definition quiet (s : state) : Prop :=
  pipe_to_ui s = 0%nat /\ pipe_from_ui s = 0%nat /\ (ui s = UiIdle \/ ui s = UiWait) /\
  requests s = calls s /\ destroyed s = false.

Definition inv (s : state) : Prop :=
  match ycp s with
  | YcpRunning => quiet s /\ _terminate_ui_thread s = false
  | YcpSignal => quiet s /\ _terminate_ui_thread s = false /\ is_Some (_builtinCaller s)
  | YcpWait => serving s /\ _terminate_ui_thread s = false /\ destroyed s = false
  | YcpTermSignal => quiet s /\ _terminate_ui_thread s = true
  | YcpTermWait => ending s /\ _terminate_ui_thread s = true /\ requests s = calls s /\
      (ui s = UiExited -> pipe_from_ui s = 1%nat)
  | YcpJoin => ending s /\ _terminate_ui_thread s = true /\ requests s = calls s
  | YcpDown => ending s /\ _terminate_ui_thread s = true /\ ui s = UiExited /\ requests s = calls s
  end.

(** The result of a wait: the first [read()] that does not report the end of
    the file decides, and only a byte gives [true]; an interrupted call is not
    repeated. *)
Theorem wait_result ends r rest : Forall (fun x => x = ReadEnd) ends -> r <> ReadEnd ->
  waitForByte (ends ++ r :: rest) = Some (match r with ReadByte => true | _ => false end).
Proof. induction 1 as [|x l -> _ IH]; [by destruct r|done]. Qed.

(** One turn of a wait: the byte is taken, or nothing changes. *)
Lemma readFromUi_inv s r s' b : readFromUi s r s' -> waitForUIThread [r] = Some b ->
  (b = true /\ pipe_from_ui s <> 0%nat /\ s' = setPipes (pipe_to_ui s) (pred (pipe_from_ui s)) s) \/
  (b = false /\ s' = s).
Proof. intros [n E|]; simpl; intros [= <-]; [left; rewrite E|right]; done. Qed.

Lemma readToUi_inv s r s' b : readToUi s r s' -> waitForYCPThread [r] = Some b ->
  (b = true /\ pipe_to_ui s <> 0%nat /\ s' = setPipes (pred (pipe_to_ui s)) (pipe_from_ui s) s) \/
  (b = false /\ s' = s).
Proof. intros [n E|E|]; simpl; intros [= <-]; [left; rewrite E|right|right]; done. Qed.

Create HintDb threads.
#[local] Hint Constructors serving ending : threads.

(** The phases only look at the members they name. *)
Lemma serving_setYcp pc s : serving (setYcp pc s) <-> serving s.
Proof. split; intros []; eauto with threads. Qed.

Lemma ending_setYcp pc s : ending (setYcp pc s) <-> ending s.
Proof. split; intros []; eauto with threads. Qed.

Lemma serving_sent_start caller s : quiet s -> _builtinCaller s = Some caller ->
  serving (addRequest caller (signalUIThread s)).
Proof.
  intros (Ht & Hf & Hu & Hr & _) Hb. apply (serving_sent _ caller); simpl; try done; [by rewrite Ht|by rewrite Hr].
Qed.

Lemma serving_done s : serving s -> destroyed s = false -> pipe_from_ui s <> 0%nat ->
  quiet (setPipes (pipe_to_ui s) (pred (pipe_from_ui s)) s).
Proof. intros [] Hd Hn; try done. unfold quiet; simpl. split_and!; try done. by destruct (pipe_from_ui s) as [|[]]. Qed.

Lemma ending_start s : quiet s -> ending (signalUIThread s).
Proof. intros (Ht & Hf & Hu & Hr & Hd). apply ending_sent; simpl; auto. Qed.

Lemma ending_read s : ending s -> ending (setPipes (pipe_to_ui s) (pred (pipe_from_ui s)) s).
Proof.
  intros [Ht Hf|Ht Hf|Ht Hf|Ht Hf]; [eapply ending_sent|eapply ending_working|eapply ending_destroyed|eapply ending_ended];
    simpl; try done; try (by rewrite Hf); lia.
Qed.

Lemma ycp_inv l s s' : inv s -> ycpStep true s l s' -> inv s'.
Proof.
  intros Hi Hs. unfold inv in Hi.
  destruct Hs as [c Hy|c Hy Hb|r s1 Hy Hr Hw|r s1 Hy Hr Hw|Hy|Hy|r s1 b Hy Hr Hw|Hy Hu]; rewrite Hy in Hi;
    try destruct (readFromUi_inv _ _ _ _ Hr Hw) as [(Hb & Hn & ->)|(Hb & ->)]; try done; unfold inv; simpl.
  - destruct Hi as [Hq Ht]. eauto.
  - destruct Hi as (Hq & Ht & _). split_and!; [|done|apply Hq].
    by apply serving_setYcp, serving_sent_start.
  - destruct Hi as (Hq & Ht & Hd). split; [|done]. by apply serving_done.
  - destruct Hi as (Hq & Ht & Hd). split; [by apply serving_setYcp|done].
  - destruct Hi as [Hq Ht]. done.
  - destruct Hi as [Hq Ht]. split_and!; [|done|apply Hq|].
    + by apply ending_setYcp, ending_start.
    + intros U. destruct Hq as (_ & _ & [Hu|Hu] & _); congruence.
  - destruct Hi as (Hq & Ht & Hr' & _). split; [|done]. by apply ending_setYcp, ending_read.
  - destruct Hi as (Hq & Ht & Hr' & _). split; [|done]. by apply ending_setYcp.
  - destruct Hi as (Hq & Ht & Hr'). split; [by apply ending_setYcp|done].
Qed.

Lemma ui_quiet l s s' : quiet s -> uiStep s l s' ->
  quiet s' /\ ycp s' = ycp s /\ _terminate_ui_thread s' = _terminate_ui_thread s /\
  _builtinCaller s' = _builtinCaller s /\ l = Spin.
Proof.
  intros (Ht & Hf & Hu & Hr & Hd) Hs. destruct Hs as [U|r s1 U Hb Hw|r s1 U Hb Hw|U|U|U|U|U];
    try (by destruct Hu; congruence);
    try destruct (readToUi_inv _ _ _ _ Hb Hw) as [(E & Hn & ->)|(E & ->)]; try done;
    unfold quiet; simpl; split_and!; auto; done.
Qed.

(** The phase a step of the UI thread leads to. *)
Ltac phase_solve Ht Hf :=
  solve
    [ eapply serving_sent; simpl; eauto; by rewrite ?Ht, ?Hf
    | eapply serving_working; simpl; eauto; by rewrite ?Ht, ?Hf
    | eapply serving_called; simpl; eauto; by rewrite ?Ht, ?Hf
    | eapply serving_answered; simpl; eauto; by rewrite ?Ht, ?Hf
    | eapply ending_sent; simpl; eauto; by rewrite ?Ht, ?Hf
    | eapply ending_working; simpl; eauto; by rewrite ?Ht, ?Hf
    | eapply ending_destroyed; simpl; eauto; by rewrite ?Ht, ?Hf
    | eapply ending_ended; simpl; eauto; by rewrite ?Ht, ?Hf ].

Lemma ui_serving l s s' : serving s -> _terminate_ui_thread s = false -> uiStep s l s' ->
  serving s' /\ ycp s' = ycp s /\ _terminate_ui_thread s' = false /\ destroyed s' = destroyed s.
Proof.
  intros Hsv Hfl Hs. destruct Hs as [U|r s1 U Hb Hw|r s1 U Hb Hw|U|U|U|U|U];
    try destruct (readToUi_inv _ _ _ _ Hb Hw) as [(E & Hn & ->)|(E & ->)]; try done; simpl;
    unfold callBuiltin; try rewrite Hfl;
    destruct Hsv as [c Ht Hf Hu Hc Hrq|c Ht Hf Hu Hc Hrq|Ht Hf Hu Hrq|Ht Hf Hu Hrq];
    try rewrite Hc; try (by destruct Hu; congruence); try congruence;
    split_and!; try done.
  all: phase_solve Ht Hf.
Qed.

Lemma ui_ending l s s' : ending s -> _terminate_ui_thread s = true -> uiStep s l s' ->
  ending s' /\ ycp s' = ycp s /\ _terminate_ui_thread s' = true /\
  requests s' = requests s /\ calls s' = calls s /\
  (ui s <> UiExited -> ui s' = UiExited -> pipe_from_ui s' = 1%nat).
Proof.
  intros He Hfl Hs. destruct Hs as [U|r s1 U Hb Hw|r s1 U Hb Hw|U|U|U|U|U];
    try destruct (readToUi_inv _ _ _ _ Hb Hw) as [(E & Hn & ->)|(E & ->)]; try done; simpl;
    try rewrite Hfl;
    destruct He as [Ht Hf Hu Hd|Ht Hf Hu Hd|Ht Hf Hu Hd|Ht Hf Hu Hd];
    try (by destruct Hu; congruence); try congruence; split_and!; try done.
  all: try phase_solve Ht Hf.
  by rewrite Hf.
Qed.

Lemma ui_exited l s s' : uiStep s l s' -> ui s <> UiExited.
Proof. by destruct 1; intros E; congruence. Qed.

Lemma ui_inv l s s' : inv s -> uiStep s l s' -> inv s'.
Proof.
  unfold inv. destruct (ycp s) eqn:Ey; intros Hi Hs.
  - destruct Hi as [Hq Ht]. destruct (ui_quiet l s s' Hq Hs) as (Hq' & -> & -> & _). by rewrite Ey.
  - destruct Hi as (Hq & Ht & Hb). destruct (ui_quiet l s s' Hq Hs) as (Hq' & -> & -> & -> & _). by rewrite Ey.
  - destruct Hi as (Hsv & Ht & Hd). destruct (ui_serving l s s' Hsv Ht Hs) as (Hq' & -> & -> & ->). by rewrite Ey.
  - destruct Hi as [Hq Ht]. destruct (ui_quiet l s s' Hq Hs) as (Hq' & -> & -> & _). by rewrite Ey.
  - destruct Hi as (He & Ht & Hr & _). pose proof (ui_exited l s s' Hs) as Hx.
    destruct (ui_ending l s s' He Ht Hs) as (Hq' & -> & -> & -> & -> & Hf). rewrite Ey. auto.
  - destruct Hi as (He & Ht & Hr). destruct (ui_ending l s s' He Ht Hs) as (Hq' & -> & -> & -> & -> & _). by rewrite Ey.
  - destruct Hi as (He & Ht & Hu & Hr). by destruct Hs; congruence.
Qed.

Lemma step_inv l s s' : inv s -> step true l s s' -> inv s'.
Proof. intros Hi [Hs|Hs]; [by eapply ycp_inv|by eapply ui_inv]. Qed.

Lemma rtc_inv s s' : rtc (anyStep true) s s' -> inv s -> inv s'.
Proof. induction 1 as [|s s1 s2 [l Hs] _ IH]; [done|]. intros Hi. by apply IH, (step_inv l s). Qed.

Lemma started_inv : inv started.
Proof. unfold inv, quiet; simpl. auto 10. Qed.

Lemma reachable_inv s : reachable true s -> inv s.
Proof. intros H. eapply rtc_inv; [done|apply started_inv]. Qed.

Lemma inv_exclusive s : inv s -> ~ (ycpActive s /\ uiActive s).
Proof.
  intros Hi [Hy (U1 & U2 & U3)]. unfold inv in Hi.
  destruct Hy as [E|[E|E]]; rewrite E in Hi; destruct Hi as [(_ & _ & [Hu|Hu] & _) _]; done.
Qed.

(** ** Liveness *)

Definition spin (s s' : state) : Prop := step true Spin s s'.
Definition work (s s' : state) : Prop := step true Work s s'.

(** Some turns that get nothing done and one that does. *)
Definition round (s s' : state) : Prop := exists s1, rtc spin s s1 /\ work s1 s'.

(** [P] is reached whatever the threads do, unless they spin for ever. *)
Inductive eventually (P : state -> Prop) (s : state) : Prop :=
| eventually_now : P s -> eventually P s
| eventually_round : (exists s', round s s') -> (forall s', round s s' -> eventually P s') ->
    eventually P s.

(** What is left to be done before the application goes on. *)
Definition uiRank (s : state) : nat :=
  match ui s with
  | UiIdle | UiWait => 6 * pipe_to_ui s
  | UiCheck => 5
  | UiCall | UiDestroy => 4
  | UiSignal | UiLastSignal => 3
  | UiExited => 0
  end.

Definition ycpRank (s : state) : nat :=
  match ycp s with
  | YcpRunning | YcpDown => 0
  | YcpSignal | YcpTermSignal => 10
  | YcpWait | YcpJoin => 1
  | YcpTermWait => 2
  end.

Definition rank (s : state) : nat := (uiRank s + ycpRank s)%nat.

Lemma spin_cases s s' : spin s s' ->
  (ui s = UiIdle /\ s' = setUi UiWait s) \/ (ui s = UiWait /\ s' = setUi UiIdle s) \/
  (ycp s = YcpWait /\ s' = setYcp YcpWait s).
Proof.
  unfold spin, step. remember Spin as l eqn:El. intros [Hs|Hs]; destruct Hs as [ | | | | | | | ]; try done; auto.
  - right; right. destruct (readFromUi_inv _ _ _ _ H0 H1) as [(? & _)|(_ & ->)]; done.
  - right; left. destruct (readToUi_inv _ _ _ _ H0 H1) as [(? & _)|(_ & ->)]; done.
Qed.

Lemma spin_rank s s' : spin s s' -> rank s' = rank s /\ ycp s' = ycp s.
Proof.
  intros [[E ->]|[[E ->]|[E ->]]]%spin_cases; unfold rank, uiRank, ycpRank; simpl; by rewrite E.
Qed.

Lemma spins_rank s s' : rtc spin s s' -> inv s -> rank s' = rank s /\ ycp s' = ycp s /\ inv s'.
Proof.
  induction 1 as [|s s1 s2 Hs _ IH]; [done|]. intros Hi.
  destruct (spin_rank s s1 Hs) as [<- <-]. apply IH. by eapply step_inv.
Qed.

Lemma inv_signal s : inv s -> ui s = UiSignal -> pipe_to_ui s = 0%nat.
Proof.
  unfold inv, quiet. intros Hi Hu.
  destruct (ycp s); destruct Hi as [Hi _]; try (by destruct Hi as (-> & _));
    destruct Hi; destruct_or?; congruence.
Qed.

(** A turn that gets something done leaves less to do, until the application
    thread goes on. *)
Lemma work_rank s s' : inv s -> ycp s <> YcpRunning -> work s s' -> (rank s' < rank s)%nat.
Proof.
  unfold work, step. remember Work as l eqn:El. intros Hi Hn [Hs|Hs].
  - unfold inv in Hi.
    destruct Hs as [c Hy|c Hy Hb|r s1 Hy Hr Hw|r s1 Hy Hr Hw|Hy|Hy|r s1 b Hy Hr Hw|Hy Hu]; try done; rewrite Hy in Hi;
      try destruct (readFromUi_inv _ _ _ _ Hr Hw) as [(E & Hf & ->)|(E & ->)]; try done;
      unfold rank, uiRank, ycpRank, signalUIThread; simpl; rewrite ?Hy; destruct (ui s); simpl; try lia.
    all: try (destruct Hi as [(Ht & _) _]; rewrite Ht; lia).
  - pose proof (inv_signal s Hi) as H0. destruct Hs as [U|r s1 U Hb Hw|r s1 U Hb Hw|U|U|U|U|U]; try done;
      try destruct (readToUi_inv _ _ _ _ Hb Hw) as [(E & Hf & ->)|(E & ->)]; try done;
      unfold rank, uiRank, ycpRank, callBuiltin; simpl; rewrite ?U, ?H0 by done;
      destruct (_terminate_ui_thread s), (_builtinCaller s); simpl; lia.
Qed.

Lemma spin_work s s1 s' : spin s s1 -> work s1 s' -> round s s'.
Proof. intros. exists s1. split; [by apply rtc_once|done]. Qed.

Lemma work_round s s' : work s s' -> round s s'.
Proof. intros. by exists s. Qed.

(** The byte in the pipe to the UI thread is read. *)
Lemma sent_round s : pipe_to_ui s = 1%nat -> (ui s = UiIdle \/ ui s = UiWait) -> exists s', round s s'.
Proof.
  intros Ht [U|U]; eexists.
  - eapply spin_work; right; [by apply ui_idle_returns|].
    eapply (ui_signalled _ ReadByte); [done|by eapply (read_to_byte (setUi UiWait s) 0)|done].
  - eapply work_round. right. eapply (ui_signalled _ ReadByte); [done|by eapply (read_to_byte s 0)|done].
Qed.

Lemma serving_round s : serving s -> ycp s = YcpWait -> exists s', round s s'.
Proof.
  intros [c Ht Hf Hu Hc Hrq|c Ht Hf Hu Hc Hrq|Ht Hf Hu Hrq|Ht Hf Hu Hrq] Hy.
  - by apply sent_round.
  - destruct Hu; eexists; apply work_round; right; [by apply ui_check|by apply ui_call].
  - eexists; apply work_round; right; by apply ui_signal.
  - eexists; apply work_round; left.
    eapply (ycp_answered _ _ ReadByte); [done|by eapply (read_from_byte s 0)|done].
Qed.

Lemma ending_round s : ending s -> ycp s = YcpTermWait \/ ycp s = YcpJoin ->
  (ycp s = YcpTermWait -> ui s = UiExited -> pipe_from_ui s = 1%nat) -> exists s', round s s'.
Proof.
  intros [Ht Hf Hu Hd|Ht Hf Hu Hd|Ht Hf Hu Hd|Ht Hf Hu Hd] Hy H1.
  - by apply sent_round.
  - destruct Hu; eexists; apply work_round; right; [by apply ui_check|by apply ui_destroy].
  - eexists; apply work_round; right; by apply ui_last_signal.
  - destruct Hy as [Hy|Hy]; eexists; apply work_round; left; [|by apply ycp_joined].
    eapply (ycp_term_answered _ _ ReadByte); [done|by apply (read_from_byte s 0), H1|done].
Qed.

(** A phase of the application thread that the UI thread ends is left. *)
Lemma phase_ends (phase P : state -> Prop) :
  (forall s, phase s -> inv s /\ ycp s <> YcpRunning) ->
  (forall s, phase s -> exists s', round s s') ->
  (forall s s', phase s -> round s s' -> phase s' \/ P s') ->
  forall s, phase s -> eventually P s.
Proof.
  intros Hinv Hprog Hpres s. remember (rank s) as n eqn:En. revert s En.
  induction (lt_wf n) as [n _ IH]. intros s -> Hp. apply eventually_round; [by apply Hprog|].
  intros s' Hr. destruct (Hpres s s' Hp Hr) as [Hp'|]; [|by apply eventually_now].
  apply (IH (rank s')); [|done|done]. destruct Hr as (s1 & Hsp & Hw). destruct (Hinv s Hp) as [Hi Hn].
  destruct (spins_rank s s1 Hsp Hi) as (<- & Hy & Hi'). apply work_rank; [done|congruence|done].
Qed.

Lemma spins_requests s s' : rtc spin s s' -> requests s' = requests s.
Proof.
  induction 1 as [|s s1 s2 Hs _ IH]; [done|]. rewrite IH.
  by destruct (spin_cases s s1 Hs) as [[_ ->]|[[_ ->]|[_ ->]]].
Qed.

Lemma uiStep_requests l s s' : uiStep s l s' -> requests s' = requests s /\ ycp s' = ycp s.
Proof.
  destruct 1 as [U|r s1 U Hb Hw|r s1 U Hb Hw|U|U|U|U|U];
    try destruct (readToUi_inv _ _ _ _ Hb Hw) as [(E & Hf & ->)|(E & ->)]; try done.
  simpl. unfold callBuiltin. by destruct (_builtinCaller s).
Qed.

Lemma work_wait s s' : inv s -> ycp s = YcpWait -> work s s' ->
  (ycp s' = YcpWait /\ requests s' = requests s) \/ (ycp s' = YcpRunning /\ calls s' = requests s).
Proof.
  unfold work, step, inv. intros Hi Hy. rewrite Hy in Hi. remember Work as l eqn:El. intros [Hs|Hs].
  - destruct Hs as [c Hy'|c Hy' Hb|r s1 Hy' Hr Hw|r s1 Hy' Hr Hw|Hy'|Hy'|r s1 b Hy' Hr Hw|Hy' Hu]; try congruence.
    destruct (readFromUi_inv _ _ _ _ Hr Hw) as [(E & Hf & ->)|(E & ->)]; [|done]. right. split; [done|].
    destruct Hi as (Hsv & Ht & Hd). by destruct (serving_done s Hsv Hd Hf) as (_ & _ & _ & Hrc & _).
  - left. destruct (uiStep_requests l s s' Hs) as [-> ->]. done.
Qed.

Lemma work_ending s s' : ycp s = YcpTermSignal \/ ycp s = YcpTermWait \/ ycp s = YcpJoin -> work s s' ->
  (ycp s' = YcpTermSignal \/ ycp s' = YcpTermWait \/ ycp s' = YcpJoin) \/ ycp s' = YcpDown.
Proof.
  unfold work, step. intros Hy. remember Work as l eqn:El. intros [Hs|Hs].
  - destruct Hs; simpl; auto; destruct_or?; congruence.
  - destruct (uiStep_requests l s s' Hs) as [_ ->]. auto.
Qed.

Definition shuttingDown (s : state) : Prop :=
  inv s /\ (ycp s = YcpTermSignal \/ ycp s = YcpTermWait \/ ycp s = YcpJoin).

Lemma shuttingDown_round s : shuttingDown s -> exists s', round s s'.
Proof.
  intros [Hi Hy]. unfold inv in Hi. destruct Hy as [Hy|[Hy|Hy]]; rewrite Hy in Hi.
  - eexists. apply work_round. left. by apply ycp_term_signal.
  - destruct Hi as (He & _ & _ & H1). apply ending_round; auto.
  - destruct Hi as (He & _ & _). apply ending_round; auto. congruence.
Qed.

Lemma down_ended s : inv s -> ycp s = YcpDown -> ui s = UiExited /\ destroyed s = true /\ calls s = requests s.
Proof.
  unfold inv. intros Hi Hy. rewrite Hy in Hi. destruct Hi as (He & _ & Hu & Hr).
  split_and!; [done| |done]. destruct He; destruct_or?; congruence.
Qed.

Lemma round_inv s s' : inv s -> round s s' -> inv s'.
Proof.
  intros Hi (s1 & Hsp & Hw). destruct (spins_rank s s1 Hsp Hi) as (_ & _ & Hi'). by eapply step_inv.
Qed.

(** ** Main theorems *)

(** In the state reached by an interrupted wait, an application that does not
    wait again runs while the UI thread makes its call. *)
Definition requesting : state := State 1 0 false (Some 7%nat) YcpWait UiIdle [7%nat] [] false.

Lemma requesting_reachable retry : reachable retry requesting.
Proof.
  eapply rtc_l; [exists Work; left; apply (ycp_request _ _ 7); done|].
  apply rtc_once. exists Work. left.
  exact (ycp_signal retry (setYcp YcpSignal (setBuiltinCaller 7 started)) 7 eq_refl eq_refl).
Qed.

Lemma interrupted_wait_unsafe : exists s, reachable false s /\ ycpActive s /\ uiActive s.
Proof.
  exists (State 0 0 false (Some 7%nat) YcpRunning UiCheck [7%nat] [] false).
  split; [|by split; [left|split_and!]]. unfold reachable. etrans; [apply requesting_reachable|].
  eapply rtc_l; [exists Spin; left; apply (ycp_no_answer false _ ReadInterrupted requesting); [done|constructor|done]|].
  eapply rtc_l; [exists Spin; right; by apply ui_idle_returns|].
  apply rtc_once. exists Work. right. set (s := setUi UiWait (setYcp YcpRunning requesting)).
  exact (ui_signalled s ReadByte (setPipes 0 0 s) eq_refl (read_to_byte s 0 eq_refl) eq_refl).
Qed.

(** C7: Mutual exclusion holds exactly for applications that wait again when
    [waitForUIThread()] returns [false], which it does for an interrupted
    [read()]: then, whatever the interleaving of the two threads and however
    often a system call is interrupted, the application code never runs while
    the UI thread works on a call or destroys the dialogs, and there is never
    more than one byte under way. An application that ignores the result can
    run while the UI thread makes its call. *)
Theorem mutual_exclusion (retry : bool) :
  (forall s, reachable retry s ->
     ~ (ycpActive s /\ uiActive s) /\ (pipe_to_ui s + pipe_from_ui s <= 1)%nat) <-> retry = true.
Proof.
  split.
  - destruct retry; [done|]. intros Hex. destruct interrupted_wait_unsafe as (s & Hs & Ha).
    by destruct (Hex s Hs) as [[] _].
  - intros -> s Hi%reachable_inv. split; [by apply inv_exclusive|]. unfold inv, quiet in Hi.
    destruct (ycp s); destruct Hi as [Hi _]; try (destruct Hi as (-> & -> & _); lia); destruct Hi; lia.
Qed.

(** The UI thread makes exactly the requested calls, each once and in
    order: it is behind by at most the request being waited for, and whenever
    application code runs it has caught up. *)
Theorem calls_served s : reachable true s ->
  (ycp s <> YcpWait -> calls s = requests s) /\
  exists l, requests s = calls s ++ l /\ (length l <= 1)%nat.
Proof.
  intros Hi%reachable_inv. unfold inv, quiet in Hi. split.
  - intros Hn. destruct (ycp s); naive_solver.
  - destruct (ycp s); try (exists []; rewrite app_nil_r; simpl; split; [naive_solver|lia]).
    destruct Hi as [[] _]; [exists [caller]|exists [caller]|exists []|exists []]; rewrite ?app_nil_r; auto.
Qed.

(** C8: If the application waits again whenever [waitForUIThread()] returns
    [false] ([retry]), every request is answered: from any reachable state in
    which the application waits, whatever the schedule (unless the threads do
    nothing but being woken up and interrupted for ever), the application goes
    on, with all its requests done. *)
Theorem request_answered (retry : bool) s : retry = true -> reachable retry s -> ycp s = YcpWait ->
  eventually (fun s' => ycp s' = YcpRunning /\ calls s' = requests s) s.
Proof.
  intros -> Hi%reachable_inv Hy.
  apply (phase_ends (fun s1 => inv s1 /\ ycp s1 = YcpWait /\ requests s1 = requests s)); try done.
  - intros s1 (Hi1 & Hy1 & _). split; congruence.
  - intros s1 (Hi1 & Hy1 & _). unfold inv in Hi1. rewrite Hy1 in Hi1. apply serving_round; [apply Hi1|done].
  - intros s1 s2 (Hi1 & Hy1 & Hr1) Hr. pose proof (round_inv s1 s2 Hi1 Hr) as Hi2.
    destruct Hr as (s3 & Hsp & Hw). destruct (spins_rank s1 s3 Hsp Hi1) as (_ & Hy3 & Hi3).
    rewrite <- Hr1, <- (spins_requests s1 s3 Hsp). rewrite Hy1 in Hy3.
    destruct (work_wait s3 s2 Hi3 Hy3 Hw) as [[? ?]|[? ?]]; auto.
Qed.

(** [shutdownThreads()] completes: once the termination flag is set, every
    schedule (unless the threads are only woken up and interrupted for ever)
    ends with the UI thread ended, its destructor run, all requests done and
    the application thread behind [pthread_join()]. *)
Theorem shutdown_completes s : reachable true s -> _terminate_ui_thread s = true ->
  eventually (fun s' => ycp s' = YcpDown /\ ui s' = UiExited /\ destroyed s' = true /\
    calls s' = requests s') s.
Proof.
  intros Hi%reachable_inv Ht.
  assert (shuttingDown s \/ ycp s = YcpDown) as [Hs|Hd].
  { unfold shuttingDown. pose proof Hi as Hi'. unfold inv in Hi'. destruct (ycp s); naive_solver congruence. }
  - apply (phase_ends shuttingDown); [|apply shuttingDown_round| |done].
    + intros s1 [Hi1 Hy]. split; [done|]. intros E. destruct_or?; congruence.
    + intros s1 s2 [Hi1 Hy] Hr. pose proof (round_inv s1 s2 Hi1 Hr) as Hi2.
      destruct Hr as (s3 & Hsp & Hw). destruct (spins_rank s1 s3 Hsp Hi1) as (_ & Hy3 & Hi3).
      rewrite <- Hy3 in Hy. destruct (work_ending s3 s2 Hy Hw) as [Hy2|Hy2]; [by left|].
      right. split; [done|]. by apply down_ended.
  - apply eventually_now. split; [done|]. by apply down_ended.
Qed.

(** ** Examples *)

(** A thread that is about to be terminated. *)
Definition terminating : state := State 0 0 true None YcpTermSignal UiIdle [] [] false.

Lemma terminating_reachable retry : reachable retry terminating.
Proof. apply rtc_once. exists Work. left. exact (ycp_terminate retry started eq_refl). Qed.

Lemma calls_served_witness :
  (ycp requesting <> YcpWait -> calls requesting = requests requesting) /\
  exists l, requests requesting = calls requesting ++ l /\ (length l <= 1)%nat.
Proof. exact (calls_served requesting (requesting_reachable true)). Defined.

Lemma request_answered_witness :
  eventually (fun s' => ycp s' = YcpRunning /\ calls s' = [7%nat]) requesting.
Proof. exact (request_answered true requesting eq_refl (requesting_reachable true) eq_refl). Defined.

Lemma shutdown_completes_witness :
  eventually (fun s' => ycp s' = YcpDown /\ ui s' = UiExited /\ destroyed s' = true /\
    calls s' = requests s') terminating.
Proof. exact (shutdown_completes terminating (terminating_reachable true) eq_refl). Defined.

End YUIThreads.
