(* ===== verification/Menu.v ===== *)
(** * Menus

    src/libyui/src/YMenuWidget.cc (the base of menu bars and menu buttons),
    YMenuItem.h, YMenuBar.cc, YMenuButton.cc, YContextMenu.cc and the search by
    path of YTree.cc. A menu widget is a selection widget whose items are trees
    of menus; it numbers all items, finds them by number or by the path of
    labels, and gives every menu level keyboard shortcuts of its own. *)

From S2P Require Import Prelude Shortcut Item SelectionWidget.
From Stdlib Require Import Ascii.
Import Item.YItem.
Import Shortcut.YShortcut.
Import SelectionWidget.YSelectionWidget (YSelectionWidget, withItems, itemCollection).

Module YMenuWidget.

(** ** Menu items *)

Definition label (it : item) : cstring := YItem.label (data it).

Definition isMenu (it : item) : bool := hasChildren it.
Definition isSeparator (it : item) : bool := match label it with [] => true | _ => false end.

Definition setLabel (it : item) (newLabel : cstring) : item :=
  let 'Item d cs := it in
  Item (mkItem (iid d) newLabel (iconName d) (status d) (index d) (parent d) (isOpenFlag d)) cs.

(** [YMenuItem::addItem()], [addMenu()] and [addSeparator()]. *)
Definition menuAddItem (it : item) (iid' : nat) (label iconName : cstring) : item :=
  newChildItem it iid' label iconName false.
Definition menuAddMenu (it : item) (iid' : nat) (label iconName : cstring) : item :=
  newChildItem it iid' label iconName false.
Definition menuAddSeparator (it : item) (iid' : nat) : item := newChildItem it iid' [] [] false.

(** ** Keyboard shortcuts of a menu level *)

Definition shortcutOf (it : item) : ascii := normalized (findShortcut (label it) 0).

(** [used[ USED_SIZE ]], one flag for each [char] value. *)
Definition noneUsed : list bool := replicate 256 false.
Definition isUsed (used : list bool) (c : ascii) : bool := default false (used !! Z.to_nat (code c)).
Definition setUsed (used : list bool) (c : ascii) : list bool := <[Z.to_nat (code c) := true]> used.

(** The items seen so far, the flags, and the positions of the items of
    [conflicts]. *)
Record levelState := Level { seen : list item; used : list bool; conflicts : list nat }.

(** One turn of the first loop, after the recursive call. *)
Definition scanItem (st : levelState) (it : item) : levelState :=
  if isSeparator it then Level (seen st ++ [it]) (used st) (conflicts st)
  else
    let shortcut := shortcutOf it in
    if decide (shortcut = "000"%char) then
      Level (seen st ++ [it]) (used st) (conflicts st ++ [length (seen st)])
    else if isUsed (used st) shortcut then
      Level (seen st ++ [it]) (used st) (conflicts st ++ [length (seen st)])
    else Level (seen st ++ [it]) (setUsed (used st) shortcut) (conflicts st).

(** The inner loop: the first index whose character is valid and not used. *)
Fixpoint freeIndex (used : list bool) (clean : cstring) (index : nat) : option (nat * ascii) :=
  match clean with
  | [] => None
  | x :: rest =>
      let ch := normalized x in
      if negb (bool_decide (ch = "000"%char)) && negb (isUsed used ch) then Some (index, ch)
      else freeIndex used rest (S index)
  end.

(** One turn of the second loop. *)
Definition relabel (st : list item * list bool) (i : nat) : list item * list bool :=
  let '(l, used) := st in
  match l !! i with
  | None => st
  | Some it =>
      let clean := cleanShortcutString (label it) in
      match freeIndex used clean 0 with
      | Some (index, new_c) =>
          (<[i := setLabel it (insert1 clean index shortcutMarker)]> l, setUsed used new_c)
      | None => (<[i := setLabel it clean]> l, used)
      end
  end.

Definition relabelAll (st : levelState) : list item :=
  fst (fold_left relabel (conflicts st) (seen st, used st)).

Section resolve.
(** Whether the [dynamic_cast] to [YMenuItem] of an item succeeds. *)
Context (isMenuItem : nat -> bool).

(** The recursive call for the children of an item. The code asks an item that
    is no menu item whether it is a separator, through a null pointer. *)
Fixpoint resolveItem (it : item) : outcome item :=
  let 'Item d cs := it in
  if negb (isMenuItem (iid d)) then Undefined
  else if isSeparator it then Done it
  else if hasChildren it then
    let! st := ofold (fun st c => let! c' := resolveItem c in Done (scanItem st c')) cs
                 (Level [] noneUsed []) in
    Done (Item d (relabelAll st))
  else Done it.

Definition resolveShortcutConflicts (l : list item) : outcome (list item) :=
  let! st := ofold (fun st c => let! c' := resolveItem c in Done (scanItem st c')) l
               (Level [] noneUsed []) in
  Done (relabelAll st).

End resolve.

(** ** The widget *)

(** The members of a menu widget, with the flags of its items that are
    disabled or hidden. *)
Record YMenuWidget := MenuWidget {
  selection : YSelectionWidget;
  nextSerialNo : Z;
  disabled : list nat;
  hidden : list nat }.

Definition newMenuWidget (label : cstring) : result YMenuWidget :=
  let? w := SelectionWidget.YSelectionWidget.newSelectionWidget label false false in
  Ok (MenuWidget w 0 [] []).

Definition newMenuBar : result YMenuWidget := newMenuWidget [].

(** [item->setIndex( ++nextSerialNo )] and [assignUniqueIndex()] for the
    children. *)
Fixpoint assignUniqueIndex (serial : Z) (it : item) : Z * item :=
  let 'Item d cs := it in
  let serial := serial + 1 in
  let '(serial', cs') :=
    fold_left (fun st c => let '(n, done) := st in let '(n', c') := assignUniqueIndex n c in (n', done ++ [c']))
      cs (serial, []) in
  (serial', Item (setIndex d serial) cs').

(** [addItem()]: the base class appends the item, which is then numbered. *)
Definition addItem (w : YMenuWidget) (newItem : option item) : result YMenuWidget :=
  let? s := SelectionWidget.YSelectionWidget.addItem (selection w) newItem in
  match list.last (itemCollection s) with
  | Some it =>
      let '(serial, it') := assignUniqueIndex (nextSerialNo w) it in
      Ok (MenuWidget (withItems s (removelast (itemCollection s) ++ [it'])) serial (disabled w) (hidden w))
  | None => Ok (MenuWidget s (nextSerialNo w) (disabled w) (hidden w))
  end.

Section addItems.
Context (isMenuItem : nat -> bool).
Definition addItems (w : YMenuWidget) (l : list item) : outcome YMenuWidget :=
  let! w' := lift (rfold (fun w it => addItem w (Some it)) l w) in
  let! l' := resolveShortcutConflicts isMenuItem (itemCollection (selection w')) in
  Done (MenuWidget (withItems (selection w') l') (nextSerialNo w') (disabled w') (hidden w')).
End addItems.

Definition deleteAllItems (w : YMenuWidget) : YMenuWidget :=
  MenuWidget (SelectionWidget.YSelectionWidget.deleteAllItems (selection w)) 0 (disabled w) (hidden w).

(** [setItemEnabled()] and [setItemVisible()]; [None] is a null pointer. *)
Definition setItemEnabled (w : YMenuWidget) (p : option nat) (enabled : bool) : YMenuWidget :=
  match p with
  | Some p =>
      MenuWidget (selection w) (nextSerialNo w)
        (if enabled then filter (fun q => q <> p) (disabled w) else p :: disabled w) (hidden w)
  | None => w
  end.
Definition setItemVisible (w : YMenuWidget) (p : option nat) (visible : bool) : YMenuWidget :=
  match p with
  | Some p =>
      MenuWidget (selection w) (nextSerialNo w) (disabled w)
        (if visible then filter (fun q => q <> p) (hidden w) else p :: hidden w)
  | None => w
  end.
Definition isEnabled (w : YMenuWidget) (p : nat) : bool := negb (bool_decide (p ∈ disabled w)).
Definition isVisible (w : YMenuWidget) (p : nat) : bool := negb (bool_decide (p ∈ hidden w)).

(** [YMenuButton::addItem()], [addMenu()], [addSeparator()] and
    [YMenuBar::addMenu()]. *)
Definition buttonAddItem (w : YMenuWidget) (iid' : nat) (label iconName : cstring) : result YMenuWidget :=
  addItem w (Some (newTreeItem iid' label iconName false)).
Definition buttonAddMenu (w : YMenuWidget) (iid' : nat) (label iconName : cstring) : result YMenuWidget :=
  addItem w (Some (newTreeItem iid' label iconName false)).
Definition buttonAddSeparator (w : YMenuWidget) (iid' : nat) : result YMenuWidget :=
  addItem w (Some (newTreeItem iid' [] [] false)).
Definition barAddMenu (w : YMenuWidget) (iid' : nat) (label iconName : cstring) : result YMenuWidget :=
  addItem w (Some (newTreeItem iid' label iconName false)).

(** ** Searching *)

Section find.
Context (isMenuItem : nat -> bool).

Fixpoint findMenuItem1 (wantedIndex : Z) (it : item) : option itemData :=
  let 'Item d cs := it in
  if isMenuItem (iid d) then
    if index d =? wantedIndex then Some d else firstSome (findMenuItem1 wantedIndex) cs
  else None.

Definition findMenuItem (w : YMenuWidget) (wantedIndex : Z) : option itemData :=
  firstSome (findMenuItem1 wantedIndex) (itemCollection (selection w)).

(** One turn of the loop of [findItem()]: it returns, or goes on with the next
    item and the path that [path_begin] then refers to. *)
Inductive turn := Return (r : option itemData) | Continue (path : list cstring).

Section loop.
Context (body : item -> list cstring -> outcome turn).
Fixpoint findLoop (l : list item) (path : list cstring) : outcome (option itemData) :=
  match l with
  | [] => Done None
  | it :: rest =>
      let! t := body it path in
      match t with
      | Return r => Done r
      | Continue path' => findLoop rest path'
      end
  end.
End loop.

(** [leafOnly] is the condition of menus that an item with children is not
    returned. A path that is used up is dereferenced at its end. *)
Fixpoint findTurn (leafOnly : bool) (it : item) (path : list cstring) : outcome turn :=
  let 'Item d cs := it in
  if negb (isMenuItem (iid d)) then Done (Return None)
  else
    match path with
    | [] => Undefined
    | p :: path' =>
        if decide (YItem.label d = p) then
          match path' with
          | [] => if leafOnly && hasChildren it then Done (Continue path) else Done (Return (Some d))
          | _ :: _ =>
              let! r := findLoop (findTurn leafOnly) cs path' in
              match r with
              | Some x => Done (Return (Some x))
              | None => Done (Continue path')
              end
          end
        else Done (Continue path)
    end.

Definition findItem (w : YMenuWidget) (path : list cstring) : outcome (option itemData) :=
  findLoop (findTurn true) (itemCollection (selection w)) path.

(** [YTree::findItem()]; here the cast is to [YTreeItem]. *)
Definition treeFindItem (w : YSelectionWidget) (path : list cstring) : outcome (option itemData) :=
  findLoop (findTurn false) (itemCollection w) path.

End find.

(** ** One menu level *)

Lemma label_setLabel it s : label (setLabel it s) = s.
Proof. by destruct it. Qed.
Lemma children_setLabel it s : children (setLabel it s) = children it.
Proof. by destruct it. Qed.

Lemma length_setUsed used c : length (setUsed used c) = length used.
Proof. apply length_insert. Qed.

Lemma isUsed_setUsed used c d : length used = 256%nat ->
  isUsed (setUsed used c) d = bool_decide (d = c) || isUsed used d.
Proof.
  intros Hl. unfold isUsed, setUsed. pose proof (code_range c). pose proof (code_range d).
  case_bool_decide as E; simpl.
  - subst. by rewrite list_lookup_insert_eq by lia.
  - rewrite list_lookup_insert_ne; [done|]. intros E'. apply E, code_inj. lia.
Qed.

Lemma isUsed_none c : isUsed noneUsed c = false.
Proof.
  unfold isUsed, noneUsed. pose proof (code_range c). by rewrite lookup_replicate_2 by lia.
Qed.

(** The state of the loops on one level: [pend] are the positions of the items
    that still have to get a shortcut. *)
Record levelOk (l : list item) (used : list bool) (pend : list nat) : Prop := {
  lo_size : length used = 256%nat;
  lo_pend : forall i, i ∈ pend -> exists it, l !! i = Some it /\ isSeparator it = false;
  lo_nodup : NoDup pend;
  lo_used : forall c, (isUsed used c = true) <->
    (c <> "000"%char) /\ exists i it, (i ∉ pend) /\ l !! i = Some it /\ isSeparator it = false /\ shortcutOf it = c;
  lo_unique : forall i j a b, i ∉ pend -> j ∉ pend -> l !! i = Some a -> l !! j = Some b ->
    isSeparator a = false -> isSeparator b = false -> shortcutOf a = shortcutOf b ->
    shortcutOf a <> "000"%char -> i = j;
  lo_none : forall i a, i ∉ pend -> l !! i = Some a -> isSeparator a = false ->
    shortcutOf a = "000"%char ->
    forall x, x ∈ unmark (label a) -> isValid x = true -> isUsed used (normalized x) = true
}.

Lemma levelOk_nil : levelOk [] noneUsed [].
Proof.
  constructor; try done.
  - intros i Hi. by apply elem_of_nil in Hi.
  - constructor.
  - intros c. rewrite isUsed_none. split; [done|]. by intros (_ & i & it & _ & ? & _).
Qed.

(** Appending an item to the level: a lookup is in the old part or the new
    item. *)
Lemma lookup_snoc_cases {A} (l : list A) x i y :
  (l ++ [x]) !! i = Some y -> (i < length l)%nat /\ l !! i = Some y \/ i = length l /\ y = x.
Proof.
  intros H. apply lookup_app_Some in H as [H|[Hge H]].
  - left. split; [by eapply lookup_lt_Some|done].
  - right. apply list_lookup_singleton_Some in H as [? ->]. split; [lia|done].
Qed.

Lemma lookup_snoc_old {A} (l : list A) x i y : l !! i = Some y -> (l ++ [x]) !! i = Some y.
Proof. intros H. rewrite lookup_app_l; [done|]. by eapply lookup_lt_Some. Qed.

Section scan.
Context (l : list item) (used : list bool) (pend : list nat) (it : item).
Hypothesis Hok : levelOk l used pend.

Lemma pend_lt i : i ∈ pend -> (i < length l)%nat.
Proof. intros (x & Hx & _)%(lo_pend _ _ _ Hok). by eapply lookup_lt_Some. Qed.

Lemma new_not_pend : length l ∉ pend.
Proof. intros H%pend_lt. lia. Qed.

Lemma scan_separator : isSeparator it = true -> levelOk (l ++ [it]) used pend.
Proof.
  intros Hs. constructor.
  - apply Hok.
  - intros i (x & Hx & Hi)%(lo_pend _ _ _ Hok). exists x. auto using lookup_snoc_old.
  - apply Hok.
  - intros c. rewrite (lo_used _ _ _ Hok). split; intros (Hc & i & x & Hp & Hx & Hsx & E); (split; [done|]);
      exists i, x; [auto using lookup_snoc_old|].
    apply lookup_snoc_cases in Hx as [[_ Hx]|[_ ->]]; [auto|congruence].
  - intros i j a b Hi Hj [[_ Ha]|[_ ->]]%lookup_snoc_cases [[_ Hb]|[_ ->]]%lookup_snoc_cases; try congruence.
    by apply Hok.
  - intros i a Hi [[_ Ha]|[_ ->]]%lookup_snoc_cases; [|congruence]. by apply (lo_none _ _ _ Hok i).
Qed.

Lemma scan_conflict : isSeparator it = false -> levelOk (l ++ [it]) used (pend ++ [length l]).
Proof.
  intros Hs. pose proof new_not_pend as Hn. constructor.
  - apply Hok.
  - intros i [(x & Hx & Hi)%(lo_pend _ _ _ Hok)|Hi]%elem_of_app.
    + exists x. auto using lookup_snoc_old.
    + apply list_elem_of_singleton in Hi as ->. exists it. by rewrite lookup_app_r, Nat.sub_diag by lia.
  - apply list.NoDup_app. split_and!; [apply Hok| |apply NoDup_singleton].
    intros i Hi ->%list_elem_of_singleton. done.
  - intros c. rewrite (lo_used _ _ _ Hok). split; intros (Hc & i & x & Hp & Hx & Hsx & E); (split; [done|]);
      exists i, x.
    + split_and!; auto using lookup_snoc_old. apply not_elem_of_app. split; [done|].
      intros ->%list_elem_of_singleton. apply lookup_lt_Some in Hx. lia.
    + apply not_elem_of_app in Hp as [Hp Hl].
      apply lookup_snoc_cases in Hx as [[_ Hx]|[-> _]]; [auto|by rewrite list_elem_of_singleton in Hl].
  - intros i j a b [Hi Hi']%not_elem_of_app [Hj Hj']%not_elem_of_app
      [[_ Ha]|[-> _]]%lookup_snoc_cases [[_ Hb]|[-> _]]%lookup_snoc_cases;
      try (by rewrite list_elem_of_singleton in Hi'); try (by rewrite list_elem_of_singleton in Hj').
    by apply Hok.
  - intros i a [Hi Hi']%not_elem_of_app [[_ Ha]|[-> _]]%lookup_snoc_cases;
      [|by rewrite list_elem_of_singleton in Hi']. by apply (lo_none _ _ _ Hok i).
Qed.

Lemma scan_new : isSeparator it = false -> shortcutOf it <> "000"%char ->
  isUsed used (shortcutOf it) = false -> levelOk (l ++ [it]) (setUsed used (shortcutOf it)) pend.
Proof.
  intros Hs Hc Hu. pose proof new_not_pend as Hn. pose proof (lo_size _ _ _ Hok) as Hsz.
  assert (Hnone : forall i a, i ∉ pend -> l !! i = Some a -> isSeparator a = false -> shortcutOf a = shortcutOf it -> False).
  { intros i a Hi Ha Hsa E. apply not_true_iff_false in Hu. apply Hu, (lo_used _ _ _ Hok). eauto 10. }
  constructor.
  - by rewrite length_setUsed.
  - intros i (x & Hx & Hi)%(lo_pend _ _ _ Hok). exists x. auto using lookup_snoc_old.
  - apply Hok.
  - intros c. rewrite isUsed_setUsed, orb_true_iff, bool_decide_eq_true, (lo_used _ _ _ Hok) by done. split.
    + intros [->|(Hc' & i & x & Hp & Hx & Hsx & E)]; (split; [done|]).
      * exists (length l), it. by rewrite lookup_app_r, Nat.sub_diag by lia.
      * exists i, x. auto using lookup_snoc_old.
    + intros (Hc' & i & x & Hp & Hx & Hsx & E).
      apply lookup_snoc_cases in Hx as [[_ Hx]|[_ ->]]; [right; eauto 10|by left].
  - intros i j a b Hi Hj [[_ Ha]|[-> ->]]%lookup_snoc_cases [[_ Hb]|[-> ->]]%lookup_snoc_cases Hsa Hsb E Hne; try done.
    + by apply (lo_unique _ _ _ Hok i j a b).
    + destruct (Hnone i a); auto.
    + destruct (Hnone j b); auto.
  - intros i a Hi [[_ Ha]|[_ ->]]%lookup_snoc_cases Hsa E x Hx Hv; [|done].
    rewrite isUsed_setUsed, (lo_none _ _ _ Hok i a) by done. by rewrite orb_true_r.
Qed.

End scan.

Lemma scanItem_ok st it : levelOk (seen st) (used st) (conflicts st) ->
  let st' := scanItem st it in levelOk (seen st') (used st') (conflicts st') /\ seen st' = seen st ++ [it].
Proof.
  intros Hok. unfold scanItem. destruct (isSeparator it) eqn:Hs; simpl; [by split; [apply scan_separator|]|].
  case_decide; simpl; [by split; [apply scan_conflict|]|].
  destruct (isUsed (used st) (shortcutOf it)) eqn:Hu; simpl; split; try done; [by apply scan_conflict|by apply scan_new].
Qed.

Lemma scan_ok l st : levelOk (seen st) (used st) (conflicts st) ->
  let st' := fold_left scanItem l st in
  levelOk (seen st') (used st') (conflicts st') /\ seen st' = seen st ++ l.
Proof.
  revert st. induction l as [|it l IH]; intros st Hok; simpl; [by rewrite app_nil_r|].
  destruct (scanItem_ok st it Hok) as [Hok' Hs]. destruct (IH _ Hok') as [Hl Hs'].
  split; [exact Hl|]. by rewrite Hs', Hs, <- app_assoc.
Qed.

(** *** Giving an item of the level another label *)

Lemma unmark_idemp s : unmark (unmark s) = unmark s.
Proof. apply (scanPos_none _ 0), scanPos_unmark. Qed.

Lemma freeIndex_spec used clean k :
  match freeIndex used clean k with
  | Some (index, c) => exists pre x r, clean = pre ++ x :: r /\ index = (k + length pre)%nat /\
      c = normalized x /\ isValid x = true /\ isUsed used c = false
  | None => forall x, x ∈ clean -> isValid x = true -> isUsed used (normalized x) = true
  end.
Proof.
  revert k. induction clean as [|x clean IH]; intros k; simpl.
  - intros x Hx. by apply elem_of_nil in Hx.
  - case_bool_decide as Hx; simpl.
    + specialize (IH (S k)). destruct (freeIndex used clean (S k)) as [[index c]|].
      * destruct IH as (pre & y & r & -> & -> & H). exists (x :: pre), y, r. split_and!; [done|simpl; lia|apply H..].
      * intros y [->|Hy]%elem_of_cons Hv; [|by apply IH].
        rewrite <- (normalized_valid x), Hx in Hv. done.
    + destruct (isUsed used (normalized x)) eqn:Hu; simpl.
      * specialize (IH (S k)). destruct (freeIndex used clean (S k)) as [[index c]|].
        -- destruct IH as (pre & y & r & -> & -> & H). exists (x :: pre), y, r. split_and!; [done|simpl; lia|apply H..].
        -- intros y [->|Hy]%elem_of_cons Hv; [done|by apply IH].
      * exists [], x, clean. split_and!; [done|simpl; lia|done| |done].
        destruct (isValid x) eqn:Hv; [done|]. by rewrite (normalized_invalid x Hv) in Hx.
Qed.

(** The label an item gets: the same text, with a marker in front of a free
    character, or without a marker if there is no free character. *)
Definition newLabel (used : list bool) (s : cstring) : cstring :=
  match freeIndex used (cleanShortcutString s) 0 with
  | Some (index, _) => insert1 (cleanShortcutString s) index shortcutMarker
  | None => cleanShortcutString s
  end.

Lemma newLabel_spec used s :
  unmark (newLabel used s) = unmark s /\
  match freeIndex used (cleanShortcutString s) 0 with
  | Some (_, c) => normalized (findShortcut (newLabel used s) 0) = c /\ c <> "000"%char /\ isUsed used c = false
  | None => normalized (findShortcut (newLabel used s) 0) = "000"%char /\
      forall x, x ∈ unmark s -> isValid x = true -> isUsed used (normalized x) = true
  end.
Proof.
  unfold newLabel. rewrite cleanShortcutString_unmark. pose proof (freeIndex_spec used (unmark s) 0) as Hf.
  destruct (freeIndex used (unmark s) 0) as [[index c]|].
  - destruct Hf as (pre & x & r & E & -> & -> & Hv & Hu). simpl. unfold insert1.
    rewrite E, take_app_length, drop_app_length.
    destruct (insert_marker pre x r 0) as [Hs Hun].
    { by apply (valid_not_marker x). } { rewrite <- E. apply scanPos_unmark. }
    rewrite Hun, <- E, unmark_idemp, findShortcut_split by done. split_and!; [done|done| |done].
    apply valid_not_none. by rewrite normalized_valid.
  - rewrite unmark_idemp, findShortcut_unmark. done.
Qed.

(** The flags after that. *)
Definition usedAfter (used : list bool) (s : cstring) : list bool :=
  match freeIndex used (cleanShortcutString s) 0 with
  | Some (_, c) => setUsed used c
  | None => used
  end.

Lemma usedAfter_spec used s : length used = 256%nat ->
  let c := normalized (findShortcut (newLabel used s) 0) in
  length (usedAfter used s) = 256%nat /\
  (forall d, isUsed (usedAfter used s) d = true <-> isUsed used d = true \/ (d = c /\ d <> "000"%char)) /\
  (c <> "000"%char -> isUsed used c = false) /\
  (c = "000"%char -> forall x, x ∈ unmark s -> isValid x = true -> isUsed used (normalized x) = true).
Proof.
  intros Hsz c. subst c. destruct (newLabel_spec used s) as [_ Hnew]. unfold usedAfter.
  destruct (freeIndex used (cleanShortcutString s) 0) as [[k d]|].
  - destruct Hnew as (-> & Hd & Hu). rewrite length_setUsed. split_and!; try done.
    intros e. rewrite isUsed_setUsed, orb_true_iff, bool_decide_eq_true by done. naive_solver.
  - destruct Hnew as (-> & Hu). naive_solver.
Qed.

Lemma relabel_eq l used i it : l !! i = Some it ->
  relabel (l, used) i = (<[i := setLabel it (newLabel used (label it))]> l, usedAfter used (label it)).
Proof.
  intros Hi. unfold relabel, newLabel, usedAfter. rewrite Hi. by destruct (freeIndex _ _ _) as [[]|].
Qed.

Lemma isSeparator_unmark it it' : unmark (label it') = unmark (label it) -> isSeparator it' = isSeparator it.
Proof.
  unfold isSeparator. intros E. destruct (label it) as [|x r] eqn:E1, (label it') as [|y r'] eqn:E2; try done.
  - by apply (unmark_nil (y :: r')) in E.
  - symmetry in E. by apply (unmark_nil (x :: r)) in E.
Qed.

Lemma relabel_ok l used i pend : levelOk l used (i :: pend) ->
  let st := relabel (l, used) i in levelOk (fst st) (snd st) pend.
Proof.
  intros Hok. destruct (lo_pend _ _ _ Hok i) as (it & Hi & Hs); [by left|].
  pose proof (lo_nodup _ _ _ Hok) as [Hip Hnd]%list.NoDup_cons.
  rewrite (relabel_eq l used i it Hi). simpl. destruct (newLabel_spec used (label it)) as [Hun _].
  destruct (usedAfter_spec used (label it) (lo_size _ _ _ Hok)) as (Hsz & Husd & Hfree & Hnone).
  set (it' := setLabel it (newLabel used (label it))).
  assert (Hsc : normalized (findShortcut (newLabel used (label it)) 0) = shortcutOf it').
  { unfold shortcutOf, it'. by rewrite label_setLabel. }
  rewrite Hsc in *. assert (Hs' : isSeparator it' = false).
  { rewrite <- Hs. apply isSeparator_unmark. unfold it'. by rewrite label_setLabel. }
  assert (Hlook : forall j a, <[i := it']> l !! j = Some a -> j = i /\ a = it' \/ j <> i /\ l !! j = Some a).
  { intros j a [(-> & -> & _)|[? ?]]%list_lookup_insert_Some; auto. }
  assert (Hold : forall j a, j ∉ pend -> j <> i -> l !! j = Some a -> isSeparator a = false ->
    shortcutOf a <> "000"%char -> isUsed used (shortcutOf a) = true).
  { intros. apply (lo_used _ _ _ Hok). split; [done|]. exists j, a. by rewrite not_elem_of_cons. }
  constructor; [done| |done| | |].
  - intros j Hj. destruct (lo_pend _ _ _ Hok j) as (x & Hx & Hsx); [by right|]. exists x.
    rewrite list_lookup_insert_ne; [done|]. by intros ->.
  - intros c. rewrite Husd, (lo_used _ _ _ Hok). split.
    + intros [(Hc & j & x & Hj & Hx & Hsx & E)|[-> Hc]]; (split; [done|]).
      * apply not_elem_of_cons in Hj as [Hji Hj]. exists j, x. by rewrite list_lookup_insert_ne.
      * exists i, it'. rewrite list_lookup_insert_eq by (by eapply lookup_lt_Some). done.
    + intros (Hc & j & x & Hj & [[-> ->]|[Hji Hx]]%Hlook & Hsx & E); [right; auto|left].
      split; [done|]. exists j, x. by rewrite not_elem_of_cons.
  - intros j k a b Hj Hk [[-> ->]|[Hji Ha]]%Hlook [[-> ->]|[Hki Hb]]%Hlook Hsa Hsb E Hne; try done.
    + pose proof (Hold k b). rewrite <- E, Hfree in *; naive_solver.
    + pose proof (Hold j a). rewrite E in *. rewrite Hfree in *; naive_solver.
    + apply (lo_unique _ _ _ Hok j k a b); rewrite ?not_elem_of_cons; auto.
  - intros j a Hj [[-> ->]|[Hji Ha]]%Hlook Hsa E x Hx Hv; apply Husd; left.
    + unfold it' in Hx. rewrite label_setLabel, Hun in Hx. by apply Hnone.
    + apply (lo_none _ _ _ Hok j a); rewrite ?not_elem_of_cons; auto.
Qed.

(** *** The whole level *)

(** The level after both loops: shortcuts differ, an item is left without one
    only if no character of its label is free. *)
Definition distinctShortcuts (l : list item) : Prop :=
  forall i j a b, l !! i = Some a -> l !! j = Some b -> isSeparator a = false -> isSeparator b = false ->
    shortcutOf a = shortcutOf b -> shortcutOf a <> "000"%char -> i = j.

Definition noneWasted (l : list item) : Prop :=
  forall i a x, l !! i = Some a -> isSeparator a = false -> shortcutOf a = "000"%char ->
    x ∈ unmark (label a) -> isValid x = true ->
    exists j b, l !! j = Some b /\ isSeparator b = false /\ shortcutOf b = normalized x.

Lemma levelOk_done l used : levelOk l used [] -> distinctShortcuts l /\ noneWasted l.
Proof.
  intros Hok. split.
  - intros i j a b. intros. eapply (lo_unique _ _ _ Hok); eauto using not_elem_of_nil.
  - intros i a x Ha Hs E Hx Hv.
    pose proof (lo_none _ _ _ Hok i a ltac:(apply not_elem_of_nil) Ha Hs E x Hx Hv) as Hu.
    apply (lo_used _ _ _ Hok) in Hu as (_ & j & b & _ & ? & ? & ?). eauto.
Qed.

(** Two items that differ only in the marker of the label. *)
Definition sameText (a b : item) : Prop :=
  unmark (label a) = unmark (label b) /\ children a = children b /\
  setLabel a (label b) = b.

Lemma sameText_refl a : sameText a a.
Proof. by destruct a as [[] ?]. Qed.

Lemma sameText_trans a b c : sameText a b -> sameText b c -> sameText a c.
Proof.
  intros (E1 & C1 & S1) (E2 & C2 & S2). split_and!; [congruence|congruence|].
  destruct a as [[] ca], b as [[] cb], c as [[] cc]. simpl in *. congruence.
Qed.

Lemma sameText_setLabel it used : sameText it (setLabel it (newLabel used (label it))).
Proof.
  destruct (newLabel_spec used (label it)) as [E _]. split_and!; rewrite ?label_setLabel, ?children_setLabel; try done.
Qed.

Lemma Forall2_sameText_refl l : Forall2 sameText l l.
Proof. induction l; constructor; auto using sameText_refl. Qed.

Lemma Forall2_sameText_trans l1 l2 l3 : Forall2 sameText l1 l2 -> Forall2 sameText l2 l3 -> Forall2 sameText l1 l3.
Proof.
  intros H. revert l3. induction H as [|a b l1 l2 Hab _ IH]; intros l3 H3; inversion H3; subst; constructor;
    eauto using sameText_trans.
Qed.

Lemma Forall2_sameText_insert l i it used : l !! i = Some it ->
  Forall2 sameText l (<[i := setLabel it (newLabel used (label it))]> l).
Proof.
  intros Hi. rewrite <- (list_insert_id l i it Hi) at 1.
  apply Forall2_insert; [apply Forall2_sameText_refl|apply sameText_setLabel].
Qed.

Lemma relabels_ok pend l used : levelOk l used pend ->
  let st := fold_left relabel pend (l, used) in
  levelOk (fst st) (snd st) [] /\ Forall2 sameText l (fst st).
Proof.
  revert l used. induction pend as [|i pend IH]; intros l used Hok; cbn [fold_left].
  - split; [done|apply Forall2_sameText_refl].
  - pose proof (relabel_ok l used i pend Hok) as Hok'. destruct (lo_pend _ _ _ Hok i) as (it & Hi & _); [by left|].
    rewrite (relabel_eq l used i it Hi) in Hok' |- *. destruct (IH _ _ Hok') as [H1 H2]. split; [done|].
    eapply Forall2_sameText_trans; [by apply Forall2_sameText_insert|exact H2].
Qed.

(** A level of items whose sub-menus are done already. *)
Definition resolveLevel (l : list item) : list item :=
  relabelAll (fold_left scanItem l (Level [] noneUsed [])).

Lemma resolveLevel_ok l :
  distinctShortcuts (resolveLevel l) /\ noneWasted (resolveLevel l) /\ Forall2 sameText l (resolveLevel l).
Proof.
  unfold resolveLevel, relabelAll. destruct (scan_ok l (Level [] noneUsed []) levelOk_nil) as [Hok Hs].
  destruct (relabels_ok _ _ _ Hok) as [Hdone Hsame]. rewrite Hs in Hsame at 1.
  destruct (levelOk_done _ _ Hdone). split_and!; done.
Qed.

(** ** The whole menu *)

(** The levels of the menu of an item and below, without what hangs below a
    separator. *)
Fixpoint levels1 (it : item) : list (list item) :=
  let 'Item d cs := it in if isSeparator it then [] else cs :: flat_map levels1 cs.

Definition levels (l : list item) : list (list item) := l :: flat_map levels1 l.

(** The items without their markers. *)
Definition plain (it : item) : item :=
  mapItem (fun d => mkItem (iid d) (unmark (YItem.label d)) (iconName d) (status d) (index d) (parent d) (isOpenFlag d)) it.

Definition goodLevel (l : list item) : Prop := distinctShortcuts l /\ noneWasted l.

Section menu_tree.
Context (isMenuItem : nat -> bool).

(** All items are menu items. *)
Definition allMenuItems (l : list item) : Prop := Forall (fun d => isMenuItem (iid d) = true) (preorder l).

Lemma ofold_scan (f : item -> outcome item) l l' st : Forall2 (fun a b => f a = Done b) l l' ->
  ofold (fun st c => let! c' := f c in Done (scanItem st c')) l st = Done (fold_left scanItem l' st).
Proof.
  intros H. revert st. induction H as [|a b l l' E _ IH]; intros st; [done|]. simpl. rewrite E. apply IH.
Qed.

Lemma sameText_levels a b : sameText a b -> levels1 b = levels1 a.
Proof.
  intros (E & C & _). pose proof (isSeparator_unmark a b (eq_sym E)) as Hs.
  destruct a as [da ca], b as [db cb]. simpl in C. subst cb. simpl. unfold isSeparator in *. simpl in *.
  by rewrite Hs.
Qed.

Lemma sameText_plain a b : sameText a b -> plain b = plain a.
Proof.
  intros (E & C & S). destruct a as [[] ca], b as [[] cb]. unfold label in *. simpl in *. simplify_eq.
  unfold plain. simpl. by rewrite E.
Qed.

Lemma resolveLevel_tree l :
  map plain (resolveLevel l) = map plain l /\
  (Forall goodLevel (flat_map levels1 l) -> Forall goodLevel (levels (resolveLevel l))).
Proof.
  destruct (resolveLevel_ok l) as (Hd & Hw & Hs). split.
  - symmetry. apply Forall2_map_eq. eapply Forall2_impl; [|exact Hs]. intros a b ?. symmetry. by apply sameText_plain.
  - intros Hl. constructor; [done|].
    rewrite <- (Forall2_flat_map_eq levels1 levels1 l); [done|].
    eapply Forall2_impl; [|exact Hs]. intros a b ?. symmetry. by apply sameText_levels.
Qed.

(** The induction step: a level whose items can all be done. *)
Lemma resolve_level l :
  Forall (fun it => exists it', resolveItem isMenuItem it = Done it' /\ data it' = data it /\
    plain it' = plain it /\ Forall goodLevel (levels1 it')) l ->
  exists l', resolveShortcutConflicts isMenuItem l = Done l' /\ map plain l' = map plain l /\
    Forall goodLevel (levels l').
Proof.
  intros (k & Hk)%Forall_choose. exists (resolveLevel k). unfold resolveShortcutConflicts.
  rewrite (ofold_scan _ l k) by (eapply Forall2_impl; [|exact Hk]; naive_solver).
  destruct (resolveLevel_tree k) as [Hp Hl]. split_and!; [done| |].
  - rewrite Hp. symmetry. apply Forall2_map_eq. eapply Forall2_impl; [|exact Hk]. naive_solver.
  - apply Hl. clear -Hk. induction Hk as [|a b l k (_ & _ & _ & H) _ IH]; simpl; [constructor|].
    by apply Forall_app.
Qed.

Lemma resolveItem_ok it : Forall (fun d => isMenuItem (iid d) = true) (preorder1 it) ->
  exists it', resolveItem isMenuItem it = Done it' /\ data it' = data it /\ plain it' = plain it /\
    Forall goodLevel (levels1 it').
Proof.
  induction it as [d cs IH] using item_tree_ind. intros [Hd Hcs]%Forall_cons_iff.
  assert (Hall : Forall (fun it => exists it', resolveItem isMenuItem it = Done it' /\ data it' = data it /\
    plain it' = plain it /\ Forall goodLevel (levels1 it')) cs).
  { clear Hd. induction IH as [|c cs Hc _ IHcs]; [constructor|]. simpl in Hcs.
    apply Forall_app in Hcs as [H1 H2]. constructor; auto. }
  destruct (resolve_level cs Hall) as (cs' & Hr & Hp & Hl).
  cbn [resolveItem]. rewrite Hd. cbn [negb]. destruct (isSeparator (Item d cs)) eqn:Hs.
  { exists (Item d cs). cbn [levels1]. rewrite Hs. by split_and!. }
  assert (Hlev : forall x, levels1 (Item d x) = levels x).
  { intros x. cbn [levels1]. change (isSeparator (Item d x)) with (isSeparator (Item d cs)). by rewrite Hs. }
  destruct (hasChildren (Item d cs)) eqn:Hc.
  - unfold resolveShortcutConflicts in Hr. destruct (ofold _ cs _) as [st| | |]; try done.
    cbn [obind] in Hr |- *. injection Hr as <-.
    exists (Item d (relabelAll st)). split; [done|]. split; [done|]. split.
    + unfold plain. cbn [mapItem]. f_equal. exact Hp.
    + by rewrite Hlev.
  - exists (Item d cs). rewrite Hlev. destruct cs; [|done]. do 3 (split; [done|]).
    constructor; [|constructor]. split; intros ?; naive_solver.
Qed.

Lemma resolve_ok l : allMenuItems l ->
  exists l', resolveShortcutConflicts isMenuItem l = Done l' /\ map plain l' = map plain l /\
    Forall goodLevel (levels l').
Proof.
  intros H. apply resolve_level. unfold allMenuItems, preorder in H.
  induction l as [|it l IH]; [constructor|]. simpl in H. apply Forall_app in H as [H1 H2].
  constructor; [by apply resolveItem_ok|auto].
Qed.

End menu_tree.

(** ** Numbers of the items *)

Definition all (w : YMenuWidget) : list itemData := preorder (itemCollection (selection w)).

(** All items are numbered in the order of the menu, starting at 1. *)
Definition numbered (w : YMenuWidget) : Prop :=
  map index (all w) = seqZ 1 (Z.of_nat (length (all w))) /\ nextSerialNo w = Z.of_nat (length (all w)).

Lemma length_preorder1 d cs : length (preorder1 (Item d cs)) = S (length (preorder cs)).
Proof. done. Qed.

(** The numbers of one item and its sub-menus. *)
Definition numbersFrom (serial n : Z) (old new : list itemData) : Prop :=
  n = serial + Z.of_nat (length old) /\ map index new = seqZ (serial + 1) (Z.of_nat (length old)).

Lemma numbersFrom_app a b c l1 l2 k1 k2 :
  numbersFrom a b l1 k1 -> numbersFrom b c l2 k2 -> numbersFrom a c (l1 ++ l2) (k1 ++ k2).
Proof.
  intros [-> E1] [-> E2]. split; rewrite length_app; [lia|]. rewrite map_app, E1, E2, Nat2Z.inj_add, seqZ_app by lia.
  f_equal. f_equal. lia.
Qed.

Lemma assign_children cs serial acc :
  Forall (fun it => forall serial, let st := assignUniqueIndex serial it in
    numbersFrom serial (fst st) (preorder1 it) (preorder1 (snd st))) cs ->
  let st := fold_left (fun st c => let '(n, done) := st in
      let '(n', c') := assignUniqueIndex n c in (n', done ++ [c'])) cs (serial, acc) in
  exists k, snd st = acc ++ k /\ numbersFrom serial (fst st) (preorder cs) (preorder k).
Proof.
  intros H. revert serial acc. induction H as [|c cs Hc _ IH]; intros serial acc; simpl.
  - exists []. rewrite app_nil_r. split; [done|]. split; simpl; [lia|done].
  - specialize (Hc serial). destruct (assignUniqueIndex serial c) as [n c']. simpl in Hc.
    destruct (IH n (acc ++ [c'])) as (k & Hk & Hn). exists (c' :: k). split; [by rewrite Hk, <- app_assoc|].
    by apply (numbersFrom_app serial n).
Qed.

Lemma assign_numbers it serial : let st := assignUniqueIndex serial it in
  numbersFrom serial (fst st) (preorder1 it) (preorder1 (snd st)).
Proof.
  revert serial. induction it as [d cs IH] using item_tree_ind. intros serial. cbn [assignUniqueIndex].
  destruct (assign_children cs (serial + 1) [] IH) as (k & Hk & Hn).
  destruct (fold_left _ cs _) as [n cs']. simpl in Hk, Hn. subst cs'.
  apply (numbersFrom_app serial (serial + 1) n [d] (preorder cs) [setIndex d (serial + 1)] (preorder k)); [|done].
  split; simpl; [lia|done].
Qed.

(** Numbering keeps the items. *)
Lemma assign_iid it serial : map iid (preorder1 (snd (assignUniqueIndex serial it))) = map iid (preorder1 it).
Proof.
  revert serial. induction it as [d cs IH] using item_tree_ind. intros serial. cbn [assignUniqueIndex].
  assert (Hfold : forall n acc, exists k, snd (fold_left (fun st c => let '(n, done) := st in
      let '(n', c') := assignUniqueIndex n c in (n', done ++ [c'])) cs (n, acc)) = acc ++ k /\
      map iid (preorder k) = map iid (preorder cs)).
  { clear -IH. induction IH as [|c cs Hc _ IHcs]; intros n acc; simpl; [exists []; by rewrite app_nil_r|].
    specialize (Hc n). destruct (assignUniqueIndex n c) as [n' c']. destruct (IHcs n' (acc ++ [c'])) as (k & Hk & E).
    exists (c' :: k). split; [by rewrite Hk, <- app_assoc|]. simpl. simpl in Hc. by rewrite !map_app, Hc, E. }
  destruct (Hfold (serial + 1) []) as (k & Hk & E). destruct (fold_left _ cs _) as [n cs']. simpl in Hk. subst cs'.
  simpl. f_equal. exact E.
Qed.

(** What [addItem()] of a menu appends. *)
Lemma addItem_ok w o w' : SelectionWidget.YSelectionWidget.enforceSingleSelection (selection w) = false ->
  addItem w o = Ok w' ->
  exists it it' serial, o = Some it /\ map iid (preorder1 it') = map iid (preorder1 it) /\
    numbersFrom (nextSerialNo w) serial (preorder1 it) (preorder1 it') /\ nextSerialNo w' = serial /\
    itemCollection (selection w') = itemCollection (selection w) ++ [it'] /\
    SelectionWidget.YSelectionWidget.enforceSingleSelection (selection w') = false.
Proof.
  intros Hm. unfold addItem, SelectionWidget.YSelectionWidget.addItem. destruct o as [it|]; [|done].
  destruct (bool_decide _); [done|]. cbn [rbind].
  set (it1 := Item (setIndex (data it) _) (children it)). simpl. rewrite Hm. simpl.
  rewrite last_snoc. pose proof (assign_numbers it1 (nextSerialNo w)) as Hn.
  pose proof (assign_iid it1 (nextSerialNo w)) as Hi.
  destruct (assignUniqueIndex (nextSerialNo w) it1) as [serial it'] eqn:E. intros [= <-].
  simpl in Hi, Hn. simpl. rewrite removelast_last. exists it, it', serial. split_and!; try done.
  - simpl. rewrite Hi. by destruct it.
  - destruct it as [d cs]. destruct Hn as [-> Hn]. split; [done|]. exact Hn.
Qed.

Lemma addItem_numbered w o w' : SelectionWidget.YSelectionWidget.enforceSingleSelection (selection w) = false ->
  numbered w -> addItem w o = Ok w' -> numbered w'.
Proof.
  intros Hm [Hx Hs] H. destruct (addItem_ok w o w' Hm H) as (it & it' & serial & -> & Hi & [-> Hn] & Hs' & Hc & _).
  assert (length (preorder1 it') = length (preorder1 it)) as Hl.
  { by rewrite <- (length_map iid), Hi, length_map. }
  unfold numbered, all in *. rewrite Hc, preorder_app. simpl. rewrite app_nil_r, map_app, length_app, Hx, Hn, Hl, Hs', Hs.
  split; [|lia]. rewrite Nat2Z.inj_add, seqZ_app by lia. f_equal. f_equal. lia.
Qed.

(** Items of the same shape and numbers. *)
Lemma plain_index l l' : map plain l' = map plain l -> map index (preorder l') = map index (preorder l) /\
  map iid (preorder l') = map iid (preorder l).
Proof.
  set (f := fun d => mkItem (iid d) (unmark (YItem.label d)) (iconName d) (status d) (index d) (parent d) (isOpenFlag d)).
  intros E. assert (map f (preorder l') = map f (preorder l)) as Ef.
  { rewrite <- !preorder_map. by unfold mapItems, plain in *; f_equal. }
  split; [apply (f_equal (map index)) in Ef|apply (f_equal (map iid)) in Ef]; by rewrite !map_map in Ef.
Qed.


(** ** Histories of a menu *)

Section history.
Context (isMenuItem : nat -> bool).

(** Whatever is done to a menu widget, with menu items only. *)
Inductive step (w : YMenuWidget) : YMenuWidget -> Prop :=
| step_addItem it w' : allMenuItems isMenuItem [it] -> addItem w (Some it) = Ok w' -> step w w'
| step_addItems l w' : allMenuItems isMenuItem l -> addItems isMenuItem w l = Done w' -> step w w'
| step_deleteAllItems : step w (deleteAllItems w)
| step_setItemEnabled p b : step w (setItemEnabled w p b)
| step_setItemVisible p b : step w (setItemVisible w p b).

Record inv (w : YMenuWidget) : Prop := {
  inv_multi : SelectionWidget.YSelectionWidget.enforceSingleSelection (selection w) = false;
  inv_numbered : numbered w;
  inv_menu : allMenuItems isMenuItem (itemCollection (selection w)) }.

Lemma allMenuItems_iid l l' : map iid (preorder l') = map iid (preorder l) ->
  allMenuItems isMenuItem l -> allMenuItems isMenuItem l'.
Proof.
  unfold allMenuItems. rewrite <- !(Forall_map iid (fun i => isMenuItem i = true)). by intros ->.
Qed.

Lemma allMenuItems_app l1 l2 : allMenuItems isMenuItem (l1 ++ l2) <->
  allMenuItems isMenuItem l1 /\ allMenuItems isMenuItem l2.
Proof. unfold allMenuItems. by rewrite preorder_app, Forall_app. Qed.

Lemma addItem_inv w it w' : inv w -> allMenuItems isMenuItem [it] -> addItem w (Some it) = Ok w' -> inv w'.
Proof.
  intros [Hm Hn Ha] Hit H. pose proof (addItem_numbered w _ w' Hm Hn H) as Hn'.
  destruct (addItem_ok w _ w' Hm H) as (it0 & it' & serial & [= <-] & Hi & _ & _ & Hc & Hm').
  split; [done|done|]. rewrite Hc. apply allMenuItems_app. split; [done|].
  apply (allMenuItems_iid [it]); [|done]. simpl. by rewrite !app_nil_r.
Qed.

Lemma addAll_inv l w w' : inv w -> allMenuItems isMenuItem l ->
  rfold (fun w it => addItem w (Some it)) l w = Ok w' -> inv w'.
Proof.
  revert w. induction l as [|it l IH]; intros w Hi Hl H; cbn [rfold] in H; [by simplify_eq|].
  apply rbind_ok in H as (w1 & H1 & H2). apply (allMenuItems_app [it] l) in Hl as [Hit Hl].
  eapply IH; [|done|done]. by eapply addItem_inv.
Qed.

Lemma menu_step_inv w w' : inv w -> step w w' -> inv w'.
Proof.
  intros Hi Hs. destruct Hs as [it w' Hm H|l w' Hm H| |p b|p b].
  - by eapply addItem_inv.
  - unfold addItems in H. destruct (rfold _ l w) as [w1|e] eqn:E1; [|done]. cbn [lift obind] in H.
    destruct (addAll_inv l w w1 Hi Hm E1) as [Hm1 [Hx Hs1] Ha1].
    destruct (resolve_ok isMenuItem _ Ha1) as (l' & Hr & Hp & _). rewrite Hr in H. injection H as <-.
    destruct (plain_index _ _ Hp) as [Hx' Hi'].
    assert (length (preorder l') = length (all w1)) as Hl.
    { unfold all. by rewrite <- (length_map iid), Hi', length_map. }
    split; [done| |by eapply allMenuItems_iid].
    unfold numbered, all. simpl. rewrite Hl, Hx'. done.
  - split; [apply Hi| |constructor]. split; reflexivity.
  - destruct p; [|done]. destruct Hi as [H1 H2 H3]. split; done.
  - destruct p; [|done]. destruct Hi as [H1 H2 H3]. split; done.
Qed.

Lemma new_inv label w : newMenuWidget label = Ok w -> inv w.
Proof. intros [= <-]. split; [done| |constructor]. split; reflexivity. Qed.

Lemma menu_reachable_inv label w0 w : newMenuWidget label = Ok w0 -> rtc step w0 w -> inv w.
Proof. intros H0%new_inv H. induction H as [|w0 w1 w2 Hs _ IH]; [done|]. by eapply IH, menu_step_inv. Qed.

(** The search by number, on the list of all items. *)
Lemma findMenuItem_head l wanted : allMenuItems isMenuItem l ->
  firstSome (findMenuItem1 isMenuItem wanted) l = head (filter (fun d => index d = wanted) (preorder l)).
Proof.
  assert (forall it, Forall (fun d => isMenuItem (iid d) = true) (preorder1 it) ->
    findMenuItem1 isMenuItem wanted it = head (filter (fun d => index d = wanted) (preorder1 it))) as Hone.
  { intros it. induction it as [d cs IH] using item_tree_ind. intros [Hd Hcs]%Forall_cons_iff.
    cbn [findMenuItem1 preorder1]. rewrite Hd, filter_cons.
    destruct (Z.eqb_spec (index d) wanted); [by rewrite decide_True|]. rewrite decide_False by done.
    rewrite SelectionWidget.YSelectionWidget.filter_flat_map. apply firstSome_head.
    clear -IH Hcs. induction IH as [|c cs Hc _ IHl]; constructor; simpl in Hcs; apply Forall_app in Hcs as [? ?]; auto. }
  unfold allMenuItems, preorder. rewrite SelectionWidget.YSelectionWidget.filter_flat_map.
  intros H. apply firstSome_head. induction l as [|it l IH]; constructor; simpl in H; apply Forall_app in H as [? ?]; auto.
Qed.

(** In a list numbered from [m] on, the first item with a number is the one at
    its place. *)
Lemma numbered_lookup l m wanted : map index l = seqZ m (Z.of_nat (length l)) ->
  head (filter (fun d => index d = wanted) l) =
  if decide (m <= wanted < m + Z.of_nat (length l)) then l !! Z.to_nat (wanted - m) else None.
Proof.
  revert m. induction l as [|d l IH]; intros m; simpl length; [intros _; case_decide; [lia|done]|].
  rewrite Nat2Z.inj_succ, seqZ_cons by lia. rewrite Z.pred_succ. intros [= Hd Hl]. rewrite filter_cons.
  case_decide as E.
  - rewrite decide_True by lia. simpl. by replace (wanted - m) with 0 by lia.
  - rewrite (IH (Z.succ m) Hl). repeat case_decide; try lia; [|done].
    by replace (Z.to_nat (wanted - m)) with (S (Z.to_nat (wanted - Z.succ m))) by lia.
Qed.

End history.

(** ** Searching by path *)

Section path.
Context (isMenuItem : nat -> bool) (leafOnly : bool).

(** The item at a path of labels. *)
Inductive hasPath : list item -> list cstring -> itemData -> Prop :=
| path_here l it : it ∈ l -> (leafOnly = true -> children it = []) -> hasPath l [label it] (data it)
| path_below l it p path d : it ∈ l -> hasPath (children it) (p :: path) d ->
    hasPath l (label it :: p :: path) d.

(** No two items of a level have the same label. *)
Fixpoint allLevels1 (it : item) : list (list item) := let 'Item _ cs := it in cs :: flat_map allLevels1 cs.
Definition distinctLabels (l : list item) : Prop :=
  Forall (fun g => NoDup (map label g)) (l :: flat_map allLevels1 l).

Lemma distinctLabels_child l it : distinctLabels l -> it ∈ l -> distinctLabels (children it).
Proof.
  unfold distinctLabels. intros [_ H]%Forall_cons_iff Hin.
  rewrite List.Forall_forall in H. apply List.Forall_forall. intros g Hg. apply H.
  apply in_flat_map. exists it. split; [by apply list_elem_of_In|]. by destruct it.
Qed.

Lemma allMenuItems_child l it : allMenuItems isMenuItem l -> it ∈ l ->
  isMenuItem (iid (data it)) = true /\ allMenuItems isMenuItem (children it).
Proof.
  unfold allMenuItems, preorder. rewrite !List.Forall_forall. setoid_rewrite in_flat_map.
  intros H Hin%list_elem_of_In. split; [|intros d (c & Hc & Hd)].
  - apply (H (data it)). exists it. split; [done|]. destruct it. by left.
  - apply (H d). exists it. split; [done|]. destruct it. right. apply in_flat_map. eauto.
Qed.

(** The items in front of the wanted one are passed by. *)
Lemma findLoop_skip l1 l2 p path : Forall (fun it => isMenuItem (iid (data it)) = true /\ label it <> p) l1 ->
  findLoop (findTurn isMenuItem leafOnly) (l1 ++ l2) (p :: path) =
  findLoop (findTurn isMenuItem leafOnly) l2 (p :: path).
Proof.
  induction 1 as [|[d cs] l1 [Hm Hl] _ IH]; [done|]. simpl in Hm. unfold label in Hl. simpl in Hl.
  cbn [app findLoop findTurn]. rewrite Hm. cbn [negb]. by rewrite decide_False.
Qed.

Lemma find_complete l path d : hasPath l path d -> allMenuItems isMenuItem l -> distinctLabels l ->
  findLoop (findTurn isMenuItem leafOnly) l path = Done (Some d).
Proof.
  assert (Hsplit : forall l it, it ∈ l -> allMenuItems isMenuItem l -> distinctLabels l ->
    exists l1 l2, l = l1 ++ it :: l2 /\
      Forall (fun x => isMenuItem (iid (data x)) = true /\ label x <> label it) l1).
  { clear. intros l it Hin Hm Hd. destruct (list_elem_of_split _ _ Hin) as (l1 & l2 & ->).
    exists l1, l2. split; [done|]. apply List.Forall_forall. intros x Hx%list_elem_of_In. split.
    - apply (allMenuItems_child _ x Hm). apply elem_of_app. by left.
    - intros E. apply Forall_cons_iff in Hd as [Hd _]. rewrite map_app in Hd.
      apply list.NoDup_app in Hd as (_ & Hd & _). apply (Hd (label it)); [|by left].
      rewrite <- E. apply list_elem_of_fmap. eauto. }
  induction 1 as [l it Hin Hleaf|l it p path d Hin Hp IH]; intros Hm Hd;
    destruct (allMenuItems_child _ _ Hm Hin) as [Him Hcm];
    destruct (Hsplit l it Hin Hm Hd) as (l1 & l2 & E & Hl1); rewrite E, findLoop_skip by done;
    pose proof (distinctLabels_child l it Hd Hin) as Hcd; destruct it as [dt cs]; simpl in *;
    rewrite Him; cbn [negb]; unfold label; simpl; rewrite decide_True by done.
  - destruct leafOnly; simpl; [|done]. by rewrite Hleaf.
  - rewrite (IH Hcm Hcd). done.
Qed.

(** The search returns, whatever the menu and the path, unless the path is
    empty; what it returns has the last label of the path. *)
Definition lastLabel (path : list cstring) (o : option itemData) : Prop :=
  match o with Some d => list.last path = Some (YItem.label d) | None => True end.

Definition turnDefined (path : list cstring) (m : outcome turn) : Prop :=
  exists t, m = Done t /\
    match t with Return o => lastLabel path o | Continue path' => path' <> [] /\ list.last path' = list.last path end.

Lemma loop_defined body l :
  Forall (fun it => forall path, path <> [] -> turnDefined path (body it path)) l ->
  forall path, path <> [] -> exists o, findLoop body l path = Done o /\ lastLabel path o.
Proof.
  induction 1 as [|it l Hit _ IH]; intros path Hne; [by exists None|]. cbn [findLoop].
  destruct (Hit path Hne) as ([o|path'] & -> & H); cbn [obind]; [eauto|].
  destruct H as [Hne' Hlast]. destruct (IH path' Hne') as (o & -> & Ho). exists o. split; [done|].
  unfold lastLabel in *. by rewrite <- Hlast.
Qed.

Lemma findTurn_defined it path : path <> [] -> turnDefined path (findTurn isMenuItem leafOnly it path).
Proof.
  revert path. induction it as [d cs IH] using item_tree_ind. intros [|p path] Hp; [done|].
  unfold turnDefined. cbn [findTurn]. destruct (negb (isMenuItem (iid d))); [by eexists|].
  case_decide as E; [|by eexists].
  destruct path as [|q path]; [destruct (leafOnly && _); eexists; (split; [done|]); simpl; by rewrite ?E|].
  destruct (loop_defined _ cs IH (q :: path)) as (o & -> & Ho); [done|]. cbn [obind].
  destruct o as [x|]; eexists; (split; [done|]); [|done]. simpl in *. done.
Qed.

Lemma findLoop_defined l path : path <> [] ->
  exists o, findLoop (findTurn isMenuItem leafOnly) l path = Done o /\ lastLabel path o.
Proof.
  apply loop_defined, List.Forall_forall. intros it _ path' Hp. by apply findTurn_defined.
Qed.

End path.

(** ** Main theorems *)

(** C40: [resolveShortcutConflicts()] on a menu of menu items returns; on every
    level of the menu (sub-menus included, what hangs below a separator
    excepted) no two items have the same shortcut, an item is left without one
    only if every valid character of its label is the shortcut of another item
    of the level, and apart from the markers nothing changes. *)
Theorem menu_shortcuts (isMenuItem : nat -> bool) (l : list item) : allMenuItems isMenuItem l ->
  exists l', resolveShortcutConflicts isMenuItem l = Done l' /\ map plain l' = map plain l /\
    Forall (fun g => distinctShortcuts g /\ noneWasted g) (levels l').
Proof. apply resolve_ok. Qed.

(** In every state a menu of menu items can reach, the numbers of the items
    are unique and [findMenuItem()] is their inverse: it returns the item with
    the number, for the numbers from 1 to the number of items in the order of
    the menu, and nothing for any other number. *)
Theorem menu_numbers (isMenuItem : nat -> bool) (label : cstring) (w0 w : YMenuWidget) (wanted : Z) :
  newMenuWidget label = Ok w0 -> rtc (step isMenuItem) w0 w ->
  findMenuItem isMenuItem w wanted =
    (if decide (1 <= wanted <= Z.of_nat (length (all w))) then all w !! Z.to_nat (wanted - 1) else None) /\
  map index (all w) = seqZ 1 (Z.of_nat (length (all w))).
Proof.
  intros H0 Hr. destruct (menu_reachable_inv isMenuItem label w0 w H0 Hr) as [_ [Hx _] Ha]. split; [|done].
  unfold findMenuItem. rewrite findMenuItem_head by done. unfold all in *. rewrite (numbered_lookup _ 1 wanted Hx).
  repeat case_decide; try lia; done.
Qed.

(** The search by path, of menus ([leafOnly]) and of trees: with a path
    that is not empty it returns, an item it returns has the last label of the
    path, and if the labels of each level differ and there is an item with the
    path, it is the result. *)
Theorem find_by_path (isMenuItem : nat -> bool) (leafOnly : bool) (l : list item) (path : list cstring) :
  path <> [] ->
  (exists o, findLoop (findTurn isMenuItem leafOnly) l path = Done o /\ lastLabel path o) /\
  forall d, allMenuItems isMenuItem l -> distinctLabels l -> hasPath leafOnly l path d ->
    findLoop (findTurn isMenuItem leafOnly) l path = Done (Some d).
Proof. intros Hp. split; [by apply findLoop_defined|]. intros d ? ? ?. by apply find_complete. Qed.

(** ** Examples *)

Definition leaf (i : nat) (s : string) : item := newTreeItem i (str s) [] false.
Definition menu (i : nat) (s : string) (cs : list item) : item := Item (data (leaf i s)) cs.

(** A menu bar with a sub-menu and a conflict, and one with a separator. *)
Definition sampleItems : list item :=
  [ menu 1 "&File" [leaf 2 "&Open"; leaf 3 "&Options"; leaf 4 ""; leaf 5 "E&xit"];
    leaf 6 "&Find" ].

Definition sampleWidget : YMenuWidget :=
  match newMenuWidget (str "menu") with Ok w => w | Throw _ => MenuWidget
    (SelectionWidget.YSelectionWidget.mkWidget [] false false false [] []) 0 [] [] end.

Definition sampleMenu : YMenuWidget :=
  match addItems (fun _ => true) sampleWidget sampleItems with Done w => w | _ => sampleWidget end.

Lemma sampleItems_menu : allMenuItems (fun _ => true) sampleItems.
Proof. repeat constructor. Qed.

Lemma sampleMenu_reachable : rtc (step (fun _ => true)) sampleWidget sampleMenu.
Proof. apply rtc_once. apply (step_addItems _ _ sampleItems); [apply sampleItems_menu|]. vm_compute. reflexivity. Qed.

(** The search continues with the rest of the path after a sub-menu without
    the item: it returns the toplevel item [Find] for the path
    [File], [Find], at which there is no item. *)
Theorem find_wrong_level :
  exists d, findItem (fun _ => true) sampleMenu [str "&File"; str "F&ind"] = Done (Some d) /\
    YItem.label d = str "F&ind" /\
    forall x, ~ hasPath true (itemCollection (selection sampleMenu)) [str "&File"; str "F&ind"] x.
Proof.
  eexists. split; [vm_compute; reflexivity|]. split; [done|]. intros x H.
  inversion H as [|l it p path d Hin Hp E1 E2]; subst. vm_compute in Hin.
  repeat (apply elem_of_cons in Hin as [->|Hin]; [|]); [| |by apply elem_of_nil in Hin].
  - inversion Hp as [l it Hin E1 E3 E4|]; subst. simpl in Hin.
    repeat (apply elem_of_cons in Hin as [->|Hin]; [by vm_compute in E4|]). by apply elem_of_nil in Hin.
  - by vm_compute in E2.
Qed.

(** An item that is no menu item is asked for its label through a null
    pointer. *)
Theorem non_menu_item_undefined (isMenuItem : nat -> bool) (it : item) (l : list item) :
  isMenuItem (iid (data it)) = false -> resolveShortcutConflicts isMenuItem (it :: l) = Undefined.
Proof. intros H. destruct it as [d cs]. unfold resolveShortcutConflicts. cbn [ofold resolveItem]. simpl in H. by rewrite H. Qed.

Lemma menu_shortcuts_witness :
  exists l', resolveShortcutConflicts (fun _ => true) sampleItems = Done l' /\
    map plain l' = map plain sampleItems /\
    Forall (fun g => distinctShortcuts g /\ noneWasted g) (levels l').
Proof. exact (menu_shortcuts (fun _ => true) sampleItems sampleItems_menu). Defined.

Lemma menu_numbers_witness :
  findMenuItem (fun _ => true) sampleMenu 6 = all sampleMenu !! 5%nat /\
  map index (all sampleMenu) = [1; 2; 3; 4; 5; 6].
Proof.
  exact (menu_numbers (fun _ => true) (str "menu") sampleWidget sampleMenu 6 eq_refl sampleMenu_reachable).
Defined.

Lemma find_by_path_witness :
  findLoop (findTurn (fun _ => true) true) sampleItems [str "&File"; str "E&xit"] =
  Done (Some (data (leaf 5 "E&xit"))).
Proof.
  apply (proj2 (find_by_path (fun _ => true) true sampleItems [str "&File"; str "E&xit"] ltac:(discriminate))).
  - apply sampleItems_menu.
  - repeat constructor; vm_compute; intros H; repeat (apply elem_of_cons in H as [?|H]; [done|]);
      by apply elem_of_nil in H.
  - apply (path_below true sampleItems
      (menu 1 "&File" [leaf 2 "&Open"; leaf 3 "&Options"; leaf 4 ""; leaf 5 "E&xit"])); [by left|].
    apply (path_here true _ (leaf 5 "E&xit")); [|done]. do 3 right. left.
Defined.

End YMenuWidget.
