(* ===== verification/StringTree.v ===== *)
(** * String trees

    src/libyui/src/TreeItem.h (the sorted tree), YTransText.h (a text with its
    translation) and YStringTree.cc: a tree of path components, such as the RPM
    groups of a package list. A branch is given as one string with delimiters;
    its components are translated and inserted in the order of the
    translations, and a node knows its path back to the root. Nodes are never
    removed before the whole tree is, so an address is the position in the list
    of all nodes; the chain of [next()] pointers of the children of a node is a
    list of addresses. [translate] is [dgettext()]. *)

From S2P Require Import Prelude Shortcut.
From Stdlib Require Import Ascii Sorting.Sorted.

Module YStringTree.

(** ** Texts *)

Record YTransText := TransText { orig : cstring; trans : cstring }.

(** [operator<] of [std::string]: bytes are compared as unsigned values. *)
Fixpoint str_lt (s t : cstring) : bool :=
  match s, t with
  | _, [] => false
  | [], _ :: _ => true
  | x :: s', y :: t' => (code x <? code y) || ((code x =? code y) && str_lt s' t')
  end.

Definition text_lt (a b : YTransText) : bool := str_lt (trans a) (trans b).
Definition text_gt (a b : YTransText) : bool := str_lt (trans b) (trans a).
Definition text_eq (a b : YTransText) : bool := bool_decide (trans a = trans b).

Definition setOrig (a : YTransText) (newOrig : cstring) : YTransText := TransText newOrig (trans a).
Definition setTranslation (a : YTransText) (newTrans : cstring) : YTransText := TransText (orig a) newTrans.

(** ** Nodes *)

Record node := Node { value : YTransText; parent : option nat; children : list nat }.

Abbreviation tree := (list node).

Definition valueAt (t : tree) (a : nat) : YTransText :=
  match t !! a with Some n => value n | None => TransText [] [] end.

Definition childrenOf (t : tree) (a : nat) : list nat :=
  match t !! a with Some n => children n | None => [] end.

Definition parentOf (t : tree) (a : nat) : option nat :=
  match t !! a with Some n => parent n | None => None end.

(** The loop of [insertChildSorted()], from the second child on: it passes the
    children that are smaller and links the new one in front of the rest. *)
Fixpoint insertLoop (t : tree) (newChild : nat) (rest : list nat) : list nat :=
  match rest with
  | [] => [newChild]
  | c :: rest' =>
      if text_lt (valueAt t c) (valueAt t newChild) then c :: insertLoop t newChild rest'
      else newChild :: rest
  end.

Definition insertChildSorted (t : tree) (newChild : nat) (cs : list nat) : list nat :=
  match cs with
  | [] => [newChild]
  | first :: rest =>
      if text_lt (valueAt t newChild) (valueAt t first) then newChild :: cs
      else first :: insertLoop t newChild rest
  end.

(** [TreeItem::addChild()]: the new child becomes the first one. *)
Definition addChild (newChild : nat) (cs : list nat) : list nat := newChild :: cs.

(** The constructor of a sorted item with a parent. *)
Definition newItem (t : tree) (val : YTransText) (p : nat) : tree * nat :=
  let a := length t in
  let t := t ++ [Node val (Some p) []] in
  match t !! p with
  | Some n => (<[p := Node (value n) (parent n) (insertChildSorted t a (children n))]> t, a)
  | None => (t, a)
  end.

Fixpoint findDirectLoop (t : tree) (searchVal : YTransText) (cs : list nat) : option nat :=
  match cs with
  | [] => None
  | c :: rest => if text_eq (valueAt t c) searchVal then Some c else findDirectLoop t searchVal rest
  end.

Definition findDirectChild (t : tree) (p : nat) (searchVal : YTransText) : option nat :=
  findDirectLoop t searchVal (childrenOf t p).

(** ** Branches *)

Definition root : nat := 0.

Section tree.
Context (translate : cstring -> cstring).

(** The constructor of the tree. *)
Definition newTree : tree := [Node (TransText (str "<root>") (translate (str "<root>"))) None []].

(** The two inner loops: the first position from [start] on that is no
    delimiter, and the next delimiter. [None] is a loop that ran out of fuel. *)
Fixpoint skipDelimiters (fuel : nat) (content : cstring) (delimiter : ascii) (start : nat) : option nat :=
  match fuel with
  | O => None
  | S fuel' =>
      match content !! start with
      | Some c => if decide (c = delimiter) then skipDelimiters fuel' content delimiter (start + 1) else Some start
      | None => Some start
      end
  end.

Fixpoint searchDelimiter (fuel : nat) (content : cstring) (delimiter : ascii) (end' : nat) : option nat :=
  match fuel with
  | O => None
  | S fuel' =>
      match content !! end' with
      | Some c => if decide (c = delimiter) then Some end' else searchDelimiter fuel' content delimiter (end' + 1)
      | None => Some end'
      end
  end.

(** One path component below [p]. *)
Definition addComponent (t : tree) (p : nat) (component : cstring) : tree * nat :=
  let text := TransText component (translate component) in
  match findDirectChild t p text with
  | Some n => (t, n)
  | None => newItem t text p
  end.

Fixpoint addLoop (fuel : nat) (t : tree) (content : cstring) (delimiter : ascii) (start : nat)
    (p : nat) (n : option nat) : option (tree * option nat) :=
  match fuel with
  | O => None
  | S fuel' =>
      if (start <? length content)%nat then
        match skipDelimiters (S (length content)) content delimiter start with
        | None => None
        | Some start =>
            match searchDelimiter (S (length content)) content delimiter start with
            | None => None
            | Some end' =>
                if (start <? end')%nat then
                  let '(t', n') := addComponent t p (take (end' - start) (drop start content)) in
                  addLoop fuel' t' content delimiter end' n' (Some n')
                else addLoop fuel' t content delimiter end' p n
            end
        end
      else Some (t, n)
  end.

(** [addBranch()]; a delimiter 0 is the simple case, [None] as parent the root.
    The loop moves forward in each turn, so the length of the string bounds
    it. *)
Definition addBranch (t : tree) (content : cstring) (delimiter : ascii) (p : option nat) :
    option (tree * option nat) :=
  let p := match p with Some p => p | None => root end in
  if decide (delimiter = "000"%char) then
    let '(t', n) := newItem t (TransText content (translate content)) p in Some (t', Some n)
  else addLoop (S (length content)) t content delimiter 0 p None.

End tree.

(** ** Paths *)

(** The loop that climbs to the root, in front of which it stops. *)
Fixpoint climb (fuel : nat) (t : tree) (sel : YTransText -> cstring) (delimiter : ascii) (a : nat)
    (path : cstring) : option cstring :=
  match fuel with
  | O => None
  | S fuel' =>
      match parentOf t a with
      | Some p =>
          if decide (p = root) then Some path
          else climb fuel' t sel delimiter p (sel (valueAt t p) ++ [delimiter] ++ path)
      | None => Some path
      end
  end.

(** [completePath()]; the climb is bounded by the number of nodes. *)
Definition completePath (t : tree) (item : option nat) (translated : bool) (delimiter : ascii)
    (startWithDelimiter : bool) : option cstring :=
  let sel := if translated then trans else orig in
  match match item with
        | Some a => climb (S (length t)) t sel delimiter a (sel (valueAt t a))
        | None => Some []
        end with
  | Some path => Some (if startWithDelimiter then delimiter :: path else path)
  | None => None
  end.

Definition origPath (t : tree) (item : option nat) (delimiter : ascii) (startWithDelimiter : bool) :=
  completePath t item false delimiter startWithDelimiter.
Definition translatedPath (t : tree) (item : option nat) (delimiter : ascii) (startWithDelimiter : bool) :=
  completePath t item true delimiter startWithDelimiter.

(** [path()]: both at once. *)
Fixpoint climbBoth (fuel : nat) (t : tree) (delimiter : ascii) (a : nat) (path : YTransText) :
    option YTransText :=
  match fuel with
  | O => None
  | S fuel' =>
      match parentOf t a with
      | Some p =>
          if decide (p = root) then Some path
          else
            let path := setOrig path (orig (valueAt t p) ++ [delimiter] ++ orig path) in
            let path := setTranslation path (trans (valueAt t p) ++ [delimiter] ++ trans path) in
            climbBoth fuel' t delimiter p path
      | None => Some path
      end
  end.

Definition path (t : tree) (item : option nat) (delimiter : ascii) (startWithDelimiter : bool) :
    option YTransText :=
  match item with
  | None => Some (TransText [] [])
  | Some a =>
      match climbBoth (S (length t)) t delimiter a (valueAt t a) with
      | Some p =>
          Some (if startWithDelimiter
                then setTranslation (setOrig p (delimiter :: orig p)) (delimiter :: trans p) else p)
      | None => None
      end
  end.

(** ** The order of the texts *)

Lemma str_lt_irrefl s : str_lt s s = false.
Proof. induction s as [|x s IH]; simpl; [done|]. by rewrite Z.ltb_irrefl, Z.eqb_refl, IH. Qed.

Lemma str_lt_trans s t u : str_lt s t = true -> str_lt t u = true -> str_lt s u = true.
Proof.
  revert t u. induction s as [|x s IH]; intros [|y t] [|z u]; simpl; try done.
  rewrite !orb_true_iff, !andb_true_iff, !Z.ltb_lt, !Z.eqb_eq.
  intros [?|[? ?]] [?|[? ?]]; [left; lia|left; lia|left; lia|right]. split; [lia|]. by eapply IH.
Qed.

Lemma str_lt_total s t : str_lt s t = false -> str_lt t s = false -> s = t.
Proof.
  revert t. induction s as [|x s IH]; intros [|y t]; simpl; try done.
  rewrite !orb_false_iff, !andb_false_iff, !Z.ltb_ge, !Z.eqb_neq. intros [? H1] [? H2].
  assert (code x = code y) as E by lia. rewrite (YShortcut.code_inj x y E). f_equal. apply IH; [destruct H1|destruct H2]; done || lia.
Qed.

(** Not greater. *)
Definition text_le (a b : YTransText) : Prop := text_lt b a = false.

Lemma text_le_trans a b c : text_le a b -> text_le b c -> text_le a c.
Proof.
  unfold text_le, text_lt. intros H1 H2. destruct (str_lt (trans c) (trans a)) eqn:E; [|done].
  destruct (str_lt (trans a) (trans b)) eqn:E'.
  - rewrite (str_lt_trans _ _ _ E E') in H2. done.
  - rewrite (str_lt_total _ _ E' H1) in E. congruence.
Qed.

Lemma text_lt_le a b : text_lt a b = true -> text_le a b.
Proof.
  unfold text_le, text_lt. intros H. destruct (str_lt (trans b) (trans a)) eqn:E; [|done].
  pose proof (str_lt_trans _ _ _ H E) as F. by rewrite str_lt_irrefl in F.
Qed.

(** ** Sorted children *)

Definition sortedBy (t : tree) (cs : list nat) : Prop :=
  StronglySorted (fun a b => text_le (valueAt t a) (valueAt t b)) cs.

Lemma insertLoop_perm t c cs : insertLoop t c cs ≡ₚ c :: cs.
Proof.
  induction cs as [|x cs IH]; simpl; [done|]. destruct (text_lt _ _); [|done]. rewrite IH. apply perm_swap.
Qed.

Lemma insertChildSorted_perm t c cs : insertChildSorted t c cs ≡ₚ c :: cs.
Proof.
  destruct cs as [|x cs]; simpl; [done|]. destruct (text_lt _ _); [done|]. rewrite insertLoop_perm. apply perm_swap.
Qed.

Lemma insertLoop_sorted t c cs : sortedBy t cs -> sortedBy t (insertLoop t c cs).
Proof.
  unfold sortedBy. induction cs as [|x cs IH]; intros Hs; simpl; [repeat constructor|].
  destruct (text_lt (valueAt t x) (valueAt t c)) eqn:E.
  - inversion Hs as [|? ? Hcs Hx]; subst. constructor; [auto|].
    rewrite insertLoop_perm. constructor; [by apply text_lt_le|done].
  - constructor; [done|]. inversion Hs as [|? ? Hcs Hx]; subst. constructor; [done|].
    eapply Forall_impl; [|exact Hx]. intros y Hy. by eapply text_le_trans.
Qed.

Lemma insertChildSorted_sorted t c cs : sortedBy t cs -> sortedBy t (insertChildSorted t c cs).
Proof.
  unfold sortedBy. destruct cs as [|x cs]; intros Hs; simpl; [repeat constructor|].
  inversion Hs as [|? ? Hcs Hx]; subst. destruct (text_lt (valueAt t c) (valueAt t x)) eqn:E.
  - constructor; [done|]. apply text_lt_le in E. constructor; [done|].
    eapply Forall_impl; [|exact Hx]. intros y Hy. by eapply text_le_trans.
  - constructor; [by apply insertLoop_sorted|]. rewrite insertLoop_perm. by constructor.
Qed.

(** ** Well-formed trees *)

Record wf (t : tree) : Prop := {
  wf_root : exists n, t !! root = Some n /\ parent n = None;
  wf_parent : forall a n, t !! a = Some n -> a <> root ->
    exists p m, parent n = Some p /\ (p < a)%nat /\ t !! p = Some m /\ a ∈ children m;
  wf_child : forall p m c, t !! p = Some m -> c ∈ children m ->
    (c < length t)%nat /\ parentOf t c = Some p;
  wf_sorted : forall p m, t !! p = Some m -> sortedBy t (children m) /\ NoDup (children m)
}.

(** What a new node changes. *)
Lemma newItem_spec t v p m : t !! p = Some m ->
  let '(t', a) := newItem t v p in
  a = length t /\ length t' = S (length t) /\
  t' !! a = Some (Node v (Some p) []) /\
  t' !! p = Some (Node (value m) (parent m) (insertChildSorted t' a (children m))) /\
  (forall b, (b < length t)%nat -> b <> p -> t' !! b = t !! b) /\
  (forall b, (b < length t)%nat -> valueAt t' b = valueAt t b /\ parentOf t' b = parentOf t b).
Proof.
  intros Hp. pose proof (lookup_lt_Some _ _ _ Hp) as Hlt. unfold newItem.
  rewrite lookup_app_l, Hp by done. set (t1 := t ++ [Node v (Some p) []]).
  assert (Hlen : length t1 = S (length t)) by (unfold t1; rewrite length_app; simpl; lia).
  assert (Hold : forall b, (b < length t)%nat -> t1 !! b = t !! b) by (intros; by apply lookup_app_l).
  assert (Hval : forall cs, forall b, valueAt (<[p := Node (value m) (parent m) cs]> t1) b = valueAt t1 b).
  { intros cs b. unfold valueAt. destruct (decide (b = p)) as [->|]; [|by rewrite list_lookup_insert_ne].
    rewrite list_lookup_insert_eq, Hold, Hp by lia. done. }
  assert (Hins : forall c cs cs', insertChildSorted (<[p := Node (value m) (parent m) cs']> t1) c cs = insertChildSorted t1 c cs).
  { intros c cs cs'. destruct cs as [|x cs]; simpl; [done|]. rewrite !Hval. destruct (text_lt _ _); [done|]. f_equal.
    induction cs as [|y cs IH]; simpl; [done|]. rewrite !Hval. destruct (text_lt _ _); [by f_equal|done]. }
  split_and!; [done|by rewrite length_insert| | | |].
  - rewrite list_lookup_insert_ne by lia. unfold t1. by rewrite lookup_app_r, Nat.sub_diag by lia.
  - rewrite list_lookup_insert_eq by lia. by rewrite Hins.
  - intros b Hb Hne. rewrite list_lookup_insert_ne by done. by apply Hold.
  - intros b Hb. rewrite Hval. unfold valueAt, parentOf. rewrite Hold by done. split; [done|].
    destruct (decide (b = p)) as [->|Hne]; [by rewrite list_lookup_insert_eq, Hp by lia|].
    by rewrite list_lookup_insert_ne, Hold.
Qed.

Lemma sortedBy_ext t t' cs : (forall c, c ∈ cs -> valueAt t' c = valueAt t c) -> sortedBy t cs -> sortedBy t' cs.
Proof.
  unfold sortedBy. intros Hv H. induction H as [|c cs Hs IH Hc]; [constructor|]. constructor.
  - apply IH. intros; apply Hv. by right.
  - rewrite List.Forall_forall in *. intros x Hx. rewrite !Hv; [by apply Hc|right; by apply list_elem_of_In|left].
Qed.

Lemma newItem_wf t v p : wf t -> (p < length t)%nat -> wf (fst (newItem t v p)).
Proof.
  intros Hwf Hp. destruct (lookup_lt_is_Some_2 t p Hp) as [m Hm].
  pose proof (newItem_spec t v p m Hm) as Hspec. destruct (newItem t v p) as [t' a].
  destruct Hspec as (-> & Hlen & Ha & Hp' & Hold & Hval). simpl.
  assert (Hcases : forall b n, t' !! b = Some n -> b = length t \/ b <> length t /\ (b < length t)%nat).
  { intros b n Hb%lookup_lt_Some. lia. }
  assert (Hch : forall q k, t !! q = Some k -> forall c, c ∈ children k -> (c < length t)%nat).
  { intros q k Hk c Hc. by apply (wf_child t Hwf q k). }
  constructor.
  - destruct (wf_root t Hwf) as (n & Hn & Hr). destruct (decide (p = root)) as [->|Hne].
    + eexists. split; [done|]. simpl. congruence.
    + exists n. by rewrite Hold by (apply lookup_lt_Some in Hn; auto).
  - intros b n Hb Hbr. destruct (Hcases b n Hb) as [->|[_ Hlt]].
    + rewrite Ha in Hb. injection Hb as <-. eexists p, _. split_and!; [done|done|done|]. simpl.
      rewrite insertChildSorted_perm. left.
    + assert (exists n0, t !! b = Some n0 /\ parent n0 = parent n) as (n0 & Hb0 & Hpar).
      { destruct (decide (b = p)) as [->|Hne]; [|exists n; by rewrite <- Hold by done].
        exists m. split; [done|]. rewrite Hp' in Hb. by injection Hb as <-. }
      destruct (wf_parent t Hwf b n0 Hb0 Hbr) as (q & k & Hq & Hlt' & Hk & Hin). rewrite Hpar in Hq.
      destruct (decide (q = p)) as [->|Hne].
      * eexists p, _. split_and!; [done|done|done|]. simpl. rewrite insertChildSorted_perm. right. congruence.
      * exists q, k. rewrite Hold by lia. done.
  - intros q k c Hq Hc. destruct (Hcases q k Hq) as [->|[_ Hlt]].
    { rewrite Ha in Hq. injection Hq as <-. by apply elem_of_nil in Hc. }
    destruct (decide (q = p)) as [->|Hne].
    + rewrite Hp' in Hq. injection Hq as <-. simpl in Hc. rewrite insertChildSorted_perm in Hc.
      apply elem_of_cons in Hc as [->|Hc]; [unfold parentOf; rewrite Ha; split; [lia|done]|].
      pose proof (Hch p m Hm c Hc). destruct (Hval c) as [_ ->]; [done|]. destruct (wf_child t Hwf p m c Hm Hc). split; [lia|done].
    + rewrite Hold in Hq by done. pose proof (Hch q k Hq c Hc). destruct (Hval c) as [_ ->]; [done|].
      destruct (wf_child t Hwf q k c Hq Hc). split; [lia|done].
  - intros q k Hq. destruct (Hcases q k Hq) as [->|[_ Hlt]].
    { rewrite Ha in Hq. injection Hq as <-. simpl. split; constructor. }
    destruct (decide (q = p)) as [->|Hne].
    + rewrite Hp' in Hq. injection Hq as <-. simpl. destruct (wf_sorted t Hwf p m Hm) as [Hs Hnd]. split.
      * apply insertChildSorted_sorted. apply (sortedBy_ext t); [|done]. intros c Hc. by apply Hval, (Hch p m).
      * rewrite insertChildSorted_perm. constructor; [|done]. intros Hc%(Hch p m Hm). lia.
    + rewrite Hold in Hq by done. destruct (wf_sorted t Hwf q k Hq) as [Hs Hnd]. split; [|done].
      apply (sortedBy_ext t); [|done]. intros c Hc. by apply Hval, (Hch q k).
Qed.

(** ** Path components *)

(** The reference definition: the non-empty pieces between delimiters. *)
Fixpoint splitAux (delimiter : ascii) (s acc : cstring) : list cstring :=
  let flush := match acc with [] => [] | _ => [acc] end in
  match s with
  | [] => flush
  | c :: s' =>
      if decide (c = delimiter) then flush ++ splitAux delimiter s' []
      else splitAux delimiter s' (acc ++ [c])
  end.

Definition components (delimiter : ascii) (s : cstring) : list cstring := splitAux delimiter s [].

(** The number of leading delimiters, and of leading other characters. *)
Fixpoint delimiters (d : ascii) (s : cstring) : nat :=
  match s with c :: s' => if decide (c = d) then S (delimiters d s') else 0 | [] => 0 end.
Fixpoint others (d : ascii) (s : cstring) : nat :=
  match s with c :: s' => if decide (c = d) then 0 else S (others d s') | [] => 0 end.

Lemma delimiters_le d s : (delimiters d s <= length s)%nat.
Proof. induction s as [|c s IH]; simpl; [lia|]. case_decide; lia. Qed.
Lemma others_le d s : (others d s <= length s)%nat.
Proof. induction s as [|c s IH]; simpl; [lia|]. case_decide; lia. Qed.

Lemma skipDelimiters_spec fuel content d start : (length content - start < fuel)%nat ->
  skipDelimiters fuel content d start = Some (start + delimiters d (drop start content))%nat.
Proof.
  revert start. induction fuel as [|fuel IH]; intros start Hf; [lia|]. simpl.
  destruct (content !! start) as [c|] eqn:E.
  - pose proof (lookup_lt_Some _ _ _ E). rewrite (drop_S _ _ _ E). simpl. case_decide.
    + rewrite IH by lia. f_equal. replace (start + 1)%nat with (S start) by lia. lia.
    + f_equal. lia.
  - apply lookup_ge_None in E. rewrite drop_ge by lia. f_equal. simpl. lia.
Qed.

Lemma searchDelimiter_spec fuel content d start : (length content - start < fuel)%nat ->
  searchDelimiter fuel content d start = Some (start + others d (drop start content))%nat.
Proof.
  revert start. induction fuel as [|fuel IH]; intros start Hf; [lia|]. simpl.
  destruct (content !! start) as [c|] eqn:E.
  - pose proof (lookup_lt_Some _ _ _ E). rewrite (drop_S _ _ _ E). simpl. case_decide.
    + f_equal. lia.
    + rewrite IH by lia. f_equal. replace (start + 1)%nat with (S start) by lia. lia.
  - apply lookup_ge_None in E. rewrite drop_ge by lia. f_equal. simpl. lia.
Qed.

Lemma splitAux_others d s acc :
  splitAux d s acc =
  (match acc ++ take (others d s) s with [] => [] | w => [w] end) ++ components d (drop (others d s) s).
Proof.
  revert acc. induction s as [|c s IH]; intros acc; simpl.
  - rewrite app_nil_r. destruct acc; [done|]. by rewrite app_nil_r.
  - case_decide as E; simpl.
    + rewrite app_nil_r. unfold components. simpl. rewrite decide_True by done. by destruct acc.
    + rewrite IH. by rewrite <- app_assoc.
Qed.

Lemma components_skip d s : components d (drop (delimiters d s) s) = components d s.
Proof.
  induction s as [|c s IH]; simpl; [done|]. case_decide as E; simpl; [|done].
  rewrite IH. unfold components at 2. simpl. by rewrite decide_True.
Qed.

(** One turn of the loop: skip delimiters, take the next component. *)
Lemma components_turn d s :
  let s1 := drop (delimiters d s) s in
  components d s =
  (if (0 <? others d s1)%nat then [take (others d s1) s1] else []) ++ components d (drop (others d s1) s1).
Proof.
  intros s1. rewrite <- components_skip. fold s1. unfold components at 1. rewrite splitAux_others. simpl.
  f_equal. pose proof (others_le d s1). destruct (Nat.ltb_spec 0 (others d s1)).
  - destruct s1 as [|c s1]; simpl in *; [lia|]. case_decide; simpl; [lia|done].
  - by replace (others d s1) with 0%nat by lia.
Qed.

Lemma turn_progress d s : s <> [] ->
  let s1 := drop (delimiters d s) s in (0 < delimiters d s + others d s1)%nat.
Proof. destruct s as [|c s]; [done|]. intros _. simpl. case_decide; simpl; [lia|]. rewrite decide_False by done. lia. Qed.

Section branches.
Context (translate : cstring -> cstring).

Definition addStep (st : tree * nat * option nat) (c : cstring) : tree * nat * option nat :=
  let '(t, p, _) := st in let '(t', n') := addComponent translate t p c in (t', n', Some n').

(** The loop of [addBranch()] adds the components one by one. *)
Lemma addLoop_spec fuel t content d start p n : (length content - start < fuel)%nat ->
  addLoop translate fuel t content d start p n =
  let '(t', _, n') := fold_left addStep (components d (drop start content)) (t, p, n) in Some (t', n').
Proof.
  revert t start p n. induction fuel as [|fuel IH]; intros t start p n Hf; [lia|]. cbn [addLoop].
  destruct (Nat.ltb_spec start (length content)) as [Hlt|Hge].
  2: { by rewrite drop_ge by lia. }
  rewrite skipDelimiters_spec, searchDelimiter_spec by lia.
  set (s := drop start content). set (k := delimiters d s).
  assert (Hs1 : drop (start + k) content = drop k s) by (unfold s; by rewrite drop_drop).
  rewrite Hs1. rewrite (components_turn d s). fold k. set (s1 := drop k s). set (j := others d s1).
  assert (Hs2 : drop (start + k + j) content = drop j s1) by (unfold s1; rewrite <- Hs1, drop_drop; f_equal; lia).
  assert (Hne : s <> []) by (intros E; apply (f_equal length) in E; unfold s in E; rewrite length_drop in E; simpl in E; lia).
  assert (0 < k + j)%nat as Hprog by exact (turn_progress d s Hne).
  destruct (Nat.ltb_spec 0 j) as [Hj|Hj].
  - rewrite (proj2 (Nat.ltb_lt (start + k) (start + k + j))) by lia.
    replace (start + k + j - (start + k))%nat with j by lia. cbn [app fold_left addStep].
    destruct (addComponent translate t p (take j s1)) as [t' n'] eqn:E. rewrite IH by lia. by rewrite Hs2.
  - rewrite (proj2 (Nat.ltb_ge (start + k) (start + k + j))) by lia. cbn [app].
    rewrite IH by lia. by rewrite Hs2.
Qed.

Lemma addBranch_components t content d p : d <> "000"%char ->
  addBranch translate t content d p =
  let '(t', _, n') := fold_left addStep (components d content)
    (t, match p with Some p => p | None => root end, None) in Some (t', n').
Proof.
  intros Hd. unfold addBranch. rewrite decide_False by done. rewrite addLoop_spec by lia. by rewrite drop_0.
Qed.

(** A text whose translation is the translation of the original. *)
Definition faithful (t : tree) : Prop :=
  forall a, a <> root -> (a < length t)%nat -> trans (valueAt t a) = translate (orig (valueAt t a)).

Definition good (t : tree) : Prop := wf t /\ faithful t.

(** The nodes of [t] are in [t'], with the same values and parents. *)
Definition extends (t t' : tree) : Prop :=
  (length t <= length t')%nat /\
  forall b, (b < length t)%nat -> valueAt t' b = valueAt t b /\ parentOf t' b = parentOf t b.

Lemma extends_refl t : extends t t.
Proof. by split. Qed.

Lemma extends_trans t1 t2 t3 : extends t1 t2 -> extends t2 t3 -> extends t1 t3.
Proof.
  intros [L1 H1] [L2 H2]. split; [lia|]. intros b Hb. destruct (H1 b Hb) as [<- <-]. apply H2. lia.
Qed.

Lemma newItem_good t c p : good t -> (p < length t)%nat ->
  let '(t', n) := newItem t (TransText c (translate c)) p in
  good t' /\ extends t t' /\ n <> root /\ (n < length t')%nat /\ parentOf t' n = Some p /\
  valueAt t' n = TransText c (translate c) /\
  (forall b, b <> p -> (b < length t)%nat -> childrenOf t' b = childrenOf t b) /\
  childrenOf t' p = insertChildSorted t' n (childrenOf t p).
Proof.
  intros [Hwf Hf] Hp. destruct (lookup_lt_is_Some_2 t p Hp) as [m Hm].
  pose proof (newItem_wf t (TransText c (translate c)) p Hwf Hp) as Hwf'.
  pose proof (newItem_spec t (TransText c (translate c)) p m Hm) as Hspec.
  destruct (newItem t (TransText c (translate c)) p) as [t' n]. simpl in Hwf'.
  destruct Hspec as (-> & Hlen & Hn & Hp' & Hold & Hval).
  assert (Hv : valueAt t' (length t) = TransText c (translate c)) by (unfold valueAt; by rewrite Hn).
  split_and!; [split; [done|]|split; [lia|done]| | | |done| |].
  - intros a Ha Hlt. destruct (decide (a = length t)) as [->|Hne]; [by rewrite Hv|].
    destruct (Hval a) as [-> _]; [lia|]. apply Hf; [done|lia].
  - unfold root. lia.
  - lia.
  - unfold parentOf. by rewrite Hn.
  - intros b Hb Hlt. unfold childrenOf. by rewrite Hold.
  - unfold childrenOf. by rewrite Hp', Hm.
Qed.

Lemma findDirectLoop_spec t v cs :
  match findDirectLoop t v cs with
  | Some c => c ∈ cs /\ trans (valueAt t c) = trans v
  | None => forall c, c ∈ cs -> trans (valueAt t c) <> trans v
  end.
Proof.
  induction cs as [|c cs IH]; simpl; [intros c Hc; by apply elem_of_nil in Hc|].
  unfold text_eq. case_bool_decide as E; [by split; [left|]|].
  destruct (findDirectLoop t v cs) as [x|]; [destruct IH; split; [by right|done]|].
  intros x [->|Hx]%elem_of_cons; auto.
Qed.

(** The only child with a translation is the one that is found. *)
Lemma findDirectLoop_unique t v cs c : c ∈ cs -> trans (valueAt t c) = trans v ->
  (forall x, x ∈ cs -> trans (valueAt t x) = trans v -> x = c) -> findDirectLoop t v cs = Some c.
Proof.
  intros Hc Ht Hu. pose proof (findDirectLoop_spec t v cs) as H. destruct (findDirectLoop t v cs) as [x|].
  - destruct H as [Hx E]. f_equal. by apply Hu.
  - by destruct (H c Hc).
Qed.

Lemma findDirectLoop_ext t t' v cs : (forall c, c ∈ cs -> valueAt t' c = valueAt t c) ->
  findDirectLoop t' v cs = findDirectLoop t v cs.
Proof.
  induction cs as [|c cs IH]; intros H; simpl; [done|]. rewrite H by left. destruct (text_eq _ _); [done|].
  apply IH. intros; apply H. by right.
Qed.

Lemma childrenOf_lt t p c : wf t -> c ∈ childrenOf t p -> (c < length t)%nat /\ parentOf t c = Some p.
Proof.
  intros Hwf Hc. unfold childrenOf in Hc. destruct (t !! p) as [m|] eqn:E; [|by apply elem_of_nil in Hc].
  by apply (wf_child t Hwf p m).
Qed.

(** What one component does: its node is found, or new; in either case it is
    the one that is found from then on. *)
Lemma addComponent_spec t p c : good t -> (p < length t)%nat ->
  let '(t', n) := addComponent translate t p c in
  good t' /\ extends t t' /\ n <> root /\ (n < length t')%nat /\ parentOf t' n = Some p /\
  trans (valueAt t' n) = translate c /\
  findDirectChild t' p (TransText c (translate c)) = Some n /\
  (forall b, b <> p -> (b < length t)%nat -> childrenOf t' b = childrenOf t b).
Proof.
  intros Hg Hp. unfold addComponent. set (v := TransText c (translate c)).
  pose proof (findDirectLoop_spec t v (childrenOf t p)) as Hfind.
  destruct (findDirectChild t p v) as [n|] eqn:Ef; unfold findDirectChild in Ef; rewrite Ef in Hfind.
  - destruct Hfind as [Hin Ht]. destruct (childrenOf_lt t p n (proj1 Hg) Hin) as [Hlt Hpar].
    split_and!; try done. intros ->. destruct (wf_root t (proj1 Hg)) as (r & Hr & Hpr).
    unfold parentOf in Hpar. rewrite Hr in Hpar. congruence.
  - pose proof (newItem_good t c p Hg Hp) as Hnew. fold v in Hnew. destruct (newItem t v p) as [t' n].
    destruct Hnew as (Hg' & Hext & Hnr & Hlt & Hpar & Hval & Hch & Hcp). split_and!; try done; [by rewrite Hval|].
    unfold findDirectChild. rewrite Hcp. apply findDirectLoop_unique.
    + rewrite insertChildSorted_perm. left.
    + by rewrite Hval.
    + intros x Hx Ex. rewrite insertChildSorted_perm in Hx. apply elem_of_cons in Hx as [->|Hx]; [done|].
      destruct (childrenOf_lt t p x (proj1 Hg) Hx) as [Hxl _]. destruct Hext as [_ Hext].
      rewrite (proj1 (Hext x Hxl)) in Ex. by destruct (Hfind x Hx).
Qed.

(** ** Paths *)

(** The texts on the way from the root to a node. *)
Inductive pathTo (t : tree) : nat -> list YTransText -> Prop :=
| path_root : pathTo t root []
| path_step a p l : a <> root -> (a < length t)%nat -> parentOf t a = Some p -> pathTo t p l ->
    pathTo t a (l ++ [valueAt t a]).

Lemma pathTo_extends t t' a l : wf t -> extends t t' -> pathTo t a l -> pathTo t' a l.
Proof.
  intros Hwf [Hlen Hext] H. induction H as [|a p l Ha Hlt Hp _ IH]; [constructor|].
  destruct (Hext a Hlt) as [Hv Hpar]. rewrite <- Hv. apply (path_step t' a p); [done|lia|congruence|done].
Qed.

Lemma pathTo_short t a l : wf t -> pathTo t a l -> (length l <= a)%nat.
Proof.
  intros Hwf H. induction H as [|a p l Ha Hlt Hp _ IH]; [simpl; lia|]. rewrite length_app. simpl.
  destruct (lookup_lt_is_Some_2 t a Hlt) as [n Hn].
  destruct (wf_parent t Hwf a n Hn Ha) as (q & m & Hq & Hlt' & _). unfold parentOf in Hp. rewrite Hn in Hp.
  assert (q = p) by congruence. lia.
Qed.

Lemma pathTo_exists t a : wf t -> (a < length t)%nat -> exists l, pathTo t a l.
Proof.
  intros Hwf. induction (lt_wf a) as [a _ IH]. intros Hlt. destruct (decide (a = root)) as [->|Ha].
  { exists []. constructor. }
  destruct (lookup_lt_is_Some_2 t a Hlt) as [n Hn].
  destruct (wf_parent t Hwf a n Hn Ha) as (p & m & Hp & Hpa & _). destruct (IH p Hpa ltac:(lia)) as [l Hl].
  exists (l ++ [valueAt t a]). apply (path_step t a p); [done|done|unfold parentOf; by rewrite Hn|done].
Qed.

(** Climbing puts the texts of the way in front. *)
Lemma climb_spec t sel d fuel a p l s : pathTo t p l -> parentOf t a = Some p -> (length l < fuel)%nat ->
  climb fuel t sel d a s = Some (flat_map (fun v => sel v ++ [d]) l ++ s).
Proof.
  intros H. revert fuel a s. induction H as [|q p l Hq Hlt Hp _ IH]; intros fuel a s Ha Hf;
    (destruct fuel as [|fuel]; [simpl in Hf; lia|]); cbn [climb]; rewrite Ha.
  - by rewrite decide_True.
  - rewrite decide_False by done. rewrite length_app in Hf. simpl in Hf.
    rewrite (IH fuel q _ Hp) by lia. rewrite flat_map_app. simpl. by rewrite app_nil_r, <- !app_assoc.
Qed.

Lemma delimiter_shift (d : ascii) (l : list cstring) s :
  d :: flat_map (fun x => x ++ [d]) l ++ s = flat_map (fun x => d :: x) (l ++ [s]).
Proof.
  induction l as [|x l IH]; simpl; [by rewrite app_nil_r|]. rewrite <- IH. simpl. by rewrite <- !app_assoc.
Qed.

Lemma flat_map_fmap {A B C} (f : B -> list C) (g : A -> B) l : flat_map f (map g l) = flat_map (fun x => f (g x)) l.
Proof. induction l as [|x l IH]; simpl; [done|]. by rewrite IH. Qed.

Lemma completePath_spec t a l translated d : wf t -> a <> root -> pathTo t a l ->
  completePath t (Some a) translated d true =
  Some (flat_map (fun x => d :: x) (map (if translated then trans else orig) l)).
Proof.
  intros Hwf Ha H. inversion H as [|a' p l' Ha' Hlt Hp Hl]; subst; [done|].
  unfold completePath. set (sel := if translated then trans else orig).
  pose proof (pathTo_short t p l' Hwf Hl). destruct (lookup_lt_is_Some_2 t a Hlt) as [n Hn].
  destruct (wf_parent t Hwf a n Hn Ha) as (q & m & Hq & Hqa & _).
  assert (q = p) as -> by (unfold parentOf in Hp; rewrite Hn in Hp; congruence).
  rewrite (climb_spec t sel d _ a p l') by (done || lia). f_equal.
  rewrite <- (flat_map_fmap (fun x => x ++ [d]) sel), delimiter_shift, map_app. done.
Qed.

(** ** Whole branches *)

Lemma parent_less t a p : wf t -> a <> root -> (a < length t)%nat -> parentOf t a = Some p -> (p < a)%nat.
Proof.
  intros Hwf Ha Hlt Hp. destruct (lookup_lt_is_Some_2 t a Hlt) as [n Hn].
  destruct (wf_parent t Hwf a n Hn Ha) as (q & m & Hq & Hqa & _). unfold parentOf in Hp. rewrite Hn in Hp.
  assert (q = p) by congruence. lia.
Qed.

(** Adding components below [p]: the last node has the path of [p] and the
    components behind it; nodes that are older than [p] keep their children;
    adding them again finds the same nodes. *)
Lemma addAll_spec cs t p n lp : good t -> (p < length t)%nat -> pathTo t p lp ->
  let '(t', p', n') := fold_left addStep cs (t, p, n) in
  good t' /\ extends t t' /\ (p' < length t')%nat /\ (cs <> [] -> p' <> root) /\
  n' = match cs with [] => n | _ => Some p' end /\
  (exists vs, pathTo t' p' (lp ++ vs) /\ map trans vs = map translate cs) /\
  (forall b, (b < p)%nat -> childrenOf t' b = childrenOf t b) /\
  forall n0, fold_left addStep cs (t', p, n0) = (t', p', match cs with [] => n0 | _ => Some p' end).
Proof.
  revert t p n lp. induction cs as [|c cs IH]; intros t p n lp Hg Hp Hpath; simpl.
  { split_and!; try done. exists []. by rewrite app_nil_r. }
  pose proof (addComponent_spec t p c Hg Hp) as Hc. destruct (addComponent translate t p c) as [t1 n1] eqn:Ec.
  destruct Hc as (Hg1 & Hext1 & Hr1 & Hlt1 & Hpar1 & Htr1 & Hfind1 & Hch1).
  pose proof (parent_less t1 n1 p (proj1 Hg1) Hr1 Hlt1 Hpar1) as Hpn.
  assert (Hpath1 : pathTo t1 n1 (lp ++ [valueAt t1 n1])).
  { apply (path_step t1 n1 p); [done|done|done|]. eapply pathTo_extends; [apply Hg|done|done]. }
  specialize (IH t1 n1 (Some n1) _ Hg1 Hlt1 Hpath1). destruct (fold_left addStep cs (t1, n1, Some n1)) as [[t' p'] n'].
  destruct IH as (Hg' & Hext & Hlt' & Hr' & Hn' & (vs & Hvs & Htr) & Hch & Hagain).
  assert (Hn1' : valueAt t' n1 = valueAt t1 n1) by (apply Hext; done).
  split_and!; try done.
  - by eapply extends_trans.
  - intros _. destruct cs as [|c' cs]; [|by apply Hr']. specialize (Hagain None). simpl in Hagain.
    by injection Hagain as ->.
  - destruct cs as [|c' cs]; [|done]. specialize (Hagain None). simpl in Hagain. by injection Hagain as ->.
  - exists (valueAt t1 n1 :: vs). rewrite cons_middle, app_assoc. split; [done|]. simpl. by rewrite Htr1, Htr.
  - intros b Hb. rewrite Hch by lia. apply Hch1; [lia|lia].
  - intros n0. assert (addComponent translate t' p c = (t', n1)) as ->.
    { unfold addComponent, findDirectChild. cbv zeta. rewrite Hch by done. unfold findDirectChild in Hfind1.
      rewrite (findDirectLoop_ext t1 t'); [by rewrite Hfind1|].
      intros x Hx. apply Hext. apply (childrenOf_lt t1 p x (proj1 Hg1) Hx). }
    rewrite Hagain. destruct cs as [|c' cs]; [|done]. specialize (Hagain None). simpl in Hagain. by injection Hagain as ->.
Qed.

(** With an injective translation the originals come back as well. *)
Lemma faithful_path t a l : wf t -> faithful t -> pathTo t a l -> map trans l = map translate (map orig l).
Proof.
  intros Hwf Hf H. induction H as [|a p l Ha Hlt Hp _ IH]; [done|]. rewrite !map_app, IH. simpl. by rewrite Hf.
Qed.

(** Whatever is added to a tree, below the root or a node. *)
Inductive step (t : tree) : tree -> Prop :=
| step_addBranch content d p t' n :
    match p with Some a => (a < length t)%nat | None => True end ->
    addBranch translate t content d p = Some (t', n) -> step t t'.

Lemma newTree_good : good (newTree translate).
Proof.
  split; [|intros a Ha Hlt; simpl in Hlt; unfold root in Ha; lia]. constructor.
  - by eexists.
  - intros a n Hn Ha. apply lookup_lt_Some in Hn. simpl in Hn. unfold root in Ha. lia.
  - intros [|p] m c Hm Hc; [|done]. injection Hm as <-. by apply elem_of_nil in Hc.
  - intros [|p] m Hm; [|done]. injection Hm as <-. split; constructor.
Qed.

Lemma string_step_good t t' : good t -> step t t' -> good t'.
Proof.
  intros Hg [content d p t1 n Hp H].
  assert (Hlt : (match p with Some p => p | None => root end < length t)%nat).
  { destruct p as [a|]; [done|]. destruct (wf_root t (proj1 Hg)) as (r & Hr & _). by eapply lookup_lt_Some. }
  destruct (decide (d = "000"%char)) as [->|Hd].
  - unfold addBranch in H. rewrite decide_True in H by done.
    pose proof (newItem_good t content _ Hg Hlt) as Hn. destruct (newItem t _ _) as [t2 n2]. injection H as <- _. apply Hn.
  - rewrite addBranch_components in H by done. destruct (pathTo_exists t _ (proj1 Hg) Hlt) as [lp Hpath].
    pose proof (addAll_spec (components d content) t _ None lp Hg Hlt Hpath) as Ha.
    destruct (fold_left addStep _ _) as [[t2 p2] n2]. injection H as <- _. apply Ha.
Qed.

Lemma string_tree_good t : rtc step (newTree translate) t -> good t.
Proof.
  assert (forall t0, rtc step t0 t -> good t0 -> good t) as H.
  { induction 1 as [|t0 t1 t2 Hs _ IH]; [done|]. intros Hg. by apply IH, (string_step_good t0). }
  intros Hr. by apply (H (newTree translate)), newTree_good.
Qed.

(** ** Main theorems *)

(** In every tree that can be built, the children of a node are sorted by
    their translations, no child occurs twice, each child has the node as its
    parent, and every node but the root is a child of its parent. *)
Theorem tree_sorted (t : tree) (a : nat) : rtc step (newTree translate) t -> (a < length t)%nat ->
  StronglySorted (fun x y => str_lt (trans (valueAt t y)) (trans (valueAt t x)) = false) (childrenOf t a) /\
  NoDup (childrenOf t a) /\
  (forall c, c ∈ childrenOf t a -> (c < length t)%nat /\ parentOf t c = Some a) /\
  (a <> root -> exists p, parentOf t a = Some p /\ a ∈ childrenOf t p).
Proof.
  intros [Hwf _]%string_tree_good Hlt. destruct (lookup_lt_is_Some_2 t a Hlt) as [n Hn].
  pose proof (wf_sorted t Hwf a n Hn) as [Hs Hnd]. unfold childrenOf at 1 2. rewrite Hn. split_and!; try done.
  - intros c Hc. by apply childrenOf_lt.
  - intros Ha. destruct (wf_parent t Hwf a n Hn Ha) as (p & m & Hp & _ & Hm & Hin). exists p.
    unfold parentOf, childrenOf. by rewrite Hn, Hm.
Qed.

(** [addBranch()] with a delimiter returns in every tree that can be built;
    without a component it changes nothing; otherwise the node it returns has
    the translated components as its translated path, and, if no two texts
    have the same translation, the components themselves as its path; adding
    the branch again changes nothing and returns the same node. *)
Theorem branch_path (t : tree) (content : cstring) (d : ascii) :
  rtc step (newTree translate) t -> d <> "000"%char ->
  exists t' n, addBranch translate t content d None = Some (t', n) /\
    match n with
    | None => components d content = [] /\ t' = t
    | Some a =>
        translatedPath t' (Some a) d true =
          Some (flat_map (fun x => d :: x) (map translate (components d content))) /\
        (Inj (=) (=) translate ->
           origPath t' (Some a) d true = Some (flat_map (fun x => d :: x) (components d content))) /\
        addBranch translate t' content d None = Some (t', Some a)
    end.
Proof.
  intros Hg%string_tree_good Hd. rewrite addBranch_components by done.
  destruct (wf_root t (proj1 Hg)) as (r & Hr & _). pose proof (lookup_lt_Some _ _ _ Hr) as Hlt.
  pose proof (addAll_spec (components d content) t root None [] Hg Hlt (path_root t)) as Ha.
  destruct (fold_left addStep (components d content) (t, root, None)) as [[t' a] n] eqn:Ef.
  destruct Ha as ([Hwf' Hf'] & _ & _ & Hroot & Hn & (vs & Hvs & Htr) & _ & Hagain). exists t', n. split; [done|].
  destruct (components d content) as [|c cs] eqn:Ecs; subst n; [simpl in Ef; by injection Ef as -> _|].
  rewrite <- Ecs in *. simpl in Hvs. assert (a <> root) as Hra by (apply Hroot; rewrite Ecs; done). split_and!.
  - unfold translatedPath. rewrite (completePath_spec t' a vs true d) by done. by rewrite Htr.
  - intros Hinj. unfold origPath. rewrite (completePath_spec t' a vs false d) by done. do 2 f_equal.
    apply (inj (map translate)). rewrite <- (faithful_path t' a vs) by done. done.
  - rewrite addBranch_components by done. by rewrite Hagain.
Qed.

Lemma climbBoth_spec fuel t d a v :
  climbBoth fuel t d a v =
  match climb fuel t orig d a (orig v), climb fuel t trans d a (trans v) with
  | Some o, Some s => Some (TransText o s)
  | _, _ => None
  end.
Proof.
  revert a v. induction fuel as [|fuel IH]; intros a v; simpl; [done|]. destruct (parentOf t a) as [p|]; [|by destruct v].
  case_decide; [by destruct v|]. by rewrite IH.
Qed.

(** [path()] returns what [origPath()] and [translatedPath()] return. *)
Theorem path_agrees (t : tree) (a : nat) (d : ascii) (start : bool) :
  path t (Some a) d start =
  match origPath t (Some a) d start, translatedPath t (Some a) d start with
  | Some o, Some s => Some (TransText o s)
  | _, _ => None
  end.
Proof.
  unfold path, origPath, translatedPath, completePath. rewrite climbBoth_spec.
  destruct (climb (S (length t)) t orig d a (orig (valueAt t a)));
    destruct (climb (S (length t)) t trans d a (trans (valueAt t a))); try done. by destruct start.
Qed.

End branches.

(** A path that is written with one delimiter in front of each component is the
    one that comes back. *)
Lemma splitAux_word d w s acc : d ∉ w -> splitAux d (w ++ s) acc = splitAux d s (acc ++ w).
Proof.
  revert acc. induction w as [|c w IH]; intros acc Hw; simpl; [by rewrite app_nil_r|].
  apply not_elem_of_cons in Hw as [Hc Hw]. rewrite decide_False by done. rewrite IH by done. by rewrite <- app_assoc.
Qed.

Theorem components_join d cs : Forall (fun c => c <> [] /\ d ∉ c) cs ->
  components d (flat_map (fun x => d :: x) cs) = cs.
Proof.
  unfold components. intros H. assert (forall acc,
    splitAux d (flat_map (fun x => d :: x) cs) acc = match acc with [] => [] | _ => [acc] end ++ cs) as Hall.
  { induction H as [|c cs [Hne Hd] _ IH]; intros acc; simpl; [by rewrite app_nil_r|].
    rewrite decide_True by done. rewrite splitAux_word by done. f_equal. rewrite IH. simpl. by destruct c. }
  apply Hall.
Qed.

(** ** Examples *)

(** Texts with the same translation share one node, so that the original path
    of the second is that of the first. *)
Theorem same_translation_merged :
  let translate (_ : cstring) := str "x" in
  match addBranch translate (newTree translate) (str "/one") "/"%char None with
  | Some (t, _) =>
      match addBranch translate t (str "/two") "/"%char None with
      | Some (t', n) => origPath t' n "/"%char true = Some (str "/one")
      | None => False
      end
  | None => False
  end.
Proof. vm_compute. reflexivity. Qed.

Definition sampleTree : tree :=
  match addBranch id (newTree id) (str "/Apps/Editors") "/"%char None with
  | Some (t, _) => match addBranch id t (str "/Apps/Databases") "/"%char None with Some (t', _) => t' | None => t end
  | None => newTree id
  end.

Lemma sample_branches : rtc (step id) (newTree id) sampleTree.
Proof.
  eapply rtc_l; [eapply (step_addBranch id _ (str "/Apps/Editors") "/"%char None); [done|vm_compute; reflexivity]|].
  apply rtc_once. eapply (step_addBranch id _ (str "/Apps/Databases") "/"%char None); [done|]. vm_compute. reflexivity.
Qed.

Lemma tree_sorted_witness :
  StronglySorted (fun x y => str_lt (trans (valueAt sampleTree y)) (trans (valueAt sampleTree x)) = false)
    (childrenOf sampleTree 1) /\
  NoDup (childrenOf sampleTree 1) /\
  (forall c, c ∈ childrenOf sampleTree 1 -> (c < length sampleTree)%nat /\ parentOf sampleTree c = Some 1%nat) /\
  (1%nat <> root -> exists p, parentOf sampleTree 1 = Some p /\ 1%nat ∈ childrenOf sampleTree p).
Proof. apply (tree_sorted id sampleTree 1 sample_branches). vm_compute. lia. Defined.

Lemma branch_path_witness :
  exists t' n, addBranch id sampleTree (str "/Apps/Editors/Vi") "/"%char None = Some (t', n) /\
    match n with
    | None => components "/"%char (str "/Apps/Editors/Vi") = [] /\ t' = sampleTree
    | Some a =>
        translatedPath t' (Some a) "/"%char true =
          Some (flat_map (fun x => "/"%char :: x) (map id (components "/"%char (str "/Apps/Editors/Vi")))) /\
        (Inj (=) (=) (@id cstring) -> origPath t' (Some a) "/"%char true =
          Some (flat_map (fun x => "/"%char :: x) (components "/"%char (str "/Apps/Editors/Vi")))) /\
        addBranch id t' (str "/Apps/Editors/Vi") "/"%char None = Some (t', Some a)
    end.
Proof. apply (branch_path id sampleTree _ _ sample_branches). discriminate. Defined.

End YStringTree.
