(* ===== verification/FSize.v ===== *)
(** * File sizes

    src/libyui/src/FSize.h and FSize.cc: sizes of arbitrary precision
    (boost::multiprecision::cpp_int is [Z], its division truncates), their
    conversion to units and to strings, and filling up to whole blocks. The
    output of a size with decimals goes through boost's floating point numbers;
    that function is a parameter. *)

From S2P Require Import Prelude CNum.
From stdpp Require Import pretty.

#[local] Open Scope Z_scope.

Module FSize.

Inductive Unit := B | K | M | G | T | P | E | Z | Y.

#[global] Instance Unit_eq_dec : EqDecision Unit.
Proof. solve_decision. Defined.

Definition KB : BinNums.Z := 1024.
Definition MB : BinNums.Z := KB * 1024.
Definition GB : BinNums.Z := MB * 1024.
Definition TB : BinNums.Z := GB * 1024.
Definition PB : BinNums.Z := TB * 1024.
Definition EB : BinNums.Z := PB * 1024.
Definition ZB : BinNums.Z := EB * 1024.
Definition YB : BinNums.Z := ZB * 1024.

Definition factor (unit_r : Unit) : BinNums.Z :=
  match unit_r with
  | Y => YB | Z => ZB | E => EB | P => PB | T => TB | G => GB | M => MB | K => KB | B => 1
  end.

Definition unit (unit_r : Unit) : string :=
  match unit_r with
  | Y => "YiB" | Z => "ZiB" | E => "EiB" | P => "PiB" | T => "TiB" | G => "GiB" | M => "MiB"
  | K => "KiB" | B => "B"
  end.

(** ** Sizes *)

Record FSize := Size { _size : BinNums.Z }.

Definition newSize (size_r : BinNums.Z) (unit_r : Unit) : FSize := Size (size_r * factor unit_r).

Definition in_unit (s : FSize) (unit_r : Unit) : BinNums.Z := _size s ÷ factor unit_r.

Definition neg (s : FSize) : FSize := Size (- _size s).
Definition plus (s rhs : FSize) : FSize := Size (_size s + _size rhs).
Definition minus (s rhs : FSize) : FSize := Size (_size s - _size rhs).
Definition mult (s rhs : FSize) : FSize := Size (_size s * _size rhs).
Definition div (s rhs : FSize) : FSize := Size (_size s ÷ _size rhs).
Definition lt (s rhs : FSize) : bool := _size s <? _size rhs.
Definition eq (s rhs : FSize) : bool := _size s =? _size rhs.
Definition incr (s : FSize) : FSize := Size (_size s + 1).
Definition decr (s : FSize) : FSize := Size (_size s - 1).

Definition fillBlock (s blocksize_r : FSize) : FSize :=
  if (_size s >? 0) && (_size blocksize_r >? 0) then
    let diff := Z.rem (_size s) (_size blocksize_r) in
    if negb (diff =? 0) then
      let size := if _size s >? 0 then _size s + _size blocksize_r else _size s in
      Size (size - diff)
    else s
  else s.

Definition fullBlock (s blocksize_r : FSize) : FSize := fillBlock (Size (_size s)) blocksize_r.

Definition bestUnit (s : FSize) : Unit :=
  let usize := Z.abs (_size s) in
  if usize <? KB then B
  else if usize <? MB then K
  else if usize <? GB then M
  else if usize <? TB then G
  else if usize <? PB then T
  else if usize <? EB then P
  else if usize <? ZB then E
  else if usize <? YB then Z
  else Y.

(** ** Output *)

(** [None] is [bestPrec]. *)
Definition precision (unit_r : Unit) (prec : option nat) : nat :=
  match prec with
  | None =>
      match unit_r with
      | Y | Z | E | P | T => 3
      | G => 2
      | M | K => 1
      | B => 0
      end
  | Some prec => if decide (unit_r = B) then 0 else prec
  end%nat.

(** The number [form()] prints if no decimals are asked for. *)
Definition rounded (s : FSize) (unit_r : Unit) : BinNums.Z :=
  (_size s + factor unit_r ÷ 2) ÷ factor unit_r.

(** [std::setw( fw )] with blanks: the number is right-aligned. *)
Fixpoint blanks (n : nat) : string :=
  match n with O => "" | S n' => String.append " " (blanks n') end.
Definition padded (fw : nat) (s : string) : string := String.append (blanks (fw - String.length s)) s.

Section form.
(** The quotient of two integers with a number of decimals. *)
Context (showQuotient : BinNums.Z -> BinNums.Z -> nat -> string).

Definition form (s : FSize) (unit_r : Unit) (fw : nat) (prec : option nat) (showunit : bool) : string :=
  let prec := precision unit_r prec in
  let number :=
    if (prec =? 0)%nat then pretty (rounded s unit_r)
    else showQuotient (_size s) (factor unit_r) prec in
  String.append (padded fw number) (if showunit then String.append " " (unit unit_r) else "").

Definition formBest (s : FSize) (fw : nat) (prec : option nat) (showunit : bool) : string :=
  form s (bestUnit s) fw prec showunit.

Definition asString (s : FSize) : string := formBest s 0 None true.

End form.

(** ** Units *)

(** The exponent of a unit. *)
Definition power (unit_r : Unit) : BinNums.Z :=
  match unit_r with
  | B => 0 | K => 1 | M => 2 | G => 3 | T => 4 | P => 5 | E => 6 | Z => 7 | Y => 8
  end.

Lemma factor_power u : factor u = 1024 ^ power u.
Proof. by destruct u. Qed.

Lemma factor_pos u : 0 < factor u.
Proof. by destruct u. Qed.

Lemma factor_even u : u <> B -> factor u = 2 * (factor u ÷ 2).
Proof. by destruct u. Qed.

(** The unit of a size: it is the largest one that is not larger than the
    size, so that the size is at least 1 and less than 1024 in its unit, unless
    it is less than one KiB or at least 1024 YiB. *)
Theorem best_unit (s : FSize) :
  let u := bestUnit s in
  (u <> B -> factor u <= Z.abs (_size s)) /\
  (u <> Y -> Z.abs (_size s) < 1024 * factor u) /\
  forall v, factor v <= Z.abs (_size s) -> factor v <= factor u.
Proof.
  unfold bestUnit. set (a := Z.abs (_size s)). unfold YB, ZB, EB, PB, TB, GB, MB, KB in *.
  zcases; split_and!; intros; unfold factor, YB, ZB, EB, PB, TB, GB, MB, KB in *; try done; try lia;
    match goal with v : Unit |- _ => destruct v end; lia.
Qed.

(** A size that is given in a unit is a whole number in it. *)
Theorem in_unit_exact n u : in_unit (newSize n u) u = n.
Proof. unfold in_unit, newSize. simpl. pose proof (factor_pos u). rewrite Z.quot_mul; lia. Qed.

(** ** Blocks *)

(** [fillBlock()] fills a positive size up to whole blocks of a positive
    size: the result is the smallest multiple of the block size that is not
    less; other sizes stay as they are, and filling twice changes nothing. *)
Theorem fill_block (s b : FSize) :
  let r := _size (fillBlock s b) in
  (0 < _size s -> 0 < _size b ->
     (_size b | r) /\ _size s <= r < _size s + _size b) /\
  (_size s <= 0 \/ _size b <= 0 -> r = _size s) /\
  fillBlock (fillBlock s b) b = fillBlock s b.
Proof.
  assert (Hfull : forall n k, 0 < n -> 0 < k ->
    exists r, fillBlock (Size n) (Size k) = Size r /\ (k | r) /\ n <= r < n + k).
  { intros n k Hn Hk. unfold fillBlock. simpl. rewrite !Z.gtb_ltb, !(proj2 (Z.ltb_lt _ _)) by lia. simpl.
    rewrite Z.rem_mod_nonneg by lia. pose proof (Z.mod_pos_bound n k Hk) as Hm.
    pose proof (Z.div_mod n k ltac:(lia)) as Hd. destruct (Z.eqb_spec (n mod k) 0) as [E|E]; simpl.
    - exists n. split_and!; [done| |lia|lia]. exists (n / k). lia.
    - exists (n + k - n mod k). split_and!; [done| |lia|lia]. exists (n / k + 1). lia. }
  assert (Hkeep : forall x y, _size x <= 0 \/ _size y <= 0 -> fillBlock x y = x).
  { intros x y H. unfold fillBlock. rewrite !Z.gtb_ltb. zcases; simpl; done || lia. }
  intros r. subst r. split; [|split].
  - intros Hs Hb. destruct s as [n], b as [k]. destruct (Hfull n k Hs Hb) as (r & -> & ? & ?). done.
  - intros H. by rewrite Hkeep.
  - destruct (Z_le_gt_dec (_size s) 0) as [|Hs]; [by rewrite !(Hkeep s b) by lia|].
    destruct (Z_le_gt_dec (_size b) 0) as [|Hb]; [by rewrite !(Hkeep s b) by lia|].
    destruct s as [n], b as [k]. simpl in *. destruct (Hfull n k) as (r & -> & [q Hq] & Hr); [lia|lia|].
    destruct (Hfull r k) as (r' & -> & [q' Hq'] & Hr'); [lia|lia|]. f_equal. assert (q' = q) as -> by nia. lia.
Qed.

(** ** Rounding *)

(** Without decimals [form()] prints a size that is not negative rounded to
    the nearest whole number of units, halves upwards. *)
Theorem form_rounds (showQuotient : BinNums.Z -> BinNums.Z -> nat -> string) (s : FSize) (u : Unit)
    (fw : nat) (showunit : bool) : 0 <= _size s ->
  exists q, form showQuotient s u fw (Some 0%nat) showunit =
      String.append (padded fw (pretty q)) (if showunit then String.append " " (unit u) else "") /\
    factor u * (2 * q - 1) <= 2 * _size s < factor u * (2 * q + 1).
Proof.
  intros Hs. exists (rounded s u). split.
  { unfold form, precision. destruct (decide (u = B)); reflexivity. }
  unfold rounded. pose proof (factor_pos u) as Hf. assert (0 <= factor u ÷ 2) by (apply Z.quot_pos; lia).
  rewrite quot_floor by lia. set (q := (_size s + factor u ÷ 2) / factor u).
  pose proof (Z.mul_div_le (_size s + factor u ÷ 2) (factor u) Hf) as H1.
  pose proof (Z.mul_succ_div_gt (_size s + factor u ÷ 2) (factor u) Hf) as H2. fold q in H1, H2.
  destruct (decide (u = B)) as [Hu|Hu].
  - subst u. change (factor B) with 1 in *. change (1 ÷ 2) with 0 in *. lia.
  - pose proof (factor_even u Hu). lia.
Qed.

(** A negative size is rounded towards zero after half a unit was added, so
    that even a whole number of units is not printed as such. *)
Theorem negative_size_rounded_wrong : rounded (newSize (-2) K) K = -1.
Proof. reflexivity. Qed.

Lemma append_empty r : String.append r "" = r.
Proof. induction r as [|c r IH]; [done|]. change (String c (String.append r "") = String c r). by rewrite IH. Qed.

(** The output in bytes is unambiguous: it is the number itself, so two
    sizes with the same output are equal. *)
Theorem form_bytes (showQuotient : BinNums.Z -> BinNums.Z -> nat -> string) (s t : FSize) :
  form showQuotient s B 0 None false = pretty (_size s) /\
  (form showQuotient s B 0 None false = form showQuotient t B 0 None false -> s = t).
Proof.
  assert (forall x, form showQuotient x B 0 None false = pretty (_size x)) as H.
  { intros x. unfold form. simpl. unfold rounded. change (factor B) with 1. change (1 ÷ 2) with 0.
    rewrite Z.add_0_r, Z.quot_1_r. apply append_empty. }
  split; [done|]. rewrite !H. intros E%(inj pretty). destruct s, t. simpl in E. by subst.
Qed.

Lemma form_rounds_witness :
  exists q, form (fun _ _ _ => "") (Size 1536) K 0 (Some 0%nat) true =
      String.append (padded 0 (pretty q)) " KiB" /\
    factor K * (2 * q - 1) <= 2 * 1536 < factor K * (2 * q + 1).
Proof. exact (form_rounds (fun _ _ _ => "") (Size 1536) K 0 true ltac:(discriminate)). Defined.

End FSize.
