(* ===== verification/EventHandler.v ===== *)
(** * The simple event handler of UI plug-ins

    src/libyui/src/YSimpleEventHandler.cc: a plug-in hands the events of the
    user to a handler that keeps only the latest one until the dialog asks for
    it, and throws events away while they are blocked. Events are heap objects
    the handler owns until it hands them out. *)

From S2P Require Import Prelude WidgetTree Dialog.
Import YEvent.

Module YSimpleEventHandler.

(** The events that exist, the number of the next one, and the members. *)
Record handler := Handler {
  events : gmap nat YEvent;
  nextSerial : nat;
  _pendingEvent : option nat;
  _eventsBlocked : bool }.

Definition newHandler : handler := Handler ∅ 0 None false.

Definition setPending (h : handler) (e : option nat) : handler :=
  Handler (events h) (nextSerial h) e (_eventsBlocked h).

(** [delete event]. *)
Definition freeEvent (h : handler) (e : nat) : handler :=
  Handler (delete e (events h)) (nextSerial h) (_pendingEvent h) (_eventsBlocked h).

(** [new YEvent]. *)
Definition newEvent (h : handler) (ev : YEvent) : handler * nat :=
  (Handler (<[nextSerial h := ev]> (events h)) (S (nextSerial h)) (_pendingEvent h) (_eventsBlocked h),
   nextSerial h).

Definition deleteEvent (h : handler) (event : option nat) : outcome handler :=
  let h := if bool_decide (event = _pendingEvent h) then setPending h None else h in
  match event with
  | None => Done h
  | Some e =>
      match events h !! e with
      | None => Undefined
      | Some ev => if isValid ev then Done (freeEvent h e) else Done h
      end
  end.

Definition clear (h : handler) : outcome handler :=
  match _pendingEvent h with
  | Some e => deleteEvent h (Some e)
  | None => Done h
  end.

Definition consumePendingEvent (h : handler) : handler * option nat :=
  (setPending h None, _pendingEvent h).

Definition eventsBlocked (h : handler) : bool := _eventsBlocked h.

Definition sendEvent (h : handler) (event : option nat) : outcome handler :=
  match event with
  | None => Done h
  | Some e =>
      if eventsBlocked h then deleteEvent h (Some e)
      else
        let! h :=
          match _pendingEvent h with
          | Some p => deleteEvent h (Some p)
          | None => Done h
          end in
        Done (setPending h (Some e))
  end.

Definition eventPendingFor (h : handler) (widget : nat) : outcome bool :=
  match _pendingEvent h with
  | None => Done false
  | Some e =>
      match events h !! e with
      | None => Undefined
      | Some ev =>
          if negb (isWidgetEvent ev) then Done false
          else Done (bool_decide (_widget ev = Some widget))
      end
  end.

Definition deletePendingEventsFor (h : handler) (widget : nat) : outcome handler :=
  match _pendingEvent h with
  | None => Done h
  | Some e =>
      match events h !! e with
      | None => Undefined
      | Some ev =>
          if isWidgetEvent ev && bool_decide (_widget ev = Some widget) && isValid ev
          then deleteEvent h (Some e) else Done h
      end
  end.

Definition blockEvents (h : handler) (block : bool) : handler :=
  Handler (events h) (nextSerial h) (_pendingEvent h) block.
Definition unblockEvents (h : handler) : handler := blockEvents h false.

(** ** The contract: the latest event *)

(** What a client does with the handler. *)
Inductive request :=
| Send (ev : YEvent)
| Consume
| Clear
| DeleteFor (widget : nat)
| Block (block : bool).

(** The handler as its header describes it: at most one event, and a flag. A
    request may hand out an event. *)
Record spec := Spec { latest : option YEvent; blocked : bool }.

Definition specStep (s : spec) (r : request) : spec * option YEvent :=
  match r with
  | Send ev => (if blocked s then s else Spec (Some ev) (blocked s), None)
  | Consume => (Spec None (blocked s), latest s)
  | Clear => (Spec None (blocked s), None)
  | DeleteFor widget =>
      (match latest s with
       | Some ev => if isWidgetEvent ev && bool_decide (_widget ev = Some widget)
                    then Spec None (blocked s) else s
       | None => s
       end, None)
  | Block b => (Spec (latest s) b, None)
  end.

(** The same requests on the real handler; a sent event is created first, the
    event that is handed out is looked up, and the client owns it from then
    on. *)
Definition handle (h : handler) (r : request) : outcome (handler * option nat) :=
  match r with
  | Send ev =>
      let '(h, e) := newEvent h ev in
      let! h := sendEvent h (Some e) in Done (h, None)
  | Consume => Done (consumePendingEvent h)
  | Clear => let! h := clear h in Done (h, None)
  | DeleteFor widget => let! h := deletePendingEventsFor h widget in Done (h, None)
  | Block b => Done (blockEvents h b, None)
  end.

(** The events that exist are the pending one and those that were handed
    out. *)
Record owns (h : handler) (s : spec) (out : list nat) : Prop := {
  own_blocked : _eventsBlocked h = blocked s;
  own_latest : match _pendingEvent h with
    | Some e => (exists ev, events h !! e = Some ev /\ latest s = Some ev /\ isValid ev = true) /\ e ∉ out
    | None => latest s = None
    end;
  own_live : forall e, is_Some (events h !! e) <-> e ∈ out \/ _pendingEvent h = Some e;
  own_fresh : forall e, is_Some (events h !! e) -> (e < nextSerial h)%nat }.

Lemma newHandler_owns : owns newHandler (Spec None false) [].
Proof.
  constructor; simpl; try done; intros e; rewrite lookup_empty.
  - split; [by intros []|]. by intros [[]%elem_of_nil|].
  - by intros [].
Qed.

(** Deleting the pending event leaves what was handed out. *)
Lemma deletePending h s out e : owns h s out -> _pendingEvent h = Some e ->
  exists h', deleteEvent h (Some e) = Done h' /\ owns h' (Spec None (blocked s)) out /\
    _pendingEvent h' = None /\ nextSerial h' = nextSerial h.
Proof.
  intros [Hb Hl Hlive Hf] Hp. rewrite Hp in Hl. destruct Hl as [(ev & He & Hs & Hv) Hout].
  unfold deleteEvent. rewrite bool_decide_true by done. simpl. rewrite He, Hv. eexists. split; [done|].
  split; [|done]. constructor; simpl; try done.
  - intros a. destruct (decide (a = e)) as [->|Hne].
    + rewrite lookup_delete_eq. split; [by intros []|]. by intros [?|?].
    + rewrite lookup_delete_ne, Hlive, Hp by done. naive_solver.
  - intros a [x Hx]. apply lookup_delete_Some in Hx as [_ Hx]. apply Hf. eauto.
Qed.

#[local] Arguments deleteEvent : simpl never.

(** A new event is neither the pending one nor one that was handed out. *)
Lemma new_fresh h s out : owns h s out ->
  events h !! nextSerial h = None /\ (nextSerial h ∉ out) /\ _pendingEvent h <> Some (nextSerial h).
Proof.
  intros [Hb Hl Hlive Hf].
  assert (Hfresh : events h !! nextSerial h = None).
  { destruct (events h !! nextSerial h) eqn:E; [|done]. pose proof (Hf (nextSerial h) ltac:(eauto)). lia. }
  split; [done|].
  split; intros H; assert (is_Some (events h !! nextSerial h)) as [? ?] by (apply Hlive; auto); congruence.
Qed.

(** Replacing the pending event by a new one: the old one is gone. *)
Lemma replace_pending h s out ev : owns h s out ->
  let h1 := fst (newEvent h ev) in
  exists h2, match _pendingEvent h1 with Some p => deleteEvent h1 (Some p) | None => Done h1 end = Done h2 /\
    events h2 !! nextSerial h = Some ev /\ nextSerial h2 = S (nextSerial h) /\ _eventsBlocked h2 = blocked s /\
    forall e, e <> nextSerial h -> is_Some (events h2 !! e) <-> e ∈ out.
Proof.
  intros Ho. destruct (new_fresh _ _ _ Ho) as (Hfresh & Hout & Hnp). destruct Ho as [Hb Hl Hlive Hf].
  simpl. destruct (_pendingEvent h) as [p|] eqn:Hp.
  - destruct Hl as [(evp & Hevp & _ & Hvp) Hpo]. assert (p <> nextSerial h) by congruence.
    unfold deleteEvent. simpl. rewrite bool_decide_true by done. simpl. rewrite lookup_insert_ne, Hevp, Hvp by done.
    eexists. split; [done|]. simpl. rewrite lookup_delete_ne, lookup_insert_eq by done. split_and!; try done.
    intros e Hne. destruct (decide (e = p)) as [->|]; [rewrite lookup_delete_eq; split; [by intros []|done]|].
    rewrite lookup_delete_ne, lookup_insert_ne, Hlive by done. naive_solver.
  - eexists. split; [done|]. simpl. rewrite lookup_insert_eq. split_and!; try done.
    intros e Hne. rewrite lookup_insert_ne, Hlive by done. naive_solver.
Qed.

Lemma send_owns h s out ev : owns h s out -> isValid ev = true ->
  exists h', handle h (Send ev) = Done (h', None) /\ owns h' (fst (specStep s (Send ev))) out.
Proof.
  intros Ho Hv. destruct (new_fresh _ _ _ Ho) as (Hfresh & Hout & Hnp).
  destruct (replace_pending _ _ _ ev Ho) as (h2 & Hd & He & Hn & Hb2 & Hl2).
  destruct Ho as [Hb Hl Hlive Hf]. unfold handle, newEvent, sendEvent, eventsBlocked. simpl in *. rewrite Hb.
  destruct (blocked s) eqn:Hbs.
  - unfold deleteEvent. simpl. rewrite bool_decide_false by congruence. simpl. rewrite lookup_insert_eq, Hv.
    eexists. split; [done|]. constructor; simpl; rewrite ?delete_insert_id by done; try done; try congruence.
    intros e He'. specialize (Hf e He'). lia.
  - rewrite Hb in Hd. rewrite Hd. simpl. eexists. split; [done|]. constructor; simpl; [done|by eauto| |].
    + intros e. destruct (decide (e = nextSerial h)) as [->|Hne]; [rewrite He; split; [auto|by eauto]|].
      rewrite Hl2 by done. split; [auto|]. intros [?|[= ?]]; congruence.
    + intros e Hex. destruct (decide (e = nextSerial h)) as [->|Hne]; [lia|]. apply (Hl2 e Hne) in Hex.
      assert (is_Some (events h !! e)) as Hs by (apply Hlive; auto). specialize (Hf e Hs). lia.
Qed.

(** Requests whose events are all valid, as constructors of events make
    them. *)
Definition requestValid (r : request) : bool :=
  match r with Send ev => isValid ev | _ => true end.

Lemma handle_owns h s out r : owns h s out -> requestValid r = true ->
  exists h' o, handle h r = Done (h', o) /\
    owns h' (fst (specStep s r)) (match o with Some e => e :: out | None => out end) /\
    (o ≫= fun e => events h' !! e) = snd (specStep s r).
Proof.
  intros Ho Hr. destruct r as [ev| | |w|b]; simpl in Hr.
  - destruct (send_owns _ _ _ ev Ho Hr) as (h' & -> & Hh). by exists h', None.
  - destruct Ho as [Hb Hl Hlive Hf]. simpl. eexists _, _. split; [done|]. simpl.
    destruct (_pendingEvent h) as [e|] eqn:Hp.
    + destruct Hl as [(ev & He & Hs & Hv) Hout]. simpl. split; [|congruence].
      constructor; simpl; try done. intros a. rewrite Hlive, elem_of_cons. naive_solver.
    + split; [|by rewrite Hl]. constructor; simpl; try done.
  - simpl. unfold clear. destruct (_pendingEvent h) as [e|] eqn:Hp.
    + destruct (deletePending _ _ _ _ Ho Hp) as (h' & -> & Hh & _). by exists h', None.
    + exists h, None. split; [done|]. split; [|done]. destruct Ho as [Hb Hl Hlive Hf]. rewrite Hp in Hl.
      constructor; rewrite ?Hp; try done. intros a. by rewrite Hlive, Hp.
  - simpl. unfold deletePendingEventsFor. destruct (_pendingEvent h) as [e|] eqn:Hp.
    + destruct (deletePending _ _ _ _ Ho Hp) as (h' & Hd & Hh & _). pose proof (own_latest _ _ _ Ho) as Hl.
      rewrite Hp in Hl. destruct Hl as [(ev & -> & Hs & Hv) Hout]. rewrite Hs, Hv, andb_true_r.
      case_match; [rewrite Hd; by exists h', None|by exists h, None].
    + pose proof (own_latest _ _ _ Ho) as Hl. rewrite Hp in Hl. rewrite Hl. by exists h, None.
  - simpl. exists (blockEvents h b), None. split; [done|]. split; [|done]. by destruct Ho; constructor.
Qed.

(** Runs of requests: the events handed out, as numbers and as values. *)
Fixpoint handleAll (h : handler) (out : list nat) (rs : list request) : outcome (handler * list nat) :=
  match rs with
  | [] => Done (h, out)
  | r :: rs =>
      let! ho := handle h r in
      handleAll (fst ho) (match snd ho with Some e => e :: out | None => out end) rs
  end.

Fixpoint specAll (s : spec) (got : list YEvent) (rs : list request) : spec * list YEvent :=
  match rs with
  | [] => (s, got)
  | r :: rs =>
      specAll (fst (specStep s r)) (match snd (specStep s r) with Some ev => ev :: got | None => got end) rs
  end.

(** The client does not delete what it got, so that it can be compared. *)
Lemma handle_keeps h s out r h' o e : owns h s out -> requestValid r = true -> handle h r = Done (h', o) ->
  e ∈ out -> events h' !! e = events h !! e.
Proof.
  intros Ho Hr Hh He. destruct (new_fresh _ _ _ Ho) as (Hfresh & Hout & _).
  assert (Hpe : _pendingEvent h <> Some e).
  { intros Hp. pose proof (own_latest _ _ _ Ho) as Hl. rewrite Hp in Hl. by destruct Hl. }
  assert (e <> nextSerial h) by (intros ->; done).
  assert (Hdel : forall g p g', deleteEvent g (Some p) = Done g' -> p <> e -> events g' !! e = events g !! e).
  { intros g p g' Hd Hne. unfold deleteEvent in Hd. repeat case_match; simplify_eq; simpl;
      rewrite ?lookup_delete_ne by done; done. }
  destruct r as [ev| | |w|b]; simpl in Hh; unfold sendEvent, clear, deletePendingEventsFor, consumePendingEvent, newEvent in Hh;
    simpl in Hh; repeat case_match; simplify_eq; try done;
    repeat match goal with
    | H : obind ?m _ = Done _ |- _ => let E := fresh "E" in destruct m eqn:E; cbn [obind] in H; simplify_eq
    | H : deleteEvent _ _ = Done _ |- _ => apply Hdel in H; [|congruence]
    end; simpl in *; rewrite ?lookup_insert_ne in * by done; congruence.
Qed.

Lemma handleAll_owns rs : forall h s out got, owns h s out ->
  Forall2 (fun e ev => events h !! e = Some ev) out got -> forallb requestValid rs = true ->
  exists h' out', handleAll h out rs = Done (h', out') /\
    owns h' (fst (specAll s got rs)) out' /\
    Forall2 (fun e ev => events h' !! e = Some ev) out' (snd (specAll s got rs)).
Proof.
  induction rs as [|r rs IH]; intros h s out got Ho Hout Hv; [by exists h, out|].
  simpl in Hv. apply andb_true_iff in Hv as [Hr Hrs].
  destruct (handle_owns _ _ _ _ Ho Hr) as (h' & o & Hh & Ho' & Hres).
  assert (Hout' : Forall2 (fun e ev => events h' !! e = Some ev) out got).
  { assert (Hk : Forall (fun e => events h' !! e = events h !! e) out).
    { apply List.Forall_forall. intros e He. apply (handle_keeps _ _ _ _ _ _ e Ho Hr Hh). by apply list_elem_of_In. }
    clear -Hout Hk. induction Hout; [done|]. inversion Hk; subst. constructor; [congruence|auto]. }
  simpl. rewrite Hh. cbn [obind]. simpl. apply IH; [done| |done].
  destruct o as [e|]; simpl in Hres.
  - destruct (snd (specStep s r)) eqn:E; [by constructor|].
    assert (is_Some (events h' !! e)) as [? ?] by (apply (own_live _ _ _ Ho'); left; constructor). congruence.
  - by rewrite <- Hres.
Qed.

(** C11: The handler implements its contract and owns its memory: for every
    sequence of requests with valid events no deleted event is touched, the
    events handed out are those of the specification (the latest event that
    was sent while events were not blocked, each once), and the events that
    still exist are the pending one and those that were handed out. *)
Theorem handler_refines rs : forallb requestValid rs = true ->
  exists h out, handleAll newHandler [] rs = Done (h, out) /\
    (forall e, is_Some (events h !! e) <-> e ∈ out \/ _pendingEvent h = Some e) /\
    Forall2 (fun e ev => events h !! e = Some ev) out (snd (specAll (Spec None false) [] rs)) /\
    (_pendingEvent h ≫= fun e => events h !! e) = latest (fst (specAll (Spec None false) [] rs)).
Proof.
  intros Hv. destruct (handleAll_owns rs _ _ _ [] newHandler_owns ltac:(constructor) Hv) as (h & out & Hh & Ho & Hout).
  exists h, out. split; [done|]. split; [apply Ho|]. split; [done|].
  pose proof (own_latest _ _ _ Ho) as Hl. destruct (_pendingEvent h) as [e|]; simpl; [|done].
  destruct Hl as [(ev & He & Hs & _) _]. congruence.
Qed.

Definition ev1 : YEvent := {| _eventType := WidgetEvent; isWidgetEvent := true; _widget := Some 4 |}%nat.

Lemma handler_refines_witness :
  exists h out, handleAll newHandler [] [Send ev1; Block true; Send ev1; Block false; Consume; Send ev1; Send ev1] = Done (h, out) /\
    (forall e, is_Some (events h !! e) <-> e ∈ out \/ _pendingEvent h = Some e) /\
    Forall2 (fun e ev => events h !! e = Some ev) out [ev1] /\
    (_pendingEvent h ≫= fun e => events h !! e) = Some ev1.
Proof.
  apply (handler_refines [Send ev1; Block true; Send ev1; Block false; Consume; Send ev1; Send ev1]). reflexivity.
Defined.

(** An event must not be sent twice: the second time it is deleted as the
    older event and kept as the new one, and the next request touches a deleted
    object. *)
Theorem resend_dangles :
  exists h, (let! h := sendEvent (fst (newEvent newHandler ev1)) (Some 0%nat) in sendEvent h (Some 0%nat)) = Done h /\
    _pendingEvent h = Some 0%nat /\ events h = ∅ /\ clear h = Undefined /\ eventPendingFor h 4 = Undefined.
Proof. eexists. split; [vm_compute; reflexivity|]. by vm_compute. Qed.

End YSimpleEventHandler.
