(* ===== verification/RadioButtons.v ===== *)
(** * Radio buttons and their groups

    src/libyui/src/YRadioButton.cc, YRadioButtonGroup.cc and the text mode
    classes that complete them, src/libyui-ncurses/src/NCRadioButton.cc,
    NCRadioButtonGroup.cc and NCWidgetFactory.cc. A button finds its group by
    walking up the widget tree and remembers it; the group has the list of its
    buttons; checking one of them unchecks the others. *)

From stdpp Require Import gmap.
From S2P Require Import Prelude.
Local Open Scope nat_scope.

Module YRadioButton.

Record groupData := GroupData { buttonList : list nat; focusId : Z; groupEnabled : bool }.
Record buttonData := ButtonData {
  checked : bool;
  radioButtonGroup : option nat;
  notify : bool;
  buttonEnabled : bool }.

(** A widget of the tree: its parent, and what it is. *)
Inductive kind := Container | Group (g : groupData) | Button (b : buttonData).
Record node := Node { parent : option nat; what : kind }.

(** The widgets, the address of the next one, and the buttons for which a
    ValueChanged event was sent, the latest first. *)
Record ui := UI { nodes : gmap nat node; next : nat; sent : list nat }.

Definition emptyUI : ui := UI ∅ 0 [].

Definition isGroup (n : node) : bool := match what n with Group _ => true | _ => false end.
Definition isButton (n : node) : bool := match what n with Button _ => true | _ => false end.

Definition getButton (u : ui) (b : nat) : outcome buttonData :=
  match nodes u !! b with Some (Node _ (Button d)) => Done d | _ => Undefined end.
Definition getGroup (u : ui) (g : nat) : outcome groupData :=
  match nodes u !! g with Some (Node _ (Group d)) => Done d | _ => Undefined end.

Definition setKind (k : kind) (n : node) : node := Node (parent n) k.
Definition update (u : ui) (a : nat) (k : kind) : ui :=
  UI (alter (setKind k) a (nodes u)) (next u) (sent u).

Definition setChecked (v : bool) (d : buttonData) : buttonData :=
  ButtonData v (radioButtonGroup d) (notify d) (buttonEnabled d).
Definition setGroup (g : option nat) (d : buttonData) : buttonData :=
  ButtonData (checked d) g (notify d) (buttonEnabled d).
Definition setButtonEnabled (v : bool) (d : buttonData) : buttonData :=
  ButtonData (checked d) (radioButtonGroup d) (notify d) v.

Definition sendEvent (u : ui) (b : nat) : ui := UI (nodes u) (next u) (b :: sent u).

(** ** YRadioButton *)

Fixpoint findLoop (n : nat) (h : gmap nat node) (widget : option nat) : outcome (option nat) :=
  match widget with
  | None => Done None
  | Some w =>
      match n with
      | 0 => NoFuel
      | S n =>
          match h !! w with
          | None => Undefined
          | Some nd => if isGroup nd then Done (Some w) else findLoop n h (parent nd)
          end
      end
  end.

(** A widget is created after its parent, so its own address is more than the
    number of its ancestors. *)
Definition findRadioButtonGroup (u : ui) (this : nat) : outcome (option nat) :=
  match nodes u !! this with
  | None => Undefined
  | Some nd => findLoop this (nodes u) (parent nd)
  end.

Definition buttonGroup (u : ui) (this : nat) : outcome (ui * option nat) :=
  let! d := getButton u this in
  match radioButtonGroup d with
  | Some g => Done (u, Some g)
  | None =>
      let! g := findRadioButtonGroup u this in
      Done (update u this (Button (setGroup g d)), g)
  end.

(** ** YRadioButtonGroup *)

Definition withButtons (d : groupData) (l : list nat) : groupData :=
  GroupData l (focusId d) (groupEnabled d).

Definition addRadioButton (u : ui) (this button : nat) : outcome ui :=
  let! d := getGroup u this in
  Done (update u this (Group (withButtons d (buttonList d ++ [button])))).

Definition removeRadioButton (u : ui) (this button : nat) : outcome ui :=
  let! d := getGroup u this in
  Done (update u this (Group (withButtons d (filter (fun x => x <> button) (buttonList d))))).

Definition uncheckOtherButtons (setValue : ui -> nat -> bool -> outcome ui) (u : ui)
    (this selectedRadioButton : nat) : outcome ui :=
  let! d := getGroup u this in
  ofold (fun u it => if bool_decide (it <> selectedRadioButton) then setValue u it false else Done u)
    (buttonList d) u.

Fixpoint firstChecked (u : ui) (l : list nat) : outcome (option nat) :=
  match l with
  | [] => Done None
  | it :: l => let! d := getButton u it in if checked d then Done (Some it) else firstChecked u l
  end.

Definition currentButton (u : ui) (this : nat) : outcome (option nat) :=
  let! d := getGroup u this in firstChecked u (buttonList d).

(** ** The text mode classes *)

(** [setValue] unchecks the other buttons with [setValue]: the recursion is two
    calls deep. *)
Fixpoint setValueFuel (n : nat) (u : ui) (this : nat) (newval : bool) : outcome ui :=
  match n with
  | 0 => NoFuel
  | S n =>
      let! d := getButton u this in
      if bool_decide (newval <> checked d) then
        let u := update u this (Button (setChecked newval d)) in
        let! u :=
          (if newval then
             let! ug := buttonGroup u this in
             match snd ug with
             | Some _ =>
                 let! ug := buttonGroup (fst ug) this in
                 match snd ug with
                 | Some g => uncheckOtherButtons (setValueFuel n) (fst ug) g this
                 | None => Undefined
                 end
             | None => Done (fst ug)
             end
           else Done u) in
        Done (if notify d then sendEvent u this else u)
      else Done u
  end.

Definition setValue (u : ui) (this : nat) (newval : bool) : outcome ui := setValueFuel 2 u this newval.

(** The constructor (the parent is a live container); notification is off. *)
Definition newNode (u : ui) (par : option nat) (k : kind) : ui * nat :=
  (UI (<[next u := Node par k]> (nodes u)) (S (next u)) (sent u), next u).

Definition newButton (u : ui) (par : option nat) (check : bool) : outcome (ui * nat) :=
  let '(u, this) := newNode u par (Button (ButtonData false None false true)) in
  let! u := setValue u this check in
  Done (u, this).

(** NCWidgetFactory. *)
Definition createRadioButton (u : ui) (par : option nat) (check : bool) : outcome (ui * nat) :=
  let! ub := newButton u par check in
  let '(u, radioButton) := ub in
  let! ug := buttonGroup u radioButton in
  match snd ug with
  | Some _ =>
      let! ug := buttonGroup (fst ug) radioButton in
      match snd ug with
      | Some g => let! u := addRadioButton (fst ug) g radioButton in Done (u, radioButton)
      | None => Undefined
      end
  | None => Done (fst ug, radioButton)
  end.

Definition createRadioButtonGroup (u : ui) (par : option nat) : ui * nat :=
  newNode u par (Group (GroupData [] 1 true)).

(** The destructor, for a button whose group is not being destroyed. *)
Definition deleteButton (u : ui) (this : nat) : outcome ui :=
  let! d := getButton u this in
  let! u := match radioButtonGroup d with
            | Some g => removeRadioButton u g this
            | None => Done u
            end in
  Done (UI (delete this (nodes u)) (next u) (sent u)).

Definition setNotify (u : ui) (this : nat) (v : bool) : outcome ui :=
  let! d := getButton u this in
  Done (update u this (Button (ButtonData (checked d) (radioButtonGroup d) v (buttonEnabled d)))).

(** *** The keyboard *)

(** The [n]th button of the list, counted from one: the one that is asked to
    take the keyboard focus. *)
Fixpoint focusLoop (n focusId : Z) (l : list nat) : list nat :=
  match l with
  | [] => []
  | it :: l => (if (n + 1 =? focusId)%Z then [it] else []) ++ focusLoop (n + 1) focusId l
  end.

Definition withFocusId (d : groupData) (i : Z) : groupData := GroupData (buttonList d) i (groupEnabled d).
Definition radioButtonsCount (d : groupData) : Z := Z.of_nat (length (buttonList d)).

Definition focusNextButton (d : groupData) : groupData * list nat :=
  let i := (if focusId d <? radioButtonsCount d then focusId d + 1
            else if focusId d =? radioButtonsCount d then 0 else focusId d)%Z in
  (withFocusId d i, focusLoop 0 i (buttonList d)).

Definition focusPrevButton (d : groupData) : groupData * list nat :=
  let i := (if 0 <? focusId d then focusId d - 1
            else if focusId d =? 0 then radioButtonsCount d - 1 else focusId d)%Z in
  (withFocusId d i, focusLoop 0 i (buttonList d)).

Inductive key := KEY_HOTKEY | KEY_SPACE | KEY_RETURN | KEY_UP | KEY_DOWN | OtherKey.

Record inputResult := InputResult { after : ui; valueChanged : bool; focused : list nat }.

Definition moveFocus (u : ui) (this : nat) (move : groupData -> groupData * list nat) : outcome inputResult :=
  let! ug := buttonGroup u this in
  match snd ug with
  | Some g =>
      let! d := getGroup (fst ug) g in
      Done (InputResult (update (fst ug) g (Group (fst (move d)))) false (snd (move d)))
  | None => Done (InputResult (fst ug) false [])
  end.

Definition wHandleInput (u : ui) (this : nat) (k : key) : outcome inputResult :=
  let! old := getButton u this in
  match k with
  | KEY_HOTKEY | KEY_SPACE | KEY_RETURN =>
      let! u := setValue u this true in
      let! d := getButton u this in
      Done (InputResult u (notify d && bool_decide (checked old <> checked d)) [])
  | KEY_UP => moveFocus u this focusPrevButton
  | KEY_DOWN => moveFocus u this focusNextButton
  | OtherKey => Done (InputResult u false [])
  end.

(** NCRadioButtonGroup::setEnabled. *)
Definition setEnabled (u : ui) (this : nat) (v : bool) : outcome ui :=
  let! d := getGroup u this in
  let! u := ofold (fun u it => let! b := getButton u it in Done (update u it (Button (setButtonEnabled v b))))
              (buttonList d) u in
  let! d := getGroup u this in
  Done (update u this (Group (GroupData (buttonList d) (focusId d) v))).

(** ** The tree *)

(** Parents are older than their children, live, and can have children. *)
Definition treeOk (h : gmap nat node) : Prop :=
  forall a n p, h !! a = Some n -> parent n = Some p -> p < a /\ exists m, h !! p = Some m /\ isButton m = false.

Lemma findLoop_total h : treeOk h -> forall n w, is_Some (h !! w) -> w < n ->
  exists r, findLoop n h (Some w) = Done r /\
    match r with Some g => exists m, h !! g = Some m /\ isGroup m = true | None => True end.
Proof.
  intros Ht n. induction n as [|n IH]; intros w [m Hm] Hn; [lia|]. cbn [findLoop]. rewrite Hm.
  destruct (isGroup m) eqn:E; [exists (Some w); by eauto|]. destruct (parent m) as [p|] eqn:Hp; [|destruct n; by exists None].
  destruct (Ht _ _ _ Hm Hp) as (? & m' & ? & _). apply IH; [eauto|lia].
Qed.

(** The walk only reads parents and classes, of a widget and its ancestors. *)
Definition skeleton (n : node) : option nat * bool := (parent n, isGroup n).

Lemma findLoop_agree h h' (P : nat -> Prop) :
  (forall a, P a -> skeleton <$> h !! a = skeleton <$> h' !! a) ->
  (forall a n p, P a -> h !! a = Some n -> parent n = Some p -> P p) ->
  forall n w, (forall a, w = Some a -> P a) -> findLoop n h w = findLoop n h' w.
Proof.
  intros Hs Hc n. induction n as [|n IH]; intros [w|] Hw; try done. specialize (Hw w eq_refl).
  cbn [findLoop]. specialize (Hs w Hw). destruct (h !! w) as [m|] eqn:Hm, (h' !! w) as [m'|]; simplify_eq/=; [|done].
  unfold skeleton in Hs. simplify_eq/=. replace (isGroup m') with (isGroup m) by congruence.
  replace (parent m') with (parent m) by congruence. destruct (isGroup m); [done|].
  apply IH. intros p Hp. by apply (Hc w m).
Qed.

(** The group a button belongs to. *)
Definition groupOf (h : gmap nat node) (b : nat) : option nat :=
  match h !! b with
  | Some nd => match findLoop b h (parent nd) with Done r => r | _ => None end
  | None => None
  end.

Lemma find_group u b : treeOk (nodes u) -> is_Some (nodes u !! b) ->
  findRadioButtonGroup u b = Done (groupOf (nodes u) b).
Proof.
  intros Ht [n Hn]. unfold findRadioButtonGroup, groupOf. rewrite Hn.
  destruct (parent n) as [p|] eqn:Hp; [|by destruct b].
  destruct (Ht _ _ _ Hn Hp) as (Hlt & m & Hm & _).
  by destruct (findLoop_total _ Ht b p ltac:(eauto) Hlt) as (r & -> & _).
Qed.

Lemma groupOf_group h b g : treeOk h -> groupOf h b = Some g -> exists p d, h !! g = Some (Node p (Group d)).
Proof.
  intros Ht. unfold groupOf. destruct (h !! b) as [n|] eqn:Hn; [|done].
  destruct (parent n) as [p|] eqn:Hp; [|by destruct b].
  destruct (Ht _ _ _ Hn Hp) as (Hlt & m & Hm & _).
  destruct (findLoop_total _ Ht b p ltac:(eauto) Hlt) as (r & -> & Hr). intros ->.
  destruct Hr as ([q [|d|]] & ? & ?); try done. by eauto.
Qed.

(** Two heaps with the same tree. *)
Definition sameTree (h h' : gmap nat node) : Prop :=
  forall a, skeleton <$> h !! a = skeleton <$> h' !! a.

Lemma sameTree_lookup h h' a n : sameTree h h' -> h' !! a = Some n ->
  exists m, h !! a = Some m /\ parent m = parent n /\ isGroup m = isGroup n.
Proof.
  intros Hs Hn. specialize (Hs a). rewrite Hn in Hs. destruct (h !! a) as [m|]; simplify_eq/=.
  unfold skeleton in Hs. simplify_eq. eauto.
Qed.

Lemma sameTree_group h h' b : sameTree h h' -> groupOf h' b = groupOf h b.
Proof.
  intros Hs. unfold groupOf. destruct (h' !! b) as [n|] eqn:Hn.
  - destruct (sameTree_lookup _ _ _ _ Hs Hn) as (m & -> & -> & _).
    by rewrite (findLoop_agree h h' (fun _ => True)).
  - specialize (Hs b). rewrite Hn in Hs. by destruct (h !! b).
Qed.

(** ** The invariant *)

(** The tree and the lists, with possibly one button that is not in its group
    yet. *)
Record links (x : option nat) (u : ui) : Prop := {
  wf_tree : treeOk (nodes u);
  wf_next : forall a, is_Some (nodes u !! a) -> a < next u;
  wf_cache : forall b p d g, nodes u !! b = Some (Node p (Button d)) -> radioButtonGroup d = Some g ->
    groupOf (nodes u) b = Some g;
  (* the list of a group has its buttons, each of which knows its group *)
  wf_listed : forall b p d g, Some b <> x -> nodes u !! b = Some (Node p (Button d)) -> groupOf (nodes u) b = Some g ->
    radioButtonGroup d = Some g /\ exists q e, nodes u !! g = Some (Node q (Group e)) /\ b ∈ buttonList e;
  wf_members : forall g q e b, nodes u !! g = Some (Node q (Group e)) -> b ∈ buttonList e ->
    groupOf (nodes u) b = Some g /\ exists p d, nodes u !! b = Some (Node p (Button d)) }.

(** The invariant: in no group are two buttons checked. *)
Record wfBut (x : option nat) (u : ui) : Prop := {
  wf_links : links x u;
  wf_single : forall g a b p q c d,
    nodes u !! a = Some (Node p (Button c)) -> nodes u !! b = Some (Node q (Button d)) ->
    groupOf (nodes u) a = Some g -> groupOf (nodes u) b = Some g ->
    checked c = true -> checked d = true -> a = b }.

Abbreviation wf := (wfBut None).

(** ** Changes that keep the tree and the lists *)

Definition keeps (h : gmap nat node) (a : nat) (n n' : node) : Prop :=
  parent n' = parent n /\
  match what n, what n' with
  | Container, Container => True
  | Group e, Group e' => buttonList e' = buttonList e
  | Button d, Button d' => radioButtonGroup d' = radioButtonGroup d \/ radioButtonGroup d' = groupOf h a
  | _, _ => False
  end.

Definition checkedOf (n : node) : option bool :=
  match what n with Button d => Some (checked d) | _ => None end.

(** [f a] is what becomes of the value of button [a]. *)
Definition revalues (f : nat -> bool -> bool) (h h' : gmap nat node) : Prop :=
  forall a, match h !! a, h' !! a with
    | Some n, Some n' => keeps h a n n' /\ checkedOf n' = f a <$> checkedOf n
    | None, None => True
    | _, _ => False
    end.

Lemma keeps_refl h a n : keeps h a n n.
Proof. split; [done|]. destruct (what n); auto. Qed.

Lemma keeps_skeleton h a n n' : keeps h a n n' -> skeleton n = skeleton n'.
Proof. intros [Hp Hk]. unfold skeleton, isGroup. rewrite Hp. by destruct (what n), (what n'). Qed.

Lemma revalues_tree f h h' : revalues f h h' -> sameTree h h'.
Proof.
  intros Hr a. specialize (Hr a). destruct (h !! a), (h' !! a); try done. simpl.
  f_equal. eapply keeps_skeleton. by destruct Hr.
Qed.

Lemma revalues_refl h : revalues (fun _ v => v) h h.
Proof.
  intros a. destruct (h !! a) as [n|]; [|done]. split; [apply keeps_refl|]. by destruct (checkedOf n).
Qed.

Lemma revalues_trans f g h1 h2 h3 : revalues f h1 h2 -> revalues g h2 h3 ->
  revalues (fun a v => g a (f a v)) h1 h3.
Proof.
  intros H1 H2 a. pose proof (sameTree_group _ _ a (revalues_tree _ _ _ H1)) as Hg.
  specialize (H1 a). specialize (H2 a). destruct (h1 !! a) as [n1|], (h2 !! a) as [n2|], (h3 !! a) as [n3|]; try done.
  destruct H1 as [[P1 K1] C1], H2 as [[P2 K2] C2]. split.
  - split; [congruence|]. destruct (what n1), (what n2), (what n3); try done; [congruence|]. rewrite Hg in K2.
    destruct K2 as [-> | ->]; auto.
  - rewrite C2, C1. by destruct (checkedOf n1).
Qed.

Lemma revalues_ext f g h h' :
  (forall a p d, h !! a = Some (Node p (Button d)) -> f a (checked d) = g a (checked d)) ->
  revalues f h h' -> revalues g h h'.
Proof.
  intros He Hr a. specialize (Hr a). specialize (He a). destruct (h !! a) as [[p k]|], (h' !! a); try done.
  destruct Hr as [? ->]. split; [done|]. destruct k as [| |d]; try done. simpl. by rewrite (He p d).
Qed.

Lemma revalues_some f h h' a n : revalues f h h' -> h !! a = Some n ->
  exists n', h' !! a = Some n' /\ keeps h a n n' /\ checkedOf n' = f a <$> checkedOf n.
Proof. intros Hr Hn. specialize (Hr a). rewrite Hn in Hr. destruct (h' !! a); [eauto|done]. Qed.

Lemma revalues_some' f h h' a n' : revalues f h h' -> h' !! a = Some n' ->
  exists n, h !! a = Some n /\ keeps h a n n' /\ checkedOf n' = f a <$> checkedOf n.
Proof. intros Hr Hn. specialize (Hr a). rewrite Hn in Hr. destruct (h !! a); [eauto|done]. Qed.

(** Replacing one button. *)
Lemma revalues_update u b p d d' : nodes u !! b = Some (Node p (Button d)) ->
  radioButtonGroup d' = radioButtonGroup d \/ radioButtonGroup d' = groupOf (nodes u) b ->
  revalues (fun a v => if decide (a = b) then checked d' else v) (nodes u) (nodes (update u b (Button d'))).
Proof.
  intros Hb Hg a. simpl. destruct (decide (a = b)) as [->|Hne].
  - rewrite lookup_alter_eq, Hb. simpl. done.
  - rewrite lookup_alter_ne by done. destruct (nodes u !! a) as [n|]; [|done].
    split; [apply keeps_refl|]. by destruct (checkedOf n).
Qed.

Lemma revalues_button f h h' b p d : revalues f h h' -> h !! b = Some (Node p (Button d)) ->
  exists d', h' !! b = Some (Node p (Button d')) /\ checked d' = f b (checked d) /\
    (radioButtonGroup d' = radioButtonGroup d \/ radioButtonGroup d' = groupOf h b).
Proof.
  intros Hr Hb. destruct (revalues_some _ _ _ _ _ Hr Hb) as ([q k] & Hk & [Hp Hw] & Hc). simpl in *.
  destruct k as [| |d']; try done. unfold checkedOf in Hc. simplify_eq/=. exists d'. auto.
Qed.

Lemma revalues_button' f h h' b p d' : revalues f h h' -> h' !! b = Some (Node p (Button d')) ->
  exists d, h !! b = Some (Node p (Button d)) /\ checked d' = f b (checked d) /\
    (radioButtonGroup d' = radioButtonGroup d \/ radioButtonGroup d' = groupOf h b).
Proof.
  intros Hr Hb. destruct (revalues_some' _ _ _ _ _ Hr Hb) as ([q k] & Hk & [Hp Hw] & Hc). simpl in *.
  destruct k as [| |d]; try done. unfold checkedOf in Hc. simplify_eq/=. exists d. auto.
Qed.

Lemma revalues_group f h h' g p e : revalues f h h' -> h !! g = Some (Node p (Group e)) ->
  exists e', h' !! g = Some (Node p (Group e')) /\ buttonList e' = buttonList e.
Proof.
  intros Hr Hb. destruct (revalues_some _ _ _ _ _ Hr Hb) as ([q k] & Hk & [Hp Hw] & Hc). simpl in *.
  destruct k as [|e'|]; try done. simplify_eq. eauto.
Qed.

Lemma revalues_group' f h h' g p e' : revalues f h h' -> h' !! g = Some (Node p (Group e')) ->
  exists e, h !! g = Some (Node p (Group e)) /\ buttonList e' = buttonList e.
Proof.
  intros Hr Hb. destruct (revalues_some' _ _ _ _ _ Hr Hb) as ([q k] & Hk & [Hp Hw] & Hc). simpl in *.
  destruct k as [|e|]; try done. simplify_eq/=. eauto.
Qed.

Lemma links_revalues x f u u' : links x u -> revalues f (nodes u) (nodes u') -> next u' = next u -> links x u'.
Proof.
  intros [Ht Hn Hc Hl Hm] Hr Hnext. pose proof (revalues_tree _ _ _ Hr) as Hst.
  assert (Hg : forall b, groupOf (nodes u') b = groupOf (nodes u) b) by (intros b; by apply sameTree_group).
  constructor.
  - intros a n p Ha Hp. destruct (sameTree_lookup _ _ _ _ Hst Ha) as (m & Hma & Hpm & _).
    destruct (Ht a m p Hma ltac:(congruence)) as (Hlt & k & Hk & Hb). split; [done|].
    destruct (revalues_some _ _ _ _ _ Hr Hk) as (k' & Hk' & [_ Hkk] & _). exists k'. split; [done|].
    unfold isButton in *. by destruct (what k), (what k').
  - intros a [n Ha]. destruct (revalues_some' _ _ _ _ _ Hr Ha) as (m & Hma & _). rewrite Hnext. apply Hn. eauto.
  - intros b p d g Hb Hd. rewrite Hg. destruct (revalues_button' _ _ _ _ _ _ Hr Hb) as (c & Hcb & _ & [E|E]).
    + apply (Hc b p c); congruence.
    + congruence.
  - intros b p d g Hx Hb Hgb. rewrite Hg in Hgb. destruct (revalues_button' _ _ _ _ _ _ Hr Hb) as (c & Hcb & _ & E).
    destruct (Hl b p c g Hx Hcb Hgb) as (Hcg & q & e & Hge & Hin). split; [destruct E; congruence|].
    destruct (revalues_group _ _ _ _ _ _ Hr Hge) as (e' & He' & Hle). exists q, e'. by rewrite Hle.
  - intros g q e b Hge Hin. destruct (revalues_group' _ _ _ _ _ _ Hr Hge) as (e0 & He0 & Hle). rewrite Hle in Hin.
    destruct (Hm g q e0 b He0 Hin) as (Hgb & p & d & Hb). rewrite Hg. split; [done|].
    destruct (revalues_button _ _ _ _ _ _ Hr Hb) as (d' & Hd' & _). eauto.
Qed.

(** A change of values that keeps the groups single. *)
Lemma wf_revalues x f u u' : wfBut x u -> revalues f (nodes u) (nodes u') -> next u' = next u ->
  (forall g a b p q c d,
    nodes u !! a = Some (Node p (Button c)) -> nodes u !! b = Some (Node q (Button d)) ->
    groupOf (nodes u) a = Some g -> groupOf (nodes u) b = Some g ->
    f a (checked c) = true -> f b (checked d) = true -> a = b) -> wfBut x u'.
Proof.
  intros [Hlinks Hs] Hr Hnext Hsingle. split; [by eapply links_revalues|].
  intros g a b p q c d Ha Hb Hga Hgb Hca Hcb.
  rewrite (sameTree_group _ _ a (revalues_tree _ _ _ Hr)) in Hga. rewrite (sameTree_group _ _ b (revalues_tree _ _ _ Hr)) in Hgb.
  destruct (revalues_button' _ _ _ _ _ _ Hr Ha) as (c0 & Ha0 & Ec & _).
  destruct (revalues_button' _ _ _ _ _ _ Hr Hb) as (d0 & Hb0 & Ed & _).
  apply (Hsingle g a b p q c0 d0); congruence.
Qed.

(** ** Setting values *)

Lemma getButton_some u b p d : nodes u !! b = Some (Node p (Button d)) -> getButton u b = Done d.
Proof. intros Hb. unfold getButton. by rewrite Hb. Qed.
Lemma getGroup_some u g p e : nodes u !! g = Some (Node p (Group e)) -> getGroup u g = Done e.
Proof. intros Hb. unfold getGroup. by rewrite Hb. Qed.

Lemma setValue_false n u b p d : nodes u !! b = Some (Node p (Button d)) ->
  exists u', setValueFuel (S n) u b false = Done u' /\ next u' = next u /\
    revalues (fun a v => if decide (a = b) then false else v) (nodes u) (nodes u').
Proof.
  intros Hb. cbn [setValueFuel]. rewrite (getButton_some _ _ _ _ Hb). cbn [obind].
  case_bool_decide as Hc.
  - eexists. split; [done|]. split; [by destruct (notify d)|].
    pose proof (revalues_update u b p d (setChecked false d) Hb (or_introl eq_refl)) as Hr.
    by destruct (notify d).
  - exists u. split; [done|]. split; [done|]. apply (revalues_ext (fun _ v => v)); [|apply revalues_refl].
    intros a q e Ha. destruct (decide (a = b)) as [->|]; [|done]. rewrite Hb in Ha. simplify_eq.
    by destruct (checked e).
Qed.

Lemma uncheck_loop n sel l : forall u,
  (forall b, b ∈ l -> exists p d, nodes u !! b = Some (Node p (Button d))) ->
  exists u', ofold (fun u it => if bool_decide (it <> sel) then setValueFuel (S n) u it false else Done u) l u = Done u' /\
    next u' = next u /\
    revalues (fun a v => if decide (a ∈ l /\ a <> sel) then false else v) (nodes u) (nodes u').
Proof.
  induction l as [|it l IH]; intros u Hl.
  - exists u. split; [done|]. split; [done|]. apply (revalues_ext (fun _ v => v)); [|apply revalues_refl].
    intros a p d _. rewrite decide_False; [done|]. by intros [[]%elem_of_nil _].
  - destruct (Hl it ltac:(constructor)) as (p & d & Hit).
    assert (exists u1, (if bool_decide (it <> sel) then setValueFuel (S n) u it false else Done u) = Done u1 /\
      next u1 = next u /\ revalues (fun a v => if decide (a = it /\ a <> sel) then false else v) (nodes u) (nodes u1))
      as (u1 & E1 & N1 & R1).
    { case_bool_decide as Hsel.
      - destruct (setValue_false n u it p d Hit) as (u1 & -> & HN & HR). exists u1. split; [done|]. split; [done|].
        eapply revalues_ext; [|exact HR]. intros a q e _. simpl. repeat case_decide; naive_solver.
      - exists u. split; [done|]. split; [done|]. apply (revalues_ext (fun _ v => v)); [|apply revalues_refl].
        intros a q e _. rewrite decide_False; [done|]. intros [-> ?]. done. }
    destruct (IH u1) as (u2 & E2 & N2 & R2).
    { intros b Hb. destruct (Hl b ltac:(by constructor)) as (q & e & Hq).
      destruct (revalues_button _ _ _ _ _ _ R1 Hq) as (e' & He' & _). eauto. }
    exists u2. cbn [ofold]. rewrite E1. cbn [obind]. rewrite E2. split; [done|]. split; [congruence|].
    eapply revalues_ext; [|exact (revalues_trans _ _ _ _ _ R1 R2)]. intros a q e _. simpl.
    repeat case_decide; rewrite ?elem_of_cons in *; naive_solver.
Qed.

Lemma buttonGroup_ok u b p d : treeOk (nodes u) -> nodes u !! b = Some (Node p (Button d)) ->
  (forall g, radioButtonGroup d = Some g -> groupOf (nodes u) b = Some g) ->
  exists u', buttonGroup u b = Done (u', groupOf (nodes u) b) /\ next u' = next u /\
    revalues (fun _ v => v) (nodes u) (nodes u') /\
    exists d', nodes u' !! b = Some (Node p (Button d')) /\ radioButtonGroup d' = groupOf (nodes u) b.
Proof.
  intros Ht Hb Hc. unfold buttonGroup. rewrite (getButton_some _ _ _ _ Hb). cbn [obind].
  destruct (radioButtonGroup d) as [g|] eqn:Hg.
  - rewrite (Hc g eq_refl). exists u. split_and!; try done; [apply revalues_refl|]. eauto.
  - rewrite find_group by eauto. cbn [obind]. eexists. split; [done|]. split; [done|]. split.
    + eapply revalues_ext; [|apply (revalues_update u b p d (setGroup _ d) Hb); by right].
      intros a q e Ha. simpl. destruct (decide (a = b)) as [->|]; [|done]. rewrite Hb in Ha. by simplify_eq.
    + eexists. simpl. rewrite lookup_alter_eq, Hb. simpl. by split.
Qed.

(** What [setValue] makes of the value [w] of button [a]. *)
Definition newValue (h : gmap nat node) (b : nat) (v : bool) (a : nat) (w : bool) : bool :=
  if bool_decide (a = b) then v
  else if v && bool_decide (groupOf h a = groupOf h b) && bool_decide (groupOf h b <> None) then false
  else w.

Lemma newValue_single x u b v p d : wfBut x u -> nodes u !! b = Some (Node p (Button d)) ->
  forall g a a' q q' c c',
    nodes u !! a = Some (Node q (Button c)) -> nodes u !! a' = Some (Node q' (Button c')) ->
    groupOf (nodes u) a = Some g -> groupOf (nodes u) a' = Some g ->
    newValue (nodes u) b v a (checked c) = true -> newValue (nodes u) b v a' (checked c') = true -> a = a'.
Proof.
  intros Hw Hb g a a' q q' c c' Ha Ha' Hg Hg'. unfold newValue.
  repeat case_bool_decide; destruct v; simpl; intros; try congruence;
    eapply (wf_single _ _ Hw g a a'); eauto; done.
Qed.

(** Checking a button of a group: the walk to the group, and the others. *)
Lemma check_others x u b p d : links x u -> x = None \/ x = Some b -> nodes u !! b = Some (Node p (Button d)) ->
  exists u', (let! ug := buttonGroup u b in
              match snd ug with
              | Some _ =>
                  let! ug := buttonGroup (fst ug) b in
                  match snd ug with
                  | Some g => uncheckOtherButtons (setValueFuel 1) (fst ug) g b
                  | None => Undefined
                  end
              | None => Done (fst ug)
              end) = Done u' /\ next u' = next u /\
    revalues (fun a w => if decide (a = b) then w else newValue (nodes u) b true a w) (nodes u) (nodes u').
Proof.
  intros Hw Hx Hb. destruct (buttonGroup_ok u b p d (wf_tree _ _ Hw) Hb) as (u1 & -> & N1 & R1 & d1 & Hd1 & Hg1).
  { intros g. apply (wf_cache _ _ Hw _ _ _ _ Hb). }
  cbn [obind fst snd]. destruct (groupOf (nodes u) b) as [g|] eqn:Hg.
  - unfold buttonGroup. rewrite (getButton_some _ _ _ _ Hd1). cbn [obind]. rewrite Hg1. cbn [obind fst snd].
    destruct (groupOf_group _ _ _ (wf_tree _ _ Hw) Hg) as (q & e & He).
    destruct (revalues_group _ _ _ _ _ _ R1 He) as (e1 & He1 & Hle).
    unfold uncheckOtherButtons. rewrite (getGroup_some _ _ _ _ He1). cbn [obind].
    destruct (uncheck_loop 0 b (buttonList e1) u1) as (u2 & -> & N2 & R2).
    { intros a Ha. rewrite Hle in Ha. destruct (wf_members _ _ Hw g q e a He Ha) as (_ & p' & d' & Hd').
      destruct (revalues_button _ _ _ _ _ _ R1 Hd') as (d2 & Hd2 & _). eauto. }
    exists u2. split; [done|]. split; [congruence|].
    eapply revalues_ext; [|exact (revalues_trans _ _ _ _ _ R1 R2)]. intros a p' d' Ha. simpl. rewrite Hle.
    unfold newValue. rewrite Hg. destruct (decide (a = b)) as [->|Hne]; [by rewrite decide_False by naive_solver|].
    rewrite (bool_decide_false (a = b)), (bool_decide_true (Some g <> None)) by done.
    rewrite andb_true_r. simpl. case_bool_decide as Hga.
    + rewrite decide_True; [done|]. split; [|done].
      destruct (wf_listed _ _ Hw a p' d' g) as (_ & q' & e' & He' & Hin); try done; [naive_solver|].
      by simplify_eq.
    + rewrite decide_False; [done|]. intros [Hin _]. by destruct (wf_members _ _ Hw g q e a He Hin).
  - exists u1. split; [done|]. split; [done|]. eapply revalues_ext; [|exact R1]. intros a p' d' Ha. simpl.
    destruct (decide (a = b)); [done|]. unfold newValue. rewrite Hg, (bool_decide_false (a = b)) by done.
    by rewrite (bool_decide_false (None <> None)), andb_false_r by naive_solver.
Qed.

(** [setValue] gives the button its value, unchecks the other buttons of its
    group if that value is on, and changes no other button. *)
Lemma setValue_ok x u b v p d : wfBut x u -> x = None \/ x = Some b -> nodes u !! b = Some (Node p (Button d)) ->
  exists u', setValue u b v = Done u' /\ next u' = next u /\
    revalues (newValue (nodes u) b v) (nodes u) (nodes u') /\ wfBut x u'.
Proof.
  intros Hw Hx Hb.
  assert (exists u', setValue u b v = Done u' /\ next u' = next u /\
    revalues (newValue (nodes u) b v) (nodes u) (nodes u')) as (u' & E & N & R).
  2: { exists u'. split_and!; try done. eapply wf_revalues; [done|exact R|done|]. by eapply newValue_single. }
  unfold setValue. cbn [setValueFuel]. rewrite (getButton_some _ _ _ _ Hb). cbn [obind].
  case_bool_decide as Hv.
  - pose proof (revalues_update u b p d (setChecked v d) Hb (or_introl eq_refl)) as R0.
    set (u0 := update u b (Button (setChecked v d))) in *. destruct v.
    + assert (Hb0 : nodes u0 !! b = Some (Node p (Button (setChecked true d)))).
      { simpl. by rewrite lookup_alter_eq, Hb. }
      destruct (check_others x u0 b p _ (links_revalues _ _ _ u0 (wf_links _ _ Hw) R0 eq_refl) Hx Hb0) as (u1 & E1 & N1 & R1).
      cbn [setValueFuel] in E1. rewrite E1. cbn [obind]. eexists. split; [done|]. split; [by destruct (notify d)|].
      assert (R2 : revalues (newValue (nodes u) b true) (nodes u) (nodes u1)); [|by destruct (notify d)].
      eapply revalues_ext; [|exact (revalues_trans _ _ _ _ _ R0 R1)]. intros a q e Ha. simpl.
      unfold newValue. rewrite !(sameTree_group _ _ _ (revalues_tree _ _ _ R0)).
      destruct (decide (a = b)) as [->|]; [by rewrite bool_decide_true by done|]. done.
    + cbn [obind]. eexists. split; [done|]. split; [by destruct (notify d)|].
      assert (R2 : revalues (newValue (nodes u) b false) (nodes u) (nodes u0)); [|by destruct (notify d)].
      eapply revalues_ext; [|exact R0]. intros a q e Ha. simpl. unfold newValue. simpl.
      by destruct (decide (a = b)); [rewrite bool_decide_true|rewrite bool_decide_false].
  - exists u. split; [done|]. split; [done|]. eapply revalues_ext; [|apply revalues_refl].
    intros a q e Ha. unfold newValue. simpl. case_bool_decide as Hab; [subst; rewrite Hb in Ha; by simplify_eq|].
    destruct v; [|done]. simpl. repeat case_bool_decide; try done. simpl.
    destruct (checked e) eqn:Hce; [|done]. exfalso. apply Hab. destruct (groupOf (nodes u) b) as [g|] eqn:Hg; [|done].
    apply (wf_single _ _ Hw g a b q p e d); try done.
Qed.

(** ** Creation and destruction *)

(** A fresh widget changes the group of nobody else. *)
Lemma groupOf_fresh h (a : nat) n b : treeOk h -> h !! a = None -> b <> a ->
  groupOf (<[a := n]> h) b = groupOf h b.
Proof.
  intros Ht Ha Hb. unfold groupOf. rewrite lookup_insert_ne by done. destruct (h !! b) as [m|] eqn:Hm; [|done].
  erewrite (findLoop_agree h (<[a := n]> h) (fun x => x <> a)); [done| | |].
  - intros x Hx. by rewrite lookup_insert_ne.
  - intros x k p _ Hk Hp ->. destruct (Ht _ _ _ Hk Hp) as (_ & k' & Hk' & _). congruence.
  - intros x Hx ->. destruct (Ht _ _ _ Hm Hx) as (_ & k' & Hk' & _). congruence.
Qed.

Definition canHost (u : ui) (par : option nat) : Prop :=
  match par with Some p => exists m, nodes u !! p = Some m /\ isButton m = false | None => True end.

Lemma newNode_links u par k : links None u -> canHost u par ->
  match k with Container => True | Group e => buttonList e = [] | Button d => radioButtonGroup d = None end ->
  links (Some (next u)) (fst (newNode u par k)).
Proof.
  intros [Ht Hn Hc Hl Hm] Hp Hk. simpl.
  assert (Hf : nodes u !! next u = None).
  { destruct (nodes u !! next u) eqn:E; [|done]. pose proof (Hn (next u) ltac:(eauto)). lia. }
  assert (Hg : forall b, b <> next u -> groupOf (<[next u := Node par k]> (nodes u)) b = groupOf (nodes u) b)
    by (intros; by apply groupOf_fresh).
  constructor; simpl.
  - intros a n p Ha Hpa. destruct (decide (a = next u)) as [->|Hne].
    + rewrite lookup_insert_eq in Ha. injection Ha as <-. simpl in Hpa. rewrite Hpa in Hp. destruct Hp as (m & Hm' & Hb).
      pose proof (Hn p ltac:(eauto)). split; [done|]. rewrite lookup_insert_ne by lia. eauto.
    + rewrite lookup_insert_ne in Ha by done. destruct (Ht a n p Ha Hpa) as (Hlt & m & Hm' & Hb). split; [done|].
      rewrite lookup_insert_ne by congruence. eauto.
  - intros a. destruct (decide (a = next u)) as [->|]; [lia|]. rewrite lookup_insert_ne by done. intros H. specialize (Hn a H). lia.
  - intros b p d g Hb Hd. destruct (decide (b = next u)) as [->|].
    + rewrite lookup_insert_eq in Hb. by simplify_eq/=.
    + rewrite lookup_insert_ne in Hb by done. rewrite Hg by done. by apply (Hc b p d).
  - intros b p d g Hx Hb Hgb. assert (b <> next u) by congruence. rewrite lookup_insert_ne in Hb by done.
    rewrite Hg in Hgb by done. destruct (Hl b p d g ltac:(done) Hb Hgb) as (? & q & e & He & ?). split; [done|].
    exists q, e. rewrite lookup_insert_ne by congruence. done.
  - intros g q e b He Hin. destruct (decide (g = next u)) as [->|].
    + rewrite lookup_insert_eq in He. simplify_eq/=. rewrite Hk in Hin. by apply elem_of_nil in Hin.
    + rewrite lookup_insert_ne in He by done. destruct (Hm g q e b He Hin) as (Hgb & p & d & Hb).
      assert (b <> next u) by congruence. rewrite Hg, lookup_insert_ne by done. eauto.
Qed.

Lemma newNode_wf u par k : wf u -> canHost u par ->
  match k with Container => True | Group e => buttonList e = [] | Button d => radioButtonGroup d = None /\ checked d = false end ->
  wfBut (Some (next u)) (fst (newNode u par k)).
Proof.
  intros [Hl Hs] Hp Hk. assert (Hf : nodes u !! next u = None).
  { destruct (nodes u !! next u) eqn:E; [|done]. pose proof (wf_next _ _ Hl (next u) ltac:(eauto)). lia. }
  split; [apply newNode_links; [done|done|]; destruct k; naive_solver|]. simpl.
  intros g a b p q c d Ha Hb Hga Hgb Hca Hcb.
  destruct (decide (a = next u)) as [->|Hna]; [rewrite lookup_insert_eq in Ha; simplify_eq/=; destruct Hk; congruence|].
  destruct (decide (b = next u)) as [->|Hnb]; [rewrite lookup_insert_eq in Hb; simplify_eq/=; destruct Hk; congruence|].
  rewrite lookup_insert_ne in Ha, Hb by done. rewrite groupOf_fresh in Hga, Hgb by (done || apply Hl).
  by apply (Hs g a b p q c d).
Qed.

(** What is not a button need not be in a list. *)
Lemma links_other x u : links (Some x) u -> (forall n, nodes u !! x = Some n -> isButton n = false) -> links None u.
Proof.
  intros [Ht Hn Hc Hl Hm] Hx. constructor; try done. intros b p d g _ Hb. apply (Hl b p d g); [|done].
  intros [= ->]. specialize (Hx _ Hb). done.
Qed.

Lemma addRadioButton_wf u b g p d q e : wfBut (Some b) u -> nodes u !! b = Some (Node p (Button d)) ->
  groupOf (nodes u) b = Some g -> radioButtonGroup d = Some g -> nodes u !! g = Some (Node q (Group e)) ->
  exists u', addRadioButton u g b = Done u' /\ wf u' /\ next u' = next u /\
    forall a, a <> g -> nodes u' !! a = nodes u !! a.
Proof.
  intros [[Ht Hn Hc Hl Hm] Hs] Hb Hgb Hd He. unfold addRadioButton. rewrite (getGroup_some _ _ _ _ He). cbn [obind].
  eexists. split; [done|]. set (h' := alter (setKind (Group (withButtons e (buttonList e ++ [b])))) g (nodes u)).
  assert (Hg' : h' !! g = Some (Node q (Group (withButtons e (buttonList e ++ [b]))))) by (unfold h'; by rewrite lookup_alter_eq, He).
  assert (Hne : forall a, a <> g -> h' !! a = nodes u !! a) by (intros; unfold h'; by rewrite lookup_alter_ne).
  assert (Hst : sameTree (nodes u) h').
  { intros a. destruct (decide (a = g)) as [->|]; [by rewrite He, Hg'|by rewrite Hne]. }
  assert (Hgr : forall a, groupOf h' a = groupOf (nodes u) a) by (intros; by apply sameTree_group).
  assert (Hbut : forall a p d, h' !! a = Some (Node p (Button d)) -> nodes u !! a = Some (Node p (Button d))).
  { intros a p' d' Ha. destruct (decide (a = g)) as [->|]; [congruence|by rewrite <- Hne]. }
  assert (Hbut' : forall a p d, nodes u !! a = Some (Node p (Button d)) -> h' !! a = Some (Node p (Button d))).
  { intros a p' d' Ha. rewrite Hne; congruence. }
  split; [|done]. split; [constructor|]; simpl; fold h'.
  - intros a n r Ha Hr. destruct (sameTree_lookup _ _ _ _ Hst Ha) as (m & Hma & Hpm & _).
    destruct (Ht a m r Hma ltac:(congruence)) as (Hlt & k & Hk & Hbk). split; [done|].
    destruct (decide (r = g)) as [->|]; [rewrite Hg'; eauto|rewrite Hne by done; eauto].
  - intros a [n Ha]. destruct (sameTree_lookup _ _ _ _ Hst Ha) as (m & Hma & _). apply Hn. eauto.
  - intros a p' d' g' Ha. rewrite Hgr. by apply (Hc a p' d'), Hbut.
  - intros a p' d' g' _ Ha Hga. rewrite Hgr in Hga. apply Hbut in Ha.
    destruct (decide (a = b)) as [->|Hab].
    + assert (g' = g) as -> by congruence. split; [congruence|]. eexists _, _. split; [exact Hg'|]. simpl. set_solver.
    + destruct (Hl a p' d' g' ltac:(congruence) Ha Hga) as (? & q' & e' & He' & Hin). split; [done|].
      destruct (decide (g' = g)) as [->|]; [|exists q', e'; by rewrite Hne].
      eexists _, _. split; [exact Hg'|]. simpl. simplify_eq. set_solver.
  - intros g' q' e' a Hg1 Hin. rewrite Hgr. destruct (decide (g' = g)) as [->|Hgg].
    + rewrite Hg' in Hg1. simplify_eq/=. apply elem_of_app in Hin as [Hin|Hin%list_elem_of_singleton].
      * destruct (Hm g q' e a He Hin) as (? & p' & d' & ?). eauto.
      * subst. eauto.
    + rewrite Hne in Hg1 by done. destruct (Hm g' q' e' a Hg1 Hin) as (? & p' & d' & ?). eauto.
  - intros g' a a' p' q' c' d' Ha Ha'. rewrite !Hgr. by apply (Hs g' a a' p' q' c' d'); apply Hbut.
Qed.

Lemma createRadioButton_wf u par check : wf u -> canHost u par ->
  exists u' b p d, createRadioButton u par check = Done (u', b) /\ wf u' /\ b = next u /\
    nodes u' !! b = Some (Node p (Button d)) /\ checked d = check.
Proof.
  intros Hw Hp. unfold createRadioButton, newButton.
  pose proof (newNode_wf u par (Button (ButtonData false None false true)) Hw Hp (conj eq_refl eq_refl)) as H1.
  simpl in H1. unfold newNode. set (u1 := UI _ _ _) in *.
  assert (Hb : nodes u1 !! next u = Some (Node par (Button (ButtonData false None false true)))) by apply lookup_insert_eq.
  destruct (setValue_ok _ u1 (next u) check _ _ H1 ltac:(by right) Hb) as (u2 & -> & N2 & R2 & H2). cbn [obind].
  destruct (revalues_button _ _ _ _ _ _ R2 Hb) as (d2 & Hd2 & Hv2 & _).
  unfold newValue in Hv2. rewrite bool_decide_true in Hv2 by done.
  destruct (buttonGroup_ok u2 (next u) _ d2 (wf_tree _ _ (wf_links _ _ H2)) Hd2) as (u3 & -> & N3 & R3 & d3 & Hd3 & Hg3).
  { intros g. apply (wf_cache _ _ (wf_links _ _ H2) _ _ _ _ Hd2). }
  destruct (revalues_button _ _ _ _ _ _ R3 Hd2) as (d3' & Hd3' & Hv3 & _). simplify_eq.
  assert (H3 : wfBut (Some (next u)) u3) by (eapply wf_revalues; [exact H2|exact R3|done|apply H2]).
  cbn [obind fst snd]. pose proof (sameTree_group _ _ (next u) (revalues_tree _ _ _ R3)) as Hg. rewrite <- Hg in *.
  destruct (groupOf (nodes u3) (next u)) as [g|] eqn:Hg0.
  - unfold buttonGroup. rewrite (getButton_some _ _ _ _ Hd3). cbn [obind]. rewrite Hg3. cbn [obind fst snd].
    destruct (groupOf_group _ _ _ (wf_tree _ _ (wf_links _ _ H3)) Hg0) as (q & e & He).
    destruct (addRadioButton_wf u3 (next u) g _ _ q e H3 Hd3 Hg0 Hg3 He) as (u4 & -> & H4 & N4 & Hsame). cbn [obind].
    eexists _, _, _, _. split; [done|]. split; [done|]. split; [done|].
    split; [rewrite Hsame; [exact Hd3|congruence]|done].
  - eexists _, _, _, _. split; [done|]. split; [|by eauto].
    destruct H3 as [Hl Hs]. split; [|done]. destruct Hl as [Ht Hn Hc Hl Hm]. constructor; try done.
    intros b p d g _ Hbb Hgb. apply (Hl b p d g); try done. intros [= ->]. congruence.
Qed.

(** A button has no children, so nobody loses its group with it. *)
Lemma groupOf_delete h (b : nat) n a : treeOk h -> h !! b = Some n -> isButton n = true -> a <> b ->
  groupOf (delete b h) a = groupOf h a.
Proof.
  intros Ht Hb Hn Ha. unfold groupOf. rewrite lookup_delete_ne by done. destruct (h !! a) as [m|] eqn:Hm; [|done].
  assert (Hpar : forall x k p, h !! x = Some k -> parent k = Some p -> p <> b).
  { intros x k p Hk Hp ->. destruct (Ht _ _ _ Hk Hp) as (_ & k' & Hk' & Hbut). congruence. }
  erewrite (findLoop_agree h (delete b h) (fun x => x <> b)); [done| | |].
  - intros x Hx. by rewrite lookup_delete_ne.
  - intros x k p _. by apply Hpar.
  - intros x. by apply (Hpar a m).
Qed.

(** A group without the button that goes. *)
Definition dropFrom (b : nat) (n : node) : node :=
  match what n with
  | Group e => Node (parent n) (Group (withButtons e (filter (fun x => x <> b) (buttonList e))))
  | _ => n
  end.

Lemma removed_wf u u' b p d : wf u -> nodes u !! b = Some (Node p (Button d)) -> next u' = next u ->
  (forall a, a <> b -> nodes u' !! a = nodes u !! a \/ nodes u' !! a = dropFrom b <$> nodes u !! a) ->
  nodes u' !! b = None ->
  (forall g q e, nodes u' !! g = Some (Node q (Group e)) -> b ∉ buttonList e) -> wf u'.
Proof.
  intros [[Ht Hn Hc Hl Hm] Hs] Hb Hnext Hother Hgone Hnot.
  assert (Hsk : forall a, a <> b -> skeleton <$> nodes u' !! a = skeleton <$> nodes u !! a).
  { intros a Ha. destruct (Hother a Ha) as [-> | ->]; [done|]. destruct (nodes u !! a) as [[q [| |]]|]; done. }
  assert (Hg : forall a, a <> b -> groupOf (nodes u') a = groupOf (nodes u) a).
  { intros a Ha. rewrite <- (groupOf_delete _ b _ a Ht Hb) by done. apply sameTree_group. intros x.
    destruct (decide (x = b)) as [->|Hx]; [by rewrite lookup_delete_eq, Hgone|]. by rewrite lookup_delete_ne, Hsk. }
  assert (Hbut : forall a p d, nodes u' !! a = Some (Node p (Button d)) -> a <> b /\ nodes u !! a = Some (Node p (Button d))).
  { intros a p' d' Ha. assert (a <> b) by congruence. split; [done|]. destruct (Hother a) as [E|E]; [done|congruence|].
    rewrite E in Ha. unfold dropFrom in Ha. destruct (nodes u !! a) as [[q [| |]]|]; simpl in Ha; congruence. }
  assert (Hgrp : forall g q e, nodes u !! g = Some (Node q (Group e)) -> exists e', nodes u' !! g = Some (Node q (Group e')) /\
    forall x, x <> b -> x ∈ buttonList e' <-> x ∈ buttonList e).
  { intros g q e He. destruct (Hother g) as [E|E]; [congruence|rewrite E, He; by eauto|]. rewrite E, He. simpl.
    eexists. split; [done|]. intros x Hx. simpl. rewrite list_elem_of_filter. naive_solver. }
  assert (Hgrp' : forall g q e', nodes u' !! g = Some (Node q (Group e')) -> exists e, nodes u !! g = Some (Node q (Group e)) /\
    forall x, x ∈ buttonList e' -> x ∈ buttonList e).
  { intros g q e' He. destruct (Hother g) as [E|E]; [congruence|rewrite <- E, He; by eauto|]. rewrite E in He.
    unfold dropFrom in He. destruct (nodes u !! g) as [[q' [|e|]]|]; simpl in He; simplify_eq.
    eexists. split; [done|]. intros x. simpl. rewrite list_elem_of_filter. naive_solver. }
  split; [constructor|].
  - intros a n r Ha Hr. assert (a <> b) by congruence. pose proof (Hsk a ltac:(done)) as Hska. rewrite Ha in Hska.
    destruct (nodes u !! a) as [m|] eqn:Hma; [|done]. injection Hska as Hpm _.
    destruct (Ht a m r Hma ltac:(congruence)) as (Hlt & k & Hk & Hbk). split; [done|].
    assert (r <> b) by (intros ->; rewrite Hb in Hk; by simplify_eq). destruct (Hother r) as [-> | ->]; [done|by eauto|]. rewrite Hk. simpl.
    eexists. split; [done|]. by destruct k as [? [| |]].
  - intros a [n Ha]. rewrite Hnext. apply Hn. assert (a <> b) by congruence.
    pose proof (Hsk a ltac:(done)) as Hska. rewrite Ha in Hska. by destruct (nodes u !! a).
  - intros a p' d' g [Hab Ha]%Hbut. rewrite Hg by done. by apply (Hc a p' d').
  - intros a p' d' g _ [Hab Ha]%Hbut Hga. rewrite Hg in Hga by done.
    destruct (Hl a p' d' g ltac:(done) Ha Hga) as (? & q & e & He & Hin). split; [done|].
    destruct (Hgrp g q e He) as (e' & He' & Hin'). exists q, e'. by rewrite Hin'.
  - intros g q e a He Hin. destruct (Hgrp' g q e He) as (e0 & He0 & Hin0).
    assert (a <> b) by (intros ->; by apply (Hnot g q e He)). rewrite Hg by done.
    destruct (Hm g q e0 a He0 (Hin0 a Hin)) as (? & p' & d' & Ha). split; [done|]. exists p', d'.
    destruct (Hother a) as [-> | ->]; [done|done|]. by rewrite Ha.
  - intros g a a' p' q' c' d' [Hab Ha]%Hbut [Hab' Ha']%Hbut. rewrite !Hg by done. by apply (Hs g a a' p' q' c' d').
Qed.

Lemma deleteButton_wf u b p d : wf u -> nodes u !! b = Some (Node p (Button d)) ->
  exists u', deleteButton u b = Done u' /\ wf u' /\ nodes u' !! b = None.
Proof.
  intros Hw Hb. pose proof Hw as [[Ht Hn Hc Hl Hm] Hs]. unfold deleteButton. rewrite (getButton_some _ _ _ _ Hb). cbn [obind].
  destruct (radioButtonGroup d) as [g|] eqn:Hd.
  - pose proof (Hc b p d g Hb Hd) as Hg. destruct (groupOf_group _ _ _ Ht Hg) as (q & e & He).
    unfold removeRadioButton. rewrite (getGroup_some _ _ _ _ He). cbn [obind]. eexists. split; [done|].
    assert (b <> g) by congruence. simpl. rewrite lookup_delete_eq. split; [|done].
    eapply (removed_wf u _ b p d Hw Hb); simpl; [done| |apply lookup_delete_eq|].
    + intros a Ha. rewrite lookup_delete_ne by done. destruct (decide (a = g)) as [->|].
      * right. by rewrite lookup_alter_eq, He.
      * left. by rewrite lookup_alter_ne.
    + intros g' q' e' Hg'. rewrite lookup_delete_Some in Hg'. destruct Hg' as [Hbg Hg'].
      destruct (decide (g' = g)) as [->|].
      * rewrite lookup_alter_eq, He in Hg'. injection Hg' as _ <-. simpl. rewrite list_elem_of_filter. naive_solver.
      * rewrite lookup_alter_ne in Hg' by done. intros Hin. destruct (Hm g' q' e' b Hg' Hin) as [? _]. congruence.
  - eexists. split; [done|]. simpl. rewrite lookup_delete_eq. split; [|done].
    eapply (removed_wf u _ b p d Hw Hb); simpl; [done| |apply lookup_delete_eq|].
    + intros a Ha. left. by rewrite lookup_delete_ne.
    + intros g q e Hg Hin. rewrite lookup_delete_Some in Hg. destruct Hg as [_ Hg].
      destruct (Hm g q e b Hg Hin) as [Hgb _]. destruct (Hl b p d g ltac:(done) Hb Hgb). congruence.
Qed.

(** ** The other operations *)

Lemma wf_unvalued x u u' : wfBut x u -> revalues (fun _ v => v) (nodes u) (nodes u') -> next u' = next u -> wfBut x u'.
Proof. intros Hw Hr Hn. eapply wf_revalues; [done|exact Hr|done|apply Hw]. Qed.

Lemma revalues_same u b p d d' : nodes u !! b = Some (Node p (Button d)) ->
  radioButtonGroup d' = radioButtonGroup d -> checked d' = checked d ->
  revalues (fun _ v => v) (nodes u) (nodes (update u b (Button d'))).
Proof.
  intros Hb Hg Hc. eapply revalues_ext; [|apply (revalues_update u b p d d' Hb); by left].
  intros a q e Ha. simpl. destruct (decide (a = b)) as [->|]; [|done]. rewrite Hb in Ha. by simplify_eq.
Qed.

Lemma revalues_group_update u g p e e' : nodes u !! g = Some (Node p (Group e)) -> buttonList e' = buttonList e ->
  revalues (fun _ v => v) (nodes u) (nodes (update u g (Group e'))).
Proof.
  intros He Hl a. simpl. destruct (decide (a = g)) as [->|].
  - rewrite lookup_alter_eq, He. simpl. by repeat split.
  - rewrite lookup_alter_ne by done. apply revalues_refl.
Qed.

Lemma moveFocus_wf u b p d move : wf u -> nodes u !! b = Some (Node p (Button d)) ->
  (forall e, buttonList (fst (move e)) = buttonList e) ->
  exists r, moveFocus u b move = Done r /\ wf (after r).
Proof.
  intros Hw Hb Hmove. pose proof (wf_tree _ _ (wf_links _ _ Hw)) as Ht. unfold moveFocus.
  destruct (buttonGroup_ok u b p d Ht Hb) as (u1 & -> & N1 & R1 & _).
  { intros g. apply (wf_cache _ _ (wf_links _ _ Hw) _ _ _ _ Hb). }
  pose proof (wf_unvalued _ _ _ Hw R1 N1) as H1. cbn [obind fst snd].
  destruct (groupOf (nodes u) b) as [g|] eqn:Hg; [|by eexists].
  destruct (groupOf_group _ _ _ Ht Hg) as (q & e & He). destruct (revalues_group _ _ _ _ _ _ R1 He) as (e1 & He1 & Hl).
  rewrite (getGroup_some _ _ _ _ He1). cbn [obind]. eexists. split; [done|]. simpl.
  apply (wf_unvalued _ u1); [done|by apply (revalues_group_update u1 g q e1)|done].
Qed.

Lemma wHandleInput_wf u b p d k : wf u -> nodes u !! b = Some (Node p (Button d)) ->
  exists r, wHandleInput u b k = Done r /\ wf (after r).
Proof.
  intros Hw Hb. unfold wHandleInput. rewrite (getButton_some _ _ _ _ Hb). cbn [obind].
  destruct (setValue_ok None u b true p d Hw ltac:(by left) Hb) as (u' & E & _ & R & Hw').
  destruct (revalues_button _ _ _ _ _ _ R Hb) as (d' & Hd' & _).
  destruct k; rewrite ?E; cbn [obind]; rewrite ?(getButton_some _ _ _ _ Hd'); cbn [obind];
    try (eexists; split; [done|]; done); by eapply moveFocus_wf.
Qed.

Lemma setEnabled_wf u g p e v : wf u -> nodes u !! g = Some (Node p (Group e)) ->
  exists u', setEnabled u g v = Done u' /\ wf u'.
Proof.
  intros Hw He. unfold setEnabled. rewrite (getGroup_some _ _ _ _ He). cbn [obind].
  assert (forall l u, (forall b, b ∈ l -> exists p d, nodes u !! b = Some (Node p (Button d))) ->
    exists u', ofold (fun u it => let! b := getButton u it in Done (update u it (Button (setButtonEnabled v b)))) l u = Done u' /\
      next u' = next u /\ revalues (fun _ w => w) (nodes u) (nodes u')) as Hloop.
  { induction l as [|it l IH]; intros u0 Hl; [exists u0; split_and!; try done; apply revalues_refl|].
    destruct (Hl it ltac:(constructor)) as (q & d & Hit). cbn [ofold]. rewrite (getButton_some _ _ _ _ Hit). cbn [obind].
    pose proof (revalues_same u0 it q d (setButtonEnabled v d) Hit eq_refl eq_refl) as R1.
    destruct (IH (update u0 it (Button (setButtonEnabled v d)))) as (u2 & -> & N2 & R2).
    { intros b Hb. destruct (Hl b ltac:(by constructor)) as (q' & d' & Hq').
      destruct (revalues_button _ _ _ _ _ _ R1 Hq') as (d2 & Hd2 & _). eauto. }
    exists u2. split; [done|]. split; [done|]. exact (revalues_trans _ _ _ _ _ R1 R2). }
  destruct (Hloop (buttonList e) u) as (u1 & -> & N1 & R1).
  { intros b Hb. apply (wf_members _ _ (wf_links _ _ Hw) g p e b He Hb). }
  cbn [obind]. destruct (revalues_group _ _ _ _ _ _ R1 He) as (e1 & He1 & Hl). rewrite (getGroup_some _ _ _ _ He1). cbn [obind].
  eexists. split; [done|]. apply (wf_unvalued _ u1); [by apply (wf_unvalued _ u)|by apply (revalues_group_update u1 g p e1)|done].
Qed.

(** What a program does with the radio buttons of its dialogs. *)
Inductive step : ui -> ui -> Prop :=
| StepContainer u par : canHost u par -> step u (fst (newNode u par Container))
| StepGroup u par : canHost u par -> step u (fst (createRadioButtonGroup u par))
| StepButton u par check ub : canHost u par -> createRadioButton u par check = Done ub -> step u (fst ub)
| StepValue u b v u' : setValue u b v = Done u' -> step u u'
| StepInput u b k r : wHandleInput u b k = Done r -> step u (after r)
| StepNotify u b v u' : setNotify u b v = Done u' -> step u u'
| StepEnabled u g v u' : setEnabled u g v = Done u' -> step u u'
| StepDelete u b u' : deleteButton u b = Done u' -> step u u'.

Lemma getButton_done u b d : getButton u b = Done d -> exists p, nodes u !! b = Some (Node p (Button d)).
Proof. unfold getButton. destruct (nodes u !! b) as [[p [| |]]|]; intros; simplify_eq. eauto. Qed.

Lemma newNode_plain u par k : wf u -> canHost u par ->
  match k with Container => True | Group e => buttonList e = [] | Button d => False end ->
  wf (fst (newNode u par k)).
Proof.
  intros Hw Hp Hk. assert (Hw' : wfBut (Some (next u)) (fst (newNode u par k))) by (apply newNode_wf; [done|done|by destruct k]).
  split; [|apply Hw']. apply (links_other (next u)); [apply Hw'|]. simpl. intros n. rewrite lookup_insert_eq. intros [= <-].
  by destruct k.
Qed.

Lemma radio_step_wf u u' : wf u -> step u u' -> wf u'.
Proof.
  intros Hw Hs. destruct Hs as [u par Hp|u par Hp|u par check ub Hp E|u b v u' E|u b k r E|u b v u' E|u g v u' E|u b u' E].
  - by apply newNode_plain.
  - by apply newNode_plain.
  - destruct (createRadioButton_wf u par check Hw Hp) as (u1 & b & p & d & E1 & Hw1 & _). rewrite E1 in E. by simplify_eq.
  - unfold setValue in E. cbn [setValueFuel] in E. destruct (getButton u b) as [d| | |] eqn:Hd; simplify_eq/=.
    destruct (getButton_done _ _ _ Hd) as [p Hb]. destruct (setValue_ok None u b v p d Hw ltac:(by left) Hb) as (u1 & E1 & _ & _ & Hw1).
    unfold setValue in E1. cbn [setValueFuel] in E1. rewrite Hd in E1. cbn [obind] in E1. congruence.
  - assert (exists d, getButton u b = Done d) as [d Hd] by (unfold wHandleInput in E; destruct (getButton u b); simplify_eq/=; eauto).
    destruct (getButton_done _ _ _ Hd) as [p Hb]. destruct (wHandleInput_wf u b p d k Hw Hb) as (r1 & E1 & Hw1). congruence.
  - unfold setNotify in E. destruct (getButton u b) as [d| | |] eqn:Hd; simplify_eq/=. destruct (getButton_done _ _ _ Hd) as [p Hb].
    eapply wf_unvalued; [exact Hw|by eapply revalues_same|done].
  - unfold setEnabled in E. destruct (getGroup u g) as [e| | |] eqn:He; try done. unfold getGroup in He.
    destruct (nodes u !! g) as [[p [|e'|]]|] eqn:Hg; simplify_eq. destruct (setEnabled_wf u g p e v Hw Hg) as (u1 & E1 & Hw1).
    unfold setEnabled in E1. rewrite (getGroup_some _ _ _ _ Hg) in E1. congruence.
  - assert (exists d, getButton u b = Done d) as [d Hd] by (unfold deleteButton in E; destruct (getButton u b); simplify_eq/=; eauto).
    destruct (getButton_done _ _ _ Hd) as [p Hb]. destruct (deleteButton_wf u b p d Hw Hb) as (u1 & E1 & Hw1 & _). congruence.
Qed.

Lemma emptyUI_wf : wf emptyUI.
Proof. split; [constructor|]; try (unfold treeOk); simpl; intros *; rewrite lookup_empty; try done; by intros []. Qed.

Lemma radio_reachable_wf u : rtc step emptyUI u -> wf u.
Proof. assert (forall u0, wf u0 -> rtc step u0 u -> wf u) as H by (induction 2; eauto using radio_step_wf). apply H, emptyUI_wf. Qed.

Lemma firstChecked_spec u l : (forall b, b ∈ l -> exists p d, nodes u !! b = Some (Node p (Button d))) ->
  exists r, firstChecked u l = Done r /\
    match r with
    | Some b => b ∈ l /\ exists p d, nodes u !! b = Some (Node p (Button d)) /\ checked d = true
    | None => forall b p d, b ∈ l -> nodes u !! b = Some (Node p (Button d)) -> checked d = false
    end.
Proof.
  induction l as [|it l IH]; intros Hl; [exists None; split; [done|]; by intros ? ? ? []%elem_of_nil|].
  destruct (Hl it ltac:(constructor)) as (p & d & Hit). cbn [firstChecked]. rewrite (getButton_some _ _ _ _ Hit). cbn [obind].
  destruct (checked d) eqn:Hd; [exists (Some it); split; [done|]; split; [constructor|by eauto]|].
  destruct IH as (r & -> & Hr); [intros b Hb; apply Hl; by constructor|]. exists r. split; [done|].
  destruct r as [b|]; [destruct Hr; split; [by constructor|done]|].
  intros b q e [->|Hb]%elem_of_cons Hbe; [congruence|by eapply Hr].
Qed.

(** C10: At any time at most one button of a group is checked, whatever the program
    and the user did: the group's current button is that button, and there is
    none exactly if no button whose nearest group this is is checked. *)
Theorem radio_single u g q e : rtc step emptyUI u -> nodes u !! g = Some (Node q (Group e)) ->
  exists r, currentButton u g = Done r /\
    forall b, r = Some b <-> exists p d, nodes u !! b = Some (Node p (Button d)) /\
      findRadioButtonGroup u b = Done (Some g) /\ checked d = true.
Proof.
  intros Hu Hg. pose proof (radio_reachable_wf u Hu) as [Hl Hs]. unfold currentButton. rewrite (getGroup_some _ _ _ _ Hg). cbn [obind].
  destruct (firstChecked_spec u (buttonList e)) as (r & -> & Hr).
  { intros b Hb. apply (wf_members _ _ Hl g q e b Hg Hb). }
  exists r. split; [done|]. intros b. split.
  - intros ->. destruct Hr as (Hin & p & d & Hb & Hd). exists p, d. split; [done|]. split; [|done].
    rewrite find_group; [|apply Hl|by eauto]. f_equal. apply (wf_members _ _ Hl g q e b Hg Hin).
  - intros (p & d & Hb & Hf & Hd). rewrite find_group in Hf; [|apply Hl|by eauto]. injection Hf as Hf.
    destruct (wf_listed _ _ Hl b p d g ltac:(done) Hb Hf) as (_ & q' & e' & He' & Hin). simplify_eq.
    destruct r as [c|]; [|by rewrite (Hr b p d Hin Hb) in Hd].
    destruct Hr as (Hinc & p' & d' & Hc & Hd'). f_equal.
    apply (Hs g c b p' p d' d); try done. by eapply (wf_members _ _ Hl g).
Qed.

(** Setting the value of a button never fails, sets it, unchecks the other
    buttons of its group if it was set to on, and changes no other button. *)
Theorem radio_set_value u b p d v : rtc step emptyUI u -> nodes u !! b = Some (Node p (Button d)) ->
  exists u', setValue u b v = Done u' /\
    forall a q c, nodes u !! a = Some (Node q (Button c)) ->
      findRadioButtonGroup u a = Done (groupOf (nodes u) a) /\
      exists c', nodes u' !! a = Some (Node q (Button c')) /\
        checked c' = (if bool_decide (a = b) then v
                      else if v && bool_decide (groupOf (nodes u) a = groupOf (nodes u) b)
                                && bool_decide (groupOf (nodes u) b <> None) then false
                      else checked c).
Proof.
  intros Hu Hb. pose proof (radio_reachable_wf u Hu) as Hw.
  destruct (setValue_ok None u b v p d Hw ltac:(by left) Hb) as (u' & -> & _ & R & _). exists u'. split; [done|].
  intros a q c Ha. destruct (revalues_button _ _ _ _ _ _ R Ha) as (c' & Hc' & Hv & _).
  split; [apply find_group; [apply Hw|by eauto]|]. by exists c'.
Qed.

(** Sample: a group with two buttons, the second one created checked. *)
Definition doneOr {A : Type} (a : A) (m : outcome A) : A := match m with Done x => x | _ => a end.
Definition sample1 : ui := fst (createRadioButtonGroup emptyUI None).
Definition sample2 : ui := fst (doneOr (sample1, 0) (createRadioButton sample1 (Some 0) true)).
Definition sample : ui := fst (doneOr (sample2, 0) (createRadioButton sample2 (Some 0) true)).

Lemma radio_sample_reachable : rtc step emptyUI sample.
Proof.
  apply (rtc_l _ _ sample1); [by apply (StepGroup emptyUI None)|].
  apply (rtc_l _ _ sample2).
  { apply (StepButton sample1 (Some 0) true (sample2, 1)); [|vm_compute; reflexivity]. simpl. eexists. by split. }
  apply rtc_once. apply (StepButton sample2 (Some 0) true (sample, 2)); [|vm_compute; reflexivity]. simpl. eexists. by split.
Qed.

Lemma radio_single_witness :
  currentButton sample 0 = Done (Some 2) /\
  exists r, currentButton sample 0 = Done r /\
    forall b, r = Some b <-> exists p d, nodes sample !! b = Some (Node p (Button d)) /\
      findRadioButtonGroup sample b = Done (Some 0) /\ checked d = true.
Proof.
  split; [vm_compute; reflexivity|].
  eapply (radio_single sample 0 None); [exact radio_sample_reachable|vm_compute; reflexivity].
Defined.

Lemma radio_set_value_witness :
  exists u', setValue sample 1 true = Done u' /\
    forall a q c, nodes sample !! a = Some (Node q (Button c)) ->
      findRadioButtonGroup sample a = Done (groupOf (nodes sample) a) /\
      exists c', nodes u' !! a = Some (Node q (Button c')) /\
        checked c' = (if bool_decide (a = 1) then true
                      else if true && bool_decide (groupOf (nodes sample) a = groupOf (nodes sample) 1)
                                && bool_decide (groupOf (nodes sample) 1 <> None) then false
                      else checked c).
Proof.
  eapply (radio_set_value sample 1 (Some 0) _ true); [exact radio_sample_reachable|vm_compute; reflexivity].
Defined.

Lemma focusLoop_none l : forall n i, (i <= n)%Z -> focusLoop n i l = [].
Proof. induction l as [|x l IH]; intros n i Hi; [done|]. simpl. rewrite IH by lia. by destruct (Z.eqb_spec (n + 1) i); [lia|]. Qed.

(** The arrow keys do not wrap around: after the last button the down key moves
    to a position 0 that no button has, so that no button takes the focus, and
    the up key goes from there to the last button but one. *)
Theorem focus_wraps_nowhere d : focusId d = radioButtonsCount d -> buttonList d <> [] ->
  snd (focusNextButton d) = [] /\ focusId (fst (focusNextButton d)) = 0%Z /\
  focusId (fst (focusPrevButton (fst (focusNextButton d)))) = (radioButtonsCount d - 1)%Z.
Proof.
  intros Hf Hl. unfold focusNextButton, focusPrevButton. rewrite Hf, Z.ltb_irrefl, Z.eqb_refl. simpl.
  split; [by apply focusLoop_none|]. done.
Qed.

End YRadioButton.
