(* ===== verification/ValueWidgets.v ===== *)
(** * Widgets that hold a value

    Integer fields (src/libyui/src/YIntField.cc with the text mode class
    src/libyui-ncurses/src/NCIntField.cc), progress bars (YProgressBar.cc,
    YMultiProgressMeter.cc, YDownloadProgress.cc), bar graphs (YBarGraph.cc)
    and log views (YLogView.cc): ranges, display updates, and which lines of a
    log are kept. *)

From Stdlib Require Import Floats.SpecFloat.
From stdpp Require Import pretty.
From S2P Require Import Prelude CNum Shortcut.
Local Open Scope Z_scope.

(** ** Integer fields *)
Module YIntField.

Record field := Field { minValue : Z; maxValue : Z; cvalue : Z }.

Definition enforceRange (f : field) (val : Z) : Z :=
  let val := if val <? minValue f then minValue f else val in
  if val >? maxValue f then maxValue f else val.

Definition setValueInternal (f : field) (newValue : Z) : field := Field (minValue f) (maxValue f) newValue.
Definition setValue (f : field) (val : Z) : field := setValueInternal f (enforceRange f val).

Definition setMinValue (f : field) (val : Z) : field :=
  let f := Field val (maxValue f) (cvalue f) in
  let oldValue := cvalue f in
  let newValue := enforceRange f oldValue in
  if oldValue =? newValue then f else setValue f newValue.

Definition setMaxValue (f : field) (val : Z) : field :=
  let f := Field (minValue f) val (cvalue f) in
  let oldValue := cvalue f in
  let newValue := enforceRange f oldValue in
  if oldValue =? newValue then f else setValue f newValue.

(** The constructor of the text mode field exchanges the limits if they are in
    the wrong order. *)
Definition newIntField (minV maxV initialV : Z) : field :=
  setValue (Field (if minV <=? maxV then minV else maxV) (if maxV >=? minV then maxV else minV) initialV)
    initialV.

(** A difference of two ints. *)
Definition int_sub (a b : Z) : outcome Z :=
  if (INT_MIN <=? a - b) && (a - b <=? INT_MAX) then Done (a - b) else Undefined.
Definition to_unsigned (z : Z) : Z := z mod 2 ^ 32.

Definition Increment (f : field) (bigstep : bool) : outcome (field * bool) :=
  let! d := int_sub (maxValue f) (cvalue f) in
  let dist := to_unsigned d in
  if dist =? 0 then Done (f, false)
  else
    let step := if bigstep then 10 else 1 in
    if step <? dist then Done (setValue f (to_int (to_unsigned (cvalue f + step))), true)
    else Done (setValue f (maxValue f), true).

Definition Decrement (f : field) (bigstep : bool) : outcome (field * bool) :=
  let! d := int_sub (cvalue f) (minValue f) in
  let dist := to_unsigned d in
  if dist =? 0 then Done (f, false)
  else
    let step := if bigstep then 10 else 1 in
    if step <? dist then Done (setValue f (to_int (to_unsigned (cvalue f - step))), true)
    else Done (setValue f (minValue f), true).

(** The popup is posted until it is cancelled (the end of the list) or a value
    in range is entered; [entries] are the numbers that were typed. *)
Fixpoint enterPopup (f : field) (entries : list Z) : field :=
  match entries with
  | [] => f
  | nval :: entries =>
      if nval <? minValue f then enterPopup f entries
      else if maxValue f <? nval then enterPopup f entries
      else setValue f nval
  end.

Inductive key :=
| KEY_UP | KEY_DOWN | KEY_PPAGE | KEY_NPAGE | KEY_HOME | KEY_END
| KEY_DIGIT (entries : list Z) | KEY_HOTKEY | KEY_OTHER.

(** The field, whether there is a beep, and whether the value changed. *)
Definition wHandleInput (f : field) (k : key) : outcome (field * bool * bool) :=
  let! fb :=
    match k with
    | KEY_UP => let! r := Increment f false in Done (fst r, negb (snd r))
    | KEY_DOWN => let! r := Decrement f false in Done (fst r, negb (snd r))
    | KEY_PPAGE => let! r := Increment f true in Done (fst r, negb (snd r))
    | KEY_NPAGE => let! r := Decrement f true in Done (fst r, negb (snd r))
    | KEY_HOME => Done (if cvalue f =? maxValue f then (f, true) else (setValue f (maxValue f), false))
    | KEY_END => Done (if cvalue f =? minValue f then (f, true) else (setValue f (minValue f), false))
    | KEY_DIGIT entries => Done (enterPopup f entries, false)
    | KEY_HOTKEY => Done (f, false)
    | KEY_OTHER => Done (f, true)
    end in
  Done (fst fb, snd fb, negb (cvalue f =? cvalue (fst fb))).

(** What the program and the user do with a field. *)
Inductive op :=
| SetValue (v : Z) | SetMinValue (v : Z) | SetMaxValue (v : Z) | Input (k : key).

Definition apply (f : field) (o : op) : outcome field :=
  match o with
  | SetValue v => Done (setValue f v)
  | SetMinValue v => Done (setMinValue f v)
  | SetMaxValue v => Done (setMaxValue f v)
  | Input k => let! r := wHandleInput f k in Done (fst (fst r))
  end.

(** The value never exceeds the maximum, and is in the range if there is one. *)
Definition inRange (f : field) : Prop :=
  cvalue f <= maxValue f /\ (minValue f <= maxValue f -> minValue f <= cvalue f).

Lemma enforceRange_spec f v : inRange (setValueInternal f (enforceRange f v)).
Proof. unfold inRange, enforceRange. simpl. zcases; lia. Qed.

Lemma setValue_range f v : inRange (setValue f v).
Proof. apply enforceRange_spec. Qed.

Lemma enforceRange_id f v : minValue f <= v <= maxValue f -> enforceRange f v = v.
Proof. intros H. unfold enforceRange. zcases; lia. Qed.

Lemma setMinValue_range f v : inRange (setMinValue f v).
Proof.
  unfold setMinValue. set (g := Field _ _ _). pose proof (enforceRange_spec g (cvalue g)) as H.
  destruct (Z.eqb_spec (cvalue g) (enforceRange g (cvalue g))) as [E|]; [rewrite <- E in H; exact H|apply setValue_range].
Qed.

Lemma setMaxValue_range f v : inRange (setMaxValue f v).
Proof.
  unfold setMaxValue. set (g := Field _ _ _). pose proof (enforceRange_spec g (cvalue g)) as H.
  destruct (Z.eqb_spec (cvalue g) (enforceRange g (cvalue g))) as [E|]; [rewrite <- E in H; exact H|apply setValue_range].
Qed.

Lemma popup_range es : forall f, inRange f -> inRange (enterPopup f es).
Proof.
  induction es as [|e es IH]; intros f Hf; [done|]. simpl. zcases; auto using setValue_range.
Qed.

Lemma Increment_range f b r : inRange f -> Increment f b = Done r -> inRange (fst r).
Proof.
  intros Hf. unfold Increment. destruct (int_sub _ _); simpl; intros E; [|done..].
  destruct (_ =? _); [by simplify_eq|]. destruct (_ <? _); simplify_eq; apply setValue_range.
Qed.
Lemma Decrement_range f b r : inRange f -> Decrement f b = Done r -> inRange (fst r).
Proof.
  intros Hf. unfold Decrement. destruct (int_sub _ _); simpl; intros E; [|done..].
  destruct (_ =? _); [by simplify_eq|]. destruct (_ <? _); simplify_eq; apply setValue_range.
Qed.

Lemma apply_range f o f' : inRange f -> apply f o = Done f' -> inRange f'.
Proof.
  intros Hf Ho. destruct o as [v|v|v|k]; simpl in Ho; simplify_eq;
    auto using setValue_range, setMinValue_range, setMaxValue_range.
  unfold wHandleInput in Ho.
  destruct k as [| | | | | |es| |]; try (destruct (Increment f _) as [r| | |] eqn:E in Ho);
    try (destruct (Decrement f _) as [r| | |] eqn:E in Ho); cbn [obind fst snd] in Ho; simplify_eq; auto using popup_range;
    try (by apply (Increment_range _ _ _ Hf E)); try (by apply (Decrement_range _ _ _ Hf E));
    destruct (_ =? _); simpl; auto using setValue_range.
Qed.

(** Whatever the program and the user do, the value stays within the limits:
    from a field as its constructor makes it, and also after limits were set in
    the wrong order and corrected again. *)
Theorem int_field_range minV maxV initialV os f :
  ofold apply os (newIntField minV maxV initialV) = Done f ->
  cvalue f <= maxValue f /\ (minValue f <= maxValue f -> minValue f <= cvalue f).
Proof.
  assert (forall os g, inRange g -> ofold apply os g = Done f -> inRange f) as H.
  { clear. induction os as [|o os IH]; intros g Hg E; simpl in E; [by simplify_eq|].
    destruct (apply g o) as [g'| | |] eqn:Eo; simpl in E; try done. eauto using apply_range. }
  apply H, setValue_range.
Qed.

Lemma int_field_range_witness :
  exists f, ofold apply [Input KEY_PPAGE; SetMinValue 50; SetMaxValue 60; Input KEY_HOME] (newIntField 20 0 5) = Done f /\
    cvalue f = 60 /\ cvalue f <= maxValue f /\ (minValue f <= maxValue f -> minValue f <= cvalue f).
Proof.
  eexists. split; [vm_compute; reflexivity|]. split; [reflexivity|].
  apply (int_field_range 20 0 5 [Input KEY_PPAGE; SetMinValue 50; SetMaxValue 60; Input KEY_HOME]). vm_compute. reflexivity.
Defined.

Lemma to_int_unsigned z : fits_int z -> to_int (to_unsigned z) = z.
Proof.
  unfold fits_int, INT_MIN, INT_MAX, to_int, to_unsigned. intros Hz. rewrite Zplus_mod_idemp_l, Z.mod_small; lia.
Qed.

Lemma to_unsigned_id z : 0 <= z < 2 ^ 32 -> to_unsigned z = z.
Proof. apply Z.mod_small. Qed.
Lemma int_sub_fits a b : fits_int (a - b) -> int_sub a b = Done (a - b).
Proof. intros [H1 H2]. unfold int_sub. by rewrite (proj2 (Z.leb_le _ _) H1), (proj2 (Z.leb_le _ _) H2). Qed.

(** The arrow keys step by 1 and the page keys by 10, up to the limit, where
    they do nothing but report it. *)
Theorem int_field_steps f (big : bool) : minValue f <= cvalue f <= maxValue f -> fits_int (minValue f) -> fits_int (maxValue f) ->
  let step := if big then 10 else 1 in
  (maxValue f - cvalue f <= INT_MAX ->
    Increment f big = Done (Field (minValue f) (maxValue f) (Z.min (maxValue f) (cvalue f + step)),
                            negb (cvalue f =? maxValue f))) /\
  (cvalue f - minValue f <= INT_MAX ->
    Decrement f big = Done (Field (minValue f) (maxValue f) (Z.max (minValue f) (cvalue f - step)),
                            negb (cvalue f =? minValue f))).
Proof.
  intros Hr Hmin Hmax step. unfold fits_int, INT_MIN, INT_MAX in *. assert (1 <= step <= 10) by (subst step; destruct big; lia).
  split; intros Hd; unfold Increment, Decrement; fold step;
    rewrite int_sub_fits by (unfold fits_int, INT_MIN, INT_MAX; lia); cbn [obind];
    rewrite to_unsigned_id by lia; cbv zeta; unfold setValue, setValueInternal.
  - destruct (Z.eqb_spec (maxValue f - cvalue f) 0).
    + replace (cvalue f =? maxValue f) with true by lia. rewrite Z.min_l by lia.
      destruct f as [a b c]. simpl in *. by replace c with b by lia.
    + replace (cvalue f =? maxValue f) with false by lia.
      destruct (Z.ltb_spec step (maxValue f - cvalue f)).
      * rewrite to_int_unsigned by (unfold fits_int, INT_MIN, INT_MAX; lia). by rewrite Z.min_r, enforceRange_id by lia.
      * by rewrite Z.min_l, enforceRange_id by lia.
  - destruct (Z.eqb_spec (cvalue f - minValue f) 0).
    + replace (cvalue f =? minValue f) with true by lia. rewrite Z.max_l by lia.
      destruct f as [a b c]. simpl in *. by replace c with a by lia.
    + replace (cvalue f =? minValue f) with false by lia.
      destruct (Z.ltb_spec step (cvalue f - minValue f)).
      * rewrite to_int_unsigned by (unfold fits_int, INT_MIN, INT_MAX; lia). by rewrite Z.max_r, enforceRange_id by lia.
      * by rewrite Z.max_l, enforceRange_id by lia.
Qed.

Lemma int_field_steps_witness :
  Increment (Field 0 20 15) true = Done (Field 0 20 20, true) /\
  ((20 - 15 <= INT_MAX -> Increment (Field 0 20 15) true = Done (Field 0 20 (Z.min 20 (15 + 10)), true)) /\
   (15 - 0 <= INT_MAX -> Decrement (Field 0 20 15) true = Done (Field 0 20 (Z.max 0 (15 - 10)), true))).
Proof.
  split; [vm_compute; reflexivity|].
  apply (int_field_steps (Field 0 20 15) true); vm_compute; split; intros [=].
Defined.

(** The distance to the limit is computed with ints, which overflows for
    fields with more than [INT_MAX] values. *)
Theorem int_field_distance_overflow : Increment (Field INT_MIN INT_MAX (-1)) false = Undefined.
Proof. vm_compute. reflexivity. Qed.

End YIntField.

(** ** Progress bars *)
Module YProgressBar.

Record bar := Bar { maxValue : Z; value : Z }.

(** The check of the constructor is about its parameter, which hides the
    member of the same name. *)
Definition newPrivate (maxValueArg : Z) : bar :=
  let b := Bar maxValueArg 0 in
  let maxValueArg := if maxValueArg <? 1 then 1 else maxValueArg in
  b.

Definition setValue (b : bar) (newValue : Z) : bar :=
  let newValue := if newValue <? 0 then 0 else newValue in
  let newValue := if newValue >? maxValue b then maxValue b else newValue in
  Bar (maxValue b) newValue.

(** The text mode bar has its own copies of the limit and the value. *)
Record ncbar := NCBar { base : bar; maxval : Z; cval : Z }.

Definition newProgressBar (maxValue : Z) : ncbar :=
  NCBar (newPrivate maxValue) (if maxValue <=? 0 then 1 else maxValue) 0.

Definition ncSetValue (b : ncbar) (newValue : Z) : ncbar :=
  let c := if newValue <? 0 then 0 else if newValue >? maxval b then maxval b else newValue in
  NCBar (setValue (base b) newValue) (maxval b) c.

(** The text in the middle of a bar with columns 0 to [maxx], and its column;
    it is printed into a buffer of five characters. *)
Definition percent (b : ncbar) : Z := Z.quot (100 * cval b) (maxval b).
Definition percentText (b : ncbar) : string := String.append (pretty (percent b)) "%".
Definition percentOffset (b : ncbar) (maxx : Z) : Z :=
  let pc := percent b in
  Z.quot maxx 2 - (if pc =? 100 then 2 else if pc >=? 10 then 1 else 0).

Lemma cval_range vs : forall b, 1 <= maxval b -> 0 <= cval b <= maxval b ->
  let b' := fold_left ncSetValue vs b in maxval b' = maxval b /\ 0 <= cval b' <= maxval b.
Proof.
  induction vs as [|v vs IH]; intros b Hm Hc; [done|]. cbn [fold_left].
  apply (IH (ncSetValue b v)); simpl; [done|]. zcases; lia.
Qed.

Lemma append_length a b : String.length (String.append a b) = (String.length a + String.length b)%nat.
Proof. induction a as [|c a IH]; simpl; [done|]. by rewrite IH. Qed.

Lemma percent_digits n : 0 <= n <= 100 -> (String.length (pretty n) <= 3)%nat.
Proof.
  intros Hn. assert (H : Forall (fun n => String.length (pretty (Z.of_nat n)) <= 3)%nat (seq 0 101)).
  { eapply bool_decide_eq_true_1. vm_compute. reflexivity. }
  rewrite List.Forall_forall in H. specialize (H (Z.to_nat n)). rewrite Z2Nat.id in H by lia. apply H, in_seq. lia.
Qed.

(** Whatever limit and values a program sets, the bar shows a percentage from 0
    to 100, which is the share of the clamped value; its text fits into the
    buffer of five characters with the final null character, and into the bar
    if that is wide enough to have one; for a positive limit the base class has
    the same value. *)
Theorem progress_percent maxValue vs v :
  let b := ncSetValue (fold_left ncSetValue vs (newProgressBar maxValue)) v in
  percent b = 100 * Z.max 0 (Z.min v (Z.max 1 maxValue)) / Z.max 1 maxValue /\
  0 <= percent b <= 100 /\
  (String.length (percentText b) + 1 <= 5)%nat /\
  (forall maxx, 6 <= maxx -> 0 <= percentOffset b maxx /\
    percentOffset b maxx + Z.of_nat (String.length (percentText b)) <= maxx + 1) /\
  (1 <= maxValue -> value (base b) = cval b).
Proof.
  intros b. set (m := Z.max 1 maxValue).
  assert (Hm : maxval (newProgressBar maxValue) = m) by (simpl; zcases; lia).
  destruct (cval_range vs (newProgressBar maxValue)) as [Hm' _]; [lia|simpl; zcases; lia|].
  assert (Hb : maxval b = m) by (unfold b; simpl; congruence).
  assert (Hc : cval b = Z.max 0 (Z.min v m)) by (unfold b; simpl; rewrite Hm', Hm; zcases; lia).
  assert (Hp : percent b = 100 * Z.max 0 (Z.min v m) / m).
  { unfold percent. rewrite Hb, Hc, quot_floor; [done|lia|lia]. }
  assert (H100 : 0 <= percent b <= 100).
  { rewrite Hp. split; [apply Z.div_pos; lia|]. apply Z.div_le_upper_bound; lia. }
  assert (Hlen : (String.length (percentText b) <= 4)%nat).
  { unfold percentText. rewrite append_length. simpl. pose proof (percent_digits _ H100). lia. }
  split_and!; [done|lia|lia|lia| |].
  - intros maxx Hx. unfold percentOffset. pose proof (quot_mul_le maxx 2 ltac:(lia) ltac:(lia)).
    pose proof (quot_mul_gt maxx 2 ltac:(lia) ltac:(lia)). zcases; lia.
  - intros Hpos. rewrite Hc. unfold b. simpl.
    assert (forall vs b, YProgressBar.maxValue (base (fold_left ncSetValue vs b)) = YProgressBar.maxValue (base b)) as ->.
    { clear. induction vs as [|w vs IH]; intros b; [done|]. simpl. by rewrite IH. }
    simpl. zcases; lia.
Qed.

(** The base class keeps a limit below 1, which its constructor means to raise
    to 1: a value can then be negative. *)
Theorem progress_limit_not_raised :
  maxValue (newPrivate 0) = 0 /\ value (setValue (newPrivate (-5)) 3) = -5.
Proof. vm_compute. done. Qed.

End YProgressBar.

(** ** Downloads *)
Module YDownloadProgress.

Record download := Download { expectedSize : Z }.

(** A product of two [YFileSize_t] (64 bits). *)
Definition size_mul (a b : Z) : outcome Z :=
  if (- 2 ^ 63 <=? a * b) && (a * b <? 2 ^ 63) then Done (a * b) else Undefined.

(** [currentSize] is the size that [stat()] reports for the file. *)
Definition currentFileSize (stat : option Z) : Z := match stat with Some st_size => st_size | None => 0 end.

Definition currentPercent (d : download) (stat : option Z) : outcome Z :=
  if expectedSize d =? 0 then Done 0
  else
    let currentSize := currentFileSize stat in
    if currentSize >=? expectedSize d then Done 100
    else let! p := size_mul 100 currentSize in Done (to_int (Z.quot p (expectedSize d))).

(** The percentage is from 0 to 100, the rounded down share, and 100 only for a
    complete file, as long as a hundred times the size is a 64 bit number. *)
Theorem download_percent d st : 0 < expectedSize d -> 0 <= st -> 100 * st < 2 ^ 63 ->
  exists p, currentPercent d (Some st) = Done p /\ 0 <= p <= 100 /\
    p = Z.min 100 (100 * st / expectedSize d) /\ (p = 100 <-> expectedSize d <= st).
Proof.
  intros He Hs H63. unfold currentPercent. rewrite (proj2 (Z.eqb_neq _ _)) by lia. simpl.
  destruct (Z.geb_spec st (expectedSize d)) as [Hge|Hlt].
  - exists 100. split; [done|]. split; [lia|]. split; [|lia]. rewrite Z.min_l; [done|]. apply Z.div_le_lower_bound; lia.
  - unfold size_mul. rewrite (proj2 (Z.leb_le _ _)), (proj2 (Z.ltb_lt _ _)) by lia. cbn [andb obind].
    assert (0 <= 100 * st / expectedSize d < 100).
    { split; [apply Z.div_pos; lia|]. apply Z.div_lt_upper_bound; lia. }
    rewrite quot_floor, to_int_id by (unfold fits_int, INT_MIN, INT_MAX; lia). eexists. split; [done|]. lia.
Qed.

Lemma download_percent_witness :
  exists p, currentPercent (Download 3000) (Some 1000) = Done p /\ 0 <= p <= 100 /\
    p = Z.min 100 (100 * 1000 / 3000) /\ (p = 100 <-> 3000 <= 1000).
Proof. apply (download_percent (Download 3000) 1000); vm_compute; (reflexivity || intros [=]). Defined.

End YDownloadProgress.

(** ** Bar graphs *)
Module YBarGraph.

Record YColor := Color { red : Z; green : Z; blue : Z; _undef : bool }.
Definition isUndefined (c : YColor) : bool := _undef c.

Record YBarGraphSegment := Segment {
  _value : Z; _label : string; _segmentColor : YColor; _textColor : YColor }.

(** The graph and what its last [doUpdate()] displayed. *)
Record graph := Graph {
  segments : list YBarGraphSegment;
  updatesPending : bool;
  postponeUpdates : bool;
  displayed : list YBarGraphSegment }.

Definition newGraph : graph := Graph [] false false [].

Definition doUpdate (g : graph) : graph :=
  Graph (segments g) (updatesPending g) (postponeUpdates g) (segments g).

Definition updateDisplay (g : graph) : graph :=
  let g := Graph (segments g) true (postponeUpdates g) (displayed g) in
  if negb (postponeUpdates g) then
    let g := doUpdate g in Graph (segments g) false (postponeUpdates g) (displayed g)
  else g.

Definition withSegments (g : graph) (l : list YBarGraphSegment) : graph :=
  Graph l (updatesPending g) (postponeUpdates g) (displayed g).

Definition CHECK_INDEX (g : graph) (index : Z) : result unit :=
  if (index <? 0) || (index >=? Z.of_nat (length (segments g)))
  then Throw (YUIIndexOutOfRangeException index 0 (Z.of_nat (length (segments g)) - 1))
  else Ok tt.

Definition addSegment (g : graph) (segment : YBarGraphSegment) : graph :=
  updateDisplay (withSegments g (segments g ++ [segment])).

Definition deleteAllSegments (g : graph) : graph := updateDisplay (withSegments g []).

Definition segment (g : graph) (segmentIndex : Z) : result (option YBarGraphSegment) :=
  let? _ := CHECK_INDEX g segmentIndex in Ok (segments g !! Z.to_nat segmentIndex).

Definition modify (g : graph) (i : Z) (f : YBarGraphSegment -> YBarGraphSegment) : graph :=
  withSegments g (alter f (Z.to_nat i) (segments g)).

Definition setValue (g : graph) (segmentIndex newValue : Z) : result graph :=
  let? _ := CHECK_INDEX g segmentIndex in
  Ok (updateDisplay (modify g segmentIndex (fun s => Segment newValue (_label s) (_segmentColor s) (_textColor s)))).

Definition setLabel (g : graph) (segmentIndex : Z) (newLabel : string) : result graph :=
  let? _ := CHECK_INDEX g segmentIndex in
  Ok (updateDisplay (modify g segmentIndex (fun s => Segment (_value s) newLabel (_segmentColor s) (_textColor s)))).

Definition setSegmentColor (g : graph) (segmentIndex : Z) (color : YColor) : result graph :=
  let? _ := CHECK_INDEX g segmentIndex in
  if isUndefined color then Throw (YUIGenericException "Invalid YColor")
  else Ok (updateDisplay (modify g segmentIndex (fun s => Segment (_value s) (_label s) color (_textColor s)))).

Definition setTextColor (g : graph) (segmentIndex : Z) (color : YColor) : result graph :=
  let? _ := CHECK_INDEX g segmentIndex in
  if isUndefined color then Throw (YUIGenericException "Invalid YColor")
  else Ok (updateDisplay (modify g segmentIndex (fun s => Segment (_value s) (_label s) (_segmentColor s) color))).

(** The constructor and the destructor of a YBarGraphMultiUpdate. *)
Definition beginMultiUpdate (g : graph) : graph := Graph (segments g) (updatesPending g) true (displayed g).
Definition endMultiUpdate (g : graph) : graph :=
  let g := Graph (segments g) (updatesPending g) false (displayed g) in
  if updatesPending g then updateDisplay g else g.

Inductive op :=
| AddSegment (s : YBarGraphSegment) | DeleteAllSegments
| SetValue (i v : Z) | SetLabel (i : Z) (l : string)
| SetSegmentColor (i : Z) (c : YColor) | SetTextColor (i : Z) (c : YColor)
| BeginMultiUpdate | EndMultiUpdate.

Definition apply (g : graph) (o : op) : result graph :=
  match o with
  | AddSegment s => Ok (addSegment g s)
  | DeleteAllSegments => Ok (deleteAllSegments g)
  | SetValue i v => setValue g i v
  | SetLabel i l => setLabel g i l
  | SetSegmentColor i c => setSegmentColor g i c
  | SetTextColor i c => setTextColor g i c
  | BeginMultiUpdate => Ok (beginMultiUpdate g)
  | EndMultiUpdate => Ok (endMultiUpdate g)
  end.

(** A program that catches the exceptions. *)
Definition run (g : graph) (os : list op) : graph :=
  fold_left (fun g o => match apply g o with Ok g' => g' | Throw _ => g end) os g.

Definition inv (g : graph) : Prop :=
  (updatesPending g = false -> displayed g = segments g) /\
  (postponeUpdates g = false -> updatesPending g = false).

Lemma updateDisplay_inv g : inv (updateDisplay g).
Proof. unfold updateDisplay, inv. simpl. by destruct (postponeUpdates g). Qed.

Lemma graph_apply_inv g o g' : inv g -> apply g o = Ok g' -> inv g'.
Proof.
  intros [H1 H2] Ho. destruct o; simpl in Ho;
    unfold setValue, setLabel, setSegmentColor, setTextColor, addSegment, deleteAllSegments in Ho;
    try (destruct (CHECK_INDEX g i); simpl in Ho; [|done]); try (destruct (isUndefined c); [done|]); simplify_eq;
    try apply updateDisplay_inv; [split; [exact H1|done]|].
  unfold endMultiUpdate. simpl. destruct (updatesPending g) eqn:E; [apply updateDisplay_inv|]. split; auto.
Qed.

(** What is displayed is what was set, except while updates are postponed:
    after the end of a multiple update nothing is pending any more. *)
Theorem bar_graph_display os :
  let g := run newGraph os in
  (postponeUpdates g = false -> displayed g = segments g) /\
  displayed (endMultiUpdate g) = segments g /\ updatesPending (endMultiUpdate g) = false.
Proof.
  assert (forall os g, inv g -> inv (run g os)) as H.
  { clear. induction os as [|o os IH]; intros g Hg; [done|]. cbn. apply IH.
    destruct (apply g o) eqn:E; [by eapply graph_apply_inv|done]. }
  intros g. destruct (H os newGraph) as [H1 H2]; [by split|]. fold g in H1, H2. split; [auto|].
  unfold endMultiUpdate. simpl. destruct (updatesPending g) eqn:E; [done|]. simpl. auto.
Qed.

(** Setting a value throws exactly for an index without a segment, and
    otherwise changes that segment's value only. *)
Theorem bar_graph_set_value g i v :
  match setValue g i v with
  | Throw e => e = YUIIndexOutOfRangeException i 0 (Z.of_nat (length (segments g)) - 1) /\
      ~ (0 <= i < Z.of_nat (length (segments g)))
  | Ok g' => exists s, segments g !! Z.to_nat i = Some s /\
      segments g' = <[Z.to_nat i := Segment v (_label s) (_segmentColor s) (_textColor s)]> (segments g)
  end.
Proof.
  unfold setValue, CHECK_INDEX. destruct (Z.ltb_spec i 0); simpl; [split; [done|lia]|].
  destruct (Z.geb_spec i (Z.of_nat (length (segments g)))); simpl; [split; [done|lia]|].
  destruct (lookup_lt_is_Some_2 (segments g) (Z.to_nat i)) as [s Hs]; [lia|]. exists s. split; [done|].
  unfold updateDisplay. simpl. assert (forall f, alter f (Z.to_nat i) (segments g) = <[Z.to_nat i := f s]> (segments g)) as Hf.
  { intros f. apply list_eq. intros j. destruct (decide (j = Z.to_nat i)) as [->|].
    - rewrite list_lookup_alter_eq, list_lookup_insert_eq, Hs by lia. done.
    - by rewrite list_lookup_alter_ne, list_lookup_insert_ne by done. }
  by destruct (postponeUpdates g); simpl; rewrite Hf.
Qed.

End YBarGraph.

(** ** Multi progress meters *)
Module YMultiProgressMeter.

(** Floats are compared only, never computed with. *)
Abbreviation float := spec_float.
Definition zero : float := S754_zero false.
Definition lt (a b : float) : bool := SFltb a b.

Record meter := Meter { maxValues : list float; currentValues : list float }.

Definition newMeter (maxValues : list float) : meter :=
  Meter maxValues ((fun _ => zero) <$> maxValues).

Definition segments (m : meter) : Z := Z.of_nat (length (maxValues m)).

(** The macro: both limits are allowed. *)
Definition YUI_CHECK_INDEX (index validMin validMax : Z) : outcome unit :=
  if (index <? validMin) || (index >? validMax)
  then Throws (YUIIndexOutOfRangeException index validMin validMax)
  else Done tt.

(** [vector::operator[]]. *)
Definition at_index (l : list float) (i : Z) : outcome float :=
  match l !! Z.to_nat i with Some x => Done x | None => Undefined end.

Definition maxValue (m : meter) (segment : Z) : outcome float :=
  let! _ := YUI_CHECK_INDEX segment 0 (Z.of_nat (length (maxValues m))) in
  at_index (maxValues m) segment.

Definition currentValue (m : meter) (segment : Z) : outcome float :=
  let! _ := YUI_CHECK_INDEX segment 0 (Z.of_nat (length (currentValues m))) in
  at_index (currentValues m) segment.

Definition setCurrentValue (m : meter) (segment : Z) (value : float) : outcome meter :=
  let! _ := YUI_CHECK_INDEX segment 0 (Z.of_nat (length (currentValues m))) in
  let value := if lt value zero then zero else value in
  let! max := maxValue m segment in
  let! value := if lt max value then maxValue m segment else Done value in
  let! _ := at_index (currentValues m) segment in
  Done (Meter (maxValues m) (<[Z.to_nat segment := value]> (currentValues m))).

Fixpoint setLoop (m : meter) (i : Z) (values : list float) : outcome meter :=
  match values with
  | [] => Done m
  | v :: values => let! m := setCurrentValue m i v in setLoop m (i + 1) values
  end.

Definition setCurrentValues (m : meter) (values : list float) : outcome meter := setLoop m 0 values.

(** Both vectors have the same length. *)
Definition inv (m : meter) : Prop := length (currentValues m) = length (maxValues m).

Definition clamp (max value : float) : float :=
  let value := if lt value zero then zero else value in if lt max value then max else value.

Lemma setCurrentValue_ok m i v max : inv m -> 0 <= i -> maxValues m !! Z.to_nat i = Some max ->
  setCurrentValue m i v = Done (Meter (maxValues m) (<[Z.to_nat i := clamp max v]> (currentValues m))).
Proof.
  intros Hm Hi Hmax. pose proof (lookup_lt_Some _ _ _ Hmax) as Hlt.
  destruct (lookup_lt_is_Some_2 (currentValues m) (Z.to_nat i)) as [c Hc]; [rewrite Hm; done|].
  unfold setCurrentValue, maxValue, YUI_CHECK_INDEX, at_index, clamp. rewrite Hm, Hmax, Hc.
  replace (i <? 0) with false by lia. replace (i >? _) with false by lia. cbn [orb obind].
  destruct (lt max _); cbn [obind]; done.
Qed.

Lemma setLoop_ok vs : forall m i, inv m -> 0 <= i -> (Z.to_nat i + length vs <= length (maxValues m))%nat ->
  exists m', setLoop m i vs = Done m' /\ maxValues m' = maxValues m /\ inv m' /\
    forall j, currentValues m' !! j =
      if decide (Z.to_nat i <= j < Z.to_nat i + length vs)%nat
      then max ← maxValues m !! j; v ← vs !! (j - Z.to_nat i)%nat; Some (clamp max v)
      else currentValues m !! j.
Proof.
  induction vs as [|v vs IH]; intros m i Hm Hi Hlen; simpl in Hlen.
  - exists m. split_and!; try done. intros j. simpl. rewrite decide_False by lia. done.
  - destruct (lookup_lt_is_Some_2 (maxValues m) (Z.to_nat i)) as [max Hmax]; [lia|].
    cbn [setLoop]. rewrite (setCurrentValue_ok m i v max Hm Hi Hmax). cbn [obind].
    set (m1 := Meter _ _). assert (Hm1 : inv m1) by (unfold m1, inv; simpl; by rewrite length_insert).
    destruct (IH m1 (i + 1) Hm1) as (m' & -> & Hmax' & Hm' & Hj); [lia|simpl; lia|].
    exists m'. split_and!; try done. intros j. rewrite Hj. simpl.
    replace (Z.to_nat (i + 1)) with (S (Z.to_nat i)) by lia. destruct (decide (j = Z.to_nat i)) as [->|Hne].
    + rewrite decide_False, decide_True by lia. rewrite list_lookup_insert_eq by (rewrite Hm; eapply lookup_lt_Some; done).
      rewrite Hmax, Nat.sub_diag. done.
    + destruct (decide (S (Z.to_nat i) <= j < S (Z.to_nat i) + length vs)%nat); [rewrite decide_True by lia|rewrite decide_False by lia].
      * destruct (maxValues m !! j); [|done]. simpl. replace (j - Z.to_nat i)%nat with (S (j - S (Z.to_nat i))) by lia. done.
      * by rewrite list_lookup_insert_ne.
Qed.

(** Setting the values of all segments stores each of them, cut to the range
    from zero to the segment's maximum. *)
Theorem meter_set_values maxs values : (length values <= length maxs)%nat ->
  exists m, setCurrentValues (newMeter maxs) values = Done m /\ maxValues m = maxs /\
    forall j max, maxs !! j = Some max ->
      currentValues m !! j = Some (match values !! j with Some v => clamp max v | None => zero end).
Proof.
  intros Hl. destruct (setLoop_ok values (newMeter maxs) 0) as (m & E & Hm & _ & Hj).
  { unfold inv. simpl. by rewrite length_fmap. } { lia. } { simpl. lia. }
  exists m. split; [done|]. split; [done|]. intros j max Hmax. rewrite Hj. simpl. rewrite Hmax, Nat.sub_0_r.
  destruct (values !! j) as [v|] eqn:Hv; simpl.
  - rewrite decide_True; [done|]. pose proof (lookup_lt_Some _ _ _ Hv). lia.
  - rewrite decide_False by (pose proof (lookup_ge_None_1 _ _ Hv); lia).
    by rewrite (list_lookup_fmap (fun _ => zero) maxs j), Hmax.
Qed.

(** One value too many is not rejected: the index after the last one passes
    the check and is used. *)
Theorem meter_index_unchecked m v : inv m -> setCurrentValue m (segments m) v = Undefined /\
  maxValue m (segments m) = Undefined.
Proof.
  intros Hm. unfold setCurrentValue, maxValue, segments, YUI_CHECK_INDEX, at_index. rewrite Hm.
  rewrite Z.gtb_ltb, Z.ltb_irrefl, (proj2 (Z.ltb_ge _ _)) by apply Nat2Z.is_nonneg. cbn [orb obind].
  rewrite Nat2Z.id, (proj2 (lookup_ge_None (maxValues m) (length (maxValues m)))) by lia. done.
Qed.

End YMultiProgressMeter.

(** ** Log views *)
Module YLogView.

Definition newline : Ascii.ascii := Ascii.ascii_of_nat 10.

Record view := View { maxLines : Z; lines : list cstring; displayedText : cstring }.

Definition newView (maxLines : Z) : view := View maxLines [] [].
Definition withLines (v : view) (l : list cstring) : view := View (maxLines v) l (displayedText v).

(** The stored lines, without the newline at the very end. *)
Definition cutNewline (text : cstring) : cstring :=
  match list.last text with
  | Some c => if bool_decide (c = newline) then take (length text - 1) text else text
  | None => text
  end.
Definition logText (v : view) : cstring := cutNewline (concat (lines v)).

Definition lastLine (v : view) : cstring := default [] (list.last (lines v)).

Definition updateDisplay (v : view) : view := View (maxLines v) (lines v) (logText v).

(** [pop_front], [n] times. *)
Fixpoint popFront (n : nat) (l : list cstring) : outcome (list cstring) :=
  match n, l with
  | O, _ => Done l
  | S n, _ :: l => popFront n l
  | S _, [] => Undefined
  end.

Definition setMaxLines (v : view) (newMaxLines : Z) : outcome view :=
  let! linesToDelete := YIntField.int_sub (maxLines v) newMaxLines in
  let! l := popFront (Z.to_nat linesToDelete) (lines v) in
  let v := View newMaxLines l (displayedText v) in
  Done (if linesToDelete >? 0 then updateDisplay v else v).

Definition appendLine (v : view) (line : cstring) : view :=
  let v := withLines v (lines v ++ [line]) in
  if (maxLines v >? 0) && (Z.of_nat (length (lines v)) >? maxLines v) then withLines v (drop 1 (lines v)) else v.

(** The loop over the text; [rest] is the text from [to] on. *)
Fixpoint appendLoop (n : nat) (v : view) (rest : cstring) : outcome view :=
  match rest with
  | [] => Done v
  | _ =>
      match n with
      | O => NoFuel
      | S n =>
          let len := match find_char newline rest 0 with
                     | None => length rest
                     | Some to => S to
                     end in
          appendLoop n (appendLine v (take len rest)) (drop len rest)
      end
  end.

Definition appendLines (v : view) (newText : cstring) : outcome view :=
  let! v := appendLoop (length newText) v newText in Done (updateDisplay v).

Definition setLogText (v : view) (text : cstring) : outcome view :=
  if bool_decide (text = logText v) then Done v
  else appendLines (withLines v []) text.

Definition clearText (v : view) : view := updateDisplay (withLines v []).

(** *** What the lines of a text are, and which of them are kept *)

Fixpoint splitLines (text : cstring) : list cstring :=
  match text with
  | [] => []
  | c :: text =>
      if bool_decide (c = newline) then [c] :: splitLines text
      else match splitLines text with l :: ls => (c :: l) :: ls | [] => [[c]] end
  end.

Definition keepLast (m : Z) (l : list cstring) : list cstring :=
  if m >? 0 then drop (length l - Z.to_nat m) l else l.

Lemma splitLines_concat text : concat (splitLines text) = text.
Proof.
  induction text as [|c text IH]; [done|]. simpl. case_bool_decide; simpl; [by rewrite IH|].
  destruct (splitLines text) as [|l ls]; simpl in *; by rewrite <- IH.
Qed.

Lemma find_newline_spec s : match find_char newline s 0 with
  | None => splitLines s = match s with [] => [] | _ => [s] end
  | Some k => (k < length s)%nat /\ splitLines s = take (S k) s :: splitLines (drop (S k) s)
  end.
Proof.
  induction s as [|c s IH]; [done|]. cbn [find_char splitLines]. destruct (decide (c = newline)) as [->|Hc].
  - rewrite bool_decide_true by done. simpl. split; [lia|]. by rewrite drop_0.
  - rewrite bool_decide_false by done. destruct (find_char newline s 0) as [k|]; cbn [fmap option_fmap option_map].
    + destruct IH as [Hk ->]. simpl. split; [lia|done].
    + rewrite IH. by destruct s.
Qed.

(** The number of lines is within the limit, if there is one. *)
Definition bounded (v : view) : Prop := 0 < maxLines v -> (length (lines v) <= Z.to_nat (maxLines v))%nat.

Lemma appendLine_spec v line : bounded v ->
  appendLine v line = withLines v (keepLast (maxLines v) (lines v ++ [line])).
Proof.
  intros Hb. unfold appendLine, keepLast, bounded in *. simpl. rewrite length_app. simpl.
  destruct (Z.gtb_spec (maxLines v) 0) as [Hm|]; [|done]. simpl. specialize (Hb Hm).
  destruct (Z.gtb_spec (Z.of_nat (length (lines v) + 1)) (maxLines v)).
  - unfold withLines. simpl. f_equal. f_equal. lia.
  - unfold withLines. simpl. f_equal. replace (_ - _)%nat with 0%nat by lia. done.
Qed.

Lemma length_keepLast m l : 0 < m -> (length (keepLast m l) <= Z.to_nat m)%nat.
Proof. intros Hm. unfold keepLast. rewrite (proj2 (Z.gtb_gt _ _)) by lia. rewrite length_drop. lia. Qed.

Lemma keepLast_app m l k : keepLast m (keepLast m l ++ k) = keepLast m (l ++ k).
Proof.
  unfold keepLast. destruct (Z.gtb_spec m 0); [|done]. rewrite !length_app, length_drop.
  destruct (decide (length l <= Z.to_nat m)%nat) as [Hl|Hl].
  - replace (length l - Z.to_nat m)%nat with 0%nat by lia. rewrite drop_0, Nat.sub_0_r. done.
  - rewrite <- (drop_app_le l k (length l - Z.to_nat m)) by lia. rewrite drop_drop. f_equal. lia.
Qed.

Lemma keepLast_id m l : (0 < m -> (length l <= Z.to_nat m)%nat) -> keepLast m l = l.
Proof.
  intros H. unfold keepLast. destruct (Z.gtb_spec m 0); [|done]. specialize (H ltac:(lia)).
  replace (length l - Z.to_nat m)%nat with 0%nat by lia. apply drop_0.
Qed.

Lemma appendLoop_spec n : forall v rest, bounded v -> (length rest <= n)%nat ->
  appendLoop n v rest = Done (withLines v (keepLast (maxLines v) (lines v ++ splitLines rest))).
Proof.
  induction n as [|n IH]; intros v rest Hb Hn.
  - destruct rest; [|simpl in Hn; lia]. simpl. rewrite app_nil_r, keepLast_id by done. by destruct v.
  - destruct rest as [|c rest]; [simpl; rewrite app_nil_r, keepLast_id by done; by destruct v|].
    set (s := c :: rest) in *. assert (Hs : s <> []) by done.
    pose proof (find_newline_spec s) as Hf. change (appendLoop (S n) v s) with
      (let len := match find_char newline s 0 with None => length s | Some to => S to end in
       appendLoop n (appendLine v (take len s)) (drop len s)). cbv zeta.
    rewrite appendLine_spec by done.
    assert (Hlen : exists line, take (match find_char newline s 0 with None => length s | Some to => S to end) s = line /\
      (length (drop (match find_char newline s 0 with None => length s | Some to => S to end) s) <= n)%nat /\
      splitLines s = line :: splitLines (drop (match find_char newline s 0 with None => length s | Some to => S to end) s)).
    { eexists. split; [done|]. rewrite length_drop. destruct (find_char newline s 0) as [k|].
      - destruct Hf as [? ->]. split; [lia|done].
      - rewrite Hf, drop_all, firstn_all. split; [simpl in *; lia|]. done. }
    destruct Hlen as (line & -> & Hl & ->). rewrite IH; [|intros Hm; by apply length_keepLast|done].
    unfold withLines. simpl. by rewrite keepLast_app, <- app_assoc.
Qed.

(** Appending text to a log: its lines, split after every newline, are added
    at the end, and of all the lines the latest are kept, as many as the limit
    allows; the display shows them. The loop always ends. *)
Theorem log_append v text : bounded v ->
  exists v', appendLines v text = Done v' /\ bounded v' /\
    lines v' = keepLast (maxLines v) (lines v ++ splitLines text) /\ displayedText v' = logText v'.
Proof.
  intros Hb. unfold appendLines. rewrite appendLoop_spec by done. eexists. split; [done|].
  split; [intros Hm; by apply length_keepLast|]. done.
Qed.

Lemma log_append_witness :
  exists v', appendLines (View 2 [str "a"] []) (str "b" ++ newline :: str "c" ++ [newline]) = Done v' /\ bounded v' /\
    lines v' = keepLast 2 ([str "a"] ++ splitLines (str "b" ++ newline :: str "c" ++ [newline])) /\
    displayedText v' = logText v'.
Proof. apply (log_append (View 2 [str "a"] [])). intros _. simpl. lia. Defined.

(** Text that was set comes back, without the newline at its end, if the log
    may have that many lines. *)
Theorem log_roundtrip v text : (0 < maxLines v -> (length (splitLines text) <= Z.to_nat (maxLines v))%nat) ->
  text <> logText v ->
  exists v', setLogText v text = Done v' /\ logText v' = cutNewline text /\ displayedText v' = cutNewline text.
Proof.
  intros Hl Ht. unfold setLogText. rewrite bool_decide_false by done. unfold appendLines.
  rewrite appendLoop_spec; [|intros _; simpl; lia|done]. cbn [obind]. eexists. split; [done|].
  assert (logText (withLines (withLines v []) (keepLast (maxLines v) (splitLines text))) = cutNewline text) as H.
  { unfold logText. simpl. by rewrite keepLast_id, splitLines_concat by done. }
  done.
Qed.

Lemma log_roundtrip_witness :
  exists v', setLogText (View 0 [] []) (str "b" ++ newline :: str "c") = Done v' /\
    logText v' = cutNewline (str "b" ++ newline :: str "c") /\ displayedText v' = cutNewline (str "b" ++ newline :: str "c").
Proof. apply (log_roundtrip (View 0 [] [])); [intros H; discriminate H|vm_compute; intros [=]]. Defined.

Lemma popFront_spec l : forall n, popFront n l = if decide (n <= length l)%nat then Done (drop n l) else Undefined.
Proof. induction l as [|x l IH]; intros [|n]; simpl; try done. rewrite IH. repeat case_decide; try done; lia. Qed.

(** Lowering the limit deletes as many lines as the limit is lowered by,
    however many there are: with less lines than that it takes lines from an
    empty log, and otherwise it may delete lines that are within the new
    limit; and a limit that is introduced is not enforced. *)
Theorem log_limit_wrong :
  setMaxLines (View 5 [str "a"] []) 2 = Undefined /\
  (exists v, setMaxLines (View 5 [str "a"; str "b"; str "c"] []) 3 = Done v /\ lines v = [str "c"]) /\
  (exists v, setMaxLines (View 0 [str "a"; str "b"] []) 1 = Done v /\ lines v = [str "a"; str "b"]).
Proof. split; [reflexivity|]. split; eexists; split; reflexivity. Qed.

(** With a full log the new limit is met exactly. *)
Theorem log_limit_full v n : 0 <= n < maxLines v -> maxLines v <= INT_MAX -> Z.of_nat (length (lines v)) = maxLines v ->
  exists v', setMaxLines v n = Done v' /\ lines v' = drop (Z.to_nat (maxLines v - n)) (lines v) /\
    Z.of_nat (length (lines v')) = n /\ displayedText v' = logText v'.
Proof.
  intros Hn Hi Hl. unfold setMaxLines. rewrite YIntField.int_sub_fits by (unfold fits_int, INT_MIN, INT_MAX in *; lia). cbn [obind].
  rewrite popFront_spec, decide_True by lia. cbn [obind]. rewrite (proj2 (Z.gtb_gt _ _)) by lia.
  eexists. split; [done|]. simpl. split; [done|]. rewrite length_drop. split; [lia|done].
Qed.

End YLogView.
