(* ===== verification/WordWrapper.v ===== *)
(** * Word wrapping

    src/libyui-ncurses/src/NCWordWrapper.cc: normalizing white space and
    breaking a text into lines of limited width. Characters are code points;
    [iswalnum] is the C library's, which depends on the locale. *)

From S2P Require Import Prelude CNum.
Local Open Scope Z_scope.

Module NCWordWrapper.

Section wrapper.

Context (iswalnum : Z -> bool).

Abbreviation wstring := (list Z).

Definition blank : Z := 32.
Definition newline : Z := 10.
Definition DEFAULT_LINE_WIDTH : Z := 78.

Record wrapper := Wrapper {
  _origText : wstring;
  _wrappedText : wstring;
  _lineWidth : Z;
  _lines : Z;
  _dirty : bool }.

Definition newWrapper : wrapper := Wrapper [] [] DEFAULT_LINE_WIDTH 0 false.

Definition setText (w : wrapper) (origText : wstring) : wrapper :=
  if bool_decide (origText <> _origText w)
  then Wrapper origText (_wrappedText w) (_lineWidth w) (_lines w) true else w.

Definition setLineWidth (w : wrapper) (width : Z) : wrapper :=
  if bool_decide (width <> _lineWidth w)
  then Wrapper (_origText w) (_wrappedText w) width (_lines w) true else w.

Definition clear (w : wrapper) : wrapper := Wrapper [] [] DEFAULT_LINE_WIDTH 0 false.

(** The cases of the switch: blank, tab, newline, vertical tab, return, form
    feed. *)
Definition isWhitespace (c : Z) : bool :=
  (c =? 32) || (c =? 9) || (c =? 10) || (c =? 11) || (c =? 13) || (c =? 12).

Fixpoint normalizeLoop (normalized : wstring) (skippingWhitespace : bool) (orig : wstring) : wstring :=
  match orig with
  | [] => normalized
  | c :: orig =>
      if isWhitespace c then
        normalizeLoop normalized (if bool_decide (normalized <> []) then true else skippingWhitespace) orig
      else
        normalizeLoop ((if skippingWhitespace then normalized ++ [blank] else normalized) ++ [c]) false orig
  end.

Definition normalizeWhitespace (orig : wstring) : wstring := normalizeLoop [] false orig.

(** [text[ pos ]]: the position after the last character is a null
    character. *)
Definition charAt (text : wstring) (pos : Z) : outcome Z :=
  if pos <? 0 then Undefined
  else match text !! Z.to_nat pos with
       | Some c => Done c
       | None => if (Z.to_nat pos =? length text)%nat then Done 0 else Undefined
       end.

(** [while ( pos > 0 && ! stop( text[ pos ] ) ) --pos;] *)
Fixpoint scanLoop (stop : Z -> bool) (text : wstring) (pos : nat) : outcome nat :=
  match pos with
  | O => Done O
  | S pos' =>
      let! c := charAt text (Z.of_nat pos) in
      if stop c then Done pos else scanLoop stop text pos'
  end.

Definition scanBack (stop : Z -> bool) (text : wstring) (pos : Z) : outcome Z :=
  if pos <=? 0 then Done pos
  else let! p := scanLoop stop text (Z.to_nat pos) in Done (Z.of_nat p).

(** The line and what remains of [unwrapped]. *)
Definition nextLine (lineWidth : Z) (unwrapped : wstring) : outcome (wstring * wstring) :=
  if to_int (Z.of_nat (length unwrapped)) <=? lineWidth then Done (unwrapped, [])
  else
    let! pos := scanBack (fun c => c =? blank) unwrapped lineWidth in
    let! c := charAt unwrapped pos in
    if c =? blank then Done (take (Z.to_nat pos) unwrapped, drop (Z.to_nat (pos + 1)) unwrapped)
    else
      let! pos := scanBack (fun c => negb (iswalnum c)) unwrapped (lineWidth - 1) in
      let! c := charAt unwrapped pos in
      if negb (iswalnum c) then Done (take (Z.to_nat (pos + 1)) unwrapped, drop (Z.to_nat (pos + 1)) unwrapped)
      else
        let pos := lineWidth - 1 in
        Done (take (Z.to_nat (pos + 1)) unwrapped, drop (Z.to_nat (pos + 1)) unwrapped).

Fixpoint wrapLoop (n : nat) (lineWidth : Z) (unwrapped wrapped : wstring) (lines : Z) : outcome (wstring * Z) :=
  match unwrapped with
  | [] => Done (wrapped, lines)
  | _ =>
      match n with
      | O => NoFuel
      | S n =>
          let! lr := nextLine lineWidth unwrapped in
          let wrapped := if bool_decide (wrapped <> []) then wrapped ++ [newline] else wrapped in
          wrapLoop n lineWidth (snd lr) (wrapped ++ fst lr) (lines + 1)
      end
  end.

(** Every line takes at least one character, so that the length of the text is
    enough for the loop. *)
Definition wrap (w : wrapper) : outcome wrapper :=
  let unwrapped := normalizeWhitespace (_origText w) in
  let! r := wrapLoop (length unwrapped) (_lineWidth w) unwrapped [] 0 in
  Done (Wrapper (_origText w) (fst r) (_lineWidth w) (snd r) false).

Definition ensureWrapped (w : wrapper) : outcome wrapper :=
  let! w := if _dirty w then wrap w else Done w in
  Done (Wrapper (_origText w) (_wrappedText w) (_lineWidth w) (_lines w) false).

Definition lines (w : wrapper) : outcome (wrapper * Z) :=
  let! w := ensureWrapped w in Done (w, _lines w).
Definition wrappedText (w : wrapper) : outcome (wrapper * wstring) :=
  let! w := ensureWrapped w in Done (w, _wrappedText w).

(** ** Normalized text *)

(** The words of a text. *)
Fixpoint wordsLoop (word : wstring) (text : wstring) : list wstring :=
  let flush := if bool_decide (word = []) then [] else [word] in
  match text with
  | [] => flush
  | c :: text => if isWhitespace c then flush ++ wordsLoop [] text else wordsLoop (word ++ [c]) text
  end.
Definition words (text : wstring) : list wstring := wordsLoop [] text.

Fixpoint joinWith (sep : Z) (l : list wstring) : wstring :=
  match l with
  | [] => []
  | [x] => x
  | x :: l => x ++ sep :: joinWith sep l
  end.

(** Text without blanks at its ends and without two blanks in a row. *)
Definition tidy (text : wstring) : Prop :=
  forall i, text !! i = Some blank -> (0 < i)%nat /\ exists c, text !! S i = Some c /\ c <> blank.

Definition noOtherSpace (text : wstring) : Prop := Forall (fun c => isWhitespace c = true -> c = blank) text.

Definition visible (text : wstring) : wstring := filter (fun c => isWhitespace c = false) text.

Lemma wordsLoop_nonempty text : forall word, word <> [] -> wordsLoop word text <> [].
Proof.
  induction text as [|c text IH]; intros word Hw; simpl; rewrite bool_decide_false by done; [done|].
  destruct (isWhitespace c); [done|]. apply IH. by destruct word.
Qed.

Lemma joinWith_cons sep x l : joinWith sep (x :: l) = x ++ match l with [] => [] | _ => sep :: joinWith sep l end.
Proof. destruct l; simpl; [by rewrite app_nil_r|done]. Qed.

Lemma normalizeLoop_words text :
  (forall pre word, word <> [] -> normalizeLoop (pre ++ word) false text = pre ++ joinWith blank (wordsLoop word text)) /\
  (forall acc, acc <> [] -> normalizeLoop acc true text =
    acc ++ match words text with [] => [] | l => blank :: joinWith blank l end).
Proof.
  induction text as [|c text [IHA IHB]]; split.
  - intros pre word Hw. simpl. by rewrite bool_decide_false.
  - intros acc _. simpl. by rewrite app_nil_r.
  - intros pre word Hw. cbn [normalizeLoop wordsLoop]. rewrite (bool_decide_false (word = [])) by done.
    destruct (isWhitespace c).
    + rewrite bool_decide_true by (by destruct pre, word). rewrite IHB by (by destruct pre, word). cbn [app].
      fold (words text). rewrite joinWith_cons, <- app_assoc. by destruct (words text).
    + rewrite <- app_assoc. apply IHA. by destruct word.
  - intros acc Ha. unfold words. cbn [normalizeLoop wordsLoop]. rewrite (bool_decide_true ([] = [])) by done.
    destruct (isWhitespace c); [rewrite bool_decide_true by done; by apply IHB|].
    rewrite IHA by done. cbn [app]. pose proof (wordsLoop_nonempty text [c] ltac:(done)) as Hne.
    rewrite <- app_assoc. by destruct (wordsLoop [c] text).
Qed.

Lemma normalize_join text : normalizeWhitespace text = joinWith blank (words text).
Proof.
  unfold normalizeWhitespace, words. induction text as [|c text IH]; [done|]. simpl.
  destruct (isWhitespace c); [exact IH|]. apply (proj1 (normalizeLoop_words text) [] [c]). done.
Qed.

(** A word has at least one character, and no white space. *)
Definition isWord (word : wstring) : Prop := word <> [] /\ Forall (fun c => isWhitespace c = false) word.

Lemma words_words text : Forall isWord (words text).
Proof.
  unfold words. assert (forall word, Forall (fun c => isWhitespace c = false) word -> Forall isWord (wordsLoop word text)) as H.
  { induction text as [|c text IH]; intros word Hw; simpl.
    - case_bool_decide; constructor; [by split|constructor].
    - destruct (isWhitespace c) eqn:Hc; [|apply IH; apply Forall_app; by repeat constructor].
      case_bool_decide; simpl; [by apply IH|]. constructor; [by split|by apply IH]. }
  apply H. constructor.
Qed.

Lemma visible_app a b : visible (a ++ b) = visible a ++ visible b.
Proof. apply list.filter_app. Qed.

Lemma visible_word word : Forall (fun c => isWhitespace c = false) word -> visible word = word.
Proof. intros H. apply list_filter_keep. intros x Hx. exact (Forall_at _ _ _ H Hx). Qed.

Lemma words_visible text : concat (words text) = visible text.
Proof.
  unfold words. assert (forall word, concat (wordsLoop word text) = word ++ visible text) as H; [|apply (H [])].
  induction text as [|c text IH]; intros word; simpl.
  - case_bool_decide as E; simpl; rewrite ?app_nil_r; [by rewrite E|done].
  - unfold visible. rewrite filter_cons. fold (visible text). destruct (isWhitespace c) eqn:Hc.
    + rewrite decide_False by done. case_bool_decide as E; simpl; rewrite IH; [by rewrite E|done].
    + rewrite decide_True by done. rewrite IH, <- app_assoc. done.
Qed.

Lemma visible_join ws : Forall isWord ws -> visible (joinWith blank ws) = concat ws.
Proof.
  induction 1 as [|x ws [_ Hx] Hws IH]; [done|]. rewrite joinWith_cons, visible_app, visible_word by done. simpl. f_equal.
  destruct ws; [done|]. unfold visible. rewrite filter_cons, decide_False by done. exact IH.
Qed.

Lemma tidy_join ws : Forall isWord ws -> tidy (joinWith blank ws) /\ (forall c, joinWith blank ws !! 0%nat = Some c -> c <> blank).
Proof.
  induction 1 as [|x ws [Hne Hx] Hws [IHt IHh]]; [split; intros ?; simpl; by rewrite ?lookup_nil|].
  assert (Hxb : forall i c, x !! i = Some c -> c <> blank).
  { intros i c Hi ->. pose proof (Forall_lookup_1 _ _ _ _ Hx Hi). done. }
  assert (Hlen : (0 < length x)%nat) by (destruct x; [done|simpl; lia]). rewrite joinWith_cons. split.
  - intros i Hi. destruct (decide (i < length x)%nat) as [Hlt|Hge].
    { rewrite lookup_app_l in Hi by done. by apply Hxb in Hi. }
    rewrite lookup_app_r in Hi by lia. destruct ws as [|y ws]; [by rewrite lookup_nil in Hi|].
    split; [lia|]. rewrite lookup_app_r by lia. replace (S i - length x)%nat with (S (i - length x)) by lia.
    change ((blank :: joinWith blank (y :: ws)) !! S (i - length x)%nat) with (joinWith blank (y :: ws) !! (i - length x)%nat).
    destruct (i - length x)%nat as [|k] eqn:E.
    + destruct (joinWith blank (y :: ws)) as [|c r] eqn:Ej; [|exists c; split; [done|by apply IHh]].
      exfalso. inversion Hws as [|? ? [Hy _] _]. rewrite joinWith_cons in Ej. by destruct y.
    + apply (IHt k) in Hi as [_ (c & ? & ?)]. by exists c.
  - intros c Hc. rewrite lookup_app_l in Hc by done. by apply Hxb in Hc.
Qed.

Lemma noOther_join ws : Forall isWord ws -> noOtherSpace (joinWith blank ws).
Proof.
  induction 1 as [|x ws [_ Hx] Hws IH]; [constructor|]. rewrite joinWith_cons. apply Forall_app. split.
  - eapply Forall_impl; [|exact Hx]. intros c Hc Hc'. congruence.
  - destruct ws; constructor; [done|exact IH].
Qed.

(** ** Breaking one line off *)

Lemma charAt_lookup text (pos : nat) c : text !! pos = Some c -> charAt text (Z.of_nat pos) = Done c.
Proof. intros H. unfold charAt. rewrite (proj2 (Z.ltb_ge _ _)) by lia. by rewrite Nat2Z.id, H. Qed.

Lemma scanLoop_spec stop text (pos : nat) : (pos < length text)%nat ->
  exists (p : nat) c, scanLoop stop text pos = Done p /\ (p <= pos)%nat /\ text !! p = Some c /\
    (p = 0%nat \/ stop c = true) /\
    forall q d, (p < q <= pos)%nat -> text !! q = Some d -> stop d = false.
Proof.
  induction pos as [|pos IH]; intros Hp.
  - destruct (lookup_lt_is_Some_2 text 0) as [c Hc]; [lia|]. exists 0%nat, c. split_and!; try done; [by left|]. lia.
  - destruct (lookup_lt_is_Some_2 text (S pos)) as [c Hc]; [lia|]. cbn [scanLoop]. rewrite (charAt_lookup _ _ _ Hc). cbn [obind].
    destruct (stop c) eqn:Hs.
    + exists (S pos), c. split_and!; try done; [by right|]. lia.
    + destruct IH as (p & d & E & Hle & Hd & Hor & Hq); [lia|]. exists p, d. split_and!; try done; [lia|].
      intros q e Hqe He. destruct (decide (q = S pos)) as [->|]; [congruence|]. eapply Hq; [|done]. lia.
Qed.

Lemma scanBack_spec stop text pos : 0 <= pos < Z.of_nat (length text) ->
  exists (p : nat) c, scanBack stop text pos = Done (Z.of_nat p) /\ Z.of_nat p <= pos /\
    text !! p = Some c /\ charAt text (Z.of_nat p) = Done c /\ (p = 0%nat \/ stop c = true) /\
    forall q d, (p < q)%nat -> Z.of_nat q <= pos -> text !! q = Some d -> stop d = false.
Proof.
  intros Hpos. destruct (scanLoop_spec stop text (Z.to_nat pos)) as (p & c & E & Hle & Hc & Hor & Hq); [lia|].
  exists p, c. unfold scanBack. split.
  - destruct (Z.leb_spec pos 0); [do 2 f_equal; lia|]. by rewrite E.
  - split; [lia|]. split; [done|]. split; [by apply charAt_lookup|]. split; [done|].
    intros q d Hlt Hqp Hd. eapply Hq; [|done]. lia.
Qed.

Lemma tidy_drop text k : tidy text -> text !! k <> Some blank -> tidy (drop k text).
Proof.
  intros Ht Hk i Hi. rewrite lookup_drop in Hi. rewrite lookup_drop.
  destruct (Ht _ Hi) as [_ (c & Hc & Hcb)]. split; [|exists c; by rewrite Nat.add_succ_r].
  destruct i; [|lia]. rewrite Nat.add_0_r in Hi. done.
Qed.

Lemma tidy_take text k : tidy text -> (forall c, text !! k = Some c -> c = blank) \/ (forall i, (i < k)%nat -> text !! i <> Some blank) ->
  tidy (take k text).
Proof.
  intros Ht Hk i Hi. apply lookup_take_Some in Hi as [Hi Hlt]. destruct Hk as [Hk|Hk]; [|by apply Hk in Hi].
  destruct (Ht _ Hi) as [Hpos (c & Hc & Hcb)]. split; [done|]. exists c. split; [|done].
  rewrite lookup_take_lt; [done|]. destruct (decide (S i = k)) as [<-|]; [|lia]. by apply Hk in Hc.
Qed.

(** Where a line was broken off: at a blank, the last one that is not beyond the
    line; or, if the first word is too long, after its last character that is
    not alphanumeric, or else after as many characters as the line has. *)
Definition brokenAt (width : Z) (text line sep rest : wstring) : Prop :=
  (rest = [] /\ sep = []) \/
  (sep = [blank] /\ forall q, (length line < q)%nat -> Z.of_nat q <= width -> text !! q <> Some blank) \/
  (sep = [] /\ (forall q, Z.of_nat q <= width -> text !! q <> Some blank) /\
   ((exists c, list.last line = Some c /\ iswalnum c = false /\
      forall q d, (length line <= q)%nat -> Z.of_nat q < width -> text !! q = Some d -> iswalnum d = true) \/
    (Z.of_nat (length line) = width /\ forall q d, (0 < q)%nat -> Z.of_nat q < width -> text !! q = Some d -> iswalnum d = true))).

Lemma take_drop_blank text (p : nat) : text !! p = Some blank -> text = take p text ++ [blank] ++ drop (S p) text.
Proof. intros Hp. symmetry. exact (take_drop_middle text p blank Hp). Qed.

Lemma last_take_S (text : wstring) p c : text !! p = Some c -> list.last (take (S p) text) = Some c.
Proof. intros Hp. rewrite (take_S_r _ _ _ Hp). apply last_snoc. Qed.

(** Cutting a word that is longer than the line. *)
Lemma cut_word width text (k : nat) : tidy text -> width < Z.of_nat (length text) ->
  (forall q, Z.of_nat q <= width -> text !! q <> Some blank) -> (1 <= k)%nat -> Z.of_nat k <= width ->
  text = take k text ++ [] ++ drop k text /\ (1 <= length (take k text))%nat /\ Z.of_nat (length (take k text)) <= width /\
  tidy (take k text) /\ tidy (drop k text).
Proof.
  intros Ht Hlong Hnb Hk Hkw. rewrite length_take. split_and!; [by rewrite app_nil_l, take_drop|lia|lia| |].
  - apply tidy_take; [done|]. right. intros i Hik. apply Hnb. lia.
  - apply tidy_drop; [done|]. apply Hnb. lia.
Qed.

Lemma nextLine_spec width text : 1 <= width -> Z.of_nat (length text) <= INT_MAX -> text <> [] -> tidy text ->
  exists line sep rest, nextLine width text = Done (line, rest) /\ text = line ++ sep ++ rest /\
    (sep = [] \/ sep = [blank]) /\ (1 <= length line)%nat /\ Z.of_nat (length line) <= width /\
    tidy line /\ tidy rest /\ brokenAt width text line sep rest.
Proof.
  intros Hw Hi Hne Ht. assert (Hpos : (1 <= length text)%nat) by (destruct text; [done|simpl; lia]).
  unfold nextLine. rewrite to_int_id by (unfold fits_int, INT_MIN, INT_MAX in *; lia).
  destruct (Z.leb_spec (Z.of_nat (length text)) width) as [Hfit|Hlong].
  { exists text, [], []. split_and!; try done; [by rewrite !app_nil_r|by left|by left]. }
  destruct (scanBack_spec (fun c => c =? blank) text width) as (p & c & -> & Hp & Hc & Hca & Hor & Hq); [lia|].
  cbn [obind]. rewrite Hca. cbn [obind]. assert (Hqb : forall q, (p < q)%nat -> Z.of_nat q <= width -> text !! q <> Some blank).
  { intros q Hpq Hqw Hqq. specialize (Hq q blank Hpq Hqw Hqq). done. }
  destruct (Z.eqb_spec c blank) as [->|Hcb].
  - rewrite Nat2Z.id. replace (Z.to_nat (Z.of_nat p + 1)) with (S p) by lia.
    destruct (Ht _ Hc) as [Hp0 (d & Hd & Hdb)]. pose proof (lookup_lt_Some _ _ _ Hc).
    exists (take p text), [blank], (drop (S p) text). rewrite length_take. split_and!; [done|by apply take_drop_blank|by right|lia|lia| | |].
    + apply tidy_take; [done|]. left. intros e He. congruence.
    + apply tidy_drop; [done|]. congruence.
    + right. left. split; [done|]. rewrite length_take. intros q Hlt. apply Hqb. lia.
  - assert (p = 0%nat) as -> by (destruct Hor; [done|lia]).
    assert (Hnb : forall q, Z.of_nat q <= width -> text !! q <> Some blank).
    { intros q Hqw. destruct q; [congruence|]. apply Hqb; lia. }
    assert (Hcut : forall k, (1 <= k)%nat -> Z.of_nat k <= width -> _) by (intros k; apply (cut_word width text k Ht Hlong Hnb)).
    destruct (scanBack_spec (fun c => negb (iswalnum c)) text (width - 1)) as (r & e & -> & Hr & He & Hea & Hor2 & Hq2); [lia|].
    cbn [obind]. rewrite Hea. cbn [obind]. pose proof (lookup_lt_Some _ _ _ He).
    assert (Hal : forall q d, (r < q)%nat -> Z.of_nat q < width -> text !! q = Some d -> iswalnum d = true).
    { intros q d Hrq Hqw Hd. apply negb_false_iff. apply (Hq2 q d); [done|lia|done]. }
    destruct (iswalnum e) eqn:Hal_e; cbn [negb].
    + assert (r = 0%nat) as -> by (by destruct Hor2). replace (Z.to_nat (width - 1 + 1)) with (Z.to_nat width) by lia.
      destruct (Hcut (Z.to_nat width)) as (? & ? & ? & ? & ?); [lia|lia|].
      exists (take (Z.to_nat width) text), [], (drop (Z.to_nat width) text). split_and!; try done; [by left|].
      right. right. split; [done|]. split; [done|]. right. rewrite length_take. split; [lia|done].
    + replace (Z.to_nat (Z.of_nat r + 1)) with (S r) by lia. destruct (Hcut (S r)) as (? & ? & ? & ? & ?); [lia|lia|].
      exists (take (S r) text), [], (drop (S r) text). split_and!; try done; [by left|].
      right. right. split; [done|]. split; [done|]. left. exists e. split; [by apply last_take_S|]. split; [done|].
      rewrite length_take. intros q d Hlq. apply Hal. lia.
Qed.

(** ** Wrapping a text *)

(** Lines that are broken off a text one after the other. *)
Inductive wrapsTo (width : Z) : wstring -> list wstring -> Prop :=
| WrapsNil : wrapsTo width [] []
| WrapsCons text line sep rest ls :
    text = line ++ sep ++ rest -> sep = [] \/ sep = [blank] ->
    (1 <= length line)%nat -> Z.of_nat (length line) <= width -> tidy line ->
    brokenAt width text line sep rest -> wrapsTo width rest ls -> wrapsTo width text (line :: ls).

Lemma joinWith_snoc sep ls l : ls <> [] -> joinWith sep (ls ++ [l]) = joinWith sep ls ++ sep :: l.
Proof.
  induction ls as [|x ls IH]; [done|]. intros _. destruct ls as [|y ls]; [done|].
  change (joinWith sep ((x :: y :: ls) ++ [l])) with (x ++ sep :: joinWith sep ((y :: ls) ++ [l])).
  change (joinWith sep (x :: y :: ls)) with (x ++ sep :: joinWith sep (y :: ls)).
  rewrite IH by done. by rewrite <- app_assoc.
Qed.

Lemma joinWith_nonempty sep ls : Forall (fun l => 1 <= length l)%nat ls -> joinWith sep ls = [] -> ls = [].
Proof.
  intros H E. destruct ls as [|x ls]; [done|]. inversion H; subst. rewrite joinWith_cons in E.
  apply app_eq_nil in E as [-> _]. simpl in *. lia.
Qed.

Lemma wrapLoop_spec width : 1 <= width -> forall n text done_ k,
  (length text <= n)%nat -> Z.of_nat (length text) <= INT_MAX -> tidy text ->
  Forall (fun l => 1 <= length l)%nat done_ ->
  exists ls, wrapsTo width text ls /\
    wrapLoop n width text (joinWith newline done_) k =
      Done (joinWith newline (done_ ++ ls), k + Z.of_nat (length ls)).
Proof.
  intros Hw n. induction n as [|n IH]; intros text done_ k Hn Hi Ht Hd.
  - destruct text; [|simpl in Hn; lia]. exists []. split; [constructor|]. simpl. by rewrite app_nil_r, Z.add_0_r.
  - destruct text as [|c text]; [exists []; split; [constructor|]; simpl; by rewrite app_nil_r, Z.add_0_r|].
    destruct (nextLine_spec width (c :: text) Hw Hi ltac:(done) Ht) as (line & sep & rest & E & Htext & Hsep & H1 & H2 & Htl & Htr & Hbr).
    assert (Hlen : (length rest < length (c :: text))%nat) by (rewrite Htext, !length_app; lia).
    destruct (IH rest (done_ ++ [line]) (k + 1)) as (ls & Hls & Eloop); [lia|lia|done|apply Forall_app; by repeat constructor|].
    exists (line :: ls). split; [by econstructor|]. cbn [wrapLoop]. rewrite E. cbn [obind fst snd].
    assert ((if bool_decide (joinWith newline done_ <> []) then joinWith newline done_ ++ [newline] else joinWith newline done_) ++ line
      = joinWith newline (done_ ++ [line])) as ->.
    { case_bool_decide as Hj.
      - rewrite joinWith_snoc; [by rewrite <- app_assoc|]. by intros ->.
      - rewrite Hj. apply (joinWith_nonempty _ _ Hd) in Hj as ->. done. }
    rewrite Eloop, <- app_assoc. simpl. do 2 f_equal. lia.
Qed.

Lemma normalize_length text : forall acc skip, (length (normalizeLoop acc skip text) <= length acc + (if skip then 1 else 0) + length text)%nat.
Proof.
  induction text as [|c text IH]; intros acc skip; simpl; [lia|]. destruct (isWhitespace c).
  - etrans; [apply IH|]. case_bool_decide; destruct skip; lia.
  - etrans; [apply IH|]. rewrite !length_app. destruct skip; rewrite ?length_app; simpl; lia.
Qed.

Lemma wrap_spec w : 1 <= _lineWidth w -> Z.of_nat (length (_origText w)) <= INT_MAX ->
  exists ls, wrapsTo (_lineWidth w) (joinWith blank (words (_origText w))) ls /\
    wrap w = Done (Wrapper (_origText w) (joinWith newline ls) (_lineWidth w) (Z.of_nat (length ls)) false).
Proof.
  intros Hw Hi. unfold wrap. pose proof (normalize_length (_origText w) [] false) as Hlen. simpl in Hlen.
  fold (normalizeWhitespace (_origText w)) in Hlen. rewrite normalize_join in *.
  destruct (wrapLoop_spec (_lineWidth w) Hw (length (joinWith blank (words (_origText w)))) (joinWith blank (words (_origText w))) [] 0)
    as (ls & Hls & E); [done|lia|apply tidy_join, words_words|constructor|].
  exists ls. split; [done|]. change ([] : wstring) with (joinWith newline []). by rewrite E.
Qed.

Lemma wrapsTo_visible width text ls : wrapsTo width text ls -> visible (concat ls) = visible text.
Proof.
  induction 1 as [|text line sep rest ls -> Hsep _ _ _ _ _ IH]; [done|]. simpl. rewrite !visible_app, IH. f_equal.
  by destruct Hsep as [-> | ->].
Qed.

Lemma wrapsTo_lines width text ls : noOtherSpace text -> wrapsTo width text ls ->
  Forall (fun l => (1 <= length l)%nat /\ Z.of_nat (length l) <= width /\ tidy l /\ newline ∉ l) ls.
Proof.
  intros Hs H. induction H as [|text line sep rest ls -> Hsep H1 H2 Ht _ _ IH]; [constructor|].
  apply Forall_app in Hs as [Hl Hr]. apply Forall_app in Hr as [_ Hr]. constructor; [|by apply IH].
  split_and!; try done. intros Hin. pose proof (Forall_at _ _ _ Hl Hin eq_refl) as E. done.
Qed.

(** The white space of the text is replaced by single blanks between its
    words. *)
Theorem normalize_words text :
  normalizeWhitespace text = joinWith blank (words text) /\
  Forall isWord (words text) /\ concat (words text) = visible text /\
  normalizeWhitespace (normalizeWhitespace text) = normalizeWhitespace text.
Proof.
  rewrite !normalize_join. split_and!; [done|apply words_words|apply words_visible|]. f_equal.
  pose proof (words_words text) as H. induction H as [|x ws [Hne Hx] Hws IH]; [done|].
  assert (forall r word, wordsLoop word (x ++ r) = wordsLoop (word ++ x) r) as Hstep.
  { intros r. induction Hx as [|c x Hc Hx IHx]; intros word; [by rewrite app_nil_r|].
    simpl. rewrite Hc. destruct x as [|d x]; [done|]. rewrite IHx by done. by rewrite <- app_assoc. }
  rewrite joinWith_cons. unfold words at 1. rewrite Hstep. simpl.
  destruct ws as [|y ws]; [simpl; by rewrite bool_decide_false|].
  cbn [wordsLoop]. rewrite bool_decide_false by done. simpl. f_equal. exact IH.
Qed.

(** C9: Wrapping always ends for a line width of at least one, without an access
    outside of the text. The result has the lines with newlines between them
    and their number; no line is empty or wider than allowed, or has blanks at
    its ends or a newline; no visible character is lost, added or moved. Each
    line was broken off at the last possible blank, and within a word only if
    the word is longer than a line. *)
Theorem wrap_lines w : 1 <= _lineWidth w -> Z.of_nat (length (_origText w)) <= INT_MAX ->
  exists ls, wrap w = Done (Wrapper (_origText w) (joinWith newline ls) (_lineWidth w) (Z.of_nat (length ls)) false) /\
    Forall (fun l => (1 <= length l)%nat /\ Z.of_nat (length l) <= _lineWidth w /\ tidy l /\ newline ∉ l) ls /\
    visible (concat ls) = visible (_origText w) /\
    wrapsTo (_lineWidth w) (normalizeWhitespace (_origText w)) ls.
Proof.
  intros Hw Hi. destruct (wrap_spec w Hw Hi) as (ls & Hls & E). exists ls. split; [done|].
  pose proof (words_words (_origText w)) as Hws. split; [eapply wrapsTo_lines; [by apply noOther_join|done]|].
  split; [rewrite (wrapsTo_visible _ _ _ Hls), visible_join by done; apply words_visible|]. by rewrite normalize_join.
Qed.

(** What a client does with a wrapper. *)
Inductive op := SetText (t : wstring) | SetLineWidth (n : Z) | Clear | AskLines | AskWrappedText.

Definition apply (w : wrapper) (o : op) : outcome wrapper :=
  match o with
  | SetText t => Done (setText w t)
  | SetLineWidth n => Done (setLineWidth w n)
  | Clear => Done (clear w)
  | AskLines => let! r := lines w in Done (fst r)
  | AskWrappedText => let! r := wrappedText w in Done (fst r)
  end.

Definition opOk (o : op) : Prop :=
  match o with
  | SetText t => Z.of_nat (length t) <= INT_MAX
  | SetLineWidth n => 1 <= n
  | _ => True
  end.

(** A wrapper that is not dirty has the result for its text and width. *)
Record inv (w : wrapper) : Prop := {
  inv_width : 1 <= _lineWidth w;
  inv_size : Z.of_nat (length (_origText w)) <= INT_MAX;
  inv_result : _dirty w = false -> wrap w = Done w }.

Lemma wrap_inv w : inv w -> exists w', ensureWrapped w = Done w' /\ wrap w = Done w' /\ inv w'.
Proof.
  intros [Hw Hi Hr]. destruct (wrap_spec w Hw Hi) as (ls & Hls & E).
  assert (Hinv : inv (Wrapper (_origText w) (joinWith newline ls) (_lineWidth w) (Z.of_nat (length ls)) false)).
  { by constructor. }
  unfold ensureWrapped. destruct (_dirty w) eqn:Hd.
  - rewrite E. cbn [obind]. eexists. split; [done|]. by split.
  - rewrite (Hr eq_refl) in E. injection E as E. exists w. split; [|split; [by apply Hr|constructor; [done|done|intros _; exact (Hr eq_refl)]]].
    cbn [obind]. rewrite E. done.
Qed.

Lemma wrapper_apply_inv w o : inv w -> opOk o -> exists w', apply w o = Done w' /\ inv w'.
Proof.
  intros Hw Ho. destruct o as [t|n| | |]; simpl in *.
  - eexists. split; [done|]. unfold setText. case_bool_decide; [|done]. destruct Hw. by constructor.
  - eexists. split; [done|]. unfold setLineWidth. case_bool_decide; [|done]. destruct Hw. by constructor.
  - eexists. split; [done|]. by constructor.
  - destruct (wrap_inv w Hw) as (w' & E & _ & Hw'). unfold lines. rewrite E. by exists w'.
  - destruct (wrap_inv w Hw) as (w' & E & _ & Hw'). unfold wrappedText. rewrite E. by exists w'.
Qed.

(** The wrapped text is computed only when it is needed, but always that of the
    current text and line width: after any calls it is what wrapping now
    gives. *)
Theorem wrapped_text_current os : Forall opOk os ->
  exists w w', ofold apply os newWrapper = Done w /\ wrap w = Done w' /\
    wrappedText w = Done (w', _wrappedText w') /\ lines w = Done (w', _lines w').
Proof.
  intros Hos. assert (exists w, ofold apply os newWrapper = Done w /\ inv w) as (w & E & Hw).
  { assert (inv newWrapper) as H by by constructor. revert H. generalize newWrapper.
    induction Hos as [|o os Ho Hos IH]; intros w Hw; [by exists w|]. cbn [ofold].
    destruct (wrapper_apply_inv w o Hw Ho) as (w1 & -> & Hw1). by apply IH. }
  destruct (wrap_inv w Hw) as (w' & E1 & E2 & _). exists w, w'. unfold wrappedText, lines. rewrite E1. done.
Qed.

End wrapper.

Definition asciiAlnum (c : Z) : bool :=
  (48 <=? c) && (c <=? 57) || (65 <=? c) && (c <=? 90) || (97 <=? c) && (c <=? 122).
(** " aa  bb-cc dddddd", wrapped to four columns. *)
Definition sampleText : list Z := [32; 97; 97; 32; 32; 98; 98; 45; 99; 99; 32; 100; 100; 100; 100; 100; 100].

Lemma wrap_lines_witness :
  exists ls, wrap asciiAlnum (Wrapper sampleText [] 4 0 true) =
      Done (Wrapper sampleText (joinWith newline ls) 4 (Z.of_nat (length ls)) false) /\
    Forall (fun l => (1 <= length l)%nat /\ Z.of_nat (length l) <= 4 /\ tidy l /\ newline ∉ l) ls /\
    visible (concat ls) = visible sampleText /\
    wrapsTo asciiAlnum 4 (normalizeWhitespace sampleText) ls.
Proof. apply (wrap_lines asciiAlnum (Wrapper sampleText [] 4 0 true)); vm_compute; intros [=]. Defined.

Lemma sample_wrapped : wrappedText asciiAlnum (Wrapper sampleText [] 4 0 true) =
  Done (Wrapper sampleText [97; 97; 10; 98; 98; 45; 10; 99; 99; 10; 100; 100; 100; 100; 10; 100; 100] 4 5 false,
        [97; 97; 10; 98; 98; 45; 10; 99; 99; 10; 100; 100; 100; 100; 10; 100; 100]).
Proof. reflexivity. Qed.

Lemma wrapped_text_current_witness :
  exists w w', ofold (apply asciiAlnum) [SetText sampleText; AskLines; SetLineWidth 4] newWrapper = Done w /\
    wrap asciiAlnum w = Done w' /\
    wrappedText asciiAlnum w = Done (w', _wrappedText w') /\ lines asciiAlnum w = Done (w', _lines w').
Proof.
  apply (wrapped_text_current asciiAlnum [SetText sampleText; AskLines; SetLineWidth 4]).
  repeat constructor; vm_compute; intros [=].
Defined.

(** A line width of zero is not caught: the text is read before its start. *)
Theorem wrap_zero_width : wrap asciiAlnum (Wrapper [97] [] 0 0 true) = Undefined.
Proof. reflexivity. Qed.

End NCWordWrapper.
