(* ===== verification/Config.v ===== *)
(** * Command line, settings and file lookup

    src/libyui/src/YCommandLine.cc, YSettings.cc and YPath.cc. What the
    operating system provides is a parameter: the bytes of /proc/self/cmdline
    and the names that [readdir()] lists for a directory. *)

From S2P Require Import Prelude CNum.
Local Open Scope Z_scope.

(** ** The command line *)
Module YCommandLine.

(** Arguments are lists of bytes without the null byte. *)
Abbreviation arg_t := (list Z).

(** The lines that [getline( cmdline, arg, '\0' )] reads while the stream is
    good, and those that are stored. The stream stops being good when a line
    ended at the end of the file instead of at a null byte. *)
Fixpoint readArgs (arg : arg_t) (bytes : list Z) : list arg_t :=
  match bytes with
  | [] => if bool_decide (arg = []) then [] else [arg]
  | b :: bytes =>
      if b =? 0 then (if bool_decide (arg = []) then [] else [arg]) ++ readArgs [] bytes
      else readArgs (arg ++ [b]) bytes
  end.

Definition newCommandLine (cmdline : list Z) : list arg_t := readArgs [] cmdline.

Definition argc (args : list arg_t) : Z := Z.of_nat (length args).

Definition checkIndex (args : list arg_t) (index : Z) : result unit :=
  if (index <? 0) || (index >? argc args - 1)
  then Throw (YUIIndexOutOfRangeException index 0 (argc args - 1)) else Ok tt.

Definition add (args : list arg_t) (arg : arg_t) : list arg_t := args ++ [arg].

Definition arg (args : list arg_t) (index : Z) : result (option arg_t) :=
  let? _ := checkIndex args index in Ok (args !! Z.to_nat index).

Definition remove (args : list arg_t) (index : Z) : result (list arg_t) :=
  let? _ := checkIndex args index in Ok (delete (Z.to_nat index) args).

Definition replace (args : list arg_t) (index : Z) (newArg : arg_t) : result (list arg_t) :=
  let? _ := checkIndex args index in Ok (<[Z.to_nat index := newArg]> args).

Fixpoint findLoop (args : list arg_t) (i : Z) (argName : arg_t) : Z :=
  match args with
  | [] => -1
  | a :: args => if bool_decide (a = argName) then i else findLoop args (i + 1) argName
  end.

Definition find (args : list arg_t) (argName : arg_t) : Z := findLoop args 0 argName.

(** What the kernel puts into the file: each argument with a null byte. *)
Definition cmdlineOf (args : list arg_t) : list Z := concat (map (fun a => a ++ [0]) args).

Lemma readArgs_word a : Forall (fun b => b <> 0) a -> forall w bytes,
  readArgs w (a ++ bytes) = readArgs (w ++ a) bytes.
Proof.
  induction 1 as [|b a Hb Ha IH]; intros w bytes; [by rewrite app_nil_r|]. simpl.
  rewrite (proj2 (Z.eqb_neq _ _) Hb), IH. by rewrite <- app_assoc.
Qed.

(** The arguments of the program are read back, except for the empty ones. *)
Theorem command_line_read args : Forall (Forall (fun b => b <> 0)) args ->
  newCommandLine (cmdlineOf args) = filter (fun a => a <> []) args.
Proof.
  unfold newCommandLine, cmdlineOf. induction 1 as [|a args Ha Hargs IH]; [done|]. simpl.
  rewrite <- app_assoc, readArgs_word by done. simpl. rewrite IH, filter_cons.
  case_bool_decide; case_decide; naive_solver.
Qed.

Lemma command_line_read_witness :
  newCommandLine (cmdlineOf [[97; 98]; []; [45; 99]]) = filter (fun a => a <> []) [[97; 98]; []; [45; 99]].
Proof. apply (command_line_read [[97; 98]; []; [45; 99]]). repeat constructor; done. Defined.

Lemma argLoop_spec args a : forall i, 0 <= i ->
  match findLoop args i a with
  | Z0 | Zpos _ => exists k, findLoop args i a = i + Z.of_nat k /\ args !! k = Some a /\
      forall j, (j < k)%nat -> args !! j <> Some a
  | Zneg _ => findLoop args i a = -1 /\ a ∉ args
  end.
Proof.
  induction args as [|x args IH]; intros i Hi; simpl; [by split; [|intros ?%elem_of_nil]|].
  case_bool_decide as Hx.
  - subst. destruct i; try lia; exists 0%nat; (split; [lia|]); (split; [done|]); lia.
  - specialize (IH (i + 1) ltac:(lia)). destruct (findLoop args (i + 1) a) as [|p|p] eqn:E.
    + destruct IH as (k & Hk & _). lia.
    + destruct IH as (k & Hk & Hl & Hm). exists (S k). split; [lia|]. split; [done|].
      intros [|j] Hj; simpl; [congruence|]. apply Hm. lia.
    + destruct IH as [-> Hn]. split; [done|]. intros [?|?]%elem_of_cons; naive_solver.
Qed.

(** [find] gives the index of the first argument that is equal, which [arg]
    then returns without an exception; and -1 if there is none. *)
Theorem command_line_find args a :
  (find args a = -1 /\ a ∉ args) \/
  (arg args (find args a) = Ok (Some a) /\ 0 <= find args a < argc args /\
   forall j b, j < find args a -> arg args j = Ok (Some b) -> b <> a).
Proof.
  pose proof (argLoop_spec args a 0 ltac:(lia)) as H. fold (find args a) in H.
  assert (find args a = -1 /\ a ∉ args \/ exists k, find args a = Z.of_nat k /\ args !! k = Some a /\ forall j, (j < k)%nat -> args !! j <> Some a)
    as [?|(k & -> & Hk & Hj)] by (destruct (find args a); auto; by right).
  - by left.
  - right. pose proof (lookup_lt_Some _ _ _ Hk). unfold arg, checkIndex, argc. split; [|split; [lia|]].
    + rewrite (proj2 (Z.ltb_ge _ _)), Z.gtb_ltb, (proj2 (Z.ltb_ge _ _)) by lia. simpl. by rewrite Nat2Z.id, Hk.
    + intros j b Hlt. destruct (Z.ltb_spec j 0); simpl; [done|]. rewrite Z.gtb_ltb, (proj2 (Z.ltb_ge _ _)) by lia. simpl.
      intros [= Hb] ->. by apply (Hj (Z.to_nat j)); [lia|].
Qed.

End YCommandLine.

(** ** Settings *)
Module YSettings.

Record settings := Settings {
  _progDir : string; _iconDir : string; _themeDir : string; _localeDir : string; _loadedUI : string }.

Definition initial : settings := Settings "" "" "" "" "".

Definition empty (s : string) : bool := bool_decide (s = "").

Definition quote : string := String (Ascii.ascii_of_nat 34) "".
Definition lockedTo (what dir : string) : YUIException :=
  YUIGenericException (String.append what (String.append quote (String.append dir quote))).

Definition setProgDir (s : settings) (directory : string) : result settings :=
  if empty (_progDir s)
  then Ok (Settings directory (_iconDir s) (_themeDir s) (_localeDir s) (_loadedUI s))
  else Throw (lockedTo "progSubDir is locked to: " (_progDir s)).
Definition setIconDir (s : settings) (directory : string) : result settings :=
  if empty (_iconDir s)
  then Ok (Settings (_progDir s) directory (_themeDir s) (_localeDir s) (_loadedUI s))
  else Throw (lockedTo "progIconDir is locked to: " (_iconDir s)).
Definition setThemeDir (s : settings) (directory : string) : result settings :=
  if empty (_themeDir s)
  then Ok (Settings (_progDir s) (_iconDir s) directory (_localeDir s) (_loadedUI s))
  else Throw (lockedTo "themeDir is locked to: " (_themeDir s)).
Definition setLocaleDir (s : settings) (directory : string) : result settings :=
  if empty (_localeDir s)
  then Ok (Settings (_progDir s) (_iconDir s) (_themeDir s) directory (_loadedUI s))
  else Throw (lockedTo "localeDir is locked to: " (_localeDir s)).
Definition loadedUI (s : settings) (ui : string) (force : bool) : result settings :=
  if empty (_loadedUI s) || force
  then Ok (Settings (_progDir s) (_iconDir s) (_themeDir s) (_localeDir s) ui)
  else Throw (lockedTo "loadedUI is locked to: " (_loadedUI s)).

Section dirs.
(** Chosen when the library is configured. *)
Context (THEMEDIR : string).

Definition iconDir (s : settings) : string :=
  if negb (empty (_iconDir s)) then _iconDir s
  else if negb (empty (_progDir s)) then String.append (_progDir s) "/icons/"
  else String.append THEMEDIR "/icons/".
Definition themeDir (s : settings) : string :=
  if negb (empty (_themeDir s)) then _themeDir s
  else if negb (empty (_progDir s)) then String.append (_progDir s) "/theme/current/wizard/"
  else String.append THEMEDIR "/current/wizard/".
Definition localeDir (s : settings) : string :=
  if negb (empty (_localeDir s)) then _localeDir s
  else if negb (empty (_progDir s)) then String.append (_progDir s) "/locale/"
  else "/usr/share/locale/".
End dirs.

Inductive call :=
| SetProgDir (d : string) | SetIconDir (d : string) | SetThemeDir (d : string) | SetLocaleDir (d : string)
| LoadedUI (ui : string).

Definition apply (s : settings) (c : call) : result settings :=
  match c with
  | SetProgDir d => setProgDir s d
  | SetIconDir d => setIconDir s d
  | SetThemeDir d => setThemeDir s d
  | SetLocaleDir d => setLocaleDir s d
  | LoadedUI ui => loadedUI s ui false
  end.

(** A program that catches the exceptions. *)
Definition run (s : settings) (cs : list call) : settings :=
  fold_left (fun s c => match apply s c with Ok s' => s' | Throw _ => s end) cs s.

Definition value (c : call) (s : settings) : string :=
  match c with
  | SetProgDir _ => _progDir s | SetIconDir _ => _iconDir s | SetThemeDir _ => _themeDir s
  | SetLocaleDir _ => _localeDir s | LoadedUI _ => _loadedUI s
  end.

Lemma locked_step s c c' : value c s <> "" ->
  value c (match apply s c' with Ok s' => s' | Throw _ => s end) = value c s.
Proof.
  intros Hv. destruct c'; simpl; unfold setProgDir, setIconDir, setThemeDir, setLocaleDir, loadedUI, empty;
    case_bool_decide; simpl; destruct c; simpl in *; done.
Qed.

(** A setting is locked: once it has a value, setting it again throws and
    nothing a program does changes it (unless the name of the UI is forced). *)
Theorem settings_locked s c cs : value c s <> "" ->
  (exists e, apply s c = Throw e) /\ value c (run s cs) = value c s.
Proof.
  intros Hv. split.
  - destruct c; simpl in *; unfold setProgDir, setIconDir, setThemeDir, setLocaleDir, loadedUI, empty;
      rewrite bool_decide_false by done; by eexists.
  - revert s Hv. induction cs as [|c' cs IH]; intros s Hv; [done|].
    change (run s (c' :: cs)) with (run (match apply s c' with Ok s' => s' | Throw _ => s end) cs).
    pose proof (locked_step s c c' Hv) as E. rewrite IH; [done|congruence].
Qed.

Lemma settings_locked_witness :
  (exists e, apply (run initial [SetIconDir "/i"]) (SetIconDir "/x") = Throw e) /\
  value (SetIconDir "/x") (run (run initial [SetIconDir "/i"]) [SetIconDir "/x"; SetProgDir "/p"]) = "/i".
Proof. apply (settings_locked (run initial [SetIconDir "/i"]) (SetIconDir "/x")). simpl. discriminate. Defined.

End YSettings.

(** ** File lookup *)
Module YPath.

Section path.

(** [lsDir( directory )]: what [readdir()] lists, nothing if [opendir()]
    fails; and the directory of the themes. *)
Context (lsDir : string -> list string) (THEMEDIR : string).

Definition sub (directory name : string) : string := String.append directory (String.append "/" name).

Definition special (name : string) : bool := bool_decide (name = ".") || bool_decide (name = "..").

Section look.
Context (rec : string -> outcome string) (directory filename : string).
(** The loop over the names, until one of them gave a file. *)
Fixpoint lookLoop (fileList : list string) (file : string) : outcome string :=
  match fileList with
  | [] => Done file
  | i :: fileList =>
      if bool_decide (file = "") then
        let! file :=
          if special i then Done file
          else if bool_decide (i = filename) then Done (sub directory i)
          else rec (sub directory i) in
        lookLoop fileList file
      else Done file
  end.
End look.

Fixpoint lookRecursive (n : nat) (directory filename : string) : outcome string :=
  match n with
  | O => NoFuel
  | S n => lookLoop (fun d => lookRecursive n d filename) directory filename (lsDir directory) ""
  end.

(** [s.rfind( "/" )], [None] for [npos]. *)
Fixpoint rfind (s : string) : option nat :=
  match s with
  | EmptyString => None
  | String c s =>
      match rfind s with
      | Some k => Some (S k)
      | None => if Ascii.eqb c (Ascii.ascii_of_nat 47) then Some O else None
      end
  end.

(** [s.substr( pos + 1, npos )]: [npos + 1] is 0. *)
Fixpoint dropS (k : nat) (s : string) : string :=
  match k, s with O, _ => s | S k, String _ s => dropS k s | S _, EmptyString => "" end.
Fixpoint takeS (k : nat) (s : string) : string :=
  match k, s with O, _ => "" | S k, String c s => String c (takeS k s) | S _, EmptyString => "" end.

(** The directories that are searched, in this order. *)
Definition dirList (progSubDir directory : string) (subDirPrepend : option string) : list string :=
  let isThemeDir := bool_decide (directory = THEMEDIR) in
  let hasProgSubDir := negb (bool_decide (progSubDir = "")) in
  let themed d := String.append d "/current" in
  match subDirPrepend with
  | Some p =>
      (if isThemeDir then
         (if hasProgSubDir then [sub (themed (sub directory progSubDir)) p] else []) ++ [sub (themed directory) p]
       else []) ++
      (if hasProgSubDir then [sub (sub directory progSubDir) p] else []) ++ [sub directory p]
  | None => []
  end ++
  (if isThemeDir then (if hasProgSubDir then [themed (sub directory progSubDir)] else []) ++ [themed directory] else []) ++
  (if hasProgSubDir then [sub directory progSubDir] else []) ++ [directory].

(** The loop over the directories; the names are appended to [directory], not
    to the directory they were found in. *)
Fixpoint searchDirs (n : nat) (directory filename : string) (dirs : list string) (fullPath : string) : outcome string :=
  match dirs with
  | [] => Done fullPath
  | x :: dirs =>
      if bool_decide (fullPath = "") then
        let! fullPath := lookLoop (fun d => lookRecursive n d filename) directory filename (lsDir x) fullPath in
        searchDirs n directory filename dirs fullPath
      else Done fullPath
  end.

(** The constructor: the position of the slash is looked for in [fullPath],
    which is still empty. *)
Definition newPath (n : nat) (progSubDir directory filename : string) : outcome string :=
  let fullPath := "" in
  let splitPos := rfind fullPath in
  let filenameNoPrepend := match splitPos with Some k => dropS (S k) filename | None => dropS 0 filename end in
  let subDirPrepend := match splitPos with Some k => Some (takeS k filename) | None => None end in
  let! fullPath := searchDirs n directory filenameNoPrepend (dirList progSubDir directory subDirPrepend) fullPath in
  Done (if bool_decide (fullPath = "") then filename else fullPath).

Definition dir (fullPath : string) : string :=
  match rfind fullPath with Some k => takeS k fullPath | None => fullPath end.

(** ** What is found *)

(** The files of that name below a directory. *)
Inductive found (filename : string) : string -> string -> Prop :=
| FoundHere d : filename ∈ lsDir d -> special filename = false -> found filename d (sub d filename)
| FoundBelow d i p : i ∈ lsDir d -> special i = false -> i <> filename ->
    found filename (sub d i) p -> found filename d p.

(** The directories are a finite tree. *)
Context (rank : string -> nat).
Hypothesis rank_below : forall d i, i ∈ lsDir d -> special i = false -> (rank (sub d i) < rank d)%nat.

Lemma sub_nonempty d i : sub d i <> "".
Proof. unfold sub. by destruct d. Qed.

Lemma found_nonempty f d p : found f d p -> p <> "".
Proof. induction 1; [apply sub_nonempty|done]. Qed.

(** What a loop over names finds. *)
Definition foundIn (rec_ok : string -> string -> Prop) (filename directory : string) (l : list string) (p : string) : Prop :=
  exists i, i ∈ l /\ special i = false /\ (i = filename /\ p = sub directory i \/ i <> filename /\ rec_ok (sub directory i) p).

Lemma lookLoop_spec rec_ (ok : string -> string -> Prop) d f l :
  (forall i, i ∈ l -> special i = false -> exists p, rec_ (sub d i) = Done p /\ (p = "" -> forall q, ~ ok (sub d i) q) /\ (p <> "" -> ok (sub d i) p)) ->
  exists p, lookLoop rec_ d f l "" = Done p /\ (p = "" -> forall q, ~ foundIn ok f d l q) /\ (p <> "" -> foundIn ok f d l p).
Proof.
  assert (Hdone : forall l p, p <> "" -> lookLoop rec_ d f l p = Done p).
  { intros [|i l'] p Hp; [done|]. simpl. by rewrite bool_decide_false. }
  induction l as [|i l IH]; intros Hrec; [exists ""; split; [done|]; split; [|done]; by intros _ q (i & Hi%elem_of_nil & _)|].
  assert (Htail : forall q, foundIn ok f d l q -> foundIn ok f d (i :: l) q).
  { intros q (j & Hj & ?). exists j. split; [by constructor|done]. }
  destruct IH as (p & E & Hn & Hs); [intros j Hj; apply Hrec; by constructor|].
  cbn [lookLoop]. rewrite bool_decide_true by done. destruct (special i) eqn:Hsp.
  { cbn [obind]. exists p. split; [done|]. split; [|auto].
    intros -> q (j & [->|Hj]%elem_of_cons & Hj'); [destruct Hj'; congruence|]. apply (Hn eq_refl q). by exists j. }
  case_bool_decide as Hf; cbn [obind].
  { exists (sub d i). pose proof (sub_nonempty d i). split; [by apply Hdone|]. split; [done|]. intros _. exists i. split; [constructor|auto]. }
  destruct (Hrec i ltac:(constructor) Hsp) as (r & -> & Hrn & Hrs). cbn [obind]. destruct (decide (r = "")) as [->|Hr].
  - exists p. split; [done|]. split; [|auto]. intros -> q (j & [->|Hj]%elem_of_cons & Hj').
    + destruct Hj' as [_ [[? _]|[_ Hq]]]; [done|]. by apply (Hrn eq_refl q).
    + apply (Hn eq_refl q). by exists j.
  - exists r. split; [by apply Hdone|]. split; [done|]. intros _. exists i. split; [constructor|]. split; [done|]. right. auto.
Qed.

Lemma foundIn_found f d q : foundIn (found f) f d (lsDir d) q <-> found f d q.
Proof.
  split.
  - intros (i & Hi & Hs & [[-> ->]|[Hne Hq]]); [by constructor|by apply (FoundBelow f d i)].
  - intros H. inversion H; subst; [exists f; auto|exists i; auto].
Qed.

Lemma lookRecursive_spec n : forall d f, (rank d < n)%nat ->
  exists p, lookRecursive n d f = Done p /\ (p = "" -> forall q, ~ found f d q) /\ (p <> "" -> found f d p).
Proof.
  induction n as [|n IH]; intros d f Hn; [lia|]. cbn [lookRecursive].
  destruct (lookLoop_spec (fun d => lookRecursive n d f) (found f) d f (lsDir d)) as (p & E & Hno & Hyes).
  { intros i Hi Hs. apply IH. pose proof (rank_below d i Hi Hs). lia. }
  exists p. split; [done|]. split; intros H; [intros q; rewrite <- foundIn_found; auto|rewrite <- foundIn_found; auto].
Qed.

(** A plain directory is searched completely: the lookup ends, finds a file of
    that name below the directory if there is one, and gives the name itself
    otherwise. *)
Theorem path_found directory filename : directory <> THEMEDIR ->
  exists p, newPath (S (rank directory)) "" directory filename = Done p /\
    (found filename directory p \/ (p = filename /\ forall q, ~ found filename directory q)).
Proof.
  intros Hd. unfold newPath, dirList. simpl. rewrite (bool_decide_false (directory = THEMEDIR)) by done. cbn [app negb searchDirs].
  rewrite (bool_decide_true ("" = "")) by done.
  destruct (lookLoop_spec (fun d => lookRecursive (S (rank directory)) d filename) (found filename) directory filename (lsDir directory))
    as (p & -> & Hno & Hyes).
  { intros i Hi Hs. apply lookRecursive_spec. pose proof (rank_below directory i Hi Hs). lia. }
  cbn [obind]. exists (if bool_decide (p = "") then filename else p). split; [done|]. case_bool_decide as Hp.
  - right. split; [done|]. intros q. rewrite <- foundIn_found. auto.
  - left. rewrite <- foundIn_found. auto.
Qed.

End path.

(** A directory with a file in a sub-directory. *)
Definition sampleDir (d : string) : list string :=
  if bool_decide (d = "/d") then ["."; ".."; "p"] else if bool_decide (d = "/d/p") then ["."; ".."; "f"] else [].
Definition sampleRank (d : string) : nat :=
  if bool_decide (d = "/d") then 2 else if bool_decide (d = "/d/p") then 1 else 0.

Lemma path_found_witness :
  newPath sampleDir "/theme" 3 "" "/d" "f" = Done "/d/p/f" /\
  exists p, newPath sampleDir "/theme" 3 "" "/d" "f" = Done p /\
    (found sampleDir "f" "/d" p \/ (p = "f" /\ forall q, ~ found sampleDir "f" "/d" q)).
Proof.
  split; [vm_compute; reflexivity|].
  refine (path_found sampleDir "/theme" sampleRank _ "/d" "f" _); [|discriminate].
  intros d i Hi Hs. unfold sampleDir in Hi. case_bool_decide as H1; [|case_bool_decide as H2; [|by apply elem_of_nil in Hi]];
    subst; repeat (apply elem_of_cons in Hi as [->|Hi]; [vm_compute in Hs; (discriminate Hs || (vm_compute; lia))|]); by apply elem_of_nil in Hi.
Defined.

(** A file name with a sub-directory is not found, although the file is there:
    the name is not split at its slash. *)
Theorem path_subdir_not_found :
  newPath sampleDir "/theme" 3 "" "/d" "p/f" = Done "p/f" /\ found sampleDir "f" "/d" "/d/p/f".
Proof.
  split; [vm_compute; reflexivity|].
  apply (FoundBelow sampleDir "f" "/d" "p"); [vm_compute; set_solver|done|done|].
  apply (FoundHere sampleDir "f" "/d/p"); [vm_compute; set_solver|done].
Qed.

(** A file that is found in the preferred sub-directory of the program is
    reported in the directory above, where it is not. *)
Theorem path_prog_dir_wrong :
  newPath sampleDir "/theme" 3 "p" "/d" "f" = Done "/d/f" /\ "f" ∉ sampleDir "/d".
Proof. split; [vm_compute; reflexivity|]. vm_compute. set_solver. Qed.

End YPath.
