(* ===== verification/SelectionClasses.v ===== *)
(** * Item selectors and combo boxes

    Two classes derived from YSelectionWidget: src/libyui/src/YItemSelector.cc
    with application defined status values, completed by
    src/libyui-ncurses/src/NCCustomStatusItemSelector.cc; and
    src/libyui/src/YComboBox.cc, whose value is a text. *)

From S2P Require Import Prelude CNum Shortcut Item SelectionWidget.
Import YItem YSelectionWidget.
Local Open Scope Z_scope.

Module YItemSelector.

(** The application's table of status values: the icon, the text, and the next
    status when the user cycles through them (-1 for none). *)
Record YItemCustomStatus := CustomStatus { _iconName : string; _textIndicator : string; _nextStatus : Z }.

Definition DEFAULT_VISIBLE_ITEMS : Z := 3.

Record selector := Selector {
  base : YSelectionWidget;
  visibleItems : Z;
  customStates : list YItemCustomStatus }.

Definition usingCustomStatus (s : selector) : bool :=
  match customStates s with [] => false | _ => true end.
Definition customStatusCount (s : selector) : Z := Z.of_nat (length (customStates s)).

(** [vector::at()]; its std::out_of_range is a generic exception here. *)
Definition outOfRange : YUIException := YUIGenericException "out_of_range".
Definition customStatus (s : selector) (index : Z) : result YItemCustomStatus :=
  if index <? 0 then Throw outOfRange
  else match customStates s !! Z.to_nat index with Some c => Ok c | None => Throw outOfRange end.

Definition validCustomStatusIndex (s : selector) (index : Z) : bool :=
  (0 <=? index) && (index <? customStatusCount s).

Definition setNextStatus (c : YItemCustomStatus) (value : Z) : YItemCustomStatus :=
  CustomStatus (_iconName c) (_textIndicator c) value.

Definition checkStatus (maxStatus : Z) (c : YItemCustomStatus) : YItemCustomStatus :=
  if _nextStatus c >? maxStatus then setNextStatus c (-1)
  else if _nextStatus c <? -1 then setNextStatus c (-1) else c.

Definition checkCustomStates (s : selector) : result selector :=
  if customStatusCount s <? 2
  then Throw (YUIGenericException "Need at least 2 different custom status value definitions")
  else
    let maxStatus := customStatusCount s - 1 in
    Ok (Selector (base s) (visibleItems s) (checkStatus maxStatus <$> customStates s)).

Definition init (s : selector) : selector :=
  Selector (setEnforceInitialSelection (base s) false) (visibleItems s) (customStates s).

Definition newItemSelector (enforceSingleSelection : bool) : result selector :=
  let? w := newSelectionWidget [] enforceSingleSelection false in
  Ok (init (Selector w DEFAULT_VISIBLE_ITEMS [])).

Definition newCustomSelector (states : list YItemCustomStatus) : result selector :=
  let? w := newSelectionWidget [] false false in
  checkCustomStates (init (Selector w DEFAULT_VISIBLE_ITEMS states)).

Definition setVisibleItems (s : selector) (newVal : Z) : selector :=
  Selector (base s) (if newVal <? 1 then 1 else newVal) (customStates s).

Definition withBase (s : selector) (w : YSelectionWidget) : selector :=
  Selector w (visibleItems s) (customStates s).

Definition checkIndex (index validMin validMax : Z) : result unit :=
  if (index <? validMin) || (index >? validMax)
  then Throw (YUIIndexOutOfRangeException index validMin validMax) else Ok tt.

(** [item->setStatus()] through a pointer. *)
Definition setStatusAt (s : selector) (item : nat) (status : Z) : selector :=
  withBase s (withItems (base s) (updateItem item (fun d => setStatus d status) (itemCollection (base s)))).

(** The text mode indicator looks the status up in the table. *)
Definition updateCustomStatusIndicator (s : selector) (status : Z) : result unit :=
  let? c := customStatus s status in Ok tt.

(** The selector that remains, also if there is an exception. *)
Definition setItemStatus (s : selector) (item : nat) (status : Z) : selector * result unit :=
  if usingCustomStatus s then
    match checkIndex status (-1) (customStatusCount s - 1) with
    | Throw e => (s, Throw e)
    | Ok _ => (setStatusAt s item status, updateCustomStatusIndicator s status)
    end
  else
    match YSelectionWidget.setItemStatus (base s) (Some item) status with
    | Ok w => (withBase s w, Ok tt)
    | Throw e => (s, Throw e)
    end.

Definition cycleCustomStatus (s : selector) (oldStatus : Z) : result Z :=
  if negb (validCustomStatusIndex s oldStatus) then Ok oldStatus
  else let? c := customStatus s oldStatus in Ok (_nextStatus c).

(** The user cycles the status of an item of the text mode widget. *)
Definition cycleCurrentItemStatus (s : selector) (item : itemData) : result selector :=
  let oldStatus := status item in
  let? c := customStatus s oldStatus in
  let newStatus := _nextStatus c in
  if negb (newStatus =? -1) && negb (oldStatus =? newStatus) then
    let s' := setStatusAt s (iid item) newStatus in
    let? _ := updateCustomStatusIndicator s' newStatus in Ok s'
  else Ok s.

Definition statusChangeAllowed (s : selector) (fromStatus toStatus : Z) : result bool :=
  if fromStatus =? toStatus then Ok false
  else if negb (validCustomStatusIndex s fromStatus) || negb (validCustomStatusIndex s toStatus) then Ok false
  else let? c := customStatus s fromStatus in Ok (_nextStatus c =? toStatus).

(** A checked table: every next status is in the table, or none. *)
Definition tableOk (s : selector) : Prop :=
  Forall (fun c => -1 <= _nextStatus c < customStatusCount s) (customStates s).

Lemma customStatus_valid s i : validCustomStatusIndex s i = true ->
  exists c, customStatus s i = Ok c /\ customStates s !! Z.to_nat i = Some c.
Proof.
  unfold validCustomStatusIndex, customStatus, customStatusCount. intros [H1 H2]%andb_true_iff.
  rewrite (proj2 (Z.ltb_ge _ _)) by lia. destruct (lookup_lt_is_Some_2 (customStates s) (Z.to_nat i)) as [c Hc]; [lia|].
  rewrite Hc. eauto.
Qed.

Lemma customStatus_next s i c : tableOk s -> customStatus s i = Ok c -> -1 <= _nextStatus c < customStatusCount s.
Proof.
  unfold customStatus. intros Ht. destruct (_ <? _); [done|]. destruct (customStates s !! _) eqn:E; [|done].
  intros [= <-]. exact (Forall_lookup_1 _ _ _ _ Ht E).
Qed.

Lemma newCustomSelector_ok states s : newCustomSelector states = Ok s ->
  tableOk s /\ customStatusCount s = Z.of_nat (length states) /\ 2 <= customStatusCount s.
Proof.
  unfold newCustomSelector, checkCustomStates, customStatusCount. simpl.
  destruct (Z.ltb_spec (Z.of_nat (length states)) 2); [done|]. intros [= <-]. unfold tableOk, customStatusCount. simpl.
  rewrite length_fmap. split; [|done]. apply Forall_fmap. apply List.Forall_forall. intros c _. simpl.
  unfold checkStatus. zcases; simpl; lia.
Qed.

(** ** The user's changes *)

(** The user and the program change the status of items of the widget. *)
Inductive step (s : selector) : selector -> Prop :=
| StepCycle item s' : In item (all (base s)) -> cycleCurrentItemStatus s item = Ok s' -> step s s'
| StepSet item st s' : setItemStatus s item st = (s', Ok tt) -> step s s'.

Definition statusesOk (s : selector) : Prop :=
  Forall (fun d => 0 <= status d < customStatusCount s) (all (base s)).

Lemma setStatusAt_ok s item st : statusesOk s -> 0 <= st < customStatusCount s -> statusesOk (setStatusAt s item st).
Proof.
  unfold statusesOk, all, customStatusCount. intros Hs Hst. simpl. unfold updateItem. rewrite preorder_map.
  apply Forall_map. eapply Forall_impl; [|exact Hs]. intros d Hd. simpl. by destruct (_ =? _)%nat.
Qed.

Lemma status_step_ok s s' : usingCustomStatus s = true -> tableOk s -> statusesOk s -> step s s' ->
  customStates s' = customStates s /\ statusesOk s'.
Proof.
  intros Hu Ht Hs Hstep. destruct Hstep as [item s' Hin E|item st s' E].
  - unfold cycleCurrentItemStatus in E. destruct (customStatus s (status item)) as [c|] eqn:Hc; simpl in E; [|done].
    pose proof (customStatus_next _ _ _ Ht Hc). destruct (negb (_nextStatus c =? -1)) eqn:H1; simpl in E; [|by simplify_eq].
    destruct (negb (status item =? _nextStatus c)); [|by simplify_eq].
    destruct (updateCustomStatusIndicator _ (_nextStatus c)); simpl in E; [|done]. simplify_eq. split; [done|].
    apply setStatusAt_ok; [done|]. apply negb_true_iff, Z.eqb_neq in H1. lia.
  - unfold setItemStatus in E. rewrite Hu in E. unfold checkIndex in E.
    destruct ((st <? -1) || (st >? customStatusCount s - 1)) eqn:H1; [done|]. simplify_eq. split; [done|].
    apply orb_false_iff in H1 as [H1 H2]. unfold updateCustomStatusIndicator, customStatus in H0.
    apply setStatusAt_ok; [done|]. destruct (Z.ltb_spec st 0); [done|]. lia.
Qed.

Lemma steps_ok s s' : rtc step s s' -> usingCustomStatus s = true -> tableOk s -> statusesOk s ->
  customStates s' = customStates s /\ tableOk s' /\ statusesOk s'.
Proof.
  induction 1 as [s|s s1 s2 H1 _ IH]; intros Hu Ht Hs; [done|]. destruct (status_step_ok _ _ Hu Ht Hs H1) as [Hc Hs1].
  assert (Hu1 : usingCustomStatus s1 = true) by (unfold usingCustomStatus in *; by rewrite Hc).
  assert (Ht1 : tableOk s1) by (unfold tableOk, customStatusCount in *; by rewrite Hc).
  destruct (IH Hu1 Ht1 Hs1) as (Hc2 & ? & ?). split_and!; [congruence|done|done].
Qed.

(** The items of a selector with application defined status values: whatever
    the user and the program do, every item has a status of the table, and the
    user can cycle it without an exception, to the next status of the table or,
    if there is none, not at all. *)
Theorem custom_status_cycle states s0 items s d :
  newCustomSelector states = Ok s0 ->
  statusesOk (withBase s0 (withItems (base s0) items)) ->
  rtc step (withBase s0 (withItems (base s0) items)) s -> In d (all (base s)) ->
  0 <= status d < customStatusCount s /\
  exists next s', cycleCustomStatus s (status d) = Ok next /\ -1 <= next < customStatusCount s /\
    cycleCurrentItemStatus s d = Ok s' /\
    all (base s') = map (fun e => if (iid e =? iid d)%nat && negb (next =? -1) && negb (status d =? next)
                                  then setStatus e next else e) (all (base s)).
Proof.
  intros H0 Hs0 Hr Hin. destruct (newCustomSelector_ok _ _ H0) as (Ht & Hn & Hn2).
  destruct (steps_ok _ _ Hr) as (Hc & Hts & Hss); [|done|done|].
  { unfold usingCustomStatus. simpl. unfold customStatusCount in Hn2. destruct (customStates s0); [simpl in Hn2; lia|done]. }
  pose proof (proj1 (List.Forall_forall _ _) Hss d Hin) as Hd. simpl in Hd. split; [done|].
  assert (Hv : validCustomStatusIndex s (status d) = true) by (unfold validCustomStatusIndex; apply andb_true_iff; lia).
  destruct (customStatus_valid s _ Hv) as (c & Hcs & _). pose proof (customStatus_next _ _ _ Hts Hcs) as Hnext.
  exists (_nextStatus c). unfold cycleCustomStatus, cycleCurrentItemStatus. rewrite Hv, Hcs. simpl.
  assert (Hsame : map (fun e : itemData => e) (all (base s)) = all (base s)) by apply map_id.
  destruct (Z.eqb_spec (_nextStatus c) (-1)) as [E|E]; simpl.
  - exists s. split_and!; try done; try lia. rewrite <- Hsame at 1. apply map_ext. intros x. by rewrite andb_false_r.
  - destruct (Z.eqb_spec (status d) (_nextStatus c)); simpl.
    + exists s. split_and!; try done; try lia. rewrite <- Hsame at 1. apply map_ext. intros x. by rewrite andb_false_r.
    + destruct (customStatus_valid s (_nextStatus c)) as (c' & Hc' & _).
      { unfold validCustomStatusIndex. apply andb_true_iff. lia. }
      unfold updateCustomStatusIndicator. unfold customStatus in *. simpl. rewrite Hc'. simpl. eexists. split_and!; try done; try lia.
      unfold all. simpl. unfold updateItem. rewrite preorder_map. apply map_ext. intros x. by rewrite !andb_true_r.
Qed.

Definition sampleStates : list YItemCustomStatus :=
  [CustomStatus "i0" "[ ]" 1; CustomStatus "i1" "[x]" 7; CustomStatus "i2" "[+]" 0].
Definition sampleItems : list item := [newItem 1 (str "a") [] false; newItem 2 (str "b") [] true].
Definition sample : selector :=
  match newCustomSelector sampleStates with
  | Ok s => withBase s (withItems (base s) sampleItems)
  | Throw _ => Selector (mkWidget [] false false false [] []) 0 []
  end.

Lemma custom_status_cycle_witness :
  0 <= 0 < customStatusCount sample /\
  exists next s', cycleCustomStatus sample 0 = Ok next /\ -1 <= next < customStatusCount sample /\
    cycleCurrentItemStatus sample (data (newItem 1 (str "a") [] false)) = Ok s' /\
    all (base s') = map (fun e => if (iid e =? 1)%nat && negb (next =? -1) && negb (0 =? next)
                                  then setStatus e next else e) (all (base sample)).
Proof.
  eapply (custom_status_cycle sampleStates _ sampleItems sample (data (newItem 1 (str "a") [] false))).
  - vm_compute. reflexivity.
  - repeat constructor; vm_compute; (reflexivity || discriminate).
  - apply rtc_refl.
  - left. reflexivity.
Defined.

(** The status -1 is accepted, but no table has it: the exception comes after
    the item got it, and from then on the user's cycling throws as well. *)
Theorem custom_status_minus_one s d : usingCustomStatus s = true ->
  setItemStatus s (iid d) (-1) = (setStatusAt s (iid d) (-1), Throw outOfRange) /\
  cycleCurrentItemStatus (setStatusAt s (iid d) (-1)) (setStatus d (-1)) = Throw outOfRange.
Proof.
  intros Hu. assert (1 <= customStatusCount s).
  { unfold usingCustomStatus, customStatusCount in *. destruct (customStates s); [done|simpl; lia]. }
  unfold setItemStatus. rewrite Hu. unfold checkIndex.
  replace ((-1 <? -1) || (-1 >? customStatusCount s - 1)) with false by lia. done.
Qed.

(** Contrary to its description, cycling from a status that is not in the table
    does not give -1, but that status. *)
Theorem cycle_invalid_status s oldStatus : validCustomStatusIndex s oldStatus = false ->
  cycleCustomStatus s oldStatus = Ok oldStatus.
Proof. intros H. unfold cycleCustomStatus. by rewrite H. Qed.

End YItemSelector.

(** ** Combo boxes *)
Module YComboBox.

(** The base class and the text in the field, which the UI plug-in stores. *)
Record combo := Combo { widget : YSelectionWidget; editable : bool; text : cstring }.

Definition newComboBox (label : cstring) (editable : bool) : result combo :=
  let? w := newSelectionWidget label true false in Ok (Combo w editable []).

Definition value (c : combo) : cstring := text c.
Definition setText (c : combo) (t : cstring) : combo := Combo (widget c) (editable c) t.
Definition withWidget (c : combo) (w : YSelectionWidget) : combo := Combo w (editable c) (text c).

Definition setValue (c : combo) (newText : cstring) : result combo :=
  match findItem (widget c) newText with
  | Some item =>
      let w := deselectAllItems (widget c) in
      let w := setSelectedAt w (iid item) true in
      Ok (setText (withWidget c w) (YItem.label item))
  | None =>
      if editable c then Ok (setText c newText) else Throw (YUIGenericException "Invalid value")
  end.

Definition selectItem (c : combo) (p : option nat) (selected : bool) : result combo :=
  let? w := YSelectionWidget.selectItem (widget c) p selected in
  let c := withWidget c w in
  if selected then
    match p with
    | Some item =>
        match lookupItem item (itemCollection w) with
        | Some it => Ok (setText c (YItem.label (data it)))
        | None => Ok c
        end
    | None => Ok c
    end
  else Ok c.

Definition selectedItem (c : combo) : combo * option itemData :=
  let currentText := text c in
  let w := deselectAllItems (widget c) in
  match findItem w currentText with
  | Some item => (withWidget c (setSelectedAt w (iid item) true), Some item)
  | None => (withWidget c w, None)
  end.

Definition selectedItems (c : combo) : combo * list itemData :=
  let '(c, item) := selectedItem c in
  (c, match item with Some i => [i] | None => [] end).

Lemma head_filter_fmap {A} (f : A -> A) (P : A -> Prop) `{!forall x, Decision (P x)} l :
  (forall x, P (f x) <-> P x) -> head (filter P (map f l)) = f <$> head (filter P l).
Proof.
  intros Hf. induction l as [|x l IH]; [done|]. simpl. rewrite !filter_cons.
  destruct (decide (P x)) as [HP|HP]; [rewrite decide_True by (by apply Hf); done|].
  rewrite decide_False by (by rewrite Hf). exact IH.
Qed.

Lemma findItem_deselect w t : findItem (deselectAllItems w) t = (fun d => setSelected d false) <$> findItem w t.
Proof. rewrite !findItem_head, all_deselect. by apply head_filter_fmap. Qed.

Lemma findItem_in w t d : findItem w t = Some d -> iid d ∈ ids w /\ YItem.label d = t.
Proof.
  rewrite findItem_head. intros H. destruct (filter _ _) as [|x l] eqn:E; [done|]. simpl in H. simplify_eq.
  assert (Hin : d ∈ filter (fun d => YItem.label d = t) (all w)) by (rewrite E; constructor).
  apply list_elem_of_filter in Hin as [? ?]. split; [|done]. apply list_elem_of_fmap. eauto.
Qed.

(** Selecting one item after all others were deselected. *)
Lemma select_only w p : NoDup (ids w) -> p ∈ ids w ->
  selectedIds (setSelectedAt (deselectAllItems w) p true) = [p].
Proof.
  intros Hnd Hp. unfold selectedIds. rewrite all_setSelectedAt. rewrite <- (ids_deselect w) in Hnd, Hp.
  apply selectedIds_only; [exact Hnd|exact Hp|]. rewrite all_deselect. apply Forall_map.
  apply List.Forall_forall. intros d _ _. done.
Qed.

Lemma selected_none w : selectedIds (deselectAllItems w) = [].
Proof. unfold selectedIds. by rewrite all_deselect, selectedOf_deselect. Qed.

(** The value that was set is the value of the combo box, and the item that is
    then selected, and no other, is the one with that text. A text that no item
    has is a value of an editable combo box only, without a selected item. *)
Theorem combo_value c newText : NoDup (ids (widget c)) ->
  match setValue c newText with
  | Throw _ => editable c = false /\ findItem (widget c) newText = None
  | Ok c' => value c' = newText /\ ids (widget c') = ids (widget c) /\
      let '(c'', item) := selectedItem c' in
      value c'' = newText /\
      (iid <$> item) = (iid <$> findItem (widget c) newText) /\
      selectedIds (widget c'') = match findItem (widget c) newText with Some d => [iid d] | None => [] end
  end.
Proof.
  intros Hnd. unfold setValue. destruct (findItem (widget c) newText) as [d|] eqn:Hf.
  - destruct (findItem_in _ _ _ Hf) as [Hin Hl]. split; [exact Hl|]. simpl.
    rewrite ids_setSelectedAt, ids_deselect. split; [done|].
    unfold selectedItem. simpl. rewrite Hl, findItem_deselect.
    set (w := setSelectedAt (deselectAllItems (widget c)) (iid d) true).
    assert (Hids : ids w = ids (widget c)) by (unfold w; by rewrite ids_setSelectedAt, ids_deselect).
    assert (Hfw : iid <$> findItem w newText = Some (iid d)).
    { rewrite findItem_head in *. unfold w. rewrite all_setSelectedAt, all_deselect, map_map.
      rewrite (head_filter_fmap (fun x => if (iid (setSelected x false) =? iid d)%nat
        then setSelected (setSelected x false) true else setSelected x false)), Hf; [|intros x; by destruct (_ =? _)%nat].
      simpl. by rewrite Nat.eqb_refl. }
    destruct (findItem w newText) as [d'|]; [|done]. simpl in *. injection Hfw as Hd'. split; [done|].
    rewrite Hd'. split; [done|]. apply select_only; [by rewrite Hids|by rewrite Hids].
  - destruct (editable c); [|done]. simpl. split; [done|]. split; [done|]. unfold selectedItem. simpl.
    rewrite findItem_deselect, Hf. simpl. split; [done|]. split; [done|]. apply selected_none.
Qed.

Definition sampleCombo : combo :=
  Combo (mkWidget [] true true false [] [newItem 1 (str "a") [] true; newItem 2 (str "b") [] false]) false (str "a").

Lemma combo_value_witness :
  match setValue sampleCombo (str "b") with
  | Throw _ => editable sampleCombo = false /\ findItem (widget sampleCombo) (str "b") = None
  | Ok c' => value c' = str "b" /\ ids (widget c') = [1; 2]%nat /\
      let '(c'', item) := selectedItem c' in
      value c'' = str "b" /\ (iid <$> item) = Some 2%nat /\ selectedIds (widget c'') = [2]%nat
  end.
Proof. apply (combo_value sampleCombo (str "b")). apply (bool_decide_unpack _). vm_compute. exact I. Defined.

End YComboBox.
