(* ===== verification/InputField.v ===== *)
(** * The input field of the text mode

    src/libyui-ncurses/src/NCInputField.cc: the text the user edits, the cursor
    and the part of the text that is visible. Characters are code points, keys
    are what curses delivers, drawing gives the columns of the line; how many
    columns a character takes is a parameter ([wcwidth] of the C library). *)

From S2P Require Import Prelude CNum.
Local Open Scope Z_scope.

Module NCInputField.

Inductive FTYPE := PLAIN | NUMBER.

(** The members that do not change while the user edits. *)
Record config := Config {
  passwd : bool;
  maxInputLength : Z;
  fldtype : FTYPE;
  validChars : list Z;
  returnOnReturn_b : bool;
  notify : bool }.

(** [win]: whether the window exists. *)
Record field := Field {
  buffer : list Z;
  fldstart : Z;
  fldlength : Z;
  curpos : Z;
  InputMaxLength : Z;
  win : bool }.

Definition newField : field := Field [] 0 0 0 (-1) false.

Definition withBuffer (f : field) (b : list Z) : field :=
  Field b (fldstart f) (fldlength f) (curpos f) (InputMaxLength f) (win f).
Definition withCursor (f : field) (p : Z) : field :=
  Field (buffer f) (fldstart f) (fldlength f) p (InputMaxLength f) (win f).
Definition withStart (f : field) (s : Z) : field :=
  Field (buffer f) s (fldlength f) (curpos f) (InputMaxLength f) (win f).

Definition blen (f : field) : Z := Z.of_nat (length (buffer f)).

(** [buffer.erase( pos, n )] and [buffer.insert( pos, 1, c )], which throw
    std::out_of_range (a generic exception here) behind the end; a position
    below 0 is a very large one in the unsigned type. *)
Definition outOfRange : YUIException := YUIGenericException "out_of_range".
Definition erase (f : field) (pos n : Z) : outcome field :=
  if (pos <? 0) || (pos >? blen f) then Throws outOfRange
  else Done (withBuffer f (take (Z.to_nat pos) (buffer f) ++ drop (Z.to_nat (pos + n)) (buffer f))).
Definition insert_at (f : field) (pos c : Z) : outcome field :=
  if (pos <? 0) || (pos >? blen f) then Throws outOfRange
  else Done (withBuffer f (take (Z.to_nat pos) (buffer f) ++ c :: drop (Z.to_nat pos) (buffer f))).

Section input.

(** The character class of the locale, and the range of the function keys of
    curses. *)
Context (iswprint : Z -> bool) (KEY_MIN KEY_MAX : Z).
Context (c : config).

Definition bufferFull (f : field) : bool :=
  negb (maxInputLength c =? 0) && (blen f =? maxInputLength c).
Definition maxCursor (f : field) : Z := if bufferFull f then blen f - 1 else blen f.

(** The first part of [tUpdate()]: the cursor and the start of the visible
    part. *)
Definition adjust (f : field) : field :=
  let maxc := maxCursor f in
  let f := if curpos f >? maxc then withCursor f maxc else f in
  if maxc <? fldlength f then withStart f 0
  else
    let f := if curpos f <=? fldstart f
             then withStart f (if negb (curpos f =? 0) then curpos f - 1 else 0) else f in
    if curpos f >=? u32 (fldstart f + fldlength f - 1)
    then withStart f (u32 (curpos f + (if curpos f =? maxc then 1 else 2) - fldlength f)) else f.

(** What is drawn into a cell; [Tail] is the rest of a character of more than
    one column. *)
Inductive cell := LArrow | RArrow | Board | Star | Char (ch : Z) | Tail (ch : Z).

Definition show (ch : Z) : cell := if passwd c then Star else Char ch.

(** The second part: what is written, from left to right. The code counts one
    cell for every character it writes. *)
Definition writes (f : field) : list cell :=
  let maxc := maxCursor f in
  let cp := drop (Z.to_nat (fldstart f)) (buffer f) in
  let leftHint := match cp with [] => false | _ => negb (fldstart f =? 0) end in
  let left := if leftHint then [LArrow] else [] in
  let cp := if leftHint then drop 1 cp else cp in
  let rightHint := fldstart f + fldlength f <=? maxc in
  let end_ := if rightHint then fldlength f - 1 else fldlength f in
  let room := Z.to_nat (end_ - Z.of_nat (length left)) in
  let text := map show (take room cp) in
  left ++ text ++ replicate (room - length text) Board ++ (if rightHint then [RArrow] else []).

Definition tUpdate (f : field) : field := if win f then adjust f else f.

(** The text of the program is converted to characters before. The second
    result is whether a ValueChanged event is sent. *)
Definition setValue (f : field) (ntext : list Z) : field * bool :=
  let old_value := buffer f in
  let b := if negb (maxInputLength c =? 0) && (Z.of_nat (length ntext) >? maxInputLength c)
           then take (Z.to_nat (maxInputLength c)) ntext else ntext in
  (tUpdate (Field b 0 (fldlength f) (Z.of_nat (length b)) (InputMaxLength f) (win f)),
   notify c && bool_decide (old_value <> ntext)).

Definition WCHAR_MAX : Z := 2147483647.
Definition validKey (key : Z) : bool :=
  match validChars c with
  | [] => true
  | l => if (key <? 0) || (WCHAR_MAX <? key) then false else bool_decide (key ∈ l)
  end.

(** Several codes of the switch stand for one key; [KEY_OTHER] is a code of its
    default branch. *)
Inductive key :=
| KEY_BACKSPACE | KEY_DC | KEY_HOME | KEY_END | KEY_LEFT | KEY_RIGHT
| KEY_RETURN | KEY_HOTKEY | KEY_OTHER (k : Z).

(** A new field, whether to update the display, and whether to beep. *)
Record reaction := Reaction { now : field; update : bool; beep : bool }.

Definition digit (k : Z) : bool := (48 <=? k) && (k <=? 57).
Definition plus : Z := 43.
Definition minus : Z := 45.
Definition startsWith (ch : Z) (f : field) : bool :=
  match buffer f with x :: _ => x =? ch | [] => false end.
Definition isEmpty (f : field) : bool := match buffer f with [] => true | _ => false end.

(** [buffer.insert( pos, 1, key ); if ( curpos < maxCursor() ) ++curpos;] *)
Definition insertChar (f : field) (pos k : Z) : outcome reaction :=
  let! f := insert_at f pos k in
  Done (Reaction (if curpos f <? maxCursor f then withCursor f (curpos f + 1) else f) true false).

Definition handleNumber (f : field) (k : Z) : outcome reaction :=
  if bufferFull f && negb (k =? plus) then Done (Reaction f false true)
  else if digit k then
    if negb (curpos f =? 0) || isEmpty f || negb (startsWith minus f)
    then insertChar f (curpos f) k else Done (Reaction f false true)
  else if k =? plus then
    if negb (isEmpty f) && startsWith minus f then
      let! f := erase f 0 1 in
      Done (Reaction (if negb (curpos f =? 0) then withCursor f (curpos f - 1) else f) true false)
    else Done (Reaction f false false)
  else if k =? minus then
    if isEmpty f || negb (startsWith minus f) then insertChar f 0 minus else Done (Reaction f false false)
  else Done (Reaction f false true).

Definition handleOther (f : field) (k : Z) : outcome reaction :=
  let is_special := k >? 65535 in
  let k := if is_special then k - 65535 else k in
  if (negb is_special && (KEY_MIN <? k) && (KEY_MAX >? k)) || negb (iswprint k)
     || ((InputMaxLength f >=? 0) && (InputMaxLength f <=? blen f))
  then Done (Reaction f false true)
  else
    match fldtype c with
    | NUMBER => handleNumber f k
    | PLAIN => if bufferFull f || negb (validKey k) then Done (Reaction f false true) else insertChar f (curpos f) k
    end.

Inductive event := none | Activated | ValueChanged.

Definition react (f : field) (k : key) : outcome reaction :=
  let refused := Done (Reaction f false true) in
  match k with
  | KEY_BACKSPACE =>
      if bufferFull f && (curpos f =? maxCursor f) then let! f := erase f (curpos f) 1 in Done (Reaction f true false)
      else if negb (curpos f =? 0) then
        let! f := erase (withCursor f (curpos f - 1)) (curpos f - 1) 1 in Done (Reaction f true false)
      else refused
  | KEY_DC => if curpos f <? blen f then let! f := erase f (curpos f) 1 in Done (Reaction f true false) else refused
  | KEY_HOME => if negb (curpos f =? 0) then Done (Reaction (withCursor f 0) true false) else refused
  | KEY_END => if curpos f <? maxCursor f then Done (Reaction (withCursor f (maxCursor f)) true false) else refused
  | KEY_LEFT => if negb (curpos f =? 0) then Done (Reaction (withCursor f (curpos f - 1)) true false) else refused
  | KEY_RIGHT => if curpos f <? maxCursor f then Done (Reaction (withCursor f (curpos f + 1)) true false) else refused
  | KEY_RETURN | KEY_HOTKEY => Done (Reaction f false false)
  | KEY_OTHER k => handleOther f k
  end.

Definition wHandleInput (f : field) (k : key) : outcome (field * event * bool) :=
  let! r := react f k in
  let ret := match k with
             | KEY_RETURN => if notify c || returnOnReturn_b c then Activated else none
             | _ => none
             end in
  if update r then Done (tUpdate (now r), if notify c then ValueChanged else ret, beep r)
  else Done (now r, ret, beep r).

(** [wCreate()] with a window of that width, and [wDelete()]. *)
Definition wCreate (maxFldLength : Z) (f : field) (width : Z) : field :=
  let l := if negb (maxFldLength =? 0) && (maxFldLength <? width) then maxFldLength else width in
  Field (buffer f) (fldstart f) l (curpos f) (InputMaxLength f) true.
Definition wRedraw (f : field) : field := if win f then tUpdate f else f.
Definition wDelete (f : field) : field :=
  Field (buffer f) (fldstart f) (fldlength f) (curpos f) (InputMaxLength f) false.

Definition setInputMaxLength (f : field) (nr : Z) : outcome field :=
  let! f :=
    if (nr >=? 0) && (blen f >? nr) then
      let! f := erase f nr (maxCursor f - nr) in
      let f := tUpdate f in
      Done (withCursor f (blen f))
    else Done f in
  Done (Field (buffer f) (fldstart f) (fldlength f) (curpos f) nr (win f)).

(** ** The text and the cursor *)

(** The cursor is in the text or right behind it, and the text is not too
    long. *)
Record ok (f : field) : Prop := {
  ok_cursor : 0 <= curpos f <= blen f;
  ok_length : maxInputLength c <> 0 -> blen f <= maxInputLength c }.

Hypothesis maxInput_nonneg : 0 <= maxInputLength c.

Lemma full_spec f : bufferFull f = true <-> maxInputLength c <> 0 /\ blen f = maxInputLength c.
Proof. unfold bufferFull. rewrite andb_true_iff, negb_true_iff. lia. Qed.

Lemma maxCursor_range f : blen f - 1 <= maxCursor f <= blen f /\ 0 <= maxCursor f.
Proof.
  assert (0 <= blen f) by (unfold blen; lia). unfold maxCursor. destruct (bufferFull f) eqn:E; [|lia].
  apply full_spec in E. lia.
Qed.

Lemma erase_spec f p : 0 <= p < blen f ->
  exists b, erase f p 1 = Done (withBuffer f b) /\ Z.of_nat (length b) = blen f - 1 /\
    b = take (Z.to_nat p) (buffer f) ++ drop (S (Z.to_nat p)) (buffer f).
Proof.
  intros Hp. unfold erase, blen in *. rewrite Z.gtb_ltb, !(proj2 (Z.ltb_ge _ _)) by lia. simpl orb. cbn iota.
  replace (Z.to_nat (p + 1)) with (S (Z.to_nat p)) by lia. eexists. split; [done|]. split; [|done].
  rewrite length_app, length_take, length_drop. lia.
Qed.

Lemma insert_spec f p k : 0 <= p <= blen f ->
  exists b, insert_at f p k = Done (withBuffer f b) /\ Z.of_nat (length b) = blen f + 1 /\
    b = take (Z.to_nat p) (buffer f) ++ k :: drop (Z.to_nat p) (buffer f).
Proof.
  intros Hp. unfold insert_at, blen in *. rewrite Z.gtb_ltb, !(proj2 (Z.ltb_ge _ _)) by lia. simpl orb. cbn iota.
  eexists. split; [done|]. split; [|done]. rewrite length_app, length_take. simpl. rewrite length_drop. lia.
Qed.

Lemma adjust_cursor f : buffer (adjust f) = buffer f /\ curpos (adjust f) = Z.min (curpos f) (maxCursor f) /\
  fldlength (adjust f) = fldlength f /\ InputMaxLength (adjust f) = InputMaxLength f /\ win (adjust f) = win f.
Proof.
  unfold adjust. rewrite Z.gtb_ltb. destruct (Z.ltb_spec (maxCursor f) (curpos f)); simpl;
    repeat case_match; simpl; split_and!; try done; lia.
Qed.

Lemma tUpdate_ok f : ok f -> ok (tUpdate f).
Proof.
  intros [Hc Hl]. unfold tUpdate. destruct (win f); [|done]. destruct (adjust_cursor f) as (Hb & Hcur & _).
  pose proof (maxCursor_range f). split; unfold blen in *; rewrite Hb; [rewrite Hcur; lia|done].
Qed.

(** Inserting a character into a text that is not full. *)
Lemma insertChar_ok f p k : ok f -> bufferFull f = false -> 0 <= p <= blen f ->
  exists f', insertChar f p k = Done (Reaction f' true false) /\ ok f' /\
    buffer f' = take (Z.to_nat p) (buffer f) ++ k :: drop (Z.to_nat p) (buffer f) /\
    InputMaxLength f' = InputMaxLength f /\ (curpos f = curpos f' \/ curpos f' = curpos f + 1) /\
    (bufferFull f' = false -> curpos f' = curpos f + 1).
Proof.
  intros [Hc Hl] Hfull Hp. destruct (insert_spec f p k Hp) as (b & E & Hlen & Hb). unfold insertChar. rewrite E. cbn [obind].
  assert (Hmax : maxInputLength c <> 0 -> blen (withBuffer f b) <= maxInputLength c).
  { intros H0. specialize (Hl H0). unfold blen in *. simpl. assert (blen f <> maxInputLength c); [|unfold blen in *; lia].
    intros H1. assert (bufferFull f = true) by (by apply full_spec). congruence. }
  pose proof (maxCursor_range (withBuffer f b)) as Hm. unfold blen in *. simpl in *.
  destruct (Z.ltb_spec (curpos f) (maxCursor (withBuffer f b))).
  - eexists. split; [done|]. split; [split; unfold blen; simpl; [lia|done]|]. simpl. auto.
  - eexists. split; [done|]. split; [split; unfold blen; simpl; [lia|done]|]. simpl. split_and!; auto.
    intros Hf. unfold maxCursor in *. rewrite Hf in *. unfold blen in *. simpl in *. lia.
Qed.

(** What the text is after a key: one character less, one character more at a
    place, or the same. *)
Inductive edit (b : list Z) : list Z -> Prop :=
| EditNone : edit b b
| EditErase (p : nat) : (p < length b)%nat -> edit b (take p b ++ drop (S p) b)
| EditInsert (p : nat) k : (p <= length b)%nat -> (fldtype c = PLAIN -> validKey k = true) ->
    (fldtype c = NUMBER -> (digit k = true /\ (p <> 0%nat \/ head b <> Some minus)) \/
                           (k = minus /\ p = 0%nat /\ head b <> Some minus)) ->
    edit b (take p b ++ k :: drop p b).

Lemma erase_edit f p q : ok f -> 0 <= p < blen f -> 0 <= q < blen f ->
  exists f', erase (withCursor f q) p 1 = Done f' /\ ok f' /\ edit (buffer f) (buffer f') /\
    curpos f' = q /\ InputMaxLength f' = InputMaxLength f.
Proof.
  intros [Hc Hl] Hp Hq. destruct (erase_spec (withCursor f q) p) as (b & E & Hlen & Hb); [done|].
  rewrite E. eexists. split; [done|]. unfold blen in *. simpl in *.
  split_and!; [split; unfold blen; simpl; lia| |done|done]. rewrite Hb. apply EditErase. lia.
Qed.

(** The step a key makes. *)
Definition handled (f : field) (o : outcome reaction) : Prop :=
  exists r, o = Done r /\ ok (now r) /\ edit (buffer f) (buffer (now r)) /\
    InputMaxLength (now r) = InputMaxLength f /\ (update r = false -> now r = f).

Lemma handled_same f u b : ok f -> handled f (Done (Reaction f u b)).
Proof. intros Hok. eexists. split; [done|]. simpl. split_and!; auto using EditNone. Qed.

Lemma handled_move f p b : ok f -> 0 <= p <= blen f -> handled f (Done (Reaction (withCursor f p) true b)).
Proof.
  intros [Hc Hl] Hp. eexists. split; [done|]. split; [split; [done|exact Hl]|]. simpl. split_and!; [apply EditNone|done|done].
Qed.

Lemma withCursor_id f : withCursor f (curpos f) = f.
Proof. by destruct f. Qed.

Lemma handled_erase f p q : ok f -> 0 <= p < blen f -> 0 <= q < blen f ->
  handled f (let! g := erase (withCursor f q) p 1 in Done (Reaction g true false)).
Proof.
  intros Hok Hp Hq. destruct (erase_edit f p q Hok Hp Hq) as (f' & -> & Hok' & He & _ & Hi).
  eexists. split; [done|]. simpl. split_and!; auto. done.
Qed.

Lemma handled_insert f p k : ok f -> bufferFull f = false -> 0 <= p <= blen f ->
  (fldtype c = PLAIN -> validKey k = true) ->
  (fldtype c = NUMBER -> (digit k = true /\ (p <> 0 \/ head (buffer f) <> Some minus)) \/
                         (k = minus /\ p = 0 /\ head (buffer f) <> Some minus)) ->
  handled f (insertChar f p k).
Proof.
  intros Hok Hfull Hp Hv Hn. destruct (insertChar_ok f p k Hok Hfull Hp) as (f' & -> & Hok' & Hb & Hi & _).
  eexists. split; [done|]. simpl. split_and!; [done| |done|done]. rewrite Hb. apply EditInsert; [unfold blen in Hp; lia|done|].
  intros HN. destruct (Hn HN) as [[Hd Hh]|(Hk & H0 & Hh)]; [left|right; split_and!; auto; lia].
  split; [done|]. destruct Hh; [left; lia|by right].
Qed.

Lemma starts_head ch f : startsWith ch f = true <-> head (buffer f) = Some ch.
Proof. unfold startsWith. destruct (buffer f) as [|x l]; simpl; [done|]. rewrite Z.eqb_eq. naive_solver. Qed.

Lemma handleNumber_handled f k : fldtype c = NUMBER -> ok f -> handled f (handleNumber f k).
Proof.
  intros HN Hok. pose proof (ok_cursor _ Hok) as Hc. unfold handleNumber.
  destruct (bufferFull f && negb (k =? plus)) eqn:Hfull; [by apply handled_same|].
  assert (Hroom : k <> plus -> bufferFull f = false).
  { intros Hk. destruct (bufferFull f); [|done]. simpl in Hfull. apply negb_false_iff in Hfull. lia. }
  assert (Hmin : startsWith minus f = false -> head (buffer f) <> Some minus).
  { intros H0 H1. apply starts_head in H1. congruence. }
  destruct (digit k) eqn:Hd; [|destruct (Z.eqb_spec k plus) as [->|Hk]; [|destruct (Z.eqb_spec k minus) as [->|Hk2]]].
  - destruct (_ || _) eqn:Hg; [|by apply handled_same]. apply handled_insert; auto; [|congruence|].
    + apply Hroom. unfold digit, plus in *. lia.
    + intros _. left. split; [done|]. apply orb_true_iff in Hg as [Hg|Hg]; [apply orb_true_iff in Hg as [Hg|Hg]|].
      * left. lia.
      * right. unfold isEmpty in Hg. by destruct (buffer f).
      * right. apply Hmin. by apply negb_true_iff.
  - destruct (negb (isEmpty f) && startsWith minus f) eqn:Hg; [|by apply handled_same].
    apply andb_true_iff in Hg as [_ Hg]. apply starts_head in Hg.
    assert (0 < blen f) by (unfold blen; destruct (buffer f); [done|simpl; lia]).
    destruct (erase_spec f 0) as (b & E & Hlen & Hb); [lia|]. rewrite E. cbn [obind]. eexists. split; [done|]. simpl.
    assert (edit (buffer f) b) by (rewrite Hb; apply EditErase; unfold blen in *; lia).
    destruct Hok as [_ Hl]. unfold blen in *. destruct (Z.eqb_spec (curpos f) 0); simpl;
      (split_and!; [split; unfold blen; simpl; lia|done|done|done]).
  - destruct (_ || _) eqn:Hg; [|by apply handled_same]. apply handled_insert; auto; [lia|congruence|].
    intros _. right. split_and!; [done|done|]. apply orb_true_iff in Hg as [Hg|Hg]; [|by apply Hmin, negb_true_iff].
    unfold isEmpty in Hg. by destruct (buffer f).
  - by apply handled_same.
Qed.

Lemma react_handled f k : ok f -> handled f (react f k).
Proof.
  intros Hok. pose proof (ok_cursor _ Hok) as Hc. pose proof (maxCursor_range f) as Hm. destruct k; simpl.
  - destruct (bufferFull f && (curpos f =? maxCursor f)) eqn:Hg.
    + apply andb_true_iff in Hg as [Hf Hg]. unfold maxCursor in *. rewrite Hf in *.
      rewrite <- (withCursor_id f) at 2. apply handled_erase; [done|lia|lia].
    + destruct (Z.eqb_spec (curpos f) 0); simpl; [by apply handled_same|apply handled_erase; [done|lia|lia]].
  - destruct (Z.ltb_spec (curpos f) (blen f)); [|by apply handled_same].
    rewrite <- (withCursor_id f) at 2. apply handled_erase; [done|lia|lia].
  - destruct (Z.eqb_spec (curpos f) 0); simpl; [by apply handled_same|apply handled_move; [done|lia]].
  - destruct (Z.ltb_spec (curpos f) (maxCursor f)); [apply handled_move; [done|lia]|by apply handled_same].
  - destruct (Z.eqb_spec (curpos f) 0); simpl; [by apply handled_same|apply handled_move; [done|lia]].
  - destruct (Z.ltb_spec (curpos f) (maxCursor f)); [apply handled_move; [done|lia]|by apply handled_same].
  - by apply handled_same.
  - by apply handled_same.
  - unfold handleOther. set (k' := if k >? 65535 then _ else _). destruct (_ || _); [by apply handled_same|].
    destruct (fldtype c) eqn:HN; [|by apply handleNumber_handled].
    destruct (bufferFull f || negb (validKey k')) eqn:Hg; [by apply handled_same|].
    apply orb_false_iff in Hg as [Hf Hv]. apply handled_insert; auto; [|congruence].
    intros _. by apply negb_false_iff.
Qed.

Lemma wHandleInput_ok f k : ok f ->
  exists f' e b, wHandleInput f k = Done (f', e, b) /\ ok f' /\ edit (buffer f) (buffer f') /\
    InputMaxLength f' = InputMaxLength f.
Proof.
  intros Hok. destruct (react_handled f k Hok) as (r & E & Hok' & He & Hi & _). unfold wHandleInput. rewrite E. cbn [obind].
  assert (Hb : buffer (tUpdate (now r)) = buffer (now r) /\ InputMaxLength (tUpdate (now r)) = InputMaxLength (now r)).
  { unfold tUpdate. destruct (win (now r)); [|done]. by destruct (adjust_cursor (now r)) as (? & _ & _ & ? & _). }
  destruct (update r); do 3 eexists; (split; [done|]); [|done]. destruct Hb as [-> ->]. auto using tUpdate_ok.
Qed.

Lemma field_setValue_ok f t : ok (setValue f t).1.
Proof.
  unfold setValue. simpl. apply tUpdate_ok.
  destruct (Z.eqb_spec (maxInputLength c) 0); simpl.
  { split; unfold blen; simpl; lia. }
  rewrite Z.gtb_ltb. destruct (Z.ltb_spec (maxInputLength c) (Z.of_nat (length t))); split; unfold blen; simpl;
    rewrite ?length_take; lia.
Qed.

Lemma setInputMaxLength_ok f nr : ok f -> exists f', setInputMaxLength f nr = Done f' /\ ok f'.
Proof.
  intros Hok. destruct (ok_cursor _ Hok) as [H0 H1]. unfold setInputMaxLength.
  destruct ((nr >=? 0) && (blen f >? nr)) eqn:Hg; cbn [obind]; [|by eexists; split; [done|]; destruct Hok].
  apply andb_true_iff in Hg as [Hn Hg]. unfold erase. rewrite Z.gtb_ltb, !(proj2 (Z.ltb_ge _ _)) by lia. cbn [obind orb].
  set (g := withBuffer f _). eexists. split; [done|].
  assert (Hbuf : buffer (tUpdate g) = buffer g).
  { unfold tUpdate. destruct (win g); [|done]. by destruct (adjust_cursor g) as [? _]. }
  pose proof (maxCursor_range f). assert (blen g <= blen f).
  { unfold g, blen in *. simpl. rewrite length_app, length_take, length_drop. lia. }
  split; unfold blen in *; simpl; rewrite Hbuf; [lia|]. intros Hm. pose proof (ok_length _ Hok Hm). unfold blen in *. lia.
Qed.

(** Everything that happens to a field. *)
Inductive op :=
| OpCreate (maxFldLength width : Z)
| OpDelete
| OpRedraw
| OpSetValue (ntext : list Z)
| OpKey (k : key)
| OpSetInputMaxLength (nr : Z).

Definition perform (f : field) (o : op) : outcome field :=
  match o with
  | OpCreate m w => Done (wCreate m f w)
  | OpDelete => Done (wDelete f)
  | OpRedraw => Done (wRedraw f)
  | OpSetValue t => Done (setValue f t).1
  | OpKey k => let! r := wHandleInput f k in Done r.1.1
  | OpSetInputMaxLength nr => setInputMaxLength f nr
  end.

Lemma perform_ok f o : ok f -> exists f', perform f o = Done f' /\ ok f'.
Proof.
  intros Hok. destruct o; simpl.
  - eexists. split; [done|]. by destruct Hok.
  - eexists. split; [done|]. by destruct Hok.
  - eexists. split; [done|]. unfold wRedraw. destruct (win f); [by apply tUpdate_ok|done].
  - eexists. split; [done|]. apply field_setValue_ok.
  - destruct (wHandleInput_ok f k Hok) as (f' & e & b & -> & Hok' & _). by eexists.
  - by apply setInputMaxLength_ok.
Qed.

Lemma perform_all ops f : ok f -> exists f', ofold perform ops f = Done f' /\ ok f'.
Proof.
  revert f. induction ops as [|o ops IH]; intros f Hok; [by eexists|]. simpl.
  destruct (perform_ok f o Hok) as (f' & -> & Hok'). by apply IH.
Qed.

Lemma newField_ok : ok newField.
Proof. split; unfold blen; simpl; lia. Qed.

(** ** Number fields *)

(** Digits, with one minus sign in front of them at most. *)
Definition numeric (b : list Z) : bool :=
  match b with
  | [] => true
  | x :: r => ((x =? minus) || digit x) && forallb digit r
  end.

Lemma numeric_digits b : forallb digit b = true -> numeric b = true.
Proof. destruct b as [|x r]; [done|]. simpl. intros H. apply andb_true_iff in H as [H1 H2]. by rewrite H1, H2, orb_true_r. Qed.

Lemma numeric_nosign b : numeric b = true -> head b <> Some minus -> forallb digit b = true.
Proof.
  destruct b as [|x r]; [done|]. simpl. intros H Hh. apply andb_true_iff in H as [H1 H2]. rewrite H2, andb_true_r.
  apply orb_true_iff in H1 as [H1|H1]; [|done]. apply Z.eqb_eq in H1. congruence.
Qed.

Lemma forallb_part (P : Z -> bool) p l : forallb P l = true -> forallb P (take p l) = true /\ forallb P (drop p l) = true.
Proof. intros H. rewrite <- (take_drop p l), forallb_app in H. by apply andb_true_iff in H. Qed.

Lemma edit_numeric b b' : fldtype c = NUMBER -> numeric b = true -> edit b b' -> numeric b' = true.
Proof.
  intros HN Hnum He. destruct He as [|p Hp|p k Hp _ Hk]; [done| |].
  - destruct b as [|x r]; [simpl in Hp; lia|]. destruct p as [|p]; simpl.
    { rewrite drop_0. apply numeric_digits. simpl in Hnum. by apply andb_true_iff in Hnum as [_ ?]. }
    simpl in Hnum. apply andb_true_iff in Hnum as [-> Hr]. rewrite forallb_app. simpl.
    destruct (forallb_part digit p r Hr) as [-> _]. by destruct (forallb_part digit (S p) r Hr) as [_ ->].
  - destruct (Hk HN) as [[Hd Hh]|(-> & -> & Hh)].
    + destruct p as [|p]; simpl.
      { rewrite drop_0. destruct Hh as [|Hh]; [done|]. rewrite Hd, orb_true_r. simpl. by apply numeric_nosign. }
      destruct b as [|x r]; [simpl in Hp; lia|]. simpl. simpl in Hnum. apply andb_true_iff in Hnum as [-> Hr].
      destruct (forallb_part digit p r Hr) as [Ht Hdr]. rewrite forallb_app. simpl. by rewrite Ht, Hd, Hdr.
    + simpl. rewrite drop_0. by apply numeric_nosign.
Qed.

(** ** Drawing *)

Definition shown (o : option Z) : cell := match o with Some ch => show ch | None => Board end.

Lemma text_cells n (l : list Z) r j : (j < n)%nat ->
  (map show (take n l) ++ replicate (n - length (map show (take n l))) Board ++ r) !! j = Some (shown (l !! j)).
Proof.
  intros Hj. rewrite length_map, length_take. destruct (decide (j < length l)%nat) as [Hl|Hl].
  - rewrite lookup_app_l by (rewrite length_map, length_take; lia).
    change (map show) with (fmap (M := list) show). rewrite list_lookup_fmap, lookup_take_lt by lia.
    destruct (lookup_lt_is_Some_2 l j Hl) as [ch ->]. done.
  - rewrite lookup_app_r by (rewrite length_map, length_take; lia). rewrite length_map, length_take.
    rewrite lookup_app_l by (rewrite length_replicate; lia). rewrite lookup_replicate_2 by lia.
    by rewrite lookup_ge_None_2 by lia.
Qed.

Lemma text_length n (l : list Z) : (length (map show (take n l)) +
  length (replicate (n - length (map show (take n l))) Board) = n)%nat.
Proof. rewrite length_replicate, length_map, length_take. lia. Qed.

(** The cell of a character that no arrow covers. *)
Lemma writes_cell f i : 0 <= fldstart f -> 0 <= i -> fldstart f = 0 \/ 1 <= i ->
  i < (if fldstart f + fldlength f <=? maxCursor f then fldlength f - 1 else fldlength f) ->
  writes f !! Z.to_nat i = Some (shown (buffer f !! Z.to_nat (fldstart f + i))).
Proof.
  intros Hs Hi Hleft Hend. unfold writes. set (end_ := if _ <=? _ then _ else _) in *.
  rewrite Z2Nat.inj_add, <- lookup_drop by done. destruct (drop (Z.to_nat (fldstart f)) (buffer f)) as [|x cp] eqn:Hcp.
  { simpl app at 1. rewrite text_cells; [done|simpl; lia]. }
  destruct (Z.eqb_spec (fldstart f) 0) as [H0|H0]; simpl negb; cbn iota; [apply text_cells; simpl; lia|].
  destruct Hleft as [|Hi1]; [done|]. replace (Z.to_nat i) with (S (Z.to_nat (i - 1))) by lia.
  cbn [app lookup list_lookup drop]. rewrite drop_0. apply text_cells. simpl length. lia.
Qed.

Lemma writes_length f : 2 <= fldlength f -> length (writes f) = Z.to_nat (fldlength f).
Proof.
  intros Hl. unfold writes. set (right := fldstart f + fldlength f <=? maxCursor f). rewrite !length_app, (Nat.add_assoc (length (map _ _))), text_length.
  destruct (match drop _ _ with [] => _ | _ => _ end), right; simpl length; lia.
Qed.

(** The characters that are written are characters of the text, and none in a
    password field. *)
Lemma writes_chars f x : x ∈ writes f ->
  match x with Char ch => passwd c = false /\ ch ∈ buffer f | Tail _ => False | _ => True end.
Proof.
  unfold writes. rewrite !elem_of_app. intros [H|[H|[H|H]]].
  - case_match; [by apply list_elem_of_singleton in H as ->|by apply not_elem_of_nil in H].
  - apply list_elem_of_In, in_map_iff in H as (ch & <- & Hin). unfold show.
    destruct (passwd c); [done|]. split; [done|]. apply list_elem_of_In in Hin.
    apply (subseteq_take _ _ ch) in Hin. case_match; [apply (subseteq_drop 1 _ ch) in Hin|];
      by apply (subseteq_drop _ (buffer f) ch) in Hin.
  - by apply elem_of_replicate in H as [-> _].
  - case_match; [by apply list_elem_of_singleton in H as ->|by apply not_elem_of_nil in H].
Qed.

(** Where [adjust] leaves the visible part. *)
Lemma adjust_start f : 0 <= curpos f <= blen f -> 3 <= fldlength f < 2 ^ 31 -> 0 <= fldstart f < 2 ^ 31 -> blen f < 2 ^ 31 ->
  let g := adjust f in let i := curpos g - fldstart g in
  0 <= fldstart g /\ 0 <= i /\ (fldstart g = 0 \/ 1 <= i) /\
  i < (if fldstart g + fldlength g <=? maxCursor g then fldlength g - 1 else fldlength g).
Proof.
  intros Hc Hl Hs Hb g i. destruct (adjust_cursor f) as (Hbuf & Hcur & Hlen & _). fold g in Hbuf, Hcur, Hlen.
  assert (Hmax : maxCursor g = maxCursor f) by (unfold maxCursor, bufferFull, blen; by rewrite Hbuf).
  pose proof (maxCursor_range f) as Hm. unfold i. rewrite Hcur, Hlen, Hmax. unfold g, adjust, u32.
  set (m := maxCursor f) in *. set (q := Z.min (curpos f) m) in *.
  assert (Hq : curpos (if curpos f >? m then withCursor f m else f) = q).
  { rewrite Z.gtb_ltb. destruct (Z.ltb_spec m (curpos f)); simpl; lia. }
  assert (Hst : fldstart (if curpos f >? m then withCursor f m else f) = fldstart f) by (by case_match).
  assert (Hle : fldlength (if curpos f >? m then withCursor f m else f) = fldlength f) by (by case_match).
  set (h := if curpos f >? m then withCursor f m else f) in *. rewrite Hle.
  destruct (Z.ltb_spec m (fldlength f)); simpl; [case_match; lia|].
  rewrite Hq, Hst. set (s0 := if q <=? fldstart f then (if negb (q =? 0) then q - 1 else 0) else fldstart f).
  set (h2 := if q <=? fldstart f then withStart h _ else h).
  assert (H2 : curpos h2 = q /\ fldstart h2 = s0 /\ fldlength h2 = fldlength f).
  { unfold h2, s0. destruct (q <=? fldstart f); simpl; auto. }
  destruct H2 as (-> & H2s & ->). rewrite H2s.
  assert (Hs0 : 0 <= s0 < 2 ^ 31 /\ (s0 < q \/ s0 = 0 /\ q = 0)).
  { unfold s0. destruct (Z.leb_spec q (fldstart f)); [|lia]. destruct (Z.eqb_spec q 0); simpl; lia. }
  rewrite (Z.mod_small (s0 + _ - 1)) by lia. rewrite Z.geb_leb. destruct (Z.leb_spec (s0 + fldlength f - 1) q); simpl.
  - assert (Hw : 0 <= q + (if q =? m then 1 else 2) - fldlength f < 2 ^ 32) by (destruct (q =? m); lia).
    rewrite Z.mod_small by done. destruct (Z.eqb_spec q m); case_match; lia.
  - rewrite H2s. case_match; lia.
Qed.

(** ** Columns *)

Section columns.

(** The columns a character takes. *)
Context (wcwidth : Z -> Z).

(** The columns the writes take. *)
Definition columns (x : cell) : list cell :=
  match x with
  | Char ch =>
      match Z.to_nat (wcwidth ch) with
      | O => []
      | S n => Char ch :: replicate n (Tail ch)
      end
  | _ => [x]
  end.

Definition draw (f : field) : list cell := flat_map columns (writes f).

(** Every visible character takes one column. *)
Definition narrow (f : field) : Prop :=
  passwd c = false -> Forall (fun ch => wcwidth ch = 1) (buffer f).

Lemma draw_narrow f : narrow f -> draw f = writes f.
Proof.
  intros Hn. unfold draw. pose proof (writes_chars f) as Hw. induction (writes f) as [|x l IH]; [done|].
  simpl. rewrite IH by (intros y Hy; apply Hw; by right). specialize (Hw x ltac:(left)).
  destruct x as [| | | |ch|ch]; try done. destruct Hw as [Hp Hin].
  simpl. by rewrite (proj1 (List.Forall_forall _ _) (Hn Hp) ch ltac:(by apply list_elem_of_In)).
Qed.

(** C12: In a field of at least three cells whose visible characters take one
    column each (or that shows stars), [tUpdate] fills the cells exactly and
    leaves the cursor on one of them, which shows the character the cursor is
    on, or the empty field behind the text: no arrow covers it. With
    characters of two columns the cursor is misplaced ([wide_cursor]). *)
Theorem cursor_visible f :
  0 <= curpos f <= blen f -> 3 <= fldlength f < 2 ^ 31 -> 0 <= fldstart f < 2 ^ 31 -> blen f < 2 ^ 31 -> win f = true ->
  narrow f ->
  let g := tUpdate f in
  buffer g = buffer f /\ length (draw g) = Z.to_nat (fldlength f) /\
  0 <= curpos g - fldstart g < fldlength f /\
  draw g !! Z.to_nat (curpos g - fldstart g) = Some (shown (buffer g !! Z.to_nat (curpos g))).
Proof.
  intros Hc Hl Hs Hb Hw Hn. replace (tUpdate f) with (adjust f) by (unfold tUpdate; by rewrite Hw). intros g.
  destruct (adjust_start f Hc Hl Hs Hb) as (H0 & Hi & Hleft & Hend). fold g in H0, Hi, Hleft, Hend.
  destruct (adjust_cursor f) as (Hbuf & _ & Hlen & _). fold g in Hbuf, Hlen.
  rewrite draw_narrow by (unfold narrow; by rewrite Hbuf).
  split_and!; [done|rewrite writes_length by lia; by rewrite Hlen|lia|case_match; lia|].
  rewrite writes_cell by done. do 3 f_equal. lia.
Qed.

(** A password field shows none of its characters. *)
Theorem password_hidden f ch : passwd c = true -> (Char ch ∉ draw f) /\ (Tail ch ∉ draw f).
Proof.
  intros Hp. rewrite draw_narrow by (unfold narrow; congruence).
  split; intros H; apply writes_chars in H; [destruct H; congruence|done].
Qed.

End columns.

(** ** Typing *)

(** A code that is typed as it is. *)
Definition typable (k : Z) : bool :=
  (k <=? 65535) && negb ((KEY_MIN <? k) && (KEY_MAX >? k)) && iswprint k && validKey k.

Definition typeKey (f : field) (k : Z) : outcome field := perform f (OpKey (KEY_OTHER k)).

Lemma tUpdate_end f : bufferFull f = false -> curpos f = blen f ->
  buffer (tUpdate f) = buffer f /\ InputMaxLength (tUpdate f) = InputMaxLength f /\ curpos (tUpdate f) = curpos f.
Proof.
  intros Hf Hc. unfold tUpdate. destruct (win f); [|done]. destruct (adjust_cursor f) as (-> & -> & _ & -> & _).
  split_and!; [done|done|]. unfold maxCursor. rewrite Hf. lia.
Qed.

Lemma typeKey_refused f k : fldtype c = PLAIN -> bufferFull f = true -> typeKey f k = Done f.
Proof.
  intros HP Hf. unfold typeKey, perform, wHandleInput, react, handleOther. rewrite HP, Hf. simpl orb. by destruct (_ || _).
Qed.

Lemma typeKey_end f k : fldtype c = PLAIN -> ok f -> InputMaxLength f < 0 -> bufferFull f = false ->
  curpos f = blen f -> typable k = true ->
  exists f', typeKey f k = Done f' /\ ok f' /\ buffer f' = buffer f ++ [k] /\ InputMaxLength f' < 0 /\
    (bufferFull f' = false -> curpos f' = blen f').
Proof.
  intros HP Hok Hi Hf Hc Hk. unfold typable in Hk. rewrite !andb_true_iff in Hk. destruct Hk as [[[Hk1 Hk2] Hk3] Hk4].
  destruct (wHandleInput_ok f (KEY_OTHER k) Hok) as (f' & e & b & E & Hok' & _ & Hi'). unfold typeKey, perform. rewrite E.
  exists f'. split; [done|]. split; [done|]. unfold wHandleInput, react, handleOther in E.
  rewrite Z.gtb_ltb, (proj2 (Z.ltb_ge _ _)), HP, Hf, Hk3, Hk4 in E by lia. simpl negb in E. simpl andb in E.
  apply negb_true_iff in Hk2. rewrite Hk2, Z.geb_leb, (proj2 (Z.leb_gt 0 _)) in E by lia. simpl in E.
  destruct (insertChar_ok f (curpos f) k Hok Hf (ok_cursor _ Hok)) as (g & Eg & Hg & Hb & Hig & _ & Hcg). rewrite Eg in E.
  simpl in E. injection E as <- <- <-. rewrite Hc in Hb. unfold blen in Hb. rewrite Nat2Z.id, firstn_all, drop_all in Hb.
  assert (Hbt : buffer (tUpdate g) = buffer g).
  { unfold tUpdate. destruct (win g); [|done]. by destruct (adjust_cursor g) as [? _]. }
  split_and!; [by rewrite Hbt|lia|]. intros Hnf.
  assert (Hng : bufferFull g = false) by (unfold bufferFull, blen in *; by rewrite Hbt in Hnf).
  assert (Hge : curpos g = blen g) by (rewrite (Hcg Hng), Hc; unfold blen; rewrite Hb, length_app; simpl; lia).
  destruct (tUpdate_end g Hng Hge) as (_ & _ & ->). unfold blen in *. by rewrite Hbt.
Qed.

(** What fits into the field. *)
Definition fitting (b : list Z) : list Z :=
  if maxInputLength c =? 0 then b else take (Z.to_nat (maxInputLength c)) b.

Lemma fitting_ok f : ok f -> fitting (buffer f) = buffer f.
Proof.
  intros [_ Hl]. unfold fitting, blen in *. destruct (Z.eqb_spec (maxInputLength c) 0); [done|]. apply firstn_all2. lia.
Qed.

Lemma typed_from ks f : fldtype c = PLAIN -> ok f -> InputMaxLength f < 0 ->
  (bufferFull f = false -> curpos f = blen f) -> forallb typable ks = true ->
  exists f', ofold typeKey ks f = Done f' /\ buffer f' = fitting (buffer f ++ ks).
Proof.
  intros HP. revert f. induction ks as [|k ks IH]; intros f Hok Hi Hc Hk.
  { eexists. split; [done|]. by rewrite app_nil_r, fitting_ok. }
  simpl in Hk. apply andb_true_iff in Hk as [Hk Hks]. simpl. destruct (bufferFull f) eqn:Hf.
  - rewrite typeKey_refused by done. cbn [obind]. destruct (IH f Hok Hi ltac:(congruence) Hks) as (f' & -> & Hb).
    eexists. split; [done|]. rewrite Hb. apply full_spec in Hf as [H0 Hl]. unfold fitting, blen in *.
    rewrite (proj2 (Z.eqb_neq _ _)) by done. by rewrite !take_app_le by lia.
  - destruct (typeKey_end f k HP Hok Hi Hf (Hc eq_refl) Hk) as (f1 & -> & Hok1 & Hb1 & Hi1 & Hc1). cbn [obind].
    destruct (IH f1 Hok1 Hi1 Hc1 Hks) as (f' & -> & Hb). eexists. split; [done|]. rewrite Hb, Hb1. by rewrite <- app_assoc.
Qed.

(** ** What the field promises *)

(** No key inserts a character beyond the limit of [setInputMaxLength()]. *)
Lemma edit_grows b b' : edit b b' -> (length b' <= S (length b))%nat.
Proof.
  intros []; [lia| |]; rewrite length_app, length_take; simpl; rewrite length_drop; lia.
Qed.

Lemma erase_shrinks f p n f' : erase f p n = Done f' -> 0 <= n -> blen f' <= blen f.
Proof.
  unfold erase. destruct (_ || _) eqn:Hg; [done|]. intros [= <-] Hn. unfold blen. simpl.
  rewrite length_app, length_take, length_drop. lia.
Qed.

Lemma react_limit f k r : ok f -> react f k = Done r ->
  blen (now r) <= blen f \/ InputMaxLength f < 0 \/ blen (now r) <= InputMaxLength f.
Proof.
  intros Hok E. destruct (react_handled f k Hok) as (r' & E' & _ & He & _). rewrite E in E'. injection E' as <-.
  apply edit_grows in He. unfold blen in *.
  assert (Hone : forall g p, buffer g = buffer f ->
    (let! g := erase g p 1 in Done (Reaction g true false)) = Done r ->
    Z.of_nat (length (buffer (now r))) <= Z.of_nat (length (buffer f))).
  { intros g p Hg. destruct (erase g p 1) as [g'| | |] eqn:Eg; simpl; [|done..]. intros [= <-]. simpl.
    apply erase_shrinks in Eg; [|lia]. unfold blen in Eg. by rewrite Hg in Eg. }
  destruct k; simpl in E; try (left; repeat case_match; first [by eapply Hone; [|exact E]|by simplify_eq/=]).
  unfold handleOther in E. destruct (_ || _ || _) eqn:Hg; [left; by simplify_eq/=|].
  apply orb_false_iff in Hg as [_ Hg]. right. unfold blen in Hg. lia.
Qed.

Lemma key_limit f k f' : ok f -> perform f (OpKey k) = Done f' ->
  blen f' <= blen f \/ InputMaxLength f < 0 \/ blen f' <= InputMaxLength f.
Proof.
  intros Hok. simpl. unfold wHandleInput. destruct (react f k) as [r| | |] eqn:E; simpl; [|done..].
  apply react_limit in E; [|done].
  assert (blen (tUpdate (now r)) = blen (now r)).
  { unfold tUpdate, blen. destruct (win (now r)); [|done]. by destruct (adjust_cursor (now r)) as [-> _]. }
  destruct (update r); intros [= <-]; simpl; lia.
Qed.

(** C13: Whatever happens to a field, creating and deleting its window,
    setting its value or its limit, any keys, no operation on the text is out
    of range, the cursor stays in the text or right behind it, and the text is
    not longer than the maximum the field was created with (if it was created
    with one). The limit of [setInputMaxLength()] holds for typing: no key
    makes the text longer than that limit. (It does not hold for a text the
    program sets, [value_over_limit].) *)
Theorem input_field_safe ops :
  exists f, ofold perform ops newField = Done f /\ 0 <= curpos f <= blen f /\
    (maxInputLength c <> 0 -> blen f <= maxInputLength c) /\
    forall k, exists f', perform f (OpKey k) = Done f' /\
      (blen f' <= blen f \/ InputMaxLength f < 0 \/ blen f' <= InputMaxLength f).
Proof.
  destruct (perform_all ops newField newField_ok) as (f & E & Hok). exists f. split; [done|].
  split; [apply Hok|]. split; [apply Hok|]. intros k.
  destruct (perform_ok f (OpKey k) Hok) as (f' & Ek & _). exists f'. split; [done|]. by eapply key_limit.
Qed.

(** Keys keep the text of a number field a number: digits, with a minus sign
    only in front. *)
Theorem number_kept f k : fldtype c = NUMBER -> 0 <= curpos f <= blen f ->
  (maxInputLength c <> 0 -> blen f <= maxInputLength c) -> numeric (buffer f) = true ->
  exists f' e b, wHandleInput f k = Done (f', e, b) /\ numeric (buffer f') = true.
Proof.
  intros HN Hc Hl Hn. destruct (wHandleInput_ok f k (Build_ok f Hc Hl)) as (f' & e & b & E & _ & He & _).
  exists f', e, b. split; [done|]. by eapply edit_numeric.
Qed.

(** Text typed into an empty field is its value, as far as it fits. *)
Theorem input_typed ks f : fldtype c = PLAIN -> buffer f = [] -> curpos f = 0 -> InputMaxLength f < 0 ->
  forallb typable ks = true ->
  exists f', ofold typeKey ks f = Done f' /\ buffer f' = fitting ks.
Proof.
  intros HP Hb Hc Hi Hk.
  destruct (typed_from ks f HP) as (f' & E & Hf); [|done| |done|].
  - split; unfold blen; rewrite Hb; simpl; lia.
  - intros _. unfold blen. by rewrite Hb, Hc.
  - exists f'. by rewrite E, Hf, Hb.
Qed.

(** [setInputMaxLength] cuts a text that does not fill the buffer to the
    limit. *)
Theorem input_limit_set f nr : 0 <= nr < blen f -> bufferFull f = false ->
  exists f', setInputMaxLength f nr = Done f' /\ buffer f' = take (Z.to_nat nr) (buffer f) /\
    InputMaxLength f' = nr.
Proof.
  intros Hn Hf. unfold setInputMaxLength.
  rewrite Z.geb_leb, Z.gtb_ltb, (proj2 (Z.leb_le _ _)), (proj2 (Z.ltb_lt _ _)) by lia. simpl andb. cbn iota.
  unfold erase. rewrite Z.gtb_ltb, !(proj2 (Z.ltb_ge _ _)) by lia. cbn [obind orb]. eexists. split; [done|]. simpl. split; [|done].
  set (g := withBuffer f _). assert (buffer (tUpdate g) = buffer g) as ->.
  { unfold tUpdate. destruct (win g); [|done]. by destruct (adjust_cursor g) as [? _]. }
  unfold g. simpl. unfold maxCursor. rewrite Hf. replace (nr + (blen f - nr)) with (blen f) by lia.
  unfold blen. by rewrite Nat2Z.id, drop_all, app_nil_r.
Qed.

End input.

(** ** Boundaries *)

Section boundaries.

Definition limited : config := Config false 5 PLAIN [] false false.
Definition unlimited : config := Config false 0 PLAIN [] false false.

(** Five characters fill the buffer: the limit three keeps four of them, the
    last one among them. *)
Theorem input_limit_exceeded :
  exists f, setInputMaxLength limited (Field [97; 98; 99; 100; 101] 0 10 4 (-1) true) 3 = Done f /\
    buffer f = [97; 98; 99; 101] /\ InputMaxLength f = 3.
Proof. eexists. split; [vm_compute; reflexivity|]. done. Qed.

(** A program sets a text that is longer than the limit it has set. *)
Theorem value_over_limit :
  exists f, ofold (perform (fun _ => true) 256 511 unlimited)
    [OpSetInputMaxLength 3; OpSetValue [97; 98; 99; 100; 101; 102]] newField = Done f /\
    blen f = 6 /\ InputMaxLength f = 3.
Proof. eexists. split; [vm_compute; reflexivity|]. done. Qed.

(** All characters take one column, or all take two. *)
Definition narrowWidth (ch : Z) : Z := 1.
Definition wideWidth (ch : Z) : Z := 2.

(** Two characters of two columns each in a field of four cells, the cursor on
    the second one: it is displayed on the right half of the first one, and
    the line is longer than the field. *)
Theorem wide_cursor :
  let f := tUpdate unlimited (Field [26085; 26412] 0 4 1 (-1) true) in
  curpos f - fldstart f = 1 /\
  draw unlimited wideWidth f = [Char 26085; Tail 26085; Char 26412; Tail 26412; Board; Board].
Proof. vm_compute. done. Qed.

(** In a field of two cells the left arrow covers the cursor; in a field of one
    cell the text starts behind the cursor. *)
Theorem narrow_field_cursor :
  let f2 := tUpdate unlimited (Field [97; 98; 99] 0 2 1 (-1) true) in
  let f1 := tUpdate unlimited (Field [97; 98; 99] 0 1 0 (-1) true) in
  (curpos f2 - fldstart f2 = 0 /\ draw unlimited narrowWidth f2 !! 0%nat = Some LArrow) /\ curpos f1 < fldstart f1.
Proof. vm_compute. done. Qed.

Definition printable (k : Z) : bool := (32 <=? k) && (k <? 127).

Lemma input_field_safe_witness :
  exists f, ofold (perform printable 256 511 limited)
    [OpCreate 0 3; OpSetValue [97; 98; 99; 100; 101; 102]; OpKey KEY_BACKSPACE; OpKey (KEY_OTHER 120)] newField = Done f /\
    0 <= curpos f <= blen f /\ (5 <> 0 -> blen f <= 5) /\
    forall k, exists f', perform printable 256 511 limited f (OpKey k) = Done f' /\
      (blen f' <= blen f \/ InputMaxLength f < 0 \/ blen f' <= InputMaxLength f).
Proof. apply (input_field_safe printable 256 511 limited). vm_compute. discriminate. Defined.

Lemma cursor_visible_witness :
  let f := Field [97; 98; 99; 100; 101; 102] 0 4 4 (-1) true in
  let g := tUpdate unlimited f in
  draw unlimited narrowWidth g = [LArrow; Char 100; Char 101; RArrow] /\
  draw unlimited narrowWidth g !! Z.to_nat (curpos g - fldstart g) = Some (Char 101).
Proof.
  split; [vm_compute; reflexivity|].
  apply (cursor_visible unlimited ltac:(done) narrowWidth (Field [97; 98; 99; 100; 101; 102] 0 4 4 (-1) true));
    first [intros _; by repeat constructor|unfold blen; simpl; lia || done].
Defined.

End boundaries.
End NCInputField.
