(* ===== verification/Position.v ===== *)
(** * Positions, sizes and rectangles of the text mode

    src/libyui-ncurses/src/position.h: pairs of numbers compared and combined
    component by component, and the rectangles windows are created with. *)

From S2P Require Import Prelude.

Module Wpos.

(** A screen position is (line, column), a size is (height, width); the classes
    wpos and wsze add names for the members of wpair. *)
Record wpair := WPair { A : Z; B : Z }.

Abbreviation pL := A (only parsing).
Abbreviation pC := B (only parsing).
Abbreviation sH := A (only parsing).
Abbreviation sW := B (only parsing).

#[global] Instance wpair_eq_dec : EqDecision wpair.
Proof. solve_decision. Defined.

(** [wpair( int v )]. *)
Definition both (v : Z) : wpair := WPair v v.

Definition plus (l r : wpair) : wpair := WPair (A l + A r) (B l + B r).
Definition minus (l r : wpair) : wpair := WPair (A l - A r) (B l - B r).
Definition times (l r : wpair) : wpair := WPair (A l * A r) (B l * B r).
Definition over (l r : wpair) : wpair := WPair (Z.quot (A l) (A r)) (Z.quot (B l) (B r)).

(** The comparisons hold if they hold for both members. *)
Definition eqb (l r : wpair) : bool := (A l =? A r) && (B l =? B r).
Definition gtb (l r : wpair) : bool := (A l >? A r) && (B l >? B r).
Definition ltb (l r : wpair) : bool := (A l <? A r) && (B l <? B r).
Definition geb (l r : wpair) : bool := (A l >=? A r) && (B l >=? B r).
Definition leb (l r : wpair) : bool := (A l <=? A r) && (B l <=? B r).

Definition min (l r : wpair) : wpair :=
  WPair (if A l <? A r then A l else A r) (if B l <? B r then B l else B r).
Definition max (l r : wpair) : wpair :=
  WPair (if A l >? A r then A l else A r) (if B l >? B r then B l else B r).
Definition between (p Min Max : wpair) : wpair := min (max p Min) Max.

Record wrect := WRect { Pos : wpair; Sze : wpair }.

Definition noRect : wrect := WRect (both 0) (both 0).

Definition inside (r : wrect) : wrect :=
  let incpos := both 1 in
  let decsze := both 2 in
  let '(incpos, decsze) := if sH (Sze r) <? 2 then (WPair 0 (pC incpos), WPair 0 (sW decsze)) else (incpos, decsze) in
  let '(incpos, decsze) := if sW (Sze r) <? 2 then (WPair (pL incpos) 0, WPair (sH decsze) 0) else (incpos, decsze) in
  WRect (plus (Pos r) incpos) (minus (Sze r) decsze).

Definition intersectRelTo (r par : wrect) : wrect :=
  if negb (ltb (Pos r) (Sze par)) then noRect
  else
    let p := Pos r in
    let s := Sze r in
    let s := if sH s <? 0 then WPair (sH (Sze par) - pL p) (sW s) else s in
    let s := if sW s <? 0 then WPair (sH s) (sW (Sze par) - pC p) else s in
    if negb (geb (plus p s) (both 0)) then noRect
    else
      let '(p, s) := if pL p <? 0 then (WPair 0 (pC p), WPair (sH s + pL p) (sW s)) else (p, s) in
      let '(p, s) := if pC p <? 0 then (WPair (pL p) 0, WPair (sH s) (sW s + pC p)) else (p, s) in
      WRect p (min s (minus (Sze par) p)).

(** ** Properties *)

Lemma wpair_eta p : p = WPair (A p) (B p).
Proof. by destruct p. Qed.

Lemma min_spec l r : min l r = WPair (Z.min (A l) (A r)) (Z.min (B l) (B r)).
Proof. unfold min. f_equal; zcases; lia. Qed.

Lemma max_spec l r : max l r = WPair (Z.max (A l) (A r)) (Z.max (B l) (B r)).
Proof. unfold max. f_equal; zcases; lia. Qed.

Lemma between_spec p lo hi :
  between p lo hi = WPair (Z.min (Z.max (A p) (A lo)) (A hi)) (Z.min (Z.max (B p) (B lo)) (B hi)).
Proof. unfold between. by rewrite min_spec, max_spec. Qed.

(** The cells of a rectangle. *)
Definition covers (r : wrect) (l c : Z) : Prop :=
  pL (Pos r) <= l < pL (Pos r) + sH (Sze r) /\ pC (Pos r) <= c < pC (Pos r) + sW (Sze r).

(** A negative size stands for all that is left of the parent. *)
Definition expanded (r par : wrect) : wrect :=
  WRect (Pos r) (WPair (if sH (Sze r) <? 0 then sH (Sze par) - pL (Pos r) else sH (Sze r))
                       (if sW (Sze r) <? 0 then sW (Sze par) - pC (Pos r) else sW (Sze r))).

Lemma noRect_covers l c : ~ covers noRect l c.
Proof. unfold covers. simpl. lia. Qed.

(** The intersection has exactly the cells of the rectangle that are cells of
    the parent. *)
Theorem intersect_cells r par l c :
  covers (intersectRelTo r par) l c <->
  covers (expanded r par) l c /\ 0 <= l < sH (Sze par) /\ 0 <= c < sW (Sze par).
Proof.
  destruct r as [[pl pc] [sh sw]], par as [pp [ph pw]]. unfold intersectRelTo, expanded, ltb, geb. simpl.
  destruct ((pl <? ph) && (pc <? pw)) eqn:E1; simpl; [|pose proof (noRect_covers l c)].
  - apply andb_true_iff in E1 as [Hl Hc]. set (sh' := if sh <? 0 then ph - pl else sh).
    assert (Hs : (if sw <? 0 then WPair (sH (if sh <? 0 then WPair (ph - pl) sw else WPair sh sw)) (pw - pc)
                  else if sh <? 0 then WPair (ph - pl) sw else WPair sh sw) =
                 WPair sh' (if sw <? 0 then pw - pc else sw)) by (unfold sh'; by destruct (sw <? 0), (sh <? 0)).
    replace (sW (if sh <? 0 then WPair (ph - pl) sw else WPair sh sw)) with sw by (by destruct (sh <? 0)).
    rewrite Hs. set (sw' := if sw <? 0 then pw - pc else sw). simpl.
    destruct ((pl + sh' >=? 0) && (pc + sw' >=? 0)) eqn:E2; simpl.
    + rewrite !Z.geb_leb in E2. destruct (Z.ltb_spec pl 0); simpl; destruct (Z.ltb_spec pc 0); simpl;
        unfold covers; simpl; zcases; lia.
    + pose proof (noRect_covers l c) as Hn. rewrite !Z.geb_leb in E2. apply andb_false_iff in E2. unfold covers in *. simpl in *. lia.
  - apply andb_false_iff in E1. unfold covers in *. simpl in *. lia.
Qed.

(** A rectangle with a border: [inside] has the cells that are not on it. *)
Theorem inside_cells r l c : 2 <= sH (Sze r) -> 2 <= sW (Sze r) ->
  covers (inside r) l c <->
  covers r l c /\ l <> pL (Pos r) /\ l <> pL (Pos r) + sH (Sze r) - 1 /\
  c <> pC (Pos r) /\ c <> pC (Pos r) + sW (Sze r) - 1.
Proof.
  intros Hh Hw. unfold inside. rewrite !(proj2 (Z.ltb_ge _ _)) by lia. unfold covers. simpl. lia.
Qed.

End Wpos.
