(* ===== verification/Pad.v ===== *)
(** * Scrolling in the text mode

    src/libyui-ncurses/src: the scroll bars of NCPadWidget.cc and the pads of
    NCPad.cc and NCPad.h, virtual windows of which a part is visible. *)

From S2P Require Import Prelude CNum Position.
Import Wpos.

(** ** Scroll bars *)

Module NCScrollbar.

(** The members that drawing depends on, [unsigned] each. *)
Record scrollbar := Scrollbar { len : Z; total : Z; visible : Z; at_ : Z }.

Definition newScrollbar (l : Z) : scrollbar := Scrollbar (if negb (l =? 0) then l else 1) 0 0 0.

Definition adjust (s : scrollbar) : scrollbar :=
  let v := if visible s >? total s then total s else visible s in
  let a := if u32 (at_ s + v) >? total s then u32 (total s - v) else at_ s in
  Scrollbar (len s) (total s) v a.

(** What is drawn: [Line] in the plain style, the others in the style of the
    bar. *)
Inductive glyph := Line | Forward | Backward | BarOne | BarBegin | BarEnd | BarLine.

(** [addch] at a position of the window along the bar. *)
Definition addch (cells : list glyph) (p : Z) (g : glyph) : list glyph := <[Z.to_nat p := g]> cells.

(** [hline] or [vline] of that length. *)
Fixpoint line (cells : list glyph) (p : Z) (n : nat) : list glyph :=
  match n with
  | O => cells
  | S n' => line (addch cells p BarLine) (p + 1) n'
  end.

Definition draw_bar (cells : list glyph) (p l : Z) : list glyph :=
  if l =? 0 then cells
  else if l =? 1 then addch cells p BarOne
  else
    let e := u32 (p + l - 1) in
    let l := l - 2 in
    let cells := addch (addch cells p BarBegin) e BarEnd in
    if negb (l =? 0) then line cells (p + 1) (Z.to_nat l) else cells.

(** [bat] and [blen] of the third case of the switch; an unsigned division by
    zero is undefined. *)
Definition barAt (s : scrollbar) : outcome (Z * Z) :=
  let topvis := at_ s =? 0 in
  let botvis := u32 (at_ s + visible s) =? total s in
  if u32 (visible s + 1) =? total s then
    Done (if negb (at_ s =? 0) then 1 else 0, u32 (len s - 1))
  else if total s =? 0 then Undefined
  else
    let blen := u32 (u32 (visible s * u32 (len s - 2)) / total s + 1) in
    Done (if Bool.eqb topvis botvis then u32 (u32 (at_ s * u32 (len s - 2)) / total s + 1)
          else if topvis then 0 else u32 (len s - blen), blen).

Definition draw (s : scrollbar) : outcome (list glyph) :=
  let topvis := at_ s =? 0 in
  let botvis := u32 (at_ s + visible s) =? total s in
  let empty := replicate (Z.to_nat (len s)) Line in
  if topvis && botvis then Done empty
  else if len s =? 1 then
    Done (addch empty 0 (if Bool.eqb topvis botvis then BarOne else if topvis then Forward else Backward))
  else if len s =? 2 then
    let cells := if negb topvis then addch empty 0 Backward else empty in
    Done (if negb botvis then addch cells (len s - 1) Forward else cells)
  else
    let! bar := barAt s in
    Done (draw_bar empty (fst bar) (snd bar)).

Definition set (s : scrollbar) (tot vis start : Z) : scrollbar :=
  adjust (Scrollbar (len s) tot vis start).

(** ** The bar *)

(** Numbers that do not overflow. *)
Definition fits (s : scrollbar) : Prop :=
  1 <= len s < 2 ^ 31 /\ 0 <= visible s < 2 ^ 31 /\ 0 <= at_ s < 2 ^ 31 /\
  0 <= total s < 2 ^ 31 /\ total s * len s < 2 ^ 32.

Lemma adjust_spec s : fits s -> let a := adjust s in
  fits a /\ len a = len s /\ total a = total s /\ visible a = Z.min (visible s) (total s) /\
  at_ a = Z.min (at_ s) (total s - visible a).
Proof.
  intros (Hl & Hv & Ha & Ht & Hp). unfold adjust, fits. simpl. set (v := if visible s >? total s then _ else _).
  assert (Ev : v = Z.min (visible s) (total s)) by (unfold v; zcases; lia).
  rewrite (u32_id (at_ s + v)), (u32_id (total s - v)) by lia. split_and!; try done; try (zcases; lia); lia.
Qed.

(** A bar that fits into its range. *)
Definition adjusted (s : scrollbar) : Prop := fits s /\ at_ s + visible s <= total s.

Lemma floor_sum a b c : 0 < c -> a / c + b / c <= (a + b) / c.
Proof.
  intros Hc. apply Z.div_le_lower_bound; [done|].
  pose proof (Z.mul_div_le a c Hc). pose proof (Z.mul_div_le b c Hc). lia.
Qed.

(** Less than all of the range takes less than all of the inner cells. *)
Lemma floor_short a n t : 0 <= a < t -> 0 < n -> 0 <= a * n / t <= n - 1.
Proof.
  intros Ha Hn. split; [apply Z.div_pos; nia|]. assert (a * n / t < n); [|lia]. apply Z.div_lt_upper_bound; nia.
Qed.

Lemma barAt_spec s : adjusted s -> 3 <= len s -> ~ (at_ s = 0 /\ visible s = total s) ->
  exists bat blen, barAt s = Done (bat, blen) /\ 0 <= bat /\ 1 <= blen /\ bat + blen <= len s /\
    (bat = 0 <-> at_ s = 0) /\ (bat + blen = len s <-> at_ s + visible s = total s).
Proof.
  intros [(Hl & Hv & Ha & Ht & Hp) Hs] H3 Hnot. unfold barAt.
  rewrite (u32_id (at_ s + visible s)), (u32_id (visible s + 1)), (u32_id (len s - 1)), !(u32_id (len s - 2)) by lia.
  destruct (Z.eqb_spec (visible s + 1) (total s)).
  { do 2 eexists. split; [done|]. destruct (Z.eqb_spec (at_ s) 0); simpl; lia. }
  assert (Hvis : visible s < total s) by lia.
  destruct (Z.eqb_spec (total s) 0); [lia|].
  pose proof (floor_short (visible s) (len s - 2) (total s)) as Fv. pose proof (floor_short (at_ s) (len s - 2) (total s)) as Fa.
  pose proof (floor_sum (at_ s * (len s - 2)) (visible s * (len s - 2)) (total s)) as Fs.
  rewrite <- Z.mul_add_distr_r in Fs. pose proof (floor_short (at_ s + visible s) (len s - 2) (total s)) as Fav.
  rewrite !(u32_id (visible s * _)), !(u32_id (at_ s * _)) by nia.
  set (bv := visible s * (len s - 2) / total s) in *. set (ba := at_ s * (len s - 2) / total s) in *.
  rewrite !(u32_id (bv + 1)) by lia. do 2 eexists. split; [done|].
  destruct (Z.eqb_spec (at_ s) 0) as [E0|E0], (Z.eqb_spec (at_ s + visible s) (total s)); simpl; try lia.
  - rewrite u32_id by lia. lia.
  - rewrite u32_id by lia. lia.
Qed.

Lemma addch_length cells p g : length (addch cells p g) = length cells.
Proof. apply length_insert. Qed.

Lemma line_lookup n : forall cells p i, 0 <= p -> (Z.of_nat i < p \/ p + Z.of_nat n <= Z.of_nat i) ->
  line cells p n !! i = cells !! i.
Proof.
  induction n as [|n IH]; intros cells p i Hp Hi; simpl; [done|]. rewrite IH by lia.
  apply list_lookup_insert_ne. lia.
Qed.

Lemma line_inside n : forall cells p i, 0 <= p -> p + Z.of_nat n <= Z.of_nat (length cells) ->
  p <= Z.of_nat i < p + Z.of_nat n -> line cells p n !! i = Some BarLine.
Proof.
  induction n as [|n IH]; intros cells p i Hp Hc Hi; [lia|]. simpl.
  destruct (decide (Z.of_nat i = p)) as [E|E]; [|apply IH; rewrite ?addch_length; lia].
  rewrite line_lookup by lia. unfold addch. replace (Z.to_nat p) with i by lia. apply list_lookup_insert_eq. lia.
Qed.

Lemma line_length n : forall cells p, length (line cells p n) = length cells.
Proof. induction n as [|n IH]; intros; simpl; [done|]. by rewrite IH, addch_length. Qed.

(** The glyph of a bar of length [l] at its [k]-th cell. *)
Definition barGlyph (l k : Z) : glyph :=
  if l =? 1 then BarOne else if k =? 0 then BarBegin else if k =? l - 1 then BarEnd else BarLine.

Lemma draw_bar_cells n p l i : 0 <= p -> 1 <= l -> p + l <= Z.of_nat n -> Z.of_nat n < 2 ^ 31 -> (i < n)%nat ->
  length (draw_bar (replicate n Line) p l) = n /\
  draw_bar (replicate n Line) p l !! i =
    Some (if (p <=? Z.of_nat i) && (Z.of_nat i <? p + l) then barGlyph l (Z.of_nat i - p) else Line).
Proof.
  intros Hp Hl Hn H31 Hi. unfold draw_bar, barGlyph. rewrite (u32_id (p + l - 1)) by lia.
  assert (Hlk : replicate n Line !! i = Some Line) by (by apply lookup_replicate_2).
  destruct (Z.eqb_spec l 0); [lia|]. destruct (Z.eqb_spec l 1).
  { split; [by rewrite addch_length, length_replicate|]. unfold addch.
    destruct (decide (i = Z.to_nat p)) as [->|Hne].
    - rewrite list_lookup_insert_eq by (rewrite length_replicate; lia). zcases; simpl; done || lia.
    - rewrite list_lookup_insert_ne by done. rewrite Hlk. zcases; simpl; done || lia. }
  set (cells := addch (addch _ p BarBegin) _ BarEnd).
  assert (Hc : length cells = n) by (unfold cells; by rewrite !addch_length, length_replicate).
  assert (Hends : cells !! i = Some (if Z.of_nat i =? p then BarBegin else if Z.of_nat i =? p + l - 1 then BarEnd else Line)).
  { unfold cells, addch. destruct (decide (i = Z.to_nat (p + l - 1))) as [->|H1].
    - rewrite list_lookup_insert_eq by (rewrite length_insert, length_replicate; lia). zcases; done || lia.
    - rewrite list_lookup_insert_ne by done. destruct (decide (i = Z.to_nat p)) as [->|H2].
      + rewrite list_lookup_insert_eq by (rewrite length_replicate; lia). zcases; done || lia.
      + rewrite list_lookup_insert_ne, Hlk by done. zcases; done || lia. }
  destruct (Z.eqb_spec (l - 2) 0); simpl; [split; [done|]; rewrite Hends; zcases; simpl; done || lia|].
  split; [by rewrite line_length|].
  destruct (decide (p + 1 <= Z.of_nat i < p + 1 + (l - 2))) as [Hin|Hout].
  - rewrite line_inside by lia. zcases; simpl; done || lia.
  - rewrite line_lookup, Hends by lia. zcases; simpl; done || lia.
Qed.

(** A scroll bar of three cells or more shows a bar of at least one cell that
    touches an end of the scroll bar exactly if that end of the contents is
    visible. *)
Theorem scrollbar_drawn s : adjusted s -> 3 <= len s -> ~ (at_ s = 0 /\ visible s = total s) ->
  exists bat blen cells, draw s = Done cells /\ 0 <= bat /\ 1 <= blen /\ bat + blen <= len s /\
    (bat = 0 <-> at_ s = 0) /\ (bat + blen = len s <-> at_ s + visible s = total s) /\
    Z.of_nat (length cells) = len s /\
    forall i, (i < Z.to_nat (len s))%nat ->
      cells !! i = Some (if (bat <=? Z.of_nat i) && (Z.of_nat i <? bat + blen) then barGlyph blen (Z.of_nat i - bat) else Line).
Proof.
  intros Hs H3 Hnot. destruct (barAt_spec s Hs H3 Hnot) as (bat & blen & E & H0 & H1 & Hlen & Htop & Hbot).
  destruct Hs as [(Hl & Hv & Ha & Ht & _) Hsum]. exists bat, blen, (draw_bar (replicate (Z.to_nat (len s)) Line) bat blen).
  split_and!; try done; [| |].
  - unfold draw. rewrite (u32_id (at_ s + visible s)) by lia.
    destruct (Z.eqb_spec (at_ s) 0), (Z.eqb_spec (at_ s + visible s) (total s)); simpl; try lia;
      (destruct (Z.eqb_spec (len s) 1); [lia|]; destruct (Z.eqb_spec (len s) 2); [lia|]; by rewrite E).
  - destruct (draw_bar_cells (Z.to_nat (len s)) bat blen 0) as [-> _]; lia.
  - intros i Hi. apply draw_bar_cells; lia.
Qed.

(** Without anything to scroll the bar is a plain line. *)
Theorem scrollbar_plain s : adjusted s -> at_ s = 0 -> visible s = total s ->
  draw s = Done (replicate (Z.to_nat (len s)) Line).
Proof.
  intros [(Hl & Hv & Ha & Ht & _) _] H0 Hv2. unfold draw. rewrite u32_id by lia. rewrite H0, Hv2, Z.add_0_l, !Z.eqb_refl. done.
Qed.

(** Bars of one and two cells have an arrow for each end that is not visible. *)
Theorem scrollbar_small s : adjusted s -> ~ (at_ s = 0 /\ visible s = total s) ->
  let top := at_ s =? 0 in let bot := at_ s + visible s =? total s in
  (len s = 1 -> draw s = Done [if Bool.eqb top bot then BarOne else if top then Forward else Backward]) /\
  (len s = 2 -> draw s = Done [if top then Line else Backward; if bot then Line else Forward]).
Proof.
  intros [(Hl & Hv & Ha & Ht & _) Hsum] Hnot top bot. unfold draw. rewrite u32_id by lia. fold top bot.
  assert (top && bot = false) as ->. { unfold top, bot. apply andb_false_iff. lia. }
  split; intros ->; [done|]. simpl. by destruct top, bot.
Qed.

End NCScrollbar.

(** ** Pads *)

Module NCPad.

(** A window of the screen a pad is shown in: its identity and its size. *)
Record window := Window { wid : nat; wsize : wpair }.

#[global] Instance window_eq_dec : EqDecision window.
Proof. solve_decision. Defined.

(** [_vheight] is the height of the contents of a pad that is higher than the
    terminal library can represent; such a pad has the height of a page. *)
Record pad := Pad {
  height : Z;
  width : Z;
  _vheight : Z;
  destwin : option window;
  drect : wrect;
  srect : wrect;
  maxdpos : wpair;
  maxspos : wpair;
  dclear : bool;
  dirty : bool }.

Definition PAD_PAGESIZE : Z := 1024.

Section pad.

(** [MAX_PAD_HEIGHT], the largest coordinate of the terminal library, and what
    the receiver of [AdjustPadSize] makes of a size. *)
Context (MAX_PAD_HEIGHT : Z) (AdjustPadSize : wpair -> wpair).

Definition newPad (lines cols : Z) : pad :=
  Pad (if lines >? MAX_PAD_HEIGHT then PAD_PAGESIZE else lines) cols
    (if lines >? MAX_PAD_HEIGHT then lines else 0) None noRect noRect (both 0) (both 0) false false.

Definition vheight (p : pad) : Z := if negb (_vheight p =? 0) then _vheight p else height p.
Definition paging (p : pad) : bool := negb (_vheight p =? 0).

Definition withPos (p : pad) (pos : wpair) : pad :=
  Pad (height p) (width p) (_vheight p) (destwin p) (drect p) (WRect pos (Sze (srect p))) (maxdpos p) (maxspos p) (dclear p) (dirty p).
Definition withDirty (p : pad) (d : bool) : pad :=
  Pad (height p) (width p) (_vheight p) (destwin p) (drect p) (srect p) (maxdpos p) (maxspos p) (dclear p) d.

(** The calls to the terminal library and to the receiver of the scroll
    hints. *)
Inductive effect :=
| Clear
| VSet (total visible start : Z)
| HSet (total visible start : Z)
| DirectDraw (row lineno : Z)
| Copywin (sminrow smincol dminrow dmincol dmaxrow dmaxcol : Z).

Definition updateScrollHint (p : pad) : list effect :=
  [VSet (sH (Sze (srect p)) + pL (maxspos p)) (sH (Sze (srect p))) (pL (Pos (srect p)));
   HSet (sW (Sze (srect p)) + pC (maxspos p)) (sW (Sze (srect p))) (pC (Pos (srect p)))].

(** The part of [update()] after the check for [dirty]. *)
Definition paint (p : pad) : list effect :=
  (if dclear p then [Clear] else []) ++ updateScrollHint p ++
  if negb (paging p) then
    [Copywin (pL (Pos (srect p))) (pC (Pos (srect p))) (pL (Pos (drect p))) (pC (Pos (drect p))) (pL (maxdpos p)) (pC (maxdpos p))]
  else
    map (fun i => DirectDraw (Z.of_nat i) (pL (Pos (srect p)) + Z.of_nat i)) (seq 0 (Z.to_nat (pL (maxdpos p) + 1))) ++
    [Copywin 0 (pC (Pos (srect p))) (pL (Pos (drect p))) (pC (Pos (drect p))) (pL (maxdpos p)) (pC (maxdpos p))].

Definition CurPos (p : pad) : wpair := Pos (srect p).

(** [update()] of a dirty pad calls [dirtyPad()], which resets the flag and
    calls [setpos( CurPos() )], which calls [update()] again. *)
Definition update (p : pad) : pad * list effect :=
  match destwin p with
  | None => (p, [])
  | Some _ =>
      let p := if dirty p then withPos (withDirty p false) (between (CurPos p) (both 0) (maxspos p)) else p in
      (p, paint p)
  end.

Definition setpos (p : pad) (newpos : wpair) : pad * list effect :=
  update (withPos p (between newpos (both 0) (maxspos p))).

(** The members for a window, and without one. *)
Definition attach (p : pad) (w : window) : pad :=
  let mysze := WPair (vheight p) (width p) in
  let drect := WRect (both 0) (wsize w) in
  let srect := WRect (both 0) (min mysze (Sze drect)) in
  let maxdpos := minus (plus (Pos drect) (Sze srect)) (both 1) in
  let maxspos := minus mysze (Sze srect) in
  Pad (height p) (width p) (_vheight p) (Some w) drect srect maxdpos maxspos
    (negb (eqb (Sze drect) (Sze srect))) (dirty p).
Definition detach (p : pad) : pad :=
  Pad (height p) (width p) (_vheight p) None noRect noRect (both 0) (both 0) (dclear p) (dirty p).

(** [Destwin( dwin )]; [setpos] and [CurPos] are virtual. *)
Definition setDestwin (p : pad) (dwin : option window) : pad * list effect :=
  if bool_decide (dwin = destwin p) then (p, [])
  else
    match dwin with
    | Some w => let p := attach p w in setpos p (CurPos p)
    | None => (detach p, [])
    end.

Definition resize (p : pad) (nsze : wpair) : pad * list effect :=
  let nsze := AdjustPadSize nsze in
  if (negb (sH nsze =? vheight p)) || (negb (sW nsze =? width p)) then
    let odest := destwin p in
    let p := match odest with Some _ => fst (setDestwin p None) | None => p end in
    let p :=
      if sH nsze >? MAX_PAD_HEIGHT
      then Pad PAD_PAGESIZE (sW nsze) (sH nsze) (destwin p) (drect p) (srect p) (maxdpos p) (maxspos p) (dclear p) (dirty p)
      else Pad (sH nsze) (sW nsze) 0 (destwin p) (drect p) (srect p) (maxdpos p) (maxspos p) (dclear p) (dirty p) in
    match odest with Some _ => setDestwin p odest | None => (p, []) end
  else (p, []).

Definition setDirty (p : pad) : pad := withDirty p true.

Definition adjpos (p : pad) (offset : wpair) : pad * list effect := setpos p (plus (CurPos p) offset).
Definition ScrlLine (p : pad) (l : Z) := setpos p (WPair l (pC (Pos (srect p)))).
Definition ScrlCol (p : pad) (c : Z) := setpos p (WPair (pL (Pos (srect p))) c).
Definition ScrlDown (p : pad) (lines : Z) := adjpos p (WPair lines 0).
Definition ScrlUp (p : pad) (lines : Z) := adjpos p (WPair (- lines) 0).
Definition ScrlRight (p : pad) (cols : Z) := adjpos p (WPair 0 cols).
Definition ScrlLeft (p : pad) (cols : Z) := adjpos p (WPair 0 (- cols)).
Definition ScrlToLastLine (p : pad) := ScrlDown p (vheight p).

Inductive key := KEY_UP | KEY_PPAGE | KEY_HOME | KEY_DOWN | KEY_NPAGE | KEY_END | KEY_LEFT | KEY_RIGHT | KEY_OTHER.

(** [destwin->maxy()]; without a window a null pointer is followed. *)
Definition page (p : pad) : outcome Z :=
  match destwin p with Some w => Done (sH (wsize w) - 1) | None => Undefined end.

(** The new pad, the calls, and whether the key was handled. *)
Definition handleInput (p : pad) (k : key) : outcome (pad * list effect * bool) :=
  match k with
  | KEY_UP => Done (ScrlUp p 1, true)
  | KEY_PPAGE => let! n := page p in Done (ScrlUp p n, true)
  | KEY_HOME => Done (ScrlUp p (vheight p), true)
  | KEY_DOWN => Done (ScrlDown p 1, true)
  | KEY_NPAGE => let! n := page p in Done (ScrlDown p n, true)
  | KEY_END => Done (ScrlDown p (vheight p), true)
  | KEY_LEFT => Done (ScrlLeft p 1, true)
  | KEY_RIGHT => Done (ScrlRight p 1, true)
  | KEY_OTHER => Done ((p, []), false)
  end.

(** ** The visible part *)

(** The size of the contents. *)
Definition contents (p : pad) : wpair := WPair (vheight p) (width p).

(** What the members are, depending on the window. *)
Record shown (p : pad) (w : window) : Prop := {
  sh_drect : drect p = WRect (both 0) (wsize w);
  sh_size : Sze (srect p) = min (contents p) (wsize w);
  sh_maxdpos : maxdpos p = minus (Sze (srect p)) (both 1);
  sh_maxspos : maxspos p = minus (contents p) (Sze (srect p));
  sh_dclear : dclear p = negb (eqb (wsize w) (Sze (srect p)));
  sh_line : 0 <= pL (Pos (srect p)) <= vheight p - sH (Sze (srect p));
  sh_col : 0 <= pC (Pos (srect p)) <= width p - sW (Sze (srect p)) }.

Definition nonneg (s : wpair) : Prop := 0 <= A s /\ 0 <= B s.

Record ok (p : pad) : Prop := {
  ok_contents : nonneg (contents p);
  ok_height : paging p = true -> height p = PAD_PAGESIZE;
  ok_hidden : destwin p = None -> srect p = noRect /\ maxspos p = both 0;
  ok_shown : forall w, destwin p = Some w -> nonneg (wsize w) /\ shown p w }.

Lemma min_sub a b : A (minus a (min a b)) = Z.max 0 (A a - A b) /\ B (minus a (min a b)) = Z.max 0 (B a - B b).
Proof. rewrite min_spec. simpl. lia. Qed.

Lemma withDirty_id p : dirty p = false -> withDirty p false = p.
Proof. destruct p; simpl. by intros ->. Qed.

(** [setpos] in a window. *)
Lemma setpos_shown p w newpos : ok p -> destwin p = Some w ->
  exists q, setpos p newpos = (q, paint q) /\ ok q /\ destwin q = Some w /\ contents q = contents p /\ dirty q = false /\
    paging q = paging p /\
    Pos (srect q) = between newpos (both 0) (minus (contents p) (min (contents p) (wsize w))).
Proof.
  intros [Hc Hh Hn Hs] Hw. destruct (Hs w Hw) as [Hww [H1 H2 H3 H4 H5 H6 H7]]. unfold setpos, update. simpl. rewrite Hw.
  set (pos := between newpos (both 0) (maxspos p)).
  assert (Hpos : between pos (both 0) (maxspos p) = pos).
  { unfold pos. rewrite H4, H2, !between_spec. simpl. destruct (min_sub (contents p) (wsize w)). simpl in *. f_equal; lia. }
  unfold CurPos. simpl. rewrite Hpos. exists (withPos (withDirty p false) pos).
  split; [destruct (dirty p) eqn:Hd; [done|]; by rewrite (withDirty_id p Hd)|].
  assert (Hp : pos = between newpos (both 0) (minus (contents p) (min (contents p) (wsize w)))).
  { unfold pos. by rewrite H4, H2. }
  assert (0 <= A pos <= vheight p - sH (Sze (srect p)) /\ 0 <= B pos <= width p - sW (Sze (srect p))) as [HA HB].
  { rewrite Hp, between_spec, H2. destruct (min_sub (contents p) (wsize w)). simpl in *. lia. }
  split; [|by split_and!]. split; simpl; [done|done|congruence|]. intros w' Hw'.
  replace w' with w by congruence. split; [done|]. by split.
Qed.

Lemma setpos_hidden p newpos : ok p -> destwin p = None -> setpos p newpos = (p, []) .
Proof.
  intros [Hc Hh Hn Hs] Hw. destruct (Hn Hw) as [Hsr Hms]. unfold setpos, update. simpl. rewrite Hw, Hms. f_equal.
  assert (between newpos (both 0) (both 0) = both 0) as -> by (rewrite between_spec; simpl; unfold both; f_equal; lia).
  destruct p; simpl in *. by subst.
Qed.

Lemma setpos_ok p newpos : ok p -> ok (setpos p newpos).1.
Proof.
  intros Hok. destruct (destwin p) as [w|] eqn:Hw.
  - by destruct (setpos_shown p w newpos Hok Hw) as (q & -> & Hq & _).
  - by rewrite setpos_hidden.
Qed.

Lemma detach_ok p : ok p -> ok (detach p).
Proof. intros [Hc Hh Hn Hs]. by split. Qed.

Lemma hide_ok p : ok p -> ok (setDestwin p None).1 /\ (setDestwin p None).1.(destwin) = None.
Proof.
  intros Hok. unfold setDestwin. case_bool_decide as E; simpl; [by rewrite <- E|]. split; [by apply detach_ok|done].
Qed.

Lemma attach_ok p w : nonneg (contents p) -> (paging p = true -> height p = PAD_PAGESIZE) -> nonneg (wsize w) ->
  ok (attach p w).
Proof.
  intros Hc Hh Hww. split; [done|done|done|]. intros w' [= <-]. split; [done|]. unfold nonneg in *. simpl in Hc.
  split; try done; simpl.
  - change (vheight (attach p w)) with (vheight p). zcases; lia.
  - zcases; lia.
Qed.

Lemma show_ok p w : nonneg (contents p) -> (paging p = true -> height p = PAD_PAGESIZE) -> nonneg (wsize w) ->
  destwin p <> Some w ->
  exists q, setDestwin p (Some w) = (q, paint q) /\ ok q /\ destwin q = Some w /\ contents q = contents p /\ CurPos q = both 0.
Proof.
  intros Hc Hh Hww Hne. unfold setDestwin. rewrite bool_decide_eq_false_2 by congruence.
  pose proof (attach_ok p w Hc Hh Hww) as Hq. set (q := attach p w) in *.
  destruct (setpos_shown q w (CurPos q) Hq eq_refl) as (r & E & Hr & Hwr & Hcr & _ & _ & Hp). exists r. rewrite E.
  split_and!; try done. unfold CurPos. rewrite Hp, between_spec. destruct (min_sub (contents q) (wsize w)) as [-> ->].
  unfold both. simpl. f_equal; lia.
Qed.

Lemma resize_ok p nsze : (forall s, nonneg s -> nonneg (AdjustPadSize s)) -> nonneg nsze -> ok p ->
  ok (resize p nsze).1.
Proof.
  intros Hadj Hns Hok. unfold resize. specialize (Hadj nsze Hns). set (n := AdjustPadSize nsze) in *.
  destruct (_ || _); [|done]. set (p1 := match destwin p with Some _ => (setDestwin p None).1 | None => p end).
  assert (Hp1 : ok p1 /\ destwin p1 = None).
  { unfold p1. destruct (destwin p) eqn:E; [by apply hide_ok|done]. }
  destruct Hp1 as [Hok1 Hd1]. set (p2 := if sH n >? MAX_PAD_HEIGHT then _ else _).
  assert (Hp2 : ok p2 /\ destwin p2 = None).
  { destruct (ok_hidden _ Hok1 Hd1). unfold p2. rewrite Z.gtb_ltb. destruct (Z.ltb_spec MAX_PAD_HEIGHT (sH n)); (split; [|exact Hd1]);
      (split; [| |done|simpl; congruence]); try done.
    unfold contents, vheight, nonneg in *. simpl. destruct (Z.eqb_spec (sH n) 0); simpl; [|done]. unfold PAD_PAGESIZE. lia. }
  destruct Hp2 as [Hok2 Hd2]. destruct (destwin p) as [w|] eqn:E; [|done].
  destruct (show_ok p2 w) as (q & -> & Hq & _); try done; [apply Hok2..|by destruct (ok_shown _ Hok w E)|congruence].
Qed.

(** ** What is on the screen *)

(** The line that was drawn directly into a row of the pad. *)
Fixpoint drawnLine (effs : list effect) (row : Z) : option Z :=
  match effs with
  | [] => None
  | DirectDraw r l :: effs' => match drawnLine effs' row with Some l' => Some l' | None => if r =? row then Some l else None end
  | _ :: effs' => drawnLine effs' row
  end.

(** The line and the column of the contents that a cell of the window shows
    after the calls: [copywin] copies rows that the pad has. *)
Fixpoint shows (h : Z) (drawn effs : list effect) (r c : Z) : option (Z * Z) :=
  match effs with
  | [] => None
  | Copywin sr sc dr dc mr mc :: _ =>
      if (dr <=? r) && (r <=? mr) && (dc <=? c) && (c <=? mc) && (sr + (r - dr) <? h)
      then Some (match drawnLine drawn (sr + (r - dr)) with Some l => l | None => sr + (r - dr) end, sc + (c - dc))
      else None
  | _ :: effs' => shows h drawn effs' r c
  end.

Lemma shows_skip h drawn effs effs' r c :
  Forall (fun e => match e with Copywin _ _ _ _ _ _ => False | _ => True end) effs ->
  shows h drawn (effs ++ effs') r c = shows h drawn effs' r c.
Proof. induction 1 as [|e effs He _ IH]; simpl; [done|]. by destruct e. Qed.

Lemma drawnLine_app effs effs' row :
  drawnLine (effs ++ effs') row = match drawnLine effs' row with Some l => Some l | None => drawnLine effs row end.
Proof.
  induction effs as [|e effs IH]; simpl; [by destruct (drawnLine effs' row)|].
  destruct e; try done. rewrite IH. by destruct (drawnLine effs' row).
Qed.

Lemma drawnLine_rows n base row : 0 <= row ->
  drawnLine (map (fun i => DirectDraw (Z.of_nat i) (base + Z.of_nat i)) (seq 0 n)) row =
  if row <? Z.of_nat n then Some (base + row) else None.
Proof.
  intros Hr. induction n as [|n IH]; [simpl; zcases; done || lia|].
  rewrite seq_S, map_app, drawnLine_app, IH. simpl map. cbn [drawnLine]. zcases; try done; try lia. do 2 f_equal. lia.
Qed.

Definition prefix (p : pad) : list effect := (if dclear p then [Clear] else []) ++ updateScrollHint p.

Lemma prefix_nothing p : Forall (fun e => match e with Copywin _ _ _ _ _ _ => False | _ => True end) (prefix p) /\
  forall row, drawnLine (prefix p) row = None.
Proof. unfold prefix. destruct (dclear p); simpl; split; repeat constructor. Qed.

Lemma rows_no_copy base n :
  Forall (fun e => match e with Copywin _ _ _ _ _ _ => False | _ => True end)
    (map (fun i => DirectDraw (Z.of_nat i) (base + Z.of_nat i)) (seq 0 n)).
Proof. apply List.Forall_map, List.Forall_forall. done. Qed.

(** The window shows the contents from the position of the pad on, as far as
    they go: every line and column it shows exists. *)
Theorem pad_view p w r c : ok p -> destwin p = Some w ->
  (paging p = true -> sH (wsize w) <= PAD_PAGESIZE) ->
  0 <= r < sH (wsize w) -> 0 <= c < sW (wsize w) ->
  shows (height p) (paint p) (paint p) r c =
    (if (r <? vheight p) && (c <? width p) then Some (pL (CurPos p) + r, pC (CurPos p) + c) else None) /\
  (r < vheight p -> 0 <= pL (CurPos p) + r < vheight p) /\
  (c < width p -> 0 <= pC (CurPos p) + c < width p).
Proof.
  intros Hok Hw Hpg Hr Hc. destruct (ok_shown _ Hok w Hw) as [Hww [H1 H2 H3 H4 H5 H6 H7]].
  destruct (ok_contents _ Hok) as [Hvh Hwd]. simpl in Hvh, Hwd. destruct (prefix_nothing p) as [Hpre Hdrawn].
  assert (Hs : sH (Sze (srect p)) = Z.min (vheight p) (sH (wsize w)) /\ sW (Sze (srect p)) = Z.min (width p) (sW (wsize w))).
  { rewrite H2, min_spec. done. }
  destruct Hs as [Hsh Hsw]. unfold CurPos. split; [|lia].
  unfold paint at 2. rewrite app_assoc. fold (prefix p). rewrite shows_skip by done. rewrite H1, H3. simpl Pos.
  unfold paint. rewrite app_assoc. fold (prefix p). rewrite H1, H3. unfold paging in *. destruct (Z.eqb_spec (_vheight p) 0) as [E|E]; simpl negb in *; cbn iota.
  - assert (vheight p = height p) by (unfold vheight; by rewrite E). cbn [shows]. rewrite drawnLine_app, Hdrawn. simpl.
    rewrite Hsh, Hsw. zcases; simpl; try lia; try done. all: do 2 f_equal; lia.
  - specialize (Hpg eq_refl). assert (height p = PAD_PAGESIZE) by (apply (ok_height _ Hok); unfold paging; by rewrite (proj2 (Z.eqb_neq _ _))).
    rewrite shows_skip by apply rows_no_copy. cbn [shows]. rewrite !drawnLine_app, Hdrawn. simpl minus. simpl pL. simpl pC.
    rewrite drawnLine_rows by lia. rewrite Hsh, Hsw. simpl drawnLine. cbn iota. zcases; simpl; try lia; try done. all: do 2 f_equal; lia.
Qed.

(** ** Reachable pads *)

Inductive pad_step (p : pad) : pad -> Prop :=
| Step_destwin dwin : (forall w, dwin = Some w -> nonneg (wsize w)) -> pad_step p (setDestwin p dwin).1
| Step_resize nsze : nonneg nsze -> pad_step p (resize p nsze).1
| Step_setpos pos : pad_step p (setpos p pos).1
| Step_update : pad_step p (update p).1
| Step_dirty : pad_step p (setDirty p)
| Step_key k r : handleInput p k = Done r -> pad_step p r.1.1.

Lemma dirty_ok p d : ok p -> ok (withDirty p d).
Proof.
  intros [H1 H2 H3 H4]. split; try done. intros w Hw. destruct (H4 w Hw) as [Hww [? ? ? ? ? ? ?]]. split; [done|]. by split.
Qed.

Lemma update_ok p : ok p -> ok (update p).1.
Proof.
  intros Hok. unfold update. destruct (destwin p) as [w|] eqn:Hw; [|done]. simpl. destruct (dirty p); [|done].
  pose proof (setpos_ok (withDirty p false) (CurPos p) (dirty_ok p false Hok)) as H. unfold setpos, update in H. simpl in H.
  rewrite Hw in H. exact H.
Qed.

Lemma handleInput_ok p k r : ok p -> handleInput p k = Done r -> ok r.1.1.
Proof.
  intros Hok Hr. destruct k; simpl in Hr; unfold page in Hr; try (destruct (destwin p); simpl in Hr; [|discriminate]);
    injection Hr as <-; simpl; try done; apply setpos_ok, Hok.
Qed.

Lemma pad_step_ok p q : (forall s, nonneg s -> nonneg (AdjustPadSize s)) -> ok p -> pad_step p q -> ok q.
Proof.
  intros Hadj Hok Hstep. destruct Hstep as [dwin Hd|nsze Hn|pos| | |k r Hr].
  - destruct dwin as [w|]; [|by apply hide_ok]. destruct (decide (destwin p = Some w)) as [E|E].
    + unfold setDestwin. by rewrite bool_decide_eq_true_2.
    + destruct (show_ok p w) as (q & -> & Hq & _); [apply Hok..|by apply Hd|done|done].
  - by apply resize_ok.
  - by apply setpos_ok.
  - by apply update_ok.
  - by apply dirty_ok.
  - by eapply handleInput_ok.
Qed.

Lemma newPad_ok lines cols : 0 <= lines -> 0 <= cols -> ok (newPad lines cols).
Proof.
  intros Hl Hc. split; [|by (unfold newPad, paging; simpl; case_match)|done|done].
  unfold newPad, contents, vheight, nonneg. simpl. rewrite Z.gtb_ltb. destruct (Z.ltb_spec MAX_PAD_HEIGHT lines); simpl; [|done].
  destruct (Z.eqb_spec lines 0); simpl; [unfold PAD_PAGESIZE|]; lia.
Qed.

(** Whatever happens to a pad, its visible part is a part of the contents and
    has the size of the window, or of the contents where these are smaller. *)
Theorem pad_invariant lines cols p : (forall s, nonneg s -> nonneg (AdjustPadSize s)) -> 0 <= lines -> 0 <= cols ->
  rtc pad_step (newPad lines cols) p ->
  forall w, destwin p = Some w ->
    Sze (srect p) = min (contents p) (wsize w) /\
    0 <= pL (CurPos p) <= vheight p - sH (Sze (srect p)) /\
    0 <= pC (CurPos p) <= width p - sW (Sze (srect p)).
Proof.
  intros Hadj Hl Hc Hrtc w Hw.
  assert (Hok : ok p). { revert Hrtc. apply (rtc_ind_r ok); [by apply newPad_ok|]. intros q r _ Hqr Hq. by eapply pad_step_ok. }
  destruct (ok_shown _ Hok w Hw) as [_ [? ? ? ? ? ? ?]]. done.
Qed.

(** The keys move the visible part by a line, a page or to an end, and stop at
    the ends. *)
Theorem pad_keys p w k : ok p -> destwin p = Some w ->
  let maxL := vheight p - sH (Sze (srect p)) in
  let maxC := width p - sW (Sze (srect p)) in
  exists q effs handled, handleInput p k = Done (q, effs, handled) /\ ok q /\ handled = (match k with KEY_OTHER => false | _ => true end) /\
    CurPos q =
      (match k with
       | KEY_UP => WPair (Z.max 0 (pL (CurPos p) - 1)) (pC (CurPos p))
       | KEY_DOWN => WPair (Z.min maxL (pL (CurPos p) + 1)) (pC (CurPos p))
       | KEY_PPAGE => WPair (Z.min maxL (Z.max 0 (pL (CurPos p) - (sH (wsize w) - 1)))) (pC (CurPos p))
       | KEY_NPAGE => WPair (Z.min maxL (Z.max 0 (pL (CurPos p) + (sH (wsize w) - 1)))) (pC (CurPos p))
       | KEY_HOME => WPair 0 (pC (CurPos p))
       | KEY_END => WPair maxL (pC (CurPos p))
       | KEY_LEFT => WPair (pL (CurPos p)) (Z.max 0 (pC (CurPos p) - 1))
       | KEY_RIGHT => WPair (pL (CurPos p)) (Z.min maxC (pC (CurPos p) + 1))
       | KEY_OTHER => CurPos p
       end).
Proof.
  intros Hok Hw maxL maxC. destruct (ok_shown _ Hok w Hw) as [[Hw1 Hw2] [H1 H2 H3 H4 H5 H6 H7]].
  destruct (ok_contents _ Hok) as [Hvh Hwd]. simpl in Hvh, Hwd.
  assert (Hmax : minus (contents p) (min (contents p) (wsize w)) = WPair maxL maxC) by (unfold maxL, maxC; rewrite H2; done).
  assert (Hmove : forall o, exists q, adjpos p o = (q, paint q) /\ ok q /\
            CurPos q = WPair (Z.min (Z.max (pL (CurPos p) + A o) 0) maxL) (Z.min (Z.max (pC (CurPos p) + B o) 0) maxC)).
  { intros o. destruct (setpos_shown p w (plus (CurPos p) o) Hok Hw) as (q & E & Hq & _ & _ & _ & _ & Hp).
    exists q. split; [done|]. split; [done|]. unfold CurPos at 1. by rewrite Hp, Hmax, between_spec. }
  assert (HsH : 0 <= sH (Sze (srect p)) /\ 0 <= sW (Sze (srect p))) by (rewrite H2, min_spec; simpl; lia).
  unfold CurPos in *. fold maxL in H6. fold maxC in H7.
  destruct k; simpl; unfold page, ScrlUp, ScrlDown, ScrlLeft, ScrlRight; rewrite ?Hw; simpl;
    try (match goal with |- context [adjpos p ?o] => destruct (Hmove o) as (q & -> & Hq & Hp) end;
         exists q, (paint q), true; split_and!; try done; rewrite Hp; simpl; unfold maxL, maxC in *; f_equal; lia).
  by exists p, [], false.
Qed.

End pad.

(** A pad of 2000 lines that is paged, in a window of three lines. *)
Definition sampleWindow : window := Window 0 (WPair 3 10).
Definition samplePad : pad := (setpos (setDestwin (newPad 1000 2000 20) (Some sampleWindow)).1 (WPair 1500 4)).1.

Lemma samplePad_ok : ok samplePad.
Proof.
  apply setpos_ok. destruct (show_ok (newPad 1000 2000 20) sampleWindow) as (q & -> & Hq & _); try done.
Defined.

Lemma pad_view_witness : shows (height samplePad) (paint samplePad) (paint samplePad) 2 5 = Some (1502, 9).
Proof.
  apply (pad_view samplePad sampleWindow 2 5 samplePad_ok); try done; vm_compute; intros; done.
Defined.

(** What a vertical scroll bar makes of the calls of a pad. *)
Fixpoint vscroll (b : NCScrollbar.scrollbar) (effs : list effect) : NCScrollbar.scrollbar :=
  match effs with
  | [] => b
  | VSet t v s :: effs' => vscroll (NCScrollbar.set b t v s) effs'
  | _ :: effs' => vscroll b effs'
  end.

Lemma vscroll_paint b p :
  vscroll b (paint p) = NCScrollbar.set b (sH (Sze (srect p)) + pL (maxspos p)) (sH (Sze (srect p))) (pL (Pos (srect p))).
Proof.
  unfold paint, updateScrollHint. destruct (dclear p), (paging p); simpl; try done;
    (generalize (seq 0 (Z.to_nat (pL (maxdpos p) + 1))) as l; intros l; by induction l).
Qed.

(** The bar beside a pad touches an end exactly if that end of the contents is
    visible. *)
Theorem pad_scrollbar b p w : ok p -> destwin p = Some w ->
  3 <= NCScrollbar.len b < 2 ^ 31 -> 0 < sH (wsize w) < vheight p -> vheight p < 2 ^ 31 ->
  vheight p * NCScrollbar.len b < 2 ^ 32 ->
  exists bat blen, NCScrollbar.barAt (vscroll b (paint p)) = Done (bat, blen) /\
    0 <= bat /\ 1 <= blen /\ bat + blen <= NCScrollbar.len b /\
    (bat = 0 <-> pL (CurPos p) = 0) /\
    (bat + blen = NCScrollbar.len b <-> pL (CurPos p) + sH (wsize w) = vheight p).
Proof.
  intros Hok Hw Hlen Hh Hv Hp. destruct (ok_shown _ Hok w Hw) as [_ [H1 H2 H3 H4 H5 H6 H7]]. rewrite vscroll_paint, H4. simpl.
  assert (HsH : sH (Sze (srect p)) = sH (wsize w)) by (rewrite H2, min_spec; simpl; lia).
  rewrite HsH in *. replace (sH (wsize w) + (vheight p - sH (wsize w))) with (vheight p) by lia.
  set (s := NCScrollbar.Scrollbar (NCScrollbar.len b) (vheight p) (sH (wsize w)) (pL (Pos (srect p)))).
  destruct (NCScrollbar.adjust_spec s) as (Hf & El & Et & Ev & Ea); [unfold NCScrollbar.fits, s; simpl; lia|].
  unfold NCScrollbar.set. fold s. set (a := NCScrollbar.adjust s) in *. clearbody a. simpl in El, Et, Ev, Ea.
  destruct (NCScrollbar.barAt_spec a) as (bat & blen & E & ?); [split; [done|lia]|lia|lia|].
  exists bat, blen. unfold CurPos. split; [done|]. lia.
Qed.

End NCPad.

(** ** The widget around a pad *)

Module NCPadWidget.
Import NCPad.

(** [AdjustPadSize]: a pad is at least as large as the window for it. *)
Definition AdjustPadSize (padwin : option window) (minsze : wpair) : wpair :=
  max minsze (match padwin with Some w => wsize w | None => both 0 end).

Lemma AdjustPadSize_nonneg padwin s : nonneg s -> nonneg (AdjustPadSize padwin s).
Proof. unfold nonneg, AdjustPadSize. rewrite max_spec. simpl. lia. Qed.

(** So a pad that is resized fills its window: nothing of the window has to be
    cleared. *)
Theorem resized_pad_fills MAX p w nsze : ok p -> destwin p = Some w -> nonneg nsze ->
  0 < sH (wsize w) ->
  let n := max nsze (wsize w) in
  let q := (resize MAX (AdjustPadSize (Some w)) p nsze).1 in
  n <> contents p ->
  ok q /\ destwin q = Some w /\ contents q = n /\ dclear q = false /\ CurPos q = both 0.
Proof.
  intros Hok Hw Hn Hpos n q Hne. unfold q, resize. change (AdjustPadSize (Some w) nsze) with n. clear q.
  assert ((negb (sH n =? vheight p) || negb (sW n =? width p)) = true) as ->.
  { rewrite orb_true_iff, !negb_true_iff, !Z.eqb_neq. destruct (decide (sH n = vheight p)), (decide (sW n = width p)); auto.
    destruct Hne. rewrite (wpair_eta n). unfold contents. congruence. }
  rewrite Hw. destruct (hide_ok p Hok) as [Hok1 Hd1]. set (p1 := (setDestwin p None).1) in *.
  set (p2 := if sH n >? MAX then _ else _). destruct (ok_shown _ Hok w Hw) as [Hww _].
  assert (Hn0 : nonneg n /\ sH (wsize w) <= sH n /\ sW (wsize w) <= sW n).
  { unfold n, nonneg in *. rewrite max_spec. simpl. lia. }
  destruct Hn0 as (Hn0 & HnH & HnW). clearbody n.
  assert (Hp2 : contents p2 = n /\ (paging p2 = true -> height p2 = PAD_PAGESIZE) /\ destwin p2 = None).
  { unfold p2, contents, vheight, paging. rewrite Z.gtb_ltb. destruct (Z.ltb_spec MAX (sH n)); simpl.
    - rewrite (proj2 (Z.eqb_neq (sH n) 0)) by lia. simpl. by rewrite <- wpair_eta.
    - by rewrite <- wpair_eta. }
  destruct Hp2 as (Hc2 & Hpg & Hd2). destruct (show_ok p2 w) as (q & E & Hq & Hwq & Hcq & Hpq); try done; [by rewrite Hc2|congruence|].
  rewrite E. simpl. rewrite Hc2 in Hcq. split_and!; try done. destruct (ok_shown _ Hq w Hwq) as [_ [_ H2 _ _ H5 _ _]].
  rewrite H5, H2, Hcq, min_spec. unfold eqb. simpl. rewrite !(proj2 (Z.eqb_eq _ _)) by lia. done.
Qed.

End NCPadWidget.
