(* ===== verification/Text.v ===== *)
(** * Texts of several lines

    src/libyui-ncurses/src/NCtext.cc: breaking a text into its lines. Characters
    are code points. *)

From S2P Require Import Prelude.

Module NCtext.

Definition newline : Z := 10.
Definition return_ : Z := 13.
Definition tab : Z := 9.
Definition tilde : Z := 126.

(** [boost::erase_all( text, L"\r" )]. *)
Definition eraseReturns (text : list Z) : list Z := filter (fun c => c <> return_) text.

(** [text.find( L'\n', spos )] and the parts before and after it, for the text
    from [spos] on. *)
Fixpoint findNewline (text : list Z) : option (list Z * list Z) :=
  match text with
  | [] => None
  | c :: text' =>
      if c =? newline then Some ([], text')
      else match findNewline text' with Some (l, r) => Some (c :: l, r) | None => None end
  end.

(** [mtext.back() = NCstring( mtext.back().str() + line )]. *)
Fixpoint appendBack (mtext : list (list Z)) (line : list Z) : list (list Z) :=
  match mtext with
  | [] => []
  | [b] => [b ++ line]
  | x :: mtext' => x :: appendBack mtext' line
  end.

Fixpoint lsetLoop (fuel : nat) (text : list Z) (sawnl : bool) (mtext : list (list Z)) : outcome (list (list Z)) :=
  match fuel with
  | O => NoFuel
  | S fuel' =>
      match findNewline text with
      | Some (line, rest) => lsetLoop fuel' rest true (appendBack (if sawnl then mtext ++ [[]] else mtext) line)
      | None =>
          Done (match text with
                | [] => mtext
                | _ => appendBack (if sawnl then mtext ++ [[]] else mtext) text
                end)
      end
  end.

Definition lset (ntext : list Z) : outcome (list (list Z)) :=
  match ntext with
  | [] => Done [[]]
  | _ => let text := eraseReturns ntext in lsetLoop (S (length text)) text false [[]]
  end.

(** Arithmetic of [size_t], and [line.substr( start, n )] for a start in the
    line. *)
Definition u64 (z : Z) : Z := z mod 2 ^ 64.
Definition substr (line : list Z) (start n : Z) : list Z :=
  take (Z.to_nat (Z.min n (Z.of_nat (length line)))) (drop (Z.to_nat start) line).

(** The parts of a line that does not fit. *)
Fixpoint breakLoop (fuel : nat) (line : list Z) (columns start : Z) : outcome (list (list Z)) :=
  match fuel with
  | O => NoFuel
  | S fuel' =>
      if start <? Z.of_nat (length line) then
        let! rest := breakLoop fuel' line columns (u64 (start + u64 (columns - 1))) in
        Done ((tilde :: substr line start (u64 (columns - 1))) :: rest)
      else Done []
  end.

Definition breakLine (line : list Z) (columns : Z) : outcome (list (list Z)) :=
  if Z.of_nat (length line) <=? columns then Done [line]
  else
    let! rest := breakLoop (S (length line)) line columns columns in
    Done (substr line 0 columns :: rest).

Fixpoint lbrLoop (fuel : nat) (text : list Z) (columns : Z) : outcome (list (list Z)) :=
  match fuel with
  | O => NoFuel
  | S fuel' =>
      match findNewline text with
      | Some (line, rest) =>
          let! ls := breakLine line columns in
          let! more := lbrLoop fuel' rest columns in
          Done (ls ++ more)
      | None => Done (match text with [] => [] | _ => [text] end)
      end
  end.

Definition lbrset (ntext : list Z) (columns : Z) : outcome (list (list Z)) :=
  match ntext with
  | [] => Done []
  | _ => let text := eraseReturns ntext in lbrLoop (S (length text)) text columns
  end.

Definition Lines (mtext : list (list Z)) : nat :=
  match mtext with [[]] => 0 | _ => length mtext end.

Definition append (mtext : list (list Z)) (line : list Z) : list (list Z) := mtext ++ [line].

(** [operator[]]: the empty string behind the end. *)
Definition at_ (mtext : list (list Z)) (idx : nat) : list Z :=
  if bool_decide (Lines mtext <= idx)%nat then [] else default [] (mtext !! idx).

Section columns.
Context (iswprint : Z -> bool) (wcwidth : Z -> Z) (tabsize : Z).

Definition charColumns (c : Z) : Z := if iswprint c then wcwidth c else if c =? tab then tabsize else 0.
Definition lineColumns (line : list Z) : Z := fold_left (fun n c => n + charColumns c) line 0.
Definition Columns (mtext : list (list Z)) : Z :=
  fold_left (fun llen line => if lineColumns line >? llen then lineColumns line else llen) mtext 0.

(** ** The width of the lines *)

Lemma lineColumns_from line n : fold_left (fun n c => n + charColumns c) line n = n + lineColumns line.
Proof.
  unfold lineColumns. revert n. induction line as [|c line IH]; intros n; simpl; [lia|]. rewrite IH, (IH (0 + charColumns c)). lia.
Qed.

Lemma Columns_from mtext n : 0 <= n ->
  let m := fold_left (fun llen line => if lineColumns line >? llen then lineColumns line else llen) mtext n in
  n <= m /\ Forall (fun line => lineColumns line <= m) mtext.
Proof.
  revert n. induction mtext as [|line mtext IH]; intros n Hn; simpl; [split; [lia|constructor]|].
  rewrite Z.gtb_ltb. destruct (Z.ltb_spec n (lineColumns line)).
  - destruct (IH (lineColumns line)) as [H1 H2]; [lia|]. split; [lia|]. by constructor.
  - destruct (IH n Hn) as [H1 H2]. split; [done|]. constructor; [lia|done].
Qed.

(** A line of characters that take a column each is not wider than [Columns]. *)
Lemma Columns_enough mtext line : line ∈ mtext -> Forall (fun c => 1 <= charColumns c) line ->
  Z.of_nat (length line) <= Columns mtext.
Proof.
  intros Hin Hw. destruct (Columns_from mtext 0 ltac:(lia)) as [_ HF]. unfold Columns.
  assert (Z.of_nat (length line) <= lineColumns line).
  { clear Hin. induction Hw as [|c line Hc _ IH]; simpl; [unfold lineColumns; simpl; lia|].
    unfold lineColumns. simpl. rewrite lineColumns_from. lia. }
  pose proof (Forall_at _ _ _ HF Hin) as Hl. simpl in Hl. lia.
Qed.

End columns.

(** ** Lines *)

(** The text of lines. *)
Fixpoint unlines (ls : list (list Z)) : list Z :=
  match ls with
  | [] => []
  | [l] => l
  | l :: ls' => l ++ newline :: unlines ls'
  end.

Lemma unlines_elem ls l c : l ∈ ls -> c ∈ l -> c ∈ unlines ls.
Proof.
  induction ls as [|x [|y ls] IH]; intros Hl Hc; [set_solver|by apply list_elem_of_singleton in Hl; subst|].
  change (unlines (x :: y :: ls)) with (x ++ newline :: unlines (y :: ls)). set_solver.
Qed.

Lemma unlines_length ls l : l ∈ ls -> (length l <= length (unlines ls))%nat.
Proof.
  induction ls as [|x [|y ls] IH]; intros Hl; [set_solver|by apply list_elem_of_singleton in Hl; subst|].
  change (unlines (x :: y :: ls)) with (x ++ newline :: unlines (y :: ls)). rewrite length_app. cbn [length].
  apply elem_of_cons in Hl as [->|Hl]; [lia|]. specialize (IH Hl). lia.
Qed.

Lemma eraseReturns_id text : return_ ∉ text -> eraseReturns text = text.
Proof.
  unfold eraseReturns. induction text as [|c text IH]; intros H; [done|]. rewrite filter_cons_True by set_solver.
  rewrite IH; [done|set_solver].
Qed.

Lemma findNewline_some text l r : findNewline text = Some (l, r) -> text = l ++ newline :: r /\ newline ∉ l.
Proof.
  revert l r. induction text as [|c text IH]; intros l r; simpl; [done|]. destruct (Z.eqb_spec c newline) as [->|Hc].
  - intros [= <- <-]. split; [done|]. set_solver.
  - destruct (findNewline text) as [[l' r']|]; [|done]. intros [= <- <-]. destruct (IH l' r' eq_refl) as [-> Hn].
    split; [done|]. set_solver.
Qed.

Lemma findNewline_none text : findNewline text = None -> newline ∉ text.
Proof.
  induction text as [|c text IH]; simpl; [set_solver|]. destruct (Z.eqb_spec c newline); [done|].
  destruct (findNewline text) as [[]|]; [done|]. set_solver.
Qed.

Lemma appendBack_snoc mtext b line : appendBack (mtext ++ [b]) line = mtext ++ [b ++ line].
Proof.
  induction mtext as [|x mtext IH]; [done|]. simpl. destruct (mtext ++ [b]) eqn:E; [by destruct mtext|].
  by rewrite IH.
Qed.

(** The lines that are added for the rest of a text. *)
Fixpoint linesOf (fuel : nat) (text : list Z) : list (list Z) :=
  match fuel with
  | O => []
  | S fuel' =>
      match findNewline text with
      | Some (line, rest) => line :: linesOf fuel' rest
      | None => match text with [] => [] | _ => [text] end
      end
  end.

Lemma lsetLoop_spec fuel : forall text mtext, (length text < fuel)%nat ->
  lsetLoop fuel text true mtext = Done (mtext ++ linesOf fuel text).
Proof.
  induction fuel as [|fuel IH]; intros text mtext Hf; [lia|]. simpl. destruct (findNewline text) as [[l r]|] eqn:E.
  - destruct (findNewline_some _ _ _ E) as [-> _]. rewrite length_app in Hf. simpl in Hf. rewrite appendBack_snoc, IH by lia.
    simpl. by rewrite <- app_assoc.
  - destruct text; [by rewrite app_nil_r|]. by rewrite appendBack_snoc.
Qed.

Lemma lset_spec ntext : lset ntext =
  Done (match eraseReturns ntext with [] => [[]] | text => linesOf (S (length text)) text end).
Proof.
  destruct ntext as [|c0 n0]; [done|]. unfold lset. generalize (eraseReturns (c0 :: n0)). intros text.
  destruct text as [|c text]; [done|]. cbn [lsetLoop linesOf]. destruct (findNewline (c :: text)) as [[l r]|] eqn:E; [|done].
  destruct (findNewline_some _ _ _ E) as [Ht _]. assert (length r < length (c :: text))%nat.
  { rewrite Ht, length_app. simpl. lia. }
  rewrite lsetLoop_spec by done. done.
Qed.

Lemma linesOf_unlines fuel : forall text, (length text < fuel)%nat ->
  (linesOf fuel text = [] /\ text = []) \/
  (linesOf fuel text <> [] /\ (text = unlines (linesOf fuel text) \/ text = unlines (linesOf fuel text) ++ [newline])).
Proof.
  induction fuel as [|fuel IH]; intros text Hf; [lia|]. simpl. destruct (findNewline text) as [[l r]|] eqn:E.
  - right. split; [done|]. destruct (findNewline_some _ _ _ E) as [-> _]. rewrite length_app in Hf. simpl in Hf.
    destruct (IH r ltac:(lia)) as [[-> ->]|[Hne Hr]]; [right; done|].
    destruct (linesOf fuel r) as [|x ls]; [done|]. destruct Hr as [Hr|Hr].
    + left. simpl in *. by rewrite <- Hr.
    + right. simpl in *. rewrite <- app_assoc. simpl. by rewrite <- Hr.
  - destruct text as [|c text]; [left; done|]. right. split; [done|]. by left.
Qed.

Lemma linesOf_nonl fuel : forall text, Forall (fun l => newline ∉ l) (linesOf fuel text).
Proof.
  induction fuel as [|fuel IH]; intros text; simpl; [constructor|]. destruct (findNewline text) as [[l r]|] eqn:E.
  - constructor; [by destruct (findNewline_some _ _ _ E)|apply IH].
  - destruct text as [|c text]; [constructor|]. constructor; [by apply findNewline_none|constructor].
Qed.

(** [lset] returns the lines of the text without its carriage returns; no line
    has a newline, there is at least one line, and only a newline at the end
    is lost. *)
Theorem text_lines ntext : exists ls, lset ntext = Done ls /\ ls <> [] /\ Forall (fun l => newline ∉ l) ls /\
  (eraseReturns ntext = unlines ls \/ eraseReturns ntext = unlines ls ++ [newline]).
Proof.
  rewrite lset_spec. destruct (eraseReturns ntext) as [|c text] eqn:E.
  - exists [[]]. split; [done|]. split; [done|]. split; [|by left]. constructor; [set_solver|constructor].
  - set (t := c :: text) in *. exists (linesOf (S (length t)) t). split; [done|].
    destruct (linesOf_unlines (S (length t)) t ltac:(lia)) as [[_ Ht]|[Hne Ht]]; [done|].
    split; [done|]. split; [apply linesOf_nonl|done].
Qed.

Lemma linesOf_lines fuel : forall ls, (length (unlines ls) < fuel)%nat -> Forall (fun l => newline ∉ l) ls ->
  ls <> [] -> list.last ls <> Some [] -> linesOf fuel (unlines ls) = ls.
Proof.
  induction fuel as [|fuel IH]; intros ls Hf Hn Hne Hl; [lia|].
  assert (Hfind : forall l r, newline ∉ l -> findNewline (l ++ newline :: r) = Some (l, r)).
  { clear. induction l as [|c l IH]; intros r Hl; simpl; [done|]. destruct (Z.eqb_spec c newline); [set_solver|].
    by rewrite IH by set_solver. }
  destruct ls as [|l [|l2 ls]]; [done| |].
  - inversion Hn as [|? ? Hl0 _]; subst. simpl. destruct (findNewline l) as [[a b]|] eqn:E.
    + destruct (findNewline_some _ _ _ E) as [-> _]. set_solver.
    + destruct l; [by destruct Hl|done].
  - inversion Hn as [|? ? Hl0 Hn']; subst. change (unlines (l :: l2 :: ls)) with (l ++ newline :: unlines (l2 :: ls)) in *.
    cbn [linesOf]. rewrite Hfind by done. f_equal. apply IH; [rewrite length_app in Hf; simpl in *; lia|done|done|done].
Qed.

(** ** Broken lines *)

(** A line as it is shown in several parts: all but the first start with a
    tilde. *)
Definition parts (columns : Z) (line : list Z) (ls : list (list Z)) : Prop :=
  exists first rest, ls = first :: rest /\ line = first ++ concat (map (drop 1) rest) /\
    Forall (fun l => head l = Some tilde) rest /\ Forall (fun l => Z.of_nat (length l) <= columns) ls.

Lemma substr_length line start n : 0 <= n -> Z.of_nat (length (substr line start n)) <= n.
Proof. intros Hn. unfold substr. rewrite length_take. lia. Qed.

Lemma substr_split line start n : 0 <= start -> 0 <= n -> 
  drop (Z.to_nat start) line = substr line start n ++ drop (Z.to_nat (start + n)) line.
Proof.
  intros Hs Hn. rewrite <- (take_drop (Z.to_nat n) (drop (Z.to_nat start) line)) at 1. rewrite drop_drop. f_equal.
  - unfold substr. destruct (Z.le_ge_cases n (Z.of_nat (length line))); [by rewrite Z.min_l|].
    rewrite Z.min_r, !take_ge by (rewrite ?length_drop; lia). done.
  - f_equal. lia.
Qed.

Lemma breakLoop_spec line columns : 2 <= columns < 2 ^ 32 -> Z.of_nat (length line) < 2 ^ 32 ->
  forall fuel start, 0 <= start < 2 ^ 33 -> Z.max 0 (Z.of_nat (length line) - start) < Z.of_nat fuel ->
  exists ls, breakLoop fuel line columns start = Done ls /\
    drop (Z.to_nat start) line = concat (map (drop 1) ls) /\
    Forall (fun l => head l = Some tilde) ls /\ Forall (fun l => Z.of_nat (length l) <= columns) ls.
Proof.
  intros Hc Hl. unfold u64. induction fuel as [|fuel IH]; intros start Hs Hf; [lia|]. cbn [breakLoop]. unfold u64.
  rewrite (Z.mod_small (columns - 1)) by lia. destruct (Z.ltb_spec start (Z.of_nat (length line))).
  - rewrite (Z.mod_small (start + _)) by lia. destruct (IH (start + (columns - 1))) as (ls & -> & Hd & Ht & Hlen); [lia|lia|].
    eexists. split; [done|]. split_and!; [|by constructor|].
    + rewrite (substr_split line start (columns - 1)) by lia. simpl. by rewrite Hd, drop_0.
    + constructor; [|done]. pose proof (substr_length line start (columns - 1)). simpl. lia.
  - exists []. split_and!; [done| |constructor|constructor]. by rewrite drop_ge by lia.
Qed.

Lemma breakLine_spec line columns : 2 <= columns < 2 ^ 32 -> Z.of_nat (length line) < 2 ^ 32 ->
  exists ls, breakLine line columns = Done ls /\ parts columns line ls.
Proof.
  intros Hc Hl. unfold breakLine. destruct (Z.leb_spec (Z.of_nat (length line)) columns).
  - eexists. split; [done|]. exists line, []. split_and!; [done|by rewrite app_nil_r|constructor|by constructor].
  - destruct (breakLoop_spec line columns Hc Hl (S (length line)) columns) as (ls & -> & Hd & Ht & Hlen); [lia|lia|].
    eexists. split; [done|]. do 2 eexists. split; [done|]. split_and!; [|done|].
    + rewrite <- Hd. rewrite <- (drop_0 line) at 1. change 0%nat with (Z.to_nat 0).
      rewrite (substr_split line 0 columns) by lia. done.
    + constructor; [|done]. apply substr_length. lia.
Qed.

(** The lines of a text in parts, the last line as it is. *)
Inductive brokenText (columns : Z) : list (list Z) -> list (list Z) -> Prop :=
| broken_nil : brokenText columns [] []
| broken_last l : brokenText columns [l] [l]
| broken_line l ls p ps : parts columns l p -> brokenText columns ls ps -> brokenText columns (l :: ls) (p ++ ps).

Lemma lbrLoop_spec columns : 2 <= columns < 2 ^ 32 -> forall fuel text, (length text < fuel)%nat ->
  Z.of_nat (length text) < 2 ^ 32 ->
  exists ps, lbrLoop fuel text columns = Done ps /\ brokenText columns (linesOf fuel text) ps.
Proof.
  intros Hc. induction fuel as [|fuel IH]; intros text Hf Hl; [lia|]. cbn [lbrLoop linesOf].
  destruct (findNewline text) as [[l r]|] eqn:E.
  - destruct (findNewline_some _ _ _ E) as [-> _]. rewrite length_app in Hf, Hl. simpl in Hf, Hl.
    destruct (breakLine_spec l columns Hc) as (p & -> & Hp); [lia|]. destruct (IH r) as (ps & Eps & Hps); [lia|lia|].
    cbn [obind]. rewrite Eps. eexists. split; [done|]. by constructor.
  - destruct text; eexists; (split; [done|]); constructor.
Qed.

(** [lbrset] returns for two columns or more: the lines are those of the text,
    in parts that fit into the columns; the last line, if no newline follows
    it, is not broken. *)
Theorem text_broken ntext columns : 2 <= columns < 2 ^ 32 -> Z.of_nat (length ntext) < 2 ^ 32 ->
  exists ps, lbrset ntext columns = Done ps /\
    brokenText columns (linesOf (S (length (eraseReturns ntext))) (eraseReturns ntext)) ps.
Proof.
  intros Hc Hl. destruct ntext as [|c0 n0]; [eexists; split; [done|constructor]|]. unfold lbrset.
  assert (length (eraseReturns (c0 :: n0)) <= length (c0 :: n0))%nat by (apply length_filter).
  apply lbrLoop_spec; [done|lia|lia].
Qed.

(** A last line that is longer than the columns stays so. *)
Theorem last_line_not_broken : lbrset [97; 98; 99; 100; 101] 3 = Done [[97; 98; 99; 100; 101]].
Proof. vm_compute. done. Qed.

(** With one column a line of two characters is never finished. *)
Theorem one_column_endless fuel : breakLoop fuel [97; 98] 1 1 = NoFuel.
Proof.
  induction fuel as [|fuel IH]; [done|]. cbn [breakLoop]. change (u64 (1 + u64 (1 - 1))) with 1. by rewrite IH.
Qed.

End NCtext.
