(* ===== verification/Curses.v ===== *)
(** * The terminal library

    What the text mode uses of the windows of the ncurses library, as an
    interface: the calls with their documented effect on the cells, and a table
    of cells that implements it. *)

From S2P Require Import Prelude.

Class Curses (win : Type) := {
  rows : win -> Z;
  cols : win -> Z;
  cury : win -> Z;
  curx : win -> Z;
  inch : win -> Z -> Z -> Z;
  move : win -> Z -> Z -> win;
  add_wch : win -> Z -> win;
  ins_wch : win -> Z -> win;
  wdelch : win -> win;
  insertln : win -> win;
  deleteln : win -> win;
  clrtoeol : win -> win;
  clear : win -> win;
  copyRow : win -> Z -> Z -> Z -> Z -> Z -> win;
  wresize : win -> Z -> Z -> win }.

Definition sameSize {win} `{Curses win} (w v : win) : Prop := rows v = rows w /\ cols v = cols w.

(** What the manual pages say about the calls inside of the window:
    [copyRow w sr sc dr dc mc] is [copywin] from row [sr] on to row [dr], columns
    [dc] to [mc], of the same window. *)
Class CursesLaws (win : Type) `{Curses win} : Prop := {
  move_law w y x : 0 <= y < rows w -> 0 <= x < cols w ->
    sameSize w (move w y x) /\ cury (move w y x) = y /\ curx (move w y x) = x /\
    (forall i j, inch (move w y x) i j = inch w i j);
  add_wch_law w ch : 0 <= cury w < rows w -> 0 <= curx w < cols w ->
    sameSize w (add_wch w ch) /\ (curx w + 1 < cols w -> cury (add_wch w ch) = cury w /\ curx (add_wch w ch) = curx w + 1) /\
    (forall i j, inch (add_wch w ch) i j = if (i =? cury w) && (j =? curx w) then ch else inch w i j);
  ins_wch_law w ch : 0 <= cury w < rows w -> 0 <= curx w < cols w ->
    sameSize w (ins_wch w ch) /\
    (forall i j, 0 <= i < rows w -> 0 <= j < cols w -> inch (ins_wch w ch) i j =
       if i =? cury w then (if j <? curx w then inch w i j else if j =? curx w then ch else inch w i (j - 1)) else inch w i j);
  wdelch_law w : 0 <= cury w < rows w -> 0 <= curx w < cols w ->
    sameSize w (wdelch w) /\
    (forall i j, 0 <= i < rows w -> 0 <= j -> j + 1 < cols w -> inch (wdelch w) i j =
       if (i =? cury w) && (curx w <=? j) then inch w i (j + 1) else inch w i j);
  insertln_law w : 0 <= cury w < rows w ->
    sameSize w (insertln w) /\
    (forall i j, 0 <= i < rows w -> 0 <= j < cols w -> i <> cury w -> inch (insertln w) i j =
       if i <? cury w then inch w i j else inch w (i - 1) j);
  deleteln_law w : 0 <= cury w < rows w ->
    sameSize w (deleteln w) /\
    (forall i j, 0 <= i -> i + 1 < rows w -> 0 <= j < cols w -> inch (deleteln w) i j =
       if i <? cury w then inch w i j else inch w (i + 1) j);
  clrtoeol_law w : 0 <= cury w < rows w -> 0 <= curx w < cols w ->
    sameSize w (clrtoeol w) /\
    (forall i j, 0 <= i < rows w -> 0 <= j < cols w -> i <> cury w \/ j < curx w -> inch (clrtoeol w) i j = inch w i j);
  clear_law w : sameSize w (clear w);
  copyRow_law w sr sc dr dc mc : 0 <= sr < rows w -> 0 <= dr < rows w -> sr <> dr ->
    0 <= sc -> 0 <= dc -> dc <= mc < cols w -> sc + (mc - dc) < cols w ->
    sameSize w (copyRow w sr sc dr dc mc) /\ cury (copyRow w sr sc dr dc mc) = cury w /\ curx (copyRow w sr sc dr dc mc) = curx w /\
    (forall i j, 0 <= i < rows w -> 0 <= j < cols w -> inch (copyRow w sr sc dr dc mc) i j =
       if (i =? dr) && (dc <=? j) && (j <=? mc) then inch w sr (sc + (j - dc)) else inch w i j);
  wresize_law w h k : 0 < h -> 0 < k ->
    rows (wresize w h k) = h /\ cols (wresize w h k) = k /\
    (0 <= cury w < h -> 0 <= curx w < k -> cury (wresize w h k) = cury w) /\
    (forall i j, 0 <= i < rows w -> 0 <= j < cols w -> i < h -> j < k -> inch (wresize w h k) i j = inch w i j) }.

(** [insertln] is at the row of the hardware cursor: it and the calls that move
    do not depend on the editor's cursor. [add_attr_char( y, x )] reads a cell
    and writes it again with the current attributes. *)
Definition add_attr_char {win} `{Curses win} (w : win) (y x : Z) : win :=
  let w := move w y x in add_wch w (inch w y x).

(** ** A table of cells *)

(** A window as a table of cells, to run the editor with. *)
Module Grid.

Record grid := G { gr : Z; gc : Z; gy : Z; gx : Z; at_ : Z -> Z -> Z }.

Definition blank : Z := 32.
Definition newGrid (h w : Z) : grid := G h w 0 0 (fun _ _ => blank).

#[global] Instance grid_curses : Curses grid := {
  rows := gr;
  cols := gc;
  cury := gy;
  curx := gx;
  inch := at_;
  move g y x := G (gr g) (gc g) y x (at_ g);
  add_wch g ch :=
    let '(y, x) := if gx g + 1 <? gc g then (gy g, gx g + 1) else (gy g + 1, 0) in
    G (gr g) (gc g) y x (fun i j => if (i =? gy g) && (j =? gx g) then ch else at_ g i j);
  ins_wch g ch := G (gr g) (gc g) (gy g) (gx g) (fun i j =>
    if i =? gy g then (if j <? gx g then at_ g i j else if j =? gx g then ch else at_ g i (j - 1)) else at_ g i j);
  wdelch g := G (gr g) (gc g) (gy g) (gx g) (fun i j =>
    if (i =? gy g) && (gx g <=? j) then (if j + 1 <? gc g then at_ g i (j + 1) else blank) else at_ g i j);
  insertln g := G (gr g) (gc g) (gy g) (gx g) (fun i j =>
    if i =? gy g then blank else if i <? gy g then at_ g i j else at_ g (i - 1) j);
  deleteln g := G (gr g) (gc g) (gy g) (gx g) (fun i j =>
    if i <? gy g then at_ g i j else if i + 1 <? gr g then at_ g (i + 1) j else blank);
  clrtoeol g := G (gr g) (gc g) (gy g) (gx g) (fun i j => if (i =? gy g) && (gx g <=? j) then blank else at_ g i j);
  clear g := G (gr g) (gc g) 0 0 (fun _ _ => blank);
  copyRow g sr sc dr dc mc := G (gr g) (gc g) (gy g) (gx g) (fun i j =>
    if (i =? dr) && (dc <=? j) && (j <=? mc) then at_ g sr (sc + (j - dc)) else at_ g i j);
  wresize g h w := G h w (Z.min (gy g) (h - 1)) (Z.min (gx g) (w - 1)) (fun i j =>
    if (i <? gr g) && (j <? gc g) then at_ g i j else blank) }.

#[global] Instance grid_laws : CursesLaws grid.
Proof.
  split; simpl; unfold sameSize; simpl.
  - done.
  - intros g ch _ _. destruct (Z.ltb_spec (gx g + 1) (gc g)); simpl; split_and!; done || lia.
  - intros g ch _ _. split; [done|]. intros i j _ _. done.
  - intros g _ _. split; [done|]. intros i j _ Hj Hj'. rewrite (proj2 (Z.ltb_lt _ _)) by done. done.
  - intros g _. split; [done|]. intros i j _ _ Hne. by rewrite (proj2 (Z.eqb_neq _ _)).
  - intros g _. split; [done|]. intros i j _ Hi _. rewrite (proj2 (Z.ltb_lt (i + 1) _)) by done. done.
  - intros g _ _. split; [done|]. intros i j _ _ Hor. destruct (Z.eqb_spec i (gy g)); simpl; [|done]. rewrite (proj2 (Z.leb_gt _ _)) by lia. done.
  - done.
  - done.
  - intros g h k Hh Hk. split_and!; [done|done|lia|]. intros i j Hi Hj _ _. by rewrite !(proj2 (Z.ltb_lt _ _)) by lia.
Qed.

End Grid.
