(* ===== verification/TextPad.v ===== *)
(** * The multi-line editor of the text mode

    src/libyui-ncurses/src/NCTextPad.cc: the text lives in the cells of a pad of
    the terminal library, the editor keeps the lengths of the lines and the
    cursor. Characters take one cell each. *)

From S2P Require Import Prelude CNum Position Pad Text Curses.
Import Wpos.

Module NCTextPad.

Section textpad.
Context {win : Type} `{CursesLaws win}.

(** What the receiver of [AdjustPadSize] makes of a size. *)
Context (AdjustPadSize : wpair -> wpair).

(** [cline] is the iterator into the list of the lengths: an index. *)
Record tpad := TPad {
  cells : win;
  base : NCPad.pad;
  lines : list Z;
  cline : Z;
  curs : wpair;
  curson : bool;
  InputMaxLength : Z }.

Definition withCells (t : tpad) (w : win) : tpad := TPad w (base t) (lines t) (cline t) (curs t) (curson t) (InputMaxLength t).
Definition withBase (t : tpad) (b : NCPad.pad) : tpad := TPad (cells t) b (lines t) (cline t) (curs t) (curson t) (InputMaxLength t).
Definition withLines (t : tpad) (l : list Z) : tpad := TPad (cells t) (base t) l (cline t) (curs t) (curson t) (InputMaxLength t).
Definition withCursor (t : tpad) (cl : Z) (p : wpair) : tpad := TPad (cells t) (base t) (lines t) cl p (curson t) (InputMaxLength t).

(** [*cline]: undefined if the iterator is not at an element. *)
Definition lineAt (t : tpad) (i : Z) : outcome Z :=
  if i <? 0 then Undefined else match lines t !! Z.to_nat i with Some n => Done n | None => Undefined end.
Definition curLine (t : tpad) : outcome Z := lineAt t (cline t).
Definition setLine (t : tpad) (i n : Z) : tpad := withLines t (<[Z.to_nat i := n]> (lines t)).
Definition size (t : tpad) : Z := Z.of_nat (length (lines t)).

(** The constructor, for a window of the terminal library. *)
Definition newTextPad (MAX_PAD_HEIGHT : Z) (w : win) : tpad :=
  TPad w (NCPad.newPad MAX_PAD_HEIGHT (rows w) (cols w)) [0] 0 (both 0) false (-1).

Definition cursor (t : tpad) (on : bool) : tpad :=
  if Bool.eqb on (curson t) then t
  else TPad (add_attr_char (cells t) (pL (curs t)) (pC (curs t))) (base t) (lines t) (cline t) (curs t) on (InputMaxLength t).

(** [setpos( newpos )]. *)
Definition setpos (t : tpad) (newpos : wpair) : outcome tpad :=
  let npos := between newpos (both 0) (WPair (rows (cells t) - 1) (cols (cells t) - 1)) in
  let '(npos, cl) :=
    if pL npos >=? size t then (WPair (size t - 1) (pC npos), size t - 1)
    else (npos, if negb (pL npos =? pL (curs t)) then cline t + (pL npos - pL (curs t)) else cline t) in
  let! n := lineAt t cl in
  let npos := if pC npos >? n then WPair (pL npos) n else npos in
  let ocurs := curson t in
  let t := if ocurs then cursor t false else t in
  let t := withCursor t cl npos in
  let t := if ocurs then cursor t true else t in
  let dsze := Sze (NCPad.drect (base t)) in
  let padpos := if gtb dsze (both 0) then times (over (curs t) dsze) dsze else curs t in
  Done (withBase t (NCPad.setpos (base t) padpos).1).

(** [setpos()]: the cursor is shown in the active widget. *)
Definition setposState (t : tpad) (active : bool) : outcome tpad :=
  let t := cursor t active in setpos t (curs t).

(** [Destwin( dwin )] of the base class calls the virtual [setpos]. *)
Definition setDestwin (t : tpad) (dwin : option NCPad.window) : outcome tpad :=
  if bool_decide (dwin = NCPad.destwin (base t)) then Done t
  else
    match dwin with
    | Some w => let t := withBase t (NCPad.attach (base t) w) in setpos t (curs t)
    | None => Done (withBase t (NCPad.detach (base t)))
    end.

Definition resize (t : tpad) (nsze : wpair) : outcome tpad :=
  let nsze := AdjustPadSize nsze in
  if negb (sH nsze =? rows (cells t)) || negb (sW nsze =? cols (cells t)) then
    let odest := NCPad.destwin (base t) in
    let! t := match odest with Some _ => setDestwin t None | None => Done t end in
    let b := base t in
    let t := withCells t (wresize (cells t) (sH nsze) (sW nsze)) in
    let t := withBase t (NCPad.Pad (sH nsze) (sW nsze) (NCPad._vheight b) (NCPad.destwin b) (NCPad.drect b) (NCPad.srect b)
               (NCPad.maxdpos b) (NCPad.maxspos b) (NCPad.dclear b) (NCPad.dirty b)) in
    match odest with Some _ => setDestwin t odest | None => Done t end
  else Done t.

Definition assertSze (t : tpad) (minsze : wpair) : outcome tpad :=
  if (sW minsze >? cols (cells t)) || (sH minsze >? rows (cells t)) then resize t minsze else Done t.
Definition assertWidth (t : tpad) (minw : Z) : outcome tpad :=
  if minw >=? cols (cells t) then resize t (WPair (rows (cells t)) (minw + 10)) else Done t.
Definition assertHeight (t : tpad) (minh : Z) : outcome tpad :=
  if minh >? rows (cells t) then resize t (WPair (minh + 10) (cols (cells t))) else Done t.

(** [newl = lines.insert( ++newl, 0 )]: an element behind the iterator. *)
Definition insertAfter (l : list Z) (i : Z) (x : Z) : list Z :=
  take (Z.to_nat (i + 1)) l ++ x :: drop (Z.to_nat (i + 1)) l.
(** [lines.erase( nextl )]. *)
Definition eraseAt (l : list Z) (i : Z) : list Z := take (Z.to_nat i) l ++ drop (Z.to_nat (i + 1)) l.

(** [openLine()], after the pad is high enough. *)
Definition splitLine (t : tpad) : outcome tpad :=
  let newl := cline t + 1 in
  let t := withLines t (insertAfter (lines t) (cline t) 0) in
  let L := pL (curs t) in
  let C := pC (curs t) in
  let! n := curLine t in
  let t :=
    if C =? 0 then
      let t := withCells t (insertln (cells t)) in
      setLine (setLine t newl n) (cline t) 0
    else
      let t := withCells t (insertln (move (cells t) (L + 1) 0)) in
      if C <? n then
        let t := setLine (setLine t newl (n - C)) (cline t) C in
        withCells t (clrtoeol (copyRow (move (cells t) L C) L C (L + 1) 0 (n - C)))
      else t in
  Done (withCursor t newl (WPair (L + 1) 0)).

Definition openLine (t : tpad) : outcome tpad :=
  let! t := assertHeight t (size t + 1) in splitLine t.

(** [delch( previous )]: whether something was deleted. The second part deletes
    at the cursor. *)
Definition delHere (t : tpad) : outcome (tpad * bool) :=
  let! n := curLine t in
  let L := pL (curs t) in
  let C := pC (curs t) in
  if C <? n then
    Done (withCells (setLine t (cline t) (n - 1)) (wdelch (move (cells t) L C)), true)
  else if L + 1 <? size t then
    let! m := lineAt t (cline t + 1) in
    let t := setLine t (cline t) (n + m) in
    let t := withLines t (eraseAt (lines t) (cline t + 1)) in
    let! t := assertWidth t (n + m) in
    Done (withCells t (deleteln (move (copyRow (cells t) (L + 1) 0 L C (n + m)) (L + 1) 0)), true)
  else Done (t, false).

Definition delch (t : tpad) (previous : bool) : outcome (tpad * bool) :=
  if previous then
    if negb (pC (curs t) =? 0) then delHere (withCursor t (cline t) (WPair (pL (curs t)) (pC (curs t) - 1)))
    else if negb (pL (curs t) =? 0) then
      let! n := lineAt t (cline t - 1) in
      delHere (withCursor t (cline t - 1) (WPair (pL (curs t) - 1) n))
    else Done (t, false)
  else delHere t.

Definition UCHAR_MAX : Z := 255.

Definition insert (t : tpad) (key : Z) : outcome (tpad * bool) :=
  if key =? 10 then let! t := openLine t in Done (t, true)
  else if (key <? 32) || ((key >=? 127) && (key <? 160)) || (UCHAR_MAX <? key) then Done (t, false)
  else
    let! n := curLine t in
    let t := setLine t (cline t) (n + 1) in
    let! t := assertWidth t (n + 1) in
    let w := ins_wch (move (cells t) (pL (curs t)) (pC (curs t))) key in
    Done (withCursor (withCells t w) (cline t) (WPair (pL (curs t)) (pC (curs t) + 1)), true).

(** [getText()]: a tab is shown as an arrow. *)
Definition arrow : Z := 8677.
Definition fromCell (ch : Z) : Z := if ch =? arrow then NCtext.tab else ch.
Definition toCell (ch : Z) : Z := if ch =? NCtext.tab then arrow else ch.

Fixpoint getLines (w : win) (l : Z) (ls : list Z) : list (list Z) :=
  match ls with
  | [] => []
  | n :: ls' => map (fun c => fromCell (inch w l (Z.of_nat c))) (seq 0 (Z.to_nat n)) :: getLines w (l + 1) ls'
  end.
Definition getText (t : tpad) : list Z := NCtext.unlines (getLines (cells t) 0 (lines t)).

Inductive key :=
| KEY_LEFT | KEY_UP | KEY_RIGHT | KEY_DOWN | KEY_PPAGE | KEY_NPAGE | KEY_HOME | KEY_END
| KEY_BACKSPACE | KEY_DC | KEY_HOTKEY | KEY_OTHER (k : Z).

(** The switch of [handleInput]: the new state, [beep] and [update]. *)
Definition react (t : tpad) (k : key) : outcome (tpad * bool * bool) :=
  let L := pL (curs t) in
  let C := pC (curs t) in
  let refused := Done (t, true, false) in
  match k with
  | KEY_LEFT =>
      if negb (C =? 0) then Done (withCursor t (cline t) (WPair L (C - 1)), false, true)
      else if negb (L =? 0) then
        let! n := lineAt t (cline t - 1) in Done (withCursor t (cline t - 1) (WPair (L - 1) n), false, true)
      else refused
  | KEY_UP =>
      if negb (L =? 0) then Done (withCursor t (cline t - 1) (WPair (L - 1) C), false, true) else refused
  | KEY_RIGHT =>
      let! n := curLine t in
      if C <? n then Done (withCursor t (cline t) (WPair L (C + 1)), false, true)
      else if L + 1 <? size t then Done (withCursor t (cline t + 1) (WPair (L + 1) 0), false, true)
      else refused
  | KEY_DOWN =>
      if L + 1 <? size t then Done (withCursor t (cline t + 1) (WPair (L + 1) C), false, true) else refused
  | KEY_PPAGE => if negb (L =? 0) then let! t := setpos t (WPair (L - 3) C) in Done (t, false, true) else refused
  | KEY_NPAGE => if L + 1 <? size t then let! t := setpos t (WPair (L + 3) C) in Done (t, false, true) else refused
  | KEY_HOME => Done (if negb (C =? 0) then withCursor t (cline t) (WPair L 0) else t, false, true)
  | KEY_END =>
      let! n := curLine t in
      Done (if C <? n then withCursor t (cline t) (WPair L n) else t, false, true)
  | KEY_BACKSPACE => let! r := delch t true in Done (fst r, negb (snd r), true)
  | KEY_DC => let! r := delch t false in Done (fst r, negb (snd r), true)
  | KEY_HOTKEY => Done (t, false, false)
  | KEY_OTHER k =>
      if (InputMaxLength t >=? 0) && (InputMaxLength t <? Z.of_nat (length (getText t))) then refused
      else let! r := insert t k in Done (fst r, negb (snd r), true)
  end.

Definition handleInput (t : tpad) (k : key) : outcome (tpad * bool) :=
  let t := cursor t false in
  let! r := react t k in
  let '(t, beep, update) := r in
  let t := cursor t true in
  if update then let! t := setpos t (curs t) in Done (t, beep) else Done (t, beep).

(** [setText]: the characters are inserted at the end of their row. *)
Fixpoint drawLine (w : win) (cl cc : Z) (line : list Z) : win :=
  match line with
  | [] => w
  | c :: line' => drawLine (ins_wch (move w cl cc) (toCell c)) cl (cc + 1) line'
  end.
Fixpoint drawLines (w : win) (cl : Z) (text : list (list Z)) : win :=
  match text with
  | [] => w
  | line :: text' => drawLines (drawLine w cl 0 line) (cl + 1) text'
  end.

Section columns.
Context (iswprint : Z -> bool) (wcwidth : Z -> Z) (tabsize : Z).

Definition setText (t : tpad) (ntext : list (list Z)) : outcome tpad :=
  let ocurs := curson t in
  let t := if ocurs then cursor t false else t in
  let t := withCells t (clear (cells t)) in
  let! t := assertSze t (WPair (Z.of_nat (NCtext.Lines ntext)) (NCtext.Columns iswprint wcwidth tabsize ntext + 1)) in
  let t := withCells t (drawLines (cells t) 0 ntext) in
  let ls := map (fun line => Z.of_nat (length line)) ntext in
  let t := withCursor (withLines t (match ls with [] => [0] | _ => ls end)) 0 (both 0) in
  let t := if ocurs then cursor t true else t in
  setpos t (curs t).

Definition setInputMaxLength (t : tpad) (nr : Z) : outcome tpad :=
  let! t :=
    if (nr >=? 0) && (nr <? Z.of_nat (length (getText t)))
    then let! ls := NCtext.lset (take (Z.to_nat nr) (getText t)) in setText t ls
    else Done t in
  Done (TPad (cells t) (base t) (lines t) (cline t) (curs t) (curson t) nr).
End columns.

(** ** Cells *)

(** Windows that show the same. *)
Definition sameCells (w v : win) : Prop := sameSize w v /\ forall i j, inch v i j = inch w i j.

#[local] Instance sameCells_equiv : Equivalence sameCells.
Proof.
  split.
  - intros w. done.
  - intros w v [[Hr Hc] Hi]. split; [by split|]. intros. by rewrite Hi.
  - intros w v u [[Hr Hc] Hi] [[Hr' Hc'] Hi']. split; [split; congruence|]. intros. by rewrite Hi', Hi.
Qed.

(** A row starts with the characters of a line; rows one after the other. *)
Definition rowIs (w : win) (y : Z) (l : list Z) : Prop :=
  forall j ch, l !! j = Some ch -> inch w y (Z.of_nat j) = ch.
Fixpoint rowsAre (w : win) (y : Z) (txt : list (list Z)) : Prop :=
  match txt with
  | [] => True
  | l :: txt' => rowIs w y l /\ rowsAre w (y + 1) txt'
  end.

Definition len (l : list Z) : Z := Z.of_nat (length l).

(** The text is in the cells, with a free column behind every line. *)
Record holds (w : win) (txt : list (list Z)) : Prop := {
  h_rows : Z.of_nat (length txt) <= rows w;
  h_cols : Forall (fun l => len l < cols w) txt;
  h_cells : rowsAre w 0 txt }.


Lemma rowIs_frame w v y z l m : len l < m -> (forall j, 0 <= j -> j + 1 < m -> inch v z j = inch w y j) ->
  rowIs w y l -> rowIs v z l.
Proof.
  intros Hl Hf Hr j ch E. rewrite Hf; [by apply Hr|lia|]. apply lookup_lt_Some in E. unfold len in Hl. lia.
Qed.

Lemma rowsAre_frame w v d m : forall txt y, Forall (fun l => len l < m) txt ->
  (forall i j, y <= i < y + Z.of_nat (length txt) -> 0 <= j -> j + 1 < m -> inch v (i + d) j = inch w i j) ->
  rowsAre w y txt -> rowsAre v (y + d) txt.
Proof.
  induction txt as [|l txt IH]; intros y Hm Hf Hr; simpl in *; [done|]. inversion Hm; subst. destruct Hr as [Hl Hr]. split.
  - eapply rowIs_frame; [done| |done]. intros j Hj Hj'. apply Hf; lia.
  - replace (y + d + 1) with (y + 1 + d) by lia. apply IH; [done| |done]. intros i j Hi. apply Hf. lia.
Qed.

#[local] Instance holds_proper : Proper (sameCells ==> eq ==> impl) holds.
Proof.
  intros w v [[Hr Hc] Hi] txt ? <- [H1 H2 H3]. split; [by rewrite Hr|by rewrite Hc|].
  rewrite <- (Z.add_0_r 0). eapply rowsAre_frame; [done| |done]. intros i j _ _ _. by rewrite Z.add_0_r, Hi.
Qed.

Lemma attr_same w y x : 0 <= y < rows w -> 0 <= x < cols w ->
  sameCells w (add_attr_char w y x) /\
  (x + 1 < cols w -> cury (add_attr_char w y x) = y /\ curx (add_attr_char w y x) = x + 1).
Proof.
  intros Hy Hx. unfold add_attr_char. destruct (move_law w y x Hy Hx) as ([Hr Hc] & Ey & Ex & Hm). set (v := move w y x) in *.
  destruct (add_wch_law v (inch v y x)) as ([Hr' Hc'] & Hcur & Ha); [lia|lia|]. rewrite Ey, Ex in *. split.
  - split; [split; congruence|]. intros i j. rewrite Ha. destruct (Z.eqb_spec i y) as [->|], (Z.eqb_spec j x) as [->|]; simpl; by rewrite Hm.
  - intros. apply Hcur. lia.
Qed.

Lemma move_same w y x : 0 <= y < rows w -> 0 <= x < cols w -> sameCells w (move w y x) /\ cury (move w y x) = y /\ curx (move w y x) = x.
Proof. intros Hy Hx. by destruct (move_law w y x Hy Hx) as (? & ? & ? & ?). Qed.








(** ** The cursor *)

(** The pad of the base class has the size of the window. *)
Record padOk (t : tpad) : Prop := {
  p_ok : NCPad.ok (base t);
  p_vheight : NCPad._vheight (base t) = 0;
  p_rows : NCPad.height (base t) = rows (cells t);
  p_cols : NCPad.width (base t) = cols (cells t) }.

(** The iterator is at the line of the cursor, and the cursor is in the
    window. *)
Record ctrl (t : tpad) : Prop := {
  c_cline : cline t = pL (curs t);
  c_line : 0 <= pL (curs t) < size t;
  c_col : 0 <= pC (curs t) < cols (cells t);
  c_size : size t <= rows (cells t);
  c_lines : Forall (fun n => 0 <= n) (lines t);
  c_two : 2 <= cols (cells t) }.

(** The cell of the cursor is in the visible part. *)
Definition cursorVisible (t : tpad) : Prop :=
  forall w, NCPad.destwin (base t) = Some w -> 0 < sH (NCPad.wsize w) -> 0 < sW (NCPad.wsize w) ->
    covers (NCPad.srect (base t)) (pL (curs t)) (pC (curs t)).

(** Two states that differ in the cells' attributes, the cursor and the visible
    part only. *)
Record sameText (t u : tpad) : Prop := {
  s_cells : sameCells (cells t) (cells u);
  s_lines : lines u = lines t;
  s_max : InputMaxLength u = InputMaxLength t;
  s_dest : NCPad.destwin (base u) = NCPad.destwin (base t) }.

#[local] Instance sameText_pre : PreOrder sameText.
Proof.
  split; [intros t; split; by try reflexivity|]. intros t u v [A1 A2 A3 A4] [B1 B2 B3 B4].
  split; [by etransitivity|congruence..].
Qed.

Lemma cursor_spec t on : ctrl t -> padOk t -> let t' := cursor t on in
  sameText t t' /\ ctrl t' /\ padOk t' /\ curs t' = curs t /\ curson t' = on /\ base t' = base t /\
  (curson t = true -> on = false -> pC (curs t) + 1 < cols (cells t) ->
   cury (cells t') = pL (curs t) /\ curx (cells t') = pC (curs t) + 1).
Proof.
  intros [Hcl Hl Hc Hs Hf H2] [P1 P2 P3 P4]. unfold cursor. destruct (Bool.eqb_spec on (curson t)) as [->|Hne]; simpl.
  { split_and!; try done. intros -> [=]. }
  destruct (attr_same (cells t) (pL (curs t)) (pC (curs t))) as [Hsame Hcur]; [lia|done|]. pose proof Hsame as [[Hr Hcol] _].
  split_and!; try done; try (by split; simpl; rewrite ?Hr, ?Hcol).
Qed.

Lemma base_setpos_dims p pos : let q := (NCPad.setpos p pos).1 in
  NCPad.height q = NCPad.height p /\ NCPad.width q = NCPad.width p /\ NCPad._vheight q = NCPad._vheight p /\
  NCPad.destwin q = NCPad.destwin p /\ NCPad.drect q = NCPad.drect p.
Proof.
  unfold NCPad.setpos, NCPad.update. simpl. destruct (NCPad.destwin p) eqn:E; simpl; [destruct (NCPad.dirty p); simpl|]; by rewrite ?E.
Qed.

(** The page of a coordinate is shown, or the last part of the contents. *)
Lemma page_covers c d total : 0 <= c < total -> 0 < d ->
  let pos := Z.min (Z.max (Z.quot c d * d) 0) (total - Z.min total d) in
  pos <= c < pos + Z.min total d.
Proof.
  intros Hc Hd. rewrite Z.quot_div_nonneg by lia. pose proof (Z.div_mod c d ltac:(lia)). pose proof (Z.mod_pos_bound c d Hd).
  assert (0 <= c / d) by (apply Z.div_pos; lia). nia.
Qed.

Lemma scroll_visible p w c : NCPad.ok p -> NCPad.destwin p = Some w -> 0 < sH (NCPad.wsize w) -> 0 < sW (NCPad.wsize w) ->
  0 <= pL c < NCPad.vheight p -> 0 <= pC c < NCPad.width p ->
  let dsze := Sze (NCPad.drect p) in
  covers (NCPad.srect (NCPad.setpos p (if gtb dsze (both 0) then times (over c dsze) dsze else c)).1) (pL c) (pC c).
Proof.
  intros Hok Hw Hh Hwd Hl Hc dsze. destruct (NCPad.ok_shown _ Hok w Hw) as [_ Hs].
  unfold dsze. rewrite (NCPad.sh_drect _ _ Hs). simpl. unfold gtb. simpl. rewrite !Z.gtb_ltb, !(proj2 (Z.ltb_lt _ _)) by done. simpl.
  set (pos := times _ _). destruct (NCPad.setpos_shown p w pos Hok Hw) as (q & -> & Hq & Hwq & Hcq & _ & _ & Hp). simpl.
  destruct (NCPad.ok_shown _ Hq w Hwq) as [_ Hsq]. unfold covers. rewrite (NCPad.sh_size _ _ Hsq), Hp, Hcq, between_spec, min_spec.
  unfold pos. simpl. split; by apply page_covers.
Qed.

Lemma setpos_spec t newpos : padOk t -> ctrl t ->
  exists t' n, setpos t newpos = Done t' /\
    lines t !! Z.to_nat (Z.max 0 (Z.min (pL newpos) (size t - 1))) = Some n /\
    curs t' = WPair (Z.max 0 (Z.min (pL newpos) (size t - 1))) (Z.min (Z.min (Z.max (pC newpos) 0) (cols (cells t) - 1)) n) /\
    sameText t t' /\ curson t' = curson t /\ padOk t' /\ ctrl t' /\ cursorVisible t' /\
    (curson t = false -> cells t' = cells t).
Proof.
  intros Hpad Hctrl. pose proof Hctrl as [Hcl Hl Hc Hs Hf H2]. unfold setpos. rewrite between_spec. simpl.
  set (L' := Z.max 0 (Z.min (pL newpos) (size t - 1))).
  set (c0 := Z.min (Z.max (pC newpos) 0) (cols (cells t) - 1)). set (l0 := Z.min (Z.max (pL newpos) 0) (rows (cells t) - 1)).
  assert (Hpair : (if l0 >=? size t then (WPair (size t - 1) c0, size t - 1)
                   else (WPair l0 c0, if negb (l0 =? pL (curs t)) then cline t + (l0 - pL (curs t)) else cline t)) =
                  (WPair L' c0, L')).
  { rewrite Z.geb_leb. destruct (Z.leb_spec (size t) l0); [repeat f_equal; lia|].
    assert (l0 = L') as -> by lia. destruct (Z.eqb_spec L' (pL (curs t))); simpl; repeat f_equal; lia. }
  rewrite Hpair. clear Hpair. assert (HL : (Z.to_nat L' < length (lines t))%nat) by (unfold size in *; lia).
  destruct (lookup_lt_is_Some_2 _ _ HL) as [n Hn]. unfold lineAt. rewrite (proj2 (Z.ltb_ge _ _)), Hn by lia. cbn [obind].
  assert (0 <= n) by (eapply Forall_lookup_1 in Hf; [|exact Hn]; done). simpl. set (newp := if c0 >? n then _ else _).
  assert (Hnp : newp = WPair L' (Z.min c0 n)) by (unfold newp; zcases; f_equal; lia). rewrite Hnp. clear newp Hnp.
  set (t1 := if curson t then cursor t false else t).
  assert (Hst1 : sameText t t1 /\ padOk t1 /\ ctrl t1 /\ base t1 = base t /\ (curson t = false -> t1 = t)).
  { unfold t1. destruct (curson t) eqn:E; [|done]. destruct (cursor_spec t false Hctrl Hpad) as (? & ? & ? & ? & ? & ? & ?). done. }
  destruct Hst1 as (T1 & P1 & C1 & B1 & N1). pose proof (s_cells _ _ T1) as [[Hr1 Hc1] _]. pose proof (s_lines _ _ T1) as Hl1.
  set (t2 := withCursor t1 L' (WPair L' (Z.min c0 n))).
  assert (C2 : ctrl t2). { split; simpl; unfold size in *; simpl; rewrite ?Hl1, ?Hr1, ?Hc1; try done; lia. }
  assert (P2 : padOk t2) by (destruct P1; by split).
  set (t3 := if curson t then cursor t2 true else t2).
  assert (Hst3 : sameText t2 t3 /\ padOk t3 /\ ctrl t3 /\ curs t3 = curs t2 /\ base t3 = base t /\ curson t3 = curson t /\ (curson t = false -> t3 = t2)).
  { unfold t3. destruct (curson t) eqn:E; [|by rewrite (N1 eq_refl) in *].
    destruct (cursor_spec t2 true C2 P2) as (? & ? & ? & ? & ? & Hb & _). split_and!; try done. by rewrite Hb. }
  destruct Hst3 as (T3 & P3 & C3 & E3 & B3 & On3 & N3). exists (withBase t3 (NCPad.setpos (base t3) (if gtb (Sze (NCPad.drect (base t3))) (both 0) then
    times (over (curs t3) (Sze (NCPad.drect (base t3)))) (Sze (NCPad.drect (base t3))) else curs t3)).1), n.
  split; [done|]. set (pp := if gtb _ _ then _ else _). destruct (base_setpos_dims (base t3) pp) as (D1 & D2 & D3 & D4 & D5).
  assert (T13 : sameText t t3) by (etransitivity; [exact T1|]; destruct T3; by split).
  split_and!; try done.
  - destruct T13. split; try done. simpl. by rewrite D4.
  - destruct P3 as [Q1 Q2 Q3 Q4]. split; simpl; [by apply NCPad.setpos_ok|congruence..].
  - by destruct C3.
  - intros w Hw Hh Hwd. simpl in Hw. rewrite D4 in Hw. destruct P3 as [Q1 Q2 Q3 Q4], C3 as [R1 R2 R3 R4 R5 R6].
    apply (scroll_visible (base t3) w (curs t3)); try done.
    + unfold NCPad.vheight. rewrite Q2. simpl. rewrite Q3. lia.
    + by rewrite Q4.
  - intros Hoff. simpl. rewrite (N3 Hoff). simpl. by rewrite (N1 Hoff).
Qed.

(** ** Growing *)

Hypothesis adj_larger : forall s, NCPad.nonneg s -> sH s <= sH (AdjustPadSize s) /\ sW s <= sW (AdjustPadSize s).

(** What growing the pad keeps: everything but the size. *)
Record grown (t u : tpad) : Prop := {
  g_curs : curs u = curs t;
  g_cline : cline u = cline t;
  g_lines : lines u = lines t;
  g_on : curson u = curson t;
  g_max : InputMaxLength u = InputMaxLength t;
  g_rows : rows (cells t) <= rows (cells u);
  g_cols : cols (cells t) <= cols (cells u);
  g_cury : curson t = false -> 0 <= cury (cells t) < rows (cells t) -> 0 <= curx (cells t) < cols (cells t) ->
    cury (cells u) = cury (cells t);
  g_dest : NCPad.destwin (base u) = NCPad.destwin (base t);
  g_holds : forall txt, holds (cells t) txt -> holds (cells u) txt }.



(** The cursor is not behind the end of its line. *)
Definition inLine (t : tpad) : Prop :=
  exists n, lines t !! Z.to_nat (pL (curs t)) = Some n /\ pC (curs t) <= n.

(** [setpos( curs )] keeps a cursor that is in its line. *)
Lemma setpos_stay t : padOk t -> ctrl t -> inLine t ->
  exists t', setpos t (curs t) = Done t' /\ curs t' = curs t /\ sameText t t' /\ curson t' = curson t /\ padOk t' /\ ctrl t' /\
    cursorVisible t' /\ (curson t = false -> cells t' = cells t).
Proof.
  intros Hp Hc (m & Hm & Hle). destruct (setpos_spec t (curs t) Hp Hc) as (t' & n & E & Hn & Hcur & HT & Hon & Hp' & Hc' & Hv & Hoff).
  exists t'. split_and!; try done. destruct Hc as [Hcl Hl Hcol Hs Hf H2].
  assert (EL : Z.max 0 (Z.min (pL (curs t)) (size t - 1)) = pL (curs t)) by lia. rewrite EL in *.
  replace m with n in * by congruence. rewrite Hcur. rewrite (wpair_eta (curs t)). simpl. f_equal. lia.
Qed.

Lemma setDestwin_none t dw : NCPad.destwin (base t) = Some dw ->
  setDestwin t None = Done (withBase t (NCPad.detach (base t))).
Proof. intros E. unfold setDestwin. by rewrite E, bool_decide_eq_false_2. Qed.

Lemma setDestwin_some t dw : NCPad.destwin (base t) = None ->
  setDestwin t (Some dw) = setpos (withBase t (NCPad.attach (base t) dw)) (curs t).
Proof. intros E. unfold setDestwin. by rewrite E, bool_decide_eq_false_2. Qed.




(** ** The text as a document with a cursor *)

(** The lines above and below the cursor, and its line before and after it. *)
Record doc := Doc { above : list (list Z); left : list Z; right : list Z; below : list (list Z) }.

Definition text (d : doc) : list (list Z) := above d ++ (left d ++ right d) :: below d.
Definition pos (d : doc) : wpair := WPair (Z.of_nat (length (above d))) (len (left d)).

(** The cursor at a line and a column, or at the end of the line. *)
Definition goto (txt : list (list Z)) (p : wpair) : doc :=
  let l := default [] (txt !! Z.to_nat (pL p)) in
  Doc (take (Z.to_nat (pL p)) txt) (take (Z.to_nat (pC p)) l) (drop (Z.to_nat (pC p)) l) (drop (S (Z.to_nat (pL p))) txt).


(** The characters of a document as [getText] counts them. *)
Definition plain (txt : list (list Z)) : list Z := NCtext.unlines (map (map fromCell) txt).


(** ** The editor implements the document *)

Record repr (t : tpad) (txt : list (list Z)) : Prop := {
  r_pad : padOk t;
  r_ctrl : ctrl t;
  r_lines : lines t = map len txt;
  r_holds : holds (cells t) txt }.

Record refines (t : tpad) (d : doc) : Prop := {
  f_repr : repr t (text d);
  f_curs : curs t = pos d }.


Lemma goto_text txt p : (Z.to_nat (pL p) < length txt)%nat -> text (goto txt p) = txt.
Proof.
  intros Hl. unfold goto, text. simpl. rewrite take_drop. destruct (lookup_lt_is_Some_2 txt _ Hl) as [l Hl'].
  rewrite Hl'. simpl. by rewrite take_drop_middle.
Qed.






(** A state for a text. *)
Lemma repr_make t w ls p txt cl on : padOk t -> sameSize (cells t) w -> holds w txt -> ls = map len txt -> cl = pL p ->
  0 <= pL p < Z.of_nat (length txt) -> 0 <= pC p < cols w -> 2 <= cols w ->
  repr (TPad w (base t) ls cl p on (InputMaxLength t)) txt.
Proof.
  intros [P1 P2 P3 P4] [Hr Hc] Hh -> -> Hl Hcol H2. split; [split; simpl; congruence| |done|done].
  split; simpl; unfold size; simpl; rewrite ?length_map; try done; [apply Hh|].
  apply List.Forall_map, List.Forall_forall. intros. unfold len. lia.
Qed.



(** What editing keeps besides. *)
Record kept (t u : tpad) : Prop := {
  k_on : curson u = curson t;
  k_max : InputMaxLength u = InputMaxLength t;
  k_dest : NCPad.destwin (base u) = NCPad.destwin (base t) }.

Lemma grown_kept t u : grown t u -> kept t u.
Proof. intros []. by split. Qed.














(** ** Reading the text *)

Lemma row_read w y l : rowIs w y l -> map (fun c => fromCell (inch w y (Z.of_nat c))) (seq 0 (length l)) = map fromCell l.
Proof.
  intros Hr. apply list_eq. intros j. change (map (fun c => fromCell (inch w y (Z.of_nat c)))) with (fmap (M := list) (fun c => fromCell (inch w y (Z.of_nat c)))).
  change (map fromCell l) with (fromCell <$> l). rewrite !list_lookup_fmap. destruct (l !! j) as [ch|] eqn:E.
  - rewrite lookup_seq_lt by (by eapply lookup_lt_Some). simpl. by rewrite (Hr j ch E).
  - rewrite lookup_seq_ge by (by apply lookup_ge_None). done.
Qed.

Lemma getLines_spec w txt : forall y, rowsAre w y txt -> getLines w y (map len txt) = map (map fromCell) txt.
Proof.
  induction txt as [|l txt IH]; intros y Hr; simpl in *; [done|]. destruct Hr as [Hl Hr]. unfold len at 1. rewrite Nat2Z.id, row_read by done.
  by rewrite IH.
Qed.

Lemma getText_spec t txt : repr t txt -> getText t = plain txt.
Proof. intros Hr. unfold getText, plain. rewrite (r_lines _ _ Hr), getLines_spec; [done|]. apply (r_holds _ _ Hr). Qed.

(** ** Keys *)


Lemma kept_refl t : kept t t.
Proof. by split. Qed.


















(** ** Setting the text *)

(** The characters of a line inserted behind those of its row. *)
Lemma drawLine_spec line : forall w y pre, 0 <= y < rows w -> len pre + len line < cols w -> rowIs w y pre ->
  let v := drawLine w y (len pre) line in
  sameSize w v /\ rowIs v y (pre ++ map toCell line) /\
  (forall i j, 0 <= i < rows w -> 0 <= j < cols w -> i <> y -> inch v i j = inch w i j).
Proof.
  induction line as [|c line IH]; intros w y pre Hy Hw Hr; cbv zeta; cbn [drawLine]; [by rewrite app_nil_r|].
  assert (0 <= len pre /\ 0 <= len line /\ len (c :: line) = len line + 1) as (Hp & Hln & Hcl) by (unfold len; simpl; lia).
  destruct (move_same w y (len pre)) as ([[Hr1 Hc1] Hm] & Ey & Ex); [done|lia|]. set (m := move w y (len pre)) in *.
  destruct (ins_wch_law m (toCell c)) as ([Hr2 Hc2] & Hi); [lia|lia|]. set (v := ins_wch m (toCell c)) in *. rewrite Ey, Ex, Hr1, Hc1 in *.
  assert (Elen : len (pre ++ [toCell c]) = len pre + 1) by (unfold len; rewrite length_app; simpl; lia).
  destruct (IH v y (pre ++ [toCell c])) as (Hsz & Hrow & Hoth); [lia|lia| |].
  - intros j ch E. pose proof (lookup_lt_Some _ _ _ E) as Hj. rewrite length_app in Hj. simpl in Hj. unfold len in *.
    rewrite Hi, Z.eqb_refl, !Hm by lia. destruct (Z.ltb_spec (Z.of_nat j) (Z.of_nat (length pre))).
    + apply Hr. by rewrite lookup_app_l in E by lia.
    + replace j with (length pre) in * by lia. rewrite Z.eqb_refl. rewrite list_lookup_middle in E by done. by injection E.
  - rewrite Elen in *. cbv zeta in *. destruct Hsz. split; [split; congruence|]. rewrite <- app_assoc in Hrow. split; [exact Hrow|].
    intros i j Hii Hj Hne. rewrite Hoth, Hi, Hm by lia. by rewrite (proj2 (Z.eqb_neq _ _)).
Qed.

Lemma drawLines_spec txt : forall w y, 0 <= y -> y + Z.of_nat (length txt) <= rows w -> Forall (fun l => len l < cols w) txt ->
  let v := drawLines w y txt in
  sameSize w v /\ rowsAre v y (map (map toCell) txt) /\
  (forall i j, 0 <= i < y -> 0 <= j < cols w -> inch v i j = inch w i j).
Proof.
  induction txt as [|l txt IH]; intros w y Hy Hrows HF; cbv zeta; cbn [drawLines]; [done|].
  inversion HF as [|? ? Hl HF']; subst. simpl length in Hrows.
  destruct (drawLine_spec l w y []) as ([Hr Hc] & Hrow & Hoth); [lia|exact Hl|done|]. change (len []) with 0 in *. set (v := drawLine w y 0 l) in *.
  destruct (IH v (y + 1)) as ([Hr' Hc'] & Hrows' & Hoth'); [lia|lia|by rewrite Hc|]. cbv zeta in *. set (u := drawLines v (y + 1) txt) in *.
  split; [split; congruence|]. split; [split; [|exact Hrows']|].
  - apply (rowIs_frame v u y y _ (cols w)); [unfold len in *; rewrite length_map; done| |exact Hrow]. intros j Hj Hj'. apply Hoth'; lia.
  - intros i j Hi Hj. rewrite Hoth', Hoth by lia. done.
Qed.

(** [setpos] with the cursor hidden and the iterator at its line, whatever the
    size of the pad. *)
Lemma setpos_weak t p : padOk t -> cline t = pL (curs t) -> 0 <= pL (curs t) < size t -> 0 < rows (cells t) -> curson t = false ->
  exists u, setpos t p = Done u /\ cells u = cells t /\ lines u = lines t /\ padOk u /\ kept t u.
Proof.
  intros [P1 P2 P3 P4] Hcl Hl Hrows Hoff. unfold setpos. rewrite between_spec. simpl.
  set (l0 := Z.min (Z.max (pL p) 0) (rows (cells t) - 1)). set (c0 := Z.min _ (cols (cells t) - 1)).
  assert (Hpair : exists L', 0 <= L' < size t /\
            (if l0 >=? size t then (WPair (size t - 1) c0, size t - 1)
             else (WPair l0 c0, if negb (l0 =? pL (curs t)) then cline t + (l0 - pL (curs t)) else cline t)) = (WPair L' c0, L')).
  { rewrite Z.geb_leb. destruct (Z.leb_spec (size t) l0); [exists (size t - 1); split; [lia|done]|]. exists l0. split; [lia|].
    destruct (Z.eqb_spec l0 (pL (curs t))); simpl; f_equal; lia. }
  destruct Hpair as (L' & HL & ->). destruct (lookup_lt_is_Some_2 (lines t) (Z.to_nat L')) as [n Hn]; [unfold size in HL; lia|].
  unfold lineAt. rewrite (proj2 (Z.ltb_ge _ _)), Hn by lia. cbn [obind]. rewrite Hoff. eexists. split; [done|]. simpl.
  set (q := (NCPad.setpos (base t) _).1). destruct (base_setpos_dims (base t) (if gtb (Sze (NCPad.drect (base t))) (both 0)
    then times (over (if c0 >? n then WPair L' n else WPair L' c0) (Sze (NCPad.drect (base t)))) (Sze (NCPad.drect (base t)))
    else if c0 >? n then WPair L' n else WPair L' c0)) as (D1 & D2 & D3 & D4 & _). fold q in D1, D2, D3, D4.
  split_and!; try done; try (by split). split; simpl; [by apply NCPad.setpos_ok|congruence..].
Qed.

Lemma resize_weak t nsze : padOk t -> cline t = pL (curs t) -> 0 <= pL (curs t) < size t -> curson t = false ->
  0 < rows (cells t) -> 0 < cols (cells t) -> 0 < sH nsze -> 0 < sW nsze ->
  exists u, resize t nsze = Done u /\ padOk u /\ kept t u /\ 0 < size u /\
    ((sH (AdjustPadSize nsze) = rows (cells u) /\ sW (AdjustPadSize nsze) = cols (cells u))).
Proof.
  intros Hp Hcl Hl Hoff Hr0 Hc0 Hh Hw. pose proof Hp as [P1 P2 P3 P4]. destruct (adj_larger nsze) as [A1 A2]; [unfold NCPad.nonneg; lia|].
  unfold resize. set (n := AdjustPadSize nsze) in *. clearbody n.
  destruct (negb (sH n =? rows (cells t)) || negb (sW n =? cols (cells t))) eqn:Eb.
  2:{ apply orb_false_iff in Eb as [E1 E2]. apply negb_false_iff, Z.eqb_eq in E1, E2. exists t. split_and!; auto using kept_refl. lia. }
  destruct (wresize_law (cells t) (sH n) (sW n)) as (Er & Ec & _ & _); [lia|lia|]. destruct (NCPad.destwin (base t)) as [dw|] eqn:Ed.
  - rewrite (setDestwin_none t dw Ed). cbn [obind]. simpl.
    match goal with |- context [setDestwin ?x (Some dw)] => set (t1 := x) end.
    rewrite (setDestwin_some t1 dw eq_refl). set (t2 := withBase t1 (NCPad.attach (base t1) dw)).
    destruct (NCPad.ok_shown _ P1 dw Ed) as [Hdw _].
    assert (Hp2 : padOk t2).
    { split; simpl; [|done|by rewrite Er|by rewrite Ec]. apply NCPad.attach_ok; [|unfold NCPad.paging; simpl; by rewrite P2|done].
      unfold NCPad.contents, NCPad.vheight, NCPad.nonneg. simpl. rewrite P2. simpl. lia. }
    destruct (setpos_weak t2 (curs t1) Hp2 Hcl Hl) as (u & E & Ecells & Elines & Hpu & [K1 K2 K3]); [simpl; lia|done|].
    exists u. split; [done|]. split; [done|]. split; [split; simpl in *; congruence|]. rewrite Ecells. unfold size. rewrite Elines. simpl.
    fold (size t). split; [lia|]. by rewrite Er, Ec.
  - cbn [obind]. eexists. split; [done|]. simpl. destruct (NCPad.ok_hidden _ P1 Ed) as [Hsr Hms].
    split; [|split; [split; simpl; congruence|split; [unfold size; simpl; fold (size t); lia|by rewrite Er, Ec]]].
    split; simpl; [|done|by rewrite Er|by rewrite Ec].
    split; [|unfold NCPad.paging; simpl; by rewrite P2|done|simpl; congruence].
    unfold NCPad.contents, NCPad.vheight, NCPad.nonneg. simpl. rewrite P2. simpl. lia.
Qed.

Section set_text.
Context (iswprint : Z -> bool) (wcwidth : Z -> Z) (tabsize : Z).

(** The window of the editor has two columns at least. *)
Hypothesis adj_two : forall s, 2 <= sW (AdjustPadSize s).

(** Every character takes a column. *)
Definition wide (ntext : list (list Z)) : Prop :=
  Forall (Forall (fun c => 1 <= NCtext.charColumns iswprint wcwidth tabsize c)) ntext.

Lemma hideCursor_spec t : padOk t -> ctrl t -> let u := if curson t then cursor t false else t in
  padOk u /\ ctrl u /\ curson u = false /\ InputMaxLength u = InputMaxLength t.
Proof.
  intros Hp Hc. cbv zeta. destruct (curson t) eqn:E; [|done]. destruct (cursor_spec t false Hc Hp) as (HT & ? & ? & _ & ? & _).
  split_and!; try done. apply (s_max _ _ HT).
Qed.

(** The pad is large enough for the text. *)
Lemma assertSze_spec t ntext : padOk t -> ctrl t -> curson t = false -> ntext <> [] -> wide ntext ->
  exists u, assertSze t (WPair (Z.of_nat (NCtext.Lines ntext)) (NCtext.Columns iswprint wcwidth tabsize ntext + 1)) = Done u /\
    padOk u /\ curson u = false /\ InputMaxLength u = InputMaxLength t /\ 2 <= cols (cells u) /\
    Z.of_nat (length ntext) <= rows (cells u) /\ Forall (fun l => len l < cols (cells u)) ntext.
Proof.
  intros Hp Hc Hoff Hne Hw. set (C := NCtext.Columns iswprint wcwidth tabsize ntext). pose proof Hc as [Hcl HL HC HS _ H2].
  assert (HF : Forall (fun l => len l < C + 1) ntext).
  { apply List.Forall_forall. intros l Hin. apply list_elem_of_In in Hin. pose proof (Forall_at _ _ _ Hw Hin) as Hl.
    pose proof (NCtext.Columns_enough iswprint wcwidth tabsize ntext l Hin Hl). unfold len, C. lia. }
  assert (Hlines : (ntext = [[]] /\ C = 0 /\ NCtext.Lines ntext = 0%nat) \/ NCtext.Lines ntext = length ntext).
  { destruct ntext as [|[|c l] [|l2 r]]; auto. }
  assert (Hpos : (0 < length ntext)%nat) by (destruct ntext; simpl; [done|lia]).
  assert (HC0 : 0 <= C) by (destruct ntext as [|l r]; [done|]; inversion HF; subst; unfold len in *; lia).
  unfold assertSze. simpl. rewrite !Z.gtb_ltb. destruct (_ || _) eqn:Eb.
  - rewrite orb_true_iff, !Z.ltb_lt in Eb. assert (El : NCtext.Lines ntext = length ntext).
    { destruct Hlines as [(_ & HC' & HL')|]; [|done]. rewrite HL', HC' in Eb. lia. }
    rewrite El in *. destruct (resize_weak t (WPair (Z.of_nat (length ntext)) (C + 1)) Hp Hcl HL Hoff) as (u & E & Hpu & [K1 K2 K3] & _ & Er & Ec); simpl; try lia.
    destruct (adj_larger (WPair (Z.of_nat (length ntext)) (C + 1))) as [A1 A2]; [unfold NCPad.nonneg; simpl; lia|]. simpl in A1, A2.
    pose proof (adj_two (WPair (Z.of_nat (length ntext)) (C + 1))). exists u. rewrite E. split_and!; try done; [congruence|lia|lia|].
    eapply Forall_impl; [|exact HF]. simpl. lia.
  - rewrite orb_false_iff, !Z.ltb_ge in Eb. destruct Eb as [Eb1 Eb2]. exists t. split_and!; try done.
    + destruct Hlines as [(-> & _)|E]; [simpl; lia|]. by rewrite E in Eb2.
    + eapply Forall_impl; [|exact HF]. simpl. lia.
Qed.

(** Setting a text shows it with the cursor at its start. *)
Lemma setText_spec t ntext : padOk t -> ctrl t -> ntext <> [] -> wide ntext ->
  exists u, setText iswprint wcwidth tabsize t ntext = Done u /\ refines u (goto (map (map toCell) ntext) (both 0)) /\
    curson u = curson t /\ InputMaxLength u = InputMaxLength t /\ cursorVisible u.
Proof.
  intros Hp Hc Hne Hw. unfold setText. destruct (hideCursor_spec t Hp Hc) as (Hp1 & Hc1 & Eon1 & Em1). set (t1 := if curson t then _ else _) in *.
  pose proof (clear_law (cells t1)) as [Hr Hcl]. set (t2 := withCells t1 (clear (cells t1))).
  assert (Hp2 : padOk t2) by (destruct Hp1; split; simpl; congruence).
  assert (Hc2 : ctrl t2) by (destruct Hc1; split; unfold size in *; simpl; rewrite ?Hr, ?Hcl; done).
  destruct (assertSze_spec t2 ntext Hp2 Hc2 Eon1 Hne Hw) as (t3 & -> & Hp3 & Eon3 & Em3 & Htwo & Hrows & Hcols). cbn [obind].
  destruct (drawLines_spec ntext (cells t3) 0) as (Hsz & Hdrawn & _); [lia|lia|done|]. cbv zeta in *. set (w := drawLines (cells t3) 0 ntext) in *.
  set (txt := map (map toCell) ntext). set (ls := match map (fun line => Z.of_nat (length line)) ntext with [] => [0] | _ => _ end).
  assert (Els : ls = map len txt).
  { unfold ls, txt. rewrite map_map. assert (map (fun l => len (map toCell l)) ntext = map (fun line => Z.of_nat (length line)) ntext) as ->.
    { apply map_ext. intros l. unfold len. by rewrite length_map. }
    by destruct ntext. }
  assert (Hlen : length txt = length ntext) by (unfold txt; by rewrite length_map).
  assert (Hpos : (0 < length ntext)%nat) by (destruct ntext; simpl; [done|lia]).
  set (t4 := withCursor _ 0 (both 0)). assert (Hr4 : repr t4 txt).
  { unfold t4, withCursor. simpl. apply (repr_make t3); try done; simpl; destruct Hsz as [Hs1 Hs2]; try lia.
    split; [rewrite Hs1; lia| |done]. rewrite Hs2. apply List.Forall_map. eapply Forall_impl; [|exact Hcols]. intros l. unfold len. by rewrite length_map. }
  set (t5 := if curson t then cursor t4 true else t4).
  assert (Em4 : InputMaxLength t4 = InputMaxLength t) by (transitivity (InputMaxLength t2); [exact Em3|exact Em1]).
  assert (Hr5 : repr t5 txt /\ curs t5 = both 0 /\ curson t5 = curson t /\ InputMaxLength t5 = InputMaxLength t).
  { unfold t5. destruct (curson t) eqn:Eon; [|by split_and!].
    destruct (cursor_spec t4 true (r_ctrl _ _ Hr4) (r_pad _ _ Hr4)) as (HT & ? & ? & ? & ? & _). split_and!; try done.
    - split; [done|done|by rewrite (s_lines _ _ HT); apply Hr4|]. pose proof (s_cells _ _ HT) as Hs. rewrite <- Hs. apply Hr4.
    - rewrite (s_max _ _ HT). exact Em4. }
  destruct Hr5 as (Hr5 & Ec5 & Eon5 & Em5). destruct (lookup_lt_is_Some_2 txt 0) as [l Hl]; [lia|].
  destruct (setpos_stay t5 (r_pad _ _ Hr5) (r_ctrl _ _ Hr5)) as (u & -> & Ecu & HTu & Eonu & Hpu & Hcu & Hvu & _).
  { exists (len l). rewrite Ec5, (r_lines _ _ Hr5). change (Z.to_nat (pL (both 0))) with 0%nat. change (pC (both 0)) with 0. change (map len txt) with (len <$> txt). rewrite list_lookup_fmap, Hl. split; [done|unfold len; lia]. }
  exists u. split; [done|]. split; [|split_and!; [congruence|rewrite (s_max _ _ HTu); congruence|done]].
  split; [rewrite goto_text by (simpl; lia)|].
  - split; [done|done|by rewrite (s_lines _ _ HTu); apply Hr5|]. pose proof (s_cells _ _ HTu) as Hs. rewrite <- Hs. apply Hr5.
  - rewrite Ecu, Ec5. unfold pos, goto, both. simpl. by rewrite take_0.
Qed.

(** The text that was set is read again, without its carriage returns and
    perhaps without a newline at the end, as long as it does not have the arrow
    that stands for a tab; the cursor is at its start. *)
Theorem textpad_roundtrip t s : padOk t -> ctrl t -> arrow ∉ s ->
  (forall c, c ∈ s -> c <> NCtext.newline -> 1 <= NCtext.charColumns iswprint wcwidth tabsize c) ->
  exists ls u, NCtext.lset s = Done ls /\ setText iswprint wcwidth tabsize t ls = Done u /\ curs u = both 0 /\ cursorVisible u /\
    (NCtext.eraseReturns s = getText u \/ NCtext.eraseReturns s = getText u ++ [NCtext.newline]).
Proof.
  intros Hp Hc Hno Hcols. destruct (NCtext.text_lines s) as (ls & E & Hne & Hnl & Hor). exists ls.
  assert (Hin : forall l c, l ∈ ls -> c ∈ l -> c ∈ s).
  { intros l c Hl Hcl. assert (c ∈ NCtext.unlines ls) by (by eapply NCtext.unlines_elem).
    assert (c ∈ NCtext.eraseReturns s) as Hf by (destruct Hor as [->| ->]; set_solver). unfold NCtext.eraseReturns in Hf.
    by apply list_elem_of_filter in Hf as [_ ?]. }
  assert (Hw : wide ls).
  { apply List.Forall_forall. intros l Hl. apply list_elem_of_In in Hl. apply List.Forall_forall. intros c Hcl. apply list_elem_of_In in Hcl.
    apply Hcols; [by eapply Hin|]. pose proof (Forall_at _ _ _ Hnl Hl) as Hn. simpl in Hn. intros ->. done. }
  destruct (setText_spec t ls Hp Hc Hne Hw) as (u & Eu & [Hr Hcu] & _ & _ & Hv). exists u. split_and!; try done.
  rewrite goto_text in Hr by (rewrite length_map; simpl; destruct ls; [done|simpl; lia]).
  rewrite (getText_spec u _ Hr). unfold plain. rewrite map_map.
  assert (map (fun x => map fromCell (map toCell x)) ls = ls) as ->; [|done].
  rewrite <- (map_id ls) at 2. apply map_ext_in. intros l Hl. apply list_elem_of_In in Hl.
  rewrite map_map. rewrite <- (map_id l) at 2. apply map_ext_in. intros c Hcl. apply list_elem_of_In in Hcl. unfold fromCell, toCell.
  destruct (Z.eqb_spec c NCtext.tab) as [->|]; [done|]. destruct (Z.eqb_spec c arrow) as [->|]; [|done]. by destruct Hno; eapply Hin.
Qed.

End set_text.

End textpad.
Arguments tpad : clear implicits.
End NCTextPad.

(** ** Running the editor *)

Module TextPadSamples.
Import Grid.
Import NCTextPad.

Definition asciiPrint (c : Z) : bool := (32 <=? c) && (c <? 127).
Definition one (c : Z) : Z := 1.

(** An editor in a window of four lines and ten columns, with the text that
    [setValue] gave it. *)
Definition screen : NCPad.window := NCPad.Window 1 (WPair 4 10).
Definition adjust : wpair -> wpair := NCPadWidget.AdjustPadSize (Some screen).
Definition edited (s : list Z) : outcome (tpad grid) :=
  let t := newTextPad 32767 (newGrid 4 10) in
  let! ls := NCtext.lset s in
  let! t := setText adjust asciiPrint one 8 t ls in
  setDestwin t (Some screen).

Lemma adjust_larger s : NCPad.nonneg s -> sH s <= sH (adjust s) /\ sW s <= sW (adjust s).
Proof. intros _. unfold adjust, NCPadWidget.AdjustPadSize. rewrite max_spec. simpl. lia. Qed.

Lemma adjust_two s : 2 <= sW (adjust s).
Proof. unfold adjust, NCPadWidget.AdjustPadSize. rewrite max_spec. simpl. lia. Qed.

Definition fresh : tpad grid := cursor (newTextPad 32767 (newGrid 4 10)) true.

Lemma fresh_ok : padOk fresh /\ ctrl fresh.
Proof.
  assert (Hp : padOk (newTextPad 32767 (newGrid 4 10))) by (split; [apply NCPad.newPad_ok; done|done|done|done]).
  assert (Hc : ctrl (newTextPad 32767 (newGrid 4 10))) by (split; simpl; try done; by constructor).
  by destruct (cursor_spec _ true Hc Hp) as (_ & ? & ? & _).
Qed.

(** The editor with its limit: the state after a text was set and the limit as
    well, then a key typed at the end. *)
Definition limited (s : list Z) (nr k : Z) : outcome (list Z) :=
  let! t := edited s in
  let! t := setInputMaxLength adjust asciiPrint one 8 t nr in
  let! r := handleInput adjust t KEY_END in
  let! r := handleInput adjust (fst r) (KEY_OTHER k) in
  Done (getText (fst r)).

(** A text of three characters with the limit three takes a fourth one. *)
Theorem textpad_limit_exceeded : limited [97; 98; 99] 3 120 = Done [97; 98; 99; 120].
Proof. vm_compute. done. Qed.

(** The return key at the start of a line relies on the cursor being shown:
    before the editor is redrawn as the active widget, the characters of the
    line are lost. *)
Theorem return_needs_cursor :
  (let! t := edited [97; 98; 10; 99; 100] in
   let! r := handleInput adjust t (KEY_OTHER 10) in Done (getText (fst r))) = Done [10; 32; 32; 10; 99; 100] /\
  (let! t := edited [97; 98; 10; 99; 100] in
   let! t := setposState t true in
   let! r := handleInput adjust t (KEY_OTHER 10) in Done (getText (fst r))) = Done [10; 97; 98; 10; 99; 100].
Proof. vm_compute. done. Qed.


Lemma textpad_roundtrip_witness : exists ls u,
  NCtext.lset [97; 9; 98; 10; 99] = Done ls /\ setText adjust asciiPrint one 8 fresh ls = Done u /\
  (NCtext.eraseReturns [97; 9; 98; 10; 99] = getText u \/ NCtext.eraseReturns [97; 9; 98; 10; 99] = getText u ++ [10]).
Proof.
  destruct fresh_ok as [Hp Hc].
  destruct (textpad_roundtrip adjust adjust_larger asciiPrint one 8 adjust_two fresh [97; 9; 98; 10; 99] Hp Hc) as (ls & u & E & Eu & _ & _ & H).
  - by apply (bool_decide_unpack _); vm_compute.
  - intros c Hc' Hn. assert (c = 97 \/ c = 9 \/ c = 98 \/ c = 10 \/ c = 99) as Hcs by set_solver.
    destruct Hcs as [-> |[-> |[-> |[-> | ->]]]]; first [by destruct Hn | vm_compute; congruence].
  - exists ls, u. by split_and!.
Defined.

End TextPadSamples.
