(* ===== verification/RichText.v ===== *)
(** * Formatted texts in the text mode

    src/libyui-ncurses/src/NCRichText.cc: how a text with HTML tags is drawn into
    a pad. The text is a list of code points without the terminating zero;
    drawing gives the characters with the place and the style they are written
    with. *)

From S2P Require Import Prelude CNum Text.
From Stdlib Require Import Sorted.
From stdpp Require Import gmap pretty.

Local Open Scope Z_scope.

Module NCRichText.

(** A wide string literal. *)
Definition L (s : string) : list Z := map (fun a => Z.of_nat (Ascii.nat_of_ascii a)) (String.list_ascii_of_string s).

Definition ch_amp : Z := 38.
Definition ch_semicolon : Z := 59.
Definition ch_hash : Z := 35.
Definition ch_lt : Z := 60.
Definition ch_gt : Z := 62.
Definition ch_slash : Z := 47.
Definition ch_space : Z := 32.
Definition ch_quote : Z := 34.

(** The position of the first character of a kind: what is before it, and what
    is behind it. *)
Fixpoint splitAt (P : Z -> bool) (s : list Z) : option (list Z * Z * list Z) :=
  match s with
  | [] => None
  | c :: s' =>
      if P c then Some ([], c, s')
      else match splitAt P s' with Some (a, x, b) => Some (c :: a, x, b) | None => None end
  end.

(** ** Character entities *)

(** [std::wcstol( s, &endptr, 0 )]: [None] if nothing was converted. *)
Definition isSpace (c : Z) : bool := (c =? 32) || ((9 <=? c) && (c <=? 13)).
Definition digitValue (c : Z) : Z :=
  if (48 <=? c) && (c <=? 57) then c - 48
  else if (97 <=? c) && (c <=? 122) then c - 87
  else if (65 <=? c) && (c <=? 90) then c - 55
  else 99.
Fixpoint number (base acc : Z) (s : list Z) : Z :=
  match s with
  | [] => acc
  | c :: s' => if digitValue c <? base then number base (acc * base + digitValue c) s' else acc
  end.
Definition startsWithDigit (base : Z) (s : list Z) : bool :=
  match s with c :: _ => digitValue c <? base | [] => false end.
Definition LONG_MAX : Z := 2 ^ 63 - 1.
Definition unsignedPart (s : list Z) : option Z :=
  match s with
  | 48 :: x :: s' =>
      if ((x =? 120) || (x =? 88)) && startsWithDigit 16 s' then Some (number 16 0 s') else Some (number 8 0 (x :: s'))
  | 48 :: [] => Some 0
  | _ => if startsWithDigit 10 s then Some (number 10 0 s) else None
  end.
Fixpoint skipSpaces (s : list Z) : list Z :=
  match s with c :: s' => if isSpace c then skipSpaces s' else s | [] => [] end.
Definition wcstol (s : list Z) : option Z :=
  match skipSpaces s with
  | 45 :: s' => option_map (fun n => Z.max (- LONG_MAX - 1) (- n)) (unsignedPart s')
  | 43 :: s' => option_map (Z.min LONG_MAX) (unsignedPart s')
  | s' => option_map (Z.min LONG_MAX) (unsignedPart s')
  end.

(** [boost::replace_all( s, "x", "0x" )]. *)
Definition hexPrefix (s : list Z) : list Z := flat_map (fun c => if c =? 120 then [48; 120] else [c]) s.

Section entities.

(** The name of the product, and how the stream widens a [char]. *)
Context (product : list Z) (widen : Z -> Z).

(** The conversion of [long] to [char]. *)
Definition toChar (c : Z) : Z := (c + 128) mod 256 - 128.

Definition numericEntity (val_r : list Z) : list Z :=
  match splitAt (Z.eqb ch_hash) val_r with
  | None => []
  | Some (_, _, s) => match wcstol (hexPrefix s) with Some c => [widen (toChar c)] | None => [] end
  end.

(** The table of the entities, as it is initialised. *)
Definition initialEntities : gmap (list Z) (list Z) :=
  <[L "amp" := L "&"]> (<[L "gt" := L ">"]> (<[L "lt" := L "<"]> (<[L "nbsp" := L " "]>
    (<[L "quot" := [ch_quote]]> (<[L "product" := product]> ∅))))).

(** [entityLookup] with the table [_charentity], which it fills. *)
Definition entityLookup (table : gmap (list Z) (list Z)) (val_r : list Z) : gmap (list Z) (list Z) * list Z :=
  let ascii := numericEntity val_r in
  let table := if bool_decide (table = ∅) then initialEntities else table in
  match table !! val_r with
  | Some r => (table, r)
  | None => match ascii with [] => (table, []) | _ => (<[val_r := ascii]> table, ascii) end
  end.

(** What it returns, whatever was looked up before. *)
Definition entity (val_r : list Z) : list Z :=
  match initialEntities !! val_r with Some r => r | None => numericEntity val_r end.

(** [filterEntities]: [txt] is the text from the position of the search on. *)
Fixpoint filterLoop (fuel : nat) (table : gmap (list Z) (list Z)) (txt : list Z) : outcome (gmap (list Z) (list Z) * list Z) :=
  match fuel with
  | O => NoFuel
  | S fuel' =>
      match splitAt (Z.eqb ch_amp) txt with
      | None => Done (table, txt)
      | Some (before, _, rest) =>
          match splitAt (Z.eqb ch_semicolon) rest with
          | None => Done (table, txt)
          | Some (name, _, after) =>
              let '(table, repl) := entityLookup table name in
              let txt' :=
                if negb (bool_decide (repl = [])) || bool_decide (name = L "product")
                then repl ++ after else ch_amp :: rest in
              match txt' with
              | [] => Done (table, before)
              | c :: txt'' =>
                  let! r := filterLoop fuel' table txt'' in
                  Done (fst r, before ++ c :: snd r)
              end
          end
      end
  end.

Definition count (x : Z) (s : list Z) : nat := length (filter (fun c => c = x) s).

(** A search goes on behind an ampersand; each semicolon makes the name of the
    product appear at most once. *)
Definition filterEntities (table : gmap (list Z) (list Z)) (text : list Z) : outcome (gmap (list Z) (list Z) * list Z) :=
  filterLoop (S (count ch_amp text + count ch_semicolon text * count ch_amp product)) table text.

End entities.

(** ** The state of drawing *)

Inductive style := SPlain | SLink | STitle | SB | SI | ST | SBI | SBT | SIT | SBIT.

Inductive TOKEN := T_UNKNOWN | T_IGNORE | T_BR | T_PAR | T_LEVEL | T_LI | T_PLAIN | T_BOLD | T_IT | T_TT | T_ANC | T_HEAD.

#[global] Instance TOKEN_eq_dec : EqDecision TOKEN.
Proof. solve_decision. Defined.

Definition bits (t : TOKEN) : Z :=
  match t with
  | T_UNKNOWN => 0x0000 | T_IGNORE => 1 | T_BR => 2 | T_PAR => 4 | T_LEVEL => 8 | T_LI => 16 | T_PLAIN => 18
  | T_BOLD => 256 | T_IT => 512 | T_TT => 1024 | T_ANC => 2048 | T_HEAD => 4096
  end.

(** An anchor; [None] stands for [unset]. *)
Record Anchor := MkAnchor {
  sline : option Z; scol : option Z; eline : option Z; ecol : option Z; target : list Z }.
Definition noAnchor : Anchor := MkAnchor None None None None [].

Definition valid (a : Anchor) : bool :=
  match sline a, scol a, eline a, ecol a with
  | Some sl, Some sc, Some el, Some ec => negb (((el =? sl) && (ec <=? sc)) || (el <? sl))
  | _, _, _, _ => false
  end.

(** A character in a cell of the pad. *)
Record put := Put { prow : Z; pcol : Z; pchar : Z; pstyle : style}.

(** The members that drawing uses, the height of the pad, the cursor and the
    background of the terminal library, and what was written. *)
Record rich := Rich {
  textwidth : Z;
  height : Z;
  cl : Z;
  cc : Z;
  cindent : Z;
  atbol : bool;
  preTag : bool;
  Tattr : Z;
  liststack : list Z;
  canchor : Anchor;
  anchors : list Anchor;
  hy : Z;
  hx : Z;
  bg : style;
  puts : list put }.

Definition withAtbol (r : rich) (b : bool) : rich :=
  Rich (textwidth r) (height r) (cl r) (cc r) (cindent r) b (preTag r) (Tattr r) (liststack r) (canchor r) (anchors r) (hy r) (hx r) (bg r) (puts r).
Definition withCc (r : rich) (c : Z) : rich :=
  Rich (textwidth r) (height r) (cl r) c (cindent r) (atbol r) (preTag r) (Tattr r) (liststack r) (canchor r) (anchors r) (hy r) (hx r) (bg r) (puts r).
Definition withCindent (r : rich) (c : Z) : rich :=
  Rich (textwidth r) (height r) (cl r) (cc r) c (atbol r) (preTag r) (Tattr r) (liststack r) (canchor r) (anchors r) (hy r) (hx r) (bg r) (puts r).
Definition withPre (r : rich) (b : bool) : rich :=
  Rich (textwidth r) (height r) (cl r) (cc r) (cindent r) (atbol r) b (Tattr r) (liststack r) (canchor r) (anchors r) (hy r) (hx r) (bg r) (puts r).
Definition withStack (r : rich) (s : list Z) : rich :=
  Rich (textwidth r) (height r) (cl r) (cc r) (cindent r) (atbol r) (preTag r) (Tattr r) s (canchor r) (anchors r) (hy r) (hx r) (bg r) (puts r).
Definition withAnchors (r : rich) (c : Anchor) (l : list Anchor) : rich :=
  Rich (textwidth r) (height r) (cl r) (cc r) (cindent r) (atbol r) (preTag r) (Tattr r) (liststack r) c l (hy r) (hx r) (bg r) (puts r).
Definition withStyle (r : rich) (t : Z) (s : style) : rich :=
  Rich (textwidth r) (height r) (cl r) (cc r) (cindent r) (atbol r) (preTag r) t (liststack r) (canchor r) (anchors r) (hy r) (hx r) s (puts r).
Definition withSize (r : rich) (w h : Z) : rich :=
  Rich w h (cl r) (cc r) (cindent r) (atbol r) (preTag r) (Tattr r) (liststack r) (canchor r) (anchors r) (hy r) (hx r) (bg r) (puts r).

(** [myPad()->move( cl, cc )], which does nothing below the pad. *)
Definition movePad (r : rich) : rich :=
  if cl r <? height r then
    Rich (textwidth r) (height r) (cl r) (cc r) (cindent r) (atbol r) (preTag r) (Tattr r) (liststack r) (canchor r) (anchors r) (cl r) (cc r) (bg r) (puts r)
  else r.

(** [NCPad::resize()]: the terminal library has no pads of more lines than a
    maximum ([NCursesWindow::maxcoord()]); a higher pad is cut to one page. *)
Definition PAD_PAGESIZE : Z := 1024.
Definition resizedHeight (MAX_PAD_HEIGHT h : Z) : Z := if h >? MAX_PAD_HEIGHT then PAD_PAGESIZE else h.

(** A pad without that limit. *)
Definition unlimited (h : Z) : Z := h.

Section draw.

(** The locale and the tab size, the terminal library, the name of the product
    and the window of the pad. [place] tells in which cell of a pad of a width
    the library shows a character that is written at a place, and where the
    cursor is then; [padHeight] is the height a pad gets when a height is asked
    for, [resizedHeight MAX_PAD_HEIGHT] in the code. *)
Context (iswprint : Z -> bool) (wcwidth : Z -> Z) (towlower : Z -> Z) (tabsize : Z).
Context (place : Z -> Z * Z -> Z -> (Z * Z) * (Z * Z)).
Context (product : list Z) (widen : Z -> Z) (padHeight : Z -> Z) (defWidth defHeight : Z).

(** [myPad()->addwstr( &ch, 1 )]. *)
Definition addChar (r : rich) (ch : Z) : rich :=
  let '(cell, (y, x)) := place (textwidth r) (hy r, hx r) ch in
  Rich (textwidth r) (height r) (cl r) (cc r) (cindent r) (atbol r) (preTag r) (Tattr r) (liststack r) (canchor r) (anchors r)
    y x (bg r) (puts r ++ [Put (fst cell) (snd cell) ch (bg r)]).

(** [AdjustPad( wsze( h, ... ) )]: the pad is at least as high as its window. *)
Definition adjustPad (r : rich) (h : Z) : rich := withSize r (textwidth r) (padHeight (Z.max h defHeight)).

Definition PadNL (r : rich) : rich :=
  let r := Rich (textwidth r) (height r) (cl r + 1) (cindent r) (cindent r) (atbol r) (preTag r) (Tattr r) (liststack r)
             (canchor r) (anchors r) (hy r) (hx r) (bg r) (puts r) in
  let r := if cl r =? height r then adjustPad r (height r + defHeight) else r in
  withAtbol (movePad r) true.

Definition PadBOL (r : rich) : rich := if negb (atbol r) then PadNL r else r.

Definition PadWS (r : rich) : rich :=
  if atbol r then r
  else if cc r =? textwidth r then PadNL r
  else let r := addChar r ch_space in withCc r (cc r + 1).

Definition textWidth (s : list Z) : Z := NCtext.lineColumns iswprint wcwidth tabsize s.

(** The loop of [PadTXT]: the text ends at a zero. *)
Fixpoint padChars (r : rich) (s : list Z) : rich :=
  match s with
  | [] => r
  | ch :: s' =>
      if ch =? 0 then r
      else
        let r := addChar r ch in
        let r := withAtbol (withCc r (u32 (cc r + wcwidth ch))) false in
        let r := if cc r >=? textwidth r then PadNL r else r in
        padChars r s'
  end.

(** The entities are looked up in a table that fills; see [entity_cache]. *)
Definition filtered (s : list Z) : outcome (list Z) :=
  let! r := filterEntities product widen ∅ s in Done (snd r).

Definition PadTXT (r : rich) (s : list Z) : outcome rich :=
  let! txt := filtered s in
  let r := if negb (atbol r) && (cc r + textWidth txt >? textwidth r) then PadNL r else r in
  Done (padChars r txt).

(** The columns are not counted in preformatted text. *)
Fixpoint preChars (r : rich) (s : list Z) : rich :=
  match s with
  | [] => r
  | ch :: s' => if ch =? 0 then r else preChars (addChar r ch) s'
  end.
Definition PadPreTXT (r : rich) (s : list Z) : outcome rich :=
  let! txt := filtered s in Done (preChars r txt).

(** *** Scanning *)

(** The text from the pointer on, after [do ++wch; while ( ... )]; and what was
    passed. *)
Fixpoint span (P : Z -> bool) (s : list Z) : list Z * list Z :=
  match s with
  | [] => ([], [])
  | c :: s' => if P c then let '(a, b) := span P s' in (c :: a, b) else ([], s)
  end.
Definition skip (P : Z -> bool) (s : list Z) : list Z * list Z :=
  match s with
  | [] => ([], [])
  | c :: s' => let '(a, b) := span P s' in (c :: a, b)
  end.

Definition oneOf (l : list Z) (c : Z) : bool := bool_decide (c ∈ l).
Definition WStoken : list Z := [32; 10; 9; 11; 13; 12].
Definition WDtoken : list Z := 32 :: ch_lt :: [10; 9; 11; 13; 12].
Definition PREtoken : list Z := ch_lt :: [10; 11; 13; 12].

Definition SkipToken (s : list Z) : list Z * list Z :=
  let '(a, b) := skip (fun c => negb (c =? ch_gt)) s in
  match b with c :: b' => (a ++ [c], b') | [] => (a, []) end.
Definition SkipWS (s : list Z) := skip (oneOf WStoken) s.
Definition SkipWord (s : list Z) := skip (fun c => negb (oneOf WDtoken c)) s.
Definition SkipPreTXT (s : list Z) := skip (fun c => negb (oneOf PREtoken c)) s.

(** *** Attributes, levels and anchors *)

Definition Tfontmask : Z := 65280.

Definition styleOf (t : Z) : style :=
  if negb (Z.land t (bits T_ANC) =? 0) then SLink
  else if negb (Z.land t (bits T_HEAD) =? 0) then STitle
  else
    let m := Z.land t Tfontmask in
    if m =? bits T_BOLD then SB
    else if m =? bits T_IT then SI
    else if m =? bits T_TT then ST
    else if m =? Z.lor (bits T_BOLD) (bits T_IT) then SBI
    else if m =? Z.lor (bits T_BOLD) (bits T_TT) then SBT
    else if m =? Z.lor (bits T_IT) (bits T_TT) then SIT
    else if m =? Z.lor (Z.lor (bits T_BOLD) (bits T_IT)) (bits T_TT) then SBIT
    else SPlain.

(** [Tattr |= token] or [Tattr &= ~token], and [PadSetAttr()]. *)
Definition setAttr (r : rich) (t : TOKEN) (endtag : bool) : rich :=
  let a := if endtag then Z.ldiff (Tattr r) (bits t) else Z.lor (Tattr r) (bits t) in
  withStyle r a (styleOf a).

Definition listindent : Z := 4.
Definition listleveltags : list Z := L "@*+o#-%$&".

Definition PadSetLevel (r : rich) : rich :=
  let ci := listindent * Z.of_nat (length (liststack r)) in
  let ci := if ci >? textwidth r / 2 then textwidth r / 2 else ci in
  let r := withCindent r ci in
  if atbol r then movePad (withCc r ci) else r.

Definition PadChangeLevel (r : rich) (down : bool) (tag : Z) : rich :=
  PadSetLevel (withStack r (if down then tail (liststack r) else tag :: liststack r)).

Definition lookupstr : list Z := L "href = ".

(** The search for the value of [href]: the rest of the arguments and of the
    text that is looked up. *)
Fixpoint hrefLoop (ch lookup : list Z) : list Z * list Z :=
  match ch, lookup with
  | c0 :: ch', l0 :: lookup' =>
      let c := towlower c0 in
      if (c =? 9) || (c =? 32) then hrefLoop ch' (if negb (l0 =? 32) then lookupstr else lookup)
      else
        let lookup := if l0 =? 32 then lookup' else lookup in
        match lookup with
        | [] => (ch, [])
        | l1 :: lookup'' => hrefLoop ch' (if c =? l1 then lookup'' else lookupstr)
        end
  | _, _ => (ch, lookup)
  end.

(** [args.erase( args.find_first_of( delim ) )]. *)
Definition cutAt (delim : list Z) (s : list Z) : list Z := fst (span (fun c => negb (oneOf delim c)) s).

Definition openAnchor (r : rich) (args : list Z) : rich :=
  let '(ch, lookup) := hrefLoop args lookupstr in
  let t :=
    match lookup with
    | [] => match ch with
            | c :: ch' => if c =? ch_quote then cutAt [ch_quote] ch' else cutAt [32; 9] ch
            | [] => []
            end
    | _ => []
    end in
  withAnchors r (MkAnchor (Some (cl r)) (Some (cc r)) None None t) (anchors r).

Definition closeAnchor (r : rich) : rich :=
  let a := MkAnchor (sline (canchor r)) (scol (canchor r)) (Some (cl r)) (Some (cc r)) (target (canchor r)) in
  withAnchors r noAnchor (if valid a then anchors r ++ [a] else anchors r).

(** *** Preformatted text *)

(** The pointer of [AdjustPrePad] moves on until it is at the end tag or at the
    end of the text; each time six characters are read, which is undefined if
    the text, with its terminating zero, has less. *)
Definition sixAt (s : list Z) : outcome (list Z) :=
  if bool_decide (length s + 1 < 6)%nat then Undefined else Done (take 6 s).
Fixpoint preEnd (s : list Z) : outcome (list Z) :=
  match s with
  | [] => Undefined
  | c :: s' =>
      let! six := sixAt s' in
      match s' with
      | [] => Done [c]
      | _ => if bool_decide (six = L "</pre>") then Done [c] else let! r := preEnd s' in Done (c :: r)
      end
  end.

(** [boost::replace_all( wtxt, from, to )]. *)
Fixpoint replaceAll (fuel : nat) (from to s : list Z) : list Z :=
  match fuel, s with
  | O, _ => s
  | S fuel', c :: s' =>
      if bool_decide (take (length from) s = from) then to ++ replaceAll fuel' from to (drop (length from) s)
      else c :: replaceAll fuel' from to s'
  | S _, [] => []
  end.

Definition AdjustPrePad (r : rich) (osch : list Z) : outcome rich :=
  let! _ := sixAt osch in
  let! wtxt := preEnd osch in
  let! wtxt := filtered wtxt in
  let wtxt := replaceAll (length wtxt) (L "<br>") [NCtext.newline] wtxt in
  let wtxt := replaceAll (length wtxt) (L "<br/>") [NCtext.newline] wtxt in
  let! ftext := NCtext.lset wtxt in
  let llen := NCtext.Columns iswprint wcwidth tabsize ftext in
  Done (if llen >? textwidth r
        then withSize r (u32 llen) (padHeight (Z.max (cl r + Z.of_nat (NCtext.Lines ftext)) defHeight)) else r).

(** *** Tags *)

Definition asciiLower (c : Z) : Z := if (65 <=? c) && (c <=? 90) then c + 32 else c.

Definition tokenTable : list (list Z * (TOKEN * Z)) :=
  [(L "b", (T_BOLD, 0)); (L "i", (T_IT, 0)); (L "p", (T_PAR, 0)); (L "a", (T_ANC, 0)); (L "u", (T_BOLD, 0));
   (L "br", (T_BR, 0)); (L "em", (T_IT, 0)); (L "h1", (T_HEAD, 1)); (L "h2", (T_HEAD, 2)); (L "h3", (T_HEAD, 3));
   (L "hr", (T_IGNORE, 0)); (L "li", (T_LI, 0)); (L "ol", (T_LEVEL, 1)); (L "qt", (T_IGNORE, 0)); (L "tt", (T_TT, 0));
   (L "ul", (T_LEVEL, 0));
   (L "big", (T_IGNORE, 0)); (L "pre", (T_PLAIN, 0)); (L "br/", (T_BR, 0)); (L "hr/", (T_IGNORE, 0));
   (L "bold", (T_BOLD, 0)); (L "code", (T_TT, 0)); (L "font", (T_IGNORE, 0));
   (L "large", (T_IGNORE, 0)); (L "small", (T_IGNORE, 0));
   (L "center", (T_PAR, 0)); (L "strong", (T_BOLD, 0)); (L "blockquote", (T_PAR, 0))].

(** The token of a tag, with the level tag or the heading level. *)
Definition lookupToken (value : list Z) : TOKEN * Z :=
  default (T_UNKNOWN, 0) (firstSome (fun e => if bool_decide (fst e = value) then Some (snd e) else None) tokenTable).

(** [swprintf( buf, 15, L"%2ld. ", n )]. *)
Definition itemNumber (n : Z) : list Z :=
  let digits := L (pretty n) in
  replicate (2 - length digits) ch_space ++ digits ++ L ". ".

(** The tag of a list item, and the list with the next number. *)
Definition itemTag (stack : list Z) : list Z * list Z :=
  match stack with
  | [] => (replicate (Z.to_nat listindent) ch_space, [])
  | n :: rest =>
      if negb (n =? 0) then (itemNumber n, n + 1 :: rest)
      else (ch_space :: default 0 (listleveltags !! (length stack mod length listleveltags)%nat) :: L "  ", stack)
  end.

Definition doToken (r : rich) (token : TOKEN) (n : Z) (endtag : bool) (args rest : list Z) : outcome rich :=
  match token with
  | T_LEVEL =>
      let r := PadBOL (PadChangeLevel r endtag n) in
      Done (if endtag && (cindent r =? 0) then PadNL r else r)
  | T_BR => Done (PadNL r)
  | T_HEAD =>
      let r := PadBOL (setAttr r T_HEAD endtag) in
      Done (if negb (n =? 0) && endtag then PadNL r else r)
  | T_PAR =>
      let r := PadBOL r in
      Done (if (cindent r =? 0) && endtag then PadNL r else r)
  | T_LI =>
      let r := PadBOL (PadSetLevel r) in
      if endtag then Done r
      else
        let '(tag, stack) := itemTag (liststack r) in
        let r := withStack r stack in
        let r := withCc r (if Z.of_nat (length tag) <? cc r then cc r - Z.of_nat (length tag) else 0) in
        let! r := PadTXT (movePad r) tag in
        Done (withAtbol r true)
  | T_PLAIN =>
      if endtag then Done (PadNL (withPre r false)) else AdjustPrePad (withPre r true) rest
  | T_ANC => Done (setAttr (if endtag then closeAnchor r else openAnchor r args) T_ANC endtag)
  | T_BOLD | T_IT | T_TT => Done (setAttr r token endtag)
  | T_IGNORE | T_UNKNOWN => Done r
  end.

(** [PadTOKEN]: [tag] is the text that [SkipToken] passed, [rest] the text behind
    it. [None] if it is not a tag. *)
Definition PadTOKEN (r : rich) (tag rest : list Z) : outcome (option rich) :=
  match tag with
  | lt :: sch =>
      if negb (lt =? ch_lt) || negb (bool_decide (list.last tag = Some ch_gt)) then Done None
      else
        let endtag := match sch with c :: _ => c =? ch_slash | [] => false end in
        let sch := if endtag then drop 1 sch else sch in
        if bool_decide (length sch <= 1)%nat then Done None
        else
          let value := removelast sch in
          let '(value, args) := span (fun c => negb (oneOf [32; 9; 10] c)) value in
          let '(token, n) := lookupToken (map asciiLower value) in
          let! r := doToken r token n endtag args rest in
          Done (Some r)
  | [] => Done None
  end.

(** *** The whole text *)

(** The default branch: a word, or preformatted text. *)
Definition drawWord (r : rich) (wch : list Z) : outcome (rich * list Z) :=
  if negb (preTag r) then
    let '(word, rest) := SkipWord wch in
    let! r := PadTXT r word in Done (r, rest)
  else
    let '(word, rest) := SkipPreTXT wch in
    let! r := PadPreTXT r word in Done (r, rest).

(** One turn of the loop. *)
Definition drawNext (r : rich) (wch : list Z) : outcome (rich * list Z) :=
  match wch with
  | [] => Done (r, [])
  | c :: wch' =>
      if oneOf WStoken c then
        if negb (preTag r) then Done (PadWS r, snd (SkipWS wch))
        else
          let r := if (c =? 32) || (c =? 9) then addChar r c
                   else if (c =? 10) || (c =? 12) then PadNL r
                   else r in
          Done (r, wch')
      else if c =? ch_lt then
        let '(tag, rest) := SkipToken wch in
        let! o := PadTOKEN r tag rest in
        match o with
        | Some r => Done (r, rest)
        | None => drawWord r wch
        end
      else drawWord r wch
  end.

Fixpoint drawLoop (fuel : nat) (r : rich) (wch : list Z) : outcome rich :=
  match wch with
  | [] => Done r
  | _ =>
      match fuel with
      | O => NoFuel
      | S fuel' => let! p := drawNext r wch in drawLoop fuel' (fst p) (snd p)
      end
  end.

(** [DrawHTMLPad()] after [DrawPad()] cleared the pad; the attributes and the
    mode are those the drawing before left. *)
Definition DrawHTMLPad (old : rich) (text : list Z) : outcome rich :=
  let r := Rich (textwidth old) (height old) 0 0 0 true (preTag old) (Tattr old) [] noAnchor [] 0 0 SPlain [] in
  let! r := drawLoop (length text) r text in
  let r := PadBOL r in
  Done (adjustPad r (cl r)).

(** [CreatePad()] for a new text. *)
Definition newRich : rich :=
  Rich defWidth defHeight 0 0 0 true false 0 [] noAnchor [] 0 0 SPlain [].

End draw.
(** ** Entities *)

Lemma splitAt_some x s a y b : splitAt (Z.eqb x) s = Some (a, y, b) -> s = a ++ x :: b /\ x ∉ a.
Proof.
  revert a y b. induction s as [|c s IH]; intros a y b; simpl; [done|]. destruct (Z.eqb_spec x c) as [<-|Hc].
  - intros [= <- <- <-]. split; [done|set_solver].
  - destruct (splitAt (Z.eqb x) s) as [[[a' y'] b']|]; [|done]. intros [= <- <- <-].
    destruct (IH _ _ _ eq_refl) as [-> H]. split; [done|set_solver].
Qed.

Lemma count_app x a b : count x (a ++ b) = (count x a + count x b)%nat.
Proof. unfold count. by rewrite list.filter_app, length_app. Qed.
Lemma count_cons x c s : count x (c :: s) = ((if bool_decide (c = x) then 1 else 0) + count x s)%nat.
Proof. unfold count. rewrite filter_cons. case_decide; case_bool_decide; done. Qed.
Lemma count_none x s : x ∉ s -> count x s = O.
Proof.
  induction s as [|c s IH]; intros H; [done|]. rewrite count_cons, IH by set_solver.
  rewrite bool_decide_false; [done|set_solver].
Qed.
Lemma count_tail x s : (count x (tail s) <= count x s)%nat.
Proof. destruct s; simpl; [done|]. rewrite count_cons. lia. Qed.

Section entity_facts.
Context (product : list Z) (widen : Z -> Z).

Abbreviation entity := (entity product widen).
Abbreviation initialEntities := (initialEntities product).

(** What [_charentity] may hold. *)
Definition coherent (t : gmap (list Z) (list Z)) : Prop :=
  t = ∅ \/ (initialEntities ⊆ t /\ forall v r, t !! v = Some r -> r = entity v).

Lemma initial_coherent : coherent initialEntities.
Proof. right. split; [done|]. intros v r H. unfold NCRichText.entity. by rewrite H. Qed.

Lemma entityLookup_coherent t v : coherent t ->
  coherent (entityLookup product widen t v).1 /\ (entityLookup product widen t v).2 = entity v.
Proof.
  intros Ht. unfold entityLookup. set (t' := if bool_decide (t = ∅) then _ else t).
  assert (initialEntities ⊆ t' /\ forall v r, t' !! v = Some r -> r = entity v) as [Hi He].
  { subst t'. case_bool_decide; [|by destruct Ht]. destruct initial_coherent as [E|H']; [|exact H'].
    exfalso. apply (f_equal (lookup (L "amp"))) in E. vm_compute in E. done. }
  clearbody t'. destruct (t' !! v) as [r|] eqn:E; simpl; [split; [by right|by apply He]|].
  assert (initialEntities !! v = None) as Hn.
  { destruct (initialEntities !! v) eqn:E'; [|done]. rewrite (lookup_weaken _ _ _ _ E' Hi) in E. done. }
  assert (entity v = numericEntity widen v) as -> by (unfold NCRichText.entity; by rewrite Hn).
  destruct (numericEntity widen v) as [|x l] eqn:En; simpl; [split; [by right|done]|].
  split; [|done]. right. split.
  - etransitivity; [exact Hi|]. by apply insert_subseteq.
  - intros w r. rewrite lookup_insert_Some. intros [[<- <-]|[_ H]]; [|by apply He].
    unfold NCRichText.entity. by rewrite Hn, En.
Qed.

(** The replacement of the entities by their meaning. *)
Fixpoint expand (fuel : nat) (txt : list Z) : outcome (list Z) :=
  match fuel with
  | O => NoFuel
  | S fuel' =>
      match splitAt (Z.eqb ch_amp) txt with
      | None => Done txt
      | Some (before, _, rest) =>
          match splitAt (Z.eqb ch_semicolon) rest with
          | None => Done txt
          | Some (name, _, after) =>
              match (if negb (bool_decide (entity name = [])) || bool_decide (name = L "product")
                     then entity name ++ after else ch_amp :: rest) with
              | [] => Done before
              | c :: txt'' => let! s := expand fuel' txt'' in Done (before ++ c :: s)
              end
          end
      end
  end.

Lemma filterLoop_expand fuel : forall t txt, coherent t ->
  match expand fuel txt with
  | Done s => exists t', coherent t' /\ filterLoop product widen fuel t txt = Done (t', s)
  | _ => filterLoop product widen fuel t txt = NoFuel
  end.
Proof.
  induction fuel as [|fuel IH]; intros t txt Ht; [done|]. cbn [expand filterLoop].
  destruct (splitAt _ txt) as [[[before y] rest]|]; [|by exists t].
  destruct (splitAt _ rest) as [[[name y'] after]|]; [|by exists t].
  destruct (entityLookup_coherent t name Ht) as [Ht' He].
  destruct (entityLookup product widen t name) as [t' r]. simpl in Ht', He. subst r.
  destruct (if _ : bool then _ else _) as [|c txt'']; [by exists t'|].
  pose proof (IH t' txt'' Ht') as H. destruct (expand fuel txt'') as [s| | |]; simpl; try by rewrite H.
  destruct H as (t'' & Ht'' & ->). by exists t''.
Qed.

Definition searches (txt : list Z) : nat := (count ch_amp txt + count ch_semicolon txt * count ch_amp product)%nat.

Lemma entity_small v : entity v = product \/ (length (entity v) <= 1)%nat.
Proof.
  unfold NCRichText.entity, NCRichText.initialEntities, numericEntity. rewrite !lookup_insert, lookup_empty.
  repeat case_decide; auto with lia. right. destruct (splitAt _ v) as [[[a y] b]|]; [|simpl; lia].
  destruct (wcstol _); simpl; lia.
Qed.

Lemma entity_tail v : ch_semicolon ∉ product ->
  count ch_semicolon (tail (entity v)) = O /\ (count ch_amp (tail (entity v)) <= count ch_amp product)%nat.
Proof.
  intros Hp. destruct (entity_small v) as [->|H].
  - split; [|apply count_tail]. pose proof (count_tail ch_semicolon product). rewrite (count_none _ _ Hp) in H. lia.
  - destruct (entity v) as [|x [|]]; simpl in *; unfold count; simpl; lia.
Qed.

Lemma expand_total fuel : ch_semicolon ∉ product -> forall txt, (searches txt < fuel)%nat -> exists s, expand fuel txt = Done s.
Proof.
  intros Hp. induction fuel as [|fuel IH]; intros txt Hf; [lia|]. cbn [expand].
  destruct (splitAt _ txt) as [[[before y] rest]|] eqn:E1; [|by eexists].
  destruct (splitAt _ rest) as [[[name y'] after]|] eqn:E2; [|by eexists].
  apply splitAt_some in E1 as [-> _]. apply splitAt_some in E2 as [-> _].
  destruct (entity_tail name Hp) as [T1 T2]. unfold searches in Hf. repeat rewrite ?count_app, ?count_cons in Hf. simpl in Hf.
  assert (forall c txt'', (if negb (bool_decide (entity name = [])) || bool_decide (name = L "product")
                           then entity name ++ after else ch_amp :: (name ++ ch_semicolon :: after)) = c :: txt'' ->
    (searches txt'' < fuel)%nat) as Hs.
  { intros c txt''. unfold searches. destruct (_ || _).
    - intros E. pose proof (f_equal tail E) as E'. simpl in E'. subst txt''. destruct (entity name) as [|x e]; simpl in *.
      + pose proof (count_tail ch_amp after). pose proof (count_tail ch_semicolon after). nia.
      + rewrite !count_app. nia.
    - intros [= _ <-]. repeat rewrite ?count_app, ?count_cons. simpl. nia. }
  destruct (if _ : bool then _ else _) as [|c txt'']; [by eexists|]. destruct (IH txt'' (Hs _ _ eq_refl)) as [s ->]. by eexists.
Qed.

Lemma filterEntities_expand t text : coherent t -> ch_semicolon ∉ product ->
  exists t' s, coherent t' /\ filterEntities product widen t text = Done (t', s) /\ expand (S (searches text)) text = Done s.
Proof.
  intros Ht Hp. destruct (expand_total (S (searches text)) Hp text) as [s Es]; [lia|].
  pose proof (filterLoop_expand (S (searches text)) t text Ht) as H. rewrite Es in H. destruct H as (t' & Ht' & E).
  by exists t', s.
Qed.

(** Without a semicolon there is no entity. *)
Lemma splitAt_none x s : x ∉ s -> splitAt (Z.eqb x) s = None.
Proof.
  induction s as [|c s IH]; intros H; [done|]. simpl. destruct (Z.eqb_spec x c); [set_solver|]. rewrite IH; [done|set_solver].
Qed.




(** The table after lookups. *)
Definition lookedUp (vs : list (list Z)) : gmap (list Z) (list Z) :=
  fold_left (fun t v => (entityLookup product widen t v).1) vs ∅.

Lemma lookedUp_coherent vs : coherent (lookedUp vs).
Proof.
  unfold lookedUp. assert (coherent ∅) as H by by left. revert H. generalize (∅ : gmap (list Z) (list Z)).
  induction vs as [|v vs IH]; intros t Ht; [done|]. simpl. apply IH. by apply entityLookup_coherent.
Qed.

(** Filtering ends, and what was looked up before does not matter. *)
Theorem entity_cache vs text : ch_semicolon ∉ product ->
  exists t t' s, filterEntities product widen ∅ text = Done (t, s) /\ filterEntities product widen (lookedUp vs) text = Done (t', s).
Proof.
  intros Hp. destruct (filterEntities_expand ∅ text (or_introl eq_refl) Hp) as (t & s & _ & E1 & E2).
  destruct (filterEntities_expand (lookedUp vs) text (lookedUp_coherent vs) Hp) as (t' & s' & _ & E1' & E2').
  exists t, t', s. split; [done|]. congruence.
Qed.

(** The text that is written for a character. *)
Definition escapeChar (c : Z) : list Z :=
  if c =? ch_amp then L "&amp;" else if c =? ch_lt then L "&lt;" else if c =? ch_gt then L "&gt;" else [c].
Definition escape (s : list Z) : list Z := flat_map escapeChar s.

Lemma expand_char fuel c t : c <> ch_amp -> expand (S fuel) (c :: t) = let! s := expand (S fuel) t in Done (c :: s).
Proof.
  intros Hc. cbn [expand splitAt]. destruct (Z.eqb_spec ch_amp c); [done|].
  destruct (splitAt _ t) as [[[before y] rest]|]; [|done]. destruct (splitAt _ rest) as [[[name y'] after]|]; [|done].
  destruct (if _ : bool then _ else _) as [|x txt'']; [done|]. by destruct (expand fuel txt'').
Qed.

Lemma expand_entity fuel name c t : splitAt (Z.eqb ch_semicolon) (name ++ ch_semicolon :: t) = Some (name, ch_semicolon, t) ->
  entity name = [c] -> expand (S fuel) (ch_amp :: name ++ ch_semicolon :: t) = let! s := expand fuel t in Done (c :: s).
Proof.
  intros H He. assert (splitAt (Z.eqb ch_amp) (ch_amp :: name ++ ch_semicolon :: t) = Some ([], ch_amp, name ++ ch_semicolon :: t)) as E by done.
  cbn [expand]. by rewrite E, H, He.
Qed.

Lemma expand_escape s : forall fuel, (count ch_amp (escape s) < fuel)%nat -> expand fuel (escape s) = Done s.
Proof.
  induction s as [|c s IH]; intros [|fuel] Hf; try (exfalso; lia); [done|].
  change (escape (c :: s)) with (escapeChar c ++ escape s) in *. rewrite count_app in Hf. revert Hf. unfold escapeChar.
  assert (forall n, entity n = [c] -> (count ch_amp (escape s) < fuel)%nat -> 
    splitAt (Z.eqb ch_semicolon) (n ++ ch_semicolon :: escape s) = Some (n, ch_semicolon, escape s) ->
    expand (S fuel) (ch_amp :: n ++ ch_semicolon :: escape s) = Done (c :: s)) as Hent.
  { intros n He Hf Hsp. rewrite (expand_entity fuel n c) by done. by rewrite IH. }
  destruct (Z.eqb_spec c ch_amp) as [->|H1]; [|destruct (Z.eqb_spec c ch_lt) as [->|H2]; [|destruct (Z.eqb_spec c ch_gt) as [->|H3]]].
  1-3: intros Hf; change (count ch_amp (L _)) with 1%nat in Hf.
  - by apply (Hent (L "amp")); [vm_compute|lia|].
  - by apply (Hent (L "lt")); [vm_compute|lia|].
  - by apply (Hent (L "gt")); [vm_compute|lia|].
  - intros Hf. simpl app. rewrite expand_char by done. rewrite IH; [done|]. lia.
Qed.

(** A text whose ampersands and angle brackets are written as entities is
    shown as it was meant. *)
Theorem entities_roundtrip s : ch_semicolon ∉ product -> exists t, filterEntities product widen ∅ (escape s) = Done (t, s).
Proof.
  intros Hp. destruct (filterEntities_expand ∅ (escape s) (or_introl eq_refl) Hp) as (t & s' & _ & E1 & E2).
  rewrite expand_escape in E2 by (unfold searches; lia). exists t. congruence.
Qed.

End entity_facts.

(** ** Drawing *)

(** What the functions of the C library promise of the characters of a locale:
    a character takes no more than two columns, only a printable one takes
    any, and those of ASCII take one. *)
Record locale (iswprint : Z -> bool) (wcwidth : Z -> Z) : Prop := Locale {
  loc_width : forall c, wcwidth c <= 2;
  loc_print : forall c, iswprint c = true -> 0 <= wcwidth c;
  loc_columns : forall c, 0 < wcwidth c -> iswprint c = true;
  loc_ascii : forall c, 32 <= c <= 126 -> wcwidth c = 1 }.

(** What the terminal library promises of a character that has a width: it is
    shown where it is written if it fits into the line, and otherwise at the
    start of the next line. *)
Record terminal (wcwidth : Z -> Z) (place : Z -> Z * Z -> Z -> (Z * Z) * (Z * Z)) : Prop := Terminal {
  term_inside : forall w y x c, 0 <= wcwidth c -> x + wcwidth c < w -> place w (y, x) c = ((y, x), (y, x + wcwidth c));
  term_last : forall w y x c, 0 < wcwidth c -> x + wcwidth c = w -> fst (place w (y, x) c) = (y, x);
  term_wraps : forall w y x c, 0 <= wcwidth c -> x < w < x + wcwidth c -> fst (place w (y, x) c) = (y + 1, 0) }.

(** Anchors one behind the other between two lines. *)
Fixpoint ordered (lo : Z) (l : list Anchor) (hi : Z) : Prop :=
  match l with
  | [] => lo <= hi
  | a :: l' => valid a = true /\ exists sl el, sline a = Some sl /\ eline a = Some el /\ lo <= sl <= el /\ ordered el l' hi
  end.

Lemma ordered_weaken l : forall lo hi hi', ordered lo l hi -> hi <= hi' -> ordered lo l hi'.
Proof.
  induction l as [|a l IH]; intros lo hi hi' H Hle; simpl in *; [lia|].
  destruct H as (Hv & sl & el & H1 & H2 & H3 & H4). split; [done|]. exists sl, el. eauto.
Qed.


Lemma movePad_in r : cl r < height r -> movePad r =
  Rich (textwidth r) (height r) (cl r) (cc r) (cindent r) (atbol r) (preTag r) (Tattr r) (liststack r) (canchor r) (anchors r) (cl r) (cc r) (bg r) (puts r).
Proof. intros H. unfold movePad. by rewrite (proj2 (Z.ltb_lt _ _)). Qed.

Lemma movePad_keeps r : cl (movePad r) = cl r /\ puts (movePad r) = puts r /\ cc (movePad r) = cc r /\ bg (movePad r) = bg r /\
  textwidth (movePad r) = textwidth r /\ height (movePad r) = height r /\ preTag (movePad r) = preTag r.
Proof. unfold movePad. by destruct (_ <? _). Qed.

Section drawing.
Context (iswprint : Z -> bool) (wcwidth : Z -> Z) (towlower : Z -> Z) (tabsize : Z).
Context (place : Z -> Z * Z -> Z -> (Z * Z) * (Z * Z)).
Context (product : list Z) (widen : Z -> Z) (defHeight W : Z).
Context (Hloc : locale iswprint wcwidth) (Hterm : terminal wcwidth place) (Htab : 0 <= tabsize) (HdefH : 1 <= defHeight) (HW : 1 <= W < 2 ^ 31).
Context (Hproduct : ch_semicolon ∉ product).

Abbreviation PadNL := (PadNL unlimited defHeight).
Abbreviation PadBOL := (PadBOL unlimited defHeight).
Abbreviation addChar := (addChar place).
Abbreviation PadWS := (PadWS place unlimited defHeight).
Abbreviation padChars := (padChars wcwidth place unlimited defHeight).
Abbreviation PadTXT := (PadTXT iswprint wcwidth tabsize place product widen unlimited defHeight).
Abbreviation textWidth := (textWidth iswprint wcwidth tabsize).

(** A character that takes columns is on the lines of the pad and between its
    margins. *)
Definition inside (lines : Z) (p : put) : Prop :=
  0 < wcwidth (pchar p) -> 0 <= prow p <= lines /\ 0 <= pcol p < W.

(** What holds whatever the column is; [lines] is the last line drawn to. *)
Record base (lines : Z) (r : rich) : Prop := Base {
  b_width : textwidth r = W;
  b_indent : 0 <= cindent r <= W / 2;
  b_row : 0 <= cl r < height r;
  b_pre : preTag r = false;
  b_puts : Forall (inside lines) (puts r);
  b_anchors : match sline (canchor r) with
              | Some sl => ordered 0 (anchors r) sl /\ sl <= cl r
              | None => ordered 0 (anchors r) (cl r)
              end }.

(** Between two steps. The cursor of the library is where the next character is
    meant to be, unless the line is full. *)
Record inv (r : rich) : Prop := Inv {
  i_base : base (cl r) r;
  i_cc : 0 <= cc r <= W;
  i_bol : atbol r = true -> cc r < W;
  i_cursor : cc r < W -> (hy r, hx r) = (cl r, cc r) }.

Lemma half_W : 0 <= W / 2 < W.
Proof. split; [apply Z.div_pos; lia|apply Z.div_lt; lia]. Qed.

Lemma inside_mono l l' ps : l <= l' -> Forall (inside l) ps -> Forall (inside l') ps.
Proof. intros Hle H. eapply Forall_impl; [exact H|]. unfold inside. intros p. simpl. lia. Qed.

Lemma base_mono l l' r : l <= l' -> base l r -> base l' r.
Proof. intros Hle []. constructor; auto. by eapply inside_mono. Qed.

Lemma PadNL_inv r : base (cl r + 1) r -> inv (PadNL r) /\ atbol (PadNL r) = true.
Proof.
  intros [Hw Hi Hr Hp Hu Ha]. pose proof half_W. unfold NCRichText.PadNL.
  destruct r as [w h l c ci b p t ls ca an y x g ps]. simpl in *. subst w.
  destruct (Z.eqb_spec (l + 1) h) as [E|E]; rewrite movePad_in by (simpl; unfold unlimited; lia); unfold adjustPad, unlimited; simpl;
    (split; [|done]); constructor; simpl; try done; try lia; constructor; simpl; auto; try lia.
  all: destruct (sline ca); [destruct Ha; split; [done|lia]|eapply ordered_weaken; [exact Ha|lia]].
Qed.

Lemma PadNL_from_inv r : inv r -> inv (PadNL r) /\ atbol (PadNL r) = true.
Proof. intros H. apply PadNL_inv. eapply base_mono; [|apply H]. lia. Qed.

Lemma PadBOL_inv r : inv r -> inv (PadBOL r) /\ atbol (PadBOL r) = true.
Proof. intros H. unfold NCRichText.PadBOL. destruct (atbol r) eqn:E; simpl; [done|]. by apply PadNL_from_inv. Qed.

(** The cells in which a character is shown. *)
Lemma addChar_spec r c : exists y x y' x', place (textwidth r) (hy r, hx r) c = ((y, x), (y', x')) /\
  addChar r c = Rich (textwidth r) (height r) (cl r) (cc r) (cindent r) (atbol r) (preTag r) (Tattr r) (liststack r)
    (canchor r) (anchors r) y' x' (bg r) (puts r ++ [Put y x c (bg r)]).
Proof.
  unfold NCRichText.addChar. destruct (place _ _ _) as [[y x] [y' x']]. by exists y, x, y', x'.
Qed.

Lemma addChar_cell r c : inv r -> cc r < W -> 0 < wcwidth c -> cc r + wcwidth c <= W ->
  puts (addChar r c) = puts r ++ [Put (cl r) (cc r) c (bg r)] /\
  (cc r + wcwidth c < W -> (hy (addChar r c), hx (addChar r c)) = (cl r, cc r + wcwidth c)).
Proof.
  intros Hr Hlt Hc Hle. destruct (addChar_spec r c) as (y & x & y' & x' & E & ->). simpl.
  rewrite (i_cursor _ Hr Hlt), (b_width _ _ (i_base _ Hr)) in E.
  destruct (Z.eq_dec (cc r + wcwidth c) W) as [Ew|Ew].
  - pose proof (term_last _ _ Hterm W (cl r) (cc r) c Hc Ew) as E'. rewrite E in E'. injection E' as -> ->. split; [done|lia].
  - rewrite (term_inside _ _ Hterm) in E by lia. injection E as <- <- <- <-. done.
Qed.

Lemma addChar_base r c : inv r -> 0 <= wcwidth c -> (0 < wcwidth c -> cc r < W) ->
  base (if cc r + wcwidth c <=? W then cl r else cl r + 1) (addChar r c).
Proof.
  intros Hr Hc Hf. pose proof (i_base _ Hr) as Hb. pose proof (b_row _ _ Hb). pose proof (i_cc _ Hr).
  assert (0 < wcwidth c -> exists y x, puts (addChar r c) = puts r ++ [Put y x c (bg r)] /\
    0 <= y <= (if cc r + wcwidth c <=? W then cl r else cl r + 1) /\ 0 <= x < W) as Hcell.
  { intros Hpos. destruct (Z.leb_spec (cc r + wcwidth c) W) as [Hle|Hgt].
    - exists (cl r), (cc r). split; [apply addChar_cell; auto|]. specialize (Hf Hpos). lia.
    - exists (cl r + 1), 0. split; [|lia]. destruct (addChar_spec r c) as (y & x & y' & x' & E & ->). simpl.
      rewrite (i_cursor _ Hr (Hf Hpos)), (b_width _ _ Hb) in E.
      pose proof (term_wraps _ _ Hterm W (cl r) (cc r) c Hc ltac:(specialize (Hf Hpos); lia)) as E'. rewrite E in E'. by injection E' as -> ->. }
  apply (base_mono (cl r) (if cc r + wcwidth c <=? W then cl r else cl r + 1)) in Hb; [|destruct (_ <=? _); lia].
  destruct Hb as [Hw Hi Hrow Hp Hu Ha]. destruct (addChar_spec r c) as (y & x & y' & x' & E & E'). rewrite E' in Hcell |- *.
  constructor; simpl; auto. apply Forall_app. split; [done|]. apply list.Forall_cons. split; [|constructor].
  intros Hpos. destruct (Hcell Hpos) as (y1 & x1 & E1 & H1 & H2). simpl in E1. apply app_inv_head in E1. by injection E1 as -> ->.
Qed.

Lemma addChar_cc r c : cc (addChar r c) = cc r /\ cl (addChar r c) = cl r /\ textwidth (addChar r c) = textwidth r /\ bg (addChar r c) = bg r.
Proof. by destruct (addChar_spec r c) as (y & x & y' & x' & _ & ->). Qed.

Lemma width_space : wcwidth ch_space = 1.
Proof. by apply (loc_ascii _ _ Hloc). Qed.

Lemma write_space r : inv r -> cc r < W ->
  inv (withCc (addChar r ch_space) (cc r + 1)) \/ atbol r = true.
Proof.
  intros Hr Hlt. pose proof width_space as Hsp. pose proof (i_cc _ Hr). destruct (atbol r) eqn:E; [by right|left].
  pose proof (addChar_base r ch_space Hr ltac:(lia) ltac:(lia)) as Hb.
  destruct (addChar_cell r ch_space Hr Hlt ltac:(lia) ltac:(lia)) as [_ Hcur]. rewrite Hsp in *.
  destruct (Z.leb_spec (cc r + 1) W); [|lia]. destruct (addChar_spec r ch_space) as (y & x & y' & x' & _ & E').
  rewrite E' in Hb, Hcur |- *. destruct Hb. constructor; [constructor|..]; simpl in *; auto; try lia. congruence.
Qed.

Lemma PadWS_inv r : inv r -> inv (PadWS r).
Proof.
  intros Hr. unfold NCRichText.PadWS. destruct (atbol r) eqn:E; [done|]. rewrite (b_width _ _ (i_base _ Hr)).
  destruct (Z.eqb_spec (cc r) W); [by apply PadNL_from_inv|]. rewrite (proj1 (addChar_cc r ch_space)).
  pose proof (i_cc _ Hr). destruct (write_space r Hr); [lia|done|congruence].
Qed.

(** *** Text *)

Lemma textWidth_cons c s : textWidth (c :: s) = NCtext.charColumns iswprint wcwidth tabsize c + textWidth s.
Proof. unfold NCRichText.textWidth, NCtext.lineColumns. simpl. by rewrite NCtext.lineColumns_from. Qed.

Lemma charColumns_nonneg c : 0 <= NCtext.charColumns iswprint wcwidth tabsize c.
Proof.
  unfold NCtext.charColumns. destruct (iswprint c) eqn:E; [by apply (loc_print _ _ Hloc)|]. destruct (_ =? _); lia.
Qed.

Lemma textWidth_nonneg s : 0 <= textWidth s.
Proof. induction s as [|c s IH]; [done|]. rewrite textWidth_cons. pose proof (charColumns_nonneg c). lia. Qed.

(** One turn of the loop of [PadTXT]. *)
Definition padChar (r : rich) (ch : Z) : rich :=
  let r := addChar r ch in
  let r := withAtbol (withCc r (u32 (cc r + wcwidth ch))) false in
  if cc r >=? textwidth r then PadNL r else r.

Lemma padChar_inv r c : inv r -> 0 <= wcwidth c -> (0 < wcwidth c -> cc r < W) -> inv (padChar r c) /\ cc (padChar r c) < W.
Proof.
  intros Hr Hc Hf. pose proof (i_cc _ Hr). pose proof (loc_width _ _ Hloc c).
  pose proof (addChar_base r c Hr Hc Hf) as Hb. destruct (addChar_cc r c) as (Ec & El & Et & _).
  unfold padChar. cbv zeta. rewrite Z.geb_leb, Ec. cbn [cc textwidth withAtbol withCc]. rewrite Et, u32_id, (b_width _ _ (i_base _ Hr)) by lia.
  destruct (Z.leb_spec W (cc r + wcwidth c)) as [Hle|Hlt].
  - assert (base (cl r + 1) (withAtbol (withCc (addChar r c) (cc r + wcwidth c)) false)) as Hb'.
    { apply (base_mono _ (cl r + 1)) in Hb; [|destruct (_ <=? _); lia]. destruct Hb; constructor; assumption. }
    rewrite <- El in Hb'. destruct (PadNL_inv (withAtbol (withCc (addChar r c) (cc r + wcwidth c)) false) Hb') as [Hi Hat]. split; [done|]. by apply i_bol.
  - destruct (Z.leb_spec (cc r + wcwidth c) W); [|lia]. split; [|done]. constructor; cbn [cc cl atbol hy hx withAtbol withCc]; [|lia|done|].
    + rewrite El. destruct Hb; constructor; assumption.
    + intros _. destruct (addChar_spec r c) as (y & x & y' & x' & E & ->). simpl.
      rewrite (i_cursor _ Hr), (b_width _ _ (i_base _ Hr)) in E by lia. rewrite (term_inside _ _ Hterm) in E by lia. by injection E as <- <- <- <-.
Qed.

Lemma padChars_cons r c s : c <> 0 -> padChars r (c :: s) = padChars (padChar r c) s.
Proof. intros Hc. simpl. by destruct (Z.eqb_spec c 0). Qed.

Lemma padChars_inv s : Forall (fun c => 0 <= wcwidth c) s -> forall r, inv r ->
  (match s with c :: _ => 0 < wcwidth c -> cc r < W | [] => True end) ->
  inv (padChars r s) /\ (cc r < W -> cc (padChars r s) < W).
Proof.
  induction 1 as [|c s Hw _ IH]; intros r Hr Hf; [done|]. destruct (Z.eq_dec c 0) as [->|Hc]; [done|].
  rewrite padChars_cons by done. destruct (padChar_inv r c Hr Hw Hf) as [Hi Hlt].
  destruct (IH (padChar r c) Hi) as [H1 H2]; [by destruct s|]. split; [done|]. auto.
Qed.

Lemma filtered_expand s : exists txt, filtered product widen s = Done txt /\ expand product widen (S (searches product s)) s = Done txt.
Proof.
  destruct (filterEntities_expand product widen ∅ s (or_introl eq_refl) Hproduct) as (t & txt & _ & E & E').
  exists txt. split; [|done]. unfold filtered. by rewrite E.
Qed.

(** A word whose characters have a width when its entities are replaced. *)
Definition drawable (s : list Z) : Prop :=
  forall txt, filtered product widen s = Done txt -> Forall (fun c => 0 <= wcwidth c) txt.

Lemma PadTXT_inv r s : inv r -> drawable s -> exists r', PadTXT r s = Done r' /\ inv r' /\ (atbol r = true -> cc r' < W).
Proof.
  intros Hr Hs. destruct (filtered_expand s) as (txt & Ht & _). unfold NCRichText.PadTXT. specialize (Hs txt Ht). rewrite Ht. simpl obind.
  set (r1 := if negb (atbol r) && (cc r + textWidth txt >? textwidth r) then PadNL r else r).
  assert (inv r1 /\ (cc r1 < W \/ cc r1 + textWidth txt <= W) /\ (atbol r = true -> cc r1 < W)) as (H1 & H2 & H3).
  { subst r1. destruct (atbol r) eqn:Eb; simpl; [split; [done|]; pose proof (i_bol _ Hr Eb); auto|].
    rewrite Z.gtb_ltb, (b_width _ _ (i_base _ Hr)). destruct (Z.ltb_spec W (cc r + textWidth txt)); [|split; [done|]; split; [by right|done]].
    destruct (PadNL_from_inv _ Hr) as [Hi Hat]. pose proof (i_bol _ Hi Hat). auto. }
  clearbody r1. eexists. split; [done|]. destruct (padChars_inv txt Hs r1 H1) as [H4 H5]; [|auto].
  destruct txt as [|c txt]; [done|]. intros Hc. destruct H2 as [|H2]; [done|]. rewrite textWidth_cons in H2.
  pose proof (textWidth_nonneg txt). unfold NCtext.charColumns in H2. rewrite (loc_columns _ _ Hloc c Hc) in H2. lia.
Qed.

(** *** Tags *)

Abbreviation doToken := (doToken iswprint wcwidth towlower tabsize place product widen unlimited defHeight).
Abbreviation PadTOKEN := (PadTOKEN iswprint wcwidth towlower tabsize place product widen unlimited defHeight).
Abbreviation openAnchor := (openAnchor towlower).















Lemma lookupToken_pre v n : lookupToken v = (T_PLAIN, n) -> v = L "pre".
Proof.
  unfold lookupToken, tokenTable. cbn [firstSome fst snd].
  repeat (case_bool_decide; [simpl; intros [=]; try done|]). done.
Qed.

Lemma span_app P s a b : span P s = (a, b) -> s = a ++ b.
Proof.
  revert a b. induction s as [|c s IH]; intros a b; simpl; [by intros [= <- <-]|]. destruct (P c); [|by intros [= <- <-]].
  destruct (span P s) as [a' b'] eqn:E. intros [= <- <-]. simpl. f_equal. by apply IH.
Qed.

(** What is passed in a turn is a part of the text. *)
Lemma skip_app P c s a b : skip P (c :: s) = (a, b) -> exists a', a = c :: a' /\ c :: s = a ++ b.
Proof.
  simpl. destruct (span P s) as [a' b'] eqn:E. intros [= <- <-]. exists a'. split; [done|]. simpl. f_equal. by eapply span_app.
Qed.

Lemma span_kept P s a b : span P s = (a, b) -> Forall (fun c => P c = true) a.
Proof.
  revert a b. induction s as [|c s IH]; intros a b; simpl; [intros [= <- <-]; constructor|].
  destruct (P c) eqn:E; [|intros [= <- <-]; constructor]. destruct (span P s) as [a' b'].
  intros [= <- <-]. constructor; [done|]. by eapply IH.
Qed.

Lemma SkipToken_app c s a b : SkipToken (c :: s) = (a, b) -> exists a', a = c :: a' /\ c :: s = a ++ b.
Proof.
  unfold SkipToken. destruct (skip _ _) as [a' b'] eqn:E. apply skip_app in E as (a'' & -> & E).
  destruct b' as [|x b']; intros [= <- <-]; [by eexists|]. exists (a'' ++ [x]). split; [done|].
  rewrite E. simpl. by rewrite <- app_assoc.
Qed.

(** A text in which no tag [<pre>] begins. *)
Fixpoint noPre (s : list Z) : bool :=
  match s with
  | [] => true
  | _ :: s' => negb (bool_decide (take 4 (map asciiLower s) = L "<pre")) && noPre s'
  end.

Lemma noPre_app a b : noPre (a ++ b) = true -> noPre b = true.
Proof. induction a as [|c a IH]; simpl; [done|]. intros [_ H]%andb_prop. by apply IH. Qed.

(** In a text without preformatted parts only an end tag can be one of them. *)
Lemma noPre_tag lt sch rest e v args t n : noPre ((lt :: sch) ++ rest) = true -> negb (lt =? ch_lt) = false ->
  let sch' := if e : bool then drop 1 sch else sch in
  ~ (length sch' <= 1)%nat -> span (fun c => negb (oneOf [32; 9; 10] c)) (removelast sch') = (v, args) ->
  lookupToken (map asciiLower v) = (t, n) -> t = T_PLAIN -> e = true.
Proof.
  intros Hn El sch' Hl Es Et ->. apply lookupToken_pre in Et. destruct e; [done|]. exfalso. subst sch'. apply span_app in Es.
  simpl in Hn. apply andb_prop in Hn as [Hn _]. apply negb_true_iff, bool_decide_eq_false in Hn. apply Hn.
  destruct (Z.eqb_spec lt ch_lt) as [->|]; [|done]. change (asciiLower ch_lt) with ch_lt.
  assert (sch = removelast sch ++ [List.last sch 0]) as -> by (apply app_removelast_last; intros ->; simpl in Hl; lia).
  rewrite Es, !map_app, Et. done.
Qed.


(** *** The whole text *)

Abbreviation drawWord := (drawWord iswprint wcwidth tabsize place product widen unlimited defHeight).
Abbreviation drawNext := (drawNext iswprint wcwidth towlower tabsize place product widen unlimited defHeight).
Abbreviation drawLoop := (drawLoop iswprint wcwidth towlower tabsize place product widen unlimited defHeight).
Abbreviation DrawHTMLPad := (DrawHTMLPad iswprint wcwidth towlower tabsize place product widen unlimited defHeight).










(** *** The limit of the terminal library

    As long as the lines fit, drawing into a pad with the limit is drawing into
    a pad without one. *)
Section limit.
Context (MAX_PAD_HEIGHT : Z) (Hmax : defHeight <= MAX_PAD_HEIGHT).

Abbreviation resized := (resizedHeight MAX_PAD_HEIGHT).

(** The lines of [r'] fit. *)
Definition fitting (r' : rich) : Prop := cl r' + defHeight <= MAX_PAD_HEIGHT.

(** [r'] is what the step [o] leads to, with the limit as well if it fits. *)
Definition follows (r r' : rich) (o : outcome rich) : Prop := cl r <= cl r' /\ (fitting r' -> o = Done r').

Lemma resized_small h : h <= MAX_PAD_HEIGHT -> resized h = h.
Proof. intros Hh. unfold resizedHeight. rewrite Z.gtb_ltb. by rewrite (proj2 (Z.ltb_ge _ _)). Qed.

Lemma PadNL_limit r : cl (PadNL r) = cl r + 1 /\ (fitting (PadNL r) -> NCRichText.PadNL resized defHeight r = PadNL r).
Proof.
  assert (cl (PadNL r) = cl r + 1) as El.
  { unfold NCRichText.PadNL, movePad, adjustPad. by destruct (_ =? _); simpl; destruct (_ <? _). }
  split; [done|]. unfold fitting. rewrite El. intros Hf. unfold NCRichText.PadNL. cbn [cl height].
  destruct (Z.eqb_spec (cl r + 1) (height r)) as [E|]; [|done]. unfold adjustPad. by rewrite resized_small by lia.
Qed.

Lemma PadBOL_limit r : cl r <= cl (PadBOL r) /\ (fitting (PadBOL r) -> NCRichText.PadBOL resized defHeight r = PadBOL r).
Proof.
  unfold NCRichText.PadBOL. destruct (PadNL_limit r). destruct (negb (atbol r)); [|done]. split; [lia|done].
Qed.

Lemma PadWS_limit r : cl r <= cl (PadWS r) /\ (fitting (PadWS r) -> NCRichText.PadWS place resized defHeight r = PadWS r).
Proof.
  unfold NCRichText.PadWS. destruct (PadNL_limit r). destruct (atbol r); [done|]. destruct (_ =? _); [split; [lia|done]|].
  split; [|done]. cbn [cl withCc]. by rewrite (proj1 (proj2 (addChar_cc r ch_space))).
Qed.

Lemma padChars_limit s : forall r, cl r <= cl (padChars r s) /\
  (fitting (padChars r s) -> NCRichText.padChars wcwidth place resized defHeight r s = padChars r s).
Proof.
  induction s as [|c s IH]; intros r; [done|]. cbn [NCRichText.padChars]. destruct (c =? 0); [done|]. cbv zeta.
  set (r1 := withAtbol _ _). assert (cl r1 = cl r) as E1 by apply addChar_cc.
  destruct (cc r1 >=? textwidth r1).
  - destruct (PadNL_limit r1) as [E2 Hnl], (IH (PadNL r1)) as [Hle IH']. split; [lia|]. intros Hf.
    rewrite Hnl by (unfold fitting in *; lia). by apply IH'.
  - destruct (IH r1) as [Hle IH']. split; [lia|done].
Qed.

Lemma PadTXT_limit r s r' : PadTXT r s = Done r' ->
  follows r r' (NCRichText.PadTXT iswprint wcwidth tabsize place product widen resized defHeight r s).
Proof.
  unfold follows, NCRichText.PadTXT. destruct (filtered product widen s) as [txt| | |]; cbn [obind]; [|done..].
  intros [= <-]. destruct (_ && _).
  - destruct (PadNL_limit r) as [E Hnl], (padChars_limit txt (PadNL r)) as [Hle Hc]. split; [lia|]. intros Hf.
    rewrite Hnl by (unfold fitting in *; lia). by rewrite Hc.
  - destruct (padChars_limit txt r) as [Hle Hc]. split; [done|]. intros Hf. by rewrite Hc.
Qed.

(** One more line at the end. *)
Lemma PadNL_then r r1 b : cl r <= cl r1 -> follows r (if b : bool then PadNL r1 else r1)
  (Done (if b : bool then NCRichText.PadNL resized defHeight r1 else r1)).
Proof.
  intros Hle. destruct (PadNL_limit r1) as [E Hnl]. destruct b; (split; [lia|]); [|done]. intros Hf. by rewrite Hnl.
Qed.

Lemma bolThen_limit r r0 g : cl r0 = cl r -> follows r (if g (PadBOL r0) : bool then PadNL (PadBOL r0) else PadBOL r0)
  (let r1 := NCRichText.PadBOL resized defHeight r0 in Done (if g r1 : bool then NCRichText.PadNL resized defHeight r1 else r1)).
Proof.
  intros E0. destruct (PadBOL_limit r0) as [Hle Hb]. destruct (PadNL_then r (PadBOL r0) (g (PadBOL r0))) as [H1 H2]; [lia|].
  split; [done|]. intros Hf. cbv zeta. rewrite Hb; [by apply H2|]. unfold fitting in *.
  destruct (PadNL_limit (PadBOL r0)). destruct (g (PadBOL r0)); lia.
Qed.

Lemma PadSetLevel_cl r : cl (PadSetLevel r) = cl r.
Proof. unfold PadSetLevel. cbv zeta. destruct (atbol _); [|done]. by rewrite (proj1 (movePad_keeps _)). Qed.

Lemma doToken_limit r t n e args rest r' : (t = T_PLAIN -> e = true) -> doToken r t n e args rest = Done r' ->
  follows r r' (NCRichText.doToken iswprint wcwidth towlower tabsize place product widen resized defHeight r t n e args rest).
Proof.
  intros Hpre. destruct t; cbn [NCRichText.doToken]; cbv zeta.
  all: try (intros [= <-]; by split).
  - intros [= <-]. destruct (PadNL_limit r) as [E Hnl]. split; [lia|]. intros Hf. by rewrite Hnl.
  - intros [= <-]. by apply (bolThen_limit r r (fun r1 => (cindent r1 =? 0) && e)).
  - intros [= <-]. apply (bolThen_limit r _ (fun r1 => e && (cindent r1 =? 0))). apply (PadSetLevel_cl (withStack r _)).
  - pose proof (PadSetLevel_cl r) as E0. destruct (PadBOL_limit (PadSetLevel r)) as [Hle Hb].
    set (r1 := PadBOL (PadSetLevel r)) in *. destruct e.
    { intros [= <-]. split; [lia|]. intros Hf. by rewrite Hb. }
    destruct (itemTag (liststack r1)) as [tag stack] eqn:Et. intros E.
    assert (exists r2, PadTXT (movePad (withCc (withStack r1 stack)
      (if Z.of_nat (length tag) <? cc r1 then cc r1 - Z.of_nat (length tag) else 0))) tag = Done r2 /\ r' = withAtbol r2 true) as (r2 & E2 & ->).
    { revert E. cbn [cc withStack withCc]. destruct (NCRichText.PadTXT _ _ _ _ _ _ _ _ _ _) as [r2| | |]; cbn [obind]; [|done..]. intros [= <-]. by exists r2. }
    apply PadTXT_limit in E2 as [Hl2 H2]. rewrite (proj1 (movePad_keeps _)) in Hl2. cbn [cl withCc withStack] in Hl2.
    split; [cbn [cl withAtbol]; lia|]. intros Hf. change (fitting r2) in Hf. rewrite Hb by (unfold fitting in *; lia).
    fold r1. rewrite Et. cbn [cc withStack withCc]. by rewrite (H2 Hf).
  - rewrite (Hpre eq_refl). intros [= <-]. destruct (PadNL_limit (withPre r false)) as [E Hnl]. cbn [cl withPre] in E.
    split; [lia|]. intros Hf. by rewrite Hnl.
  - intros [= <-]. split; [|done]. cbn [cl setAttr withStyle]. unfold closeAnchor, NCRichText.openAnchor.
    destruct e; [done|]. by destruct (hrefLoop _ _ _).
  - intros [= <-]. by apply (bolThen_limit r _ (fun r1 => negb (n =? 0) && e)).
Qed.

Lemma PadTOKEN_limit r tag rest o : noPre (tag ++ rest) = true -> PadTOKEN r tag rest = Done o ->
  match o with
  | Some r' => cl r <= cl r' /\ (fitting r' ->
      NCRichText.PadTOKEN iswprint wcwidth towlower tabsize place product widen resized defHeight r tag rest = Done o)
  | None => NCRichText.PadTOKEN iswprint wcwidth towlower tabsize place product widen resized defHeight r tag rest = Done o
  end.
Proof.
  intros Hn. unfold NCRichText.PadTOKEN. destruct tag as [|lt sch]; [by intros [= <-]|].
  destruct (_ || _) eqn:El; [by intros [= <-]|]. cbv zeta. apply orb_false_elim in El as [El _].
  set (e := match sch with [] => false | _ => _ end). set (sch' := if e then drop 1 sch else sch).
  case_bool_decide as Hl; [by intros [= <-]|]. destruct (span _ (removelast sch')) as [v args] eqn:Es.
  destruct (lookupToken _) as [t n] eqn:Et.
  destruct (doToken r t n e args rest) as [r1| | |] eqn:E; cbn [obind]; [|done..]. intros [= <-].
  apply doToken_limit in E as [Hle Hf]; [|by apply (noPre_tag lt sch rest e v args t n)]. split; [done|]. intros H. by rewrite Hf.
Qed.

Lemma drawWord_limit r s r' rest : drawWord r s = Done (r', rest) -> cl r <= cl r' /\
  (fitting r' -> NCRichText.drawWord iswprint wcwidth tabsize place product widen resized defHeight r s = Done (r', rest)).
Proof.
  unfold NCRichText.drawWord. destruct (negb (preTag r)).
  - destruct (SkipWord s) as [word rest0]. destruct (PadTXT r word) as [r1| | |] eqn:E; cbn [obind]; [|done..]. intros [= <- <-].
    apply PadTXT_limit in E as [Hle Hf]. split; [done|]. intros H. by rewrite Hf.
  - destruct (SkipPreTXT s) as [word rest0]. unfold PadPreTXT. destruct (filtered product widen word) as [txt| | |]; cbn [obind]; [|done..].
    intros [= <- <-]. split; [|done]. clear. revert r. induction txt as [|c txt IH]; intros r; [done|]. cbn [NCRichText.preChars].
    destruct (c =? 0); [done|]. rewrite <- (proj1 (proj2 (addChar_cc r c))). apply IH.
Qed.

(** What is left is a proper part of the text. *)
Lemma drawNext_suffix r c s r' rest : drawNext r (c :: s) = Done (r', rest) -> exists a, c :: s = c :: a ++ rest.
Proof.
  cbn [NCRichText.drawNext].
  assert (forall r r' rest, drawWord r (c :: s) = Done (r', rest) -> exists a, c :: s = c :: a ++ rest) as Hword.
  { clear. intros r r' rest. unfold NCRichText.drawWord, SkipWord, SkipPreTXT.
    destruct (negb (preTag r)); destruct (skip _ (c :: s)) as [a b] eqn:E; apply skip_app in E as (a' & -> & E);
      [destruct (NCRichText.PadTXT _ _ _ _ _ _ _ _ _ _)|destruct (PadPreTXT _ _ _ _ _)]; cbn [obind]; try done; intros [= _ <-]; by exists a'. }
  destruct (oneOf WStoken c).
  - destruct (SkipWS (c :: s)) as [a b] eqn:E. apply skip_app in E as (a' & -> & E).
    destruct (negb (preTag r)); intros [= _ <-]; [by exists a'|by exists []].
  - destruct (c =? ch_lt); [|by apply Hword]. destruct (SkipToken (c :: s)) as [tag b] eqn:E.
    apply SkipToken_app in E as (a' & -> & E). destruct (NCRichText.PadTOKEN _ _ _ _ _ _ _ _ _ _ _ _) as [[r1|]| | |]; cbn [obind]; [|by apply Hword|done..].
    intros [= _ <-]. by exists a'.
Qed.

Lemma drawNext_limit r s r' rest : noPre s = true -> drawNext r s = Done (r', rest) -> cl r <= cl r' /\
  (fitting r' -> NCRichText.drawNext iswprint wcwidth towlower tabsize place product widen resized defHeight r s = Done (r', rest)).
Proof.
  intros Hn. destruct s as [|c s]; [by intros [= <- <-]|]. cbn [NCRichText.drawNext]. destruct (oneOf WStoken c).
  - destruct (negb (preTag r)).
    + intros [= <- <-]. destruct (PadWS_limit r) as [Hle Hf]. split; [done|]. intros H. by rewrite Hf.
    + intros [= <- <-]. destruct (_ || _); [split; [by rewrite (proj1 (proj2 (addChar_cc r c)))|done]|].
      destruct (_ || _); [|done]. destruct (PadNL_limit r) as [E Hf]. split; [lia|]. intros H. by rewrite Hf.
  - destruct (c =? ch_lt); [|by apply drawWord_limit]. destruct (SkipToken (c :: s)) as [tag b] eqn:E.
    apply SkipToken_app in E as (a' & -> & E). rewrite E in Hn.
    destruct (PadTOKEN r (c :: a') b) as [o| | |] eqn:Et; cbn [obind]; [|done..]. pose proof (PadTOKEN_limit r _ b o Hn Et) as Hl.
    destruct o as [r1|].
    + intros [= <- <-]. destruct Hl as [Hle Hf]. split; [done|]. intros H. by rewrite Hf.
    + rewrite Hl. cbn [obind]. by apply drawWord_limit.
Qed.

Lemma drawLoop_limit fuel : forall r s r', noPre s = true -> drawLoop fuel r s = Done r' ->
  follows r r' (NCRichText.drawLoop iswprint wcwidth towlower tabsize place product widen resized defHeight fuel r s).
Proof.
  induction fuel as [|fuel IH]; intros r [|c s] r' Hn; try (by intros [= <-]). cbn [NCRichText.drawLoop].
  destruct (drawNext r (c :: s)) as [[r1 rest]| | |] eqn:E; cbn [obind fst snd]; [|done..]. intros E'.
  destruct (drawNext_suffix _ _ _ _ _ E) as [a Es]. pose proof Hn as Hn'. rewrite Es in Hn'. apply (noPre_app (c :: a)) in Hn'.
  destruct (drawNext_limit _ _ _ _ Hn E) as [H1 H2], (IH r1 rest r' Hn' E') as [H3 H4]. split; [lia|]. intros Hf.
  rewrite H2 by (unfold fitting in *; lia). cbn [obind fst snd]. by apply H4.
Qed.

Lemma DrawHTMLPad_limit old text r : noPre text = true -> DrawHTMLPad old text = Done r -> fitting r ->
  NCRichText.DrawHTMLPad iswprint wcwidth towlower tabsize place product widen resized defHeight old text = Done r.
Proof.
  intros Hn. unfold NCRichText.DrawHTMLPad. set (r0 := Rich _ _ _ _ _ _ _ _ _ _ _ _ _ _ _).
  destruct (drawLoop (length text) r0 text) as [r1| | |] eqn:E; cbn [obind]; [|done..]. intros [= <-] Hf.
  apply drawLoop_limit in E as [H1 H2]; [|done]. destruct (PadBOL_limit r1) as [H3 H4].
  change (cl (adjustPad unlimited defHeight (PadBOL r1) (cl (PadBOL r1)))) with (cl (PadBOL r1)) in Hf.
  assert (fitting (PadBOL r1)) as Hf' by exact Hf. rewrite H2 by (unfold fitting in *; lia). cbn [obind]. rewrite H4 by done.
  unfold adjustPad. rewrite resized_small; [done|]. unfold fitting in *. simpl in *. lia.
Qed.

(** [DrawHTMLPad()] with the limit. *)
Abbreviation DrawLimited :=
  (NCRichText.DrawHTMLPad iswprint wcwidth towlower tabsize place product widen resized defHeight).

(** The lines a text takes, together with those of the window, are not more
    than the terminal library can manage. *)
Definition manageable (old : rich) (text : list Z) : Prop :=
  forall r, DrawHTMLPad old text = Done r -> fitting r.


End limit.

(** *** Words *)

(** A character that takes a column. *)
Definition narrow (c : Z) : Prop := c <> 0 /\ wcwidth c = 1.

Lemma narrow_columns c : narrow c -> NCtext.charColumns iswprint wcwidth tabsize c = 1.
Proof. intros [_ H]. unfold NCtext.charColumns. by rewrite (loc_columns _ _ Hloc c) by lia. Qed.

Lemma narrow_width s : Forall narrow s -> textWidth s = Z.of_nat (length s).
Proof.
  induction 1 as [|c s Hc _ IH]; [done|]. rewrite textWidth_cons, IH, narrow_columns by done. simpl length. lia.
Qed.

(** A text in a line. *)
Fixpoint cells (row col : Z) (st : style) (s : list Z) : list put :=
  match s with [] => [] | c :: s' => Put row col c st :: cells row (col + 1) st s' end.

Lemma PadNL_puts r : puts (PadNL r) = puts r /\ cl (PadNL r) = cl r + 1 /\ cc (PadNL r) = cindent r /\ bg (PadNL r) = bg r.
Proof. unfold NCRichText.PadNL, movePad, adjustPad. by destruct (_ =? _); simpl; destruct (_ <? _). Qed.

(** A character of one column is written at the cursor. *)
Lemma padChar_narrow r c : inv r -> narrow c -> cc r < W ->
  puts (padChar r c) = puts r ++ [Put (cl r) (cc r) c (bg r)] /\
  (cc r + 1 < W -> cl (padChar r c) = cl r /\ cc (padChar r c) = cc r + 1 /\ bg (padChar r c) = bg r) /\
  (cc r + 1 = W -> cl (padChar r c) = cl r + 1).
Proof.
  intros Hr [_ Hw] Hlt. pose proof (i_cc _ Hr). destruct (addChar_cell r c Hr Hlt) as [E _]; [lia|lia|].
  destruct (addChar_cc r c) as (Ec & El & Et & Eb). unfold padChar. cbv zeta. rewrite Hw, Z.geb_leb, Ec.
  cbn [cc textwidth withAtbol withCc]. rewrite u32_id, Et, (b_width _ _ (i_base _ Hr)) by lia.
  destruct (Z.leb_spec W (cc r + 1)).
  - destruct (PadNL_puts (withAtbol (withCc (addChar r c) (cc r + 1)) false)) as (E1 & E2 & _). rewrite E1, E2. simpl.
    rewrite E, El. split; [done|]. split; [lia|done].
  - simpl. rewrite E, El, Eb. split; [done|]. split; [done|lia].
Qed.

Lemma padChars_row s : forall r, inv r -> Forall narrow s -> cc r + Z.of_nat (length s) <= W ->
  puts (padChars r s) = puts r ++ cells (cl r) (cc r) (bg r) s.
Proof.
  induction s as [|c s IH]; intros r Hr Hs Hl; [by rewrite app_nil_r|]. apply list.Forall_cons in Hs as [Hc Hs].
  simpl in Hl. rewrite padChars_cons by apply Hc. pose proof Hc as [_ Hw].
  destruct (padChar_inv r c Hr) as [Hi _]; [lia|lia|]. destruct (padChar_narrow r c Hr Hc) as (E1 & E2 & _); [lia|].
  destruct s as [|c' s]; [done|]. simpl in Hl. destruct E2 as (E2 & E3 & E4); [lia|].
  rewrite IH, E1, E2, E3, E4, <- app_assoc by (rewrite ?E3; simpl; done || lia). done.
Qed.

(** A word goes behind what is in the line if it fits there, and otherwise to
    the next line, where it is in one piece if it fits. *)
Theorem word_placed r s word : inv r -> filtered product widen s = Done word -> Forall narrow word ->
  let len := Z.of_nat (length word) in
  (cc r + len <= W -> exists r', PadTXT r s = Done r' /\ puts r' = puts r ++ cells (cl r) (cc r) (bg r) word) /\
  (atbol r = false -> W < cc r + len -> cindent r + len <= W ->
     exists r', PadTXT r s = Done r' /\ puts r' = puts r ++ cells (cl r + 1) (cindent r) (bg r) word).
Proof.
  intros Hr Hf Hn len. unfold NCRichText.PadTXT. rewrite Hf. simpl obind.
  rewrite (narrow_width _ Hn), (b_width _ _ (i_base _ Hr)), Z.gtb_ltb. fold len. split.
  - intros Hl. destruct (Z.ltb_spec W (cc r + len)); [lia|]. rewrite andb_false_r. eexists. split; [done|].
    by apply padChars_row.
  - intros -> Hl Hfit. destruct (Z.ltb_spec W (cc r + len)); [|lia]. simpl. eexists. split; [done|].
    destruct (PadNL_puts r) as (E1 & E2 & E3 & E4). rewrite padChars_row; [by rewrite E1, E2, E3, E4|by apply PadNL_from_inv|done|].
    by rewrite E3.
Qed.

(** *** Nothing is lost *)

Definition posBefore (p q : put) : Prop := prow p < prow q \/ (prow p = prow q /\ pcol p < pcol q).

(** The characters drawn so far, in the order of reading, before the cursor,
    and above a line that has just been started. *)
Record reading (r : rich) : Prop := Reading {
  rd_sorted : StronglySorted posBefore (puts r);
  rd_before : Forall (fun p => prow p < cl r \/ (prow p = cl r /\ pcol p < cc r)) (puts r);
  rd_bol : atbol r = true -> Forall (fun p => prow p < cl r) (puts r) }.

Lemma StronglySorted_snoc {A} (R : A -> A -> Prop) l x : StronglySorted R l -> Forall (fun y => R y x) l -> StronglySorted R (l ++ [x]).
Proof.
  induction 1 as [|a l H IH Ha]; intros HF; simpl; [repeat constructor|]. apply list.Forall_cons in HF as [Hax HF].
  constructor; [by apply IH|]. apply Forall_app. by split; [|constructor].
Qed.

Lemma PadNL_reading r : inv r -> reading r -> reading (PadNL r).
Proof.
  intros Hr [Hs Hb _]. destruct (PadNL_puts r) as (E1 & E2 & _). constructor; rewrite E1; [done| |intros _]; rewrite E2;
    (eapply Forall_impl; [exact Hb|]); simpl; intros p; lia.
Qed.

Lemma write_reading r r' c : inv r -> reading r -> puts r' = puts r ++ [Put (cl r) (cc r) c (bg r)] ->
  (cl r' = cl r /\ cc r' = cc r + 1 /\ atbol r' = false) \/ cl r' = cl r + 1 -> reading r'.
Proof.
  intros Hr [Hs Hb _] E Hp. constructor; rewrite E; [by apply StronglySorted_snoc| |intros Hbol]; apply Forall_app; split.
  - eapply Forall_impl; [exact Hb|]. simpl. intros p. lia.
  - apply list.Forall_cons. split; [|constructor]. simpl. lia.
  - destruct Hp as [(_ & _ & Hp)|Hp]; [congruence|]. eapply Forall_impl; [exact Hb|]. simpl. intros p. lia.
  - destruct Hp as [(_ & _ & Hp)|Hp]; [congruence|]. apply list.Forall_cons. split; [|constructor]. simpl. lia.
Qed.

Lemma padChar_reading r c : inv r -> narrow c -> cc r < W -> reading r -> reading (padChar r c).
Proof.
  intros Hr Hc Hlt Hd. destruct (padChar_narrow r c Hr Hc Hlt) as (E1 & E2 & E3). apply (write_reading r _ c); auto.
  destruct (Z.eq_dec (cc r + 1) W); [right; by apply E3|left]. destruct E2 as (? & ? & _); [lia|].
  split; [done|]. split; [done|]. unfold padChar. cbv zeta.
  destruct (addChar_cc r c) as (Ec & _ & Et & _). destruct Hc as [_ Hw]. pose proof (i_cc _ Hr).
  rewrite Z.geb_leb, Ec. cbn [cc textwidth withAtbol withCc]. rewrite Et, Hw, u32_id, (b_width _ _ (i_base _ Hr)) by lia.
  by rewrite (proj2 (Z.leb_gt _ _)) by lia.
Qed.

Lemma padChars_reading s : forall r, inv r -> Forall narrow s -> reading r -> (s <> [] -> cc r < W) ->
  reading (padChars r s) /\ map pchar (puts (padChars r s)) = map pchar (puts r) ++ s.
Proof.
  induction s as [|c s IH]; intros r Hr Hs Hd Hlt; [by rewrite app_nil_r|]. apply list.Forall_cons in Hs as [Hc Hs].
  rewrite padChars_cons by apply Hc. assert (cc r < W) as Hlt1 by by apply Hlt. pose proof Hc as [_ Hw].
  destruct (padChar_inv r c Hr) as [Hi Hlt']; [lia|done|].
  destruct (IH (padChar r c) Hi Hs) as [H1 H2]; [by apply padChar_reading|done|]. split; [done|].
  rewrite H2, (proj1 (padChar_narrow r c Hr Hc Hlt1)), map_app, <- app_assoc. done.
Qed.

Lemma PadTXT_reading r s word : inv r -> filtered product widen s = Done word -> Forall narrow word -> reading r ->
  exists r', PadTXT r s = Done r' /\ inv r' /\ reading r' /\ map pchar (puts r') = map pchar (puts r) ++ word.
Proof.
  intros Hr Hf Hn Hd.
  assert (drawable s) as Hs by (intros txt E; rewrite Hf in E; injection E as <-; eapply Forall_impl; [exact Hn|]; intros c [_ ->]; lia).
  destruct (PadTXT_inv r s Hr Hs) as (r' & E & Hr' & _). exists r'. split; [done|]. split; [done|].
  revert E. unfold NCRichText.PadTXT. rewrite Hf. simpl obind.
  rewrite (narrow_width _ Hn), (b_width _ _ (i_base _ Hr)), Z.gtb_ltb. intros [= <-].
  destruct (negb (atbol r) && _) eqn:Eb.
  - destruct (PadNL_from_inv r Hr) as [Hi Hat]. rewrite <- (proj1 (PadNL_puts r)).
    apply padChars_reading; auto using PadNL_reading. intros _. by apply i_bol.
  - apply padChars_reading; auto. intros Hne. destruct (atbol r) eqn:Ea; [by apply i_bol|]. simpl in Eb.
    apply Z.ltb_ge in Eb. destruct word; [done|]. simpl in Eb. lia.
Qed.

Lemma PadWS_reading r : inv r -> reading r -> reading (PadWS r) /\
  (map pchar (puts (PadWS r)) = map pchar (puts r) \/ map pchar (puts (PadWS r)) = map pchar (puts r) ++ [ch_space]).
Proof.
  intros Hr Hd. unfold NCRichText.PadWS. destruct (atbol r) eqn:Ebol; [by auto|]. rewrite (b_width _ _ (i_base _ Hr)).
  destruct (Z.eqb_spec (cc r) W) as [|Hne].
  - split; [by apply PadNL_reading|]. left. by rewrite (proj1 (PadNL_puts r)).
  - pose proof (i_cc _ Hr). pose proof width_space. destruct (addChar_cell r ch_space Hr) as [E _]; [lia..|].
    destruct (addChar_cc r ch_space) as (Ec & El & _). split.
    + apply (write_reading r _ ch_space); auto. left. simpl. rewrite Ec. split; [done|]. split; [done|].
      destruct (addChar_spec r ch_space) as (y & x & y' & x' & _ & ->). done.
    + right. simpl. by rewrite E, map_app.
Qed.

Abbreviation isWS := (oneOf WStoken).

Lemma escape_ws c : isWS c = true -> escapeChar c = [c] /\ oneOf WDtoken c = true.
Proof.
  unfold oneOf. intros H%bool_decide_eq_true. unfold WStoken in H. rewrite !elem_of_cons in H.
  destruct H as [->|[->|[->|[->|[->|[->|H]]]]]]; try done. by apply not_elem_of_nil in H.
Qed.

Lemma escape_word c : isWS c = false -> exists x l, escapeChar c = x :: l /\ isWS x = false /\ x <> ch_lt /\
  Forall (fun y => oneOf WDtoken y = false) (x :: l).
Proof.
  intros H. unfold escapeChar. destruct (Z.eqb_spec c ch_amp) as [->|]; [|destruct (Z.eqb_spec c ch_lt) as [->|];
    [|destruct (Z.eqb_spec c ch_gt) as [->|]]].
  1-3: eexists _, _; split; [done|]; split; [done|]; split; [done|]; repeat constructor.
  exists c, []. repeat split; try done. constructor; [|constructor]. unfold oneOf in *.
  apply bool_decide_eq_false. apply bool_decide_eq_false in H. unfold WDtoken, WStoken in *. set_solver.
Qed.

Lemma span_all P a b : Forall (fun y => P y = true) a -> span P (a ++ b) = let '(x, y) := span P b in (a ++ x, y).
Proof.
  induction 1 as [|c a Hc _ IH]; simpl; [by destruct (span P b)|]. rewrite Hc, IH. by destruct (span P b).
Qed.

Lemma escape_cons c s : escape (c :: s) = escapeChar c ++ escape s.
Proof. done. Qed.

(** The word at the start of a text, and the rest. *)
Lemma span_word s : span (fun c => negb (oneOf WDtoken c)) (escape s) =
  let '(a, b) := span (fun c => negb (isWS c)) s in (escape a, escape b).
Proof.
  induction s as [|c s IH]; [done|]. rewrite escape_cons. cbn [span]. destruct (isWS c) eqn:E.
  - destruct (escape_ws c E) as [Ec Hd]. rewrite Ec. cbn [app span]. rewrite Hd. cbn [negb]. by rewrite escape_cons, Ec.
  - destruct (escape_word c E) as (x & l & Ex & _ & _ & HF). rewrite span_all; [|rewrite Ex; eapply Forall_impl; [exact HF|]; by intros y ->].
    rewrite IH. by destruct (span _ s).
Qed.

Lemma span_blanks s : span isWS (escape s) = let '(a, b) := span isWS s in (escape a, escape b).
Proof.
  induction s as [|c s IH]; [done|]. rewrite escape_cons. cbn [span]. destruct (isWS c) eqn:E.
  - destruct (escape_ws c E) as [Ec _]. rewrite Ec. cbn [app span]. rewrite E, IH. destruct (span _ s).
    by rewrite escape_cons, Ec.
  - destruct (escape_word c E) as (x & l & Ex & Hx & _). rewrite escape_cons, Ex. cbn [app span]. by rewrite Hx.
Qed.

Definition visible (s : list Z) : list Z := filter (fun c => isWS c = false) s.

Lemma visible_none s : Forall (fun c => isWS c = true) s -> visible s = [].
Proof.
  induction 1 as [|c s Hc _ IH]; [done|]. unfold visible. rewrite filter_cons. rewrite decide_False by (rewrite Hc; done). done.
Qed.

Lemma visible_all s : Forall (fun c => negb (isWS c) = true) s -> visible s = s.
Proof.
  induction 1 as [|c s Hc _ IH]; [done|]. unfold visible. apply negb_true_iff in Hc. rewrite filter_cons_True by done.
  by f_equal.
Qed.

Lemma visible_both a b : visible (a ++ b) = visible a ++ visible b.
Proof. apply list.filter_app. Qed.

(** What the text may hold: blanks, and characters that take a column. *)
Definition printable (s : list Z) : Prop := Forall (fun c => isWS c = true \/ narrow c) s.

Lemma filtered_escape s : filtered product widen (escape s) = Done s.
Proof.
  destruct (filtered_expand (escape s)) as (txt & -> & E). rewrite expand_escape in E by (unfold searches; lia). congruence.
Qed.

Lemma escape_length s : (length s <= length (escape s))%nat.
Proof.
  induction s as [|c s IH]; [done|]. rewrite escape_cons, length_app. simpl.
  assert (1 <= length (escapeChar c))%nat; [|lia]. unfold escapeChar. by repeat destruct (_ =? _); simpl; lia.
Qed.

(** One turn of the loop on a text without tags. *)
Lemma drawNext_text r c s : inv r -> reading r -> printable (c :: s) ->
  exists r' a rest, drawNext r (escape (c :: s)) = Done (r', escape rest) /\ inv r' /\ reading r' /\ c :: s = c :: a ++ rest /\
    visible (map pchar (puts r')) = visible (map pchar (puts r)) ++ visible (c :: a).
Proof.
  intros Hr Hd Hp. rewrite escape_cons. destruct (isWS c) eqn:E.
  - pose proof (span_blanks s) as Hb. destruct (span isWS s) as [a b] eqn:Es. exists (PadWS r), a, b.
    rewrite (proj1 (escape_ws c E)). cbn [app NCRichText.drawNext]. rewrite E, (b_pre _ _ (i_base _ Hr)). simpl negb. cbv iota.
    unfold SkipWS. cbn [skip]. rewrite Hb. split; [done|]. split; [by apply PadWS_inv|].
    destruct (PadWS_reading r Hr Hd) as [H1 H2]. split; [done|]. split; [f_equal; by eapply span_app|].
    rewrite (visible_none (c :: a)) by (constructor; [done|]; by eapply span_kept). rewrite app_nil_r.
    destruct H2 as [-> | ->]; [done|]. rewrite visible_both. by rewrite app_nil_r.
  - pose proof (span_word s) as Hb. destruct (span _ s) as [a b] eqn:Es.
    destruct (escape_word c E) as (x & l & Ex & Hx & Hlt & HF).
    pose proof (span_kept _ _ _ _ Es) as Hk. apply span_app in Es. subst s.
    assert (Forall (fun c => negb (isWS c) = true) (c :: a)) as Hca by (constructor; [by rewrite E|done]).
    assert (Forall narrow (c :: a)) as Hn.
    { change (c :: a ++ b) with ((c :: a) ++ b) in Hp. apply Forall_app in Hp as [Hp _].
      apply List.Forall_forall. intros y Hy. rewrite List.Forall_forall in Hp, Hca. specialize (Hp y Hy). specialize (Hca y Hy).
      destruct Hp as [Hp|]; [|done]. simpl in Hca. by rewrite Hp in Hca. }
    destruct (PadTXT_reading r (escape (c :: a)) (c :: a) Hr (filtered_escape _) Hn Hd) as (r' & E1 & H1 & H2 & H3).
    exists r', a, b. split; [|split; [done|]; split; [done|]; split; [done|]; by rewrite H3, visible_both].
    rewrite Ex. cbn [app NCRichText.drawNext]. rewrite Hx. destruct (Z.eqb_spec x ch_lt); [done|].
    unfold NCRichText.drawWord. rewrite (b_pre _ _ (i_base _ Hr)). simpl negb. cbv iota. unfold SkipWord. cbn [skip].
    apply list.Forall_cons in HF as [_ HF]. rewrite span_all by (eapply Forall_impl; [exact HF|]; by intros y ->).
    rewrite Hb. change (x :: l ++ escape a) with ((x :: l) ++ escape a). rewrite <- Ex, <- escape_cons, E1. done.
Qed.

Lemma drawLoop_text fuel : forall r s, inv r -> reading r -> printable s -> (length (escape s) <= fuel)%nat ->
  exists r', drawLoop fuel r (escape s) = Done r' /\ inv r' /\ reading r' /\
    visible (map pchar (puts r')) = visible (map pchar (puts r)) ++ visible s.
Proof.
  induction fuel as [|fuel IH]; intros r [|c s] Hr Hd Hp Hf.
  1,3: exists r; rewrite app_nil_r; done.
  - pose proof (escape_length (c :: s)). simpl in *. lia.
  - destruct (drawNext_text r c s Hr Hd Hp) as (r' & a & rest & E & Hr' & Hd' & Es & Hv).
    injection Es as ->. change (c :: a ++ rest) with ((c :: a) ++ rest) in *.
    destruct (IH r' rest Hr' Hd') as (r'' & E' & H1 & H2 & H3).
    + by apply Forall_app in Hp as [_ Hp].
    + assert (escape ((c :: a) ++ rest) = escape (c :: a) ++ escape rest) as Ea by apply flat_map_app.
      rewrite Ea, length_app in Hf. pose proof (escape_length (c :: a)) as Hl. cbn [length] in Hl. lia.
    + exists r''. split; [|split; [done|]; split; [done|]; by rewrite H3, Hv, (visible_both (c :: a)), app_assoc].
      destruct (escape ((c :: a) ++ rest)) as [|x l] eqn:Ee; [|cbn [NCRichText.drawLoop]; rewrite E; by simpl].
      pose proof (escape_length ((c :: a) ++ rest)) as Hl. rewrite Ee in Hl. simpl in Hl. lia.
Qed.

Lemma escape_noPre s : noPre (escape s) = true.
Proof.
  assert (ch_lt ∉ escape s) as Hlt.
  { unfold escape. intros Hin. apply list_elem_of_In, in_flat_map in Hin as (c & _ & Hin%list_elem_of_In). revert Hin.
    unfold escapeChar. destruct (Z.eqb_spec c ch_amp) as [->|]; [by apply (bool_decide_unpack (ch_lt ∉ _))|].
    destruct (Z.eqb_spec c ch_lt) as [->|]; [by apply (bool_decide_unpack (ch_lt ∉ _))|].
    destruct (Z.eqb_spec c ch_gt) as [->|]; [by apply (bool_decide_unpack (ch_lt ∉ _))|].
    intros E%list_elem_of_singleton. congruence. }
  induction (escape s) as [|c l IH]; [done|]. cbn [noPre]. rewrite IH by set_solver. rewrite andb_true_r.
  apply negb_true_iff, bool_decide_eq_false. simpl. intros [= Hc _]. apply Hlt. apply list_elem_of_In. left.
  change (asciiLower c = ch_lt) in Hc. unfold asciiLower, ch_lt in *.
  destruct ((65 <=? c) && (c <=? 90)) eqn:Ec; [|done].
  apply andb_prop in Ec as [?%Z.leb_le ?%Z.leb_le]. lia.
Qed.

(** C17: A text without tags, its special characters written as entities, all
    of whose visible characters take one column ([printable]) and whose lines
    do not exceed the limit of the terminal library, is drawn completely: its
    visible characters, in their order, from left to right and from line to
    line, between the margins and on the lines of the pad. (A character of two
    columns that does not fit into a line is overwritten,
    [wide_overwritten].) *)
Theorem rich_text MAX_PAD_HEIGHT old s : defHeight <= MAX_PAD_HEIGHT ->
  textwidth old = W -> 1 <= height old -> preTag old = false -> printable s ->
  manageable MAX_PAD_HEIGHT old (escape s) ->
  exists r, NCRichText.DrawHTMLPad iswprint wcwidth towlower tabsize place product widen
              (resizedHeight MAX_PAD_HEIGHT) defHeight old (escape s) = Done r /\
    visible (map pchar (puts r)) = visible s /\
    StronglySorted posBefore (puts r) /\ Forall (inside (cl r)) (puts r) /\ Forall (fun p => prow p < height r) (puts r).
Proof.
  intros Hmax Hw Hh Hp Hs Hm. pose proof half_W. unfold manageable in Hm.
  assert (exists r, DrawHTMLPad old (escape s) = Done r /\ visible (map pchar (puts r)) = visible s /\
    StronglySorted posBefore (puts r) /\ Forall (inside (cl r)) (puts r) /\ Forall (fun p => prow p < height r) (puts r))
    as (r & E & Hr).
  2:{ exists r. split; [|done]. apply DrawHTMLPad_limit; [done|apply escape_noPre|done|by apply Hm]. }
  clear Hm. unfold NCRichText.DrawHTMLPad.
  destruct (drawLoop_text (length (escape s))
    (Rich (textwidth old) (height old) 0 0 0 true (preTag old) (Tattr old) [] noAnchor [] 0 0 SPlain []) s) as (r & E & Hr & Hd & Hv).
  - constructor; [constructor|..]; simpl; auto; lia.
  - by constructor; simpl; constructor.
  - done.
  - done.
  - rewrite E. simpl obind. eexists. split; [done|]. simpl. destruct (PadBOL_inv r Hr) as [Hi Hat].
    assert (puts (PadBOL r) = puts r) as Ep by (unfold NCRichText.PadBOL; destruct (atbol r); [done|apply PadNL_puts]).
    assert (reading (PadBOL r)) as Hd' by (unfold NCRichText.PadBOL; destruct (atbol r); [done|by apply PadNL_reading]).
    split; [by rewrite Ep|]. split; [by apply rd_sorted|]. split; [apply (b_puts _ _ (i_base _ Hi))|].
    eapply Forall_impl; [exact (rd_bol _ Hd' Hat)|]. simpl. unfold unlimited. intros p. lia.
Qed.

(** *** Preformatted text *)

Lemma Columns_max ls m : 0 <= m -> Forall (fun l => textWidth l <= m) ls -> NCtext.Columns iswprint wcwidth tabsize ls <= m.
Proof.
  unfold NCtext.Columns. intros Hm H. revert Hm. generalize 0 as n.
  induction H as [|l ls Hl _ IH]; intros n Hn; [done|]. simpl. apply IH. destruct (_ >? _); done.
Qed.

(** Every line ends before a column, the first one from a column on. *)
Fixpoint fits (T x : Z) (body : list Z) : Prop :=
  match body with
  | [] => x <= T
  | c :: body' => if c =? NCtext.newline then x <= T /\ fits T 0 body' else fits T (x + 1) body'
  end.

Lemma fits_app T l : NCtext.newline ∉ l -> forall x rest, fits T (x + Z.of_nat (length l)) rest -> fits T x (l ++ rest).
Proof.
  induction l as [|c l IH]; intros Hn x rest Hf; [by rewrite Z.add_0_r in Hf|]. simpl in *.
  destruct (Z.eqb_spec c NCtext.newline) as [->|]; [set_solver|]. apply IH; [set_solver|].
  replace (x + 1 + Z.of_nat (length l)) with (x + Z.of_nat (S (length l))) by lia. done.
Qed.

Lemma fits_lines T ls rest : 0 <= T -> Forall (fun l => NCtext.newline ∉ l) ls -> Forall (fun l => Z.of_nat (length l) <= T) ls ->
  ls <> [] -> rest = [] \/ rest = [NCtext.newline] -> fits T 0 (NCtext.unlines ls ++ rest).
Proof.
  intros HT. induction ls as [|l [|l2 ls] IH]; intros Hn Hl Hne Hr; [done|..];
    apply list.Forall_cons in Hn as [Hn1 Hn]; apply list.Forall_cons in Hl as [Hl1 Hl].
  - simpl. apply fits_app; [done|]. destruct Hr as [-> | ->]; simpl; lia.
  - change (NCtext.unlines (l :: l2 :: ls)) with (l ++ NCtext.newline :: NCtext.unlines (l2 :: ls)).
    rewrite <- app_assoc. apply fits_app; [done|]. simpl app. cbn [fits]. rewrite Z.eqb_refl. split; [lia|]. by apply IH.
Qed.

(** The characters that preformatted text may have here. *)
Definition preChar (c : Z) : Prop := c = NCtext.newline \/ (narrow c /\ oneOf [9; 11; 12; 13; ch_lt; ch_amp] c = false).

Lemma preChar_not c x : preChar c -> x ∈ [9; 11; 12; 13; ch_lt; ch_amp] -> c <> x.
Proof.
  intros Hc Hx E. subst x. destruct Hc as [->|[_ H]]; [by apply (bool_decide_pack _) in Hx|].
  unfold oneOf in H. by apply bool_decide_eq_false in H.
Qed.

Lemma preChars_not body x : Forall preChar body -> x ∈ [9; 11; 12; 13; ch_lt; ch_amp] -> x ∉ body.
Proof. intros Hb Hx Hin. by apply (preChar_not x x (Forall_at _ _ _ Hb Hin) Hx). Qed.

Lemma filtered_noamp s : ch_amp ∉ s -> filtered product widen s = Done s.
Proof.
  intros H. destruct (filtered_expand s) as (txt & -> & E). revert E. cbn [expand]. by rewrite splitAt_none.
Qed.

Lemma replaceAll_none fuel x from to s : x ∉ s -> replaceAll fuel (x :: from) to s = s.
Proof.
  revert s. induction fuel as [|fuel IH]; intros [|c s] H; try done. cbn [replaceAll length].
  rewrite bool_decide_false by (simpl; intros [= -> _]; set_solver). rewrite IH; [done|set_solver].
Qed.

Lemma sixAt_done s : (5 <= length s)%nat -> sixAt s = Done (take 6 s).
Proof. intros H. unfold sixAt. by rewrite bool_decide_false by lia. Qed.

Lemma preEnd_body body : body <> [] -> ch_lt ∉ body -> preEnd (body ++ L "</pre>") = Done body.
Proof.
  induction body as [|c body IH]; intros Hne Hn; [done|]. simpl app. cbn [preEnd].
  rewrite sixAt_done by (rewrite length_app; simpl; lia). cbn [obind].
  destruct body as [|c' body]; [done|]. cbn [app].
  rewrite bool_decide_false by (simpl; intros [= -> _]; set_solver).
  change (c' :: body ++ L "</pre>") with ((c' :: body) ++ L "</pre>"). rewrite IH by (done || set_solver). done.
Qed.

(** The width that preformatted text gets. *)
Lemma AdjustPrePad_body r body : Forall preChar body -> body <> [] -> textwidth r = W -> Z.of_nat (length body) < 2 ^ 32 -> cl r = 0 ->
  1 <= height r -> exists T h, AdjustPrePad iswprint wcwidth tabsize product widen unlimited defHeight r (body ++ L "</pre>") = Done (withSize r T h) /\
    W <= T /\ fits T 0 body /\ 1 <= h.
Proof.
  intros Hb Hne Hw Hlen Hcl Hh. assert (ch_lt ∉ body) as Hlt by (by apply preChars_not; [|apply (bool_decide_unpack _)]).
  assert (ch_amp ∉ body) as Hamp by (by apply preChars_not; [|apply (bool_decide_unpack _)]).
  assert (13 ∉ body) as Hret by (by apply preChars_not; [|apply (bool_decide_unpack _)]).
  unfold AdjustPrePad. rewrite sixAt_done by (rewrite length_app; simpl; lia). cbn [obind].
  rewrite preEnd_body by done. cbn [obind]. rewrite filtered_noamp by done. cbn [obind].
  change (L "<br>") with (ch_lt :: L "br>"). change (L "<br/>") with (ch_lt :: L "br/>").
  rewrite (replaceAll_none _ ch_lt (L "br>")), (replaceAll_none _ ch_lt) by done.
  destruct (NCtext.text_lines body) as (ls & -> & Hls & Hnl & Hun). cbn [obind].
  rewrite NCtext.eraseReturns_id in Hun by done.
  assert (forall l, l ∈ ls -> Forall narrow l /\ (length l <= length body)%nat) as Hin.
  { intros l Hl. split.
    - apply List.Forall_forall. intros c Hc. apply list_elem_of_In in Hc. pose proof (NCtext.unlines_elem ls l c Hl Hc) as Hu.
      assert (c ∈ body) as Hcb by (destruct Hun as [-> | ->]; set_solver).
      destruct (Forall_at _ _ _ Hb Hcb) as [->|[]]; [|done]. by destruct (Forall_at _ _ _ Hnl Hl).
    - transitivity (length (NCtext.unlines ls)); [|destruct Hun as [-> | ->]; rewrite ?length_app; lia].
      by apply NCtext.unlines_length. }
  set (llen := NCtext.Columns iswprint wcwidth tabsize ls).
  assert (0 <= llen <= Z.of_nat (length body)) as Hll.
  { split; [apply (proj1 (NCtext.Columns_from iswprint wcwidth tabsize ls 0 ltac:(lia)))|]. apply Columns_max; [lia|].
    apply List.Forall_forall. intros l Hl%list_elem_of_In. destruct (Hin l Hl) as [H1 H2]. rewrite narrow_width by done. lia. }
  assert (forall T, llen <= T -> fits T 0 body) as Hfits.
  { intros T HT. assert (Forall (fun l => Z.of_nat (length l) <= T) ls) as Hlen'.
    { apply List.Forall_forall. intros l Hl%list_elem_of_In. transitivity llen; [|done].
      apply NCtext.Columns_enough; [done|]. eapply Forall_impl; [apply (Hin l Hl)|]. intros c Hc. by rewrite narrow_columns. }
    destruct Hun as [Hun|Hun]; rewrite Hun; [rewrite <- (app_nil_r (NCtext.unlines ls))|]; apply fits_lines; auto; lia. }
  rewrite Z.gtb_ltb, Hw. destruct (Z.ltb_spec W llen).
  - rewrite u32_id by lia. do 2 eexists. split; [done|]. split; [lia|]. split; [by apply Hfits|unfold unlimited; lia].
  - exists W, (height r). split; [by destruct r; simpl in *; subst|]. split; [lia|]. split; [by apply Hfits|done].
Qed.

(** Where the characters of preformatted text belong. *)
Fixpoint layout (y x : Z) (body : list Z) : list put :=
  match body with
  | [] => []
  | c :: body' => if c =? NCtext.newline then layout (y + 1) 0 body' else Put y x c SPlain :: layout y (x + 1) body'
  end.

Lemma layout_app y l : NCtext.newline ∉ l -> forall x rest,
  layout y x (l ++ rest) = cells y x SPlain l ++ layout y (x + Z.of_nat (length l)) rest.
Proof.
  induction l as [|c l IH]; intros Hn x rest; [by rewrite Z.add_0_r|]. simpl.
  destruct (Z.eqb_spec c NCtext.newline) as [->|]; [set_solver|]. rewrite IH by set_solver.
  by replace (x + 1 + Z.of_nat (length l)) with (x + Z.of_nat (S (length l))) by lia.
Qed.

Lemma fits_app_inv T l : NCtext.newline ∉ l -> forall x rest, fits T x (l ++ rest) -> fits T (x + Z.of_nat (length l)) rest.
Proof.
  induction l as [|c l IH]; intros Hn x rest Hf; [by rewrite Z.add_0_r|]. simpl in *.
  destruct (Z.eqb_spec c NCtext.newline) as [->|]; [set_solver|]. apply IH in Hf; [|set_solver].
  by replace (x + Z.of_nat (S (length l))) with (x + 1 + Z.of_nat (length l)) by lia.
Qed.

Lemma fits_start T body : forall x, fits T x body -> 0 <= x -> x <= T.
Proof.
  induction body as [|c body IH]; intros x; simpl; [done|]. destruct (_ =? _); [tauto|]. intros H Hx. apply IH in H; lia.
Qed.

(** The state in preformatted text, with the cursor at a place. *)
Record preState (T y x : Z) (r : rich) : Prop := PreState {
  p_pre : preTag r = true;
  p_width : textwidth r = T;
  p_indent : cindent r = 0;
  p_style : bg r = SPlain;
  p_line : cl r = y;
  p_row : y < height r;
  p_cursor : x < T -> (hy r, hx r) = (y, x) }.

Abbreviation preChars := (preChars place).

Lemma preChars_row T y word : Forall narrow word -> forall x r, preState T y x r -> x + Z.of_nat (length word) <= T ->
  puts (preChars r word) = puts r ++ cells y x SPlain word /\ preState T y (x + Z.of_nat (length word)) (preChars r word).
Proof.
  induction 1 as [|c word [Hc Hw] _ IH]; intros x r Hp Hl; [by rewrite Z.add_0_r, app_nil_r|]. cbn [NCRichText.preChars length] in *.
  destruct (Z.eqb_spec c 0); [done|]. destruct Hp as [H1 H2 H3 H4 H5 H0 H6]. specialize (H6 ltac:(lia)).
  destruct (addChar_spec r c) as (y1 & x1 & y2 & x2 & E & Ea). rewrite H6, H2 in E.
  assert (y1 = y /\ x1 = x /\ (x + 1 < T -> (y2, x2) = (y, x + 1))) as (-> & -> & Hcur).
  { destruct (Z.eq_dec (x + 1) T) as [Et|].
    - pose proof (term_last _ _ Hterm T y x c ltac:(lia) ltac:(lia)) as Ec. rewrite E in Ec. injection Ec as -> ->. split; [done|]. split; [done|lia].
    - rewrite (term_inside _ _ Hterm) in E by lia. rewrite Hw in E. by injection E as <- <- <- <-. }
  destruct (IH (x + 1) (addChar r c)) as [E1 E2]; [rewrite Ea; by constructor|lia|].
  split; [rewrite E1, Ea; simpl puts; by rewrite H4, <- app_assoc|].
  by replace (x + Z.of_nat (S (length word))) with (x + 1 + Z.of_nat (length word)) by lia.
Qed.

Lemma preState_nl T y x r : preState T y x r -> preState T (y + 1) 0 (PadNL r) /\ puts (PadNL r) = puts r.
Proof.
  intros [H1 H2 H3 H4 H5 H0 H6]. destruct (PadNL_puts r) as (E1 & E2 & E3 & E4). split; [|done].
  constructor; try congruence; unfold NCRichText.PadNL; destruct (Z.eqb_spec (cl r + 1) (height r)) as [E|E]; simpl;
    rewrite ?E, ?Z.eqb_refl, ?(proj2 (Z.eqb_neq _ _) E); rewrite movePad_in by (simpl; unfold unlimited; lia);
    unfold unlimited; simpl; try congruence; lia.
Qed.

(** The text up to the end of a line. *)
Lemma span_pre body : Forall preChar body -> exists a b, body = a ++ b /\ Forall narrow a /\ (NCtext.newline ∉ a) /\ (ch_amp ∉ a) /\
  span (fun c => negb (oneOf PREtoken c)) (body ++ L "</pre>") = (a, b ++ L "</pre>").
Proof.
  induction 1 as [|c body Hc Hb IH]; [exists [], []; split; [done|]; split; [constructor|]; split; [|split; [|done]]; apply not_elem_of_nil|].
  destruct Hc as [->|[Hn Ho]].
  - exists [], (NCtext.newline :: body). split; [done|]. split; [constructor|]. split; [|split; [|done]]; apply not_elem_of_nil.
  - destruct IH as (a & b & -> & H1 & H2 & H3 & H4). unfold oneOf in Ho. apply bool_decide_eq_false in Ho.
    destruct (decide (c = NCtext.newline)) as [->|Hnl].
    + exists [], (NCtext.newline :: a ++ b). split; [done|]. split; [constructor|]. split; [|split; [|done]]; apply not_elem_of_nil.
    + exists (c :: a), b. split; [done|]. split; [by constructor|]. split; [set_solver|]. split; [set_solver|].
      cbn [app span]. assert (oneOf PREtoken c = false) as ->; [|by rewrite H4].
      unfold oneOf, PREtoken. apply bool_decide_eq_false. unfold NCtext.newline in Hnl. set_solver.
Qed.

(** One turn of the loop. *)
Lemma drawNext_pre T y x r c body : preState T y x r -> Forall preChar (c :: body) -> fits T x (c :: body) -> 0 <= x ->
  exists r' a b y' x', drawNext r ((c :: body) ++ L "</pre>") = Done (r', b ++ L "</pre>") /\ c :: body = c :: a ++ b /\
    preState T y' x' r' /\ 0 <= x' /\ fits T x' b /\ puts r' ++ layout y' x' b = puts r ++ layout y x (c :: body).
Proof.
  intros Hp Hb Hf Hx. pose proof Hb as Hb0. apply list.Forall_cons in Hb as [Hc Hb]. cbn [app NCRichText.drawNext].
  destruct (decide (c = NCtext.newline)) as [->|Hnl].
  { destruct (preState_nl T y x r Hp) as [H1 H2]. exists (PadNL r), [], body, (y + 1), 0.
    change (oneOf WStoken NCtext.newline) with true. rewrite (p_pre _ _ _ _ Hp). simpl negb. cbv iota.
    split; [done|]. split; [done|]. split; [done|]. split; [lia|]. cbn [fits layout] in Hf |- *. rewrite Z.eqb_refl in Hf |- *.
    rewrite H2. split; [apply Hf|done]. }
  destruct Hc as [|[Hn Ho]]; [done|]. pose proof Ho as Ho'. unfold oneOf in Ho. apply bool_decide_eq_false in Ho.
  destruct (decide (c = ch_space)) as [->|Hsp].
  { exists (addChar r ch_space), [], body, y, (x + 1).
    change (oneOf WStoken ch_space) with true. rewrite (p_pre _ _ _ _ Hp). simpl negb. cbv iota. change (ch_space =? 32) with true. cbn [orb].
    change (ch_space :: body) with ([ch_space] ++ body) in Hf. apply fits_app_inv in Hf; [|by intros E%list_elem_of_singleton].
    pose proof (fits_start _ _ _ Hf ltac:(simpl; lia)). destruct (preChars_row T y [ch_space]) with (x := x) (r := r) as [E1 E2]; [by constructor|done|done|].
    split; [done|]. split; [done|]. split; [exact E2|]. split; [lia|]. split; [exact Hf|]. simpl in E1. rewrite E1, <- app_assoc. done. }
  assert (oneOf WStoken c = false) as ->.
  { unfold oneOf, WStoken. apply bool_decide_eq_false. unfold NCtext.newline, ch_space in *. set_solver. }
  destruct (Z.eqb_spec c ch_lt) as [->|]; [set_solver|]. destruct (span_pre body Hb) as (a & b & -> & H1 & H2 & H3 & H4).
  unfold NCRichText.drawWord. rewrite (p_pre _ _ _ _ Hp). simpl negb. cbv iota. unfold SkipPreTXT. cbn [skip]. rewrite H4.
  unfold PadPreTXT. rewrite filtered_noamp by set_solver. cbn [obind].
  change (c :: a ++ b) with ((c :: a) ++ b) in Hf |- *. assert (NCtext.newline ∉ c :: a) as Hca by set_solver.
  apply (fits_app_inv _ _ Hca) in Hf. pose proof (fits_start _ _ _ Hf ltac:(lia)).
  destruct (preChars_row T y (c :: a)) with (x := x) (r := r) as [E1 E2]; [by constructor|done|done|].
  exists (preChars r (c :: a)), a, b, y, (x + Z.of_nat (length (c :: a))).
  split; [done|]. split; [done|]. split; [done|]. split; [lia|]. split; [done|]. by rewrite E1, layout_app, app_assoc.
Qed.

Lemma drawLoop_pre T fuel : forall y x r body, preState T y x r -> Forall preChar body -> fits T x body -> 0 <= x ->
  (length (body ++ L "</pre>") <= fuel)%nat ->
  exists r', drawLoop fuel r (body ++ L "</pre>") = Done r' /\ puts r' = puts r ++ layout y x body /\ atbol r' = true /\ textwidth r' = T.
Proof.
  induction fuel as [|fuel IH]; intros y x r body Hp Hb Hf Hx Hl; [rewrite length_app in Hl; simpl in Hl; lia|].
  destruct body as [|c body].
  - cbn [app]. change (L "</pre>") with (ch_lt :: L "/pre>"). cbn [NCRichText.drawLoop].
    assert (drawNext r (ch_lt :: L "/pre>") = Done (PadNL (withPre r false), [])) as -> by done. cbn [obind fst snd].
    exists (PadNL (withPre r false)). destruct (PadNL_puts (withPre r false)) as (E1 & _). rewrite E1, app_nil_r.
    split; [by destruct fuel|]. split; [done|]. unfold NCRichText.PadNL, movePad, adjustPad. pose proof (p_width _ _ _ _ Hp).
    by destruct (_ =? _); simpl; destruct (_ <? _).
  - destruct (drawNext_pre T y x r c body Hp Hb Hf Hx) as (r' & a & b & y' & x' & E & Es & Hp' & Hx' & Hf' & Hu).
    injection Es as ->. change ((c :: a ++ b) ++ L "</pre>") with (c :: (a ++ b) ++ L "</pre>") in *. cbn [NCRichText.drawLoop]. rewrite E.
    cbn [obind fst snd]. destruct (IH y' x' r' b) as (r'' & E' & H1 & H2 & H3); try done.
    + change (c :: a ++ b) with ((c :: a) ++ b) in Hb. by apply Forall_app in Hb as [_ Hb].
    + cbn [length] in Hl. rewrite !length_app in *. lia.
    + exists r''. split; [done|]. by rewrite H1, Hu.
Qed.

Lemma layout_cols T body : forall y x, 0 <= x -> fits T x body -> Forall (fun p => 0 <= pcol p < T) (layout y x body).
Proof.
  induction body as [|c body IH]; intros y x Hx Hf; simpl in *; [constructor|]. destruct (_ =? _); [by apply IH; [|apply Hf]|].
  pose proof (fits_start _ _ _ Hf). constructor; [simpl; lia|]. apply IH; [lia|done].
Qed.

(** Preformatted text keeps its lines and its columns, however wide they are:
    the pad gets as wide as they need. *)
Theorem pre_drawn old body : textwidth old = W -> 1 <= height old -> preTag old = false -> Forall preChar body -> body <> [] ->
  Z.of_nat (length body) < 2 ^ 32 ->
  exists r, DrawHTMLPad old (L "<pre>" ++ body ++ L "</pre>") = Done r /\ puts r = layout 0 0 body /\
    Forall (fun p => 0 <= pcol p < textwidth r) (puts r).
Proof.
  intros Hw Hh Hp Hb Hne Hlen. unfold NCRichText.DrawHTMLPad.
  set (r0 := Rich (textwidth old) (height old) 0 0 0 true (preTag old) (Tattr old) [] noAnchor [] 0 0 SPlain []).
  destruct (AdjustPrePad_body (withPre r0 true) body Hb Hne Hw Hlen ltac:(done) Hh) as (T & h & Ea & HT & Hf & Hh').
  assert (drawNext r0 (L "<pre>" ++ body ++ L "</pre>") = Done (withSize (withPre r0 true) T h, body ++ L "</pre>")) as E1.
  { change (L "<pre>" ++ body ++ L "</pre>") with (ch_lt :: L "pre>" ++ body ++ L "</pre>"). cbn [NCRichText.drawNext].
    change (oneOf WStoken ch_lt) with false. change (ch_lt =? ch_lt) with true. cbv iota.
    change (SkipToken (ch_lt :: L "pre>" ++ body ++ L "</pre>")) with (L "<pre>", body ++ L "</pre>"). cbv iota.
    change (PadTOKEN r0 (L "<pre>") (body ++ L "</pre>")) with
      (let! r := AdjustPrePad iswprint wcwidth tabsize product widen unlimited defHeight (withPre r0 true) (body ++ L "</pre>") in Done (Some r)).
    by rewrite Ea. }
  destruct (drawLoop_pre T (4 + length (body ++ L "</pre>")) 0 0 (withSize (withPre r0 true) T h) body) as (r & E2 & H1 & H2 & H3); try done;
    [by constructor; simpl; try done; lia|lia|].
  change (length (L "<pre>" ++ body ++ L "</pre>")) with (S (4 + length (body ++ L "</pre>"))).
  assert (drawLoop (S (4 + length (body ++ L "</pre>"))) r0 (L "<pre>" ++ body ++ L "</pre>") = Done r) as ->.
  { change (L "<pre>" ++ body ++ L "</pre>") with (ch_lt :: L "pre>" ++ body ++ L "</pre>") in E1 |- *. cbn [NCRichText.drawLoop]. by rewrite E1. }
  cbn [obind]. unfold NCRichText.PadBOL. rewrite H2. simpl negb. cbv iota. eexists. split; [done|]. simpl. rewrite H1, H3. split; [done|].
  by apply layout_cols.
Qed.

End drawing.

End NCRichText.

(** ** Concrete texts *)

Module RichTextSamples.
Import NCRichText.

(** ASCII, and wide characters from the Hangul letters on. *)
Definition wcwidth (c : Z) : Z :=
  if (32 <=? c) && (c <=? 126) then 1 else if 4352 <=? c then 2 else if c =? 0 then 0 else -1.
Definition iswprint (c : Z) : bool := 0 <? wcwidth c.

(** The cells of a terminal that goes on in the next line. *)
Definition place (w : Z) (at_ : Z * Z) (c : Z) : (Z * Z) * (Z * Z) :=
  let '(y, x) := at_ in
  let n := wcwidth c in
  if x + n <? w then ((y, x), (y, x + n))
  else if x + n =? w then ((y, x), (y + 1, 0))
  else ((y + 1, 0), (y + 1, n)).

Lemma sample_locale : locale iswprint wcwidth.
Proof.
  constructor; unfold iswprint; intros c; unfold wcwidth; destruct (Z.leb_spec 32 c), (Z.leb_spec c 126), (Z.leb_spec 4352 c), (Z.eqb_spec c 0);
    simpl; try done; lia.
Defined.

Lemma sample_terminal : terminal wcwidth place.
Proof.
  constructor; intros w y x c Hc Hx; unfold place; cbv zeta.
  - by destruct (Z.ltb_spec (x + wcwidth c) w); [|lia].
  - destruct (Z.ltb_spec (x + wcwidth c) w); [lia|]. by destruct (Z.eqb_spec (x + wcwidth c) w).
  - destruct (Z.ltb_spec (x + wcwidth c) w); [lia|]. by destruct (Z.eqb_spec (x + wcwidth c) w); [lia|].
Defined.

Definition product : list Z := L "SUSE".
Definition draw (old : rich) (s : list Z) : outcome rich :=
  DrawHTMLPad iswprint wcwidth asciiLower 8 place product (fun c => c) (resizedHeight 32767) 2 old s.

Lemma product_plain : (ch_semicolon ∉ product) /\ (ch_hash ∉ product) /\ Forall (fun c => 0 <= wcwidth c) product.
Proof. split; [by apply (bool_decide_unpack _)|]. split; [by apply (bool_decide_unpack _)|by repeat constructor]. Defined.

(** The texts of two drawings, one after the other. *)
Definition drawTwice (s1 s2 : list Z) : outcome rich := let! r := draw (newRich 20 2) s1 in draw r s2.

(** The attributes that a text leaves open are not reset: the same text is
    drawn in another style if it is drawn a second time. *)
Theorem attributes_left :
  (let! r := draw (newRich 20 2) (L "<b>x <i>y") in Done (map pstyle (puts r))) = Done [SB; SB; SBI] /\
  (let! r := draw (newRich 20 2) (L "a<i>b") in Done (map pstyle (puts r))) = Done [SPlain; SI] /\
  (let! r := drawTwice (L "<b>x <i>y") (L "a<i>b") in Done (map pstyle (puts r))) = Done [SPlain; SBI].
Proof. by vm_compute. Qed.

(** The end of preformatted text is searched behind the end of the text if the
    end tag is missing, is written with capital letters, or follows at
    once. *)
Theorem pre_end_missed :
  draw (newRich 20 2) (L "<pre>abc") = Undefined /\
  draw (newRich 20 2) (L "<pre>abc</PRE>") = Undefined /\
  draw (newRich 20 2) (L "<pre></pre>") = Undefined.
Proof. by vm_compute. Qed.

(** A wide character that does not fit into the last column is shown at the
    start of the next line, and the next character is written over it. *)
Theorem wide_overwritten :
  (let! r := draw (newRich 3 2) [19968; 19969; 19970] in Done (map (fun p => (prow p, pcol p, pchar p)) (puts r))) =
  Done [(0, 0, 19968); (1, 0, 19969); (1, 0, 19970)].
Proof. by vm_compute. Qed.

(** Numeric entities are cut to eight bits, and a leading zero makes them octal:
    the euro sign becomes the character 172 and number 042 the character 34. *)
Theorem numeric_entities widen product :
  entity product widen (L "#8364") = entity product widen (L "#172") /\ entity product widen (L "#042") = entity product widen (L "#34").
Proof. by vm_compute. Qed.

(** The tag of a list item at the end of a text that has no text is below the
    last line of the pad. *)
Theorem last_item_cut :
  (let! r := draw (newRich 20 2) (L "a<br>b<ul><li>") in Done (height r, map prow (puts r))) = Done (2, [0; 1; 2; 2; 2; 2]).
Proof. by vm_compute. Qed.

(** A height above the limit becomes a page. *)
Theorem pad_limit :
  (let! r := DrawHTMLPad iswprint wcwidth asciiLower 8 place product (fun c => c) (resizedHeight 3) 2
     (newRich 20 2) (L "a<br>b<br>c") in Done (height r)) = Done 3 /\
  resizedHeight 3 4 = 1024 /\ resizedHeight 32767 32768 = 1024.
Proof. by vm_compute. Qed.

(** The lines of the sample texts. *)
Lemma few_lines text n : match DrawHTMLPad iswprint wcwidth asciiLower 8 place product (fun c => c) unlimited 2 (newRich 20 2) text with
                         | Done r => cl r | _ => 0 end = n -> n + 2 <= 32767 ->
  manageable iswprint wcwidth asciiLower 8 place product (fun c => c) 2 32767 (newRich 20 2) text.
Proof. intros E Hn r Hr. rewrite Hr in E. unfold fitting. by rewrite E. Qed.


Lemma rich_text_witness : exists r, draw (newRich 20 2) (escape (L "a < b & c")) = Done r /\
  visible (map pchar (puts r)) = visible (L "a < b & c") /\ StronglySorted posBefore (puts r) /\ Forall (inside wcwidth 20 (cl r)) (puts r) /\
  Forall (fun p => prow p < height r) (puts r).
Proof.
  apply (rich_text iswprint wcwidth asciiLower 8 place product (fun c => c) 2 20 sample_locale sample_terminal);
    [lia|lia|lia|apply product_plain|lia|reflexivity|simpl; lia|reflexivity| |].
  - unfold printable, narrow. apply (bool_decide_unpack _). vm_compute. exact I.
  - apply (few_lines _ 1); [vm_compute; reflexivity|lia].
Defined.

Lemma pre_drawn_witness : exists r, DrawHTMLPad iswprint wcwidth asciiLower 8 place product (fun c => c) unlimited 2 (newRich 3 2) (L "<pre>" ++ (L "abcdef" ++ NCtext.newline :: L "g  h") ++ L "</pre>") = Done r /\
  puts r = layout 0 0 (L "abcdef" ++ NCtext.newline :: L "g  h") /\ Forall (fun p => 0 <= pcol p < textwidth r) (puts r).
Proof.
  apply (pre_drawn iswprint wcwidth asciiLower 8 place product (fun c => c) 2 3 sample_locale sample_terminal); try done; [apply product_plain|].
  unfold preChar, narrow. apply (bool_decide_unpack _). vm_compute. exact I.
Defined.

Lemma word_placed_witness : exists r', PadTXT iswprint wcwidth 8 place product (fun c => c) unlimited 2 (newRich 20 2) (L "a&amp;b") = Done r' /\
  puts r' = cells 0 0 SPlain (L "a&b").
Proof.
  assert (inv wcwidth 20 (newRich 20 2)) as Hi by (constructor; [constructor|..]; simpl; try done; lia).
  assert (Forall (narrow wcwidth) (L "a&b")) as Hn by (unfold narrow; apply (bool_decide_unpack _); vm_compute; exact I).
  apply (proj1 (word_placed iswprint wcwidth 8 place product (fun c => c) 2 20 sample_locale sample_terminal ltac:(lia) ltac:(lia)
    (newRich 20 2) (L "a&amp;b") (L "a&b") Hi ltac:(by vm_compute) Hn)). vm_compute. done.
Defined.

Lemma entity_cache_witness : exists t t' s, filterEntities product (fun c => c) ∅ (L "&#42;") = Done (t, s) /\
  filterEntities product (fun c => c) (lookedUp product (fun c => c) [L "#42"; L "lt"]) (L "&#42;") = Done (t', s).
Proof. apply entity_cache. apply product_plain. Defined.

Lemma entities_roundtrip_witness : exists t, filterEntities product (fun c => c) ∅ (escape (L "a<b&amp;")) = Done (t, L "a<b&amp;").
Proof. apply entities_roundtrip. apply product_plain. Defined.

End RichTextSamples.
