(* ===== verification/RichLinks.v ===== *)
(** * The links of a formatted text

    src/libyui-ncurses/src/NCRichText.cc: which link is armed while a text is
    scrolled, and the keys that go from link to link. Scrolling the pad calls
    [VScroll], which arms a link, which updates the pad, which calls [VScroll]
    again; the fuel bounds this depth. *)

From S2P Require Import Prelude Position Pad RichText.
From stdpp Require Import gmap.
Import Wpos.

Local Open Scope Z_scope.

Module RichLinks.
Import NCRichText.

Abbreviation pad := NCPad.pad.
Abbreviation key := NCPad.key.

(** The members that handle the links. [lit] tells of each anchor whether it
    was drawn as the armed one at last; [armed] is [None] for [unset]. *)
Record links := Links {
  lpad : option pad;
  plainText : bool;
  lanchors : list Anchor;
  armed : option nat;
  vScrollFirstvisible : Z;
  vScrollNextinvisible : Z;
  lit : list bool }.

Definition withPad (s : links) (p : pad) : links :=
  Links (Some p) (plainText s) (lanchors s) (armed s) (vScrollFirstvisible s) (vScrollNextinvisible s) (lit s).
Definition withArmed (s : links) (i : option nat) (l : list bool) : links :=
  Links (lpad s) (plainText s) (lanchors s) i (vScrollFirstvisible s) (vScrollNextinvisible s) l.
Definition withVisible (s : links) (first next : Z) : links :=
  Links (lpad s) (plainText s) (lanchors s) (armed s) first next (lit s).

(** A line that was not set is the largest number. *)
Definition unset : Z := 2 ^ 32 - 1.
Definition startLine (a : Anchor) : Z := default unset (sline a).
Definition endLine (a : Anchor) : Z := default unset (eline a).
Definition within (a : Anchor) (firstvisible nextinvisible : Z) : bool :=
  (startLine a <? nextinvisible) && (firstvisible <=? endLine a).

(** [anchors[i]]; behind the end it is undefined. *)
Definition anchorAt (s : links) (i : nat) : outcome Anchor :=
  match lanchors s !! i with Some a => Done a | None => Undefined end.

(** The first index of an anchor with a property. *)
Fixpoint findFrom (P : Anchor -> bool) (i : nat) (l : list Anchor) : option nat :=
  match l with
  | [] => None
  | a :: l' => if P a then Some i else findFrom P (S i) l'
  end.
Definition findFirst (P : Anchor -> bool) (l : list Anchor) : option nat := findFrom P 0 l.
Fixpoint findLast (P : Anchor -> bool) (l : list Anchor) (n : nat) : option nat :=
  match n with
  | O => None
  | S i => match l !! i with Some a => if P a then Some i else findLast P l i | None => None end
  end.

(** What the calls of a pad make of the state. *)
Fixpoint scrolled (V : links -> Z -> Z -> outcome links) (s : links) (effs : list NCPad.effect) : outcome links :=
  match effs with
  | [] => Done s
  | NCPad.VSet _ v b :: effs' => let! s := V s v b in scrolled V s effs'
  | _ :: effs' => scrolled V s effs'
  end.

(** [myPad()->update()]. *)
Definition updatePad (V : links -> Z -> Z -> outcome links) (s : links) : outcome links :=
  match lpad s with
  | Some p => let '(q, effs) := NCPad.update p in scrolled V (withPad s q) effs
  | None => Undefined
  end.

(** [VScroll], where arming a link is given. *)
Definition VScrollBy (arm : links -> option nat -> outcome links) (s : links) (visible start : Z) : outcome links :=
  if plainText s || bool_decide (lanchors s = []) then Done s
  else
    let s := withVisible s start (start + visible) in
    let armFirst s :=
      match findFirst (fun a => within a (vScrollFirstvisible s) (vScrollNextinvisible s)) (lanchors s) with
      | Some i => arm s (Some i)
      | None => Done s
      end in
    match armed s with
    | Some a =>
        let! x := anchorAt s a in
        if within x (vScrollFirstvisible s) (vScrollNextinvisible s) then Done s
        else let! s := arm s None in armFirst s
    | None => armFirst s
    end.

Fixpoint arm (fuel : nat) (s : links) (i : option nat) : outcome links :=
  match fuel with
  | O => NoFuel
  | S f =>
      match lpad s with
      | None => Done (withArmed s i (lit s))
      | Some _ =>
          if bool_decide (i = armed s) then
            match armed s with
            | Some a => let! _ := anchorAt s a in updatePad (VScrollBy (arm f)) (withArmed s (Some a) (<[a := true]> (lit s)))
            | None => Done s
            end
          else
            let! s := match armed s with
                      | Some a => let! _ := anchorAt s a in Done (withArmed s None (<[a := false]> (lit s)))
                      | None => Done s
                      end in
            let! s := match i with
                      | Some n => let! _ := anchorAt s n in Done (withArmed s (Some n) (<[n := true]> (lit s)))
                      | None => Done s
                      end in
            updatePad (VScrollBy (arm f)) s
      end
  end.

Definition VScroll (fuel : nat) : links -> Z -> Z -> outcome links := VScrollBy (arm fuel).

(** The depth of the calls: a link that is no longer visible is disarmed, the
    first visible one is armed, and that is found to be visible. *)
Definition depth : nat := 3.

(** [NCPadWidget::handleInput( key )]. *)
Definition padInput (s : links) (k : key) : outcome (links * bool) :=
  match lpad s with
  | None => Undefined
  | Some p =>
      let! r := NCPad.handleInput p k in
      let! s' := scrolled (VScroll depth) (withPad s (fst (fst r))) (snd (fst r)) in
      Done (s', snd r)
  end.

(** [myPad()->ScrlLine( l )]. *)
Definition scrollTo (s : links) (l : Z) : outcome links :=
  match lpad s with
  | None => Undefined
  | Some p => let '(q, effs) := NCPad.ScrlLine p l in scrolled (VScroll depth) (withPad s q) effs
  end.

(** The end of the cases [KEY_LEFT] and [KEY_RIGHT]. *)
Definition jump (s : links) (newarmed : option nat) (k : key) : outcome (links * bool) :=
  match newarmed with
  | None => padInput s k
  | Some n =>
      let! a := anchorAt s n in
      let! s := if negb (within a (vScrollFirstvisible s) (vScrollNextinvisible s)) then scrollTo s (startLine a) else Done s in
      let! s := arm depth s (Some n) in
      Done (s, true)
  end.

(** Arm a neighbour of the armed link if it is visible, and scroll otherwise. *)
Definition stepTo (s : links) (n : nat) (k : key) : outcome (links * bool) :=
  let! a := anchorAt s n in
  if within a (vScrollFirstvisible s) (vScrollNextinvisible s)
  then let! s := arm depth s (Some n) in Done (s, true)
  else padInput s k.

Definition handleInput (s : links) (k : key) : outcome (links * bool) :=
  if plainText s || bool_decide (lanchors s = []) then padInput s k
  else
    match k with
    | NCPad.KEY_LEFT =>
        jump s (match armed s with
                | None => findLast (fun a => endLine a <? vScrollFirstvisible s) (lanchors s) (length (lanchors s))
                | Some (S a) => Some a
                | Some O => None
                end) NCPad.KEY_UP
    | NCPad.KEY_RIGHT =>
        jump s (match armed s with
                | None => findFirst (fun a => vScrollNextinvisible s <=? startLine a) (lanchors s)
                | Some a => if bool_decide (a + 1 < length (lanchors s))%nat then Some (a + 1)%nat else None
                end) NCPad.KEY_DOWN
    | NCPad.KEY_UP =>
        match armed s with
        | Some (S a) => stepTo s a k
        | _ => padInput s k
        end
    | NCPad.KEY_DOWN =>
        match armed s with
        | Some a => if bool_decide (a + 1 < length (lanchors s))%nat then stepTo s (a + 1) k else padInput s k
        | None => padInput s k
        end
    | _ => padInput s k
    end.

(** [wHandleInput]: the target of the armed link for the space bar and the
    return key. *)
Inductive wkey := KEY_SPACE | KEY_RETURN | PadKey (k : key).

Definition padKeyOf (k : wkey) : key := match k with PadKey k => k | _ => NCPad.KEY_OTHER end.

Definition wHandleInput (s : links) (k : wkey) : outcome (links * option (list Z)) :=
  let! r := handleInput s (padKeyOf k) in
  let s := fst r in
  if plainText s || bool_decide (lanchors s = []) then Done (s, None)
  else
    match k, armed s with
    | PadKey _, _ | _, None => Done (s, None)
    | _, Some a => let! x := anchorAt s a in Done (s, Some (target x))
    end.

(** The pad of a drawn text is shown in a window. *)
Definition show (s : links) (w : NCPad.window) : outcome links :=
  match lpad s with
  | None => Undefined
  | Some p => let '(q, effs) := NCPad.setDestwin p (Some w) in scrolled (VScroll depth) (withPad s q) effs
  end.

(** ** Scrolling *)

Lemma scrolled_quiet V s effs : Forall (fun e => match e with NCPad.VSet _ _ _ => False | _ => True end) effs -> scrolled V s effs = Done s.
Proof. induction 1 as [|e effs He _ IH]; [done|]. by destruct e. Qed.

Lemma scrolled_paint V s p :
  scrolled V s (NCPad.paint p) = V s (sH (Sze (NCPad.srect p))) (pL (Pos (NCPad.srect p))).
Proof.
  unfold NCPad.paint, NCPad.updateScrollHint. set (rest := if negb _ then _ else _).
  assert (scrolled V s ([NCPad.VSet (sH (Sze (NCPad.srect p)) + pL (NCPad.maxspos p)) (sH (Sze (NCPad.srect p))) (pL (Pos (NCPad.srect p)));
    NCPad.HSet (sW (Sze (NCPad.srect p)) + pC (NCPad.maxspos p)) (sW (Sze (NCPad.srect p))) (pC (Pos (NCPad.srect p)))] ++ rest) =
    V s (sH (Sze (NCPad.srect p))) (pL (Pos (NCPad.srect p)))) as E.
  { simpl. destruct (V s _ _) as [s'| | |]; try done. simpl. apply scrolled_quiet. unfold rest.
    destruct (negb _); [by repeat constructor|]. apply Forall_app. split; [|by repeat constructor].
    apply List.Forall_map, List.Forall_forall. done. }
  by destruct (NCPad.dclear p).
Qed.

(** A pad that is shown in a window. *)
Record onScreen (p : pad) : Prop := OnScreen {
  os_ok : NCPad.ok p;
  os_clean : NCPad.dirty p = false;
  os_window : exists w, NCPad.destwin p = Some w /\ 0 < sH (NCPad.wsize w) }.

Definition firstLine (p : pad) : Z := pL (Pos (NCPad.srect p)).
Definition visibleLines (p : pad) : Z := sH (Sze (NCPad.srect p)).

Lemma updatePad_shown V s p : lpad s = Some p -> onScreen p -> updatePad V s = V s (visibleLines p) (firstLine p).
Proof.
  intros Hp [Hok Hc (w & Hw & _)]. unfold updatePad, NCPad.update. rewrite Hp, Hw, Hc, scrolled_paint.
  f_equal. destruct s; simpl in *. by rewrite Hp.
Qed.

(** Which anchors are drawn as armed. *)
Definition litOf (n : nat) (i : option nat) : list bool :=
  match i with None => replicate n false | Some i => <[i := true]> (replicate n false) end.

Lemma lit_off n a : (a < n)%nat -> <[a := false]> (litOf n (Some a)) = litOf n None.
Proof. intros Ha. simpl. rewrite list_insert_insert_eq. apply list_insert_id. by apply lookup_replicate_2. Qed.

Lemma lit_again n a : <[a := true]> (litOf n (Some a)) = litOf n (Some a).
Proof. simpl. by rewrite list_insert_insert_eq. Qed.

Definition visibleNow (p : pad) (a : Anchor) : bool := within a (firstLine p) (firstLine p + visibleLines p).

(** A state in which everything but the choice of the armed link is settled. *)
Record linked (s : links) (p : pad) : Prop := Linked {
  l_pad : lpad s = Some p;
  l_screen : onScreen p;
  l_html : plainText s = false;
  l_some : lanchors s <> [];
  l_armed : match armed s with Some a => (a < length (lanchors s))%nat | None => True end;
  l_lit : lit s = litOf (length (lanchors s)) (armed s) }.

Definition rearmed (s : links) (p : pad) (i : option nat) : links :=
  Links (Some p) false (lanchors s) i (firstLine p) (firstLine p + visibleLines p) (litOf (length (lanchors s)) i).

Definition isVisible (s : links) (p : pad) (i : nat) : Prop := exists a, lanchors s !! i = Some a /\ visibleNow p a = true.

Lemma rearmed_linked s p i : linked s p -> match i with Some a => (a < length (lanchors s))%nat | None => True end -> linked (rearmed s p i) p.
Proof. intros [] Hi. by constructor. Qed.

Lemma anchors_some s p : linked s p -> plainText s || bool_decide (lanchors s = []) = false.
Proof. intros []. by rewrite l_html0, bool_decide_false. Qed.

(** The armed link is visible. *)
Lemma VScroll_stays f s p a : linked s p -> armed s = Some a -> isVisible s p a ->
  VScroll f s (visibleLines p) (firstLine p) = Done (rearmed s p (Some a)).
Proof.
  intros Hl Ha (x & Hx & Hv). unfold VScroll, VScrollBy. rewrite (anchors_some s p Hl). cbn [armed withVisible]. rewrite Ha.
  unfold anchorAt. cbn [lanchors withVisible]. rewrite Hx. cbn [obind vScrollFirstvisible vScrollNextinvisible withVisible].
  unfold visibleNow in Hv. rewrite Hv. destruct Hl as [H1 _ H3 _ _ H6]. rewrite Ha in H6.
  destruct s; simpl in *. by subst.
Qed.

Lemma arm_visible f s p i : linked s p -> isVisible s p i -> arm (S f) s (Some i) = Done (rearmed s p (Some i)).
Proof.
  intros Hl Hv. pose proof Hl as [H1 H2 H3 H4 H5 H6]. pose proof Hv as (x & Hx & _).
  assert (i < length (lanchors s))%nat as Hi by (by eapply lookup_lt_Some).
  assert (forall l, l = litOf (length (lanchors s)) (Some i) ->
    updatePad (VScroll f) (withArmed s (Some i) l) = Done (rearmed s p (Some i))) as Hu.
  { intros l ->. rewrite (updatePad_shown _ _ p) by done. by rewrite (VScroll_stays f _ p i) by (done || by constructor). }
  cbn [arm]. change (VScrollBy (arm f)) with (VScroll f). rewrite H1. case_bool_decide as Ha.
  - rewrite <- Ha in H6 |- *. unfold anchorAt. rewrite Hx. cbn [obind]. apply Hu. by rewrite H6, lit_again.
  - destruct (armed s) as [m|]; unfold anchorAt.
    + destruct (lookup_lt_is_Some_2 _ _ H5) as [y ->]. cbn [obind lanchors withArmed]. rewrite Hx. cbn [obind].
      apply (Hu (<[i := true]> (<[m := false]> (lit s)))). by rewrite H6, lit_off.
    + cbn [obind]. rewrite Hx. cbn [obind]. apply Hu. by rewrite H6.
Qed.

Definition firstVisible (s : links) (p : pad) : option nat := findFirst (visibleNow p) (lanchors s).

Lemma findFrom_some P l : forall i n, findFrom P i l = Some n -> exists k a, n = (i + k)%nat /\ l !! k = Some a /\ P a = true.
Proof.
  induction l as [|a l IH]; intros i n; simpl; [done|]. destruct (P a) eqn:E.
  - intros [= <-]. exists O, a. split; [lia|done].
  - intros (k & b & -> & H1 & H2)%IH. exists (S k), b. split; [lia|done].
Qed.

Lemma findFrom_none P l : forall i, findFrom P i l = None -> Forall (fun a => P a = false) l.
Proof.
  induction l as [|a l IH]; intros i; simpl; [constructor|]. destruct (P a) eqn:E; [done|]. intros H%IH. by constructor.
Qed.

Lemma firstVisible_some s p i : firstVisible s p = Some i -> isVisible s p i.
Proof. intros (k & a & -> & H1 & H2)%findFrom_some. by exists a. Qed.

(** No link is armed. *)
Lemma VScroll_unarmed f s p : linked s p -> armed s = None ->
  VScroll (S f) s (visibleLines p) (firstLine p) = Done (rearmed s p (firstVisible s p)).
Proof.
  intros Hl Ha. remember (S f) as g. unfold VScroll, VScrollBy. rewrite (anchors_some s p Hl). cbn [armed withVisible]. rewrite Ha.
  cbn [lanchors vScrollFirstvisible vScrollNextinvisible withVisible].
  change (findFirst _ (lanchors s)) with (firstVisible s p). destruct (firstVisible s p) as [i|] eqn:E.
  - subst g. apply firstVisible_some in E. rewrite (arm_visible f _ p i); [done| |done].
    destruct Hl. by constructor.
  - destruct Hl as [H1 _ H3 _ _ H6]. rewrite Ha in H6. destruct s; simpl in *. by subst.
Qed.

Lemma disarm f s p a : linked s p -> armed s = Some a ->
  arm (S (S f)) s None = Done (rearmed s p (firstVisible s p)).
Proof.
  intros Hl Ha. pose proof Hl as [H1 H2 H3 H4 H5 H6]. rewrite Ha in H5, H6. remember (S f) as g. cbn [arm]. change (VScrollBy (arm g)) with (VScroll g).
  rewrite H1, Ha, bool_decide_false by done. unfold anchorAt.
  destruct (lookup_lt_is_Some_2 _ _ H5) as [x ->]. cbn [obind]. rewrite (updatePad_shown _ _ p) by done. subst g.
  rewrite VScroll_unarmed; [done| |done]. constructor; try done. simpl. by rewrite H6, lit_off.
Qed.

(** The link that is armed after scrolling: the one that was, if it is visible,
    and otherwise the first visible one. *)
Definition settled (s : links) (p : pad) : option nat :=
  match armed s with
  | Some a => match lanchors s !! a with
              | Some x => if visibleNow p x then Some a else firstVisible s p
              | None => None
              end
  | None => firstVisible s p
  end.

Lemma VScroll_settles f s p : linked s p ->
  VScroll (S (S f)) s (visibleLines p) (firstLine p) = Done (rearmed s p (settled s p)).
Proof.
  intros Hl. unfold settled. destruct (armed s) as [a|] eqn:Ha; [|by apply VScroll_unarmed].
  pose proof (l_armed _ _ Hl) as Hlt. rewrite Ha in Hlt. destruct (lookup_lt_is_Some_2 _ _ Hlt) as [x Hx]. rewrite Hx.
  destruct (visibleNow p x) eqn:E; [by apply VScroll_stays; [|done|exists x]|].
  remember (S (S f)) as g. unfold VScroll, VScrollBy. rewrite (anchors_some s p Hl). cbn [armed withVisible]. rewrite Ha. unfold anchorAt.
  cbn [lanchors withVisible]. rewrite Hx. cbn [obind vScrollFirstvisible vScrollNextinvisible withVisible].
  unfold visibleNow in E. rewrite E. subst g. rewrite (disarm f _ p a); [|destruct Hl; by constructor|done]. cbn [obind].
  change (findFirst _ _) with (firstVisible s p) at 1. change (firstVisible (withVisible _ _ _) p) with (firstVisible s p).
  destruct (firstVisible s p) as [i|] eqn:Ei; [|done]. pose proof (firstVisible_some _ _ _ Ei) as Hv.
  rewrite (arm_visible (S f) _ p i); [done| |done]. apply (rearmed_linked (withVisible s (firstLine p) (firstLine p + visibleLines p))).
  - destruct Hl; by constructor.
  - destruct Hv as (y & Hy & _). by eapply lookup_lt_Some.
Qed.

(** ** Keys *)

(** An anchor with its lines, which starts on the pad. *)
Definition onPad (lines : Z) (a : Anchor) : Prop :=
  exists sl el, sline a = Some sl /\ eline a = Some el /\ 0 <= sl <= el /\ sl < lines.

(** Between two keys: if any link is visible one is armed, it is visible, and it
    alone is drawn as armed. *)
Record inv (s : links) (p : pad) : Prop := Inv {
  i_linked : linked s p;
  i_known : s = rearmed s p (armed s);
  i_settled : settled s p = armed s;
  i_anchors : Forall (onPad (NCPad.vheight p)) (lanchors s) }.

Lemma settled_visible s p a : settled s p = Some a -> isVisible s p a.
Proof.
  unfold settled. destruct (armed s) as [b|]; [|apply firstVisible_some]. destruct (lanchors s !! b) as [x|] eqn:E; [|done].
  destruct (visibleNow p x) eqn:Ev; [|apply firstVisible_some]. intros [= <-]. by exists x.
Qed.

Lemma visible_lt s p i : isVisible s p i -> (i < length (lanchors s))%nat.
Proof. intros (a & Ha & _). by eapply lookup_lt_Some. Qed.

(** The state after [VScroll]. *)
Lemma rearmed_inv s p i : linked s p -> Forall (onPad (NCPad.vheight p)) (lanchors s) ->
  (forall a, i = Some a -> isVisible s p a) -> (i = None -> firstVisible s p = None) -> inv (rearmed s p i) p.
Proof.
  intros Hl HF Hs Hn. constructor; [|done| |done].
  - apply rearmed_linked; [done|]. destruct i; [|done]. by eapply visible_lt, Hs.
  - unfold settled. cbn [armed rearmed lanchors]. destruct i as [a|]; [|by apply Hn].
    destruct (Hs a eq_refl) as (x & -> & ->). done.
Qed.

Lemma settled_none s p : linked s p -> settled s p = None -> firstVisible s p = None.
Proof.
  intros Hl. unfold settled. destruct (armed s) as [a|] eqn:E; [|done]. pose proof (l_armed _ _ Hl) as Ha. rewrite E in Ha.
  destruct (lookup_lt_is_Some_2 _ _ Ha) as [x ->]. by destruct (visibleNow p x).
Qed.

Lemma settles_inv s p : linked s p -> Forall (onPad (NCPad.vheight p)) (lanchors s) -> inv (rearmed s p (settled s p)) p.
Proof.
  intros Hl HF. apply rearmed_inv; [done|done|intros a; apply settled_visible|by apply settled_none].
Qed.

(** Scrolling to a place. *)
Lemma setpos_inv s p pos : inv s p -> exists q s',
  scrolled (VScroll depth) (withPad s (NCPad.setpos p pos).1) (NCPad.setpos p pos).2 = Done s' /\ inv s' q /\ lanchors s' = lanchors s /\
  NCPad.vheight q = NCPad.vheight p /\ (0 < NCPad.vheight p -> 0 < visibleLines q) /\
  firstLine q = Z.min (Z.max (pL pos) 0) (NCPad.vheight p - visibleLines q).
Proof.
  intros [Hl Hk Hs HF]. pose proof (l_screen _ _ Hl) as [Hok Hc (w & Hw & Hpos)].
  destruct (NCPad.setpos_shown p w pos Hok Hw) as (q & E & Hq & Hwq & Hcq & Hdq & _ & Hp). rewrite E. cbn [fst snd].
  injection Hcq as Hvh _. pose proof (NCPad.sh_size _ _ (proj2 (NCPad.ok_shown _ Hq w Hwq))) as Hsz.
  assert (linked (withPad s q) q) as Hl'. { destruct Hl. constructor; try done. constructor; try done. by exists w. }
  exists q, (rearmed (withPad s q) q (settled (withPad s q) q)). rewrite scrolled_paint.
  split; [by apply (VScroll_settles 1)|]. split; [apply settles_inv; [done|by rewrite Hvh]|]. split; [done|]. split; [done|].
  unfold visibleLines, firstLine. rewrite Hp, Hsz, between_spec, !min_spec. unfold NCPad.contents. simpl. rewrite Hvh. lia.
Qed.

(** A key that only scrolls. *)
Lemma padInput_inv s p k : inv s p -> exists q s' handled,
  padInput s k = Done (s', handled) /\ inv s' q /\ lanchors s' = lanchors s /\ NCPad.vheight q = NCPad.vheight p.
Proof.
  intros Hi. pose proof (l_screen _ _ (i_linked _ _ Hi)) as [_ _ (w & Hw & _)].
  assert (NCPad.handleInput p k = Done ((p, []), false) \/ exists pos, NCPad.handleInput p k = Done (NCPad.setpos p pos, true)) as [E|(pos & E)].
  { destruct k; unfold NCPad.handleInput, NCPad.page, NCPad.ScrlUp, NCPad.ScrlDown, NCPad.ScrlLeft, NCPad.ScrlRight, NCPad.adjpos;
      rewrite ?Hw; cbn [obind]; eauto. }
  - exists p, s, false. unfold padInput. rewrite (l_pad _ _ (i_linked _ _ Hi)), E. cbn [obind fst snd scrolled].
    split; [|done]. do 2 f_equal. pose proof (l_pad _ _ (i_linked _ _ Hi)). destruct s; simpl in *. by subst.
  - destruct (setpos_inv s p pos Hi) as (q & s' & E' & H1 & H2 & H3 & _). exists q, s', true. unfold padInput.
    rewrite (l_pad _ _ (i_linked _ _ Hi)), E. cbn [obind fst snd]. rewrite E'. done.
Qed.

(** A visible link is armed. *)
Lemma arm_inv s p n : inv s p -> isVisible s p n ->
  arm depth s (Some n) = Done (rearmed s p (Some n)) /\ inv (rearmed s p (Some n)) p.
Proof.
  intros Hi Hv. split; [by apply (arm_visible 2); [apply Hi|]|]. apply rearmed_inv; [apply Hi|apply Hi|by intros a [= <-]|done].
Qed.

Lemma known_visible s p : inv s p -> vScrollFirstvisible s = firstLine p /\ vScrollNextinvisible s = firstLine p + visibleLines p.
Proof. intros [_ -> _ _]. done. Qed.

(** Going to a link arms it, wherever it is. *)
Lemma jump_inv s p n k : inv s p -> (n < length (lanchors s))%nat -> exists q s',
  jump s (Some n) k = Done (s', true) /\ inv s' q /\ armed s' = Some n /\ isVisible s' q n /\ lanchors s' = lanchors s /\
  NCPad.vheight q = NCPad.vheight p.
Proof.
  intros Hi Hn. destruct (lookup_lt_is_Some_2 _ _ Hn) as [a Ha]. unfold jump, anchorAt. rewrite Ha. cbn [obind].
  destruct (known_visible s p Hi) as [-> ->]. change (within a (firstLine p) (firstLine p + visibleLines p)) with (visibleNow p a).
  assert (exists q s1, (if negb (visibleNow p a) then scrollTo s (startLine a) else Done s) = Done s1 /\ inv s1 q /\
    lanchors s1 = lanchors s /\ NCPad.vheight q = NCPad.vheight p /\ visibleNow q a = true) as (q & s1 & -> & H1 & H2 & H3 & H4).
  { destruct (visibleNow p a) eqn:Ev; [by exists p, s|]. cbn [negb]. unfold scrollTo. rewrite (l_pad _ _ (i_linked _ _ Hi)).
    unfold NCPad.ScrlLine. destruct (setpos_inv s p (WPair (startLine a) (pC (Pos (NCPad.srect p)))) Hi) as (q & s1 & E & H1 & H2 & H3 & H4 & H5).
    destruct (NCPad.setpos _ _) as [q' effs]. exists q, s1. split; [exact E|]. split; [done|]. split; [done|]. split; [done|].
    destruct (Forall_at _ _ _ (i_anchors _ _ Hi) (list_elem_of_lookup_2 _ _ _ Ha)) as (sl & el & Es & Ee & Hle & Hlt).
    unfold visibleNow, within, startLine, endLine. unfold startLine in H5. rewrite Es, Ee. simpl in *. rewrite Es in H5. simpl in H5.
    apply andb_true_intro. split; [apply Z.ltb_lt|apply Z.leb_le]; lia. }
  cbn [obind]. assert (isVisible s1 q n) as Hv by (exists a; by rewrite H2). destruct (arm_inv s1 q n H1 Hv) as [-> Hr]. cbn [obind].
  exists q, (rearmed s1 q (Some n)). done.
Qed.

Lemma stepTo_inv s p n k : inv s p -> (n < length (lanchors s))%nat -> exists q s' handled,
  stepTo s n k = Done (s', handled) /\ inv s' q /\ lanchors s' = lanchors s /\ NCPad.vheight q = NCPad.vheight p.
Proof.
  intros Hi Hn. destruct (lookup_lt_is_Some_2 _ _ Hn) as [a Ha]. unfold stepTo, anchorAt. rewrite Ha. cbn [obind].
  destruct (known_visible s p Hi) as [-> ->]. destruct (within a _ _) eqn:Ev; [|by apply padInput_inv].
  destruct (arm_inv s p n Hi) as [-> Hr]; [by exists a|]. cbn [obind]. by exists p, (rearmed s p (Some n)), true.
Qed.

Lemma findLast_lt P l n : forall i, findLast P l n = Some i -> (i < length l)%nat.
Proof.
  induction n as [|n IH]; intros i; simpl; [done|]. destruct (l !! n) as [a|] eqn:E; [|done]. destruct (P a); [|apply IH].
  intros [= <-]. by eapply lookup_lt_Some.
Qed.

Lemma findFirst_lt P l i : findFirst P l = Some i -> (i < length l)%nat.
Proof. intros (k & a & -> & H & _)%findFrom_some. by eapply lookup_lt_Some. Qed.

Lemma handleInput_inv s p k : inv s p -> exists q s' handled,
  handleInput s k = Done (s', handled) /\ inv s' q /\ lanchors s' = lanchors s /\ NCPad.vheight q = NCPad.vheight p.
Proof.
  intros Hi. unfold handleInput. rewrite (anchors_some s p (i_linked _ _ Hi)).
  assert (forall o k, (forall n, o = Some n -> (n < length (lanchors s))%nat) -> exists q s' handled,
    jump s o k = Done (s', handled) /\ inv s' q /\ lanchors s' = lanchors s /\ NCPad.vheight q = NCPad.vheight p) as Hj.
  { intros [n|] k' Hn; [|by apply padInput_inv]. destruct (jump_inv s p n k' Hi (Hn n eq_refl)) as (q & s' & ? & ? & ? & ? & ? & ?).
    by exists q, s', true. }
  pose proof (l_armed _ _ (i_linked _ _ Hi)) as Ha. destruct k; try by apply padInput_inv.
  - destruct (armed s) as [[|a]|]; [by apply padInput_inv| |by apply padInput_inv]. apply stepTo_inv; [done|lia].
  - destruct (armed s) as [a|]; [|by apply padInput_inv]. case_bool_decide; [by apply stepTo_inv|by apply padInput_inv].
  - apply Hj. intros n. destruct (armed s) as [[|a]|]; [done|intros [= <-]; lia|apply findLast_lt].
  - apply Hj. intros n. destruct (armed s) as [a|]; [case_bool_decide; [|done]; by intros [= <-]|apply findFirst_lt].
Qed.

(** *** From the first drawing on *)

Inductive key_step : links -> links -> Prop :=
| press s k s' handled : handleInput s k = Done (s', handled) -> key_step s s'.

(** The state after [DrawHTMLPad]: the pad is not shown yet and no link is
    armed. *)
Record drawn (s : links) (p : pad) (w : NCPad.window) : Prop := Drawn {
  d_pad : lpad s = Some p;
  d_size : NCPad.nonneg (NCPad.contents p) /\ NCPad.nonneg (NCPad.wsize w) /\ 0 < sH (NCPad.wsize w);
  d_height : NCPad.paging p = true -> NCPad.height p = NCPad.PAD_PAGESIZE;
  d_hidden : NCPad.destwin p = None;
  d_html : plainText s = false;
  d_some : lanchors s <> [];
  d_anchors : Forall (onPad (NCPad.vheight p)) (lanchors s);
  d_armed : armed s = None;
  d_lit : lit s = replicate (length (lanchors s)) false }.

Lemma show_inv s p w : drawn s p w -> exists q s', show s w = Done s' /\ inv s' q /\ lanchors s' = lanchors s /\ NCPad.vheight q = NCPad.vheight p.
Proof.
  intros [H1 (H2 & H3 & H4) H5 H6 H7 H8 H9 H10 H11].
  pose proof (NCPad.attach_ok p w H2 H5 H3) as Hq. set (q0 := NCPad.attach p w) in *.
  destruct (NCPad.setpos_shown q0 w (NCPad.CurPos q0) Hq eq_refl) as (q & E & Hok & Hw & Hcq & Hd & _). injection Hcq as Hvh _.
  unfold show. rewrite H1. unfold NCPad.setDestwin. rewrite bool_decide_false by (rewrite H6; done). fold q0. rewrite E, scrolled_paint.
  assert (linked (withPad s q) q) as Hl.
  { constructor; try done; [constructor; try done; by exists w|..]; simpl; by rewrite H10. }
  exists q, (rearmed (withPad s q) q (settled (withPad s q) q)). split; [by apply (VScroll_settles 1)|].
  split; [|done]. apply settles_inv; [done|]. simpl. by rewrite Hvh.
Qed.

(** C18: Whatever keys are pressed: a link that is armed is visible and is the only
    one that is drawn as armed, and none is armed only if none is visible. *)
Theorem links_armed s0 p0 w s1 s : drawn s0 p0 w -> show s0 w = Done s1 -> rtc key_step s1 s ->
  exists p, lpad s = Some p /\ lanchors s = lanchors s0 /\
    lit s = litOf (length (lanchors s)) (armed s) /\
    match armed s with
    | Some i => isVisible s p i
    | None => Forall (fun a => visibleNow p a = false) (lanchors s)
    end.
Proof.
  intros Hd E Hr. destruct (show_inv s0 p0 w Hd) as (q & s' & E' & Hi & Ha & _). rewrite E in E'. injection E' as <-.
  assert (exists p, inv s p /\ lanchors s = lanchors s0) as (p & Hp & Hl).
  { revert Hr. apply (rtc_ind_r (fun s => exists p, inv s p /\ lanchors s = lanchors s0)); [by exists q|].
    intros x y _ [z k y' h Ek] (p & Hp & Hl). destruct (handleInput_inv z p k Hp) as (p' & s2 & h' & Ek' & H1 & H2 & _).
    rewrite Ek in Ek'. injection Ek' as <- _. exists p'. split; [done|congruence]. }
  exists p. split; [apply Hp|]. split; [done|]. split; [apply Hp|]. pose proof (i_settled _ _ Hp) as Hs.
  destruct (armed s) as [i|]; [by apply settled_visible|]. eapply findFrom_none, settled_none; [apply Hp|exact Hs].
Qed.

(** The keys to the left and to the right go from a link to its neighbours,
    scrolling as far as needed. *)
Theorem next_link s p a : inv s p -> armed s = Some a ->
  ((a + 1 < length (lanchors s))%nat -> exists q s', handleInput s NCPad.KEY_RIGHT = Done (s', true) /\ inv s' q /\
     armed s' = Some (a + 1)%nat /\ isVisible s' q (a + 1) /\ lanchors s' = lanchors s) /\
  (forall b, a = S b -> exists q s', handleInput s NCPad.KEY_LEFT = Done (s', true) /\ inv s' q /\
     armed s' = Some b /\ isVisible s' q b /\ lanchors s' = lanchors s).
Proof.
  intros Hi Ha. unfold handleInput. rewrite (anchors_some s p (i_linked _ _ Hi)), Ha.
  pose proof (l_armed _ _ (i_linked _ _ Hi)) as Hlt. rewrite Ha in Hlt. split.
  - intros Hn. rewrite bool_decide_true by done. destruct (jump_inv s p (a + 1) NCPad.KEY_DOWN Hi Hn) as (q & s' & ? & ? & ? & ? & ? & _).
    by exists q, s'.
  - intros b ->. destruct (jump_inv s p b NCPad.KEY_UP Hi ltac:(lia)) as (q & s' & ? & ? & ? & ? & ? & _). by exists q, s'.
Qed.

(** Press a key several times. *)
Fixpoint pressed (n : nat) (k : key) (s : links) : outcome links :=
  match n with O => Done s | S n' => let! r := handleInput s k in pressed n' k (fst r) end.

Lemma links_from s p a n : inv s p -> armed s = Some a -> (a + n < length (lanchors s))%nat ->
  exists s' q, pressed n NCPad.KEY_RIGHT s = Done s' /\ inv s' q /\ armed s' = Some (a + n)%nat /\ lanchors s' = lanchors s.
Proof.
  revert s p a. induction n as [|n IH]; intros s p a Hi Ha Hn; [exists s, p; by rewrite Nat.add_0_r|].
  assert (exists q s', handleInput s NCPad.KEY_RIGHT = Done (s', true) /\ inv s' q /\ armed s' = Some (a + 1)%nat /\ lanchors s' = lanchors s)
    as (q & s1 & E & H1 & H2 & H3).
  { unfold handleInput. rewrite (anchors_some s p (i_linked _ _ Hi)), Ha, bool_decide_true by lia.
    destruct (jump_inv s p (a + 1) NCPad.KEY_DOWN Hi ltac:(lia)) as (q & s' & ? & ? & ? & ? & ? & _). by exists q, s'. }
  destruct (IH s1 q (a + 1)%nat H1 H2) as (s2 & q2 & E2 & H4 & H5 & H6); [rewrite H3; lia|].
  exists s2, q2. cbn [pressed]. rewrite E. cbn [obind fst]. split; [done|]. split; [done|]. rewrite H5, H6.
  split; [f_equal; lia|done].
Qed.

(** C19: If the first link is armed, every link is reached by pressing the key to the
    right as often as there are links before it, and the return key gives its
    target. *)
Theorem links_reached s0 p0 w s1 i a : drawn s0 p0 w -> show s0 w = Done s1 -> armed s1 = Some 0%nat -> lanchors s0 !! i = Some a ->
  exists s2 s3, pressed i NCPad.KEY_RIGHT s1 = Done s2 /\ wHandleInput s2 KEY_RETURN = Done (s3, Some (target a)).
Proof.
  intros Hd E H0 Hl. destruct (show_inv s0 p0 w Hd) as (q & s' & E' & Hi & Hs & _). rewrite E in E'. injection E' as <-.
  assert (i < length (lanchors s1))%nat as Hlt by (rewrite Hs; by eapply lookup_lt_Some).
  destruct (links_from s1 q 0 i Hi H0 Hlt) as (s2 & q2 & E2 & Hi2 & Ha2 & Hs2). exists s2.
  assert (padInput s2 NCPad.KEY_OTHER = Done (s2, false)) as Eo.
  { unfold padInput. pose proof (l_pad _ _ (i_linked _ _ Hi2)) as Hp. rewrite Hp. cbn [NCPad.handleInput obind fst snd scrolled].
    do 2 f_equal. destruct s2; simpl in *. by subst. }
  exists s2. split; [done|]. unfold wHandleInput, handleInput. cbn [padKeyOf]. rewrite (anchors_some s2 q2 (i_linked _ _ Hi2)), Eo.
  cbn [obind fst]. rewrite (anchors_some s2 q2 (i_linked _ _ Hi2)), Ha2. unfold anchorAt. rewrite Hs2, Hs. change (0 + i)%nat with i. by rewrite Hl.
Qed.

(** The links of a text that was drawn. *)
Definition linksOf (MAX_PAD_HEIGHT : Z) (r : rich) : links :=
  Links (Some (NCPad.newPad MAX_PAD_HEIGHT (NCRichText.height r) (textwidth r))) false (anchors r) None 0 0 (replicate (length (anchors r)) false).

End RichLinks.

(** ** A text with three links *)

Module RichLinksSamples.
Import NCRichText RichLinks.

Definition sampleText : list Z := L "<a href=x>one</a><br><br><br><a href=y>two</a><br><br><br><br><br><a href = z>three</a>".
Definition sampleRich : rich :=
  match RichTextSamples.draw (newRich 20 2) sampleText with Done r => r | _ => newRich 20 2 end.
Definition sampleLinks : links := Eval vm_compute in linksOf 32767 sampleRich.
Definition sampleWindow : NCPad.window := NCPad.Window 0 (WPair 2 20).
Definition samplePad : pad := Eval vm_compute in NCPad.newPad 32767 (NCRichText.height sampleRich) (textwidth sampleRich).
Definition shownLinks : links :=
  Eval vm_compute in match show sampleLinks sampleWindow with Done s => s | _ => sampleLinks end.

Lemma sample_of_text : sampleLinks = linksOf 32767 sampleRich.
Proof. by vm_compute. Qed.

Lemma sample_drawn : drawn sampleLinks samplePad sampleWindow.
Proof.
  constructor; try done.
  repeat (apply List.Forall_cons; [eexists _, _; split; [done|]; split; [done|]; by vm_compute|]). apply List.Forall_nil.
Defined.

Lemma links_armed_witness : exists p, lpad shownLinks = Some p /\ lanchors shownLinks = lanchors sampleLinks /\
  lit shownLinks = litOf (length (lanchors shownLinks)) (armed shownLinks) /\
  match armed shownLinks with
  | Some i => isVisible shownLinks p i
  | None => Forall (fun a => visibleNow p a = false) (lanchors shownLinks)
  end.
Proof. apply (links_armed sampleLinks samplePad sampleWindow shownLinks shownLinks sample_drawn); [by vm_compute|apply rtc_refl]. Defined.

Lemma links_reached_witness : exists s2 s3, pressed 2 NCPad.KEY_RIGHT shownLinks = Done s2 /\
  wHandleInput s2 KEY_RETURN = Done (s3, Some (L "z")).
Proof.
  apply (links_reached sampleLinks samplePad sampleWindow shownLinks 2 (MkAnchor (Some 8) (Some 0) (Some 8) (Some 5) (L "z")) sample_drawn);
    by vm_compute.
Defined.

End RichLinksSamples.
