(* ===== verification/NodeTree.v ===== *)
(** * The widget tree of the text mode

    src/libyui-ncurses/src/tnode.h: nodes that are linked to their parent, their
    siblings and their first and last child. The heap of nodes represents a tree;
    [Next] and [Prev] walk through it, and nodes can be added, taken out and
    moved. *)

From S2P Require Import Prelude.
From stdpp Require Import gmap.

Module Tnode.

(** The links of a node; [None] is the null pointer. *)
Record node := Node {
  parent : option nat;
  psibling : option nat;
  nsibling : option nat;
  fchild : option nat;
  lchild : option nat }.

Abbreviation heap := (gmap nat node).

Definition deref (h : heap) (n : nat) : outcome node :=
  match h !! n with Some x => Done x | None => Undefined end.
Definition upd (h : heap) (n : nat) (f : node -> node) : outcome heap :=
  match h !! n with Some x => Done (<[n := f x]> h) | None => Undefined end.

Definition setPsibling (o : option nat) (x : node) : node := Node (parent x) o (nsibling x) (fchild x) (lchild x).
Definition setNsibling (o : option nat) (x : node) : node := Node (parent x) (psibling x) o (fchild x) (lchild x).
Definition setFchild (o : option nat) (x : node) : node := Node (parent x) (psibling x) (nsibling x) o (lchild x).
Definition setLchild (o : option nat) (x : node) : node := Node (parent x) (psibling x) (nsibling x) (fchild x) o.

Definition Disconnect (h : heap) (this : nat) : outcome heap :=
  let! x := deref h this in
  match parent x with
  | None => Done h
  | Some p =>
      let! h := match psibling x with
                | Some ps => upd h ps (setNsibling (nsibling x))
                | None => upd h p (setFchild (nsibling x))
                end in
      let! h := match nsibling x with
                | Some ns => upd h ns (setPsibling (psibling x))
                | None => upd h p (setLchild (psibling x))
                end in
      upd h this (fun x => Node None None None (fchild x) (lchild x))
  end.

Fixpoint IsDescendantOf (fuel : nat) (h : heap) (this n : nat) : outcome bool :=
  match fuel with
  | O => NoFuel
  | S fuel' =>
      let! x := deref h this in
      match parent x with
      | None => Done false
      | Some l => if bool_decide (l = n) then Done true else IsDescendantOf fuel' h l n
      end
  end.

(** The number of nodes bounds the length of a path. *)
Definition steps (h : heap) : nat := S (size h).

(** The reference sibling: the given one if it is a child of [p]. *)
Definition reference (h : heap) (p : nat) (s : option nat) (behind : bool) : outcome (option nat) :=
  let! x := deref h p in
  let dflt := if behind then lchild x else fchild x in
  match s with
  | None => Done dflt
  | Some s' => let! y := deref h s' in Done (if bool_decide (parent y = Some p) then s else dflt)
  end.

(** Link a node that has no parent. *)
Definition attach (h : heap) (this p : nat) (s : option nat) (behind : bool) : outcome heap :=
  let! h := upd h this (fun x => Node (Some p) (psibling x) (nsibling x) (fchild x) (lchild x)) in
  let! s := reference h p s behind in
  match s with
  | None => upd h p (fun x => setFchild (Some this) (setLchild (Some this) x))
  | Some s' =>
      let! y := deref h s' in
      if behind then
        let ns := nsibling y in
        let! h := upd h this (fun x => setPsibling s (setNsibling ns x)) in
        let! h := upd h s' (setNsibling (Some this)) in
        match ns with
        | Some n => upd h n (setPsibling (Some this))
        | None => upd h p (setLchild (Some this))
        end
      else
        let ps := psibling y in
        let! h := upd h this (fun x => setPsibling ps (setNsibling s x)) in
        let! h := upd h s' (setPsibling (Some this)) in
        match ps with
        | Some n => upd h n (setNsibling (Some this))
        | None => upd h p (setFchild (Some this))
        end
  end.

Definition DoReparentTo (h : heap) (this p : nat) (s : option nat) (behind : bool) : outcome (heap * bool) :=
  let! refused := if bool_decide (p = this) then Done true else IsDescendantOf (steps h) h p this in
  if refused : bool then Done (h, false)
  else
    let! h := Disconnect h this in
    let! h := attach h this p s behind in
    Done (h, true).

Definition newNode (h : heap) (this : nat) (p : option nat) (behind : bool) : outcome heap :=
  let h := <[this := Node None None None None None]> h in
  match p with
  | None => Done h
  | Some p => let! r := DoReparentTo h this p None behind in Done (fst r)
  end.

(** [Next( restart )]: the way up and to the side. *)
Fixpoint climb (fuel : nat) (h : heap) (l : nat) (restart : bool) : outcome (option nat) :=
  match fuel with
  | O => NoFuel
  | S fuel' =>
      let! x := deref h l in
      match nsibling x with
      | Some n => Done (Some n)
      | None => match parent x with
                | Some p => climb fuel' h p restart
                | None => Done (if restart then Some l else None)
                end
      end
  end.

Definition Next (h : heap) (this : nat) (restart : bool) : outcome (option nat) :=
  let! x := deref h this in
  match fchild x with
  | Some c => Done (Some c)
  | None => climb (steps h) h this restart
  end.

(** [Prev( restart )]: the way down to the last descendant. *)
Fixpoint descend (fuel : nat) (h : heap) (l : nat) : outcome nat :=
  match fuel with
  | O => NoFuel
  | S fuel' =>
      let! x := deref h l in
      match lchild x with
      | Some c => descend fuel' h c
      | None => Done l
      end
  end.

Definition Prev (h : heap) (this : nat) (restart : bool) : outcome (option nat) :=
  let! x := deref h this in
  match psibling x, parent x with
  | None, Some p => Done (Some p)
  | None, None => if negb restart then Done None else let! l := descend (steps h) h this in Done (Some l)
  | Some ps, _ => let! l := descend (steps h) h ps in Done (Some l)
  end.

(** ** The tree that the links represent *)

Inductive tree := T (n : nat) (cs : list tree).

Definition root (t : tree) : nat := match t with T n _ => n end.
Definition children (t : tree) : list tree := match t with T _ cs => cs end.

(** The nodes in the order of a walk: a node before its children. *)
Fixpoint walk (t : tree) : list nat :=
  match t with T n cs => n :: flat_map walk cs end.

Lemma tree_ind' (P : tree -> Prop) : (forall n cs, Forall P cs -> P (T n cs)) -> forall t, P t.
Proof. intros H. fix IH 1. intros [n cs]. apply H. induction cs as [|c cs IHcs]; constructor; [apply IH|apply IHcs]. Qed.

(** The links of a tree below a parent, between two siblings. *)
Fixpoint repr (h : heap) (p ps ns : option nat) (t : tree) : Prop :=
  match t with
  | T n cs =>
      h !! n = Some (Node p ps ns (root <$> head cs) (root <$> list.last cs)) /\
      (fix reprs (prev : option nat) (l : list tree) : Prop :=
         match l with
         | [] => True
         | c :: l' => repr h (Some n) prev (root <$> head l') c /\ reprs (Some (root c)) l'
         end) None cs
  end.

Fixpoint reprs (h : heap) (p : nat) (prev : option nat) (l : list tree) : Prop :=
  match l with
  | [] => True
  | c :: l' => repr h (Some p) prev (root <$> head l') c /\ reprs h p (Some (root c)) l'
  end.

Lemma repr_unfold h p ps ns n cs : repr h p ps ns (T n cs) <->
  h !! n = Some (Node p ps ns (root <$> head cs) (root <$> list.last cs)) /\ reprs h n None cs.
Proof.
  simpl. enough (forall prev, (fix reprs (prev : option nat) (l : list tree) : Prop :=
         match l with
         | [] => True
         | c :: l' => repr h (Some n) prev (root <$> head l') c /\ reprs (Some (root c)) l'
         end) prev cs <-> reprs h n prev cs) as H by (by rewrite H).
  induction cs as [|c cs IH]; intros prev; [done|]. simpl. by rewrite IH.
Qed.

(** *** The next node *)

Lemma climb_more h l r o : forall f k, climb f h l r = Done o -> climb (f + k) h l r = Done o.
Proof.
  intros f. revert l. induction f as [|f IH]; intros l k; [done|]. simpl. destruct (deref h l) as [x| | |]; try done. simpl.
  destruct (nsibling x); [done|]. destruct (parent x); [apply IH|done].
Qed.

(** Where the walk goes on from a node, with some fuel. *)
Definition leads (h : heap) (f : nat) (r : bool) (m : nat) (o : option nat) : Prop :=
  exists x, h !! m = Some x /\ match fchild x with Some c => o = Some c | None => climb f h m r = Done o end.

Lemma leads_more h f k r m o : leads h f r m o -> leads h (f + k) r m o.
Proof. intros (x & Hx & H). exists x. split; [done|]. destruct (fchild x); [done|]. by apply climb_more. Qed.

Lemma walk_head t : walk t = root t :: flat_map walk (children t).
Proof. by destruct t. Qed.

Lemma walk_next h r t : forall p ps ns f R, repr h p ps ns t -> climb f h (root t) r = Done R ->
  forall k m, walk t !! k = Some m -> leads h (f + length (walk t)) r m (match walk t !! S k with Some x => Some x | None => R end).
Proof.
  induction t as [n cs IH] using tree_ind'. intros p ps ns f R Hr Hc. apply repr_unfold in Hr as [Hn Hcs].
  assert (forall prev, reprs h n prev cs -> forall k m, flat_map walk cs !! k = Some m ->
    leads h (S f + length (flat_map walk cs)) r m (match flat_map walk cs !! S k with Some x => Some x | None => R end)) as Hl.
  { clear Hcs Hn. induction IH as [|c cs Hcase _ IHcs]; intros prev Hrr k m; simpl; [done|]. destruct Hrr as [Hrc Hrs].
    rewrite length_app. intros Hk. apply lookup_app_Some in Hk as [Hk|[Hge Hk]].
    - assert (exists x, h !! root c = Some x /\ parent x = Some n /\ nsibling x = root <$> head cs) as (x & Hx & Hxp & Hxn).
      { destruct c as [m' cs']. apply repr_unfold in Hrc as [Hx _]. eexists. split; [exact Hx|done]. }
      pose proof (lookup_lt_Some _ _ _ Hk) as Hlt.
      destruct (Hcase _ _ _ (S f) (match cs with c' :: _ => Some (root c') | [] => R end) Hrc) with (k := k) (m := m) as (y & Hy & Hy'); [|done|].
      + simpl. unfold deref. rewrite Hx. simpl. rewrite Hxn, Hxp. destruct cs; [exact Hc|done].
      + assert (match walk c !! S k with Some x => Some x | None => match cs with c' :: _ => Some (root c') | [] => R end end =
                match (walk c ++ flat_map walk cs) !! S k with Some x => Some x | None => R end) as E.
        { destruct (walk c !! S k) as [z|] eqn:E; [by rewrite (lookup_app_l_Some _ _ _ _ E)|]. apply lookup_ge_None in E.
          rewrite lookup_app_r by done. replace (S k - length (walk c))%nat with O by lia. destruct cs as [|c' cs]; [done|]. by destruct c'. }
        rewrite E in Hy'. replace (S (f + (length (walk c) + length (flat_map walk cs)))) with ((S f + length (walk c)) + length (flat_map walk cs))%nat by lia.
        apply leads_more. by exists y.
    - replace (S (f + (length (walk c) + length (flat_map walk cs)))) with ((S f + length (flat_map walk cs)) + length (walk c))%nat by lia.
      apply leads_more. rewrite lookup_app_r by lia. replace (S k - length (walk c))%nat with (S (k - length (walk c))) by lia.
      by eapply IHcs. }
  intros [|k] m Hk; simpl in Hk.
  - injection Hk as <-. eexists. split; [exact Hn|]. simpl. destruct cs as [|c cs]; simpl; [|by destruct c]. by apply climb_more.
  - replace (f + length (walk (T n cs)))%nat with (S f + length (flat_map walk cs))%nat by (simpl; lia).
    apply (Hl None Hcs k m Hk).
Qed.

(** *** The previous node *)

Lemma descend_more h o : forall f l k, descend f h l = Done o -> descend (f + k) h l = Done o.
Proof.
  induction f as [|f IH]; intros l k; [done|]. simpl. destruct (deref h l) as [x| | |]; try done. simpl.
  destruct (lchild x); [apply IH|done].
Qed.

Lemma last_walk t : exists z, list.last (walk t) = Some z.
Proof. destruct (list.last (walk t)) eqn:E; [by eexists|]. apply last_None in E. by destruct t. Qed.

Lemma walk_descend h t : forall p ps ns z, repr h p ps ns t -> list.last (walk t) = Some z -> descend (length (walk t)) h (root t) = Done z.
Proof.
  induction t as [n cs IH] using tree_ind'. intros p ps ns z Hr Hz. apply repr_unfold in Hr as [Hn Hcs]. simpl. unfold deref. rewrite Hn. simpl.
  destruct cs as [|c0 cs0] using rev_ind; [simpl in Hz |- *; congruence|]. rewrite last_snoc. simpl. clear IHcs0.
  apply Forall_app in IH as [_ IH]. apply list.Forall_cons in IH as [IH _].
  assert (exists prev ns', repr h (Some n) prev ns' c0) as (prev & ns' & Hc).
  { clear -Hcs. revert Hcs. generalize (None : option nat). induction cs0 as [|c cs0 IH]; intros prev H; destruct H as [H1 H2]; [by eexists _, _|]. by eapply IH. }
  change (walk (T n (cs0 ++ [c0]))) with (n :: flat_map walk (cs0 ++ [c0])) in Hz.
  rewrite flat_map_app in Hz |- *. cbn [flat_map] in Hz |- *. rewrite app_nil_r in Hz |- *. rewrite length_app, Nat.add_comm. apply descend_more.
  destruct (last_walk c0) as [y Hy]. rewrite (IH _ _ _ y Hc Hy). f_equal. rewrite app_comm_cons, last_app, Hy in Hz. congruence.
Qed.

(** Where a walk back goes on, with some fuel. *)
Definition leadsBack (h : heap) (f m q : nat) : Prop :=
  exists x, h !! m = Some x /\
    match psibling x with Some s => descend f h s = Done q | None => parent x = Some q end.

Lemma leadsBack_more h f k m q : leadsBack h f m q -> leadsBack h (f + k) m q.
Proof. intros (x & Hx & H). exists x. split; [done|]. destruct (psibling x); [by apply descend_more|done]. Qed.

Lemma walk_prev h t : forall p ps ns, repr h p ps ns t -> forall k m q, walk t !! S k = Some m -> walk t !! k = Some q ->
  leadsBack h (length (walk t)) m q.
Proof.
  induction t as [n cs IH] using tree_ind'. intros p ps ns Hr. apply repr_unfold in Hr as [_ Hcs].
  (* the node before the walk of the children that are left *)
  assert (forall prev q0 g, reprs h n prev cs -> match prev with None => q0 = n | Some s => descend g h s = Done q0 end ->
    forall k m q, flat_map walk cs !! k = Some m -> (q0 :: flat_map walk cs) !! k = Some q -> leadsBack h (g + length (flat_map walk cs)) m q) as Hl.
  { clear Hcs. induction IH as [|c cs Hcase _ IHcs]; intros prev q0 g Hrr Hq0 k m q; [done|]. destruct Hrr as [Hrc Hrs]. cbn [flat_map]. intros Hm Hq.
    rewrite length_app. apply lookup_app_Some in Hm as [Hm|[Hge Hm]].
    - destruct k as [|k].
      + destruct c as [m' cs']. apply repr_unfold in Hrc as [Hx _]. simpl in Hm, Hq. injection Hm as <-. injection Hq as <-.
        eexists. split; [exact Hx|]. simpl. destruct prev; [by apply descend_more|congruence].
      + change ((q0 :: walk c ++ flat_map walk cs) !! S k) with ((walk c ++ flat_map walk cs) !! k) in Hq. pose proof (lookup_lt_Some _ _ _ Hm).
        rewrite lookup_app_l in Hq by lia. pose proof (Hcase _ _ _ Hrc k m q Hm Hq) as Hlb.
        replace (g + (length (walk c) + length (flat_map walk cs)))%nat with (length (walk c) + (g + length (flat_map walk cs)))%nat by lia.
        by apply leadsBack_more.
    - destruct (last_walk c) as [z Hz]. pose proof (walk_descend h c _ _ _ z Hrc Hz) as Hd.
      assert ((z :: flat_map walk cs) !! (k - length (walk c))%nat = Some q) as Hq'.
      { destruct k as [|k]; [destruct c; simpl in Hge; lia|]. change ((q0 :: walk c ++ flat_map walk cs) !! S k) with ((walk c ++ flat_map walk cs) !! k) in Hq.
        destruct (decide (S k = length (walk c))) as [E|E].
        - rewrite lookup_app_l in Hq by lia. rewrite E, Nat.sub_diag. simpl. rewrite last_lookup, <- E in Hz. simpl in Hz. congruence.
        - rewrite lookup_app_r in Hq by lia. replace (S k - length (walk c))%nat with (S (k - length (walk c))) by lia. done. }
      pose proof (IHcs (Some (root c)) z (length (walk c)) Hrs Hd _ m q Hm Hq') as Hlb.
      replace (g + (length (walk c) + length (flat_map walk cs)))%nat with (length (walk c) + length (flat_map walk cs) + g)%nat by lia.
      by apply leadsBack_more. }
  intros k m q Hm Hq. simpl in Hm. cbn [walk] in *. replace (length (n :: flat_map walk cs)) with (1 + length (flat_map walk cs))%nat by done.
  eapply (Hl None n 1%nat Hcs eq_refl k); done.
Qed.

(** *** A whole tree *)

(** The tree of a dialog: its root has no parent, and no node is there twice. *)
Definition linked (h : heap) (t : tree) : Prop := repr h None None None t /\ NoDup (walk t).

Lemma repr_live h t : forall p ps ns, repr h p ps ns t -> forall m, m ∈ walk t -> m ∈ dom h.
Proof.
  induction t as [n cs IH] using tree_ind'. intros p ps ns Hr m Hm. apply repr_unfold in Hr as [Hn Hcs]. simpl in Hm.
  apply elem_of_cons in Hm as [->|Hm]; [apply elem_of_dom; by eexists|]. clear Hn. revert Hcs Hm. generalize (None : option nat).
  induction IH as [|c cs Hc _ IHcs]; intros prev Hcs Hm; [by apply not_elem_of_nil in Hm|]. destruct Hcs as [H1 H2].
  simpl in Hm. apply elem_of_app in Hm as [Hm|Hm]; [by eapply Hc|by eapply IHcs].
Qed.

Lemma linked_size h t : linked h t -> (length (walk t) <= size h)%nat.
Proof.
  intros [Hr Hn]. rewrite <- (size_list_to_set (C := gset nat) (walk t)) by done. rewrite <- (size_dom (D := gset nat) h).
  apply subseteq_size. intros m Hm. apply elem_of_list_to_set in Hm. by eapply repr_live.
Qed.

Lemma root_climb h t r : linked h t -> climb 1 h (root t) r = Done (if r then Some (root t) else None).
Proof. intros [Hr _]. destruct t as [n cs]. apply repr_unfold in Hr as [Hn _]. simpl. unfold deref. by rewrite Hn. Qed.

Lemma descendant_more h n b : forall f l k, IsDescendantOf f h l n = Done b -> IsDescendantOf (f + k) h l n = Done b.
Proof.
  induction f as [|f IH]; intros l k; [done|]. simpl. destruct (deref h l) as [x| | |]; try done. simpl.
  destruct (parent x); [|done]. case_bool_decide; [done|apply IH].
Qed.

(** The links to the parents only. *)
Inductive ups (h : heap) : option nat -> tree -> Prop :=
| Ups q n cs x : h !! n = Some x -> parent x = q -> (forall c, c ∈ cs -> ups h (Some n) c) -> ups h q (T n cs).

Lemma repr_ups h t : forall p ps ns, repr h p ps ns t -> ups h p t.
Proof.
  induction t as [n cs IH] using tree_ind'. intros p ps ns Hr. apply repr_unfold in Hr as [Hn Hcs]. econstructor; [exact Hn|done|]. clear Hn.
  revert Hcs. generalize (None : option nat). induction IH as [|c cs Hc _ IHcs]; intros prev Hcs c'; [by intros ?%not_elem_of_nil|].
  destruct Hcs as [H1 H2]. intros [->|Hc']%elem_of_cons; [by eapply Hc|by eapply IHcs].
Qed.

Lemma ups_step h q t n f b : ups h (Some q) t -> IsDescendantOf f h q n = Done b ->
  IsDescendantOf (S f) h (root t) n = Done (if bool_decide (q = n) then true else b).
Proof. intros Hu Hb. inversion Hu as [q' m cs x Hx Hp _]; subst. simpl. unfold deref. rewrite Hx. simpl. rewrite Hp. by case_bool_decide. Qed.

(** The search upwards ends; it finds what the search from the root of the part
    finds, and the nodes of the part. *)
Lemma walk_descendant h n t : forall q f b, ups h q t -> IsDescendantOf f h (root t) n = Done b ->
  forall m, m ∈ walk t -> exists b', IsDescendantOf (f + length (walk t)) h m n = Done b' /\ (b = true -> b' = true) /\ ((n ∉ walk t) -> b' = b).
Proof.
  induction t as [r cs IH] using tree_ind'. intros q f b Hu Hb m Hm. simpl in Hm. simpl root in Hb.
  apply elem_of_cons in Hm as [->|Hm]; [exists b; split; [by apply descendant_more|done]|].
  inversion Hu as [q' r' cs' x Hx Hp Hcs]; subst. apply list_elem_of_In, in_flat_map in Hm as (c & Hc & Hm). apply list_elem_of_In in Hc, Hm.
  rewrite List.Forall_forall in IH. apply list_elem_of_In in Hc as HcI.
  destruct (IH c HcI _ (S f) _ (Hcs c Hc) (ups_step _ _ _ _ _ _ (Hcs c Hc) Hb) m Hm) as (b' & E & H1 & H2). exists b'. split; [|split].
  - assert (length (walk c) <= length (flat_map walk cs))%nat as Hle.
    { apply elem_of_Permutation in Hc as [k Hk]. rewrite Hk. simpl. rewrite length_app. lia. }
    simpl length. replace (f + S (length (flat_map walk cs)))%nat with (S f + length (walk c) + (length (flat_map walk cs) - length (walk c)))%nat by lia.
    by apply descendant_more.
  - intros ->. apply H1. by case_bool_decide.
  - intros Hn. simpl in Hn. apply not_elem_of_cons in Hn as [Hnr Hn]. rewrite H2; [by rewrite bool_decide_false|].
    intros Hnc. apply Hn. apply list_elem_of_In, in_flat_map. exists c. split; [done|by apply list_elem_of_In].
Qed.

Lemma root_alone h t n : ups h None t -> IsDescendantOf 1 h (root t) n = Done false.
Proof. inversion 1 as [q m cs x Hx Hp _]; subst. simpl. unfold deref. rewrite Hx. simpl. by rewrite Hp. Qed.

Lemma descendant_steps h t m n : ups h None t -> (length (walk t) <= size h)%nat -> m ∈ walk t ->
  exists b, IsDescendantOf (steps h) h m n = Done b /\ ((n ∉ walk t) -> b = false).
Proof.
  intros Hu Hs Hm. destruct (walk_descendant h n t _ 1 false Hu (root_alone h t n Hu) m Hm) as (b & Hb & _ & H). exists b. split; [|done]. unfold steps.
  replace (S (size h)) with ((1 + length (walk t)) + (size h - length (walk t)))%nat by lia. by apply descendant_more.
Qed.

Lemma descendant_total h t m n : linked h t -> m ∈ walk t -> exists b, IsDescendantOf (steps h) h m n = Done b.
Proof.
  intros Hl Hm. destruct (descendant_steps h t m n) as (b & Hb & _); [eapply repr_ups, Hl|by apply linked_size|done|]. by exists b.
Qed.

(** [Next] walks through the tree and starts again at the root. *)
Theorem next_walks h t r k m : linked h t -> walk t !! k = Some m ->
  Next h m r = Done (match walk t !! S k with Some x => Some x | None => if r then Some (root t) else None end).
Proof.
  intros Hl Hk. destruct (walk_next h r t None None None 1 _ (proj1 Hl) (root_climb h t r Hl) k m Hk) as (x & Hx & Hlead).
  unfold Next, deref. rewrite Hx. cbn [obind]. destruct (fchild x); [by rewrite Hlead|].
  pose proof (linked_size h t Hl). unfold steps. replace (S (size h)) with ((1 + length (walk t)) + (size h - length (walk t)))%nat by lia.
  by apply climb_more.
Qed.

Lemma next_open h t k m : linked h t -> walk t !! k = Some m -> Next h m false = Done (walk t !! S k).
Proof. intros Hl Hk. rewrite (next_walks h t false k m Hl Hk). by destruct (walk t !! S k). Qed.

Lemma linked_deref h t m : linked h t -> m ∈ walk t -> exists x, deref h m = Done x.
Proof.
  intros [Hr _] Hm. unfold deref. assert (m ∈ dom h) as [x ->]%elem_of_dom by (by eapply repr_live). by exists x.
Qed.

(** [Prev] walks back and goes on from the last node. *)
Theorem prev_walks h t r k m : linked h t -> walk t !! k = Some m ->
  Prev h m r = Done (match k with S k' => walk t !! k' | O => if r then list.last (walk t) else None end).
Proof.
  intros Hl Hk. pose proof (linked_size h t Hl) as Hs. unfold Prev, deref. destruct k as [|k].
  - destruct Hl as [Hr _]. destruct (last_walk t) as [z Hz]. pose proof (walk_descend h t _ _ _ z Hr Hz) as Hd. rewrite Hz.
    destruct t as [n cs]. simpl in Hk. injection Hk as <-. apply repr_unfold in Hr as [Hn _]. rewrite Hn. cbn [obind parent psibling].
    destruct r; [|done]. cbn [negb]. unfold steps.
    replace (S (size h)) with (length (walk (T n cs)) + (S (size h) - length (walk (T n cs))))%nat by lia.
    change n with (root (T n cs)) at 3. by rewrite (descend_more _ _ _ _ _ Hd).
  - destruct (lookup_lt_is_Some_2 (walk t) k) as [q Hq]; [apply lookup_lt_Some in Hk; lia|].
    destruct (walk_prev h t _ _ _ (proj1 Hl) k m q Hk Hq) as (x & Hx & H). rewrite Hx, Hq. cbn [obind].
    destruct (psibling x) as [s|]; [|by rewrite H]. unfold steps.
    replace (S (size h)) with (length (walk t) + (S (size h) - length (walk t)))%nat by lia. by rewrite (descend_more _ _ _ _ _ H).
Qed.

(** *** Changes of the tree *)

(** The links of some siblings, between [prev] and [nxt]. *)
Fixpoint seg (h : heap) (p : nat) (prev : option nat) (l : list tree) (nxt : option nat) : Prop :=
  match l with
  | [] => True
  | c :: l' => repr h (Some p) prev (match l' with c' :: _ => Some (root c') | [] => nxt end) c /\ seg h p (Some (root c)) l' nxt
  end.

Definition before (prev : option nat) (l : list tree) : option nat := match list.last l with Some c => Some (root c) | None => prev end.
Definition after (l : list tree) (nxt : option nat) : option nat := match l with c :: _ => Some (root c) | [] => nxt end.

Lemma reprs_seg h p l : forall prev, reprs h p prev l <-> seg h p prev l None.
Proof. induction l as [|c l IH]; intros prev; [done|]. cbn [reprs seg]. rewrite IH. by destruct l. Qed.

Lemma seg_app h p l r nxt : forall prev, seg h p prev (l ++ r) nxt <-> seg h p prev l (after r nxt) /\ seg h p (before prev l) r nxt.
Proof.
  induction l as [|c l IH]; intros prev; [cbn; tauto|]. cbn [app seg]. rewrite IH.
  assert (before prev (c :: l) = before (Some (root c)) l) as -> by (unfold before; rewrite last_cons; by destruct (list.last l)).
  destruct l; cbn [app]; tauto.
Qed.

Lemma repr_frame h h' t : (forall m, m ∈ walk t -> h' !! m = h !! m) -> forall p ps ns, repr h p ps ns t -> repr h' p ps ns t.
Proof.
  induction t as [n cs IH] using tree_ind'. intros Hf p ps ns Hr. apply repr_unfold in Hr as [Hn Hcs]. apply repr_unfold.
  split; [rewrite Hf; [done|apply elem_of_cons; by left]|]. clear Hn. assert (forall m, m ∈ flat_map walk cs -> h' !! m = h !! m) as Hf' by (intros m Hm; apply Hf; apply elem_of_cons; by right).
  clear Hf. revert Hcs. generalize (None : option nat). induction IH as [|c cs Hc _ IHcs]; intros prev Hcs; [done|]. destruct Hcs as [H1 H2].
  split; [apply Hc; [|done]|apply IHcs; [|done]]; intros m Hm; apply Hf'; cbn [flat_map]; apply elem_of_app; tauto.
Qed.

Lemma seg_frame h h' p l nxt : forall prev, (forall m, m ∈ flat_map walk l -> h' !! m = h !! m) -> seg h p prev l nxt -> seg h' p prev l nxt.
Proof.
  induction l as [|c l IH]; intros prev Hf Hs; [done|]. destruct Hs as [H1 H2]. cbn [flat_map] in Hf.
  split; [eapply repr_frame; [|done]|apply IH; [|done]]; intros m Hm; apply Hf; apply elem_of_app; tauto.
Qed.

(** The links of a node between its siblings are those of its root only. *)
Lemma repr_moved h h' t p ps ns p' ps' ns' : repr h p ps ns t ->
  (forall m, m ∈ walk t -> m <> root t -> h' !! m = h !! m) -> NoDup (walk t) ->
  h' !! root t = (fun x => Node p' ps' ns' (fchild x) (lchild x)) <$> h !! root t -> repr h' p' ps' ns' t.
Proof.
  destruct t as [n cs]. intros Hr Hf Hn Hroot. apply repr_unfold in Hr as [Hx Hcs]. simpl in *. apply repr_unfold. rewrite Hroot, Hx. split; [done|].
  apply NoDup_cons in Hn as [Hn _]. apply reprs_seg. apply reprs_seg in Hcs. eapply seg_frame; [|done]. intros m Hm.
  apply Hf; [apply elem_of_cons; by right|]. by intros ->.
Qed.

Lemma root_walk t : root t ∈ walk t.
Proof. destruct t. simpl. apply elem_of_cons. by left. Qed.

Lemma root_elem c l : c ∈ l -> root c ∈ flat_map walk l.
Proof. intros Hc. apply list_elem_of_In, in_flat_map. exists c. split; [by apply list_elem_of_In|apply list_elem_of_In, root_walk]. Qed.

(** What both the insertion and the removal of a node do to the neighbours:
    [a] is the sibling in front and [b] the one behind. *)
Definition setNext (h : heap) (p : nat) (a x : option nat) : heap :=
  match a with Some s => alter (setNsibling x) s h | None => alter (setFchild x) p h end.
Definition setPrev (h : heap) (p : nat) (b y : option nat) : heap :=
  match b with Some s => alter (setPsibling y) s h | None => alter (setLchild y) p h end.

Lemma seg_next h p prev l nxt x : seg h p prev l nxt -> NoDup (flat_map walk l) -> l <> [] -> seg (setNext h p (before None l) x) p prev l x.
Proof.
  intros Hs Hn Hl. destruct l as [|c l _] using rev_ind; [done|]. unfold before. rewrite last_snoc. simpl.
  apply seg_app in Hs as [H1 [H2 _]]. rewrite flat_map_app in Hn. cbn [flat_map] in Hn. rewrite app_nil_r in Hn. apply NoDup_app in Hn as (N1 & N2 & N3).
  apply seg_app. split; [|split; [|done]].
  - eapply seg_frame; [|exact H1]. intros m Hm. apply lookup_alter_ne. intros <-. apply (N2 _ Hm), root_walk.
  - eapply repr_moved; [exact H2| |done|].
    + intros m Hm Hne. by apply lookup_alter_ne.
    + rewrite lookup_alter_eq. destruct c as [n cs]. apply repr_unfold in H2 as [Hx _]. cbn [root]. by rewrite Hx.
Qed.

Lemma seg_prev h p l nxt y0 y : seg h p y0 l nxt -> NoDup (flat_map walk l) -> l <> [] -> seg (setPrev h p (after l None) y) p y l nxt.
Proof.
  intros Hs Hn Hl. destruct l as [|c l]; [done|]. destruct Hs as [H1 H2]. cbn [flat_map] in Hn. apply NoDup_app in Hn as (N1 & N2 & N3). split.
  - eapply repr_moved; [exact H1| |done|].
    + intros m Hm Hne. by apply lookup_alter_ne.
    + simpl. rewrite lookup_alter_eq. destruct c as [n cs]. apply repr_unfold in H1 as [Hx _]. cbn [root]. by rewrite Hx.
  - eapply seg_frame; [|exact H2]. intros m Hm. apply lookup_alter_ne. intros <-. apply (N2 (root c)); [apply root_walk|done].
Qed.

Lemma setNext_ne h p l x m : m <> p -> (m ∉ flat_map walk l) -> setNext h p (before None l) x !! m = h !! m.
Proof.
  intros Hp Hl. unfold setNext, before. destruct (list.last l) as [c|] eqn:E; apply lookup_alter_ne; [|done]. intros <-. apply Hl, root_elem.
  rewrite last_lookup in E. by eapply list_elem_of_lookup_2.
Qed.

Lemma setPrev_ne h p l y m : m <> p -> (m ∉ flat_map walk l) -> setPrev h p (after l None) y !! m = h !! m.
Proof. intros Hp Hl. unfold setPrev, after. destruct l as [|c l]; apply lookup_alter_ne; [done|]. intros <-. apply Hl, root_elem, elem_of_cons. by left. Qed.

Definition join (h : heap) (p : nat) (l r : list tree) (x y : option nat) : heap :=
  setPrev (setNext h p (before None l) x) p (after r None) y.

Lemma joined h p l r x0 y0 x y X : h !! p = Some X -> seg h p None l x0 -> seg h p y0 r None ->
  (p ∉ flat_map walk l) -> (p ∉ flat_map walk r) -> NoDup (flat_map walk l) -> NoDup (flat_map walk r) ->
  (forall m, m ∈ flat_map walk l -> m ∉ flat_map walk r) ->
  seg (join h p l r x y) p None l x /\ seg (join h p l r x y) p y r None /\
  join h p l r x y !! p = Some (Node (parent X) (psibling X) (nsibling X)
    (match l with [] => x | _ => fchild X end) (match r with [] => y | _ => lchild X end)).
Proof.
  intros HX Hl Hr Pl Pr Nl Nr Hd. unfold join. repeat split.
  - destruct l as [|c l]; [done|]. eapply seg_frame; [|by eapply seg_next]. intros m Hm. apply setPrev_ne; [congruence|by apply Hd].
  - destruct r as [|c r]; [done|]. eapply seg_prev; [|done|done]. eapply seg_frame; [|exact Hr]. intros m Hm. apply setNext_ne; [congruence|].
    intros Hm'. by apply (Hd m).
  - assert (setNext h p (before None l) x !! p = Some (Node (parent X) (psibling X) (nsibling X) (match l with [] => x | _ => fchild X end) (lchild X))) as E.
    { unfold setNext, before. destruct (list.last l) as [c|] eqn:E.
      - rewrite lookup_alter_ne by (intros <-; apply Pl, root_elem; rewrite last_lookup in E; by eapply list_elem_of_lookup_2).
        rewrite HX. destruct l; [done|]. by destruct X.
      - apply last_None in E as ->. by rewrite lookup_alter_eq, HX. }
    unfold setPrev, after. destruct r as [|c r]; [by rewrite lookup_alter_eq, E|].
    rewrite lookup_alter_ne; [done|]. intros <-. apply Pr, root_elem, elem_of_cons. by left.
Qed.

Lemma join_ne h p l r x y m : m <> p -> (m ∉ flat_map walk l) -> (m ∉ flat_map walk r) -> join h p l r x y !! m = h !! m.
Proof. intros H1 H2 H3. unfold join. rewrite setPrev_ne, setNext_ne; done. Qed.

(** A tree in which the part [X] is replaced by [Y], a part with the same root. *)
Inductive swap (X Y : tree) : tree -> tree -> Prop :=
| Swap_here : swap X Y X Y
| Swap_below n a c c' b : swap X Y c c' -> swap X Y (T n (a ++ c :: b)) (T n (a ++ c' :: b)).

Lemma swap_root X Y t t' : root X = root Y -> swap X Y t t' -> root t = root t'.
Proof. intros H []; done. Qed.

Lemma walk_node n a c b : walk (T n (a ++ c :: b)) = n :: flat_map walk a ++ walk c ++ flat_map walk b.
Proof. cbn [walk]. by rewrite flat_map_app. Qed.

Lemma swap_elem X Y t t' m : swap X Y t t' -> m ∈ walk X -> m ∈ walk t.
Proof. induction 1 as [|n a c c' b H IH]; [done|]. intros Hm. rewrite walk_node, elem_of_cons, !elem_of_app. auto. Qed.

Lemma swap_perm X Y Z t t' : walk Y ≡ₚ walk X ++ Z -> swap X Y t t' -> walk t' ≡ₚ walk t ++ Z.
Proof.
  intros HP. induction 1 as [|n a c c' b H IH]; [done|]. rewrite !walk_node, IH. cbn [app]. constructor.
  rewrite <- !app_assoc. apply Permutation_app_head, Permutation_app_head, Permutation_app_comm.
Qed.

(** If the links of the part change properly and all others stay, the whole tree
    is as it should be. *)
Lemma swap_repr h h' X Y t t' : root X = root Y -> swap X Y t t' -> NoDup (walk t) ->
  (forall m, m ∈ walk t -> (m ∉ walk X) -> h' !! m = h !! m) ->
  (forall p ps ns, repr h p ps ns X -> repr h' p ps ns Y) -> forall p ps ns, repr h p ps ns t -> repr h' p ps ns t'.
Proof.
  intros HXY Hs. induction Hs as [|n a c c' b Hs IH]; intros Hn Hf HX p ps ns Hr; [by apply HX|].
  rewrite walk_node in Hn, Hf. apply NoDup_cons in Hn as [Hn0 Hn]. apply NoDup_app in Hn as (Na & Nab & Hn). apply NoDup_app in Hn as (Nc & Ncb & Nb).
  apply repr_unfold in Hr as [Hx Hcs]. apply repr_unfold. pose proof (swap_root X Y c c' HXY Hs) as Hroot.
  assert (forall m, m ∈ walk X -> m ∈ walk c) as HXc by (intros m; by eapply swap_elem).
  split.
  - rewrite Hf, Hx; [|set_solver|intros Hm; apply Hn0; set_solver]. do 2 f_equal; [by destruct a; simpl; rewrite ?Hroot|].
    rewrite !last_app, !last_cons. destruct (list.last b); simpl; [done|by rewrite Hroot].
  - apply reprs_seg. apply reprs_seg in Hcs. apply seg_app in Hcs as [H1 [H2 H3]]. apply seg_app. split; [|split].
    + cbn [after] in *. rewrite <- Hroot. eapply seg_frame; [|exact H1]. intros m Hm. apply Hf; set_solver.
    + apply IH; try done. intros m Hm HmX. apply Hf; [set_solver|done].
    + rewrite <- Hroot. eapply seg_frame; [|exact H3]. intros m Hm. apply Hf; [set_solver|]. intros HmX. by apply (Ncb m (HXc m HmX)).
Qed.

Lemma swap_sym X Y t t' : swap X Y t t' -> swap Y X t' t.
Proof. induction 1; by constructor. Qed.

Lemma swap_part h X Y t t' : swap X Y t t' -> forall p ps ns, repr h p ps ns t -> exists p ps ns, repr h p ps ns X.
Proof.
  induction 1 as [|n a c c' b H IH]; intros p ps ns Hr; [by eexists _, _, _|]. apply repr_unfold in Hr as [_ Hr].
  apply reprs_seg, seg_app in Hr as [_ [Hr _]]. by eapply IH.
Qed.

Lemma with_perm p l u r : walk (T p (l ++ u :: r)) ≡ₚ walk (T p (l ++ r)) ++ walk u.
Proof.
  cbn [walk]. rewrite !flat_map_app. cbn [flat_map app]. constructor. rewrite <- app_assoc. apply Permutation_app_head, Permutation_app_comm.
Qed.

Lemma upd_alter h n f : n ∈ dom h -> upd h n f = Done (alter f n h).
Proof.
  intros [x Hx]%elem_of_dom. unfold upd. rewrite Hx. f_equal. apply map_eq. intros m. destruct (decide (m = n)) as [->|].
  - by rewrite lookup_insert_eq, lookup_alter_eq, Hx.
  - by rewrite lookup_insert_ne, lookup_alter_ne.
Qed.

Lemma join_dom h p l r x y : dom (join h p l r x y) = dom h.
Proof. unfold join, setNext, setPrev. destruct (before _ _), (after _ _); by rewrite !dom_alter_L. Qed.

(** Both neighbours are linked anew. *)
Lemma upd_join h p l r x y : p ∈ dom h -> (forall c, c ∈ l ++ r -> root c ∈ dom h) ->
  (let! h := match before None l with Some s => upd h s (setNsibling x) | None => upd h p (setFchild x) end in
   match after r None with Some s => upd h s (setPsibling y) | None => upd h p (setLchild y) end) = Done (join h p l r x y).
Proof.
  intros Hp Hc. unfold join.
  assert (match before None l with Some s => upd h s (setNsibling x) | None => upd h p (setFchild x) end = Done (setNext h p (before None l) x)) as ->.
  { unfold setNext, before. destruct (list.last l) as [c|] eqn:E; apply upd_alter; [|done]. apply Hc, elem_of_app. left. rewrite last_lookup in E. by eapply list_elem_of_lookup_2. }
  cbn [obind]. assert (dom (setNext h p (before None l) x) = dom h) as Hd by (unfold setNext; destruct (before None l); by rewrite dom_alter_L).
  unfold setPrev, after. destruct r as [|c r]; apply upd_alter; rewrite Hd; [done|]. apply Hc, elem_of_app. right. apply elem_of_cons. by left.
Qed.

(** The parts of a node with a child [u]. *)
Lemma repr_with h q ps ns p l u r : repr h q ps ns (T p (l ++ u :: r)) ->
  h !! p = Some (Node q ps ns (after l (Some (root u))) (before (Some (root u)) r)) /\
  seg h p None l (Some (root u)) /\ repr h (Some p) (before None l) (after r None) u /\ seg h p (Some (root u)) r None.
Proof.
  intros Hr. apply repr_unfold in Hr as [Hx Hcs]. apply reprs_seg, seg_app in Hcs as [H1 [H2 H3]]. repeat split; try done.
  rewrite Hx. do 2 f_equal; [by destruct l|]. unfold before. rewrite last_app, last_cons. by destruct (list.last r).
Qed.

Lemma seg_live h p l nxt : forall prev, seg h p prev l nxt -> forall m, m ∈ flat_map walk l -> m ∈ dom h.
Proof.
  induction l as [|c l IH]; intros prev Hs m Hm; [by apply not_elem_of_nil in Hm|]. destruct Hs as [H1 H2]. cbn [flat_map] in Hm.
  apply elem_of_app in Hm as [Hm|Hm]; [by eapply repr_live|by eapply IH].
Qed.

Lemma root_node h p ps ns t : repr h p ps ns t -> exists f l, h !! root t = Some (Node p ps ns f l).
Proof. destruct t. intros Hr. apply repr_unfold in Hr as [Hx _]. by eexists _, _. Qed.

Lemma swap_nodup X Y t t' : swap X Y t t' -> NoDup (walk t) -> NoDup (walk X).
Proof.
  induction 1 as [|n a c c' b Hs IH]; [done|]. rewrite walk_node. intros [_ Nt]%NoDup_cons. apply IH.
  apply NoDup_app in Nt as (_ & _ & Nt). by apply NoDup_app in Nt as (Nt & _).
Qed.

(** The nodes of the children of a node, and of a part that is not below it. *)
Lemma apart p l r u : NoDup (walk (T p (l ++ r))) -> (forall m, m ∈ walk (T p (l ++ r)) -> m ∉ walk u) ->
  ((p ∉ flat_map walk l) /\ (p ∉ flat_map walk r) /\ NoDup (flat_map walk l) /\ NoDup (flat_map walk r) /\
   (forall m, m ∈ flat_map walk l -> m ∉ flat_map walk r)) /\
  forall m, m ∈ walk u -> m <> p /\ (m ∉ flat_map walk l) /\ (m ∉ flat_map walk r).
Proof.
  cbn [walk]. rewrite flat_map_app. intros [Np N]%NoDup_cons Hd. apply NoDup_app in N as (Nl & Nlr & Nr). rewrite elem_of_app in Np.
  split; [tauto|]. intros m Hm. repeat split; [intros ->|intros H..]; (eapply Hd; [|exact Hm]); rewrite elem_of_cons, elem_of_app; auto.
Qed.

Lemma joinable h p l r X x0 y0 : h !! p = Some X -> seg h p None l x0 -> seg h p y0 r None ->
  p ∈ dom h /\ forall c, c ∈ l ++ r -> root c ∈ dom h.
Proof.
  intros HX Hl Hr. split; [apply elem_of_dom; by eexists|]. intros c Hc.
  apply elem_of_app in Hc as [Hc|Hc]; [eapply seg_live; [exact Hl|]|eapply seg_live; [exact Hr|]]; by apply root_elem.
Qed.

(** [Disconnect()] takes the part of a node out of the tree; the part itself
    stays as it is. *)
Lemma disconnected h t t' p l u r : linked h t' -> swap (T p (l ++ r)) (T p (l ++ u :: r)) t t' ->
  exists h', Disconnect h (root u) = Done h' /\ linked h' t /\ linked h' u /\ dom h' = dom h /\ forall m, (m ∉ walk t') -> h' !! m = h !! m.
Proof.
  intros [Hr Hn] Hs. pose proof (swap_perm _ _ _ _ _ (with_perm p l u r) Hs) as HP. pose proof Hn as Hn'. rewrite HP in Hn. apply NoDup_app in Hn as (Nt & Ntu & Nu).
  destruct (swap_part h _ _ _ _ (swap_sym _ _ _ _ Hs) _ _ _ Hr) as (q & ps & ns & HY).
  pose proof (repr_with _ _ _ _ _ _ _ _ HY) as (Hp & Hl & Hu & Hrr).
  destruct (apart p l r u (swap_nodup _ _ _ _ Hs Nt)) as [(A1 & A2 & A3 & A4 & A5) Hout]; [intros m Hm; apply Ntu; by eapply swap_elem|].
  destruct (root_node _ _ _ _ _ Hu) as (fu & lu & Hru). destruct (joinable h p l r _ _ _ Hp Hl Hrr) as [D1 D2].
  destruct (joined h p l r _ _ (after r None) (before None l) _ Hp Hl Hrr A1 A2 A3 A4 A5) as (J1 & J2 & J3).
  pose proof (upd_join h p l r (after r None) (before None l) D1 D2) as E.
  set (h1 := join h p l r (after r None) (before None l)) in *.
  set (h' := alter (fun x => Node None None None (fchild x) (lchild x)) (root u) h1).
  assert (forall m, m <> root u -> h' !! m = h1 !! m) as Hh' by (intros m Hm; by apply lookup_alter_ne).
  exists h'. repeat split; try done.
  - unfold Disconnect, deref. rewrite Hru. cbn [obind parent psibling nsibling].
    assert (upd h1 (root u) (fun x => Node None None None (fchild x) (lchild x)) = Done h') as <-.
    { apply upd_alter. unfold h1. rewrite join_dom. apply elem_of_dom. by eexists. }
    destruct (before None l); destruct (upd h _ _); cbn [obind] in *; by rewrite E.
  - eapply (swap_repr h h'); [|by apply swap_sym|done| | |exact Hr]; [done| |].
    + intros m Hm HmY. rewrite walk_node in HmY. rewrite !not_elem_of_cons, !not_elem_of_app in HmY. destruct HmY as (M1 & M2 & M3 & M4).
      rewrite Hh' by (intros ->; apply M3, root_walk). by apply join_ne.
    + intros p0 ps0 ns0 HY0. pose proof (repr_with _ _ _ _ _ _ _ _ HY0) as (Hp0 & _). rewrite Hp in Hp0. injection Hp0 as -> -> ->.
      apply repr_unfold. destruct (Hout (root u) (root_walk u)) as (O1 & O2 & O3). split.
      * rewrite Hh' by congruence. rewrite J3. cbn [parent psibling nsibling fchild lchild]. do 2 f_equal; [by destruct l, r|].
        unfold before. rewrite last_app. destruct r as [|c r _] using rev_ind; [by destruct (list.last l)|]. rewrite last_snoc. by destruct r.
      * apply reprs_seg, seg_app. split; (eapply seg_frame; [|eassumption]); intros m Hm; apply Hh'; congruence.
  - eapply repr_moved; [exact Hu| |done|].
    + intros m Hm Hne. rewrite Hh' by done. apply join_ne; apply (Hout m Hm).
    + unfold h'. rewrite lookup_alter_eq. unfold h1. by rewrite join_ne by (apply (Hout _ (root_walk u))).
  - unfold h', h1. by rewrite dom_alter_L, join_dom.
  - intros m Hm. assert (m ∉ walk (T p (l ++ u :: r))) as Hm' by (intros H; apply Hm; eapply swap_elem; [by apply swap_sym|done]).
    rewrite walk_node in Hm'. rewrite not_elem_of_cons, !not_elem_of_app in Hm'. destruct Hm' as (M1 & M2 & M3 & M4).
    rewrite Hh' by (intros ->; apply M3, root_walk). by apply join_ne.
Qed.

Lemma alter_swap (h : heap) f g i j : (forall x, f (g x) = g (f x)) -> alter f i (alter g j h) = alter g j (alter f i h).
Proof.
  intros Hfg. apply map_eq. intros m. rewrite !lookup_alter. repeat case_decide; subst; try done. destruct (h !! m); simpl; [|done]. f_equal. apply Hfg.
Qed.

Lemma alter_twice (h : heap) f g i : alter f i (alter g i h) = alter (fun x => f (g x)) i h.
Proof. apply map_eq. intros m. rewrite !lookup_alter. repeat case_decide; subst; try done. by destruct (h !! m). Qed.

Lemma join_swap h p l r x y : join h p l r x y = setNext (setPrev h p (after r None) y) p (before None l) x.
Proof. unfold join, setPrev, setNext. destruct (before None l), (after r None); by apply alter_swap. Qed.

(** A place between [l] and [r] that a reference sibling determines: behind the
    last node of [l] or in front of the first node of [r]. *)
Definition place (behind : bool) (l r : list tree) : Prop := if behind then l = [] -> r = [] else r = [] -> l = [].
Definition refers (behind : bool) (l r : list tree) : option nat := if behind then before None l else after r None.

(** The links of the new child. *)
Definition moved (h : heap) (n p : nat) (l r : list tree) : heap :=
  alter (fun x => Node (Some p) (before None l) (after r None) (fchild x) (lchild x)) n h.

Lemma before_nil l : before None l = None -> l = [].
Proof. unfold before. destruct (list.last l) eqn:E; [done|]. intros _. by apply last_None in E. Qed.

Lemma before_last l n : before None l = Some n -> exists l0 c, l = l0 ++ [c] /\ root c = n.
Proof.
  unfold before. destruct (list.last l) as [c|] eqn:E; [|done]. intros [= <-]. destruct l as [|c' l0 _] using rev_ind; [done|].
  rewrite last_snoc in E. injection E as ->. by exists l0, c.
Qed.

Lemma only_child h n p fu lu : h !! n = Some (Node None None None fu lu) ->
  alter (fun x => setFchild (Some n) (setLchild (Some n) x)) p (alter (fun x => Node (Some p) (psibling x) (nsibling x) (fchild x) (lchild x)) n h) =
  join (moved h n p [] []) p [] [] (Some n) (Some n).
Proof.
  intros Hn. unfold join, moved, setNext, setPrev. cbn [before after list.last]. rewrite alter_twice.
  assert (alter (fun x => Node (Some p) (psibling x) (nsibling x) (fchild x) (lchild x)) n h =
          alter (fun x => Node (Some p) None None (fchild x) (lchild x)) n h) as ->; [|done].
  apply map_eq. intros m. destruct (decide (n = m)) as [<-|]; [by rewrite !lookup_alter_eq, Hn|by rewrite !lookup_alter_ne].
Qed.

(** What [attach] computes. *)
Lemma attach_eq h n p l r s behind fu lu Xp : place behind l r -> n <> p -> h !! n = Some (Node None None None fu lu) ->
  h !! p = Some Xp -> seg h p None l (after r None) -> seg h p (before None l) r None ->
  (n ∉ flat_map walk l) -> (n ∉ flat_map walk r) ->
  reference (alter (fun x => Node (Some p) (psibling x) (nsibling x) (fchild x) (lchild x)) n h) p s behind = Done (refers behind l r) ->
  attach h n p s behind = Done (join (moved h n p l r) p l r (Some n) (Some n)).
Proof.
  intros Hpl Hnp Hn Hp Hl Hr Nl Nr Href. unfold attach. rewrite upd_alter by (apply elem_of_dom; by eexists). cbn [obind].
  rewrite Href. cbn [obind]. set (h1 := alter _ n h) in *.
  destruct (joinable h p l r Xp _ _ Hp Hl Hr) as [D1 D2].
  assert (forall c, c ∈ l ++ r -> h1 !! root c = h !! root c) as Hsib.
  { intros c Hc. apply lookup_alter_ne. intros ->. apply elem_of_app in Hc as [Hc|Hc]; apply root_elem in Hc; done. }
  assert (n ∈ dom h1) as Dn by (unfold h1; rewrite dom_alter_L; apply elem_of_dom; by eexists).
  assert (dom (moved h n p l r) = dom h) as Dm by apply dom_alter_L.
  pose proof (upd_join (moved h n p l r) p l r (Some n) (Some n)) as E. rewrite Dm in E. specialize (E D1 D2).
  destruct behind; unfold refers in *.
  - destruct (before None l) as [a|] eqn:Ea.
    + destruct (before_last l a Ea) as (l0 & c & -> & <-). apply seg_app in Hl as [_ [Hc _]]. destruct (root_node _ _ _ _ _ Hc) as (f & g & Hc').
      unfold deref. rewrite Hsib, Hc' by (rewrite !elem_of_app, list_elem_of_singleton; auto). cbn [obind nsibling]. rewrite upd_alter by done. cbn [obind].
      assert (alter (fun x => setPsibling (Some (root c)) (setNsibling (after r None) x)) n h1 = moved h n p (l0 ++ [c]) r) as ->.
      { unfold h1, moved. rewrite alter_twice, Ea. done. }
      rewrite <- E. destruct (upd _ (root c) _); cbn [obind]; [|done..]. by destruct (after r None).
    + apply before_nil in Ea as ->. rewrite (Hpl eq_refl) in *. cbn [join] in *. rewrite upd_alter by (unfold h1; by rewrite dom_alter_L). f_equal. by eapply only_child.
  - destruct r as [|c r].
    + rewrite (Hpl eq_refl) in *. cbn [after]. rewrite upd_alter by (unfold h1; by rewrite dom_alter_L). f_equal. by eapply only_child.
    + cbn [after]. destruct Hr as [Hc _]. destruct (root_node _ _ _ _ _ Hc) as (f & g & Hc').
      unfold deref. rewrite Hsib, Hc' by (rewrite elem_of_app, elem_of_cons; auto). cbn [obind psibling]. rewrite upd_alter by done. cbn [obind].
      assert (alter (fun x => setPsibling (before None l) (setNsibling (Some (root c)) x)) n h1 = moved h n p l (c :: r)) as ->.
      { unfold h1, moved. by rewrite alter_twice. }
      rewrite join_swap. cbn [after setPrev]. rewrite upd_alter by (rewrite Dm; apply D2; rewrite elem_of_app, elem_of_cons; auto). cbn [obind].
      unfold setNext. destruct (before None l) as [a|] eqn:Ea; apply upd_alter; rewrite dom_alter_L, Dm; [|done].
      destruct (before_last l a Ea) as (l0 & c0 & -> & <-). apply D2. rewrite !elem_of_app, list_elem_of_singleton. auto.
Qed.

(** The reference sibling that is passed and the place it stands for. *)
Definition chosen (s : option nat) (behind : bool) (l r : list tree) : Prop :=
  match s, behind with
  | None, true => r = []
  | None, false => l = []
  | Some x, true => before None l = Some x
  | Some x, false => after r None = Some x
  end.

Lemma chosen_place s behind l r : chosen s behind l r -> place behind l r.
Proof. unfold chosen, place. destruct s, behind; [by intros H ->|by intros H ->|done..]. Qed.

Lemma repr_without h q ps ns p l r : repr h q ps ns (T p (l ++ r)) ->
  h !! p = Some (Node q ps ns (after l (after r None)) (before (before None l) r)) /\
  seg h p None l (after r None) /\ seg h p (before None l) r None.
Proof.
  intros Hr. apply repr_unfold in Hr as [Hx Hcs]. apply reprs_seg, seg_app in Hcs as [H1 H2]. repeat split; try done.
  rewrite Hx. do 2 f_equal; [destruct l; [by destruct r|done]|]. unfold before. rewrite last_app. destruct (list.last r); [done|]. by destruct (list.last l).
Qed.

Lemma chosen_reference h n q ps ns p l r s behind : repr h q ps ns (T p (l ++ r)) -> n <> p -> (n ∉ flat_map walk l) -> (n ∉ flat_map walk r) ->
  chosen s behind l r ->
  reference (alter (fun x => Node (Some p) (psibling x) (nsibling x) (fchild x) (lchild x)) n h) p s behind = Done (refers behind l r).
Proof.
  intros Hr Hnp Nl Nr Hc. pose proof (repr_without _ _ _ _ _ _ _ Hr) as (Hp & H1 & H2). unfold reference, deref, refers.
  rewrite lookup_alter_ne, Hp by done. cbn [obind lchild fchild]. destruct s as [x|]; cbn [chosen] in Hc.
  - assert (exists y, h !! x = Some y /\ parent y = Some p /\ n <> x) as (y & Hy & Hyp & Hne).
    { destruct behind.
      - destruct (before_last l x Hc) as (l0 & c & -> & <-). apply seg_app in H1 as [_ [H1 _]]. destruct (root_node _ _ _ _ _ H1) as (f & g & Hy).
        eexists. split; [exact Hy|]. split; [done|]. intros ->. apply Nl, root_elem, elem_of_app. right. by apply list_elem_of_singleton.
      - destruct r as [|c r]; [done|]. injection Hc as <-. destruct H2 as [H2 _]. destruct (root_node _ _ _ _ _ H2) as (f & g & Hy).
        eexists. split; [exact Hy|]. split; [done|]. intros ->. apply Nr, root_elem, elem_of_cons. by left. }
    rewrite lookup_alter_ne, Hy by done. cbn [obind]. rewrite bool_decide_true by done. destruct behind; cbn [chosen] in Hc; by rewrite Hc.
  - destruct behind; subst; done.
Qed.

(** The part [u], which has no parent, becomes a child of [p]. *)
Lemma attached h t t' p l u r s behind : linked h t -> linked h u -> (forall m, m ∈ walk t -> m ∉ walk u) ->
  swap (T p (l ++ r)) (T p (l ++ u :: r)) t t' -> chosen s behind l r ->
  exists h', attach h (root u) p s behind = Done h' /\ linked h' t' /\ dom h' = dom h.
Proof.
  intros [Hr Nt] [Hu Nu] Hd Hs Hc. pose proof (swap_perm _ _ _ _ _ (with_perm p l u r) Hs) as HP.
  destruct (swap_part h _ _ _ _ Hs _ _ _ Hr) as (q & ps & ns & HX). pose proof (repr_without _ _ _ _ _ _ _ HX) as (Hp & Hl & Hrr).
  destruct (apart p l r u (swap_nodup _ _ _ _ Hs Nt)) as [(A1 & A2 & A3 & A4 & A5) Hout]; [intros m Hm; apply Hd; eapply swap_elem; [exact Hs|exact Hm]|].
  destruct (root_node _ _ _ _ _ Hu) as (fu & lu & Hru). destruct (Hout (root u) (root_walk u)) as (O1 & O2 & O3).
  rewrite (attach_eq h (root u) p l r s behind fu lu _ (chosen_place _ _ _ _ Hc) O1 Hru Hp Hl Hrr O2 O3 (chosen_reference _ _ _ _ _ _ _ _ _ _ HX O1 O2 O3 Hc)).
  assert (forall m, m <> root u -> moved h (root u) p l r !! m = h !! m) as Hm' by (intros m Hm; by apply lookup_alter_ne).
  set (h1 := moved h (root u) p l r) in *.
  assert (seg h1 p None l (after r None)) as Hl1 by (eapply seg_frame; [|exact Hl]; intros m Hm; apply Hm'; congruence).
  assert (seg h1 p (before None l) r None) as Hr1 by (eapply seg_frame; [|exact Hrr]; intros m Hm; apply Hm'; congruence).
  assert (h1 !! p = h !! p) as Hp1 by (apply Hm'; congruence). rewrite Hp in Hp1.
  destruct (joined h1 p l r _ _ (Some (root u)) (Some (root u)) _ Hp1 Hl1 Hr1 A1 A2 A3 A4 A5) as (J1 & J2 & J3).
  eexists. split; [done|]. split; [split|].
  - eapply (swap_repr h); [|exact Hs|exact Nt| | |exact Hr]; [done| |].
    + intros m Hm HmX. cbn [walk] in HmX. rewrite flat_map_app, not_elem_of_cons, not_elem_of_app in HmX. destruct HmX as (M1 & M2 & M3).
      rewrite join_ne by done. apply Hm'. intros ->. apply (Hd _ Hm), root_walk.
    + intros p0 ps0 ns0 HX0. pose proof (repr_without _ _ _ _ _ _ _ HX0) as (Hp0 & _). rewrite Hp in Hp0. injection Hp0 as -> -> ->.
      apply repr_unfold. split.
      * rewrite J3. cbn [parent psibling nsibling fchild lchild]. do 2 f_equal; [by destruct l|].
        unfold before. rewrite last_app, last_cons. destruct r as [|c r _] using rev_ind; [done|]. rewrite last_snoc. by destruct r.
      * apply reprs_seg, seg_app. split; [done|]. split; [|done]. change (repr (join h1 p l r (Some (root u)) (Some (root u))) (Some p) (before None l) (after r None) u).
        eapply repr_moved; [exact Hu| |done|].
        -- intros m Hm Hne. rewrite join_ne by (apply (Hout m Hm)). by apply Hm'.
        -- rewrite join_ne by done. apply lookup_alter_eq.
  - rewrite HP. apply NoDup_app. done.
  - rewrite join_dom. apply dom_alter_L.
Qed.

Lemma ups_without h p l u r t t' : swap (T p (l ++ r)) (T p (l ++ u :: r)) t t' -> forall q, ups h q t' -> ups h q t.
Proof.
  induction 1 as [|n a c c' b Hs IH]; intros q Hu; inversion Hu as [q' m cs x Hx Hp Hcs]; subst; (econstructor; [exact Hx|done|]);
    intros d Hd; rewrite ?elem_of_app, ?elem_of_cons in Hd.
  - apply Hcs. rewrite elem_of_app, elem_of_cons. tauto.
  - destruct Hd as [Hd|[->|Hd]]; [apply Hcs; rewrite elem_of_app, elem_of_cons; tauto| |apply Hcs; rewrite elem_of_app, elem_of_cons; tauto].
    apply IH, Hcs. rewrite elem_of_app, elem_of_cons. auto.
Qed.

(** [ReparentTo()] moves a part of the tree to the place it is told, if that is
    not within the part. *)
Theorem reparented h t t1 t2 p0 l0 r0 p l r u s behind :
  linked h t1 -> swap (T p0 (l0 ++ r0)) (T p0 (l0 ++ u :: r0)) t t1 ->
  swap (T p (l ++ r)) (T p (l ++ u :: r)) t t2 -> chosen s behind l r ->
  exists h', DoReparentTo h (root u) p s behind = Done (h', true) /\ linked h' t2.
Proof.
  intros Hl Hs1 Hs2 Hc. pose proof (swap_perm _ _ _ _ _ (with_perm p0 l0 u r0) Hs1) as HP. pose proof (linked_size _ _ Hl) as Hsz.
  pose proof (proj2 Hl) as Hn. rewrite HP in Hn. apply NoDup_app in Hn as (_ & Hd & _).
  assert (p ∈ walk t) as Hp by (eapply swap_elem; [exact Hs2|]; apply elem_of_cons; by left).
  assert (root u ∉ walk t) as Hnu by (intros H; apply (Hd _ H), root_walk).
  unfold DoReparentTo. rewrite bool_decide_false by congruence.
  destruct (descendant_steps h t p (root u)) as (b & -> & Hb); [|rewrite HP, length_app in Hsz; lia|done|].
  { eapply ups_without; [exact Hs1|]. eapply repr_ups, Hl. }
  rewrite (Hb Hnu). cbn [obind]. destruct (disconnected h t t1 p0 l0 u r0 Hl Hs1) as (h1 & -> & Ht & Hu & _). cbn [obind].
  destruct (attached h1 t t2 p l u r s behind Ht Hu Hd Hs2 Hc) as (h2 & -> & Hl2 & _). by exists h2.
Qed.

Lemma ups_part h u X t t' : swap u X t t' -> forall q, ups h q t -> exists q, ups h q u.
Proof.
  induction 1 as [|n a c c' b Hs IH]; intros q Hu; [by exists q|]. inversion Hu as [q' m cs x Hx Hp Hcs]; subst.
  eapply IH, Hcs. rewrite elem_of_app, elem_of_cons. auto.
Qed.

(** A node is not moved below itself; [u] is a part of the tree. *)
Theorem reparent_refused h t p u s behind : linked h t -> swap u u t t -> p ∈ walk u -> DoReparentTo h (root u) p s behind = Done (h, false).
Proof.
  intros Hl Hs Hp. unfold DoReparentTo. case_bool_decide as Hpu; [done|].
  assert (ups h None t) as Hu by (eapply repr_ups, Hl).
  destruct (descendant_steps h t p (root u) Hu (linked_size _ _ Hl)) as (b & E & _); [by eapply swap_elem|]. rewrite E. cbn [obind].
  destruct (descendant_steps h t (root u) (root u) Hu (linked_size _ _ Hl)) as (b0 & E0 & _); [eapply swap_elem; [exact Hs|apply root_walk]|].
  destruct (ups_part _ _ _ _ _ Hs _ Hu) as [q Hq]. destruct u as [n cs]. inversion Hq as [q' m cs' x Hx Hxp Hcs]; subst. cbn [root walk] in *.
  apply elem_of_cons in Hp as [->|Hp]; [done|]. apply list_elem_of_In, in_flat_map in Hp as (c & Hc & Hp). apply list_elem_of_In in Hc, Hp.
  pose proof (ups_step h n c n _ _ (Hcs c Hc) E0) as Hc1. rewrite bool_decide_true in Hc1 by done.
  destruct (walk_descendant h n c _ _ _ (Hcs c Hc) Hc1 p Hp) as (b' & E' & Hb' & _). rewrite (Hb' eq_refl) in E'.
  apply (descendant_more _ _ _ _ _ (steps h)) in E'. apply (descendant_more _ _ _ _ _ (S (steps h) + length (walk c))) in E.
  rewrite Nat.add_comm in E'. rewrite E in E'. injection E' as ->. done.
Qed.

(** A new node becomes the last or the first child of its parent. *)
Theorem node_added h t p cs n (behind : bool) : linked h t -> (n ∉ dom h) -> forall t', swap (T p cs) (T p (if behind then cs ++ [T n []] else T n [] :: cs)) t t' ->
  exists h', newNode h n (Some p) behind = Done h' /\ linked h' t' /\ dom h' = {[n]} ∪ dom h.
Proof.
  intros Hl Hn t' Hs. unfold newNode. set (h0 := <[n := Node None None None None None]> h).
  assert (forall m, m ∈ walk t -> m <> n) as Hne by (intros m Hm ->; apply Hn; eapply repr_live; [apply Hl|done]).
  assert (linked h0 t) as Hl0.
  { split; [|apply Hl]. eapply repr_frame; [|apply Hl]. intros m Hm. apply lookup_insert_ne. intros ->. by apply (Hne _ Hm). }
  assert (linked h0 (T n [])) as Hu by (split; [apply repr_unfold; split; [apply lookup_insert_eq|done]|apply NoDup_singleton]).
  assert (p ∈ walk t) as Hp by (eapply swap_elem; [exact Hs|]; apply elem_of_cons; by left).
  assert (n ∉ walk t) as Hnt by (intros H; by apply (Hne n)).
  unfold DoReparentTo. rewrite bool_decide_false by (by apply Hne).
  destruct (descendant_steps h0 t p n) as (b & -> & Hb); [eapply repr_ups, Hl0|by apply linked_size|done|]. rewrite (Hb Hnt). cbn [obind].
  unfold Disconnect, deref. unfold h0 at 1. rewrite lookup_insert_eq. cbn [obind parent].
  assert (forall m, m ∈ walk t -> m ∉ walk (T n [])) as Hd by (intros m Hm [->|[]%not_elem_of_nil]%elem_of_cons; done).
  assert (exists l r, T p cs = T p (l ++ r) /\ T p (if behind then cs ++ [T n []] else T n [] :: cs) = T p (l ++ T n [] :: r) /\ chosen None behind l r) as (l & r & E1 & E2 & Hc).
  { destruct behind; [exists cs, []; by rewrite app_nil_r|by exists [], cs]. }
  rewrite E1, E2 in Hs. destruct (attached h0 t t' p l (T n []) r None behind Hl0 Hu Hd Hs Hc) as (h2 & E & Hl2 & Hdom). cbn [root] in E. rewrite E.
  cbn [obind fst]. exists h2. split; [done|]. split; [done|]. rewrite Hdom. apply dom_insert_L.
Qed.

End Tnode.

(** ** A tree of five nodes *)

Module NodeSamples.
Import Tnode.

Definition sampleHeap : heap :=
  match (let! h := newNode ∅ 0 None true in let! h := newNode h 1 (Some 0) true in let! h := newNode h 2 (Some 1) true in
         let! h := newNode h 3 (Some 1) true in newNode h 4 (Some 0) true)%nat with
  | Done h => h
  | _ => ∅
  end.
Definition sampleTree : tree := (T 0 [T 1 [T 2 []; T 3 []]; T 4 []])%nat.

Lemma sample_linked : linked sampleHeap sampleTree.
Proof. split; [repeat split; vm_compute; reflexivity|]. apply (bool_decide_unpack _). vm_compute. exact I. Qed.

(** The last node of the inner part is moved to the end of the outer one. *)
Lemma reparented_witness : exists h', DoReparentTo sampleHeap 3 0 None true = Done (h', true) /\ linked h' (T 0 [T 1 [T 2 []]; T 4 []; T 3 []])%nat.
Proof.
  apply (reparented sampleHeap (T 0 [T 1 [T 2 []]; T 4 []])%nat sampleTree _ 1 [T 2 []]%nat [] 0 [T 1 [T 2 []]; T 4 []]%nat [] (T 3 [])%nat None true sample_linked).
  - apply (Swap_below _ _ 0%nat [] _ _ [T 4 []]%nat). constructor.
  - constructor.
  - reflexivity.
Defined.

Lemma reparent_refused_witness : DoReparentTo sampleHeap 1 3 None true = Done (sampleHeap, false).
Proof.
  apply (reparent_refused sampleHeap sampleTree 3 (T 1 [T 2 []; T 3 []]) None true sample_linked).
  - apply (Swap_below _ _ 0%nat [] _ _ [T 4 []]%nat). constructor.
  - apply (bool_decide_unpack _). vm_compute. exact I.
Defined.

End NodeSamples.
