(* ===== verification/Focus.v ===== *)
(** * The keyboard focus in the text mode

    src/libyui-ncurses/src/NCDialog.cc and NCWidget.cc: which widget of a dialog
    has the keyboard focus, and how keys, widgets that are disabled or deleted and
    the dialog itself change it. *)

From S2P Require Import Prelude NodeTree.
From stdpp Require Import gmap.

(** ** The keyboard focus *)

Module NCDialog.
Import Tnode.

Inductive WState := WSdumb | WSnormal | WSactive | WSdisabled.

#[global] Instance WState_eq_dec : EqDecision WState.
Proof. solve_decision. Defined.

(** A dialog, which is the root of its tree: the states of its widgets, the
    widgets it has grabbed, and the one that is to have the focus. *)
Record dialog := Dialog {
  nodes : heap;
  this : nat;
  wstate : gmap nat WState;
  grabbed : gset nat;
  wActive : option nat;
  active : bool }.

Definition SetState (d : dialog) (w : nat) (s : WState) : dialog :=
  Dialog (nodes d) (this d) (<[w := s]> (wstate d)) (grabbed d) (wActive d) (active d).
Definition withGrabbed (d : dialog) (g : gset nat) : dialog :=
  Dialog (nodes d) (this d) (wstate d) g (wActive d) (active d).
Definition withActive (d : dialog) (w : option nat) : dialog :=
  Dialog (nodes d) (this d) (wstate d) (grabbed d) w (active d).

Definition GetState (d : dialog) (w : nat) : outcome WState :=
  match wstate d !! w with Some s => Done s | None => Undefined end.

Section focus.

(** Which widgets have a window. *)
Context (winExist : nat -> bool).

Inductive SeekDir := ForwardDir | BackwardDir.

Definition seek (d : dialog) (dir : SeekDir) (w : nat) : outcome nat :=
  let! o := match dir with ForwardDir => Next (nodes d) w true | BackwardDir => Prev (nodes d) w true end in
  match o with Some c => Done c | None => Undefined end.

(** [grabRelease( this )] and [grabSet( this )] of a widget that no other dialog
    has grabbed. *)
Definition grabActive (d : dialog) (nactive : option nat) : dialog :=
  let d := match wActive d with
           | Some w => if bool_decide (w = this d) then d else withGrabbed d (grabbed d ∖ {[w]})
           | None => d
           end in
  let d := match nactive with
           | Some w => if bool_decide (w = this d) then d else withGrabbed d ({[w]} ∪ grabbed d)
           | None => d
           end in
  withActive d nactive.

Fixpoint normalLoop (fuel : nat) (d : dialog) (startwith c : nat) (dir : SeekDir) : outcome (dialog * nat) :=
  match fuel with
  | O => NoFuel
  | S fuel' =>
      if bool_decide (c = startwith) then Done (d, c)
      else
        let! s := GetState d c in
        if bool_decide (s = WSnormal) && winExist c then Done (d, c)
        else if bool_decide (s = WSactive) then Done (SetState d c WSnormal, c)
        else let! c := seek d dir c in normalLoop fuel' d startwith c dir
  end.

Definition GetNormal (d : dialog) (startwith : nat) (dir : SeekDir) : outcome (dialog * nat) :=
  let! c := seek d dir startwith in normalLoop (steps (nodes d)) d startwith c dir.

(** [Activate( nactive )]. *)
Definition ActivateWidget (d : dialog) (nactive : nat) : outcome (dialog * bool) :=
  let! s := GetState d nactive in
  match s with
  | WSactive => Done (d, true)
  | WSnormal =>
      match wActive d with
      | None => Undefined
      | Some w =>
          let! s := GetState d w in
          let d := if bool_decide (s = WSactive) then SetState d w WSnormal else d in
          let d := if active d then SetState d nactive WSactive else d in
          Done (grabActive d (Some nactive), true)
      end
  | _ => Done (d, false)
  end.

(** [Activate( Direction )]; [None] is the null pointer. *)
Definition Activate (d : dialog) (dir : option SeekDir) : outcome dialog :=
  let d := match wActive d with None => grabActive d (Some (this d)) | Some _ => d end in
  match wActive d with
  | None => Undefined
  | Some w =>
      let! r := match dir with
                | None => ActivateWidget d w
                | Some _ => Done (d, false)
                end in
      if snd r : bool then Done (fst r)
      else
        let! n := GetNormal (fst r) w (default ForwardDir dir) in
        let! r := ActivateWidget (fst n) (snd n) in
        Done (fst r)
  end.

Definition ActivateNext (d : dialog) : outcome dialog := Activate d (Some ForwardDir).
Definition ActivatePrev (d : dialog) : outcome dialog := Activate d (Some BackwardDir).

Definition Deactivate (d : dialog) : outcome dialog :=
  match wActive d with
  | None => Undefined
  | Some w => let! s := GetState d w in Done (if bool_decide (s = WSactive) then SetState d w WSnormal else d)
  end.

(** The part of [activate( newactive )] that changes the focus, for a dialog
    that has a panel, which may be hidden. *)
Definition activate (d : dialog) (hidden newactive : bool) : outcome dialog :=
  if bool_decide (active d = newactive) && negb hidden then Done d
  else
    let d := Dialog (nodes d) (this d) (wstate d) (grabbed d) (wActive d) newactive in
    if newactive then Activate d None else Deactivate d.

(** A widget that is disabled or deleted gives the focus back. *)
Definition grabNotify (d : dialog) (mgrab : nat) : outcome dialog :=
  if bool_decide (wActive d = Some mgrab) then
    let! d := ActivateNext d in
    Done (if bool_decide (wActive d = Some mgrab) then grabActive d (Some (this d)) else d)
  else Done d.

(** [grabRelease( 0 )]. *)
Definition grabRelease (d : dialog) (w : nat) : outcome dialog :=
  let! d := if bool_decide (w ∈ grabbed d) then grabNotify d w else Done d in
  Done (withGrabbed d (grabbed d ∖ {[w]})).

(** [setEnabled( do_bv )] of a widget without children. *)
Definition leafEnabled (d : dialog) (w : nat) (do_bv : bool) : outcome dialog :=
  let! s := GetState d w in
  match s, do_bv with
  | WSdumb, _ => Done d
  | WSdisabled, true => Done (SetState d w WSnormal)
  | WSdisabled, false => Done d
  | WSactive, false => let! d := grabRelease d w in Done (SetState d w WSdisabled)
  | WSnormal, false => Done (SetState d w WSdisabled)
  | _, true => Done d
  end.

(** The loop over the widgets below [this]; [enable] is the call for one of
    them. *)
Fixpoint enableBelow (enable : dialog -> nat -> outcome dialog) (fuel : nat) (d : dialog) (this : nat) (c : option nat) : outcome dialog :=
  match c with
  | None => Done d
  | Some c =>
      match fuel with
      | O => NoFuel
      | S fuel' =>
          let! below := IsDescendantOf (steps (nodes d)) (nodes d) c this in
          if below : bool then
            let! s := GetState d c in
            let! d := if bool_decide (s = WSdumb) then Done d else enable d c in
            let! n := Next (nodes d) c false in
            enableBelow enable fuel' d this n
          else Done d
      end
  end.

(** [setEnabled( do_bv )] of any widget. *)
Fixpoint enableTree (depth : nat) (do_bv : bool) (d : dialog) (w : nat) : outcome dialog :=
  match depth with
  | O => NoFuel
  | S depth' =>
      let! x := deref (nodes d) w in
      match fchild x with
      | Some _ =>
          let! n := Next (nodes d) w false in
          enableBelow (enableTree depth' do_bv) (steps (nodes d)) d w n
      | None => leafEnabled d w do_bv
      end
  end.

Definition setEnabled (d : dialog) (w : nat) (do_bv : bool) : outcome dialog :=
  enableTree (steps (nodes d)) do_bv d w.

(** [ActivateByKey( key )]: [hot] tells of a widget whether the key belongs to
    it. *)
Fixpoint keyLoop (fuel : nat) (d : dialog) (hot : nat -> bool) (c : option nat) (buddy : option nat) : outcome (dialog * bool) :=
  match c with
  | None => Done (d, false)
  | Some c =>
      match fuel with
      | O => NoFuel
      | S fuel' =>
          let! s := GetState d c in
          let next b := let! n := Next (nodes d) c false in keyLoop fuel' d hot n b in
          match s with
          | WSnormal | WSactive =>
              if hot c then let! r := ActivateWidget d c in Done (fst r, true)
              else
                match buddy with
                | None => next None
                | Some b =>
                    let! below := IsDescendantOf (steps (nodes d)) (nodes d) c b in
                    if below : bool then let! r := ActivateWidget d c in Done (fst r, true)
                    else next None
                end
          | WSdumb => next (if hot c then Some c else buddy)
          | WSdisabled => next buddy
          end
      end
  end.

Definition ActivateByKey (d : dialog) (hot : nat -> bool) : outcome (dialog * bool) :=
  let! n := Next (nodes d) (this d) false in keyLoop (steps (nodes d)) d hot n None.

(** *** One widget has the focus *)

(** What always holds: the links form the tree of the dialog, and no widget but
    [wActive] is active. *)
Record inv (d : dialog) (t : tree) : Prop := Inv {
  v_tree : linked (nodes d) t;
  v_root : root t = this d;
  v_states : forall m, m ∈ walk t -> is_Some (wstate d !! m);
  v_active : exists a, wActive d = Some a /\ a ∈ walk t;
  v_single : forall m, wstate d !! m = Some WSactive -> wActive d = Some m;
  v_grabbed : forall m, m ∈ grabbed d <-> (wActive d = Some m /\ m <> this d) }.

(** While widgets are deleted, the focus can be in a part that is no longer
    connected with the dialog. The links, the dialog and all its widgets: *)
Record world := World { links : heap; home : nat; members : list nat }.

Section grip.
Context (W : world).

(** The focus is in the tree [t], whose root need not be the dialog. *)
Record grip (d : dialog) (t : tree) : Prop := Grip {
  g_nodes : nodes d = links W;
  g_this : this d = home W;
  g_tree : linked (nodes d) t;
  g_members : forall m, m ∈ walk t -> m ∈ members W;
  g_states : forall m, m ∈ members W -> is_Some (wstate d !! m);
  g_active : exists a, wActive d = Some a /\ a ∈ walk t;
  g_single : forall m, wstate d !! m = Some WSactive -> wActive d = Some m;
  g_grabbed : forall m, m ∈ grabbed d <-> (wActive d = Some m /\ m <> this d) }.

Lemma GetState_grip d t m : grip d t -> m ∈ walk t -> exists s, wstate d !! m = Some s /\ GetState d m = Done s.
Proof. intros Hi Hm. destruct (g_states _ _ Hi m (g_members _ _ Hi m Hm)) as [s Hs]. exists s. unfold GetState. by rewrite Hs. Qed.

Lemma walk_live t m : m ∈ walk t -> exists k, walk t !! k = Some m.
Proof. apply list_elem_of_lookup_1. Qed.

(** The walk in a direction. *)
Definition order (dir : SeekDir) (t : tree) : list nat :=
  match dir with ForwardDir => walk t | BackwardDir => reverse (walk t) end.

Lemma seek_order d t dir k m : grip d t -> order dir t !! k = Some m ->
  exists c, seek d dir m = Done c /\ (match order dir t !! S k with Some x => Some x | None => head (order dir t) end) = Some c.
Proof.
  intros Hi Hk. pose proof (g_tree _ _ Hi) as Hl. unfold seek. destruct dir; simpl in *.
  - rewrite (next_walks _ t true k m Hl Hk). cbn [obind]. assert (head (walk t) = Some (root t)) as -> by by destruct t.
    destruct (walk t !! S k) as [c|]; by eexists.
  - rewrite reverse_lookup_Some in Hk. destruct Hk as [Hk Hlt].
    rewrite (prev_walks _ t true _ m Hl Hk). cbn [obind]. destruct (length (walk t) - S k)%nat as [|j] eqn:Ej.
    + destruct (last_walk t) as [z Hz]. rewrite Hz. exists z. split; [done|].
      rewrite (lookup_ge_None_2 (reverse (walk t))) by (rewrite length_reverse; lia). by rewrite head_reverse.
    + destruct (lookup_lt_is_Some_2 (walk t) j) as [c Hc]; [lia|]. rewrite Hc. exists c. split; [done|].
      assert (reverse (walk t) !! S k = Some c) as ->; [|done]. apply reverse_lookup_Some. split; [|lia].
      by replace (length (walk t) - S (S k))%nat with j by lia.
Qed.

(** A widget that can have the focus. *)
Definition focusable (d : dialog) (m : nat) : Prop :=
  (wstate d !! m = Some WSnormal \/ wstate d !! m = Some WSactive) /\ winExist m = true.

#[global] Instance focusable_dec d m : Decision (focusable d m).
Proof. unfold focusable. solve_decision. Defined.

Definition chain (d : dialog) (dir : SeekDir) (t : tree) : list nat := filter (focusable d) (order dir t).

Lemma order_elem dir t m : m ∈ order dir t <-> m ∈ walk t.
Proof. destruct dir; simpl; [done|]. by rewrite elem_of_reverse. Qed.

Lemma order_grip d dir t : grip d t -> NoDup (order dir t).
Proof. intros Hi. pose proof (proj2 (g_tree _ _ Hi)). destruct dir; simpl; [done|]. by rewrite reverse_Permutation. Qed.

(** The loop of [GetNormal]: [l] is what is left of the round. *)
Lemma normalLoop_spec d t dir a l : grip d t -> wActive d = Some a ->
  forall c fuel,
  (forall k m, l !! k = Some m -> m ∈ walk t /\ m <> a /\
     seek d dir m = Done (default a (l !! S k))) ->
  c = default a (head l) -> (length l < fuel)%nat ->
  normalLoop fuel d a c dir = Done (d, default a (head (filter (focusable d) l))).
Proof.
  intros Hi Ha. induction l as [|m l IH]; intros c fuel Hl -> Hf; destruct fuel as [|fuel]; try (simpl in Hf; lia).
  - simpl. by rewrite bool_decide_true.
  - destruct (Hl O m eq_refl) as (Hw & Hne & Hs). change (default a (head (m :: l))) with m. cbn [normalLoop]. rewrite bool_decide_false by done.
    destruct (GetState_grip d t m Hi Hw) as (st & Hst & ->). cbn [obind]. rewrite filter_cons.
    assert (st <> WSactive) as Hna. { intros ->. apply Hne. pose proof (g_single _ _ Hi m Hst). congruence. }
    destruct (decide (focusable d m)) as [[[E|E] Hwin]|Hnf].
    + rewrite Hst in E. injection E as ->. by rewrite bool_decide_true, Hwin.
    + rewrite Hst in E. congruence.
    + assert (bool_decide (st = WSnormal) && winExist m = false) as ->.
      { destruct (winExist m) eqn:Ew; [|by rewrite andb_false_r]. rewrite bool_decide_false; [done|].
        intros ->. apply Hnf. split; [by left|done]. }
      rewrite bool_decide_false by done. rewrite Hs. cbn [obind]. apply IH; [| |simpl in Hf; lia].
      * intros k x Hk. destruct (Hl (S k) x Hk) as (H1 & H2 & H3). done.
      * by destruct l.
Qed.

(** Around the tree once, from a widget on. *)
Definition round (w : list nat) (k : nat) : list nat := drop (S k) w ++ take k w.

Lemma round_next (w : list nat) k a : NoDup w -> w !! k = Some a -> forall i m, round w k !! i = Some m ->
  m <> a /\ exists j, w !! j = Some m /\
    (match w !! S j with Some x => Some x | None => head w end) = Some (default a (round w k !! S i)).
Proof.
  intros Hn Ha i m Hi. unfold round in *. pose proof (lookup_lt_Some _ _ _ Ha) as Hk.
  apply lookup_app_Some in Hi as [Hi|[Hge Hi]].
  - rewrite lookup_drop in Hi. split.
    { intros ->. pose proof (NoDup_lookup _ _ _ _ Hn Ha Hi). lia. }
    exists (S k + i)%nat. split; [done|]. destruct (decide (S i < length (drop (S k) w))%nat) as [Hlt|Hge].
    + rewrite (lookup_app_l _ _ (S i)) by done. rewrite lookup_drop. replace (S k + S i)%nat with (S (S k + i)) by lia.
      rewrite length_drop in Hlt. destruct (lookup_lt_is_Some_2 w (S (S k + i))) as [x ->]; [lia|done].
    + rewrite length_drop in Hge. apply lookup_lt_Some in Hi as Hlt. rewrite (lookup_ge_None_2 w) by lia.
      rewrite lookup_app_r by (rewrite length_drop; lia). rewrite length_drop. replace (S i - (length w - S k))%nat with O by lia.
      destruct k as [|k]; [|destruct w as [|x w]; [done|done]]. simpl. destruct w; simpl in *; congruence.
  - rewrite length_drop in *. assert (i - (length w - S k) < k)%nat as Hik by (apply lookup_lt_Some in Hi; rewrite length_take in Hi; lia).
    rewrite lookup_take_lt in Hi by done. split.
    { intros ->. pose proof (NoDup_lookup _ _ _ _ Hn Ha Hi). lia. }
    exists (i - (length w - S k))%nat. split; [done|]. rewrite lookup_app_r by (rewrite length_drop; lia). rewrite length_drop.
    replace (S i - (length w - S k))%nat with (S (i - (length w - S k))) by lia. set (j := (i - (length w - S k))%nat) in *.
    destruct (decide (S j < k)%nat).
    + rewrite lookup_take_lt by done. destruct (lookup_lt_is_Some_2 w (S j)) as [x ->]; [lia|done].
    + rewrite lookup_take_ge by lia. replace (S j) with k by lia. by rewrite Ha.
Qed.

Lemma round_length (w : list nat) k : (k < length w)%nat -> length (round w k) = (length w - 1)%nat.
Proof. intros H. unfold round. rewrite length_app, length_drop, length_take. lia. Qed.

Lemma order_length dir t : length (order dir t) = length (walk t).
Proof. destruct dir; [done|apply length_reverse]. Qed.

(** [GetNormal] finds the first widget of the round that can have the focus. *)
Lemma GetNormal_grip d t dir k a : grip d t -> wActive d = Some a -> order dir t !! k = Some a ->
  GetNormal d a dir = Done (d, default a (head (filter (focusable d) (round (order dir t) k)))).
Proof.
  intros Hi Ha Hk. unfold GetNormal. destruct (seek_order d t dir k a Hi Hk) as (c & -> & Hc). cbn [obind].
  pose proof (order_grip d dir t Hi) as Hn. pose proof (lookup_lt_Some _ _ _ Hk) as Hlt.
  apply (normalLoop_spec d t dir a (round (order dir t) k) Hi Ha).
  - intros i m Him. destruct (round_next _ k a Hn Hk i m Him) as (Hne & j & Hj & Hnext).
    split; [apply (order_elem dir); by eapply list_elem_of_lookup_2|]. split; [done|].
    destruct (seek_order d t dir j m Hi Hj) as (x & -> & Hx). rewrite Hnext in Hx. congruence.
  - unfold round. destruct (order dir t !! S k) as [x|] eqn:E.
    + rewrite (drop_S _ _ _ E). simpl. congruence.
    + rewrite drop_ge by (by apply lookup_ge_None). simpl. destruct (order dir t) as [|y w]; [done|]. simpl in Hc. injection Hc as <-.
      destruct k as [|k]; simpl in *; congruence.
  - rewrite round_length, order_length by done. pose proof (linked_size _ _ (g_tree _ _ Hi)). unfold steps. lia.
Qed.

(** [grip] without the states. *)
Record core (d : dialog) (t : tree) : Prop := Core {
  c_nodes : nodes d = links W;
  c_this : this d = home W;
  c_tree : linked (nodes d) t;
  c_members : forall m, m ∈ walk t -> m ∈ members W;
  c_states : forall m, m ∈ members W -> is_Some (wstate d !! m);
  c_active : exists a, wActive d = Some a /\ a ∈ walk t;
  c_grabbed : forall m, m ∈ grabbed d <-> (wActive d = Some m /\ m <> this d) }.

Lemma grip_core d t : grip d t -> core d t.
Proof. intros []. by constructor. Qed.

Lemma SetState_core d t w s : core d t -> core (SetState d w s) t.
Proof.
  intros [N1 N2 H1 H2 H3 H4 H6]. constructor; simpl; auto. intros m Hm.
  destruct (decide (w = m)) as [->|]; [rewrite lookup_insert_eq; by eexists|]. rewrite lookup_insert_ne by done. auto.
Qed.

(** Focusing a widget of the tree. *)
Lemma grabActive_grip d t w : core d t -> w ∈ walk t -> (forall m, wstate d !! m = Some WSactive -> m = w) -> grip (grabActive d (Some w)) t.
Proof.
  intros [N1 N2 H1 H2 H3 (a & Ha & Haw) H6] Hw Hs. unfold grabActive. rewrite Ha.
  set (d1 := if bool_decide (a = this d) then d else withGrabbed d (grabbed d ∖ {[a]})).
  assert (nodes d1 = nodes d /\ this d1 = this d /\ wstate d1 = wstate d /\ forall m, m ∉ grabbed d1) as (E1 & E2 & E3 & E4).
  { subst d1. case_bool_decide; simpl; (split_and!; [done..|]); intros m; [rewrite H6; intros [E ?]; congruence|].
    rewrite elem_of_difference, H6, elem_of_singleton. intros [[E ?] Hne]. congruence. }
  clearbody d1. case_bool_decide as Ec; constructor; simpl; rewrite ?E1, ?E2, ?E3; auto; try (by exists w); try (intros m Hm; f_equal; symmetry; by apply Hs).
  - intros m. split; [intros Hm; by destruct (E4 m)|]. intros [[= <-] Hne]. congruence.
  - intros m. rewrite elem_of_union, elem_of_singleton. split; [intros [->|Hm]; [|by destruct (E4 m)]|]; [split; [done|congruence]|].
    intros [[= <-] _]. by left.
Qed.

Lemma SetState_grip d t w s : grip d t -> w ∈ walk t -> (s = WSactive -> wActive d = Some w) -> grip (SetState d w s) t.
Proof.
  intros [N1 N2 H1 H2 H3 H4 H5 H6] Hw Hs. constructor; simpl; auto.
  - intros m Hm. destruct (decide (w = m)) as [->|]; [rewrite lookup_insert_eq; by eexists|]. rewrite lookup_insert_ne by done. auto.
  - intros m. destruct (decide (w = m)) as [->|]; [rewrite lookup_insert_eq; intros [=]; auto|]. rewrite lookup_insert_ne by done. apply H5.
Qed.

Lemma grabActive_fields d w : wActive (grabActive d (Some w)) = Some w /\ wstate (grabActive d (Some w)) = wstate d /\
  active (grabActive d (Some w)) = active d /\ nodes (grabActive d (Some w)) = nodes d.
Proof. unfold grabActive. destruct (wActive d); repeat case_bool_decide; done. Qed.

(** A widget that is not disabled gets the focus; it is active if the dialog
    is. *)
Lemma ActivateWidget_grip d t w : grip d t -> w ∈ walk t -> exists d' b, ActivateWidget d w = Done (d', b) /\ grip d' t /\ active d' = active d /\
  (wstate d !! w = Some WSnormal \/ wstate d !! w = Some WSactive -> b = true /\ wActive d' = Some w /\
     (active d = true -> wstate d' !! w = Some WSactive)) /\
  (wstate d !! w = Some WSdumb \/ wstate d !! w = Some WSdisabled -> b = false /\ d' = d) /\
  (forall m, focusable d' m <-> focusable d m).
Proof.
  intros Hi Hw. destruct (GetState_grip d t w Hi Hw) as (s & Hs & E). unfold ActivateWidget. rewrite E. cbn [obind].
  destruct s.
  - exists d, false. split; [done|]. split; [done|]. split; [done|]. split; [intros [?|?]; congruence|]. done.
  - destruct (g_active _ _ Hi) as (a & Ha & Haw). rewrite Ha. destruct (GetState_grip d t a Hi Haw) as (sa & Hsa & ->). cbn [obind].
    set (d1 := if bool_decide (sa = WSactive) then SetState d a WSnormal else d).
    set (d2 := if active d1 then SetState d1 w WSactive else d1).
    assert (a = w -> sa = WSnormal) as Haw' by (intros ->; congruence).
    assert (core d1 t /\ active d1 = active d /\ wActive d1 = Some a /\ (forall m, wstate d1 !! m <> Some WSactive) /\
      forall m, focusable d1 m <-> focusable d m) as (Hc1 & Ea1 & Ew1 & Hn1 & Hf1).
    { subst d1. case_bool_decide as Esa.
      - split; [by apply SetState_core, grip_core|]. split; [done|]. split; [done|]. split.
        + simpl. intros m. destruct (decide (a = m)) as [->|]; [by rewrite lookup_insert_eq|]. rewrite lookup_insert_ne by done.
          intros Hm. pose proof (g_single _ _ Hi m Hm). congruence.
        + intros m. unfold focusable. simpl. destruct (decide (a = m)) as [->|]; [|by rewrite lookup_insert_ne].
          rewrite lookup_insert_eq, Hsa, Esa. naive_solver.
      - split; [by apply grip_core|]. split; [done|]. split; [done|]. split; [|done].
        intros m Hm. pose proof (g_single _ _ Hi m Hm). congruence. }
    assert (core d2 t /\ active d2 = active d /\ (forall m, wstate d2 !! m = Some WSactive -> m = w) /\
      (active d = true -> wstate d2 !! w = Some WSactive) /\ (forall m, focusable d2 m <-> focusable d m)) as (Hc2 & Ea2 & Hn2 & Hact & Hf2).
    { subst d2. rewrite Ea1. destruct (active d) eqn:Ead.
      - split; [by apply SetState_core|]. split; [done|]. split; [|split].
        + simpl. intros m. destruct (decide (w = m)) as [->|]; [done|]. rewrite lookup_insert_ne by done. intros Hm. by destruct (Hn1 m).
        + intros _. simpl. by rewrite lookup_insert_eq.
        + intros m. rewrite <- Hf1. unfold focusable. simpl. destruct (decide (w = m)) as [->|]; [|by rewrite lookup_insert_ne].
          rewrite lookup_insert_eq. assert (wstate d1 !! m = Some WSnormal) as ->; [|naive_solver].
          subst d1. case_bool_decide as Esa; simpl; [|done]. destruct (decide (a = m)) as [->|]; [by rewrite lookup_insert_eq|]. by rewrite lookup_insert_ne.
      - split; [done|]. split; [done|]. split; [intros m Hm; by destruct (Hn1 m)|]. split; done. }
    clearbody d2. destruct (grabActive_fields d2 w) as (G1 & G2 & G3 & G4). exists (grabActive d2 (Some w)), true. split; [done|].
    split; [by apply grabActive_grip|]. split; [congruence|]. split; [intros _; rewrite G1, G2; auto|]. split; [intros [?|?]; congruence|].
    intros m. rewrite <- Hf2. unfold focusable. by rewrite G2.
  - exists d, true. split; [done|]. split; [done|]. split; [done|]. split; [|split; [intros [?|?]; congruence|done]].
    intros _. split; [done|]. split; [by apply (g_single _ _ Hi)|done].
  - exists d, false. split; [done|]. split; [done|]. split; [done|]. split; [intros [?|?]; congruence|]. done.
Qed.

Lemma order_lookup d t dir a : grip d t -> a ∈ walk t -> exists k, order dir t !! k = Some a.
Proof. intros _ H. apply list_elem_of_lookup_1. by apply order_elem. Qed.

Lemma round_elem (w : list nat) k m : m ∈ round w k -> m ∈ w.
Proof.
  unfold round. rewrite elem_of_app. intros [H|H]; apply list_elem_of_lookup_1 in H as [i Hi].
  - rewrite lookup_drop in Hi. by eapply list_elem_of_lookup_2.
  - apply lookup_take_Some in Hi as [Hi _]. by eapply list_elem_of_lookup_2.
Qed.

(** Looking for another widget ends, and the invariant stays. *)
Lemma seekActivate_grip d t dir a : grip d t -> wActive d = Some a -> exists n r,
  GetNormal d a dir = Done (d, n) /\ ActivateWidget d n = Done r /\ grip (fst r) t /\ active (fst r) = active d /\
  (forall m, focusable (fst r) m <-> focusable d m) /\ (wActive (fst r) = Some a \/ exists b, wActive (fst r) = Some b /\ winExist b = true).
Proof.
  intros Hi Ha. destruct (g_active _ _ Hi) as (a' & Ha' & Haw). assert (a' = a) as -> by congruence.
  destruct (order_lookup d t dir a Hi Haw) as [k Hk]. rewrite (GetNormal_grip d t dir k a Hi Ha Hk).
  set (n := default a _). assert (n ∈ walk t) as Hn.
  { subst n. destruct (head (filter (focusable d) (round (order dir t) k))) as [x|] eqn:E; [|done]. simpl.
    apply head_Some_elem_of in E. apply list_elem_of_filter in E as [_ E]. apply (order_elem dir). by eapply round_elem. }
  destruct (ActivateWidget_grip d t n Hi Hn) as (d' & b & E & H1 & H2 & H4 & H5 & H3). exists n, (d', b). do 5 (split; [done|]).
  assert (n = a \/ winExist n = true) as Hwin.
  { unfold n. destruct (head (filter (focusable d) (round (order dir t) k))) as [x|] eqn:E'; [right|by left]. simpl.
    apply head_Some_elem_of in E'. apply list_elem_of_filter in E' as [[_ E'] _]. done. }
  destruct (GetState_grip d t n Hi Hn) as (s & Hs & _).
  destruct s; try (destruct H5 as [_ ->]; [by auto|]; by left); (destruct H4 as (_ & H4 & _); [by auto|]); cbn [fst];
    (destruct Hwin as [Hna|]; [left; congruence|right; by exists n]).
Qed.

Lemma Activate_grip d t dir a : grip d t -> wActive d = Some a -> exists d', Activate d dir = Done d' /\ grip d' t /\ active d' = active d /\
  (forall m, focusable d' m <-> focusable d m) /\ (wActive d' = Some a \/ exists b, wActive d' = Some b /\ winExist b = true).
Proof.
  intros Hi Ha. assert (a ∈ walk t) as Haw by (destruct (g_active _ _ Hi) as (a' & E & ?); congruence). unfold Activate. rewrite Ha. cbv zeta. rewrite Ha.
  assert (forall dr d1, grip d1 t -> wActive d1 = Some a -> active d1 = active d -> (forall m, focusable d1 m <-> focusable d m) ->
    exists d', (let! n := GetNormal d1 a dr in let! r := ActivateWidget (fst n) (snd n) in Done (fst r)) = Done d' /\ grip d' t /\
      active d' = active d /\ (forall m, focusable d' m <-> focusable d m) /\ (wActive d' = Some a \/ exists b, wActive d' = Some b /\ winExist b = true)) as Hgo.
  { intros dr d1 H1 H2 H3 H4. destruct (seekActivate_grip d1 t dr a H1 H2) as (n & r & -> & E & H5 & H6 & H7 & H8). cbn [obind fst snd]. rewrite E.
    cbn [obind]. exists (fst r). split; [done|]. split; [done|]. split; [congruence|]. split; [|done]. intros m. by rewrite H7. }
  destruct dir as [dr|]; cbn [obind fst snd]; [by apply (Hgo dr d)|].
  destruct (ActivateWidget_grip d t a Hi Haw) as (d' & b & E & H1 & H2 & H3 & H4 & H5). rewrite E. cbn [obind fst snd].
  destruct (GetState_grip d t a Hi Haw) as (s & Hs & _).
  destruct b; [exists d'; do 4 (split; [done|]); left; destruct s; try (destruct H4; [by auto|done]); by apply H3; auto|].
  destruct s; try (destruct H3 as [? _]; [by auto|done]); (destruct H4 as [_ ->]; [by auto|]); by apply Hgo.
Qed.

(** Taking [w] from the dialog's grip. *)
Lemma ungrab d w : (forall m, m ∈ grabbed d <-> (wActive d = Some m /\ m <> this d)) -> wActive d <> Some w ->
  forall m, m ∈ grabbed d ∖ {[w]} <-> (wActive d = Some m /\ m <> this d).
Proof.
  intros H Hn m. rewrite elem_of_difference, H, elem_of_singleton. split; [tauto|]. intros [Hm1 Hm2]. split; [done|]. congruence.
Qed.

(** What a widget that gives the focus back leaves: the focus is with another
    widget of the tree, which has a window, or with the dialog. *)
Record released (w : nat) (t : tree) (d : dialog) : Prop := Released {
  r_nodes : nodes d = links W;
  r_this : this d = home W;
  r_states : forall m, m ∈ members W -> is_Some (wstate d !! m);
  r_active : exists a, wActive d = Some a /\ a <> w /\ (a = home W \/ (a ∈ walk t /\ winExist a = true));
  r_single : forall m, wstate d !! m = Some WSactive -> wActive d = Some m \/ (m = w /\ wActive d = Some (home W));
  r_grabbed : forall m, m ∈ grabbed d <-> (wActive d = Some m /\ m <> this d) }.

Lemma grabRelease_grip d t w : grip d t -> wActive d = Some w -> w <> home W -> exists d', grabRelease d w = Done d' /\ released w t d'.
Proof.
  intros Hi Ha Hne. unfold grabRelease. rewrite bool_decide_true by (apply (g_grabbed _ _ Hi); rewrite (g_this _ _ Hi); done).
  unfold grabNotify. rewrite bool_decide_true by done. destruct (Activate_grip d t (Some ForwardDir) w Hi Ha) as (d1 & E & Hi1 & _ & _ & Hw).
  unfold ActivateNext. rewrite E. cbn [obind]. eexists. split; [done|]. destruct Hi1 as [G1 G2 G3 G4 G5 G6 G7 G8]. case_bool_decide as E1.
  - unfold grabActive. rewrite E1, (bool_decide_false (w = this d1)) by congruence. simpl. rewrite bool_decide_true by done. simpl.
    constructor; simpl; auto.
    + exists (home W). rewrite G2. split; [done|]. split; [congruence|by left].
    + intros m Hm. apply G7 in Hm. right. split; [congruence|by rewrite G2].
    + intros m. rewrite !elem_of_difference, G8, E1, elem_of_singleton. split; [intros [[[[= ->] _] Hm] _]; done|intros [[= <-] ?]; done].
  - destruct Hw as [|(b & Hb & Hwin)]; [done|]. constructor; simpl; auto.
    + exists b. split; [done|]. split; [congruence|]. right. split; [|done]. destruct G6 as (b' & ? & ?). congruence.
    + by apply ungrab.
Qed.

End grip.

(** The dialog's own tree. *)
Definition whole (d : dialog) (t : tree) : world := World (nodes d) (root t) (walk t).

Lemma inv_grip d t : inv d t -> grip (whole d t) d t.
Proof. intros []. by constructor. Qed.

Lemma grip_inv d0 d t : grip (whole d0 t) d t -> inv d t.
Proof. intros [H1 H2 H3 H4 H5 H6 H7 H8]. by constructor. Qed.

Lemma GetState_walk d t m : inv d t -> m ∈ walk t -> exists s, wstate d !! m = Some s /\ GetState d m = Done s.
Proof. intros Hi. apply (GetState_grip _ d t m (inv_grip d t Hi)). Qed.

Lemma order_nodup d dir t : inv d t -> NoDup (order dir t).
Proof. intros Hi. apply (order_grip _ d dir t (inv_grip d t Hi)). Qed.

Lemma GetNormal_spec d t dir k a : inv d t -> wActive d = Some a -> order dir t !! k = Some a ->
  GetNormal d a dir = Done (d, default a (head (filter (focusable d) (round (order dir t) k)))).
Proof. intros Hi. apply (GetNormal_grip _ d t dir k a (inv_grip d t Hi)). Qed.

Lemma ActivateWidget_spec d t w : inv d t -> w ∈ walk t -> exists d' b, ActivateWidget d w = Done (d', b) /\ inv d' t /\ active d' = active d /\
  (wstate d !! w = Some WSnormal \/ wstate d !! w = Some WSactive -> b = true /\ wActive d' = Some w /\
     (active d = true -> wstate d' !! w = Some WSactive)) /\
  (wstate d !! w = Some WSdumb \/ wstate d !! w = Some WSdisabled -> b = false /\ d' = d) /\
  (forall m, focusable d' m <-> focusable d m).
Proof.
  intros Hi Hw. destruct (ActivateWidget_grip _ d t w (inv_grip d t Hi) Hw) as (d' & b & H1 & H2 & H3). exists d', b. apply grip_inv in H2. done.
Qed.

Lemma Activate_inv d t dir : inv d t -> exists d', Activate d dir = Done d' /\ inv d' t /\ active d' = active d /\
  (forall m, focusable d' m <-> focusable d m).
Proof.
  intros Hi. destruct (v_active _ _ Hi) as (a & Ha & _). destruct (Activate_grip _ d t dir a (inv_grip d t Hi) Ha) as (d' & H1 & H2 & H3 & H4 & _).
  exists d'. apply grip_inv in H2. done.
Qed.

Lemma SetState_inv d t w s : inv d t -> w ∈ walk t -> (s = WSactive -> wActive d = Some w) -> inv (SetState d w s) t.
Proof. intros Hi Hw Hs. apply (grip_inv d). apply SetState_grip; [by apply inv_grip|done..]. Qed.

(** *** The tabulator key *)

Lemma chain_split d dir t k a : order dir t !! k = Some a -> focusable d a ->
  chain d dir t = filter (focusable d) (take k (order dir t)) ++ a :: filter (focusable d) (drop (S k) (order dir t)).
Proof.
  intros Hk Hf. unfold chain. rewrite <- (take_drop_middle _ _ _ Hk) at 1. rewrite list.filter_app, filter_cons_True by done. done.
Qed.

Lemma chain_same d d' dir t : (forall m, focusable d' m <-> focusable d m) -> chain d' dir t = chain d dir t.
Proof. intros H. apply list_filter_iff. intros m. apply H. Qed.

(** The widget behind the one with the focus gets it. *)
Lemma activate_next d t dir a i : inv d t -> active d = true -> wActive d = Some a -> chain d dir t !! i = Some a ->
  exists d' b, Activate d (Some dir) = Done d' /\ inv d' t /\ active d' = true /\ chain d' dir t = chain d dir t /\
    wActive d' = Some b /\ chain d dir t !! ((i + 1) mod length (chain d dir t))%nat = Some b.
Proof.
  intros Hi Hact Ha Hc. assert (a ∈ chain d dir t) as Hin by (by eapply list_elem_of_lookup_2).
  apply list_elem_of_filter in Hin as [Hf Ho]. apply list_elem_of_lookup_1 in Ho as [k Hk].
  pose proof (chain_split d dir t k a Hk Hf) as Hs. pose proof (order_nodup d dir t Hi) as Hn.
  assert (NoDup (chain d dir t)) as Hnc by (by apply NoDup_filter).
  set (pre := filter (focusable d) (take k (order dir t))) in *. set (post := filter (focusable d) (drop (S k) (order dir t))) in *.
  assert (i = length pre) as ->. { apply (NoDup_lookup _ _ _ _ Hnc Hc). rewrite Hs. by apply list_lookup_middle. }
  unfold Activate. rewrite Ha. cbv zeta. rewrite Ha. cbn [obind fst snd].
  change (default ForwardDir (Some dir)) with dir. rewrite (GetNormal_spec d t dir k a Hi Ha Hk). cbn [obind fst snd].
  unfold round. rewrite list.filter_app. fold post pre.
  set (b := default a (head (post ++ pre))).
  assert (chain d dir t !! ((length pre + 1) mod length (chain d dir t))%nat = Some b) as Hb.
  { rewrite Hs, length_app. simpl length. subst b. destruct post as [|y post]; simpl.
    - rewrite (Nat.add_comm (length pre) 1), Nat.Div0.mod_same. destruct pre; done.
    - rewrite Nat.mod_small by lia. rewrite lookup_app_r by lia. replace (length pre + 1 - length pre)%nat with 1%nat by lia. done. }
  assert (b ∈ chain d dir t) as Hbc by (by eapply list_elem_of_lookup_2). apply list_elem_of_filter in Hbc as [Hfb Hbo].
  assert (b ∈ walk t) as Hbw by (by apply (order_elem dir)).
  destruct (ActivateWidget_spec d t b Hi Hbw) as (d' & r & E & H1 & H2 & H3 & _ & H5). rewrite E. cbn [obind fst].
  destruct Hfb as [Hst _]. destruct (H3 Hst) as (_ & H6 & _). exists d', b. split; [done|]. split; [done|]. split; [congruence|].
  split; [by apply chain_same|done].
Qed.

(** [ActivateNext()] or [ActivatePrev()] several times. *)
Fixpoint pressed (n : nat) (d : dialog) (dir : SeekDir) : outcome dialog :=
  match n with O => Done d | S n' => let! d := Activate d (Some dir) in pressed n' d dir end.

(** C21: The tabulator key takes the focus around the dialog, forwards and backwards:
    through all widgets that can have it, in the order of the tree. *)
Theorem focus_cycles d t dir a i n : inv d t -> active d = true -> wActive d = Some a -> chain d dir t !! i = Some a ->
  exists d', pressed n d dir = Done d' /\ inv d' t /\ chain d' dir t = chain d dir t /\
    wActive d' = chain d dir t !! ((i + n) mod length (chain d dir t))%nat.
Proof.
  revert d a i. induction n as [|n IH]; intros d a i Hi Hact Ha Hc.
  - exists d. split; [done|]. split; [done|]. split; [done|]. pose proof (lookup_lt_Some _ _ _ Hc).
    rewrite Nat.add_0_r, Nat.mod_small by done. congruence.
  - destruct (activate_next d t dir a i Hi Hact Ha Hc) as (d1 & b & E & H1 & H2 & H3 & H4 & H5). rewrite <- H3 in H5.
    destruct (IH d1 b _ H1 H2 H4 H5) as (d' & E' & H6 & H7 & H8). exists d'. cbn [pressed]. rewrite E. cbn [obind].
    split; [done|]. split; [done|]. split; [congruence|]. rewrite H8, H3. f_equal.
    rewrite Nat.Div0.add_mod_idemp_l. f_equal. lia.
Qed.

(** *** All changes of the focus *)

Lemma Deactivate_inv d t : inv d t -> exists d', Deactivate d = Done d' /\ inv d' t.
Proof.
  intros Hi. destruct (v_active _ _ Hi) as (a & Ha & Haw). unfold Deactivate. rewrite Ha.
  destruct (GetState_walk d t a Hi Haw) as (s & Hs & ->). cbn [obind]. eexists. split; [done|].
  case_bool_decide; [|done]. by apply SetState_inv.
Qed.

Lemma activate_inv d t hidden b : inv d t -> exists d', activate d hidden b = Done d' /\ inv d' t.
Proof.
  intros Hi. unfold activate. destruct (_ && _); [by exists d|]. cbv zeta.
  set (d1 := Dialog _ _ _ _ _ b). assert (inv d1 t) as Hi1 by (destruct Hi; by constructor).
  destruct b; [|by apply Deactivate_inv]. destruct (Activate_inv d1 t None Hi1) as (d2 & E & Hi2 & _). by exists d2.
Qed.

(** The focused widget of the dialog gives the focus back. *)
Lemma grabRelease_inv d t w : inv d t -> wActive d = Some w -> w <> this d -> exists d', grabRelease d w = Done d' /\ released (whole d t) w t d'.
Proof. intros Hi Ha Hne. apply grabRelease_grip; [by apply inv_grip|done|]. simpl. by rewrite (v_root _ _ Hi). Qed.

Lemma leafEnabled_inv d t w b : inv d t -> w ∈ walk t -> exists d', leafEnabled d w b = Done d' /\ inv d' t.
Proof.
  intros Hi Hw. unfold leafEnabled. destruct (GetState_walk d t w Hi Hw) as (s & Hs & ->). cbn [obind].
  assert (forall s, s <> WSactive -> inv (SetState d w s) t) as Hset by (intros s' Hne; by apply SetState_inv).
  destruct s, b; try (eexists; split; [done|]; done || by apply Hset).
  pose proof (v_single _ _ Hi w Hs) as Ha. destruct (decide (w = this d)) as [->|Hne].
  - unfold grabRelease. rewrite bool_decide_false by (rewrite (v_grabbed _ _ Hi); naive_solver). cbn [obind]. eexists. split; [done|].
    replace (grabbed d ∖ {[this d]}) with (grabbed d); [destruct d; by apply Hset|].
    apply set_eq. intros m. rewrite elem_of_difference, (v_grabbed _ _ Hi), elem_of_singleton. naive_solver.
  - destruct (grabRelease_inv d t w Hi Ha Hne) as (d1 & -> & [R1 R2 R3 (a & R4 & R5 & R6) R7 R8]). cbn [obind]. simpl in *.
    eexists. split; [done|]. destruct Hi as [V1 V2 V3 V4 V5 V6]. constructor; simpl; auto.
    + by rewrite R1.
    + intros m Hm. destruct (decide (w = m)) as [->|]; [rewrite lookup_insert_eq; by eexists|]. rewrite lookup_insert_ne by done. auto.
    + exists a. split; [done|]. destruct R6 as [->|[? _]]; [|done]. apply root_walk.
    + intros m. destruct (decide (w = m)) as [->|]; [by rewrite lookup_insert_eq|]. rewrite lookup_insert_ne by done.
      intros Hm. destruct (R7 m Hm) as [|[-> _]]; done.
Qed.

(** The loop goes through the widgets from position [j] on. *)
Lemma enableBelow_inv t enable this j0 :
  (forall d j c, inv d t -> (j0 <= j)%nat -> walk t !! j = Some c -> exists d', enable d c = Done d' /\ inv d' t) ->
  forall fuel d j, inv d t -> (j0 <= j)%nat -> (length (walk t) - j <= fuel)%nat ->
  exists d', enableBelow enable fuel d this (walk t !! j) = Done d' /\ inv d' t.
Proof.
  intros Hen. induction fuel as [|fuel IH]; intros d j Hi Hj Hf.
  - rewrite lookup_ge_None_2 by lia. by exists d.
  - destruct (walk t !! j) as [c|] eqn:Ej; [|by exists d]. cbn [enableBelow].
    assert (c ∈ walk t) as Hc by (by eapply list_elem_of_lookup_2).
    destruct (descendant_total _ t c this (v_tree _ _ Hi) Hc) as [b ->]. cbn [obind]. destruct b; [|by exists d].
    destruct (GetState_walk d t c Hi Hc) as (s & Hs & ->). cbn [obind].
    assert (exists d1, (if bool_decide (s = WSdumb) then Done d else enable d c) = Done d1 /\ inv d1 t) as (d1 & -> & Hi1).
    { case_bool_decide; [by exists d|by apply (Hen d j c)]. }
    cbn [obind]. rewrite (next_open _ t j c (v_tree _ _ Hi1) Ej). cbn [obind]. apply IH; [done|lia|lia].
Qed.

Lemma enableTree_inv t b : forall depth d j w, inv d t -> walk t !! j = Some w -> (length (walk t) - j <= depth)%nat ->
  exists d', enableTree depth b d w = Done d' /\ inv d' t.
Proof.
  induction depth as [|depth IH]; intros d j w Hi Hw Hd; [apply lookup_lt_Some in Hw; lia|]. cbn [enableTree].
  assert (w ∈ walk t) as Hm by (by eapply list_elem_of_lookup_2).
  destruct (linked_deref _ t w (v_tree _ _ Hi) Hm) as [x ->]. cbn [obind]. destruct (fchild x); [|by apply leafEnabled_inv].
  rewrite (next_open _ t j w (v_tree _ _ Hi) Hw). cbn [obind].
  apply (enableBelow_inv t (enableTree depth b) w (S j)); [|done|lia|].
  - intros d' j' c Hi' Hj' Hc. apply (IH d' j' c Hi' Hc). lia.
  - pose proof (linked_size _ _ (v_tree _ _ Hi)). unfold steps. lia.
Qed.

Lemma setEnabled_inv d t w b : inv d t -> w ∈ walk t -> exists d', setEnabled d w b = Done d' /\ inv d' t.
Proof.
  intros Hi Hw. apply list_elem_of_lookup_1 in Hw as [j Hj]. apply (enableTree_inv t b _ d j w Hi Hj).
  pose proof (linked_size _ _ (v_tree _ _ Hi)). unfold steps. lia.
Qed.

Lemma keyLoop_inv d t hot : inv d t -> forall fuel k buddy, (length (walk t) - k <= fuel)%nat ->
  exists d' b, keyLoop fuel d hot (walk t !! k) buddy = Done (d', b) /\ inv d' t.
Proof.
  intros Hi. induction fuel as [|fuel IH]; intros k buddy Hf.
  - rewrite lookup_ge_None_2 by lia. by exists d, false.
  - destruct (walk t !! k) as [c|] eqn:Ek; [|by exists d, false]. cbn [keyLoop].
    assert (c ∈ walk t) as Hc by (by eapply list_elem_of_lookup_2). destruct (GetState_walk d t c Hi Hc) as (s & Hs & ->). cbn [obind].
    rewrite (next_open _ t k c (v_tree _ _ Hi) Ek). cbn [obind].
    assert (forall b, exists d' b', keyLoop fuel d hot (walk t !! S k) b = Done (d', b') /\ inv d' t) as Hgo by (intros b; apply IH; lia).
    assert (exists d' b', (let! r := ActivateWidget d c in Done (fst r, true)) = Done (d', b') /\ inv d' t) as Hact.
    { destruct (ActivateWidget_spec d t c Hi Hc) as (d' & b & -> & H & _). by exists d', true. }
    destruct s; [apply Hgo| | |apply Hgo];
      (destruct (hot c); [done|]; destruct buddy as [b|]; [|apply Hgo];
       destruct (descendant_total _ t c b (v_tree _ _ Hi) Hc) as [b' ->]; cbn [obind]; destruct b'; [done|apply Hgo]).
Qed.

Lemma ActivateByKey_inv d t hot : inv d t -> exists d' b, ActivateByKey d hot = Done (d', b) /\ inv d' t.
Proof.
  intros Hi. unfold ActivateByKey. assert (walk t !! O = Some (this d)) as H0.
  { rewrite <- (v_root _ _ Hi). by destruct t. }
  rewrite (next_open _ t O _ (v_tree _ _ Hi) H0). cbn [obind].
  apply keyLoop_inv; [done|]. pose proof (linked_size _ _ (v_tree _ _ Hi)). unfold steps. lia.
Qed.

(** What moves the focus or changes who can have it: a direction key, a widget
    that asks for the focus ([wantFocus]), the dialog that comes to the front or
    leaves it, a widget that is enabled or disabled, a hot key. *)
Inductive change :=
| Direction (dir : option SeekDir)
| Widget (w : nat)
| Leave
| Front (hidden newactive : bool)
| Enable (w : nat) (do_bv : bool)
| Key (hot : nat -> bool).

Definition apply_change (d : dialog) (c : change) : outcome dialog :=
  match c with
  | Direction dir => Activate d dir
  | Widget w => let! r := ActivateWidget d w in Done (fst r)
  | Leave => Deactivate d
  | Front hidden b => activate d hidden b
  | Enable w b => setEnabled d w b
  | Key hot => let! r := ActivateByKey d hot in Done (fst r)
  end.

Fixpoint changes (d : dialog) (l : list change) : outcome dialog :=
  match l with
  | [] => Done d
  | c :: l => let! d := apply_change d c in changes d l
  end.

(** The widget a change names is one of the dialog. *)
Definition concerns (t : tree) (c : change) : Prop :=
  match c with
  | Widget w | Enable w _ => w ∈ walk t
  | _ => True
  end.

Lemma change_inv d t c : inv d t -> concerns t c -> exists d', apply_change d c = Done d' /\ inv d' t.
Proof.
  intros Hi Hc. destruct c as [dir|w| |hidden b|w b|hot]; cbn [apply_change concerns] in *.
  - destruct (Activate_inv d t dir Hi) as (d' & -> & H & _). by exists d'.
  - destruct (ActivateWidget_spec d t w Hi Hc) as (d' & b & -> & H & _). by exists d'.
  - by apply Deactivate_inv.
  - by apply activate_inv.
  - by apply setEnabled_inv.
  - destruct (ActivateByKey_inv d t hot Hi) as (d' & b & -> & H). by exists d'.
Qed.

End focus.

(** *** Widgets that come and go *)

Definition withNodes (d : dialog) (h : heap) : dialog :=
  Dialog h (this d) (wstate d) (grabbed d) (wActive d) (active d).

(** [wDelete()]: the windows that are left. *)
Fixpoint wDelete (win : nat -> bool) (u : tree) : nat -> bool :=
  match u with
  | T n cs =>
      if win n then let win' := fold_left wDelete cs win in fun m => negb (bool_decide (m = n)) && win' m
      else win
  end.

(** [Disconnect()] with [PreDisconnect()]. *)
Definition disconnect (win : nat -> bool) (d : dialog) (w : nat) : outcome dialog :=
  let! x := deref (nodes d) w in
  match parent x with
  | None => Done d
  | Some _ =>
      let! d := grabRelease win d w in
      let! h := Disconnect (nodes d) w in
      Done (withNodes d h)
  end.

(** [while ( Fchild() ) Fchild()->Disconnect()]. *)
Fixpoint disconnectChildren (fuel : nat) (win : nat -> bool) (d : dialog) (w : nat) : outcome dialog :=
  match fuel with
  | O => NoFuel
  | S fuel' =>
      let! x := deref (nodes d) w in
      match fchild x with
      | None => Done d
      | Some c => let! d := disconnect win d c in disconnectChildren fuel' win d w
      end
  end.

(** The memory of a widget is gone. *)
Definition freed (d : dialog) (w : nat) : dialog :=
  Dialog (delete w (nodes d)) (this d) (delete w (wstate d)) (grabbed d) (wActive d) (active d).

(** [delete] of a widget: [~NCWidget()], then [~YWidget()], which deletes its
    children. [u] is the widget with all the widgets below it. *)
Fixpoint destroy (s : (nat -> bool) * dialog) (u : tree) : outcome ((nat -> bool) * dialog) :=
  match u with
  | T w cs =>
      let win := wDelete (fst s) u in
      let! d := disconnectChildren (steps (nodes (snd s))) win (snd s) w in
      let! d := disconnect win d w in
      ofold destroy cs (win, freed d w)
  end.

(** [NCWidget( myparent )]; a class can make its widgets dumb ones. *)
Definition create (s : (nat -> bool) * dialog) (w p : nat) (dumb : bool) : outcome ((nat -> bool) * dialog) :=
  let d := snd s in
  let! h := newNode (nodes d) w (Some p) true in
  Done (fun m => negb (bool_decide (m = w)) && fst s m,
        Dialog h (this d) (<[w := if dumb then WSdumb else WSnormal]> (wstate d)) (grabbed d) (wActive d) (active d)).

(** [NCDialog( dialogType, colorMode )]. *)
Definition newDialog (this : nat) : dialog :=
  Dialog {[this := Node None None None None None]} this {[this := WSdumb]} ∅ (Some this) false.

(** What happens to a dialog; the layout decides anew which widgets have a
    window. *)
Inductive event :=
| Change (c : change)
| Create (w p : nat) (dumb : bool)
| Layout (win : nat -> bool)
| Delete (u : tree).

Definition happen (s : (nat -> bool) * dialog) (e : event) : outcome ((nat -> bool) * dialog) :=
  match e with
  | Change c => let! d := apply_change (fst s) (snd s) c in Done (fst s, d)
  | Create w p dumb => create s w p dumb
  | Layout win => Done (win, snd s)
  | Delete u => destroy s u
  end.

(** An event that can happen to a dialog with the tree [t], and the tree it
    leads to: a new widget has a new address, and any widget but the dialog
    itself can be deleted. *)
Definition possible (d : dialog) (t : tree) (e : event) (t' : tree) : Prop :=
  match e with
  | Change c => concerns t c /\ t' = t
  | Create w p _ => (w ∉ dom (nodes d)) /\ exists cs, swap (T p cs) (T p (cs ++ [T w []])) t t'
  | Layout _ => t' = t
  | Delete u => exists p l r, swap (T p (l ++ r)) (T p (l ++ u :: r)) t' t
  end.

(** The states and trees of a dialog from its construction on. *)
Inductive lives : (nat -> bool) * dialog -> tree -> Prop :=
| Lives_new this win : lives (win, newDialog this) (T this [])
| Lives_event s t e s' t' : lives s t -> possible (snd s) t e t' -> happen s e = Done s' -> lives s' t'.

(** What holds while widgets are deleted: [F] are the parts that are already
    cut off. The widget at the top of such a part does not have the focus. If it
    still looks active, the dialog has the focus. *)
Definition inner (t : tree) : list nat := flat_map walk (children t).

Record scattered (d : dialog) (t : tree) (F : list tree) : Prop := Scattered {
  s_root : root t = this d;
  s_linked : forall x, x ∈ t :: F -> linked (nodes d) x;
  s_nodup : NoDup (walk t ++ flat_map walk F);
  s_states : forall m, m ∈ walk t ++ flat_map walk F -> is_Some (wstate d !! m);
  s_active : exists a, wActive d = Some a /\ (a ∈ walk t \/ a ∈ flat_map inner F);
  s_single : forall m, wstate d !! m = Some WSactive -> wActive d = Some m \/ (m ∈ map root F /\ wActive d = Some (this d));
  s_grabbed : forall m, m ∈ grabbed d <-> (wActive d = Some m /\ m <> this d) }.

Lemma inv_scattered d t : inv d t -> scattered d t [].
Proof.
  intros [H1 H2 H3 (a & Ha & Haw) H5 H6]. constructor; auto; simpl; rewrite ?app_nil_r; auto.
  - intros x [->|[]%not_elem_of_nil]%elem_of_cons. done.
  - apply H1.
  - exists a. auto.
Qed.

Lemma scattered_inv d t : scattered d t [] -> inv d t.
Proof.
  intros [H1 H2 H3 H4 (a & Ha & Haw) H5 H6]. simpl in *. rewrite app_nil_r in *. constructor; auto.
  - apply H2, elem_of_cons. by left.
  - exists a. split; [done|]. destruct Haw as [|[]%not_elem_of_nil]; done.
  - intros m Hm. destruct (H5 m Hm) as [|[[]%not_elem_of_nil _]]; done.
Qed.

Lemma scattered_perm d t F F' : F ≡ₚ F' -> scattered d t F -> scattered d t F'.
Proof.
  intros HP [H1 H2 H3 H4 (a & Ha & Haw) H5 H6].
  assert (flat_map walk F ≡ₚ flat_map walk F') as P1 by (by rewrite HP).
  assert (flat_map inner F ≡ₚ flat_map inner F') as P2 by (by rewrite HP).
  assert (map root F ≡ₚ map root F') as P3 by (by rewrite HP).
  constructor; auto.
  - intros x Hx. apply H2. by rewrite HP.
  - by rewrite <- P1.
  - intros m. rewrite <- P1. apply H4.
  - exists a. by rewrite <- P2.
  - intros m. rewrite <- P3. apply H5.
Qed.

(** What [w] leaves when it gives the focus back before it is cut off. *)
Record loosened (w : nat) (t : tree) (F : list tree) (d d' : dialog) : Prop := Loosened {
  l_nodes : nodes d' = nodes d;
  l_this : this d' = this d;
  l_states : forall m, m ∈ walk t ++ flat_map walk F -> is_Some (wstate d' !! m);
  l_active : exists a, wActive d' = Some a /\ a <> w /\ (a ∈ walk t \/ a ∈ flat_map inner F);
  l_single : forall m, wstate d' !! m = Some WSactive -> wActive d' = Some m \/ ((m = w \/ m ∈ map root F) /\ wActive d' = Some (this d'));
  l_grabbed : forall m, m ∈ grabbed d' <-> (wActive d' = Some m /\ m <> this d') }.

Lemma inner_elem x F m : x ∈ F -> m ∈ walk x -> m <> root x -> m ∈ flat_map inner F.
Proof.
  intros Hx Hm Hne. apply list_elem_of_In, in_flat_map. exists x. split; [by apply list_elem_of_In|]. apply list_elem_of_In.
  rewrite walk_head in Hm. apply elem_of_cons in Hm as [|]; done.
Qed.

Lemma inner_walk F m : m ∈ flat_map inner F -> m ∈ flat_map walk F.
Proof.
  rewrite !list_elem_of_In, !in_flat_map. intros (x & Hx & Hm). exists x. split; [done|]. rewrite walk_head. by right.
Qed.

Lemma part_elem t F X m : X ∈ t :: F -> m ∈ walk X -> m ∈ walk t ++ flat_map walk F.
Proof.
  intros [->|HX]%elem_of_cons Hm; apply elem_of_app; [by left|right].
  apply list_elem_of_In, in_flat_map. exists X. split; by apply list_elem_of_In.
Qed.

Lemma grabRelease_scattered win d t F X w : scattered d t F -> X ∈ t :: F -> w ∈ walk X -> w <> this d -> (X ∈ F -> win (root X) = false) ->
  exists d', grabRelease win d w = Done d' /\ loosened w t F d d'.
Proof.
  intros [H1 H2 H3 H4 (a & Ha & Haw) H5 H6] HX Hw Hne Hwin. destruct (decide (wActive d = Some w)) as [E|E].
  - set (W := World (nodes d) (this d) (walk t ++ flat_map walk F)).
    assert (grip W d X) as Hg.
    { constructor; simpl; auto; [intros m; by apply part_elem|by exists w|].
      intros m Hm. destruct (H5 m Hm) as [|[_ ?]]; [done|congruence]. }
    destruct (grabRelease_grip win W d X w Hg E Hne) as (d' & -> & [R1 R2 R3 (b & R4 & R5 & R6) R7 R8]). exists d'. split; [done|].
    simpl in *. constructor; auto.
    + exists b. split; [done|]. split; [done|]. destruct R6 as [->|[Hb Hwb]]; [left; rewrite <- H1; apply root_walk|].
      apply elem_of_cons in HX as [->|HX]; [by left|right]. apply (inner_elem X); [done..|]. intros ->. by rewrite (Hwin HX) in Hwb.
    + intros m Hm. rewrite R2. destruct (R7 m Hm) as [|[-> ?]]; auto.
  - unfold grabRelease. rewrite bool_decide_false by (rewrite H6; tauto). cbn [obind]. eexists. split; [done|].
    constructor; simpl; auto; [exists a; split; [done|]; split; [congruence|done]| |by apply ungrab].
    intros m Hm. destruct (H5 m Hm) as [|[? ?]]; auto.
Qed.

(** The parts after [w] is cut off. *)
Lemma loosened_scattered w t F t' F' d d' h : loosened w t F d d' -> root t' = this d ->
  (forall x, x ∈ t' :: F' -> linked h x) -> NoDup (walk t ++ flat_map walk F) ->
  walk t' ++ flat_map walk F' ≡ₚ walk t ++ flat_map walk F -> w ∈ map root F' -> (forall m, m ∈ map root F -> m ∈ map root F') ->
  (forall m, m <> w -> m ∈ walk t \/ m ∈ flat_map inner F -> m ∈ walk t' \/ m ∈ flat_map inner F') ->
  scattered (withNodes d' h) t' F'.
Proof.
  intros [L1 L2 L3 (a & L4 & L5 & L6) L7 L8] Hr Hl Hn HP Hw HF Ha. constructor; simpl; auto; [congruence|by rewrite HP| | |].
  - intros m. rewrite HP. apply L3.
  - exists a. auto.
  - intros m Hm. destruct (L7 m Hm) as [|[[->|?] ?]]; auto.
Qed.

Lemma linked_frame h h' x : (forall m, m ∈ walk x -> h' !! m = h !! m) -> linked h x -> linked h' x.
Proof. intros Hf [H1 H2]. split; [|done]. by eapply repr_frame. Qed.

(** Cutting a part off the dialog's tree. *)
Lemma disconnect_attached win d t0 t F p l u r : scattered d t F -> swap (T p (l ++ r)) (T p (l ++ u :: r)) t0 t ->
  exists d', disconnect win d (root u) = Done d' /\ scattered d' t0 (u :: F) /\ dom (nodes d') = dom (nodes d).
Proof.
  intros Hs Hsw. pose proof (s_linked _ _ _ Hs t ltac:(set_solver)) as Hl. pose proof (s_nodup _ _ _ Hs) as Hn.
  pose proof (swap_perm _ _ _ _ _ (with_perm p l u r) Hsw) as HP. pose proof (swap_root _ _ _ _ (eq_refl : root (T p (l ++ r)) = root (T p (l ++ u :: r))) Hsw) as Hroot.
  assert (root u ∈ walk t) as Hu by (rewrite HP; apply elem_of_app; right; apply root_walk).
  assert (root u <> this d) as Hne.
  { rewrite <- (s_root _ _ _ Hs), <- Hroot. intros E. destruct Hl as [_ Hnt]. rewrite HP in Hnt. apply NoDup_app in Hnt as (_ & Hnt & _).
    apply (Hnt (root t0)); [apply root_walk|rewrite <- E; apply root_walk]. }
  destruct (swap_part _ _ _ _ _ (swap_sym _ _ _ _ Hsw) _ _ _ (proj1 Hl)) as (q & ps & ns & HY).
  apply repr_with in HY as (_ & _ & HY & _). apply root_node in HY as (f & lc & Hx).
  unfold disconnect, deref. rewrite Hx. cbn [obind parent].
  assert (t ∈ F -> win (root t) = false) as Hwin.
  { intros HtF. exfalso. apply NoDup_app in Hn as (_ & Hn & _). apply (Hn (root u) Hu). apply (part_elem t F t) in Hu; [|set_solver].
    apply list_elem_of_In, in_flat_map. exists t. split; [by apply list_elem_of_In|]. apply list_elem_of_In. rewrite HP. apply elem_of_app. right. apply root_walk. }
  destruct (grabRelease_scattered win d t F t (root u) Hs ltac:(set_solver) Hu Hne Hwin) as (d1 & -> & HL). cbn [obind].
  rewrite (l_nodes _ _ _ _ _ HL). destruct (disconnected _ _ _ _ _ _ _ Hl Hsw) as (h' & -> & Ht0 & Hlu & Hdom & Hfr). cbn [obind].
  eexists. split; [done|]. split; [|done]. apply (loosened_scattered (root u) t F t0 (u :: F) d); try done.
  - rewrite Hroot. apply Hs.
  - intros x [->|[->|Hx']%elem_of_cons]%elem_of_cons; [done..|]. eapply linked_frame; [|apply (s_linked _ _ _ Hs x); set_solver].
    intros m Hm. apply Hfr. intros Hmt. apply NoDup_app in Hn as (_ & Hn & _). apply (Hn m Hmt).
    apply list_elem_of_In, in_flat_map. exists x. split; by apply list_elem_of_In.
  - cbn [flat_map]. by rewrite HP, app_assoc.
  - simpl. set_solver.
  - simpl. set_solver.
  - intros m Hm [Hm'|Hm']; [|right; cbn [flat_map]; apply elem_of_app; by right].
    rewrite HP in Hm'. apply elem_of_app in Hm' as [|Hm']; [by left|right]. apply (inner_elem u); [set_solver|done..].
Qed.

(** Cutting a child off a part that is itself cut off. *)
Lemma disconnect_detached win d t F w c cs : scattered d t (T w (c :: cs) :: F) -> win w = false ->
  exists d', disconnect win d (root c) = Done d' /\ scattered d' t (T w cs :: c :: F) /\ dom (nodes d') = dom (nodes d).
Proof.
  intros Hs Hwin. set (X := T w (c :: cs)). pose proof (s_linked _ _ _ Hs X ltac:(set_solver)) as Hl. pose proof (s_nodup _ _ _ Hs) as Hn.
  assert (swap (T w ([] ++ cs)) (T w ([] ++ c :: cs)) (T w cs) X) as Hsw by constructor.
  assert (walk X = w :: walk c ++ flat_map walk cs) as HX by done.
  assert (root c ∈ walk X) as Hc by (rewrite HX; apply elem_of_cons; right; apply elem_of_app; left; apply root_walk).
  pose proof (NoDup_app (walk t) (flat_map walk (X :: F))) as [HA _]. destruct (HA Hn) as (_ & Hdis & HnF). clear HA.
  cbn [flat_map] in HnF. apply NoDup_app in HnF as (HnX & HdX & _).
  assert (root c <> this d) as Hne.
  { rewrite <- (s_root _ _ _ Hs). intros E. apply (Hdis (root t)); [apply root_walk|]. rewrite <- E. cbn [flat_map]. apply elem_of_app. by left. }
  assert (repr (nodes d) (Some w) None (root <$> head cs) c) as Hrc.
  { destruct Hl as [Hl _]. apply repr_unfold in Hl as [_ [Hl _]]. done. }
  apply root_node in Hrc as (f & lc & Hx). unfold disconnect, deref. rewrite Hx. cbn [obind parent].
  destruct (grabRelease_scattered win d t (X :: F) X (root c) Hs ltac:(set_solver) Hc Hne (fun _ => Hwin)) as (d1 & -> & HL). cbn [obind].
  rewrite (l_nodes _ _ _ _ _ HL). destruct (disconnected _ _ _ _ _ _ _ Hl Hsw) as (h' & -> & Hw & Hlc & Hdom & Hfr). cbn [obind].
  eexists. split; [done|]. split; [|done]. apply (loosened_scattered (root c) t (X :: F) t (T w cs :: c :: F) d); try done.
  - apply Hs.
  - assert (forall x, x ∈ t :: F -> linked h' x) as Hrest.
    { intros x Hx'. eapply linked_frame; [|apply (s_linked _ _ _ Hs x); set_solver]. intros m Hm. apply Hfr. intros HmX.
      apply elem_of_cons in Hx' as [->|Hx']; [apply (Hdis m Hm); cbn [flat_map]; apply elem_of_app; by left|].
      apply (HdX m HmX). apply list_elem_of_In, in_flat_map. exists x. split; by apply list_elem_of_In. }
    intros x [->|[->|[->|Hx']%elem_of_cons]%elem_of_cons]%elem_of_cons; [apply Hrest; set_solver|done..|apply Hrest; set_solver].
  - cbn [flat_map]. rewrite HX. apply Permutation_app_head. cbn [walk app]. constructor. rewrite !app_assoc. apply Permutation_app_tail, Permutation_app_comm.
  - simpl. set_solver.
  - simpl. set_solver.
  - intros m Hm [Hm'|Hm']; [by left|right]. cbn [flat_map] in *. rewrite !elem_of_app in *.
    destruct Hm' as [Hm'|Hm']; [|auto]. unfold inner in Hm'. cbn [children X flat_map] in Hm'. apply elem_of_app in Hm' as [Hm'|Hm']; [|by left].
    right. left. rewrite walk_head in Hm'. apply elem_of_cons in Hm' as [|]; [done|]. done.
Qed.

(** The part [u] of a tree becomes [u']. *)
Lemma swap_child p l u u' r t0 t : swap (T p (l ++ r)) (T p (l ++ u :: r)) t0 t ->
  exists t1, swap u' u t1 t /\ swap (T p (l ++ r)) (T p (l ++ u' :: r)) t0 t1.
Proof.
  induction 1 as [|n a c c' b Hs (t1 & H1 & H2)]; [exists (T p (l ++ u' :: r)); split; [apply Swap_below|]; constructor|].
  exists (T n (a ++ t1 :: b)). split; by constructor.
Qed.

(** The first child of the widget at the top of a part. *)
Lemma first_child h p ps ns w cs : repr h p ps ns (T w cs) -> exists x, deref h w = Done x /\ fchild x = root <$> head cs.
Proof. intros [Hx _]%repr_unfold. unfold deref. rewrite Hx. by eexists. Qed.

Lemma children_attached win t0 p l r w cs : forall fuel d t F, (length cs < fuel)%nat ->
  swap (T p (l ++ r)) (T p (l ++ T w cs :: r)) t0 t -> scattered d t F ->
  exists d' t1, disconnectChildren fuel win d w = Done d' /\ swap (T p (l ++ r)) (T p (l ++ T w [] :: r)) t0 t1 /\ scattered d' t1 (cs ++ F).
Proof.
  induction cs as [|c cs IH]; intros [|fuel] d t F Hf Hsw Hs; try (simpl in Hf; lia); cbn [disconnectChildren];
    pose proof (s_linked _ _ _ Hs t ltac:(set_solver)) as [Hl _];
    destruct (swap_part _ _ _ _ _ (swap_sym _ _ _ _ Hsw) _ _ _ Hl) as (q & ps & ns & HY); apply repr_with in HY as (_ & _ & HY & _);
    apply first_child in HY as (x & -> & Hx); cbn [obind]; rewrite Hx; simpl fmap; cbv iota beta; [by exists d, t|].
  destruct (swap_child p l _ (T w cs) r t0 t Hsw) as (t1 & H1 & H2).
  destruct (disconnect_attached win d t1 t F w [] c cs Hs H1) as (d1 & -> & Hs1 & _). cbn [obind].
  destruct (IH fuel d1 t1 (c :: F) ltac:(simpl in Hf; lia) H2 Hs1) as (d' & t2 & E & H3 & H4). exists d', t2. split; [done|]. split; [done|].
  eapply scattered_perm; [|exact H4]. symmetry. apply Permutation_middle.
Qed.

Lemma children_detached win t w cs : win w = false -> forall fuel d F, (length cs < fuel)%nat -> scattered d t (T w cs :: F) ->
  exists d', disconnectChildren fuel win d w = Done d' /\ scattered d' t (T w [] :: cs ++ F).
Proof.
  intros Hwin. induction cs as [|c cs IH]; intros [|fuel] d F Hf Hs; try (simpl in Hf; lia); cbn [disconnectChildren];
    pose proof (s_linked _ _ _ Hs (T w _) ltac:(apply elem_of_cons; right; apply elem_of_cons; by left)) as [HY _];
    apply first_child in HY as (x & -> & Hx); cbn [obind]; rewrite Hx; simpl fmap; cbv iota beta; [by exists d|].
  destruct (disconnect_detached win d t F w c cs Hs Hwin) as (d1 & -> & Hs1 & _). cbn [obind].
  destruct (IH fuel d1 (c :: F) ltac:(simpl in Hf; lia) Hs1) as (d' & E & H). exists d'. split; [done|].
  eapply scattered_perm; [|exact H]. constructor. symmetry. apply Permutation_middle.
Qed.

(** A widget without parent and children is freed. *)
Lemma scattered_freed d t w F : scattered d t (T w [] :: F) -> scattered (freed d w) t F.
Proof.
  intros [H1 H2 H3 H4 (a & Ha & Haw) H5 H6]. cbn [flat_map] in *. assert (w ∉ walk t ++ flat_map walk F) as Hw.
  { intros Hw. change (walk (T w [])) with [w] in H3. rewrite Permutation_app_comm in H3. cbn [app] in H3. apply NoDup_cons in H3 as [H3 _].
    apply H3. rewrite elem_of_app in *. tauto. }
  assert (NoDup (walk t ++ flat_map walk F)) as Hn.
  { change (walk (T w [])) with [w] in H3. rewrite Permutation_app_comm in H3. cbn [app] in H3. apply NoDup_cons in H3 as [_ H3]. by rewrite Permutation_app_comm. }
  assert (forall x, x ∈ t :: F -> forall m, m ∈ walk x -> m <> w) as Hne by (intros x Hx m Hm ->; apply Hw; by eapply part_elem).
  constructor; simpl; auto.
  - intros x Hx. eapply linked_frame; [|apply (H2 x); set_solver]. intros m Hm. apply lookup_delete_ne. intros <-. by apply (Hne x Hx w).
  - intros m Hm. rewrite lookup_delete_ne by (intros ->; done). apply H4. rewrite !elem_of_app in *. tauto.
  - exists a. split; [done|]. by rewrite elem_of_app in Haw; destruct Haw as [|[[]%not_elem_of_nil|]]; auto.
  - intros m [Hm Hm']%lookup_delete_Some. destruct (H5 m Hm') as [|[[->|]%elem_of_cons ?]]; auto. done.
Qed.

Lemma wDelete_top win w cs : wDelete win (T w cs) w = false.
Proof. cbn [wDelete]. destruct (win w) eqn:E; [by rewrite bool_decide_true|done]. Qed.

Lemma children_count cs : (length cs <= length (flat_map walk cs))%nat.
Proof. induction cs as [|[n b] cs IH]; simpl; [lia|]. rewrite length_app. lia. Qed.

(** Enough steps for the children of a widget. *)
Lemma children_steps h w cs : linked h (T w cs) -> (length cs < steps h)%nat.
Proof.
  intros Hl. apply linked_size in Hl. unfold steps. cbn [walk length] in Hl.
  pose proof (children_count cs). lia.
Qed.

Lemma children_destroyed cs : Forall (fun u => forall s t R, scattered (snd s) t (u :: R) -> exists s', destroy s u = Done s' /\ scattered (snd s') t R) cs ->
  forall s t R, scattered (snd s) t (cs ++ R) -> exists s', ofold destroy cs s = Done s' /\ scattered (snd s') t R.
Proof.
  induction 1 as [|u cs Hu _ IH]; intros s t R Hs; [by exists s|]. destruct (Hu s t (cs ++ R) Hs) as (s1 & E & Hs1).
  cbn [ofold]. rewrite E. cbn [obind]. by apply IH.
Qed.

(** Deleting a part that is cut off. *)
Lemma detached_destroyed u : forall s t R, scattered (snd s) t (u :: R) -> exists s', destroy s u = Done s' /\ scattered (snd s') t R.
Proof.
  induction u as [w cs IH] using tree_ind'. intros [win d] t R Hs. cbn [destroy fst snd] in *.
  pose proof (wDelete_top win w cs) as Hw. set (win' := wDelete win (T w cs)) in *.
  destruct (children_detached win' t w cs Hw (steps (nodes d)) d R) as (d1 & -> & Hs1); [|done|].
  { apply (children_steps _ w), (s_linked _ _ _ Hs). set_solver. }
  cbn [obind]. pose proof (s_linked _ _ _ Hs1 (T w []) ltac:(set_solver)) as [[Hx _]%repr_unfold _].
  unfold disconnect, deref. rewrite Hx. cbn [obind parent]. apply (children_destroyed cs IH (win', freed d1 w)). by apply scattered_freed.
Qed.

(** Deleting a part of the dialog. *)
Lemma destroyed s t0 t p l u r : inv (snd s) t -> swap (T p (l ++ r)) (T p (l ++ u :: r)) t0 t ->
  exists s', destroy s u = Done s' /\ inv (snd s') t0.
Proof.
  intros Hi Hsw. apply inv_scattered in Hi as Hs. destruct u as [w cs]. destruct s as [win d]. cbn [destroy fst snd] in *.
  set (win' := wDelete win (T w cs)). assert (length cs < steps (nodes d))%nat as Hf.
  { pose proof (linked_size _ _ (v_tree _ _ Hi)) as Hz. pose proof (swap_perm _ _ _ _ _ (with_perm p l (T w cs) r) Hsw) as HP.
    rewrite HP, length_app in Hz. unfold steps. cbn [walk length] in Hz.
    pose proof (children_count cs). lia. }
  destruct (children_attached win' t0 p l r w cs _ d t [] Hf Hsw Hs) as (d1 & t1 & -> & Hsw1 & Hs1). cbn [obind].
  destruct (disconnect_attached win' d1 t0 t1 (cs ++ []) p l (T w []) r Hs1 Hsw1) as (d2 & E & Hs2 & _). cbn [root] in E. rewrite E. cbn [obind].
  destruct (children_destroyed cs) with (s := (win', freed d2 w)) (t := t0) (R := @nil tree) as (s' & E' & Hs').
  - apply Forall_forall. intros u _. apply detached_destroyed.
  - by apply scattered_freed.
  - exists s'. split; [done|]. by apply scattered_inv.
Qed.

Lemma created s t t' w p cs dumb : inv (snd s) t -> (w ∉ dom (nodes (snd s))) -> swap (T p cs) (T p (cs ++ [T w []])) t t' ->
  exists s', create s w p dumb = Done s' /\ inv (snd s') t'.
Proof.
  intros [H1 H2 H3 (a & Ha & Haw) H5 H6] Hw Hsw. destruct (node_added _ t p cs w true H1 Hw t' Hsw) as (h & E & Hl & Hd).
  unfold create. rewrite E. cbn [obind]. eexists. split; [done|].
  assert (walk t' ≡ₚ walk t ++ [w]) as HP.
  { apply (swap_perm (T p cs) (T p (cs ++ [T w []]))); [|done]. cbn [walk]. rewrite flat_map_app. done. }
  constructor; simpl; auto.
  - rewrite <- H2. symmetry. by apply (swap_root (T p cs) (T p (cs ++ [T w []]))).
  - intros m Hm. destruct (decide (w = m)) as [->|]; [rewrite lookup_insert_eq; by eexists|]. rewrite lookup_insert_ne by done. apply H3.
    rewrite HP, elem_of_app in Hm. set_solver.
  - exists a. split; [done|]. rewrite HP. apply elem_of_app. by left.
  - intros m. destruct (decide (w = m)) as [->|]; [rewrite lookup_insert_eq; by destruct dumb|]. rewrite lookup_insert_ne by done. apply H5.
Qed.

Lemma bare_dialog_inv this : inv (newDialog this) (T this []).
Proof.
  constructor; simpl; auto.
  - split; [apply repr_unfold; split; [apply lookup_singleton_eq|done]|apply NoDup_singleton].
  - intros m [->|[]%not_elem_of_nil]%elem_of_cons. rewrite lookup_singleton_eq. by eexists.
  - exists this. split; [done|]. set_solver.
  - intros m [_ ?]%lookup_singleton_Some. done.
  - intros m. set_solver.
Qed.

Lemma happen_inv s t e t' : inv (snd s) t -> possible (snd s) t e t' -> exists s', happen s e = Done s' /\ inv (snd s') t'.
Proof.
  intros Hi. destruct e as [c|w p dumb|win|u]; cbn [happen possible].
  - intros [Hc ->]. destruct (change_inv (fst s) (snd s) t c Hi Hc) as (d' & -> & H). by eexists.
  - intros [Hw [cs Hs]]. by apply (created s t t' w p cs).
  - intros ->. by eexists.
  - intros (p & l & r & Hs). by apply (destroyed s t' t p l u r).
Qed.

Lemma lives_inv s t : lives s t -> inv (snd s) t.
Proof.
  induction 1 as [this win|s t e s' t' _ IH Hp E]; [apply bare_dialog_inv|]. destruct (happen_inv s t e t' IH Hp) as (s1 & E1 & H). congruence.
Qed.

(** C20: From the construction of a dialog on, while widgets are created in it, laid
    out, enabled, disabled and deleted with all that is below them, while the
    focus is moved by keys, hot keys and widgets that ask for it, and while the
    dialog comes to the front and leaves it: every such operation returns, the
    widget that is to have the focus is one of the widgets that the dialog has at
    that time, and no other widget is drawn as the active one or is grabbed. *)
Theorem focus_single s t : lives s t ->
  (exists a, wActive (snd s) = Some a /\ a ∈ walk t /\ (forall m, wstate (snd s) !! m = Some WSactive -> m = a) /\
     forall m, m ∈ grabbed (snd s) <-> (m = a /\ m <> this (snd s))) /\
  linked (nodes (snd s)) t /\ root t = this (snd s) /\
  forall e t', possible (snd s) t e t' -> exists s', happen s e = Done s' /\ lives s' t'.
Proof.
  intros Hs. pose proof (lives_inv s t Hs) as Hi. split; [|split; [apply Hi|split; [apply Hi|]]].
  - destruct (v_active _ _ Hi) as (a & Ha & Haw). exists a. split; [done|]. split; [done|]. split.
    + intros m Hm. apply (v_single _ _ Hi) in Hm. congruence.
    + intros m. rewrite (v_grabbed _ _ Hi). split; intros [E ?]; (split; [|done]); congruence.
  - intros e t' Hp. destruct (happen_inv _ t e t' Hi Hp) as (s' & E & _). exists s'. split; [done|]. by eapply Lives_event.
Qed.

End NCDialog.

(** ** A dialog with a box of two buttons and a third button *)

Module FocusSamples.
Import Tnode NodeSamples NCDialog.

Definition sampleDialog : dialog :=
  Dialog sampleHeap 0 (list_to_map [(0, WSdumb); (1, WSdumb); (2, WSactive); (3, WSnormal); (4, WSnormal)])%nat {[2%nat]} (Some 2%nat) true.

Lemma sample_inv : inv sampleDialog sampleTree.
Proof.
  constructor.
  - exact sample_linked.
  - reflexivity.
  - intros m Hm. repeat (apply elem_of_cons in Hm as [->|Hm]; [by eexists|]). by apply not_elem_of_nil in Hm.
  - exists 2%nat. split; [reflexivity|]. apply (bool_decide_unpack _). vm_compute. exact I.
  - intros m Hm. apply elem_of_list_to_map_2 in Hm. repeat (apply elem_of_cons in Hm as [E|Hm]; [first [discriminate E|by injection E as ->]|]). by apply not_elem_of_nil in Hm.
  - intros m. cbn [grabbed wActive this sampleDialog]. rewrite elem_of_singleton. split; [intros ->; done|intros [[= ->] _]; done].
Qed.

Lemma focus_cycles_witness : exists d', pressed (fun _ => true) 2 sampleDialog ForwardDir = Done d' /\ wActive d' = Some 4%nat.
Proof.
  destruct (focus_cycles (fun _ => true) sampleDialog sampleTree ForwardDir 2 0 2 sample_inv) as (d' & E & _ & _ & H); [reflexivity|reflexivity|vm_compute; reflexivity|].
  exists d'. split; [exact E|]. rewrite H. vm_compute. reflexivity.
Defined.

(** A dialog gets a box with a button and is shown; the button has the focus.
    Then the box is deleted. *)
Definition next (s : (nat -> bool) * dialog) (e : event) : (nat -> bool) * dialog :=
  match happen s e with Done s' => s' | _ => s end.
Definition born : (nat -> bool) * dialog := (fun _ => false, newDialog 0).
Definition boxed : (nat -> bool) * dialog := next born (Create 1 0 true).
Definition filled : (nat -> bool) * dialog := next boxed (Create 2 1 false).
Definition laidOut : (nat -> bool) * dialog := next filled (Layout (fun _ => true)).
Definition shown : (nat -> bool) * dialog := next laidOut (Change (Front false true)).
Definition emptied : (nat -> bool) * dialog := next shown (Delete (T 1 [T 2 []]))%nat.

Lemma shown_lives : lives shown (T 0 [T 1 [T 2 []]])%nat.
Proof.
  apply (Lives_event laidOut (T 0 [T 1 [T 2 []]])%nat (Change (Front false true))); [|by split|vm_compute; reflexivity].
  apply (Lives_event filled (T 0 [T 1 [T 2 []]])%nat (Layout (fun _ => true))); [|done|vm_compute; reflexivity].
  apply (Lives_event boxed (T 0 [T 1 []])%nat (Create 2 1 false)).
  - apply (Lives_event born (T 0 [])%nat (Create 1 0 true)); [constructor| |vm_compute; reflexivity].
    split; [apply (bool_decide_unpack _); vm_compute; exact I|]. exists []. constructor.
  - split; [apply (bool_decide_unpack _); vm_compute; exact I|]. exists []. apply (Swap_below _ _ 0 []). constructor.
  - vm_compute. reflexivity.
Qed.

Lemma focus_single_witness : wActive (snd shown) = Some 2%nat /\ wActive (snd emptied) = Some 0%nat /\
  exists s, happen shown (Delete (T 1 [T 2 []]))%nat = Done s /\ lives s (T 0 [])%nat.
Proof.
  split; [vm_compute; reflexivity|]. split; [vm_compute; reflexivity|].
  apply (focus_single shown (T 0 [T 1 [T 2 []]])%nat shown_lives).
  exists 0%nat, [], []. apply (Swap_here (T 0 ([] ++ [])) (T 0 ([] ++ T 1 [T 2 []] :: [])))%nat.
Defined.

End FocusSamples.
