(* ===== verification/TreeLines.v ===== *)
(** * The lines of trees and nested tables in the text mode

    src/libyui-ncurses/src/NCTableItem.cc, NCTree.cc: the lines of a list whose
    items may have children, how they are linked, which of them are visible, and
    how branches are opened and closed. *)

From S2P Require Import Prelude.
From stdpp Require Import base list.
Local Open Scope nat_scope.

Module NCTableLine.

(** The characters of the lines that connect the items. *)
Inductive glyph := HLINE | TTEE | LTEE | LLCORNER | VLINE | BLANK.

(** A line of the list is known by its place in [_items]; lines are appended only.
    [opened] is the flag of the item the line stands for, [cell] the width of the
    label with the placeholder in front of it. *)
Record line := Line {
  parent : option nat;
  nextSibling : option nat;
  firstChild : option nat;
  hidden : bool;
  opened : bool;
  treeLevel : nat;
  prefix : option (list glyph);
  cell : Z }.

Abbreviation lines := (list line).

Definition deref (ls : lines) (i : nat) : outcome line :=
  match ls !! i with Some x => Done x | None => Undefined end.
Definition upd (ls : lines) (i : nat) (f : line -> line) : outcome lines :=
  match ls !! i with Some x => Done (<[i := f x]> ls) | None => Undefined end.

Definition setNextSibling (n : nat) (x : line) : line :=
  Line (parent x) (Some n) (firstChild x) (hidden x) (opened x) (treeLevel x) (prefix x) (cell x).
Definition setFirstChild (n : nat) (x : line) : line :=
  Line (parent x) (nextSibling x) (Some n) (hidden x) (opened x) (treeLevel x) (prefix x) (cell x).
Definition setHidden (b : bool) (x : line) : line :=
  Line (parent x) (nextSibling x) (firstChild x) b (opened x) (treeLevel x) (prefix x) (cell x).
Definition setOpen (b : bool) (x : line) : line :=
  Line (parent x) (nextSibling x) (firstChild x) (hidden x) b (treeLevel x) (prefix x) (cell x).
Definition setPrefix (g : list glyph) (x : line) : line :=
  Line (parent x) (nextSibling x) (firstChild x) (hidden x) (opened x) (treeLevel x) (Some g) (cell x).

(** ** New lines *)

Fixpoint lastSibling (fuel : nat) (ls : lines) (c : nat) : outcome nat :=
  match fuel with
  | O => NoFuel
  | S fuel' =>
      let! x := deref ls c in
      match nextSibling x with
      | Some n => lastSibling fuel' ls n
      | None => Done c
      end
  end.

Definition addToTree (ls : lines) (p this : nat) : outcome lines :=
  let! x := deref ls p in
  match firstChild x with
  | Some c => let! l := lastSibling (S (length ls)) ls c in upd ls l (setNextSibling this)
  | None => upd ls p (setFirstChild this)
  end.

(** The constructor with [treeInit], and [Append]; [w] is the width of the label,
    which follows a placeholder of [prefixLen] characters. *)
Definition newLine (ls : lines) (p : option nat) (isOpen : bool) (w : Z) : outcome lines :=
  match p with
  | None => Done (ls ++ [Line None None None false isOpen 0 None (3 + w)])
  | Some p =>
      let! ls := addToTree ls p (length ls) in
      let! x := deref ls p in
      Done (ls ++ [Line (Some p) None None (negb (opened x)) isOpen (S (treeLevel x)) None (Z.of_nat (S (treeLevel x) + 3) + w)])
  end.

(** ** Visible lines *)

Fixpoint isVisible (fuel : nat) (ls : lines) (i : nat) : outcome bool :=
  match fuel with
  | O => NoFuel
  | S fuel' =>
      let! x := deref ls i in
      match parent x with
      | None => Done true
      | Some p => if hidden x then Done false else isVisible fuel' ls p
      end
  end.

Definition visible (ls : lines) (i : nat) : outcome bool := isVisible (S (length ls)) ls i.

(** A loop over a line and the siblings behind it. *)
Fixpoint forSiblings (f : line -> line) (fuel : nat) (ls : lines) (c : option nat) : outcome lines :=
  match c with
  | None => Done ls
  | Some c =>
      match fuel with
      | O => NoFuel
      | S fuel' =>
          let! x := deref ls c in
          let! ls := upd ls c f in
          forSiblings f fuel' ls (nextSibling x)
      end
  end.

Definition openBranch (ls : lines) (i : nat) : outcome lines :=
  let! x := deref ls i in
  match firstChild x with
  | None => Done ls
  | Some c =>
      let! v := visible ls c in
      if v : bool then Done ls
      else
        let! ls := upd ls i (setOpen true) in
        forSiblings (setHidden false) (length ls) ls (Some c)
  end.

Definition closeBranch (ls : lines) (i : nat) : outcome lines :=
  let! x := deref ls i in
  match firstChild x with
  | None => Done ls
  | Some c =>
      let! v := visible ls c in
      if v : bool then
        let! ls := upd ls i (setOpen false) in
        forSiblings (setHidden true) (length ls) ls (Some c)
      else Done ls
  end.

Definition toggleOpenClosedState (ls : lines) (i : nat) : outcome lines :=
  let! x := deref ls i in
  match firstChild x with
  | None => Done ls
  | Some c => let! v := visible ls c in if v : bool then closeBranch ls i else openBranch ls i
  end.

(** The keys of a line; [KEY_IC] and [KEY_DC] are the insert and the delete key. *)
Inductive key := KEY_PLUS | KEY_IC | KEY_MINUS | KEY_DC | KEY_SPACE | KEY_ELSE.

#[global] Instance key_eq_dec : EqDecision key.
Proof. solve_decision. Defined.

(** [handleInput( key )] of a line of a tree, which is always nested. *)
Definition handleInput (ls : lines) (i : nat) (k : key) : outcome (lines * bool) :=
  match k with
  | KEY_PLUS | KEY_IC => let! ls := openBranch ls i in Done (ls, true)
  | KEY_MINUS | KEY_DC => let! ls := closeBranch ls i in Done (ls, true)
  | KEY_SPACE => let! ls := toggleOpenClosedState ls i in Done (ls, true)
  | KEY_ELSE => Done (ls, false)
  end.

(** [NCTreeLine::ChangeToVisible()]. *)
Fixpoint ChangeToVisible (fuel : nat) (ls : lines) (i : nat) : outcome (lines * bool) :=
  match fuel with
  | O => NoFuel
  | S fuel' =>
      let! v := visible ls i in
      if v : bool then Done (ls, false)
      else
        let! x := deref ls i in
        match parent x with
        | Some p =>
            let! r := ChangeToVisible fuel' ls p in
            let! y := deref (fst r) p in
            let! ls := forSiblings (fun x => setOpen true (setHidden false x)) (length ls) (fst r) (firstChild y) in
            Done (ls, true)
        | None => let! ls := upd ls i (fun x => setOpen true (setHidden false x)) in Done (ls, true)
        end
  end.

(** ** The lines between the items *)

Definition prefixLen (x : line) : nat := treeLevel x + 3.

(** The columns for the levels above, from right to left. *)
Fixpoint upperLevels (fuel : nat) (ls : lines) (p : option nat) : outcome (list glyph) :=
  match p with
  | None => Done []
  | Some p =>
      match fuel with
      | O => NoFuel
      | S fuel' =>
          let! x := deref ls p in
          let! g := upperLevels fuel' ls (parent x) in
          Done ((match nextSibling x with Some _ => VLINE | None => BLANK end) :: g)
      end
  end.

(** What [updatePrefix()] writes, from right to left; the array has room for
    [prefixLen] characters, and writing more is undefined. *)
Definition glyphs (ls : lines) (x : line) : outcome (list glyph) :=
  let last := [HLINE; match firstChild x with Some _ => TTEE | None => HLINE end] in
  match parent x with
  | Some p =>
      let! g := upperLevels (length ls) ls (Some p) in
      Done (last ++ (match nextSibling x with Some _ => LTEE | None => LLCORNER end) :: g)
  | None => Done (last ++ [HLINE])
  end.

Definition updatePrefix (ls : lines) (i : nat) : outcome lines :=
  let! x := deref ls i in
  let! g := glyphs ls x in
  if length g <=? prefixLen x then upd ls i (setPrefix (rev g)) else Undefined.

(** The part of [UpdateFormat()] for the prefix: it is made only once. *)
Definition formatLine (ls : lines) (i : nat) : outcome lines :=
  let! x := deref ls i in
  match prefix x with Some _ => Done ls | None => updatePrefix ls i end.

Fixpoint formatLines (ls : lines) (js : list nat) : outcome lines :=
  match js with
  | [] => Done ls
  | i :: js => let! ls := formatLine ls i in formatLines ls js
  end.

(** ** Well linked lines *)

Definition parentOf (ls : lines) (j : nat) : option nat := ls !! j ≫= parent.

(** The children of a line, in the order in which they were added. *)
Definition kids (ls : lines) (i : nat) : list nat := filter (fun j => parentOf ls j = Some i) (seq 0 (length ls)).

Record wf (ls : lines) : Prop := Wf {
  wf_parent : forall j x p, ls !! j = Some x -> parent x = Some p -> p < j;
  wf_level : forall j x, ls !! j = Some x ->
    match parent x with None => treeLevel x = 0 | Some p => exists y, ls !! p = Some y /\ treeLevel x = S (treeLevel y) end;
  wf_first : forall i x, ls !! i = Some x -> firstChild x = head (kids ls i);
  wf_next : forall i l a r x, kids ls i = l ++ a :: r -> ls !! a = Some x -> nextSibling x = head r }.

Lemma filter_agree {A} (P Q : A -> Prop) `{!forall x, Decision (P x)} `{!forall x, Decision (Q x)} (l : list A) :
  (forall x, x ∈ l -> (P x <-> Q x)) -> filter P l = filter Q l.
Proof.
  induction l as [|a l IH]; intros Hpq; [done|]. assert (P a <-> Q a) as Ha by (apply Hpq, elem_of_cons; by left).
  assert (filter P l = filter Q l) as Hl by (apply IH; intros x Hx; apply Hpq, elem_of_cons; by right).
  destruct (decide (P a)); [rewrite !list.filter_cons_True by tauto|rewrite !list.filter_cons_False by tauto]; congruence.
Qed.

Lemma parents_kids ls ls' i : map parent ls = map parent ls' -> kids ls i = kids ls' i.
Proof.
  intros H. unfold kids. assert (length ls = length ls') as -> by (apply (f_equal length) in H; by rewrite !length_map in H).
  apply list_filter_iff. intros j. assert (parentOf ls j = parentOf ls' j) as ->; [|done]. unfold parentOf.
  apply (f_equal (fun l => l !! j)) in H. rewrite !list_lookup_fmap in H. destruct (ls !! j), (ls' !! j); simpl in *; congruence.
Qed.

Lemma kids_elem ls i j : j ∈ kids ls i <-> exists x, ls !! j = Some x /\ parent x = Some i.
Proof.
  unfold kids. rewrite list_elem_of_filter, elem_of_seq. unfold parentOf. split.
  - intros [H _]. destruct (ls !! j) as [x|]; [|done]. by exists x.
  - intros (x & Hx & Hp). rewrite Hx. split; [done|]. apply lookup_lt_Some in Hx. lia.
Qed.

Lemma kids_NoDup ls i : NoDup (kids ls i).
Proof. apply NoDup_filter, NoDup_seq. Qed.

Lemma kids_length ls i : length (kids ls i) <= length ls.
Proof. unfold kids. etrans; [apply length_filter|]. by rewrite length_seq. Qed.

Lemma kids_app ls x i : kids (ls ++ [x]) i = kids ls i ++ (if bool_decide (parent x = Some i) then [length ls] else []).
Proof.
  unfold kids. rewrite length_app. cbn [length]. rewrite Nat.add_1_r, seq_S, list.filter_app. f_equal.
  - apply filter_agree. intros j Hj%elem_of_seq. unfold parentOf. rewrite lookup_app_l by lia. done.
  - unfold parentOf. cbn [Nat.add]. case_bool_decide.
    + by rewrite list.filter_cons_True by (by rewrite list_lookup_middle).
    + by rewrite list.filter_cons_False by (by rewrite list_lookup_middle).
Qed.

Lemma updLine_alter ls i f : i < length ls -> upd ls i f = Done (alter f i ls).
Proof. intros [x Hx]%lookup_lt_is_Some_2. unfold upd. rewrite Hx. f_equal. rewrite list_insert_alter. apply list_alter_ext; [|done]. congruence. Qed.

(** *** Appending a line *)

Lemma lastSibling_spec ls i : wf ls -> forall fuel r l c, kids ls i = l ++ c :: r -> length r < fuel ->
  lastSibling fuel ls c = Done (default c (list.last r)).
Proof.
  intros Hw. induction fuel as [|fuel IH]; intros r l c Hk Hf; [lia|]. cbn [lastSibling]. unfold deref.
  assert (c ∈ kids ls i) as (x & Hx & _)%kids_elem by (rewrite Hk; set_solver). rewrite Hx. cbn [obind].
  rewrite (wf_next _ Hw i l c r x Hk Hx). destruct r as [|c' r]; [done|]. cbn [head]. simpl in Hf.
  rewrite (IH r (l ++ [c]) c'); [|by rewrite <- app_assoc|lia]. f_equal. rewrite last_cons. by destruct (list.last r).
Qed.

(** The lines with the new child [n] of [p]. *)
Definition linked (ls : lines) (p n : nat) : lines :=
  match list.last (kids ls p) with
  | Some a => alter (setNextSibling n) a ls
  | None => alter (setFirstChild n) p ls
  end.

Lemma addToTree_spec ls p n : wf ls -> p < length ls -> addToTree ls p n = Done (linked ls p n).
Proof.
  intros Hw Hp. unfold addToTree, deref, linked. destruct (lookup_lt_is_Some_2 _ _ Hp) as [x Hx]. rewrite Hx. cbn [obind].
  rewrite (wf_first _ Hw p x Hx). destruct (kids ls p) as [|c r] eqn:Hk; cbn [head list.last]; [by apply updLine_alter|].
  rewrite (lastSibling_spec ls p Hw (S (length ls)) r [] c Hk) by (pose proof (kids_length ls p) as H; rewrite Hk in H; simpl in H; lia). cbn [obind].
  assert (list.last (c :: r) = Some (default c (list.last r))) as E by (rewrite last_cons; by destruct (list.last r)).
  change (match r with [] => Some c | _ :: _ => list.last r end) with (list.last (c :: r)). rewrite E. apply updLine_alter.
  rewrite last_lookup, <- Hk in E. apply list_elem_of_lookup_2, kids_elem in E as (y & Hy & _). by apply lookup_lt_Some in Hy.
Qed.

(** All that is not a link to a child or a sibling. *)
Definition body (x : line) := (parent x, hidden x, opened x, treeLevel x, prefix x, cell x).

Lemma body_alter ls i f : (forall x, body (f x) = body x) -> map body (alter f i ls) = map body ls.
Proof. intros H. apply list_eq. intros j. rewrite !list_lookup_fmap, list_lookup_alter. case_decide; [subst|done]. destruct (ls !! j); [|done]. simpl. by rewrite H. Qed.

Lemma linked_body ls p n : map body (linked ls p n) = map body ls.
Proof. unfold linked. destruct (list.last _); by apply body_alter. Qed.

Lemma linked_length ls p n : length (linked ls p n) = length ls.
Proof. pose proof (f_equal length (linked_body ls p n)) as H. by rewrite !length_map in H. Qed.

Lemma body_lookup ls ls' j x : map body ls = map body ls' -> ls !! j = Some x -> exists y, ls' !! j = Some y /\ body y = body x.
Proof.
  intros H Hx. apply (f_equal (fun l => l !! j)) in H. rewrite !list_lookup_fmap, Hx in H. destruct (ls' !! j) as [y|]; [|done]. exists y. split; [done|]. simpl in H. congruence.
Qed.

Lemma body_parents ls ls' : map body ls = map body ls' -> map parent ls = map parent ls'.
Proof. intros H. apply (f_equal (map (fun b => fst (fst (fst (fst (fst b))))))) in H. by rewrite !map_map in H. Qed.

(** The links of a line when [n] becomes the last child of [p]. *)
Lemma linked_lookup ls p n i x : linked ls p n !! i = Some x -> exists y, ls !! i = Some y /\ body x = body y /\
  firstChild x = (if bool_decide (i = p /\ kids ls p = []) then Some n else firstChild y) /\
  nextSibling x = (if bool_decide (list.last (kids ls p) = Some i) then Some n else nextSibling y).
Proof.
  unfold linked. destruct (list.last (kids ls p)) as [a|] eqn:E.
  - rewrite (bool_decide_false (_ /\ _)) by (intros [_ H]; by rewrite H in E). rewrite list_lookup_alter. case_decide as Hd.
    + subst. rewrite bool_decide_true by done. destruct (ls !! i) as [y|]; [|done]. intros [= <-]. by exists y.
    + rewrite bool_decide_false by congruence. intros Hx. by exists x.
  - apply last_None in E. rewrite E. rewrite list_lookup_alter. case_decide as Hd.
    + subst. rewrite (bool_decide_true (_ /\ _)) by done. destruct (ls !! i) as [y|]; [|done]. intros [= <-]. by exists y.
    + rewrite (bool_decide_false (_ /\ _)) by (intros [? _]; congruence). intros Hx. by exists x.
Qed.

Lemma linked_wf ls p x0 y0 : wf ls -> ls !! p = Some y0 -> parent x0 = Some p -> treeLevel x0 = S (treeLevel y0) ->
  nextSibling x0 = None -> firstChild x0 = None -> wf (linked ls p (length ls) ++ [x0]).
Proof.
  intros Hw Hp Hpar Hlev Hnx Hfc. set (ls1 := linked ls p (length ls)). assert (length ls1 = length ls) as Hlen by apply linked_length.
  assert (forall i, kids (ls1 ++ [x0]) i = kids ls i ++ (if bool_decide (p = i) then [length ls] else [])) as Hkids.
  { intros i. rewrite kids_app, Hlen, Hpar. rewrite (parents_kids ls1 ls i) by (apply body_parents, linked_body). f_equal.
    repeat case_bool_decide; congruence. }
  assert (p < length ls) as Hplt by (by eapply lookup_lt_Some).
  assert (forall i y, (ls1 ++ [x0]) !! i = Some y -> (ls1 !! i = Some y) \/ (i = length ls /\ y = x0)) as Hcase.
  { intros i y Hy. apply lookup_app_Some in Hy as [Hy|[Hge Hy]]; [by left|right]. apply list_lookup_singleton_Some in Hy as [Hi ->]. split; [lia|done]. }
  assert (kids ls (length ls) = []) as Hnokids.
  { destruct (kids ls (length ls)) as [|j r] eqn:E; [done|]. assert (j ∈ kids ls (length ls)) as (y & Hy & Hyp)%kids_elem by (rewrite E; set_solver).
    pose proof (wf_parent _ Hw _ _ _ Hy Hyp). apply lookup_lt_Some in Hy. lia. }
  constructor.
  - intros j y q Hy Hq. apply Hcase in Hy as [Hy|[-> ->]]; [|congruence]. apply linked_lookup in Hy as (z & Hz & Hb & _).
    injection Hb as Hb _ _ _ _ _. eapply (wf_parent _ Hw); [exact Hz|congruence].
  - intros j y Hy. apply Hcase in Hy as [Hy|[-> ->]].
    + apply linked_lookup in Hy as (z & Hz & Hb & _). injection Hb as Hb1 _ _ Hb2 _ _. pose proof (wf_level _ Hw _ _ Hz) as H. rewrite Hb1, Hb2.
      destruct (parent z) as [q|]; [|done]. destruct H as (w & Hwq & Hl). destruct (body_lookup ls ls1 q w) as (w' & Hw' & Hb'); [symmetry; apply linked_body|done|].
      exists w'. injection Hb' as _ _ _ Hb' _ _. split; [by apply lookup_app_l_Some|congruence].
    + rewrite Hpar. destruct (body_lookup ls ls1 p y0) as (w' & Hw' & Hb'); [symmetry; apply linked_body|done|].
      exists w'. injection Hb' as _ _ _ Hb' _ _. split; [by apply lookup_app_l_Some|congruence].
  - intros i y Hy. rewrite Hkids. apply Hcase in Hy as [Hy|[-> ->]].
    + apply linked_lookup in Hy as (z & Hz & _ & Hf & _). rewrite Hf, (wf_first _ Hw i z Hz).
      destruct (decide (p = i)) as [->|Hne].
      * rewrite (bool_decide_true (i = i)) by done. destruct (kids ls i) eqn:E; [by rewrite bool_decide_true|by rewrite bool_decide_false by (intros [_ ?]; done)].
      * rewrite (bool_decide_false (p = i)), (bool_decide_false (_ /\ _)) by (try intros [? _]; congruence). by rewrite app_nil_r.
    + rewrite Hnokids, bool_decide_false by lia. done.
  - intros i l a r y. rewrite Hkids. intros Hk Hy. destruct (decide (p = i)) as [->|Hne].
    + rewrite bool_decide_true in Hk by done. destruct r as [|b r _] using rev_ind.
      * change (a :: []) with ([] ++ [a]) in Hk. rewrite app_assoc, app_nil_r in Hk. apply app_inj_tail in Hk as [Hk <-].
        apply Hcase in Hy as [Hy|[_ ->]]; [apply lookup_lt_Some in Hy; lia|done].
      * rewrite app_comm_cons, app_assoc in Hk. apply app_inj_tail in Hk as [Hk <-]. apply Hcase in Hy as [Hy|[-> _]].
        -- apply linked_lookup in Hy as (z & Hz & _ & _ & Hn). rewrite Hn, Hk, last_app, last_cons. rewrite (wf_next _ Hw i l a r z Hk Hz).
           assert (NoDup (kids ls i)) as Hnd by apply kids_NoDup. rewrite Hk in Hnd. apply NoDup_app in Hnd as (_ & _ & Hnd). apply NoDup_cons in Hnd as [Hnd _].
           destruct r as [|b' r _] using rev_ind; [by rewrite bool_decide_true|]. rewrite last_snoc. rewrite bool_decide_false; [by destruct r|].
           intros [= ->]. apply Hnd. set_solver.
        -- assert (length ls ∈ kids ls i) as (w & Hw' & _)%kids_elem by (rewrite Hk; set_solver). apply lookup_lt_Some in Hw'. lia.
    + rewrite bool_decide_false, app_nil_r in Hk by done. assert (a ∈ kids ls i) as Ha by (rewrite Hk; set_solver).
      apply kids_elem in Ha as (w & Hw' & Hpw). apply Hcase in Hy as [Hy|[-> _]]; [|apply lookup_lt_Some in Hw'; lia].
      apply linked_lookup in Hy as (z & Hz & _ & _ & Hn). rewrite Hn, (wf_next _ Hw i l a r z Hk Hz). rewrite bool_decide_false; [done|].
      intros Hl. rewrite last_lookup in Hl. apply list_elem_of_lookup_2, kids_elem in Hl as (w' & Hw2 & Hp2). congruence.
Qed.

Definition levelBelow (ls : lines) (p : option nat) : nat :=
  match p with None => 0 | Some q => match ls !! q with Some y => S (treeLevel y) | None => 0 end end.
Definition closedAbove (ls : lines) (p : option nat) : bool :=
  match p with None => false | Some q => match ls !! q with Some y => negb (opened y) | None => false end end.

(** A new line changes nothing but links, and starts hidden in a closed branch. *)
Lemma newLine_spec ls p o w : wf ls -> (forall q, p = Some q -> q < length ls) ->
  exists ls', newLine ls p o w = Done ls' /\ wf ls' /\ map body ls' = map body ls ++ [(p, closedAbove ls p, o, levelBelow ls p, None, Z.of_nat (levelBelow ls p + 3) + w)%Z].
Proof.
  intros Hw Hp. destruct p as [q|]; cbn [newLine].
  - specialize (Hp q eq_refl). rewrite addToTree_spec by done. cbn [obind]. destruct (lookup_lt_is_Some_2 _ _ Hp) as [y Hy].
    destruct (body_lookup ls (linked ls q (length ls)) q y) as (z & Hz & Hb); [symmetry; apply linked_body|done|].
    unfold deref. rewrite Hz. cbn [obind]. eexists. split; [done|]. injection Hb as Hb0 Hb1 Hb2 Hb3 Hb4 Hb5. split.
    + apply (linked_wf ls q _ y); try done. simpl. congruence.
    + rewrite map_app, linked_body. unfold body at 2. cbn [map parent hidden opened treeLevel prefix cell closedAbove levelBelow]. by rewrite Hy, Hb2, Hb3.
  - eexists. split; [done|]. split; [|by rewrite map_app].
    assert (forall i, kids (ls ++ [Line None None None false o 0 None (3 + w)]) i = kids ls i) as Hk.
    { intros i. by rewrite kids_app, bool_decide_false, app_nil_r by done. }
    assert (forall i y, (ls ++ [Line None None None false o 0 None (3 + w)]) !! i = Some y -> (ls !! i = Some y) \/ (i = length ls /\ y = Line None None None false o 0 None (3 + w))) as Hcase.
    { intros i y Hy. apply lookup_app_Some in Hy as [Hy|[Hge Hy]]; [by left|right]. apply list_lookup_singleton_Some in Hy as [Hi ->]. split; [lia|done]. }
    constructor.
    + intros j y r Hy Hr. apply Hcase in Hy as [Hy|[_ ->]]; [by eapply (wf_parent _ Hw)|done].
    + intros j y Hy. apply Hcase in Hy as [Hy|[_ ->]]; [|done]. pose proof (wf_level _ Hw _ _ Hy) as H. destruct (parent y); [|done].
      destruct H as (z & Hz & Hl). exists z. split; [by apply lookup_app_l_Some|done].
    + intros i y Hy. rewrite Hk. apply Hcase in Hy as [Hy|[-> ->]]; [by apply (wf_first _ Hw)|]. simpl.
      destruct (kids ls (length ls)) as [|j r] eqn:E; [done|]. assert (j ∈ kids ls (length ls)) as (y & Hy & Hyp)%kids_elem by (rewrite E; set_solver).
      pose proof (wf_parent _ Hw _ _ _ Hy Hyp). apply lookup_lt_Some in Hy. lia.
    + intros i l a r y. rewrite Hk. intros E Hy. apply Hcase in Hy as [Hy|[-> _]]; [by eapply (wf_next _ Hw)|].
      assert (length ls ∈ kids ls i) as (z & Hz & _)%kids_elem by (rewrite E; set_solver). apply lookup_lt_Some in Hz. lia.
Qed.

(** *** Changes that leave the links *)

Definition links (x : line) := (parent x, nextSibling x, firstChild x, treeLevel x).

Lemma links_lookup ls ls' j x : map links ls = map links ls' -> ls !! j = Some x -> exists y, ls' !! j = Some y /\ links y = links x.
Proof.
  intros H Hx. apply (f_equal (fun l => l !! j)) in H. rewrite !list_lookup_fmap, Hx in H. destruct (ls' !! j) as [y|]; [|done]. exists y. split; [done|]. simpl in H. congruence.
Qed.

Lemma links_parents ls ls' : map links ls = map links ls' -> map parent ls = map parent ls'.
Proof. intros H. apply (f_equal (map (fun b => fst (fst (fst b))))) in H. by rewrite !map_map in H. Qed.

Lemma links_length ls ls' : map links ls = map links ls' -> length ls = length ls'.
Proof. intros H. apply (f_equal length) in H. by rewrite !length_map in H. Qed.

Lemma links_kids ls ls' i : map links ls = map links ls' -> kids ls i = kids ls' i.
Proof. intros H. by apply parents_kids, links_parents. Qed.

Lemma links_wf ls ls' : map links ls = map links ls' -> wf ls -> wf ls'.
Proof.
  intros H Hw. symmetry in H. constructor.
  - intros j x q Hx Hq. destruct (links_lookup _ _ _ _ H Hx) as (y & Hy & E). injection E as E _ _ _. eapply (wf_parent _ Hw); [exact Hy|congruence].
  - intros j x Hx. destruct (links_lookup _ _ _ _ H Hx) as (y & Hy & E). injection E as E1 _ _ E2. pose proof (wf_level _ Hw _ _ Hy) as Hl.
    rewrite E1, E2 in Hl. destruct (parent x); [|done]. destruct Hl as (z & Hz & Hl). symmetry in H.
    destruct (links_lookup _ _ _ _ H Hz) as (z' & Hz' & E). injection E as _ _ _ E. exists z'. split; [done|congruence].
  - intros i x Hx. destruct (links_lookup _ _ _ _ H Hx) as (y & Hy & E). injection E as _ _ E _. rewrite <- E, (wf_first _ Hw i y Hy). f_equal.
    by apply links_kids.
  - intros i l a r x Hk Hx. destruct (links_lookup _ _ _ _ H Hx) as (y & Hy & E). injection E as _ E _ _. rewrite <- E.
    apply (wf_next _ Hw i l a r y); [|done]. rewrite <- Hk. symmetry. by apply links_kids.
Qed.

(** Some lines are changed. *)
Definition mark (f : line -> line) (js : list nat) (ls : lines) : lines := imap (fun j x => if bool_decide (j ∈ js) then f x else x) ls.

Lemma mark_lookup f js ls j : mark f js ls !! j = (fun x => if bool_decide (j ∈ js) then f x else x) <$> ls !! j.
Proof. unfold mark. by rewrite list_lookup_imap. Qed.

Lemma mark_links f js ls : (forall x, links (f x) = links x) -> map links (mark f js ls) = map links ls.
Proof. intros H. apply list_eq. intros j. rewrite !list_lookup_fmap, mark_lookup. destruct (ls !! j); [|done]. simpl. case_bool_decide; [by rewrite H|done]. Qed.

Lemma mark_alter f c r ls : c ∉ r -> mark f r (alter f c ls) = mark f (c :: r) ls.
Proof.
  intros Hc. apply list_eq. intros j. rewrite !mark_lookup, list_lookup_alter. case_decide as Hd.
  - subst. destruct (ls !! j); [|done]. simpl. rewrite (bool_decide_false (j ∈ r)), (bool_decide_true (j ∈ j :: r)); [done|set_solver|done].
  - destruct (ls !! j); [|done]. simpl. by rewrite (bool_decide_ext (j ∈ r) (j ∈ c :: r)) by set_solver.
Qed.

Lemma forSiblings_spec f i : (forall x, links (f x) = links x) -> forall fuel ls l r, wf ls -> kids ls i = l ++ r -> length r <= fuel ->
  forSiblings f fuel ls (head r) = Done (mark f r ls).
Proof.
  intros Hf. induction fuel as [|fuel IH]; intros ls l r Hw Hk Hr.
  - destruct r; [|simpl in Hr; lia]. simpl. f_equal. apply list_eq. intros j. rewrite mark_lookup. by destruct (ls !! j).
  - destruct r as [|c r]; [cbn; f_equal; apply list_eq; intros j; rewrite mark_lookup; by destruct (ls !! j)|]. cbn [head forSiblings].
    assert (c ∈ kids ls i) as (x & Hx & _)%kids_elem by (rewrite Hk; set_solver). unfold deref. rewrite Hx. cbn [obind].
    rewrite updLine_alter by (by eapply lookup_lt_Some). cbn [obind]. rewrite (wf_next _ Hw i l c r x Hk Hx).
    assert (map links ls = map links (alter f c ls)) as Hl.
    { apply list_eq. intros j. rewrite !list_lookup_fmap, list_lookup_alter. case_decide; [subst|done]. destruct (ls !! j); [|done]. simpl. by rewrite Hf. }
    rewrite (IH _ (l ++ [c]) r); [|by eapply links_wf|rewrite <- (links_kids _ _ _ Hl), <- app_assoc; exact Hk|simpl in Hr; lia].
    f_equal. apply mark_alter. pose proof (kids_NoDup ls i) as Hn. rewrite Hk in Hn. apply NoDup_app in Hn as (_ & _ & Hn). by apply NoDup_cons in Hn as [Hn _].
Qed.

(** *** Visible lines *)

Definition seen (ls : lines) (i : nat) : bool := match visible ls i with Done b => b | _ => false end.

Lemma isVisible_total ls : wf ls -> forall fuel i, i < length ls -> i < fuel -> isVisible fuel ls i = isVisible (S i) ls i /\ exists b, isVisible fuel ls i = Done b.
Proof.
  intros Hw. assert (forall fuel i, i < length ls -> i < fuel -> exists b, forall fuel', i < fuel' -> isVisible fuel' ls i = Done b) as H.
  { induction fuel as [|fuel IH]; intros i Hi Hf; [lia|]. destruct (lookup_lt_is_Some_2 _ _ Hi) as [x Hx]. destruct (parent x) as [p|] eqn:Ep.
    - pose proof (wf_parent _ Hw _ _ _ Hx Ep). destruct (IH p) as [b Hb]; [lia|lia|]. exists (if hidden x then false else b).
      intros [|fuel'] Hf'; [lia|]. simpl. unfold deref. rewrite Hx. simpl. rewrite Ep. destruct (hidden x); [done|]. apply Hb. lia.
    - exists true. intros [|fuel'] Hf'; [lia|]. simpl. unfold deref. rewrite Hx. simpl. by rewrite Ep. }
  intros fuel i Hi Hf. destruct (H fuel i Hi Hf) as [b Hb]. rewrite !Hb by lia. split; [done|by exists b].
Qed.

Lemma visible_seen ls i : wf ls -> i < length ls -> visible ls i = Done (seen ls i).
Proof.
  intros Hw Hi. unfold seen. destruct (isVisible_total ls Hw (S (length ls)) i Hi) as [_ [b Hb]]; [lia|]. unfold visible. by rewrite Hb.
Qed.

(** A line is visible if it is not hidden and its parent is visible. *)
Lemma seen_eq ls i x : wf ls -> ls !! i = Some x -> seen ls i = match parent x with None => true | Some p => negb (hidden x) && seen ls p end.
Proof.
  intros Hw Hx. pose proof (lookup_lt_Some _ _ _ Hx) as Hi. unfold seen at 1, visible. cbn [isVisible]. unfold deref. rewrite Hx. cbn [obind].
  destruct (parent x) as [p|] eqn:Ep; [|done]. pose proof (wf_parent _ Hw _ _ _ Hx Ep). destruct (hidden x); [done|]. simpl. unfold seen, visible.
  destruct (isVisible_total ls Hw (length ls) p) as [E1 _]; [lia|lia|]. destruct (isVisible_total ls Hw (S (length ls)) p) as [E2 _]; [lia|lia|]. by rewrite E1, E2.
Qed.

(** The flag of every line says whether the branch it is in is closed. *)
Definition consistent (ls : lines) : Prop := forall j x p y, ls !! j = Some x -> parent x = Some p -> ls !! p = Some y -> hidden x = negb (opened y).

(** A line is exposed if all branches it is in are open. *)
Inductive exposed (ls : lines) : nat -> Prop :=
| Exposed_top i x : ls !! i = Some x -> parent x = None -> exposed ls i
| Exposed_below i x p y : ls !! i = Some x -> parent x = Some p -> ls !! p = Some y -> opened y = true -> exposed ls p -> exposed ls i.

Lemma seen_exposed ls i : wf ls -> consistent ls -> i < length ls -> seen ls i = true <-> exposed ls i.
Proof.
  intros Hw Hc. induction (lt_wf i) as [i _ IH]. intros Hi. destruct (lookup_lt_is_Some_2 _ _ Hi) as [x Hx]. rewrite (seen_eq ls i x Hw Hx). split.
  - destruct (parent x) as [p|] eqn:Ep; [|intros _; by eapply Exposed_top]. pose proof (wf_parent _ Hw _ _ _ Hx Ep).
    assert (p < length ls) as Hp by lia. destruct (lookup_lt_is_Some_2 _ _ Hp) as [y Hy]. rewrite (Hc _ _ _ _ Hx Ep Hy), negb_involutive.
    intros [H1 H2]%andb_true_iff. eapply Exposed_below; try done. by apply IH.
  - intros He. inversion He as [i' x' Hx' Hp'|i' x' p y Hx' Hp' Hy Ho He']; subst.
    + assert (x' = x) as -> by congruence. by rewrite Hp'.
    + assert (x' = x) as -> by congruence. rewrite Hp'. pose proof (wf_parent _ Hw _ _ _ Hx Hp'). rewrite (Hc _ _ _ _ Hx Hp' Hy), Ho. simpl. apply IH; [done|lia|done].
Qed.

(** Lines that are hidden no more make others visible only. *)
Lemma seen_mono ls ls' : wf ls -> map links ls = map links ls' ->
  (forall j x y, ls !! j = Some x -> ls' !! j = Some y -> hidden y = true -> hidden x = true) ->
  forall i, i < length ls -> seen ls i = true -> seen ls' i = true.
Proof.
  intros Hw Hl Hh i. induction (lt_wf i) as [i _ IH]. intros Hi. destruct (lookup_lt_is_Some_2 _ _ Hi) as [x Hx]. destruct (links_lookup _ _ _ _ Hl Hx) as (y & Hy & E).
  injection E as E _ _ _. rewrite (seen_eq ls i x Hw Hx), (seen_eq ls' i y (links_wf _ _ Hl Hw) Hy), E. destruct (parent x) as [p|] eqn:Ep; [|done].
  pose proof (wf_parent _ Hw _ _ _ Hx Ep). intros [H1 H2]%andb_true_iff. apply andb_true_iff. split; [|apply IH; [done|lia|done]].
  destruct (hidden y) eqn:Ey; [|done]. by rewrite (Hh _ _ _ Hx Hy Ey) in H1.
Qed.

(** *** Opening and closing branches *)

(** The lines with a branch that is open or closed. *)
Definition withBranch (ls : lines) (i : nat) (b : bool) : lines := mark (setHidden (negb b)) (kids ls i) (alter (setOpen b) i ls).

Lemma withBranch_links ls i b : map links (withBranch ls i b) = map links ls.
Proof.
  unfold withBranch. rewrite mark_links by done. apply list_eq. intros j. rewrite !list_lookup_fmap, list_lookup_alter.
  case_decide; [subst|done]. by destruct (ls !! j).
Qed.

Lemma withBranch_lookup ls i b j : withBranch ls i b !! j =
  (fun x => let x := if bool_decide (i = j) then setOpen b x else x in if bool_decide (j ∈ kids ls i) then setHidden (negb b) x else x) <$> ls !! j.
Proof.
  unfold withBranch. rewrite mark_lookup, list_lookup_alter. case_decide as Hd.
  - subst. rewrite (bool_decide_true (j = j)) by done. by destruct (ls !! j).
  - rewrite (bool_decide_false (i = j)) by done. by destruct (ls !! j).
Qed.

Lemma withBranch_consistent ls i b : wf ls -> consistent ls -> consistent (withBranch ls i b).
Proof.
  intros Hw Hc j x p y. rewrite !withBranch_lookup. destruct (ls !! j) as [x0|] eqn:Ej; [|done]. intros [= <-]. intros Hp. destruct (ls !! p) as [y0|] eqn:Ey; [|done]. intros [= <-].
  assert (parent x0 = Some p) as Hp0 by (revert Hp; repeat case_bool_decide; done).
  assert (j ∈ kids ls i <-> p = i) as Hk by (rewrite kids_elem; split; [intros (z & Hz & Hzp); congruence|intros ->; by exists x0]).
  destruct (decide (p = i)) as [->|Hne].
  - rewrite (bool_decide_true (j ∈ _)) by tauto. rewrite (bool_decide_true (i = i)) by done. simpl. repeat case_bool_decide; done.
  - rewrite (bool_decide_false (j ∈ _)) by tauto. rewrite (bool_decide_false (i = p)) by congruence. pose proof (Hc _ _ _ _ Ej Hp0 Ey) as H.
    repeat case_bool_decide; simpl; done.
Qed.

Lemma branch_body ls i b c r : wf ls -> i < length ls -> kids ls i = c :: r ->
  (let! ls := upd ls i (setOpen b) in forSiblings (setHidden (negb b)) (length ls) ls (Some c)) = Done (withBranch ls i b).
Proof.
  intros Hw Hi Hk. rewrite updLine_alter by done. cbn [obind]. set (ls1 := alter (setOpen b) i ls).
  assert (map links ls = map links ls1) as Hl.
  { apply list_eq. intros j. unfold ls1. rewrite !list_lookup_fmap, list_lookup_alter. case_decide; [subst|done]. by destruct (ls !! j). }
  change (Some c) with (head (c :: r)). rewrite (forSiblings_spec (setHidden (negb b)) i) with (l := []); [|done|by eapply links_wf|by rewrite <- (links_kids _ _ i Hl)|].
  - unfold withBranch. by rewrite Hk.
  - rewrite <- Hk, <- (links_length _ _ Hl). apply kids_length.
Qed.

(** In a consistent tree the children of a visible line are visible if its branch
    is open. *)
Lemma seen_child ls i x c r : wf ls -> consistent ls -> ls !! i = Some x -> seen ls i = true -> kids ls i = c :: r -> seen ls c = opened x.
Proof.
  intros Hw Hc Hx Hs Hk. assert (c ∈ kids ls i) as (y & Hy & Hp)%kids_elem by (rewrite Hk; set_solver).
  rewrite (seen_eq ls c y Hw Hy), Hp, Hs, (Hc _ _ _ _ Hy Hp Hx), andb_true_r. apply negb_involutive.
Qed.

(** What a key does to the branch of a line: [None] is no change. *)
Definition branchKey (k : key) (isOpen : bool) : option bool :=
  match k with
  | KEY_PLUS | KEY_IC => Some true
  | KEY_MINUS | KEY_DC => Some false
  | KEY_SPACE => Some (negb isOpen)
  | KEY_ELSE => None
  end.

Lemma withBranch_same ls i x : wf ls -> consistent ls -> ls !! i = Some x -> withBranch ls i (opened x) = ls.
Proof.
  intros Hw Hc Hx. apply list_eq. intros j. rewrite withBranch_lookup. destruct (ls !! j) as [y|] eqn:Ej; [|done]. simpl. f_equal.
  assert ((if bool_decide (i = j) then setOpen (opened x) y else y) = y) as -> by (case_bool_decide; [subst; assert (y = x) as -> by congruence; by destruct x|done]).
  case_bool_decide as Hk; [|done]. apply kids_elem in Hk as (z & Hz & Hp). assert (z = y) as -> by congruence.
  rewrite <- (Hc _ _ _ _ Ej Hp Hx). by destruct y.
Qed.

(** The keys that open and close branches do it, and the links and all other
    branches stay as they are. *)
Lemma lineInput_spec ls i x k : wf ls -> consistent ls -> ls !! i = Some x -> seen ls i = true ->
  handleInput ls i k = Done (match branchKey k (opened x) with
                             | Some b => match kids ls i with [] => ls | _ => withBranch ls i b end
                             | None => ls
                             end, bool_decide (k <> KEY_ELSE)).
Proof.
  intros Hw Hc Hx Hs. pose proof (lookup_lt_Some _ _ _ Hx) as Hi. destruct (kids ls i) as [|c r] eqn:Hk.
  - assert (firstChild x = None) as Hf by (by rewrite (wf_first _ Hw i x Hx), Hk).
    destruct k; cbn [handleInput branchKey]; unfold openBranch, closeBranch, toggleOpenClosedState, deref; rewrite ?Hx; cbn [obind]; rewrite ?Hf; done.
  - assert (firstChild x = Some c) as Hf by (by rewrite (wf_first _ Hw i x Hx), Hk).
    assert (visible ls c = Done (opened x)) as Hv.
    { rewrite <- (seen_child ls i x c r Hw Hc Hx Hs Hk). apply visible_seen; [done|]. assert (c ∈ kids ls i) as (y & Hy & _)%kids_elem by (rewrite Hk; set_solver).
      by eapply lookup_lt_Some. }
    assert (openBranch ls i = Done (withBranch ls i true)) as Ho.
    { unfold openBranch, deref. rewrite Hx. cbn [obind]. rewrite Hf, Hv. cbn [obind]. destruct (opened x) eqn:E; [|by apply (branch_body ls i true c r)].
      f_equal. rewrite <- E. symmetry. by apply withBranch_same. }
    assert (closeBranch ls i = Done (withBranch ls i false)) as Hcl.
    { unfold closeBranch, deref. rewrite Hx. cbn [obind]. rewrite Hf, Hv. cbn [obind]. destruct (opened x) eqn:E; [by apply (branch_body ls i false c r)|].
      f_equal. rewrite <- E. symmetry. by apply withBranch_same. }
    destruct k; cbn [handleInput branchKey]; rewrite ?Ho, ?Hcl; try done. unfold toggleOpenClosedState, deref. rewrite Hx. cbn [obind]. rewrite Hf, Hv. cbn [obind].
    destruct (opened x); rewrite ?Ho, ?Hcl; done.
Qed.

(** *** Showing a line *)

(** What showing lines may change: hidden lines are no longer hidden, and items
    are marked as open. *)
Definition revealed (x y : line) : Prop :=
  (hidden y = true -> hidden x = true) /\ (opened x = true -> opened y = true) /\ prefix y = prefix x /\ cell y = cell x.
Definition reveals (ls ls' : lines) : Prop :=
  map links ls = map links ls' /\ forall j x y, ls !! j = Some x -> ls' !! j = Some y -> revealed x y.

Lemma reveals_refl ls : reveals ls ls.
Proof. split; [done|]. intros j x y Hx Hy. assert (x = y) as -> by congruence. by repeat split. Qed.

Lemma reveals_trans ls1 ls2 ls3 : reveals ls1 ls2 -> reveals ls2 ls3 -> reveals ls1 ls3.
Proof.
  intros [L1 R1] [L2 R2]. split; [congruence|]. intros j x z Hx Hz. destruct (links_lookup _ _ _ _ L1 Hx) as (y & Hy & _).
  destruct (R1 j x y Hx Hy) as (A1 & A2 & A3 & A4), (R2 j y z Hy Hz) as (B1 & B2 & B3 & B4). repeat split; [tauto|tauto|congruence|congruence].
Qed.

Definition show (x : line) : line := setOpen true (setHidden false x).

Lemma mark_reveals js ls : reveals ls (mark show js ls).
Proof.
  split; [by rewrite mark_links|]. intros j x y Hx. rewrite mark_lookup, Hx. intros [= <-]. by case_bool_decide.
Qed.

Lemma reveals_seen ls ls' i : wf ls -> reveals ls ls' -> i < length ls -> seen ls i = true -> seen ls' i = true.
Proof. intros Hw [Hl Hr] Hi. apply (seen_mono ls ls'); try done. intros j x y Hx Hy. apply (Hr j x y Hx Hy). Qed.

Lemma ChangeToVisible_spec : forall fuel ls i, wf ls -> i < length ls -> i < fuel ->
  exists ls', ChangeToVisible fuel ls i = Done (ls', negb (seen ls i)) /\ reveals ls ls' /\ seen ls' i = true /\ (seen ls i = true -> ls' = ls).
Proof.
  induction fuel as [|fuel IH]; intros ls i Hw Hi Hf; [lia|]. cbn [ChangeToVisible]. rewrite visible_seen by done. cbn [obind].
  destruct (seen ls i) eqn:Es; [exists ls; split; [done|]; split; [apply reveals_refl|done]|].
  destruct (lookup_lt_is_Some_2 _ _ Hi) as [x Hx]. unfold deref at 1. rewrite Hx. cbn [obind]. rewrite (seen_eq ls i x Hw Hx) in Es.
  destruct (parent x) as [p|] eqn:Ep; [|done]. pose proof (wf_parent _ Hw _ _ _ Hx Ep) as Hp.
  destruct (IH ls p Hw) as (ls1 & -> & Hr1 & Hs1 & _); [lia|lia|]. cbn [obind fst]. pose proof (links_wf _ _ (proj1 Hr1) Hw) as Hw1.
  pose proof (links_length _ _ (proj1 Hr1)) as Hlen. assert (p < length ls1) as Hp1 by lia. destruct (lookup_lt_is_Some_2 _ _ Hp1) as [y Hy].
  unfold deref. rewrite Hy. cbn [obind]. rewrite (wf_first _ Hw1 p y Hy). change (fun x => setOpen true (setHidden false x)) with show.
  rewrite (forSiblings_spec show p) with (l := []); [|done|done|done|rewrite Hlen; apply kids_length]. cbn [obind].
  exists (mark show (kids ls1 p) ls1). split; [done|]. pose proof (mark_reveals (kids ls1 p) ls1) as Hr2. split; [by eapply reveals_trans|]. split; [|done].
  destruct (links_lookup _ _ _ _ (proj1 Hr1) Hx) as (x1 & Hx1 & E). injection E as E _ _ _.
  assert (mark show (kids ls1 p) ls1 !! i = Some (show x1)) as Hx2.
  { rewrite mark_lookup, Hx1. simpl. rewrite bool_decide_true; [done|]. apply kids_elem. exists x1. split; [done|congruence]. }
  rewrite (seen_eq _ i _ (links_wf _ _ (proj1 Hr2) Hw1) Hx2). simpl. rewrite E, Ep. simpl. apply (reveals_seen ls1); try done.
Qed.

(** *** The lines between the items *)

Lemma upperLevels_spec ls : wf ls -> forall fuel p y, ls !! p = Some y -> p < fuel -> exists g, upperLevels fuel ls (Some p) = Done g /\ length g = S (treeLevel y).
Proof.
  intros Hw. induction fuel as [|fuel IH]; intros p y Hy Hf; [lia|]. cbn [upperLevels]. unfold deref. rewrite Hy. cbn [obind].
  pose proof (wf_level _ Hw _ _ Hy) as Hl. destruct (parent y) as [q|] eqn:Eq.
  - destruct Hl as (z & Hz & Hl). pose proof (wf_parent _ Hw _ _ _ Hy Eq). destruct (IH q z Hz) as (g & -> & Hg); [lia|]. cbn [obind].
    eexists. split; [done|]. simpl. lia.
  - destruct fuel; (eexists; split; [done|]); simpl; lia.
Qed.

(** The characters of the prefix fill exactly the space that is reserved. *)
Lemma glyphs_spec ls i x : wf ls -> ls !! i = Some x -> exists g, glyphs ls x = Done g /\ length g = prefixLen x.
Proof.
  intros Hw Hx. unfold glyphs, prefixLen. pose proof (wf_level _ Hw _ _ Hx) as Hl. destruct (parent x) as [p|] eqn:Ep.
  - destruct Hl as (y & Hy & Hl). destruct (upperLevels_spec ls Hw (length ls) p y Hy) as (g & -> & Hg); [by eapply lookup_lt_Some|]. cbn [obind].
    eexists. split; [done|]. simpl. lia.
  - eexists. split; [done|]. simpl. lia.
Qed.

(** What formatting leaves. *)
Definition kept (x : line) := (links x, hidden x, opened x, cell x).

Lemma kept_links ls ls' : map kept ls = map kept ls' -> map links ls = map links ls'.
Proof. intros H. apply (f_equal (map (fun b => fst (fst (fst b))))) in H. by rewrite !map_map in H. Qed.

Lemma kept_lookup ls ls' j x : map kept ls = map kept ls' -> ls !! j = Some x -> exists y, ls' !! j = Some y /\ kept y = kept x.
Proof.
  intros H Hx. apply (f_equal (fun l => l !! j)) in H. rewrite !list_lookup_fmap, Hx in H. destruct (ls' !! j) as [y|]; [|done]. exists y. split; [done|]. simpl in H. congruence.
Qed.

Lemma kept_consistent ls ls' : map kept ls' = map kept ls -> consistent ls -> consistent ls'.
Proof.
  intros Hk Hc j x p y Hx Hp Hy. destruct (kept_lookup _ _ _ _ Hk Hx) as (x' & Hx' & E1), (kept_lookup _ _ _ _ Hk Hy) as (y' & Hy' & E2).
  assert (parent x' = parent x /\ hidden x' = hidden x /\ opened y' = opened y) as (H1 & H2 & H3) by (unfold kept, links in *; split; [|split]; congruence).
  rewrite <- H2, <- H3. apply (Hc j x' p y'); [done|congruence|done].
Qed.

Lemma formatLine_spec ls i : wf ls -> i < length ls -> exists ls', formatLine ls i = Done ls' /\ map kept ls' = map kept ls /\
  (forall j, j <> i -> ls' !! j = ls !! j) /\ exists y, ls' !! i = Some y /\ is_Some (prefix y).
Proof.
  intros Hw Hi. destruct (lookup_lt_is_Some_2 _ _ Hi) as [x Hx]. unfold formatLine, updatePrefix, deref. rewrite Hx. cbn [obind]. destruct (prefix x) eqn:Epf.
  - exists ls. repeat split; try done. exists x. by rewrite Epf.
  - rewrite ?Hx. cbn [obind]. destruct (glyphs_spec ls i x Hw Hx) as (g & -> & Hg). cbn [obind]. rewrite (proj2 (Nat.leb_le _ _)) by lia. rewrite updLine_alter by done.
    eexists. split; [done|]. split; [|split].
    + apply list_eq. intros j. rewrite !list_lookup_fmap, list_lookup_alter. case_decide; [subst|done]. by destruct (ls !! j).
    + intros j Hj. by apply list_lookup_alter_ne.
    + rewrite list_lookup_alter_eq, Hx. eexists. split; [done|]. by eexists.
Qed.

Lemma formatLines_spec js : forall ls, wf ls -> Forall (fun i => i < length ls) js -> exists ls', formatLines ls js = Done ls' /\ map kept ls' = map kept ls.
Proof.
  induction js as [|i js IH]; intros ls Hw Hj; [by exists ls|]. apply list.Forall_cons in Hj as [Hi Hj]. cbn [formatLines].
  destruct (formatLine_spec ls i Hw Hi) as (ls1 & -> & Hk & _). cbn [obind]. destruct (IH ls1) as (ls2 & -> & Hk2).
  - eapply links_wf; [apply kept_links; symmetry; exact Hk|done].
  - by rewrite (links_length ls1 ls) by (by apply kept_links).
  - exists ls2. split; [done|congruence].
Qed.

End NCTableLine.
