(* ===== verification/TreePad.v ===== *)
(** * The pad of a tree in the text mode

    src/libyui-ncurses/src/NCTablePadBase.cc, NCTreePad.cc, NCTree.cc: the lines
    of a tree on a pad, the cursor that moves over the visible lines, the part of
    the pad that is in the window, and how the lines are made from the items. *)

From S2P Require Import Prelude Position Pad TreeLines.
From stdpp Require Import gmap.
Local Open Scope Z_scope.

Module NCTreePad.
Import Wpos NCPad NCTableLine.

(** [citem] is the line of the cursor among the visible lines; [drawn] are the
    lines of the pad: which line of the tree is there, and whether it is drawn as
    the current one. *)
Record tree_pad := TreePad {
  pad : NCPad.pad;
  items : lines;
  visibleItems : list nat;
  citem : Z;
  dirtyFormat : bool;
  drawn : gmap nat (nat * bool) }.

Definition withPad (p : tree_pad) (b : NCPad.pad) : tree_pad :=
  TreePad b (items p) (visibleItems p) (citem p) (dirtyFormat p) (drawn p).
Definition withItems (p : tree_pad) (ls : lines) : tree_pad :=
  TreePad (pad p) ls (visibleItems p) (citem p) (dirtyFormat p) (drawn p).
Definition setCurrentLineNo (p : tree_pad) (l : Z) : tree_pad :=
  TreePad (pad p) (items p) (visibleItems p) l (dirtyFormat p) (drawn p).
Definition setFormatDirty (p : tree_pad) : tree_pad :=
  TreePad (withDirty (pad p) true) (items p) (visibleItems p) (citem p) true (drawn p).
Definition withDrawn (p : tree_pad) (d : gmap nat (nat * bool)) : tree_pad :=
  TreePad (pad p) (items p) (visibleItems p) (citem p) (dirtyFormat p) d.

Definition Lines (p : tree_pad) : Z := Z.of_nat (length (items p)).
Definition visibleLines (p : tree_pad) : Z := Z.of_nat (length (visibleItems p)).
Definition CurPos (p : tree_pad) : wpair := WPair (citem p) (pC (Pos (srect (pad p)))).

Section tree_pad.
Context (MAX_PAD_HEIGHT : Z) (padwin : option window).

Definition newTreePad (lines cols : Z) : tree_pad := TreePad (newPad MAX_PAD_HEIGHT lines cols) [] [] 0 false ∅.

(** [drawContentLines()]. *)
Definition drawContentLines (p : tree_pad) : gmap nat (nat * bool) :=
  list_to_map (imap (fun n i => (n, (i, Z.of_nat n =? citem p))) (visibleItems p)).

(** [DoRedraw()] of a pad whose format is up to date. *)
Definition redraw (p : tree_pad) : tree_pad :=
  match destwin (pad p) with
  | None => withPad p (withDirty (pad p) true)
  | Some _ => withPad (withDrawn p (drawContentLines p)) (withDirty (pad p) false)
  end.

(** [DrawAt()] of the visible line [n]. *)
Definition drawLine (p : tree_pad) (n : Z) (active : bool) : outcome tree_pad :=
  if n <? 0 then Undefined
  else
    match visibleItems p !! Z.to_nat n with
    | Some i => Done (withDrawn p (<[Z.to_nat n := (i, active)]> (drawn p)))
    | None => Undefined
    end.

(** The column of a line that becomes the current one: [Hotspot] gives six
    columns from the first one on. *)
Definition hotColumn (p : tree_pad) : tree_pad :=
  let pos := Pos (srect (pad p)) in
  if 0 <? pC pos then withPad p (withPos (pad p) (WPair (pL pos) 0))
  else if 6 - pC pos >? sW (Sze (drect (pad p))) then
    withPad p (withPos (pad p) (WPair (pL pos) (if 0 <? pC (maxspos (pad p)) then 0 else pC (maxspos (pad p)))))
  else p.

(** [setpos( newpos )] of a pad whose format is up to date. *)
Definition setposFormatted (p : tree_pad) (newpos : wpair) : outcome tree_pad :=
  if Lines p =? 0 then Done (if dirty (pad p) then redraw p else p)
  else
    let oldLineNo := citem p in
    let cur := if pL newpos <? 0 then 0 else pL newpos in
    let cur := if cur >=? visibleLines p then visibleLines p - 1 else cur in
    let p := setCurrentLineNo p cur in
    let first := cur - Z.quot (sH (Sze (drect (pad p))) - 1) 2 in
    let p := withPad p (withPos (pad p) (between (WPair first (pC newpos)) (both 0) (maxspos (pad p)))) in
    if negb (cur =? oldLineNo) && (cur <? 0) then Done p
    else
      let p := if negb (cur =? oldLineNo) then hotColumn p else p in
      if dirty (pad p) then Done (redraw p)
      else if paging (pad p) then Done p
      else
        let! p := if negb (cur =? oldLineNo) then drawLine p oldLineNo false else Done p in
        drawLine p cur true.

(** [Destwin( dwin )]; [setpos] is virtual. *)
Definition setDestwin (setpos : tree_pad -> wpair -> outcome tree_pad) (p : tree_pad) (dwin : option window) : outcome tree_pad :=
  let! p :=
    if bool_decide (dwin = destwin (pad p)) then Done p
    else
      match dwin with
      | Some w => let p := withPad p (attach (pad p) w) in setpos p (CurPos p)
      | None => Done (withPad p (detach (pad p)))
      end in
  match destwin (pad p) with
  | None => Done p
  | Some _ =>
      let b := pad p in
      let l := if visibleLines p >? sH (Sze (srect b)) then visibleLines p - sH (Sze (srect b)) else 0 in
      Done (withPad p (Pad (height b) (width b) (_vheight b) (destwin b) (drect b) (srect b) (maxdpos b) (WPair l (pC (maxspos b))) (dclear b) (dirty b)))
  end.

(** [NCPad::resize( nsze )] of the pad of a tree. *)
Definition resize (p : tree_pad) (nsze : wpair) : outcome tree_pad :=
  let nsze := NCPadWidget.AdjustPadSize padwin nsze in
  if (negb (sH nsze =? vheight (pad p))) || (negb (sW nsze =? width (pad p))) then
    let odest := destwin (pad p) in
    let! p := match odest with Some _ => setDestwin setposFormatted p None | None => Done p end in
    let b := pad p in
    let p := withPad p
      (if sH nsze >? MAX_PAD_HEIGHT
       then Pad PAD_PAGESIZE (sW nsze) (sH nsze) (destwin b) (drect b) (srect b) (maxdpos b) (maxspos b) (dclear b) (dirty b)
       else Pad (sH nsze) (sW nsze) 0 (destwin b) (drect b) (srect b) (maxdpos b) (maxspos b) (dclear b) (dirty b)) in
    match odest with Some _ => setDestwin setposFormatted p odest | None => Done p end
  else Done p.

(** [updateVisibleItems()]. *)
Fixpoint visibleOf (ls : lines) (js : list nat) : outcome (list nat) :=
  match js with
  | [] => Done []
  | j :: js => let! v := visible ls j in let! r := visibleOf ls js in Done (if v : bool then j :: r else r)
  end.

(** The widest line is the width of the only column. *)
Definition TableWidth (ls : lines) : Z := fold_right (fun x w => Z.max (cell x) w) 0 ls.

Definition UpdateFormat (p : tree_pad) : outcome tree_pad :=
  let p := withPad p (withDirty (pad p) true) in
  let! ls := formatLines (items p) (seq 0 (length (items p))) in
  let! v := visibleOf ls (seq 0 (length ls)) in
  let b := pad p in
  let vis := Z.of_nat (length v) in
  let l := if vis >? sH (Sze (srect b)) then vis - sH (Sze (srect b)) else 0 in
  let b := Pad (height b) (width b) (_vheight b) (destwin b) (drect b) (srect b) (maxdpos b) (WPair l (pC (maxspos b))) (dclear b) (dirty b) in
  resize (TreePad b ls v (citem p) false (drawn p)) (WPair vis (TableWidth ls)).

(** [DoRedraw()]. *)
Definition DoRedraw (p : tree_pad) : outcome tree_pad :=
  match destwin (pad p) with
  | None => Done (withPad p (withDirty (pad p) true))
  | Some _ => let! p := if dirtyFormat p then UpdateFormat p else Done p in Done (redraw p)
  end.

Definition setpos (p : tree_pad) (newpos : wpair) : outcome tree_pad :=
  if Lines p =? 0 then
    if dirty (pad p) || dirtyFormat p then DoRedraw p else Done p
  else
    let! p := if dirtyFormat p then UpdateFormat p else Done p in
    setposFormatted p newpos.

(** [update()]: what is not drawn yet is drawn. *)
Definition update (p : tree_pad) : outcome tree_pad :=
  match destwin (pad p) with
  | None => Done p
  | Some _ => if dirty (pad p) then setpos p (CurPos p) else Done p
  end.

(** ** Keys *)

(** A key of a line, or one that moves the cursor. *)
Inductive tree_key := Branch (k : NCTableLine.key) | Move (k : NCPad.key).

Definition GetCurrentLine (p : tree_pad) : option nat :=
  if (0 <=? citem p) && (citem p <? visibleLines p) then visibleItems p !! Z.to_nat (citem p) else None.

Definition currentItemHandleInput (p : tree_pad) (k : NCTableLine.key) : outcome (tree_pad * bool) :=
  match GetCurrentLine p with
  | None => Done (p, false)
  | Some i =>
      let! r := NCTableLine.handleInput (items p) i k in
      let p := withItems p (fst r) in
      if snd r : bool then
        let! p := UpdateFormat p in
        let! p := setpos p (WPair (citem p) (pC (Pos (srect (pad p))))) in
        Done (p, true)
      else Done (p, false)
  end.

(** [NCPad::handleInput( key )], which calls the virtual [setpos] and [CurPos]. *)
Definition moveCursor (p : tree_pad) (k : NCPad.key) : outcome (tree_pad * bool) :=
  let adjpos dl dc := let! p := setpos p (plus (CurPos p) (WPair dl dc)) in Done (p, true) in
  match k with
  | KEY_UP => adjpos (-1) 0
  | KEY_PPAGE => let! n := page (pad p) in adjpos (- n) 0
  | KEY_HOME => adjpos (- vheight (pad p)) 0
  | KEY_DOWN => adjpos 1 0
  | KEY_NPAGE => let! n := page (pad p) in adjpos n 0
  | KEY_END => adjpos (vheight (pad p)) 0
  | KEY_LEFT => adjpos 0 (-1)
  | KEY_RIGHT => adjpos 0 1
  | KEY_OTHER => Done (p, false)
  end.

Definition handleInput (p : tree_pad) (k : tree_key) : outcome (tree_pad * bool) :=
  let! r := currentItemHandleInput p (match k with Branch k => k | Move _ => KEY_ELSE end) in
  if snd r : bool then Done r else moveCursor (fst r) (match k with Branch _ => KEY_OTHER | Move k => k end).

(** ** Items *)

(** The place of [item] in [_visibleItems]. *)
Fixpoint findVisible (v : list nat) (item : nat) : option nat :=
  match v with
  | [] => None
  | i :: v => if bool_decide (i = item) then Some O else S <$> findVisible v item
  end.

Definition ShowItem (p : tree_pad) (item : nat) : outcome tree_pad :=
  let! r := ChangeToVisible (S (length (items p))) (items p) item in
  let p := withItems p (fst r) in
  let! p := if (snd r : bool) || dirtyFormat p then UpdateFormat p else Done p in
  match findVisible (visibleItems p) item with
  | Some n => setpos p (WPair (Z.of_nat n) (pC (Pos (srect (pad p)))))
  | None => Done p
  end.

(** [getLineWithIndex( idx )] of a tree, whose lines have their place as the
    index: an index behind the last line makes the code follow a null pointer. *)
Definition getLineWithIndex (p : tree_pad) (idx : nat) : outcome nat :=
  if (idx <? length (items p))%nat then Done idx else Undefined.

(** The items of a tree; [label] is the width of the text. *)
Inductive item := Item (isOpen selected : bool) (label : Z) (children : list item).

(** [CreateTreeLines( parentLine, pad, item )]; [mark] is the width of the check
    mark of a tree with multiple selections. *)
Fixpoint CreateTreeLines (mark : Z) (parentLine : option nat) (p : tree_pad) (it : item) : outcome tree_pad :=
  match it with
  | Item isOpen selected label children =>
      let line := length (items p) in
      let! ls := newLine (items p) parentLine isOpen (mark + label) in
      let p := setFormatDirty (withItems p ls) in
      let! p := if selected then let! at_ := getLineWithIndex p line in ShowItem p at_ else Done p in
      (fix create (p : tree_pad) (l : list item) : outcome tree_pad :=
         match l with
         | [] => Done p
         | c :: l => let! p := CreateTreeLines mark (Some line) p c in create p l
         end) p children
  end.

(** [DrawPad()]. *)
Fixpoint createAll (mark : Z) (parentLine : option nat) (p : tree_pad) (l : list item) : outcome tree_pad :=
  match l with
  | [] => Done p
  | c :: l => let! p := CreateTreeLines mark parentLine p c in createAll mark parentLine p l
  end.

Definition DrawPad (mark : Z) (p : tree_pad) (l : list item) : outcome tree_pad :=
  let! p := createAll mark None p l in update p.

(** [ClearTable()]. *)
Definition ClearTable (p : tree_pad) : tree_pad :=
  setFormatDirty (TreePad (pad p) [] [] (citem p) (dirtyFormat p) (drawn p)).

End tree_pad.

(** ** What is on the pad *)

(** The visible lines, from top to bottom. *)
Definition rows (ls : lines) : list nat := filter (fun j => seen ls j = true) (seq 0 (length ls)).

Lemma visibleOf_spec ls js : wf ls -> Forall (fun j => (j < length ls)%nat) js -> visibleOf ls js = Done (filter (fun j => seen ls j = true) js).
Proof.
  intros Hw. induction js as [|j js IH]; intros Hj; [done|]. apply list.Forall_cons in Hj as [Hj Hjs]. cbn [visibleOf].
  rewrite visible_seen by done. cbn [obind]. rewrite IH by done. cbn [obind]. f_equal.
  destruct (seen ls j) eqn:E; [by rewrite list.filter_cons_True|by rewrite list.filter_cons_False by congruence].
Qed.

Lemma in_range (ls : lines) : Forall (fun j => (j < length ls)%nat) (seq 0 (length ls)).
Proof. apply Forall_forall. intros j Hj%elem_of_seq. lia. Qed.

Lemma rows_elem ls i : i ∈ rows ls <-> (i < length ls)%nat /\ seen ls i = true.
Proof. unfold rows. rewrite list_elem_of_filter, elem_of_seq. split; [intros [H1 H2]; split; [lia|done]|intros [H1 H2]; split; [done|lia]]. Qed.

Lemma rows_first ls : wf ls -> ls <> [] -> rows ls <> [].
Proof.
  intros Hw Hn E. destruct ls as [|x ls]; [done|]. assert (O ∈ rows (x :: ls)) as H; [|rewrite E in H; by apply not_elem_of_nil in H].
  apply rows_elem. split; [simpl; lia|]. rewrite (seen_eq (x :: ls) 0 x Hw eq_refl). destruct (parent x) as [p|] eqn:Ep; [|done].
  pose proof (wf_parent _ Hw 0%nat x p eq_refl Ep). lia.
Qed.

Lemma rows_length ls : (length (rows ls) <= length ls)%nat.
Proof. unfold rows. etrans; [apply length_filter|]. by rewrite length_seq. Qed.

(** The place of a line depends on the lines in front of it only. *)
Lemma rows_place ls i : seen ls i = true -> (i < length ls)%nat -> rows ls !! length (filter (fun j => seen ls j = true) (seq 0 i)) = Some i.
Proof.
  intros Hs Hi. unfold rows. replace (length ls) with (i + (1 + (length ls - S i)))%nat by lia. rewrite seq_app, seq_app, !list.filter_app. cbn [Nat.add seq].
  rewrite (list.filter_cons_True _ i) by done. by rewrite lookup_app_r, Nat.sub_diag by lia.
Qed.

Lemma rows_keep ls ls' c i : length ls' = length ls -> (forall j, (j <= i)%nat -> seen ls' j = seen ls j) -> rows ls !! c = Some i -> rows ls' !! c = Some i.
Proof.
  intros Hlen Hs Hc. assert (i ∈ rows ls) as [Hi Hsi]%rows_elem by (by eapply list_elem_of_lookup_2). pose proof (rows_place ls i Hsi Hi) as Hp.
  assert (c = length (filter (fun j => seen ls j = true) (seq 0 i))) as ->.
  { eapply NoDup_lookup; [|exact Hc|exact Hp]. apply NoDup_filter, NoDup_seq. }
  rewrite (filter_agree (fun j => seen ls j = true) (fun j => seen ls' j = true)).
  - apply rows_place; [by rewrite Hs|by rewrite Hlen].
  - intros j Hj%elem_of_seq. by rewrite Hs by lia.
Qed.

Lemma withBranch_before ls i b j : wf ls -> (j <= i)%nat -> (i < length ls)%nat -> seen (withBranch ls i b) j = seen ls j.
Proof.
  intros Hw. induction (lt_wf j) as [j _ IH]. intros Hj Hi. assert (j < length ls)%nat as Hj' by lia. destruct (lookup_lt_is_Some_2 _ _ Hj') as [x Hx].
  pose proof (withBranch_lookup ls i b j) as Hb. rewrite Hx in Hb. simpl in Hb.
  assert (j ∉ kids ls i) as Hk. { intros (y & Hy & Hp)%kids_elem. pose proof (wf_parent _ Hw _ _ _ Hy Hp). lia. }
  rewrite (bool_decide_false (j ∈ kids ls i)) in Hb by done. rewrite (seen_eq _ j _ (links_wf _ _ (eq_sym (withBranch_links ls i b)) Hw) Hb), (seen_eq ls j x Hw Hx).
  assert (forall y : line, parent (if bool_decide (i = j) then setOpen b y else y) = parent y /\ hidden (if bool_decide (i = j) then setOpen b y else y) = hidden y) as Hp by (intros y; by case_bool_decide).
  rewrite (proj1 (Hp x)), (proj2 (Hp x)). destruct (parent x) as [p|] eqn:Ep; [|done]. pose proof (wf_parent _ Hw _ _ _ Hx Ep). by rewrite IH by lia.
Qed.

(** ** A pad in a window *)

Section window.
Context (MAX_PAD_HEIGHT : Z) (w : window).
Hypothesis window_size : 1 <= sH (wsize w) <= MAX_PAD_HEIGHT /\ 0 <= sW (wsize w).

(** The geometry of a pad for a number of visible lines of some width: it is at
    least as large as the window. *)
Record framed (b : NCPad.pad) (vis tw : Z) : Prop := Framed {
  f_win : destwin b = Some w;
  f_vheight : _vheight b = 0;
  f_height : height b = Z.max vis (sH (wsize w));
  f_width : width b = Z.max tw (sW (wsize w));
  f_drect : drect b = WRect (both 0) (wsize w);
  f_size : Sze (srect b) = wsize w;
  f_maxspos : maxspos b = WPair (Z.max 0 (vis - sH (wsize w))) (Z.max tw (sW (wsize w)) - sW (wsize w));
  f_line : 0 <= pL (Pos (srect b)) <= Z.max 0 (vis - sH (wsize w));
  f_col : 0 <= pC (Pos (srect b)) <= Z.max tw (sW (wsize w)) - sW (wsize w) }.

(** Every visible line is drawn in its place, and only the current one is
    highlighted. *)
Definition drawn_ok (p : tree_pad) : Prop :=
  forall n, drawn p !! n = (fun i => (i, Z.of_nat n =? citem p)) <$> visibleItems p !! n.

(** The cursor is on a visible line, which is inside the window. *)
Definition cursor_ok (p : tree_pad) : Prop :=
  0 <= citem p < visibleLines p /\ pL (Pos (srect (pad p))) <= citem p < pL (Pos (srect (pad p))) + sH (wsize w).

Lemma drawContentLines_ok p n : drawContentLines p !! n = (fun i => (i, Z.of_nat n =? citem p)) <$> visibleItems p !! n.
Proof.
  unfold drawContentLines. destruct (visibleItems p !! n) as [i|] eqn:E; simpl.
  - apply elem_of_list_to_map_1.
    + rewrite fmap_imap. clear. assert (imap (fun n _ => n) (visibleItems p) = seq 0 (length (visibleItems p))) as E.
      { apply list_eq. intros j. rewrite list_lookup_imap. destruct (visibleItems p !! j) eqn:E; simpl; symmetry.
        - apply lookup_seq. apply lookup_lt_Some in E. lia.
        - apply lookup_seq_ge. by apply lookup_ge_None in E. }
      unfold compose. simpl. rewrite E. apply NoDup_seq.
    + apply elem_of_lookup_imap. by exists n, i.
  - apply not_elem_of_list_to_map_1. intros Hn. apply list_elem_of_fmap in Hn as ([k v] & -> & Hk). simpl in E.
    apply elem_of_lookup_imap in Hk as (k' & i & [= -> ->] & Hk). congruence.
Qed.

Lemma redraw_ok p : destwin (pad p) = Some w -> drawn_ok (redraw p) /\ dirty (pad (redraw p)) = false.
Proof. intros Hd. unfold redraw. rewrite Hd. split; [|done]. intros n. exact (drawContentLines_ok p n). Qed.

Lemma framed_dirty b vis tw d : framed b vis tw -> framed (withDirty b d) vis tw.
Proof. intros []. by constructor. Qed.

Lemma framed_pos b vis tw l c : framed b vis tw -> 0 <= l <= Z.max 0 (vis - sH (wsize w)) -> 0 <= c <= Z.max tw (sW (wsize w)) - sW (wsize w) ->
  framed (withPos b (WPair l c)) vis tw.
Proof. intros [] Hl Hc. by constructor. Qed.

(** The line that the cursor comes to. *)
Definition clamp (l vis : Z) : Z := Z.min (Z.max l 0) (vis - 1).

(** The visible part around the cursor. *)
Lemma around cur vis : 0 <= cur < vis ->
  let first := Z.min (Z.max (cur - Z.quot (sH (wsize w) - 1) 2) 0) (Z.max 0 (vis - sH (wsize w))) in
  0 <= first <= Z.max 0 (vis - sH (wsize w)) /\ first <= cur < first + sH (wsize w).
Proof.
  intros Hc first. assert (0 <= Z.quot (sH (wsize w) - 1) 2 <= sH (wsize w) - 1) as Hq.
  { rewrite Z.quot_div_nonneg by lia. split; [apply Z.div_pos; lia|]. apply Z.div_le_upper_bound; lia. }
  unfold first. lia.
Qed.

Lemma hotColumn_framed p vis tw : framed (pad p) vis tw -> let q := hotColumn p in
  framed (pad q) vis tw /\ pL (Pos (srect (pad q))) = pL (Pos (srect (pad p))) /\ dirty (pad q) = dirty (pad p) /\
  items q = items p /\ visibleItems q = visibleItems p /\ citem q = citem p /\ dirtyFormat q = dirtyFormat p /\ drawn q = drawn p.
Proof.
  intros Hf. unfold hotColumn. pose proof (f_line _ _ _ Hf). pose proof (f_col _ _ _ Hf). rewrite (f_maxspos _ _ _ Hf). cbn [pC].
  set (c := Z.max tw (sW (wsize w)) - sW (wsize w)) in *. assert (0 <= (if 0 <? c then 0 else c) <= c) as Hc by (zcases; lia).
  destruct (0 <? pC (Pos (srect (pad p)))); [|destruct (6 - pC (Pos (srect (pad p))) >? sW (Sze (drect (pad p))))]; cbv zeta;
    (split; [first [done|apply framed_pos; unfold c in *; done || lia]|done]).
Qed.

Lemma drawTreeLine_spec p n act : 0 <= n < visibleLines p -> exists i, visibleItems p !! Z.to_nat n = Some i /\
  drawLine p n act = Done (withDrawn p (<[Z.to_nat n := (i, act)]> (drawn p))).
Proof.
  intros Hn. destruct (lookup_lt_is_Some_2 (visibleItems p) (Z.to_nat n)) as [i Hi]; [unfold visibleLines in Hn; lia|].
  exists i. split; [done|]. unfold drawLine. rewrite (proj2 (Z.ltb_ge n 0)) by lia. by rewrite Hi.
Qed.

(** The cursor leaves the line [old]: two lines are drawn. *)
Lemma cursor_drawn p old cur : citem p = cur -> 0 <= old < visibleLines p -> 0 <= cur < visibleLines p ->
  (forall n, drawn p !! n = (fun i => (i, Z.of_nat n =? old)) <$> visibleItems p !! n) ->
  exists d, (let! p := if negb (cur =? old) then drawLine p old false else Done p in drawLine p cur true) = Done (withDrawn p d) /\ drawn_ok (withDrawn p d).
Proof.
  intros Hc Ho Hcur Hd. assert (forall n : nat, n <> Z.to_nat cur -> n <> Z.to_nat old -> (Z.of_nat n =? old) = (Z.of_nat n =? cur)) as Hother.
  { intros n H1 H2. rewrite (proj2 (Z.eqb_neq _ old)), (proj2 (Z.eqb_neq _ cur)) by lia. done. }
  destruct (drawTreeLine_spec p cur true Hcur) as (i & Hi & Ei). destruct (cur =? old) eqn:Ec; cbn [negb obind].
  - apply Z.eqb_eq in Ec. eexists. split; [exact Ei|]. intros n. cbn [drawn withDrawn visibleItems citem]. rewrite Hc.
    destruct (decide (n = Z.to_nat cur)) as [->|Hn]; [|by rewrite lookup_insert_ne, Hd, Ec by done].
    rewrite lookup_insert_eq, Hi. simpl. by rewrite (proj2 (Z.eqb_eq _ _)) by lia.
  - apply Z.eqb_neq in Ec. destruct (drawTreeLine_spec p old false Ho) as (io & Hio & ->). cbn [obind].
    destruct (drawTreeLine_spec (withDrawn p (<[Z.to_nat old := (io, false)]> (drawn p))) cur true Hcur) as (i' & Hi' & ->). eexists. split; [done|].
    intros n. cbn [drawn withDrawn visibleItems citem] in *. rewrite Hc. destruct (decide (n = Z.to_nat cur)) as [->|Hn].
    + rewrite lookup_insert_eq, Hi'. simpl. by rewrite (proj2 (Z.eqb_eq _ _)) by lia.
    + rewrite lookup_insert_ne by done. destruct (decide (n = Z.to_nat old)) as [->|Hn'].
      * rewrite lookup_insert_eq, Hio. simpl. by rewrite (proj2 (Z.eqb_neq _ _)) by lia.
      * rewrite lookup_insert_ne, Hd, Hother by done. done.
Qed.

(** [setpos] of a pad that is drawn, or will be drawn now. *)
Lemma setposFormatted_spec p vis tw l c : framed (pad p) vis tw -> vis = visibleLines p -> visibleItems p <> [] -> items p <> [] ->
  (dirty (pad p) = false -> drawn_ok p /\ 0 <= citem p < vis) ->
  exists q, setposFormatted p (WPair l c) = Done q /\ framed (pad q) vis tw /\ dirty (pad q) = false /\ items q = items p /\
    visibleItems q = visibleItems p /\ dirtyFormat q = dirtyFormat p /\ citem q = clamp l vis /\ drawn_ok q /\ cursor_ok q.
Proof.
  intros Hf Hvis Hne Hit Hd. unfold setposFormatted. rewrite (proj2 (Z.eqb_neq _ _)) by (unfold Lines; destruct (items p); simpl; [done|lia]).
  rewrite <- Hvis. assert (0 < vis) as Hpos by (rewrite Hvis; unfold visibleLines; destruct (visibleItems p); simpl; [done|lia]).
  cbv zeta. cbn [pL pC]. assert ((if (if l <? 0 then 0 else l) >=? vis then vis - 1 else if l <? 0 then 0 else l) = clamp l vis) as -> by (unfold clamp; zcases; lia).
  set (cur := clamp l vis). assert (0 <= cur < vis) as Hcur by (unfold cur, clamp; lia).
  rewrite (proj2 (Z.ltb_ge cur 0)) by lia. rewrite andb_false_r.
  cbn [pad setCurrentLineNo]. rewrite (f_drect _ _ _ Hf), (f_maxspos _ _ _ Hf). cbn [Sze]. rewrite between_spec. cbn [A B both].
  destruct (around cur vis Hcur) as [Hfirst Hin]. set (first := Z.min _ _) in *.
  set (p1 := withPad (setCurrentLineNo p cur) _).
  assert (framed (pad p1) vis tw) as Hf1 by (unfold p1; cbn [pad withPad setCurrentLineNo]; apply framed_pos; [done|done|pose proof (f_col _ _ _ Hf); lia]).
  set (p2 := if negb (cur =? citem p) then hotColumn p1 else p1).
  assert (framed (pad p2) vis tw /\ pL (Pos (srect (pad p2))) = first /\ dirty (pad p2) = dirty (pad p) /\ items p2 = items p /\
          visibleItems p2 = visibleItems p /\ citem p2 = cur /\ dirtyFormat p2 = dirtyFormat p /\ drawn p2 = drawn p) as (F & P1 & P2 & P3 & P4 & P5 & P6 & P7).
  { unfold p2. destruct (negb _); [|split; [exact Hf1|]; repeat split]. destruct (hotColumn_framed p1 vis tw Hf1) as (F & R1 & R2 & R3 & R4 & R5 & R6 & R7).
    split; [exact F|]. rewrite R1, R2, R3, R4, R5, R6, R7. done. }
  clearbody p2. clear Hf1. assert (cursor_ok p2) as Hcok by (unfold cursor_ok; unfold visibleLines in *; rewrite P1, P4, P5; lia).
  rewrite P2. destruct (dirty (pad p)) eqn:Edirty.
  - exists (redraw p2). destruct (redraw_ok p2 (f_win _ _ _ F)) as [Hdr Hdi]. split; [done|].
    assert (framed (pad (redraw p2)) vis tw) as F' by (unfold redraw; rewrite (f_win _ _ _ F); by apply framed_dirty).
    unfold redraw in *. rewrite (f_win _ _ _ F) in *. split; [exact F'|]. repeat split; try done; apply Hcok.
  - destruct (Hd eq_refl) as [Hdo Hco]. unfold paging. rewrite (f_vheight _ _ _ F). cbn [negb Z.eqb].
    assert (visibleLines p2 = vis) as Hv2 by (unfold visibleLines in *; by rewrite P4).
    destruct (cursor_drawn p2 (citem p) cur P5) as (d & -> & Hdr); [by rewrite Hv2|by rewrite Hv2|intros n; rewrite P7, P4; apply Hdo|].
    eexists. split; [done|]. split; [exact F|]. repeat split; try done; apply Hcok.
Qed.

(** Attaching the window to a pad of the right size. *)
Lemma attach_framed b vis tw : _vheight b = 0 -> height b = Z.max vis (sH (wsize w)) -> width b = Z.max tw (sW (wsize w)) ->
  framed (attach b w) vis tw.
Proof.
  intros H1 H2 H3. assert (vheight b = height b) as Hv by (unfold vheight; by rewrite H1).
  assert (min (WPair (vheight b) (width b)) (wsize w) = wsize w) as Hm by (rewrite min_spec; cbn [A B]; rewrite Hv, H2, H3, (wpair_eta (wsize w)); cbn [A B]; f_equal; lia).
  unfold attach. cbn [Sze]. rewrite Hm. constructor; cbn; try done; try lia.
  - unfold minus. cbn [A B]. rewrite Hv, H2, H3. f_equal; lia.
Qed.

Lemma framed_maxspos b vis tw : framed b vis tw ->
  Pad (height b) (width b) (_vheight b) (destwin b) (drect b) (srect b) (maxdpos b)
    (WPair (if vis >? sH (Sze (srect b)) then vis - sH (Sze (srect b)) else 0) (pC (maxspos b))) (dclear b) (dirty b) = b.
Proof.
  intros Hf. rewrite (f_size _ _ _ Hf). replace (WPair _ _) with (maxspos b); [by destruct b|]. rewrite (f_maxspos _ _ _ Hf). cbn [B]. f_equal. zcases; lia.
Qed.

Lemma attach_drawn p tw : destwin (pad p) = None -> _vheight (pad p) = 0 -> dirty (pad p) = true ->
  height (pad p) = Z.max (visibleLines p) (sH (wsize w)) -> width (pad p) = Z.max tw (sW (wsize w)) -> visibleItems p <> [] -> items p <> [] ->
  exists q, setDestwin setposFormatted p (Some w) = Done q /\ framed (pad q) (visibleLines p) tw /\ dirty (pad q) = false /\ items q = items p /\
    visibleItems q = visibleItems p /\ dirtyFormat q = dirtyFormat p /\ citem q = clamp (citem p) (visibleLines p) /\ drawn_ok q /\ cursor_ok q.
Proof.
  intros Hd Hv Hdi Hh Hwd Hne Hit. unfold setDestwin. rewrite Hd, bool_decide_false by done. set (p1 := withPad p (attach (pad p) w)).
  destruct (setposFormatted_spec p1 (visibleLines p) tw (citem p1) (pC (Pos (srect (pad p1))))) as (q & E & F & Q); try done.
  - by apply attach_framed.
  - unfold p1. cbn. by rewrite Hdi.
  - unfold CurPos. rewrite E. cbn [obind]. rewrite (f_win _ _ _ F). exists q. destruct Q as (Q1 & Q2 & Q3 & Q4 & Q5 & Q6 & Q7). split; [|split; [exact F|by repeat split; try apply Q7]].
    f_equal. assert (visibleLines q = visibleLines p) as -> by (unfold visibleLines; by rewrite Q3). pose proof (framed_maxspos _ _ _ F) as M. rewrite (f_win _ _ _ F) in M. rewrite M. by destruct q.
Qed.

Lemma TableWidth_kept ls ls' : map kept ls = map kept ls' -> TableWidth ls = TableWidth ls'.
Proof.
  revert ls'. induction ls as [|x ls IH]; intros [|x' ls'] H; try done. injection H as H1 H2 H3 H4 H5 H6 H7 H. simpl. by rewrite (IH ls' H), H7.
Qed.

Lemma seen_kept ls ls' i : wf ls -> map kept ls = map kept ls' -> (i < length ls)%nat -> seen ls i = seen ls' i.
Proof.
  intros Hw Hk Hi. pose proof (kept_links _ _ Hk) as Hl. pose proof (links_wf _ _ Hl Hw) as Hw'. pose proof (links_length _ _ Hl) as Hlen.
  assert (forall l1 l2, map kept l1 = map kept l2 -> forall j x y, l1 !! j = Some x -> l2 !! j = Some y -> hidden y = true -> hidden x = true) as Hh.
  { intros l1 l2 H j x y Hx Hy. destruct (kept_lookup _ _ _ _ H Hx) as (y' & Hy' & E). injection E as _ _ _ _ E _ _. congruence. }
  apply eq_true_iff_eq. split; intros H.
  - by apply (seen_mono ls ls' Hw Hl (Hh _ _ Hk)).
  - apply (seen_mono ls' ls Hw' (eq_sym Hl) (Hh _ _ (eq_sym Hk))); [lia|done].
Qed.

Lemma rows_kept ls ls' : wf ls -> map kept ls = map kept ls' -> rows ls = rows ls'.
Proof.
  intros Hw Hk. unfold rows. rewrite <- (links_length _ _ (kept_links _ _ Hk)). apply filter_agree. intros j Hj%elem_of_seq. by rewrite (seen_kept ls ls' j) by (done || lia).
Qed.

Lemma formatted ls : wf ls -> exists ls', formatLines ls (seq 0 (length ls)) = Done ls' /\ map kept ls' = map kept ls /\ wf ls' /\
  visibleOf ls' (seq 0 (length ls')) = Done (rows ls') /\ rows ls' = rows ls /\ length ls' = length ls.
Proof.
  intros Hw. destruct (formatLines_spec (seq 0 (length ls)) ls Hw (in_range ls)) as (ls' & E & Hk). exists ls'. split; [done|]. split; [done|].
  assert (wf ls') as Hw' by (eapply links_wf; [|exact Hw]; by apply kept_links). split; [done|]. split; [by apply visibleOf_spec; [|apply in_range]|].
  split; [by apply rows_kept|]. apply links_length. by apply kept_links.
Qed.

(** The format is brought up to date: the lines are where they belong, and the
    geometry fits. *)
Lemma UpdateFormat_spec p vis0 tw0 : framed (pad p) vis0 tw0 -> wf (items p) -> items p <> [] -> Lines p <= MAX_PAD_HEIGHT ->
  exists q, UpdateFormat MAX_PAD_HEIGHT (Some w) p = Done q /\ framed (pad q) (visibleLines q) (TableWidth (items q)) /\
    map kept (items q) = map kept (items p) /\ visibleItems q = rows (items p) /\ dirtyFormat q = false /\
    (dirty (pad q) = false -> drawn_ok q /\ 0 <= citem q < visibleLines q) /\ (citem q = citem p \/ citem q = clamp (citem p) (visibleLines q)).
Proof.
  intros Hf Hw Hne Hmax. unfold UpdateFormat. destruct (formatted (items p) Hw) as (ls & E & Hk & Hw' & Ev & Hrows & Hlen).
  cbn [items withPad]. rewrite E. cbn [obind]. rewrite Ev. cbn [obind]. set (b := withDirty (pad p) true).
  assert (framed b vis0 tw0) as Hf0 by (by apply framed_dirty). change (pad (withPad p b)) with b. rewrite (f_size _ _ _ Hf0).
  set (vis := Z.of_nat (length (rows ls))). set (tw := TableWidth ls).
  assert (0 < vis <= MAX_PAD_HEIGHT) as Hvis.
  { unfold vis. rewrite Hrows. pose proof (rows_length (items p)). pose proof (rows_first (items p) Hw Hne). unfold Lines in Hmax. destruct (rows (items p)); simpl in *; [done|lia]. }
  assert (0 <= tw) as Htw by (unfold tw; clear; induction ls; simpl; lia).
  assert (rows ls <> []) as Hrne by (rewrite Hrows; by apply rows_first). assert (ls <> []) as Hlne by (intros ->; simpl in Hlen; by destruct (items p)).
  unfold resize. unfold NCPadWidget.AdjustPadSize. rewrite max_spec. cbn [A B pad].
  set (b1 := Pad _ _ _ _ _ _ _ _ _ _). assert (vheight b1 = height b /\ width b1 = width b) as [-> ->] by (unfold vheight, b1; cbn; by rewrite (f_vheight _ _ _ Hf)).
  rewrite (f_height _ _ _ Hf0), (f_width _ _ _ Hf0). destruct (_ || _) eqn:Esame.
  - change (destwin b1) with (destwin b). rewrite (f_win _ _ _ Hf0). unfold setDestwin at 1. cbn [pad]. change (destwin b1) with (destwin b). rewrite (f_win _ _ _ Hf0), bool_decide_false by done.
    cbn [obind withPad pad detach destwin]. rewrite Z.gtb_ltb, (proj2 (Z.ltb_ge _ _)) by lia. match goal with |- context [setDestwin setposFormatted ?x (Some w)] => set (p2 := x) end.
    destruct (attach_drawn p2 tw) as (q & -> & F & Q1 & Q2 & Q3 & Q4 & Q5 & Q6 & Q7); try done.
    exists q. split; [done|]. assert (visibleLines q = vis) as Hq by (unfold visibleLines; by rewrite Q3). rewrite Q2, Hq. split; [exact F|]. split; [done|].
    split; [by rewrite Q3|]. split; [done|]. split; [|by right]. intros _. split; [done|]. rewrite <- Hq. apply Q7.
  - eexists. split; [done|]. cbn [pad items visibleItems citem dirtyFormat drawn]. apply orb_false_iff in Esame as [S1 S2]. apply negb_false_iff, Z.eqb_eq in S1, S2.
    split; [|split; [done|split; [done|split; [done|split; [|by left]]]]].
    + pose proof (f_line _ _ _ Hf0). pose proof (f_col _ _ _ Hf0). change (visibleLines _) with vis. constructor; cbn; try apply Hf0; try done.
      * rewrite (f_height _ _ _ Hf). lia.
      * rewrite (f_width _ _ _ Hf). lia.
      * rewrite (f_maxspos _ _ _ Hf). cbn [B]. f_equal; [zcases; lia|lia].
      * unfold b in *. cbn in *. lia.
      * unfold b in *. cbn in *. lia.
    + done.
Qed.

(** A tree in its window: the visible lines are on the pad from top to bottom,
    the current one is highlighted, and it is inside the window. *)
Record showing (p : tree_pad) : Prop := Showing {
  s_wf : wf (items p);
  s_items : items p <> [];
  s_max : Lines p <= MAX_PAD_HEIGHT;
  s_rows : visibleItems p = rows (items p);
  s_format : dirtyFormat p = false;
  s_dirty : dirty (pad p) = false;
  s_framed : framed (pad p) (visibleLines p) (TableWidth (items p));
  s_drawn : drawn_ok p;
  s_cursor : cursor_ok p }.

Abbreviation setpos := (setpos MAX_PAD_HEIGHT (Some w)).
Abbreviation UpdateFormat := (UpdateFormat MAX_PAD_HEIGHT (Some w)).
Abbreviation handleInput := (handleInput MAX_PAD_HEIGHT (Some w)).
Abbreviation ShowItem := (ShowItem MAX_PAD_HEIGHT (Some w)).

(** [setpos] of a pad whose format is up to date draws it, if necessary. *)
Lemma setpos_showing p l c : wf (items p) -> items p <> [] -> Lines p <= MAX_PAD_HEIGHT -> visibleItems p = rows (items p) ->
  dirtyFormat p = false -> framed (pad p) (visibleLines p) (TableWidth (items p)) ->
  (dirty (pad p) = false -> drawn_ok p /\ 0 <= citem p < visibleLines p) ->
  exists q, setpos p (WPair l c) = Done q /\ showing q /\ items q = items p /\ citem q = clamp l (visibleLines p).
Proof.
  intros Hw Hne Hmax Hrows Hfmt Hf Hd. unfold NCTreePad.setpos. rewrite (proj2 (Z.eqb_neq _ _)) by (unfold Lines; destruct (items p); simpl; [done|lia]).
  rewrite Hfmt. cbn [obind]. destruct (setposFormatted_spec p _ _ l c Hf eq_refl) as (q & -> & F & Q1 & Q2 & Q3 & Q4 & Q5 & Q6 & Q7); try done.
  { rewrite Hrows. by apply rows_first. }
  exists q. split; [done|]. split; [|done]. assert (visibleLines q = visibleLines p) as Hv by (unfold visibleLines; by rewrite Q3).
  constructor; try done; rewrite ?Q2, ?Q3, ?Q4; try done; [by unfold Lines in *; rewrite Q2|by rewrite Hv].
Qed.

(** The format is brought up to date, and the cursor is set. *)
Lemma reformat p vis0 tw0 : framed (pad p) vis0 tw0 -> wf (items p) -> items p <> [] -> Lines p <= MAX_PAD_HEIGHT ->
  exists q, UpdateFormat p = Done q /\ dirtyFormat q = false /\ visibleItems q = rows (items p) /\
    (citem q = citem p \/ citem q = clamp (citem p) (Z.of_nat (length (rows (items p))))) /\
    forall l c, exists q', setpos q (WPair l c) = Done q' /\ showing q' /\ map kept (items q') = map kept (items p) /\
      citem q' = clamp l (Z.of_nat (length (rows (items p)))).
Proof.
  intros Hf Hw Hne Hmax. destruct (UpdateFormat_spec p vis0 tw0 Hf Hw Hne Hmax) as (q & E & F & Q1 & Q2 & Q3 & Q4 & Q5).
  assert (visibleLines q = Z.of_nat (length (rows (items p)))) as Hv by (unfold visibleLines; by rewrite Q2). rewrite <- Hv.
  exists q. do 4 (split; [done|]). intros l c. pose proof (links_length _ _ (kept_links _ _ Q1)) as Hlen.
  destruct (setpos_showing q l c) as (q' & E' & S & I & C); try done.
  - eapply links_wf; [apply kept_links; symmetry; exact Q1|done].
  - intros E0. rewrite E0 in Hlen. simpl in Hlen. by destruct (items p).
  - unfold Lines in *. by rewrite Hlen.
  - rewrite Q2. by apply rows_kept.
  - exists q'. split; [done|]. split; [done|]. split; [by rewrite I|done].
Qed.

Lemma current_line p : showing p -> exists i x, rows (items p) !! Z.to_nat (citem p) = Some i /\ GetCurrentLine p = Some i /\
  items p !! i = Some x /\ seen (items p) i = true.
Proof.
  intros Hs. destruct (s_cursor _ Hs) as [Hc _]. unfold GetCurrentLine. rewrite (proj2 (Z.leb_le _ _)), (proj2 (Z.ltb_lt _ _)) by lia. cbn [andb].
  destruct (lookup_lt_is_Some_2 (visibleItems p) (Z.to_nat (citem p))) as [i Hi]; [unfold visibleLines in Hc; lia|]. rewrite (s_rows _ Hs) in *.
  assert (i ∈ rows (items p)) as [Hl Hseen]%rows_elem by (by eapply list_elem_of_lookup_2). destruct (lookup_lt_is_Some_2 _ _ Hl) as [x Hx]. by exists i, x.
Qed.

(** Where a key takes the cursor. *)
Definition movedTo (k : NCPad.key) (c vis : Z) : Z :=
  match k with
  | KEY_UP => Z.max 0 (c - 1)
  | KEY_DOWN => Z.min (c + 1) (vis - 1)
  | KEY_PPAGE => Z.max 0 (c - (sH (wsize w) - 1))
  | KEY_NPAGE => Z.min (c + (sH (wsize w) - 1)) (vis - 1)
  | KEY_HOME => 0
  | KEY_END => vis - 1
  | KEY_LEFT | KEY_RIGHT | KEY_OTHER => c
  end.

Definition moves (k : NCPad.key) : bool := match k with KEY_OTHER => false | _ => true end.

Lemma moveCursor_spec p k : showing p -> exists q, moveCursor MAX_PAD_HEIGHT (Some w) p k = Done (q, moves k) /\ showing q /\
  items q = items p /\ citem q = movedTo k (citem p) (visibleLines p).
Proof.
  intros Hs. destruct (s_cursor _ Hs) as [Hc _]. pose proof (s_framed _ Hs) as Hf.
  assert (forall dl dc, exists q, (let! p := setpos p (plus (CurPos p) (WPair dl dc)) in Done (p, true)) = Done (q, true) /\ showing q /\ items q = items p /\
    citem q = clamp (citem p + dl) (visibleLines p)) as Hgo.
  { intros dl dc. unfold plus. cbn [A B CurPos]. destruct (setpos_showing p (citem p + dl) (pC (Pos (srect (pad p))) + dc)) as (q & -> & S & I & C); try apply Hs.
    { intros _. split; [apply Hs|done]. } by exists q. }
  assert (page (pad p) = Done (sH (wsize w) - 1)) as Hpage by (unfold page; by rewrite (f_win _ _ _ Hf)).
  assert (vheight (pad p) = Z.max (visibleLines p) (sH (wsize w))) as Hvh by (unfold vheight; rewrite (f_vheight _ _ _ Hf); apply (f_height _ _ _ Hf)).
  unfold moveCursor. rewrite Hpage, Hvh. cbn [obind].
  destruct k; cbn [movedTo]; try (match goal with |- context [WPair ?dl ?dc] => destruct (Hgo dl dc) as (q & E & S & I & C); exists q; split; [exact E|]; split; [exact S|]; split; [exact I|]; rewrite C; unfold clamp; lia end).
  exists p. split; [done|]. split; [exact Hs|]. done.
Qed.

(** C24: A key in a tree whose hidden lines are those directly below a closed branch.
    A tree that was filled with items is like that, unless an item in a closed
    branch was selected, which the code shows without opening the branch (see
    [half_shown]); and every key keeps it so. Then the keys of the branches open
    and close the branch of the current line, which stays the current one, the
    other keys move the cursor, and the pad shows exactly the lines all of whose
    branches are open. *)
Theorem tree_keys p k : showing p -> consistent (items p) ->
  exists q h i x, handleInput p k = Done (q, h) /\ showing q /\ consistent (items q) /\
    (forall j, j ∈ visibleItems q <-> ((j < length (items q))%nat /\ exposed (items q) j)) /\
    visibleItems p !! Z.to_nat (citem p) = Some i /\ items p !! i = Some x /\
    match k with
    | Branch b => citem q = citem p /\ visibleItems q !! Z.to_nat (citem q) = Some i /\
        map kept (items q) = map kept (match branchKey b (opened x), kids (items p) i with
                                       | Some o, _ :: _ => withBranch (items p) i o
                                       | _, _ => items p
                                       end)
    | Move m => items q = items p /\ citem q = movedTo m (citem p) (visibleLines p)
    end.
Proof.
  intros Hs Hc. destruct (current_line p Hs) as (i & x & Hi & Hcur & Hx & Hseen). pose proof (s_wf _ Hs) as Hw.
  assert (forall q, showing q -> consistent (items q) -> forall j, j ∈ visibleItems q <-> ((j < length (items q))%nat /\ exposed (items q) j)) as Hexp.
  { intros q Hq Hcq j. rewrite (s_rows _ Hq), rows_elem. split; intros [Hj H]; (split; [done|]); by apply (seen_exposed (items q) j (s_wf _ Hq) Hcq Hj). }
  pose proof Hi as Hi'. rewrite <- (s_rows _ Hs) in Hi'. unfold NCTreePad.handleInput, currentItemHandleInput. rewrite Hcur.
  destruct k as [b|m]; (rewrite (lineInput_spec (items p) i x _ Hw Hc Hx Hseen)); cbn [obind fst snd branchKey].
  - set (ls := match branchKey b (opened x) with Some o => _ | None => _ end). destruct (bool_decide_reflect (b <> KEY_ELSE)) as [Hb|Hb].
    + assert (map links ls = map links (items p) /\ consistent ls /\ forall j, (j <= i)%nat -> seen ls j = seen (items p) j) as (Hl & Hcl & Hbef).
      { unfold ls. destruct (branchKey b (opened x)) as [o|]; [|done]. destruct (kids (items p) i) eqn:Ek; [done|]. split; [apply withBranch_links|].
        split; [by apply withBranch_consistent|]. intros j Hj. apply withBranch_before; [done|done|by eapply lookup_lt_Some]. }
      pose proof (links_length _ _ Hl) as Hlen. assert (wf ls) as Hwl by (eapply links_wf; [symmetry; exact Hl|done]).
      destruct (reformat (withItems p ls) _ _ (s_framed _ Hs) Hwl) as (q & Eq & Qf & Qv & Qc & Hgo).
      { cbn. intros E. rewrite E in Hlen. simpl in Hlen. pose proof (s_items _ Hs). by destruct (items p). }
      { pose proof (s_max _ Hs). unfold Lines in *. cbn [items withItems]. lia. }
      pose proof (rows_keep (items p) ls _ i Hlen Hbef Hi) as Hrow. pose proof (lookup_lt_Some _ _ _ Hrow) as Hlt. destruct (s_cursor _ Hs) as [Hcp _].
      assert (clamp (citem p) (Z.of_nat (length (rows ls))) = citem p) as Hclamp by (unfold clamp; lia).
      cbn [items withItems citem] in *. assert (citem q = citem p) as Ecq by (destruct Qc; congruence).
      rewrite Eq. cbn [obind]. rewrite Ecq. destruct (Hgo (citem p) (pC (Pos (srect (pad q))))) as (q' & E' & S' & K' & C'). rewrite E'. cbn [obind].
      assert (rows (items q') = rows ls) as Hr' by (apply rows_kept; [apply S'|done]).
      pose proof (kept_consistent _ _ K' Hcl) as Hc'.
      exists q', true, i, x. split; [done|]. split; [done|]. split; [done|]. split; [by apply Hexp|]. split; [done|]. split; [done|].
      split; [by rewrite C', Hclamp|]. split; [rewrite (s_rows _ S'), Hr', C', Hclamp; done|]. rewrite K'. unfold ls. by destruct (branchKey b (opened x)).
    + exists (withItems p ls), false, i, x. assert (b = KEY_ELSE) as -> by (destruct b; try (exfalso; apply Hb; done); done). cbn [branchKey] in ls.
      unfold ls. assert (withItems p (items p) = p) as -> by by destruct p. split; [done|]. split; [done|]. split; [done|]. split; [by apply Hexp|]. done.
  - rewrite bool_decide_false by tauto. cbn [obind fst snd]. assert (withItems p (items p) = p) as -> by by destruct p. destruct (moveCursor_spec p m Hs) as (q & -> & S & I & C).
    exists q, (moves m), i, x. split; [done|]. split; [done|]. assert (consistent (items q)) as Hcq by (by rewrite I). split; [done|]. split; [by apply Hexp|].
    done.
Qed.

(** *** Showing an item *)

Lemma findVisible_spec v item : item ∈ v -> exists n, findVisible v item = Some n /\ v !! n = Some item.
Proof.
  induction v as [|i v IH]; intros Hi; [by apply not_elem_of_nil in Hi|]. cbn [findVisible]. case_bool_decide as E; [exists O; by subst|].
  apply elem_of_cons in Hi as [->|Hi]; [done|]. destruct (IH Hi) as (n & -> & Hn). by exists (S n).
Qed.

Lemma rows_reveals ls ls' j : wf ls -> reveals ls ls' -> j ∈ rows ls -> j ∈ rows ls'.
Proof.
  intros Hw Hr [Hj Hs]%rows_elem. apply rows_elem. split; [by rewrite <- (links_length _ _ (proj1 Hr))|]. by eapply reveals_seen.
Qed.

(** An item that is shown becomes visible, with the cursor on it, and nothing
    that was visible disappears. *)
Theorem item_shown p item : showing p -> (item < length (items p))%nat ->
  exists q, ShowItem p item = Done q /\ showing q /\ visibleItems q !! Z.to_nat (citem q) = Some item /\ (forall j, j ∈ visibleItems p -> j ∈ visibleItems q).
Proof.
  intros Hs Hi. pose proof (s_wf _ Hs) as Hw. unfold NCTreePad.ShowItem.
  destruct (ChangeToVisible_spec (S (length (items p))) (items p) item Hw Hi) as (ls & -> & Hr & Hseen & Hsame); [lia|]. cbn [obind fst snd dirtyFormat withItems].
  rewrite (s_format _ Hs), orb_false_r. pose proof (links_length _ _ (proj1 Hr)) as Hlen.
  assert (item ∈ rows ls) as Hrow by (apply rows_elem; split; [lia|done]). destruct (findVisible_spec _ _ Hrow) as (n & Hn1 & Hn2). pose proof (lookup_lt_Some _ _ _ Hn2) as Hlt.
  destruct (seen (items p) item) eqn:Eseen; cbn [negb].
  - rewrite (Hsame eq_refl) in *. assert (withItems p (items p) = p) as -> by by destruct p. cbn [obind]. rewrite (s_rows _ Hs), Hn1.
    destruct (setpos_showing p (Z.of_nat n) (pC (Pos (srect (pad p))))) as (q & -> & S & I & C); try apply Hs; [intros _; split; [apply Hs|apply (s_cursor _ Hs)]|].
    exists q. split; [done|]. split; [done|]. rewrite (s_rows _ S), I, C. unfold visibleLines. rewrite (s_rows _ Hs). split; [|done].
    unfold clamp. by replace (Z.to_nat _) with n by lia.
  - destruct (reformat (withItems p ls) _ _ (s_framed _ Hs)) as (q & -> & Qf & Qv & _ & Hgo).
    + by eapply links_wf; [apply Hr|].
    + cbn. intros E. rewrite E in Hlen. simpl in Hlen. pose proof (s_items _ Hs). by destruct (items p).
    + pose proof (s_max _ Hs). unfold Lines in *. cbn [items withItems]. lia.
    + cbn [obind items withItems] in *. rewrite Qv, Hn1. destruct (Hgo (Z.of_nat n) (pC (Pos (srect (pad q))))) as (q' & -> & S & K & C).
      exists q'. split; [done|]. split; [done|]. assert (rows (items q') = rows ls) as Hrq by (apply rows_kept; [apply S|done]). rewrite (s_rows _ S), Hrq, C. split.
      * unfold clamp. by replace (Z.to_nat _) with n by lia.
      * intros j Hj. rewrite (s_rows _ Hs) in Hj. by eapply rows_reveals.
Qed.

(** ** A pad that has no window yet *)

Record prepared (p : tree_pad) : Prop := Prepared {
  pr_win : destwin (pad p) = None;
  pr_vheight : _vheight (pad p) = 0;
  pr_size : sH (wsize w) <= height (pad p) /\ sW (wsize w) <= width (pad p);
  pr_wf : wf (items p);
  pr_dirty : items p <> [] -> dirty (pad p) = true;
  pr_format : items p <> [] -> dirtyFormat p = false ->
    visibleItems p = rows (items p) /\ height (pad p) = Z.max (visibleLines p) (sH (wsize w)) /\ width (pad p) = Z.max (TableWidth (items p)) (sW (wsize w)) }.

Lemma UpdateFormat_prepared p : prepared p -> items p <> [] -> Lines p <= MAX_PAD_HEIGHT ->
  exists q, UpdateFormat p = Done q /\ prepared q /\ dirtyFormat q = false /\ map kept (items q) = map kept (items p) /\
    visibleItems q = rows (items p) /\ citem q = citem p.
Proof.
  intros Hp Hne Hmax. unfold NCTreePad.UpdateFormat. destruct (formatted (items p) (pr_wf _ Hp)) as (ls & E & Hk & Hw & Ev & Hrows & Hlen).
  cbn [items withPad]. rewrite E. cbn [obind]. rewrite Ev. cbn [obind]. unfold resize, NCPadWidget.AdjustPadSize. rewrite max_spec. cbn [A B pad].
  set (vis := Z.of_nat (length (rows ls))). set (tw := TableWidth ls). set (b := Pad _ _ _ _ _ _ _ _ _ _).
  assert (vheight b = height (pad p)) as Hvh by (unfold vheight, b; cbn; by rewrite (pr_vheight _ Hp)).
  assert (0 <= vis <= MAX_PAD_HEIGHT) as Hvis by (unfold vis, Lines in *; pose proof (rows_length ls); lia).
  assert (destwin b = None) as Hdw by apply (pr_win _ Hp). rewrite Hdw. cbn [obind withPad pad].
  destruct (_ || _) eqn:Esame.
  - rewrite Z.gtb_ltb, (proj2 (Z.ltb_ge _ _)) by lia. eexists. split; [done|]. cbn [pad items visibleItems citem dirtyFormat]. split; [|by rewrite Hrows].
    constructor; cbn; try done; lia.
  - apply orb_false_iff in Esame as [S1 S2]. apply negb_false_iff, Z.eqb_eq in S1, S2. rewrite Hvh in S1. change (width b) with (width (pad p)) in S2.
    eexists. split; [done|]. cbn [pad items visibleItems citem dirtyFormat]. split; [|by rewrite Hrows].
    constructor; cbn; try done; try apply Hp; try lia.
Qed.

Lemma prepared_pos p pos : prepared p -> prepared (withPad p (withPos (pad p) pos)).
Proof. intros []. by constructor. Qed.

Lemma prepared_cursor p l : prepared p -> prepared (setCurrentLineNo p l).
Proof. intros []. by constructor. Qed.

Lemma hotColumn_prepared p : prepared p -> prepared (hotColumn p) /\ items (hotColumn p) = items p /\ citem (hotColumn p) = citem p /\
  dirtyFormat (hotColumn p) = dirtyFormat p /\ destwin (pad (hotColumn p)) = destwin (pad p).
Proof. intros Hp. unfold hotColumn. repeat case_match; (split; [|done]); by try apply prepared_pos. Qed.

Lemma redraw_prepared p : prepared p -> prepared (redraw p) /\ items (redraw p) = items p /\ citem (redraw p) = citem p /\ dirtyFormat (redraw p) = dirtyFormat p.
Proof. intros Hp. unfold redraw. rewrite (pr_win _ Hp). split; [|done]. destruct Hp. by constructor. Qed.

Lemma setposFormatted_prepared p l c : prepared p -> items p <> [] -> dirtyFormat p = false ->
  exists q, setposFormatted p (WPair l c) = Done q /\ prepared q /\ dirtyFormat q = false /\ items q = items p /\ citem q = clamp l (visibleLines p).
Proof.
  intros Hp Hne Hfmt. unfold setposFormatted. rewrite (proj2 (Z.eqb_neq _ _)) by (unfold Lines; destruct (items p); simpl; [done|lia]).
  assert (0 < visibleLines p) as Hpos.
  { unfold visibleLines. rewrite (proj1 (pr_format _ Hp Hne Hfmt)). pose proof (rows_first _ (pr_wf _ Hp) Hne). destruct (rows (items p)); simpl; [done|lia]. }
  cbv zeta. cbn [pL pC]. assert ((if (if l <? 0 then 0 else l) >=? visibleLines p then visibleLines p - 1 else if l <? 0 then 0 else l) = clamp l (visibleLines p)) as -> by (unfold clamp; zcases; lia).
  set (cur := clamp l (visibleLines p)). rewrite (proj2 (Z.ltb_ge cur 0)) by (unfold cur, clamp; lia). rewrite andb_false_r.
  set (p1 := withPad (setCurrentLineNo p cur) _). assert (prepared p1) as Hp1 by (unfold p1; apply (prepared_pos (setCurrentLineNo p cur)), prepared_cursor, Hp).
  set (p2 := if negb (cur =? citem p) then hotColumn p1 else p1).
  assert (prepared p2 /\ items p2 = items p /\ citem p2 = cur /\ dirtyFormat p2 = false) as (Hp2 & I2 & C2 & F2).
  { unfold p2. destruct (negb _); [|done]. destruct (hotColumn_prepared p1 Hp1) as (H1 & H2 & H3 & H4 & _). rewrite H2, H3, H4. done. }
  clearbody p2. rewrite (pr_dirty _ Hp2) by (by rewrite I2). destruct (redraw_prepared p2 Hp2) as (R1 & R2 & R3 & R4). exists (redraw p2). split; [done|]. split; [done|].
  rewrite R2, R3, R4. done.
Qed.

Lemma setpos_prepared p l c : prepared p -> items p <> [] -> Lines p <= MAX_PAD_HEIGHT ->
  exists q, setpos p (WPair l c) = Done q /\ prepared q /\ dirtyFormat q = false /\ map kept (items q) = map kept (items p) /\
    citem q = clamp l (Z.of_nat (length (rows (items p)))).
Proof.
  intros Hp Hne Hmax. unfold NCTreePad.setpos. rewrite (proj2 (Z.eqb_neq _ _)) by (unfold Lines; destruct (items p); simpl; [done|lia]).
  assert (exists p1, (if dirtyFormat p then UpdateFormat p else Done p) = Done p1 /\ prepared p1 /\ dirtyFormat p1 = false /\ map kept (items p1) = map kept (items p) /\
    visibleItems p1 = rows (items p)) as (p1 & -> & Hp1 & F1 & K1 & V1).
  { destruct (dirtyFormat p) eqn:Ef.
    - destruct (UpdateFormat_prepared p Hp Hne Hmax) as (q & -> & H1 & H2 & H3 & H4 & _). by exists q.
    - exists p. split; [done|]. split; [done|]. split; [done|]. split; [done|]. by apply (pr_format _ Hp). }
  cbn [obind]. assert (items p1 <> []) as Hne1 by (intros E; rewrite E in K1; by destruct (items p)).
  destruct (setposFormatted_prepared p1 l c Hp1 Hne1 F1) as (q & -> & H1 & H2 & H3 & H4). exists q. split; [done|]. split; [done|]. split; [done|].
  split; [by rewrite H3|]. rewrite H4. unfold visibleLines. by rewrite V1.
Qed.

Lemma prepared_items p ls : prepared p -> wf ls -> prepared (setFormatDirty (withItems p ls)).
Proof. intros [] Hw. by constructor. Qed.

(** An item is shown before there is a window. *)
Lemma ShowItem_prepared p item : prepared p -> (item < length (items p))%nat -> Lines p <= MAX_PAD_HEIGHT ->
  exists q, ShowItem p item = Done q /\ prepared q /\ map links (items q) = map links (items p) /\ seen (items q) item = true /\
    (seen (items p) item = true -> map kept (items q) = map kept (items p)).
Proof.
  intros Hp Hi Hmax. pose proof (pr_wf _ Hp) as Hw. unfold NCTreePad.ShowItem.
  destruct (ChangeToVisible_spec (S (length (items p))) (items p) item Hw Hi) as (ls & -> & Hr & Hseen & Hsame); [lia|]. cbn [obind fst snd dirtyFormat withItems].
  pose proof (links_length _ _ (proj1 Hr)) as Hlen. assert (items p <> []) as Hne by (intros E; rewrite E in Hi; simpl in Hi; lia).
  assert (ls <> []) as Hne1 by (intros ->; simpl in Hlen; lia). assert (wf ls) as Hw1 by (eapply links_wf; [apply Hr|done]).
  assert (item ∈ rows ls) as Hrow by (apply rows_elem; split; [lia|done]).
  assert (exists p1, (if negb (seen (items p) item) || dirtyFormat p then UpdateFormat (withItems p ls) else Done (withItems p ls)) = Done p1 /\ prepared p1 /\
    dirtyFormat p1 = false /\ map kept (items p1) = map kept ls /\ visibleItems p1 = rows ls) as (p1 & -> & Hp1 & F1 & K1 & V1).
  { destruct (negb (seen (items p) item) || dirtyFormat p) eqn:Ec.
    - change (UpdateFormat (withItems p ls)) with (UpdateFormat (setFormatDirty (withItems p ls))).
      destruct (UpdateFormat_prepared (setFormatDirty (withItems p ls))) as (q & -> & H1 & H2 & H3 & H4 & _);
        [by apply prepared_items|done|unfold Lines in *; cbn [items setFormatDirty withItems]; lia|]. by exists q.
    - apply orb_false_iff in Ec as [Ec1 Ec2]. apply negb_false_iff in Ec1. rewrite (Hsame Ec1) in *.
      assert (withItems p (items p) = p) as -> by by destruct p. exists p. split; [done|]. split; [done|]. split; [done|]. split; [done|]. by apply (pr_format _ Hp). }
  cbn [obind]. rewrite V1. destruct (findVisible_spec _ _ Hrow) as (n & -> & _).
  assert (items p1 <> []) as Hne2 by (intros E; rewrite E in K1; by destruct ls). pose proof (links_length _ _ (kept_links _ _ K1)) as Hlen1.
  destruct (setpos_prepared p1 (Z.of_nat n) (pC (Pos (srect (pad p1)))) Hp1 Hne2) as (q & -> & Hq & Fq & Kq & _); [unfold Lines in *; lia|].
  exists q. split; [done|]. split; [done|]. assert (map kept (items q) = map kept ls) as Kl by congruence. split; [|split].
  - rewrite (kept_links _ _ Kl). symmetry. apply Hr.
  - rewrite <- Hseen. symmetry. apply seen_kept; [done|done|lia].
  - intros Hs. rewrite (Hsame Hs) in Kl. done.
Qed.

(** ** The tree that the items describe *)

Lemma item_ind' (P : item -> Prop) : (forall o sel l cs, Forall P cs -> P (Item o sel l cs)) -> forall it, P it.
Proof. intros H. fix IH 1. intros [o sel l cs]. apply H. induction cs as [|c cs IHcs]; constructor; [apply IH|apply IHcs]. Qed.

Fixpoint itemCount (it : item) : nat := match it with Item _ _ _ cs => S (list_sum (map itemCount cs)) end.

Lemma CreateTreeLines_eq mark parentLine p isOpen selected label children :
  CreateTreeLines MAX_PAD_HEIGHT (Some w) mark parentLine p (Item isOpen selected label children) =
  (let line := length (items p) in
   let! ls := newLine (items p) parentLine isOpen (mark + label) in
   let p := setFormatDirty (withItems p ls) in
   let! p := if selected then let! at_ := getLineWithIndex p line in ShowItem p at_ else Done p in
   createAll MAX_PAD_HEIGHT (Some w) mark (Some line) p children).
Proof.
  cbn [CreateTreeLines]. destruct (newLine _ _ _ _) as [ls| | |]; [|done..]. cbn [obind]. match goal with |- obind ?m _ = _ => destruct m as [q| | |]; [|done..] end.
  cbn [obind]. generalize (length (items p)). intros n. revert q. induction children as [|c l IH]; intros q; [done|]. cbn [createAll].
  destruct (CreateTreeLines MAX_PAD_HEIGHT (Some w) mark (Some n) q c); [|done..]. apply IH.
Qed.

(** The parents of the lines: a line is in front of the lines of its children. *)
Fixpoint places (p : option nat) (i : nat) (it : item) : list (option nat) :=
  match it with
  | Item _ _ _ cs =>
      p :: (fix go (j : nat) (l : list item) : list (option nat) :=
              match l with [] => [] | c :: l => places (Some i) j c ++ go (j + itemCount c)%nat l end) (S i) cs
  end.

Fixpoint placesAll (p : option nat) (j : nat) (l : list item) : list (option nat) :=
  match l with [] => [] | c :: l => places p j c ++ placesAll p (j + itemCount c) l end.

Lemma places_eq p i o sel l cs : places p i (Item o sel l cs) = p :: placesAll (Some i) (S i) cs.
Proof. simpl. f_equal. generalize (S i). induction cs as [|c cs IH]; intros j; [done|]. simpl. by rewrite IH. Qed.

(** Lines are made for all items. *)
Definition created (mark : Z) (it : item) : Prop := forall parentLine p, prepared p -> (forall q, parentLine = Some q -> (q < length (items p))%nat) ->
  Lines p + Z.of_nat (itemCount it) <= MAX_PAD_HEIGHT ->
  exists q, CreateTreeLines MAX_PAD_HEIGHT (Some w) mark parentLine p it = Done q /\ prepared q /\ items q <> [] /\
    map parent (items q) = map parent (items p) ++ places parentLine (length (items p)) it /\ length (items q) = (length (items p) + itemCount it)%nat.

Lemma createAll_spec mark l : Forall (created mark) l -> forall parentLine p, prepared p -> (forall q, parentLine = Some q -> (q < length (items p))%nat) ->
  Lines p + Z.of_nat (list_sum (map itemCount l)) <= MAX_PAD_HEIGHT ->
  exists q, createAll MAX_PAD_HEIGHT (Some w) mark parentLine p l = Done q /\ prepared q /\ (items p <> [] \/ l <> [] -> items q <> []) /\
    map parent (items q) = map parent (items p) ++ placesAll parentLine (length (items p)) l /\ length (items q) = (length (items p) + list_sum (map itemCount l))%nat.
Proof.
  induction 1 as [|it l Hit _ IH]; intros parentLine p Hp Hq Hmax.
  - exists p. split; [done|]. split; [done|]. split; [by intros [?|?]|]. simpl. by rewrite app_nil_r, Nat.add_0_r.
  - cbn [createAll map list_sum foldr] in *. change (foldr Nat.add 0%nat (map itemCount l)) with (list_sum (map itemCount l)) in *.
    destruct (Hit parentLine p Hp Hq) as (p1 & -> & Hp1 & Hne1 & Hpar1 & Hlen1); [lia|]. cbn [obind].
    destruct (IH parentLine p1 Hp1) as (q & -> & Hq1 & Hne & Hpar & Hlen); [intros r Hr; specialize (Hq r Hr); lia|unfold Lines in *; lia|].
    exists q. split; [done|]. split; [done|]. split; [intros _; apply Hne; by left|]. split; [|lia]. rewrite Hpar, Hpar1, Hlen1, <- app_assoc. done.
Qed.

Lemma CreateTreeLines_spec mark it : created mark it.
Proof.
  induction it as [o sel l cs IH] using item_ind'. intros parentLine p Hp Hq Hmax. rewrite CreateTreeLines_eq. cbv zeta.
  destruct (newLine_spec (items p) parentLine o (mark + l) (pr_wf _ Hp) Hq) as (ls & -> & Hw & Hbody). cbn [obind].
  assert (length ls = S (length (items p))) as Hlen by (apply (f_equal length) in Hbody; rewrite length_app, !length_map in Hbody; simpl in Hbody; lia).
  assert (map parent ls = map parent (items p) ++ [parentLine]) as Hpar.
  { apply (f_equal (map (fun b => fst (fst (fst (fst (fst b))))))) in Hbody. rewrite map_app, !map_map in Hbody. exact Hbody. }
  cbn [itemCount] in *. set (p1 := setFormatDirty (withItems p ls)). assert (prepared p1) as Hp1 by (by apply prepared_items).
  assert (exists p2, (if sel then let! at_ := getLineWithIndex p1 (length (items p)) in ShowItem p1 at_ else Done p1) = Done p2 /\ prepared p2 /\
    map links (items p2) = map links ls) as (p2 & -> & Hp2 & Hl2).
  { destruct sel; [|by exists p1]. unfold getLineWithIndex. rewrite (proj2 (Nat.ltb_lt _ _)) by (cbn; lia). cbn [obind].
    destruct (ShowItem_prepared p1 (length (items p)) Hp1) as (q & -> & H1 & H2 & _); [cbn; lia|unfold Lines in *; cbn [items p1 setFormatDirty withItems]; lia|]. by exists q. }
  cbn [obind]. pose proof (links_length _ _ Hl2) as Hlen2.
  destruct (createAll_spec mark cs IH (Some (length (items p))) p2 Hp2) as (q & -> & Hq1 & Hne & Hparq & Hlenq); [intros r [= <-]; lia|unfold Lines in *; lia|].
  exists q. split; [done|]. split; [done|]. split; [apply Hne; left; intros E; rewrite E in Hlen2; simpl in Hlen2; lia|].
  split; [|lia]. rewrite Hparq, (links_parents _ _ Hl2), Hpar, places_eq, Hlen2, Hlen, <- app_assoc. done.
Qed.

(** *** Items that are selected in open branches *)

Definition core (x : line) := (parent x, hidden x, opened x, treeLevel x, cell x).

(** The lines for an item: a line is hidden if the item above is closed. *)
Fixpoint describe (mark : Z) (p : option nat) (i d : nat) (hid : bool) (it : item) : list (option nat * bool * bool * nat * Z) :=
  match it with
  | Item o _ l cs =>
      (p, hid, o, d, Z.of_nat (d + 3) + (mark + l)) ::
      (fix go (j : nat) (l : list item) :=
         match l with [] => [] | c :: l => describe mark (Some i) j (S d) (negb o) c ++ go (j + itemCount c)%nat l end) (S i) cs
  end.

Fixpoint describeAll (mark : Z) (p : option nat) (j d : nat) (hid : bool) (l : list item) : list (option nat * bool * bool * nat * Z) :=
  match l with [] => [] | c :: l => describe mark p j d hid c ++ describeAll mark p (j + itemCount c) d hid l end.

Lemma describe_eq mark p i d hid o sel l cs : describe mark p i d hid (Item o sel l cs) =
  (p, hid, o, d, Z.of_nat (d + 3) + (mark + l)) :: describeAll mark (Some i) (S i) (S d) (negb o) cs.
Proof. simpl. f_equal. generalize (S i). induction cs as [|c cs IH]; intros j; [done|]. simpl. by rewrite IH. Qed.

(** No selected item is in a closed branch; [above] tells whether all branches
    around the item are open. *)
Fixpoint selectedShown (above : bool) (it : item) : bool :=
  match it with Item o sel _ cs => implb sel above && forallb (selectedShown (above && o)) cs end.

Lemma core_lookup ls ls' r j x : map core ls' = map core ls ++ r -> ls !! j = Some x -> exists y, ls' !! j = Some y /\ core y = core x.
Proof.
  intros H Hx. apply (f_equal (fun l => l !! j)) in H. rewrite lookup_app_l, !list_lookup_fmap, Hx in H by (rewrite length_map; by eapply lookup_lt_Some).
  destruct (ls' !! j) as [y|]; [|done]. exists y. split; [done|]. simpl in H. congruence.
Qed.

Lemma core_seen ls ls' r : wf ls -> wf ls' -> map core ls' = map core ls ++ r -> forall j, (j < length ls)%nat -> seen ls' j = seen ls j.
Proof.
  intros Hw Hw' Hc j. induction (lt_wf j) as [j _ IH]. intros Hj. destruct (lookup_lt_is_Some_2 _ _ Hj) as [x Hx]. destruct (core_lookup _ _ _ _ _ Hc Hx) as (y & Hy & E).
  assert (parent y = parent x /\ hidden y = hidden x) as [E1 E2] by (unfold core in E; split; congruence).
  rewrite (seen_eq ls' j y Hw' Hy), (seen_eq ls j x Hw Hx), E1, E2. destruct (parent x) as [q|] eqn:Ep; [|done]. pose proof (wf_parent _ Hw _ _ _ Hx Ep). by rewrite IH by lia.
Qed.

(** What the line above a new line contributes. *)
Record context (ls : lines) (p : option nat) (above hid : bool) (d : nat) : Prop := Ctx {
  ctx_range : forall q, p = Some q -> (q < length ls)%nat;
  ctx_hidden : closedAbove ls p = hid;
  ctx_level : levelBelow ls p = d;
  ctx_above : above = true -> hid = false /\ forall q, p = Some q -> seen ls q = true }.

Lemma context_grows ls ls' r p above hid d : wf ls -> wf ls' -> map core ls' = map core ls ++ r -> context ls p above hid d -> context ls' p above hid d.
Proof.
  intros Hw Hw' Hc [H1 H2 H3 H4]. assert (length ls <= length ls')%nat as Hlen by (apply (f_equal length) in Hc; rewrite length_app, !length_map in Hc; lia).
  assert (closedAbove ls' p = closedAbove ls p /\ levelBelow ls' p = levelBelow ls p) as [E1 E2].
  { destruct p as [q|]; [|done]. simpl. destruct (lookup_lt_is_Some_2 ls q) as [x Hx]; [by apply H1|]. destruct (core_lookup _ _ _ _ _ Hc Hx) as (y & Hy & E).
    rewrite Hx, Hy. unfold core in E. split; [|f_equal]; congruence. }
  constructor; [intros q Hq; specialize (H1 q Hq); lia|congruence|congruence|]. intros Ha. destruct (H4 Ha) as [-> Hs]. split; [done|].
  intros q Hq. rewrite (core_seen ls ls' r Hw Hw' Hc q (H1 q Hq)). by apply Hs.
Qed.

Definition exactly (mark : Z) (it : item) : Prop := forall parentLine p q above hid d, prepared p -> consistent (items p) ->
  context (items p) parentLine above hid d -> selectedShown above it = true -> Lines p + Z.of_nat (itemCount it) <= MAX_PAD_HEIGHT ->
  CreateTreeLines MAX_PAD_HEIGHT (Some w) mark parentLine p it = Done q ->
  consistent (items q) /\ map core (items q) = map core (items p) ++ describe mark parentLine (length (items p)) d hid it.

Lemma createAll_exact mark l : Forall (exactly mark) l -> forall parentLine p q above hid d, prepared p -> consistent (items p) ->
  context (items p) parentLine above hid d -> forallb (selectedShown above) l = true -> Lines p + Z.of_nat (list_sum (map itemCount l)) <= MAX_PAD_HEIGHT ->
  createAll MAX_PAD_HEIGHT (Some w) mark parentLine p l = Done q ->
  consistent (items q) /\ map core (items q) = map core (items p) ++ describeAll mark parentLine (length (items p)) d hid l.
Proof.
  induction 1 as [|it l Hit _ IH]; intros parentLine p q above hid d Hp Hc Hctx Hsel Hmax Hq.
  - injection Hq as <-. by rewrite app_nil_r.
  - cbn [createAll map list_sum foldr forallb describeAll] in *. change (foldr Nat.add 0%nat (map itemCount l)) with (list_sum (map itemCount l)) in *.
    apply andb_true_iff in Hsel as [Hs1 Hs2]. destruct (CreateTreeLines_spec mark it parentLine p Hp (ctx_range _ _ _ _ _ Hctx)) as (p1 & E & Hp1 & _ & _ & Hlen); [lia|].
    destruct (Hit parentLine p p1 above hid d Hp Hc Hctx Hs1) as [Hc1 Hcore1]; [lia|done|]. rewrite E in Hq. cbn [obind] in Hq.
    destruct (IH parentLine p1 q above hid d Hp1 Hc1) as [Hcq Hcoreq]; [by eapply context_grows; [apply Hp|apply Hp1|exact Hcore1|]|done|unfold Lines in *; lia|done|].
    split; [done|]. rewrite Hcoreq, Hcore1, Hlen, <- app_assoc. done.
Qed.

Lemma core_kept ls ls' : map kept ls = map kept ls' -> map core ls = map core ls'.
Proof.
  intros H. apply list_eq. intros j. apply (f_equal (fun l => l !! j)) in H. rewrite !list_lookup_fmap in *. destruct (ls !! j) as [x|], (ls' !! j) as [y|]; simpl in *; try done.
  injection H as H1 H2 H3 H4 H5 H6 H7. unfold core. congruence.
Qed.

Lemma newLine_exact ls ls' p above hid d o v : wf ls -> wf ls' -> consistent ls -> context ls p above hid d ->
  map body ls' = map body ls ++ [(p, closedAbove ls p, o, levelBelow ls p, None, v)] ->
  consistent ls' /\ map core ls' = map core ls ++ [(p, hid, o, d, v)] /\ (above = true -> seen ls' (length ls) = true) /\
  exists x, ls' !! length ls = Some x /\ opened x = o /\ treeLevel x = d.
Proof.
  intros Hw Hw' Hc Hctx Hb. rewrite (ctx_hidden _ _ _ _ _ Hctx), (ctx_level _ _ _ _ _ Hctx) in Hb.
  assert (map core ls' = map core ls ++ [(p, hid, o, d, v)]) as Hcore.
  { apply (f_equal (map (fun b => match b with (p, h, o, l, _, c) => (p, h, o, l, c) end))) in Hb. rewrite map_app, !map_map in Hb. exact Hb. }
  assert (exists x, ls' !! length ls = Some x /\ core x = (p, hid, o, d, v)) as (x & Hx & Ex).
  { apply (f_equal (fun l => l !! length ls)) in Hcore. rewrite list_lookup_fmap, lookup_app_r, length_map, Nat.sub_diag in Hcore by (by rewrite length_map).
    destruct (ls' !! length ls) as [x|]; [|done]. simpl in Hcore. exists x. split; [done|congruence]. }
  assert (parent x = p /\ hidden x = hid /\ opened x = o /\ treeLevel x = d) as (X1 & X2 & X3 & X4) by (unfold core in Ex; repeat split; congruence).
  assert (length ls' = S (length ls)) as Hlen by (apply (f_equal length) in Hb; rewrite length_app, !length_map in Hb; simpl in Hb; lia).
  split; [|split; [done|split; [|by exists x]]].
  - intros j y q z Hy Hq Hz. assert (q < length ls)%nat as Hql by (pose proof (wf_parent _ Hw' _ _ _ Hy Hq); apply lookup_lt_Some in Hy; lia).
    destruct (lookup_lt_is_Some_2 _ _ Hql) as [z0 Hz0]. destruct (core_lookup _ _ _ _ _ Hcore Hz0) as (z1 & Hz1 & Ez). assert (z1 = z) as -> by congruence.
    assert (opened z = opened z0) as -> by (unfold core in Ez; congruence). destruct (decide (j = length ls)) as [->|Hj].
    + assert (y = x) as -> by congruence. rewrite X2, <- (ctx_hidden _ _ _ _ _ Hctx). rewrite X1 in Hq. rewrite Hq. simpl. by rewrite Hz0.
    + destruct (lookup_lt_is_Some_2 ls j) as [y0 Hy0]; [apply lookup_lt_Some in Hy; lia|]. destruct (core_lookup _ _ _ _ _ Hcore Hy0) as (y1 & Hy1 & Ey).
      assert (y1 = y) as -> by congruence. assert (hidden y = hidden y0 /\ parent y0 = Some q) as [-> Hpq] by (unfold core in Ey; split; congruence). by apply (Hc j y0 q z0).
  - intros Ha. destruct (ctx_above _ _ _ _ _ Hctx Ha) as [Hh Hs]. rewrite (seen_eq ls' _ x Hw' Hx), X1, X2, Hh. destruct p as [q|]; [|done]. simpl.
    rewrite (core_seen ls ls' _ Hw Hw' Hcore q); [by apply Hs|by apply (ctx_range _ _ _ _ _ Hctx)].
Qed.

Lemma CreateTreeLines_exact mark it : exactly mark it.
Proof.
  induction it as [o sel l cs IH] using item_ind'. intros parentLine p q above hid d Hp Hc Hctx Hsel Hmax. rewrite CreateTreeLines_eq. cbv zeta.
  destruct (newLine_spec (items p) parentLine o (mark + l) (pr_wf _ Hp) (ctx_range _ _ _ _ _ Hctx)) as (ls & -> & Hw & Hbody). cbn [obind].
  destruct (newLine_exact _ ls _ _ _ _ _ _ (pr_wf _ Hp) Hw Hc Hctx Hbody) as (Hcl & Hcore & Hseen & x & Hx & Hxo & Hxl). rewrite (ctx_level _ _ _ _ _ Hctx) in Hcore.
  assert (length ls = S (length (items p))) as Hlen by (apply (f_equal length) in Hbody; rewrite length_app, !length_map in Hbody; simpl in Hbody; lia).
  cbn [itemCount selectedShown] in *. apply andb_true_iff in Hsel as [Hs1 Hs2]. set (p1 := setFormatDirty (withItems p ls)). assert (prepared p1) as Hp1 by (by apply prepared_items).
  assert (exists p2, (if sel then let! at_ := getLineWithIndex p1 (length (items p)) in ShowItem p1 at_ else Done p1) = Done p2 /\ prepared p2 /\
    map kept (items p2) = map kept ls) as (p2 & -> & Hp2 & Hk2).
  { destruct sel; [|by exists p1]. unfold getLineWithIndex. rewrite (proj2 (Nat.ltb_lt _ _)) by (cbn; lia). cbn [obind].
    destruct (ShowItem_prepared p1 (length (items p)) Hp1) as (p2 & -> & H1 & _ & _ & H2); [cbn; lia|unfold Lines in *; cbn [items p1 setFormatDirty withItems]; lia|].
    exists p2. split; [done|]. split; [done|]. apply H2, Hseen. by destruct above. }
  cbn [obind]. intros Hq. pose proof (links_length _ _ (kept_links _ _ Hk2)) as Hlen2. pose proof (core_kept _ _ Hk2) as Hcore2.
  destruct (createAll_exact mark cs IH (Some (length (items p))) p2 q (above && o) (negb o) (S d) Hp2) as [Hcq Hcoreq]; [by eapply kept_consistent| |done|unfold Lines in *; lia|done|].
  - destruct (core_lookup ls (items p2) [] (length (items p)) x) as (y & Hy & Ey); [by rewrite app_nil_r|done|]. assert (opened y = o /\ treeLevel y = d) as [Hyo Hyl] by (unfold core in Ey; split; congruence).
    constructor; [intros r [= <-]; lia|simpl; by rewrite Hy, Hyo|simpl; by rewrite Hy, Hyl|]. intros [Ha ->]%andb_true_iff. split; [done|]. intros r [= <-].
    rewrite <- (seen_kept ls (items p2)); [by apply Hseen|done|done|lia].
  - split; [done|]. rewrite Hcoreq, Hcore2, Hcore, describe_eq, Hlen2, Hlen, <- app_assoc. done.
Qed.

(** *** The window comes *)

Lemma setpos_formatted q pos : dirtyFormat q = false -> items q <> [] -> setpos q pos = setposFormatted q pos.
Proof. intros Hf Hne. unfold NCTreePad.setpos. rewrite (proj2 (Z.eqb_neq _ _)) by (unfold Lines; destruct (items q); simpl; [done|lia]). by rewrite Hf. Qed.

Lemma window_shown p : prepared p -> items p <> [] -> Lines p <= MAX_PAD_HEIGHT ->
  exists q, setDestwin setpos p (Some w) = Done q /\ showing q /\ map kept (items q) = map kept (items p).
Proof.
  intros Hp Hne Hmax. unfold setDestwin. rewrite (pr_win _ Hp), bool_decide_false by done. set (p1 := withPad p (attach (pad p) w)).
  assert (exists q, setpos p1 (CurPos p1) = Done q /\ showing q /\ map kept (items q) = map kept (items p)) as (q & -> & Hs & Hk).
  { unfold CurPos. destruct (dirtyFormat p) eqn:Ef.
    - destruct (reformat p1 (height (pad p)) (width (pad p))) as (q & E & Qf & Qv & Qc & Hgo); [|apply Hp|done|done|].
      { destruct (pr_size _ Hp). apply attach_framed; [apply Hp|lia|lia]. }
      destruct (Hgo (citem p1) (pC (Pos (srect (pad p1))))) as (q' & E' & S & K & _). exists q'. split; [|done].
      unfold NCTreePad.setpos. rewrite (proj2 (Z.eqb_neq _ _)) by (unfold Lines; cbn; destruct (items p); simpl; [done|lia]). change (dirtyFormat p1) with (dirtyFormat p).
      rewrite Ef, E. cbn [obind]. rewrite <- (setpos_formatted q); [done|done|]. intros E0.
      assert (visibleItems q <> []) as Hv by (rewrite Qv; by apply rows_first; [apply Hp|]).
      destruct (UpdateFormat_spec p1 (height (pad p)) (width (pad p))) as (q2 & Eq2 & _ & K2 & _); [|apply Hp|done|done|].
      { destruct (pr_size _ Hp). apply attach_framed; [apply Hp|lia|lia]. }
      assert (q2 = q) as -> by congruence. rewrite E0 in K2. cbn in K2. by destruct (items p).
    - destruct (pr_format _ Hp Hne Ef) as (F1 & F2 & F3). pose proof (pr_dirty _ Hp Hne) as Hd.
      destruct (setpos_showing p1 (citem p1) (pC (Pos (srect (pad p1))))) as (q & E & S & I & _); try done; [apply Hp|by apply attach_framed; [apply Hp|..]|by cbn; rewrite Hd|].
      exists q. split; [done|]. split; [done|]. by rewrite I. }
  cbn [obind]. pose proof (s_framed _ Hs) as F. rewrite (f_win _ _ _ F). pose proof (framed_maxspos _ _ _ F) as M. rewrite (f_win _ _ _ F) in M. rewrite M.
  exists q. split; [by destruct q|done].
Qed.

Definition defaultPad : tree_pad := newTreePad MAX_PAD_HEIGHT (sH (wsize w)) (sW (wsize w)).

Lemma newTreePad_prepared : prepared defaultPad.
Proof.
  unfold defaultPad, newTreePad, newPad. rewrite Z.gtb_ltb, (proj2 (Z.ltb_ge _ _)) by lia. constructor; cbn; try done; try lia.
Qed.

(** C25: A tree is filled with lines for its items before it has a window. In the
    window it shows the items: every line is behind the line of the item above.
    Unless an item in a closed branch is selected, exactly the branches that the
    items tell are open. *)
Theorem tree_drawn mark l : l <> [] -> Z.of_nat (list_sum (map itemCount l)) <= MAX_PAD_HEIGHT ->
  exists p q, DrawPad MAX_PAD_HEIGHT (Some w) mark defaultPad l = Done p /\ setDestwin setpos p (Some w) = Done q /\ showing q /\
    map parent (items q) = placesAll None 0 l /\
    (forallb (selectedShown true) l = true -> consistent (items q) /\ map core (items q) = describeAll mark None 0 0 false l).
Proof.
  intros Hne Hmax. pose proof newTreePad_prepared as Hp0. set (p0 := defaultPad) in *. assert (Lines p0 = 0) as HL by done. assert (length (items p0) = O) as HL' by done.
  destruct (createAll_spec mark l) with (parentLine := @None nat) (p := p0) as (p & E & Hp & Hnep & Hpar & Hlen); [|done|done|lia|].
  { apply Forall_forall. intros it _. apply CreateTreeLines_spec. }
  unfold DrawPad. rewrite E. cbn [obind]. unfold update. rewrite (pr_win _ Hp). exists p.
  destruct (window_shown p Hp) as (q & Eq & Hs & Hk); [apply Hnep; by right|unfold Lines; rewrite Hlen, HL'; lia|]. exists q. split; [done|]. split; [done|]. split; [done|].
  split; [rewrite (links_parents _ _ (kept_links _ _ Hk)), Hpar; done|]. intros Hsel.
  destruct (createAll_exact mark l) with (parentLine := @None nat) (p := p0) (q := p) (above := true) (hid := false) (d := O) as [Hc Hcore]; try done.
  - apply Forall_forall. intros it _. apply CreateTreeLines_exact.
  - split; [by eapply kept_consistent|]. rewrite (core_kept _ _ Hk), Hcore. done.
Qed.

End window.

End NCTreePad.

(** ** A window of three lines *)

Module TreePadSamples.
Import Wpos NCPad NCTableLine NCTreePad.

Definition win : window := Window 0 (WPair 3 10).
Definition MAX : Z := 32767.

Lemma win_size : 1 <= sH (wsize win) <= MAX /\ 0 <= sW (wsize win).
Proof. cbn. unfold MAX. lia. Qed.

Definition shownTree (l : list item) : outcome tree_pad :=
  let! p := DrawPad MAX (Some win) 0 (defaultPad MAX win) l in setDestwin (setpos MAX (Some win)) p (Some win).

(** An open branch with a closed one. *)
Definition openTree : list item :=
  [Item true false 4 [Item false false 5 [Item false false 3 []]; Item false false 5 []]; Item false false 6 []].

Lemma tree_drawn_witness : exists q, shownTree openTree = Done q /\ showing MAX win q /\ consistent (items q).
Proof.
  destruct (tree_drawn MAX win win_size 0 openTree) as (p & q & E1 & E2 & Hs & _ & Hc); [done|vm_compute; discriminate|].
  exists q. unfold shownTree. rewrite E1. cbn [obind]. split; [exact E2|]. split; [exact Hs|]. apply Hc. vm_compute. reflexivity.
Defined.

(** The second line is opened. *)
Lemma tree_keys_witness : exists p q h, shownTree openTree = Done p /\ showing MAX win p /\
  (let! r := handleInput MAX (Some win) p (Move KEY_DOWN) in handleInput MAX (Some win) (fst r) (Branch KEY_PLUS)) = Done (q, h) /\ showing MAX win q.
Proof.
  destruct (tree_drawn MAX win win_size 0 openTree) as (p0 & p & E1 & E2 & Hs & _ & Hc); [done|vm_compute; discriminate|]. destruct Hc as [Hc _]; [vm_compute; reflexivity|].
  destruct (tree_keys MAX win win_size p (Move KEY_DOWN) Hs Hc) as (p1 & h1 & i1 & x1 & Ek1 & Hs1 & Hc1 & _).
  destruct (tree_keys MAX win win_size p1 (Branch KEY_PLUS) Hs1 Hc1) as (q & h & i & x & Ek & Hsq & _).
  exists p, q, h. unfold shownTree. rewrite E1. cbn [obind]. split; [exact E2|]. split; [exact Hs|]. rewrite Ek1. cbn [obind fst]. split; [exact Ek|exact Hsq].
Defined.

Lemma item_shown_witness : exists p q, shownTree openTree = Done p /\ ShowItem MAX (Some win) p 2 = Done q /\ visibleItems q !! Z.to_nat (citem q) = Some 2%nat.
Proof.
  destruct (tree_drawn MAX win win_size 0 openTree) as (p0 & p & E1 & E2 & Hs & Hpar & _); [done|vm_compute; discriminate|].
  assert (length (items p) = 5%nat) as Hlen by (apply (f_equal length) in Hpar; rewrite length_map in Hpar; exact Hpar).
  destruct (item_shown MAX win win_size p 2 Hs) as (q & E & _ & Hv & _); [lia|].
  exists p, q. unfold shownTree. rewrite E1. cbn [obind]. split; [exact E2|]. split; [exact E|exact Hv].
Defined.

(** ** Defects *)

(** The second of three items in a closed branch is selected. *)
Definition closedTree : list item :=
  [Item false false 4 [Item false false 5 []; Item false true 5 [Item false false 3 []]; Item false false 5 []]].

(** The items up to the selected one become visible and are marked as open, but
    the branch they are in is not: the items that follow stay hidden, and so they
    do when the user opens the branch. The child of the selected item is visible
    although the item was closed. *)
Example half_shown :
  (let! p := shownTree closedTree in
   let! r := handleInput MAX (Some win) p (Move KEY_HOME) in
   let! r := handleInput MAX (Some win) (fst r) (Branch KEY_PLUS) in
   Done (visibleItems p, map opened (items p), parentOf (items p) 4, visibleItems (fst r))) =
  Done ([0; 1; 2; 3]%nat, [false; true; true; false; false], Some 0%nat, [0; 1; 2; 3]%nat).
Proof. vm_compute. reflexivity. Qed.

(** The line graphics of the selected item are made before its siblings and its
    children are there: they show a last item without children. *)
Example graphics_stale :
  (let! p := shownTree [Item true false 4 [Item false true 5 [Item false false 3 []]; Item false false 5 []]] in
   let! x := deref (items p) 1 in
   let! g := glyphs (items p) x in
   Done (nextSibling x, firstChild x, prefix x, rev g)) =
  Done (Some 3%nat, Some 2%nat, Some [BLANK; LLCORNER; HLINE; HLINE], [BLANK; LTEE; TTEE; HLINE]).
Proof. vm_compute. reflexivity. Qed.

End TreePadSamples.
