(* ===== verification/Zypp.v ===== *)
(** * What the package selectors use of libzypp

    The package selectors of the two plug-ins (src/libyui-ncurses-pkg,
    src/libyui-qt-pkg) show and change the state of a pool of packages that
    libzypp owns. libzypp is no part of the repository, so the pool is an
    interface here: the class [Zypp] has the members of [zypp::ui::Selectable],
    [zypp::PoolItem] and [zypp::Resolver] that the two selectors call, and
    [ZyppLaws] what they rely on. [ZyppSamples] is a small pool that satisfies
    the laws, for the examples. The status values and the operations of the
    pool are those NCZypp.h and YQZypp.h import. *)
From S2P Require Import Prelude.
From Stdlib Require Import String.
Local Open Scope Z_scope.

(** [zypp::ui::Status] *)
Inductive ZyppStatus : Type :=
| S_Protected
| S_Taboo
| S_Del
| S_Update
| S_Install
| S_AutoDel
| S_AutoUpdate
| S_AutoInstall
| S_KeepInstalled
| S_NoInst.

#[export] Instance ZyppStatus_eq_dec : EqDecision ZyppStatus.
Proof. solve_decision. Defined.

(** The states in which the next commit installs something, and the two locks. *)
Definition installing (s : ZyppStatus) : bool :=
  match s with
  | S_Install | S_AutoInstall | S_Update | S_AutoUpdate => true
  | _ => false
  end.

Definition locked (s : ZyppStatus) : bool :=
  match s with
  | S_Taboo | S_Protected => true
  | _ => false
  end.

(** The states of an object that is installed, and of one that is not. *)
Definition ofInstalled (s : ZyppStatus) : bool :=
  match s with
  | S_Protected | S_Del | S_Update | S_AutoDel | S_AutoUpdate | S_KeepInstalled => true
  | _ => false
  end.

(** A null pointer to an object is [None]; texts are compared with the empty
    text only, editions with [==] and [<], so that they are ranks. *)
Class Zypp : Type := {
  pool : Type;
  sel : Type;
  obj : Type;
  sel_eq_dec :: EqDecision sel;
  obj_eq_dec :: EqDecision obj;
  status : pool -> sel -> ZyppStatus;
  setStatus : pool -> sel -> ZyppStatus -> pool * bool;
  hasLicenceConfirmed : pool -> sel -> bool;
  setLicenceConfirmed : pool -> sel -> bool -> pool;
  installedObj : pool -> sel -> option obj;
  candidateObj : pool -> sel -> option obj;
  theObj : pool -> sel -> option obj;
  updateCandidateObj : pool -> sel -> option obj;
  setOnSystem : pool -> sel -> obj -> pool * bool;
  setCandidate : pool -> sel -> obj -> pool * bool;
  availables : pool -> sel -> list obj;
  pickStatus : pool -> sel -> obj -> ZyppStatus;
  setPickStatus : pool -> sel -> obj -> ZyppStatus -> pool * bool;
  toModify : pool -> sel -> bool;
  modifiedByUser : pool -> sel -> bool;
  selName : sel -> string;
  selMultiversion : pool -> sel -> bool;
  licenseToConfirm : obj -> string;
  insnotify : obj -> string;
  delnotify : obj -> string;
  isRetracted : obj -> bool;
  multiversionInstall : obj -> bool;
  isPattern : obj -> bool;
  edition : obj -> Z;
  arch : obj -> string;
  vendor : obj -> string;
  isToBeInstalled : pool -> obj -> bool;
  isRelevant : pool -> obj -> bool;
  isBroken : pool -> obj -> bool;
  resolvePool : pool -> pool * bool;
  userWantedPackageNames : pool -> list string;
  packages : list sel;
  patches : list sel;
  diffState : pool -> bool;
  restoreState : pool -> pool;
}.

Definition installedEmpty `{Zypp} (p : pool) (s : sel) : bool :=
  match installedObj p s with None => true | Some _ => false end.

Definition hasInstalledObj `{Zypp} (p : pool) (s : sel) : bool :=
  negb (installedEmpty p s).

Definition hasCandidateObj `{Zypp} (p : pool) (s : sel) : bool :=
  match candidateObj p s with None => false | Some _ => true end.

(** [Selectable::setStatus] returns whether the change is possible and leaves
    the selectable alone when it is not; a change of one selectable is none of
    another, and none of what is installed; what is going to be installed can
    always be locked instead; the
    licence flag is independent of the status. *)
Class ZyppLaws `{Zypp} : Prop := {
  setStatus_done : forall p s x,
    snd (setStatus p s x) = true -> status (fst (setStatus p s x)) s = x;
  setStatus_refused : forall p s x,
    snd (setStatus p s x) = false -> status (fst (setStatus p s x)) s = status p s;
  setStatus_other : forall p s x s', s' <> s ->
    status (fst (setStatus p s x)) s' = status p s';
  setStatus_candidate : forall p s x s', s' <> s ->
    candidateObj (fst (setStatus p s x)) s' = candidateObj p s';
  setStatus_installed : forall p s x s',
    installedObj (fst (setStatus p s x)) s' = installedObj p s';
  setStatus_licence : forall p s x s',
    hasLicenceConfirmed (fst (setStatus p s x)) s' = hasLicenceConfirmed p s';
  taboo_possible : forall p s,
    status p s = S_Install \/ status p s = S_AutoInstall ->
    snd (setStatus p s S_Taboo) = true;
  protected_possible : forall p s,
    status p s = S_Update \/ status p s = S_AutoUpdate ->
    snd (setStatus p s S_Protected) = true;
  licence_set : forall p s b, hasLicenceConfirmed (setLicenceConfirmed p s b) s = b;
  licence_other : forall p s b s', s' <> s ->
    hasLicenceConfirmed (setLicenceConfirmed p s b) s' = hasLicenceConfirmed p s';
  licence_status : forall p s b s',
    status (setLicenceConfirmed p s b) s' = status p s';
  licence_candidate : forall p s b s',
    candidateObj (setLicenceConfirmed p s b) s' = candidateObj p s';
}.

(** The versions of one selectable: picking one changes the status of that
    version only and no list of versions. *)
Class PickLaws `{Zypp} : Prop := {
  pick_done : forall p s o x, snd (setPickStatus p s o x) = true ->
    pickStatus (fst (setPickStatus p s o x)) s o = x;
  pick_refused : forall p s o x, snd (setPickStatus p s o x) = false ->
    pickStatus (fst (setPickStatus p s o x)) s o = pickStatus p s o;
  pick_other : forall p s o x o', o' <> o ->
    pickStatus (fst (setPickStatus p s o x)) s o' = pickStatus p s o';
  pick_availables : forall p s o x s',
    availables (fst (setPickStatus p s o x)) s' = availables p s';
}.

(** What has to hold of a selectable before the installation starts: the
    licence of what is going to be installed is confirmed. *)
Definition settled `{Zypp} (p : pool) (s : sel) : Prop :=
  installing (status p s) = true ->
  forall o, candidateObj p s = Some o -> licenseToConfirm o <> EmptyString ->
  hasLicenceConfirmed p s = true.

Section status_facts.
Context `{ZyppLaws}.

Lemma setStatus_cases (p : pool) (s : sel) (x : ZyppStatus) :
  status (fst (setStatus p s x)) s = x
  \/ status (fst (setStatus p s x)) s = status p s.
Proof.
  destruct (snd (setStatus p s x)) eqn:E.
  - left. by apply setStatus_done.
  - right. by apply setStatus_refused.
Qed.

Lemma setStatus_settled (p : pool) (s s' : sel) (x : ZyppStatus) :
  installing x = false -> snd (setStatus p s x) = true ->
  settled p s' -> settled (fst (setStatus p s x)) s'.
Proof.
  intros Hx Hd Hs. destruct (decide (s' = s)) as [->|Hne]; intros Hi o Ho Hl.
  - rewrite (setStatus_done _ _ _ Hd) in Hi. congruence.
  - rewrite setStatus_licence. rewrite (setStatus_other _ _ _ _ Hne) in Hi.
    rewrite (setStatus_candidate _ _ _ _ Hne) in Ho. by apply (Hs Hi o).
Qed.

Lemma licence_settled (p : pool) (s s' : sel) :
  settled p s' -> settled (setLicenceConfirmed p s true) s'.
Proof.
  intros Hs Hi o Ho Hl. destruct (decide (s' = s)) as [->|Hne].
  - apply licence_set.
  - rewrite licence_status in Hi. rewrite licence_candidate in Ho.
    rewrite (licence_other _ _ _ _ Hne). by apply (Hs Hi o).
Qed.

(** The lock that replaces a status whose licence is refused: the switch at
    the end of both [showLicenseAgreement()]. *)
Definition lockFor (x : ZyppStatus) : option ZyppStatus :=
  match x with
  | S_Install | S_AutoInstall => Some S_Taboo
  | S_Update | S_AutoUpdate => Some S_Protected
  | _ => None
  end.

Lemma lock_possible (p : pool) (s : sel) (x : ZyppStatus) :
  lockFor (status p s) = Some x ->
  snd (setStatus p s x) = true /\ locked x = true /\ installing x = false.
Proof.
  destruct (status p s) eqn:E; simpl; intros Hx; try discriminate Hx;
    injection Hx as <-; (split; [|done]);
    first [apply taboo_possible|apply protected_possible]; auto.
Qed.

(** What a pass over the selectables [l] does to the pool, where [c] says that
    no licence was refused. *)
Record passes (l : list sel) (c : bool) (p p' : pool) : Prop := {
  passes_settled : forall s, s ∈ l -> settled p' s;
  passes_keeps : forall s, settled p s -> settled p' s;
  passes_locks : forall s, locked (status p s) = true -> locked (status p' s) = true;
  passes_confirmed : c = true -> forall s, status p' s = status p s;
  passes_refused : c = false -> exists s, s ∈ l
    /\ locked (status p s) = false /\ locked (status p' s) = true;
}.

Lemma passes_nil (p : pool) : passes [] true p p.
Proof. split; try done. intros s Hs. by apply elem_of_nil in Hs. Qed.

Lemma passes_app (l1 l2 : list sel) (c1 c2 : bool) (p p1 p2 : pool) :
  passes l1 c1 p p1 -> passes l2 c2 p1 p2 -> passes (l1 ++ l2) (c2 && c1) p p2.
Proof.
  intros [S1 K1 L1 C1 R1] [S2 K2 L2 C2 R2]. split.
  - intros s [Hs|Hs]%elem_of_app; [by apply K2, S1|by apply S2].
  - intros s Hs. by apply K2, K1.
  - intros s Hs. by apply L2, L1.
  - intros [-> ->]%andb_prop s. by rewrite C2, C1.
  - intros [->| ->]%andb_false_iff.
    + destruct (R2 eq_refl) as (s & Hs & Hf & Ht). exists s.
      split; [apply elem_of_app; by right|split; [|done]].
      destruct (locked (status p s)) eqn:E; [|done]. rewrite (L1 _ E) in Hf. done.
    + destruct (R1 eq_refl) as (s & Hs & Hf & Ht). exists s.
      split; [apply elem_of_app; by left|split; [done|by apply L2]].
Qed.

Lemma passes_settled_already (p : pool) (s : sel) : settled p s -> passes [s] true p p.
Proof. intros Hs. split; try done. by intros s' ->%list_elem_of_singleton. Qed.

Lemma passes_licensed (p : pool) (s : sel) :
  passes [s] true p (setLicenceConfirmed p s true).
Proof.
  split.
  - intros s' ->%list_elem_of_singleton Hi o Ho Hl. apply licence_set.
  - intros s'. apply licence_settled.
  - intros s'. by rewrite licence_status.
  - intros _ s'. by rewrite licence_status.
  - done.
Qed.

Lemma passes_lock (p : pool) (s : sel) (x : ZyppStatus) :
  lockFor (status p s) = Some x -> passes [s] false p (fst (setStatus p s x)).
Proof.
  intros Hx. destruct (lock_possible _ _ _ Hx) as (Hd & Hlk & Hni).
  assert (Hs := setStatus_done _ _ _ Hd).
  assert (Hfree : locked (status p s) = false).
  { destruct (status p s); try done; discriminate Hx. }
  split.
  - intros s' ->%list_elem_of_singleton Hi. rewrite Hs in Hi. congruence.
  - intros s'. by apply setStatus_settled.
  - intros s' Hl. destruct (decide (s' = s)) as [->|Hne]; [by rewrite Hs|].
    by rewrite setStatus_other.
  - done.
  - intros _. exists s. rewrite Hs. split; [by apply list_elem_of_singleton|done].
Qed.

(** The measure of the loops that end when no licence is refused any more. *)
Definition lockCount (l : list sel) (p : pool) : nat :=
  List.length (filter (fun s => locked (status p s) = true) l).

Lemma lockCount_le (l : list sel) (p : pool) : (lockCount l p <= List.length l)%nat.
Proof. apply length_filter. Qed.

Lemma lockCount_mono (l : list sel) (p p' : pool) :
  (forall s, locked (status p s) = true -> locked (status p' s) = true) ->
  (lockCount l p <= lockCount l p')%nat.
Proof. intros Hl. unfold lockCount. by apply filter_length_mono. Qed.

Lemma lockCount_passes (l : list sel) (c : bool) (p p' : pool) :
  passes l c p p' ->
  (lockCount l p <= lockCount l p')%nat
  /\ (c = false -> (lockCount l p < lockCount l p')%nat).
Proof.
  intros Hp. split; [apply lockCount_mono, Hp|]. intros Hc.
  destruct (passes_refused _ _ _ _ Hp Hc) as (s & Hs & Hf & Ht).
  unfold lockCount. apply (filter_length_strict _ _ _ s); [apply Hp|done|congruence|done].
Qed.
End status_facts.

(** ** The pass over the pending licences

    Both selectors have the same two functions
    [showPendingLicenseAgreements()]; they differ in what one step does. [W] is
    the state of the selector and [step] returns whether the licence of a
    selectable was not refused. *)
Section pending.
Context `{Zypp} {W : Type} (poolOf : W -> pool) (step : sel -> W -> bool * W).

Fixpoint pendingIn (l : list sel) (allConfirmed : bool) (w : W) : bool * W :=
  match l with
  | [] => (allConfirmed, w)
  | s :: l' =>
      let '(confirmed, w1) := step s w in
      pendingIn l' (confirmed && allConfirmed) w1
  end.

Definition pendingAll (withPatches : bool) (w : W) : bool * W :=
  let '(allConfirmed, w1) := if withPatches then pendingIn patches true w else (true, w) in
  let '(confirmed, w2) := pendingIn packages true w1 in
  (confirmed && allConfirmed, w2).

(** What is checked for licences: the packages, and the patches in the mode
    for online updates. *)
Definition scope (withPatches : bool) : list sel :=
  if withPatches then (patches ++ packages)%list else packages.

Context (step_passes : forall s w,
  passes [s] (fst (step s w)) (poolOf w) (poolOf (snd (step s w)))).

Lemma pendingIn_passes (l : list sel) (a : bool) (w : W) :
  exists c, fst (pendingIn l a w) = c && a
            /\ passes l c (poolOf w) (poolOf (snd (pendingIn l a w))).
Proof.
  revert a w. induction l as [|s l IH]; intros a w; cbn [pendingIn].
  - exists true. split; [done|apply passes_nil].
  - assert (Hs := step_passes s w).
    destruct (step s w) as [c1 w1]. cbn [fst snd] in Hs.
    destruct (IH (c1 && a) w1) as (c & -> & Hp).
    exists (c && c1). split; [by rewrite andb_assoc|].
    by apply (passes_app [s] l c1 c _ _ _ Hs).
Qed.

Lemma pendingAll_passes (withPatches : bool) (w : W) :
  passes (scope withPatches) (fst (pendingAll withPatches w)) (poolOf w)
         (poolOf (snd (pendingAll withPatches w))).
Proof.
  unfold pendingAll, scope. destruct withPatches.
  - destruct (pendingIn_passes patches true w) as (c1 & E1 & P1).
    destruct (pendingIn patches true w) as [a w1]. cbn [fst snd] in E1, P1. subst a.
    destruct (pendingIn_passes packages true w1) as (c2 & E2 & P2).
    destruct (pendingIn packages true w1) as [b w2]. cbn [fst snd] in *. subst b.
    rewrite !andb_true_r. by apply (passes_app _ _ _ _ _ _ _ P1).
  - destruct (pendingIn_passes packages true w) as (c2 & E2 & P2).
    destruct (pendingIn packages true w) as [b w2]. cbn [fst snd] in *. subst b.
    by rewrite !andb_true_r.
Qed.
End pending.

(** ** A small pool *)
Module ZyppSamples.

Record version : Type := Version {
  v_edition : Z;
  v_license : string;
  v_retracted : bool;
  v_multi : bool;
}.

#[export] Instance version_eq_dec : EqDecision version.
Proof. solve_decision. Defined.

Record entry : Type := Entry {
  e_status : ZyppStatus;
  e_licence : bool;
  e_installed : option version;
  e_candidate : option version;
  e_available : list version;
  e_pick : version -> ZyppStatus;
}.

Definition entries : Type := nat -> entry.

Definition change (p : entries) (s : nat) (f : entry -> entry) : entries :=
  fun s' => if decide (s' = s) then f (p s') else p s'.

(** A status has to fit whether the package is installed; what is going to be
    installed can be locked. *)
Definition possible (e : entry) (x : ZyppStatus) : bool :=
  Bool.eqb (ofInstalled x) (bool_decide (is_Some (e_installed e)))
  || bool_decide (lockFor (e_status e) = Some x).

Definition putStatus (x : ZyppStatus) (e : entry) : entry :=
  Entry x (e_licence e) (e_installed e) (e_candidate e) (e_available e) (e_pick e).
Definition putLicence (b : bool) (e : entry) : entry :=
  Entry (e_status e) b (e_installed e) (e_candidate e) (e_available e) (e_pick e).
Definition putCandidate (o : version) (e : entry) : entry :=
  Entry (e_status e) (e_licence e) (e_installed e) (Some o) (e_available e) (e_pick e).
Definition putPick (o : version) (x : ZyppStatus) (e : entry) : entry :=
  Entry (e_status e) (e_licence e) (e_installed e) (e_candidate e) (e_available e)
        (fun o' => if decide (o' = o) then x else e_pick e o').

Definition names : list string := ["a"; "b"; "c"]%string.

#[export] Instance sampleZypp : Zypp := {
  pool := entries;
  sel := nat;
  obj := version;
  status p s := e_status (p s);
  setStatus p s x :=
    if possible (p s) x then (change p s (putStatus x), true) else (p, false);
  hasLicenceConfirmed p s := e_licence (p s);
  setLicenceConfirmed p s b := change p s (putLicence b);
  installedObj p s := e_installed (p s);
  candidateObj p s := e_candidate (p s);
  theObj p s := match e_candidate (p s) with
                | Some o => Some o
                | None => e_installed (p s)
                end;
  updateCandidateObj p s := e_candidate (p s);
  setOnSystem p s o := (change p s (putStatus S_Update), true);
  setCandidate p s o := (change p s (putCandidate o), true);
  availables p s := e_available (p s);
  pickStatus p s o := e_pick (p s) o;
  setPickStatus p s o x := (change p s (putPick o x), true);
  toModify p s := match e_status (p s) with
                  | S_NoInst | S_KeepInstalled | S_Taboo | S_Protected => false
                  | _ => true
                  end;
  modifiedByUser p s := match e_status (p s) with
                        | S_AutoInstall | S_AutoUpdate | S_AutoDel => false
                        | _ => true
                        end;
  selName s := nth s names EmptyString;
  selMultiversion p s := existsb v_multi (e_available (p s));
  licenseToConfirm := v_license;
  insnotify o := EmptyString;
  delnotify o := EmptyString;
  isRetracted := v_retracted;
  multiversionInstall := v_multi;
  isPattern o := false;
  edition := v_edition;
  arch o := EmptyString;
  vendor o := EmptyString;
  isToBeInstalled p o := false;
  isRelevant p o := true;
  isBroken p o := false;
  resolvePool p := (p, true);
  userWantedPackageNames p := [];
  packages := [0%nat; 1%nat; 2%nat];
  patches := [];
  diffState p := false;
  restoreState p := p;
}.

Lemma change_same (p : entries) (s : nat) (f : entry -> entry) : change p s f s = f (p s).
Proof. unfold change. by rewrite decide_True. Qed.

Lemma change_other (p : entries) (s s' : nat) (f : entry -> entry) :
  s' <> s -> change p s f s' = p s'.
Proof. intros Hne. unfold change. by rewrite decide_False. Qed.

Lemma change_field {A} (g : entry -> A) (p : entries) (s s' : nat) (f : entry -> entry) :
  (forall e, g (f e) = g e) -> g (change p s f s') = g (p s').
Proof. intros Hg. unfold change. case_decide; [apply Hg|done]. Qed.

#[export] Instance sampleLaws : ZyppLaws.
Proof.
  split; cbn.
  - intros p s x. destruct (possible (p s) x); [|done]. intros _. cbn. by rewrite change_same.
  - intros p s x. by destruct (possible (p s) x).
  - intros p s x s' Hne. destruct (possible (p s) x); [|done]. cbn. by rewrite change_other.
  - intros p s x s' Hne. destruct (possible (p s) x); [|done]. cbn. by rewrite change_other.
  - intros p s x s'. destruct (possible (p s) x); [|done]. cbn. by apply (change_field e_installed).
  - intros p s x s'. destruct (possible (p s) x); [|done]. cbn. by apply (change_field e_licence).
  - intros p s Hs. unfold possible. rewrite (bool_decide_eq_true_2 (lockFor _ = _));
      [by rewrite orb_true_r|]. by destruct Hs as [-> | ->].
  - intros p s Hs. unfold possible. rewrite (bool_decide_eq_true_2 (lockFor _ = _));
      [by rewrite orb_true_r|]. by destruct Hs as [-> | ->].
  - intros p s b. by rewrite change_same.
  - intros p s b s' Hne. by rewrite change_other.
  - intros p s b s'. by apply (change_field e_status).
  - intros p s b s'. by apply (change_field e_candidate).
Qed.

#[export] Instance samplePicks : PickLaws.
Proof.
  split; cbn.
  - intros p s o x _. rewrite change_same. cbn. by rewrite decide_True.
  - done.
  - intros p s o x o' Hne. rewrite change_same. cbn. by rewrite decide_False.
  - intros p s o x s'. by apply (change_field e_available).
Qed.

(** Package 0 is deleted by the solver, package 1 is not installed and has a
    licence, package 2 is going to be installed and has a licence too. *)
Definition old : version := Version 1 EmptyString false false.
Definition licensed : version := Version 2 "GPL" false false.
Definition retracted : version := Version 3 "GPL" true true.

Definition sample : entries := fun s =>
  match s with
  | 0%nat => Entry S_AutoDel false (Some old) None [old] (fun _ => S_KeepInstalled)
  | 1%nat => Entry S_NoInst false None (Some licensed) [licensed; retracted]
                   (fun _ => S_NoInst)
  | _ => Entry S_AutoInstall false None (Some licensed) [licensed] (fun _ => S_NoInst)
  end.

End ZyppSamples.
