(* ===== verification/PkgStatus.v ===== *)
(** * The status of packages in the text mode package selector

    Module [NCPkg]: the strategies that turn keys into status values and pass
    them to libzypp (src/libyui-ncurses-pkg/src/NCPkgStatusStrategy.cc), the
    package table that asks for licences before it changes a status
    (NCPkgTable.cc), and the handlers of the OK and Cancel buttons
    (NCPackageSelector.cc, with the table of automatic changes of
    NCPkgPopupTable.cc). The pool is the interface of Zypp.v; the dependency
    popup, which runs the solver and applies the solutions the user picks, is
    the argument [checkNow], and the user's answers to the other popups are
    the sequence [answer]. *)
From S2P Require Import Prelude Zypp.
From Stdlib Require Import String.
Local Open Scope Z_scope.

Module NCPkg.

(** The subclasses of [NCPkgStatusStrategy]. *)
Inductive strategy : Type :=
| PackageStatStrategy
| PatchStatStrategy
| SelectionStatStrategy
| DependencyStatStrategy
| AvailableStatStrategy
| MultiVersionStatStrategy
| UpdateStatStrategy
| PatchPkgStatStrategy.

Inductive NCPkgTableType : Type :=
| T_Packages
| T_Availables
| T_Patches
| T_Update
| T_PatchPkgs
| T_Selections
| T_Languages
| T_MultiVersion
| T_Unknown.

#[export] Instance NCPkgTableType_eq_dec : EqDecision NCPkgTableType.
Proof. solve_decision. Defined.

Inductive NCPkgTableListAction : Type :=
| A_Install
| A_Delete
| A_Keep
| A_UpdateNewer
| A_Update
| A_Unknown.

(** [NCPkgTableTag::statusToString] *)
Definition statusToString (stat : ZyppStatus) : string :=
  match stat with
  | S_NoInst => "    "
  | S_KeepInstalled => "  i "
  | S_Install => "  + "
  | S_Del => "  - "
  | S_Update => "  > "
  | S_AutoInstall => " a+ "
  | S_AutoDel => " a- "
  | S_AutoUpdate => " a> "
  | S_Taboo => " ---"
  | S_Protected => " -i-"
  end%string.

Section selector.
Context `{ZY : Zypp}.

(** [NCPkgTableTag]: the first cell of a line with its pointers; [isCandidate]
    is the mark in the third column of a table of available versions. *)
Record tag : Type := Tag {
  dataPointer : option obj;
  selPointer : option sel;
  tagStatus : ZyppStatus;
  label : string;
  isCandidate : bool;
}.

Record table : Type := Table {
  packager : bool;
  statusStrategy : strategy;
  tableType : NCPkgTableType;
  lines : list tag;
}.

(** The pool, the number of questions asked so far, the notices shown, the
    package list of the selector and the names [insertVerifiedPkg()] has
    collected. *)
Record world : Type := World {
  zpool : pool;
  asked : nat;
  notices : list string;
  packageList : option table;
  verifiedPkgs : list string;
}.

Definition withPool (w : world) (p : pool) : world :=
  World p (asked w) (notices w) (packageList w) (verifiedPkgs w).
Definition notice (w : world) (text : string) : world :=
  World (zpool w) (asked w) (notices w ++ [text]) (packageList w) (verifiedPkgs w).
Definition withList (w : world) (t : option table) : world :=
  World (zpool w) (asked w) (notices w) t (verifiedPkgs w).
Definition withVerified (w : world) (names : list string) : world :=
  World (zpool w) (asked w) (notices w) (packageList w) names.

Context (answer : nat -> bool).

(** A popup with two buttons: [true] unless the user cancels it. *)
Definition ask (w : world) : bool * world :=
  (answer (asked w),
   World (zpool w) (S (asked w)) (notices w) (packageList w) (verifiedPkgs w)).

Definition select (w : world) (s : sel) (x : ZyppStatus) : bool * world :=
  let '(p, ok) := setStatus (zpool w) s x in (ok, withPool w p).

(** ** The strategies *)

Definition getPackageStatus (st : strategy) (p : pool) (slbPtr : option sel)
    (objPtr : option obj) : ZyppStatus :=
  match st with
  | MultiVersionStatStrategy =>
      match slbPtr, objPtr with
      | Some slb, Some o => pickStatus p slb o
      | _, _ => S_NoInst
      end
  | _ =>
      match slbPtr with
      | Some slb => status p slb
      | None => S_NoInst
      end
  end.

(** [NCPkgStatusStrategy::keyToStatus], [None] when it returns [false]. *)
Definition base_keyToStatus (st : strategy) (key : Z) (p : pool)
    (slbPtr : option sel) (objPtr : option obj) : option ZyppStatus :=
  match slbPtr with
  | None => None
  | Some slb =>
      let oldStatus := getPackageStatus st p slbPtr objPtr in
      let installed := negb (installedEmpty p slb) in
      if key =? 45 then
        if installed then Some S_Del else Some S_NoInst
      else if key =? 43 then
        match oldStatus with
        | S_NoInst | S_AutoInstall => Some S_Install
        | S_Del | S_AutoDel => Some S_KeepInstalled
        | S_AutoUpdate => Some S_Update
        | _ => None
        end
      else if key =? 62 then
        match oldStatus with
        | S_KeepInstalled | S_Del | S_AutoDel =>
            if hasCandidateObj p slb then Some S_Update else Some S_NoInst
        | _ => None
        end
      else if key =? 60 then
        match oldStatus with
        | S_Install | S_AutoInstall => Some S_NoInst
        | S_Update | S_AutoUpdate => Some S_KeepInstalled
        | _ => Some S_NoInst
        end
      else if key =? 33 then
        if negb installed then Some S_Taboo else Some S_NoInst
      else if key =? 42 then
        if installed then Some S_Protected else Some S_NoInst
      else None
  end.

(** [PatchStatStrategy::keyToStatus] *)
Definition patch_keyToStatus (key : Z) (p : pool) (slbPtr : option sel)
    (objPtr : option obj) : option ZyppStatus :=
  match slbPtr with
  | None => None
  | Some slb =>
      match candidateObj p slb with
      | None => None
      | Some cand =>
          let oldStatus := getPackageStatus PatchStatStrategy p slbPtr objPtr in
          let toBeInst := isToBeInstalled p cand in
          if key =? 45 then
            if toBeInst then Some S_NoInst
            else if bool_decide (oldStatus = S_Taboo) then
              if isBroken p cand then Some S_Install else Some S_NoInst
            else None
          else if key =? 43 then
            if isRelevant p cand
               && (bool_decide (oldStatus = S_NoInst)
                   || bool_decide (oldStatus = S_AutoInstall)
                   || bool_decide (oldStatus = S_KeepInstalled))
            then Some S_Install
            else None
          else if key =? 33 then Some S_Taboo
          else None
      end
  end.

Definition keyToStatus (st : strategy) (key : Z) (p : pool) (slbPtr : option sel)
    (objPtr : option obj) : option ZyppStatus :=
  match st with
  | PatchStatStrategy => patch_keyToStatus key p slbPtr objPtr
  | _ => base_keyToStatus st key p slbPtr objPtr
  end.

(** [NCPkgStatusStrategy::cycleStatus] *)
Definition base_cycleStatus (st : strategy) (p : pool) (slbPtr : option sel)
    (objPtr : option obj) : option ZyppStatus :=
  match slbPtr with
  | None => None
  | Some slb =>
      let patPtr := match objPtr with Some o => isPattern o | None => false end in
      Some match getPackageStatus st p slbPtr objPtr with
           | S_Del => S_KeepInstalled
           | S_Install => S_NoInst
           | S_Update => S_Del
           | S_KeepInstalled =>
               if patPtr then S_Install
               else if hasCandidateObj p slb then S_Update
               else S_Del
           | S_NoInst =>
               if hasCandidateObj p slb || patPtr then S_Install else S_NoInst
           | S_AutoInstall => S_NoInst
           | S_AutoDel => S_KeepInstalled
           | S_AutoUpdate => S_KeepInstalled
           | S_Taboo => S_NoInst
           | S_Protected => S_KeepInstalled
           end
  end.

(** [PatchStatStrategy::cycleStatus] *)
Definition patch_cycleStatus (p : pool) (slbPtr : option sel) (objPtr : option obj)
    : option ZyppStatus :=
  match slbPtr with
  | None => None
  | Some slb =>
      match candidateObj p slb with
      | None => None
      | Some cand =>
          let oldStatus := getPackageStatus PatchStatStrategy p slbPtr objPtr in
          Some match oldStatus with
               | S_Install | S_AutoInstall => S_NoInst
               | S_KeepInstalled => S_Install
               | S_NoInst => S_Install
               | S_Taboo => if isBroken p cand then S_Install else S_NoInst
               | _ => oldStatus
               end
      end
  end.

Definition cycleStatus (st : strategy) (p : pool) (slbPtr : option sel)
    (objPtr : option obj) : option ZyppStatus :=
  match st with
  | PatchStatStrategy => patch_cycleStatus p slbPtr objPtr
  | _ => base_cycleStatus st p slbPtr objPtr
  end.

(** [AvailableStatStrategy::setObjectStatus]: makes the object the candidate;
    the status it sets follows from the present one. *)
Definition availableStatus (p : pool) (slb : sel) (o : obj) : ZyppStatus :=
  let same := match installedObj p slb with
              | Some inst => (edition inst =? edition o)
                             && String.eqb (vendor inst) (vendor o)
              | None => false
              end in
  if same then S_KeepInstalled
  else match status p slb with
       | S_KeepInstalled | S_Protected | S_AutoDel | S_AutoUpdate | S_Del | S_Update =>
           S_Update
       | S_NoInst | S_Taboo | S_Install | S_AutoInstall => S_Install
       end.

Definition available_setObjectStatus (slb : sel) (o : obj) (w : world) : bool * world :=
  if bool_decide (candidateObj (zpool w) slb = Some o) then (false, w)
  else
    let stat := availableStatus (zpool w) slb o in
    let '(p, ok) := setCandidate (zpool w) slb o in
    if ok then select (withPool w p) slb stat else (false, withPool w p).

(** [MultiVersionStatStrategy::anyMultiVersionToInstall] *)
Definition anyMultiVersionToInstall (p : pool) (slb : sel) (multiversion : bool) : bool :=
  existsb (fun o =>
             Bool.eqb (multiversionInstall o) multiversion
             && match pickStatus p slb o with
                | S_Install | S_AutoInstall => true
                | S_KeepInstalled => true
                | _ => false
                end) (availables p slb).

(** [MultiVersionStatStrategy::setObjectStatus] *)
Definition multi_setObjectStatus (newstatus : ZyppStatus) (slb : sel) (o : obj)
    (w : world) : bool * world :=
  if anyMultiVersionToInstall (zpool w) slb (negb (multiversionInstall o)) then
    let '(yes, w1) := ask w in
    if yes then
      let '(p, ok) := setPickStatus (zpool w1) slb o newstatus in (ok, withPool w1 p)
    else (false, w1)
  else
    let '(p, ok) := setPickStatus (zpool w) slb o newstatus in (ok, withPool w p).

(** [setObjectStatus()] of every strategy. *)
Definition setObjectStatus (st : strategy) (newstatus : ZyppStatus)
    (slbPtr : option sel) (objPtr : option obj) (w : world) : bool * world :=
  match st, slbPtr with
  | PatchPkgStatStrategy, _ => (false, w)
  | _, None => (false, w)
  | (PackageStatStrategy | DependencyStatStrategy | UpdateStatStrategy), Some slb =>
      select w slb newstatus
  | PatchStatStrategy, Some slb =>
      let '(ok, w1) := select w slb newstatus in
      (ok, withPool w1 (fst (resolvePool (zpool w1))))
  | SelectionStatStrategy, Some slb =>
      match objPtr with
      | Some _ => select w slb newstatus
      | None => (false, w)
      end
  | AvailableStatStrategy, Some slb =>
      match objPtr with
      | Some o => available_setObjectStatus slb o w
      | None => (false, w)
      end
  | MultiVersionStatStrategy, Some slb =>
      match objPtr with
      | Some o => multi_setObjectStatus newstatus slb o w
      | None => (false, w)
      end
  end.

(** ** The package table *)

(** The cell that [updateTable()] leaves in a line. *)
Definition updateTag (st : strategy) (tt : NCPkgTableType) (p : pool) (l : tag) : tag :=
  match selPointer l, dataPointer l with
  | Some slb, Some o =>
      if bool_decide (tt = T_Availables) && negb (selMultiversion p slb) then
        Tag (dataPointer l) (selPointer l) (tagStatus l) (label l)
            (bool_decide (candidateObj p slb = Some o))
      else
        let newstatus := getPackageStatus st p (Some slb) (Some o) in
        if bool_decide (tagStatus l <> newstatus) then
          Tag (dataPointer l) (selPointer l) newstatus (statusToString newstatus)
              (isCandidate l)
        else l
  | _, _ => l
  end.

Definition updateTable (t : table) (p : pool) : table :=
  Table (packager t) (statusStrategy t) (tableType t)
        (map (updateTag (statusStrategy t) (tableType t) p) (lines t)).

(** [NCPackageSelector::updatePackageList] *)
Definition updatePackageList (w : world) : world :=
  withList w (match packageList w with
              | Some t => Some (updateTable t (zpool w))
              | None => None
              end).

(** The dependency popup: whether the user cancels it, and what the solver and
    the chosen solutions leave behind. *)
Context (checkNow : world -> bool * world).
Context (autoCheck : bool).

Definition showPackageDependencies (doit : bool) (w : world) : bool * world :=
  if doit || autoCheck then checkNow w else (false, w).

(** The question for a retracted object, then the one for its licence: whether
    both are confirmed. *)
Definition confirmObject (newstatus : ZyppStatus) (slb : sel) (objPtr : option obj)
    (w : world) : bool * world :=
  match objPtr with
  | None => (true, w)
  | Some o =>
      if installing newstatus then
        let '(confirmed, w1) := if isRetracted o then ask w else (true, w) in
        let license := if confirmed then licenseToConfirm o else EmptyString in
        if String.eqb license EmptyString then (confirmed, w1)
        else
          let '(confirmed2, w2) :=
            if hasLicenceConfirmed (zpool w1) slb then (confirmed, w1) else ask w1 in
          if confirmed2
          then (true, withPool w2 (setLicenceConfirmed (zpool w2) slb true))
          else (false, w2)
      else (true, w)
  end.

Definition notifyText (newstatus : ZyppStatus) (objPtr : option obj) : string :=
  match objPtr with
  | None => EmptyString
  | Some o =>
      match newstatus with
      | S_Del | S_NoInst | S_Taboo => delnotify o
      | S_Install => insnotify o
      | _ => EmptyString
      end
  end.

(** What [changeStatus()] does after a single change. *)
Definition afterChange (t : table) (w : world) : table * world :=
  let w1 := match tableType t with
            | T_Packages | T_PatchPkgs | T_Update => snd (showPackageDependencies false w)
            | T_Availables => snd (showPackageDependencies false w)
            | T_Selections => snd (showPackageDependencies true w)
            | T_Patches => snd (showPackageDependencies false w)
            | _ => w
            end in
  let t1 := updateTable t (zpool w1) in
  (t1, match tableType t with
       | T_Availables | T_MultiVersion => updatePackageList w1
       | _ => w1
       end).

Definition changeStatus (t : table) (newstatus : ZyppStatus) (slbPtr : option sel)
    (objPtr : option obj) (singleChange : bool) (w : world) : bool * table * world :=
  match packager t, slbPtr with
  | true, Some slb =>
      let notify := notifyText newstatus objPtr in
      let '(confirmed, w1) := confirmObject newstatus slb objPtr w in
      let newstatus1 := if confirmed then newstatus
                        else default newstatus (lockFor newstatus) in
      let w2 := if confirmed && negb (String.eqb notify EmptyString)
                then notice w1 notify else w1 in
      let '(ok, w3) := setObjectStatus (statusStrategy t) newstatus1 slbPtr objPtr w2 in
      if ok && singleChange then
        let '(t1, w4) := afterChange t w3 in (ok, t1, w4)
      else (ok, t, w3)
  | _, _ => (false, t, w)
  end.

(** The pointers of a line; a line that does not exist has none. *)
Definition getSelPointer (t : table) (index : nat) : option sel :=
  lines t !! index ≫= selPointer.
Definition getDataPointer (t : table) (index : nat) : option obj :=
  lines t !! index ≫= dataPointer.

(** [cycleObjStatus()] and [changeObjStatus()] on the current line. *)
Definition cycleObjStatus (t : table) (current : nat) (w : world) : table * world :=
  let slbPtr := getSelPointer t current in
  let objPtr := getDataPointer t current in
  match slbPtr with
  | None => (t, w)
  | Some _ =>
      match cycleStatus (statusStrategy t) (zpool w) slbPtr objPtr with
      | Some newStatus =>
          let '(_, t1, w1) := changeStatus t newStatus slbPtr objPtr true w in (t1, w1)
      | None => (t, w)
      end
  end.

Definition changeObjStatus (t : table) (current : nat) (key : Z) (w : world)
    : table * world :=
  let slbPtr := getSelPointer t current in
  let objPtr := getDataPointer t current in
  match slbPtr with
  | None => (t, w)
  | Some _ =>
      match keyToStatus (statusStrategy t) key (zpool w) slbPtr objPtr with
      | Some newStatus =>
          let '(_, t1, w1) := changeStatus t newStatus slbPtr objPtr true w in (t1, w1)
      | None => (t, w)
      end
  end.

(** [wHandleInput()]: the keys that change a status; 32 is the space bar and
    10 the return key. *)
Definition wHandleInput (t : table) (current : nat) (key : Z) (w : world)
    : table * world :=
  if (key =? 32) || (key =? 10) then cycleObjStatus t current w
  else if (key =? 45) || (key =? 43) || (key =? 62) || (key =? 60) || (key =? 33)
          || (key =? 42)
  then changeObjStatus t current key w
  else (t, w).

(** One line of [changeListObjStatus()]. *)
Definition listStep (t : table) (type : NCPkgTableListAction) (l : tag) (w : world)
    : world :=
  match selPointer l with
  | None => w
  | Some slb =>
      let p := zpool w in
      let key k p := keyToStatus (statusStrategy t) k p (Some slb) (dataPointer l) in
      let deletable := negb (installedEmpty p slb)
                       && bool_decide (status p slb <> S_Protected) in
      let '(new, w1) :=
        match type with
        | A_Install => (if bool_decide (status p slb = S_NoInst) then key 43 p else None, w)
        | A_Delete => (if deletable then key 45 p else None, w)
        | A_UpdateNewer =>
            match updateCandidateObj p slb with
            | Some cand =>
                if deletable then
                  let p1 := fst (setOnSystem p slb cand) in (key 62 p1, withPool w p1)
                else (None, w)
            | None => (None, w)
            end
        | A_Update => (if deletable then key 62 p else None, w)
        | A_Keep =>
            (match status p slb with
             | S_Install | S_AutoInstall | S_Update | S_AutoUpdate => key 60 p
             | S_Del | S_AutoDel => key 43 p
             | _ => None
             end, w)
        | A_Unknown => (None, w)
        end in
      match new with
      | Some newStatus =>
          let '(_, _, w2) := changeStatus t newStatus (Some slb) (dataPointer l) false w1 in
          w2
      | None => w1
      end
  end.

Definition changeListObjStatus (t : table) (type : NCPkgTableListAction) (w : world)
    : table * world :=
  let w1 := fold_left (fun w l => listStep t type l w) (lines t) w in
  let w2 := snd (showPackageDependencies false w1) in
  (updateTable t (zpool w2), w2).

(** ** The OK button *)

(** [NCPackageSelector::showLicenseAgreement] *)
Definition showLicenseAgreement (slb : sel) (w : world) : bool * world :=
  let '(license_confirmed, w1) := ask w in
  if license_confirmed
  then (true, withPool w1 (setLicenceConfirmed (zpool w1) slb true))
  else
    (false, match lockFor (status (zpool w1) slb) with
            | Some x => snd (select w1 slb x)
            | None => w1
            end).

(** One step of [showPendingLicenseAgreements( begin, end )]: the licence that
    is pending for a selectable, if any. *)
Definition pendingStep (slb : sel) (w : world) : bool * world :=
  if installing (status (zpool w) slb) then
    match candidateObj (zpool w) slb with
    | Some cand =>
        if negb (String.eqb (licenseToConfirm cand) EmptyString)
           && negb (hasLicenceConfirmed (zpool w) slb)
        then showLicenseAgreement slb w
        else (true, w)
    | None => (true, w)
    end
  else (true, w).

Context (youMode : bool).

Definition showPendingLicenseAgreements (w : world) : bool * world :=
  pendingAll pendingStep youMode w.

(** The loop of [OkButtonHandler()] over the dependency popup and the
    licences. *)
Fixpoint okLoop (fuel : nat) (closeDialog : bool) (w : world) : outcome (bool * world) :=
  match fuel with
  | O => NoFuel
  | S fuel' =>
      let '(cancel, w1) := showPackageDependencies true w in
      let close := if cancel then false else closeDialog in
      let '(confirmedAll, w2) := showPendingLicenseAgreements w1 in
      if negb confirmedAll && close then okLoop fuel' close w2 else Done (close, w2)
  end.

(** How the popup with the automatic changes is left. *)
Inductive popupEnd : Type :=
| EndButton
| EndEscape
| EndCancel.

(** [NCPkgPopupTable::fillAutoChanges]: the lines of the popup and the names
    that are shown. *)
Definition autoChanged (w : world) : list sel :=
  let ignored := (userWantedPackageNames (zpool w) ++ verifiedPkgs w)%list in
  filter (fun slb => toModify (zpool w) slb
                     && negb (modifiedByUser (zpool w) slb)
                     && negb (existsb (String.eqb (selName slb)) ignored)
                     && bool_decide (is_Some (theObj (zpool w) slb)) = true) packages.

Definition autoTag (p : pool) (slb : sel) : tag :=
  Tag (theObj p slb) (Some slb) (status p slb) (statusToString (status p slb)) false.

Context (autoInput : list (nat * Z)) (autoEnd : popupEnd).

(** The popup with the automatic changes: [autoInput] are the keys that reach
    its table, each with the line the cursor is on. [true] when it is not
    cancelled. *)
Definition showAutoChanges (w : world) : bool * world :=
  let changed := autoChanged w in
  let w1 := withVerified w (verifiedPkgs w ++ map selName changed)%list in
  match changed with
  | [] => (true, w1)
  | _ =>
      let t := Table true PackageStatStrategy T_Packages
                     (map (autoTag (zpool w)) changed) in
      let '(_, w2) := fold_left (fun '(t, w) '(index, key) => wHandleInput t index key w)
                                autoInput (t, w1) in
      match autoEnd with
      | EndButton => (true, w2)
      | EndEscape => (false, w2)
      | EndCancel => (false, withVerified w2 [])
      end
  end.

Context (checkDiskSpace : option (pool -> string)).

(** [OkButtonHandler()]: [true] when the dialog is left with the result
    "accept". *)
Definition OkButtonHandler (fuel : nat) (w : world) : outcome (bool * world) :=
  let! looped := okLoop fuel true w in
  let '(close, w1) := looped in
  let '(close1, w2) :=
    if youMode then (close, w1)
    else let '(ok, w2) := showAutoChanges w1 in (if ok then close else false, w2) in
  let '(close2, w3) :=
    match checkDiskSpace with
    | Some message =>
        if String.eqb (message (zpool w2)) EmptyString then (close1, w2)
        else let '(ok, w3) := ask w2 in (if ok then close1 else false, w3)
    | None => (close1, w2)
    end in
  if close2 then Done (true, w3) else Done (false, updatePackageList w3).

(** [CancelHandler()]: [true] when the dialog is left with the result
    "cancel". *)
Definition CancelHandler (w : world) : bool * world :=
  if diffState (zpool w) then
    let '(yes, w1) := ask w in
    if yes then (true, withPool w1 (restoreState (zpool w1))) else (false, w1)
  else (true, withPool w (restoreState (zpool w))).

(** ** Licences that are pending *)

Context {LAWS : ZyppLaws}.

Lemma zpool_select (w : world) (s : sel) (x : ZyppStatus) :
  zpool (snd (select w s x)) = fst (setStatus (zpool w) s x).
Proof. unfold select. by destruct (setStatus (zpool w) s x). Qed.

Lemma pendingStep_passes (s : sel) (w : world) :
  passes [s] (fst (pendingStep s w)) (zpool w) (zpool (snd (pendingStep s w))).
Proof.
  unfold pendingStep.
  destruct (installing (status (zpool w) s)) eqn:Ei;
    [|apply (passes_settled_already (zpool w)); intros Hi; congruence].
  destruct (candidateObj (zpool w) s) as [cand|] eqn:Ec;
    [|apply (passes_settled_already (zpool w)); intros _ o Ho Hl; congruence].
  destruct (String.eqb_spec (licenseToConfirm cand) EmptyString) as [El|El];
    [apply (passes_settled_already (zpool w)); intros _ o Ho Hl; congruence|].
  destruct (hasLicenceConfirmed (zpool w) s) eqn:Eh;
    [apply (passes_settled_already (zpool w)); intros _ o _ _; exact Eh|].
  simpl. unfold showLicenseAgreement. cbn [ask zpool].
  destruct (answer (asked w)); [apply passes_licensed|].
  destruct (lockFor (status (zpool w) s)) as [x|] eqn:Ex.
  - cbn [fst snd]. rewrite zpool_select. by apply passes_lock.
  - destruct (status (zpool w) s); discriminate.
Qed.

Lemma pending_passes (w : world) :
  passes (scope youMode) (fst (showPendingLicenseAgreements w)) (zpool w)
         (zpool (snd (showPendingLicenseAgreements w))).
Proof. apply (pendingAll_passes zpool), pendingStep_passes. Qed.

(** ** The loop of the OK button ends with every licence settled *)

(** The dependency popup leaves locked selectables locked. *)
Definition keepsLocks : Prop := forall w s,
  locked (status (zpool w) s) = true -> locked (status (zpool (snd (checkNow w))) s) = true.

Lemma okLoop_settles (fuel : nat) (close : bool) (w : world) :
  keepsLocks -> (List.length (scope youMode) - lockCount (scope youMode) (zpool w) < fuel)%nat ->
  exists close' w', okLoop fuel close w = Done (close', w')
    /\ forall s, s ∈ scope youMode -> settled (zpool w') s.
Proof.
  intros Hkeep. revert close w. induction fuel as [|fuel IH]; intros close w Hf; [lia|].
  cbn [okLoop]. unfold showPackageDependencies. cbn [orb].
  assert (Hk := lockCount_mono (scope youMode) _ _ (Hkeep w)).
  destruct (checkNow w) as [cancel w1]. cbn [snd] in Hk.
  assert (Hp := pending_passes w1).
  destruct (showPendingLicenseAgreements w1) as [all w2]. cbn [fst snd] in Hp.
  destruct (lockCount_passes _ _ _ _ Hp) as [_ Hlt].
  assert (Hb := lockCount_le (scope youMode) (zpool w2)).
  destruct all; [|destruct (if cancel then false else close)]; cbn [negb andb].
  1, 3: eexists _, _; split; [reflexivity|apply Hp].
  apply IH. specialize (Hlt eq_refl). lia.
Qed.

Lemma showAutoChanges_quiet (w : world) :
  autoInput = [] -> zpool (snd (showAutoChanges w)) = zpool w.
Proof.
  intros E. unfold showAutoChanges. rewrite E. destruct (autoChanged w); [done|].
  cbn [fold_left]. destruct autoEnd; reflexivity.
Qed.

Lemma zpool_updatePackageList (w : world) : zpool (updatePackageList w) = zpool w.
Proof. done. Qed.

(** C27: The handler of the OK button returns, and then the licence of everything
    that is going to be installed is confirmed, whatever the user answers and
    whatever the dependency popup changes: as long as that popup respects the
    locks, and no status is changed in the popup with the automatic changes. *)
Theorem ok_button (fuel : nat) (w : world) :
  keepsLocks -> youMode = true \/ autoInput = [] -> (List.length (scope youMode) < fuel)%nat ->
  exists accepted w', OkButtonHandler fuel w = Done (accepted, w')
    /\ forall s, s ∈ scope youMode -> settled (zpool w') s.
Proof.
  intros Hkeep Hq Hf.
  destruct (okLoop_settles fuel true w Hkeep) as (close & w1 & E & Hs); [lia|].
  unfold OkButtonHandler. rewrite E. cbn [obind].
  set (second := if youMode then _ else _).
  assert (H2 : zpool (snd second) = zpool w1).
  { unfold second. destruct youMode; [done|]. destruct Hq as [|Hq]; [done|].
    rewrite <- (showAutoChanges_quiet w1 Hq). by destruct (showAutoChanges w1). }
  destruct second as [close1 w2]. cbn [snd] in H2.
  set (third := match checkDiskSpace with Some _ => _ | None => _ end).
  assert (H3 : zpool (snd third) = zpool w1).
  { rewrite <- H2. unfold third. destruct checkDiskSpace as [message|]; [|done].
    by destruct (String.eqb (message (zpool w2)) EmptyString). }
  destruct third as [close2 w3]. cbn [snd] in H3. rewrite <- H3 in Hs.
  destruct close2; eexists _, _; (split; [reflexivity|exact Hs]).
Qed.

(** ** Changing the status of a line *)

(** The strategies that pass the status to the selectable and do no more. *)
Definition plain (st : strategy) : bool :=
  match st with
  | PackageStatStrategy | DependencyStatStrategy | UpdateStatStrategy
  | SelectionStatStrategy => true
  | _ => false
  end.

(** No solver run follows the change. *)
Definition quiet (t : table) (singleChange : bool) : Prop :=
  singleChange = false \/ (autoCheck = false /\ tableType t <> T_Selections).

Lemma plain_setObjectStatus (st : strategy) (x : ZyppStatus) (slb : sel) (o : obj)
    (w : world) :
  plain st = true -> setObjectStatus st x (Some slb) (Some o) w = select w slb x.
Proof. by destruct st. Qed.

Lemma afterChange_quiet (t : table) (w : world) :
  quiet t true -> zpool (snd (afterChange t w)) = zpool w.
Proof.
  intros [|[Ha Ht]]; [done|]. unfold afterChange, showPackageDependencies. rewrite Ha.
  by destruct (tableType t).
Qed.

(** What the questions leave behind. *)
Lemma confirmObject_agrees (x : ZyppStatus) (slb : sel) (o : obj) (w : world) :
  let r := confirmObject x slb (Some o) w in
  (forall s, status (zpool (snd r)) s = status (zpool w) s)
  /\ (fst r = true -> installing x = true ->
      (licenseToConfirm o <> EmptyString ->
       hasLicenceConfirmed (zpool (snd r)) slb = true)
      /\ (isRetracted o = true -> answer (asked w) = true))
  /\ (fst r = false -> installing x = true).
Proof.
  unfold confirmObject, ask. destruct (installing x) eqn:Ei; [|done].
  destruct (isRetracted o); [destruct (answer (asked w)) eqn:Ea|]; cbn [zpool asked];
    [|done|].
  all: destruct (String.eqb_spec (licenseToConfirm o) EmptyString) as [El|El]; [done|].
  all: destruct (hasLicenceConfirmed (zpool w) slb);
    [|match goal with |- context [if answer ?n then _ else _] => destruct (answer n) end];
    cbn; try done.
  all: split; [intros s; apply licence_status|].
  all: split; [|done]; intros _ _; split; [intros _; apply licence_set|done].
Qed.

Lemma zpool_notice (b : bool) (w : world) (text : string) :
  zpool (if b then notice w text else w) = zpool w.
Proof. by destruct b. Qed.

Lemma changeStatus_pool (t : table) (x : ZyppStatus) (slb : sel) (o : obj)
    (singleChange : bool) (w : world) :
  plain (statusStrategy t) = true -> packager t = true -> quiet t singleChange ->
  let '(ok, _, w') := changeStatus t x (Some slb) (Some o) singleChange w in
  let '(confirmed, w1) := confirmObject x slb (Some o) w in
  (zpool w', ok) = setStatus (zpool w1) slb
                             (if confirmed then x else default x (lockFor x)).
Proof.
  intros Hst Hpk Hq. unfold changeStatus. rewrite Hpk.
  destruct (confirmObject x slb (Some o) w) as [confirmed w1].
  rewrite (plain_setObjectStatus _ _ _ _ _ Hst). unfold select. rewrite zpool_notice.
  destruct (setStatus (zpool w1) slb _) as [p ok].
  destruct ok, singleChange; cbn [andb]; try done.
  match goal with |- context [afterChange t ?v] =>
    assert (Ha := afterChange_quiet t v Hq); destruct (afterChange t v) end.
  cbn [snd] in Ha. by rewrite Ha.
Qed.

(** C26: In the tables of packages, updates, patterns and dependencies, as long as no
    solver run follows the change: a change of status that libzypp accepts gives
    the requested status, or the lock that replaces it when the user refuses; a
    package is marked for installation only when its licence is confirmed and the
    user has confirmed a retracted version; a change that libzypp refuses changes
    no status, and no change concerns another package. The tables of patches, of
    the available versions of a package and of packages with several versions are
    not meant: there the status is set in another way, and the refusal of a
    licence can be ignored (see [refused_version_installed]). A solver run, which
    may change any package, follows if dependencies are checked automatically or
    a pattern was changed; it does not follow in a change of the whole list. *)
Theorem licence_respected (t : table) (x : ZyppStatus) (slb : sel) (o : obj)
    (singleChange : bool) (w : world) :
  plain (statusStrategy t) = true -> packager t = true -> quiet t singleChange ->
  let '(ok, _, w') := changeStatus t x (Some slb) (Some o) singleChange w in
  (ok = true ->
     (status (zpool w') slb = x \/ lockFor x = Some (status (zpool w') slb))
     /\ (installing (status (zpool w') slb) = true ->
         (licenseToConfirm o <> EmptyString ->
          hasLicenceConfirmed (zpool w') slb = true)
         /\ (isRetracted o = true -> answer (asked w) = true)))
  /\ (ok = false -> status (zpool w') slb = status (zpool w) slb)
  /\ (forall s, s <> slb -> status (zpool w') s = status (zpool w) s).
Proof.
  intros Hst Hpk Hq. assert (Hc := changeStatus_pool t x slb o singleChange w Hst Hpk Hq).
  destruct (changeStatus t x (Some slb) (Some o) singleChange w) as [[ok t'] w'].
  destruct (confirmObject_agrees x slb o w) as (Hsame & Hyes & Hno).
  destruct (confirmObject x slb (Some o) w) as [confirmed w1]. cbn [fst snd] in *.
  set (y := if confirmed then x else default x (lockFor x)) in Hc.
  assert (Hw : zpool w' = fst (setStatus (zpool w1) slb y)) by by rewrite <- Hc.
  assert (Hok : ok = snd (setStatus (zpool w1) slb y)) by by rewrite <- Hc.
  split; [|split].
  - intros ->. rewrite Hw, setStatus_done, setStatus_licence by done. unfold y.
    destruct confirmed; [split; [by left|]; intros Hi; by apply Hyes|].
    specialize (Hno eq_refl). destruct x; try discriminate Hno; split; by auto.
  - intros ->. rewrite Hw, setStatus_refused, Hsame; done.
  - intros s Hs. by rewrite Hw, setStatus_other.
Qed.

(** ** The status a key asks for *)

(** A status for an object that is installed, or for one that is not. *)
Definition fits (p : pool) (slb : sel) (x : ZyppStatus) : Prop :=
  ofInstalled x = negb (installedEmpty p slb).

(** A key asks for a status that fits whether the package is installed, except
    for "not installed" of an installed package: with '>' when there is no
    candidate, with '<' when there is nothing to take back, and with '!'. *)
Theorem key_fits (st : strategy) (key : Z) (p : pool) (slb : sel) (objPtr : option obj)
    (x : ZyppStatus) :
  getPackageStatus st p (Some slb) objPtr = status p slb ->
  fits p slb (status p slb) ->
  base_keyToStatus st key p (Some slb) objPtr = Some x ->
  fits p slb x
  \/ (x = S_NoInst /\ installedEmpty p slb = false
      /\ ((key = 62 /\ hasCandidateObj p slb = false)
          \/ (key = 60 /\ installing (status p slb) = false) \/ key = 33)).
Proof.
  unfold base_keyToStatus, fits. intros -> Hfit Hkey. revert Hfit Hkey.
  destruct (installedEmpty p slb), (hasCandidateObj p slb), (status p slb); zcases;
    intros Hfit Hkey; try discriminate Hfit; try discriminate Hkey;
    injection Hkey as <-; cbn; first [by left|right; split; [done|split; [done|auto]]].
Qed.

(** The space bar asks for a status that fits, except for an installed
    pattern, which it marks for installation again. *)
Theorem cycle_fits (st : strategy) (p : pool) (slb : sel) (o : obj) (x : ZyppStatus) :
  getPackageStatus st p (Some slb) (Some o) = status p slb ->
  fits p slb (status p slb) ->
  base_cycleStatus st p (Some slb) (Some o) = Some x ->
  fits p slb x \/ (isPattern o = true /\ status p slb = S_KeepInstalled /\ x = S_Install).
Proof.
  unfold base_cycleStatus, fits. intros -> Hfit Hx. injection Hx as <-. revert Hfit.
  destruct (installedEmpty p slb), (hasCandidateObj p slb), (isPattern o), (status p slb);
    intros Hfit; try discriminate Hfit; cbn; auto.
Qed.

(** ** What the table shows *)

Definition tagShown (l : tag) : Prop := label l = statusToString (tagStatus l).

(** After an update every line shows the status of its package. *)
Theorem table_updated (t : table) (p : pool) (l : tag) (slb : sel) (o : obj) :
  tableType t <> T_Availables -> l ∈ lines (updateTable t p) ->
  Forall tagShown (lines t) ->
  selPointer l = Some slb -> dataPointer l = Some o ->
  tagStatus l = getPackageStatus (statusStrategy t) p (Some slb) (Some o)
  /\ label l = statusToString (tagStatus l).
Proof.
  intros Ht Hl Hall Hs Ho. apply list_elem_of_fmap in Hl as (l0 & -> & Hin).
  rewrite list.Forall_forall in Hall. specialize (Hall l0 Hin). revert Hs Ho.
  unfold updateTag. destruct (selPointer l0) as [s0|] eqn:Es; [|congruence].
  destruct (dataPointer l0) as [o0|] eqn:Eo; [|congruence].
  rewrite (bool_decide_eq_false_2 (tableType t = T_Availables)) by done. cbn [andb].
  case_bool_decide as Hd; cbn [tagStatus label selPointer dataPointer].
  - by intros [= ->] [= ->].
  - rewrite Es, Eo. intros [= ->] [= ->]. split; [|exact Hall].
    destruct (decide (tagStatus l0 = getPackageStatus (statusStrategy t) p (Some slb) (Some o)));
      tauto.
Qed.

(** ** Versions that cannot be installed together *)

Definition chosen (x : ZyppStatus) : bool :=
  match x with
  | S_Install | S_AutoInstall | S_KeepInstalled => true
  | _ => false
  end.

Definition mixed (p : pool) (slb : sel) : Prop := exists a b,
  a ∈ availables p slb /\ b ∈ availables p slb
  /\ multiversionInstall a = true /\ multiversionInstall b = false
  /\ chosen (pickStatus p slb a) = true /\ chosen (pickStatus p slb b) = true.

Lemma any_chosen (p : pool) (slb : sel) (m : bool) (o : obj) :
  o ∈ availables p slb -> multiversionInstall o = m -> chosen (pickStatus p slb o) = true ->
  anyMultiVersionToInstall p slb m = true.
Proof.
  intros Ho Hm Hc. apply existsb_exists. exists o.
  split; [by apply list_elem_of_In|]. rewrite Hm, Bool.eqb_reflx.
  by destruct (pickStatus p slb o).
Qed.

(** Without the user's consent no multiversion package is chosen beside one
    that is not. *)
Theorem mixed_needs_consent (x : ZyppStatus) (slb : sel) (o : obj) (w : world) :
  PickLaws -> ~ mixed (zpool w) slb -> answer (asked w) = false ->
  ~ mixed (zpool (snd (multi_setObjectStatus x slb o w))) slb.
Proof.
  intros HP Hno Ha. unfold multi_setObjectStatus, ask. rewrite Ha.
  destruct (anyMultiVersionToInstall (zpool w) slb (negb (multiversionInstall o))) eqn:Eany;
    [exact Hno|].
  assert (Hot : forall c, c <> o ->
    pickStatus (fst (setPickStatus (zpool w) slb o x)) slb c = pickStatus (zpool w) slb c)
    by (intros; by apply pick_other).
  assert (Hav := pick_availables (zpool w) slb o x slb).
  destruct (setPickStatus (zpool w) slb o x) as [p ok]. cbn [fst snd withPool zpool] in *.
  intros (a & b & Hia & Hib & Hma & Hmb & Hca & Hcb). rewrite Hav in Hia, Hib.
  destruct (decide (a = o)) as [->|Hao]; [|destruct (decide (b = o)) as [->|Hbo]].
  - rewrite Hot in Hcb by congruence. rewrite Hma in Eany.
    rewrite (any_chosen _ _ false b) in Eany; done.
  - rewrite Hot in Hca by done. rewrite Hmb in Eany.
    rewrite (any_chosen _ _ true a) in Eany; done.
  - rewrite Hot in Hca, Hcb by done. apply Hno. by exists a, b.
Qed.

End selector.

Lemma statusToString_inj (x y : ZyppStatus) : statusToString x = statusToString y -> x = y.
Proof. by destruct x, y. Qed.

End NCPkg.

(** ** Examples *)
Module NCPkgSamples.
Import NCPkg ZyppSamples.

Definition pkg (n : nat) : @sel sampleZypp := n.
Definition ver (v : version) : @obj sampleZypp := v.

(** A solver that needs package 1 as soon as package 0 is kept. *)
Definition solver (w : world) : bool * world :=
  (false,
   if bool_decide (status (zpool w) (pkg 0) = S_KeepInstalled)
   then withPool w (fst (setStatus (zpool w) (pkg 1) S_AutoInstall)) else w).

Definition start : world := World sample 0 [] None [].

Definition packageTable : table :=
  Table true PackageStatStrategy T_Packages
        (map (autoTag sample) [pkg 0; pkg 1; pkg 2]).

(** A dependency popup that changes nothing keeps the locks, and the user
    refuses the licence of package 2. *)
Definition idle (w : world) : bool * world := (false, w).

Lemma ok_button_witness :
  exists accepted w', OkButtonHandler (fun _ => false) idle false false [] EndButton None 4 start
                      = Done (accepted, w')
    /\ forall s, s ∈ scope false -> settled (zpool w') s.
Proof.
  apply (ok_button (fun _ => false) idle false false [] EndButton None 4 start).
  - intros w s Hs. exact Hs.
  - by right.
  - vm_compute. lia.
Defined.

Lemma licence_respected_witness :
  let '(ok, _, w') := changeStatus (fun _ => true) idle false packageTable S_Install
                        (Some (pkg 1)) (Some (ver retracted)) true start in
  (ok = true ->
     (status (zpool w') (pkg 1) = S_Install
      \/ lockFor S_Install = Some (status (zpool w') (pkg 1)))
     /\ (installing (status (zpool w') (pkg 1)) = true ->
         (licenseToConfirm (ver retracted) <> EmptyString ->
          hasLicenceConfirmed (zpool w') (pkg 1) = true)
         /\ (isRetracted (ver retracted) = true -> true = true)))
  /\ (ok = false -> status (zpool w') (pkg 1) = status (zpool start) (pkg 1))
  /\ (forall s, s <> (pkg 1) -> status (zpool w') s = status (zpool start) s).
Proof.
  apply (licence_respected (fun _ => true) idle false packageTable S_Install
           (pkg 1) (ver retracted) true start).
  - reflexivity.
  - reflexivity.
  - right. split; [reflexivity|discriminate].
Defined.

Lemma mixed_needs_consent_witness :
  ~ mixed (zpool (snd (multi_setObjectStatus (fun _ => false) S_Install (pkg 1)
                         (ver licensed) start))) (pkg 1).
Proof.
  apply (mixed_needs_consent (fun _ => false) S_Install (pkg 1) (ver licensed) start).
  - exact samplePicks.
  - intros (a & b & _ & _ & _ & _ & Ha & _). discriminate Ha.
  - reflexivity.
Defined.

(** '<' asks for "not installed" of a package that is installed. *)
Example key_misfit :
  base_keyToStatus PackageStatStrategy 60 sample (Some (pkg 0)) None
  = Some S_NoInst.
Proof. reflexivity. Qed.

(** A status changed in the popup with the automatic changes can start the
    solver after the licences were checked: the dialog is left with a package
    marked for installation whose licence nobody has confirmed. *)
Definition acceptedState : option (bool * ZyppStatus * bool) :=
  match OkButtonHandler (fun _ => true) solver true false [(0%nat, 43)] EndButton None 4 start with
  | Done (accepted, w) => Some (accepted, status (zpool w) (pkg 1),
                                hasLicenceConfirmed (zpool w) (pkg 1))
  | _ => None
  end.

Theorem accepted_unlicensed : acceptedState = Some (true, S_AutoInstall, false).
Proof. vm_compute. reflexivity. Qed.

(** In the table of available versions the refusal of a licence is ignored:
    the version becomes the candidate and is marked for installation. *)
Definition refusedState : bool * ZyppStatus * bool :=
  let t := Table true AvailableStatStrategy T_Availables
                 [Tag (Some (ver retracted)) (Some (pkg 1)) S_NoInst "    " false] in
  let '(ok, _, w) := changeStatus (fun _ => false) idle false t S_Install
                       (Some (pkg 1)) (Some (ver retracted)) true start in
  (ok, status (zpool w) (pkg 1), hasLicenceConfirmed (zpool w) (pkg 1)).

Theorem refused_version_installed : refusedState = (true, S_Install, false).
Proof. vm_compute. reflexivity. Qed.

End NCPkgSamples.
