(* ===== verification/PkgQt.v ===== *)
(** * The status of packages in the Qt package selector

    Module [YQPkg]: the items of the package lists and the keys that change
    their status (src/libyui-qt-pkg/src/YQPkgObjList.cc, with the items for
    patterns and patches of YQPkgPatternList.cc and YQPkgPatchList.cc), the
    change of all packages at once (YQPkgList.cc), the choice of versions
    (YQPkgVersionsView.cc), and the buttons of the selector
    (YQPackageSelectorBase.cc). The pool is the interface of Zypp.v; the
    dialog that runs the solver and shows its conflicts is the argument
    [resolveDependencies], and the user's answers are the sequence [answer].
    The passes over the pending licences are those of the text mode
    selector. *)
From S2P Require Import Prelude Zypp PkgStatus.
From Stdlib Require Import String.
Local Open Scope Z_scope.

Module YQPkg.

(** The classes of items: [applyChanges()] runs the solver for the last two,
    and each has its own [cycleStatus()]. *)
Inductive itemKind : Type :=
| PackageItem
| PatternItem
| PatchItem.

Inductive qtKey : Type :=
| Key_Space
| Key_Plus
| Key_Minus
| Key_Exclam
| Key_Asterisk
| Key_Greater
| Key_Less
| Key_Other.

Section qt.
Context `{ZY : Zypp}.

(** The pool, the number of questions asked and the notices shown. *)
Record ui : Type := Ui {
  upool : pool;
  uasked : nat;
  unotices : list string;
}.

Definition withUPool (u : ui) (p : pool) : ui := Ui p (uasked u) (unotices u).

(** [YQPkgObjListItem]: [_candidateIsNewer] is computed when the item is
    initialized. *)
Record item : Type := Item {
  selectable : sel;
  itemEditable : bool;
  kind : itemKind;
  candidateIsNewer : bool;
}.

Context (answer : nat -> bool).

Definition confirm (u : ui) : bool * ui :=
  (answer (uasked u), Ui (upool u) (S (uasked u)) (unotices u)).

(** The comparison of versions in [YQPkgObjListItem::init()]. *)
Definition candidateNewer (p : pool) (s : sel) : bool :=
  match candidateObj p s, installedObj p s with
  | Some candidate, Some installed =>
      if edition candidate <? edition installed then false
      else edition installed <? edition candidate
  | _, _ => false
  end.

(** [YQPkgObjListItem::setStatus] *)
Definition itemSetStatus (it : item) (newStatus : ZyppStatus) (u : ui) : ui :=
  let oldStatus := status (upool u) (selectable it) in
  let p := fst (setStatus (upool u) (selectable it) newStatus) in
  if bool_decide (oldStatus <> status p (selectable it)) then
    match kind it with
    | PackageItem => withUPool u p
    | PatternItem | PatchItem => withUPool u (fst (resolvePool p))
    end
  else withUPool u p.

(** [YQPkgObjListItem::showLicenseAgreement( ZyppSel )] *)
Definition showLicenseAgreement (s : sel) (u : ui) : bool * ui :=
  if installing (status (upool u) s) then
    if hasLicenceConfirmed (upool u) s then (true, u)
    else
      let licenseText := match candidateObj (upool u) s with
                         | Some o => licenseToConfirm o
                         | None => EmptyString
                         end in
      if String.eqb licenseText EmptyString then (true, u)
      else
        let '(confirmed, u1) := confirm u in
        if confirmed
        then (true, withUPool u1 (setLicenceConfirmed (upool u1) s true))
        else
          (false, match lockFor (status (upool u1) s) with
                  | Some x => withUPool u1 (fst (setStatus (upool u1) s x))
                  | None => u1
                  end)
  else (true, u).

(** [YQPkgObjListItem::showNotifyTexts] *)
Definition showNotifyTexts (s : sel) (newStatus : ZyppStatus) (u : ui) : ui :=
  let text := match newStatus, candidateObj (upool u) s with
              | S_Install, Some o => insnotify o
              | (S_NoInst | S_Del | S_Taboo), Some o => delnotify o
              | _, _ => EmptyString
              end in
  if String.eqb text EmptyString then u
  else Ui (upool u) (uasked u) (unotices u ++ [text]).

(** The common end of [setCurrentStatus()] and [cycleStatus()]. *)
Definition requestStatus (it : item) (newStatus : ZyppStatus) (u : ui) : ui :=
  let '(confirmed, u1) := showLicenseAgreement (selectable it) (itemSetStatus it newStatus u) in
  if confirmed then showNotifyTexts (selectable it) newStatus u1 else u1.

Context (listEditable : bool).

(** [YQPkgObjList::setCurrentStatus] on the current item *)
Definition setCurrentStatus (it : item) (newStatus : ZyppStatus) (ifNewerOnly : bool)
    (u : ui) : ui :=
  if itemEditable it && listEditable && (candidateIsNewer it || negb ifNewerOnly)
     && bool_decide (newStatus <> status (upool u) (selectable it))
  then requestStatus it newStatus u
  else u.

(** The status [YQPkgObjListItem::cycleStatus()] goes to. *)
Definition base_cycle (p : pool) (s : sel) : ZyppStatus :=
  match status p s with
  | S_Install => S_NoInst
  | S_Protected => if hasCandidateObj p s then S_KeepInstalled else S_NoInst
  | S_Taboo => if hasInstalledObj p s then S_KeepInstalled else S_NoInst
  | S_KeepInstalled => if hasCandidateObj p s then S_Update else S_Del
  | S_Update => S_Del
  | S_AutoUpdate => S_KeepInstalled
  | S_Del | S_AutoDel => S_KeepInstalled
  | S_NoInst => if hasCandidateObj p s then S_Install else S_NoInst
  | S_AutoInstall => S_NoInst
  end.

(** The one for patterns. *)
Definition pattern_cycle (p : pool) (s : sel) : ZyppStatus :=
  match status p s with
  | S_Install => S_NoInst
  | S_NoInst => S_Install
  | S_AutoInstall => S_NoInst
  | x => x
  end.

Definition cycleWith (it : item) (newStatus : ZyppStatus) (u : ui) : ui :=
  if itemEditable it && listEditable then
    if bool_decide (status (upool u) (selectable it) <> newStatus)
    then requestStatus it newStatus u
    else u
  else u.

Definition cycleStatus (it : item) (u : ui) : ui :=
  match kind it with
  | PackageItem => cycleWith it (base_cycle (upool u) (selectable it)) u
  | PatternItem => cycleWith it (pattern_cycle (upool u) (selectable it)) u
  | PatchItem =>
      let u1 := cycleWith it (base_cycle (upool u) (selectable it)) u in
      if bool_decide (status (upool u1) (selectable it) = S_Del)
      then itemSetStatus it S_KeepInstalled u1
      else u1
  end.

(** The status [YQPkgObjList::keyPressEvent()] asks for. *)
Definition keyStatus (it : item) (key : qtKey) (p : pool) : option ZyppStatus :=
  let installed := hasInstalledObj p (selectable it) in
  match key with
  | Key_Plus =>
      Some (if installed then if candidateIsNewer it then S_Update else S_KeepInstalled
            else S_Install)
  | Key_Minus => Some (if installed then S_Del else S_NoInst)
  | Key_Exclam => if installed then None else Some S_Taboo
  | Key_Asterisk => if installed then Some S_Protected else None
  | Key_Greater => if installed && candidateIsNewer it then Some S_Update else None
  | Key_Less =>
      match status p (selectable it) with
      | S_Update | S_AutoUpdate => Some S_KeepInstalled
      | _ => None
      end
  | Key_Space | Key_Other => None
  end.

Definition keyPressEvent (it : item) (key : qtKey) (u : ui) : ui :=
  match key with
  | Key_Space => cycleStatus it u
  | _ =>
      match keyStatus it key (upool u) with
      | Some newStatus => setCurrentStatus it newStatus false u
      | None => u
      end
  end.

(** [YQPkgObjList::setAllItemStatus] *)
Definition allStep (newStatus : ZyppStatus) (force : bool) (u : ui) (it : item) : ui :=
  let p := upool u in
  let s := selectable it in
  if itemEditable it && bool_decide (newStatus <> status p s) then
    if bool_decide (newStatus = S_Update) && negb force then
      match updateCandidateObj p s with
      | Some o =>
          if hasInstalledObj p s && bool_decide (status p s <> S_Protected)
          then withUPool u (fst (setOnSystem p s o))
          else u
      | None => u
      end
    else itemSetStatus it newStatus u
  else u.

Definition setAllItemStatus (items : list item) (newStatus : ZyppStatus) (force : bool)
    (u : ui) : ui :=
  if listEditable then fold_left (allStep newStatus force) items u else u.

(** [YQPkgList::globalSetPkgStatus] *)
Definition doChange (newStatus : ZyppStatus) (force : bool) (p : pool) (s : sel) : bool :=
  match newStatus with
  | S_KeepInstalled | S_Del | S_AutoDel | S_Protected => negb (installedEmpty p s)
  | S_Update | S_AutoUpdate =>
      if force then negb (installedEmpty p s)
      else match candidateObj p s, installedObj p s with
           | Some candidate, Some installed => edition installed <? edition candidate
           | _, _ => false
           end
  | S_Install | S_AutoInstall | S_NoInst | S_Taboo => installedEmpty p s
  end.

Definition globalStep (newStatus : ZyppStatus) (force countOnly : bool)
    (state : nat * ui) (s : sel) : nat * ui :=
  let '(changedCount, u) := state in
  let oldStatus := status (upool u) s in
  if bool_decide (newStatus <> oldStatus) && doChange newStatus force (upool u) s then
    (S changedCount,
     if negb countOnly && bool_decide (oldStatus <> S_Protected)
     then withUPool u (fst (setStatus (upool u) s newStatus)) else u)
  else state.

Definition globalSetPkgStatus (newStatus : ZyppStatus) (force countOnly : bool) (u : ui)
    : nat * ui :=
  fold_left (globalStep newStatus force countOnly) packages (0%nat, u).

(** [YQPkgVersionsView::checkForChangedCandidate] for the version whose button
    is checked *)
Definition checkForChangedCandidate (s : sel) (newCandidate : obj) (u : ui) : ui :=
  let p := upool u in
  if bool_decide (candidateObj p s = Some newCandidate) then u
  else
    let same := match installedObj p s with
                | Some inst => String.eqb (arch inst) (arch newCandidate)
                               && (edition inst =? edition newCandidate)
                | None => false
                end in
    let stat := if same then S_KeepInstalled
                else match status p s with
                     | S_KeepInstalled | S_Protected | S_AutoDel | S_AutoUpdate | S_Del
                     | S_Update => S_Update
                     | S_NoInst | S_Taboo | S_Install | S_AutoInstall => S_Install
                     end in
    let p1 := fst (setStatus p s stat) in
    withUPool u (fst (setCandidate p1 s newCandidate)).

(** ** Versions installed side by side *)

(** [YQPkgVersionsView::isMixedMultiVersion( ZyppSel )] *)
Definition isMixedMultiVersion (p : pool) (s : sel) : bool :=
  match availables p s with
  | [] => false
  | o :: _ =>
      existsb (fun o' => negb (Bool.eqb (multiversionInstall o') (multiversionInstall o)))
              (availables p s)
  end.

(** The state in which a version is going to be installed. *)
Definition picked (x : ZyppStatus) : bool :=
  match x with
  | S_Install | S_AutoInstall => true
  | _ => false
  end.

(** [YQPkgVersionsView::anyMultiVersionToInstall] *)
Definition anyMultiVersionToInstall (p : pool) (s : sel) (multiversion : bool) : bool :=
  existsb (fun o => Bool.eqb (multiversionInstall o) multiversion
                    && picked (pickStatus p s o)) (availables p s).

(** [YQPkgVersionsView::unselectAllMultiVersion] *)
Definition unselectAllMultiVersion (s : sel) (u : ui) : ui :=
  fold_left (fun u o =>
               if multiversionInstall o && picked (pickStatus (upool u) s o)
               then withUPool u (fst (setPickStatus (upool u) s o S_NoInst)) else u)
            (availables (upool u) s) u.

(** [YQPkgVersionsView::handleMixedMultiVersion]: whether the change is handled
    here. *)
Definition handleMixedMultiVersion (s : sel) (o : obj) (u : ui) : bool * ui :=
  if anyMultiVersionToInstall (upool u) s (negb (multiversionInstall o)) then
    let '(forceContinue, u1) := confirm u in
    (true, if forceContinue
           then withUPool u1 (fst (setPickStatus (upool u1) s o S_Install)) else u1)
  else (false, u).

(** [YQPkgMultiVersion::cycleStatus]; [mixedView] is the flag the view has
    computed for its selectable. *)
Definition versionCycle (x : ZyppStatus) : ZyppStatus :=
  match x with
  | S_Install | S_AutoInstall | S_Protected => S_NoInst
  | S_KeepInstalled | S_Update | S_AutoUpdate => S_Del
  | S_Del | S_AutoDel => S_KeepInstalled
  | S_NoInst | S_Taboo => S_Install
  end.

Definition cycleVersion (mixedView : bool) (s : sel) (o : obj) (u : ui) : ui :=
  let oldStatus := pickStatus (upool u) s o in
  let newStatus := versionCycle oldStatus in
  let '(handled, u1) :=
    if mixedView && bool_decide (newStatus = S_Install) && bool_decide (oldStatus <> newStatus)
    then handleMixedMultiVersion s o u else (false, u) in
  if handled then u1
  else withUPool u1 (fst (setPickStatus (upool u1) s o newStatus)).

(** ** The buttons of the selector *)

(** One step of [showPendingLicenseAgreements( begin, end )]. *)
Definition pendingStep (s : sel) (u : ui) : bool * ui :=
  if installing (status (upool u) s) then
    match candidateObj (upool u) s with
    | Some cand =>
        if negb (String.eqb (licenseToConfirm cand) EmptyString)
           && negb (hasLicenceConfirmed (upool u) s)
        then showLicenseAgreement s u
        else (true, u)
    | None => (true, u)
    end
  else (true, u).

Context (onlineUpdateMode : bool).

Definition showPendingLicenseAgreements (u : ui) : bool * ui :=
  pendingAll pendingStep onlineUpdateMode u.

(** The solver and the conflict dialog: [false] when the dialog is rejected. *)
Context (resolveDependencies : ui -> bool * ui).

(** The loop of [accept()]: [false] when the user gives up. *)
Fixpoint acceptLoop (fuel : nat) (u : ui) : outcome (bool * ui) :=
  match fuel with
  | O => NoFuel
  | S fuel' =>
      let '(resolved, u1) := resolveDependencies u in
      if resolved then
        let '(confirmedAll, u2) := showPendingLicenseAgreements u1 in
        if confirmedAll then Done (true, u2) else acceptLoop fuel' u2
      else Done (false, u1)
  end.

(** Whether the dialog with the automatic changes, the one with the unsupported
    packages and the one about the disk space are shown: whether the selector
    has them, and there is something to show. *)
Context (showChanges confirmUnsupported diskFull : pool -> bool).

(** A dialog that the user can reject, shown only if [needed]. *)
Definition gate (needed : bool) (u : ui) : bool * ui :=
  if needed then confirm u else (true, u).

(** [YQPackageSelectorBase::accept]: [true] when the selector is closed with
    "accept". *)
Definition accept (fuel : nat) (u : ui) : outcome (bool * ui) :=
  let! looped := acceptLoop fuel u in
  let '(go, u1) := looped in
  if negb go then Done (false, u1)
  else
    let '(go, u2) := gate (showChanges (upool u1)) u1 in
    if negb go then Done (false, u2)
    else
      let '(go, u3) := gate (confirmUnsupported (upool u2)) u2 in
      if negb go then Done (false, u3)
      else
        let '(go, u4) := gate (diskFull (upool u3)) u3 in
        Done (go, u4).

(** [YQPackageSelectorBase::reject]: [true] when the selector is closed. *)
Definition reject (u : ui) : bool * ui :=
  let changes := diffState (upool u) in
  let '(yes, u1) := if changes then confirm u else (false, u) in
  if negb changes || yes
  then (true, withUPool u1 (restoreState (upool u1)))
  else (false, u1).

(** ** Every licence is settled *)

Context {LAWS : ZyppLaws}.

Lemma showLicenseAgreement_passes (s : sel) (u : ui) :
  passes [s] (fst (showLicenseAgreement s u)) (upool u)
         (upool (snd (showLicenseAgreement s u))).
Proof.
  unfold showLicenseAgreement.
  destruct (installing (status (upool u) s)) eqn:Ei;
    [|apply (passes_settled_already (upool u)); intros Hi; congruence].
  destruct (hasLicenceConfirmed (upool u) s) eqn:Eh;
    [apply (passes_settled_already (upool u)); intros _ o _ _; exact Eh|].
  destruct (String.eqb_spec (match candidateObj (upool u) s with
                             | Some o => licenseToConfirm o
                             | None => EmptyString
                             end) EmptyString) as [El|El].
  - apply (passes_settled_already (upool u)). intros _ o Ho Hl. rewrite Ho in El. done.
  - cbn [confirm]. destruct (answer (uasked u)); [apply (passes_licensed (upool u))|].
    cbn [upool]. destruct (lockFor (status (upool u) s)) as [x|] eqn:Ex.
    + by apply (passes_lock (upool u)).
    + destruct (status (upool u) s); discriminate.
Qed.

Lemma qtPendingStep_passes (s : sel) (u : ui) :
  passes [s] (fst (pendingStep s u)) (upool u) (upool (snd (pendingStep s u))).
Proof.
  unfold pendingStep.
  destruct (installing (status (upool u) s)) eqn:Ei;
    [|apply (passes_settled_already (upool u)); intros Hi; congruence].
  destruct (candidateObj (upool u) s) as [cand|] eqn:Ec;
    [|apply (passes_settled_already (upool u)); intros _ o Ho Hl; congruence].
  destruct (String.eqb_spec (licenseToConfirm cand) EmptyString) as [El|El];
    [apply (passes_settled_already (upool u)); intros _ o Ho Hl; congruence|].
  destruct (hasLicenceConfirmed (upool u) s) eqn:Eh;
    [apply (passes_settled_already (upool u)); intros _ o _ _; exact Eh|].
  apply showLicenseAgreement_passes.
Qed.

Lemma qtPending_passes (u : ui) :
  passes (scope onlineUpdateMode) (fst (showPendingLicenseAgreements u)) (upool u)
         (upool (snd (showPendingLicenseAgreements u))).
Proof. apply (pendingAll_passes upool), qtPendingStep_passes. Qed.

(** The conflict dialog leaves locked selectables locked. *)
Definition keepsLocks : Prop := forall u s,
  locked (status (upool u) s) = true ->
  locked (status (upool (snd (resolveDependencies u))) s) = true.

Lemma acceptLoop_settles (fuel : nat) (u : ui) :
  keepsLocks ->
  (List.length (scope onlineUpdateMode) - lockCount (scope onlineUpdateMode) (upool u)
   < fuel)%nat ->
  exists go u', acceptLoop fuel u = Done (go, u')
    /\ (go = true -> forall s, s ∈ scope onlineUpdateMode -> settled (upool u') s).
Proof.
  intros Hkeep. revert u. induction fuel as [|fuel IH]; intros u Hf; [lia|].
  cbn [acceptLoop]. assert (Hk := lockCount_mono (scope onlineUpdateMode) _ _ (Hkeep u)).
  destruct (resolveDependencies u) as [resolved u1]. cbn [snd] in Hk.
  destruct resolved; [|by eexists _, _].
  assert (Hp := qtPending_passes u1).
  destruct (showPendingLicenseAgreements u1) as [all u2]. cbn [fst snd] in Hp.
  destruct (lockCount_passes _ _ _ _ Hp) as [_ Hlt].
  assert (Hb := lockCount_le (scope onlineUpdateMode) (upool u2)).
  destruct all; [eexists _, _; split; [reflexivity|intros _; apply Hp]|].
  apply IH. specialize (Hlt eq_refl). lia.
Qed.

Lemma gate_pool (needed : bool) (u : ui) : upool (snd (gate needed u)) = upool u.
Proof. by destruct needed. Qed.

(** C28: The accept button does its work in finitely many rounds, and when it closes
    the selector the licence of everything that is going to be installed is
    confirmed, whatever the user answers, as long as the conflict dialog
    respects the locks. *)
Theorem accept_settles (fuel : nat) (u : ui) :
  keepsLocks -> (List.length (scope onlineUpdateMode) < fuel)%nat ->
  exists accepted u', accept fuel u = Done (accepted, u')
    /\ (accepted = true -> forall s, s ∈ scope onlineUpdateMode -> settled (upool u') s).
Proof.
  intros Hkeep Hf.
  destruct (acceptLoop_settles fuel u Hkeep) as (go & u1 & E & Hs); [lia|].
  unfold accept. rewrite E. cbn [obind]. destruct go; cbn [negb]; [|by eexists _, _].
  assert (H2 := gate_pool (showChanges (upool u1)) u1).
  destruct (gate (showChanges (upool u1)) u1) as [[] u2]; cbn [negb]; [|by eexists _, _].
  assert (H3 := gate_pool (confirmUnsupported (upool u2)) u2).
  destruct (gate (confirmUnsupported (upool u2)) u2) as [[] u3]; cbn [negb]; [|by eexists _, _].
  assert (H4 := gate_pool (diskFull (upool u3)) u3).
  destruct (gate (diskFull (upool u3)) u3) as [go u4]. cbn [snd] in H2, H3, H4.
  eexists _, _; split; [reflexivity|]. intros _. rewrite H4, H3, H2. by apply Hs.
Qed.

(** ** A single change *)

Lemma notify_pool (s : sel) (x : ZyppStatus) (u : ui) :
  upool (showNotifyTexts s x u) = upool u.
Proof. unfold showNotifyTexts. by destruct (String.eqb _ _). Qed.

Lemma requestStatus_passes (it : item) (x : ZyppStatus) (u : ui) :
  exists c, passes [selectable it] c (upool (itemSetStatus it x u))
                   (upool (requestStatus it x u)).
Proof.
  unfold requestStatus.
  assert (Hp := showLicenseAgreement_passes (selectable it) (itemSetStatus it x u)).
  destruct (showLicenseAgreement (selectable it) (itemSetStatus it x u)) as [c u1].
  exists c. destruct c; [rewrite notify_pool|]; exact Hp.
Qed.

(** What the user asks of one item leaves no licence of it open: when the item
    is going to be installed afterwards, its licence is confirmed. For a
    package no other item changes. *)
Theorem request_settled (it : item) (x : ZyppStatus) (u : ui) :
  settled (upool (requestStatus it x u)) (selectable it)
  /\ (kind it = PackageItem -> forall s, s <> selectable it ->
      status (upool (requestStatus it x u)) s = status (upool u) s).
Proof.
  split.
  - destruct (requestStatus_passes it x u) as (c & Hp). apply Hp.
    by apply list_elem_of_singleton.
  - intros Hk s Hs. unfold requestStatus, showLicenseAgreement, confirm.
    assert (Hi : status (upool (itemSetStatus it x u)) s = status (upool u) s).
    { unfold itemSetStatus. rewrite Hk. case_bool_decide; by apply setStatus_other. }
    rewrite <- Hi. set (v := itemSetStatus it x u).
    repeat match goal with
           | |- context [match (if ?b then _ else _) with pair _ _ => _ end] => destruct b
           end;
      rewrite ?notify_pool; cbn [upool withUPool]; try done; [apply licence_status|].
    destruct (lockFor (status (upool v) (selectable it))); [|done]. by apply setStatus_other.
Qed.

(** ** The status a key asks for *)

(** Every key but the space bar asks for a status that fits whether the package
    is installed. *)
Theorem qt_key_fits (it : item) (key : qtKey) (p : pool) (x : ZyppStatus) :
  NCPkg.fits p (selectable it) (status p (selectable it)) ->
  keyStatus it key p = Some x -> NCPkg.fits p (selectable it) x.
Proof.
  unfold NCPkg.fits, keyStatus, hasInstalledObj.
  destruct (installedEmpty p (selectable it)), (candidateIsNewer it), key; cbn;
    try (intros _ [= <-]; done); try done;
    destruct (status p (selectable it)); cbn; intros Hf Hk; try discriminate;
    injection Hk as <-; done.
Qed.

(** The space bar does the same in both package selectors for a package whose
    status fits, except for a protected package without a candidate: here it
    becomes "not installed". *)
Theorem cycles_agree (p : pool) (s : sel) (o : obj) :
  NCPkg.fits p s (status p s) -> isPattern o = false ->
  NCPkg.base_cycleStatus NCPkg.PackageStatStrategy p (Some s) (Some o)
    = Some (base_cycle p s)
  \/ (status p s = S_Protected /\ hasCandidateObj p s = false /\ base_cycle p s = S_NoInst).
Proof.
  unfold NCPkg.fits, NCPkg.base_cycleStatus, base_cycle, hasInstalledObj. cbn.
  intros Hf ->.
  destruct (installedEmpty p s), (hasCandidateObj p s), (status p s); cbn in *;
    try discriminate Hf; auto.
Qed.

(** ** Versions that cannot be installed together *)

Definition mixedPicks (p : pool) (s : sel) : Prop := exists a b,
  a ∈ availables p s /\ b ∈ availables p s
  /\ multiversionInstall a = true /\ multiversionInstall b = false
  /\ picked (pickStatus p s a) = true /\ picked (pickStatus p s b) = true.

Lemma any_picked (p : pool) (s : sel) (m : bool) (o : obj) :
  o ∈ availables p s -> multiversionInstall o = m -> picked (pickStatus p s o) = true ->
  anyMultiVersionToInstall p s m = true.
Proof.
  intros Ho Hm Hc. apply existsb_exists. exists o.
  split; [by apply list_elem_of_In|]. by rewrite Hm, Hc, Bool.eqb_reflx.
Qed.

Lemma mixed_view (p : pool) (s : sel) (a b : obj) :
  a ∈ availables p s -> b ∈ availables p s ->
  multiversionInstall a <> multiversionInstall b -> isMixedMultiVersion p s = true.
Proof.
  unfold isMixedMultiVersion. intros Ha Hb Hne.
  destruct (availables p s) as [|o l]; [by apply elem_of_nil in Ha|].
  apply existsb_exists.
  destruct (decide (multiversionInstall a = multiversionInstall o)) as [E|E].
  - exists b. split; [by apply list_elem_of_In|].
    destruct (multiversionInstall a), (multiversionInstall b), (multiversionInstall o); done.
  - exists a. split; [by apply list_elem_of_In|].
    destruct (multiversionInstall a), (multiversionInstall o); done.
Qed.

Lemma pick_keeps_apart (p : pool) (s : sel) (o : obj) (x : ZyppStatus) :
  PickLaws -> ~ mixedPicks p s ->
  anyMultiVersionToInstall p s (negb (multiversionInstall o)) = false
  \/ picked x = false \/ isMixedMultiVersion p s = false ->
  ~ mixedPicks (fst (setPickStatus p s o x)) s.
Proof.
  intros HP Hno Hwhy (a & b & Hia & Hib & Hma & Hmb & Hca & Hcb).
  rewrite pick_availables in Hia, Hib.
  assert (Hview := mixed_view p s a b Hia Hib ltac:(congruence)).
  assert (Hot : forall c, c <> o ->
    pickStatus (fst (setPickStatus p s o x)) s c = pickStatus p s c)
    by (intros; by apply pick_other).
  destruct (snd (setPickStatus p s o x)) eqn:Hd; cycle 1.
  { apply Hno. exists a, b. pose proof (pick_refused p s o x Hd) as Ho.
    assert (Hall : forall c, pickStatus (fst (setPickStatus p s o x)) s c = pickStatus p s c)
      by (intros c; destruct (decide (c = o)) as [->|]; auto).
    by rewrite <- !Hall. }
  assert (Ho := pick_done p s o x Hd).
  destruct (decide (a = o)) as [->|Hao]; [|destruct (decide (b = o)) as [->|Hbo]].
  - rewrite Hot in Hcb by congruence. rewrite Ho in Hca. rewrite Hma in Hwhy. cbn in Hwhy.
    rewrite (any_picked _ _ false b) in Hwhy by done.
    destruct Hwhy as [?|[?|?]]; congruence.
  - rewrite Hot in Hca by done. rewrite Ho in Hcb. rewrite Hmb in Hwhy. cbn in Hwhy.
    rewrite (any_picked _ _ true a) in Hwhy by done.
    destruct Hwhy as [?|[?|?]]; congruence.
  - rewrite Hot in Hca, Hcb by done. apply Hno. by exists a, b.
Qed.

(** Without the user's consent no multiversion package is picked beside one that
    is not. *)
Theorem versions_stay_apart (s : sel) (o : obj) (u : ui) :
  PickLaws -> ~ mixedPicks (upool u) s -> answer (uasked u) = false ->
  ~ mixedPicks (upool (cycleVersion (isMixedMultiVersion (upool u) s) s o u)) s.
Proof.
  intros HP Hno Ha. unfold cycleVersion, handleMixedMultiVersion, confirm. rewrite Ha.
  set (old := pickStatus (upool u) s o).
  assert (Hne : bool_decide (old <> versionCycle old) = true)
    by (apply bool_decide_eq_true_2; by destruct old).
  rewrite Hne, andb_true_r. clear Hne.
  destruct (isMixedMultiVersion (upool u) s) eqn:Em; cbn [andb];
    [destruct (bool_decide (versionCycle old = S_Install)) eqn:Hi|].
  - destruct (anyMultiVersionToInstall (upool u) s (negb (multiversionInstall o))) eqn:Ea;
      [exact Hno|]. apply pick_keeps_apart; auto.
  - apply pick_keeps_apart; [done|done|]. right. left.
    apply bool_decide_eq_false_1 in Hi. by destruct old.
  - apply pick_keeps_apart; auto.
Qed.

(** ** Changing all packages at once *)

Lemma globalStep_untouched (x : ZyppStatus) (force countOnly : bool) (n : nat) (u : ui)
    (s t : sel) :
  t <> s ->
  let p' := upool (snd (globalStep x force countOnly (n, u) s)) in
  status p' t = status (upool u) t /\ candidateObj p' t = candidateObj (upool u) t
  /\ installedObj p' t = installedObj (upool u) t.
Proof.
  intros Hne. unfold globalStep. cbn.
  destruct (bool_decide _ && _); [|done]. destruct (negb countOnly && _); [|done]. cbn.
  by rewrite setStatus_other, setStatus_candidate, setStatus_installed.
Qed.

Lemma globalStep_count (x : ZyppStatus) (force c1 c2 : bool) (n : nat) (u1 u2 : ui)
    (s : sel) :
  status (upool u1) s = status (upool u2) s ->
  candidateObj (upool u1) s = candidateObj (upool u2) s ->
  installedObj (upool u1) s = installedObj (upool u2) s ->
  fst (globalStep x force c1 (n, u1) s) = fst (globalStep x force c2 (n, u2) s).
Proof.
  intros E1 E2 E3. unfold globalStep, doChange, installedEmpty. rewrite E1, E2, E3.
  by destruct (bool_decide _ && _).
Qed.

Lemma global_count_from (x : ZyppStatus) (force : bool) (l : list sel) (n : nat) (u1 u2 : ui) :
  NoDup l ->
  (forall t, t ∈ l -> status (upool u1) t = status (upool u2) t
             /\ candidateObj (upool u1) t = candidateObj (upool u2) t
             /\ installedObj (upool u1) t = installedObj (upool u2) t) ->
  fst (fold_left (globalStep x force true) l (n, u1))
  = fst (fold_left (globalStep x force false) l (n, u2)).
Proof.
  revert n u1 u2. induction l as [|s l IH]; intros n u1 u2 Hnd Hsame; [done|].
  apply list.NoDup_cons in Hnd as [Hs Hnd]. cbn [fold_left].
  destruct (Hsame s) as (E1 & E2 & E3); [by left|].
  assert (Hc := globalStep_count x force true false n u1 u2 s E1 E2 E3).
  assert (H1 := globalStep_untouched x force true n u1 s).
  assert (H2 := globalStep_untouched x force false n u2 s).
  destruct (globalStep x force true (n, u1) s) as [n1 v1].
  destruct (globalStep x force false (n, u2) s) as [n2 v2]. cbn [fst snd] in *. subst n2.
  apply IH; [done|]. intros t Ht. assert (t <> s) by congruence.
  destruct (H1 t) as (-> & -> & ->); [done|]. destruct (H2 t) as (-> & -> & ->); [done|].
  apply Hsame. by right.
Qed.

(** The number of packages that is announced before all packages are changed is
    the number that is reported when they are. *)
Theorem global_count (x : ZyppStatus) (force : bool) (u : ui) :
  NoDup packages ->
  fst (globalSetPkgStatus x force true u) = fst (globalSetPkgStatus x force false u).
Proof. intros Hnd. by apply global_count_from. Qed.

End qt.
End YQPkg.

(** ** Examples *)
Module YQPkgSamples.
Import YQPkg ZyppSamples.

Definition pkg (n : nat) : @sel sampleZypp := n.
Definition ver (v : version) : @obj sampleZypp := v.
Definition never (p : @pool sampleZypp) : bool := false.
Definition solved (u : ui) : bool * ui := (true, u).
Definition start : ui := Ui sample 0 [].

(** The user refuses the licence of package 2. *)
Lemma accept_settles_witness :
  exists accepted u', accept (fun _ => false) false solved never never never 4 start
                      = Done (accepted, u')
    /\ (accepted = true -> forall s, s ∈ scope false -> settled (upool u') s).
Proof.
  apply (accept_settles (fun _ => false) false solved never never never 4 start).
  - intros u s Hs. exact Hs.
  - vm_compute. lia.
Defined.

(** Package 2 is locked then, and the selector is closed. *)
Example refused_locked :
  match accept (fun _ => false) false solved never never never 4 start with
  | Done (accepted, u) => (accepted, status (upool u) (pkg 2))
  | _ => (false, S_NoInst)
  end = (true, S_Taboo).
Proof. vm_compute. reflexivity. Qed.

Lemma versions_stay_apart_witness :
  ~ mixedPicks (upool (cycleVersion (fun _ => false)
      (isMixedMultiVersion (upool start) (pkg 1)) (pkg 1) (ver licensed) start)) (pkg 1).
Proof.
  apply (versions_stay_apart (fun _ => false) (pkg 1) (ver licensed) start).
  - exact samplePicks.
  - intros (a & b & _ & _ & _ & _ & Ha & _). discriminate Ha.
  - reflexivity.
Defined.

Lemma global_count_witness :
  fst (globalSetPkgStatus S_Install false true start)
  = fst (globalSetPkgStatus S_Install false false start).
Proof. apply (global_count S_Install false start). apply (bool_decide_unpack _). exact I. Defined.

(** A protected package that is in no repository any more. *)
Definition protectedPool : @pool sampleZypp := fun s =>
  Entry S_Protected false (Some old) None [old] (fun _ => S_KeepInstalled).

Lemma cycles_agree_witness :
  NCPkg.base_cycleStatus NCPkg.PackageStatStrategy protectedPool (Some (pkg 0)) (Some (ver old))
    = Some (base_cycle protectedPool (pkg 0))
  \/ (status protectedPool (pkg 0) = S_Protected
      /\ hasCandidateObj protectedPool (pkg 0) = false
      /\ base_cycle protectedPool (pkg 0) = S_NoInst).
Proof. apply (cycles_agree protectedPool (pkg 0) (ver old)); reflexivity. Defined.

(** The space bar asks libzypp for "not installed" of it. *)
Theorem protected_lost : base_cycle protectedPool (pkg 0) = S_NoInst.
Proof. reflexivity. Qed.

(** A protected package is counted as changed although it is left alone. *)
Definition deleteAll : nat * ZyppStatus :=
  let '(n, u) := globalSetPkgStatus S_Del false false (Ui protectedPool 0 []) in
  (n, status (upool u) (pkg 0)).

Theorem protected_counted : deleteAll = (3%nat, S_Protected).
Proof. vm_compute. reflexivity. Qed.

End YQPkgSamples.
