(* ===== verification/RestApi.v ===== *)
(** * The REST API

    src/libyui-rest-api/src: an HTTP server inside of the UI lets test programs
    look at the topmost dialog and operate its widgets. Module [YWidgetFinder]
    has the search for widgets (YWidgetFinder.cc), Module [YRest] the actions
    on widgets (YHttpWidgetsActionHandler.cc and .h, YWidgetActionHandler.h,
    YTableActionHandler.cc) and the server with its table of handlers and the
    authentication (YHttpServer.cc, YHttpMount.cc, the small handlers).

    The widgets are those of the other files where these have a model:
    [YSelectionWidget], [YComboBox], [YIntField], radio buttons, and the
    searches by path of Menu.v. A dialog is a tree of addresses, and [winfo]
    is what the server sees of the widget at an address. Opening sockets and
    writing the response are libmicrohttpd's. *)
From S2P Require Import Prelude CNum CString Shortcut Item SelectionWidget SelectionClasses Menu.
From S2P Require Import RadioButtons ValueWidgets.
From Stdlib Require Import Ascii String.
From stdpp Require Import gmap.
Import YItem YSelectionWidget.
Local Open Scope Z_scope.

(** ** Strings of boost *)

(** [boost::split( path, value, boost::is_any_of( "|" ) )] *)
Fixpoint splitPath (s : cstring) : list cstring :=
  match s with
  | [] => [[]]
  | c :: s' =>
      if (c =? "|")%char then [] :: splitPath s'
      else match splitPath s' with
           | [] => [[c]]
           | p :: ps => (c :: p) :: ps
           end
  end.

(** [boost::erase_all( s, "&" )] *)
Definition eraseAmpersands (s : cstring) : cstring := filter (fun c => c <> "&"%char) s.


(** ** Widgets *)

(** The values of a check box. *)
Inductive checkState : Type := CheckOff | CheckOn | CheckDontCare.

(** The classes that the server distinguishes, with the state that it changes.
    A table has a text for each cell of an item, and items that are not table
    items; a radio button is a node of the [radios] of the UI. *)
Inductive wkind : Type :=
| PushButton
| CheckBox (v : checkState)
| CheckBoxFrame (v : bool)
| InputField (text : cstring)
| IntField (f : YIntField.field)
| MultiLineEdit (text : cstring)
| DateField (text : cstring)
| TimeField (text : cstring)
| ComboBox (c : YComboBox.combo)
| Table (w : YSelectionWidget) (isTableItem : nat -> bool) (cell : nat -> Z -> cstring)
| Tree (w : YSelectionWidget) (isTreeItem : nat -> bool)
| DumbTab (w : YSelectionWidget)
| RadioButton (button : nat)
| SelectionBox (w : YSelectionWidget)
| MultiSelectionBox (w : YSelectionWidget)
| ItemSelector (w : YSelectionWidget)
| RichText
| MenuButton (m : YMenuWidget.YMenuWidget) (isMenuItem : nat -> bool)
| MenuBar (m : YMenuWidget.YMenuWidget) (isMenuItem : nat -> bool)
| OtherWidget.

(** [label] is the property "Label" of a widget that has one. *)
Record winfo : Type := WInfo {
  widgetClass : cstring;
  widgetId : option cstring;
  wlabel : option cstring;
  enabled : bool;
  kind : wkind;
}.

Inductive wtree : Type := WNode (a : nat) (children : list wtree).

(** The topmost dialog, its widgets, and what the actions leave behind: the
    widget that was given the keyboard focus last, the widgets (with their
    items) and the links that were activated. *)
Record ui : Type := UI {
  topmostDialog : option wtree;
  widgets : gmap nat winfo;
  radios : YRadioButton.ui;
  focus : option nat;
  activated : list (nat * option nat);
  links : list (nat * cstring);
}.

(** ** Searching widgets *)
Module YWidgetFinder.

Definition filter_by_label_rec (w : winfo) (label : cstring) : bool :=
  match wlabel w with
  | Some widget_label => bool_decide (eraseAmpersands widget_label = label)
  | None => false
  end.

Definition filter_by_id_rec (w : winfo) (id : cstring) : bool :=
  bool_decide (widgetId w = Some id).

Definition filter_by_type_rec (w : winfo) (type : cstring) : bool :=
  bool_decide (widgetClass w = type).

(** The filter of [find()]; [None] is a criterion that is not given. *)
Definition matches (label id type : option cstring) (w : winfo) : bool :=
  match label with Some l => filter_by_label_rec w l | None => true end
  && match id with Some i => filter_by_id_rec w i | None => true end
  && match type with Some t => filter_by_type_rec w t | None => true end.

Section find.
Context (filter_func : nat -> bool).
Fixpoint find_widgets (w : wtree) (array : list nat) : list nat :=
  let 'WNode a cs := w in
  let array := if filter_func a then array ++ [a] else array in
  fold_left (fun array child => find_widgets child array) cs array.
End find.

Definition infoMatches (u : ui) (f : winfo -> bool) (a : nat) : bool :=
  match widgets u !! a with Some w => f w | None => false end.

Definition findBy (u : ui) (f : nat -> bool) : list nat :=
  match topmostDialog u with Some w => find_widgets f w [] | None => [] end.

Definition find (u : ui) (label id type : option cstring) : list nat :=
  findBy u (infoMatches u (matches label id type)).
Definition by_label (u : ui) (label : cstring) : list nat :=
  findBy u (infoMatches u (fun w => filter_by_label_rec w label)).
Definition by_id (u : ui) (id : cstring) : list nat :=
  findBy u (infoMatches u (fun w => filter_by_id_rec w id)).
Definition by_type (u : ui) (type : cstring) : list nat :=
  findBy u (infoMatches u (fun w => filter_by_type_rec w type)).
Definition all (u : ui) : list nat := findBy u (fun _ => true).

(** The widgets of a tree, parents first. *)
Fixpoint widgetsOf (w : wtree) : list nat :=
  let 'WNode a cs := w in a :: flat_map widgetsOf cs.

Section wtree_ind.
Variable P : wtree -> Prop.
Hypothesis Hnode : forall a cs, Forall P cs -> P (WNode a cs).
Fixpoint wtree_rect' (w : wtree) : P w :=
  let 'WNode a cs := w in
  Hnode a cs
    ((fix go (cs : list wtree) : Forall P cs :=
        match cs with
        | [] => List.Forall_nil P
        | c :: cs' => List.Forall_cons P c cs' (wtree_rect' c) (go cs')
        end) cs).
End wtree_ind.

Lemma find_widgets_filter (f : nat -> bool) (w : wtree) (array : list nat) :
  find_widgets f w array = (array ++ filter (fun a => f a = true) (widgetsOf w))%list.
Proof.
  revert array. induction w as [a cs IH] using wtree_rect'. intros array. cbn [find_widgets widgetsOf].
  assert (Hcs : forall array, fold_left (fun array child => find_widgets f child array) cs array
    = (array ++ filter (fun a => f a = true) (flat_map widgetsOf cs))%list).
  { clear -IH. induction IH as [|c cs Hc _ IH]; intros array; cbn [fold_left flat_map].
    - by rewrite app_nil_r.
    - by rewrite IH, Hc, list.filter_app, app_assoc. }
  rewrite Hcs, filter_cons. destruct (decide (f a = true)) as [E|E].
  - rewrite E. by rewrite <- app_assoc.
  - by rewrite (not_true_is_false _ E).
Qed.

End YWidgetFinder.

(** ** Actions on widgets *)
Module YRest.
Import YWidgetFinder.

Definition MHD_HTTP_OK : Z := 200.
Definition MHD_HTTP_UNAUTHORIZED : Z := 401.
Definition MHD_HTTP_NOT_FOUND : Z := 404.
Definition MHD_HTTP_UNPROCESSABLE_ENTITY : Z := 422.

(** The errors a response can report; the texts are left out. *)
Inductive error : Type :=
| NoDialog
| NoCriteria
| WidgetNotFound
| MultipleWidgets
| MissingAction
| UnknownAction
| NotSupported (action widgetClass : cstring)
| WidgetDisabled
| NotEditable
| WidgetException (e : YUIException)
| AuthenticationError.

Section actions.

(** The setters of the UI plug-ins for texts: what a field holds after
    [setValue()], or an exception. What the plug-in does to the flags of the
    widgets when the check box of a frame changes: [frameEnables a v b e] is
    the flag of the widget [b], [e] before, when the frame [a] gets the value
    [v]. *)
Context (storeText : nat -> cstring -> cstring -> result cstring).
Context (frameEnables : nat -> bool -> nat -> bool -> bool).

(** A handler returns, or throws after it has changed something. *)
Abbreviation handler := (ui -> outcome (ui * option YUIException)).

Definition ok (u : ui) : outcome (ui * option YUIException) := Done (u, None).
Definition throw (u : ui) (text : string) : outcome (ui * option YUIException) :=
  Done (u, Some (YUIGenericException text)).

Definition setKeyboardFocus (a : nat) (u : ui) : ui :=
  UI (topmostDialog u) (widgets u) (radios u) (Some a) (activated u) (links u).
Definition activate_widget (a : nat) (item : option nat) (u : ui) : ui :=
  UI (topmostDialog u) (widgets u) (radios u) (focus u) (activated u ++ [(a, item)]) (links u).
Definition activateLink (a : nat) (url : cstring) (u : ui) : ui :=
  UI (topmostDialog u) (widgets u) (radios u) (focus u) (activated u) (links u ++ [(a, url)]).
Definition withWidgets (u : ui) (m : gmap nat winfo) : ui :=
  UI (topmostDialog u) m (radios u) (focus u) (activated u) (links u).
Definition withRadios (u : ui) (r : YRadioButton.ui) : ui :=
  UI (topmostDialog u) (widgets u) r (focus u) (activated u) (links u).

Definition withKind (k : wkind) (w : winfo) : winfo :=
  WInfo (widgetClass w) (widgetId w) (wlabel w) (enabled w) k.
Definition withEnabled (e : bool) (w : winfo) : winfo :=
  WInfo (widgetClass w) (widgetId w) (wlabel w) e (kind w).
Definition setKind (a : nat) (k : wkind) (u : ui) : ui :=
  withWidgets u (alter (withKind k) a (widgets u)).

(** [YCheckBoxFrame::setValue()] of the plug-in. *)
Definition setFrame (a : nat) (v : bool) (u : ui) : ui :=
  let u := setKind a (CheckBoxFrame v) u in
  withWidgets u (map_imap (fun b w => Some (withEnabled (frameEnables a v b (enabled w)) w))
                          (widgets u)).

(** A setter that throws or gives the new state of the widget. *)
Definition store {A : Type} (a : nat) (r : result A) (k : A -> wkind) (after : ui -> ui) (u : ui)
    : outcome (ui * option YUIException) :=
  match r with
  | Ok x => ok (after (setKind a (k x) u))
  | Throw e => Done (u, Some e)
  end.

(** [YHttpWidgetsActionHandler::action_handler()] *)
Definition action_handler (a : nat) (info : winfo) (handler_func : handler)
    (allow_disabled : bool) (u : ui) : outcome (Z * option error * ui) :=
  if negb (enabled info) && negb allow_disabled
  then Done (MHD_HTTP_UNPROCESSABLE_ENTITY, Some WidgetDisabled, u)
  else
    let! r := handler_func u in
    match r with
    | (u', None) => Done (MHD_HTTP_OK, None, u')
    | (u', Some e) => Done (MHD_HTTP_UNPROCESSABLE_ENTITY, Some (WidgetException e), u')
    end.

(** The function in [get_item_selector_handler()], which reads the variable
    [state]; a negative value toggles. *)
Definition item_selector (a : nat) (k : YSelectionWidget -> wkind) (w : YSelectionWidget)
    (value : cstring) (state : outcome Z) (u : ui) : outcome (ui * option YUIException) :=
  match findItem w value with
  | None => throw u "cannot be found in the item selector widget"
  | Some d =>
      let u := setKeyboardFocus a u in
      let! state := state in
      let select := if state <? 0 then negb (selected d) else negb (state =? 0) in
      let w := setSelectedAt w (iid d) select in
      store a (selectItem w (Some (iid d)) select) k (activate_widget a (Some (iid d)))
            (setKind a (k w) u)
  end.

(** [YWidgetActionHandler::get_item_selector_handler()] returns the function,
    which refers to its parameter [state]: that variable is gone when the
    function is called. *)
Definition get_item_selector_handler (a : nat) (k : YSelectionWidget -> wkind) (w : YSelectionWidget)
    (value : cstring) (state : Z) : handler :=
  item_selector a k w value Undefined.

(** [YWidgetActionHandler::get_menu_selector_handler()] *)
Definition menu_selector (a : nat) (m : YMenuWidget.YMenuWidget) (isMenuItem : nat -> bool)
    (value : cstring) (u : ui) : outcome (ui * option YUIException) :=
  let! found := YMenuWidget.findItem isMenuItem m (splitPath value) in
  match found with
  | None => throw u "cannot be found in the menu selector widget"
  | Some d => ok (activate_widget a (Some (iid d)) (setKeyboardFocus a u))
  end.

(** The items of a table with the text of one column as their label. *)
Definition column (cell : nat -> Z -> cstring) (column_id : Z) (l : list item) : list item :=
  mapItems (fun d => mkItem (iid d) (cell (iid d) column_id) (iconName d) (status d) (index d)
                            (parent d) (isOpenFlag d)) l.

(** [YTableActionHandler::table_findItem()]: the loop and the recursion of the
    search in trees, on one column. *)
Definition table_findItem (isTableItem : nat -> bool) (cell : nat -> Z -> cstring)
    (l : list item) (path : list cstring) (column_id : Z) : outcome (option itemData) :=
  YMenuWidget.findLoop (YMenuWidget.findTurn isTableItem false) (column cell column_id l) path.

(** [YTableActionHandler::get_handler()] *)
Definition table_handler (a : nat) (w : YSelectionWidget) (isTableItem : nat -> bool)
    (cell : nat -> Z -> cstring) (value : cstring) (column_id row_id : Z) (u : ui)
    : outcome (ui * option YUIException) :=
  let put w := Table w isTableItem cell in
  let choose p :=
    store a (selectItem w (Some p) true) put (activate_widget a (Some p)) (setKeyboardFocus a u) in
  if negb (row_id =? -1) then
    if (row_id >=? itemsCount w) || (row_id <? 0) then throw u "does NOT contain row"
    else match itemAt w row_id with
         | Some it => choose (iid (data it))
         | None => throw u "cannot be found in the table"
         end
  else
    let! found := table_findItem isTableItem cell (itemCollection w) (splitPath value) column_id in
    match found with
    | Some d => choose (iid d)
    | None => throw u "cannot be found in the table"
    end.

(** The lambda for a widget of which an item is selected; a combo box gets the
    focus first. *)
Definition select_found (a : nat) (w : YSelectionWidget) (k : YSelectionWidget -> wkind)
    (found : option itemData) (u : ui) : outcome (ui * option YUIException) :=
  match found with
  | Some d =>
      store a (selectItem w (Some (iid d)) true) k (activate_widget a None) (setKeyboardFocus a u)
  | None => throw u "cannot be found"
  end.

Definition isAction (action : cstring) (name : string) : bool := bool_decide (action = str name).

(** The branches of [do_action()]; [None] is a widget that does not support the
    action. *)
Definition press (a : nat) (info : winfo) : option (ui -> outcome (Z * option error * ui)) :=
  match kind info with
  | PushButton =>
      Some (action_handler a info (fun u => ok (activate_widget a None (setKeyboardFocus a u))) false)
  | _ => None
  end.

Definition checkBoxTo (a : nat) (info : winfo) (old : checkState) (on : bool)
    : ui -> outcome (Z * option error * ui) :=
  let isChecked := match old with CheckOn => true | _ => false end in
  action_handler a info (fun u =>
    if Bool.eqb isChecked on then ok u
    else ok (setKind a (CheckBox (if on then CheckOn else CheckOff)) (setKeyboardFocus a u))) false.

Definition frameTo (a : nat) (info : winfo) (v : bool) (allow_disabled : bool)
    : ui -> outcome (Z * option error * ui) :=
  action_handler a info (fun u =>
    ok (activate_widget a None (setFrame a v (setKeyboardFocus a u)))) allow_disabled.

Definition check (a : nat) (info : winfo) (value : cstring)
    : option (ui -> outcome (Z * option error * ui)) :=
  match kind info with
  | CheckBox old => Some (checkBoxTo a info old true)
  | CheckBoxFrame _ => Some (frameTo a info true true)
  | ItemSelector w => Some (action_handler a info (get_item_selector_handler a ItemSelector w value 1) false)
  | MultiSelectionBox w =>
      Some (action_handler a info (get_item_selector_handler a MultiSelectionBox w value 1) false)
  | _ => None
  end.

Definition uncheck (a : nat) (info : winfo) (value : cstring)
    : option (ui -> outcome (Z * option error * ui)) :=
  match kind info with
  | CheckBox old => Some (checkBoxTo a info old false)
  | CheckBoxFrame _ => Some (frameTo a info false false)
  | ItemSelector w => Some (action_handler a info (get_item_selector_handler a ItemSelector w value 0) false)
  | MultiSelectionBox w =>
      Some (action_handler a info (get_item_selector_handler a MultiSelectionBox w value 0) false)
  | _ => None
  end.

Definition toggle (a : nat) (info : winfo) (value : cstring)
    : option (ui -> outcome (Z * option error * ui)) :=
  match kind info with
  | CheckBox old =>
      let isChecked := match old with CheckOn => true | _ => false end in
      Some (action_handler a info (fun u =>
        ok (setKind a (CheckBox (if isChecked then CheckOff else CheckOn))
                    (setKeyboardFocus a u))) false)
  | CheckBoxFrame v =>
      Some (action_handler a info (fun u =>
        let u := activate_widget a None (setKeyboardFocus a u) in
        ok (activate_widget a None (setFrame a (negb v) u))) true)
  | ItemSelector w => Some (action_handler a info (get_item_selector_handler a ItemSelector w value (-1)) false)
  | MultiSelectionBox w =>
      Some (action_handler a info (get_item_selector_handler a MultiSelectionBox w value (-1)) false)
  | _ => None
  end.

Definition enter_text (a : nat) (info : winfo) (value : cstring)
    : option (ui -> outcome (Z * option error * ui)) :=
  let enter old k after :=
    action_handler a info (fun u => store a (storeText a old value) k after (setKeyboardFocus a u)) false in
  match kind info with
  | InputField old => Some (enter old InputField (activate_widget a None))
  | IntField f =>
      Some (action_handler a info (fun u =>
        let! n := atoi value in
        ok (setKind a (IntField (YIntField.setValue f n)) (setKeyboardFocus a u))) false)
  | MultiLineEdit old => Some (enter old MultiLineEdit (fun u => u))
  | DateField old => Some (enter old DateField (activate_widget a None))
  | TimeField old => Some (enter old TimeField (activate_widget a None))
  | ComboBox c =>
      Some (fun u =>
        if negb (YComboBox.editable c)
        then Done (MHD_HTTP_UNPROCESSABLE_ENTITY, Some NotEditable, u)
        else action_handler a info (fun u =>
               store a (YComboBox.setValue c value) ComboBox (activate_widget a None)
                     (setKeyboardFocus a u)) false u)
  | _ => None
  end.

(** [GET] arguments that are numbers. *)
Definition number (arg : option cstring) (default : Z) : outcome Z :=
  match arg with Some s => atoi s | None => Done default end.

Definition select (a : nat) (info : winfo) (value : cstring) (row col : option cstring)
    : option (ui -> outcome (Z * option error * ui)) :=
  match kind info with
  | ComboBox c =>
      Some (action_handler a info (fun u =>
        let u := setKeyboardFocus a u in
        match findItem (YComboBox.widget c) value with
        | Some d => store a (YComboBox.selectItem c (Some (iid d)) true) ComboBox
                          (activate_widget a None) u
        | None => throw u "cannot be found in the combobox"
        end) false)
  | Table w isTableItem cell =>
      Some (fun u =>
        let! row_id := number row (-1) in
        let! column_id := number col 0 in
        action_handler a info (table_handler a w isTableItem cell value column_id row_id) false u)
  | Tree w isTreeItem =>
      Some (action_handler a info (fun u =>
        let! found := YMenuWidget.treeFindItem isTreeItem w (splitPath value) in
        select_found a w (fun w => Tree w isTreeItem) found u) false)
  | DumbTab w =>
      Some (action_handler a info (fun u => select_found a w DumbTab (findItem w value) u) false)
  | RadioButton b =>
      Some (action_handler a info (fun u =>
        let! r := YRadioButton.setValue (radios u) b true in
        ok (activate_widget a None (withRadios (setKeyboardFocus a u) r))) false)
  | SelectionBox w =>
      Some (action_handler a info (fun u => select_found a w SelectionBox (findItem w value) u) false)
  | MultiSelectionBox w =>
      Some (action_handler a info (get_item_selector_handler a MultiSelectionBox w value 1) false)
  | ItemSelector w => Some (action_handler a info (get_item_selector_handler a ItemSelector w value 1) false)
  | RichText =>
      Some (action_handler a info (fun u => ok (activateLink a value (setKeyboardFocus a u))) false)
  | MenuButton m isMenuItem | MenuBar m isMenuItem =>
      Some (action_handler a info (menu_selector a m isMenuItem value) false)
  | _ => None
  end.

(** [do_action()]: the code, the error that is reported and the UI after it. *)
Definition do_action (a : nat) (info : winfo) (action : cstring)
    (arg : string -> option cstring) (u : ui) : outcome (Z * option error * ui) :=
  let value := default [] (arg "value"%string) in
  let run (h : option (ui -> outcome (Z * option error * ui))) :=
    match h with
    | Some f => f u
    | None => Done (MHD_HTTP_NOT_FOUND, Some (NotSupported action (widgetClass info)), u)
    end in
  if isAction action "press" then run (press a info)
  else if isAction action "check" then run (check a info value)
  else if isAction action "uncheck" then run (uncheck a info value)
  else if isAction action "toggle" then run (toggle a info value)
  else if isAction action "enter_text" then run (enter_text a info value)
  else if isAction action "select" then
    run (select a info value (arg "row"%string) (arg "column"%string))
  else Done (MHD_HTTP_NOT_FOUND, Some UnknownAction, u).

(** [YHttpWidgetsActionHandler::process_request()]; the flag is [*redraw]. *)
Definition act_on (found : list nat) (arg : string -> option cstring) (redraw : bool) (u : ui)
    : outcome (Z * option error * bool * ui) :=
  match found with
  | [] => Done (MHD_HTTP_NOT_FOUND, Some WidgetNotFound, redraw, u)
  | a :: rest =>
      match arg "action"%string with
      | None => Done (MHD_HTTP_NOT_FOUND, Some MissingAction, redraw, u)
      | Some action =>
          match rest, widgets u !! a with
          | [], Some info =>
              let! r := do_action a info action arg u in
              let '(code, e, u') := r in
              Done (code, e, if code =? MHD_HTTP_OK then true else redraw, u')
          | _ :: _, _ => Done (MHD_HTTP_NOT_FOUND, Some MultipleWidgets, redraw, u)
          | [], None => Undefined
          end
      end
  end.

Definition process_action (arg : string -> option cstring) (redraw : bool) (u : ui)
    : outcome (Z * option error * bool * ui) :=
  match topmostDialog u with
  | None => Done (MHD_HTTP_NOT_FOUND, Some NoDialog, redraw, u)
  | Some _ =>
      match arg "label"%string, arg "id"%string, arg "type"%string with
      | None, None, None => Done (MHD_HTTP_NOT_FOUND, Some NoCriteria, redraw, u)
      | label, id, type => act_on (find u label id type) arg redraw u
      end
  end.

(** ** The server *)

Inductive handlerName : Type :=
| YHttpRootHandler
| YHttpDialogHandler
| YHttpWidgetsHandler
| YHttpWidgetsActionHandler
| YHttpAppHandler
| YHttpVersionHandler.

(** [YHttpMount] *)
Record mountPoint : Type := Mount { path : cstring; method : cstring; mounted : handlerName }.

Definition handles (m : mountPoint) (url meth : cstring) : bool :=
  bool_decide (url = path m) && bool_decide (meth = method m).

(** What a client sends: the URL path, the method, the arguments, the name and
    the password, and whether it accepts HTML. *)
Record request : Type := Request {
  url : cstring;
  reqMethod : cstring;
  argument : string -> option cstring;
  credentials : option (cstring * cstring);
  acceptsHtml : bool;
}.

(** The bodies of the answers: an error, or which document is sent. *)
Inductive body : Type :=
| NoBody
| ErrorBody (e : error)
| HtmlDocumentation
| JsonDocumentation
| DialogDump (w : wtree)
| WidgetDump (l : list nat)
| ApplicationInfo
| VersionInfo.

Record response : Type := Response { code : Z; content : body }.

Record server : Type := Server {
  auth_user : cstring;
  auth_passwd : cstring;
  mounts : list mountPoint;
  redraw : bool;
}.

Definition YUI_API_VERSION : cstring := str "v1".

(** [YHttpServer::mount()] and the mounts of [start()] *)
Definition mount (s : server) (p : cstring) (m : cstring) (h : handlerName)
    (has_api_version : bool) : server :=
  let p := if has_api_version then (str "/" ++ YUI_API_VERSION ++ p)%list else p in
  Server (auth_user s) (auth_passwd s) (mounts s ++ [Mount p m h]) (redraw s).

Definition start (s : server) : server :=
  let s := mount s (str "/") (str "GET") YHttpRootHandler false in
  let s := mount s (str "/dialog") (str "GET") YHttpDialogHandler true in
  let s := mount s (str "/widgets") (str "GET") YHttpWidgetsHandler true in
  let s := mount s (str "/widgets") (str "POST") YHttpWidgetsActionHandler true in
  let s := mount s (str "/application") (str "GET") YHttpAppHandler true in
  mount s (str "/version") (str "GET") YHttpVersionHandler false.

Definition withRedraw (s : server) (b : bool) : server :=
  Server (auth_user s) (auth_passwd s) (mounts s) b.

Definition failure (c : Z) (e : error) : response := Response c (ErrorBody e).

(** [YHttpDialogHandler::process_request()] *)
Definition process_dialog (u : ui) : response :=
  match topmostDialog u with
  | Some w => Response MHD_HTTP_OK (DialogDump w)
  | None => failure MHD_HTTP_NOT_FOUND NoDialog
  end.

(** [YHttpWidgetsHandler::process_request()] *)
Definition process_widgets (arg : string -> option cstring) (u : ui) : response :=
  match topmostDialog u with
  | None => failure MHD_HTTP_NOT_FOUND NoDialog
  | Some _ =>
      let label := arg "label"%string in
      let id := arg "id"%string in
      let type := arg "type"%string in
      let found := match label, id, type with
                   | None, None, None => all u
                   | _, _, _ => find u label id type
                   end in
      match found with
      | [] => failure MHD_HTTP_NOT_FOUND WidgetNotFound
      | _ => Response MHD_HTTP_OK (WidgetDump found)
      end
  end.

(** [process_request()] of the handlers. *)
Definition process_request (h : handlerName) (r : request) (redraw : bool) (u : ui)
    : outcome (response * bool * ui) :=
  match h with
  | YHttpRootHandler =>
      Done (Response MHD_HTTP_OK (if acceptsHtml r then HtmlDocumentation else JsonDocumentation),
            redraw, u)
  | YHttpDialogHandler => Done (process_dialog u, redraw, u)
  | YHttpWidgetsHandler => Done (process_widgets (argument r) u, redraw, u)
  | YHttpWidgetsActionHandler =>
      let! x := process_action (argument r) redraw u in
      let '(c, e, redraw', u') := x in
      Done (Response c (match e with Some e => ErrorBody e | None => NoBody end), redraw', u')
  | YHttpAppHandler => Done (Response MHD_HTTP_OK ApplicationInfo, redraw, u)
  | YHttpVersionHandler => Done (Response MHD_HTTP_OK VersionInfo, redraw, u)
  end.

(** [YHttpServer::handle()] *)
Definition handle (s : server) (r : request) (u : ui) : outcome (response * server * ui) :=
  match List.find (fun m => handles m (url r) (reqMethod r)) (mounts s) with
  | Some m =>
      let! x := process_request (mounted m) r (redraw s) u in
      let '(resp, redraw', u') := x in
      Done (resp, withRedraw s redraw', u')
  | None => Done (Response MHD_HTTP_NOT_FOUND NoBody, s, u)
  end.

Definition authenticated (s : server) (r : request) : bool :=
  match credentials r with
  | Some (user, pass) => bool_decide (auth_user s = user) && bool_decide (auth_passwd s = pass)
  | None => false
  end.

(** The callback [requestHandler()]; [first] is the first call for a request,
    which is not answered. *)
Definition requestHandler (s : server) (first : bool) (r : request) (u : ui)
    : outcome (option response * server * ui) :=
  if first then Done (None, s, u)
  else if (bool_decide (auth_user s <> []) || bool_decide (auth_passwd s <> []))
          && negb (authenticated s r)
  then Done (Some (failure MHD_HTTP_UNAUTHORIZED AuthenticationError), s, u)
  else
    let! x := handle s r u in
    let '(resp, s', u') := x in
    Done (Some resp, s', u').

(** The requests that reach the server in one call of [process_data()], and the
    flag it returns. *)
Definition serve (st : server * ui) (r : request) : outcome (server * ui) :=
  let! x := requestHandler (fst st) false r (snd st) in
  let '(_, s', u') := x in
  Done (s', u').

Definition process_data (s : server) (rs : list request) (u : ui) : outcome (bool * server * ui) :=
  let! x := ofold serve rs (withRedraw s false, u) in
  let '(s', u') := x in
  Done (redraw s', s', u').

(** ** What an action changes *)


































(** ** When an action returns *)














(** ** Main theorems *)

(** The search returns the widgets of the topmost dialog that satisfy every
    criterion that is given, parents before their children and each as often
    as the dialog has it. *)
Theorem finder_complete (u : ui) (label id type : option cstring) (w : wtree) :
  topmostDialog u = Some w ->
  find u label id type
    = filter (fun a => infoMatches u (matches label id type) a = true) (widgetsOf w)
  /\ all u = widgetsOf w.
Proof.
  intros Hw. unfold find, all, findBy. rewrite Hw, !find_widgets_filter.
  split; [done|]. by apply list_filter_keep.
Qed.






(** The requests that may change something: to the actions, by a client that
    is known if names are checked. *)
Definition mayAct (s : server) (r : request) : bool :=
  bool_decide (url r = str "/v1/widgets") && bool_decide (reqMethod r = str "POST")
  && ((bool_decide (auth_user s = []) && bool_decide (auth_passwd s = [])) || authenticated s r).

Definition sameServer (s s' : server) : Prop :=
  auth_user s' = auth_user s /\ auth_passwd s' = auth_passwd s /\ mounts s' = mounts s.

Lemma handle_reads (s : server) (r : request) (u : ui) :
  mounts s = mounts (start (Server [] [] [] false)) ->
  bool_decide (url r = str "/v1/widgets") && bool_decide (reqMethod r = str "POST") = false ->
  exists resp, handle s r u = Done (resp, withRedraw s (redraw s), u) \/ handle s r u = Done (resp, s, u).
Proof.
  intros Hm Hno. unfold handle. rewrite Hm. cbn [start mount mounts app List.find].
  repeat match goal with |- context [handles ?m _ _] => destruct (handles m _ _) eqn:? end;
    cbn [process_request mounted obind]; try (eexists; left; reflexivity);
    try (eexists; right; reflexivity).
  unfold handles in Heqb2. cbn [path method] in Heqb2.
  apply andb_true_iff in Heqb2 as [H1%bool_decide_eq_true H2%bool_decide_eq_true].
  by rewrite H1, H2 in Hno.
Qed.

(** C30: Whoever looks at the dialog, asks for documentation, or does not know the
    password changes nothing: after any sequence of such requests the UI is as
    it was and need not be redrawn. *)
Theorem rest_read_only (user passwd : cstring) (rs : list request) (u : ui) :
  let s := start (Server user passwd [] false) in
  Forall (fun r => mayAct s r = false) rs ->
  exists s', process_data s rs u = Done (false, s', u) /\ sameServer s s'.
Proof.
  intros s Hrs. unfold process_data.
  assert (Hall : forall t, sameServer s t -> redraw t = false ->
    exists s', ofold serve rs (t, u) = Done (s', u) /\ sameServer s s' /\ redraw s' = false).
  { induction Hrs as [|r rs Hr _ IH]; intros t Ht Hred; [by exists t|]. cbn [ofold].
    assert (Hstep : exists resp t', requestHandler t false r u = Done (resp, t', u)
      /\ sameServer s t' /\ redraw t' = false).
    { destruct Ht as (Hu & Hp & Hm). unfold requestHandler.
      destruct ((bool_decide (auth_user t <> []) || _) && _) eqn:Eauth; [by eexists _, _|].
      destruct (handle_reads t r u) as [resp [E|E]]; [by rewrite Hm| |rewrite E; by eexists _, _..].
      apply not_true_is_false. intros Hpost. unfold mayAct in Hr. rewrite Hpost in Hr. cbn in Hr.
      unfold authenticated in *. rewrite Hu, Hp in Eauth. revert Eauth Hr.
      repeat case_bool_decide; cbn; try done; destruct (credentials r) as [[]|]; cbn; try done;
        repeat case_bool_decide; cbn; done. }
    destruct Hstep as (resp & t' & E & Ht' & Hred'). unfold serve at 1. cbn [fst snd]. rewrite E.
    cbn [obind]. by apply IH. }
  destruct (Hall (withRedraw s false)) as (s' & E & Hs' & Hr'); [done|done|].
  rewrite E. cbn [obind]. exists s'. by rewrite Hr'.
Qed.

(** The search in one column of a table finds the item that has the path, if
    the texts of that column are distinct on each level. *)
Lemma table_search (isTableItem : nat -> bool) (cell : nat -> Z -> cstring) (l : list item)
    (path : list cstring) (column_id : Z) (d : itemData) :
  YMenuWidget.allMenuItems isTableItem (column cell column_id l) ->
  YMenuWidget.distinctLabels (column cell column_id l) ->
  YMenuWidget.hasPath false (column cell column_id l) path d ->
  table_findItem isTableItem cell l path column_id = Done (Some d).
Proof. intros. by apply YMenuWidget.find_complete. Qed.

End actions.
End YRest.

(** ** Examples *)
Module YRestSamples.
Import YRest.

Definition row (i : nat) (s : string) (sel : bool) (cs : list item) : item :=
  let 'Item d _ := newItem i (str s) [] sel in Item d cs.

Definition single (l : list item) : YSelectionWidget := mkWidget (str "choice") true false false [] l.

(** A dialog with a button, a selector for one of two items, of which the
    second is chosen, and a table with two levels. *)
Definition sampleChoice : YSelectionWidget := single [row 20 "KDE" false []; row 21 "GNOME" true []].
Definition sampleTable : YSelectionWidget :=
  single [row 30 "a" false [row 31 "x" false []]; row 32 "b" false []].

Definition cells (i : nat) (column_id : Z) : cstring :=
  if column_id =? 0 then
    match i with 30%nat => str "a" | 31%nat => str "x" | 32%nat => str "b" | _ => [] end
  else [].

Definition sampleUi : ui :=
  UI (Some (WNode 0 [WNode 1 []; WNode 2 [WNode 3 []]]))
     (list_to_map
        [(0%nat, WInfo (str "YDialog") None None true OtherWidget);
         (1%nat, WInfo (str "YPushButton") (Some (str "ok")) (Some (str "&OK")) true PushButton);
         (2%nat, WInfo (str "YItemSelector") (Some (str "desktop")) None true (ItemSelector sampleChoice));
         (3%nat, WInfo (str "YTable") (Some (str "list")) None true (Table sampleTable (fun _ => true) cells))])
     YRadioButton.emptyUI None [] [].

Definition args (l : list (string * string)) (name : string) : option cstring :=
  str ∘ snd <$> List.find (fun kv => String.eqb (fst kv) name) l.

(** Fields that take any text, and frames that leave their widgets alone. *)
Abbreviation process := (process_action (fun _ _ v => Ok v) (fun _ _ _ e => e)).

Definition press_ok : string -> option cstring := args [("label", "OK"); ("action", "press")]%string.





(** The button is pressed; an item that cannot be found is refused. *)
Lemma button_pressed :
  (activated <$> match process press_ok false sampleUi with
                 | Done (c, e, r, u) => Some u | _ => None end) = Some [(1%nat, None)].
Proof. vm_compute. reflexivity. Qed.

(** With a password, a request without it changes nothing. *)
Definition intruder : request :=
  Request (str "/v1/widgets") (str "POST") press_ok None false.

Lemma rest_read_only_witness :
  let s := start (Server (str "tester") (str "secret") [] false) in
  Forall (fun r => mayAct s r = false) [intruder]
  /\ exists s', process_data (fun _ _ v => Ok v) (fun _ _ _ e => e)
                  s [intruder] sampleUi = Done (false, s', sampleUi) /\ sameServer s s'.
Proof.
  intros s. assert (H : Forall (fun r => mayAct s r = false) [intruder]) by (by repeat constructor).
  split; [exact H|]. apply (rest_read_only (fun _ _ v => Ok v) (fun _ _ _ e => e)
    (str "tester") (str "secret") [intruder] sampleUi), H.
Defined.

(** The items of the widget at an address that are selected. *)
Definition selectedIn (a : nat) (m : outcome (Z * option error * bool * ui)) : list nat :=
  match m with
  | Done (_, _, _, u) =>
      match kind <$> widgets u !! a with
      | Some (ItemSelector w) => iid <$> selectedItems w
      | Some (Table w _ _) => iid <$> selectedItems w
      | _ => []
      end
  | _ => []
  end.

(** Checking an item of an item selector is not defined. *)
Theorem selector_undefined :
  process (args [("id", "desktop"); ("action", "check"); ("value", "KDE")]%string) false sampleUi = Undefined.
Proof. vm_compute. reflexivity. Qed.

(** Even with the value it was given: where one item can be selected only,
    checking an item that comes before the selected one leaves both selected. The
    handler selects the item before it calls [selectItem()], which then takes it
    for the old choice. *)
Lemma checked_twice :
  (match item_selector 2 ItemSelector sampleChoice (str "KDE") (Done 1) sampleUi with
   | Done (u, _) => selectedIn 2 (Done (MHD_HTTP_OK, None, true, u))
   | _ => []
   end) = [20; 21]%nat.
Proof. vm_compute. reflexivity. Qed.

(** An item below another one is found by its path; the path of a row that
    does not exist ends at a sibling of its parent. *)
Lemma row_found :
  selectedIn 3 (process (args [("id", "list"); ("action", "select"); ("value", "a|x")]%string) false sampleUi)
  = [31]%nat.
Proof. vm_compute. reflexivity. Qed.

Lemma row_wrong_level :
  selectedIn 3 (process (args [("id", "list"); ("action", "select"); ("value", "a|b")]%string) false sampleUi)
  = [32]%nat.
Proof. vm_compute. reflexivity. Qed.

End YRestSamples.
