(* ===== verification/DiskSpace.v ===== *)
(** * Disk space of the package selectors

    src/libyui-ncurses-pkg/src/NCPkgPopupDiskspace.cc and
    src/libyui-qt-pkg/src/YQPkgDiskUsageList.cc (with the parts of
    src/libyui-qt/src/QY2DiskUsageList.cc it uses): after each change both
    selectors look at the space the packages will need on each partition and
    warn the user once when it becomes short or is exceeded. Module
    [WarningRange] is the class both selectors have a copy of, which keeps a
    warning from being repeated; Modules [NCPkgDiskspace] and
    [YQPkgDiskUsageList] are the two checks.

    The partitions and their sizes in KiB come from the package management
    library; the sizes of real disks are far below the limits of [long long],
    so that they are plain integers here. Sizes in bytes are those of FSize.v. *)
From S2P Require Import Prelude CNum FSize.
From stdpp Require Import gmap strings pretty.
Import FSize.

#[local] Open Scope Z_scope.

(** [zypp::DiskUsageCounter::MountPoint] *)
Record MountPoint : Type := Mount {
  dir : string;
  total_size : BinNums.Z;
  used_size : BinNums.Z;
  pkg_size : BinNums.Z;
  readonly : bool;
}.

Definition withPkgSize (p : MountPoint) (n : BinNums.Z) : MountPoint :=
  Mount (dir p) (total_size p) (used_size p) n (readonly p).

Definition MIN_FREE_MB_WARN : BinNums.Z := 400.
Definition MIN_FREE_MB_PROXIMITY : BinNums.Z := 700.
Definition MIN_PERCENT_WARN : BinNums.Z := 90.
Definition MIN_PERCENT_PROXIMITY : BinNums.Z := 80.
Definition OVERFLOW_MB_WARN : BinNums.Z := 0.
Definition OVERFLOW_MB_PROXIMITY : BinNums.Z := 300.

(** The warnings a selector shows. *)
Inductive warning : Type := OutOfDiskSpace | RunningOut.

#[global] Instance warning_eq_dec : EqDecision warning.
Proof. solve_decision. Defined.

(** ** Warning ranges *)
Module WarningRange.

Record notifier : Type := Notifier {
  _inRange : bool;
  _isClose : bool;
  _hasBeenClose : bool;
  _warningPosted : bool;
}.

Definition clear (n : notifier) : notifier := Notifier false false (_isClose n) (_warningPosted n).

Definition clearHistory (n : notifier) : notifier :=
  let n := clear n in Notifier (_inRange n) (_isClose n) false false.

(** The constructor starts with members that are not initialised. *)
Definition newNotifier (garbage : notifier) : notifier := clearHistory garbage.

Definition enterProximity (n : notifier) : notifier := Notifier (_inRange n) true true (_warningPosted n).

Definition enterRange (n : notifier) : notifier :=
  enterProximity (Notifier true (_isClose n) (_hasBeenClose n) (_warningPosted n)).

Definition warningPostedNotify (n : notifier) : notifier :=
  Notifier (_inRange n) (_isClose n) (_hasBeenClose n) true.

Definition inRange (n : notifier) : bool := _inRange n.
Definition leavingProximity (n : notifier) : bool := negb (_isClose n) && negb (_hasBeenClose n).
Definition needWarning (n : notifier) : bool := _inRange n && negb (_warningPosted n).

(** Where a value is, as the caller reports it between two calls of [clear()]. *)
Inductive zone : Type := Far | Near | Inside.

#[global] Instance zone_eq_dec : EqDecision zone.
Proof. solve_decision. Defined.

Definition isInside (z : zone) : bool := match z with Inside => true | _ => false end.
Definition isFar (z : zone) : bool := match z with Far => true | _ => false end.

(** The worse of two zones: several partitions report in one round. *)
Definition worse (z z' : zone) : zone :=
  match z, z' with
  | Inside, _ | _, Inside => Inside
  | Near, _ | _, Near => Near
  | Far, Far => Far
  end.

Definition report (z : zone) (n : notifier) : notifier :=
  match z with Far => n | Near => enterProximity n | Inside => enterRange n end.

(** [YQPkgDiskUsageList::postPendingWarnings()], and the same lines in
    [NCPkgDiskspace::checkDiskSpaceRange()]: the first notifier is
    [runningOutWarning], the second one [overflowWarning]. *)
Definition postPendingWarnings (r o : notifier) : notifier * notifier * list warning :=
  let '(r, o, first) :=
    if needWarning o
    then (warningPostedNotify r, warningPostedNotify o, [OutOfDiskSpace]) else (r, o, []) in
  let '(r, second) :=
    if needWarning r then (warningPostedNotify r, [RunningOut]) else (r, []) in
  let o := if leavingProximity o then clearHistory o else o in
  let r := if leavingProximity r then clearHistory r else r in
  (r, o, first ++ second).

(** ** When the user is warned *)

(** One round of checks, and a sequence of rounds, given the zones. *)
Definition round (ro : notifier * notifier) (z : zone * zone) : notifier * notifier * list warning :=
  postPendingWarnings (report (fst z) (clear (fst ro))) (report (snd z) (clear (snd ro))).

Fixpoint rounds (ro : notifier * notifier) (zs : list (zone * zone)) : list (list warning) :=
  match zs with
  | [] => []
  | z :: zs' => let '(r, o, ws) := round ro z in ws :: rounds (r, o) zs'
  end.

(** Since the value was in the range last, it has been far away for two rounds
    in a row. *)
Definition quiet (past : list zone) : Prop :=
  forall j, past !! j = Some Inside ->
  exists k, (j < k)%nat /\ past !! k = Some Far /\ past !! S k = Some Far.

(** Since the value was in the range last, it has been far away. *)
Definition left_range (past : list zone) : Prop :=
  forall j, past !! j = Some Inside -> exists k, (j < k)%nat /\ past !! k = Some Far.

Lemma quiet_left (past : list zone) : quiet past -> left_range past.
Proof. intros H j Hj. destruct (H j Hj) as (k & H1 & H2 & _). by exists k. Qed.

(** What a notifier remembers of the rounds before. *)
Definition remembers (past : list zone) (n : notifier) : Prop :=
  (_warningPosted n = false <-> quiet past)
  /\ _isClose n = match last past with Some z => negb (isFar z) | None => false end.

Lemma report_report (z z' : zone) (n : notifier) : report z' (report z n) = report (worse z z') n.
Proof. by destruct z, z', n. Qed.

Lemma quiet_inside (past : list zone) : ~ quiet (past ++ [Inside]).
Proof.
  intros H. destruct (H (length past)) as (k & Hk & Hf & _).
  { by rewrite lookup_app_r, Nat.sub_diag by lia. }
  apply lookup_lt_Some in Hf. rewrite length_app in Hf. cbn in Hf. lia.
Qed.

Lemma quiet_far (past : list zone) : last past = Some Far -> quiet (past ++ [Far]).
Proof.
  intros Hl j Hj. rewrite last_lookup in Hl.
  assert (Hlen : length past <> O) by (destruct past; [done|cbn; lia]).
  exists (pred (length past)). assert (Hlt := lookup_lt_Some _ _ _ Hj).
  rewrite length_app in Hlt. cbn in Hlt. split; [|split].
  - destruct (decide (j = length past)) as [->|Hne].
    { rewrite lookup_app_r, Nat.sub_diag in Hj by lia. done. }
    destruct (decide (j = pred (length past))) as [->|Hne']; [|lia].
    rewrite lookup_app_l in Hj by lia. congruence.
  - by rewrite lookup_app_l by lia.
  - by rewrite Nat.succ_pred, lookup_app_r, Nat.sub_diag by lia.
Qed.

Lemma quiet_other (past : list zone) (z : zone) :
  z <> Inside -> (z = Far -> last past <> Some Far) -> quiet (past ++ [z]) <-> quiet past.
Proof.
  intros Hz Hl. split; intros H j Hj.
  - destruct (H j) as (k & Hk & Hf & Hs); [by apply lookup_app_l_Some|].
    exists k. split; [done|]. assert (Hlt := lookup_lt_Some _ _ _ Hs).
    rewrite length_app in Hlt. cbn in Hlt. rewrite lookup_app_l in Hf by lia.
    destruct (decide (S k = length past)) as [E|Hne]; [|by rewrite lookup_app_l in Hs by lia].
    rewrite E, lookup_app_r, Nat.sub_diag in Hs by lia. injection Hs as ->.
    destruct (Hl eq_refl). rewrite last_lookup, <- E. done.
  - destruct (decide (j < length past)%nat) as [Hlt|Hge].
    + rewrite lookup_app_l in Hj by done. destruct (H j Hj) as (k & Hk & Hf & Hs).
      exists k. split; [done|]. split; by apply lookup_app_l_Some.
    + assert (Hlt := lookup_lt_Some _ _ _ Hj). rewrite length_app in Hlt. cbn in Hlt.
      rewrite lookup_app_r in Hj by lia. replace (j - length past)%nat with O in Hj by lia.
      injection Hj as ->. done.
Qed.

(** What is remembered after one more round. *)
Lemma remembers_step (past : list zone) (n n' : notifier) (z : zone) :
  remembers past n ->
  _warningPosted n' = match z with
                      | Inside => true
                      | Near => _warningPosted n
                      | Far => _isClose n && _warningPosted n
                      end ->
  _isClose n' = negb (isFar z) -> remembers (past ++ [z]) n'.
Proof.
  intros [Hp Hc] Ep Ec. split; [|by rewrite last_snoc, Ec]. rewrite Ep. destruct z.
  - rewrite Hc. destruct (decide (last past = Some Far)) as [E|E].
    + rewrite E. cbn. split; [|done]. intros _. by apply quiet_far.
    + rewrite quiet_other by done. destruct (last past) as [z|] eqn:El.
      * destruct z; [done|done|done].
      * cbn. split; [|done]. intros _ j Hj. apply last_None in El as ->. done.
  - by rewrite quiet_other.
  - split; [done|]. intros H. by destruct (quiet_inside past).
Qed.

(** A round that starts with what both notifiers remember. Being out of space
    includes running out of it. *)
Lemma round_remembers (pr po : list zone) (r o : notifier) (zr zo : zone) :
  remembers pr r -> remembers po o -> (zo = Inside -> zr = Inside) ->
  let '(r', o', ws) := round (r, o) (zr, zo) in
  remembers (pr ++ [zr]) r' /\ remembers (po ++ [zo]) o'
  /\ (OutOfDiskSpace ∈ ws <-> zo = Inside /\ quiet po)
  /\ (RunningOut ∈ ws <-> zr = Inside /\ quiet pr /\ OutOfDiskSpace ∉ ws).
Proof.
  intros Hr Ho Hincl. assert (Hpr := proj1 Hr). assert (Hpo := proj1 Ho).
  unfold round, postPendingWarnings. cbn [fst snd].
  destruct r as [ri rc rh rp], o as [oi oc oh op]. cbn [_warningPosted] in Hpr, Hpo.
  destruct zo; [destruct zr..|rewrite (Hincl eq_refl)];
    destruct rp, op, rc, oc; cbn;
    (split; [by eapply remembers_step|]; split; [by eapply remembers_step|]);
    rewrite ?elem_of_nil, ?list_elem_of_singleton; naive_solver.
Qed.

(** The warnings of a sequence of rounds. *)
Lemma rounds_warn (zs : list (zone * zone)) :
  forall (pr po : list zone) (r o : notifier), remembers pr r -> remembers po o ->
  Forall (fun z => snd z = Inside -> fst z = Inside) zs ->
  forall i ws, rounds (r, o) zs !! i = Some ws ->
  exists zr zo, zs !! i = Some (zr, zo)
  /\ (OutOfDiskSpace ∈ ws <-> zo = Inside /\ quiet (po ++ take i (map snd zs)))
  /\ (RunningOut ∈ ws <->
      zr = Inside /\ quiet (pr ++ take i (map fst zs)) /\ OutOfDiskSpace ∉ ws).
Proof.
  induction zs as [|[zr zo] zs IH]; intros pr po r o Hr Ho Hz i ws Hi; [done|].
  apply Forall_cons_iff in Hz as [Hz Hzs]. cbn [rounds] in Hi.
  pose proof (round_remembers pr po r o zr zo Hr Ho Hz) as Hround.
  destruct (round (r, o) (zr, zo)) as [[r' o'] ws0]. destruct Hround as (Hr' & Ho' & H1 & H2).
  destruct i as [|i].
  - injection Hi as <-. exists zr, zo. cbn [map fst snd take]. by rewrite !app_nil_r.
  - destruct (IH _ _ _ _ Hr' Ho' Hzs i ws Hi) as (zr' & zo' & E & E1 & E2).
    rewrite <- app_assoc in E1, E2. by exists zr', zo'.
Qed.

Lemma new_remembers (garbage : notifier) : remembers [] (newNotifier garbage).
Proof. split; [|done]. split; [|done]. by intros _ j Hj. Qed.

End WarningRange.

(** ** The partitions *)

(** The free space in KiB, and what the numbers of the checks mean in KiB. *)
Definition freeKiB (p : MountPoint) : BinNums.Z := total_size p - pkg_size p.

(** At least 91 percent are used and less than 400 MiB are free (the percentage
    is cut to an integer before it is compared with 90); at least 81 percent and
    less than 700 MiB; at least 1 MiB is missing; less than 300 MiB
    are free. *)
Definition runningZone (p : MountPoint) : WarningRange.zone :=
  if (91 * total_size p <=? 100 * pkg_size p) && (freeKiB p <? 400 * 1024) then WarningRange.Inside
  else if (81 * total_size p <=? 100 * pkg_size p) && (freeKiB p <? 700 * 1024) then WarningRange.Near
  else WarningRange.Far.

Definition overflowZone (p : MountPoint) : WarningRange.zone :=
  if freeKiB p <=? -1024 then WarningRange.Inside
  else if freeKiB p <? 300 * 1024 then WarningRange.Near
  else WarningRange.Far.

(** The worst zone of the partitions that can be written. *)
Definition worst (z : MountPoint -> WarningRange.zone) (du : list MountPoint) : WarningRange.zone :=
  fold_left (fun acc p => if readonly p then acc else WarningRange.worse acc (z p)) du WarningRange.Far.

Lemma overflowZone_inside (p : MountPoint) :
  overflowZone p = WarningRange.Inside <-> freeKiB p <= -1024.
Proof.
  unfold overflowZone. destruct (Z.leb_spec (freeKiB p) (-1024)); [done|].
  destruct (_ <? _); split; (done || lia).
Qed.

Lemma runningZone_inside (p : MountPoint) :
  runningZone p = WarningRange.Inside <->
  91 * total_size p <= 100 * pkg_size p /\ freeKiB p < 400 * 1024.
Proof.
  unfold runningZone.
  destruct (Z.leb_spec (91 * total_size p) (100 * pkg_size p)), (Z.ltb_spec (freeKiB p) (400 * 1024));
    cbn [andb]; try done; destruct (_ && _); split; (done || lia).
Qed.

(** A partition with a size, on which no impossible space is used: the used
    percentage is a number of type [int]. *)
Definition sane (p : MountPoint) : Prop :=
  0 < total_size p /\ 0 <= pkg_size p /\ fits_int (100 * pkg_size p ÷ total_size p).

Section disk.
Import WarningRange.

(** The conversion of a large integer to [int]. *)
Context (toInt : BinNums.Z -> BinNums.Z).

(** ** The check of the text mode selector *)

Definition usedPercentInt (used total : FSize) : BinNums.Z :=
  if negb (eq total (Size 0)) then toInt (_size (div (mult (Size 100) used) total)) else 0.

(** [checkRemainingDiskSpace()]; the notifiers are [runningOutWarning] and
    [overflowWarning]. *)
Definition checkRemainingDiskSpace (ro : notifier * notifier) (partition : MountPoint)
    : notifier * notifier :=
  if readonly partition then ro
  else
    let '(r, o) := ro in
    let usedSize := newSize (pkg_size partition) K in
    let totalSize := newSize (total_size partition) K in
    let percent := usedPercentInt usedSize totalSize in
    let free := in_unit (minus totalSize usedSize) M in
    let r :=
      if percent >? MIN_PERCENT_WARN then
        let r := if free <? MIN_FREE_MB_PROXIMITY then enterProximity r else r in
        if free <? MIN_FREE_MB_WARN then enterRange r else r
      else r in
    let r :=
      if free <? MIN_FREE_MB_PROXIMITY then
        if percent >? MIN_PERCENT_PROXIMITY then enterProximity r else r
      else r in
    let o := if free <? OVERFLOW_MB_WARN then enterRange o else o in
    let o := if free <? OVERFLOW_MB_PROXIMITY then enterProximity o else o in
    (r, o).

Record NCPkgDiskspace : Type := Diskspace {
  testmode : bool;
  testDiskUsage : list MountPoint;
  runningOutWarning : notifier;
  overflowWarning : notifier;
}.

(** The constructor; [detected] is the disk usage after the partitions of the
    system have been set. *)
Definition newDiskspace (testMode : bool) (detected : list MountPoint) (garbage : notifier * notifier)
    : NCPkgDiskspace :=
  Diskspace testMode (if testMode then detected else [])
            (newNotifier (fst garbage)) (newNotifier (snd garbage)).

(** [checkDiskSpaceRange()]; [diskUsage] is what the library returns. *)
Definition checkDiskSpaceRange (d : NCPkgDiskspace) (diskUsage : list MountPoint)
    : NCPkgDiskspace * list warning :=
  let r := clear (runningOutWarning d) in
  let o := clear (overflowWarning d) in
  let diskUsage := if testmode d then testDiskUsage d else diskUsage in
  let '(r, o) :=
    fold_left (fun ro du => if readonly du then ro else checkRemainingDiskSpace ro du)
              diskUsage (r, o) in
  let '(r, o, ws) := postPendingWarnings r o in
  (Diskspace (testmode d) (testDiskUsage d) r o, ws).

(** [setDiskSpace()]: the keys [+] and [-] of the test mode. *)
Definition setDiskSpace (d : NCPkgDiskspace) (ch : BinNums.Z) : NCPkgDiskspace :=
  let set p :=
    let percent := usedPercentInt (newSize (pkg_size p) K) (newSize (total_size p) K) in
    let percent := if ch =? 43 then percent + 3
                   else if ch =? 45 then percent - 3 else percent in
    let percent := if percent <? 0 then 0 else percent in
    withPkgSize p (total_size p ÷ 100 * percent) in
  Diskspace (testmode d) (map set (testDiskUsage d)) (runningOutWarning d) (overflowWarning d).

(** [get_du()]: if the library does not know the partitions yet they are set. *)
Definition get_du (detected diskUsage : list MountPoint) : list MountPoint :=
  match diskUsage with [] => detected | _ => diskUsage end.

(** The widths of the popup; [cols] is the width of the screen. *)
Definition dialogWidth (cols : BinNums.Z) (du : list MountPoint) : BinNums.Z :=
  let width := fold_left (fun w p =>
    if Z.of_nat (String.length (dir p)) >? w then Z.of_nat (String.length (dir p)) else w) du 0 in
  let width := width + 50 in
  if width >? cols - 6 then cols - 6 else width.

Definition dialogXpos (cols : BinNums.Z) (du : list MountPoint) : BinNums.Z :=
  (cols - dialogWidth cols du) ÷ 2.

Definition preferredHeight (lines : BinNums.Z) : BinNums.Z := if lines >? 15 then 15 else lines - 4.

(** [checkDiskSpace()]: the text for the partitions that are too small;
    [MoreText] and [MoreSpaceText] are translated. *)
Section text.
Context (showQuotient : BinNums.Z -> BinNums.Z -> nat -> string) (MoreText MoreSpaceText : string).

Definition quote : string := String.String (Ascii.ascii_of_nat 34) "".

Definition checkDiskSpace (du : list MountPoint) : string :=
  fold_left (fun text p =>
    if readonly p then text
    else
      let pkg_available := newSize (total_size p - pkg_size p) K in
      if lt pkg_available (Size 0) then
        let pkg_available := mult pkg_available (Size (-1)) in
        (text +:+ quote +:+ dir p +:+ quote +:+ " " +:+ MoreText +:+ " "
         +:+ asString showQuotient pkg_available +:+ " " +:+ MoreSpaceText +:+ "<br>")
      else text) du "".

(** [usedPercent()] and the rows of [fillPartitionTable()]. *)
Definition usedPercent (used total : FSize) : string :=
  padded 2 (pretty (usedPercentInt used total)) +:+ "%".

Definition fillPartitionTable (du : list MountPoint) : list (list string) :=
  flat_map (fun p =>
    if readonly p then []
    else
      let pkg_used := newSize (pkg_size p) K in
      let pkg_available := newSize (total_size p - pkg_size p) K in
      let total := newSize (total_size p) K in
      [[dir p; formBest showQuotient pkg_used 8 None true;
        formBest showQuotient pkg_available 8 None true;
        formBest showQuotient total 8 None true; usedPercent pkg_used total]]) du.
End text.

(** [calculateDiff()] *)
Definition calculateDiff (du : list MountPoint) : FSize :=
  fold_left (fun diff p => plus diff (newSize (pkg_size p - used_size p) K)) du (Size 0).

(** ** The list of the Qt selector *)

(** [QY2DiskUsageListItem]: the sizes of an item and the order of the list. *)
Definition itemUsedSize (p : MountPoint) : FSize := newSize (pkg_size p) K.
Definition itemTotalSize (p : MountPoint) : FSize := newSize (total_size p) K.
Definition itemFreeSize (p : MountPoint) : FSize := minus (itemTotalSize p) (itemUsedSize p).
Definition itemUsedPercent (p : MountPoint) : BinNums.Z :=
  if negb (eq (itemTotalSize p) (Size 0))
  then toInt (_size (div (mult (Size 100) (itemUsedSize p)) (itemTotalSize p))) else 0.

(** The items by their mount points ([QMap::operator[]] adds a null pointer for
    a key that is missing), the notifiers and the test mode. *)
Record YQPkgDiskUsageList : Type := UsageList {
  _items : gmap string (option MountPoint);
  qRunningOut : notifier;
  qOverflow : notifier;
  _debug : bool;
}.

(** The constructor. *)
Definition newUsageList (detected diskUsage : list MountPoint) (garbage : notifier * notifier)
    : YQPkgDiskUsageList :=
  let diskUsage := match diskUsage with [] => detected | _ => diskUsage end in
  UsageList
    (fold_left (fun m p => if negb (readonly p) then <[dir p := Some p]> m else m) diskUsage ∅)
    (newNotifier (fst garbage)) (newNotifier (snd garbage)) false.

(** [YQPkgDiskUsageListItem::checkRemainingDiskSpace()] *)
Definition itemCheckRemaining (ro : notifier * notifier) (p : MountPoint) : notifier * notifier :=
  let '(r, o) := ro in
  let percent := itemUsedPercent p in
  let free := in_unit (itemFreeSize p) M in
  let r :=
    if percent >? MIN_PERCENT_WARN then
      let r := if free <? MIN_FREE_MB_PROXIMITY then enterProximity r else r in
      if free <? MIN_FREE_MB_WARN then enterRange r else r
    else r in
  let r :=
    if free <? MIN_FREE_MB_PROXIMITY then
      if percent >? MIN_PERCENT_PROXIMITY then enterProximity r else r
    else r in
  let o := if free <? OVERFLOW_MB_WARN then enterRange o else o in
  let o := if free <? OVERFLOW_MB_PROXIMITY then enterProximity o else o in
  (r, o).

(** The turn of the loop of [updateDiskUsage()], with [updateDuData()]. *)
Definition updateItem (l : YQPkgDiskUsageList) (p : MountPoint) : YQPkgDiskUsageList :=
  match _items l !! dir p with
  | Some (Some _) =>
      let '(r, o) := itemCheckRemaining (qRunningOut l, qOverflow l) p in
      UsageList (<[dir p := Some p]> (_items l)) r o (_debug l)
  | Some None => l
  | None => UsageList (<[dir p := None]> (_items l)) (qRunningOut l) (qOverflow l) (_debug l)
  end.

Definition clearWarnings (l : YQPkgDiskUsageList) : YQPkgDiskUsageList :=
  UsageList (_items l) (clear (qRunningOut l)) (clear (qOverflow l)) (_debug l).

Definition postPending (l : YQPkgDiskUsageList) : YQPkgDiskUsageList * list warning :=
  let '(r, o, ws) := postPendingWarnings (qRunningOut l) (qOverflow l) in
  (UsageList (_items l) r o (_debug l), ws).

(** [updateDiskUsage()] *)
Definition updateDiskUsage (l : YQPkgDiskUsageList) (diskUsage : list MountPoint)
    : YQPkgDiskUsageList * list warning :=
  postPending (fold_left updateItem diskUsage (clearWarnings l)).

(** The keys of [keyPressEvent()], for tests: digits set the percentage of the
    current item. [special_combo] are the three modifier keys; the cases 'w' and
    'f' of the code are no key codes of Qt. *)
Inductive duKey : Type := Key_Q | Key_digit (n : nat) | Key_Plus | Key_Minus | Key_other.

Definition testPercent (key : duKey) (percent : BinNums.Z) : BinNums.Z :=
  let percent := match key with
                 | Key_digit O => 100
                 | Key_digit n => 10 * Z.of_nat n
                 | Key_Plus => percent + 3
                 | Key_Minus => percent - 3
                 | _ => percent
                 end in
  if percent <? 0 then 0 else percent.

Definition keyPressEvent (l : YQPkgDiskUsageList) (special_combo : bool) (key : duKey)
    (currentItem : option string) : YQPkgDiskUsageList * list warning :=
  let l := if special_combo && match key with Key_Q => true | _ => false end
           then UsageList (_items l) (qRunningOut l) (qOverflow l) (negb (_debug l)) else l in
  match (if _debug l then currentItem else None) ≫= (fun name => mjoin (_items l !! name)) with
  | None => (l, [])
  | Some p =>
      let percent := testPercent key (itemUsedPercent p) in
      if percent =? itemUsedPercent p then (l, [])
      else postPending (updateItem (clearWarnings l) (withPkgSize p (total_size p ÷ 100 * percent)))
  end.

(** [YQPackageSelectorBase::checkDiskUsage()]: whether the user is asked before
    the selector is left. *)
Definition checkDiskUsage (l : option YQPkgDiskUsageList) : bool :=
  match l with
  | None => false
  | Some l => inRange (qOverflow l)
  end.

(** ** Both checks *)

Hypothesis toInt_fits : forall n, fits_int n -> toInt n = n.

Lemma percent_exceeds (p : MountPoint) (n : BinNums.Z) :
  0 < total_size p -> 0 <= pkg_size p ->
  (100 * pkg_size p ÷ total_size p >? n) = ((n + 1) * total_size p <=? 100 * pkg_size p).
Proof.
  intros Ht Hp. rewrite Z.quot_div_nonneg by lia.
  assert (H := Z.div_mod (100 * pkg_size p) (total_size p) ltac:(lia)).
  assert (Hm := Z.mod_pos_bound (100 * pkg_size p) (total_size p) Ht).
  destruct (Z.gtb_spec (100 * pkg_size p / total_size p) n), (Z.leb_spec ((n + 1) * total_size p) (100 * pkg_size p));
    [done|nia|nia|done].
Qed.

Lemma free_below (n b : BinNums.Z) : 0 < b -> (n ÷ 1024 <? b) = (n <? b * 1024).
Proof.
  intros Hb. destruct (Z.ltb_spec (n ÷ 1024) b), (Z.ltb_spec n (b * 1024)); try done;
    Z.to_euclidean_division_equations; lia.
Qed.

Lemma free_negative (n : BinNums.Z) : (n ÷ 1024 <? 0) = (n <=? -1024).
Proof.
  destruct (Z.ltb_spec (n ÷ 1024) 0), (Z.leb_spec n (-1024)); try done;
    Z.to_euclidean_division_equations; lia.
Qed.

Lemma itemFree_KiB (p : MountPoint) : in_unit (itemFreeSize p) M = freeKiB p ÷ 1024.
Proof.
  unfold in_unit, itemFreeSize, freeKiB, itemTotalSize, itemUsedSize. cbn.
  rewrite <- Z.mul_sub_distr_r. change MB with (1024 * 1024). by rewrite Z.quot_mul_cancel_r.
Qed.

Lemma itemPercent_sane (p : MountPoint) :
  sane p -> itemUsedPercent p = 100 * pkg_size p ÷ total_size p.
Proof.
  intros (Ht & Hp & Hf). unfold itemUsedPercent, itemTotalSize, itemUsedSize, eq, newSize.
  cbn [_size factor div mult]. rewrite (proj2 (Z.eqb_neq _ _)) by (unfold KB; lia). cbn [negb].
  rewrite Z.mul_assoc, Z.quot_mul_cancel_r by (unfold KB; lia). by apply toInt_fits.
Qed.

(** What one partition reports. *)
Lemma itemCheck_zones (r o : notifier) (p : MountPoint) :
  sane p -> itemCheckRemaining (r, o) p = (report (runningZone p) r, report (overflowZone p) o).
Proof.
  intros Hs. unfold itemCheckRemaining. rewrite itemFree_KiB, itemPercent_sane by done.
  destruct Hs as (Ht & Hp & _). unfold MIN_PERCENT_WARN, MIN_PERCENT_PROXIMITY, MIN_FREE_MB_WARN,
    MIN_FREE_MB_PROXIMITY, OVERFLOW_MB_WARN, OVERFLOW_MB_PROXIMITY, runningZone, overflowZone.
  rewrite !percent_exceeds, free_negative, !free_below by (done || lia).
  change (90 + 1) with 91. change (80 + 1) with 81. f_equal.
  - destruct (Z.leb_spec (91 * total_size p) (100 * pkg_size p)),
      (Z.leb_spec (81 * total_size p) (100 * pkg_size p)), (Z.ltb_spec (freeKiB p) (700 * 1024)),
      (Z.ltb_spec (freeKiB p) (400 * 1024)); try lia; by destruct r.
  - destruct (Z.leb_spec (freeKiB p) (-1024)), (Z.ltb_spec (freeKiB p) (300 * 1024)); try lia; by destruct o.
Qed.

Lemma checkRemaining_item (ro : notifier * notifier) (p : MountPoint) :
  readonly p = false -> checkRemainingDiskSpace ro p = itemCheckRemaining ro p.
Proof. intros H. unfold checkRemainingDiskSpace. by rewrite H. Qed.

Lemma running_includes (p : MountPoint) :
  sane p -> overflowZone p = Inside -> runningZone p = Inside.
Proof.
  intros (Ht & Hp & _). unfold overflowZone, runningZone, freeKiB.
  destruct (Z.leb_spec (total_size p - pkg_size p) (-1024)) as [H|H].
  - intros _. rewrite (proj2 (Z.leb_le _ _)), (proj2 (Z.ltb_lt _ _)) by lia. done.
  - by destruct (_ <? _).
Qed.

(** The zones of a round. *)
Definition zonesOf (du : list MountPoint) : zone * zone := (worst runningZone du, worst overflowZone du).

Definition saneDu (du : list MountPoint) : Prop := Forall (fun p => readonly p = false -> sane p) du.

Lemma fold_zones (du : list MountPoint) (r o : notifier) :
  saneDu du ->
  fold_left (fun ro p => if readonly p then ro else checkRemainingDiskSpace ro p) du (r, o)
  = (report (worst runningZone du) r, report (worst overflowZone du) o).
Proof.
  intros Hdu. unfold worst. change (r, o) with (report Far r, report Far o).
  generalize Far at 1 3 as zr. generalize Far at 1 2 as zo. revert r o.
  induction Hdu as [|p du Hp _ IH]; intros r o zo zr; cbn [fold_left]; [done|].
  destruct (readonly p) eqn:Ep; [apply IH|].
  rewrite checkRemaining_item, itemCheck_zones, !report_report by auto. apply IH.
Qed.

Lemma worst_inside (z : MountPoint -> zone) (du : list MountPoint) :
  worst z du = Inside <-> Exists (fun p => readonly p = false /\ z p = Inside) du.
Proof.
  unfold worst. assert (H : forall acc,
    fold_left (fun acc p => if readonly p then acc else worse acc (z p)) du acc = Inside
    <-> acc = Inside \/ Exists (fun p => readonly p = false /\ z p = Inside) du).
  { induction du as [|p du IH]; intros acc; cbn [fold_left].
    - rewrite List.Exists_nil. naive_solver.
    - rewrite List.Exists_cons, IH. destruct (readonly p); [naive_solver|].
      destruct acc, (z p); naive_solver. }
  rewrite H. naive_solver.
Qed.

Lemma zones_include (du : list MountPoint) :
  saneDu du -> snd (zonesOf du) = Inside -> fst (zonesOf du) = Inside.
Proof.
  cbn [zonesOf fst snd]. rewrite !worst_inside. intros Hs. rewrite !List.Exists_exists.
  unfold saneDu in Hs. rewrite List.Forall_forall in Hs. intros (p & Hin & Hro & Hz).
  exists p. split; [done|]. split; [done|]. apply running_includes; auto.
Qed.

(** Checks after a sequence of changes. *)
Fixpoint checks (d : NCPkgDiskspace) (dus : list (list MountPoint)) : list (list warning) :=
  match dus with
  | [] => []
  | du :: dus' => let '(d', ws) := checkDiskSpaceRange d du in ws :: checks d' dus'
  end.

Lemma checks_rounds (dus : list (list MountPoint)) (d : NCPkgDiskspace) :
  testmode d = false -> Forall saneDu dus ->
  checks d dus = rounds (runningOutWarning d, overflowWarning d) (map zonesOf dus).
Proof.
  intros Ht Hdus. revert d Ht. induction Hdus as [|du dus Hdu _ IH]; intros d Ht; [done|].
  cbn [checks rounds map]. unfold checkDiskSpaceRange at 1. rewrite Ht, fold_zones by done.
  unfold round. cbn [zonesOf fst snd].
  destruct (postPendingWarnings _ _) as [[r o] ws]. by rewrite IH.
Qed.

(** When exactly the user is told: two checks in a row outside of the wider range
    are needed before a message is repeated. *)
Lemma warnings_exact (dus : list (list MountPoint)) (garbage : notifier * notifier)
    (detected : list MountPoint) (i : nat) (ws : list warning) :
  Forall saneDu dus -> checks (newDiskspace false detected garbage) dus !! i = Some ws ->
  exists du, dus !! i = Some du
  /\ (OutOfDiskSpace ∈ ws <->
      Exists (fun p => readonly p = false /\ freeKiB p <= -1024) du
      /\ quiet (map (worst overflowZone) (take i dus)))
  /\ (RunningOut ∈ ws <->
      Exists (fun p => readonly p = false /\ 91 * total_size p <= 100 * pkg_size p
                       /\ freeKiB p < 400 * 1024) du
      /\ quiet (map (worst runningZone) (take i dus)) /\ OutOfDiskSpace ∉ ws).
Proof.
  intros Hs Hi. rewrite checks_rounds in Hi by done.
  assert (Hz : Forall (fun z => snd z = Inside -> fst z = Inside) (map zonesOf dus)).
  { apply Forall_map. eapply List.Forall_impl; [|exact Hs]. apply zones_include. }
  destruct (rounds_warn _ [] [] _ _ (new_remembers (fst garbage)) (new_remembers (snd garbage)) Hz i ws Hi)
    as (zr & zo & E & Ho & Hr).
  rewrite list_lookup_fmap in E. destruct (dus !! i) as [du|]; [|done]. injection E as Er Eo.
  exists du. split; [done|]. rewrite !map_map in Ho, Hr. cbn [zonesOf fst snd app] in Ho, Hr.
  rewrite firstn_map in Ho, Hr. rewrite <- Er in Hr. rewrite <- Eo in Ho.
  rewrite worst_inside in Ho, Hr. setoid_rewrite overflowZone_inside in Ho.
  setoid_rewrite runningZone_inside in Hr. done.
Qed.

(** C31: The messages that the text mode selector shows after each change, for
    partitions that have a size and a used percentage in the range of [int]. The
    user is told that the space is exceeded only if a partition that can be
    written lacks at least 1 MiB, and only if, since the last time that this was
    so, a check found at least 300 MiB on all of them. The user is told that the
    space is running out only if some partition has less than 400 MiB and more
    than 90 percent used, there is no message about exceeded space, and since the
    last time a check found all partitions with at least 700 MiB or less than 81
    percent used. Conversely the user is told the first time that a partition is
    in the range (for the percentage: at least 91 percent), and again if since the
    last time two checks in a row found all partitions outside of the wider range;
    with one such check only, the code does not repeat the message as documented
    (see [not_warned_again]). *)
Theorem disk_warnings (dus : list (list MountPoint)) (garbage : notifier * notifier)
    (detected : list MountPoint) (i : nat) (ws : list warning) :
  Forall saneDu dus -> checks (newDiskspace false detected garbage) dus !! i = Some ws ->
  exists du, dus !! i = Some du
  /\ (OutOfDiskSpace ∈ ws ->
      Exists (fun p => readonly p = false /\ freeKiB p <= -1024) du
      /\ left_range (map (worst overflowZone) (take i dus)))
  /\ (RunningOut ∈ ws ->
      Exists (fun p => readonly p = false /\ 90 * total_size p < 100 * pkg_size p
                       /\ freeKiB p < 400 * 1024) du
      /\ left_range (map (worst runningZone) (take i dus)) /\ OutOfDiskSpace ∉ ws)
  /\ (Exists (fun p => readonly p = false /\ freeKiB p <= -1024) du ->
      quiet (map (worst overflowZone) (take i dus)) -> OutOfDiskSpace ∈ ws)
  /\ (Exists (fun p => readonly p = false /\ 91 * total_size p <= 100 * pkg_size p
                       /\ freeKiB p < 400 * 1024) du ->
      quiet (map (worst runningZone) (take i dus)) -> OutOfDiskSpace ∈ ws \/ RunningOut ∈ ws).
Proof.
  intros Hs Hi. destruct (warnings_exact dus garbage detected i ws Hs Hi) as (du & Hdu & Ho & Hr).
  exists du. split; [done|]. split; [|split; [|split]].
  - intros [H1 H2]%Ho. split; [done|by apply quiet_left].
  - intros (H1 & H2 & H3)%Hr. split; [|split; [by apply quiet_left|done]].
    assert (Hdus : saneDu du) by (rewrite List.Forall_forall in Hs; apply Hs, list_elem_of_In; by eapply list_elem_of_lookup_2).
    unfold saneDu in Hdus. rewrite List.Forall_forall in Hdus. rewrite List.Exists_exists in *.
    destruct H1 as (p & Hin & Hp & Hpc & Hf). exists p. split; [done|]. split; [done|]. destruct (Hdus p Hin Hp) as [Ht _]. lia.
  - intros H1 H2. by apply Ho.
  - intros H1 H2. destruct (decide (OutOfDiskSpace ∈ ws)) as [Hw|Hw]; [by left|right]. by apply Hr.
Qed.

(** ** The two selectors *)

(** A mount point has an item in the list. *)
Definition shown (items : gmap string (option MountPoint)) (d : string) : Prop :=
  exists q, items !! d = Some (Some q).

Lemma updateItem_shown (l : YQPkgDiskUsageList) (p : MountPoint) (d : string) :
  shown (_items (updateItem l p)) d <-> shown (_items l) d.
Proof.
  unfold shown, updateItem. destruct (_items l !! dir p) as [[q|]|] eqn:E; [|done|].
  - destruct (itemCheckRemaining _ p) as [r o]. cbn [_items].
    destruct (decide (d = dir p)) as [->|]; [|by rewrite lookup_insert_ne].
    rewrite lookup_insert_eq. split; intros _; eauto.
  - cbn [_items]. destruct (decide (d = dir p)) as [->|]; [|by rewrite lookup_insert_ne].
    rewrite lookup_insert_eq, E. naive_solver.
Qed.

Lemma updateItem_check (l : YQPkgDiskUsageList) (p : MountPoint) :
  (readonly p = false <-> shown (_items l) (dir p)) ->
  (qRunningOut (updateItem l p), qOverflow (updateItem l p))
  = (if readonly p then (qRunningOut l, qOverflow l)
     else checkRemainingDiskSpace (qRunningOut l, qOverflow l) p).
Proof.
  intros H. unfold updateItem. destruct (readonly p) eqn:Ep.
  - destruct (_items l !! dir p) as [[q|]|] eqn:E; [|done|done].
    by specialize (proj2 H (ex_intro _ q E)).
  - rewrite checkRemaining_item by done. destruct (proj1 H eq_refl) as [q Hq]. rewrite Hq.
    by destruct (itemCheckRemaining _ p).
Qed.

Lemma fold_update (du : list MountPoint) (l : YQPkgDiskUsageList) :
  Forall (fun p => readonly p = false <-> shown (_items l) (dir p)) du ->
  let l' := fold_left updateItem du l in
  (qRunningOut l', qOverflow l')
  = fold_left (fun ro p => if readonly p then ro else checkRemainingDiskSpace ro p) du
              (qRunningOut l, qOverflow l)
  /\ forall d, shown (_items l') d <-> shown (_items l) d.
Proof.
  revert l. induction du as [|p du IH]; intros l Hdu; [done|]. cbn [fold_left].
  apply Forall_cons_iff in Hdu as [Hp Hdu]. rewrite <- (updateItem_check l p Hp).
  destruct (IH (updateItem l p)) as [IH1 IH2].
  { eapply List.Forall_impl; [|exact Hdu]. intros q Hq. by rewrite updateItem_shown. }
  split; [done|]. intros d. by rewrite IH2, updateItem_shown.
Qed.

Fixpoint updates (l : YQPkgDiskUsageList) (dus : list (list MountPoint)) : list (list warning) :=
  match dus with
  | [] => []
  | du :: dus' => let '(l', ws) := updateDiskUsage l du in ws :: updates l' dus'
  end.

Lemma updates_checks (dus : list (list MountPoint)) (l : YQPkgDiskUsageList) (d : NCPkgDiskspace) :
  Forall (Forall (fun p => readonly p = false <-> shown (_items l) (dir p))) dus ->
  testmode d = false -> runningOutWarning d = qRunningOut l -> overflowWarning d = qOverflow l ->
  updates l dus = checks d dus.
Proof.
  revert l d. induction dus as [|du dus IH]; intros l d Hdus Ht Hr Ho; [done|].
  apply Forall_cons_iff in Hdus as [Hdu Hdus]. cbn [updates checks].
  destruct (fold_update du (clearWarnings l) Hdu) as [E Hsh]. revert E.
  unfold updateDiskUsage, checkDiskSpaceRange, postPending. rewrite Ht, Hr, Ho.
  destruct (fold_left updateItem du (clearWarnings l)) as [items r o b].
  cbn [clearWarnings qRunningOut qOverflow _items] in *. intros <-.
  destruct (postPendingWarnings r o) as [[r' o'] ws]. f_equal. apply IH; [|done..].
  cbn [_items]. eapply List.Forall_impl; [|exact Hdus]. intros du'.
  apply List.Forall_impl. intros p Hp. by rewrite Hsh.
Qed.

Lemma new_shown (du : list MountPoint) (d : string) :
  shown (fold_left (fun m p => if negb (readonly p) then <[dir p := Some p]> m else m) du ∅) d
  <-> Exists (fun q => readonly q = false /\ dir q = d) du.
Proof.
  assert (H : forall m, shown (fold_left (fun m p =>
      if negb (readonly p) then <[dir p := Some p]> m else m) du m) d
    <-> shown m d \/ Exists (fun q => readonly q = false /\ dir q = d) du).
  { induction du as [|p du IH]; intros m; cbn [fold_left].
    - rewrite List.Exists_nil. naive_solver.
    - rewrite IH, List.Exists_cons. destruct (readonly p); cbn [negb]; [naive_solver|].
      assert (Hs : shown (<[dir p := Some p]> m) d <-> dir p = d \/ shown m d); [|naive_solver].
      unfold shown. destruct (decide (dir p = d)) as [<-|Hne].
      + rewrite lookup_insert_eq. naive_solver.
      + rewrite lookup_insert_ne by done. naive_solver. }
  rewrite H. unfold shown. setoid_rewrite lookup_empty. naive_solver.
Qed.

(** Both selectors show the same warnings after the same changes, as long as
    the partitions that can be written are those of the first list. *)
Theorem same_warnings (first detected : list MountPoint) (dus : list (list MountPoint))
    (garbage garbage' : notifier * notifier) :
  Forall (Forall (fun p => readonly p = false <->
    Exists (fun q => readonly q = false /\ dir q = dir p) (get_du detected first))) dus ->
  updates (newUsageList detected first garbage) dus = checks (newDiskspace false detected garbage') dus.
Proof.
  intros H. apply updates_checks; [|done..]. unfold newUsageList. cbn [_items].
  eapply List.Forall_impl; [|exact H]. intros du. apply List.Forall_impl. intros p Hp.
  by rewrite new_shown.
Qed.

Lemma post_inRange (r o : notifier) :
  (_inRange o = true -> _isClose o = true) ->
  let '(_, o', _) := postPendingWarnings r o in _inRange o' = _inRange o.
Proof.
  unfold postPendingWarnings. destruct r as [ri rc rh rp], o as [oi oc oh op]. cbn. intros H.
  destruct oi, oc, op, oh; try (by specialize (H eq_refl)); by destruct ri, rc, rh, rp.
Qed.

(** When the Qt selector is left, the user is asked exactly if a partition that
    can be written lacks at least 1 MiB. *)
Lemma qt_asks (l : YQPkgDiskUsageList) (du : list MountPoint) :
  saneDu du -> Forall (fun p => readonly p = false <-> shown (_items l) (dir p)) du ->
  checkDiskUsage (Some (fst (updateDiskUsage l du))) = true
  <-> Exists (fun p => readonly p = false /\ freeKiB p <= -1024) du.
Proof.
  intros Hs Hdu. destruct (fold_update du (clearWarnings l) Hdu) as [E _].
  rewrite fold_zones in E by done. unfold updateDiskUsage, postPending.
  destruct (fold_left updateItem du (clearWarnings l)) as [items r o b].
  cbn [qRunningOut qOverflow clearWarnings] in *. injection E as Er Eo.
  assert (H := post_inRange r o). destruct (postPendingWarnings r o) as [[r' o'] ws].
  cbn [fst checkDiskUsage qOverflow]. unfold inRange.
  assert (Hz := worst_inside overflowZone du). setoid_rewrite overflowZone_inside in Hz.
  rewrite <- Hz, H; rewrite Eo; by destruct (worst overflowZone du).
Qed.

(** The text mode selector complains about a partition that lacks anything. *)
Lemma nc_complains (showQuotient : BinNums.Z -> BinNums.Z -> nat -> string)
    (MoreText MoreSpaceText : string) (du : list MountPoint) :
  checkDiskSpace showQuotient MoreText MoreSpaceText du <> ""
  <-> Exists (fun p => readonly p = false /\ freeKiB p < 0) du.
Proof.
  unfold checkDiskSpace. generalize (asString showQuotient) as show. intros show.
  assert (H : forall text, fold_left (fun text p =>
      if readonly p then text
      else
        if lt (newSize (total_size p - pkg_size p) K) (Size 0) then
          (text +:+ quote +:+ dir p +:+ quote +:+ " " +:+ MoreText +:+ " "
           +:+ show (mult (newSize (total_size p - pkg_size p) K) (Size (-1)))
           +:+ " " +:+ MoreSpaceText +:+ "<br>")
        else text) du text <> ""
    <-> text <> "" \/ Exists (fun p => readonly p = false /\ freeKiB p < 0) du).
  { induction du as [|p du IH]; intros text; cbn [fold_left].
    - rewrite List.Exists_nil. naive_solver.
    - rewrite IH, List.Exists_cons. clear IH. destruct (readonly p); [naive_solver|].
      unfold lt, newSize, freeKiB. cbn [_size factor].
      destruct (Z.ltb_spec ((total_size p - pkg_size p) * KB) 0) as [Hlt|Hge]; unfold KB in *.
      + split; [intros _; right; left; split; [done|lia]|]. intros _. left. by destruct text.
      + split; [naive_solver|]. intros [?|[[_ ?]|?]]; [by left|lia|by right]. }
  rewrite H. naive_solver.
Qed.

(** What the user of the Qt selector is asked about, that of the text mode
    selector is told about too. *)
Theorem asked_then_told (showQuotient : BinNums.Z -> BinNums.Z -> nat -> string)
    (MoreText MoreSpaceText : string) (l : YQPkgDiskUsageList) (du : list MountPoint) :
  saneDu du -> Forall (fun p => readonly p = false <-> shown (_items l) (dir p)) du ->
  checkDiskUsage (Some (fst (updateDiskUsage l du))) = true ->
  checkDiskSpace showQuotient MoreText MoreSpaceText du <> "".
Proof.
  intros Hs Hdu H. apply nc_complains. apply qt_asks in H; [|done..].
  eapply List.Exists_impl; [|exact H]. intros p [? ?]. split; [done|lia].
Qed.

(** The popup keeps three columns free on both sides of the screen. *)
Lemma popup_inside (cols : BinNums.Z) (du : list MountPoint) :
  3 <= dialogXpos cols du /\ dialogXpos cols du + dialogWidth cols du <= cols - 3.
Proof.
  unfold dialogXpos. assert (H : dialogWidth cols du <= cols - 6).
  { unfold dialogWidth. cbv zeta. generalize (fold_left (fun w p =>
      if Z.of_nat (String.length (dir p)) >? w then Z.of_nat (String.length (dir p)) else w) du 0).
    intros w. destruct (Z.gtb_spec (w + 50) (cols - 6)); lia. }
  Z.to_euclidean_division_equations; lia.
Qed.

(** The keys of the test mode never make a negative size. *)
Lemma test_sizes (d : NCPkgDiskspace) (ch : BinNums.Z) :
  Forall (fun p => 0 <= total_size p) (testDiskUsage d) ->
  Forall (fun p => 0 <= pkg_size p) (testDiskUsage (setDiskSpace d ch)).
Proof.
  intros H. unfold setDiskSpace. cbn [testDiskUsage]. apply Forall_map.
  eapply List.Forall_impl; [|exact H]. intros p Hp. cbn [withPkgSize pkg_size].
  apply Z.mul_nonneg_nonneg; [by apply Z.quot_pos|].
  match goal with |- 0 <= (if ?x <? 0 then _ else _) => destruct (Z.ltb_spec x 0); lia end.
Qed.

End disk.

(** ** The colors of the Qt list *)

(** [interpolate()]: the differences are of type [int], the rest of type
    [long]; a range of no length is a division by zero. *)
Definition interpolate (from minFrom maxFrom minTo maxTo : BinNums.Z) : outcome BinNums.Z :=
  let '(minFrom, maxFrom) := if minFrom >? maxFrom then (maxFrom, minFrom) else (minFrom, maxFrom) in
  if negb (bool_decide (fits_int (from - minFrom))) || negb (bool_decide (fits_int (maxTo - minTo)))
     || negb (bool_decide (fits_int (maxFrom - minFrom))) || (maxFrom - minFrom =? 0)
  then Undefined
  else
    let x := (from - minFrom) * (maxTo - minTo) ÷ (maxFrom - minFrom) + minTo in
    if minTo <? maxTo then
      let x := if x <? minTo then minTo else x in
      Done (if x >? maxTo then maxTo else x)
    else
      let x := if x <? maxTo then maxTo else x in
      Done (if x >? minTo then minTo else x).

(** The hue, the saturation and the value of a color. *)
Record hsv : Type := Hsv { hue : BinNums.Z; saturation : BinNums.Z; brightness : BinNums.Z }.

Definition interpolateColor (val minVal maxVal : BinNums.Z) (minColor maxColor : hsv) : outcome hsv :=
  let! h := interpolate val minVal maxVal (hue minColor) (hue maxColor) in
  let! s := interpolate val minVal maxVal (saturation minColor) (saturation maxColor) in
  let! v := interpolate val minVal maxVal (brightness minColor) (brightness maxColor) in
  Done (Hsv h s v).

(** The value stays between the ends of the target range, which are reached at
    the ends of the source range. *)
Lemma interpolate_bounds (from minFrom maxFrom minTo maxTo : BinNums.Z) :
  minFrom < maxFrom -> fits_int (from - minFrom) -> fits_int (maxTo - minTo) ->
  fits_int (maxFrom - minFrom) ->
  exists x, interpolate from minFrom maxFrom minTo maxTo = Done x
  /\ Z.min minTo maxTo <= x <= Z.max minTo maxTo
  /\ (from <= minFrom -> x = minTo) /\ (maxFrom <= from -> x = maxTo).
Proof.
  intros Hlt H1 H2 H3. unfold interpolate.
  replace (minFrom >? maxFrom) with false by lia. rewrite !bool_decide_eq_true_2 by done.
  replace (maxFrom - minFrom =? 0) with false by lia. cbn [negb orb].
  assert (Hlow : from <= minFrom ->
    (minTo <= maxTo -> (from - minFrom) * (maxTo - minTo) ÷ (maxFrom - minFrom) <= 0)
    /\ (maxTo <= minTo -> 0 <= (from - minFrom) * (maxTo - minTo) ÷ (maxFrom - minFrom))).
  { intros Hf. split; intros Ht; Z.to_euclidean_division_equations; nia. }
  assert (Hhigh : maxFrom <= from ->
    (minTo <= maxTo -> maxTo - minTo <= (from - minFrom) * (maxTo - minTo) ÷ (maxFrom - minFrom))
    /\ (maxTo <= minTo -> (from - minFrom) * (maxTo - minTo) ÷ (maxFrom - minFrom) <= maxTo - minTo)).
  { intros Hf. split; intros Ht; Z.to_euclidean_division_equations; nia. }
  revert Hlow Hhigh. generalize ((from - minFrom) * (maxTo - minTo) ÷ (maxFrom - minFrom)) as q.
  intros q Hlow Hhigh. destruct (Z.ltb_spec minTo maxTo); (eexists; split; [reflexivity|]);
    repeat match goal with
           | |- context [?a <? ?b] => destruct (Z.ltb_spec a b)
           | |- context [?a >? ?b] => destruct (Z.gtb_spec a b)
           end; lia.
Qed.

(** ** Examples *)
Module DiskSamples.
Import WarningRange.

(** A disk of 10 GiB, of which some KiB are left, and a read-only one. *)
Definition root (free : BinNums.Z) : MountPoint := Mount "/" 10485760 5000000 (10485760 - free) false.
Definition cdrom : MountPoint := Mount "/media" 700000 700000 700000 true.
Definition usage (free : BinNums.Z) : list MountPoint := [root free; cdrom].

Definition garbage : notifier := Notifier true true true true.
Definition toInt (n : BinNums.Z) : BinNums.Z := if decide (fits_int n) then n else 0.

Lemma toInt_fits (n : BinNums.Z) : fits_int n -> toInt n = n.
Proof. intros H. unfold toInt. by rewrite decide_True. Qed.

Lemma usage_sane (free : BinNums.Z) : -1000000 <= free <= 10485760 -> saneDu (usage free).
Proof.
  intros H. apply Forall_cons_iff. split; [|by repeat constructor]. intros _.
  unfold sane, root. cbn [total_size pkg_size]. split; [lia|]. split; [lia|].
  unfold fits_int, INT_MIN, INT_MAX. Z.to_euclidean_division_equations; lia.
Qed.

(** The space gets short, is exceeded, gets short again, and is plenty twice
    before it is exceeded again. *)
Definition story : list (list MountPoint) :=
  map usage [300000; -5000; 300000; 5000000; 5000000; -5000].

Lemma story_sane : Forall saneDu story.
Proof. repeat (constructor; [apply usage_sane; lia|]). constructor. Qed.

Lemma disk_warnings_witness :
  checks toInt (newDiskspace false [] (garbage, garbage)) story !! 5%nat = Some [OutOfDiskSpace]
  /\ left_range (map (worst overflowZone) (take 5 story)).
Proof.
  assert (E : checks toInt (newDiskspace false [] (garbage, garbage)) story !! 5%nat
              = Some [OutOfDiskSpace]) by (vm_compute; reflexivity).
  split; [exact E|].
  destruct (disk_warnings toInt toInt_fits story (garbage, garbage) [] 5%nat [OutOfDiskSpace]) as (du & _ & H & _);
    [apply story_sane|exact E|].
  apply H. apply elem_of_cons. left. reflexivity.
Defined.

Lemma usage_listed (free : BinNums.Z) :
  Forall (fun p => readonly p = false <->
    Exists (fun q => readonly q = false /\ dir q = dir p) (get_du [] (usage 0))) (usage free).
Proof.
  apply Forall_cons_iff. split; [split; [intros _; by left|done]|].
  apply Forall_cons_iff. split; [|constructor]. split; [done|]. unfold usage, get_du.
  rewrite !List.Exists_cons, List.Exists_nil. cbn. intros [[_ H]|[[H _]|H]]; done.
Qed.

Lemma same_warnings_witness :
  updates toInt (newUsageList [] (usage 0) (garbage, garbage)) story
  = checks toInt (newDiskspace false [] (garbage, garbage)) story.
Proof.
  apply (same_warnings toInt (usage 0) [] story).
  repeat (constructor; [apply usage_listed|]). constructor.
Defined.

(** After one check with plenty of space the warning is not repeated when the
    space is exceeded again. *)
Lemma not_warned_again :
  checks toInt (newDiskspace false [] (garbage, garbage)) (map usage [-5000; 5000000; -5000])
  = [[OutOfDiskSpace]; []; []].
Proof. vm_compute. reflexivity. Qed.

(** If less than 1 MiB is missing nobody is asked by the Qt selector, while the
    text mode selector reports it. *)
Lemma little_missing :
  checkDiskUsage (Some (fst (updateDiskUsage toInt (newUsageList [] (usage 0) (garbage, garbage))
                                             (usage (-1000))))) = false
  /\ checkDiskSpace (fun _ _ _ => "1000.0") "needs" "more disk space" (usage (-1000)) <> "".
Proof. split; [vm_compute; reflexivity|]. by vm_compute. Qed.

End DiskSamples.
