(* ===== verification/Log.v ===== *)
(** * The log

    src/libyui/src/YUILog.cc: the streams that the macros [yuiDebug()],
    [yuiMilestone()], [yuiWarning()] and [yuiError()] write to. Each thread has
    a buffer of its own ([logBuffer]) that collects the text until there is a
    newline and then passes the line on to the logger function, together with
    the place in the source code; [YUILog] is the singleton with the buffers of
    the threads, the logger function, the hooks and the log file. Pointers to
    strings may be null, which is [None]; following a null pointer is
    undefined. Calls of logger functions and hooks, and what the standard logger
    prints, are the output. The threads run in small steps that interleave in any
    way: the search for the buffer of a thread, adding one, and each call of the
    logger function are steps of their own, and a vector that changes while
    another thread uses it is undefined. *)
From S2P Require Import Prelude CNum Shortcut.
From Stdlib Require Import Ascii String.
From stdpp Require Import pretty gmap.

Local Open Scope Z_scope.

Module YUILog.

Inductive YUILogLevel_t : Type :=
  YUI_LOG_DEBUG | YUI_LOG_MILESTONE | YUI_LOG_WARNING | YUI_LOG_ERROR.

#[global] Instance level_eq_dec : EqDecision YUILogLevel_t.
Proof. solve_decision. Defined.

(** Where a message comes from. *)
Record location : Type := Location {
  logLevel : YUILogLevel_t;
  logComponent : option cstring;
  sourceFileName : option cstring;
  lineNo : Z;
  functionName : option cstring;
}.

#[global] Instance location_eq_dec : EqDecision location.
Proof. solve_decision. Defined.

Definition newline : ascii := ascii_of_nat 10.

(** [line.c_str()] as a C string ends at the first zero. *)
Fixpoint c_str (s : cstring) : cstring :=
  match s with
  | [] => []
  | c :: s' => if decide (c = Ascii.zero) then [] else c :: c_str s'
  end.

(** [YUILog::basename()] *)
Fixpoint find_last_of (c : ascii) (s : cstring) (i : nat) (found : option nat) : option nat :=
  match s with
  | [] => found
  | a :: s' => find_last_of c s' (S i) (if decide (a = c) then Some i else found)
  end.

Definition basename (fileNameWithPath : cstring) : cstring :=
  match find_last_of "/"%char fileNameWithPath 0 None with
  | None => fileNameWithPath
  | Some lastSlashPos => drop (lastSlashPos + 1) fileNameWithPath
  end.

(** What a logger function is called with. *)
Record message : Type := Message {
  m_level : YUILogLevel_t;
  m_component : option cstring;
  m_file : cstring;
  m_line : Z;
  m_function : option cstring;
  m_text : cstring;
}.

(** ** The buffer of a thread *)

Record logBuffer : Type := LogBuffer { place : location; buffer : cstring }.

(** The constructor leaves the level uninitialised. *)
Definition newBuffer (garbage : YUILogLevel_t) : logBuffer :=
  LogBuffer (Location garbage None None 0 None) [].

(** [buffer.find_first_of( c, start )] *)
Fixpoint firstFrom (c : ascii) (s : cstring) (i : nat) : option nat :=
  match s with
  | [] => None
  | a :: s' => if decide (a = c) then Some i else firstFrom c s' (S i)
  end.
Definition find_first_of (c : ascii) (s : cstring) (start : nat) : option nat :=
  firstFrom c (drop start s) start.

(** A line is passed on to the logger function. *)
Definition toMessage (l : location) (line : cstring) : outcome message :=
  match sourceFileName l with
  | None => Undefined
  | Some file =>
      Done (Message (logLevel l) (logComponent l) (basename file) (lineNo l) (functionName l) (c_str line))
  end.

Fixpoint writeLoop (fuel : nat) (l : location) (buf : cstring) (start : nat) (out : list message)
    : outcome (nat * list message) :=
  match fuel with
  | O => NoFuel
  | S fuel' =>
      if (start <? List.length buf)%nat then
        match find_first_of newline buf start with
        | None => Done (start, out)
        | Some newline_pos =>
            let! m := toMessage l (take (newline_pos - start) (drop start buf)) in
            writeLoop fuel' l buf (newline_pos + 1) (out ++ [m])%list
        end
      else Done (start, out)
  end.

Definition writeBuffer (b : logBuffer) (sequence : cstring) : outcome (logBuffer * list message) :=
  let buf := (buffer b ++ sequence)%list in
  let! r := writeLoop (S (List.length buf)) (place b) buf 0 [] in
  let '(start, out) := r in
  Done (LogBuffer (place b) (if (start <? List.length buf)%nat then drop start buf else []), out).

Definition xsputn (b : logBuffer) (sequence : cstring) : outcome (logBuffer * list message) :=
  writeBuffer b sequence.

(** [None] is [EOF]. *)
Definition overflow (b : logBuffer) (ch : option ascii) : outcome (logBuffer * list message) :=
  match ch with
  | Some c => writeBuffer b [c]
  | None => Done (b, [])
  end.

Definition flush (b : logBuffer) : outcome (logBuffer * list message) := writeBuffer b [newline].

(** ** The log of a thread *)

(** [strcmp( a, b ) != 0] *)
Definition differ (a b : option cstring) : outcome bool :=
  match a, b with
  | Some a, Some b => Done (negb (bool_decide (a = b)))
  | _, _ => Undefined
  end.

Definition otherPlace (l l' : location) : outcome bool :=
  if negb (bool_decide (logLevel l = logLevel l')) || negb (lineNo l =? lineNo l') then Done true
  else
    let! c := differ (logComponent l) (logComponent l') in
    if c then Done true
    else
      let! f := differ (sourceFileName l) (sourceFileName l') in
      if f then Done true else differ (functionName l) (functionName l').

(** [YUILog::log()] with the buffer of the thread. *)
Definition log (b : logBuffer) (l : location) : outcome (logBuffer * list message) :=
  let! flushed :=
    match buffer b with
    | [] => Done (b, [])
    | _ :: _ => let! other := otherPlace (place b) l in if other then flush b else Done (b, [])
    end in
  let '(b, out) := flushed in
  Done (LogBuffer l (buffer b), out).

(** What a thread does: it gets the stream for a place, and writes to it. *)
Inductive op : Type := Log (l : location) | Put (text : cstring).



(** ** All threads *)

(** The search of [findCurrentThread()], which goes backwards. *)
Fixpoint lastIndex (t : nat) (l : list nat) (i : nat) (found : option nat) : option nat :=
  match l with
  | [] => found
  | t' :: l' => lastIndex t l' (S i) (if decide (t' = t) then Some i else found)
  end.

Definition findThread (l : list (nat * logBuffer)) (t : nat) : option nat := lastIndex t (map fst l) 0 None.

(** Where a thread is: not in the log, in the search for its buffer, in adding
    one to the vector, or in passing lines on to the logger function. *)
Inductive phase : Type :=
| Idle
| Searching (l : location)
| Adding (l : location)
| Writing (pending : list message).

Definition inVector (p : phase) : bool := match p with Searching _ | Adding _ => true | _ => false end.
Definition isAdding (p : phase) : bool := match p with Adding _ => true | _ => false end.

(** [threadLogInfo], the threads with what they still have to do, and the calls
    of the logger function so far. *)
Record system : Type := System {
  threadLogInfo : list (nat * logBuffer);
  threads : gmap nat (phase * list op);
  out : list (nat * message);
}.

Definition goes (s : system) (t : nat) (p : phase) (todo : list op) : system :=
  System (threadLogInfo s) (<[t := (p, todo)]> (threads s)) (out s).

(** Some other thread is in such a phase. *)
Definition anotherIs (f : phase -> bool) (s : system) (t : nat) : bool :=
  negb (bool_decide (map_Forall (fun t' x => t' = t \/ f (fst x) = false) (threads s))).

(** An operation on the buffer at a place in the vector. *)
Definition useBuffer (s : system) (t i : nat) (todo : list op) (f : logBuffer -> outcome (logBuffer * list message))
    : outcome system :=
  match threadLogInfo s !! i with
  | None => Undefined
  | Some (_, b) =>
      let! r := f b in
      let '(b', ms) := r in
      Done (System (<[i := (t, b')]> (threadLogInfo s)) (<[t := (Writing ms, todo)]> (threads s)) (out s))
  end.

(** The next step of a thread: [log()] with [findCurrentThread()], or a text for
    the stream that the thread got last. *)
Definition step (garbage : YUILogLevel_t) (s : system) (t : nat) : outcome system :=
  match threads s !! t with
  | None => Done s
  | Some (Idle, []) => Done s
  | Some (Idle, Log l :: todo) =>
      if anotherIs isAdding s t then Undefined else Done (goes s t (Searching l) todo)
  | Some (Idle, Put text :: todo) =>
      match findThread (threadLogInfo s) t with
      | Some i => useBuffer s t i todo (fun b => xsputn b text)
      | None => Undefined
      end
  | Some (Searching l, todo) =>
      match findThread (threadLogInfo s) t with
      | Some i => useBuffer s t i todo (fun b => log b l)
      | None => if anotherIs inVector s t then Undefined else Done (goes s t (Adding l) todo)
      end
  | Some (Adding l, todo) =>
      useBuffer (System (threadLogInfo s ++ [(t, newBuffer garbage)])%list (threads s) (out s))
                t (List.length (threadLogInfo s)) todo (fun b => log b l)
  | Some (Writing [], todo) => Done (goes s t Idle todo)
  | Some (Writing (m :: ms), todo) =>
      Done (System (threadLogInfo s) (<[t := (Writing ms, todo)]> (threads s)) (out s ++ [(t, m)])%list)
  end.

(** ** Lines *)







Definition messageAt (l : location) (file : cstring) (line : cstring) : message :=
  Message (logLevel l) (logComponent l) (basename file) (lineNo l) (functionName l) (c_str line).





(** ** What is logged *)


Definition messageOf (l : location) (line : cstring) : message :=
  messageAt l (default [] (sourceFileName l)) line.



(** The message with the whole line. *)
Definition fullMessage (l : location) (line : cstring) : message :=
  Message (logLevel l) (logComponent l) (basename (default [] (sourceFileName l))) (lineNo l) (functionName l) line.






















(** ** Threads do not mix *)


Definition opsOf {A : Type} (t : nat) (l : list (nat * A)) : list A :=
  flat_map (fun x => if decide (fst x = t) then [snd x] else []) l.





Lemma opsOf_pair {A : Type} (t t' : nat) (l : list A) :
  opsOf t' (map (pair t) l) = if decide (t = t') then l else [].
Proof.
  induction l as [|x l IH]; cbn; [by destruct (decide _)|]. unfold opsOf in IH. rewrite IH.
  by destruct (decide (t = t')).
Qed.












(** ** The logger function and the log file *)

(** Logger functions and hooks of the application are numbers; [None] is the
    standard logger, or no hook. The standard logger writes to the standard
    error output or to the log file. *)
Record settings : Type := Settings {
  logFileName : cstring;
  toFile : bool;
  loggerFunction : option nat;
  enableDebugLoggingHook : option nat;
  debugLoggingEnabledHook : option nat;
  enableDebugLogging : bool;
}.

Definition newSettings : settings := Settings [] false None None None false.

Inductive output : Type :=
| Called (function : nat) (m : message)
| HookCalled (hook : nat) (debugLogging : bool)
| Printed (file : option cstring) (line : cstring)
| CantOpen (file : cstring).

Section settings.
(** Whether a log file can be opened, and what a hook answers. *)
Context (canOpen : cstring -> bool) (hookAnswer : nat -> bool).

Definition setLogFileName (s : settings) (name : cstring) : settings * bool * list output :=
  let put toFile := Settings name toFile (loggerFunction s) (enableDebugLoggingHook s)
                             (debugLoggingEnabledHook s) (enableDebugLogging s) in
  match name with
  | [] => (put false, true, [])
  | _ => if canOpen name then (put true, true, []) else (put false, false, [CantOpen name])
  end.

Definition setEnableDebugLogging (s : settings) (debugLogging : bool) : settings * list output :=
  (Settings (logFileName s) (toFile s) (loggerFunction s) (enableDebugLoggingHook s)
            (debugLoggingEnabledHook s) debugLogging,
   match enableDebugLoggingHook s with Some h => [HookCalled h debugLogging] | None => [] end).

Definition debugLoggingEnabled (s : settings) : bool :=
  match debugLoggingEnabledHook s with
  | Some h => hookAnswer h
  | None => enableDebugLogging s
  end.

Definition setLoggerFunction (s : settings) (f : option nat) : settings :=
  Settings (logFileName s) (toFile s) f (enableDebugLoggingHook s) (debugLoggingEnabledHook s)
           (enableDebugLogging s).

Definition setEnableDebugLoggingHooks (s : settings) (enable isEnabled : option nat) : settings :=
  Settings (logFileName s) (toFile s) (loggerFunction s) enable isEnabled (enableDebugLogging s).

Definition logLevelStr (l : YUILogLevel_t) : cstring :=
  match l with
  | YUI_LOG_DEBUG => str "dbg"
  | YUI_LOG_MILESTONE => str "_M_"
  | YUI_LOG_WARNING => str "WRN"
  | YUI_LOG_ERROR => str "ERR"
  end.

(** [stdLogger()]; the file name and the message are never null here. *)
Definition stdLogger (s : settings) (m : message) : list output :=
  if bool_decide (m_level m = YUI_LOG_DEBUG) && negb (debugLoggingEnabled s) then []
  else
    [Printed (if toFile s then Some (logFileName s) else None)
       (str "<" ++ logLevelStr (m_level m) ++ str "> [" ++ default (str "??") (m_component m)
        ++ str "] " ++ m_file m ++ str ":" ++ str (pretty (m_line m)) ++ str " "
        ++ default (str "??") (m_function m) ++ str "(): " ++ m_text m ++ [newline])%list].

(** [writeBuffer()] passes a line on to the logger function of the moment. *)
Definition deliver (s : settings) (m : message) : list output :=
  match loggerFunction s with
  | Some f => [Called f m]
  | None => stdLogger s m
  end.

(** With the standard logger each message is one line, in the log file if it
    could be opened; debug messages only if they are wanted. *)
Lemma std_one_line (s : settings) (m : message) :
  loggerFunction s = None ->
  match deliver s m with
  | [] => m_level m = YUI_LOG_DEBUG /\ debugLoggingEnabled s = false
  | [Printed file line] =>
      file = (if toFile s then Some (logFileName s) else None)
      /\ exists start, line = (start ++ m_text m ++ [newline])%list
  | _ => False
  end.
Proof.
  intros H. unfold deliver. rewrite H. unfold stdLogger.
  destruct (bool_decide _ && _) eqn:E.
  - apply andb_true_iff in E as [E1%bool_decide_eq_true E2%negb_true_iff]. done.
  - split; [done|]. eexists. by rewrite !app_assoc.
Qed.

(** A log file that cannot be opened leaves the output on standard error. *)
Lemma log_file (s : settings) (name : cstring) :
  let '(s', ok, _) := setLogFileName s name in
  logFileName s' = name /\ ok = (bool_decide (name = []) || canOpen name)
  /\ toFile s' = (negb (bool_decide (name = [])) && canOpen name)
  /\ loggerFunction s' = loggerFunction s.
Proof. destruct name as [|c name]; [done|]. cbn. by destruct (canOpen _). Qed.

End settings.

End YUILog.

(** ** Examples *)
Module LogSamples.
Import YUILog.

Definition here : location :=
  Location YUI_LOG_MILESTONE (Some (str "ui")) (Some (str "src/YDialog.cc")) 42 (Some (str "open")).
Definition there : location :=
  Location YUI_LOG_ERROR (Some (str "ui")) (Some (str "src/YWidget.cc")) 7 (Some (str "run")).






(** Two threads whose first statements run at the same time. *)
Theorem registration_race :
  ofold (step YUI_LOG_DEBUG) [1; 2; 1]%nat
        (System [] (list_to_map [(1%nat, (Idle, [Log here])); (2%nat, (Idle, [Log there]))]) []) = Undefined.
Proof. vm_compute. reflexivity. Qed.

(** What follows a zero in a line is not logged. *)
Theorem zero_cuts :
  xsputn (LogBuffer here []) [Ascii.zero; newline] = Done (LogBuffer here [], [fullMessage here []]).
Proof. vm_compute. reflexivity. Qed.

(** [flush()] of an empty buffer logs an empty line, and the destructors call
    it twice for each thread. *)
Lemma empty_line_flushed : flush (LogBuffer here []) = Done (LogBuffer here [], [messageOf here []]).
Proof. vm_compute. reflexivity. Qed.

(** The standard logger is ready for a null pointer instead of a file name, but
    the line does not get that far. *)
Lemma null_file_undefined :
  writeBuffer (LogBuffer (Location YUI_LOG_ERROR None None 0 None) []) [newline] = Undefined.
Proof. vm_compute. reflexivity. Qed.

End LogSamples.
