(* ===== verification/Loader.v ===== *)
(** * Loading the user interface

    src/libyui/src/YUILoader.cc, YUIPlugin.cc and YEnvVar.cc: which plug-in is
    loaded, depending on the environment, the command line, the terminal and the
    plug-ins that are installed, and what happens if it cannot be loaded. What
    the system provides is a parameter ([system]): the environment, whether
    standard output is a terminal, which files exist, which of them can be
    loaded, which symbols they have, and what their functions return. The
    arguments and the settings are those of Config.v. *)
From S2P Require Import Prelude CNum CString Shortcut Config.
From Stdlib Require Import Ascii String.
Local Open Scope Z_scope.

(** ** Environment variables *)
Module YEnvVar.

Record YEnvVar : Type := EnvVar { _name : string; _isSet : bool; _value : string }.

Definition newEnvVar (getenv : string -> option string) (name : string) : YEnvVar :=
  if negb (String.eqb name "") then
    match getenv name with
    | Some val => EnvVar name true val
    | None => EnvVar name false ""
    end
  else EnvVar name false "".

(** The letters of the C locale. *)
Definition lower (c : ascii) : ascii :=
  if (65 <=? code c) && (code c <=? 90) then ascii_of_N (N_of_ascii c + 32) else c.

Fixpoint tolower (s : string) : string :=
  match s with
  | EmptyString => EmptyString
  | String.String c s' => String.String (lower c) (tolower s')
  end.

(** [s.find( sub ) != npos] *)
Definition has (s sub : string) : bool :=
  match String.index 0 sub s with Some _ => true | None => false end.

Definition isEqual (e : YEnvVar) (str : string) (caseSensitive : bool) : bool :=
  if negb (_isSet e) then false
  else if caseSensitive then String.eqb (_value e) str
  else String.eqb (tolower (_value e)) (tolower str).

Definition contains (e : YEnvVar) (str : string) (caseSensitive : bool) : bool :=
  if negb (_isSet e) then false
  else if caseSensitive then has (_value e) str
  else has (tolower (_value e)) (tolower str).

End YEnvVar.

(** ** Plug-ins *)
Module YUILoader.

Definition YUIPlugin_Qt : string := "qt".
Definition YUIPlugin_NCurses : string := "ncurses".
Definition YUIPlugin_Gtk : string := "gtk".
Definition YUIPlugin_RestAPI : string := "rest-api".
Definition YUIPlugin_Ncurses_RestAPI : string := "ncurses-rest-api".
Definition YUIPlugin_Qt_RestAPI : string := "qt-rest-api".

(** [createUI] is what the function at a symbol does: it throws, or returns a
    UI ([true]) or a null pointer. *)
Record system : Type := System {
  getenv : string -> option string;
  arguments : list YCommandLine.arg_t;
  isatty : bool;
  fileExists : string -> bool;
  dlopen : string -> bool;
  dlsym : string -> string -> bool;
  createUI : string -> string -> bool -> result bool;
  pluginSuffix : string;
}.

(** The settings, the plug-in and the symbol that made the UI, the functions to
    call at exit, and the libraries that were opened. *)
Record loader : Type := Loader {
  settings : YSettings.settings;
  ui : option (string * string);
  atExit : nat;
  opened : list string;
}.

Section loading.
Context (sys : system).

(** The file of a plug-in, as [pluginExists()] and [pluginLibFullPath()] name
    it. *)
Definition pluginFile (pluginBaseName : string) : string :=
  String.append "libyui-" (String.append pluginBaseName (pluginSuffix sys)).

Definition pluginExists (pluginBaseName : string) : bool := fileExists sys (pluginFile pluginBaseName).

(** [YUIPlugin]: the constructor opens the library. *)
Definition newPlugin (l : loader) (name : string) : loader * bool :=
  (Loader (settings l) (ui l) (atExit l) (opened l ++ [name])%list, dlopen sys (pluginFile name)).

Definition locateSymbol (name symbol : string) : bool :=
  dlopen sys (pluginFile name) && dlsym sys (pluginFile name) symbol.

Definition rest_enabled : outcome bool :=
  match getenv sys "YUI_HTTP_PORT" with
  | Some env => let! n := atoi (str env) in Done (n >? 0)
  | None => Done false
  end.

(** The end of both load functions: the function creates the UI, and
    [deleteUI()] is to be called at exit. *)
Definition create (l : loader) (name symbol error : string) (withThreads : bool)
    : loader * option YUIException :=
  match createUI sys name symbol withThreads with
  | Throw e => (l, Some e)
  | Ok made =>
      let l := Loader (settings l) (if made then Some (name, symbol) else ui l) (S (atExit l)) (opened l) in
      if made then (l, None) else (l, Some (YUIPluginException error))
  end.

Definition loadRestAPIPlugin (l : loader) (wantedGUI : string) (withThreads : bool)
    : loader * option YUIException :=
  if pluginExists YUIPlugin_RestAPI then
    let '(l, rest) := newPlugin l YUIPlugin_RestAPI in
    let '(l, found) :=
      if String.eqb wantedGUI YUIPlugin_Qt then
        let '(l, qt) := newPlugin l YUIPlugin_Qt in
        let '(l, qtRest) := newPlugin l YUIPlugin_Qt_RestAPI in
        (l, if (qt && rest && qtRest) && locateSymbol YUIPlugin_Qt_RestAPI "createYQHttpUI"
            then Some (YUIPlugin_Qt_RestAPI, "createYQHttpUI"%string) else None)
      else (l, None) in
    let '(l, found) :=
      if String.eqb wantedGUI YUIPlugin_NCurses || match found with None => true | Some _ => false end
      then
        let '(l, nc) := newPlugin l YUIPlugin_NCurses in
        let '(l, ncRest) := newPlugin l YUIPlugin_Ncurses_RestAPI in
        (l, if nc && rest && ncRest
            then if locateSymbol YUIPlugin_Ncurses_RestAPI "createYNCHttpUI"
                 then Some (YUIPlugin_Ncurses_RestAPI, "createYNCHttpUI"%string) else None
            else found)
      else (l, found) in
    match found with
    | Some (name, symbol) => create l name symbol YUIPlugin_RestAPI withThreads
    | None => (l, Some (YUIPluginException YUIPlugin_RestAPI))
    end
  else (l, Some (YUIPluginException YUIPlugin_RestAPI)).

Definition loadPlugin (l : loader) (name : string) (withThreads : bool)
    : outcome (loader * option YUIException) :=
  let! rest := rest_enabled in
  if rest && (String.eqb name YUIPlugin_NCurses || String.eqb name YUIPlugin_Qt)
  then Done (loadRestAPIPlugin l name withThreads)
  else
    let '(l, success) := newPlugin l name in
    if success && locateSymbol name "_Z8createUIb"
    then Done (create l name "_Z8createUIb" name withThreads)
    else Done (l, Some (YUIPluginException name)).

(** [YUILoader::deleteUI()] *)
Definition deleteUI (l : loader) : loader := Loader (settings l) None (atExit l) (opened l).

(** ** Which plug-in *)

Definition variable (name : string) : string := default ""%string (getenv sys name).

Definition isGtkDesktop : bool :=
  existsb (YEnvVar.has (variable "XDG_CURRENT_DESKTOP"))
          ["Cinnamon"; "GNOME"; "LXDE"; "MATE"; "Pantheon"; "ROX"; "Unity"; "XFCE"]%string.

Definition bytes (s : string) : YCommandLine.arg_t := map code (str s).
Definition hasArgument (s : string) : bool :=
  negb (YCommandLine.find (arguments sys) (bytes s) =? -1).

(** The user's choice: the command line, or else the environment. *)
Definition wants (plugin option_ : string) : bool :=
  if hasArgument "--gtk" || hasArgument "--ncurses" || hasArgument "--qt"
  then hasArgument option_
  else String.eqb (variable "YUI_PREFERED_BACKEND") plugin.

Definition wantGtk : bool := wants YUIPlugin_Gtk "--gtk".
Definition wantNcurses : bool := wants YUIPlugin_NCurses "--ncurses".
Definition wantQt : bool := wants YUIPlugin_Qt "--qt".

Definition wantedGUI : string :=
  let haveGtk := pluginExists YUIPlugin_Gtk in
  let haveNcurses := pluginExists YUIPlugin_NCurses in
  let haveQt := pluginExists YUIPlugin_Qt in
  if (haveGtk || haveQt) && negb (String.eqb (variable "DISPLAY") "")
     && (negb wantNcurses || negb (isatty sys))
  then
    let wanted := if haveQt then YUIPlugin_Qt else ""%string in
    if haveGtk && (((isGtkDesktop || wantGtk) && negb wantQt) || negb haveQt)
    then YUIPlugin_Gtk else wanted
  else if haveNcurses && isatty sys then YUIPlugin_NCurses
  else ""%string.

(** [YSettings::loadedUI( ui, true )] *)
Definition setLoadedUI (l : loader) (name : string) : loader :=
  match YSettings.loadedUI (settings l) name true with
  | Ok s => Loader s (ui l) (atExit l) (opened l)
  | Throw _ => l
  end.

Definition loadUI (l : loader) (withThreads : bool) : outcome (loader * option YUIException) :=
  let wanted := wantedGUI in
  if negb (String.eqb wanted "") then
    let l := setLoadedUI l wanted in
    let! rest := rest_enabled in
    let! r := if rest && negb (String.eqb wanted YUIPlugin_Gtk)
              then Done (loadRestAPIPlugin l wanted withThreads)
              else loadPlugin l wanted withThreads in
    match r with
    | (l, None) => Done (l, None)
    | (l, Some ex) =>
        if negb (String.eqb wanted YUIPlugin_NCurses) && pluginExists YUIPlugin_NCurses && isatty sys
        then
          let! r := loadPlugin (setLoadedUI l YUIPlugin_NCurses) YUIPlugin_NCurses withThreads in
          match r with
          | (l, None) => Done (l, None)
          | (l, Some _) => Done (l, Some ex)
          end
        else Done (l, Some ex)
    end
  else Done (l, Some YUICantLoadAnyUIException).

(** ** External widgets *)
Definition loadExternalWidgetsPlugin (l : loader) (name plugin_name symbol : string)
    : loader * option YUIException :=
  let '(l, success) := newPlugin l plugin_name in
  if success && locateSymbol plugin_name symbol then
    match createUI sys plugin_name symbol false with
    | Throw e => (l, Some e)
    | Ok true => (l, None)
    | Ok false => (l, Some (YUIPluginException plugin_name))
    end
  else (l, Some (YUIPluginException plugin_name)).

Definition loadExternalWidgets (l : loader) (name symbol : string) : loader * option YUIException :=
  let wanted := String.append name (String.append "-" (YSettings._loadedUI (settings l))) in
  if pluginExists wanted then loadExternalWidgetsPlugin l name wanted symbol
  else (l, Some YUICantLoadAnyUIException).

(** ** What is loaded *)

(** A plug-in that can be used here: it is installed, and there is the terminal
    or the display that it needs. *)
Definition usable (name : string) : Prop :=
  pluginExists name = true
  /\ (name = YUIPlugin_NCurses /\ isatty sys = true
      \/ (name = YUIPlugin_Qt \/ name = YUIPlugin_Gtk) /\ variable "DISPLAY" <> ""%string).

Lemma wantedGUI_usable : wantedGUI <> ""%string -> usable wantedGUI.
Proof.
  unfold wantedGUI, usable.
  destruct (pluginExists YUIPlugin_Gtk) eqn:Eg, (pluginExists YUIPlugin_Qt) eqn:Eq,
    (String.eqb_spec (variable "DISPLAY") ""), wantNcurses, (isatty sys) eqn:Et, isGtkDesktop,
    wantGtk, wantQt, (pluginExists YUIPlugin_NCurses) eqn:En; cbn; intros H; try done;
    (split; [done|]); (by left) || (right; split; [by left|done]) || (right; split; [by right|done]).
Qed.

(** The user gets the plug-in that was asked for, if it can be used. *)
Lemma user_choice :
  (wantNcurses = true -> pluginExists YUIPlugin_NCurses = true -> isatty sys = true ->
   wantedGUI = YUIPlugin_NCurses)
  /\ (variable "DISPLAY" <> ""%string -> wantNcurses = false ->
      (wantQt = true -> pluginExists YUIPlugin_Qt = true -> wantedGUI = YUIPlugin_Qt)
      /\ (wantGtk = true -> wantQt = false -> pluginExists YUIPlugin_Gtk = true ->
          wantedGUI = YUIPlugin_Gtk)).
Proof.
  unfold wantedGUI. split.
  - intros -> -> ->. by rewrite andb_false_r.
  - intros Hd%String.eqb_neq ->. rewrite Hd. split.
    + intros -> ->. by rewrite orb_true_r, !andb_false_r.
    + intros -> -> ->. cbn. by rewrite orb_true_r.
Qed.

(** The command line is stronger than the environment. *)
Lemma command_line_wins (plugin option_ : string) :
  hasArgument option_ = true -> option_ ∈ ["--gtk"; "--ncurses"; "--qt"]%string ->
  wants plugin option_ = true.
Proof.
  intros H Hin. unfold wants. rewrite H. set_unfold.
  destruct Hin as [->|[->|[->|[]]]]; rewrite H, ?orb_true_r; done.
Qed.

Definition loads (name : string) : Prop :=
  dlopen sys (pluginFile name) = true /\ dlsym sys (pluginFile name) "_Z8createUIb" = true.

Lemma loadPlugin_spec (l : loader) (name : string) (withThreads : bool) :
  rest_enabled = Done false ->
  exists l' e, loadPlugin l name withThreads = Done (l', e) /\ settings l' = settings l
  /\ (e = None -> ui l' = Some (name, "_Z8createUIb"%string) /\ loads name)
  /\ (e <> None -> ui l' = ui l).
Proof.
  intros Hr. unfold loadPlugin. rewrite Hr. cbn [obind andb newPlugin].
  unfold locateSymbol, loads, create.
  destruct (dlopen sys (pluginFile name)) eqn:Eo, (dlsym sys (pluginFile name) "_Z8createUIb") eqn:Es;
    cbn [andb]; try (by eexists _, _).
  destruct (createUI sys name "_Z8createUIb" withThreads) as [[|]|ex]; by eexists _, _.
Qed.

(** Without the REST API, loading ends in one of two ways: there is a UI, made by
    a plug-in that can be used here and whose name is in the settings; or there
    is an exception and no UI has been made. *)
Theorem ui_loaded (l : loader) (withThreads : bool) :
  rest_enabled = Done false ->
  exists l' e, loadUI l withThreads = Done (l', e)
  /\ match e with
     | None => exists name, ui l' = Some (name, "_Z8createUIb"%string)
               /\ YSettings._loadedUI (settings l') = name /\ usable name /\ loads name
     | Some _ => ui l' = ui l
     end.
Proof.
  intros Hr. unfold loadUI. destruct (String.eqb_spec wantedGUI "") as [E|Hne]; cbn [negb].
  { by eexists _, _. }
  rewrite Hr. cbn [obind andb].
  destruct (loadPlugin_spec (setLoadedUI l wantedGUI) wantedGUI withThreads Hr)
    as (l1 & e1 & -> & Hs & Hok & Hbad). cbn [obind].
  assert (Hset : forall l name, YSettings._loadedUI (settings (setLoadedUI l name)) = name
    /\ ui (setLoadedUI l name) = ui l).
  { intros l0 name. unfold setLoadedUI, YSettings.loadedUI. by rewrite orb_true_r. }
  destruct e1 as [ex|].
  - destruct (negb (String.eqb wantedGUI YUIPlugin_NCurses)), (pluginExists YUIPlugin_NCurses) eqn:En,
      (isatty sys) eqn:Et; cbn [andb];
      try (eexists _, _; split; [reflexivity|]; rewrite Hbad by done; apply Hset).
    destruct (loadPlugin_spec (setLoadedUI l1 YUIPlugin_NCurses) YUIPlugin_NCurses withThreads Hr)
      as (l2 & e2 & -> & Hs2 & Hok2 & Hbad2). cbn [obind].
    destruct e2 as [ex2|]; (eexists _, _; split; [reflexivity|]).
    + rewrite Hbad2, (proj2 (Hset _ _)), Hbad, (proj2 (Hset _ _)) by done. done.
    + destruct (Hok2 eq_refl) as [Hui Hl]. exists YUIPlugin_NCurses.
      rewrite Hs2, (proj1 (Hset _ _)). split; [done|]. split; [done|]. split; [|done].
      split; [done|]. by left.
  - eexists _, _. split; [reflexivity|]. destruct (Hok eq_refl) as [Hui Hl]. exists wantedGUI.
    rewrite Hs, (proj1 (Hset _ _)). split; [done|]. split; [done|]. split; [|done].
    by apply wantedGUI_usable.
Qed.

End loading.
End YUILoader.

(** ** Examples *)
Module LoaderSamples.
Import YUILoader.

Definition environment (l : list (string * string)) (name : string) : option string :=
  snd <$> List.find (fun kv => String.eqb (fst kv) name) l.

Definition among (l : list string) (suffix : string) (file : string) : bool :=
  existsb (fun name => String.eqb (String.append "libyui-" (String.append name suffix)) file) l.

(** A system with some plug-ins, of which some can be loaded, in a terminal. *)
Definition machine (env : list (string * string)) (args : list string)
    (installed loadable : list string) : system :=
  System (environment env) (map (fun a => map code (str a)) args) true (among installed ".so.15")
         (among loadable ".so.15") (fun _ _ => true) (fun _ _ _ => Ok true) ".so.15".

Definition fresh : loader := Loader (YSettings.Settings "" "" "" "" "") None 0 [].

(** Qt cannot be loaded, and the text mode is taken. *)
Definition brokenQt : system := machine [("DISPLAY", ":0")]%string [] ["qt"; "ncurses"]%string ["ncurses"]%string.

Lemma ui_loaded_witness :
  rest_enabled brokenQt = Done false
  /\ exists l' e, loadUI brokenQt fresh false = Done (l', e)
  /\ match e with
     | None => exists name, ui l' = Some (name, "_Z8createUIb"%string)
               /\ YSettings._loadedUI (settings l') = name /\ usable brokenQt name /\ loads brokenQt name
     | Some _ => ui l' = ui fresh
     end.
Proof.
  assert (H : rest_enabled brokenQt = Done false) by reflexivity.
  split; [exact H|]. apply (ui_loaded brokenQt fresh false), H.
Defined.

Lemma text_mode_taken :
  loadUI brokenQt fresh false
  = Done (Loader (YSettings.Settings "" "" "" "" "ncurses") (Some ("ncurses", "_Z8createUIb")%string) 1
                 ["qt"; "ncurses"]%string, None).
Proof. vm_compute. reflexivity. Qed.

(** With the REST API the text mode is taken as well, but the settings still
    name Qt, and the plug-ins for external widgets are looked for under that
    name. *)
Definition brokenQtRest : system :=
  machine [("DISPLAY", ":0"); ("YUI_HTTP_PORT", "9999")]%string []
          ["qt"; "ncurses"; "rest-api"; "qt-rest-api"; "ncurses-rest-api"]%string
          ["ncurses"; "rest-api"; "ncurses-rest-api"]%string.

Lemma rest_fallback_misnamed :
  match loadUI brokenQtRest fresh false with
  | Done (l, None) => (ui l, YSettings._loadedUI (settings l))
  | _ => (None, ""%string)
  end = (Some ("ncurses-rest-api", "createYNCHttpUI"), "qt")%string.
Proof. vm_compute. reflexivity. Qed.

(** Whoever asks for the text mode where it is not installed gets nothing,
    although Qt could be used. *)
Lemma no_text_mode :
  loadUI (machine [("DISPLAY", ":0")] ["/usr/bin/app"; "--ncurses"] ["qt"] ["qt"])%string fresh false
  = Done (fresh, Some YUICantLoadAnyUIException).
Proof. vm_compute. reflexivity. Qed.

End LoaderSamples.
