(* ===== verification/InputLoop.v ===== *)
(** * The input loop of the text mode

    src/libyui-ncurses/src/NCDialog.cc: how a dialog reads keys, which of them it
    handles itself and which it passes on to the widget with the focus, and the
    events that come out; NCtoY2Event.cc turns them into events of the base
    library. The focus is that of Focus.v. What the terminal delivers is a list
    of readings, one for each call of [getinput()]; [None] is [WEOF]. Where the
    list ends nothing more is typed: a call with a timeout gets [WEOF], and one
    without keeps waiting. The widgets are a parameter: what a key does to them, the event they answer with, and the
    changes of the focus that they ask for. *)
From S2P Require Import Prelude CNum NodeTree Focus.
From stdpp Require Import gmap.

Local Open Scope Z_scope.

Module NCInput.
Import Tnode NCDialog.

(** ** Events *)

Inductive evType : Type :=
  handled | none | cancel | timeout | button | menu | key | debug | special_key_config.

#[global] Instance evType_eq_dec : EqDecision evType.
Proof. solve_decision. Defined.

(** The reasons of the base library that matter here. *)
Inductive EventReason : Type := UnknownReason | Activated | SelectionChanged | ValueChanged.

#[global] Instance EventReason_eq_dec : EqDecision EventReason.
Proof. solve_decision. Defined.

Record NCursesEvent : Type := Event {
  type : evType;
  widget : option nat;
  selection : option nat;
  result : string;
  keySymbol : string;
  reason : EventReason;
}.

Definition newEvent (t : evType) : NCursesEvent := Event t None None "" "" UnknownReason.

Definition isReturnEvent (e : NCursesEvent) : bool :=
  match type e with handled | none => false | _ => true end.

(** [operator void*]: the event is not [none]. *)
Definition isEvent (e : NCursesEvent) : bool := match type e with none => false | _ => true end.

Definition withWidget (e : NCursesEvent) (w : option nat) : NCursesEvent :=
  Event (type e) w (selection e) (result e) (keySymbol e) (reason e).

(** What the base library gets, [NCtoY2Event::propagate()]; [isValid] tells
    which widgets exist. *)
Inductive YEvent : Type :=
| YWidgetEvent (w : nat) (r : EventReason)
| YMenuEvent (item : nat)
| YMenuIdEvent (id : string)
| YCancelEvent
| YDebugEvent
| YSpecialKeyEvent (id : string)
| YTimeoutEvent
| YKeyEvent (symbol : string) (w : nat).

Definition propagate (isValid : nat -> bool) (e : NCursesEvent) : option YEvent :=
  let valid := match widget e with Some w => if isValid w then Some w else None | None => None end in
  match type e with
  | button => (fun w => YWidgetEvent w (reason e)) <$> valid
  | menu =>
      valid ≫= (fun _ => Some (match selection e with
                               | Some item => YMenuEvent item
                               | None => YMenuIdEvent (result e)
                               end))
  | cancel => Some YCancelEvent
  | debug => Some YDebugEvent
  | special_key_config => Some (YSpecialKeyEvent "config")
  | timeout => Some YTimeoutEvent
  | key => (fun w => YKeyEvent (keySymbol e) w) <$> valid
  | none | handled => None
  end.

(** ** Keys *)

Definition KEY_MIN : Z := 257.
Definition KEY_MAX : Z := 511.
Definition KEY_BTAB : Z := 353.
Definition KEY_SLEFT : Z := 393.
Definition KEY_SRIGHT : Z := 402.
Definition KEY_RESIZE : Z := 410.
Definition KEY_F (n : Z) : Z := 264 + n.
Definition CTRL (letter : Z) : Z := Z.land letter 31.
Definition KEY_TAB : Z := 9.
Definition KEY_RETURN : Z := 10.
Definition KEY_ESC : Z := 27.

(** [getinput()] on a terminal with UTF-8: [get_wch()] returns an error, a
    character or the code of a function key; characters that could be taken for
    such a code are marked. *)
Inductive wchResult : Type := ERR | OK (c : Z) | KEY_CODE_YES (k : Z).

Definition getinput_utf8 (ret : wchResult) : option Z :=
  match ret with
  | ERR => None
  | OK c => Some (if c >? KEY_MIN then c + 65535 else c)
  | KEY_CODE_YES k => Some k
  end.

(** On other terminals: [getch()] returns -1 or a byte or a code; [recode] is
    the conversion of a printable character. *)
Definition getinput_other (isprint : Z -> bool) (recode : Z -> Z) (gotch : Z) : option Z :=
  if negb (gotch =? -1) then
    if ((KEY_MIN >? gotch) || (KEY_MAX <? gotch)) && isprint gotch then
      let got := recode gotch in
      Some (if negb (gotch =? got) then got + 65535 else got)
    else Some gotch
  else None.

(** A character is never taken for the code of a function key above the first. *)
Lemma character_marked (c k : Z) :
  0 <= c -> KEY_MIN < k <= KEY_MAX -> getinput_utf8 (OK c) <> getinput_utf8 (KEY_CODE_YES k).
Proof.
  unfold KEY_MIN, KEY_MAX. intros Hc Hk. cbn. unfold KEY_MIN.
  destruct (Z.gtb_spec c 257); intros [= E]; lia.
Qed.

(** ** Reading keys *)
Abbreviation readings := (list (option Z)).

(** The loop with the timeouts of at most 25 seconds; it gives the rest of the
    timeout as well. *)
Fixpoint delayLoop (timeout_millisec : Z) (ins : readings) : option Z * Z * readings :=
  let rest := if timeout_millisec >? 25000 then timeout_millisec - 25000 else 0 in
  match ins with
  | [] => (None, 0, [])
  | got :: ins' =>
      match got with
      | None => if rest >? 0 then delayLoop rest ins' else (got, rest, ins')
      | Some _ => (got, rest, ins')
      end
  end.

(** The call of [getinput()], waiting or not, with the rest of the timeout;
    [None] if it waits for ever. *)
Definition firstInput (timeout_millisec : Z) (ins : readings) : option (option Z * Z * readings) :=
  if timeout_millisec <? 0 then
    match ins with [] => None | got :: ins' => Some (got, timeout_millisec, ins') end
  else if negb (timeout_millisec =? 0) then Some (delayLoop timeout_millisec ins)
  else Some (match ins with [] => (None, 0, []) | got :: ins' => (got, 0, ins') end).

(** The loop after a change of the size of the terminal; [i] is the counter
    that starts with 100. *)
Fixpoint resizeLoop (again : Z -> readings -> outcome (option (option Z * readings))) (i : nat)
    (timeout_millisec : Z) (ins : readings) : outcome (option (option Z * readings)) :=
  let! r := again timeout_millisec ins in
  match i with
  | O | S O => Done r
  | S i' =>
      match r with
      | Some (None, ins') => if timeout_millisec <? 0 then resizeLoop again i' timeout_millisec ins' else Done r
      | _ => Done r
      end
  end.

Fixpoint getchFuel (fuel : nat) (timeout_millisec : Z) (ins : readings) : outcome (option (option Z * readings)) :=
  match fuel with
  | O => NoFuel
  | S fuel' =>
      match firstInput timeout_millisec ins with
      | None => Done None
      | Some (got, t, ins') =>
          if bool_decide (got = Some KEY_RESIZE) then resizeLoop (getchFuel fuel') 100 t ins'
          else Done (Some (got, ins'))
      end
  end.

(** A call of [getch()] calls itself only after a reading. *)
Definition getch (timeout_millisec : Z) (ins : readings) : outcome (option (option Z * readings)) :=
  getchFuel (S (length ins)) timeout_millisec ins.










(** A key that is typed is read at once. *)
Lemma getch_key (t k : Z) (ins : readings) :
  k <> KEY_RESIZE -> getch t (Some k :: ins) = Done (Some (Some k, ins)).
Proof.
  intros Hk. unfold getch. cbn [getchFuel length]. unfold firstInput.
  destruct (t <? 0); [|destruct (negb (t =? 0))]; cbn [delayLoop];
    by rewrite bool_decide_eq_false_2 by congruence.
Qed.

(** ** The dialog *)

(** What is done to the screen and to the input, apart from the widgets. *)
Inductive effect : Type :=
| FlushInput | HotkeyHelp | NextStyle | ChangeStyle | ScreenShot | DialogSpy | RefreshScreen.

Section dialog.

(** The state of the widgets; what a key does to the widget with the focus, with
    the event it returns and the changes of the focus and of other widgets it
    causes; the same for a hot key; the widgets a hot key belongs to; the button
    whose ID the user enters in a popup; whether the hidden menu is there. *)
Context {W : Type}.
Context (winExist : nat -> bool).
Context (wHandleInput wHandleHotkey : W -> nat -> Z -> W * NCursesEvent * list change).
Context (hotkeys : W -> Z -> nat -> bool).
Context (askSendWidgetID : W -> option nat).
Context (hiddenMenu : bool).

Record state : Type := State {
  dlg : dialog;
  pan : bool;
  pendingEvent : NCursesEvent;
  eventReason : EventReason;
  world : W;
  effects : list effect;
}.

Definition withDlg (s : state) (d : dialog) : state :=
  State d (pan s) (pendingEvent s) (eventReason s) (world s) (effects s).
Definition withPending (s : state) (e : NCursesEvent) : state :=
  State (dlg s) (pan s) e (eventReason s) (world s) (effects s).
Definition does (s : state) (e : effect) : state :=
  State (dlg s) (pan s) (pendingEvent s) (eventReason s) (world s) (effects s ++ [e]).

(** A handler of the widget with the focus, which is always a widget of the
    dialog; the event gets its address afterwards, when the focus may have
    moved. *)
Definition callWidget (handler : W -> nat -> Z -> W * NCursesEvent * list change) (s : state) (k : Z)
    : outcome (NCursesEvent * state) :=
  match wActive (dlg s) with
  | None => Undefined
  | Some w =>
      let '(world', ret, moves) := handler (world s) w k in
      let! d := changes winExist (dlg s) moves in
      Done (ret, State d (pan s) (pendingEvent s) (eventReason s) world' (effects s))
  end.

Definition getInputEvent (s : state) (ch : Z) : outcome (NCursesEvent * state) :=
  let! r := callWidget wHandleInput s ch in
  let '(ret, s) := r in
  Done (withWidget ret (wActive (dlg s)), s).

(** Keys are of an unsigned type, so that [key >= 0] always holds. *)
Definition getHotkeyEvent (s : state) (k : Z) : outcome (NCursesEvent * state) :=
  let! r := ActivateByKey (dlg s) (hotkeys (world s) k) in
  let '(d, found) := r in
  let s := withDlg s d in
  let! r := if found : bool then callWidget wHandleHotkey s k else Done (newEvent none, s) in
  let '(ret, s) := r in
  Done (withWidget ret (wActive (dlg s)), s).

Definition pend (m : outcome (NCursesEvent * state)) : outcome state :=
  let! r := m in
  let '(e, s) := r in
  Done (withPending s e).

(** [case CTRL( 'D' )]: [hch] is the second key. *)
Definition debugKey (s : state) (hch : option Z) : state :=
  let s := does s FlushInput in
  match hch with
  | Some hch =>
      if hch =? KEY_F 1 then does s HotkeyHelp
      else if hch =? 68 then does s ScreenShot
      else if hch =? 83 then (if hiddenMenu then does s ChangeStyle else s)
      else if hch =? 89 then does s DialogSpy
      else if hch =? 67 then withPending s (newEvent special_key_config)
      else if hch =? 71 then withPending s (newEvent debug)
      else s
  | None => s
  end.

(** [case KEY_ESC]: [hch] is the key that follows at once. *)
Definition escapeKey (s : state) (ch : Z) (hch : option Z) : outcome state :=
  let s := does s FlushInput in
  match hch with
  | None => pend (getInputEvent s ch)
  | Some h =>
      if (h =? KEY_ESC) || (h =? CTRL 88) then pend (getInputEvent s h)
      else pend (getHotkeyEvent s h)
  end.

(** The case of the switch for one key, with the readings it takes; the result
    is the state in which the dialog waits if it waits for ever. *)
Definition handleKey (s : state) (ch : Z) (ins : readings) : outcome ((state * readings) + state) :=
  let simply (m : outcome state) := let! s := m in Done (inl (s, ins)) in
  if ch =? KEY_F 13 then Done (inl (does s HotkeyHelp, ins))
  else if ch =? KEY_F 16 then Done (inl (does s NextStyle, ins))
  else if ch =? KEY_F 18 then
    match askSendWidgetID (world s) with
    | Some b =>
        simply (let! r := ActivateWidget (dlg s) b in
                pend (getInputEvent (withDlg s (fst r)) KEY_RETURN))
    | None => Done (inl (s, ins))
    end
  else if ch =? CTRL 68 then
    let! r := getch (-1) ins in
    match r with
    | Some (hch, ins) => Done (inl (debugKey s hch, ins))
    | None => Done (inr s)
    end
  else if (ch =? KEY_TAB) || (ch =? CTRL 70) then
    simply (let! d := ActivateNext winExist (dlg s) in Done (withDlg s d))
  else if (ch =? KEY_BTAB) || (ch =? CTRL 66) then
    simply (let! d := ActivatePrev winExist (dlg s) in Done (withDlg s d))
  else if ch =? CTRL 76 then Done (inl (does s RefreshScreen, ins))
  else if ch =? CTRL 65 then simply (pend (getInputEvent s KEY_SLEFT))
  else if ch =? CTRL 69 then simply (pend (getInputEvent s KEY_SRIGHT))
  else if (ch =? KEY_ESC) || (ch =? CTRL 88) then
    let! r := getch 0 ins in
    match r with
    | Some (hch, ins) => let! s := escapeKey s ch hch in Done (inl (s, ins))
    | None => Done (inr s)
    end
  else if (KEY_F 1 <=? ch) && (ch <=? KEY_F 24) then simply (pend (getHotkeyEvent s ch))
  else simply (pend (getInputEvent s ch)).

(** [case WEOF] *)
Definition noInput (s : state) (timeout_millisec : Z) : state :=
  if isEvent (pendingEvent s) then s
  else if timeout_millisec =? -1 then withPending s (newEvent cancel)
  else if timeout_millisec >? 0 then withPending s (newEvent timeout)
  else s.

(** The loop of [processInput()]; each turn takes at least one reading. *)
Fixpoint inputLoop (fuel : nat) (s : state) (timeout_millisec : Z) (ins : readings)
    : outcome ((state * readings) + state) :=
  match fuel with
  | O => NoFuel
  | S fuel' =>
      if isReturnEvent (pendingEvent s) then Done (inl (s, ins))
      else
        let! r := getch timeout_millisec ins in
        match r with
        | None => Done (inr s)
        | Some (None, ins') => Done (inl (noInput s timeout_millisec, ins'))
        | Some (Some ch, ins') =>
            let! r := handleKey s ch ins' in
            match r with
            | inl (s', ins'') => inputLoop fuel' s' timeout_millisec ins''
            | inr s' => Done (inr s')
            end
        end
  end.

Definition focusIsActive (d : dialog) : outcome bool :=
  match wActive d with
  | None => Undefined
  | Some w => let! st := GetState d w in Done (bool_decide (st = WSactive))
  end.

Definition processInput (s : state) (timeout_millisec : Z) (ins : readings)
    : outcome ((state * readings) + state) :=
  if isEvent (pendingEvent s) then Done (inl (does s FlushInput, ins))
  else
    let! a := focusIsActive (dlg s) in
    let! s := if a : bool then Done s else let! d := Activate winExist (dlg s) None in Done (withDlg s d) in
    let! a := focusIsActive (dlg s) in
    if negb a then
      if timeout_millisec =? -1 then
        let s := withPending s (newEvent cancel) in
        let! r := getch (-1) ins in
        match r with
        | Some (_, ins) => Done (inl (s, ins))
        | None => Done (inr s)
        end
      else
        let s := does s FlushInput in
        Done (inl (if timeout_millisec >? 0 then withPending s (newEvent timeout) else s, ins))
    else inputLoop (S (length ins)) s timeout_millisec ins.

Definition flushTypeahead (s : state) : bool :=
  negb (bool_decide (eventReason s = ValueChanged) || bool_decide (eventReason s = SelectionChanged)).

(** The pending event is taken. *)
Definition takeEvent (s : state) : NCursesEvent * state :=
  (pendingEvent s,
   State (dlg s) (pan s) (newEvent none) (reason (pendingEvent s)) (world s) (effects s)).

Definition userInput (s : state) (timeout_millisec : Z) (ins : readings)
    : outcome ((NCursesEvent * state * readings) + state) :=
  let s := if flushTypeahead s then does s FlushInput else s in
  if negb (pan s) then Done (inl (newEvent cancel, s, ins))
  else
    let! r := processInput s timeout_millisec ins in
    match r with
    | inl (s, ins) => Done (inl (takeEvent s, ins))
    | inr s => Done (inr s)
    end.

(** [activate()] of a dialog that may have no panel, which is never hidden
    while the dialog waits for input. *)
Definition activateDialog (s : state) (newactive : bool) : outcome state :=
  if pan s then let! d := activate winExist (dlg s) false newactive in Done (withDlg s d)
  else
    let d := dlg s in
    Done (withDlg s (Dialog (nodes d) (this d) (wstate d) (grabbed d) (wActive d) newactive)).

Definition pollInput (s : state) : outcome (NCursesEvent * state) :=
  if negb (pan s) then Done (newEvent cancel, s)
  else
    let! s := if isEvent (pendingEvent s)
              then if active (dlg s) then activateDialog s false else Done s
              else if active (dlg s) then Done s else activateDialog s true in
    Done (takeEvent s).

Definition idleInput (s : state) (ins : readings) : outcome ((state * readings) + state) :=
  if negb (pan s) then Done (inl (does s FlushInput, ins))
  else if negb (active (dlg s)) then Done (inl (if flushTypeahead s then does s FlushInput else s, ins))
  else processInput s 0 ins.

(** The back ends of [YDialog::waitForEvent()] and [YDialog::pollEvent()]. *)
Definition waitForEventInternal (isValid : nat -> bool) (s : state) (timeout_millisec : Z) (ins : readings)
    : outcome ((option YEvent * state * readings) + state) :=
  let! s := activateDialog s true in
  let! r := userInput s (if timeout_millisec =? 0 then -1 else timeout_millisec) ins in
  match r with
  | inl (e, s, ins) =>
      let! s := activateDialog s false in
      Done (inl (propagate isValid e, s, ins))
  | inr s => Done (inr s)
  end.

Definition pollEventInternal (isValid : nat -> bool) (s : state) : outcome (option YEvent * state) :=
  let! r := pollInput s in
  let '(e, s) := r in
  Done (propagate isValid e, s).

(** ** The focus while keys are read *)















(** ** What comes out *)

Lemma event_cases (e : NCursesEvent) :
  isEvent e = true -> isReturnEvent e = true \/ type e = handled.
Proof. unfold isEvent, isReturnEvent. destruct (type e); auto. Qed.

Lemma inputLoop_result (tm : Z) (fuel : nat) : tm = -1 \/ 0 < tm ->
  forall (s s' : state) (ins ins' : readings), inputLoop fuel s tm ins = Done (inl (s', ins')) ->
  isReturnEvent (pendingEvent s') = true \/ type (pendingEvent s') = handled.
Proof.
  intros Htm. induction fuel as [|fuel IH]; intros s s' ins ins'; [done|]. cbn [inputLoop].
  destruct (isReturnEvent (pendingEvent s)) eqn:Er; [intros [= <- <-]; by left|].
  destruct (getch tm ins) as [[[[ch|] ins1]|]| | |]; try done; cbn [obind].
  - destruct (handleKey s ch ins1) as [[[s2 ins2]|s2]| | |]; try done. apply IH.
  - intros [= <- <-]. unfold noInput. destruct (isEvent (pendingEvent s)) eqn:Ee; [by apply event_cases|].
    destruct (Z.eqb_spec tm (-1)); [by left|]. destruct (Z.gtb_spec tm 0); [by left|lia].
Qed.

(** Waiting for the user, with or without a timeout, ends with an event for the
    application or with one that a widget has handled, and leaves none
    pending. *)
Theorem input_result (s s' : state) (tm : Z) (ins ins' : readings) (e : NCursesEvent) :
  tm = -1 \/ 0 < tm -> userInput s tm ins = Done (inl (e, s', ins')) ->
  (isReturnEvent e = true \/ type e = handled) /\ (pan s = true -> isEvent (pendingEvent s') = false).
Proof.
  intros Htm. unfold userInput.
  assert (Hpan : pan (if flushTypeahead s then does s FlushInput else s) = pan s) by (by destruct (flushTypeahead s)).
  rewrite Hpan. generalize (if flushTypeahead s then does s FlushInput else s) as s0. intros s0.
  destruct (pan s); cbn [negb]; [|intros [= <- <- <-]; split; [by left|done]].
  assert (Hres : forall s1 ins1, processInput s0 tm ins = Done (inl (s1, ins1)) ->
    isReturnEvent (pendingEvent s1) = true \/ type (pendingEvent s1) = handled).
  { intros s1 ins1. unfold processInput.
    destruct (isEvent (pendingEvent s0)) eqn:Ee; [intros [= <- <-]; by apply event_cases|].
    destruct (focusIsActive (dlg s0)) as [b| | |]; try done. cbn [obind].
    destruct (if b then _ else _) as [s2| | |]; try done. cbn [obind].
    destruct (focusIsActive (dlg s2)) as [b2| | |]; try done. cbn [obind].
    destruct b2; cbn [negb]; [by apply inputLoop_result|].
    destruct (Z.eqb_spec tm (-1)) as [->|Hne].
    - destruct (getch (-1) ins) as [[[r ins2]|]| | |]; try done. cbn. intros [= <- <-]. by left.
    - destruct (Z.gtb_spec tm 0); [|lia]. intros [= <- <-]. by left. }
  destruct (processInput s0 tm ins) as [[[s1 ins1]|s1]| | |]; try done. cbn [obind takeEvent].
  intros [= <- <- <-]. split; [by eapply Hres|done].
Qed.

(** ** Typed keys *)

(** A key that the dialog does not handle itself: not the tabulator keys and
    Ctrl-F and Ctrl-B, which stand for them, not Esc, Ctrl-X, Ctrl-D and Ctrl-L,
    not a function key, and not the code of a new size. *)
Definition plainKey (k : Z) : bool :=
  negb (existsb (Z.eqb k) [KEY_RESIZE; KEY_F 13; KEY_F 16; KEY_F 18; CTRL 68; KEY_TAB; CTRL 70;
                           KEY_BTAB; CTRL 66; CTRL 76; KEY_ESC; CTRL 88])
  && negb ((KEY_F 1 <=? k) && (k <=? KEY_F 24)).

(** What the widget gets for it: Ctrl-A and Ctrl-E stand for other keys. *)
Definition passed (k : Z) : Z :=
  if k =? CTRL 65 then KEY_SLEFT else if k =? CTRL 69 then KEY_SRIGHT else k.

Lemma plainKey_handled (s : state) (k : Z) (ins : readings) : plainKey k = true ->
  k <> KEY_RESIZE /\ handleKey s k ins = (let! s := pend (getInputEvent s (passed k)) in Done (inl (s, ins))).
Proof.
  unfold plainKey. intros [H1%negb_true_iff H2%negb_true_iff]%andb_true_iff. cbn [existsb] in H1.
  repeat (apply orb_false_iff in H1 as [?%Z.eqb_neq H1]). split; [done|]. unfold handleKey, passed.
  destruct (Z.eqb_spec k (CTRL 65)) as [->|]; [done|]. destruct (Z.eqb_spec k (CTRL 69)) as [->|]; [done|].
  repeat (rewrite (proj2 (Z.eqb_neq _ _)) by done). cbn [orb]. by rewrite H2.
Qed.

(** The keys go to the widget with the focus, one after the other, until it
    answers with an event for the application. *)
Fixpoint typing (s : state) (ks : list Z) : outcome (state * list Z) :=
  match ks with
  | [] => Done (s, [])
  | k :: ks' =>
      if isReturnEvent (pendingEvent s) then Done (s, ks)
      else let! s' := pend (getInputEvent s (passed k)) in typing s' ks'
  end.

Lemma inputLoop_typing (tm : Z) (ks : list Z) : Forall (fun k => plainKey k = true) ks ->
  forall (fuel : nat) (s s' : state) (left : list Z) (rest : readings), (length ks < fuel)%nat ->
  typing s ks = Done (s', left) -> isReturnEvent (pendingEvent s') = true ->
  inputLoop fuel s tm (map Some ks ++ rest) = Done (inl (s', map Some left ++ rest)).
Proof.
  induction 1 as [|k ks Hk _ IH]; intros fuel s s' left rest Hf Ht He.
  - destruct fuel as [|fuel]; [cbn in Hf; lia|]. injection Ht as <- <-. cbn [inputLoop]. by rewrite He.
  - destruct fuel as [|fuel]; [cbn in Hf; lia|]. cbn [typing] in Ht. cbn [inputLoop].
    destruct (isReturnEvent (pendingEvent s)); [by injection Ht as <- <-|].
    cbn [map app]. destruct (plainKey_handled s k (map Some ks ++ rest) Hk) as [Hne Hh].
    rewrite getch_key by done. cbn [obind]. rewrite Hh.
    destruct (pend (getInputEvent s (passed k))) as [s1| | |]; try done. cbn [obind] in *.
    apply IH; [cbn in Hf; lia|done|done].
Qed.

(** C23: If the focus is on an active widget and no event is pending, the keys that the
    dialog does not handle itself are passed on to the widget with the focus, key
    by key and nothing else, up to the key that makes an event for the
    application; later keys stay in the input. The keys of the dialog are the
    tabulator keys, Esc, the function keys and Ctrl with B, D, F, L or X; Ctrl-A
    and Ctrl-E are passed on as Shift-Left and Shift-Right, and all other keys as
    they are. *)
Theorem keys_delivered (tm : Z) (ks left : list Z) (rest : readings) (s s' : state) :
  Forall (fun k => plainKey k = true) ks -> isEvent (pendingEvent s) = false ->
  focusIsActive (dlg s) = Done true ->
  typing s ks = Done (s', left) -> isReturnEvent (pendingEvent s') = true ->
  processInput s tm (map Some ks ++ rest) = Done (inl (s', map Some left ++ rest)).
Proof.
  intros Hks He Hf Ht Hr. unfold processInput. rewrite He, Hf. cbn [obind]. rewrite Hf. cbn [obind negb].
  apply inputLoop_typing; [done| |done|done]. rewrite length_app, length_map. lia.
Qed.

End dialog.

End NCInput.

(** ** Examples *)
Module InputSamples.
Import Tnode NodeSamples NCDialog FocusSamples NCInput.

(** Widgets that collect the keys and answer the return key; the key [a] is one
    they handle. *)
Definition collect (typed : list Z) (w : nat) (k : Z) : list Z * NCursesEvent * list change :=
  if k =? KEY_RETURN then (typed, Event button None None "" "" Activated, [])
  else (typed ++ [k], newEvent (if k =? 97 then handled else none), []).

Definition sampleState : state (W := list Z) :=
  State sampleDialog true (newEvent none) UnknownReason [] [].

Abbreviation process :=
  (processInput (fun _ => true) collect collect (fun _ _ _ => false) (fun _ => None) false).
Abbreviation type_ := (typing (fun _ => true) collect).



(** A letter, Ctrl-A and the return key; the last letter stays in the input. *)
Definition afterReturn : state (W := list Z) :=
  State sampleDialog true (Event button (Some 2%nat) None "" "" Activated) UnknownReason [98; KEY_SLEFT] [].

Lemma keys_delivered_witness :
  process sampleState (-1) (map Some [98; CTRL 65; KEY_RETURN; 100] ++ [])
  = Done (inl (afterReturn, map Some [100] ++ [])).
Proof.
  apply (keys_delivered (fun _ => true) collect collect (fun _ _ _ => false) (fun _ => None) false
    (-1) [98; CTRL 65; KEY_RETURN; 100] [100] [] sampleState afterReturn).
  - repeat constructor.
  - reflexivity.
  - vm_compute. reflexivity.
  - vm_compute. reflexivity.
  - reflexivity.
Defined.

Lemma input_result_witness :
  exists e s', userInput (fun _ => true) collect collect (fun _ _ _ => false) (fun _ => None) false
                 sampleState (-1) [Some KEY_RETURN] = Done (inl (e, s', []))
  /\ (isReturnEvent e = true \/ type e = handled) /\ (pan sampleState = true -> isEvent (pendingEvent s') = false).
Proof.
  eexists _, _. split; [vm_compute; reflexivity|].
  apply (input_result (fun _ => true) collect collect (fun _ _ _ => false) (fun _ => None) false
    sampleState _ (-1) [Some KEY_RETURN] []); [by left|]. vm_compute. reflexivity.
Defined.

(** A change of the size of the terminal ends a timeout of up to 25 seconds: the
    key after it is read without waiting. *)
Lemma resize_ends_timeout (t : Z) (ins : readings) : 0 < t <= 25000 ->
  getch t (Some KEY_RESIZE :: ins) = resizeLoop (getchFuel (S (length ins))) 100 0 ins.
Proof.
  intros Ht. unfold getch. cbn [getchFuel length]. unfold firstInput.
  replace (t <? 0) with false by lia. replace (t =? 0) with false by lia. cbn [negb delayLoop].
  rewrite bool_decide_eq_true_2 by done. by replace (t >? 25000) with false by lia.
Qed.

(** If the last key was one that a widget has handled, there is no timeout
    event: the handled one is kept. *)
Lemma timeout_swallowed :
  match process sampleState 1000 [Some 97; None] with
  | Done (inl (s, _)) => type (pendingEvent s)
  | _ => none
  end = handled.
Proof. vm_compute. reflexivity. Qed.

End InputSamples.
