(* ===== verification/DateTime.v ===== *)
(** * Date and time fields of the text mode

    src/libyui-ncurses/src/NCInputTextBase.cc, NCDateField.cc and NCTimeField.cc:
    fields with a text of a fixed form, "2000-01-01" or "00:00:00", whose digits
    are overwritten. The two classes have the same code but for the positions of
    the separators, the check of the text, and the cursor after a new value;
    [mask] has what is different. A text is a list of code points. That the check
    of a date (a facet of boost's date library) accepts a text is a parameter;
    the check of a time is in the source. *)
From S2P Require Import Prelude CNum.

Local Open Scope Z_scope.

(** ** The base class *)
Module NCInputTextBase.

(** [win] is whether the window exists. *)
Record field : Type := Field {
  buffer : list Z;
  fldstart : Z;
  fldlength : Z;
  curpos : Z;
  win : bool;
}.

Definition blen (f : field) : Z := Z.of_nat (length (buffer f)).
Definition u32 (n : Z) : Z := n mod 2 ^ 32.

Definition withBuffer (f : field) (b : list Z) : field := Field b (fldstart f) (fldlength f) (curpos f) (win f).
Definition withStart (f : field) (s : Z) : field := Field (buffer f) s (fldlength f) (curpos f) (win f).
Definition withCursor (f : field) (p : Z) : field := Field (buffer f) (fldstart f) (fldlength f) p (win f).

Section base.
Context (maxInputLength : Z).

Definition bufferFull (f : field) : bool := negb (maxInputLength =? 0) && (blen f =? maxInputLength).
Definition maxCursor (f : field) : Z := if bufferFull f then blen f - 1 else blen f.

(** [tUpdate()] up to the drawing. *)
Definition tUpdate (f : field) : field :=
  if negb (win f) then f
  else
    let maxc := maxCursor f in
    let f := if curpos f >? maxc then withCursor f maxc else f in
    if maxc <? fldlength f then withStart f 0
    else
      let f := if curpos f <=? fldstart f
               then withStart f (if negb (curpos f =? 0) then curpos f - 1 else 0) else f in
      if curpos f >=? u32 (fldstart f + fldlength f - 1)
      then withStart f (u32 (curpos f + (if curpos f =? maxc then 1 else 2) - fldlength f)) else f.

(** [wCreate()]: the length of the visible part in a window of a width, and the
    redrawing that follows. *)
Definition wCreate (f : field) (maxFldLength width : Z) : field :=
  let w := if negb (maxFldLength =? 0) && (maxFldLength <? width) then maxFldLength else width in
  tUpdate (Field (buffer f) (fldstart f) w (curpos f) true).

Definition wDelete (f : field) : field := Field (buffer f) (fldstart f) (fldlength f) (curpos f) false.

End base.
End NCInputTextBase.

(** ** Fields with a mask *)
Module Masked.
Import NCInputTextBase.

(** The length of the field, the positions of the separators, the check of a
    text, and whether a new value moves the cursor to the end. *)
Record mask : Type := Mask {
  fieldLength : Z;
  firstSep : Z;
  secondSep : Z;
  valid : list Z -> bool;
  cursorToEnd : bool;
}.

Inductive key : Type :=
| KEY_BACKSPACE | KEY_DC | KEY_HOME | KEY_END | KEY_LEFT | KEY_RIGHT
| KEY_RETURN | KEY_HOTKEY | KEY_OTHER (k : Z).

Inductive event : Type := none | Activated | ValueChanged.

Section masked.
Context (m : mask) (iswprint : Z -> bool) (notify returnOnReturn_b : bool).

Definition afterSep (p : Z) : bool := (p =? firstSep m + 1) || (p =? secondSep m + 1).
Definition beforeSep (p : Z) : bool := (p =? firstSep m - 1) || (p =? secondSep m - 1).

Definition setValue (f : field) (ntext : list Z) : field :=
  if valid m ntext then
    let b := if Z.of_nat (length ntext) >? fieldLength m then take (Z.to_nat (fieldLength m)) ntext else ntext in
    tUpdate (fieldLength m)
      (Field b 0 (fldlength f) (if cursorToEnd m then Z.of_nat (length b) else curpos f) (win f))
  else f.

(** The constructor: the field gets its length with its window. *)
Definition newField (initial : list Z) : field := setValue (Field [] 0 0 0 false) initial.

(** [buffer.erase( curpos, 1 )] and [buffer.insert( curpos, 1, ch )]; a position
    behind the end throws [std::out_of_range], which nobody catches. *)
Definition overwrite (f : field) (ch : Z) : outcome field :=
  if curpos f >? blen f then Undefined
  else
    let p := Z.to_nat (curpos f) in
    let erased := take p (buffer f) ++ drop (S p) (buffer f) in
    Done (withBuffer f (take p erased ++ ch :: drop p erased)).

(** The cursor, whether the field is updated, and whether there is a beep. *)
Record reaction : Type := Reaction { after : field; update : bool; beep : bool }.

Definition moved (f : field) (p : Z) : outcome reaction := Done (Reaction (withCursor f p) true false).
Definition refused (f : field) : outcome reaction := Done (Reaction f false true).

Definition isDigit (k : Z) : bool := (48 <=? k) && (k <=? 57).

Definition typed (f : field) (k : Z) : outcome reaction :=
  let special := k >? 65535 in
  let k := if special then k - 65535 else k in
  if (negb special && (257 <? k) && (511 >? k)) || negb (iswprint k) then refused f
  else if isDigit k then
    let buf := buffer f in
    let! f := overwrite f k in
    if valid m (buffer f) then
      if beforeSep (curpos f) then moved f (curpos f + 2)
      else if curpos f <? maxCursor (fieldLength m) f then moved f (curpos f + 1)
      else moved f (curpos f)
    else refused (setValue f buf)
  else refused f.

Definition react (f : field) (k : key) : outcome reaction :=
  match k with
  | KEY_BACKSPACE =>
      let! f := overwrite f 48 in
      moved f (if afterSep (curpos f) then curpos f - 2
               else if negb (curpos f =? 0) then curpos f - 1 else curpos f)
  | KEY_DC =>
      if curpos f <? blen f then let! f := overwrite f 48 in moved f (curpos f) else refused f
  | KEY_HOME => if negb (curpos f =? 0) then moved f 0 else refused f
  | KEY_END =>
      if curpos f <? maxCursor (fieldLength m) f then moved f (maxCursor (fieldLength m) f) else refused f
  | KEY_LEFT =>
      if afterSep (curpos f) then moved f (curpos f - 2)
      else if negb (curpos f =? 0) then moved f (curpos f - 1) else refused f
  | KEY_RIGHT =>
      if beforeSep (curpos f) then moved f (curpos f + 2)
      else if curpos f <? maxCursor (fieldLength m) f then moved f (curpos f + 1) else refused f
  | KEY_RETURN | KEY_HOTKEY => Done (Reaction f false false)
  | KEY_OTHER k => typed f k
  end.

Definition wHandleInput (f : field) (k : key) : outcome (field * event * bool) :=
  let! r := react f k in
  let returned := match k with
                  | KEY_RETURN => if notify || returnOnReturn_b then Activated else none
                  | _ => none
                  end in
  if update r
  then Done (tUpdate (fieldLength m) (after r), if notify then ValueChanged else returned, beep r)
  else Done (after r, returned, beep r).

End masked.
End Masked.

(** ** The check of a time *)
Module NCTimeField.

Definition isSpace (k : Z) : bool := (k =? 32) || ((9 <=? k) && (k <=? 13)).

Fixpoint skipSpaces (s : list Z) : list Z :=
  match s with
  | [] => []
  | k :: s' => if isSpace k then skipSpaces s' else s
  end.

Fixpoint readDigits (s : list Z) (acc : Z) : Z * list Z :=
  match s with
  | k :: s' => if Masked.isDigit k then readDigits s' (10 * acc + (k - 48)) else (acc, s)
  | [] => (acc, [])
  end.

(** [ss >> n] for an [int]: blanks, a sign, digits; it fails without a digit and
    if the number is out of range. *)
Definition readInt (s : list Z) : option (Z * list Z) :=
  let s := skipSpaces s in
  let '(sign, s) := match s with
                    | k :: s' => if k =? 45 then (-1, s') else if k =? 43 then (1, s') else (1, s)
                    | [] => (1, [])
                    end in
  match s with
  | k :: _ =>
      if Masked.isDigit k then
        let '(n, rest) := readDigits s 0 in
        if decide (fits_int (sign * n)) then Some (sign * n, rest) else None
      else None
  | [] => None
  end.

(** [ss >> c] for a [char]. *)
Definition readChar (s : list Z) : option (list Z) :=
  match skipSpaces s with [] => None | _ :: s' => Some s' end.

(** A stream that has failed stays so. *)
Definition validTime (input_time : list Z) : bool :=
  match readInt input_time with
  | None => false
  | Some (hour, s) =>
      match readChar s ≫= readInt with
      | None => false
      | Some (min, s) =>
          match readChar s ≫= readInt with
          | None => false
          | Some (sec, _) => (hour <=? 23) && (min <=? 59) && (sec <=? 59)
          end
      end
  end.

(** [NCTimeField] *)
Definition timeMask : Masked.mask := Masked.Mask 8 2 5 validTime false.

(** "00:00:00" *)
Definition midnight : list Z := [48; 48; 58; 48; 48; 58; 48; 48].

End NCTimeField.

(** ** The date *)
Module NCDateField.
Section date.
(** Whether boost's facet with the format "%Y-%m-%d" reads a date. *)
Context (validDate : list Z -> bool).

(** [NCDateField] *)
Definition dateMask : Masked.mask := Masked.Mask 10 4 7 validDate true.

(** "2000-01-01" *)
Definition january : list Z := [50; 48; 48; 48; 45; 48; 49; 45; 48; 49].
End date.
End NCDateField.

(** ** The form of the text *)
Module MaskedProofs.
Import NCInputTextBase Masked.

Section form.
Context (m : mask) (iswprint : Z -> bool) (notify returnOnReturn_b : bool) (separator : Z).

(** Both separators are inside, with digits around them. *)
Hypothesis Hmask : 1 <= firstSep m /\ firstSep m + 2 <= secondSep m /\ secondSep m + 2 <= fieldLength m.

Definition isSep (i : nat) : bool := (Z.of_nat i =? firstSep m) || (Z.of_nat i =? secondSep m).

(** Digits everywhere but for the separators. *)
Definition shaped (b : list Z) : Prop :=
  Z.of_nat (length b) = fieldLength m
  /\ forall i k, b !! i = Some k -> if isSep i then k = separator else isDigit k = true.

(** The field has a window, its text has the form, and the cursor is on a
    digit. *)
Definition good (f : field) : Prop :=
  win f = true /\ shaped (buffer f)
  /\ 0 <= curpos f < fieldLength m /\ curpos f <> firstSep m /\ curpos f <> secondSep m.

Lemma maxCursor_shaped (f : field) : shaped (buffer f) -> maxCursor (fieldLength m) f = fieldLength m - 1.
Proof.
  intros [Hl _]. unfold maxCursor, bufferFull, blen. rewrite Hl, Z.eqb_refl.
  destruct (Z.eqb_spec (fieldLength m) 0); cbn; lia.
Qed.

(** Updating only scrolls, and takes back a cursor behind the last digit. *)
Lemma tUpdate_fields (f : field) : shaped (buffer f) -> win f = true ->
  buffer (tUpdate (fieldLength m) f) = buffer f /\ win (tUpdate (fieldLength m) f) = true
  /\ curpos (tUpdate (fieldLength m) f) = Z.min (curpos f) (fieldLength m - 1).
Proof.
  intros Hs Hw. unfold tUpdate. rewrite Hw, maxCursor_shaped by done. cbn [negb].
  destruct (Z.gtb_spec (curpos f) (fieldLength m - 1)); cbn [curpos withCursor fldstart fldlength];
    repeat match goal with |- context [if ?b then _ else _] => destruct b end;
    cbn; (split; [done|]); (split; [done|lia]).
Qed.

Lemma tUpdate_good (f : field) : good f -> good (tUpdate (fieldLength m) f).
Proof.
  intros (Hw & Hs & Hc & H1 & H2). destruct (tUpdate_fields f Hs Hw) as (Eb & Ew & Ec).
  unfold good. rewrite Eb, Ew, Ec. split; [done|]. split; [done|]. lia.
Qed.

Lemma overwrite_spec (f : field) (k : Z) : good f ->
  overwrite f k = Done (withBuffer f (<[Z.to_nat (curpos f) := k]> (buffer f))).
Proof.
  intros (Hw & [Hl Hd] & Hc & _). unfold overwrite, blen.
  replace (curpos f >? Z.of_nat (length (buffer f))) with false by lia. do 2 f_equal.
  assert (Hp : (Z.to_nat (curpos f) < length (buffer f))%nat) by lia.
  revert Hp. generalize (Z.to_nat (curpos f)) as p. intros p Hp.
  assert (Htake : length (take p (buffer f)) = p) by (rewrite length_take; lia).
  rewrite take_app_le, take_take by lia. rewrite drop_app_ge by lia. rewrite Htake, Nat.sub_diag, drop_0.
  rewrite insert_take_drop by done. by rewrite Nat.min_id.
Qed.

Lemma insert_shaped (b : list Z) (p : Z) (k : Z) :
  shaped b -> 0 <= p -> p <> firstSep m -> p <> secondSep m -> isDigit k = true ->
  shaped (<[Z.to_nat p := k]> b).
Proof.
  intros [Hl Hd] Hp H1 H2 Hk. split; [by rewrite length_insert|]. intros i x Hx.
  destruct (decide (i = Z.to_nat p)) as [->|Hne].
  - apply list_lookup_insert_Some in Hx as [(_ & <- & _)|[Hne _]]; [|done].
    unfold isSep. rewrite Z2Nat.id by done. by rewrite (proj2 (Z.eqb_neq _ _) H1), (proj2 (Z.eqb_neq _ _) H2).
  - rewrite list_lookup_insert_ne in Hx by done. by apply Hd.
Qed.

Lemma overwrite_good (f : field) (k : Z) : good f -> isDigit k = true ->
  good (withBuffer f (<[Z.to_nat (curpos f) := k]> (buffer f))).
Proof.
  intros (Hw & Hs & Hc & H1 & H2) Hk. split; [done|]. split; [|done].
  apply insert_shaped; try done. lia.
Qed.

Lemma setValue_good (f : field) (b : list Z) : good f -> shaped b -> good (setValue m f b).
Proof.
  intros Hg Hb. assert (Hgood := Hg). destruct Hg as (Hw & Hs & Hc & H1 & H2).
  unfold setValue. destruct (valid m b); [|done]. replace (Z.of_nat (length b) >? fieldLength m) with false
    by (destruct Hb; lia).
  set (f' := Field b 0 (fldlength f) (if cursorToEnd m then Z.of_nat (length b) else curpos f) (win f)).
  destruct (tUpdate_fields f' Hb Hw) as (Eb & Ew & Ec). unfold good. rewrite Eb, Ew, Ec.
  split; [done|]. split; [done|]. unfold f'. cbn [curpos]. destruct Hb as [Hl _].
  destruct (cursorToEnd m); lia.
Qed.

(** A reaction of a field that is good. *)
Definition reacts (o : outcome reaction) : Prop := exists r, o = Done r /\ good (after r).

Lemma moved_reacts (f : field) (p : Z) :
  good f -> 0 <= p < fieldLength m -> p <> firstSep m -> p <> secondSep m -> reacts (moved f p).
Proof.
  intros (Hw & Hs & _) Hp H1 H2. eexists. split; [done|]. unfold good. cbn [after withCursor win buffer curpos].
  tauto.
Qed.

Lemma refused_reacts (f : field) : good f -> reacts (refused f).
Proof. intros H. by eexists. Qed.

Lemma afterSep_spec (p : Z) : afterSep m p = true <-> p = firstSep m + 1 \/ p = secondSep m + 1.
Proof. unfold afterSep. rewrite orb_true_iff, !Z.eqb_eq. done. Qed.
Lemma beforeSep_spec (p : Z) : beforeSep m p = true <-> p = firstSep m - 1 \/ p = secondSep m - 1.
Proof. unfold beforeSep. rewrite orb_true_iff, !Z.eqb_eq. done. Qed.

Lemma left_reacts (f : field) (last : outcome reaction) : good f -> reacts last ->
  reacts (if afterSep m (curpos f) then moved f (curpos f - 2)
          else if negb (curpos f =? 0) then moved f (curpos f - 1) else last).
Proof.
  intros Hg Hlast. assert (Hc := Hg). destruct Hc as (_ & _ & Hc & H1 & H2).
  destruct (afterSep m (curpos f)) eqn:Ea.
  - apply afterSep_spec in Ea. apply moved_reacts; [done|lia..].
  - destruct (Z.eqb_spec (curpos f) 0); [done|]. cbn [negb].
    assert (Hn : ~ (curpos f = firstSep m + 1 \/ curpos f = secondSep m + 1))
      by (rewrite <- afterSep_spec, Ea; done).
    apply moved_reacts; [done|lia..].
Qed.

Lemma right_reacts (f : field) (last : outcome reaction) : good f -> reacts last ->
  reacts (if beforeSep m (curpos f) then moved f (curpos f + 2)
          else if curpos f <? maxCursor (fieldLength m) f then moved f (curpos f + 1) else last).
Proof.
  intros Hg Hlast. assert (Hc := Hg). destruct Hc as (_ & Hs & Hc & H1 & H2).
  rewrite maxCursor_shaped by done. destruct (beforeSep m (curpos f)) eqn:Eb.
  - apply beforeSep_spec in Eb. apply moved_reacts; [done|lia..].
  - destruct (Z.ltb_spec (curpos f) (fieldLength m - 1)); [|done].
    assert (Hn : ~ (curpos f = firstSep m - 1 \/ curpos f = secondSep m - 1))
      by (rewrite <- beforeSep_spec, Eb; done).
    apply moved_reacts; [done|lia..].
Qed.

Lemma stay_reacts (f : field) : good f -> reacts (moved f (curpos f)).
Proof. intros Hg. assert (Hc := Hg). destruct Hc as (_ & _ & Hc & H1 & H2). by apply moved_reacts. Qed.

Lemma typed_reacts (f : field) (k : Z) : good f -> reacts (typed m iswprint f k).
Proof.
  intros Hg. unfold typed. destruct (_ || _); [by apply refused_reacts|].
  destruct (isDigit (if k >? 65535 then k - 65535 else k)) eqn:Ed; [|by apply refused_reacts].
  rewrite overwrite_spec by done. cbn [obind].
  assert (Hg' := overwrite_good f _ Hg Ed). destruct (valid m _).
  - by apply right_reacts, stay_reacts.
  - apply refused_reacts, setValue_good; [done|]. by destruct Hg as (_ & ? & _).
Qed.

Lemma react_good (f : field) (k : key) : good f -> reacts (react m iswprint f k).
Proof.
  intros Hg. assert (Hc := Hg). destruct Hc as (Hw & Hs & Hc & H1 & H2).
  assert (H48 := overwrite_good f 48 Hg eq_refl). destruct k; cbn [react].
  - rewrite overwrite_spec by done. cbn [obind].
    assert (H := left_reacts _ (moved _ (curpos (withBuffer f (<[Z.to_nat (curpos f):=48]> (buffer f))))) H48
      (stay_reacts _ H48)). cbn [withBuffer curpos] in *.
    by destruct (afterSep m (curpos f)), (negb (curpos f =? 0)).
  - destruct (curpos f <? blen f); [|by apply refused_reacts]. rewrite overwrite_spec by done. cbn [obind].
    by apply stay_reacts.
  - destruct (negb _); [|by apply refused_reacts]. apply moved_reacts; [done|lia..].
  - rewrite maxCursor_shaped by done. destruct (_ <? _); [|by apply refused_reacts].
    apply moved_reacts; [done|lia..].
  - by apply left_reacts, refused_reacts.
  - by apply right_reacts, refused_reacts.
  - by eexists.
  - by eexists.
  - by apply typed_reacts.
Qed.

(** No key reaches outside of the text, and after every key the text has its
    form and the cursor is on a digit. *)
Theorem masked_keys (f : field) (ks : list key) : good f ->
  exists f', ofold (fun f k => let! r := wHandleInput m iswprint notify returnOnReturn_b f k in
                               Done (fst (fst r))) ks f = Done f' /\ good f'.
Proof.
  revert f. induction ks as [|k ks IH]; intros f Hg; [by exists f|]. cbn [ofold].
  destruct (react_good f k Hg) as (r & E & Hr). unfold wHandleInput at 1. rewrite E. cbn [obind].
  destruct (update r); cbn [obind fst]; apply IH; [by apply tUpdate_good|done].
Qed.

(** ** Fields whose text stays valid *)

(** Putting a 0 in place of a digit keeps a text valid. *)
Hypothesis Hzero : forall b p, shaped b -> valid m b = true -> 0 <= p < fieldLength m ->
  p <> firstSep m -> p <> secondSep m -> valid m (<[Z.to_nat p := 48]> b) = true.

Definition proper (f : field) : Prop := good f /\ valid m (buffer f) = true.

Lemma setValue_buffer (f : field) (b : list Z) : good f -> shaped b -> valid m b = true ->
  buffer (setValue m f b) = b.
Proof.
  intros (Hw & _) Hb Hv. unfold setValue. rewrite Hv.
  replace (Z.of_nat (length b) >? fieldLength m) with false by (destruct Hb; lia).
  by apply tUpdate_fields.
Qed.

Lemma react_valid (f : field) (k : key) (r : reaction) : proper f ->
  react m iswprint f k = Done r -> valid m (buffer (after r)) = true.
Proof.
  intros [Hg Hv]. assert (Hc := Hg). destruct Hc as (Hw & Hs & Hc & H1 & H2).
  destruct k as [| | | | | | | |k]; cbn [react]; try (by intros [= <-]); unfold moved, refused.
  - rewrite overwrite_spec by done. intros [= <-]. by apply Hzero.
  - destruct (curpos f <? blen f); [|by intros [= <-]]. rewrite overwrite_spec by done.
    intros [= <-]. by apply Hzero.
  - destruct (negb _); by intros [= <-].
  - destruct (_ <? _); by intros [= <-].
  - destruct (afterSep _ _); [|destruct (negb _)]; by intros [= <-].
  - destruct (beforeSep _ _); [|destruct (_ <? _)]; by intros [= <-].
  - unfold typed. destruct (_ || _); [by intros [= <-]|].
    destruct (isDigit (if k >? 65535 then k - 65535 else k)) eqn:Ed; [|by intros [= <-]].
    rewrite overwrite_spec by done. cbn [obind].
    assert (Hg' := overwrite_good f _ Hg Ed). intros E. revert E.
    match goal with |- (if valid m ?b then _ else _) = _ -> _ => destruct (valid m b) eqn:Ev end.
    + unfold moved. destruct (beforeSep _ _); [|destruct (_ <? _)]; by intros [= <-].
    + intros [= <-]. cbn [after]. by rewrite setValue_buffer.
Qed.

(** In such a field the text is valid after every key. *)
Theorem stays_valid (f : field) (ks : list key) : proper f ->
  exists f', ofold (fun f k => let! r := wHandleInput m iswprint notify returnOnReturn_b f k in
                               Done (fst (fst r))) ks f = Done f' /\ proper f'.
Proof.
  revert f. induction ks as [|k ks IH]; intros f [Hg Hv]; [by exists f|]. cbn [ofold].
  destruct (react_good f k Hg) as (r & E & Hr). unfold wHandleInput at 1. rewrite E. cbn [obind].
  assert (Hv' := react_valid f k r (conj Hg Hv) E). destruct (update r); cbn [obind fst]; apply IH.
  - split; [by apply tUpdate_good|]. destruct Hr as (Hw & Hs & _).
    by rewrite (proj1 (tUpdate_fields (after r) Hs Hw)).
  - done.
Qed.

End form.
End MaskedProofs.

(** ** Times *)
Module TimeProofs.
Import NCInputTextBase Masked NCTimeField MaskedProofs.

Lemma isDigit_spec (k : Z) : isDigit k = true <-> 48 <= k <= 57.
Proof. unfold isDigit. rewrite andb_true_iff, !Z.leb_le. done. Qed.

Lemma isSpace_digit (k : Z) : isDigit k = true -> isSpace k = false.
Proof. rewrite isDigit_spec. unfold isSpace. lia. Qed.

(** Two digits and what follows them. *)
Lemma readInt_two (a b : Z) (s : list Z) : isDigit a = true -> isDigit b = true ->
  match s with k :: _ => isDigit k = false | [] => True end ->
  readInt (a :: b :: s) = Some (10 * (a - 48) + (b - 48), s).
Proof.
  intros Ha Hb Hs. unfold readInt. cbn [skipSpaces]. rewrite isSpace_digit by done.
  assert (Ha' := proj1 (isDigit_spec a) Ha). assert (Hb' := proj1 (isDigit_spec b) Hb).
  rewrite (proj2 (Z.eqb_neq a 45)), (proj2 (Z.eqb_neq a 43)) by lia. rewrite Ha.
  assert (E : readDigits (a :: b :: s) 0 = (10 * (a - 48) + (b - 48), s)).
  { cbn [readDigits]. rewrite Ha, Hb. destruct s as [|k s]; cbn [readDigits]; [f_equal; lia|].
    by rewrite Hs. }
  rewrite E, decide_True; [do 2 f_equal; lia|]. unfold fits_int, INT_MIN, INT_MAX. lia.
Qed.

Lemma readChar_colon (s : list Z) : readChar (58 :: s) = Some s.
Proof. reflexivity. Qed.

Lemma validTime_form (a b c d e f : Z) :
  Forall (fun k => isDigit k = true) [a; b; c; d; e; f] ->
  validTime [a; b; 58; c; d; 58; e; f]
  = (10 * (a - 48) + (b - 48) <=? 23) && (10 * (c - 48) + (d - 48) <=? 59) && (10 * (e - 48) + (f - 48) <=? 59).
Proof.
  intros H. repeat (apply Forall_cons_iff in H as [? H]). unfold validTime.
  rewrite readInt_two by done. rewrite readChar_colon. cbn [mbind option_bind].
  rewrite readInt_two by done. rewrite readChar_colon. cbn [mbind option_bind].
  by rewrite readInt_two.
Qed.

(** The digits of a text of the form. *)
Lemma time_digits (b : list Z) : shaped timeMask 58 b ->
  exists h1 h2 m1 m2 s1 s2, b = [h1; h2; 58; m1; m2; 58; s1; s2]
  /\ Forall (fun k => isDigit k = true) [h1; h2; m1; m2; s1; s2].
Proof.
  intros [Hl Hd]. cbn in Hl.
  destruct b as [|z [|z0 [|z1 [|z2 [|z3 [|z4 [|z5 [|z6 [|]]]]]]]]]; cbn in Hl; try lia.
  assert (E2 := Hd 2%nat _ eq_refl). assert (E5 := Hd 5%nat _ eq_refl). change (z1 = 58) in E2. change (z4 = 58) in E5. subst.
  eexists _, _, _, _, _, _. split; [done|].
  repeat constructor; [apply (Hd 0%nat)|apply (Hd 1%nat)|apply (Hd 3%nat)|apply (Hd 4%nat)
                      |apply (Hd 6%nat)|apply (Hd 7%nat)]; done.
Qed.

Lemma time_zero (b : list Z) (p : Z) : shaped timeMask 58 b -> validTime b = true -> 0 <= p < 8 ->
  p <> 2 -> p <> 5 -> validTime (<[Z.to_nat p := 48]> b) = true.
Proof.
  intros Hs Hv Hp H2 H5. destruct (time_digits b Hs) as (h1 & h2 & m1 & m2 & s1 & s2 & -> & Hd).
  rewrite validTime_form in Hv by done.
  repeat (apply Forall_cons_iff in Hd as [?%isDigit_spec Hd]).
  assert (Hcases : p = 0 \/ p = 1 \/ p = 3 \/ p = 4 \/ p = 6 \/ p = 7) by lia.
  destruct Hcases as [->|[->|[->|[->|[->| ->]]]]]; 
    match goal with |- validTime ?l = _ => let l' := eval vm_compute in l in change l with l' end;
    (rewrite validTime_form; [lia|repeat constructor; by apply isDigit_spec]).
Qed.

(** What happens to a time field: keys, a new value from the program, a new
    window. *)
Inductive op : Type :=
| OpKey (k : key)
| OpSetValue (ntext : list Z)
| OpCreate (width : Z).

Section ops.
Context (iswprint : Z -> bool) (notify returnOnReturn_b : bool).

Definition perform (f : field) (o : op) : outcome field :=
  match o with
  | OpKey k =>
      let! r := wHandleInput timeMask iswprint notify returnOnReturn_b f k in Done (fst (fst r))
  | OpSetValue ntext => Done (setValue timeMask f ntext)
  | OpCreate width => Done (wCreate (fieldLength timeMask) f (fieldLength timeMask) width)
  end.

(** The texts the program sets are digits with colons at the two places. *)
Definition wellFormed (o : op) : Prop :=
  match o with OpSetValue ntext => shaped timeMask 58 ntext | _ => True end.

Lemma perform_proper (f : field) (o : op) : proper timeMask 58 f -> wellFormed o ->
  exists f', perform f o = Done f' /\ proper timeMask 58 f'.
Proof.
  intros Hp Ho. destruct o as [k|b|width].
  - destruct (stays_valid timeMask iswprint notify returnOnReturn_b 58 ltac:(cbn; lia) time_zero f [k] Hp)
      as (f' & E & Hp'). exists f'. split; [|done]. revert E. cbn [ofold perform].
    destruct (wHandleInput _ _ _ _ f k); cbn [obind]; [|done..]. by intros [= ->].
  - eexists. split; [done|]. destruct Hp as [Hg Hv]. split; [by apply setValue_good; [cbn; lia|..]|].
    destruct (valid timeMask b) eqn:Eb; [|by unfold setValue; rewrite Eb].
    by rewrite (setValue_buffer timeMask 58 ltac:(cbn; lia)).
  - eexists. split; [done|]. destruct Hp as [(Hw & Hs & Hc) Hv]. unfold wCreate.
    match goal with |- proper _ _ (tUpdate _ ?f) => set (f0 := f) end.
    split; [apply tUpdate_good; [cbn; lia|exact (conj eq_refl (conj Hs Hc))]|].
    by rewrite (proj1 (tUpdate_fields timeMask 58 ltac:(cbn; lia) f0 Hs eq_refl)).
Qed.

Lemma performs_proper (ops : list op) (f : field) : proper timeMask 58 f -> Forall wellFormed ops ->
  exists f', ofold perform ops f = Done f' /\ proper timeMask 58 f'.
Proof.
  intros Hp Ho. revert f Hp. induction Ho as [|o ops Ho _ IH]; intros f Hp; [by exists f|].
  cbn [ofold]. destruct (perform_proper f o Hp Ho) as (f' & -> & Hp'). by apply IH.
Qed.

(** C14: The text of a time field that has its window is always a time of the
    form "hh:mm:ss" with a valid hour, minute and second, with the cursor on a
    digit, whatever keys are pressed and whatever texts of that form (digits
    and colons) the program sets, valid times or not. (A program that sets a
    text of another form can get past the check, [negative_time].) *)
Theorem time_valid (width : Z) (ops : list op) : Forall wellFormed ops ->
  let start := wCreate (fieldLength timeMask) (newField timeMask midnight) (fieldLength timeMask) width in
  exists f, ofold perform ops start = Done f
  /\ exists h1 h2 m1 m2 s1 s2, buffer f = [h1; h2; 58; m1; m2; 58; s1; s2]
     /\ Forall (fun k => 48 <= k <= 57) [h1; h2; m1; m2; s1; s2]
     /\ 10 * (h1 - 48) + (h2 - 48) <= 23 /\ 10 * (m1 - 48) + (m2 - 48) <= 59
     /\ 10 * (s1 - 48) + (s2 - 48) <= 59
     /\ (0 <= curpos f < 8 /\ curpos f <> 2 /\ curpos f <> 5).
Proof.
  intros Hops start.
  assert (Hmidnight : shaped timeMask 58 midnight).
  { split; [done|]. intros i k. do 8 (destruct i as [|i]; [by intros [= <-]|]). done. }
  destruct (performs_proper ops start) as (f & E & (Hw & Hs & Hc & H1 & H2) & Hv); [|done|].
  { unfold start, wCreate.
    match goal with |- proper _ _ (tUpdate _ ?f) => set (f0 := f) end.
    assert (Hg : good timeMask 58 f0) 
      by (split; [done|]; split; [done|]; change (curpos f0) with 0; cbn; lia).
    split; [apply tUpdate_good; [cbn; lia|done]|].
    by rewrite (proj1 (tUpdate_fields timeMask 58 ltac:(cbn; lia) f0 Hmidnight eq_refl)). }
  exists f. split; [done|].
  destruct (time_digits (buffer f) Hs) as (h1 & h2 & m1 & m2 & s1 & s2 & Eb & Hd).
  exists h1, h2, m1, m2, s1, s2. cbn [valid timeMask] in Hv. rewrite Eb, validTime_form in Hv by done.
  split; [done|]. split; [|cbn in Hc, H1, H2; lia].
  eapply List.Forall_impl; [|exact Hd]. intros k. apply isDigit_spec.
Qed.

End ops.

(** Typing, the time 23:59:07 set by the program, and 25:00:00, which is
    refused. *)
Definition sampleTimes : list op :=
  [OpKey KEY_END; OpSetValue [50; 51; 58; 53; 57; 58; 48; 55]; OpKey (KEY_OTHER 56);
   OpSetValue [50; 53; 58; 48; 48; 58; 48; 48]; OpCreate 5].

Lemma time_valid_witness :
  exists f, ofold (perform (fun _ => true) true false) sampleTimes
    (wCreate 8 (newField timeMask midnight) 8 20) = Done f
  /\ exists h1 h2 m1 m2 s1 s2, buffer f = [h1; h2; 58; m1; m2; 58; s1; s2]
     /\ Forall (fun k => 48 <= k <= 57) [h1; h2; m1; m2; s1; s2]
     /\ 10 * (h1 - 48) + (h2 - 48) <= 23 /\ 10 * (m1 - 48) + (m2 - 48) <= 59
     /\ 10 * (s1 - 48) + (s2 - 48) <= 59
     /\ (0 <= curpos f < 8 /\ curpos f <> 2 /\ curpos f <> 5).
Proof.
  apply (time_valid (fun _ => true) true false 20 sampleTimes).
  repeat constructor; intros i k; do 8 (destruct i as [|i]; [by intros [= <-]|]); done.
Defined.

Example sampleTimes_result :
  match ofold (perform (fun _ => true) true false) sampleTimes
    (wCreate 8 (newField timeMask midnight) 8 20) with Done f => buffer f | _ => [] end
  = [50; 51; 58; 53; 57; 58; 48; 56].
Proof. vm_compute. reflexivity. Qed.

End TimeProofs.

(** ** Examples *)
Module DateTimeSamples.
Import NCInputTextBase Masked NCTimeField NCDateField MaskedProofs.

Definition number (l : list Z) : Z := fold_left (fun n k => 10 * n + (k - 48)) l 0.

(** The days of a month in the Gregorian calendar, and the texts of the form
    that are dates of the years boost knows. *)
Definition daysIn (y mo : Z) : Z :=
  if mo =? 2 then if ((y mod 4 =? 0) && negb (y mod 100 =? 0)) || (y mod 400 =? 0) then 29 else 28
  else if bool_decide (mo ∈ [4; 6; 9; 11]) then 30 else 31.

Definition calendar (b : list Z) : bool :=
  match b with
  | [y1; y2; y3; y4; 45; m1; m2; 45; d1; d2] =>
      let y := number [y1; y2; y3; y4] in
      let mo := number [m1; m2] in
      let d := number [d1; d2] in
      (1400 <=? y) && (1 <=? mo) && (mo <=? 12) && (1 <=? d) && (d <=? daysIn y mo)
  | _ => false
  end.

Definition dateField : field := wCreate 10 (newField (dateMask calendar) january) 10 20.

Lemma january_good : good (dateMask calendar) 45 dateField.
Proof.
  split; [done|]. split; [|change (curpos dateField) with 9; cbn; lia]. split; [done|].
  intros i k. do 10 (destruct i as [|i]; [by intros [= <-]|]). done.
Qed.

Definition press (f : field) (ks : list key) : outcome field :=
  ofold (fun f k => let! r := wHandleInput (dateMask calendar) (fun _ => true) false false f k in
                    Done (fst (fst r))) ks f.

Lemma masked_keys_witness :
  good (dateMask calendar) 45 dateField
  /\ exists f', press dateField [KEY_LEFT; KEY_OTHER 51; KEY_BACKSPACE] = Done f'
                /\ good (dateMask calendar) 45 f'.
Proof.
  split; [apply january_good|].
  apply (masked_keys (dateMask calendar) (fun _ => true) false false 45 ltac:(cbn; lia)). apply january_good.
Defined.

(** The backspace key writes a 0 without a check: the day becomes 00. A digit
    that is refused afterwards stays, since the old text is not a date either. *)
Lemma no_such_day :
  match press dateField [KEY_BACKSPACE] with Done f => (buffer f, curpos f) | _ => ([], 0) end
  = ([50; 48; 48; 48; 45; 48; 49; 45; 48; 48], 8).
Proof. vm_compute. reflexivity. Qed.

Lemma refused_digit_stays :
  match press dateField [KEY_BACKSPACE; KEY_OTHER 57] with Done f => buffer f | _ => [] end
  = [50; 48; 48; 48; 45; 48; 49; 45; 57; 48].
Proof. vm_compute. reflexivity. Qed.

(** A digit that is refused moves the cursor to the end of the date. *)
Lemma cursor_jumps :
  match press dateField [KEY_HOME; KEY_OTHER 48] with Done f => (buffer f, curpos f) | _ => ([], 0) end
  = (january, 9).
Proof. vm_compute. reflexivity. Qed.

(** Negative times and other separators pass the check of a time. *)
Lemma negative_time : validTime [45; 53; 58; 45; 53; 58; 45; 53] = true.
Proof. vm_compute. reflexivity. Qed.

End DateTimeSamples.
