(* ===== verification/Wizard.v ===== *)
(** * Wizards of the Qt plug-in

    src/libyui-qt/src/YQWizard.cc and YQWizard.h: a frame around the dialogs of an
    installation with a panel of steps or a tree on the left, menus, and buttons.
    Modelled are the steps with their labels, the IDs they are found by, the tree,
    the menus, the buttons, and what wizards share: the first one is the main
    wizard, whose steps the others copy, and the release notes button.

    Steps, tree items and menus are only added, or all deleted at once together
    with the hash tables that point to them, so a pointer is an index. A hash
    table is a map to pointers that may be null, since [operator[]] adds a null
    pointer for an unknown key. A [QString] may be null; those that come from a
    [std::string] never are. *)
From S2P Require Import Prelude Shortcut.
From Stdlib Require Import Ascii String.
From stdpp Require Import gmap.

Module YQWizard.

Inductive Status : Type := Unset | Todo | Current | Finished.

#[global] Instance Status_eq_dec : EqDecision Status.
Proof. solve_decision. Defined.

Inductive YWizardMode : Type :=
  YWizardMode_Standard | YWizardMode_Steps | YWizardMode_Tree | YWizardMode_TitleOnLeft.

#[global] Instance YWizardMode_eq_dec : EqDecision YWizardMode.
Proof. solve_decision. Defined.

(** [QHash]: looking up with [operator[]], and [insert()]. *)
Abbreviation hash := (gmap cstring (option nat)).

Definition at_key (h : hash) (k : cstring) : option nat * hash :=
  match h !! k with
  | Some v => (v, h)
  | None => (None, <[k := None]> h)
  end.

(** ** Steps *)

(** A label is null, or has the class for its state that the style sheet looks
    at, if it has been set. *)
Abbreviation label := (option (option Status)).

Record Step : Type := mkStep {
  _name : cstring;
  isHeading : bool;
  _statusLabel : label;
  _nameLabel : label;
  _enabled : bool;
  _idList : list cstring;
  _status : Status;
}.

Definition newStep (name id : cstring) : Step := mkStep name false None None true [id] Unset.
Definition newHeading (name : cstring) : Step := mkStep name true None None true [[]] Unset.

Definition addID (s : Step) (id : cstring) : Step :=
  mkStep (_name s) (isHeading s) (_statusLabel s) (_nameLabel s) (_enabled s) (_idList s ++ [id]) (_status s).

Definition setStepEnabled (s : Step) (enabled : bool) : Step :=
  mkStep (_name s) (isHeading s) (_statusLabel s) (_nameLabel s) enabled (_idList s) (_status s).

(** [Step::setStatus()] *)
Definition setStatus (st : Status) (s : Step) : Step :=
  match _statusLabel s, _nameLabel s with
  | Some _, Some _ =>
      if decide (_status s = st) then s
      else mkStep (_name s) (isHeading s) (Some (Some st)) (Some (Some st)) (_enabled s) (_idList s) st
  | _, _ => s
  end.

(** The old labels are deleted; a heading has a label with its name only. *)
Definition newLabels (s : Step) : Step :=
  mkStep (_name s) (isHeading s) (if isHeading s then None else Some None) (Some None) (_enabled s)
         (_idList s) (_status s).

(** [_stepsPanel] is null or not; [_currentStepID] may be a null string. *)
Record steps : Type := Steps {
  _stepsPanel : bool;
  _stepsDirty : bool;
  _stepsRegistered : bool;
  _stepsList : list Step;
  _stepsIDs : hash;
  _currentStepID : option cstring;
}.

Definition withList (w : steps) (l : list Step) : steps :=
  Steps (_stepsPanel w) (_stepsDirty w) (_stepsRegistered w) l (_stepsIDs w) (_currentStepID w).
Definition withIDs (w : steps) (h : hash) : steps :=
  Steps (_stepsPanel w) (_stepsDirty w) (_stepsRegistered w) (_stepsList w) h (_currentStepID w).
Definition withCurrent (w : steps) (id : option cstring) : steps :=
  Steps (_stepsPanel w) (_stepsDirty w) (_stepsRegistered w) (_stepsList w) (_stepsIDs w) id.
Definition withDirty (w : steps) (b : bool) : steps :=
  Steps (_stepsPanel w) b (_stepsRegistered w) (_stepsList w) (_stepsIDs w) (_currentStepID w).

(** [addStep()]: a step with the name of the last one is added to that one. *)
Definition addStep (w : steps) (text id : cstring) : steps :=
  let '(used, h) := at_key (_stepsIDs w) id in
  let w := withIDs w h in
  if used is Some _ then w
  else
    let w := match last (_stepsList w) with
             | Some s => if decide (_name s = text)
                         then withList w (take (length (_stepsList w) - 1) (_stepsList w) ++ [addID s id])
                         else withDirty (withList w (_stepsList w ++ [newStep text id])) true
             | None => withDirty (withList w (_stepsList w ++ [newStep text id])) true
             end in
    let w := withIDs w (<[id := Some (length (_stepsList w) - 1)%nat]> (_stepsIDs w)) in
    match _currentStepID w with
    | None => withCurrent w (Some id)
    | Some _ => w
    end.

Definition addStepHeading (w : steps) (text : cstring) : steps :=
  withDirty (withList w (_stepsList w ++ [newHeading text])) true.

Definition updateSteps (w : steps) : steps :=
  if negb (_stepsPanel w) then w
  else Steps (_stepsPanel w) false true (map (fun s => setStatus Todo (newLabels s)) (_stepsList w))
             (_stepsIDs w) (_currentStepID w).

Definition findStep (w : steps) (id : option cstring) : option nat * steps :=
  match id with
  | None | Some [] => (None, w)
  | Some id => let '(s, h) := at_key (_stepsIDs w) id in (s, withIDs w h)
  end.

(** The two loops of [updateStepStates()]. *)
Fixpoint doneLoop (current i : nat) (l : list Step) : list Step :=
  match l with
  | [] => []
  | s :: l' => if (i =? current)%nat then s :: map (setStatus Todo) l'
               else setStatus Finished s :: doneLoop current (S i) l'
  end.

Definition updateStepStates (w : steps) : steps :=
  let w := if _stepsDirty w then updateSteps w else w in
  let '(currentStep, w) := findStep w (_currentStepID w) in
  match currentStep with
  | Some c => withList w (doneLoop c 0 (alter (setStatus Current) c (_stepsList w)))
  | None => withList w (map (setStatus Todo) (_stepsList w))
  end.

Definition setCurrentStep (w : steps) (id : cstring) : steps :=
  updateStepStates (withCurrent w (Some id)).

Definition deleteSteps (w : steps) : steps :=
  Steps (_stepsPanel w) true (_stepsRegistered w) [] ∅ None.

(** [copySteps()]: one step, and all of them. *)
Definition copyStep (w : steps) (oldStep : Step) : steps :=
  let new := if isHeading oldStep then newHeading (_name oldStep) else newStep (_name oldStep) [] in
  let h := fold_left (fun h oneId => <[oneId := Some (length (_stepsList w))]> h) (_idList oldStep) (_stepsIDs w) in
  let new := fold_left addID (_idList oldStep) new in
  withIDs (withList w (_stepsList w ++ [setStepEnabled new (_enabled oldStep)])) h.

Definition copySteps (w wizard : steps) : steps :=
  match _stepsList wizard with
  | [] => w
  | _ => let w := fold_left copyStep (_stepsList wizard) w in
         setCurrentStep w (default [] (_currentStepID wizard))
  end.

(** The constructor with [layoutStepsPanel()]. *)
Definition newSteps (mode : YWizardMode) : steps :=
  if decide (mode = YWizardMode_Steps) then Steps true true false [] ∅ None
  else Steps false false false [] ∅ None.

(** ** The tree *)

Record TreeItem : Type := mkTreeItem { parentItem : option nat; itemText : cstring; itemId : cstring }.

(** [_tree] is null or not. *)
Record tree : Type := Tree {
  _tree : bool;
  treeItems : list TreeItem;
  _treeIDs : hash;
  currentItem : option nat;
}.

Definition newTree (mode : YWizardMode) : tree :=
  Tree (bool_decide (mode = YWizardMode_Tree)) [] ∅ None.

Definition findTreeItem (t : tree) (id : cstring) : option nat * tree :=
  match id with
  | [] => (None, t)
  | _ => let '(i, h) := at_key (_treeIDs t) id in (i, Tree (_tree t) (treeItems t) h (currentItem t))
  end.

Definition addTreeItem (t : tree) (parentID text id : cstring) : tree :=
  if negb (_tree t) then t
  else
    let '(parent, t) := findTreeItem t parentID in
    let item := length (treeItems t) in
    Tree (_tree t) (treeItems t ++ [mkTreeItem parent text id])
         (match id with [] => _treeIDs t | _ => <[id := Some item]> (_treeIDs t) end) (currentItem t).

Definition deleteTreeItems (t : tree) : tree :=
  if _tree t then Tree true [] ∅ None else Tree false (treeItems t) ∅ (currentItem t).

(** Signals are blocked, so that there is no event. *)
Definition selectTreeItem (t : tree) (id : cstring) : tree :=
  if _tree t then
    let '(item, t) := findTreeItem t id in
    match item with
    | Some i => Tree (_tree t) (treeItems t) (_treeIDs t) (Some i)
    | None => t
    end
  else t.

(** What is sent to the application: the ID of a menu entry or a tree item. *)
Definition sendTreeEvent (t : tree) (item : option nat) : list cstring :=
  match item ≫= (fun i => treeItems t !! i) with
  | Some it => match itemId it with [] => [] | id => [id] end
  | None => []
  end.

(** The user selects an item. *)
Definition treeSelectionChanged (t : tree) (i : nat) : tree * list cstring :=
  if _tree t && (i <? length (treeItems t))%nat then
    let t := Tree (_tree t) (treeItems t) (_treeIDs t) (Some i) in
    (t, sendTreeEvent t (currentItem t))
  else (t, []).

Definition currentTreeSelection (t : tree) : cstring :=
  if _tree t then default [] (head (sendTreeEvent t (currentItem t))) else [].

(** ** Menus *)

Inductive entry : Type := Action (text : cstring) | Separator.

(** All menus that were made, those in the menu bar, and whether it is shown. An
    action is a menu and a position in it. *)
Record menus : Type := Menus {
  madeMenus : list (list entry);
  _menuBar : list (nat * cstring);
  menuBarShown : bool;
  _menuIDs : hash;
  _menuEntryIDs : gmap (nat * nat) cstring;
}.

Definition newMenus : menus := Menus [] [] false ∅ ∅.

Definition addMenu (m : menus) (text id : cstring) : menus :=
  let menu := length (madeMenus m) in
  Menus (madeMenus m ++ [[]]) (_menuBar m ++ [(menu, text)]) true (<[id := Some menu]> (_menuIDs m)) (_menuEntryIDs m).

(** The new menu is not put into its parent. *)
Definition addSubMenu (m : menus) (parentMenuID text id : cstring) : menus :=
  let '(parentMenu, h) := at_key (_menuIDs m) parentMenuID in
  match parentMenu with
  | Some _ => Menus (madeMenus m ++ [[]]) (_menuBar m) (menuBarShown m)
                    (<[id := Some (length (madeMenus m))]> h) (_menuEntryIDs m)
  | None => Menus (madeMenus m) (_menuBar m) (menuBarShown m) h (_menuEntryIDs m)
  end.

Definition addMenuEntry (m : menus) (parentMenuID text idString : cstring) : menus :=
  let '(parentMenu, h) := at_key (_menuIDs m) parentMenuID in
  match parentMenu with
  | Some p =>
      let position := length (default [] (madeMenus m !! p)) in
      Menus (alter (fun l => l ++ [Action text]) p (madeMenus m)) (_menuBar m) (menuBarShown m) h
            (<[(p, position) := idString]> (_menuEntryIDs m))
  | None => Menus (madeMenus m) (_menuBar m) (menuBarShown m) h (_menuEntryIDs m)
  end.

Definition addMenuSeparator (m : menus) (parentMenuID : cstring) : menus :=
  let '(parentMenu, h) := at_key (_menuIDs m) parentMenuID in
  match parentMenu with
  | Some p => Menus (alter (fun l => l ++ [Separator]) p (madeMenus m)) (_menuBar m) (menuBarShown m) h (_menuEntryIDs m)
  | None => Menus (madeMenus m) (_menuBar m) (menuBarShown m) h (_menuEntryIDs m)
  end.

Definition deleteMenus (m : menus) : menus := Menus (madeMenus m) [] false ∅ ∅.

Definition sendMenuEvent (m : menus) (action : nat * nat) : list cstring :=
  match _menuEntryIDs m !! action with
  | Some id => [id]
  | None => []
  end.

(** The user can open the menus in the menu bar and choose an action of theirs. *)
Definition offered (m : menus) (action : nat * nat) : Prop :=
  menuBarShown m = true /\ (exists text, (fst action, text) ∈ _menuBar m)
  /\ exists l text, madeMenus m !! fst action = Some l /\ l !! snd action = Some (Action text).

(** ** Buttons *)

Inductive button : Type := backButton | abortButton | nextButton.
Inductive Direction : Type := Forward | Backward.

Record buttons : Type := Buttons {
  backShown : bool;
  abortShown : bool;
  nextShown : bool;
  notesShown : bool;
  _sendButtonEvents : bool;
  _direction : Direction;
}.

(** [layoutButtonBox()] and the constructor. *)
Definition newButtons (backButtonLabel releaseNotesButtonId : cstring) : buttons :=
  Buttons (negb (bool_decide (backButtonLabel = []))) true true
          (negb (bool_decide (releaseNotesButtonId = []))) true Forward.

Definition setButtonLabel (b : buttons) (which : button) (newLabel : cstring) : buttons :=
  let shown := negb (bool_decide (newLabel = [])) in
  Buttons (if which is backButton then shown else backShown b) (if which is abortButton then shown else abortShown b)
          (if which is nextButton then shown else nextShown b) (notesShown b) (_sendButtonEvents b) (_direction b).

(** A button is clicked: the slots [slotBackClicked()], [slotAbortClicked()] and
    [slotNextClicked()]. *)
Definition slotClicked (b : buttons) (which : button) : buttons * list button :=
  (Buttons (backShown b) (abortShown b) (nextShown b) (notesShown b) (_sendButtonEvents b)
           match which with backButton => Backward | abortButton => _direction b | nextButton => Forward end,
   if _sendButtonEvents b then [which] else []).

(** ** All wizards *)

Record wizard : Type := Wizard { wsteps : steps; wtree : tree; wmenus : menus; wbuttons : buttons }.

(** The wizards that exist and the static members of the class. *)
Record app : Type := App {
  wizards : gmap nat wizard;
  main_wizard : option nat;
  _releaseNotesButtonId : cstring;
  _releaseNotesButtonLabel : cstring;
}.

Definition noWizards : app := App ∅ None [] [].

Definition withWizard (a : app) (p : nat) (w : wizard) : app :=
  App (<[p := w]> (wizards a)) (main_wizard a) (_releaseNotesButtonId a) (_releaseNotesButtonLabel a).

(** The constructor, at a new address. *)
Definition newWizard (a : app) (p : nat) (backButtonLabel : cstring) (wizardMode : YWizardMode) : app :=
  let w := Wizard (newSteps wizardMode) (newTree wizardMode) newMenus
                  (newButtons backButtonLabel (_releaseNotesButtonId a)) in
  match main_wizard a with
  | None => App (<[p := w]> (wizards a)) (Some p) (_releaseNotesButtonId a) (_releaseNotesButtonLabel a)
  | Some m =>
      let w := match wizards a !! m with
               | Some mw => Wizard (copySteps (wsteps w) (wsteps mw)) (wtree w) (wmenus w) (wbuttons w)
               | None => w
               end in
      withWizard a p w
  end.

(** The destructor. *)
Definition deleteWizard (a : app) (p : nat) : app :=
  App (delete p (wizards a)) (if decide (main_wizard a = Some p) then None else main_wizard a)
      (_releaseNotesButtonId a) (_releaseNotesButtonLabel a).

Definition showNotes (b : buttons) (shown : bool) : buttons :=
  Buttons (backShown b) (abortShown b) (nextShown b) shown (_sendButtonEvents b) (_direction b).

Definition showReleaseNotesButton (a : app) (p : nat) (label id : cstring) : app :=
  match wizards a !! p with
  | Some w => App (<[p := Wizard (wsteps w) (wtree w) (wmenus w) (showNotes (wbuttons w) true)]> (wizards a))
                  (main_wizard a) id label
  | None => a
  end.

Definition hideReleaseNotesButton (a : app) (p : nat) : app :=
  match wizards a !! p with
  | Some w =>
      if notesShown (wbuttons w)
      then App (<[p := Wizard (wsteps w) (wtree w) (wmenus w) (showNotes (wbuttons w) false)]> (wizards a))
               (main_wizard a) [] []
      else a
  | None => a
  end.

(** What the application does with the steps of a wizard. *)
Inductive stepsOp : Type :=
| AddStep (text id : cstring) | AddStepHeading (text : cstring) | UpdateSteps
| SetCurrentStep (id : cstring) | DeleteSteps.

Definition stepsDo (w : steps) (o : stepsOp) : steps :=
  match o with
  | AddStep text id => addStep w text id
  | AddStepHeading text => addStepHeading w text
  | UpdateSteps => updateSteps w
  | SetCurrentStep id => setCurrentStep w id
  | DeleteSteps => deleteSteps w
  end.

Inductive treeOp : Type :=
| AddTreeItem (parentID text id : cstring) | DeleteTreeItems | SelectTreeItem (id : cstring) | Clicked (i : nat).

Definition treeDo (t : tree) (o : treeOp) : tree :=
  match o with
  | AddTreeItem parentID text id => addTreeItem t parentID text id
  | DeleteTreeItems => deleteTreeItems t
  | SelectTreeItem id => selectTreeItem t id
  | Clicked i => fst (treeSelectionChanged t i)
  end.

Inductive menusOp : Type :=
| AddMenu (text id : cstring) | AddSubMenu (parentMenuID text id : cstring)
| AddMenuEntry (parentMenuID text idString : cstring) | AddMenuSeparator (parentMenuID : cstring) | DeleteMenus.

Definition menusDo (m : menus) (o : menusOp) : menus :=
  match o with
  | AddMenu text id => addMenu m text id
  | AddSubMenu parent text id => addSubMenu m parent text id
  | AddMenuEntry parent text id => addMenuEntry m parent text id
  | AddMenuSeparator parent => addMenuSeparator m parent
  | DeleteMenus => deleteMenus m
  end.

(** The states that can be reached; the other operations change neither the
    steps nor what wizards share. *)
Inductive reachable : app -> Prop :=
| reach_start : reachable noWizards
| reach_new a p backButtonLabel wizardMode :
    reachable a -> wizards a !! p = None -> reachable (newWizard a p backButtonLabel wizardMode)
| reach_delete a p : reachable a -> reachable (deleteWizard a p)
| reach_show a p label id : reachable a -> reachable (showReleaseNotesButton a p label id)
| reach_hide a p : reachable a -> reachable (hideReleaseNotesButton a p)
| reach_steps a p w o : reachable a -> wizards a !! p = Some w ->
    reachable (withWizard a p (Wizard (stepsDo (wsteps w) o) (wtree w) (wmenus w) (wbuttons w)))
| reach_other a p w t m b : reachable a -> wizards a !! p = Some w -> notesShown b = notesShown (wbuttons w) ->
    reachable (withWizard a p (Wizard (wsteps w) t m b)).

End YQWizard.

(** ** IDs find their steps *)
Module WizardProofs.
Import YQWizard.

(** The IDs of each step, and the hash table: what is found has the ID, and IDs
    that are not empty find their step. *)
Record indexed (sk : list (list cstring)) (h : hash) : Prop := {
  found_has id i : h !! id = Some (Some i) -> exists L, sk !! i = Some L /\ id ∈ L;
  has_found i L id : sk !! i = Some L -> id ∈ L -> id <> [] -> h !! id = Some (Some i);
}.

Lemma indexed_nil : indexed [] ∅.
Proof. split; [intros id i; by rewrite lookup_empty|done]. Qed.

Lemma at_key_spec (h : hash) (k id : cstring) (i : nat) :
  snd (at_key h k) !! id = Some (Some i) <-> h !! id = Some (Some i).
Proof.
  unfold at_key. destruct (h !! k) eqn:E; cbn; [done|].
  destruct (decide (k = id)) as [->|]; [|by rewrite lookup_insert_ne]. rewrite lookup_insert_eq, E. naive_solver.
Qed.

Lemma at_key_fst (h : hash) (k : cstring) (i : nat) : fst (at_key h k) = Some i <-> h !! k = Some (Some i).
Proof. unfold at_key. destruct (h !! k) eqn:E; cbn; naive_solver. Qed.

Lemma at_key_indexed (sk : list (list cstring)) (h : hash) (k : cstring) :
  indexed sk h -> indexed sk (snd (at_key h k)).
Proof.
  intros [Hf Hh]. split.
  - intros id i. rewrite at_key_spec. apply Hf.
  - intros i L id H1 H2 H3. rewrite at_key_spec. by apply (Hh i L).
Qed.

Definition insertAll (n : nat) (L : list cstring) (h : hash) : hash :=
  fold_left (fun h oneId => <[oneId := Some n]> h) L h.

Lemma insertAll_lookup (n : nat) (L : list cstring) (h : hash) (id : cstring) :
  insertAll n L h !! id = if decide (id ∈ L) then Some (Some n) else h !! id.
Proof.
  revert h. induction L as [|x L IH]; intros h; cbn; [done|]. unfold insertAll in IH. rewrite IH.
  repeat case_decide; try done; try set_solver.
  - assert (id = x) by set_solver. subst. by rewrite lookup_insert_eq.
  - rewrite lookup_insert_ne; set_solver.
Qed.

(** A step with new IDs at the end. *)
Lemma indexed_snoc (sk : list (list cstring)) (h : hash) (K L : list cstring) :
  indexed sk h -> (forall id, id ∈ L -> id ∈ K) -> (forall id, id ∈ K -> id <> [] -> id ∈ L) ->
  (forall id j Lj, id ∈ L -> id <> [] -> sk !! j = Some Lj -> id ∉ Lj) ->
  indexed (sk ++ [K]) (insertAll (length sk) L h).
Proof.
  intros [Hf Hh] HLK HKL Hnew. split.
  - intros id i. rewrite insertAll_lookup. case_decide.
    + intros [= <-]. exists K. rewrite lookup_app_r, Nat.sub_diag by lia. auto.
    + intros (L' & E & Hid)%Hf. exists L'. split; [|done]. rewrite lookup_app_l; [done|]. by eapply lookup_lt_Some.
  - intros i L' id E Hid Hne. rewrite insertAll_lookup.
    apply lookup_app_Some in E as [E|[Hl E]].
    + rewrite decide_False; [by eapply Hh|]. intros H. by eapply Hnew.
    + apply list_lookup_singleton_Some in E as [Hi <-]. rewrite decide_True by auto. do 2 f_equal. lia.
Qed.

(** A new ID for the last step. *)
Lemma indexed_last (pre : list (list cstring)) (L : list cstring) (h : hash) (id : cstring) :
  indexed (pre ++ [L]) h -> (forall i, h !! id <> Some (Some i)) ->
  indexed (pre ++ [L ++ [id]]) (<[id := Some (length pre)]> h).
Proof.
  intros [Hf Hh] Hnew. split.
  - intros x i. destruct (decide (id = x)) as [->|Hne].
    + rewrite lookup_insert_eq. intros [= <-]. exists (L ++ [x]).
      rewrite lookup_app_r, Nat.sub_diag by lia. split; [done|]. set_solver.
    + rewrite lookup_insert_ne by done. intros (L' & E & Hx)%Hf.
      apply lookup_app_Some in E as [E|[Hl E]].
      * exists L'. split; [|done]. rewrite lookup_app_l; [done|]. by eapply lookup_lt_Some.
      * apply list_lookup_singleton_Some in E as [Hi <-]. exists (L ++ [id]).
        rewrite lookup_app_r by done. rewrite Hi. split; [done|]. set_solver.
  - intros i L' x E Hx Hne. destruct (decide (id = x)) as [->|Hix].
    + rewrite lookup_insert_eq. do 2 f_equal. apply lookup_app_Some in E as [E|[Hl E]].
      * exfalso. apply (Hnew i), (Hh i L'); [|done..]. rewrite lookup_app_l; [done|]. by eapply lookup_lt_Some.
      * apply list_lookup_singleton_Some in E as [Hi _]. lia.
    + rewrite lookup_insert_ne by done. apply lookup_app_Some in E as [E|[Hl E]].
      * apply (Hh i L'); [|done..]. rewrite lookup_app_l; [done|]. by eapply lookup_lt_Some.
      * apply list_lookup_singleton_Some in E as [Hi <-]. apply (Hh i L); [|set_solver|done].
        rewrite lookup_app_r by done. by rewrite Hi.
Qed.

(** ** Labels and states *)

Definition idLists (w : steps) : list (list cstring) := map _idList (_stepsList w).

(** The labels that a step in a panel needs, and those a heading never gets. *)
Definition labelled (s : Step) : Prop := isHeading s = false -> is_Some (_statusLabel s) /\ is_Some (_nameLabel s).
Definition bare (s : Step) : Prop := isHeading s = true -> _statusLabel s = None /\ _status s = Unset.

(** Both labels have the class of the state of the step; only the labels of a
    step that is to be done can be without a class. *)
Definition classed (s : Step) : Prop := isHeading s = false ->
  _statusLabel s = _nameLabel s /\
  forall c, _nameLabel s = Some c -> c = Some (_status s) \/ (c = None /\ _status s = Todo).

Definition plain (s : Step) : Prop := bare s /\ classed s.

Record steps_ok (w : steps) : Prop := {
  ok_index : indexed (idLists w) (_stepsIDs w);
  ok_plain : Forall plain (_stepsList w);
  ok_labels : _stepsPanel w = true -> _stepsDirty w = false -> Forall labelled (_stepsList w);
}.

(** What a step is, whatever its state. *)
Definition skel (s : Step) : cstring * bool * list cstring * bool := (_name s, isHeading s, _idList s, _enabled s).

Lemma setStatus_skel (st : Status) (s : Step) : skel (setStatus st s) = skel s.
Proof. unfold setStatus. destruct (_statusLabel s), (_nameLabel s); try done. by case_decide. Qed.

Lemma setStatus_heading (st : Status) (s : Step) : isHeading (setStatus st s) = isHeading s.
Proof. assert (E := setStatus_skel st s). unfold skel in E. by injection E. Qed.

Lemma setStatus_bare (st : Status) (s : Step) : bare s -> bare (setStatus st s).
Proof. intros H Hh. rewrite setStatus_heading in Hh. destruct (H Hh) as [H1 H2]. unfold setStatus. by rewrite H1. Qed.

Lemma setStatus_plain (st : Status) (s : Step) : plain s -> plain (setStatus st s).
Proof.
  intros [H1 H2]. split; [by apply setStatus_bare|]. intros Hh. rewrite setStatus_heading in Hh. destruct (H2 Hh) as [H3 H4].
  unfold setStatus. rewrite H3 in *. destruct (_nameLabel s) as [c|] eqn:E; [|by rewrite E in *].
  case_decide; [by rewrite H3, E|]. cbn. split; [done|]. intros c' [= <-]. by left.
Qed.

Lemma setStatus_labelled (st : Status) (s : Step) : labelled s -> labelled (setStatus st s).
Proof.
  intros H Hh. assert (E := setStatus_skel st s). unfold skel in E. injection E as _ E _ _.
  rewrite E in Hh. unfold setStatus. destruct (H Hh) as [[x Hx] [y Hy]]. rewrite Hx, Hy.
  case_decide; cbn; [rewrite Hx, Hy|]; by eauto.
Qed.

(** A step with labels gets the state. *)
Lemma setStatus_status (st : Status) (s : Step) :
  labelled s -> isHeading s = false -> _status (setStatus st s) = st.
Proof. intros H Hh. unfold setStatus. destruct (H Hh) as [[x ->] [y ->]]. by case_decide. Qed.

Lemma doneLoop_lookup (c i k : nat) (l : list Step) : (i <= c)%nat ->
  doneLoop c i l !! k
  = (fun s => if (i + k <? c)%nat then setStatus Finished s
              else if (i + k =? c)%nat then s else setStatus Todo s) <$> l !! k.
Proof.
  revert i k. induction l as [|s l IH]; intros i k Hi; [done|]. cbn [doneLoop].
  destruct (Nat.eqb_spec i c) as [->|Hne]; destruct k as [|k]; cbn [lookup list_lookup fmap option_fmap option_map].
  - rewrite Nat.add_0_r, Nat.ltb_irrefl. by rewrite Nat.eqb_refl.
  - destruct (Nat.ltb_spec (c + S k) c), (Nat.eqb_spec (c + S k) c); try lia.
    apply list_lookup_fmap.
  - by destruct (Nat.ltb_spec (i + 0) c); [|lia].
  - change (list_lookup k) with (fun l : list Step => l !! k). cbn beta. rewrite IH by lia.
    by rewrite <- Nat.add_succ_comm.
Qed.

Definition expected (current : option nat) (k : nat) : Status :=
  match current with
  | Some c => if (k <? c)%nat then Finished else if (k =? c)%nat then Current else Todo
  | None => Todo
  end.

Definition marked (current : option nat) (l : list Step) : list Step :=
  match current with
  | Some c => doneLoop c 0 (alter (setStatus Current) c l)
  | None => map (setStatus Todo) l
  end.

Lemma marked_lookup (current : option nat) (l : list Step) (k : nat) :
  marked current l !! k = setStatus (expected current k) <$> l !! k.
Proof.
  destruct current as [c|]; cbn [marked expected]; [|apply list_lookup_fmap].
  rewrite doneLoop_lookup by lia. cbn [Nat.add].
  destruct (Nat.ltb_spec k c), (Nat.eqb_spec k c); subst; try lia.
  - by rewrite list_lookup_alter_ne by lia.
  - rewrite list_lookup_alter_eq. by destruct (l !! c).
  - by rewrite list_lookup_alter_ne by lia.
Qed.

Lemma marked_skel (current : option nat) (l : list Step) : map skel (marked current l) = map skel l.
Proof.
  apply list_eq. intros k. rewrite !list_lookup_fmap, marked_lookup. destruct (l !! k); cbn; [|done].
  by rewrite setStatus_skel.
Qed.

Lemma marked_Forall (P : Step -> Prop) (current : option nat) (l : list Step) :
  (forall st s, P s -> P (setStatus st s)) -> Forall P l -> Forall P (marked current l).
Proof.
  intros Hp Hl. apply Forall_lookup. intros k s. rewrite marked_lookup.
  intros (s' & Es & ->)%fmap_Some. apply Hp. by eapply Forall_lookup_1.
Qed.

Lemma skel_idLists (l l' : list Step) : map skel l = map skel l' -> map _idList l = map _idList l'.
Proof. intros E. assert (E' := f_equal (map (fun k => snd (fst k))) E). by rewrite !map_map in E'. Qed.

(** *** Rebuilding the panel *)

Lemma rebuilt_skel (l : list Step) : map skel (map (fun s => setStatus Todo (newLabels s)) l) = map skel l.
Proof. rewrite map_map. apply map_ext. intros s. by rewrite setStatus_skel. Qed.

Lemma rebuilt_plain (s : Step) : plain s -> plain (setStatus Todo (newLabels s)).
Proof.
  intros [H1 _]. split; [apply setStatus_bare|].
  - intros Hh. cbn in *. rewrite Hh. split; [done|]. by apply H1.
  - intros Hh. rewrite setStatus_heading in Hh. cbn in Hh. unfold setStatus. cbn. rewrite Hh. case_decide as E; cbn.
    + rewrite Hh. split; [done|]. intros c [= <-]. by right.
    + split; [done|]. intros c [= <-]. by left.
Qed.

Lemma newLabels_labelled (s : Step) : labelled (newLabels s).
Proof. intros Hh. cbn in *. rewrite Hh. by eauto. Qed.

Lemma updateSteps_ok (w : steps) : steps_ok w ->
  steps_ok (updateSteps w) /\ map skel (_stepsList (updateSteps w)) = map skel (_stepsList w)
  /\ (_stepsPanel w = true -> Forall labelled (_stepsList (updateSteps w)))
  /\ _stepsIDs (updateSteps w) = _stepsIDs w /\ _currentStepID (updateSteps w) = _currentStepID w
  /\ _stepsPanel (updateSteps w) = _stepsPanel w.
Proof.
  intros Hw. assert (Hok := Hw). destruct Hok as [Hi Hp Hl]. unfold updateSteps. destruct (_stepsPanel w) eqn:E; cbn [negb]; [cbn|by split_and!].
  assert (Hlab : Forall labelled (map (fun s => setStatus Todo (newLabels s)) (_stepsList w))).
  { apply Forall_fmap, Forall_true. intros s. apply setStatus_labelled, newLabels_labelled. }
  rewrite rebuilt_skel. split_and!; try done. split; cbn; [|apply Forall_fmap|done].
  - unfold idLists. cbn. by rewrite (skel_idLists _ _ (rebuilt_skel _)).
  - eapply Forall_impl; [exact Hp|]. intros s Hs. by apply rebuilt_plain.
Qed.

Definition fresh (w : steps) : steps := if _stepsDirty w then updateSteps w else w.

Lemma rebuilt_ok (w : steps) : steps_ok w ->
  steps_ok (fresh w) /\ map skel (_stepsList (fresh w)) = map skel (_stepsList w)
  /\ (_stepsPanel w = true -> Forall labelled (_stepsList (fresh w)))
  /\ _stepsIDs (fresh w) = _stepsIDs w /\ _currentStepID (fresh w) = _currentStepID w
  /\ _stepsPanel (fresh w) = _stepsPanel w.
Proof.
  intros Hw. unfold fresh. destruct (_stepsDirty w) eqn:E; [by apply updateSteps_ok|].
  split_and!; try done. intros Hp. by apply Hw.
Qed.

(** *** Marking the steps *)

Definition lookupStep (h : hash) (id : option cstring) : option nat :=
  match id with
  | None | Some [] => None
  | Some id => fst (at_key h id)
  end.

Lemma findStep_spec (w : steps) (id : option cstring) :
  fst (findStep w id) = lookupStep (_stepsIDs w) id
  /\ exists h, snd (findStep w id) = withIDs w h
     /\ (forall sk, indexed sk (_stepsIDs w) -> indexed sk h).
Proof.
  assert (Hsame : w = withIDs w (_stepsIDs w)) by (by destruct w).
  destruct id as [[|c id]|]; cbn; [split; [done|]; exists (_stepsIDs w); tauto| |split; [done|]; exists (_stepsIDs w); tauto].
  assert (H := at_key_indexed). unfold findStep. destruct (at_key (_stepsIDs w) (c :: id)) as [x h] eqn:E. cbn.
  split; [done|]. exists h. split; [done|]. intros sk Hsk.
  specialize (H sk (_stepsIDs w) (c :: id) Hsk). by rewrite E in H.
Qed.

(** What the panel shows of a step: the class of its state, which can be missing
    if the step is to be done. *)
Definition shows (s : Step) (st : Status) : Prop :=
  exists c, _statusLabel s = Some c /\ _nameLabel s = Some c /\ (c = Some st \/ (c = None /\ st = Todo)).

Lemma labelled_shows (s : Step) : labelled s -> plain s -> isHeading s = false -> shows s (_status s).
Proof.
  intros Hl [_ Hc] Hh. destruct (Hl Hh) as [_ [c Ec]]. destruct (Hc Hh) as [E Hcl]. exists c. rewrite E. auto.
Qed.

Lemma updateStepStates_spec (w : steps) : steps_ok w ->
  steps_ok (updateStepStates w)
  /\ map skel (_stepsList (updateStepStates w)) = map skel (_stepsList w)
  /\ _stepsPanel (updateStepStates w) = _stepsPanel w
  /\ (_stepsPanel w = true -> forall k s, _stepsList (updateStepStates w) !! k = Some s -> isHeading s = false ->
       _status s = expected (lookupStep (_stepsIDs w) (_currentStepID w)) k /\ shows s (_status s)).
Proof.
  intros Hw. destruct (rebuilt_ok w Hw) as ([Hi Hp Hl] & Hs & Hlab & Eids & Ecur & Epanel).
  destruct (findStep_spec (fresh w) (_currentStepID (fresh w))) as (Ef & h & Eh & Hh).
  assert (E : updateStepStates w
    = withList (withIDs (fresh w) h) (marked (lookupStep (_stepsIDs w) (_currentStepID w)) (_stepsList (fresh w)))).
  { rewrite <- Eids, <- Ecur, <- Ef. unfold updateStepStates. fold (fresh w).
    destruct (findStep (fresh w) (_currentStepID (fresh w))) as [c w'] eqn:E'. cbn in Eh. subst w'. cbn [fst].
    by destruct c. }
  rewrite E. cbn. rewrite marked_skel. split_and!; [|done|done|].
  - split; cbn.
    + apply Hh. unfold idLists. cbn. by rewrite (skel_idLists _ _ (marked_skel _ _)).
    + apply marked_Forall; [apply setStatus_plain|done].
    + intros H1 H2. apply marked_Forall; [apply setStatus_labelled|]. by apply Hl.
  - intros Hpanel k s. rewrite marked_lookup. intros (s' & Es & ->)%fmap_Some Hhead.
    pose proof (Forall_lookup_1 _ _ _ _ (Hlab Hpanel) Es) as Hls. pose proof (Forall_lookup_1 _ _ _ _ Hp Es) as Hps. split.
    + apply setStatus_status; [exact Hls|]. by rewrite setStatus_heading in Hhead.
    + apply labelled_shows; [by apply setStatus_labelled|by apply setStatus_plain|done].
Qed.

(** *** Adding and deleting *)

Lemma newSteps_ok (mode : YWizardMode) : steps_ok (newSteps mode).
Proof. unfold newSteps. case_decide; split; try constructor; cbn; intros; by rewrite ?lookup_empty in *. Qed.

Lemma deleteSteps_ok (w : steps) : steps_ok (deleteSteps w).
Proof. split; [apply indexed_nil|constructor|done]. Qed.

Lemma addStepHeading_ok (w : steps) (text : cstring) : steps_ok w -> steps_ok (addStepHeading w text).
Proof.
  intros [Hi Hp Hl]. split; cbn; [|by apply Forall_app_2; [|repeat constructor]|done].
  unfold idLists. cbn. rewrite map_app. apply (indexed_snoc _ _ [[]] []); set_solver.
Qed.

Lemma withCurrent_ok (w : steps) (id : option cstring) : steps_ok w -> steps_ok (withCurrent w id).
Proof. intros [Hi Hp Hl]. by split. Qed.

(** An ID that is not found is the ID of no step. *)
Lemma unused_new (sk : list (list cstring)) (h : hash) (id : cstring) (j : nat) (L : list cstring) :
  indexed sk h -> (forall i, h !! id <> Some (Some i)) -> id <> [] -> sk !! j = Some L -> id ∉ L.
Proof. intros [_ Hh] Hno Hne E Hid. by apply (Hno j), (Hh j L). Qed.

Lemma append_ok (w : steps) (s : Step) (id : cstring) :
  steps_ok w -> (forall i, _stepsIDs w !! id <> Some (Some i)) -> plain s -> _idList s = [id] ->
  steps_ok (withIDs (withDirty (withList w (_stepsList w ++ [s])) true)
                    (<[id := Some (length (_stepsList w))]> (_stepsIDs w))).
Proof.
  intros [Hi Hp Hl] Hno Hs Eid. split; cbn; [|by apply Forall_app_2; [|constructor]|done].
  unfold idLists. cbn. rewrite map_app. cbn. rewrite Eid.
  rewrite <- (length_map _idList (_stepsList w)).
  apply (indexed_snoc _ _ [id] [id]); [done|done|done|]. intros x j Lj ->%list_elem_of_singleton Hne E.
  by eapply unused_new.
Qed.

Lemma merge_ok (w : steps) (pre : list Step) (s : Step) (id : cstring) :
  steps_ok w -> _stepsList w = pre ++ [s] -> (forall i, _stepsIDs w !! id <> Some (Some i)) ->
  steps_ok (withIDs (withList w (pre ++ [addID s id])) (<[id := Some (length pre)]> (_stepsIDs w))).
Proof.
  intros [Hi Hp Hl] E Hno. unfold idLists in Hi. rewrite E in Hi, Hp, Hl. rewrite map_app in Hi. cbn in Hi.
  split; cbn.
  - unfold idLists. cbn. rewrite map_app. cbn. rewrite <- (length_map _idList pre). by apply indexed_last.
  - apply Forall_app in Hp as [H1 H2]. apply Forall_app_2; [done|]. constructor; [|done].
    by inversion H2.
  - intros Hpanel Hd. specialize (Hl Hpanel Hd). apply Forall_app in Hl as [H1 H2].
    apply Forall_app_2; [done|]. constructor; [|done]. by inversion H2.
Qed.

Lemma addStep_ok (w : steps) (text id : cstring) : steps_ok w -> steps_ok (addStep w text id).
Proof.
  intros Hw. unfold addStep. assert (Hfst := at_key_fst (_stepsIDs w) id). assert (Hsnd := at_key_spec (_stepsIDs w) id).
  assert (Hidx := at_key_indexed (idLists w) (_stepsIDs w) id (ok_index w Hw)).
  destruct (at_key (_stepsIDs w) id) as [used h]. cbn [fst snd] in *.
  assert (Hw' : steps_ok (withIDs w h)) by (by destruct Hw).
  destruct used as [u|]; [done|].
  assert (Hno : forall i, h !! id <> Some (Some i)) by (intros i H%Hsnd%Hfst; done).
  clear Hfst Hsnd Hidx Hw. remember (withIDs w h) as v eqn:Ev.
  assert (Ehv : h = _stepsIDs v) by (by subst v). clear Ev. subst h.
  match goal with |- steps_ok (match _currentStepID ?x with _ => _ end) => set (y := x) end.
  assert (Hy : steps_ok y).
  { unfold y. clear y.
    destruct (last (_stepsList v)) as [s|] eqn:El; [case_decide|]; cbn [withDirty withList _stepsList _stepsIDs].
    - apply last_Some in El as [pre El].
      replace (take (length (_stepsList v) - 1) (_stepsList v)) with pre
        by (rewrite El, length_app, Nat.add_sub; by rewrite take_app_length).
      rewrite length_app, Nat.add_sub. by apply merge_ok.
    - rewrite length_app, Nat.add_sub. by apply append_ok.
    - rewrite length_app, Nat.add_sub. by apply append_ok. }
  destruct (_currentStepID y); [done|]. by apply withCurrent_ok.
Qed.

Lemma stepsDo_ok (w : steps) (o : stepsOp) : steps_ok w -> steps_ok (stepsDo w o).
Proof.
  intros Hw. destruct o; cbn [stepsDo].
  - by apply addStep_ok.
  - by apply addStepHeading_ok.
  - by apply updateSteps_ok.
  - by apply updateStepStates_spec, withCurrent_ok.
  - apply deleteSteps_ok.
Qed.

(** *** Copying the steps of the main wizard *)

Lemma addIDs_fields (ids : list cstring) (s : Step) :
  fold_left addID ids s
  = mkStep (_name s) (isHeading s) (_statusLabel s) (_nameLabel s) (_enabled s) (_idList s ++ ids) (_status s).
Proof.
  revert s. induction ids as [|x ids IH]; intros s; cbn [fold_left]; [rewrite app_nil_r; by destruct s|].
  rewrite IH. unfold addID. cbn. by rewrite <- app_assoc.
Qed.

(** A copy of a step has the empty ID in addition. *)
Definition copyOf (s : Step) : Step :=
  mkStep (_name s) (isHeading s) None None (_enabled s) ([] :: _idList s) Unset.

Lemma copyStep_spec (w : steps) (s : Step) :
  copyStep w s = withIDs (withList w (_stepsList w ++ [copyOf s]))
                         (insertAll (length (_stepsList w)) (_idList s) (_stepsIDs w)).
Proof. unfold copyStep. rewrite addIDs_fields. by destruct (isHeading s) eqn:E; cbn; unfold copyOf; rewrite E. Qed.

Lemma copy_fold (before todo : list Step) (h : hash) (w : steps) :
  indexed (map _idList (before ++ todo)) h -> _stepsList w = map copyOf before ->
  indexed (idLists w) (_stepsIDs w) ->
  exists h', fold_left copyStep todo w = withIDs (withList w (map copyOf (before ++ todo))) h'
             /\ indexed (map _idList (map copyOf (before ++ todo))) h'.
Proof.
  revert before w. induction todo as [|s todo IH]; intros before w Hold El Hw; cbn [fold_left].
  - exists (_stepsIDs w). rewrite app_nil_r, <- El. split; [by destruct w|done].
  - destruct (IH (before ++ [s]) (copyStep w s)) as (h' & E & Hh'); rewrite ?copyStep_spec in *.
    + by rewrite <- app_assoc.
    + cbn. by rewrite El, map_app.
    + unfold idLists in *. cbn. rewrite map_app. rewrite <- (length_map _idList (_stepsList w)).
      apply indexed_snoc; [done|set_solver|set_solver|].
      intros id j L Hid Hne Hj Hin. rewrite El, map_map in Hj. apply list_lookup_fmap_Some in Hj as (sj & -> & Hj).
      apply elem_of_cons in Hin as [->|Hin]; [done|].
      assert (E1 : h !! id = Some (Some (length before))).
      { apply (has_found _ _ Hold _ (_idList s)); [|done..]. rewrite map_app, lookup_app_r; rewrite length_map; [|done].
        by rewrite Nat.sub_diag. }
      assert (Hlt := lookup_lt_Some _ _ _ Hj).
      assert (E2 : h !! id = Some (Some j)).
      { apply (has_found _ _ Hold _ (_idList sj)); [|done..].
        rewrite map_app, lookup_app_l by (by rewrite length_map). by rewrite list_lookup_fmap, Hj. }
      rewrite E1 in E2. injection E2 as <-. lia.
    + exists h'. rewrite <- app_assoc in *. split; [by rewrite E|done].
Qed.

Lemma lookup_copy (sk : list (list cstring)) (h h' : hash) (id : option cstring) :
  indexed sk h -> indexed (map (cons []) sk) h' -> lookupStep h' id = lookupStep h id.
Proof.
  intros H H'. destruct id as [[|c id]|]; cbn [lookupStep]; [done| |done]. apply option_eq. intros i.
  rewrite !at_key_fst. split.
  - intros (L & E & Hid)%(found_has _ _ H'). apply list_lookup_fmap_Some in E as (L' & -> & E).
    apply elem_of_cons in Hid as [?|Hid]; [done|]. by apply (has_found _ _ H i L').
  - intros (L & E & Hid)%(found_has _ _ H). apply (has_found _ _ H' i ([] :: L)); [|by right|done].
    by rewrite list_lookup_fmap, E.
Qed.

(** The steps of a new wizard before its current step is set. *)
Lemma copied (mode : YWizardMode) (old : steps) : steps_ok old ->
  let w := fold_left copyStep (_stepsList old) (newSteps mode) in
  _stepsList w = map copyOf (_stepsList old) /\ steps_ok w /\ _stepsPanel w = bool_decide (mode = YWizardMode_Steps)
  /\ (forall id, lookupStep (_stepsIDs w) id = lookupStep (_stepsIDs old) id).
Proof.
  intros Hold. destruct (copy_fold [] (_stepsList old) (_stepsIDs old) (newSteps mode)) as (h & E & Hh).
  - apply Hold.
  - unfold newSteps. by case_decide.
  - apply newSteps_ok.
  - cbn zeta. rewrite E. cbn in Hh |- *.
    assert (Hmap : map _idList (map copyOf (_stepsList old)) = map (cons []) (idLists old)).
    { unfold idLists. by rewrite !map_map. }
    split_and!; [done| |unfold newSteps; by repeat case_decide|].
    + split; cbn; [done| |unfold newSteps; by case_decide].
      apply Forall_fmap, Forall_true. intros s. by split.
    + intros id. apply lookup_copy with (idLists old); [apply Hold|]. by rewrite <- Hmap.
Qed.

Lemma copySteps_ok (mode : YWizardMode) (old : steps) : steps_ok old -> steps_ok (copySteps (newSteps mode) old).
Proof.
  intros Hold. unfold copySteps. destruct (_stepsList old) eqn:E; [apply newSteps_ok|]. rewrite <- E.
  apply updateStepStates_spec, withCurrent_ok. by apply copied.
Qed.

(** ** What holds in every state *)

(** The steps of every wizard are in order, and the main wizard exists. *)
Record app_ok (a : app) : Prop := {
  ok_wizards : map_Forall (fun _ w => steps_ok (wsteps w)) (wizards a);
  ok_main : forall m, main_wizard a = Some m -> is_Some (wizards a !! m);
}.

Lemma app_ok_insert (a : app) (p : nat) (w : wizard) (id label : cstring) : app_ok a -> steps_ok (wsteps w) ->
  app_ok (App (<[p := w]> (wizards a)) (main_wizard a) id label).
Proof.
  intros [Hw Hm] Hs. split; cbn; [by apply map_Forall_insert_2|].
  intros m Em. rewrite lookup_insert_is_Some'. right. by apply Hm.
Qed.

Lemma newWizard_ok (a : app) (p : nat) (label : cstring) (mode : YWizardMode) : app_ok a -> app_ok (newWizard a p label mode).
Proof.
  intros Ha. unfold newWizard. destruct (main_wizard a) as [m|] eqn:Em.
  - apply app_ok_insert; [done|]. destruct (ok_main a Ha m Em) as [mw Emw]. rewrite Emw. cbn.
    apply copySteps_ok. by apply (ok_wizards a Ha m mw).
  - split; cbn; [apply map_Forall_insert_2; [apply newSteps_ok|apply Ha]|].
    intros m [= ->]. by rewrite lookup_insert_eq.
Qed.

Lemma wizards_ok (a : app) : reachable a -> app_ok a.
Proof.
  induction 1 as [|a p label mode _ IH _|a p _ IH|a p label id _ IH|a p _ IH|a p w o _ IH Hw|a p w t m b _ IH Hw _].
  - split; [apply map_Forall_empty|done].
  - by apply newWizard_ok.
  - split; cbn; [apply map_Forall_delete, IH|]. intros m. case_decide as E; [done|]. intros Em.
    rewrite lookup_delete_ne by congruence. by apply IH.
  - unfold showReleaseNotesButton. destruct (wizards a !! p) as [w|] eqn:E; [|done].
    apply app_ok_insert; [done|]. by apply (ok_wizards a IH p w).
  - unfold hideReleaseNotesButton. destruct (wizards a !! p) as [w|] eqn:E; [|done].
    destruct (notesShown (wbuttons w)); [|done]. apply (app_ok_insert a); [done|]. by apply (ok_wizards a IH p w).
  - apply app_ok_insert; [done|]. cbn. apply stepsDo_ok. by apply (ok_wizards a IH p w).
  - apply app_ok_insert; [done|]. cbn. by apply (ok_wizards a IH p w).
Qed.

(** C36: In the panel of a wizard, whatever was done before: after setting the current
    step, the step with that ID is the current one, the steps before it are
    done and those after it are to be done; with the empty ID or one that no step
    has all are to be done. The labels of the steps have the class of that state, by which the
    panel shows it; only those of a step that is to be done can lack it after the
    panel was built again (see [classes_lost]). Names, headings and IDs stay, and
    headings have no state. This is said of the steps that are not headings: a
    step that follows a heading with the same text becomes part of the heading,
    and with its ID the steps before the heading are done, those after it are to
    be done, and none is the current one (see [step_lost_in_heading]). *)
Theorem steps_shown (a : app) (p : nat) (w : wizard) (id : cstring) :
  reachable a -> wizards a !! p = Some w -> _stepsPanel (wsteps w) = true ->
  let w' := setCurrentStep (wsteps w) id in
  map skel (_stepsList w') = map skel (_stepsList (wsteps w))
  /\ (forall k s, _stepsList w' !! k = Some s -> isHeading s = true -> _statusLabel s = None /\ _status s = Unset)
  /\ forall k s, _stepsList w' !! k = Some s -> isHeading s = false ->
     shows s (_status s)
     /\ (forall c cs, id <> [] -> _stepsList w' !! c = Some cs -> id ∈ _idList cs ->
        _status s = if (k <? c)%nat then Finished else if (k =? c)%nat then Current else Todo)
     /\ (id = [] \/ (forall c cs, _stepsList w' !! c = Some cs -> id ∉ _idList cs) -> _status s = Todo).
Proof.
  intros Hr Hw Hpanel w'. assert (Hok := ok_wizards a (wizards_ok a Hr) p w Hw). cbn in Hok.
  destruct (updateStepStates_spec (withCurrent (wsteps w) (Some id)) (withCurrent_ok _ _ Hok))
    as (Hok' & Hskel & _ & Hst). split; [exact Hskel|]. split.
  { intros k s Es. exact (proj1 (Forall_lookup_1 _ _ _ _ (ok_plain _ Hok') Es)). }
  intros k s Es Hhead.
  destruct (Hst Hpanel k s Es Hhead) as [Hexp Hshow]. split; [exact Hshow|]. rewrite Hexp. cbn [withCurrent _currentStepID _stepsIDs].
  assert (Hids : idLists w' = idLists (wsteps w)) by exact (skel_idLists _ _ Hskel).
  assert (Hfind : forall c cs, _stepsList w' !! c = Some cs -> idLists (wsteps w) !! c = Some (_idList cs)).
  { intros c cs Ec. rewrite <- Hids. unfold idLists. by rewrite list_lookup_fmap, Ec. }
  destruct Hok as [Hi _ _]. split.
  - intros c cs Hne Ec Hid. destruct id as [|x id]; [done|]. cbn [lookupStep].
    rewrite (proj2 (at_key_fst _ _ c)); [done|]. by apply (has_found _ _ Hi c (_idList cs)); [apply Hfind| |].
  - intros Hno. destruct id as [|x id]; [done|]. cbn [lookupStep]. destruct Hno as [?|Hno]; [done|].
    destruct (fst (at_key (_stepsIDs (wsteps w)) (x :: id))) as [c|] eqn:E; [|done]. exfalso.
    apply at_key_fst, (found_has _ _ Hi) in E as (L & EL & Hid). rewrite <- Hids in EL.
    apply list_lookup_fmap_Some in EL as (cs & -> & Ec). by apply (Hno c cs).
Qed.

(** The states of steps that are marked, whether headings or not. *)
Lemma states_spec (w : steps) : steps_ok w -> _stepsPanel w = true ->
  map _status (_stepsList (updateStepStates w))
  = imap (fun k s => if isHeading s then Unset else expected (lookupStep (_stepsIDs w) (_currentStepID w)) k)
         (_stepsList w).
Proof.
  intros Hw Hpanel. destruct (updateStepStates_spec w Hw) as (Hok & Hskel & _ & Hst). specialize (Hst Hpanel).
  apply list_eq. intros k. rewrite list_lookup_fmap, list_lookup_imap.
  assert (Ek := f_equal (fun l => l !! k) Hskel). cbn in Ek. rewrite !list_lookup_fmap in Ek.
  destruct (_stepsList (updateStepStates w) !! k) as [s'|] eqn:E', (_stepsList w !! k) as [s|]; try done.
  cbn in *. f_equal. unfold skel in Ek. injection Ek as _ Eh _ _. rewrite <- Eh.
  destruct (isHeading s') eqn:Ehead; [|by apply Hst].
  by apply (proj1 (Forall_lookup_1 _ _ _ _ (ok_plain _ Hok) E')).
Qed.

(** A wizard with a panel that is opened on top of the main wizard shows the
    same steps in the same states as the main wizard would. *)
Theorem copies_agree (a : app) (m p : nat) (mw : wizard) (label : cstring) :
  reachable a -> main_wizard a = Some m -> wizards a !! m = Some mw -> _stepsPanel (wsteps mw) = true ->
  _stepsList (wsteps mw) <> [] ->
  exists w, wizards (newWizard a p label YWizardMode_Steps) !! p = Some w
  /\ map (fun s => (_name s, isHeading s, _enabled s)) (_stepsList (wsteps w))
     = map (fun s => (_name s, isHeading s, _enabled s)) (_stepsList (wsteps mw))
  /\ map _status (_stepsList (wsteps w)) = map _status (_stepsList (updateStepStates (wsteps mw))).
Proof.
  intros Hr Em Emw Hpanel Hne. assert (Hok := ok_wizards a (wizards_ok a Hr) m mw Emw). cbn in Hok.
  unfold newWizard. rewrite Em, Emw. eexists. split; [apply lookup_insert_eq|]. cbn [wsteps].
  destruct (copied YWizardMode_Steps (wsteps mw) Hok) as (El & Hw & Hp & Hlook).
  unfold copySteps. destruct (_stepsList (wsteps mw)) as [|s0 l0] eqn:E; [done|]. rewrite <- E in *. clear s0 l0 E.
  set (w := fold_left copyStep (_stepsList (wsteps mw)) (newSteps YWizardMode_Steps)) in *.
  set (id := default [] (_currentStepID (wsteps mw))). unfold setCurrentStep.
  assert (Hw' := withCurrent_ok w (Some id) Hw). split.
  - destruct (updateStepStates_spec _ Hw') as (_ & Hskel & _).
    assert (Hs := f_equal (map (fun k : cstring * bool * list cstring * bool =>
      (fst (fst (fst k)), snd (fst (fst k)), snd k))) Hskel). rewrite !map_map in Hs.
    etransitivity; [exact Hs|]. cbn [withCurrent _stepsList]. by rewrite El, map_map.
  - rewrite (states_spec _ Hw') by exact Hp. rewrite states_spec by done.
    cbn [withCurrent _stepsList _stepsIDs _currentStepID]. rewrite El.
    change (map copyOf) with (fmap (M := list) copyOf). rewrite imap_fmap. apply imap_ext. intros k s _. unfold compose. cbn [copyOf isHeading].
    destruct (isHeading s); [done|].
    rewrite Hlook. f_equal. unfold id. by destruct (_currentStepID (wsteps mw)).
Qed.

(** ** Menus *)

(** Every action of a menu that can be seen or found by its ID has an ID. *)
Definition complete (m : menus) (p : nat) : Prop :=
  exists l, madeMenus m !! p = Some l
  /\ forall k text, l !! k = Some (Action text) -> is_Some (_menuEntryIDs m !! (p, k)).

Record menus_ok (m : menus) : Prop := {
  ok_bar : forall p text, (p, text) ∈ _menuBar m -> complete m p;
  ok_menuIDs : forall id p, _menuIDs m !! id = Some (Some p) -> complete m p;
}.

Lemma complete_new (m : menus) (p : nat) (bar : list (nat * cstring)) (shown : bool) (h : hash) :
  complete m p -> complete (Menus (madeMenus m ++ [[]]) bar shown h (_menuEntryIDs m)) p.
Proof. intros (l & El & Hl). exists l. split; [|done]. cbn. by apply lookup_app_l_Some. Qed.

Lemma complete_last (m : menus) (bar : list (nat * cstring)) (shown : bool) (h : hash) :
  complete (Menus (madeMenus m ++ [[]]) bar shown h (_menuEntryIDs m)) (length (madeMenus m)).
Proof. exists []. split; [|done]. cbn. by rewrite lookup_app_r, Nat.sub_diag. Qed.

Lemma complete_entry (m : menus) (q p : nat) (e : entry) (ids : gmap (nat * nat) cstring) h :
  complete m p ->
  (forall k, is_Some (_menuEntryIDs m !! k) -> is_Some (ids !! k)) ->
  (forall text, e = Action text -> is_Some (ids !! (q, length (default [] (madeMenus m !! q))))) ->
  complete (Menus (alter (fun l => l ++ [e]) q (madeMenus m)) (_menuBar m) (menuBarShown m) h ids) p.
Proof.
  intros (l & El & Hl) Hids He. destruct (decide (p = q)) as [->|Hne].
  - exists (l ++ [e]). cbn. rewrite list_lookup_alter_eq, El. split; [done|]. intros k text.
    intros [E|[Hk E]]%lookup_app_Some; [by eapply Hids, Hl|].
    apply list_lookup_singleton_Some in E as [Hk' E]. rewrite El in He. cbn in He.
    replace k with (length l) by lia. by eapply He.
  - exists l. cbn. rewrite list_lookup_alter_ne by done. split; [done|]. intros k text E. by eapply Hids, Hl.
Qed.

Lemma menusDo_ok (m : menus) (o : menusOp) : menus_ok m -> menus_ok (menusDo m o).
Proof.
  intros [Hb Hi].
  assert (Hnull : forall h, (forall id p, h !! id = Some (Some p) -> _menuIDs m !! id = Some (Some p)) ->
    menus_ok (Menus (madeMenus m) (_menuBar m) (menuBarShown m) h (_menuEntryIDs m))).
  { intros h Hh. split; [done|]. intros id p H. by eapply Hi, Hh. }
  assert (Hkey : forall k id p, snd (at_key (_menuIDs m) k) !! id = Some (Some p) -> _menuIDs m !! id = Some (Some p)).
  { intros k id p. by rewrite at_key_spec. }
  destruct o as [text id|parent text id|parent text idString|parent|];
    cbn [menusDo]; unfold addMenu, addSubMenu, addMenuEntry, addMenuSeparator;
    try (specialize (Hkey parent); destruct (at_key (_menuIDs m) parent) as [[q|] h]; cbn [snd] in Hkey; [|by apply Hnull]).
  - split; cbn [_menuBar _menuIDs].
    + intros p t [H|H%list_elem_of_singleton]%elem_of_app; [by eapply complete_new, Hb|]. injection H as -> ->.
      apply complete_last.
    + intros x p. destruct (decide (id = x)) as [->|]; [rewrite lookup_insert_eq; intros [= <-]; apply complete_last|].
      rewrite lookup_insert_ne by done. intros H. by eapply complete_new, Hi.
  - split; cbn [_menuBar _menuIDs].
    + intros p t H. by eapply complete_new, Hb.
    + intros x p. destruct (decide (id = x)) as [->|]; [rewrite lookup_insert_eq; intros [= <-]; apply complete_last|].
      rewrite lookup_insert_ne by done. intros H%Hkey. by eapply complete_new, Hi.
  - split; cbn [_menuBar _menuIDs]; [intros p t H; apply Hb in H|intros x p H%Hkey; apply Hi in H];
      (apply complete_entry; [done| |]; intros; rewrite lookup_insert_is_Some'; by auto).
  - split; cbn [_menuBar _menuIDs]; [intros p t H; apply Hb in H|intros x p H%Hkey; apply Hi in H];
      by apply complete_entry.
  - split; cbn; [set_solver|]. intros id p. by rewrite lookup_empty.
Qed.

(** Whatever menus were made and deleted: choosing any action that is offered
    sends exactly one event. *)
Theorem menu_answers (ops : list menusOp) (action : nat * nat) :
  let m := fold_left menusDo ops newMenus in
  offered m action -> exists id, sendMenuEvent m action = [id].
Proof.
  intros m (_ & [text Hbar] & l & t & El & Et).
  assert (Hm : menus_ok m).
  { unfold m. assert (H0 : menus_ok newMenus) by (split; cbn; [set_solver|intros id p; by rewrite lookup_empty]).
    clear -H0. revert H0. generalize newMenus as m0. induction ops as [|o ops IH]; intros m0 H0; [done|].
    cbn. by apply IH, menusDo_ok. }
  destruct (ok_bar m Hm _ _ Hbar) as (l' & El' & Hl'). destruct action as [p k]. cbn in *.
  rewrite El in El'. injection El' as <-. destruct (Hl' k t Et) as [id Eid]. exists id.
  unfold sendMenuEvent. by rewrite Eid.
Qed.

(** ** The tree *)

(** What is found has the ID, and parents come before their children. *)
Record tree_ok (t : tree) : Prop := {
  ok_treeIDs : forall id i, _treeIDs t !! id = Some (Some i) -> exists it, treeItems t !! i = Some it /\ itemId it = id;
  ok_parents : forall i it q, treeItems t !! i = Some it -> parentItem it = Some q -> (q < i)%nat;
}.

Lemma findTreeItem_spec (t : tree) (id : cstring) :
  exists h, snd (findTreeItem t id) = Tree (_tree t) (treeItems t) h (currentItem t)
  /\ (forall x i, h !! x = Some (Some i) <-> _treeIDs t !! x = Some (Some i))
  /\ (forall i, fst (findTreeItem t id) = Some i <-> id <> [] /\ _treeIDs t !! id = Some (Some i)).
Proof.
  destruct id as [|c id]; cbn; [exists (_treeIDs t); split; [by destruct t|naive_solver]|].
  assert (H1 := at_key_fst (_treeIDs t) (c :: id)). assert (H2 := at_key_spec (_treeIDs t) (c :: id)).
  unfold findTreeItem. destruct (at_key (_treeIDs t) (c :: id)) as [x h]. cbn in *. exists h. naive_solver.
Qed.

Lemma treeDo_ok (t : tree) (o : treeOp) : tree_ok t -> tree_ok (treeDo t o).
Proof.
  intros [Hi Hp]. destruct o as [parentID text id| |id|i]; cbn [treeDo].
  - unfold addTreeItem. destruct (_tree t); cbn [negb]; [|done].
    destruct (findTreeItem_spec t parentID) as (h & E & Hh & Hf). destruct (findTreeItem t parentID) as [parent t'].
    cbn in *. subst t'. cbn. split; cbn.
    + assert (Hold : forall x i, h !! x = Some (Some i) ->
        exists it, (treeItems t ++ [mkTreeItem parent text id]) !! i = Some it /\ itemId it = x).
      { intros x i (it & E & Eid)%Hh%Hi. exists it. split; [by apply lookup_app_l_Some|done]. }
      destruct id as [|c id]; [done|]. intros x i. destruct (decide (c :: id = x)) as [<-|]; [|by rewrite lookup_insert_ne; auto].
      rewrite lookup_insert_eq. intros [= <-]. exists (mkTreeItem parent text (c :: id)).
      by rewrite lookup_app_r, Nat.sub_diag.
    + intros i it q [E|[Hl E]]%lookup_app_Some Hq; [by eapply Hp|].
      apply list_lookup_singleton_Some in E as [Ei <-]. cbn in Hq. subst parent.
      destruct (proj1 (Hf q) eq_refl) as [_ (it & E & _)%Hi]. apply lookup_lt_Some in E. lia.
  - unfold deleteTreeItems. destruct (_tree t); split; cbn; try done; intros id i; by rewrite lookup_empty.
  - unfold selectTreeItem. destruct (_tree t); [|done].
    destruct (findTreeItem_spec t id) as (h & E & Hh & Hf). destruct (findTreeItem t id) as [[j|] t'];
      cbn in *; subst t'; (split; cbn; [|done]); intros x i; rewrite Hh; apply Hi.
  - unfold treeSelectionChanged. by destruct (_ && _).
Qed.

(** In every tree: selecting an ID makes the item with that ID the selection,
    which is then returned; parents come before their children. *)
Theorem tree_selection (ops : list treeOp) (id : cstring) :
  let t := fold_left treeDo ops (newTree YWizardMode_Tree) in
  (forall i it q, treeItems t !! i = Some it -> parentItem it = Some q -> (q < i)%nat)
  /\ currentTreeSelection (selectTreeItem t id)
     = match fst (findTreeItem t id) with Some _ => id | None => currentTreeSelection t end.
Proof.
  intros t. assert (Ht : tree_ok t /\ _tree t = true).
  { unfold t. assert (H0 : tree_ok (newTree YWizardMode_Tree) /\ _tree (newTree YWizardMode_Tree) = true)
      by (split; [split; cbn; [intros x i; by rewrite lookup_empty|done]|done]).
    clear -H0. revert H0. generalize (newTree YWizardMode_Tree) as t0.
    induction ops as [|o ops IH]; intros t0 [H0 H1]; [done|]. cbn. apply IH. split; [by apply treeDo_ok|].
    destruct o as [parentID text x| |x|i]; cbn.
    - unfold addTreeItem. rewrite H1. destruct (findTreeItem_spec t0 parentID) as (h & E & _).
      destruct (findTreeItem t0 parentID). cbn in *. by subst.
    - unfold deleteTreeItems. by rewrite H1.
    - unfold selectTreeItem. rewrite H1. destruct (findTreeItem_spec t0 x) as (h & E & _).
      destruct (findTreeItem t0 x) as [[]]; cbn in *; by subst.
    - unfold treeSelectionChanged. by destruct (_ && _). }
  destruct Ht as [[Hi Hp] H1]. split; [exact Hp|]. unfold selectTreeItem. rewrite H1.
  destruct (findTreeItem_spec t id) as (h & E & Hh & Hf). destruct (findTreeItem t id) as [[i|] t']; cbn in *; subst t'.
  - destruct (proj1 (Hf i) eq_refl) as [Hne (it & Eit & Eid)%Hi]. unfold currentTreeSelection, sendTreeEvent. cbn.
    rewrite H1, Eit. cbn. rewrite Eid. by destruct id.
  - done.
Qed.

End WizardProofs.

(** ** Examples *)
Module WizardSamples.
Import YQWizard WizardProofs.

Definition x := str "a".
Definition y := str "b".

(** A main wizard with a heading and two steps. *)
Definition begun : app :=
  let a := newWizard noWizards 0 [] YWizardMode_Steps in
  let act a o := match wizards a !! 0%nat with
                 | Some w => withWizard a 0 (Wizard (stepsDo (wsteps w) o) (wtree w) (wmenus w) (wbuttons w))
                 | None => a
                 end in
  fold_left act [AddStepHeading (str "Base"); AddStep (str "Disk") x; AddStep (str "Users") y] a.

Definition mainWizard : wizard := default (Wizard (newSteps YWizardMode_Steps) (newTree YWizardMode_Steps) newMenus
  (newButtons [] [])) (wizards begun !! 0%nat).

Lemma begun_reachable : reachable begun.
Proof. unfold begun. cbn [fold_left]. repeat (eapply reach_steps; [|reflexivity]). by apply reach_new; [constructor|]. Qed.

Lemma steps_shown_witness :
  let w' := setCurrentStep (wsteps mainWizard) y in
  map _status (_stepsList w') = [Unset; Finished; Current]
  /\ forall s, _stepsList w' !! 2%nat = Some s -> shows s Current.
Proof.
  split; [reflexivity|]. intros s Es.
  destruct (steps_shown begun 0 mainWizard y begun_reachable) as (_ & _ & H); [reflexivity|reflexivity|].
  destruct (H 2%nat s Es) as [Hs _]; vm_compute in Es; injection Es as <-; [reflexivity|exact Hs].
Defined.

Lemma copies_agree_witness :
  exists w, wizards (newWizard begun 1 [] YWizardMode_Steps) !! 1%nat = Some w
  /\ map _status (_stepsList (wsteps w)) = [Unset; Current; Todo].
Proof.
  destruct (copies_agree begun 0 1 mainWizard [] begun_reachable eq_refl eq_refl eq_refl) as (w & Ew & _ & Es); [done|].
  exists w. split; [exact Ew|]. rewrite Es. reflexivity.
Defined.

Lemma menu_answers_witness :
  exists id, sendMenuEvent (fold_left menusDo [AddMenu x x; AddMenuEntry x y y] newMenus) (0%nat, 0%nat) = [id].
Proof.
  apply (menu_answers [AddMenu x x; AddMenuEntry x y y] (0%nat, 0%nat)).
  split; [reflexivity|]. split; [exists x; vm_compute; left|]. exists [Action y], y. split; reflexivity.
Defined.

(** A step after a heading with the same text becomes part of the heading, which
    is never shown as the current step. *)
Lemma step_lost_in_heading :
  map (fun s => (isHeading s, _status s))
    (_stepsList (fold_left stepsDo [AddStepHeading x; AddStep x y; SetCurrentStep y] (newSteps YWizardMode_Steps)))
  = [(true, Unset)].
Proof. reflexivity. Qed.

(** When the panel is built again, a step that was and is to be done gets labels
    without a class. *)
Lemma classes_lost :
  map (fun s => (_status s, _nameLabel s))
    (_stepsList (fold_left stepsDo [AddStep x x; AddStep y y; SetCurrentStep x; AddStepHeading x; SetCurrentStep x]
                   (newSteps YWizardMode_Steps)))
  = [(Current, Some (Some Current)); (Todo, Some None); (Unset, Some None)].
Proof. reflexivity. Qed.

(** The entries of a submenu cannot be chosen. *)
Lemma submenu_missing :
  let m := fold_left menusDo [AddMenu x x; AddSubMenu x y y; AddMenuEntry y y y] newMenus in
  _menuIDs m !! y = Some (Some 1%nat) /\ forall k, ~ offered m (1%nat, k).
Proof.
  split; [reflexivity|]. intros k (_ & [text Hin] & _). cbn in Hin.
  apply list_elem_of_singleton in Hin. done.
Qed.

(** Hiding a release notes button that is hidden already does not stop the next
    wizard from showing it. *)
Lemma notes_return :
  let a := newWizard (newWizard noWizards 0 [] YWizardMode_Standard) 1 [] YWizardMode_Standard in
  let a := deleteWizard (showReleaseNotesButton a 1 x y) 1 in
  let a := newWizard (hideReleaseNotesButton a 0) 2 [] YWizardMode_Standard in
  (fun w => notesShown (wbuttons w)) <$> wizards a !! 2%nat = Some true.
Proof. reflexivity. Qed.

End WizardSamples.
