(* ===== verification/TableSort.v ===== *)
(** * Sorting tables in the text mode

    src/libyui-ncurses/src/NCTableSort.cc and NCTable.cc: the order of the items of a
    table with several columns and nested items. Items are compared by the sort
    key or the label in a column, as numbers if both begin with a number; each
    level is sorted with [std::stable_sort()], and the lines of the pad are made
    from the items again. A text is a list of code points without a zero. How the
    locale compares texts is a class with laws; which characters are blanks is a
    parameter. *)
From S2P Require Import Prelude CNum DateTime.
From Stdlib Require Import Sorting.Sorted Permutation.

Local Open Scope Z_scope.

(** ** Comparing texts *)

(** [std::wcscoll()]: the sign tells the order, which is a total preorder. *)
Class Collation : Type := wcscoll : list Z -> list Z -> Z.

Class CollationLaws `{Collation} : Prop := {
  wcscoll_sym a b : Z.sgn (wcscoll b a) = - Z.sgn (wcscoll a b);
  wcscoll_trans a b c : wcscoll a b <= 0 -> wcscoll b c <= 0 -> wcscoll a c <= 0;
}.

Module NCTableSort.

(** [YTableCell] and [YTableItem]; an item is known by a number. *)
Record cell : Type := Cell { label : list Z; sortKey : list Z }.
Inductive item : Type := Item (itemId : Z) (cells : list cell) (children : list item).

Definition itemId (i : item) : Z := let '(Item n _ _) := i in n.
Definition cells (i : item) : list cell := let '(Item _ c _) := i in c.
Definition children (i : item) : list item := let '(Item _ _ l) := i in l.

Definition hasSortKey (c : cell) : bool := negb (bool_decide (sortKey c = [])).

(** [YTableItem::cell()] *)
Definition cellAt (i : item) (col : Z) : option cell :=
  if (0 <=? col) && (col <? Z.of_nat (length (cells i))) then cells i !! Z.to_nat col else None.

Section sorting.
Context `{Collation} (iswspace : Z -> bool).

Fixpoint skipBlanks (s : list Z) : list Z :=
  match s with
  | [] => []
  | k :: s' => if iswspace k then skipBlanks s' else s
  end.

(** [std::stoll()], which fails without a digit and outside of 64 bits and does
    not look at what follows the digits. *)
Definition toNumber (s : list Z) : option Z :=
  let s := skipBlanks s in
  let '(sign, s) := match s with
                    | k :: s' => if k =? 45 then (-1, s') else if k =? 43 then (1, s') else (1, s)
                    | [] => (1, [])
                    end in
  match s with
  | k :: _ =>
      if Masked.isDigit k then
        let n := sign * fst (NCTimeField.readDigits s 0) in
        if (- 2 ^ 63 <=? n) && (n <? 2 ^ 63) then Some n else None
      else None
  | [] => None
  end.

Definition smartSortKey (sortCol : Z) (i : item) : list Z :=
  match cellAt i sortCol with
  | None => []
  | Some c => if hasSortKey c then sortKey c else label c
  end.

(** [Compare::operator()] *)
Definition Compare (sortCol : Z) (reverse : bool) (item1 item2 : item) : bool :=
  let w1 := smartSortKey sortCol item1 in
  let w2 := smartSortKey sortCol item2 in
  match toNumber w1, toNumber w2 with
  | Some number1, Some number2 => if negb reverse then number1 <? number2 else number1 >? number2
  | Some _, None => true
  | None, Some _ => false
  | None, None => let result := wcscoll w1 w2 in
                  if negb reverse then result <? 0 else result >? 0
  end.

(** [std::stable_sort()] with a comparison: items that are equal for it keep
    their order. *)
Fixpoint insertItem (less : item -> item -> bool) (x : item) (l : list item) : list item :=
  match l with
  | [] => [x]
  | y :: l' => if less y x then y :: insertItem less x l' else x :: l
  end.

Definition stable_sort (less : item -> item -> bool) (l : list item) : list item :=
  foldr (insertItem less) [] l.

(** [NCTable::sortYItems()]: the children of each item, then the items. *)
Fixpoint sortChildren (less : item -> item -> bool) (i : item) : item :=
  let '(Item n c l) := i in Item n c (stable_sort less (map (sortChildren less) l)).

Definition sortYItems (less : item -> item -> bool) (l : list item) : list item :=
  stable_sort less (map (sortChildren less) l).

(** ** The table *)

(** A line of the pad: the item, the line of its parent, and its index. *)
Record line : Type := Line { origItem : Z; parentLine : option nat; index : nat }.

Record table : Type := Table {
  items : list item;
  padLines : list line;
  _nestedItems : bool;
  _lastSortCol : Z;
  _sortReverse : bool;
  keepSorting : bool;
}.

Definition newTable : table := Table [] [] false 0 false false.

Definition setKeepSorting (t : table) (b : bool) : table :=
  Table (items t) (padLines t) (_nestedItems t) (_lastSortCol t) (_sortReverse t) b.

Definition hasChildren (i : item) : bool := negb (bool_decide (length (children i) = 0%nat)).
Definition hasNestedItems (l : list item) : bool := existsb hasChildren l.

(** [addPadLine()]: the lines, and whether there are nested items. *)
Fixpoint addPadLine (parent : option nat) (st : list line * bool) (i : item) : list line * bool :=
  let '(Item n _ l) := i in
  let '(ls, nested) := st in
  let idx := length ls in
  let nested := nested || bool_decide (is_Some parent) || hasChildren i in
  fold_left (addPadLine (Some idx)) l (ls ++ [Line n parent idx], nested).

Definition rebuildPadLines (t : table) : table :=
  let '(ls, nested) := fold_left (addPadLine None) (items t) ([], hasNestedItems (items t)) in
  Table (items t) ls nested (_lastSortCol t) (_sortReverse t) (keepSorting t).

Definition sortItems (t : table) (sortCol : Z) (reverse : bool) : table :=
  rebuildPadLines (Table (sortYItems (Compare sortCol reverse) (items t)) [] (_nestedItems t) sortCol
                         (_sortReverse t) (keepSorting t)).

Definition withItems (t : table) (l : list item) : table :=
  Table l (padLines t) (_nestedItems t) (_lastSortCol t) (_sortReverse t) (keepSorting t).

Definition addItems (t : table) (itemCollection : list item) : table :=
  let t := withItems t (items t ++ itemCollection) in
  if keepSorting t then rebuildPadLines t else sortItems t (_lastSortCol t) (_sortReverse t).

(** [addItem()]: only an item without a parent is added to the items of the
    table; in both cases the line gets no parent. *)
Definition addItem (t : table) (hasParent : bool) (i : item) : table :=
  let l := if hasParent then items t else items t ++ [i] in
  let '(ls, nested) := addPadLine None (padLines t, _nestedItems t) i in
  Table l ls nested (_lastSortCol t) (_sortReverse t) (keepSorting t).

Definition deleteAllItems (t : table) : table := Table [] [] false 0 false (keepSorting t).

(** The lines of the popup of [interactiveSort()]: the columns whose header is not
    empty. *)
Fixpoint menuItems (col : nat) (header : list (list Z)) : list (nat * list Z) :=
  match header with
  | [] => []
  | [] :: header => menuItems (S col) header
  | hdr :: header => (col, hdr) :: menuItems (S col) header
  end.

(** [NCPopupMenu::post()] for these lines: with the keys Return and Space and with
    a hot key the user chooses a line, and [detail] is the index of the line in
    the popup; otherwise it is no column. *)
Definition post (l : list (nat * list Z)) (chosen : option nat) : Z :=
  match chosen with
  | Some j => if (j <? length l)%nat then Z.of_nat j else -1
  | None => -1
  end.

Definition hasColumn (header : list (list Z)) (col : Z) : bool := (0 <=? col) && (col <? Z.of_nat (length header)).

Definition interactiveSort (t : table) (header : list (list Z)) (chosen : option nat) : table :=
  match menuItems 0 header with
  | [] => t
  | l =>
      let sortCol := post l chosen in
      if negb (sortCol =? -1) && hasColumn header sortCol then
        let reverse := if sortCol =? _lastSortCol t then negb (_sortReverse t) else false in
        let t := Table (items t) (padLines t) (_nestedItems t) (_lastSortCol t) reverse (keepSorting t) in
        sortItems t sortCol reverse
      else t
  end.

(** The key Ctrl-O sorts only if the order is not to be kept. *)
Definition handleCtrlO (t : table) (header : list (list Z)) (chosen : option nat) : table :=
  if keepSorting t then t else interactiveSort t header chosen.

Inductive op : Type :=
| SetKeepSorting (b : bool) | AddItems (l : list item) | AddItem (hasParent : bool) (i : item) | DeleteAllItems
| CtrlO (header : list (list Z)) (chosen : option nat).

Definition step (t : table) (o : op) : table :=
  match o with
  | SetKeepSorting b => setKeepSorting t b
  | AddItems l => addItems t l
  | AddItem hasParent i => addItem t hasParent i
  | DeleteAllItems => deleteAllItems t
  | CtrlO header chosen => handleCtrlO t header chosen
  end.

End sorting.
End NCTableSort.

(** ** A stable sort is determined by its order *)
Module StableSort.
Import NCTableSort.

Section stable.
Context (less : item -> item -> bool).
Hypothesis less_asym : forall a b, less a b = true -> less b a = false.
Hypothesis less_trans : forall a b c, less b a = false -> less c b = false -> less c a = false.

(** Not behind, and equal for the comparison. *)
Definition le (a b : item) : Prop := less b a = false.
Definition same (a b : item) : bool := negb (less a b) && negb (less b a).

Lemma same_le (a b : item) : same a b = true <-> le a b /\ le b a.
Proof. unfold same, le. destruct (less a b), (less b a); naive_solver. Qed.

Lemma less_irrefl (a : item) : less a a = false.
Proof. destruct (less a a) eqn:E; [|done]. by rewrite (less_asym a a E) in E. Qed.

Lemma same_refl (a : item) : same a a = true.
Proof. apply same_le. unfold le. by rewrite less_irrefl. Qed.

Lemma insertItem_perm (x : item) (l : list item) : Permutation (insertItem less x l) (x :: l).
Proof.
  induction l as [|y l IH]; cbn; [done|]. destruct (less y x); [|done].
  rewrite IH. apply perm_swap.
Qed.

Lemma stable_sort_perm (l : list item) : Permutation (stable_sort less l) l.
Proof. induction l as [|x l IH]; cbn; [done|]. by rewrite insertItem_perm, IH. Qed.

Lemma insertItem_sorted (x : item) (l : list item) : StronglySorted le l -> StronglySorted le (insertItem less x l).
Proof.
  induction 1 as [|y l Hl IH Hy]; cbn; [by repeat constructor|]. destruct (less y x) eqn:E.
  - constructor; [done|]. rewrite insertItem_perm. constructor; [|done]. by apply less_asym.
  - constructor; [by constructor|]. constructor; [done|]. eapply List.Forall_impl; [|exact Hy].
    intros z Hz. exact (less_trans x y z E Hz).
Qed.

Lemma stable_sort_sorted (l : list item) : StronglySorted le (stable_sort less l).
Proof. induction l; cbn; [constructor|by apply insertItem_sorted]. Qed.

(** Items that are equal for the comparison keep their order. *)
Lemma insertItem_stable (z x : item) (l : list item) :
  List.filter (same z) (insertItem less x l) = List.filter (same z) (x :: l).
Proof.
  induction l as [|y l IH]; cbn; [done|]. destruct (less y x) eqn:E; [|done]. cbn [List.filter].
  rewrite IH. cbn [List.filter]. destruct (same z y) eqn:Ey, (same z x) eqn:Ex; try done. exfalso.
  apply same_le in Ey as [Ey1 Ey2]. apply same_le in Ex as [Ex1 Ex2].
  assert (H : less y x = false) by exact (less_trans x z y Ex2 Ey1). congruence.
Qed.

Lemma stable_sort_stable (z : item) (l : list item) :
  List.filter (same z) (stable_sort less l) = List.filter (same z) l.
Proof.
  induction l as [|x l IH]; [done|]. change (stable_sort less (x :: l)) with (insertItem less x (stable_sort less l)).
  rewrite insertItem_stable. cbn [List.filter]. by rewrite IH.
Qed.

(** Any other way to sort that keeps the order of equal items gives the same. *)
Lemma stable_unique (l1 l2 : list item) : StronglySorted le l1 -> StronglySorted le l2 ->
  (forall z, List.filter (same z) l1 = List.filter (same z) l2) -> l1 = l2.
Proof.
  intros H1. revert l2. induction H1 as [|x l1 Hl1 IH Hx]; intros l2 H2 Hf.
  - destruct H2 as [|y l2]; [done|]. specialize (Hf y). cbn in Hf. by rewrite same_refl in Hf.
  - destruct H2 as [|y l2 Hl2 Hy]; [specialize (Hf x); cbn in Hf; by rewrite same_refl in Hf|].
    assert (Hxy : same x y = true).
    { apply same_le. split.
      - assert (Hin : In y (x :: l1)).
        { eapply proj1, List.filter_In. rewrite (Hf y). cbn. rewrite same_refl. by left. }
        destruct Hin as [->|Hin]; [apply less_irrefl|]. rewrite List.Forall_forall in Hx. by apply Hx.
      - assert (Hin : In x (y :: l2)).
        { eapply proj1, List.filter_In. rewrite <- (Hf x). cbn. rewrite same_refl. by left. }
        destruct Hin as [->|Hin]; [apply less_irrefl|]. rewrite List.Forall_forall in Hy. by apply Hy. }
    assert (E := Hf x). cbn in E. rewrite same_refl, Hxy in E. injection E as -> E. f_equal.
    apply IH; [done|]. intros z. specialize (Hf z). cbn in Hf. destruct (same z y); [by injection Hf|done].
Qed.

(** ** All levels *)

(** The second list has the items of the first one: each with its children
    arranged in the same way, in an order without an item behind a greater one,
    equal items in the order they had. *)
Inductive arranged : list item -> list item -> Prop :=
| Arranged (l m l' : list item) :
    Forall2 (fun a b => itemId a = itemId b /\ cells a = cells b /\ arranged (children a) (children b)) l m ->
    Permutation m l' -> StronglySorted le l' -> (forall z, List.filter (same z) l' = List.filter (same z) m) ->
    arranged l l'.

Lemma item_induction (P : item -> Prop) :
  (forall n c l, Forall P l -> P (Item n c l)) -> forall i, P i.
Proof.
  intros HP. fix rec 1. intros [n c l]. apply HP. induction l as [|x l IH]; constructor; [apply rec|exact IH].
Qed.

Lemma sortYItems_arranged (l : list item) : arranged l (sortYItems less l).
Proof.
  assert (Hlevel : forall l, Forall (fun i => arranged (children i) (children (sortChildren less i))) l ->
    arranged l (sortYItems less l)).
  { intros k Hk. apply Arranged with (map (sortChildren less) k).
    - apply Forall2_fmap_r, Forall_Forall2_diag. eapply List.Forall_impl; [|exact Hk]. intros [n c ch] Hi. by split_and!.
    - symmetry. apply stable_sort_perm.
    - apply stable_sort_sorted.
    - intros z. apply stable_sort_stable. }
  apply Hlevel. apply Forall_true. intros i. induction i as [n c ch IH] using item_induction. by apply Hlevel.
Qed.

End stable.
End StableSort.

(** ** The comparison *)
Module TableProofs.
Import NCTableSort StableSort.

Section table.
Context `{CollationLaws} (iswspace : Z -> bool).

(** The comparison is a strict weak order, as [std::stable_sort()] needs it. *)
Lemma compare_order (sortCol : Z) (reverse : bool) (a b c : item) :
  let less := Compare iswspace sortCol reverse in
  (less a b = true -> less b a = false) /\ (less b a = false -> less c b = false -> less c a = false).
Proof.
  cbn zeta. unfold Compare.
  generalize (smartSortKey sortCol a) (smartSortKey sortCol b) (smartSortKey sortCol c). intros u v w.
  assert (S1 := wcscoll_sym u v). assert (S2 := wcscoll_sym v w). assert (S3 := wcscoll_sym u w).
  assert (T1 := wcscoll_trans u v w). assert (T2 := wcscoll_trans w v u).
  destruct (toNumber iswspace u), (toNumber iswspace v), (toNumber iswspace w), reverse; cbn; try done;
    rewrite ?Z.ltb_lt, ?Z.ltb_ge, ?Z.gtb_ltb, ?Z.ltb_lt, ?Z.ltb_ge; lia.
Qed.

Lemma sorted_arranged (sortCol : Z) (reverse : bool) (l : list item) :
  arranged (Compare iswspace sortCol reverse) l (sortYItems (Compare iswspace sortCol reverse) l).
Proof.
  apply sortYItems_arranged.
  - intros x y. apply (compare_order sortCol reverse x y x).
  - intros x y z. apply (compare_order sortCol reverse x y z).
Qed.

(** ** The lines of the pad *)

(** The items with their children, parents first. *)
Fixpoint ids (i : item) : list Z := let '(Item n _ l) := i in n :: flat_map ids l.

(** New lines behind some others: which items they show, their indices, and that
    parents come first. *)
Definition lines_for (base : nat) (new : list line) (l : list Z) : Prop :=
  map origItem new = l
  /\ forall k ln, new !! k = Some ln ->
     index ln = (base + k)%nat /\ forall p, parentLine ln = Some p -> (p < base + k)%nat.

Lemma lines_for_app (base : nat) (new new' : list line) (l l' : list Z) :
  lines_for base new l -> lines_for (base + length new) new' l' -> lines_for base (new ++ new') (l ++ l').
Proof.
  intros [<- H1] [<- H2]. split; [by rewrite map_app|]. intros k ln [E|[Hk E]]%lookup_app_Some; [by apply H1|].
  apply H2 in E. replace (base + k)%nat with (base + length new + (k - length new))%nat by lia. done.
Qed.

Definition adds_lines (i : item) : Prop := forall parent ls nested,
  (forall p, parent = Some p -> (p < length ls)%nat) ->
  exists new nested', addPadLine parent (ls, nested) i = (ls ++ new, nested') /\ lines_for (length ls) new (ids i).

Lemma addLines_spec (l : list item) : Forall adds_lines l -> forall parent ls nested,
  (forall p, parent = Some p -> (p < length ls)%nat) ->
  exists new nested', fold_left (addPadLine parent) l (ls, nested) = (ls ++ new, nested')
                      /\ lines_for (length ls) new (flat_map ids l).
Proof.
  induction 1 as [|i l Hi _ IH]; intros parent ls nested Hp; cbn [fold_left flat_map].
  - exists [], nested. rewrite app_nil_r. split; [done|]. by split.
  - destruct (Hi parent ls nested Hp) as (new & nested1 & -> & Hnew).
    destruct (IH parent (ls ++ new) nested1) as (new' & nested2 & -> & Hnew').
    { intros p E. rewrite length_app. specialize (Hp p E). lia. }
    exists (new ++ new'), nested2. split; [by rewrite app_assoc|]. apply lines_for_app; [done|].
    by rewrite length_app in Hnew'.
Qed.

Lemma addPadLine_spec (i : item) : adds_lines i.
Proof.
  induction i as [n c l IH] using item_induction. intros parent ls nested Hp. cbn [addPadLine ids].
  destruct (addLines_spec l IH (Some (length ls)) (ls ++ [Line n parent (length ls)])
              (nested || bool_decide (is_Some parent) || hasChildren (Item n c l))) as (new & nested' & E & Hnew).
  { intros p [= <-]. rewrite length_app. cbn. lia. }
  exists (Line n parent (length ls) :: new), nested'. split; [rewrite E; by rewrite <- app_assoc|].
  apply (lines_for_app _ [_] new [n]); [|by rewrite length_app in Hnew].
  split; [done|]. intros k ln [-> <-]%list_lookup_singleton_Some. cbn. split; [lia|]. intros p E'.
  specialize (Hp p E'). lia.
Qed.

Definition shows_items (t : table) : Prop := lines_for 0 (padLines t) (flat_map ids (items t)).

Lemma rebuildPadLines_shows (t : table) : shows_items (rebuildPadLines t) /\ items (rebuildPadLines t) = items t
  /\ _lastSortCol (rebuildPadLines t) = _lastSortCol t /\ _sortReverse (rebuildPadLines t) = _sortReverse t.
Proof.
  unfold rebuildPadLines, shows_items.
  destruct (addLines_spec (items t) (Forall_true _ _ addPadLine_spec) None [] (hasNestedItems (items t)))
    as (new & nested & -> & Hnew); done.
Qed.

Lemma menuItems_spec (header : list (list Z)) : forall col,
  (length (menuItems col header) <= length header)%nat /\
  (Forall (fun hdr => hdr <> []) header -> forall j c, menuItems col header !! j = Some c -> fst c = (col + j)%nat).
Proof.
  induction header as [|hdr header IH]; intros col; cbn [menuItems length]; [done|]. destruct (IH (S col)) as [H1 H2].
  destruct hdr as [|k hdr]; (split; [cbn; lia|]); intros [Hne Hall]%Forall_cons_iff; [done|].
  intros [|j] c; cbn; [intros [= <-]; cbn; lia|]. intros E. rewrite (H2 Hall j c E). lia.
Qed.

(** What the choice of a line does. *)
Lemma interactiveSort_spec (t : table) (header : list (list Z)) (chosen : option nat) :
  interactiveSort iswspace t header chosen =
  match chosen with
  | Some j =>
      if (j <? length (menuItems 0 header))%nat then
        let reverse := if Z.of_nat j =? _lastSortCol t then negb (_sortReverse t) else false in
        sortItems iswspace (Table (items t) (padLines t) (_nestedItems t) (_lastSortCol t) reverse (keepSorting t)) (Z.of_nat j) reverse
      else t
  | None => t
  end.
Proof.
  unfold interactiveSort. destruct (menuItems_spec header 0) as [Hl _].
  destruct (menuItems 0 header) as [|c l] eqn:E; [by destruct chosen|]. rewrite <- E in *. destruct chosen as [j|]; [|done]. cbn [post].
  destruct (Nat.ltb_spec j (length (menuItems 0 header))); [|done]. rewrite (proj2 (Z.eqb_neq (Z.of_nat j) (-1))) by lia.
  unfold hasColumn. rewrite (proj2 (Z.leb_le 0 (Z.of_nat j))), (proj2 (Z.ltb_lt (Z.of_nat j) _)) by lia. done.
Qed.

(** Single items that are added have no parent. *)
Definition topLevel (o : op) : Prop := match o with AddItem hasParent _ => hasParent = false | _ => True end.

Lemma step_shows (t : table) (o : op) : topLevel o -> shows_items t -> shows_items (step iswspace t o).
Proof.
  intros Ho Ht. destruct o as [b|l|hasParent i| |header chosen]; cbn [step]; [done| | |by split| ].
  - unfold addItems. destruct (keepSorting _); [|unfold sortItems]; apply rebuildPadLines_shows.
  - cbn in Ho. subst hasParent. unfold addItem.
    destruct (addPadLine_spec i None (padLines t) (_nestedItems t)) as (new & nested & -> & Hnew); [done|].
    unfold shows_items. cbn. rewrite flat_map_app. apply lines_for_app; [done|]. cbn. by rewrite app_nil_r.
  - unfold handleCtrlO. destruct (keepSorting t); [done|]. rewrite interactiveSort_spec. destruct chosen as [j|]; [|done].
    destruct (j <? _)%nat; [|done]. apply rebuildPadLines_shows.
Qed.

(** C35: Whatever was done with a table, as long as no item that has a parent is added
    by itself: its lines are the items with their children, numbered from 0, each
    behind its parent. A table that may be sorted is sorted on all levels when
    several items are added with [addItems()] and when the user chooses a column,
    in the reverse order if it is the column it was sorted by; equal items keep
    their order. [addItem()] puts one item at the end and does not sort. The
    column is the number of the line in the popup, which is the column of that
    line if all columns have a header; otherwise it may be another one (see
    [column_shifted]), and an item with a parent gets a line of its own at the
    end (see [child_line]). *)
Theorem table_order (ops : list op) (o : op) : Forall topLevel (o :: ops) ->
  let t := fold_left (step iswspace) ops newTable in
  let t' := step iswspace t o in
  let less := Compare iswspace (_lastSortCol t') (_sortReverse t') in
  (map origItem (padLines t') = flat_map ids (items t')
   /\ forall k ln, padLines t' !! k = Some ln ->
      index ln = k /\ forall p, parentLine ln = Some p -> (p < k)%nat)
  /\ match o with
     | SetKeepSorting b => items t' = items t
     | AddItems l => if keepSorting t then items t' = items t ++ l else arranged less (items t ++ l) (items t')
     | AddItem _ i => items t' = items t ++ [i]
     | DeleteAllItems => items t' = []
     | CtrlO header chosen =>
         match chosen ≫= (fun j => pair j <$> menuItems 0 header !! j) with
         | Some (j, (col, _)) =>
             if keepSorting t then t' = t
             else _lastSortCol t' = Z.of_nat j
                  /\ _sortReverse t' = (if Z.of_nat j =? _lastSortCol t then negb (_sortReverse t) else false)
                  /\ arranged less (items t) (items t')
                  /\ (Forall (fun hdr => hdr <> []) header -> j = col)
         | None => t' = t
         end
     end.
Proof.
  intros [Ho Hops]%Forall_cons_iff t t' less. assert (Ht : shows_items t).
  { unfold t. assert (Hnew : shows_items newTable) by (by split). revert Hnew. generalize newTable.
    induction Hops as [|o' ops Ho' _ IH]; intros t0 Ht0; [done|]. cbn. by apply IH, step_shows. }
  split; [exact (step_shows t o Ho Ht)|]. unfold less, t'. clearbody t. clear less t' Ht.
  destruct o as [b|l|hasParent i| |header chosen]; cbn [step]; try done.
  - unfold addItems. cbn [withItems keepSorting _lastSortCol _sortReverse items].
    destruct (keepSorting t); [by apply rebuildPadLines_shows|]. unfold sortItems.
    match goal with |- context [rebuildPadLines ?x] => destruct (rebuildPadLines_shows x) as (_ & -> & -> & ->) end.
    apply sorted_arranged.
  - cbn in Ho. subst hasParent. unfold addItem. by destruct (addPadLine _ _ i).
  - unfold handleCtrlO. rewrite interactiveSort_spec. destruct chosen as [j|]; cbn [mbind option_bind]; [|by destruct (keepSorting t)].
    destruct (menuItems 0 header !! j) as [[col hdr]|] eqn:Ej; cbn [fmap option_fmap option_map].
    + rewrite (proj2 (Nat.ltb_lt _ _) (lookup_lt_Some _ _ _ Ej)). destruct (keepSorting t); [done|]. unfold sortItems.
      match goal with |- context [rebuildPadLines ?x] => destruct (rebuildPadLines_shows x) as (_ & -> & -> & ->) end.
      cbn. split_and!; [done|done|apply sorted_arranged|]. intros Hne. by pose proof (proj2 (menuItems_spec header 0) Hne j _ Ej).
    + apply lookup_ge_None in Ej. rewrite (proj2 (Nat.ltb_ge _ _)) by done. by destruct (keepSorting t).
Qed.

End table.
End TableProofs.

(** ** Examples *)
Module TableSamples.
Import NCTableSort StableSort TableProofs.

(** Texts compared by their code points. *)
Fixpoint codepoints (a b : list Z) : Z :=
  match a, b with
  | [], [] => 0
  | [], _ => -1
  | _, [] => 1
  | x :: a, y :: b => if x <? y then -1 else if y <? x then 1 else codepoints a b
  end.

#[global] Instance plain_collation : Collation := codepoints.

#[global] Instance plain_laws : CollationLaws.
Proof.
  split; unfold wcscoll, plain_collation.
  - induction a as [|x a IH]; intros [|y b]; cbn; try done.
    destruct (Z.ltb_spec x y), (Z.ltb_spec y x); try lia; apply IH.
  - induction a as [|x a IH]; intros [|y b] [|z c]; cbn; try lia.
    destruct (Z.ltb_spec x y), (Z.ltb_spec y x), (Z.ltb_spec y z), (Z.ltb_spec z y), (Z.ltb_spec x z), (Z.ltb_spec z x);
      try lia. apply IH.
Qed.

Definition blank (k : Z) : bool := k =? 32.

Definition row (n : Z) (s : list Z) (l : list item) : item := Item n [Cell s []] l.

(** "9", "10" and "a" with two children *)
Definition rows : list item := [row 1 [97] [row 4 [50] []; row 5 [49] []]; row 2 [49; 48] []; row 3 [57] []].

Lemma table_order_witness :
  let t' := step blank newTable (AddItems rows) in
  map origItem (padLines t') = [3; 2; 1; 5; 4] /\ arranged (Compare blank 0 false) rows (items t').
Proof.
  split; [reflexivity|]. refine (proj2 (table_order blank [] (AddItems rows) _)). repeat constructor.
Defined.

(** The first of three columns has no header: the user chooses the first line of
    the popup, which shows the second column, and the table is sorted by the
    first one. *)
Theorem column_shifted :
  let t := step blank (step blank newTable (AddItems [])) (CtrlO [[]; [78]; [83]] (Some 0%nat)) in
  menuItems 0 [[]; [78]; [83]] !! 0%nat = Some (1%nat, [78]) /\ _lastSortCol t = 0 /\ _sortReverse t = true.
Proof. vm_compute. done. Qed.

(** A child of the first of two items is added by itself: its line is the last
    one, and has no parent. *)
Theorem child_line :
  padLines (step blank (step blank newTable (AddItems [row 1 [97] []; row 2 [98] []])) (AddItem true (row 3 [99] [])))
  = [Line 1 None 0; Line 2 None 1; Line 3 None 2].
Proof. vm_compute. reflexivity. Qed.

(** Dates of the same year begin with the same number and are not sorted. *)
Lemma dates_unsorted :
  map origItem (padLines (step blank newTable (AddItems
    [row 1 [50; 48; 50; 48; 45; 49; 50] []; row 2 [50; 48; 50; 48; 45; 48; 49] []]))) = [1; 2].
Proof. reflexivity. Qed.

End TableSamples.
