(* ===== verification/MenuBar.v ===== *)
(** * Menus of the text mode

    src/libyui-ncurses/src/NCstring.cc, CyclicContainer.h, NCMenuBar.cc and
    NCPopupMenu.cc: the hot key of a label, the choice among entries of which some
    cannot be selected, the menu bar, and the popups of menus and submenus. A
    popup runs until a key ends it, and looks at what ended the popup it has
    opened itself; [wHandleInput] and [postAgain] of all open popups are one step
    of the menu bar with a stack of popups. A text is a list of code points, which
    [RecodeToWchar()] makes of the bytes of a label. *)
From S2P Require Import Prelude Shortcut.
From Stdlib Require Import Ascii String.

Local Open Scope Z_scope.

(** ** Hot keys of labels *)
Module NCHotkey.

(** [NCstring]; [hotp] is [None] for [npos]. *)
Record NCstring : Type := mkString { hotk : Z; hotp : option Z; wstr : list Z }.

Definition newString (s : list Z) : NCstring := mkString 0 None s.

(** [RecodeToWchar()]: [iconv] of the C library gives the characters it could
    convert, and the bytes that are left where it stopped; [std::wstring( tmp )]
    ends at the first zero. *)
Fixpoint upToZero (l : list Z) : list Z :=
  match l with
  | [] => []
  | c :: l => if c =? 0 then [] else c :: upToZero l
  end.

Fixpoint recodeLoop (iconv : cstring -> list Z * cstring) (fuel : nat) (s : cstring) : outcome (list Z) :=
  match fuel with
  | O => NoFuel
  | S fuel' =>
      let '(tmp, rest) := iconv s in
      match rest with
      | [] => Done (upToZero tmp)
      | _ :: [] => Done (upToZero tmp ++ [63])
      | _ :: rest => let! out := recodeLoop iconv fuel' rest in Done (upToZero tmp ++ 63 :: out)
      end
  end.

Definition RecodeToWchar (iconv : cstring -> list Z * cstring) (s : cstring) : outcome (list Z) :=
  match s with [] => Done [] | _ => recodeLoop iconv (List.length s) s end.

(** The loop of [getHotkey()]: escaped markers become one, the first marker of a
    hot key a replacement, others vanish. *)
Fixpoint replaceMarkers (have_shortcut : bool) (s : list Z) : list Z :=
  match s with
  | [] => []
  | c :: s1 =>
      if c =? 38 then
        match s1 with
        | [] => [c]
        | d :: s2 =>
            if d =? 38 then 38 :: replaceMarkers have_shortcut s2
            else if have_shortcut then replaceMarkers true s1
            else 95 :: replaceMarkers true s1
        end
      else c :: replaceMarkers have_shortcut s1
  end.

Fixpoint find_first (c : Z) (s : list Z) : option nat :=
  match s with
  | [] => None
  | d :: s => if d =? c then Some 0%nat else S <$> find_first c s
  end.

Section hotkey.
Context (wcwidth : Z -> Z).

Definition columns (s : list Z) : Z := sumZ (map wcwidth s).

Definition getHotkey (n : NCstring) : NCstring :=
  let s := replaceMarkers false (wstr n) in
  match find_first 95 s with
  | Some tpos =>
      if (tpos =? List.length s - 1)%nat then mkString (hotk n) None s
      else
        let erased := take tpos s ++ drop (S tpos) s in
        mkString (default 0 (erased !! tpos)) (Some (columns (take tpos s))) erased
  | None => mkString (hotk n) None s
  end.

(** [NClabel] of one line with [stripHotkey()]: [hasHotkey()] and [hotkey()]. *)
Definition hotkeyOf (label : list Z) : option Z :=
  let n := getHotkey (newString label) in
  match hotp n with Some _ => Some (hotk n) | None => None end.

Definition labelWidth (label : list Z) : Z := columns (wstr (getHotkey (newString label))).

End hotkey.

(** [tolower()] *)
Definition lower (k : Z) : Z := if (65 <=? k) && (k <=? 90) then k + 32 else k.

End NCHotkey.

(** ** Containers with a current element *)
Module CyclicContainer.

(** Whether each element can be selected, and the current one, which may be
    null. [None] as a position is [end()]. *)
Record container : Type := Container { selectable : list bool; _current : option nat }.

Definition setCurrent (c : container) (element : option nat) : container :=
  match element with
  | Some _ => Container (selectable c) element
  | None => c
  end.

(** [current()]: a pointer that is not an element is not found. *)
Definition current (c : container) : option nat :=
  match _current c with
  | Some i => if (i <? List.length (selectable c))%nat then Some i else None
  | None => None
  end.

Fixpoint findNext (l : list bool) (begin : nat) : option nat :=
  match l with
  | [] => None
  | b :: l => match begin with
              | O => if b then Some O else S <$> findNext l O
              | S begin => S <$> findNext l begin
              end
  end.

(** Backwards from the element before a position. *)
Fixpoint findPrevious (l : list bool) (rbegin : nat) : option nat :=
  match rbegin with
  | O => None
  | S i => if default false (l !! i) then Some i else findPrevious l i
  end.

Definition next (c : container) : option nat :=
  match current c with
  | None => findNext (selectable c) 0
  | Some i =>
      match findNext (selectable c) (i + 1) with
      | None => findNext (selectable c) 0
      | Some n => Some n
      end
  end.

Definition previous (c : container) : option nat :=
  let rbegin := default (List.length (selectable c)) (current c) in
  match findPrevious (selectable c) rbegin with
  | None => if (rbegin =? List.length (selectable c))%nat then None
            else findPrevious (selectable c) (List.length (selectable c))
  | Some i => Some i
  end.

End CyclicContainer.

(** ** Menu bar and popups *)
Module NCMenuBar.
Import NCHotkey CyclicContainer.

(** [YMenuItem]: [isMenu] is whether it has been made as a menu, and
    [itemKey] stands for the pointer. *)
Inductive item : Type :=
  Item (itemKey : Z) (label : list Z) (isEnabled isVisible isSeparator isMenu : bool) (children : list item).

Definition itemKey (i : item) : Z := let '(Item k _ _ _ _ _ _) := i in k.
Definition label (i : item) : list Z := let '(Item _ l _ _ _ _ _) := i in l.
Definition isEnabled (i : item) : bool := let '(Item _ _ e _ _ _ _) := i in e.
Definition isVisible (i : item) : bool := let '(Item _ _ _ v _ _ _) := i in v.
Definition isSeparator (i : item) : bool := let '(Item _ _ _ _ s _ _) := i in s.
Definition isMenu (i : item) : bool := let '(Item _ _ _ _ _ m _) := i in m.
Definition children (i : item) : list item := let '(Item _ _ _ _ _ _ l) := i in l.
Definition hasChildren (i : item) : bool := match children i with [] => false | _ => true end.

(** A popup: its visible entries, the container of them, and the line the table
    has its cursor on, if there is one. *)
Record popup : Type := Popup { entries : list item; items : container; cursor : option nat }.

(** The menus of the bar with their columns, and the container of them. *)
Record bar : Type := Bar { menus : list (item * Z); _menus : container; defWidth : Z }.

(** What a key leads to in a popup. *)
Inductive event : Type :=
| none
| CursorLeft | CursorRight | BackSpace
| Hotkey (key : Z)
| button.

Inductive key : Type :=
| KEY_LEFT | KEY_RIGHT | KEY_UP | KEY_DOWN | KEY_BACKSPACE | KEY_SPACE | KEY_RETURN | KEY_CHAR (k : Z).

Section menu.
Context (wcwidth : Z -> Z).

Definition visibleItems (l : list item) : list item := List.filter isVisible l.

Definition entrySelectable (i : item) : bool := isEnabled i && negb (isSeparator i).

(** [NCPopupMenu::selectItem()] *)
Definition selectItem (p : popup) (i : option nat) : popup :=
  match i with
  | Some i => Popup (entries p) (setCurrent (items p) (Some i)) (Some i)
  | None => p
  end.

(** The constructor; the table has its cursor on the first line. *)
Definition newPopup (l : list item) : popup :=
  let vis := visibleItems l in
  let p := Popup vis (Container (map entrySelectable vis) None) (match vis with [] => None | _ => Some 0%nat end) in
  selectItem p (next (items p)).

(** [selectedItem()] with [updateSelectedItem()]; without a current entry [end()]
    is dereferenced. *)
Definition selectedItem (p : popup) : outcome (popup * item) :=
  let p := match cursor p with
           | None => p
           | Some c => if decide (current (items p) = Some c) then p else selectItem p (Some c)
           end in
  match current (items p) ≫= (fun i => entries p !! i) with
  | Some i => Done (p, i)
  | None => Undefined
  end.

(** [NCTablePad::setItemByKey()] *)
Definition matches (k : Z) (i : item) : bool :=
  match hotkeyOf wcwidth (label i) with Some h => lower h =? lower k | None => false end.

Fixpoint findItem (f : item -> bool) (l : list item) : option nat :=
  match l with
  | [] => None
  | i :: l => if f i then Some 0%nat else S <$> findItem f l
  end.

Definition setItemByKey (p : popup) (k : Z) : option popup :=
  if (k <? 0) || (255 <? k) then None
  else (fun c => Popup (entries p) (items p) (Some c)) <$> findItem (matches k) (entries p).

(** The keys Return and Space: an entry without children ends the popup, else
    the table gets the key, for which only Return is an event. *)
Definition pressReturn (p : popup) (isReturn : bool) : outcome (popup * event) :=
  let! r := selectedItem p in
  let '(p, i) := r in
  if negb (hasChildren i) then Done (p, button) else Done (p, if isReturn then button else none).

(** [NCPopupMenu::wHandleInput()] *)
Definition popupInput (p : popup) (k : key) : outcome (popup * event) :=
  match k with
  | KEY_RIGHT =>
      let! r := selectedItem p in
      let '(p, i) := r in
      Done (p, if hasChildren i then button else CursorRight)
  | KEY_LEFT => Done (p, CursorLeft)
  | KEY_DOWN => Done (selectItem p (next (items p)), none)
  | KEY_UP => Done (selectItem p (previous (items p)), none)
  | KEY_BACKSPACE => Done (p, BackSpace)
  | KEY_SPACE => pressReturn p false
  | KEY_RETURN => pressReturn p true
  | KEY_CHAR c =>
      match setItemByKey p c with
      | Some p => pressReturn p true
      | None => Done (p, Hotkey c)
      end
  end.

(** ** The bar *)

(** Only visible menus are shown, one behind the other. *)
Fixpoint placeMenus (width : Z) (l : list item) : result (list (item * Z) * Z) :=
  match l with
  | [] => Ok ([], width)
  | i :: l =>
      if negb (isMenu i) then Throw (YUIGenericException "NCMenuBar: Only menus allowed on toplevel. ")
      else if negb (isVisible i) then placeMenus width l
      else
        let? r := placeMenus (width + (labelWidth wcwidth (label i) + 2)) l in
        Ok ((i, width) :: fst r, snd r)
  end.

Definition selectMenu (b : bar) (i : option nat) : bar := Bar (menus b) (setCurrent (_menus b) i) (defWidth b).

Definition rebuildMenuTree (l : list item) : result bar :=
  let? r := placeMenus 0 l in
  let b := Bar (fst r) (Container (map (fun m => isEnabled (fst m)) (fst r)) None) (snd r) in
  Ok (selectMenu b (next (_menus b))).

(** The menu bar and the open popups, the innermost first. *)
Record state : Type := State { theBar : bar; popups : list popup }.

(** [postMenu()]: without a current menu [end()] is dereferenced. *)
Definition postMenu (b : bar) : outcome state :=
  match current (_menus b) ≫= (fun i => menus b !! i) with
  | Some m => Done (State b [newPopup (children (fst m))])
  | None => Undefined
  end.

Definition findMenuWithHotkey (b : bar) (k : Z) : option nat := findItem (matches k) (map fst (menus b)).

Definition HasHotkey (b : bar) (k : Z) : bool :=
  if (k <? 0) || (255 <? k) then false else bool_decide (is_Some (findMenuWithHotkey b k)).

Definition wHandleHotkey (b : bar) (k : Z) : outcome state :=
  match findMenuWithHotkey b k with
  | None => Done (State b [])
  | Some i => postMenu (selectMenu b (Some i))
  end.

(** [wHandleInput()] of the bar. *)
Definition barInput (b : bar) (k : key) : outcome state :=
  match k with
  | KEY_LEFT => Done (State (selectMenu b (previous (_menus b))) [])
  | KEY_RIGHT => Done (State (selectMenu b (next (_menus b))) [])
  | KEY_DOWN | KEY_SPACE | KEY_RETURN => postMenu b
  | _ => Done (State b [])
  end.

(** [handlePostMenu()] for an event that is not a choice. *)
Definition handlePostMenu (b : bar) (e : event) : outcome state :=
  match e with
  | CursorLeft => postMenu (selectMenu b (previous (_menus b)))
  | CursorRight => postMenu (selectMenu b (next (_menus b)))
  | Hotkey k => wHandleHotkey b k
  | none | BackSpace | button => Done (State b [])
  end.

(** [postAgain()] of the innermost popup and those around it, after an event: the
    state, and the entry that is chosen. *)
Definition postAgain (b : bar) (p : popup) (outer : list popup) (e : event) : outcome (state * option item) :=
  let! r := selectedItem p in
  let '(p, i) := r in
  match e with
  | button => if hasChildren i then Done (State b (newPopup (children i) :: p :: outer), None)
              else Done (State b [], Some i)
  | CursorLeft => match outer with
                  | [] => let! s := handlePostMenu b CursorLeft in Done (s, None)
                  | _ => Done (State b outer, None)
                  end
  | _ => let! s := handlePostMenu b e in Done (s, None)
  end.

(** One key. *)
Definition menuInput (s : state) (k : key) : outcome (state * option item) :=
  match popups s with
  | [] => let! s := barInput (theBar s) k in Done (s, None)
  | p :: outer =>
      let! r := popupInput p k in
      let '(p, e) := r in
      match e with
      | none => Done (State (theBar s) (p :: outer), None)
      | _ => postAgain (theBar s) p outer e
      end
  end.

(** Keys one after the other, with all entries that were chosen. *)
Fixpoint menuKeys (s : state) (ks : list key) : outcome (state * list item) :=
  match ks with
  | [] => Done (s, [])
  | k :: ks =>
      let! r := menuInput s k in
      let '(s, chosen) := r in
      let! r := menuKeys s ks in
      let '(s, rest) := r in
      Done (s, option_list chosen ++ rest)
  end.

End menu.
End NCMenuBar.

(** ** Labels: the shortcut manager and the text mode agree *)
Module HotkeyProofs.
Import NCHotkey.

(** Escaped markers become one. *)
Fixpoint unescape (s : cstring) : cstring :=
  match s with
  | [] => []
  | x :: r =>
      if decide (x = shortcutMarker) then
        match r with
        | [] => [x]
        | y :: r' => if decide (y = shortcutMarker) then x :: unescape r' else x :: unescape r
        end
      else x :: unescape r
  end.

Lemma unescape_escaped (r : cstring) : unescape (shortcutMarker :: shortcutMarker :: r) = shortcutMarker :: unescape r.
Proof. done. Qed.
Lemma unescape_plain (x : ascii) (r : cstring) : x <> shortcutMarker -> unescape (x :: r) = x :: unescape r.
Proof. intros Hx. cbn [unescape]. by rewrite decide_False. Qed.

(** *** UTF-8 *)

Definition unicode (c : Z) : Prop := 0 < c < 1114112 /\ (c < 55296 \/ 57343 < c).

Definition utf8 (c : Z) : cstring :=
  if c <? 128 then [char_of c]
  else if c <? 2048 then [char_of (192 + c / 64); char_of (128 + c mod 64)]
  else if c <? 65536 then [char_of (224 + c / 4096); char_of (128 + (c / 64) mod 64); char_of (128 + c mod 64)]
  else [char_of (240 + c / 262144); char_of (128 + (c / 4096) mod 64); char_of (128 + (c / 64) mod 64); char_of (128 + c mod 64)].

Definition encode (cs : list Z) : cstring := flat_map utf8 cs.

Lemma char_of_ne (z : Z) : 0 <= z < 256 -> z <> 38 -> char_of z <> shortcutMarker.
Proof. intros Hz Hne E. apply Hne. rewrite <- (YShortcut.code_char_of z) by done. by rewrite E. Qed.

(** No byte of another character looks like the marker. *)
Lemma utf8_plain (c : Z) : unicode c -> c <> 38 -> shortcutMarker ∉ utf8 c.
Proof.
  intros [Hc _] Hne. unfold utf8.
  destruct (Z.ltb_spec c 128); [|destruct (Z.ltb_spec c 2048); [|destruct (Z.ltb_spec c 65536)]];
    rewrite ?not_elem_of_cons; repeat split; try apply not_elem_of_nil; apply not_eq_sym, char_of_ne;
    Z.to_euclidean_division_equations; lia.
Qed.

Lemma utf8_cons (c : Z) : exists b bs, utf8 c = b :: bs.
Proof. unfold utf8. repeat case_match; by eexists _, _. Qed.

(** The first byte of an ASCII character is the character. *)
Lemma utf8_ascii (c : Z) : unicode c -> c < 128 -> utf8 c = [char_of c].
Proof. intros _ Hc. unfold utf8. by rewrite (proj2 (Z.ltb_lt c 128)). Qed.

Lemma unmark_skip (pre t : cstring) : shortcutMarker ∉ pre -> YShortcut.unmark (pre ++ t) = pre ++ YShortcut.unmark t.
Proof.
  induction pre as [|x pre IH]; [done|]. intros [Hx Hn]%not_elem_of_cons. cbn [app].
  rewrite YShortcut.unmark_plain, IH by done. done.
Qed.

Lemma unescape_skip (pre t : cstring) : shortcutMarker ∉ pre -> unescape (pre ++ t) = pre ++ unescape t.
Proof.
  induction pre as [|x pre IH]; [done|]. intros [Hx Hn]%not_elem_of_cons. cbn [app]. rewrite unescape_plain, IH by done. done.
Qed.

(** The tokens of a text. *)
Lemma text_ind (P : list Z -> Prop) : P [] -> P [38] -> (forall r, P r -> P (38 :: 38 :: r)) ->
  (forall y r, y <> 38 -> P r -> P (38 :: y :: r)) -> (forall x r, x <> 38 -> P r -> P (x :: r)) -> forall cs, P cs.
Proof.
  intros H0 H1 H2 H3 H4 cs. induction cs as [cs IH] using (well_founded_induction (Wf_nat.well_founded_ltof _ (@List.length Z))).
  unfold Wf_nat.ltof in IH. destruct cs as [|x cs]; [done|]. destruct (decide (x = 38)) as [->|Hx].
  - destruct cs as [|y cs]; [done|]. destruct (decide (y = 38)) as [->|Hy]; [apply H2|apply H3; [done|]]; apply IH; cbn; lia.
  - apply H4; [done|]. apply IH. cbn. lia.
Qed.

Lemma replace_escaped (have : bool) (r : list Z) : replaceMarkers have (38 :: 38 :: r) = 38 :: replaceMarkers have r.
Proof. done. Qed.
Lemma replace_marked (have : bool) (y : Z) (r : list Z) : y <> 38 ->
  replaceMarkers have (38 :: y :: r) = if have then y :: replaceMarkers true r else 95 :: y :: replaceMarkers true r.
Proof. intros Hy%Z.eqb_neq. destruct have; cbn; by rewrite !Hy. Qed.
Lemma replace_plain (have : bool) (x : Z) (r : list Z) : x <> 38 -> replaceMarkers have (x :: r) = x :: replaceMarkers have r.
Proof. intros Hx%Z.eqb_neq. cbn. by rewrite Hx. Qed.

Lemma encode_plain (x : Z) (r : list Z) : unicode x -> x <> 38 ->
  unescape (YShortcut.unmark (encode (x :: r))) = utf8 x ++ unescape (YShortcut.unmark (encode r)) /\
  YShortcut.scanPos (encode (x :: r)) 0 = YShortcut.scanPos (encode r) (List.length (utf8 x)).
Proof.
  intros Hu Hx. pose proof (utf8_plain x Hu Hx) as Hp. cbn [encode flat_map].
  rewrite unmark_skip, unescape_skip, YShortcut.scanPos_skip by done. done.
Qed.

Lemma encode_marked (y : Z) (r : list Z) : unicode y -> y <> 38 ->
  unescape (YShortcut.unmark (encode (38 :: y :: r))) = utf8 y ++ unescape (YShortcut.unmark (encode r)) /\
  YShortcut.scanPos (encode (38 :: y :: r)) 0 = Some O /\ encode (38 :: y :: r) !! 1%nat = head (utf8 y).
Proof.
  intros Hu Hy. pose proof (utf8_plain y Hu Hy) as Hp. destruct (utf8_cons y) as (b & bs & E).
  change (encode (38 :: y :: r)) with (shortcutMarker :: (utf8 y ++ encode r)). rewrite E in *. cbn [app].
  apply not_elem_of_cons in Hp as [Hb Hbs]. rewrite YShortcut.unmark_marked, unescape_plain, YShortcut.scanPos_marked by done.
  rewrite unmark_skip, unescape_skip by done. done.
Qed.

(** After the first hot key the other markers vanish. *)
Lemma replace_true (cs : list Z) : Forall unicode cs ->
  encode (replaceMarkers true cs) = unescape (YShortcut.unmark (encode cs)) /\ forall c, c ∈ replaceMarkers true cs -> c ∈ cs.
Proof.
  induction cs as [| |r IH|y r Hy IH|x r Hx IH] using text_ind; intros Hu; [done|done|..].
  - apply Forall_cons_iff in Hu as [_ [_ Hu]%Forall_cons_iff]. destruct (IH Hu) as [E Hin]. rewrite replace_escaped.
    change (encode (38 :: 38 :: r)) with (shortcutMarker :: shortcutMarker :: encode r). split; [|set_solver].
    rewrite YShortcut.unmark_escaped, unescape_escaped, <- E. done.
  - apply Forall_cons_iff in Hu as [_ [Huy Hu]%Forall_cons_iff]. destruct (IH Hu) as [E Hin]. rewrite replace_marked by done.
    destruct (encode_marked y r Huy Hy) as [-> _]. rewrite <- E. split; [done|set_solver].
  - apply Forall_cons_iff in Hu as [Hux Hu]. destruct (IH Hu) as [E Hin]. rewrite replace_plain by done.
    destruct (encode_plain x r Hux Hx) as [-> _]. rewrite <- E. split; [done|set_solver].
Qed.

Lemma scanPos_shift (s : cstring) (i : nat) : YShortcut.scanPos s i = (fun p => i + p)%nat <$> YShortcut.scanPos s 0.
Proof.
  revert i. induction s as [| |r IH|y r Hy IH|x r Hx IH] using YShortcut.token_ind; intros i; [done|done|..].
  - rewrite !YShortcut.scanPos_escaped, IH, (IH (2 + 0)%nat). destruct (YShortcut.scanPos r 0); [|done].
    cbn. f_equal. lia.
  - rewrite !YShortcut.scanPos_marked by done. cbn. f_equal. lia.
  - rewrite !YShortcut.scanPos_plain, IH, (IH (1 + 0)%nat) by done. destruct (YShortcut.scanPos r 0); [|done].
    cbn. f_equal. lia.
Qed.

(** With and without a hot key: [text] is what is shown. *)
Definition replaced (cs text : list Z) : Prop :=
  unescape (YShortcut.unmark (encode cs)) = encode text /\ (forall c, c ∈ text -> c ∈ cs) /\
  match YShortcut.scanPos (encode cs) 0 with
  | None => replaceMarkers false cs = text
  | Some p => exists pre y r, encode cs !! S p = head (utf8 y) /\ replaceMarkers false cs = pre ++ 95 :: y :: r /\ text = pre ++ y :: r
  end.

Lemma replaced_cons (x : Z) (b : cstring) (cs r text : list Z) : replaced r text ->
  encode cs = b ++ encode r -> unescape (YShortcut.unmark (encode cs)) = utf8 x ++ unescape (YShortcut.unmark (encode r)) ->
  YShortcut.scanPos (encode cs) 0 = YShortcut.scanPos (encode r) (List.length b) ->
  replaceMarkers false cs = x :: replaceMarkers false r -> (forall c, c = x \/ c ∈ r -> c ∈ cs) -> replaced cs (x :: text).
Proof.
  intros (E & Hin & H) Hb Hu Hs Hrep Hcs. split; [rewrite Hu, E; done|]. split; [intros c [->|Hc]%elem_of_cons; auto|].
  rewrite Hs, scanPos_shift. destruct (YShortcut.scanPos (encode r) 0) as [p|]; cbn [fmap option_fmap option_map]; [|by rewrite Hrep, H].
  destruct H as (pre & y & q & Ey & Er & ->). exists (x :: pre), y, q. split; [|by rewrite Hrep, Er].
  rewrite Hb, lookup_app_r by lia. by replace (S (List.length b + p) - List.length b)%nat with (S p) by lia.
Qed.

Lemma replace_false (cs : list Z) : Forall unicode cs -> exists text, replaced cs text.
Proof.
  induction cs as [| |r IH|y r Hy IH|x r Hx IH] using text_ind; intros Hu; [by exists []|by exists [38]|..].
  - apply Forall_cons_iff in Hu as [_ [_ Hu]%Forall_cons_iff]. destruct (IH Hu) as [text Ht]. exists (38 :: text).
    apply (replaced_cons 38 [shortcutMarker; shortcutMarker] _ r); try done. set_solver.
  - apply Forall_cons_iff in Hu as [_ [Huy Hu]%Forall_cons_iff]. destruct (replace_true r Hu) as [E Hin]. exists (y :: replaceMarkers true r).
    destruct (encode_marked y r Huy Hy) as (E1 & E2 & E3). split; [rewrite E1, <- E; done|]. split; [set_solver|]. rewrite E2.
    exists [], y, (replaceMarkers true r). by rewrite replace_marked.
  - apply Forall_cons_iff in Hu as [Hux Hu]. destruct (IH Hu) as [text Ht]. exists (x :: text).
    destruct (encode_plain x r Hux Hx) as [E1 E2]. apply (replaced_cons x (utf8 x) _ r); try done; [by apply replace_plain|set_solver].
Qed.

Lemma find_first_app (c : Z) (l r : list Z) : c ∉ l -> find_first c (l ++ c :: r) = Some (List.length l).
Proof.
  induction l as [|d l IH]; intros Hn; cbn; [by rewrite Z.eqb_refl|].
  apply not_elem_of_cons in Hn as [Hd Hn]. rewrite (proj2 (Z.eqb_neq d c)) by congruence. by rewrite IH.
Qed.

Lemma find_first_none (c : Z) (l : list Z) : c ∉ l -> find_first c l = None.
Proof.
  induction l as [|d l IH]; intros Hn; cbn; [done|]. apply not_elem_of_cons in Hn as [Hd Hn].
  rewrite (proj2 (Z.eqb_neq d c)) by congruence. by rewrite IH.
Qed.

Section recode.
(** [iconv()] converts every text in UTF-8. *)
Context (iconv : cstring -> list Z * cstring).
Context (iconv_utf8 : forall cs, Forall unicode cs -> iconv (encode cs) = (cs, [])).

Lemma recode_utf8 (cs : list Z) : Forall unicode cs -> RecodeToWchar iconv (encode cs) = Done cs.
Proof.
  intros Hu. unfold RecodeToWchar. destruct (encode cs) as [|b bs] eqn:E.
  - destruct cs as [|c cs]; [done|]. cbn in E. destruct (utf8_cons c) as (b & bs & E2). by rewrite E2 in E.
  - cbn [recodeLoop List.length]. rewrite <- E, iconv_utf8 by done. f_equal. clear E.
    induction Hu as [|c cs [Hc _] _ IH]; [done|]. cbn. rewrite (proj2 (Z.eqb_neq c 0)) by lia. by rewrite IH.
Qed.

(** C33: For every label in UTF-8 without an underscore: the text mode shows the text
    without its markers, and it has a hot key exactly if the shortcut manager has
    found a shortcut. The hot key is the character behind the marker, at the
    column of that character, and the shortcut of the manager is the first byte
    of it, so that they are the same for all ASCII characters. For others they
    are not (see [umlaut_hotkey]), and an underscore is taken for a marker (see
    [underscore_taken]). *)
Theorem hotkey_agrees (wcwidth : Z -> Z) (cs : list Z) : Forall unicode cs -> (95 ∉ cs) ->
  let s := encode cs in
  exists w text, RecodeToWchar iconv s = Done w /\
    RecodeToWchar iconv (unescape (YShortcut.cleanShortcutString s)) = Done text /\
    let n := getHotkey wcwidth (newString w) in
    wstr n = text /\
    match YShortcut.findShortcutPos s 0 with
    | None => hotp n = None
    | Some p => exists pre k r, text = pre ++ k :: r /\ hotk n = k /\ hotp n = Some (columns wcwidth pre) /\
        head (utf8 k) = Some (YShortcut.findShortcut s 0) /\
        (k < 128 -> code (YShortcut.findShortcut s 0) = k)
    end.
Proof.
  intros Hu Hn s. destruct (replace_false cs Hu) as (text & E & Hin & H). exists cs, text. unfold s.
  rewrite YShortcut.cleanShortcutString_unmark, E. unfold YShortcut.findShortcut. rewrite YShortcut.findShortcutPos_scan, drop_0.
  assert (Hut : Forall unicode text) by (rewrite List.Forall_forall in *; intros c Hc; by apply Hu, list_elem_of_In, Hin, list_elem_of_In).
  split; [by apply recode_utf8|]. split; [by apply recode_utf8|].
  unfold getHotkey. cbn [newString wstr]. destruct (YShortcut.scanPos (encode cs) 0) as [p|].
  - destruct H as (pre & y & r & Ey & -> & ->). rewrite find_first_app by (intros Hp; apply Hn, Hin; set_solver).
    rewrite length_app. cbn [List.length].
    destruct (Nat.eqb_spec (List.length pre) (List.length pre + S (S (List.length r)) - 1)); [lia|].
    rewrite take_app_length. replace (S (List.length pre)) with (List.length (pre ++ [95])) by (rewrite length_app; cbn; lia).
    change (pre ++ 95 :: y :: r) with (pre ++ [95] ++ y :: r). rewrite (app_assoc pre), drop_app_length. cbn.
    split; [done|]. exists pre, y, r. rewrite Nat.add_1_r, Ey, list_lookup_middle by done.
    assert (Huy : unicode y) by (rewrite List.Forall_forall in Hut; apply Hut, in_elt).
    destruct (utf8_cons y) as (b & bs & Eb). rewrite Eb. split_and!; try done. intros Hy. rewrite (utf8_ascii y Huy Hy) in Eb.
    injection Eb as <- _. cbn. apply YShortcut.code_char_of. destruct Huy. lia.
  - rewrite H, find_first_none; [done|]. intros H95. by apply Hn, Hin.
Qed.

End recode.

End HotkeyProofs.

(** ** Walking through a container *)
Module CyclicProofs.
Import CyclicContainer.

Lemma findNext_spec (l : list bool) (b : nat) :
  match findNext l b with
  | Some j => (b <= j)%nat /\ l !! j = Some true /\ forall k, (b <= k < j)%nat -> l !! k <> Some true
  | None => forall k, (b <= k)%nat -> l !! k <> Some true
  end.
Proof.
  revert b. induction l as [|x l IH]; intros b; cbn [findNext]; [done|]. destruct b as [|b].
  - destruct x; [split_and!; [lia|done|lia]|]. specialize (IH 0%nat).
    destruct (findNext l 0) as [j|]; cbn.
    + destruct IH as (_ & Hj & Hb). split_and!; [lia|done|]. intros [|k] Hk; [done|]. apply Hb. lia.
    + intros [|k] Hk; [done|]. apply IH. lia.
  - specialize (IH b). destruct (findNext l b) as [j|]; cbn.
    + destruct IH as (Hbj & Hj & Hb). split_and!; [lia|done|]. intros [|k] Hk; [lia|]. apply Hb. lia.
    + intros [|k] Hk; [lia|]. apply IH. lia.
Qed.

Lemma findPrevious_spec (l : list bool) (r : nat) :
  match findPrevious l r with
  | Some j => (j < r)%nat /\ l !! j = Some true /\ forall k, (j < k < r)%nat -> l !! k <> Some true
  | None => forall k, (k < r)%nat -> l !! k <> Some true
  end.
Proof.
  induction r as [|r IH]; cbn [findPrevious]; [lia|].
  destruct (l !! r) as [[]|] eqn:E; cbn [default].
  - split_and!; [lia|done|lia].
  - destruct (findPrevious l r) as [j|].
    + destruct IH as (Hj & Hl & Hk). split_and!; [lia|done|]. intros k Hk'.
      destruct (decide (k = r)) as [->|]; [congruence|apply Hk; lia].
    + intros k Hk'. destruct (decide (k = r)) as [->|]; [congruence|apply IH; lia].
  - destruct (findPrevious l r) as [j|].
    + destruct IH as (Hj & Hl & Hk). split_and!; [lia|done|]. intros k Hk'.
      destruct (decide (k = r)) as [->|]; [congruence|apply Hk; lia].
    + intros k Hk'. destruct (decide (k = r)) as [->|]; [congruence|apply IH; lia].
Qed.

(** What can be selected. *)
Definition can (c : container) (i : nat) : Prop := selectable c !! i = Some true.

Lemma current_spec (c : container) (i : nat) :
  current c = Some i <-> _current c = Some i /\ (i < List.length (selectable c))%nat.
Proof.
  unfold current. destruct (_current c) as [j|]; [|naive_solver].
  destruct (Nat.ltb_spec j (List.length (selectable c))); naive_solver lia.
Qed.

Lemma can_lt (c : container) (i : nat) : can c i -> (i < List.length (selectable c))%nat.
Proof. apply lookup_lt_Some. Qed.

(** Both ways find an element if there is one. *)
Lemma next_can (c : container) (i : nat) : can c i -> exists j, next c = Some j /\ can c j.
Proof.
  intros Hi. unfold next. assert (H0 := findNext_spec (selectable c) 0).
  assert (Hfirst : exists j, findNext (selectable c) 0 = Some j /\ can c j).
  { destruct (findNext (selectable c) 0) as [j|]; [by exists j; destruct H0 as (_ & ? & _)|]. exfalso. apply (H0 i); [lia|done]. }
  destruct (current c) as [k|]; [|done]. assert (H1 := findNext_spec (selectable c) (k + 1)).
  destruct (findNext (selectable c) (k + 1)) as [j|]; [|done]. exists j. split; [done|]. by destruct H1 as (_ & ? & _).
Qed.

Lemma next_result (c : container) (j : nat) : next c = Some j -> can c j.
Proof.
  unfold next. assert (H0 := findNext_spec (selectable c) 0).
  destruct (current c) as [k|].
  - assert (H1 := findNext_spec (selectable c) (k + 1)).
    destruct (findNext (selectable c) (k + 1)) as [n|]; [intros [= <-]; by destruct H1 as (_ & ? & _)|].
    intros E. rewrite E in H0. by destruct H0 as (_ & ? & _).
  - intros E. rewrite E in H0. by destruct H0 as (_ & ? & _).
Qed.

Lemma previous_result (c : container) (j : nat) : previous c = Some j -> can c j.
Proof.
  unfold previous. set (r := default _ _). assert (H0 := findPrevious_spec (selectable c) r).
  assert (H1 := findPrevious_spec (selectable c) (List.length (selectable c))).
  destruct (findPrevious (selectable c) r) as [n|]; [intros [= <-]; by destruct H0 as (_ & ? & _)|].
  destruct (_ =? _)%nat; [done|]. intros E. rewrite E in H1. by destruct H1 as (_ & ? & _).
Qed.

Lemma findNext_unique (l : list bool) (b j : nat) :
  (b <= j)%nat -> l !! j = Some true -> (forall k, (b <= k < j)%nat -> l !! k <> Some true) -> findNext l b = Some j.
Proof.
  intros Hb Hj Hk. assert (H := findNext_spec l b). destruct (findNext l b) as [i|]; [|exfalso; by apply (H j)].
  destruct H as (Hbi & Hi & Hki). f_equal. destruct (Nat.lt_trichotomy i j) as [?|[?|?]]; [|done|]; exfalso.
  - apply (Hk i); [lia|done].
  - apply (Hki j); [lia|done].
Qed.

Lemma findPrevious_unique (l : list bool) (r j : nat) :
  (j < r)%nat -> l !! j = Some true -> (forall k, (j < k < r)%nat -> l !! k <> Some true) -> findPrevious l r = Some j.
Proof.
  intros Hr Hj Hk. assert (H := findPrevious_spec l r). destruct (findPrevious l r) as [i|]; [|exfalso; by apply (H j)].
  destruct H as (Hbi & Hi & Hki). f_equal. destruct (Nat.lt_trichotomy i j) as [?|[?|?]]; [|done|]; exfalso.
  - apply (Hki j); [lia|done].
  - apply (Hk i); [lia|done].
Qed.

(** Moving to an element, and what is around it. *)
Lemma current_moved (c : container) (j : nat) : can c j -> current (setCurrent c (Some j)) = Some j.
Proof. intros Hj. apply current_spec. split; [done|]. by apply can_lt. Qed.

Lemma next_back (c : container) (i : nat) : current c = Some i -> can c i -> previous (setCurrent c (next c)) = Some i.
Proof.
  intros Ec Hi. assert (Hlt := can_lt c i Hi). unfold next. rewrite Ec.
  assert (N1 := findNext_spec (selectable c) (i + 1)). assert (N0 := findNext_spec (selectable c) 0).
  destruct (findNext (selectable c) (i + 1)) as [j|].
  - destruct N1 as (Hj & Hl & Hb). unfold previous. rewrite current_moved by done. cbn [setCurrent selectable from_option id].
    rewrite (findPrevious_unique _ j i); [done|lia|done|]. intros k Hk. apply Hb. lia.
  - destruct (findNext (selectable c) 0) as [j|]; [|exfalso; by apply (N0 i); [lia|]]. destruct N0 as (_ & Hl & Hb).
    unfold previous. rewrite current_moved by done. cbn [setCurrent selectable from_option id].
    assert (Hjlt := lookup_lt_Some _ _ _ Hl). assert (P1 := findPrevious_spec (selectable c) j).
    destruct (findPrevious (selectable c) j) as [k|].
    { destruct P1 as (Hk & Hlk & _). exfalso. apply (Hb k); [lia|done]. }
    rewrite (proj2 (Nat.eqb_neq j (List.length (selectable c)))) by lia.
    apply findPrevious_unique; [done|done|]. intros k Hk. apply N1. lia.
Qed.

Lemma previous_back (c : container) (i : nat) : current c = Some i -> can c i -> next (setCurrent c (previous c)) = Some i.
Proof.
  intros Ec Hi. assert (Hlt := can_lt c i Hi). unfold previous. rewrite Ec. cbn [from_option id].
  rewrite (proj2 (Nat.eqb_neq i (List.length (selectable c)))) by lia.
  assert (P1 := findPrevious_spec (selectable c) i). assert (P2 := findPrevious_spec (selectable c) (List.length (selectable c))).
  destruct (findPrevious (selectable c) i) as [j|].
  - destruct P1 as (Hj & Hl & Hb). unfold next. rewrite current_moved by done. cbn [setCurrent selectable].
    rewrite (findNext_unique _ (j + 1) i); [done|lia|done|]. intros k Hk. apply Hb. lia.
  - destruct (findPrevious (selectable c) (List.length (selectable c))) as [j|]; [|exfalso; by apply (P2 i)].
    destruct P2 as (Hj & Hl & Hb). unfold next. rewrite current_moved by done. cbn [setCurrent selectable].
    assert (N1 := findNext_spec (selectable c) (j + 1)). destruct (findNext (selectable c) (j + 1)) as [k|].
    { destruct N1 as (Hk & Hlk & _). exfalso. apply (Hb k); [|done]. split; [lia|]. by eapply lookup_lt_Some. }
    apply findNext_unique; [lia|done|]. intros k Hk. apply P1. lia.
Qed.

(** From an element that can be selected, forwards and back again leads to the
    same element, and so does backwards and forwards. *)
Theorem cyclic_inverse (c : container) (i : nat) : current c = Some i -> can c i ->
  previous (setCurrent c (next c)) = Some i /\ next (setCurrent c (previous c)) = Some i.
Proof. intros Ec Hi. by split; [apply next_back|apply previous_back]. Qed.

End CyclicProofs.

(** ** Keys in menus *)
Module MenuProofs.
Import NCHotkey CyclicContainer NCMenuBar CyclicProofs.

(** The entries that can be seen in the menus of a bar. *)
Inductive shown (tops : list item) : item -> Prop :=
| shown_top i : i ∈ tops -> isVisible i = true -> shown tops i
| shown_child i c : shown tops i -> c ∈ children i -> isVisible c = true -> shown tops c.

Section keys.
(** [strict] asks for an entry that can be selected in every menu, and for keys
    other than hot keys. *)
Context (strict : bool) (wcwidth : Z -> Z) (tops : list item).

Definition counts (i : item) : bool := isVisible i && (negb strict || entrySelectable i).

(** Every submenu that can be seen has an entry that counts. *)
Fixpoint fullItem (i : item) : bool :=
  let '(Item _ _ _ _ _ _ l) := i in
  match l with
  | [] => true
  | _ => existsb counts l && forallb (fun c => negb (isVisible c) || fullItem c) l
  end.

Definition fullMenu (l : list item) : bool :=
  existsb counts l && forallb (fun c => negb (isVisible c) || fullItem c) l.

Lemma fullItem_children (i : item) : fullItem i = true -> hasChildren i = true -> fullMenu (children i) = true.
Proof. destruct i as [k lb e v sep m [|c l]]; [done|]. intros H _. exact H. Qed.

Definition entry_ok (i : item) : Prop := isVisible i = true /\ fullItem i = true /\ shown tops i.

Record popup_ok (p : popup) : Prop := {
  ok_entries : Forall entry_ok (entries p);
  ok_selectable : selectable (items p) = map entrySelectable (entries p);
  ok_cursor : exists c, cursor p = Some c /\ (c < List.length (entries p))%nat
                        /\ (strict = true -> current (items p) = Some c /\ can (items p) c);
}.

Lemma ok_length (p : popup) : popup_ok p -> List.length (selectable (items p)) = List.length (entries p).
Proof. intros [_ E _]. by rewrite E, length_map. Qed.

Lemma popup_select_ok (p : popup) (i : option nat) : popup_ok p -> (forall j, i = Some j -> can (items p) j) ->
  popup_ok (selectItem p i).
Proof.
  intros Hp Hi. assert (Hl := ok_length p Hp). destruct i as [j|]; [|done]. specialize (Hi j eq_refl).
  destruct Hp as [He Hs Hc]. split; cbn; [done|done|].
  exists j. split; [done|]. split; [rewrite <- Hl; by apply can_lt|]. intros _.
  split; [exact (current_moved (items p) j Hi)|exact Hi].
Qed.

Lemma newPopup_ok (i : item) : shown tops i -> fullMenu (children i) = true -> popup_ok (newPopup (children i)).
Proof.
  intros Hi [Hex Hall]%andb_prop. unfold newPopup. set (vis := visibleItems (children i)).
  assert (Hvis : forall c, c ∈ vis <-> c ∈ children i /\ isVisible c = true).
  { intros c. unfold vis, visibleItems. rewrite !list_elem_of_In, filter_In. done. }
  assert (Hent : Forall entry_ok vis).
  { apply Forall_forall. intros c [Hc Hv]%list_elem_of_In%Hvis. rewrite forallb_forall in Hall.
    specialize (Hall c (proj1 (list_elem_of_In _ _) Hc)). rewrite Hv in Hall. split_and!; [done|done|].
    by apply shown_child with i. }
  apply existsb_exists in Hex as (c & Hc%list_elem_of_In & [Hv Hsel]%andb_prop).
  assert (Hin : c ∈ vis) by (by apply Hvis). destruct (proj1 (list_elem_of_lookup vis c) Hin) as [j Hj].
  set (cont := Container (map entrySelectable vis) None).
  cbn [items]. fold cont. destruct (next cont) as [n|] eqn:En.
  - cbn [selectItem]. assert (Hn := next_result cont n En). assert (Hlt := can_lt cont n Hn).
    cbn in Hlt. rewrite length_map in Hlt. split; cbn; [done|done|]. exists n. split; [done|]. split; [done|].
    intros _. split; [exact (current_moved cont n Hn)|exact Hn].
  - cbn [selectItem]. assert (Hlt := lookup_lt_Some _ _ _ Hj). split; cbn; [done|done|].
    exists 0%nat. split; [by destruct vis|]. split; [lia|]. intros Est. exfalso.
    rewrite Est in Hsel. cbn in Hsel. destruct (next_can cont j) as (x & Ex & _); [|congruence].
    unfold can. cbn. rewrite list_lookup_fmap, Hj. cbn. by rewrite Hsel.
Qed.

Lemma selectedItem_ok (p : popup) : popup_ok p ->
  exists p' i, selectedItem p = Done (p', i) /\ popup_ok p' /\ entry_ok i
  /\ (strict = true -> p' = p /\ entrySelectable i = true).
Proof.
  intros Hp. assert (Hl := ok_length p Hp). destruct (ok_cursor p Hp) as (c & Ec & Hc & Hst).
  destruct (lookup_lt_is_Some_2 (entries p) c Hc) as [i Ei]. unfold selectedItem. rewrite Ec.
  assert (Hent : entry_ok i) by (eapply Forall_lookup_1; [apply Hp|done]).
  case_decide as E.
  - rewrite E. cbn. rewrite Ei. exists p, i. split_and!; [done|done|done|]. intros Est. split; [done|].
    destruct (Hst Est) as [_ Hcan]. unfold can in Hcan. rewrite (ok_selectable p Hp), list_lookup_fmap, Ei in Hcan.
    by injection Hcan.
  - assert (Hcur : current (items (selectItem p (Some c))) = Some c).
    { apply current_spec. split; [done|]. cbn. by rewrite Hl. }
    rewrite Hcur. cbn. rewrite Ei. eexists _, i. split; [done|]. split_and!; [|done|intros Est; by destruct (Hst Est)].
    destruct Hp as [He Hs _]. split; cbn; [done|done|]. exists c. split_and!; [done|done|].
    intros Est. by destruct (Hst Est).
Qed.

Definition permitted (k : key) : Prop := strict = true -> forall c, k <> KEY_CHAR c.

Lemma findItem_lt (f : item -> bool) (l : list item) (i : nat) : findItem f l = Some i -> (i < List.length l)%nat.
Proof.
  revert i. induction l as [|x l IH]; intros i; cbn; [done|]. destruct (f x); [intros [= <-]; lia|].
  intros (j & E & ->)%fmap_Some. apply IH in E. lia.
Qed.

Lemma pressReturn_ok (p : popup) (b : bool) : popup_ok p -> exists p' e, pressReturn p b = Done (p', e) /\ popup_ok p'.
Proof.
  intros Hp. unfold pressReturn. destruct (selectedItem_ok p Hp) as (p' & i & -> & Hp' & _). cbn.
  destruct (hasChildren i); by eauto.
Qed.

Lemma popupInput_ok (p : popup) (k : key) : popup_ok p -> permitted k ->
  exists p' e, popupInput wcwidth p k = Done (p', e) /\ popup_ok p'.
Proof.
  intros Hp Hk. destruct k as [| | | | | | |c]; cbn [popupInput]; try by eauto using pressReturn_ok.
  - destruct (selectedItem_ok p Hp) as (p' & i & -> & Hp' & _). cbn. by eauto.
  - eexists _, _. split; [done|]. apply popup_select_ok; [done|]. intros j. apply previous_result.
  - eexists _, _. split; [done|]. apply popup_select_ok; [done|]. intros j. apply next_result.
  - unfold setItemByKey. destruct (_ || _); [by eauto|].
    destruct (findItem (matches wcwidth c) (entries p)) as [n|] eqn:E; [|by eauto]. cbn.
    apply pressReturn_ok. destruct Hp as [He Hs _]. split; cbn; [done|done|]. exists n. split; [done|].
    split; [by eapply findItem_lt|]. intros Est. by destruct (Hk Est c).
Qed.

(** *** The bar *)

Record bar_ok (b : bar) : Prop := {
  ok_menus : Forall (fun m => shown tops (fst m) /\ fullMenu (children (fst m)) = true) (menus b);
  ok_count : List.length (selectable (_menus b)) = List.length (menus b);
  ok_current : is_Some (current (_menus b));
}.

Lemma selectMenu_ok (b : bar) (i : option nat) : bar_ok b ->
  (forall j, i = Some j -> (j < List.length (menus b))%nat) -> bar_ok (selectMenu b i).
Proof.
  intros [Hm Hc Hcur] Hi. destruct i as [j|]; [|by split]. split; [done|done|].
  exists j. apply current_spec. split; [done|]. cbn. rewrite Hc. by apply Hi.
Qed.

Lemma moved_ok (b : bar) : bar_ok b -> bar_ok (selectMenu b (next (_menus b))) /\ bar_ok (selectMenu b (previous (_menus b))).
Proof.
  intros Hb. split; (apply selectMenu_ok; [done|]); intros j E; rewrite <- (ok_count b Hb); apply can_lt;
    [by apply next_result|by apply previous_result].
Qed.

Record state_ok (s : state) : Prop := {
  ok_bar : bar_ok (theBar s);
  ok_popups : Forall popup_ok (popups s);
}.

Lemma postMenu_ok (b : bar) : bar_ok b -> exists s, postMenu b = Done s /\ state_ok s.
Proof.
  intros Hb. unfold postMenu. destruct (ok_current b Hb) as [i Ei]. rewrite Ei. cbn.
  apply current_spec in Ei as [_ Hi]. rewrite (ok_count b Hb) in Hi.
  destruct (lookup_lt_is_Some_2 (menus b) i Hi) as [m Em]. rewrite Em. eexists. split; [done|].
  split; [done|]. constructor; [|done]. destruct (Forall_lookup_1 _ _ _ _ (ok_menus b Hb) Em) as [Hs Hf].
  by apply newPopup_ok.
Qed.

Lemma closed_ok (b : bar) : bar_ok b -> state_ok (State b []).
Proof. intros Hb. by split. Qed.

Lemma barInput_ok (b : bar) (k : key) : bar_ok b -> exists s, barInput b k = Done s /\ state_ok s.
Proof.
  intros Hb. destruct (moved_ok b Hb) as [Hn Hp].
  destruct k; cbn [barInput]; try (by apply postMenu_ok); eexists; (split; [done|]); by apply closed_ok.
Qed.

Lemma handlePostMenu_ok (b : bar) (e : event) : bar_ok b -> exists s, handlePostMenu wcwidth b e = Done s /\ state_ok s.
Proof.
  intros Hb. destruct (moved_ok b Hb) as [Hn Hp].
  destruct e as [| | | |k|]; cbn [handlePostMenu]; try (by apply postMenu_ok);
    try (eexists; (split; [done|]); by apply closed_ok).
  unfold wHandleHotkey. destruct (findMenuWithHotkey wcwidth b k) as [i|] eqn:E.
  - apply postMenu_ok, selectMenu_ok; [done|]. intros j [= <-]. apply findItem_lt in E. by rewrite length_map in E.
  - eexists. split; [done|]. by apply closed_ok.
Qed.

(** What is chosen: an entry that can be seen, without a submenu. *)
Definition choice (i : item) : Prop :=
  shown tops i /\ hasChildren i = false /\ (strict = true -> isEnabled i = true /\ isSeparator i = false).

Lemma postAgain_ok (b : bar) (p : popup) (outer : list popup) (e : event) :
  bar_ok b -> popup_ok p -> Forall popup_ok outer ->
  exists s ch, postAgain wcwidth b p outer e = Done (s, ch) /\ state_ok s /\ (forall i, ch = Some i -> choice i).
Proof.
  intros Hb Hp Ho. unfold postAgain. destruct (selectedItem_ok p Hp) as (p' & i & -> & Hp' & (Hv & Hf & Hs) & Hsel). cbn [obind].
  assert (Hback : exists s ch, (let! s := handlePostMenu wcwidth b e in Done (s, None)) = Done (s, ch)
    /\ state_ok s /\ (forall i, ch = Some i -> choice i)).
  { destruct (handlePostMenu_ok b e Hb) as (s & -> & Hst). by exists s, None. }
  destruct e; try done.
  - destruct outer; [done|]. eexists _, None. split; [done|]. split; [by split|done].
  - destruct (hasChildren i) eqn:Ec.
    + eexists _, None. split; [done|]. split; [|done]. split; [done|]. constructor; [|by constructor].
      apply newPopup_ok; [done|]. by apply fullItem_children.
    + eexists _, _. split; [done|]. split; [by apply closed_ok|]. intros x [= <-]. split_and!; [done|done|].
      intros Est. destruct (Hsel Est) as [_ [He Hsep]%andb_prop]. split; [done|]. by destruct (isSeparator i).
Qed.

Lemma menuKeys_ok (s : state) (ks : list key) : state_ok s -> Forall permitted ks ->
  exists s' chosen, menuKeys wcwidth s ks = Done (s', chosen) /\ state_ok s' /\ Forall choice chosen.
Proof.
  intros Hs Hks. revert s Hs. induction Hks as [|k ks Hk _ IH]; intros s Hs; cbn [menuKeys]; [by exists s, []|].
  assert (Hstep : exists s' ch, menuInput wcwidth s k = Done (s', ch) /\ state_ok s' /\ (forall i, ch = Some i -> choice i)).
  { unfold menuInput. destruct Hs as [Hb Hp]. destruct (popups s) as [|p outer].
    - destruct (barInput_ok (theBar s) k Hb) as (s' & -> & Hs'). by exists s', None.
    - apply Forall_cons_iff in Hp as [Hp Ho].
      destruct (popupInput_ok p k Hp Hk) as (p' & e & -> & Hp'). cbn [obind].
      assert (Hmore := postAgain_ok (theBar s) p' outer e Hb Hp' Ho).
      destruct e; try done. eexists _, None. split; [done|]. split; [|done]. by split; [|constructor]. }
  destruct Hstep as (s1 & ch & -> & Hs1 & Hch). cbn [obind].
  destruct (IH s1 Hs1) as (s2 & rest & -> & Hs2 & Hrest). cbn [obind]. eexists _, _. split; [done|]. split; [done|].
  destruct ch as [i|]; cbn; [|done]. constructor; [by apply Hch|done].
Qed.

(** *** Building the bar *)

Lemma placeMenus_spec (l : list item) (w : Z) (ms : list (item * Z)) (w' : Z) :
  placeMenus wcwidth w l = Ok (ms, w') -> map fst ms = visibleItems l.
Proof.
  revert w ms w'. induction l as [|i l IH]; intros w ms w'; cbn [placeMenus]; [by intros [= <- <-]|].
  destruct (isMenu i); cbn [negb]; [|done]. unfold visibleItems in *. cbn [List.filter].
  destruct (isVisible i) eqn:Ev; cbn [negb]; [|by apply IH].
  destruct (placeMenus wcwidth (w + (labelWidth wcwidth (label i) + 2)) l) as [[ms1 w1]|] eqn:E; [|done]. cbn.
  intros [= <- <-]. cbn. f_equal. by eapply IH.
Qed.

Lemma rebuildMenuTree_ok (b : bar) : rebuildMenuTree wcwidth tops = Ok b ->
  existsb (fun i => isVisible i && isEnabled i) tops = true ->
  forallb (fun i => negb (isVisible i) || fullMenu (children i)) tops = true -> state_ok (State b []).
Proof.
  intros E (x & Hx & [Hv He]%andb_prop)%existsb_exists Hall. apply closed_ok. unfold rebuildMenuTree in E.
  destruct (placeMenus wcwidth 0 tops) as [[ms w]|] eqn:Ep; [|done].
  cbn [rbind fst snd _menus] in E. injection E as <-.
  assert (Hms := placeMenus_spec _ _ _ _ Ep).
  set (c := Container (map (fun m => isEnabled (fst m)) ms) None).
  assert (Hin : x ∈ map fst ms).
  { rewrite Hms. unfold visibleItems. by rewrite list_elem_of_In, filter_In. }
  apply list_elem_of_fmap in Hin as (m & -> & [j Hj]%list_elem_of_lookup).
  destruct (next_can c j) as (n & En & Hn).
  { unfold can. cbn. rewrite list_lookup_fmap, Hj. cbn. by rewrite He. }
  fold c. rewrite En. split; cbn [menus selectMenu _menus setCurrent selectable].
  - apply Forall_forall. intros m' Hm'%list_elem_of_In. assert (Hvis : fst m' ∈ visibleItems tops) by (rewrite <- Hms; by apply list_elem_of_fmap_2).
    unfold visibleItems in Hvis. rewrite list_elem_of_In, filter_In in Hvis. destruct Hvis as [Ht Hv'].
    split; [apply shown_top; [by apply list_elem_of_In|done]|]. rewrite forallb_forall in Hall.
    specialize (Hall _ Ht). by rewrite Hv' in Hall.
  - apply length_map.
  - exists n. exact (current_moved c n Hn).
Qed.

End keys.

(** C34: A menu bar with a menu that is visible and enabled, in which every menu that
    can be seen has a visible entry: no keys lead to a null entry, and what is
    chosen are visible entries without a submenu. *)
Theorem menus_safe (wcwidth : Z -> Z) (tops : list item) (b : bar) (ks : list key) :
  rebuildMenuTree wcwidth tops = Ok b ->
  existsb (fun i => isVisible i && isEnabled i) tops = true ->
  forallb (fun i => negb (isVisible i) || fullMenu false (children i)) tops = true ->
  exists s chosen, menuKeys wcwidth (State b []) ks = Done (s, chosen)
  /\ Forall (fun i => shown tops i /\ hasChildren i = false) chosen.
Proof.
  intros E H1 H2. assert (Hs := rebuildMenuTree_ok false wcwidth tops b E H1 H2).
  destruct (menuKeys_ok false wcwidth tops (State b []) ks Hs) as (s & chosen & -> & _ & Hc).
  - by apply Forall_true.
  - exists s, chosen. split; [done|]. eapply List.Forall_impl; [|exact Hc]. intros i (? & ? & _). done.
Qed.

(** If each of these menus has an entry that can be selected, then without hot
    keys only enabled entries are chosen. *)
Theorem enabled_chosen (wcwidth : Z -> Z) (tops : list item) (b : bar) (ks : list key) :
  rebuildMenuTree wcwidth tops = Ok b ->
  existsb (fun i => isVisible i && isEnabled i) tops = true ->
  forallb (fun i => negb (isVisible i) || fullMenu true (children i)) tops = true ->
  (forall c, KEY_CHAR c ∉ ks) ->
  exists s chosen, menuKeys wcwidth (State b []) ks = Done (s, chosen)
  /\ Forall (fun i => shown tops i /\ hasChildren i = false /\ isEnabled i = true /\ isSeparator i = false) chosen.
Proof.
  intros E H1 H2 Hks. assert (Hs := rebuildMenuTree_ok true wcwidth tops b E H1 H2).
  destruct (menuKeys_ok true wcwidth tops (State b []) ks Hs) as (s & chosen & -> & _ & Hc).
  - apply Forall_forall. intros k Hk%list_elem_of_In _ c ->. by apply (Hks c).
  - exists s, chosen. split; [done|]. eapply List.Forall_impl; [|exact Hc]. intros i (? & ? & H). by destruct (H eq_refl).
Qed.

End MenuProofs.

(** ** Examples *)
Module MenuSamples.
Import NCHotkey NCMenuBar CyclicContainer MenuProofs HotkeyProofs CyclicProofs.

Definition wide (k : Z) : Z := 1.

Definition codes (s : cstring) : list Z := map code s.

(** A conversion of UTF-8 as [iconv()] does it; it does not look for mistakes. *)
Definition decode1 (s : cstring) : option (Z * cstring) :=
  match s with
  | [] => None
  | a :: s =>
      if code a <? 128 then Some (code a, s)
      else match s with
           | [] => None
           | b :: s =>
               if code a <? 224 then Some ((code a - 192) * 64 + (code b - 128), s)
               else match s with
                    | [] => None
                    | c :: s =>
                        let z := (code b - 128) * 64 + (code c - 128) in
                        if code a <? 240 then Some ((code a - 224) * 4096 + z, s)
                        else match s with
                             | [] => None
                             | d :: s => Some ((code a - 240) * 262144 + z * 64 + (code d - 128), s)
                             end
                    end
           end
  end.

Fixpoint decode (fuel : nat) (s : cstring) : list Z * cstring :=
  match fuel, decode1 s with
  | S fuel', Some (c, s') => let '(cs, r) := decode fuel' s' in (c :: cs, r)
  | _, _ => ([], s)
  end.

Definition iconv (s : cstring) : list Z * cstring := decode (List.length s) s.

Lemma decode1_utf8 (c : Z) (r : cstring) : unicode c -> decode1 (utf8 c ++ r) = Some (c, r).
Proof.
  intros [Hc _]. unfold utf8.
  destruct (Z.ltb_spec c 128); [|destruct (Z.ltb_spec c 2048); [|destruct (Z.ltb_spec c 65536)]]; cbn [app decode1];
    rewrite !YShortcut.code_char_of by (Z.to_euclidean_division_equations; lia);
    repeat match goal with |- context [?x <? ?y] =>
      first [rewrite (proj2 (Z.ltb_lt x y)) by (Z.to_euclidean_division_equations; lia)
            |rewrite (proj2 (Z.ltb_ge x y)) by (Z.to_euclidean_division_equations; lia)] end;
    do 2 f_equal; Z.to_euclidean_division_equations; lia.
Qed.

Lemma iconv_utf8 (cs : list Z) : Forall unicode cs -> iconv (encode cs) = (cs, []).
Proof.
  intros Hu. unfold iconv. assert (H : forall fuel, (List.length cs <= fuel)%nat -> decode fuel (encode cs) = (cs, [])).
  { induction Hu as [|c cs Hc _ IH]; intros fuel Hf; [by destruct fuel|]. destruct fuel as [|fuel]; [cbn in Hf; lia|].
    cbn [encode flat_map decode]. rewrite decode1_utf8 by done. fold (encode cs). rewrite IH by (cbn in Hf; lia). done. }
  apply H. clear. induction cs as [|c cs IH]; [done|]. change (encode (c :: cs)) with (utf8 c ++ encode cs). rewrite length_app.
  destruct (utf8_cons c) as (b & bs & ->). cbn [List.length] in *. lia.
Qed.

Definition entry (k : Z) (lb : string) (enabled : bool) : item := Item k (codes (str lb)) enabled true false false [].
Definition menu (k : Z) (lb : string) (enabled : bool) (l : list item) : item := Item k (codes (str lb)) enabled true false true l.

(** A bar with the menus File, with a submenu, and Help. *)
Definition sampleMenus : list item :=
  [menu 1 "&File" true [entry 2 "&Open" false; menu 3 "&Recent" true [entry 4 "a" true]; entry 5 "&Quit" true];
   menu 6 "&Help" true [entry 7 "&About" true]].

Definition built (l : list item) : state :=
  match rebuildMenuTree wide l with Ok b => State b [] | Throw _ => State (Bar [] (Container [] None) 0) [] end.

Definition chosenBy (l : list item) (ks : list key) : outcome (list Z) :=
  let! r := menuKeys wide (built l) ks in Done (map itemKey (snd r)).

(** The label is "R&&D für &Menüs". *)
Definition sampleLabel : list Z := [82; 38; 38; 68; 32; 102; 252; 114; 32; 38; 77; 101; 110; 252; 115].

Lemma hotkey_agrees_witness :
  exists pre r, [82; 38; 68; 32; 102; 252; 114; 32; 77; 101; 110; 252; 115] = pre ++ 77 :: r /\
    code (YShortcut.findShortcut (encode sampleLabel) 0) = 77 /\
    hotp (getHotkey wide (newString sampleLabel)) = Some (columns wide pre).
Proof.
  destruct (hotkey_agrees iconv iconv_utf8 wide sampleLabel) as (w & text & Ew & Et & En & H).
  - repeat (constructor; [unfold unicode; lia|]). constructor.
  - apply (bool_decide_unpack _). vm_compute. exact I.
  - vm_compute in Ew. injection Ew as <-. vm_compute in Et. injection Et as <-.
    destruct H as (pre & k & r & E & Hk & Hp & _ & Ha). assert (k = 77) as -> by (rewrite <- Hk; vm_compute; reflexivity).
    exists pre, r. split; [exact E|]. split; [apply Ha; lia|exact Hp].
Defined.

(** The hot key of the label "&Öffnen" is the letter, the shortcut of the manager
    its first byte. *)
Theorem umlaut_hotkey :
  hotk (getHotkey wide (newString [38; 214; 102; 102; 110; 101; 110])) = 214 /\
  code (YShortcut.findShortcut (encode [38; 214; 102; 102; 110; 101; 110]) 0) = 195.
Proof. vm_compute. done. Qed.

Lemma menus_safe_witness :
  exists s chosen, menuKeys wide (built sampleMenus) [KEY_DOWN; KEY_RIGHT; KEY_RETURN; KEY_CHAR 104; KEY_SPACE] = Done (s, chosen)
  /\ Forall (fun i => shown sampleMenus i /\ hasChildren i = false) chosen.
Proof. apply (menus_safe wide sampleMenus); reflexivity. Defined.

Lemma enabled_chosen_witness :
  exists s chosen, menuKeys wide (built sampleMenus) [KEY_DOWN; KEY_DOWN; KEY_RETURN] = Done (s, chosen)
  /\ Forall (fun i => shown sampleMenus i /\ hasChildren i = false /\ isEnabled i = true /\ isSeparator i = false) chosen.
Proof. apply (enabled_chosen wide sampleMenus); [reflexivity..|]. intros c. set_solver. Defined.

Lemma cyclic_inverse_witness :
  let c := Container [true; false; true] (Some 2%nat) in
  previous (setCurrent c (next c)) = Some 2%nat /\ next (setCurrent c (previous c)) = Some 2%nat.
Proof. apply (cyclic_inverse (Container [true; false; true] (Some 2%nat)) 2); reflexivity. Defined.

(** The keys go through submenus and to the next menu. *)
Lemma sample_keys :
  chosenBy sampleMenus [KEY_DOWN; KEY_RIGHT; KEY_LEFT; KEY_DOWN; KEY_RETURN; KEY_DOWN; KEY_LEFT; KEY_RETURN] = Done [5; 7].
Proof. vm_compute. reflexivity. Qed.

(** The hot key of a disabled entry chooses it, as does Return if there is no
    other entry. *)
Lemma disabled_chosen : chosenBy sampleMenus [KEY_DOWN; KEY_CHAR 111] = Done [2].
Proof. vm_compute. reflexivity. Qed.

Lemma only_disabled_chosen : chosenBy [menu 1 "&File" true [entry 2 "&Open" false]] [KEY_DOWN; KEY_RETURN] = Done [2].
Proof. vm_compute. reflexivity. Qed.

(** The hot key of a disabled menu opens it. *)
Lemma disabled_menu_opened :
  match wHandleHotkey wide (theBar (built [menu 1 "&File" false [entry 2 "&Open" true]; menu 3 "&Help" true []])) 102 with
  | Done s => map (fun p => map itemKey (entries p)) (popups s)
  | _ => []
  end = [[2]].
Proof. vm_compute. reflexivity. Qed.

(** Without a menu that is enabled, and in a menu without visible entries, keys
    dereference [end()]. *)
Lemma no_menu_undefined : chosenBy [menu 1 "&File" false [entry 2 "&Open" true]] [KEY_DOWN] = Undefined.
Proof. vm_compute. reflexivity. Qed.

Lemma empty_menu_undefined : chosenBy [menu 1 "&File" true []] [KEY_DOWN; KEY_LEFT] = Undefined.
Proof. vm_compute. reflexivity. Qed.

(** An underscore is taken for the marker. *)
Lemma underscore_taken :
  let n := getHotkey wide (newString (codes (str "user_name"))) in
  wstr n = codes (str "username") /\ hotk n = 110 /\ hotp n = Some 4.
Proof. vm_compute. done. Qed.

End MenuSamples.
