(* ===== verification/ComboBox.v ===== *)
(** * Combo boxes of the text mode

    src/libyui-ncurses/src/NCComboBox.cc on top of src/libyui/src/YComboBox.cc: a text,
    which can be edited or not, with a list to choose it from. Which item is
    selected follows from the text. A text is a list of code points; positions
    are of the type [size_t]. Writing behind the end of the text throws an
    exception that nobody catches, and reading there is undefined. *)
From S2P Require Import Prelude CNum.
From Stdlib Require Import String.

Local Open Scope Z_scope.

Module NCComboBox.

(** [win] is whether there is a window; [deflist] are the labels of the items.
    [_inputMaxLength] is that of the base class, [InputMaxLength] the member of
    this class. *)
Record combo : Type := Combo {
  mayedit : bool;
  privText : list Z;
  buffer : list Z;
  modified : bool;
  fldstart : Z;
  fldlength : Z;
  curpos : Z;
  win : bool;
  validChars : list Z;
  deflist : list (list Z);
  index : Z;
  InputMaxLength : Z;
  _inputMaxLength : Z;
}.

(** A difference of positions; texts are too short for a sum to overflow. *)
Definition u64 (n : Z) : Z := if n <? 0 then n + 2 ^ 64 else n.
Definition blen (c : combo) : Z := Z.of_nat (List.length (buffer c)).

Definition edited (c : combo) (b : list Z) (p : Z) : combo :=
  Combo (mayedit c) (privText c) b true (fldstart c) (fldlength c) p (win c) (validChars c) (deflist c) (index c)
        (InputMaxLength c) (_inputMaxLength c).
Definition withCursor (c : combo) (p : Z) : combo :=
  Combo (mayedit c) (privText c) (buffer c) (modified c) (fldstart c) (fldlength c) p (win c) (validChars c) (deflist c)
        (index c) (InputMaxLength c) (_inputMaxLength c).
Definition withStart (c : combo) (s : Z) : combo :=
  Combo (mayedit c) (privText c) (buffer c) (modified c) s (fldlength c) (curpos c) (win c) (validChars c) (deflist c)
        (index c) (InputMaxLength c) (_inputMaxLength c).
Definition withIndex (c : combo) (i : Z) : combo :=
  Combo (mayedit c) (privText c) (buffer c) (modified c) (fldstart c) (fldlength c) (curpos c) (win c) (validChars c)
        (deflist c) i (InputMaxLength c) (_inputMaxLength c).
Definition withList (c : combo) (l : list (list Z)) : combo :=
  Combo (mayedit c) (privText c) (buffer c) (modified c) (fldstart c) (fldlength c) (curpos c) (win c) (validChars c)
        l (index c) (InputMaxLength c) (_inputMaxLength c).

(** [tUpdate()]: the cursor, the part that is shown, and that reading the text
    from there is within the text and its final zero. *)
Definition tUpdate (c : combo) : outcome combo :=
  if negb (win c) then Done c
  else
    let c := if curpos c >? blen c then withCursor c (blen c) else c in
    let c :=
      if blen c >=? fldlength c then
        let c := if curpos c <=? fldstart c
                 then withStart c (if negb (curpos c =? 0) then curpos c - 1 else 0) else c in
        if curpos c >=? u64 (fldstart c + fldlength c - 1)
        then withStart c (u64 (curpos c + (if curpos c =? blen c then 1 else 2) - fldlength c)) else c
      else if negb (fldstart c =? 0) then withStart c 0 else c in
    if negb (fldlength c =? 0) && (fldstart c >? blen c) then Undefined else Done c.

(** [setText()] *)
Definition setText (c : combo) (ntext : list Z) : outcome combo :=
  tUpdate (Combo (mayedit c) ntext ntext false 0 (fldlength c)
                 (if mayedit c then Z.of_nat (List.length ntext) else 0) (win c) (validChars c) (deflist c) (index c)
                 (InputMaxLength c) (_inputMaxLength c)).

Definition newCombo (editable : bool) : combo :=
  Combo editable [] [] false 0 0 0 false [] [] (-1) (-1) (-1).

(** [text()] *)
Definition text (c : combo) : list Z := if modified c then buffer c else privText c.

Definition wCreate (c : combo) (width : Z) : outcome combo :=
  tUpdate (Combo (mayedit c) (privText c) (buffer c) (modified c) (fldstart c) (if negb (width =? 0) then width - 1 else 0)
                 (curpos c) true (validChars c) (deflist c) (index c) (InputMaxLength c) (_inputMaxLength c)).

Definition wDelete (c : combo) : combo :=
  Combo (mayedit c) (privText c) (buffer c) (modified c) (fldstart c) (fldlength c) (curpos c) false (validChars c)
        (deflist c) (index c) (InputMaxLength c) (_inputMaxLength c).

(** [addItem()]; the index of an item is its place. *)
Definition addItem (c : combo) (label : list Z) (selected : bool) : outcome combo :=
  let i := Z.of_nat (List.length (deflist c)) in
  let c := withList c (deflist c ++ [label]) in
  if selected then setText (withIndex c i) label else Done c.

(** The text without the first marker. *)
Fixpoint strip (label : list Z) : list Z :=
  match label with
  | [] => []
  | k :: l => if k =? 38 then l else k :: strip l
  end.

Definition setCurrentItem (c : combo) (nindex : Z) : outcome combo :=
  if nindex <? 0 then Done c
  else match deflist c !! Z.to_nat nindex with
       | Some entry => let! c := setText c (strip entry) in Done (withIndex c nindex)
       | None => Done c
       end.

(** [selectItem()] for the item with an index. *)
Definition selectItem (c : combo) (i : nat) (selected : bool) : outcome combo :=
  match deflist c !! i with
  | Some label => if selected then let! c := setText c label in Done (withIndex c (Z.of_nat i)) else Done c
  | None => Done c
  end.

(** [findItem()] by the label, and the item that the base class takes for the
    selected one. *)
Fixpoint findItem (label : list Z) (l : list (list Z)) : option nat :=
  match l with
  | [] => None
  | x :: l => if decide (x = label) then Some 0%nat else S <$> findItem label l
  end.

Definition selectedItem (c : combo) : option nat := findItem (text c) (deflist c).

(** [YComboBox::setValue()] *)
Definition setValue (c : combo) (newText : list Z) : outcome combo :=
  if decide (is_Some (findItem newText (deflist c))) then setText c newText
  else if mayedit c then setText c newText
  else Throws (YUIGenericException "Invalid value").

Definition deleteAllItems (c : combo) : outcome combo := setText (withList c []) [].

Definition setValidChars (c : combo) (validchars : list Z) : combo :=
  Combo (mayedit c) (privText c) (buffer c) (modified c) (fldstart c) (fldlength c) (curpos c) (win c) validchars
        (deflist c) (index c) (InputMaxLength c) (_inputMaxLength c).

Definition withLimit (c : combo) (nr : Z) : combo :=
  Combo (mayedit c) (privText c) (buffer c) (modified c) (fldstart c) (fldlength c) (curpos c) (win c) (validChars c)
        (deflist c) (index c) (InputMaxLength c) nr.

Definition setInputMaxLength (c : combo) (nr : Z) : outcome combo :=
  let! c :=
    if (nr >=? 0) && (blen c >? nr) then
      let c := Combo (mayedit c) (privText c) (take (Z.to_nat nr) (buffer c)) (modified c) (fldstart c) (fldlength c)
                     (curpos c) (win c) (validChars c) (deflist c) (index c) (InputMaxLength c) (_inputMaxLength c) in
      let! c := tUpdate c in Done (withCursor c (blen c))
    else Done c in
  Done (withLimit c nr).

(** ** Keys *)

(** Shift with the cursor keys is Home and End; [chosen] is what the user chooses
    in the list. *)
Inductive key : Type :=
| KEY_BACKSPACE | KEY_DC | KEY_HOME | KEY_END | KEY_LEFT | KEY_RIGHT
| KEY_HOTKEY (chosen : option nat) | KEY_DOWN (chosen : option nat) | KEY_OTHER (k : Z).

Section input.
Context (iswprint : Z -> bool).

Definition validKey (c : combo) (k : Z) : bool :=
  match validChars c with [] => true | l => (0 <=? k) && bool_decide (k ∈ l) end.

(** [buffer.erase( p, 1 )] and [buffer.insert( p, 1, ch )] *)
Definition eraseAt (b : list Z) (p : Z) : outcome (list Z) :=
  if p >? Z.of_nat (List.length b) then Undefined
  else Done (take (Z.to_nat p) b ++ drop (S (Z.to_nat p)) b).
Definition insertAt (b : list Z) (p ch : Z) : outcome (list Z) :=
  if p >? Z.of_nat (List.length b) then Undefined
  else Done (take (Z.to_nat p) b ++ ch :: drop (Z.to_nat p) b).

(** [listPopup()] *)
Definition listPopup (c : combo) (chosen : option nat) : outcome combo :=
  match deflist c, chosen with
  | _ :: _, Some i => setCurrentItem c (Z.of_nat i)
  | _, _ => Done c
  end.

(** The combo box, and whether it is updated; if not, there is a beep. *)
Definition handleOther (c : combo) (k : Z) : outcome (combo * bool) :=
  let special := k >? 65535 in
  let k := if special then k - 65535 else k in
  if negb (mayedit c) || negb (validKey c k) || (negb special && (257 <? k) && (511 >? k)) || negb (iswprint k)
     || ((InputMaxLength c >=? 0) && (InputMaxLength c <=? blen c))
  then Done (c, false)
  else
    let! b := insertAt (buffer c) (curpos c) k in
    Done (edited c b (curpos c + 1), true).

Definition react (c : combo) (k : key) : outcome (combo * bool) :=
  match k with
  | KEY_BACKSPACE =>
      if mayedit c && negb (curpos c =? 0)
      then let! b := eraseAt (buffer c) (curpos c - 1) in Done (edited c b (curpos c - 1), true)
      else Done (c, false)
  | KEY_DC =>
      if mayedit c && (curpos c <? blen c)
      then let! b := eraseAt (buffer c) (curpos c) in Done (edited c b (curpos c), true)
      else Done (c, false)
  | KEY_HOME =>
      if negb (curpos c =? 0) && (mayedit c || negb (fldstart c =? 0)) then Done (withCursor c 0, true) else Done (c, false)
  | KEY_END =>
      if (curpos c <? blen c) && (mayedit c || (u64 (fldstart c + fldlength c) <=? blen c))
      then Done (withCursor c (blen c), true) else Done (c, false)
  | KEY_LEFT =>
      if negb (curpos c =? 0) then
        if mayedit c then Done (withCursor c (curpos c - 1), true)
        else if negb (fldstart c =? 0) then Done (withCursor c (fldstart c - 1), true) else Done (c, false)
      else Done (c, false)
  | KEY_RIGHT =>
      if mayedit c && (curpos c <? blen c) then Done (withCursor c (curpos c + 1), true)
      else if u64 (fldstart c + fldlength c) <=? blen c
      then Done (withCursor c (u64 (fldstart c + fldlength c)), true) else Done (c, false)
  | KEY_HOTKEY chosen => if mayedit c then Done (c, true) else let! c := listPopup c chosen in Done (c, true)
  | KEY_DOWN chosen => let! c := listPopup c chosen in Done (c, true)
  | KEY_OTHER k => handleOther c k
  end.

Definition wHandleInput (c : combo) (k : key) : outcome combo :=
  let! r := react c k in
  let '(c, update) := r in
  if update : bool then tUpdate c else Done c.

(** Whatever happens to a combo box. *)
Inductive op : Type :=
| WCreate (width : Z) | WDelete | WRedraw | SetText (t : list Z) | AddItem (label : list Z) (selected : bool)
| SetCurrentItem (i : Z) | SelectItem (i : nat) (selected : bool) | SetValue (t : list Z) | DeleteAllItems
| SetValidChars (l : list Z) | SetInputMaxLength (nr : Z) | Key (k : key).

Definition step (c : combo) (o : op) : outcome combo :=
  match o with
  | WCreate width => wCreate c width
  | WDelete => Done (wDelete c)
  | WRedraw => tUpdate c
  | SetText t => setText c t
  | AddItem label selected => addItem c label selected
  | SetCurrentItem i => setCurrentItem c i
  | SelectItem i selected => selectItem c i selected
  | SetValue t => setValue c t
  | DeleteAllItems => deleteAllItems c
  | SetValidChars l => Done (setValidChars c l)
  | SetInputMaxLength nr => setInputMaxLength c nr
  | Key k => wHandleInput c k
  end.

End input.
End NCComboBox.

(** ** The cursor stays in the text *)
Module ComboProofs.
Import NCComboBox.

(** What [tUpdate()] leaves alone. *)
Definition kept (c : combo) : bool * list Z * list Z * bool * Z * bool * list Z * list (list Z) * Z * Z :=
  (mayedit c, privText c, buffer c, modified c, fldlength c, win c, validChars c, deflist c, index c, InputMaxLength c).

Record inside (c : combo) : Prop := {
  in_cursor : 0 <= curpos c;
  in_start : 0 <= fldstart c;
  in_length : 0 <= fldlength c;
  in_text : mayedit c = true -> curpos c <= blen c;
}.

(** The part that is shown begins within the text. *)
Lemma tUpdate_inside (c : combo) : inside c ->
  exists c', tUpdate c = Done c' /\ inside c' /\ kept c' = kept c /\ curpos c' <= curpos c.
Proof.
  intros [H1 H2 H3 H4]. unfold tUpdate. destruct (win c); cbn [negb]; [|exists c; split; [done|]; split; [done|]; split; [done|lia]].
  assert (Hb : 0 <= blen c) by (unfold blen; lia). set (p := Z.min (curpos c) (blen c)).
  set (c1 := if curpos c >? blen c then withCursor c (blen c) else c).
  assert (E1 : curpos c1 = p /\ fldstart c1 = fldstart c /\ fldlength c1 = fldlength c /\ blen c1 = blen c /\ kept c1 = kept c
    /\ mayedit c1 = mayedit c).
  { unfold c1, p. destruct (Z.gtb_spec (curpos c) (blen c)); cbn; split_and!; try done; lia. }
  clearbody c1. destruct E1 as (Ep & Es & El & Eb & Ek & Em).
  assert (Hdone : forall s, 0 <= s -> (fldlength c <> 0 -> s <= blen c) ->
    exists c', (if negb (fldlength (withStart c1 s) =? 0) && (fldstart (withStart c1 s) >? blen (withStart c1 s)) then Undefined
                else Done (withStart c1 s)) = Done c' /\ inside c' /\ kept c' = kept c /\ curpos c' <= curpos c).
  { intros s Hs Hle. change (fldlength (withStart c1 s)) with (fldlength c1). change (fldstart (withStart c1 s)) with s.
    change (blen (withStart c1 s)) with (blen c1). rewrite El, Eb.
    replace (negb (fldlength c =? 0) && (s >? blen c)) with false by lia. eexists. split; [done|].
    split; [split; cbn; rewrite ?Ep, ?El; unfold p; try lia; change (blen (withStart c1 s)) with (blen c1); lia|].
    split; [exact Ek|]. cbn. rewrite Ep. unfold p. lia. }
  assert (Hsame : withStart c1 (fldstart c1) = c1) by (by destruct c1).
  rewrite Eb, El. destruct (Z.geb_spec (blen c) (fldlength c)).
  - set (s1 := if p <=? fldstart c then if negb (p =? 0) then p - 1 else 0 else fldstart c).
    replace (if curpos c1 <=? fldstart c1 then withStart c1 (if negb (curpos c1 =? 0) then curpos c1 - 1 else 0) else c1)
      with (withStart c1 s1) by (unfold s1; rewrite Ep, Es; destruct (p <=? fldstart c); [done|by rewrite <- Es]).
    change (curpos (withStart c1 s1)) with (curpos c1). change (fldstart (withStart c1 s1)) with s1.
    change (fldlength (withStart c1 s1)) with (fldlength c1). change (blen (withStart c1 s1)) with (blen c1).
    rewrite Ep, El, Eb. assert (Hp : 0 <= p <= blen c) by (unfold p; lia).
    assert (Hs1 : 0 <= s1 <= p)
      by (unfold s1; destruct (Z.leb_spec p (fldstart c)); [destruct (Z.eqb_spec p 0); cbn [negb]|]; lia).
    destruct (Z.geb_spec p (u64 (s1 + fldlength c - 1))) as [Hge|]; [|apply Hdone; lia].
    apply (Hdone (u64 (p + (if p =? blen c then 1 else 2) - fldlength c))); unfold u64 in *;
      destruct (Z.ltb_spec (s1 + fldlength c - 1) 0), (Z.eqb_spec p (blen c)); try lia;
      match goal with |- context [?a <? 0] => destruct (Z.ltb_spec a 0) end; lia.
  - rewrite Es. destruct (Z.eqb_spec (fldstart c) 0) as [E0|]; cbn [negb]; [|apply Hdone; lia].
    rewrite <- Hsame, Es, E0. apply Hdone; lia.
Qed.

Lemma kept_fields (c c' : combo) : kept c' = kept c ->
  mayedit c' = mayedit c /\ privText c' = privText c /\ buffer c' = buffer c /\ modified c' = modified c
  /\ deflist c' = deflist c.
Proof. unfold kept. by intros [= -> -> -> -> _ _ _ -> _ _]. Qed.

(** The combo box before and after a change: it can be edited or not, and the
    text that is shown is the value unless it was cut. *)
Definition faithful (c : combo) : Prop := modified c = false -> privText c = buffer c.

Lemma faithful_same (c c' : combo) : privText c' = privText c -> buffer c' = buffer c -> modified c' = modified c ->
  faithful c -> faithful c'.
Proof. intros E1 E2 E3 H Hm. rewrite E1, E2. apply H. congruence. Qed.

Definition becomes (e : bool) (o : outcome combo) (P : combo -> Prop) : Prop :=
  exists c, o = Done c /\ inside c /\ mayedit c = e /\ P c.

Lemma tUpdate_becomes (c : combo) (P : combo -> Prop) : inside c ->
  (forall c', kept c' = kept c -> P c') -> becomes (mayedit c) (tUpdate c) P.
Proof.
  intros Hc HP. destruct (tUpdate_inside c Hc) as (c' & E & Hc' & Hk & _). exists c'. split; [done|]. split; [done|].
  split; [by apply kept_fields in Hk as (-> & _)|by apply HP].
Qed.

Lemma setText_becomes (c : combo) (t : list Z) : inside c ->
  becomes (mayedit c) (setText c t) (fun c' => privText c' = t /\ buffer c' = t /\ modified c' = false /\ deflist c' = deflist c).
Proof.
  intros Hc. unfold setText. apply (tUpdate_becomes (Combo (mayedit c) _ _ _ _ _ _ _ _ _ _ _ _)).
  - split; cbn; [destruct (mayedit c); lia|lia|apply Hc|]. intros ->. unfold blen. cbn. lia.
  - intros c' Hk. apply kept_fields in Hk as (_ & -> & -> & -> & ->). done.
Qed.

Lemma becomes_bind (e : bool) (o : outcome combo) (f : combo -> combo) (P Q : combo -> Prop) : becomes e o P ->
  (forall c, inside c -> mayedit c = e -> P c -> inside (f c) /\ mayedit (f c) = e /\ Q (f c)) ->
  becomes e (let! c := o in Done (f c)) Q.
Proof. intros (c & -> & Hc & He & HP) Hf. cbn. exists (f c). split; [done|]. by apply Hf. Qed.

Lemma becomes_weaken (e : bool) (o : outcome combo) (P Q : combo -> Prop) : becomes e o P ->
  (forall c, P c -> Q c) -> becomes e o Q.
Proof. intros (c & -> & Hc & He & HP) HQ. exists c. auto. Qed.

Lemma Done_becomes (c : combo) (P : combo -> Prop) : inside c -> P c -> becomes (mayedit c) (Done c) P.
Proof. intros Hc HP. by exists c. Qed.

Lemma inside_withIndex (c : combo) (i : Z) : inside c -> inside (withIndex c i).
Proof. intros [H1 H2 H3 H4]. by split. Qed.

Lemma setCurrentItem_becomes (c : combo) (i : Z) : inside c -> becomes (mayedit c) (setCurrentItem c i) (fun c' => faithful c -> faithful c').
Proof.
  intros Hc. unfold setCurrentItem. destruct (i <? 0); [by apply Done_becomes|].
  destruct (deflist c !! Z.to_nat i) as [l|]; [|by apply Done_becomes].
  eapply becomes_bind; [by apply setText_becomes|]. intros c' Hc' He (E1 & E2 & _). split; [by apply inside_withIndex|].
  split; [done|]. intros _ _. cbn. congruence.
Qed.

Lemma listPopup_becomes (c : combo) (chosen : option nat) : inside c ->
  becomes (mayedit c) (listPopup c chosen) (fun c' => faithful c -> faithful c').
Proof.
  intros Hc. unfold listPopup. destruct (deflist c), chosen; try (by apply Done_becomes). by apply setCurrentItem_becomes.
Qed.

(** *** Keys *)

Definition reacts (c : combo) (o : outcome (combo * bool)) : Prop :=
  exists c' b, o = Done (c', b) /\ inside c' /\ mayedit c' = mayedit c /\ (faithful c -> faithful c').

Lemma same_reacts (c : combo) (b : bool) : inside c -> reacts c (Done (c, b)).
Proof. intros Hc. by exists c, b. Qed.

Lemma cursor_reacts (c : combo) (p : Z) : inside c -> 0 <= p -> (mayedit c = true -> p <= blen c) ->
  reacts c (Done (withCursor c p, true)).
Proof. intros [H1 H2 H3 H4] Hp Hb. exists (withCursor c p), true. split; [done|]. by split. Qed.

Lemma edited_reacts (c : combo) (b : list Z) (p : Z) : inside c -> 0 <= p <= Z.of_nat (List.length b) ->
  reacts c (Done (edited c b p, true)).
Proof.
  intros [H1 H2 H3 H4] Hp. exists (edited c b p), true. split; [done|].
  split; [split; cbn; [lia|done|done|intros _; unfold blen; cbn; lia]|]. split; [done|]. intros _. by intros [=].
Qed.

Lemma popup_reacts (c : combo) (chosen : option nat) : inside c -> reacts c (let! c := listPopup c chosen in Done (c, true)).
Proof.
  intros Hc. destruct (listPopup_becomes c chosen Hc) as (c' & -> & H1 & H2 & H3). by exists c', true.
Qed.

Lemma eraseAt_spec (b : list Z) (p : Z) : 0 <= p < Z.of_nat (List.length b) ->
  exists b', eraseAt b p = Done b' /\ Z.of_nat (List.length b') = Z.of_nat (List.length b) - 1.
Proof.
  intros Hp. unfold eraseAt. replace (p >? Z.of_nat (List.length b)) with false by lia. eexists. split; [done|].
  rewrite length_app, length_take, length_drop. lia.
Qed.

Lemma react_ok (iswprint : Z -> bool) (c : combo) (k : key) : inside c -> reacts c (react iswprint c k).
Proof.
  intros Hc. assert (Hin := Hc). destruct Hin as [H1 H2 H3 H4].
  assert (Hb : 0 <= blen c) by (unfold blen; lia).
  destruct k as [| | | | | |chosen|chosen|k]; cbn [react].
  - destruct (mayedit c) eqn:Em; cbn [andb]; [|by apply same_reacts].
    destruct (Z.eqb_spec (curpos c) 0); cbn [negb]; [by apply same_reacts|]. specialize (H4 eq_refl).
    destruct (eraseAt_spec (buffer c) (curpos c - 1)) as (b' & -> & Hl); [unfold blen in *; lia|]. cbn [obind].
    apply edited_reacts; [done|]. unfold blen in *. lia.
  - destruct (mayedit c) eqn:Em; cbn [andb]; [|by apply same_reacts].
    destruct (Z.ltb_spec (curpos c) (blen c)); [|by apply same_reacts].
    destruct (eraseAt_spec (buffer c) (curpos c)) as (b' & -> & Hl); [unfold blen in *; lia|]. cbn [obind].
    apply edited_reacts; [done|]. unfold blen in *. lia.
  - destruct (_ && _); [|by apply same_reacts]. apply cursor_reacts; [done|lia|lia].
  - destruct (_ && _); [|by apply same_reacts]. apply cursor_reacts; [done|lia|lia].
  - destruct (Z.eqb_spec (curpos c) 0); cbn [negb]; [by apply same_reacts|]. destruct (mayedit c) eqn:Em.
    + apply cursor_reacts; [done|lia|]. intros _. specialize (H4 eq_refl). lia.
    + destruct (Z.eqb_spec (fldstart c) 0); cbn [negb]; [by apply same_reacts|]. apply cursor_reacts; [done|lia|congruence].
  - destruct (mayedit c && (curpos c <? blen c)) eqn:E; [apply cursor_reacts; [done|lia|lia]|].
    destruct (Z.leb_spec (u64 (fldstart c + fldlength c)) (blen c)); [|by apply same_reacts].
    apply cursor_reacts; [done| |done]. unfold u64. destruct (Z.ltb_spec (fldstart c + fldlength c) 0); lia.
  - destruct (mayedit c) eqn:Em; [by apply same_reacts|by apply popup_reacts].
  - by apply popup_reacts.
  - unfold handleOther. destruct (mayedit c) eqn:Em; cbn [negb orb]; [|by apply same_reacts].
    destruct (_ || _); [by apply same_reacts|]. specialize (H4 eq_refl). unfold insertAt.
    replace (curpos c >? Z.of_nat (List.length (buffer c))) with false by (unfold blen in *; lia). cbn [obind].
    apply edited_reacts; [done|]. rewrite length_app, length_take. cbn [List.length]. rewrite length_drop.
    unfold blen in *. lia.
Qed.

Lemma wHandleInput_becomes (iswprint : Z -> bool) (c : combo) (k : key) : inside c ->
  becomes (mayedit c) (wHandleInput iswprint c k) (fun c' => faithful c -> faithful c').
Proof.
  intros Hc. unfold wHandleInput. destruct (react_ok iswprint c k Hc) as (c' & b & -> & Hc' & Em & Hf). cbn [obind].
  rewrite <- Em. destruct b; [|by apply Done_becomes]. apply tUpdate_becomes; [done|].
  intros c2 Hk H%Hf. apply kept_fields in Hk as (_ & E1 & E2 & E3 & _). by apply (faithful_same c').
Qed.

(** *** All operations *)

Definition valid (o : op) : Prop := match o with WCreate width => 0 <= width | _ => True end.
Definition cuts (o : op) : bool := match o with SetInputMaxLength _ => true | _ => false end.

Lemma setInputMaxLength_becomes (c : combo) (nr : Z) : inside c -> becomes (mayedit c) (setInputMaxLength c nr) (fun _ => True).
Proof.
  intros Hc. unfold setInputMaxLength. eapply becomes_bind with (P := fun _ => True).
  - destruct (_ && _) eqn:E; [|by apply Done_becomes].
    set (cut := Combo _ _ (take (Z.to_nat nr) (buffer c)) _ _ _ _ _ _ _ _ _ _).
    (* the cursor may be behind the text until it is set *)
    assert (Hu : exists c', tUpdate cut = Done c' /\ 0 <= fldstart c' /\ 0 <= fldlength c' /\ mayedit c' = mayedit c).
    { destruct (win c) eqn:Ew.
      - assert (Ec : tUpdate cut = tUpdate (withCursor cut (Z.min (curpos cut) (blen cut)))).
        { unfold tUpdate. cbn [withCursor win cut curpos]. rewrite ?Ew. cbn [negb].
          change (blen (withCursor cut (Z.min (curpos c) (blen cut)))) with (blen cut).
          destruct (Z.gtb_spec (curpos c) (blen cut)), (Z.gtb_spec (Z.min (curpos c) (blen cut)) (blen cut)); try lia.
          - by replace (Z.min (curpos c) (blen cut)) with (blen cut) by lia.
          - by replace (Z.min (curpos c) (blen cut)) with (curpos c) by lia. }
        rewrite Ec. destruct (tUpdate_inside (withCursor cut (Z.min (curpos cut) (blen cut)))) as (c' & E' & Hc' & Hk & _).
        + destruct Hc. split; cbn; try done; unfold blen; cbn; lia.
        + exists c'. split; [done|]. split; [apply Hc'|]. split; [apply Hc'|]. by apply kept_fields in Hk as (-> & _).
      - exists cut. unfold tUpdate. cbn [cut win]. rewrite ?Ew. destruct Hc. by split_and!. }
    destruct Hu as (c' & -> & H1 & H2 & H3). cbn [obind]. exists (withCursor c' (blen c')).
    split; [done|]. split; [split; cbn; try done; unfold blen; cbn; lia|done].
  - intros c' [H1 H2 H3 H4] He _. split; [by split|done].
Qed.

Lemma step_becomes (iswprint : Z -> bool) (c : combo) (o : op) : inside c -> valid o ->
  (exists e, step iswprint c o = Throws e)
  \/ becomes (mayedit c) (step iswprint c o) (fun c' => cuts o = false -> faithful c -> faithful c').
Proof.
  intros Hc Hv. assert (Htext : forall c0 t, inside c0 ->
    becomes (mayedit c0) (setText c0 t) (fun c' => cuts o = false -> faithful c -> faithful c')).
  { intros c0 t H0. eapply becomes_weaken; [by apply setText_becomes|]. intros c' (E1 & E2 & _) _ _ _. congruence. }
  assert (Hkept : forall c0 c', privText c0 = privText c -> buffer c0 = buffer c -> modified c0 = modified c ->
    kept c' = kept c0 -> cuts o = false -> faithful c -> faithful c').
  { intros c0 c' E1 E2 E3 (_ & E4 & E5 & E6 & _)%kept_fields _. apply faithful_same; congruence. }
  assert (Hin := Hc). destruct Hin as [H1 H2 H3 H4].
  destruct o as [width| | |t|l sel|i|i sel|t| |l|nr|k]; cbn [step];
    [right..| |right|right|right|right].
  - apply (tUpdate_becomes (Combo (mayedit c) _ _ _ _ _ _ _ _ _ _ _ _)); [|by intros c'; apply Hkept].
    split; cbn; try done. cbn in Hv. destruct (Z.eqb_spec width 0); cbn; lia.
  - apply (Done_becomes (wDelete c)); [by split|]. intros _. by apply faithful_same.
  - apply tUpdate_becomes; [done|]. intros c'. by apply Hkept.
  - by apply Htext.
  - unfold addItem. destruct sel; [apply (Htext (withIndex (withList c _) _)); by split|].
    apply (Done_becomes (withList c _)); [by split|]. intros _. by apply faithful_same.
  - eapply becomes_weaken; [by apply setCurrentItem_becomes|]. auto.
  - unfold selectItem. destruct (deflist c !! i) as [label|]; [|by apply Done_becomes].
    destruct sel; [|by apply Done_becomes]. eapply becomes_bind; [by apply setText_becomes|].
    intros c' Hc' He (E1 & E2 & _). split; [by apply inside_withIndex|]. split; [done|]. intros _ _ _. cbn. congruence.
  - unfold setValue. case_decide; [right; by apply Htext|]. destruct (mayedit c) eqn:Em; [right; rewrite <- Em; by apply Htext|].
    left. by eexists.
  - apply (Htext (withList c [])). by split.
  - apply (Done_becomes (setValidChars c l)); [by split|]. intros _. by apply faithful_same.
  - eapply becomes_weaken; [by apply setInputMaxLength_becomes|]. intros c' _ [=].
  - eapply becomes_weaken; [by apply wHandleInput_becomes|]. auto.
Qed.

Lemma ops_safe (iswprint : Z -> bool) (c : combo) (F : Prop) (ops : list op) : Forall valid ops -> inside c ->
  (F -> faithful c) ->
  match ofold (step iswprint) ops c with
  | Done c' => mayedit c' = mayedit c /\ (mayedit c = true -> 0 <= curpos c' <= blen c')
               /\ (F -> existsb cuts ops = false -> text c' = buffer c')
  | Throws _ => True
  | _ => False
  end.
Proof.
  intros Hops. revert c F. induction Hops as [|o ops Ho _ IH]; intros c F Hc Hf; cbn [ofold existsb].
  - split; [done|]. split; [intros E; split; [apply Hc|by apply Hc]|]. intros HF _. unfold text.
    destruct (modified c) eqn:E; [done|]. by apply Hf.
  - destruct (step_becomes iswprint c o Hc Ho) as [[e ->]|(c' & -> & Hc' & Em & Hf')]; [done|]. cbn [obind].
    assert (H := IH c' (F /\ cuts o = false) Hc' ltac:(intros [HF E]; auto)).
    destruct (ofold (step iswprint) ops c'); [|done..]. rewrite Em in H. destruct H as (H1 & H2 & H3).
    split; [done|]. split; [done|]. intros HF [E1 E2]%orb_false_iff. by apply H3.
Qed.

(** Whatever is done with a combo box, nothing reads or writes outside of its
    text. The cursor of one that can be edited is in the text, and the text that
    is shown is the value, unless it was cut by a limit. *)
Theorem combo_safe (iswprint : Z -> bool) (editable : bool) (ops : list op) : Forall valid ops ->
  match ofold (step iswprint) ops (newCombo editable) with
  | Done c => mayedit c = editable /\ (editable = true -> 0 <= curpos c <= blen c)
              /\ (existsb cuts ops = false -> text c = buffer c)
  | Throws _ => True
  | _ => False
  end.
Proof.
  intros Hops. assert (H := ops_safe iswprint (newCombo editable) True ops Hops ltac:(by split) ltac:(done)).
  destruct (ofold (step iswprint) ops (newCombo editable)); [|done..]. cbn [mayedit newCombo] in H. tauto.
Qed.

(** ** Choosing from the list *)

Lemma strip_plain (l : list Z) : 38 ∉ l -> strip l = l.
Proof.
  induction l as [|k l IH]; intros Hn; cbn; [done|]. apply not_elem_of_cons in Hn as [Hk Hn].
  rewrite (proj2 (Z.eqb_neq k 38)) by congruence. by rewrite IH.
Qed.

Lemma findItem_found (label : list Z) (l : list (list Z)) (i : nat) : l !! i = Some label ->
  exists j, findItem label l = Some j /\ (j <= i)%nat /\ l !! j = Some label.
Proof.
  revert i. induction l as [|x l IH]; intros i; [done|]. cbn [findItem]. case_decide as E; [subst; exists 0%nat; split_and!; [done|lia|done]|].
  destruct i as [|i]; cbn; [congruence|]. intros (j & Ej & Hj & El)%IH. exists (S j). rewrite Ej. split_and!; [done|lia|done].
Qed.

(** Choosing an entry whose label has no marker makes its label the text, and the
    first item with that label the selected one. *)
Theorem combo_choice (iswprint : Z -> bool) (c : combo) (i : nat) (label : list Z) :
  inside c -> deflist c !! i = Some label -> 38 ∉ label ->
  exists c', wHandleInput iswprint c (KEY_DOWN (Some i)) = Done c' /\ text c' = label
  /\ exists j, selectedItem c' = Some j /\ (j <= i)%nat /\ deflist c' !! j = Some label.
Proof.
  intros Hc Ei Hn. unfold wHandleInput. cbn [react]. unfold listPopup, setCurrentItem.
  destruct (deflist c) as [|x l] eqn:El; [done|]. rewrite (proj2 (Z.ltb_ge (Z.of_nat i) 0)) by apply Nat2Z.is_nonneg.
  rewrite Nat2Z.id, Ei, strip_plain by done.
  destruct (setText_becomes c label Hc) as (c1 & -> & H1 & _ & E1 & E2 & E3 & E4). cbn [obind].
  destruct (tUpdate_inside (withIndex c1 (Z.of_nat i)) (inside_withIndex _ _ H1)) as (c2 & E & _ & Hk & _).
  apply kept_fields in Hk as (_ & F1 & F2 & F3 & F4). cbn in F1, F2, F3, F4. exists c2. split; [done|].
  assert (Et : text c2 = label) by (unfold text; destruct (modified c2); congruence). split; [done|].
  unfold selectedItem. rewrite Et, F4, E4, El. by apply findItem_found.
Qed.

End ComboProofs.

(** ** Examples *)
Module ComboSamples.
Import NCComboBox ComboProofs.

Definition printable (k : Z) : bool := (32 <=? k) && (k <=? 126).

Definition after (editable : bool) (ops : list op) : combo :=
  match ofold (step printable) ops (newCombo editable) with Done c => c | _ => newCombo editable end.

Lemma combo_safe_witness :
  match ofold (step printable) [WCreate 5; SetText [97; 98]; Key KEY_LEFT; Key (KEY_OTHER 99)] (newCombo true) with
  | Done c => mayedit c = true /\ (true = true -> 0 <= curpos c <= blen c) /\ (false = false -> text c = buffer c)
  | Throws _ => True
  | _ => False
  end.
Proof. apply (combo_safe printable true [WCreate 5; SetText [97; 98]; Key KEY_LEFT; Key (KEY_OTHER 99)]). by repeat constructor. Defined.

Lemma combo_choice_witness :
  exists c', wHandleInput printable (after false [AddItem [97] true; AddItem [98] false]) (KEY_DOWN (Some 1%nat)) = Done c' /\ text c' = [98].
Proof.
  destruct (combo_choice printable (after false [AddItem [97] true; AddItem [98] false]) 1 [98]) as (c' & E & Et & _);
    [split; vm_compute; done|reflexivity|set_solver|]. by exists c'.
Defined.

(** A limit for the input is not kept: more can be typed, *)
Lemma limit_ignored : text (after true [SetInputMaxLength 1; Key (KEY_OTHER 97); Key (KEY_OTHER 98)]) = [97; 98].
Proof. vm_compute. reflexivity. Qed.

(** And a text that is cut on the screen is still the whole value. *)
Lemma cut_not_stored :
  let c := after true [SetText [97; 98; 99]; SetInputMaxLength 1] in buffer c = [97] /\ text c = [97; 98; 99].
Proof. vm_compute. done. Qed.

(** Choosing the entry "R&D" gives the text "RD", which is no entry. *)
Lemma marker_lost :
  let c := after false [AddItem [82; 38; 68] false; Key (KEY_DOWN (Some 0%nat))] in
  text c = [82; 68] /\ selectedItem c = None /\ index c = 0.
Proof. vm_compute. done. Qed.

(** The index stays when the items are deleted and when a value is set. *)
Lemma index_stale :
  index (after false [AddItem [97] true; DeleteAllItems]) = 0
  /\ index (after false [AddItem [97] true; AddItem [98] false; SetValue [98]]) = 0.
Proof. vm_compute. done. Qed.

End ComboSamples.
